(* ===== verification/_CoqProject ===== *)
-Q . S2P
Prelude.v
Name.v
Symbol.v
Asset.v
Merkle.v
BlockTime.v
BlockHeader.v
BlockHeaderProofs.v
ResourceLimits.v
ResourceLimitsProofs.v
Authority.v
AuthorityProofs.v
Token.v
TokenProofs.v
Permissions.v
PermissionsProofs.v
NativeActions.v
NativeActionsProofs.v
NativeRam.v
NativeRuns.v
ContractTables.v
ContractTablesProofs.v
ContractTablesOps.v
ContractTablesRuns.v
ContractTablesSafety.v
Float64.v
SystemContract.v
VotingProofs.v
Staking.v
StakingProofs.v
StakingRuns.v
RamMarket.v
RamMarketProofs.v
Producers.v
Platforms.v
ProducersProofs.v
Ledgers.v
SystemRuns.v
PlatformsProofs.v
PlatformContract.v
PlatformContractProofs.v
PlatformRuns.v
Datastream.v
ChainConfig.v
Transaction.v
TransactionProofs.v
Block.v
ForkDatabase.v
ForkDatabaseProofs.v
ForkDatabaseRuns.v
Bandwidth.v
TransactionContext.v
TransactionContextProofs.v
TransactionRuns.v
ApplyContext.v
ApplyContextProofs.v
ApplyRuns.v
Multisig.v
MultisigProofs.v
Controller.v
ControllerProofs.v
ControllerRuns.v
ForkSwitch.v
ForkSwitchProofs.v
ForkSwitchRuns.v
BlockLog.v
BlockLogProofs.v
BlockLogRecovery.v
BlockLogRuns.v
AbiSerializer.v
AbiSerializerProofs.v
AbiRoundTrip.v
AbiRuns.v
Airdrop.v
ProducerPlugin.v
ProducerPluginProofs.v
ProducerSafety.v
ProducerQueue.v
ProducerNode.v
ProducerRuns.v
