(* ===== verification/Prelude.v ===== *)
(** * Snax: a verification library for the Snax blockchain node and contracts

    Snax is a delegated-proof-of-stake chain. A node keeps a tree of candidate
    blocks ([fork_database]) whose nodes carry the consensus state of a header
    ([block_header_state]); the [controller] applies the blocks of the best branch
    to a database of accounts, permissions, resource usage and contract tables;
    a transaction is authorised by the [authorization_manager], its actions run
    either as native handlers ([snax_contract.cpp]) or as contract code that uses
    the database interface of [apply_context], and everything is billed by the
    [resource_limits_manager]. Contracts under [src/contracts] keep tokens, stakes
    and votes in their tables. [fc], [chainbase] and [boost] are not part of the
    repository.

    ** How the files follow the sources

    Paths are relative to [src/libraries/chain] unless they start with
    [contracts]; definitions keep the names of the sources.
    - [Prelude]: machine integers, exceptions ([exceptions.hpp]), the result and
      state monads, tactics, lists, sums over finite maps.
    - [Name], [Symbol], [Asset]: [name.hpp], [name.cpp], [symbol.hpp],
      [asset.hpp], [asset.cpp].
    - [Merkle]: [merkle.cpp] and [incremental_merkle.hpp]; [BlockTime]:
      [block_timestamp.hpp].
    - [BlockHeader], proofs in [BlockHeaderProofs]: [block_header.cpp],
      [block_header_state.cpp], [producer_schedule.hpp].
    - [Block]: [block.hpp]; [ForkDatabase], [ForkDatabaseProofs],
      [ForkDatabaseRuns]: [fork_database.cpp], block states being shared objects of
      a store.
    - [ChainConfig]: [chain_config.cpp], the options of a node and what it skips.
    - [Transaction], [TransactionProofs]: [transaction.cpp] and
      [transaction_metadata.hpp].
    - [TransactionContext], [TransactionContextProofs], [Bandwidth],
      [TransactionRuns]: [transaction_context.cpp], limits and bills, duplicates.
    - [ApplyContext], [ApplyContextProofs], [ApplyRuns]: [apply_context.cpp]
      without its tables, notifications, inline and deferred actions.
    - [Controller], [ControllerProofs], [ControllerRuns]: [controller.cpp] from the
      pending block down; [ForkSwitch], [ForkSwitchProofs], [ForkSwitchRuns]: above
      it, received blocks and switches of branches. [ForkSwitch] rests on interfaces
      ([BlockApplier], [Database]) of which [ForkSwitchRuns] makes instances, the
      applier from [Controller].
    - [BlockLog], [BlockLogProofs], [BlockLogRecovery], [BlockLogRuns]:
      [block_log.cpp] on files of bytes, and the writing of irreversible blocks by
      [controller.cpp].
    - [ProducerPlugin]: [plugins/producer_plugin/producer_plugin.cpp], the slots of
      the producers, the production loop with its timer, accepted blocks and
      watermarks, the transactions of a block and those that arrive;
      [ProducerPluginProofs], [ProducerSafety], [ProducerQueue] its theorems against
      the interface [ProducerChain]; [ProducerNode] the public operations of
      [controller.cpp] on [ForkSwitch] and [Controller] behind that interface, with
      its laws; [ProducerRuns] a node that produces.
    - [AbiSerializer], [AbiSerializerProofs], [AbiRoundTrip], [AbiRuns]:
      [abi_serializer.cpp] and [abi_def.hpp].
    - [ResourceLimits], [ResourceLimitsProofs]: [resource_limits.cpp] and
      [resource_limits_private.hpp].
    - [Authority], [AuthorityProofs]: [authority.hpp] and
      [authority_checker.hpp].
    - [Permissions], [PermissionsProofs]: [authorization_manager.cpp] and the
      permission tables.
    - [NativeActions], [NativeActionsProofs], [NativeRam], [NativeRuns]:
      [snax_contract.cpp], the genesis accounts and the producers' permissions of
      [controller.cpp].
    - [ContractTables], [ContractTablesProofs], [ContractTablesOps],
      [ContractTablesRuns], [ContractTablesSafety]: the tables of contracts,
      [contract_table_objects.hpp] and the database interface of
      [apply_context.cpp] and [apply_context.hpp].
    - [Datastream]: the serialization of contract code,
      [contracts/snaxlib/datastream.hpp] and [varint.hpp].
    - [Token], [TokenProofs]: [contracts/snax.token] and the contract library's
      asset and symbol.
    - [Float64]: the doubles of contract code, IEEE 754 binary64.
    - The system contract, [contracts/snax.system]: [SystemContract] its tables,
      votes and proxies ([voting.cpp]), [Staking] delegation, escrow and refunds
      ([delegate_bandwidth.cpp]), [RamMarket] the Bancor market
      ([exchange_state.cpp], [delegate_bandwidth.cpp]), [Producers] registration,
      elections and rewards ([voting.cpp], [producer_pay.cpp]), [Platforms] name
      auctions, new accounts, platforms, parameters and the constructor
      ([snax.system.cpp]). Proofs: [VotingProofs], [StakingProofs],
      [StakingRuns], [RamMarketProofs], [ProducersProofs], [PlatformsProofs];
      [Ledgers] states for every action what it does to the tokens, the RAM and
      the rewards, and [SystemRuns] puts the actions together in runs, each with
      the constructor before it and with the inline transfers and issues it
      sends executed by the token contract after it.
    - The platform contract, [contracts/platform]: [PlatformContract] its tables
      and actions, [PlatformContractProofs] what each action does to them,
      [PlatformRuns] runs of a platform together with the token contract and the
      contract that emits its tokens, which is an interface ([TokenDealer]) that
      the system contract implements.
    - [Multisig], [MultisigProofs]: [contracts/snax.msig] and [contracts/snax.sudo],
      in the context of an action.
    - [Airdrop]: [contracts/snax.airdrop], with its transfers
      carried out by the token contract.

    State is a record per component; an operation returns the new state or an
    exception of type [exn]. [undefined_behavior] marks executions to which C++
    gives no meaning, so that theorems can say when they occur.

    ** What the theorems show

    - Consensus: the proposed irreversible block has two thirds of the producers
      behind it, header states keep their order along a chain, double
      confirmation is refused, schedules rotate, the fork database keeps a tree
      whose head no block beats, removal takes a subtree, pruning keeps the
      rest, saving and loading gives the same tree.
    - Encodings: names, symbols and assets print and parse back; the incremental
      Merkle root is the root of all leaves, for up to 2^31 of them.
    - Transactions: a transaction runs once and is billed what it used within the
      limits of its payers; actions end and their receipts are in the order of
      the depth-first execution of what each of them queued; inline and deferred
      actions carry only authorizations that the code checked.
    - Blocks: the receipts of a block add up to no more than its limits, a
      received block is carried out exactly as its receipts say or refused, scheduled transactions
      that fail are retired. In every run of received blocks the database is the
      one that the blocks linked from the start to the head build, across switches
      of branches, and a better branch whose blocks can be carried out becomes the
      head.
    - The block log refines a list of linked, consecutively numbered blocks;
      opening it again gives the same log with any index that can be told from the
      right one; repairing it keeps every complete block.
    - Production: a producer waits for its first slot that its watermark allows;
      whatever reaches the plugin in whatever order, two blocks it produces for the
      same producer never confirm the same number, unless an accepted block set the
      watermark back; transactions that arrive are answered once or wait. The
      controller keeps the laws this rests on.
    - ABIs: [set_abi] ends and accepts only ABIs whose types are known, resolve and
      have no circular bases; unpacking then never meets an unknown type, and
      unpacks what was packed.
    - Authorization: the checker grants only authorities that are met, an
      authorization that is accepted is at least the required permission, the
      permission trees keep their shape from genesis on.
    - Resources: accumulators stay bounded, elastic limits stay in range, totals
      are the sums over accounts, RAM counters never wrap and follow exactly what
      the rows of an account take, for native actions and for contract tables.
    - Contract tables: counters, keys and iterators stay consistent over any
      sequence of operations by any contracts, contracts cannot touch each other's
      tables or charge accounts that did not agree, loops over a table end and
      see every key in order; stepping back from the end iterator of a removed
      table is the only undefined operation.
    - Tokens: balances add up to the supply, transfers and issues do exactly what
      they say.
    - The system contract: in every run the accounts that hold tokens for the
      contract have exactly what its tables owe ([snax.stake] the stakes and
      refunds, [snax.ram] the stake of the market, [snax.bpay] and [snax.vpay] the
      buckets, [snax.names] at least the bids); RAM sold and RAM for sale add up;
      voting stakes, totals and limits are the sums of the delegations; proxies
      form no cycle, so changes of weight come to an end; elections end,
      choose the producers with the most votes down to the first that they take
      out, and propose them exactly if they are no fewer than before.
      [setplatforms] is not an action of these runs because it breaks the totals: [PlatformsProofs] shows what
      it does to the stake of a removed platform. What the elections do after
      removing a producer, what an escrow of no periods does and what an
      unclaimed name does are theorems too.
    - The multisig contract: its tables refine a map of proposals, and what is sent
      was approved by enough of the requested levels.
    - The airdrop pays each account of a platform at most once.
    - The platform contract: counters, history and phases are consistent in every
      run without [addsymbol], which overwrites the state; the transfers of a round
      are determined exactly, at most one to every account and within the balance;
      the tokens kept for users without an account are backed by [snax.transf].
    - Serialization: what the datastream writes it reads back.

    ** Bounds and fuel

    Loops of the sources that are not structural carry fuel that theorems show to
    be enough: [remove_loop] and [prune] of the fork database run on two more
    than the size of the index, [fetch_branch_from] and the irreversibility queue
    on one more, [satisfies_loop] on the number of permission ids, [walk_keys] on
    one more than the number of rows, [propagate_weight_change] on one more than
    the number of voters, [elect_loop] on one more than the number of producers,
    [convert] on two turns, the loops of [validate] of an ABI on one more than the
    number of its definitions, [construct_loop] and [repair_loop] of the block log
    on one more than the length of the file, [notify_loop] of an action on one more
    than the number of accounts. The loop over scheduled transactions of the
    producer plugin ends for some fuel ([scheduled_loop_ends]), and its runs take
    any. The authority checker, the dispatch of inline
    actions and the ABI serializer recurse on the depth that the code itself allows. Counters of table rows are 32-bit; runs assume fewer than
    2^32 rows in all and row buffers that fit a 32-bit memory. Runs of the system
    contract assume fewer than 2^32 unpaid blocks.

    ** Parameters

    Code that is not in the repository is a type class: [Crypto] (hashing and key
    recovery), [IndexOrder] (the order of equal keys in a multi-index), [Cbrt]
    (the floating-point cube root), [MetaOrder] (the order of a set of checker
    entries), [FcOps] (trimming and integer parsing of fc), [ActionData] and
    [NativeOps] (unpacking, packing and WASM validation), [SoftFloat]
    (floating-point comparison), [CMath] ([pow], [exp] and [log] of the C library),
    [TransactionData] (packing, compression and digests of transactions),
    [Handlers] (what the code of a contract does in an action), [LogCodecs] (packing
    of blocks for the log), [FcVariants] (packing of C++ values from and to
    variants), [BlockApplier], [Database] and [ProducerChain]; readings of the clock are arguments;
    what the chain tells a contract (authorizations, accounts, the time, its
    answer to a proposed schedule) is the context [sys_context]; laws that proofs need are separate classes with
    concrete instances in the witnesses.

    ** Not modelled

    Of the controller its startup from snapshots and genesis files and the read
    mode that applies irreversible blocks only; snapshots; the configuration is
    constant during a transaction. Of the producer plugin its options, snapshots and
    access lists, and what exhausted memory does; the network plugins (sockets
    around [push_block]), the history, wallet and HTTP plugins and the
    programs are input and output around this core. WebAssembly compilation rests
    on libraries outside the repository, as do most of the host functions, which
    pass their arguments on. The contracts [snax.bios] (privileged calls only) and
    the examples are left out, as are fixed-size keys, which wrap an array, and the
    messages of the ABI serializer. *)

From Stdlib Require Import ZArith Lia Bool Ascii String.
From stdpp Require Import base numbers gmap sorting sets list.

Open Scope Z_scope.

(** ** Machine integers

    A [w]-bit unsigned integer of the source is a [Z] in [0, 2^w); the wrap of
    an operation that can leave the range is written out with [u8] .. [u128],
    and [i64] is the two's complement reading of 64 bits. *)
Module Int.

Definition wrap (w z : Z) : Z := z mod 2 ^ w.

Definition u8 (z : Z) : Z := wrap 8 z.
Definition u16 (z : Z) : Z := wrap 16 z.
Definition u32 (z : Z) : Z := wrap 32 z.
Definition u64 (z : Z) : Z := wrap 64 z.
Definition u128 (z : Z) : Z := wrap 128 z.
Definition i64 (z : Z) : Z :=
  let w := wrap 64 z in if w <? 2 ^ 63 then w else w - 2 ^ 64.

Definition UINT16_MAX : Z := 65535.
Definition UINT32_MAX : Z := 4294967295.
Definition UINT64_MAX : Z := 18446744073709551615.
Definition INT64_MAX : Z := 9223372036854775807.
Definition INT64_MIN : Z := -9223372036854775808.

Definition is_u8 (z : Z) : Prop := 0 <= z < 2 ^ 8.
Definition is_u16 (z : Z) : Prop := 0 <= z < 2 ^ 16.
Definition is_u32 (z : Z) : Prop := 0 <= z < 2 ^ 32.
Definition is_u64 (z : Z) : Prop := 0 <= z < 2 ^ 64.
Definition is_i64 (z : Z) : Prop := - 2 ^ 63 <= z < 2 ^ 63.

#[export] Instance is_u64_dec z : Decision (is_u64 z).
Proof. unfold is_u64. apply _. Defined.
#[export] Instance is_u32_dec z : Decision (is_u32 z).
Proof. unfold is_u32. apply _. Defined.
#[export] Instance is_i64_dec z : Decision (is_i64 z).
Proof. unfold is_i64. apply _. Defined.

End Int.
Export Int.

(** ** Exceptions and results

    The exception types the modelled code throws, under the names of
    [exceptions.hpp] ([undefined_behavior] marks an execution the C++ standard
    gives no meaning: an out-of-range shift, a dereferenced null or end
    iterator; [out_of_fuel] marks a bounded loop that reached its bound; [std_out_of_range] is what chainbase's [get] throws on a missing
    row, [uniqueness_violation] what its [create] throws, [std_ios_failure] what a
    file stream throws on a failed read or seek). *)
Inductive exn : Type :=
| undefined_behavior
| out_of_fuel
| std_out_of_range
| uniqueness_violation
| overflow_exception
| parse_error
| name_type_exception
| symbol_type_exception
| asset_type_exception
| block_validate_exception
| unlinkable_block_exception
| wrong_producer
| producer_schedule_exception
| producer_double_confirm
| producer_not_in_schedule
| wrong_signing_key
| fork_database_exception
| database_exception
| fork_db_block_not_found
| resource_limit_exception
| rate_limiting_state_inconsistent
| tx_cpu_usage_exceeded
| tx_net_usage_exceeded
| block_resource_exhausted
| ram_usage_exceeded
| transaction_exception
| authorization_exception
| permission_query_exception
| account_query_exception
| missing_auth_exception
| irrelevant_auth_exception
| unsatisfied_authorization
| tx_irrelevant_sig
| invalid_permission
| unlinkable_min_permission_action
| action_validate_exception
| account_name_exists_exception
| tx_not_found
| key_blacklist_exception
| invalid_contract_vm_type
| invalid_contract_vm_version
| set_exact_code
| invalid_table_payer
| table_access_violation
| invalid_table_iterator
| table_not_in_cache
| table_operation_not_permitted
| subjective_block_production_exception
| wasm_execution_error
| snax_assert_message
| tx_no_auths
| expired_tx_exception
| tx_exp_too_far_exception
| invalid_ref_block_exception
| tx_duplicate
| deferred_tx_duplicate
| cfa_inside_generated_tx
| tx_too_big
| tx_decompression_error
| unknown_transaction_compression
| tx_duplicate_sig
| unsupported_feature
| block_net_usage_exceeded
| greylist_net_usage_exceeded
| block_cpu_usage_exceeded
| greylist_cpu_usage_exceeded
| deadline_exception
| leeway_deadline_exception
| actor_whitelist_exception
| actor_blacklist_exception
| contract_whitelist_exception
| contract_blacklist_exception
| action_blacklist_exception
| unknown_transaction_exception
| inline_action_too_big
| unaccessible_api
| fixed_key_type_exception
| std_ios_failure
| reversible_blocks_exception
| block_log_exception
| block_log_unsupported_version
| block_log_append_fail
| block_log_not_found
| block_log_backup_dir_exist
| bad_cast_exception
| abi_exception
| unsupported_abi_version_exception
| invalid_type_inside_abi
| duplicate_abi_type_def_exception
| duplicate_abi_struct_def_exception
| duplicate_abi_action_def_exception
| duplicate_abi_table_def_exception
| duplicate_abi_err_msg_def_exception
| duplicate_abi_variant_def_exception
| abi_circular_def_exception
| abi_serialization_deadline_exception
| abi_recursion_depth_exception
| unpack_exception
| pack_exception
| guard_exception
| producer_exception
| missing_pending_block_state
| producer_priv_key_not_found
| block_from_the_future
| plugin_config_exception
| transaction_type_exception.

#[export] Instance exn_eq_dec : EqDecision exn.
Proof. solve_decision. Defined.

Inductive result (A : Type) : Type :=
| Ok (a : A)
| Err (e : exn).
Arguments Ok {A} _.
Arguments Err {A} _.

#[export] Instance result_eq_dec `{EqDecision A} : EqDecision (result A).
Proof. solve_decision. Defined.

#[export] Instance result_ret : MRet result := fun A a => Ok a.
#[export] Instance result_bind : MBind result := fun A B f m =>
  match m with Ok a => f a | Err e => Err e end.
#[export] Instance result_fmap : FMap result := fun A B f m =>
  match m with Ok a => Ok (f a) | Err e => Err e end.

(** [SNAX_ASSERT( cond, exc, ... )]. *)
Definition SNAX_ASSERT (cond : bool) (e : exn) : result unit :=
  if cond then Ok tt else Err e.

Definition of_option {A} (e : exn) (o : option A) : result A :=
  match o with Some a => Ok a | None => Err e end.

Definition is_Ok {A} (r : result A) : bool :=
  match r with Ok _ => true | Err _ => false end.

(** ** Stateful code

    [M S A] is code that reads and writes a state [S] and may throw. The state
    reached is kept when an exception is thrown, because the objects that are
    not under a chainbase undo session (the fork database) keep what was
    written before the throw. *)
Definition M (S A : Type) : Type := S -> S * result A.

#[export] Instance M_ret S : MRet (M S) := fun A a s => (s, Ok a).
#[export] Instance M_bind S : MBind (M S) := fun A B f m s =>
  match m s with
  | (s', Ok a) => f a s'
  | (s', Err e) => (s', Err e)
  end.

Definition get_state {S} : M S S := fun s => (s, Ok s).
Definition put_state {S} (s : S) : M S unit := fun _ => (s, Ok tt).
Definition throw {S A} (e : exn) : M S A := fun s => (s, Err e).
Definition lift {S A} (r : result A) : M S A := fun s => (s, r).
Definition M_ASSERT {S} (cond : bool) (e : exn) : M S unit :=
  if cond then mret tt else throw e.

(** [catch (...)] of a handler that only logs: an exception ends the code but not
    its caller. Undefined behaviour is not an exception. *)
Definition catch_all {S} (m : M S unit) : M S unit := fun s =>
  match m s with
  | (s', Err undefined_behavior) => (s', Err undefined_behavior)
  | (s', Err out_of_fuel) => (s', Err out_of_fuel)
  | (s', _) => (s', Ok tt)
  end.

(** The exceptions that [catch] sees. *)
Definition catchable (e : exn) : bool := negb (bool_decide (e = undefined_behavior \/ e = out_of_fuel)).

(** [catch( const fc::exception& )]. The exceptions of chainbase are not fc ones, but
    [exec_one] rethrows what an action throws as fc exceptions, and so do the
    functions of the controller for what leaves them; they are caught here. *)
Definition try_catch {S A} (m : M S A) : M S (A + exn) := fun s =>
  match m s with
  | (s', Ok a) => (s', Ok (inl a))
  | (s', Err e) => if catchable e then (s', Ok (inr e)) else (s', Err e)
  end.

(** ** Monad lemmas and automation *)

Lemma bind_Ok {A B} (f : A -> result B) (m : result A) (b : B) :
  (m ≫= f) = Ok b <-> exists a, m = Ok a /\ f a = Ok b.
Proof. destruct m; simpl; naive_solver. Qed.

Lemma bind_Err {A B} (f : A -> result B) (m : result A) (e : exn) :
  (m ≫= f) = Err e <-> m = Err e \/ exists a, m = Ok a /\ f a = Err e.
Proof. destruct m; simpl; naive_solver. Qed.

Lemma bind_assoc {A B C} (m : result A) (f : A -> result B) (g : B -> result C) :
  ((m ≫= f) ≫= g) = (m ≫= fun a => f a ≫= g).
Proof. by destruct m. Qed.

Lemma assert_Ok c e u : SNAX_ASSERT c e = Ok u <-> c = true.
Proof. destruct c, u; simpl; naive_solver. Qed.

Lemma assert_Err c e e' : SNAX_ASSERT c e = Err e' <-> c = false /\ e = e'.
Proof. destruct c; simpl; naive_solver. Qed.

Lemma of_option_Ok {A} e (o : option A) a : of_option e o = Ok a <-> o = Some a.
Proof. destruct o; simpl; naive_solver. Qed.

Lemma of_option_Err {A} e e' (o : option A) :
  of_option e o = Err e' <-> o = None /\ e = e'.
Proof. destruct o; simpl; naive_solver. Qed.

Lemma M_bind_Ok {S A B} (f : A -> M S B) (m : M S A) s s' b :
  (m ≫= f) s = (s', Ok b) <->
  exists s1 a, m s = (s1, Ok a) /\ f a s1 = (s', Ok b).
Proof.
  unfold mbind, M_bind. destruct (m s) as [s1 [a|e]]; naive_solver.
Qed.

(** The first operation of a sequence, by its result. *)
Lemma bind_run {S A B} (m : M S A) (f : A -> M S B) s s1 a : m s = (s1, Ok a) -> (m ≫= f) s = f a s1.
Proof. unfold mbind, M_bind. by intros ->. Qed.

(** [inv_ok] opens hypotheses that say a monadic computation succeeded. *)
Ltac inv_ok :=
  repeat match goal with
  | H : (_ ≫= _) = Ok _ |- _ => apply bind_Ok in H as (? & ? & ?)
  | H : (_ ≫= _) _ = (_, Ok _) |- _ => apply M_bind_Ok in H as (? & ? & ? & ?)
  | H : SNAX_ASSERT _ _ = Ok _ |- _ => apply assert_Ok in H
  | H : of_option _ _ = Ok _ |- _ => apply of_option_Ok in H
  | H : Ok _ = Ok _ |- _ => injection H as H
  | H : mret _ = Ok _ |- _ => injection H as H
  | H : Err _ = Ok _ |- _ => discriminate H
  | H : Ok _ = Err _ |- _ => discriminate H
  end; simplify_eq.

(** [split_bool] turns the boolean tests of guards into propositions. *)
Ltac split_bool :=
  repeat match goal with
  | H : (_ && _)%bool = true |- _ => apply andb_true_iff in H as [? ?]
  | H : (_ || _)%bool = false |- _ => apply orb_false_iff in H as [? ?]
  | H : negb _ = true |- _ => apply negb_true_iff in H
  | H : negb _ = false |- _ => apply negb_false_iff in H
  | H : bool_decide _ = true |- _ => apply bool_decide_eq_true_1 in H
  | H : bool_decide _ = false |- _ => apply bool_decide_eq_false_1 in H
  | H : (_ <? _) = true |- _ => apply Z.ltb_lt in H
  | H : (_ <? _) = false |- _ => apply Z.ltb_ge in H
  | H : (_ <=? _) = true |- _ => apply Z.leb_le in H
  | H : (_ <=? _) = false |- _ => apply Z.leb_gt in H
  | H : (_ =? _) = true |- _ => apply Z.eqb_eq in H
  | H : (_ =? _) = false |- _ => apply Z.eqb_neq in H
  end.

(** ** Integer lemmas *)

Create HintDb snax discriminated.

Lemma u64_small z : is_u64 z -> u64 z = z.
Proof. apply Z.mod_small. Qed.
Lemma u32_small z : is_u32 z -> u32 z = z.
Proof. apply Z.mod_small. Qed.
Lemma u64_is_u64 z : is_u64 (u64 z).
Proof. apply Z.mod_pos_bound. reflexivity. Qed.
Lemma u32_is_u32 z : is_u32 (u32 z).
Proof. apply Z.mod_pos_bound. reflexivity. Qed.
Lemma u8_is_u8 z : is_u8 (u8 z).
Proof. apply Z.mod_pos_bound. reflexivity. Qed.
Lemma i64_small z : is_i64 z -> i64 z = z.
Proof.
  unfold is_i64, i64, wrap. intros H. cbv zeta.
  change (2 ^ 64) with 18446744073709551616 in *.
  change (2 ^ 63) with 9223372036854775808 in *.
  destruct (Z.ltb_spec (z mod 18446744073709551616) 9223372036854775808) as [Hl|Hl];
    Z.div_mod_to_equations; lia.
Qed.
#[export] Hint Resolve u64_is_u64 u32_is_u32 u8_is_u8 : snax.

Lemma lor_is_u64 a b : is_u64 a -> is_u64 b -> is_u64 (Z.lor a b).
Proof.
  unfold is_u64. intros Ha Hb. split; [apply Z.lor_nonneg; lia|].
  destruct (decide (Z.lor a b = 0)) as [->|Hn]; [lia|].
  assert (0 <= Z.lor a b) by (apply Z.lor_nonneg; lia).
  apply Z.log2_lt_pow2; [lia|]. rewrite Z.log2_lor by lia.
  apply Z.max_lub_lt.
  - destruct (decide (a = 0)) as [->|]; [reflexivity|]. apply Z.log2_lt_pow2; lia.
  - destruct (decide (b = 0)) as [->|]; [reflexivity|]. apply Z.log2_lt_pow2; lia.
Qed.
#[export] Hint Resolve lor_is_u64 : snax.

(** Or-ing bits above a value that fits below them is addition. *)
Lemma lor_shiftl_add a b n :
  0 <= n -> 0 <= b < 2 ^ n -> Z.lor (Z.shiftl a n) b = a * 2 ^ n + b.
Proof.
  intros Hn Hb. rewrite <- Z.add_lor_land, Z.shiftl_mul_pow2 by done.
  assert (Z.land (a * 2 ^ n) b = 0) as ->; [|lia].
  apply Z.bits_inj'. intros m Hm. rewrite Z.land_spec, Z.bits_0.
  destruct (decide (m < n)).
  - rewrite Z.mul_pow2_bits_low by lia. done.
  - destruct (decide (b = 0)) as [->|]; [by rewrite Z.bits_0, andb_false_r|].
    rewrite (Z.bits_above_log2 b m); [by rewrite andb_false_r|lia|].
    apply Z.log2_lt_pow2; [lia|]. apply Z.lt_le_trans with (2 ^ n); [lia|].
    apply Z.pow_le_mono_r; lia.
Qed.

(** ** List lemmas *)

Lemma Forall_filter {A} (P Q : A -> Prop) `{forall x, Decision (Q x)} l :
  Forall P l -> Forall P (filter Q l).
Proof.
  rewrite !Forall_forall. intros Hl x Hx.
  apply list_elem_of_filter in Hx as [_ Hx]. auto.
Qed.

Lemma filter_ext_in {A} (P Q : A -> Prop) `{forall x, Decision (P x)} `{forall x, Decision (Q x)} (l : list A) :
  (forall x, x ∈ l -> P x <-> Q x) -> filter P l = filter Q l.
Proof.
  induction l as [|x l IH]; intros Heq; [done|]. rewrite !filter_cons, IH by set_solver.
  destruct (Heq x ltac:(by left)) as [HPQ HQP]. repeat case_decide; tauto || done.
Qed.

Lemma filter_all {A} (P : A -> Prop) `{forall x, Decision (P x)} (l : list A) :
  (forall x, x ∈ l -> P x) -> filter P l = l.
Proof.
  induction l as [|x l IH]; intros Ha; [done|]. rewrite filter_cons, IH by set_solver.
  rewrite decide_True; [done|]. apply Ha. by left.
Qed.

Lemma filter_none {A} (P : A -> Prop) `{forall x, Decision (P x)} (l : list A) :
  (forall x, x ∈ l -> ~ P x) -> filter P l = [].
Proof.
  induction l as [|x l IH]; intros Ha; [done|]. rewrite filter_cons, IH by set_solver.
  rewrite decide_False; [done|]. apply Ha. by left.
Qed.

Lemma length_filter_le {A} (P Q : A -> Prop) `{forall x, Decision (P x)} `{forall x, Decision (Q x)}
    (l : list A) :
  (forall x, x ∈ l -> Q x -> P x) -> (length (filter Q l) <= length (filter P l))%nat.
Proof.
  induction l as [|x l IH]; intros Hi; [done|]. rewrite !filter_cons.
  specialize (IH ltac:(set_solver)). pose proof (Hi x ltac:(by left)).
  repeat case_decide; simpl; tauto || lia.
Qed.

Lemma length_filter_lt {A} (P Q : A -> Prop) `{forall x, Decision (P x)} `{forall x, Decision (Q x)}
    (l : list A) y :
  (forall x, x ∈ l -> Q x -> P x) -> y ∈ l -> P y -> ~ Q y ->
  (length (filter Q l) < length (filter P l))%nat.
Proof.
  intros Hi Hy HP HQ. induction l as [|x l IH]; [by apply elem_of_nil in Hy|]. rewrite !filter_cons.
  apply elem_of_cons in Hy as [->|Hy].
  - rewrite decide_False, decide_True by done. simpl.
    pose proof (length_filter_le P Q l ltac:(set_solver)). lia.
  - specialize (IH ltac:(set_solver) Hy). pose proof (Hi x ltac:(by left)).
    repeat case_decide; simpl; tauto || lia.
Qed.

Lemma length_filter_drop {A} (P : A -> Prop) `{forall x, Decision (P x)} (l : list A) y :
  y ∈ l -> ~ P y -> (length (filter P l) < length l)%nat.
Proof.
  intros Hy HP. rewrite <- (filter_all (fun _ => True) l) at 2 by done.
  by apply length_filter_lt with y.
Qed.

(** ** Sums over finite maps *)
Section MapSum.
Context `{Countable K} {V : Type} (f : K -> V -> Z).

(** The sum of [f k v] over the entries of a map; a missing entry counts for
    nothing. *)
Definition map_sum (m : gmap K V) : Z := map_fold (fun k v acc => f k v + acc) 0 m.

Definition summand (k : K) (o : option V) : Z := match o with Some v => f k v | None => 0 end.

Lemma map_sum_empty : map_sum ∅ = 0.
Proof. apply map_fold_empty. Qed.

Lemma map_sum_insert_None m k v : m !! k = None -> map_sum (<[k := v]> m) = f k v + map_sum m.
Proof.
  intros Hk. apply (map_fold_insert_L (fun k v acc => f k v + acc) 0 k v m); [|done].
  intros k1 k2 v1 v2 z _ _ _. lia.
Qed.

Lemma map_sum_delete m k : map_sum m = summand k (m !! k) + map_sum (delete k m).
Proof.
  destruct (m !! k) as [v|] eqn:E.
  - rewrite <- (insert_delete_id m k v E) at 1. rewrite map_sum_insert_None by apply lookup_delete_eq. done.
  - by rewrite delete_id.
Qed.

Lemma map_sum_insert m k v : map_sum (<[k := v]> m) = map_sum m - summand k (m !! k) + f k v.
Proof.
  rewrite <- insert_delete_eq, map_sum_insert_None by apply lookup_delete_eq.
  rewrite (map_sum_delete m k). lia.
Qed.

Lemma map_sum_nonneg m : (forall k v, m !! k = Some v -> 0 <= f k v) -> 0 <= map_sum m.
Proof.
  induction m as [|k v m Hk IH] using map_ind; intros Hf; [by rewrite map_sum_empty|].
  rewrite map_sum_insert_None by done.
  pose proof (Hf k v (lookup_insert_eq _ _ _)).
  assert (0 <= map_sum m); [|lia]. apply IH. intros k' v' Hk'. apply Hf.
  rewrite lookup_insert_ne; [done|]. congruence.
Qed.

Lemma map_sum_zero m : (forall k v, m !! k = Some v -> f k v = 0) -> map_sum m = 0.
Proof.
  induction m as [|k v m Hk IH] using map_ind; intros Hf; [by rewrite map_sum_empty|].
  rewrite map_sum_insert_None by done. rewrite (Hf k v) by apply lookup_insert_eq.
  rewrite IH; [done|]. intros k' v' Hk'. apply Hf. rewrite lookup_insert_ne; [done|]. congruence.
Qed.

Lemma summand_le_map_sum m k :
  (forall k v, m !! k = Some v -> 0 <= f k v) -> 0 <= summand k (m !! k) <= map_sum m.
Proof.
  intros Hf. rewrite (map_sum_delete m k). split.
  - unfold summand. destruct (m !! k) eqn:E; [by apply Hf|lia].
  - assert (0 <= map_sum (delete k m)); [|lia]. apply map_sum_nonneg.
    intros k' v' Hk'. apply lookup_delete_Some in Hk' as [_ Hk']. by apply Hf.
Qed.

(** Only what the entries add counts. *)
Lemma map_sum_ext m : forall m', (forall k, summand k (m !! k) = summand k (m' !! k)) -> map_sum m = map_sum m'.
Proof.
  induction m as [|k v m Hk IH] using map_ind; intros m' Hm.
  - rewrite map_sum_empty. symmetry. apply map_sum_zero. intros k v Hk. specialize (Hm k). by rewrite Hk, lookup_empty in Hm.
  - rewrite map_sum_insert_None, (map_sum_delete m' k) by done. pose proof (Hm k) as Hv. rewrite lookup_insert_eq in Hv. rewrite <- Hv.
    simpl. f_equal. apply IH. intros j. destruct (decide (k = j)) as [<-|Hne]; [by rewrite Hk, lookup_delete_eq|].
    specialize (Hm j). by rewrite lookup_insert_ne in Hm by done; rewrite lookup_delete_ne by done.
Qed.

End MapSum.

Lemma map_sum_le `{Countable K} {V} (f g : K -> V -> Z) m :
  (forall k v, m !! k = Some v -> f k v <= g k v) -> map_sum f m <= map_sum g m.
Proof.
  induction m as [|k v m Hk IH] using map_ind; intros Hf; [by rewrite !map_sum_empty|].
  rewrite !map_sum_insert_None by done. pose proof (Hf k v (lookup_insert_eq _ _ _)).
  assert (map_sum f m <= map_sum g m); [|lia]. apply IH. intros k' v' Hk'. apply Hf.
  rewrite lookup_insert_ne; [done|]. congruence.
Qed.

(** ** Positional digits

    [digs b n t] are the [n] low base-[b] digits of [t], most significant
    first; [horner] reads digits back. *)
Section Digits.
Context (b : Z).

Fixpoint digs (n : nat) (t : Z) : list Z :=
  match n with
  | O => []
  | S n' => digs n' (t / b) ++ [t mod b]
  end.

Definition horner (a : Z) (ds : list Z) : Z := fold_left (fun acc d => b * acc + d) ds a.

Definition is_digit (d : Z) : Prop := 0 <= d < b.

Hypothesis Hb : 1 < b.

Lemma length_digs n t : length (digs n t) = n.
Proof. revert t. induction n; intros t; simpl; [done|]. rewrite length_app, IHn. simpl. lia. Qed.

Lemma digs_digit n t : Forall is_digit (digs n t).
Proof.
  revert t. induction n; intros t; simpl; [constructor|].
  apply Forall_app. split; [apply IHn|]. repeat constructor; apply Z.mod_pos_bound; lia.
Qed.

Lemma horner_app a ds es : horner a (ds ++ es) = horner (horner a ds) es.
Proof. apply fold_left_app. Qed.

Lemma horner_digs n t : 0 <= t -> horner 0 (digs n t) = t mod b ^ Z.of_nat n.
Proof.
  revert t. induction n as [|n IH]; intros t Ht; [by rewrite Z.mod_1_r|].
  cbn [digs]. rewrite horner_app. rewrite IH by (apply Z.div_pos; lia).
  unfold horner. cbn [fold_left].
  assert (0 < b ^ Z.of_nat n) by (apply Z.pow_pos_nonneg; lia).
  rewrite Nat2Z.inj_succ, Z.pow_succ_r, Z.rem_mul_r by lia. lia.
Qed.

Lemma horner_snoc a ds d : horner a (ds ++ [d]) = b * horner a ds + d.
Proof. by rewrite horner_app. Qed.

Lemma digs_horner ds : Forall is_digit ds -> digs (length ds) (horner 0 ds) = ds.
Proof.
  induction ds as [|d ds IH] using rev_ind; intros Hd; [done|].
  apply Forall_app in Hd as [Hds Hd]. apply Forall_cons in Hd as [Hd _]. unfold is_digit in Hd.
  rewrite length_app, Nat.add_1_r, horner_snoc. cbn [digs].
  rewrite (Z.mul_comm b), Z.div_add_l, (Z.div_small d), Z.add_0_r by lia.
  by rewrite IH, Z.add_comm, Z.mod_add, Z.mod_small by (done || lia).
Qed.

Lemma horner_bound ds : Forall is_digit ds -> 0 <= horner 0 ds < b ^ Z.of_nat (length ds).
Proof.
  induction ds as [|d ds IH] using rev_ind; intros Hd; [done|].
  apply Forall_app in Hd as [Hds Hd]. apply Forall_cons in Hd as [Hd _]. unfold is_digit in Hd.
  specialize (IH Hds). rewrite horner_snoc, length_app, Nat.add_1_r.
  rewrite Nat2Z.inj_succ, Z.pow_succ_r by lia. nia.
Qed.

End Digits.
