(* ===== verification/Name.v ===== *)
(** * Account names

    [libraries/chain/include/snax/chain/name.hpp] and [name.cpp]: a name is a
    64-bit integer that packs up to thirteen characters of the alphabet
    [.12345a-z], five bits each and four for the last one. A C string is the
    list of its characters before the terminating NUL. *)

From Stdlib Require Import ZArith Lia Bool Ascii String.
From stdpp Require Import base numbers list.
From S2P Require Import Prelude.

Open Scope Z_scope.

(** A [char] as its code, and the terminating NUL. *)
Definition ord (c : ascii) : Z := Z.of_N (N_of_ascii c).
Definition NUL : ascii := Ascii.zero.
Definition chars : string -> list ascii := list_ascii_of_string.

(** The C string of a [std::string]: what precedes the first NUL. *)
Fixpoint c_str (s : list ascii) : list ascii :=
  match s with
  | [] => []
  | c :: s' => if Ascii.eqb c NUL then [] else c :: c_str s'
  end.

#[export] Instance ascii_eq_dec : EqDecision ascii := ascii_dec.

Definition char_to_symbol (c : ascii) : Z :=
  if (97 <=? ord c) && (ord c <=? 122) then (ord c - 97) + 6
  else if (49 <=? ord c) && (ord c <=? 53) then (ord c - 49) + 1
  else 0.

(** The loop of [string_to_name]: [str] is the rest of the string from index
    [i] on; the result carries the accumulated [name], the index reached and
    the rest of the string. *)
Fixpoint string_to_name_loop (str : list ascii) (i name : Z) : Z * Z * list ascii :=
  match str with
  | [] => (name, i, [])
  | c :: str' =>
      if i <? 12 then
        string_to_name_loop str' (i + 1)
          (Z.lor name (u64 (Z.shiftl (Z.land (char_to_symbol c) 31) (64 - 5 * (i + 1)))))
      else (name, i, str)
  end.

Definition string_to_name (str : list ascii) : Z :=
  let '(name, i, rest) := string_to_name_loop str 0 0 in
  if i =? 12 then Z.lor name (Z.land (char_to_symbol (hd NUL rest)) 15) else name.

Definition charmap : list ascii := chars ".12345abcdefghijklmnopqrstuvwxyz".

(** [str[12-i] = charmap[..]; tmp >>= ..] for [i = 0..12]: the string is filled
    from its last character to its first, so each step conses. *)
Fixpoint to_string_loop (n : nat) (i tmp : Z) (str : list ascii) : list ascii :=
  match n with
  | O => str
  | S n' =>
      let c := nth (Z.to_nat (Z.land tmp (if i =? 0 then 15 else 31))) charmap NUL in
      to_string_loop n' (i + 1) (Z.shiftr tmp (if i =? 0 then 4 else 5)) (c :: str)
  end.

(** [boost::algorithm::trim_right_if( str, c == '.' )]. *)
Fixpoint trim_right_dots (str : list ascii) : list ascii :=
  match str with
  | [] => []
  | c :: str' =>
      match trim_right_dots str' with
      | [] => if bool_decide (c = "."%char) then [] else [c]
      | t => c :: t
      end
  end.

Definition name_to_string (value : Z) : list ascii :=
  trim_right_dots (to_string_loop 13 0 value []).

(** [name::set]: the value the name takes, or [name_type_exception]. *)
Definition name_set (str : list ascii) : result Z :=
  SNAX_ASSERT (Nat.min (length str) 14 <=? 13)%nat name_type_exception;;
  let value := string_to_name str in
  SNAX_ASSERT (bool_decide (name_to_string value = str)) name_type_exception;;
  mret value.

Definition name_empty (value : Z) : bool := 0 =? value.
Definition name_good (value : Z) : bool := negb (name_empty value).

Definition N_ (s : string) : Z := string_to_name (chars s).

Example N_snax : N_ "snax" = 14181219500078137344.
Proof. vm_compute. reflexivity. Qed.

(** The character of a five-bit symbol. *)
Definition ch (d : Z) : ascii := nth (Z.to_nat d) charmap NUL.

(** ** The alphabet *)

Lemma char_to_symbol_ch d : is_digit 32 d -> char_to_symbol (ch d) = d.
Proof.
  intros Hd. assert (exists n, d = Z.of_nat n /\ (n < 32)%nat) as (n & -> & Hn).
  { exists (Z.to_nat d). unfold is_digit in Hd. lia. }
  do 32 (destruct n as [|n]; [reflexivity|]). lia.
Qed.

Lemma ch_char_to_symbol c : c ∈ charmap -> ch (char_to_symbol c) = c.
Proof.
  intros Hc. vm_compute in Hc.
  repeat (apply elem_of_cons in Hc as [->|Hc]; [reflexivity|]).
  by apply not_elem_of_nil in Hc.
Qed.

Lemma ch_in_charmap d : is_digit 32 d -> ch d ∈ charmap.
Proof.
  intros Hd. apply list_elem_of_In, nth_In. unfold is_digit in Hd. simpl. lia.
Qed.

Lemma char_to_symbol_digit c : is_digit 32 (char_to_symbol c).
Proof.
  unfold char_to_symbol, is_digit.
  repeat case_match; split_bool; lia.
Qed.

Lemma land_31 x : Z.land x 31 = x mod 32.
Proof. apply (Z.land_ones x 5). lia. Qed.
Lemma land_15 x : Z.land x 15 = x mod 16.
Proof. apply (Z.land_ones x 4). lia. Qed.

(** ** The packing loop *)

Lemma string_to_name_loop_digits ds rest i a :
  Forall (is_digit 32) ds -> 0 <= i -> i + Z.of_nat (length ds) <= 12 ->
  string_to_name_loop (map ch ds ++ rest) i (a * 2 ^ (64 - 5 * i)) =
  string_to_name_loop rest (i + Z.of_nat (length ds))
    (horner 32 a ds * 2 ^ (64 - 5 * (i + Z.of_nat (length ds)))).
Proof.
  revert i a. induction ds as [|d ds IH]; intros i a Hds Hi Hl.
  { simpl. by rewrite Z.add_0_r. }
  apply Forall_cons in Hds as [Hd Hds]. unfold is_digit in Hd.
  cbn [map app string_to_name_loop length] in *.
  rewrite (proj2 (Z.ltb_lt i 12)) by lia.
  rewrite char_to_symbol_ch, land_31, Z.mod_small by done.
  assert (2 ^ (64 - 5 * i) = 32 * 2 ^ (64 - 5 * (i + 1))) as Hp.
  { change 32 with (2 ^ 5). rewrite <- Z.pow_add_r by lia. f_equal. lia. }
  assert (0 < 2 ^ (64 - 5 * (i + 1))) by (apply Z.pow_pos_nonneg; lia).
  rewrite Z.shiftl_mul_pow2 by lia.
  assert (2 ^ (64 - 5 * i) <= 2 ^ 64) by (apply Z.pow_le_mono_r; lia).
  rewrite u64_small by (unfold is_u64; nia).
  rewrite <- (Z.shiftl_mul_pow2 a) by lia.
  rewrite lor_shiftl_add by nia. rewrite Hp.
  replace (a * (32 * 2 ^ (64 - 5 * (i + 1))) + d * 2 ^ (64 - 5 * (i + 1)))
    with ((32 * a + d) * 2 ^ (64 - 5 * (i + 1))) by lia.
  rewrite IH by (done || lia). unfold horner. simpl fold_left.
  replace (i + 1 + Z.of_nat (length ds)) with (i + Z.of_nat (S (length ds))) by lia. done.
Qed.

Lemma string_to_name_packed ds d :
  Forall (is_digit 32) ds -> length ds = 12%nat -> 0 <= d < 16 ->
  string_to_name (map ch ds ++ [ch d]) = horner 32 0 ds * 16 + d.
Proof.
  intros Hds Hl Hd. unfold string_to_name.
  pose proof (string_to_name_loop_digits ds [ch d] 0 0 Hds) as H.
  rewrite Hl in H. rewrite Z.mul_0_l in H. rewrite H by lia.
  change (64 - 5 * (0 + Z.of_nat 12)) with 4. change (0 + Z.of_nat 12) with 12. simpl.
  rewrite char_to_symbol_ch, land_15, Z.mod_small by (unfold is_digit; lia).
  change 16 with (2 ^ 4). rewrite <- (Z.shiftl_mul_pow2 (horner 32 0 ds) 4) at 1 by lia.
  by rewrite lor_shiftl_add by lia.
Qed.

Lemma to_string_loop_digits n i t str :
  1 <= i -> to_string_loop n i t str = map ch (digs 32 n t) ++ str.
Proof.
  revert i t str. induction n as [|n IH]; intros i t str Hi; [done|].
  cbn [to_string_loop digs]. rewrite (proj2 (Z.eqb_neq i 0)) by lia.
  rewrite IH by lia. rewrite map_app, <- app_assoc. cbn [map app].
  by rewrite Z.shiftr_div_pow2, land_31 by lia.
Qed.

Lemma to_string_loop_13 v :
  to_string_loop 13 0 v [] = map ch (digs 32 12 (v / 16)) ++ [ch (v mod 16)].
Proof.
  change (to_string_loop 13 0 v []) with
    (to_string_loop 12 (0 + 1) (Z.shiftr v 4) [nth (Z.to_nat (Z.land v 15)) charmap NUL]).
  by rewrite to_string_loop_digits, Z.shiftr_div_pow2, land_15 by lia.
Qed.

(** ** Trailing dots *)

Lemma trim_right_dots_split s :
  exists k, s = trim_right_dots s ++ replicate k "."%char.
Proof.
  induction s as [|c s [k IH]]; [by exists 0%nat|]. simpl.
  destruct (trim_right_dots s) as [|t ts] eqn:E.
  - case_bool_decide; subst.
    + exists (S k). simpl. by f_equal.
    + exists k. simpl in *. by f_equal.
  - exists k. simpl in *. by f_equal.
Qed.

Lemma trim_right_dots_id s : last s <> Some "."%char -> trim_right_dots s = s.
Proof.
  induction s as [|c s IH]; intros Hl; [done|]. simpl.
  destruct s as [|c' s].
  - simpl. rewrite bool_decide_eq_false_2; [done|]. simpl in Hl. congruence.
  - rewrite IH by done. done.
Qed.

Lemma trim_right_dots_dots s k :
  trim_right_dots (s ++ replicate k "."%char) = trim_right_dots s.
Proof.
  induction s as [|c s IH]; simpl; [|by rewrite IH].
  induction k as [|k IH]; simpl; [done|]. by rewrite IH.
Qed.

Lemma last_trim_right_dots s : last (trim_right_dots s) <> Some "."%char.
Proof.
  induction s as [|c s IH]; simpl; [done|].
  destruct (trim_right_dots s) as [|t ts] eqn:E.
  - case_bool_decide; simpl; congruence.
  - done.
Qed.

Definition finish (r : Z * Z * list ascii) : Z :=
  let '(name, i, rest) := r in
  if i =? 12 then Z.lor name (Z.land (char_to_symbol (hd NUL rest)) 15) else name.

Lemma finish_dots k i name :
  finish (string_to_name_loop (replicate k "."%char) i name) = name.
Proof.
  revert i name. induction k as [|k IH]; intros i name; simpl.
  - destruct (i =? 12); [|done]. apply Z.lor_0_r.
  - destruct (i <? 12).
    + rewrite IH. rewrite Z.shiftl_0_l. apply Z.lor_0_r.
    + simpl. destruct (i =? 12); [|done]. apply Z.lor_0_r.
Qed.

Lemma string_to_name_dots s k :
  string_to_name (s ++ replicate k "."%char) = string_to_name s.
Proof.
  change (finish (string_to_name_loop (s ++ replicate k "."%char) 0 0) =
          finish (string_to_name_loop s 0 0)).
  generalize 0 at 1 3 as i. generalize 0 as name.
  induction s as [|c s IH]; intros name i; simpl.
  - rewrite finish_dots. destruct (i =? 12); [|done]. by rewrite Z.lor_0_r.
  - destruct (i <? 12); [apply IH|done].
Qed.

Lemma string_to_name_trim s : string_to_name (trim_right_dots s) = string_to_name s.
Proof.
  destruct (trim_right_dots_split s) as [k Hk]. rewrite Hk at 2.
  by rewrite string_to_name_dots.
Qed.

(** ** Names and strings *)

Lemma string_to_name_to_string v : is_u64 v -> string_to_name (name_to_string v) = v.
Proof.
  intros Hv. unfold name_to_string. rewrite string_to_name_trim, to_string_loop_13.
  unfold is_u64 in Hv.
  rewrite string_to_name_packed;
    [|apply digs_digit; lia|apply length_digs|apply Z.mod_pos_bound; lia].
  rewrite horner_digs by (try apply Z.div_pos; lia).
  rewrite (Z.mod_small (v / 16)).
  - rewrite (Z.div_mod v 16) at 3 by lia. lia.
  - split; [apply Z.div_pos; lia|]. apply Z.div_lt_upper_bound; [lia|].
    change (16 * 32 ^ Z.of_nat 12) with (2 ^ 64). lia.
Qed.

Lemma length_name_to_string v : (length (name_to_string v) <= 13)%nat.
Proof.
  unfold name_to_string. rewrite to_string_loop_13.
  set (s := map ch _ ++ _). destruct (trim_right_dots_split s) as [k Hk].
  assert (length s = 13%nat) as Hl.
  { unfold s. by rewrite length_app, length_map, length_digs. }
  rewrite Hk in Hl. rewrite length_app in Hl. lia.
Qed.

(** The thirteen characters of a string of at most thirteen, padded with dots. *)
Lemma pad_13 s :
  (length s <= 13)%nat -> exists t c, s ++ replicate (13 - length s) "."%char = t ++ [c]
    /\ length t = 12%nat.
Proof.
  intros Hl. set (p := s ++ _).
  assert (length p = 13%nat) as Hp by (unfold p; rewrite length_app, length_replicate; lia).
  destruct p as [|c p _] using rev_ind; [done|].
  exists p, c. rewrite length_app in Hp. simpl in Hp. split; [done|lia].
Qed.

Lemma string_to_name_is_u64 s : is_u64 (string_to_name s).
Proof.
  change (is_u64 (finish (string_to_name_loop s 0 0))).
  assert (is_u64 0) as H0 by (unfold is_u64; lia). revert H0.
  generalize 0 at 2 as i. generalize 0 as name.
  induction s as [|c s IH]; intros name i Hn; simpl;
    [|destruct (i <? 12); [apply IH; auto with snax|]; simpl];
    try (destruct (i =? 12); [|done]; apply lor_is_u64; [done|]);
    [done|rewrite land_15].
  pose proof (Z.mod_pos_bound (char_to_symbol c) 16). unfold is_u64. lia.
Qed.

(** A string is accepted when it has at most thirteen characters of the
    alphabet, does not end in a dot, and its thirteenth character, if any, is
    one of the sixteen that fit in four bits. *)
Definition valid_name_string (s : list ascii) : bool :=
  (length s <=? 13)%nat &&
  forallb (fun c => bool_decide (c ∈ charmap)) s &&
  bool_decide (last s <> Some "."%char) &&
  match s !! 12%nat with Some c => char_to_symbol c <? 16 | None => true end.

Lemma packed_to_string ds d :
  Forall (is_digit 32) ds -> length ds = 12%nat -> 0 <= d < 16 ->
  to_string_loop 13 0 (horner 32 0 ds * 16 + d) [] = map ch ds ++ [ch d].
Proof.
  intros Hds Hl Hd. rewrite to_string_loop_13.
  rewrite Z.div_add_l, (Z.div_small d), Z.add_0_r by lia.
  rewrite <- Hl, digs_horner by (done || lia).
  by rewrite Z.add_comm, Z.mod_add, Z.mod_small by lia.
Qed.

Lemma ch_symbols t : Forall (fun c => c ∈ charmap) t -> map ch (map char_to_symbol t) = t.
Proof.
  induction 1 as [|c t Hc Ht IH]; [done|]. simpl. by rewrite ch_char_to_symbol, IH.
Qed.

Lemma symbols_digit t : Forall (is_digit 32) (map char_to_symbol t).
Proof. induction t; simpl; constructor; auto using char_to_symbol_digit. Qed.

Lemma name_to_string_of_valid s :
  valid_name_string s = true -> name_to_string (string_to_name s) = s.
Proof.
  unfold valid_name_string.
  intros [[[Hl Hm]%andb_true_iff Hdot]%andb_true_iff H12]%andb_true_iff.
  apply Nat.leb_le in Hl. apply Is_true_true, forallb_True in Hm. split_bool.
  destruct (pad_13 s Hl) as (t & c & Hp & Ht).
  assert (Forall (fun c => c ∈ charmap) (t ++ [c])) as Hm'.
  { rewrite <- Hp. apply Forall_app. split.
    - eapply Forall_impl; [exact Hm|]. intros x Hx. by apply bool_decide_unpack in Hx.
    - apply Forall_replicate. by vm_compute; left. }
  apply Forall_app in Hm' as [Hmt Hmc]. apply Forall_cons in Hmc as [Hmc _].
  assert (0 <= char_to_symbol c < 16) as Hc.
  { split; [apply char_to_symbol_digit|].
    assert ((t ++ [c]) !! 12%nat = Some c) as Hlk by (by rewrite <- Ht; apply list_lookup_middle).
    rewrite <- Hp in Hlk. destruct (s !! 12%nat) as [c'|] eqn:E.
    - rewrite (lookup_app_l_Some _ _ _ _ E) in Hlk. simplify_eq. by apply Z.ltb_lt.
    - rewrite lookup_app_r in Hlk by (by apply lookup_ge_None).
      apply list_elem_of_lookup_2, elem_of_replicate in Hlk as [-> _]. done. }
  unfold name_to_string.
  rewrite <- (string_to_name_dots s (13 - length s)), Hp.
  rewrite <- (ch_symbols t), <- (ch_char_to_symbol c) by done.
  rewrite string_to_name_packed, packed_to_string
    by (rewrite ?length_map; auto using symbols_digit).
  rewrite ch_symbols, ch_char_to_symbol, <- Hp, trim_right_dots_dots by done.
  by apply trim_right_dots_id.
Qed.

Lemma valid_name_to_string v : valid_name_string (name_to_string v) = true.
Proof.
  unfold valid_name_string. repeat (apply andb_true_iff; split).
  - apply Nat.leb_le, length_name_to_string.
  - apply Is_true_true, forallb_True. unfold name_to_string. rewrite to_string_loop_13.
    set (l := map ch _ ++ _). destruct (trim_right_dots_split l) as [k Hk].
    assert (Forall (fun c => bool_decide (c ∈ charmap)) l) as Hl.
    { apply Forall_app. split.
      - apply Forall_forall. intros x (d & -> & Hd)%list_elem_of_fmap.
        pose proof (digs_digit 32 ltac:(lia) 12 (v / 16)) as Hf. rewrite Forall_forall in Hf.
        apply bool_decide_pack, ch_in_charmap, Hf, Hd.
      - repeat constructor. apply bool_decide_pack, ch_in_charmap.
        pose proof (Z.mod_pos_bound v 16). unfold is_digit. lia. }
    rewrite Hk in Hl. by apply Forall_app in Hl as [? _].
  - apply bool_decide_eq_true_2, last_trim_right_dots.
  - destruct (name_to_string v !! 12%nat) as [c|] eqn:E; [|done].
    unfold name_to_string in E. rewrite to_string_loop_13 in E.
    set (l := map ch _ ++ _) in E. destruct (trim_right_dots_split l) as [k Hk].
    apply (lookup_app_l_Some _ (replicate k "."%char)) in E. rewrite <- Hk in E.
    unfold l in E. rewrite lookup_app_r in E by (by rewrite length_map, length_digs).
    rewrite length_map, length_digs in E. simpl in E. simplify_eq.
    pose proof (Z.mod_pos_bound v 16).
    rewrite char_to_symbol_ch by (unfold is_digit; lia). apply Z.ltb_lt. lia.
Qed.

(** [name::set] is the inverse of [name::to_string]: setting a string
    yields the value [v] exactly when [v] is a 64-bit value whose printed form
    is that string. In particular every 64-bit value survives printing and
    reading back, and two accepted strings with one value are equal. *)
Theorem name_set_to_string s v :
  name_set s = Ok v <-> is_u64 v /\ name_to_string v = s.
Proof.
  unfold name_set. split.
  - intros H. inv_ok. split_bool. auto using string_to_name_is_u64.
  - intros [Hv <-]. pose proof (length_name_to_string v).
    rewrite (proj2 (Nat.leb_le _ _)) by lia. simpl.
    rewrite string_to_name_to_string by done.
    by rewrite bool_decide_eq_true_2.
Qed.

(** [name::set] throws exactly on the strings that are not normal names
    (too long, a character outside the alphabet, a trailing dot, or a
    thirteenth character that does not fit in four bits), and always
    [name_type_exception]. *)
Theorem name_set_accepts s :
  name_set s = if valid_name_string s then Ok (string_to_name s)
               else Err name_type_exception.
Proof.
  destruct (valid_name_string s) eqn:E.
  - unfold name_set. rewrite name_to_string_of_valid, bool_decide_eq_true_2 by done.
    apply andb_true_iff in E as [[[Hl _]%andb_true_iff _]%andb_true_iff _].
    apply Nat.leb_le in Hl. by rewrite (proj2 (Nat.leb_le _ _)) by lia.
  - unfold name_set. destruct (_ <=? _)%nat; [|done]. simpl.
    case_bool_decide as Hs; [|done].
    by rewrite <- Hs, valid_name_to_string in E.
Qed.
