(* ===== verification/Symbol.v ===== *)
(** * Symbols

    [libraries/chain/include/snax/chain/symbol.hpp]: a symbol is a 64-bit
    integer whose low byte is the number of decimals and whose other seven
    bytes are the upper-case name, first character lowest. *)

From Stdlib Require Import ZArith Lia Bool Ascii String.
From stdpp Require Import base numbers list sets.
From S2P Require Import Prelude Name.

Open Scope Z_scope.

(** ** Decimal printing: [std::to_string] on a non-negative integer.

    Twenty-one digits are enough for every 64-bit value. *)
Definition dchar (d : Z) : ascii := ascii_of_N (48 + Z.to_N d).

Fixpoint dec_loop (n : nat) (z : Z) (acc : list ascii) : list ascii :=
  let acc' := dchar (z mod 10) :: acc in
  match n with
  | O => acc'
  | S n' => if z <? 10 then acc' else dec_loop n' (z / 10) acc'
  end.

Definition std_to_string (z : Z) : list ascii :=
  if z <? 0 then "-"%char :: dec_loop 20 (- z) [] else dec_loop 20 z [].

(** ** The symbol class *)

(** [str[i] >= 'A' && str[i] <= 'Z']. *)
Definition is_upper (c : ascii) : bool := (65 <=? ord c) && (ord c <=? 90).

(** [char] is signed: converting one to [uint64_t] extends the sign. *)
Definition char_to_u64 (c : ascii) : Z :=
  u64 (if ord c <? 128 then ord c else ord c - 256).

(** [result |= uint64_t(str[i]) << (8*(1+i))]: a shift of 64 or more has no
    meaning in C++. *)
Definition or_char (r : Z) (c : ascii) (i : Z) : result Z :=
  if 8 * (1 + i) <? 64 then Ok (Z.lor r (u64 (Z.shiftl (char_to_u64 c) (8 * (1 + i)))))
  else Err undefined_behavior.

Fixpoint string_to_symbol_c_loop (str : list ascii) (i r : Z) : result Z :=
  match str with
  | [] => Ok r
  | c :: str' => r' ← or_char r c i; string_to_symbol_c_loop str' (i + 1) r'
  end.

(** The compile-time [string_to_symbol_c], which checks no character. *)
Definition string_to_symbol_c (precision : Z) (str : list ascii) : result Z :=
  r ← string_to_symbol_c_loop str 0 0; mret (Z.lor r precision).

Fixpoint string_to_symbol_loop (str : list ascii) (i r : Z) : result Z :=
  match str with
  | [] => Ok r
  | c :: str' =>
      SNAX_ASSERT (is_upper c) symbol_type_exception;;
      r' ← or_char r c i; string_to_symbol_loop str' (i + 1) r'
  end.

Definition string_to_symbol (precision : Z) (str : list ascii) : result Z :=
  r ← string_to_symbol_loop str 0 0; mret (Z.lor r precision).

Definition max_precision : Z := 18.

Definition symbol_decimals (m_value : Z) : Z := Z.land m_value 255.

(** [while (v > 0) { result += v & 0xFF; v >>= 8; }]: seven rounds empty a
    64-bit value that was already shifted once. *)
Fixpoint symbol_name_loop (n : nat) (v : Z) : list ascii :=
  match n with
  | O => []
  | S n' =>
      if 0 <? v then ascii_of_N (Z.to_N (Z.land v 255)) :: symbol_name_loop n' (Z.shiftr v 8)
      else []
  end.

Definition symbol_name (m_value : Z) : list ascii := symbol_name_loop 7 (Z.shiftr m_value 8).

Definition valid_name (name : list ascii) : bool := forallb is_upper name.

Definition symbol_valid (m_value : Z) : bool :=
  (symbol_decimals m_value <=? max_precision) && valid_name (symbol_name m_value).

(** [symbol::precision]: [p10 *= 10] on 64 bits, [decimals] times. *)
Fixpoint precision_loop (n : nat) (p10 : Z) : Z :=
  match n with
  | O => p10
  | S n' => precision_loop n' (u64 (p10 * 10))
  end.

Definition symbol_precision (m_value : Z) : result Z :=
  SNAX_ASSERT (symbol_decimals m_value <=? max_precision) symbol_type_exception;;
  mret (precision_loop (Z.to_nat (symbol_decimals m_value)) 1).

(** [explicit symbol(uint64_t v)]. *)
Definition symbol_of_value (v : Z) : result Z :=
  SNAX_ASSERT (symbol_valid v) symbol_type_exception;; mret v.

(** [explicit symbol(uint8_t p, const char* s)]. *)
Definition symbol_of_chars (p : Z) (s : list ascii) : result Z :=
  v ← string_to_symbol p s;
  SNAX_ASSERT (symbol_valid v) symbol_type_exception;; mret v.

Definition to_symbol_code (m_value : Z) : Z := Z.shiftr m_value 8.

Definition symbol_to_string (m_value : Z) : list ascii :=
  std_to_string (Z.land m_value 255) ++ ","%char :: symbol_name m_value.

(** [std::string::find] of one character. *)
Fixpoint find_char (c : ascii) (s : list ascii) : option nat :=
  match s with
  | [] => None
  | x :: s' => if bool_decide (x = c) then Some O else S <$> find_char c s'
  end.

(** ** The [fc] library

    The functions of the [fc] library (a submodule) that symbols and assets
    call: [fc::trim], [fc::to_int64], [fc::to_string] and the overflow check of
    [fc::safe<int64_t>]. What the code relies on is stated by [FcLaws], once
    decimal strings are defined. *)
Class FcOps := {
  fc_trim : list ascii -> list ascii;
  fc_to_int64 : list ascii -> result Z;
  fc_to_string : Z -> list ascii;
  fc_safe : Z -> result Z
}.

Section FromString.
Context `{FcOps}.

Definition symbol_from_string (from : list ascii) : result Z :=
  let s := fc_trim from in
  SNAX_ASSERT (negb (bool_decide (s = []))) symbol_type_exception;;
  comma_pos ← of_option symbol_type_exception (find_char ","%char s);
  let prec_part := take comma_pos s in
  p64 ← fc_to_int64 prec_part;
  let p := u8 p64 in
  let name_part := drop (S comma_pos) s in
  SNAX_ASSERT (p <=? max_precision) symbol_type_exception;;
  v ← string_to_symbol p (c_str name_part);
  symbol_of_value v.
End FromString.

Definition symbol_reflector_verify (m_value : Z) : result unit :=
  SNAX_ASSERT (symbol_decimals m_value <=? max_precision) symbol_type_exception;;
  SNAX_ASSERT (valid_name (symbol_name m_value)) symbol_type_exception.

Definition CORE_SYMBOL : result Z := string_to_symbol_c 4 (chars "SNAX").

Example CORE_SYMBOL_value : CORE_SYMBOL = Ok 379052774148.
Proof. vm_compute. reflexivity. Qed.

(** ** Encoding and decoding *)

(** The name read as a little-endian number. *)
Definition le (s : list ascii) : Z := foldr (fun c acc => ord c + 256 * acc) 0 s.

Lemma ord_bound c : 0 <= ord c < 256.
Proof. unfold ord. pose proof (N_ascii_bounded c). lia. Qed.

Lemma is_upper_bound c : is_upper c = true -> 65 <= ord c <= 90.
Proof. unfold is_upper. intros H. split_bool. lia. Qed.

Lemma char_to_u64_upper c : is_upper c = true -> char_to_u64 c = ord c.
Proof.
  intros H%is_upper_bound. unfold char_to_u64. rewrite (proj2 (Z.ltb_lt _ _)) by lia.
  apply u64_small. unfold is_u64. lia.
Qed.

Lemma le_bound s : 0 <= le s < 256 ^ Z.of_nat (length s).
Proof.
  induction s as [|c s IH]; [done|]. cbn [le foldr length].
  fold (le s). pose proof (ord_bound c). rewrite Nat2Z.inj_succ, Z.pow_succ_r by lia. lia.
Qed.

Lemma or_char_add r c i :
  is_upper c = true -> 0 <= i < 7 -> 0 <= r < 2 ^ (8 * (1 + i)) ->
  or_char r c i = Ok (r + ord c * 2 ^ (8 * (1 + i))).
Proof.
  intros Hc Hi Hr. unfold or_char. rewrite (proj2 (Z.ltb_lt _ _)) by lia. f_equal.
  rewrite char_to_u64_upper by done. pose proof (ord_bound c).
  assert (2 ^ 64 = 2 ^ (8 * (1 + i)) * 2 ^ (64 - 8 * (1 + i))) as Hp
    by (rewrite <- Z.pow_add_r by lia; f_equal; lia).
  assert (2 ^ 8 <= 2 ^ (64 - 8 * (1 + i))) by (apply Z.pow_le_mono_r; lia).
  assert (0 < 2 ^ (8 * (1 + i))) by (apply Z.pow_pos_nonneg; lia).
  rewrite u64_small by (unfold is_u64; rewrite Z.shiftl_mul_pow2 by lia; nia).
  rewrite Z.lor_comm, lor_shiftl_add by lia. lia.
Qed.

Lemma string_to_symbol_loop_ok s i r :
  forallb is_upper s = true -> 0 <= i -> i + Z.of_nat (length s) <= 7 ->
  0 <= r < 2 ^ (8 * (1 + i)) ->
  string_to_symbol_loop s i r = Ok (r + le s * 2 ^ (8 * (1 + i))).
Proof.
  revert i r. induction s as [|c s IH]; intros i r Hs Hi Hl Hr.
  { simpl. f_equal. lia. }
  simpl in Hs. apply andb_true_iff in Hs as [Hc Hs]. cbn [length] in Hl.
  cbn [string_to_symbol_loop]. rewrite Hc. cbn [SNAX_ASSERT].
  pose proof (or_char_add r c i Hc ltac:(lia) Hr) as ->.
  change (string_to_symbol_loop s (i + 1) (r + ord c * 2 ^ (8 * (1 + i))) =
    Ok (r + le (c :: s) * 2 ^ (8 * (1 + i)))).
  pose proof (ord_bound c).
  assert (2 ^ (8 * (1 + (i + 1))) = 256 * 2 ^ (8 * (1 + i))) as Hp
    by (change 256 with (2 ^ 8); rewrite <- Z.pow_add_r by lia; f_equal; lia).
  rewrite IH by (done || lia || nia). f_equal. rewrite Hp. cbn [le foldr]. fold (le s). lia.
Qed.

Lemma string_to_symbol_loop_take s i r :
  0 <= i <= 7 -> i + Z.of_nat (length s) > 7 ->
  string_to_symbol_loop s i r =
  if forallb is_upper (take (Z.to_nat (8 - i)) s) then Err undefined_behavior
  else Err symbol_type_exception.
Proof.
  revert i r. induction s as [|c s IH]; intros i r Hi Hl; [simpl in Hl; lia|].
  cbn [length] in Hl. cbn [string_to_symbol_loop].
  replace (Z.to_nat (8 - i)) with (S (Z.to_nat (8 - (i + 1)))) by lia. cbn [take forallb].
  destruct (is_upper c); [|done]. cbn [SNAX_ASSERT andb].
  unfold or_char. case_match; split_bool.
  - simpl. apply IH; lia.
  - assert (i = 7) as -> by lia. done.
Qed.

Lemma string_to_symbol_loop_bad s i r :
  0 <= i -> i + Z.of_nat (length s) <= 7 -> forallb is_upper s = false ->
  string_to_symbol_loop s i r = Err symbol_type_exception.
Proof.
  revert i r. induction s as [|c s IH]; intros i r Hi Hl Hs; [done|].
  cbn [length] in Hl. simpl in Hs. cbn [string_to_symbol_loop].
  destruct (is_upper c); [|done]. cbn [SNAX_ASSERT]. simpl.
  unfold or_char. rewrite (proj2 (Z.ltb_lt _ _)) by lia. apply IH; (done || lia).
Qed.

Lemma symbol_lor_precision s p :
  is_u8 p -> Z.lor (le s * 2 ^ 8) p = le s * 256 + p.
Proof.
  unfold is_u8. intros Hp. pose proof (le_bound s).
  by rewrite <- Z.shiftl_mul_pow2, lor_shiftl_add by lia.
Qed.

Lemma symbol_name_loop_le n s :
  forallb is_upper s = true -> (length s <= n)%nat -> symbol_name_loop n (le s) = s.
Proof.
  revert n. induction s as [|c s IH]; intros n Hs Hl; [by destruct n|].
  destruct n as [|n]; [simpl in Hl; lia|]. simpl in Hs, Hl.
  apply andb_true_iff in Hs as [Hc%is_upper_bound Hs]. cbn [le foldr]. fold (le s).
  pose proof (le_bound s). cbn [symbol_name_loop].
  rewrite (proj2 (Z.ltb_lt _ _)) by lia.
  rewrite (Z.land_ones _ 8), Z.shiftr_div_pow2 by lia. change (2 ^ 8) with 256.
  rewrite (Z.mul_comm 256), Z.mod_add, Z.mod_small by lia.
  rewrite Z.div_add, Z.div_small, Z.add_0_l, IH by (done || lia).
  f_equal. unfold ord. rewrite N2Z.id. apply ascii_N_embedding.
Qed.

Lemma symbol_name_loop_inv n v :
  0 <= v < 256 ^ Z.of_nat n -> forallb is_upper (symbol_name_loop n v) = true ->
  le (symbol_name_loop n v) = v /\ (length (symbol_name_loop n v) <= n)%nat.
Proof.
  revert v. induction n as [|n IH]; intros v Hv Hs; [simpl in *; lia|].
  cbn [symbol_name_loop] in *. destruct (Z.ltb_spec 0 v); [|simpl; lia].
  simpl in Hs. apply andb_true_iff in Hs as [_ Hs].
  rewrite Nat2Z.inj_succ, Z.pow_succ_r in Hv by lia.
  rewrite Z.shiftr_div_pow2 in * by lia. change (2 ^ 8) with 256 in *.
  assert (0 <= v / 256 < 256 ^ Z.of_nat n) as Hv'
    by (split; [apply Z.div_pos; lia|apply Z.div_lt_upper_bound; lia]).
  destruct (IH _ Hv' Hs) as [IHl IHn].
  cbn [le foldr length]. fold (le (symbol_name_loop n (v / 256))). rewrite IHl.
  rewrite (Z.land_ones _ 8) by lia. change (2 ^ 8) with 256.
  pose proof (Z.mod_pos_bound v 256). pose proof (Z.div_mod v 256).
  unfold ord. rewrite N_ascii_embedding by lia. lia.
Qed.

Lemma symbol_decode s p :
  is_u8 p -> forallb is_upper s = true -> (length s <= 7)%nat ->
  symbol_decimals (le s * 256 + p) = p /\ symbol_name (le s * 256 + p) = s /\
  is_u64 (le s * 256 + p).
Proof.
  unfold is_u8, symbol_decimals, symbol_name. intros Hp Hs Hl.
  pose proof (le_bound s).
  rewrite (Z.land_ones _ 8), Z.shiftr_div_pow2 by lia. change (2 ^ 8) with 256.
  rewrite Z.div_add_l, (Z.div_small p), Z.add_0_r by lia.
  rewrite Z.add_comm, Z.mod_add, Z.mod_small by lia.
  rewrite symbol_name_loop_le by done. split_and!; [done..|].
  assert (256 ^ Z.of_nat (length s) <= 256 ^ 7) by (apply Z.pow_le_mono_r; lia).
  unfold is_u64. change (2 ^ 64) with (256 ^ 7 * 256). lia.
Qed.

Lemma symbol_encode v :
  is_u64 v -> valid_name (symbol_name v) = true ->
  le (symbol_name v) * 256 + symbol_decimals v = v /\ (length (symbol_name v) <= 7)%nat.
Proof.
  unfold is_u64, symbol_name, symbol_decimals, valid_name. intros Hv Hn.
  rewrite Z.shiftr_div_pow2 in * by lia. rewrite (Z.land_ones _ 8) by lia.
  change (2 ^ 8) with 256 in *.
  destruct (symbol_name_loop_inv 7 (v / 256)) as [Hl Hlen]; [|done|].
  { split; [apply Z.div_pos; lia|]. apply Z.div_lt_upper_bound; [lia|].
    change (256 * 256 ^ Z.of_nat 7) with (2 ^ 64). lia. }
  rewrite Hl. pose proof (Z.div_mod v 256). lia.
Qed.

(** What [string_to_symbol] does on every input: it throws when one of the
    first eight characters is not an upper-case letter, packs the name above
    the precision byte when there are at most seven characters, and otherwise
    shifts a 64-bit value by 64 or more places, which C++ leaves undefined: no
    check bounds the length of the name. *)
Theorem string_to_symbol_spec p s (Hp : is_u8 p) :
  string_to_symbol p s =
  if negb (forallb is_upper (take 8 s)) then Err symbol_type_exception
  else if (length s <=? 7)%nat then Ok (le s * 256 + p)
  else Err undefined_behavior.
Proof.
  unfold string_to_symbol. destruct (Nat.leb_spec (length s) 7).
  - rewrite take_ge by lia. destruct (forallb is_upper s) eqn:Hs.
    + rewrite string_to_symbol_loop_ok by (done || lia). simpl.
      by rewrite <- symbol_lor_precision.
    + by rewrite string_to_symbol_loop_bad by (done || lia).
  - rewrite string_to_symbol_loop_take by lia. change (Z.to_nat (8 - 0)) with 8%nat.
    by destruct (forallb is_upper (take 8 s)).
Qed.

Lemma string_to_symbol_spec_witness :
  string_to_symbol 4 (chars "SNAX") = Ok 379052774148 /\
  string_to_symbol 4 (chars "ABCDEFGH") = Err undefined_behavior.
Proof.
  split; rewrite string_to_symbol_spec by (unfold is_u8; lia); vm_compute; reflexivity.
Defined.

Lemma string_to_symbol_ok p s :
  is_u8 p -> valid_name s = true -> (length s <= 7)%nat ->
  string_to_symbol p s = Ok (le s * 256 + p).
Proof.
  intros Hp Hs Hl. unfold string_to_symbol.
  rewrite string_to_symbol_loop_ok by (done || lia). simpl.
  by rewrite <- symbol_lor_precision.
Qed.

Lemma string_to_symbol_inv p s v :
  string_to_symbol p s = Ok v -> valid_name s = true /\ (length s <= 7)%nat.
Proof.
  unfold string_to_symbol. intros H. inv_ok.
  destruct (decide (Z.of_nat (length s) <= 7)) as [Hl|Hl].
  - split; [|lia]. destruct (valid_name s) eqn:E; [done|].
    by rewrite string_to_symbol_loop_bad in H by (done || lia).
  - rewrite string_to_symbol_loop_take in H by lia. by case_match.
Qed.

(** The symbol built from a precision and a name is the one 64-bit value
    that is a valid symbol with that precision and that name: the constructor
    succeeds on exactly those, and the name and decimals read back from the
    value are the ones it was built from. *)
Theorem symbol_of_chars_decode p s v (Hp : is_u8 p) :
  symbol_of_chars p s = Ok v <->
  is_u64 v /\ symbol_valid v = true /\ symbol_decimals v = p /\ symbol_name v = s.
Proof.
  unfold symbol_of_chars. split.
  - intros H. inv_ok. destruct (string_to_symbol_inv p s v) as [Hs Hl]; [done|].
    rewrite string_to_symbol_ok in H by done. simplify_eq.
    destruct (symbol_decode s p) as (? & ? & ?); done.
  - intros (Hv & Hval & <- & <-). pose proof Hval as Hval'.
    unfold symbol_valid in Hval'. split_bool.
    destruct (symbol_encode v) as [He Hl]; [done..|].
    rewrite string_to_symbol_ok by done. simpl. rewrite He, Hval. done.
Qed.

Lemma symbol_of_chars_decode_witness :
  is_u8 4 /\ symbol_of_chars 4 (chars "SNAX") = Ok 379052774148.
Proof.
  split; [unfold is_u8; lia|].
  apply (symbol_of_chars_decode 4 (chars "SNAX") 379052774148); [unfold is_u8; lia|].
  vm_compute. repeat split; discriminate.
Defined.

(** ** Decimal strings *)

Lemma dchar_inj d : 0 <= d < 10 -> ord (dchar d) = 48 + d.
Proof. intros Hd. unfold ord, dchar. rewrite N_ascii_embedding by lia. lia. Qed.

(** The value of a string of digits. *)
Definition digit_value (c : ascii) : option Z :=
  if (48 <=? ord c) && (ord c <=? 57) then Some (ord c - 48) else None.

Definition unsigned_value (s : list ascii) : option Z :=
  match s with
  | [] => None
  | _ => ds ← mapM digit_value s; Some (horner 10 0 ds)
  end.

(** The value of a decimal string with an optional minus sign: what
    [fc::to_int64] documents to read. *)
Definition decimal_value (s : list ascii) : option Z :=
  match s with
  | c :: s' =>
      if bool_decide (c = "-"%char) then Z.opp <$> unsigned_value s' else unsigned_value s
  | [] => None
  end.

Lemma digit_value_dchar d : is_digit 10 d -> digit_value (dchar d) = Some d.
Proof.
  unfold is_digit. intros Hd. unfold digit_value. rewrite dchar_inj by done.
  rewrite !(proj2 (Z.leb_le _ _)) by lia. simpl. f_equal. lia.
Qed.

Lemma mapM_digit_value ds : Forall (is_digit 10) ds -> mapM digit_value (map dchar ds) = Some ds.
Proof.
  induction 1 as [|d ds Hd Hds IH]; [done|]. simpl.
  by rewrite digit_value_dchar, IH.
Qed.

Lemma unsigned_value_digits ds :
  ds <> [] -> Forall (is_digit 10) ds -> unsigned_value (map dchar ds) = Some (horner 10 0 ds).
Proof.
  intros Hn Hds. destruct ds as [|d ds]; [done|]. unfold unsigned_value.
  change (map dchar (d :: ds)) with (dchar d :: map dchar ds).
  change (dchar d :: map dchar ds) with (map dchar (d :: ds)).
  by rewrite mapM_digit_value.
Qed.

Lemma dec_loop_digs n k z acc :
  (k <= n)%nat -> (k = O \/ 10 ^ Z.of_nat k <= z) -> 0 <= z < 10 ^ Z.of_nat (S k) ->
  dec_loop n z acc = map dchar (digs 10 (S k) z) ++ acc.
Proof.
  revert n z acc. induction k as [|k IH]; intros n z acc Hn Hk Hz.
  - change (10 ^ Z.of_nat 1) with 10 in Hz. destruct n; simpl; [done|].
    by rewrite (proj2 (Z.ltb_lt _ _)) by lia.
  - destruct Hk as [|Hk]; [done|]. destruct n as [|n]; [lia|].
    rewrite (Nat2Z.inj_succ (S k)), Z.pow_succ_r in Hz by lia.
    assert (10 <= 10 ^ Z.of_nat (S k))
      by (rewrite Nat2Z.inj_succ, Z.pow_succ_r by lia;
          pose proof (Z.pow_pos_nonneg 10 (Z.of_nat k)); lia).
    cbn [dec_loop]. rewrite (proj2 (Z.ltb_ge _ _)) by lia.
    rewrite (IH n (z / 10)); [|lia| |].
    + change (digs 10 (S (S k)) z) with (digs 10 (S k) (z / 10) ++ [z mod 10]).
      by rewrite map_app, <- app_assoc.
    + right. apply Z.div_le_lower_bound; [lia|].
      rewrite Nat2Z.inj_succ, Z.pow_succ_r in Hk by lia. lia.
    + split; [apply Z.div_pos; lia|]. apply Z.div_lt_upper_bound; lia.
Qed.

(** Every number below 10^21 has its decimal digits printed, the first not
    zero unless there is only one. *)
Lemma std_to_string_digs z :
  0 <= z < 10 ^ 21 -> exists k, (k <= 20)%nat /\ (k = O \/ 10 ^ Z.of_nat k <= z) /\
    z < 10 ^ Z.of_nat (S k) /\ std_to_string z = map dchar (digs 10 (S k) z).
Proof.
  intros Hz.
  assert (exists k, (k <= 20)%nat /\ (k = O \/ 10 ^ Z.of_nat k <= z) /\
    z < 10 ^ Z.of_nat (S k)) as (k & Hk & Hlo & Hhi).
  { clear -Hz. assert (forall n, z < 10 ^ Z.of_nat (S n) -> exists k, (k <= n)%nat /\
      (k = O \/ 10 ^ Z.of_nat k <= z) /\ z < 10 ^ Z.of_nat (S k)) as H.
    { induction n as [|n IH]; intros Hn; [exists O; auto|].
      destruct (decide (z < 10 ^ Z.of_nat (S n))) as [Hl|Hl].
      - destruct (IH Hl) as (k & ? & ? & ?). exists k. auto with lia.
      - exists (S n). auto with lia. }
    apply (H 20%nat). change (Z.of_nat 21) with 21. lia. }
  exists k. split_and!; [done..|]. unfold std_to_string.
  rewrite (proj2 (Z.ltb_ge _ _)) by lia.
  rewrite (dec_loop_digs 20 k) by (done || lia). apply app_nil_r.
Qed.

Lemma decimal_value_to_string z :
  0 <= z < 10 ^ 21 -> unsigned_value (std_to_string z) = Some z.
Proof.
  intros Hz. destruct (std_to_string_digs z Hz) as (k & Hk & _ & Hhi & ->).
  rewrite unsigned_value_digits.
  - rewrite horner_digs by lia. f_equal. apply Z.mod_small. lia.
  - intros Hn. apply (f_equal length) in Hn. by rewrite length_digs in Hn.
  - apply digs_digit. lia.
Qed.

(** ** What the code relies on of [fc] *)

(** [std::isspace]. *)
Definition is_space (c : ascii) : bool := (ord c =? 32) || ((9 <=? ord c) && (ord c <=? 13)).

Definition no_space_at (o : option ascii) : Prop :=
  match o with Some c => is_space c = false | None => True end.

(** [fc::trim] leaves alone a string with no white space at its ends;
    [fc::to_int64] reads a decimal string whose value fits; [fc::to_string]
    prints a non-negative number in decimal; [fc::safe] passes what fits. *)
Class FcLaws `{FcOps} : Prop := {
  fc_trim_id s : no_space_at (head s) -> no_space_at (last s) -> fc_trim s = s;
  fc_to_int64_value s z : decimal_value s = Some z -> is_i64 z -> fc_to_int64 s = Ok z;
  fc_to_string_dec z : 0 <= z -> is_i64 z -> fc_to_string z = std_to_string z;
  fc_safe_ok z : is_i64 z -> fc_safe z = Ok z
}.

(** An implementation of the interface, which the witnesses run. *)
Module FcRef.

Fixpoint ltrim (s : list ascii) : list ascii :=
  match s with
  | c :: s' => if is_space c then ltrim s' else s
  | [] => []
  end.

#[export] Instance ops : FcOps := {
  fc_trim s := reverse (ltrim (reverse (ltrim s)));
  fc_to_int64 s :=
    match decimal_value s with
    | Some z => if bool_decide (is_i64 z) then Ok z else Err overflow_exception
    | None => Err parse_error
    end;
  fc_to_string := std_to_string;
  fc_safe z := if bool_decide (is_i64 z) then Ok z else Err overflow_exception
}.

Lemma ltrim_id s : no_space_at (head s) -> ltrim s = s.
Proof. destruct s as [|c s]; simpl; [done|]. by intros ->. Qed.

#[export] Instance laws : FcLaws.
Proof.
  constructor; simpl.
  - intros s Hh Hl. rewrite (ltrim_id s) by done.
    rewrite ltrim_id; [apply reverse_involutive|]. by rewrite head_reverse.
  - intros s z -> Hz. by rewrite bool_decide_eq_true_2.
  - done.
  - intros z Hz. by rewrite bool_decide_eq_true_2.
Qed.

End FcRef.

(** ** Printing a symbol and reading it back *)

Lemma find_char_app c s1 s2 : c ∉ s1 -> find_char c (s1 ++ c :: s2) = Some (length s1).
Proof.
  induction s1 as [|x s1 IH]; intros Hc; simpl; [by rewrite bool_decide_eq_true_2|].
  rewrite bool_decide_eq_false_2 by set_solver. rewrite IH by set_solver. done.
Qed.

Lemma find_char_none c s : c ∉ s -> find_char c s = None.
Proof.
  induction s as [|x s IH]; intros Hc; simpl; [done|].
  rewrite bool_decide_eq_false_2 by set_solver. by rewrite IH by set_solver.
Qed.

(** Digits are characters 48 to 57. *)
Lemma std_to_string_chars z :
  0 <= z < 10 ^ 21 -> Forall (fun c => 48 <= ord c <= 57) (std_to_string z).
Proof.
  intros Hz. destruct (std_to_string_digs z Hz) as (k & _ & _ & _ & ->).
  apply Forall_map. eapply Forall_impl; [apply digs_digit; lia|].
  unfold is_digit. intros d Hd. simpl. rewrite dchar_inj; lia.
Qed.

Lemma std_to_string_cons z :
  0 <= z < 10 ^ 21 -> exists c s, std_to_string z = c :: s /\ 48 <= ord c <= 57.
Proof.
  intros Hz. pose proof (std_to_string_chars z Hz) as Hf.
  destruct (std_to_string_digs z Hz) as (k & _ & _ & _ & E). rewrite E in *.
  destruct (map dchar (digs 10 (S k) z)) as [|c s] eqn:Em.
  - apply (f_equal length) in Em. by rewrite length_map, length_digs in Em.
  - apply Forall_cons in Hf as [Hc _]. eauto.
Qed.

Lemma decimal_value_digits s :
  Forall (fun c => 48 <= ord c <= 57) s -> decimal_value s = unsigned_value s.
Proof.
  destruct s as [|c s]; intros Hf; [done|]. apply Forall_cons in Hf as [Hc _].
  unfold decimal_value. rewrite bool_decide_eq_false_2; [done|].
  intros ->. change (ord "-") with 45 in Hc. lia.
Qed.

Lemma is_upper_no_space c : is_upper c = true -> is_space c = false.
Proof.
  intros H%is_upper_bound. unfold is_space. apply orb_false_iff. split.
  - apply Z.eqb_neq. lia.
  - apply andb_false_iff. right. apply Z.leb_gt. lia.
Qed.

Lemma digit_no_space c : 48 <= ord c <= 57 -> is_space c = false.
Proof.
  intros H. unfold is_space. apply orb_false_iff. split.
  - apply Z.eqb_neq. lia.
  - apply andb_false_iff. right. apply Z.leb_gt. lia.
Qed.

Lemma valid_name_last s c : valid_name s = true -> last s = Some c -> is_upper c = true.
Proof.
  intros Hs Hl. apply Is_true_true, forallb_True in Hs. rewrite Forall_forall in Hs.
  apply Is_true_true, Hs. by apply last_Some_elem_of.
Qed.

Lemma c_str_upper s : valid_name s = true -> c_str s = s.
Proof.
  induction s as [|c s IH]; intros Hs; [done|]. simpl in *.
  apply andb_true_iff in Hs as [Hc%is_upper_bound Hs]. rewrite IH by done.
  destruct (Ascii.eqb_spec c NUL) as [->|]; [|done]. change (ord NUL) with 0 in Hc. lia.
Qed.

Section Laws.
Context `{FcLaws}.

Lemma to_int64_to_string z : 0 <= z < 2 ^ 63 -> fc_to_int64 (std_to_string z) = Ok z.
Proof.
  intros Hz. apply fc_to_int64_value; [|unfold is_i64; lia].
  rewrite decimal_value_digits by (apply std_to_string_chars; lia).
  apply decimal_value_to_string. lia.
Qed.

Lemma symbol_from_string_to_string_lemma v :
  is_u64 v -> symbol_valid v = true -> symbol_name v <> [] ->
  symbol_from_string (symbol_to_string v) = Ok v.
Proof.
  intros Hv Hval Hne. pose proof Hval as Hval'. unfold symbol_valid in Hval'. split_bool.
  destruct (symbol_encode v) as [He Hl]; [done..|].
  assert (0 <= symbol_decimals v) by (apply Z.land_nonneg; lia).
  unfold max_precision in *. fold (symbol_decimals v) in *.
  unfold symbol_to_string, symbol_from_string, max_precision. fold (symbol_decimals v).
  set (ds := std_to_string (symbol_decimals v)).
  pose proof (std_to_string_chars (symbol_decimals v) ltac:(lia)) as Hds. fold ds in Hds.
  rewrite fc_trim_id.
  2:{ destruct (std_to_string_cons (symbol_decimals v)) as (c & s & E & Hc); [lia|].
      unfold ds. rewrite E. simpl. by apply digit_no_space. }
  2:{ rewrite last_app_cons. rewrite last_cons.
      destruct (last (symbol_name v)) as [c|] eqn:E; simpl.
      - apply is_upper_no_space. by eapply valid_name_last.
      - by apply last_None in E. }
  rewrite bool_decide_eq_false_2 by (by destruct ds). simpl.
  rewrite find_char_app.
  2:{ rewrite Forall_forall in Hds. intros Hin%Hds. change (ord ",") with 44 in Hin. lia. }
  simpl. rewrite take_app_length.
  assert (fc_to_int64 ds = Ok (symbol_decimals v)) as -> by (apply to_int64_to_string; lia).
  simpl.
  assert (u8 (symbol_decimals v) = symbol_decimals v) as -> by (apply Z.mod_small; lia).
  rewrite (proj2 (Z.leb_le _ _)) by lia. simpl.
  rewrite drop_app_ge, Nat.sub_succ_l, Nat.sub_diag by lia. simpl.
  rewrite drop_0, c_str_upper, string_to_symbol_ok by (done || (unfold is_u8; lia)).
  rewrite He. simpl. unfold symbol_of_value. by rewrite Hval.
Qed.
End Laws.
