(* ===== verification/Asset.v ===== *)
(** * Assets

    [libraries/chain/include/snax/chain/asset.hpp] and [asset.cpp]: an amount
    and a symbol. *)

From Stdlib Require Import ZArith Lia Bool Ascii String.
From stdpp Require Import base numbers list sets.
From S2P Require Import Prelude Name Symbol.

Open Scope Z_scope.

Record asset := mk_asset { amount : Z; sym : Z }.

#[export] Instance asset_eq_dec : EqDecision asset.
Proof. solve_decision. Defined.

Definition max_amount : Z := Z.shiftl 1 62 - 1.

Definition is_amount_within_range (a : asset) : bool :=
  (- max_amount <=? amount a) && (amount a <=? max_amount).

Definition is_valid (a : asset) : bool :=
  is_amount_within_range a && symbol_valid (sym a).

(** [explicit asset( share_type a, symbol id )]. *)
Definition make_asset (a id : Z) : result asset :=
  let r := mk_asset a id in
  SNAX_ASSERT (is_amount_within_range r) asset_type_exception;;
  SNAX_ASSERT (symbol_valid (sym r)) asset_type_exception;;
  mret r.

Definition asset_decimals (a : asset) : Z := symbol_decimals (sym a).
Definition asset_symbol_name (a : asset) : list ascii := symbol_name (sym a).
Definition asset_precision (a : asset) : result Z := i64 <$> symbol_precision (sym a).

(** Signed 64-bit arithmetic of [share_type]: overflow has no meaning. *)
Definition share (z : Z) : result Z :=
  if bool_decide (is_i64 z) then Ok z else Err undefined_behavior.

(** [operator +=] and [-=] change the amount and check no range. *)
Definition asset_add_assign (a o : asset) : result asset :=
  SNAX_ASSERT (sym a =? sym o) asset_type_exception;;
  x ← share (amount a + amount o);
  mret (mk_asset x (sym a)).

Definition asset_sub_assign (a o : asset) : result asset :=
  SNAX_ASSERT (sym a =? sym o) asset_type_exception;;
  x ← share (amount a - amount o);
  mret (mk_asset x (sym a)).

Definition asset_neg (a : asset) : result asset :=
  x ← share (- amount a); make_asset x (sym a).

Definition asset_eqb (a b : asset) : bool := (sym a =? sym b) && (amount a =? amount b).

(** [std::tie(a.amount, a.sym) < std::tie(b.amount, b.sym)]. *)
Definition asset_ltb (a b : asset) : result bool :=
  SNAX_ASSERT (sym a =? sym b) asset_type_exception;;
  mret ((amount a <? amount b) || ((amount a =? amount b) && (sym a <? sym b))).

Definition asset_leb (a b : asset) : result bool :=
  if asset_eqb a b then Ok true else asset_ltb a b.
Definition asset_neqb (a b : asset) : bool := negb (asset_eqb a b).
Definition asset_gtb (a b : asset) : result bool := negb <$> asset_leb a b.
Definition asset_geb (a b : asset) : result bool := negb <$> asset_ltb a b.

Definition asset_sub (a b : asset) : result asset :=
  SNAX_ASSERT (sym a =? sym b) asset_type_exception;;
  x ← share (amount a - amount b); make_asset x (sym a).

Definition asset_add (a b : asset) : result asset :=
  SNAX_ASSERT (sym a =? sym b) asset_type_exception;;
  x ← share (amount a + amount b); make_asset x (sym a).

Definition asset_reflector_verify (a : asset) : result unit :=
  SNAX_ASSERT (is_amount_within_range a) asset_type_exception;;
  SNAX_ASSERT (symbol_valid (sym a)) asset_type_exception.

Section Strings.
Context `{FcOps}.

Definition asset_to_string (a : asset) : result (list ascii) :=
  let sign := if amount a <? 0 then ["-"%char] else [] in
  abs_amount ← share (Z.abs (amount a));
  p ← asset_precision a;
  let res := fc_to_string (abs_amount `quot` p) in
  let res :=
    if asset_decimals a =? 0 then res
    else
      let fract := abs_amount `rem` p in
      res ++ "."%char :: drop 1 (fc_to_string (p + fract)) in
  mret (sign ++ res ++ " "%char :: asset_symbol_name a).

Definition asset_from_string (from : list ascii) : result asset :=
  let s := fc_trim from in
  space_pos ← of_option asset_type_exception (find_char " "%char s);
  let symbol_str := fc_trim (drop (S space_pos) s) in
  let amount_str := take space_pos s in
  let dot_pos := find_char "."%char amount_str in
  match dot_pos with
  | Some d => SNAX_ASSERT (negb (d =? length amount_str - 1)%nat) asset_type_exception
  | None => Ok tt
  end;;
  let precision_digit_str :=
    match dot_pos with
    | Some d => std_to_string (Z.of_nat (length amount_str) - Z.of_nat d - 1)
    | None => ["0"%char]
    end in
  let symbol_part := precision_digit_str ++ ","%char :: symbol_str in
  sy ← symbol_from_string symbol_part;
  '(int_part, fract_part) ←
    match dot_pos with
    | Some d =>
        int_part ← fc_to_int64 (take d amount_str);
        fract_part ← fc_to_int64 (drop (S d) amount_str);
        fract_part ←
          (if bool_decide (head amount_str = Some "-"%char) then fc_safe (fract_part * -1)
           else Ok fract_part);
        mret (int_part, fract_part)
    | None => int_part ← fc_to_int64 amount_str; mret (int_part, 0)
    end;
  p ← symbol_precision sy;
  am ← fc_safe (int_part * p);
  am ← fc_safe (am + fract_part);
  make_asset am sy.

End Strings.

Example asset_to_string_ex :
  @asset_to_string FcRef.ops (mk_asset (-5000) 379052774148) = Ok (chars "-0.5000 SNAX").
Proof. vm_compute. reflexivity. Qed.

Example asset_from_string_ex :
  @asset_from_string FcRef.ops (chars "10.0000 CUR") =
  (s ← symbol_of_chars 4 (chars "CUR"); make_asset 100000 s).
Proof. vm_compute. reflexivity. Qed.

(** ** Bounds *)

Lemma make_asset_Ok a id r :
  make_asset a id = Ok r <-> r = mk_asset a id /\ is_valid r = true.
Proof.
  unfold make_asset, is_valid. split.
  - intros H. inv_ok. split; [done|]. by apply andb_true_iff.
  - intros [-> Hv]. apply andb_true_iff in Hv as [H1 H2]. by rewrite H1, H2.
Qed.

Lemma max_amount_value : max_amount = 2 ^ 62 - 1.
Proof. reflexivity. Qed.

Lemma in_range_iff a :
  is_amount_within_range a = true <-> - (2 ^ 62 - 1) <= amount a <= 2 ^ 62 - 1.
Proof.
  unfold is_amount_within_range. rewrite max_amount_value, andb_true_iff, !Z.leb_le. lia.
Qed.

(** The sum or difference of two in-range amounts fits in 64 bits. *)
Lemma share_in_range a b x :
  is_amount_within_range a = true -> is_amount_within_range b = true ->
  x = amount a + amount b \/ x = amount a - amount b -> share x = Ok x.
Proof.
  rewrite !in_range_iff. intros Ha Hb Hx. unfold share.
  rewrite bool_decide_eq_true_2; [done|]. unfold is_i64. lia.
Qed.

(** On valid assets of one symbol, [operator+] and [operator-] never
    overflow 64 bits, and return the exact sum or difference as a valid asset
    when its magnitude is below 2^62 and throw [asset_type_exception]
    otherwise. *)
Theorem asset_arith_checked a b
  (Ha : is_valid a = true) (Hb : is_valid b = true) (Hs : sym a = sym b) :
  let chk x := if (- max_amount <=? x) && (x <=? max_amount)
               then Ok (mk_asset x (sym a)) else Err asset_type_exception in
  asset_add a b = chk (amount a + amount b) /\
  asset_sub a b = chk (amount a - amount b).
Proof.
  unfold is_valid in *. apply andb_true_iff in Ha as [Ha Hsa], Hb as [Hb _].
  simpl. unfold asset_add, asset_sub. rewrite Hs, Z.eqb_refl. simpl.
  split; (erewrite (share_in_range a b) by eauto); simpl; unfold make_asset; simpl;
    rewrite <- Hs, Hsa; unfold is_amount_within_range; simpl; by destruct (_ && _).
Qed.

Lemma asset_arith_checked_witness :
  let a := mk_asset 5 379052774148 in
  is_valid a = true /\ asset_add a a = Ok (mk_asset 10 379052774148).
Proof.
  split; [vm_compute; reflexivity|].
  destruct (asset_arith_checked (mk_asset 5 379052774148) (mk_asset 5 379052774148)) as [-> _];
    vm_compute; reflexivity.
Defined.

(** ** Printing and parsing *)

Lemma precision_loop_pow n p :
  0 <= p -> p * 10 ^ Z.of_nat n < 2 ^ 64 -> precision_loop n p = p * 10 ^ Z.of_nat n.
Proof.
  revert p. induction n as [|n IH]; intros p Hp Hb; [simpl; lia|].
  rewrite Nat2Z.inj_succ, Z.pow_succ_r in * by lia. cbn [precision_loop].
  assert (0 < 10 ^ Z.of_nat n) by (apply Z.pow_pos_nonneg; lia).
  rewrite u64_small by (unfold is_u64; nia). rewrite IH by nia. lia.
Qed.

Lemma symbol_precision_pow v :
  symbol_valid v = true ->
  symbol_precision v = Ok (10 ^ symbol_decimals v) /\ 0 <= symbol_decimals v <= 18.
Proof.
  intros Hv. unfold symbol_valid, max_precision in Hv. split_bool.
  assert (0 <= symbol_decimals v) by (apply Z.land_nonneg; lia).
  assert (10 ^ symbol_decimals v <= 10 ^ 18) by (apply Z.pow_le_mono_r; lia).
  split; [|lia]. unfold symbol_precision. rewrite (proj2 (Z.leb_le _ _)) by (unfold max_precision; lia).
  simpl. unfold mret, result_ret. f_equal. rewrite precision_loop_pow; rewrite ?Z2Nat.id; lia.
Qed.

Lemma pow10_le_18 k : 0 <= k <= 18 -> 0 < 10 ^ k <= 10 ^ 18.
Proof. intros. split; [apply Z.pow_pos_nonneg; lia|apply Z.pow_le_mono_r; lia]. Qed.

(** The digits after the leading one of [10^k + f] are the [k] digits of [f]. *)
Lemma fraction_digits k f :
  0 < k <= 18 -> 0 <= f < 10 ^ k ->
  drop 1 (std_to_string (10 ^ k + f)) = map dchar (digs 10 (Z.to_nat k) f).
Proof.
  intros Hk Hf. pose proof (pow10_le_18 k ltac:(lia)).
  assert (10 ^ (k + 1) = 10 * 10 ^ k) by (rewrite Z.pow_add_r; lia).
  unfold std_to_string. rewrite (proj2 (Z.ltb_ge _ _)) by lia.
  rewrite (dec_loop_digs 20 (Z.to_nat k)); [|lia|right; rewrite Z2Nat.id; lia|].
  2:{ replace (Z.of_nat (S (Z.to_nat k))) with (k + 1) by lia. lia. }
  rewrite app_nil_r. set (n := Z.to_nat k).
  assert (Z.of_nat n = k) as Hn by lia.
  clearbody n. subst k.
  assert (forall m g, 0 <= g < 10 ^ Z.of_nat m ->
    digs 10 (S m) (10 ^ Z.of_nat m + g) = 1 :: digs 10 m g) as Hd.
  { clear. induction m as [|m IH]; intros g Hg.
    - simpl in *. replace g with 0 by lia. done.
    - rewrite Nat2Z.inj_succ, Z.pow_succ_r in * by lia.
      change (digs 10 (S (S m)) (10 * 10 ^ Z.of_nat m + g)) with
        (digs 10 (S m) ((10 * 10 ^ Z.of_nat m + g) / 10) ++ [(10 * 10 ^ Z.of_nat m + g) mod 10]).
      rewrite (Z.mul_comm 10), Z.div_add_l by lia.
      rewrite (Z.add_comm _ g), Z.mod_add by lia.
      rewrite IH; [done|]. split; [apply Z.div_pos; lia|apply Z.div_lt_upper_bound; lia]. }
  by rewrite Hd.
Qed.

Definition sign_of (x : Z) : list ascii := if x <? 0 then ["-"%char] else [].

Definition fraction_of (d f : Z) : list ascii :=
  if d =? 0 then [] else "."%char :: map dchar (digs 10 (Z.to_nat d) f).

Lemma decimal_value_sign x s y :
  Forall (fun c => 48 <= ord c <= 57) s -> unsigned_value s = Some y ->
  decimal_value (sign_of x ++ s) = Some (if x <? 0 then - y else y).
Proof.
  intros Hs Hy. unfold sign_of. destruct (x <? 0); simpl app.
  - unfold decimal_value. rewrite bool_decide_eq_true_2 by done. by rewrite Hy.
  - by rewrite decimal_value_digits.
Qed.

Lemma digits_not_in c s : ~ 48 <= ord c <= 57 -> Forall (fun c => 48 <= ord c <= 57) s -> c ∉ s.
Proof. intros Hc Hs Hin. rewrite Forall_forall in Hs. by apply Hc, Hs. Qed.

Lemma sign_not_in c x : c <> "-"%char -> c ∉ sign_of x.
Proof. unfold sign_of. destruct (x <? 0); set_solver. Qed.

Lemma map_dchar_digits n f : Forall (fun c => 48 <= ord c <= 57) (map dchar (digs 10 n f)).
Proof.
  apply Forall_map. eapply Forall_impl; [apply digs_digit; lia|].
  unfold is_digit. intros d Hd. simpl. rewrite dchar_inj; lia.
Qed.

Section RoundTrip.
Context `{FcLaws}.

(** The printed form of a valid asset. *)
Lemma asset_to_string_form a :
  is_valid a = true ->
  let p := 10 ^ asset_decimals a in
  asset_to_string a =
  Ok (sign_of (amount a) ++
      (std_to_string (Z.abs (amount a) / p) ++ fraction_of (asset_decimals a) (Z.abs (amount a) mod p)) ++
      " "%char :: asset_symbol_name a).
Proof.
  unfold is_valid. intros [Hr%in_range_iff Hv]%andb_true_iff.
  destruct (symbol_precision_pow (sym a) Hv) as [Hp Hd].
  fold (asset_decimals a) in *. pose proof (pow10_le_18 _ Hd).
  unfold asset_to_string, share.
  rewrite bool_decide_eq_true_2 by (unfold is_i64; lia). simpl.
  unfold asset_precision. rewrite Hp. simpl.
  rewrite i64_small by (unfold is_i64; lia).
  rewrite Z.quot_div_nonneg, Z.rem_mod_nonneg by lia.
  set (p := 10 ^ asset_decimals a) in *.
  assert (0 <= Z.abs (amount a) / p < 2 ^ 62)
    by (split; [apply Z.div_pos|apply Z.div_lt_upper_bound]; nia).
  pose proof (Z.mod_pos_bound (Z.abs (amount a)) p ltac:(lia)).
  rewrite !fc_to_string_dec by (unfold is_i64; lia).
  unfold mret, result_ret, sign_of, fraction_of. do 3 f_equal.
  destruct (Z.eqb_spec (asset_decimals a) 0); [by rewrite app_nil_r|].
  unfold p. by rewrite fraction_digits by (unfold p in *; lia).
Qed.

(** Parsing a string made of an amount and a symbol name. *)
Lemma asset_from_string_split am name :
  head am <> None -> (forall c, head am = Some c -> is_space c = false) ->
  " "%char ∉ am -> name <> [] -> valid_name name = true ->
  let s := am ++ " "%char :: name in
  fc_trim s = s /\ find_char " "%char s = Some (length am) /\
  take (length am) s = am /\ fc_trim (drop (S (length am)) s) = name.
Proof.
  intros Hh Hh' Hsp Hne Hn s.
  assert (exists c, last name = Some c /\ is_space c = false) as (c & Hc & Hcs).
  { destruct (last name) as [c|] eqn:E; [|by apply last_None in E].
    exists c. split; [done|]. apply is_upper_no_space. by eapply valid_name_last. }
  split_and!.
  - apply fc_trim_id.
    + unfold s. destruct am as [|x am]; [done|]. simpl. by apply Hh'.
    + unfold s. rewrite last_app_cons, last_cons, Hc. done.
  - by apply find_char_app.
  - apply take_app_length.
  - unfold s. rewrite drop_app_ge, Nat.sub_succ_l, Nat.sub_diag by lia. cbn [drop].
    apply fc_trim_id.
    + destruct name as [|x name]; [done|]. simpl in *.
      apply andb_true_iff in Hn as [Hx _]. by apply is_upper_no_space.
    + by rewrite Hc.
Qed.

Lemma head_amount x z rest :
  0 <= z < 10 ^ 21 ->
  exists c, head (sign_of x ++ std_to_string z ++ rest) = Some c /\ is_space c = false /\
    (c = "-"%char <-> x < 0).
Proof.
  intros Hz. destruct (std_to_string_cons z Hz) as (c & s & -> & Hc).
  unfold sign_of. destruct (Z.ltb_spec x 0).
  - by exists "-"%char.
  - exists c. split_and!; [done|by apply digit_no_space|].
    split; [|lia]. intros ->. change (ord "-") with 45 in Hc. lia.
Qed.

(** Reading a printed amount without a fraction. *)
Lemma parse_integer_amount x :
  - 2 ^ 62 < x < 2 ^ 62 -> fc_to_int64 (sign_of x ++ std_to_string (Z.abs x)) = Ok x.
Proof.
  intros Hx. apply fc_to_int64_value; [|unfold is_i64; lia].
  rewrite (decimal_value_sign x _ (Z.abs x)).
  - f_equal. destruct (Z.ltb_spec x 0); lia.
  - apply std_to_string_chars. lia.
  - apply decimal_value_to_string. lia.
Qed.

Lemma parse_int_part x z :
  0 <= z < 2 ^ 62 ->
  fc_to_int64 (sign_of x ++ std_to_string z) = Ok (if x <? 0 then - z else z).
Proof.
  intros Hz. apply fc_to_int64_value; [|unfold is_i64; destruct (x <? 0); lia].
  apply decimal_value_sign; [apply std_to_string_chars; lia|].
  apply decimal_value_to_string. lia.
Qed.

Lemma parse_fract_part d f :
  0 < d <= 18 -> 0 <= f < 10 ^ d ->
  fc_to_int64 (map dchar (digs 10 (Z.to_nat d) f)) = Ok f.
Proof.
  intros Hd Hf. pose proof (pow10_le_18 d ltac:(lia)).
  apply fc_to_int64_value; [|unfold is_i64; lia].
  rewrite decimal_value_digits by apply map_dchar_digits.
  rewrite unsigned_value_digits.
  - rewrite horner_digs, Z2Nat.id, Z.mod_small by lia. done.
  - intros Hn%(f_equal length). rewrite length_digs in Hn. simpl in Hn. lia.
  - apply digs_digit. lia.
Qed.

(** What [from_string] does with an amount and a name, by whether the amount
    has a decimal point. *)
Definition finish_amount (sy int_part fract_part : Z) : result asset :=
  p ← symbol_precision sy;
  am ← fc_safe (int_part * p);
  am ← fc_safe (am + fract_part);
  make_asset am sy.

Definition good_amount (am : list ascii) : Prop :=
  (exists c, head am = Some c /\ is_space c = false) /\ " "%char ∉ am.

Lemma from_string_no_dot am name sy x :
  good_amount am -> name <> [] -> valid_name name = true -> "."%char ∉ am ->
  symbol_from_string (std_to_string 0 ++ ","%char :: name) = Ok sy ->
  fc_to_int64 am = Ok x ->
  asset_from_string (am ++ " "%char :: name) = finish_amount sy x 0.
Proof.
  intros [(c & Hh & Hc) Hsp] Hn Hv Hdot Hsy Hx.
  destruct (asset_from_string_split am name) as (Ht & Hf & Htk & Hdr);
    [congruence|intros c'; congruence|done..|].
  unfold asset_from_string. rewrite Ht, Hf. cbn [of_option mbind result_bind].
  rewrite Htk, Hdr, find_char_none by done. cbn [mbind result_bind].
  change ["0"%char] with (std_to_string 0). rewrite Hsy. cbn [mbind result_bind].
  rewrite Hx. done.
Qed.

Lemma from_string_dot ip fp name sy x f f' :
  let am := ip ++ "."%char :: fp in
  good_amount am -> name <> [] -> valid_name name = true -> "."%char ∉ ip -> fp <> [] ->
  symbol_from_string (std_to_string (Z.of_nat (length fp)) ++ ","%char :: name) = Ok sy ->
  fc_to_int64 ip = Ok x -> fc_to_int64 fp = Ok f ->
  (if bool_decide (head am = Some "-"%char) then fc_safe (f * -1) else Ok f) = Ok f' ->
  asset_from_string (am ++ " "%char :: name) = finish_amount sy x f'.
Proof.
  intros am [(c & Hh & Hc) Hsp] Hn Hv Hdot Hfp Hsy Hx Hf Hf'.
  destruct (asset_from_string_split am name) as (Ht & Hfi & Htk & Hdr);
    [congruence|intros c'; congruence|done..|].
  unfold asset_from_string. rewrite Ht, Hfi. cbn [of_option mbind result_bind].
  rewrite Htk, Hdr. unfold am in *. rewrite find_char_app by done.
  assert (length fp <> 0%nat) by (by destruct fp).
  rewrite length_app. cbn [length].
  rewrite (proj2 (Nat.eqb_neq _ _)) by lia. cbn [negb SNAX_ASSERT mbind result_bind].
  replace (Z.of_nat (length ip + S (length fp)) - Z.of_nat (length ip) - 1)
    with (Z.of_nat (length fp)) by lia.
  rewrite Hsy. cbn [mbind result_bind].
  rewrite take_app_length, Hx. cbn [mbind result_bind].
  rewrite drop_app_ge, Nat.sub_succ_l, Nat.sub_diag by lia. cbn [drop].
  rewrite drop_0, Hf. cbn [mbind result_bind]. rewrite Hf'. done.
Qed.

Lemma finish_amount_ok a i f :
  is_valid a = true -> i * 10 ^ asset_decimals a + f = amount a ->
  is_i64 (i * 10 ^ asset_decimals a) -> finish_amount (sym a) i f = Ok a.
Proof.
  intros Hv Hif Hi. pose proof Hv as Hv'. unfold is_valid in Hv'.
  apply andb_true_iff in Hv' as [Hr%in_range_iff Hs].
  destruct (symbol_precision_pow _ Hs) as [Hp Hd]. unfold finish_amount. rewrite Hp.
  cbn [mbind result_bind]. rewrite fc_safe_ok by done. cbn [mbind result_bind].
  fold (asset_decimals a). rewrite Hif, fc_safe_ok by (unfold is_i64; lia).
  apply make_asset_Ok. by destruct a.
Qed.

Lemma good_amount_form x z d f :
  0 <= z < 10 ^ 21 -> good_amount (sign_of x ++ std_to_string z ++ fraction_of d f).
Proof.
  intros Hz. split.
  - destruct (head_amount x z (fraction_of d f) Hz) as (c & ? & ? & _). eauto.
  - unfold fraction_of. rewrite !not_elem_of_app. split_and!.
    + by apply sign_not_in.
    + eapply digits_not_in; [|by apply std_to_string_chars]. change (ord " ") with 32. lia.
    + destruct (d =? 0); [set_solver|]. rewrite not_elem_of_cons. split; [done|].
      eapply digits_not_in; [|apply map_dchar_digits]. change (ord " ") with 32. lia.
Qed.

Lemma no_dot_amount x z : 0 <= z < 10 ^ 21 -> "."%char ∉ sign_of x ++ std_to_string z.
Proof.
  intros Hz. rewrite not_elem_of_app. split; [by apply sign_not_in|].
  eapply digits_not_in; [|by apply std_to_string_chars]. change (ord ".") with 46. lia.
Qed.

Lemma asset_parse a :
  is_valid a = true -> is_u64 (sym a) -> asset_symbol_name a <> [] ->
  let p := 10 ^ asset_decimals a in let x := amount a in
  asset_from_string (sign_of x ++
    (std_to_string (Z.abs x / p) ++ fraction_of (asset_decimals a) (Z.abs x mod p)) ++
    " "%char :: asset_symbol_name a) = Ok a.
Proof.
  intros Hv Hs Hn p x. pose proof Hv as Hv'. unfold is_valid in Hv'.
  apply andb_true_iff in Hv' as [Hr%in_range_iff Hsv].
  destruct (symbol_precision_pow _ Hsv) as [_ Hd].
  assert (valid_name (asset_symbol_name a) = true) as Hvn
    by (unfold symbol_valid in Hsv; by apply andb_true_iff in Hsv as [_ ?]).
  pose proof (symbol_from_string_to_string_lemma _ Hs Hsv Hn : symbol_from_string
    (std_to_string (asset_decimals a) ++ ","%char :: asset_symbol_name a) = Ok (sym a)) as Hsym.
  assert (amount a = x) as Ha by done. clearbody x. rewrite Ha in Hr.
  fold (asset_decimals a) in *. pose proof (pow10_le_18 _ Hd) as Hp. fold p in Hp.
  assert (0 <= Z.abs x / p < 2 ^ 62) as Hq
    by (split; [apply Z.div_pos|apply Z.div_lt_upper_bound]; nia).
  pose proof (Z.mod_pos_bound (Z.abs x) p ltac:(lia)) as Hm.
  pose proof (Z.div_mod (Z.abs x) p ltac:(lia)) as Hdm.
  pose proof (good_amount_form x (Z.abs x / p) (asset_decimals a) (Z.abs x mod p)
    ltac:(lia)) as Hg.
  pose proof (no_dot_amount x (Z.abs x / p) ltac:(lia)) as Hnd.
  destruct (head_amount x (Z.abs x / p) (fraction_of (asset_decimals a) (Z.abs x mod p))
    ltac:(lia)) as (c & Hhd & _ & Hc).
  rewrite app_assoc. unfold fraction_of in *. destruct (Z.eqb_spec (asset_decimals a) 0) as [E|E].
  - rewrite app_nil_r in *. rewrite E in Hsym.
    erewrite from_string_no_dot; [|done..|by apply parse_int_part].
    apply finish_amount_ok; [done|..]; fold p; rewrite ?Ha; unfold is_i64;
      destruct (Z.ltb_spec x 0); unfold p in *; rewrite E, ?Z.mod_1_r in *; lia.
  - rewrite app_assoc in *.
    erewrite (from_string_dot _ _ _ _ _ _ (if x <? 0 then - (Z.abs x mod p) else Z.abs x mod p));
      [|done|done|done|done| | |by apply parse_int_part|apply parse_fract_part; lia|].
    + apply finish_amount_ok; [done|..]; fold p; rewrite ?Ha; unfold is_i64;
        destruct (Z.ltb_spec x 0); nia.
    + intros Hz%(f_equal length). rewrite length_map, length_digs in Hz. simpl in Hz. lia.
    + by rewrite length_map, length_digs, Z2Nat.id by lia.
    + rewrite Hhd. destruct (Z.ltb_spec x 0) as [Hx|Hx].
      * rewrite bool_decide_eq_true_2 by (f_equal; by apply Hc).
        rewrite fc_safe_ok by (unfold is_i64; lia). f_equal. lia.
      * rewrite bool_decide_eq_false_2; [done|]. intros [= ->]. by apply Zle_not_lt in Hx; apply Hx, Hc.
Qed.

(** Printing a valid asset that has a symbol name and parsing the result
    gives the asset back, whatever its sign, precision and amount. *)
Theorem asset_string_roundtrip a
  (Hv : is_valid a = true) (Hs : is_u64 (sym a)) (Hn : asset_symbol_name a <> []) :
  (s ← asset_to_string a; asset_from_string s) = Ok a.
Proof. rewrite asset_to_string_form by done. by apply asset_parse. Qed.

End RoundTrip.

Lemma asset_string_roundtrip_witness :
  let a := mk_asset (-12345) 379052774148 in
  is_valid a = true /\
  (s ← @asset_to_string FcRef.ops a; @asset_from_string FcRef.ops s) = Ok a.
Proof.
  split; [vm_compute; reflexivity|].
  apply (@asset_string_roundtrip FcRef.ops FcRef.laws); vm_compute;
    [reflexivity|split; [discriminate|reflexivity]|discriminate].
Defined.
