(* ===== verification/Merkle.v ===== *)
(** * Merkle roots

    [libraries/chain/merkle.cpp] computes the root of a list of digests from
    scratch; [include/snax/chain/incremental_merkle.hpp] keeps just enough
    nodes to update the root when one digest is appended. *)

From Stdlib Require Import ZArith Lia Bool.
From stdpp Require Import base numbers countable list.
From S2P Require Import Prelude.

Open Scope Z_scope.

(** [digest_type] is [fc::sha256]: four 64-bit words. *)
Record digest := mk_digest { hash0 : Z; hash1 : Z; hash2 : Z; hash3 : Z }.

#[export] Instance digest_eq_dec : EqDecision digest.
Proof. solve_decision. Defined.

Definition zero_digest : digest := mk_digest 0 0 0 0.

#[export] Instance digest_countable : Countable digest.
Proof.
  refine (inj_countable' (fun d => (hash0 d, hash1 d, hash2 d, hash3 d))
    (fun '(a, b, c, d) => mk_digest a b c d) _).
  by intros [].
Defined.

#[export] Instance digest_inhabited : Inhabited digest := populate zero_digest.

Definition make_canonical_left (val : digest) : digest :=
  mk_digest (Z.land (hash0 val) 0xFFFFFFFFFFFFFF7F) (hash1 val) (hash2 val) (hash3 val).

Definition make_canonical_right (val : digest) : digest :=
  mk_digest (Z.lor (hash0 val) 0x80) (hash1 val) (hash2 val) (hash3 val).

Definition is_canonical_left (val : digest) : bool := Z.land (hash0 val) 0x80 =? 0.
Definition is_canonical_right (val : digest) : bool := negb (Z.land (hash0 val) 0x80 =? 0).

Definition make_canonical_pair (l r : digest) : digest * digest :=
  (make_canonical_left l, make_canonical_right r).

(** ** Depth of the incremental tree *)

Definition next_power_of_2 (value : Z) : Z :=
  let value := u64 (value - 1) in
  let value := Z.lor value (Z.shiftr value 1) in
  let value := Z.lor value (Z.shiftr value 2) in
  let value := Z.lor value (Z.shiftr value 4) in
  let value := Z.lor value (Z.shiftr value 8) in
  let value := Z.lor value (Z.shiftr value 16) in
  let value := Z.lor value (Z.shiftr value 32) in
  u64 (value + 1).

Definition clz_power_2 (value : Z) : Z :=
  let lz := 64 in
  let lz := if value =? 0 then lz else lz - 1 in
  let lz := if Z.land value 0x00000000FFFFFFFF =? 0 then lz else lz - 32 in
  let lz := if Z.land value 0x0000FFFF0000FFFF =? 0 then lz else lz - 16 in
  let lz := if Z.land value 0x00FF00FF00FF00FF =? 0 then lz else lz - 8 in
  let lz := if Z.land value 0x0F0F0F0F0F0F0F0F =? 0 then lz else lz - 4 in
  let lz := if Z.land value 0x3333333333333333 =? 0 then lz else lz - 2 in
  let lz := if Z.land value 0x5555555555555555 =? 0 then lz else lz - 1 in
  lz.

Definition calcluate_max_depth (node_count : Z) : Z :=
  if node_count =? 0 then 0
  else
    let implied_count := next_power_of_2 node_count in
    clz_power_2 implied_count + 1.

Record incremental_merkle := mk_imerkle {
  _node_count : Z;
  _active_nodes : list digest
}.

Definition empty_imerkle : incremental_merkle := mk_imerkle 0 [].

Section Hash.
(** [digest_type::hash] of a pair of digests. *)
Context (hash : digest * digest -> digest).

Definition hash_node (l r : digest) : digest := hash (make_canonical_pair l r).

(** ** [merkle()] *)

(** [for (int i = 0; i < ids.size() / 2; i++)
       ids[i] = hash(make_canonical_pair(ids[2 * i], ids[(2 * i) + 1]));]
    in place, [n] rounds from [i] on. The indices are those of [int] as long as
    [2 * i + 1] is one, that is for up to 2^31 digests; beyond that the C++ code
    has no defined behaviour, and what the loop does here says nothing about it. *)
Fixpoint collapse_loop (n i : nat) (ids : list digest) : list digest :=
  match n with
  | O => ids
  | S n' =>
      collapse_loop n' (S i)
        (<[i := hash_node (ids !!! (2 * i)%nat) (ids !!! (2 * i + 1)%nat)]> ids)
  end.

Definition merkle_round (ids : list digest) : list digest :=
  let ids := if Nat.odd (length ids) then ids ++ [default zero_digest (last ids)] else ids in
  let half := Nat.div2 (length ids) in
  take half (collapse_loop half 0 ids).

(** The [while( ids.size() > 1 )] loop; a round at least halves the size, so
    [length ids] rounds are enough. *)
Fixpoint merkle_loop (fuel : nat) (ids : list digest) : list digest :=
  match fuel with
  | O => ids
  | S fuel' => if (1 <? length ids)%nat then merkle_loop fuel' (merkle_round ids) else ids
  end.

Definition merkle (ids : list digest) : digest :=
  match ids with
  | [] => zero_digest
  | _ => default zero_digest (head (merkle_loop (length ids) ids))
  end.

(** ** [incremental_merkle_impl::append] *)

(** The [while (current_depth > 0)] loop, [n] being [current_depth]. Reading
    [*active_iter] at the end of the vector has no meaning. *)
Fixpoint append_loop (n : nat) (index : Z) (top : digest) (partial : bool)
    (active updated : list digest) : result (list digest * digest) :=
  match n with
  | O => Ok (updated, top)
  | S n' =>
      if Z.land index 1 =? 0 then
        append_loop n' (Z.shiftr index 1) (hash_node top top) true active
          (if partial then updated else updated ++ [top])
      else
        match active with
        | [] => Err undefined_behavior
        | left_value :: active' =>
            append_loop n' (Z.shiftr index 1) (hash_node left_value top) partial active'
              (if partial then updated ++ [left_value] else updated)
        end
  end.

Definition imerkle_append (m : incremental_merkle) (d : digest) : result (incremental_merkle * digest) :=
  let max_depth := calcluate_max_depth (u64 (_node_count m + 1)) in
  let current_depth := max_depth - 1 in
  '(updated, top) ← append_loop (Z.to_nat current_depth) (_node_count m) d false (_active_nodes m) [];
  let updated := updated ++ [top] in
  mret (mk_imerkle (u64 (_node_count m + 1)) updated, top).

Definition get_root (m : incremental_merkle) : digest :=
  if 0 <? _node_count m then default zero_digest (last (_active_nodes m)) else zero_digest.

(** Appending a list of digests one by one. *)
Fixpoint imerkle_append_all (m : incremental_merkle) (ds : list digest) : result incremental_merkle :=
  match ds with
  | [] => mret m
  | d :: ds' => '(m', _) ← imerkle_append m d; imerkle_append_all m' ds'
  end.

End Hash.

(** ** The depth is the binary logarithm *)

(** After or-ing with the shifts by 1, 2, .., bit [i] is set when one of the
    next [w] bits of the original value is. *)
Definition smeared (v x w : Z) : Prop :=
  0 <= x /\ forall i, 0 <= i ->
    Z.testbit x i = true <-> exists j, 0 <= j < w /\ Z.testbit v (i + j) = true.

Lemma smeared_step v x w :
  0 < w -> smeared v x w -> smeared v (Z.lor x (Z.shiftr x w)) (2 * w).
Proof.
  intros Hw [Hx0 Hx]. split; [by apply Z.lor_nonneg; rewrite Z.shiftr_nonneg|].
  intros i Hi. rewrite Z.lor_spec, Z.shiftr_spec, orb_true_iff by done.
  rewrite (Hx i), (Hx (i + w)) by lia. split.
  - intros [(j & Hj & Ht)|(j & Hj & Ht)]; [exists j|exists (w + j)].
    + split; [lia|done].
    + rewrite Z.add_assoc. split; [lia|done].
  - intros (j & Hj & Ht). destruct (decide (j < w)); [left; exists j|right; exists (j - w)].
    + split; [lia|done].
    + replace (i + w + (j - w)) with (i + j) by lia. split; [lia|done].
Qed.

Lemma smeared_64 v x :
  0 < v < 2 ^ 64 -> smeared v x 64 -> x = Z.ones (Z.log2 v + 1).
Proof.
  intros Hv [Hx0 Hx]. pose proof (Z.log2_nonneg v).
  assert (Z.log2 v < 64) by (apply Z.log2_lt_pow2; lia).
  apply Z.bits_inj'. intros i Hi. destruct (decide (i <= Z.log2 v)) as [Hl|Hl].
  - rewrite Z.ones_spec_low by lia. apply Hx; [done|].
    exists (Z.log2 v - i). split; [lia|].
    replace (i + (Z.log2 v - i)) with (Z.log2 v) by lia. apply Z.bit_log2. lia.
  - rewrite Z.ones_spec_high by lia. apply not_true_is_false. intros Ht.
    apply Hx in Ht as (j & Hj & Ht); [|done].
    rewrite Z.bits_above_log2 in Ht by lia. done.
Qed.

Lemma next_power_of_2_log2_up n :
  1 <= n <= 2 ^ 63 -> next_power_of_2 n = 2 ^ Z.log2_up n.
Proof.
  intros Hn. destruct (decide (n = 1)) as [->|Hn1]; [reflexivity|].
  unfold next_power_of_2. rewrite (u64_small (n - 1)) by (unfold is_u64; lia). cbv zeta.
  assert (smeared (n - 1) (n - 1) 1) as H.
  { split; [lia|]. intros i Hi. split; [exists 0; rewrite Z.add_0_r; split; [lia|done]|].
    intros (j & Hj & Ht). replace (i + j) with i in Ht by lia. done. }
  apply (smeared_step _ _ 1), (smeared_step _ _ 2), (smeared_step _ _ 4),
    (smeared_step _ _ 8), (smeared_step _ _ 16), (smeared_step _ _ 32) in H; [|lia..].
  apply smeared_64 in H as ->; [|lia].
  rewrite Z.ones_equiv. unfold Z.log2_up. rewrite (proj2 (Z.compare_lt_iff 1 n)) by lia.
  unfold Z.pred, Z.succ. rewrite Z.sub_1_r, <- Z.add_assoc, Z.add_0_r.
  assert (Z.log2 (Z.pred n) <= 62).
  { apply Z.lt_succ_r, Z.log2_lt_pow2; unfold Z.pred, Z.succ; lia. }
  unfold Z.pred in *. pose proof (Z.log2_nonneg (n + -1)).
  assert (2 ^ (Z.log2 (n + -1) + 1) <= 2 ^ 63) by (apply Z.pow_le_mono_r; lia).
  assert (0 < 2 ^ (Z.log2 (n + -1) + 1)) by (apply Z.pow_pos_nonneg; lia).
  apply u64_small. unfold is_u64. lia.
Qed.

Lemma clz_power_2_log2 k : 0 <= k < 64 -> clz_power_2 (2 ^ k) = k.
Proof.
  intros Hk.
  assert (forallb (fun n => clz_power_2 (2 ^ Z.of_nat n) =? Z.of_nat n) (seq 0 64) = true) as H
    by (vm_compute; reflexivity).
  rewrite forallb_forall in H. specialize (H (Z.to_nat k)). rewrite Z2Nat.id in H by lia.
  apply Z.eqb_eq, H. apply in_seq. lia.
Qed.

(** The depth is one more than the base-2 logarithm rounded up. *)
Lemma calcluate_max_depth_log2_up n :
  1 <= n <= 2 ^ 63 -> calcluate_max_depth n = Z.log2_up n + 1.
Proof.
  intros Hn. unfold calcluate_max_depth. rewrite (proj2 (Z.eqb_neq n 0)) by lia.
  rewrite next_power_of_2_log2_up by done. rewrite clz_power_2_log2; [done|].
  split; [apply Z.log2_up_nonneg|].
  enough (Z.log2_up n <= 63) by lia. apply Z.log2_up_le_pow2; lia.
Qed.

(** The number of rounds of [append] for a tree of [c] nodes. *)
Lemma append_depth c :
  1 <= c <= 2 ^ 63 ->
  let n := Z.to_nat (calcluate_max_depth c - 1) in
  c <= 2 ^ Z.of_nat n < 2 * c.
Proof.
  intros Hc n. unfold n. rewrite calcluate_max_depth_log2_up by done.
  pose proof (Z.log2_up_nonneg c).
  rewrite Z.add_simpl_r, Z2Nat.id by done.
  destruct (decide (c = 1)) as [->|]; [done|].
  pose proof (Z.log2_up_spec c ltac:(lia)) as [Hl Hu].
  assert (0 < Z.log2_up c) by (apply Z.log2_up_pos; lia).
  assert (2 ^ Z.log2_up c = 2 * 2 ^ Z.pred (Z.log2_up c)).
  { rewrite <- Z.pow_succ_r by lia. f_equal. lia. }
  lia.
Qed.

(** ** One level of the tree *)

Section Levels.
Context (hash : digest * digest -> digest).
Notation H := (hash_node hash).

(** The level above [l]: pairs hashed, an odd last node paired with itself. *)
Fixpoint level_up (l : list digest) : list digest :=
  match l with
  | [] => []
  | [a] => [H a a]
  | a :: b :: l' => H a b :: level_up l'
  end.

Lemma list_ind2 (P : list digest -> Prop) :
  P [] -> (forall a, P [a]) -> (forall a b l, P l -> P (a :: b :: l)) -> forall l, P l.
Proof.
  intros H0 H1 H2 l. assert (P l /\ forall a, P (a :: l)) as [? _]; [|done].
  induction l as [|x l [IH1 IH2]]; [split; auto|]. split; [done|]. intros a. by apply H2.
Qed.

Lemma length_level_up l : length (level_up l) = Nat.div2 (S (length l)).
Proof. induction l as [| |a b l IH] using list_ind2; simpl in *; [done..|]. by rewrite IH. Qed.

Lemma level_up_app l1 l2 :
  Nat.Even (length l1) -> level_up (l1 ++ l2) = level_up l1 ++ level_up l2.
Proof.
  induction l1 as [|a|a b l IH] using list_ind2; intros He; simpl in *; [done| |].
  - destruct He as [k Hk]. lia.
  - rewrite IH; [done|]. destruct He as [k Hk]. exists (k - 1)%nat. lia.
Qed.

Lemma level_up_lookup l k :
  (2 * k + 1 < length l)%nat -> level_up l !! k = Some (H (l !!! (2 * k)%nat) (l !!! (2 * k + 1)%nat)).
Proof.
  revert k. induction l as [|a|a b l IH] using list_ind2; intros k Hk; simpl in Hk; [lia..|].
  destruct k as [|k]; [done|]. cbn [level_up lookup list_lookup].
  replace (2 * S k)%nat with (S (S (2 * k))) by lia.
  rewrite IH by lia. done.
Qed.

(** [merkle_round] collapses in place what [level_up] says. *)
Lemma collapse_loop_lookup n i ids k :
  (2 * (i + n) <= length ids)%nat ->
  collapse_loop hash n i ids !! k =
  if decide (i <= k < i + n)%nat then Some (H (ids !!! (2 * k)%nat) (ids !!! (2 * k + 1)%nat))
  else ids !! k.
Proof.
  revert i ids. induction n as [|n IH]; intros i ids Hl.
  { case_decide; [lia|done]. }
  cbn [collapse_loop]. rewrite IH by (rewrite length_insert; lia).
  destruct (decide (k = i)) as [->|Hk].
  - rewrite decide_False by lia. rewrite decide_True by lia.
    by rewrite list_lookup_insert_eq by lia.
  - destruct (decide (S i <= k < S i + n)%nat).
    + rewrite decide_True by lia. by rewrite !list_lookup_total_insert_ne by lia.
    + rewrite decide_False by lia. by rewrite list_lookup_insert_ne by lia.
Qed.

Lemma length_collapse_loop n i ids : length (collapse_loop hash n i ids) = length ids.
Proof.
  revert i ids. induction n as [|n IH]; intros i ids; simpl; [done|].
  by rewrite IH, length_insert.
Qed.

Lemma collapse_even ids :
  Nat.Even (length ids) ->
  take (Nat.div2 (length ids)) (collapse_loop hash (Nat.div2 (length ids)) 0 ids) = level_up ids.
Proof.
  intros [h Hh]. rewrite Hh, Nat.div2_double.
  assert (length (level_up ids) = h) as Hl.
  { rewrite length_level_up, Hh. apply Nat.div2_succ_double. }
  apply list_eq. intros k. destruct (decide (k < h)%nat) as [Hk|Hk].
  - rewrite lookup_take_lt by lia. rewrite collapse_loop_lookup by lia.
    rewrite decide_True by lia. by rewrite level_up_lookup by lia.
  - rewrite lookup_take_ge by lia. symmetry. apply lookup_ge_None. lia.
Qed.

Lemma merkle_round_level_up ids : merkle_round hash ids = level_up ids.
Proof.
  unfold merkle_round. destruct (Nat.odd (length ids)) eqn:E.
  - assert (ids <> []) as Hne by (by destruct ids).
    destruct ids as [|x l _] using rev_ind; [done|]. clear Hne.
    rewrite last_snoc. simpl. rewrite length_app in E. simpl in E.
    rewrite Nat.add_1_r, Nat.odd_succ in E. apply Nat.even_spec in E.
    rewrite <- app_assoc. simpl app. rewrite collapse_even.
    + by rewrite !level_up_app.
    + rewrite length_app. destruct E as [k Hk]. exists (S k). simpl. lia.
  - apply collapse_even. apply Nat.even_spec. by rewrite <- Nat.negb_odd, E.
Qed.

(** ** Rounds of [merkle] *)

Lemma merkle_loop_fuel f1 f2 ids :
  (length ids <= f1)%nat -> (length ids <= f2)%nat ->
  merkle_loop hash f1 ids = merkle_loop hash f2 ids.
Proof.
  revert f2 ids. induction f1 as [|f1 IH]; intros f2 ids H1 H2.
  { destruct ids; [|simpl in H1; lia]. by destruct f2. }
  cbn [merkle_loop]. destruct (Nat.ltb_spec 1 (length ids)) as [Hl|Hl].
  - destruct f2 as [|f2]; [lia|]. cbn [merkle_loop].
    rewrite (proj2 (Nat.ltb_lt _ _)) by done. rewrite merkle_round_level_up.
    assert (length (level_up ids) < length ids)%nat.
    { rewrite length_level_up, Nat.div2_div. apply Nat.div_lt_upper_bound; lia. }
    apply IH; lia.
  - destruct f2 as [|f2]; [done|]. cbn [merkle_loop].
    by rewrite (proj2 (Nat.ltb_ge _ _)) by done.
Qed.

(** A list of several digests has the root of its next level. *)
Lemma merkle_level_up ids : (1 < length ids)%nat -> merkle hash ids = merkle hash (level_up ids).
Proof.
  intros Hl. assert (length (level_up ids) < length ids)%nat as Hd.
  { rewrite length_level_up, Nat.div2_div. apply Nat.div_lt_upper_bound; lia. }
  assert (level_up ids <> []) as Hne by (destruct ids as [|? [|??]]; simpl in *; (lia || done)).
  unfold merkle. destruct ids as [|x ids']; [simpl in Hl; lia|]. set (ids := x :: ids') in *.
  destruct (level_up ids) as [|y l] eqn:E; [done|]. rewrite <- E in *.
  destruct (length ids) as [|n] eqn:El; [lia|]. cbn [merkle_loop].
  rewrite El, (proj2 (Nat.ltb_lt _ _)) by done.
  rewrite merkle_round_level_up. by rewrite (merkle_loop_fuel n (length (level_up ids))) by lia.
Qed.

Lemma merkle_singleton x : merkle hash [x] = x.
Proof. done. Qed.

(** ** Peaks: the roots of the complete subtrees, smallest first *)

Inductive peaks : list digest -> list digest -> Prop :=
| peaks_nil : peaks [] []
| peaks_even l ps :
    Nat.Even (length l) -> l <> [] -> peaks (level_up l) ps -> peaks l ps
| peaks_odd l x ps :
    Nat.Even (length l) -> peaks (level_up l) ps -> peaks (l ++ [x]) (x :: ps).

Lemma Even_Odd_False n : Nat.Even n -> Nat.Even (n + 1) -> False.
Proof. intros [a Ha] [b Hb]. lia. Qed.

Lemma peaks_even_inv l ps : Nat.Even (length l) -> peaks l ps -> peaks (level_up l) ps.
Proof.
  intros He Hp. inversion Hp; subst; [constructor|done|].
  rewrite length_app in He. exfalso. eapply Even_Odd_False; [|exact He]. done.
Qed.

Lemma peaks_odd_inv l x ps :
  Nat.Even (length l) -> peaks (l ++ [x]) ps -> exists ps', ps = x :: ps' /\ peaks (level_up l) ps'.
Proof.
  intros He Hp. inversion Hp as [Hn|l' ps' He' Hne Hl|l' y ps' He' Hl Heq]; subst.
  - by apply app_cons_not_nil in Hn.
  - rewrite length_app in He'. exfalso. eapply Even_Odd_False; [|exact He']. done.
  - apply app_inj_tail in Heq as [-> ->]. eauto.
Qed.

Lemma peaks_nil_inv ps : peaks [] ps -> ps = [].
Proof.
  intros Hp. inversion Hp as [|l ps' _ Hne _|l x ps' _ _ Heq]; [done|done|].
  by destruct l.
Qed.

Lemma index_parity (l : list digest) :
  (Z.land (Z.of_nat (length l)) 1 =? 0) = Nat.even (length l).
Proof.
  rewrite (Z.land_ones _ 1) by lia. rewrite Z.pow_1_r.
  destruct (Nat.Even_Odd_dec (length l)) as [[k Hk]|[k Hk]]; rewrite Hk.
  - rewrite Nat.even_even. apply Z.eqb_eq. rewrite Nat2Z.inj_mul, Z.mul_comm. apply Z.mod_mul. lia.
  - rewrite Nat.even_odd. apply Z.eqb_neq.
    rewrite Nat2Z.inj_add, Nat2Z.inj_mul, Z.add_comm, Z.mul_comm, Z.mod_add by lia. done.
Qed.

Lemma index_shift l n :
  (n = length l \/ n = S (length l)) -> Nat.Even (length l) ->
  Z.shiftr (Z.of_nat n) 1 = Z.of_nat (length (level_up l)).
Proof.
  intros Hn [k Hk]. rewrite length_level_up, Hk, Nat.div2_succ_double.
  rewrite Z.shiftr_div_pow2, Z.pow_1_r by lia.
  destruct Hn as [-> | ->]; rewrite Hk; Z.div_mod_to_equations; lia.
Qed.

(** ** [append] *)

Lemma merkle_snoc_even l top :
  Nat.Even (length l) -> l <> [] ->
  merkle hash (l ++ [top]) = merkle hash (level_up l ++ [H top top]).
Proof.
  intros He Hne. rewrite merkle_level_up by (rewrite length_app; destruct l; simpl; [done|lia]).
  by rewrite level_up_app.
Qed.

Lemma level_up_snoc_odd l x top :
  Nat.Even (length l) -> level_up ((l ++ [x]) ++ [top]) = level_up l ++ [H x top].
Proof. intros He. rewrite <- app_assoc. by rewrite level_up_app. Qed.

Lemma merkle_snoc_odd l x top :
  Nat.Even (length l) ->
  merkle hash ((l ++ [x]) ++ [top]) = merkle hash (level_up l ++ [H x top]).
Proof.
  intros He. rewrite merkle_level_up by (rewrite !length_app; simpl; lia).
  by rewrite level_up_snoc_odd.
Qed.

Lemma peaks_snoc_odd l x top qs :
  Nat.Even (length l) -> peaks (level_up l ++ [H x top]) qs -> peaks ((l ++ [x]) ++ [top]) qs.
Proof.
  intros He Hqs. apply peaks_even; [|by destruct l|by rewrite level_up_snoc_odd].
  destruct He as [k Hk]. rewrite !length_app, Hk. exists (S k). simpl. lia.
Qed.

(** The round bound of a level, halved. *)
Definition rounds (c : nat) (n : nat) : Prop :=
  Z.of_nat c <= 2 ^ Z.of_nat n < 2 * Z.of_nat c.

Lemma rounds_level_up l c n :
  Nat.Even (length l) -> (c = S (length l) \/ c = S (S (length l))) ->
  rounds c (S n) -> rounds (S (length (level_up l))) n.
Proof.
  unfold rounds. intros [k Hk] Hc Hn. rewrite (Nat2Z.inj_succ n), Z.pow_succ_r in Hn by lia.
  rewrite length_level_up, Hk, Nat.div2_succ_double. lia.
Qed.

Lemma rounds_pos c n : rounds c (S n) -> (1 < c)%nat.
Proof.
  unfold rounds. rewrite (Nat2Z.inj_succ n), Z.pow_succ_r by lia.
  pose proof (Z.pow_pos_nonneg 2 (Z.of_nat n)). lia.
Qed.

(** What the loop has collected above the complete nodes [l] of a level. *)
Definition collected (partial : bool) (l : list digest) (top : digest) (ps upd' : list digest) : Prop :=
  if partial then upd' = ps
  else (upd' = [] /\ peaks (l ++ [top]) [merkle hash (l ++ [top])]) \/ peaks (l ++ [top]) upd'.

(** One run of the loop above the complete nodes [l] of a level: it consumes
    the peaks of [l], collects the peaks still needed, and ends with the root
    of [l] followed by [top]. *)
Lemma append_loop_spec n l top partial ps act upd :
  peaks l ps -> rounds (S (length l)) n ->
  exists upd',
    append_loop hash n (Z.of_nat (length l)) top partial (ps ++ act) upd =
      Ok (upd ++ upd', merkle hash (l ++ [top])) /\ collected partial l top ps upd'.
Proof.
  revert l top partial ps act upd.
  induction n as [|n IH]; intros l top partial ps act upd Hps Hn.
  - destruct l as [|x l]; [|unfold rounds in Hn; simpl in Hn; lia].
    apply peaks_nil_inv in Hps as ->.
    exists []. rewrite app_nil_r. split; [done|]. destruct partial; [done|].
    left. split; [done|]. apply (peaks_odd []); [by exists O|constructor].
  - assert (l <> []) as Hne by (intros ->; apply rounds_pos in Hn; simpl in Hn; lia).
    cbn [append_loop]. rewrite index_parity.
    destruct (Nat.Even_Odd_dec (length l)) as [He|Ho].
    + rewrite (proj2 (Nat.even_spec _) He). apply peaks_even_inv in Hps as Hps'; [|done].
      rewrite (index_shift l) by auto.
      destruct (IH (level_up l) (H top top) true ps act
        (if partial then upd else upd ++ [top])) as (upd' & Heq & ->); [done| |].
      { eapply rounds_level_up; [done| |exact Hn]; auto. }
      rewrite Heq, (merkle_snoc_even l top) by done.
      destruct partial; [by exists ps|].
      exists (top :: ps). rewrite <- app_assoc. split; [done|]. right. by apply peaks_odd.
    + destruct l as [|x l _] using rev_ind; [done|]. clear Hne.
      assert (Nat.Even (length l)) as He.
      { destruct Ho as [k Hk]. rewrite length_app in Hk. exists k. simpl in Hk. lia. }
      assert (Nat.even (length (l ++ [x])) = false) as ->.
      { by rewrite <- Nat.negb_odd, (proj2 (Nat.odd_spec _) Ho). }
      rewrite length_app, Nat.add_1_r in *.
      apply peaks_odd_inv in Hps as (ps' & -> & Hps'); [|done]. cbn [app].
      rewrite (index_shift l) by auto.
      destruct (IH (level_up l) (H x top) partial ps' act
        (if partial then upd ++ [x] else upd)) as (upd' & Heq & Hupd); [done| |].
      { eapply rounds_level_up; [done| |exact Hn]; auto. }
      rewrite Heq, (merkle_snoc_odd l x top) by done. destruct partial; simpl in Hupd.
      * subst upd'. exists (x :: ps'). by rewrite <- app_assoc.
      * exists upd'. split; [done|]. unfold collected. rewrite (merkle_snoc_odd l x top) by done.
        destruct Hupd as [[-> Hp]|Hp]; [left|right]; auto using peaks_snoc_odd.
Qed.

(** ** The state of the incremental tree over the digests appended so far *)

Definition imerkle_inv (m : incremental_merkle) (ds : list digest) : Prop :=
  _node_count m = Z.of_nat (length ds) /\
  (exists ps act, peaks ds ps /\ _active_nodes m = ps ++ act) /\
  (ds <> [] -> last (_active_nodes m) = Some (merkle hash ds)).

Lemma imerkle_inv_empty : imerkle_inv empty_imerkle [].
Proof. split_and!; [done| |done]. exists [], []. split; [constructor|done]. Qed.

Lemma imerkle_append_inv m ds d :
  imerkle_inv m ds -> Z.of_nat (length ds) < 2 ^ 63 ->
  exists m', imerkle_append hash m d = Ok (m', merkle hash (ds ++ [d])) /\ imerkle_inv m' (ds ++ [d]).
Proof.
  intros (Hc & (ps & act & Hps & Hact) & _) Hl.
  unfold imerkle_append. rewrite Hc, Hact.
  rewrite u64_small by (unfold is_u64; lia).
  pose proof (append_depth (Z.of_nat (length ds) + 1) ltac:(lia)) as Hd. cbv zeta in Hd.
  set (n := Z.to_nat _) in *.
  destruct (append_loop_spec n ds d false ps act []) as (upd & -> & Hupd); [done| |].
  { unfold rounds. replace (Z.of_nat (S (length ds))) with (Z.of_nat (length ds) + 1) by lia. done. }
  eexists. split; [reflexivity|]. unfold imerkle_inv. cbn [_node_count _active_nodes app].
  rewrite length_app. split_and!; [simpl; lia| |by rewrite last_snoc].
  destruct Hupd as [[-> Hp]|Hp].
  - exists [merkle hash (ds ++ [d])], []. split; [done|]. done.
  - exists upd, [merkle hash (ds ++ [d])]. done.
Qed.

Lemma imerkle_append_all_inv m ds es :
  imerkle_inv m ds -> Z.of_nat (length (ds ++ es)) <= 2 ^ 63 ->
  exists m', imerkle_append_all hash m es = Ok m' /\ imerkle_inv m' (ds ++ es).
Proof.
  revert m ds. induction es as [|e es IH]; intros m ds Hm Hl.
  { exists m. by rewrite app_nil_r. }
  rewrite length_app in Hl. simpl in Hl.
  destruct (imerkle_append_inv m ds e Hm ltac:(lia)) as (m' & Ha & Hm').
  cbn [imerkle_append_all]. rewrite Ha. cbn [mbind result_bind].
  destruct (IH m' (ds ++ [e]) Hm') as (m'' & H1 & H2).
  { rewrite !length_app. simpl. lia. }
  exists m''. rewrite <- app_assoc in H2. done.
Qed.

(** C40: appending a list of up to 2^31 digests, one by one, to an empty
    incremental tree succeeds (no read past the stored nodes), counts them, and
    leaves [get_root] equal to the root that [merkle] computes from the whole list;
    up to that length the indices of [merkle] are in the range of [int]. *)
Theorem imerkle_root_is_merkle ds (Hl : Z.of_nat (length ds) <= 2 ^ 31) :
  exists m, imerkle_append_all hash empty_imerkle ds = Ok m /\
    _node_count m = Z.of_nat (length ds) /\ get_root m = merkle hash ds.
Proof.
  destruct (imerkle_append_all_inv empty_imerkle [] ds imerkle_inv_empty ltac:(simpl; lia))
    as (m & Ha & Hc & _ & Hr).
  exists m. split_and!; [done..|]. unfold get_root. rewrite Hc. simpl app in *.
  destruct ds as [|d ds]; [done|]. rewrite (proj2 (Z.ltb_lt _ _)) by (simpl; lia).
  by rewrite Hr.
Qed.

End Levels.

(** A digest function for evaluating the model on concrete lists. *)
Definition toy_hash (p : digest * digest) : digest :=
  mk_digest (u64 (hash0 p.1 * 31 + hash0 p.2 * 17 + 7)) (hash1 p.1 + 1) 0 0.

Lemma imerkle_root_is_merkle_witness :
  let ds := map (fun i => mk_digest i 0 0 0) [3; 1; 4; 1; 5] in
  exists m, imerkle_append_all toy_hash empty_imerkle ds = Ok m /\
    _node_count m = 5 /\ get_root m = merkle toy_hash ds.
Proof.
  apply (imerkle_root_is_merkle toy_hash (map (fun i => mk_digest i 0 0 0) [3; 1; 4; 1; 5])).
  vm_compute. discriminate.
Defined.

(** The side markers set before hashing never collide: whatever the two
    digests, the left form and the right form differ, each passes its own test
    and fails the other's. *)
Theorem canonical_sides_disjoint a b :
  is_canonical_left (make_canonical_left a) = true /\
  is_canonical_right (make_canonical_left a) = false /\
  is_canonical_right (make_canonical_right b) = true /\
  is_canonical_left (make_canonical_right b) = false /\
  make_canonical_left a <> make_canonical_right b.
Proof.
  assert (Z.land (hash0 (make_canonical_left a)) 0x80 = 0) as Hl.
  { simpl. rewrite <- Z.land_assoc. change (Z.land 0xFFFFFFFFFFFFFF7F 0x80) with 0. apply Z.land_0_r. }
  assert (Z.land (hash0 (make_canonical_right b)) 0x80 = 0x80) as Hr.
  { simpl. rewrite Z.land_lor_distr_l. change (Z.land 0x80 0x80) with 0x80.
    apply Z.bits_inj'. intros i Hi. rewrite Z.lor_spec, Z.land_spec.
    by destruct (Z.testbit 128 i), (Z.testbit (hash0 b) i). }
  unfold is_canonical_left, is_canonical_right. rewrite Hl, Hr. split_and!; [done..|].
  intros E. rewrite E in Hl. congruence.
Qed.
