(* ===== verification/BlockTime.v ===== *)
(** * Block time stamps

    [libraries/chain/include/snax/chain/block_timestamp.hpp]: a 32-bit slot
    number that counts intervals of 500 ms since the year 2000. A
    [fc::time_point] is its number of microseconds since 1970, signed and 64
    bits wide. *)

From Stdlib Require Import ZArith Lia Bool.
From stdpp Require Import base numbers.
From S2P Require Import Prelude.

Open Scope Z_scope.

Definition block_interval_ms : Z := 500.
Definition block_timestamp_epoch : Z := 946684800000.

(** [static block_timestamp maximum()]. *)
Definition timestamp_maximum : Z := 0xffff.
Definition timestamp_min : Z := 0.

Definition timestamp_next (slot : Z) : result Z :=
  SNAX_ASSERT (1 <=? UINT32_MAX - slot) overflow_exception;;
  mret (u32 (slot + 1)).

(** [operator fc::time_point]; [fc::milliseconds(n)] is [n * 1000]
    microseconds. *)
Definition to_time_point (slot : Z) : Z :=
  let msec := i64 (slot * block_interval_ms) in
  let msec := i64 (msec + block_timestamp_epoch) in
  i64 (msec * 1000).

(** [set_time_point( const fc::time_point& )]: the subtraction of the unsigned
    epoch is unsigned. *)
Definition set_time_point (t : Z) : Z :=
  let msec_since_epoch := t `quot` 1000 in
  u32 (u64 (msec_since_epoch - block_timestamp_epoch) / block_interval_ms).

(** [set_time_point( const fc::time_point_sec& )]. *)
Definition set_time_point_sec (sec_since_epoch : Z) : Z :=
  u32 (u64 (u64 (sec_since_epoch * 1000) - block_timestamp_epoch) / block_interval_ms).

Definition timestamp_gtb (s t : Z) : bool := t <? s.
Definition timestamp_geb (s t : Z) : bool := t <=? s.
Definition timestamp_ltb (s t : Z) : bool := s <? t.
Definition timestamp_leb (s t : Z) : bool := s <=? t.
Definition timestamp_eqb (s t : Z) : bool := s =? t.

(** ** Slots and times *)

Lemma to_time_point_value slot :
  is_u32 slot -> to_time_point slot = (slot * 500 + block_timestamp_epoch) * 1000.
Proof.
  unfold is_u32, to_time_point, block_interval_ms, block_timestamp_epoch. intros H.
  rewrite (i64_small (slot * 500)) by (unfold is_i64; lia).
  rewrite (i64_small (slot * 500 + _)) by (unfold is_i64; lia).
  apply i64_small. unfold is_i64. lia.
Qed.

(** Reading a time point off a slot and setting a time stamp from it gives
    the slot back; more generally every time point of the 500 ms interval that
    a slot starts is mapped to that slot, so the conversion rounds down. *)
Theorem set_time_point_interval slot us
  (Hs : is_u32 slot) (Hu : 0 <= us < 500000) :
  set_time_point (to_time_point slot + us) = slot.
Proof.
  rewrite to_time_point_value by done. unfold is_u32 in Hs.
  unfold set_time_point, block_timestamp_epoch, block_interval_ms.
  rewrite Z.quot_div_nonneg by lia.
  set (ms := (_ + us) / 1000).
  assert (slot * 500 <= ms - 946684800000 < slot * 500 + 500) as Hms
    by (unfold ms; Z.div_mod_to_equations; lia).
  clearbody ms. rewrite u64_small by (unfold is_u64; lia).
  assert ((ms - 946684800000) / 500 = slot) as -> by (Z.div_mod_to_equations; lia).
  by apply u32_small.
Qed.

Lemma set_time_point_interval_witness :
  is_u32 1000 /\ set_time_point (to_time_point 1000 + 499999) = 1000.
Proof.
  split; [unfold is_u32; lia|].
  apply set_time_point_interval; [unfold is_u32|]; lia.
Defined.

(** The slot that [maximum()] returns is passed 65536 slots after the epoch. *)
Example timestamp_maximum_passed : timestamp_next timestamp_maximum = Ok 65536.
Proof. reflexivity. Qed.
