(* ===== verification/BlockHeader.v ===== *)
(** * Producer schedules, block headers and block header states

    [producer_schedule.hpp], [block_header.hpp], [block_header.cpp],
    [block_header_state.hpp] and [block_header_state.cpp] of
    [libraries/chain]: the part of the chain state that is derived from block
    headers alone, and the delegated-proof-of-stake count that makes blocks
    irreversible. *)

From Stdlib Require Import ZArith Lia Bool.
From stdpp Require Import base numbers gmap sorting list.
From S2P Require Import Prelude Merkle BlockTime.

Open Scope Z_scope.

(** Account names are 64-bit values ([Name.v]); public keys and signatures are
    only compared and passed on. *)
Notation account_name := Z (only parsing).
Notation public_key_type := Z (only parsing).
Notation signature_type := Z (only parsing).

(** [public_key_type()]. *)
Definition default_key : public_key_type := 0.

Definition producer_repetitions : Z := 12.
Definition max_producers : Z := 125.
Definition maximum_tracked_dpos_confirmations : Z := 1024.

Record producer_key := mk_producer_key {
  producer_name : account_name;
  block_signing_key_of : public_key_type
}.

#[export] Instance producer_key_eq_dec : EqDecision producer_key.
Proof. solve_decision. Defined.

Record producer_schedule_type := mk_schedule {
  version : Z;
  producers : list producer_key
}.

#[export] Instance producer_schedule_eq_dec : EqDecision producer_schedule_type.
Proof. solve_decision. Defined.

Fixpoint find_producer_key (ps : list producer_key) (p : account_name) : public_key_type :=
  match ps with
  | [] => default_key
  | i :: ps' => if producer_name i =? p then block_signing_key_of i else find_producer_key ps' p
  end.

Definition get_producer_key (s : producer_schedule_type) (p : account_name) : public_key_type :=
  find_producer_key (producers s) p.

(** [operator ==] on schedules: version, size, then the keys index by index. *)
Fixpoint keys_eqb (a b : list producer_key) : bool :=
  match a, b with
  | x :: a', y :: b' =>
      (producer_name x =? producer_name y) && (block_signing_key_of x =? block_signing_key_of y)
        && keys_eqb a' b'
  | _, _ => true
  end.

Definition schedule_eqb (a b : producer_schedule_type) : bool :=
  if negb (version a =? version b) then false
  else if negb (length (producers a) =? length (producers b))%nat then false
  else keys_eqb (producers a) (producers b).

Record block_header := mk_header {
  timestamp : Z;
  producer : account_name;
  confirmed : Z;
  previous : digest;
  transaction_mroot : digest;
  action_mroot : digest;
  schedule_version : Z;
  new_producers : option producer_schedule_type;
  header_extensions : list (Z * list Z)
}.

Record signed_block_header := mk_signed_header {
  sbh_header : block_header;
  producer_signature : signature_type
}.

Record header_confirmation := mk_confirmation {
  conf_block_id : digest;
  conf_producer : account_name;
  conf_signature : signature_type
}.

(** ** Cryptography

    What the header code calls of [fc]: sha256 of a packed header, schedule or
    pair of digests, recovery of the key of a signature (which throws on a
    malformed or non-canonical one) and the byte swap of 32 bits. *)
Class Crypto := {
  hash_header : block_header -> digest;
  hash_schedule : producer_schedule_type -> digest;
  hash_pair : digest * digest -> digest;
  recover_key : signature_type -> digest -> bool -> result public_key_type;
  endian_reverse_u32 : Z -> Z
}.

Class CryptoLaws `{Crypto} : Prop := {
  endian_reverse_u32_range x : is_u32 (endian_reverse_u32 x);
  endian_reverse_u32_inv x : is_u32 x -> endian_reverse_u32 (endian_reverse_u32 x) = x
}.

(** ** Block header states *)

Record block_header_state := mk_bhs {
  id : digest;
  block_num : Z;
  header : signed_block_header;
  dpos_proposed_irreversible_blocknum : Z;
  dpos_irreversible_blocknum : Z;
  bft_irreversible_blocknum : Z;
  pending_schedule_lib_num : Z;
  pending_schedule_hash : digest;
  pending_schedule : producer_schedule_type;
  active_schedule : producer_schedule_type;
  blockroot_merkle : incremental_merkle;
  producer_to_last_produced : gmap Z Z;
  producer_to_last_implied_irb : gmap Z Z;
  block_signing_key : public_key_type;
  confirm_count : list Z;
  confirmations : list header_confirmation
}.

Definition is_active_producer (s : block_header_state) (n : account_name) : bool :=
  match producer_to_last_produced s !! n with Some _ => true | None => false end.

(** [t.slot % (size * 12)] divides by zero when the schedule is empty. *)
Definition get_scheduled_producer (s : block_header_state) (t : Z) : result producer_key :=
  let n := Z.of_nat (length (producers (active_schedule s))) * producer_repetitions in
  if n =? 0 then Err undefined_behavior
  else
    let index := t mod n in
    let index := index / producer_repetitions in
    of_option undefined_behavior (producers (active_schedule s) !! Z.to_nat index).

Definition calc_dpos_last_irreversible (implied : gmap Z Z) : Z :=
  let blocknums := (map_to_list implied).*2 in
  match blocknums with
  | [] => 0
  | _ =>
      let sorted := merge_sort Z.le blocknums in
      sorted !!! ((length sorted - 1) / 3)%nat
  end.

Section State.
Context `{Crypto}.

Definition header_digest (h : block_header) : digest := hash_header h.

(** The argument of [endian_reverse_u32] is converted to 32 bits. *)
Definition num_from_id (i : digest) : Z := endian_reverse_u32 (u32 (hash0 i)).

Definition header_block_num (h : block_header) : Z := u32 (num_from_id (previous h) + 1).

Definition header_id (h : block_header) : digest :=
  let result := header_digest h in
  let w := Z.land (hash0 result) 0xffffffff00000000 in
  let w := u64 (w + endian_reverse_u32 (header_block_num h)) in
  mk_digest w (hash1 result) (hash2 result) (hash3 result).

(** [block_header()] with the default member initialisers. *)
Definition default_header : block_header :=
  mk_header 0 0 1 zero_digest zero_digest zero_digest 0 None [].

Definition generate_next (s : block_header_state) (when : Z) : result block_header_state :=
  let h := sbh_header (header s) in
  when' ←
    (if negb (when =? 0) then
       SNAX_ASSERT (timestamp h <? when) block_validate_exception;; mret when
     else mret (u32 (timestamp h + 1)));
  prokey ← get_scheduled_producer s when';
  let next_num := u32 (block_num s + 1) in
  let last_produced := <[producer_name prokey := next_num]> (producer_to_last_produced s) in
  '(bmroot, _) ← imerkle_append hash_pair (blockroot_merkle s) (id s);
  let implied :=
    <[producer_name prokey := dpos_proposed_irreversible_blocknum s]>
      (producer_to_last_implied_irb s) in
  let num_active_producers := Z.of_nat (length (producers (active_schedule s))) in
  let required_confs := u32 (num_active_producers * 2 / 3 + 1) in
  let confirm_count' :=
    if Z.of_nat (length (confirm_count s)) <? maximum_tracked_dpos_confirmations then
      confirm_count s ++ [u8 required_confs]
    else drop 1 (confirm_count s) ++ [u8 required_confs] in
  mret {|
    id := zero_digest;
    block_num := next_num;
    header := mk_signed_header
      (mk_header when' (producer_name prokey) (confirmed default_header) (id s) zero_digest
         zero_digest (version (active_schedule s)) None []) 0;
    dpos_proposed_irreversible_blocknum := dpos_proposed_irreversible_blocknum s;
    dpos_irreversible_blocknum := calc_dpos_last_irreversible implied;
    bft_irreversible_blocknum := bft_irreversible_blocknum s;
    pending_schedule_lib_num := pending_schedule_lib_num s;
    pending_schedule_hash := pending_schedule_hash s;
    pending_schedule := pending_schedule s;
    active_schedule := active_schedule s;
    blockroot_merkle := bmroot;
    producer_to_last_produced := last_produced;
    producer_to_last_implied_irb := implied;
    block_signing_key := block_signing_key_of prokey;
    confirm_count := confirm_count';
    confirmations := []
  |}.

(** The values of the producers of a schedule: what [old] knows, else [dflt]. *)
Definition carry_over (ps : list producer_key) (old : gmap Z Z) (dflt : Z) : gmap Z Z :=
  fold_left (fun m pro =>
    <[producer_name pro := default dflt (old !! producer_name pro)]> m) ps ∅.

(** Moving from [pending_schedule] leaves its vector empty. *)
Definition maybe_promote_pending (s : block_header_state) : block_header_state * bool :=
  if negb (length (producers (pending_schedule s)) =? 0)%nat &&
     (pending_schedule_lib_num s <=? dpos_irreversible_blocknum s)
  then
    let active := pending_schedule s in
    let new_last_produced :=
      carry_over (producers active) (producer_to_last_produced s) (dpos_irreversible_blocknum s) in
    let new_implied :=
      carry_over (producers active) (producer_to_last_implied_irb s) (dpos_irreversible_blocknum s) in
    ({|
      id := id s;
      block_num := block_num s;
      header := header s;
      dpos_proposed_irreversible_blocknum := dpos_proposed_irreversible_blocknum s;
      dpos_irreversible_blocknum := dpos_irreversible_blocknum s;
      bft_irreversible_blocknum := bft_irreversible_blocknum s;
      pending_schedule_lib_num := pending_schedule_lib_num s;
      pending_schedule_hash := pending_schedule_hash s;
      pending_schedule := mk_schedule (version (pending_schedule s)) [];
      active_schedule := active;
      blockroot_merkle := blockroot_merkle s;
      producer_to_last_produced :=
        <[producer (sbh_header (header s)) := block_num s]> new_last_produced;
      producer_to_last_implied_irb := new_implied;
      block_signing_key := block_signing_key s;
      confirm_count := confirm_count s;
      confirmations := confirmations s
    |}, true)
  else (s, false).

Definition set_new_producers (s : block_header_state) (pending : producer_schedule_type) :
    result block_header_state :=
  SNAX_ASSERT (version pending =? u32 (version (active_schedule s) + 1)) producer_schedule_exception;;
  SNAX_ASSERT (length (producers (pending_schedule s)) =? 0)%nat producer_schedule_exception;;
  let h := sbh_header (header s) in
  let h' := mk_header (timestamp h) (producer h) (confirmed h) (previous h) (transaction_mroot h)
              (action_mroot h) (schedule_version h) (Some pending) (header_extensions h) in
  mret {|
    id := id s;
    block_num := block_num s;
    header := mk_signed_header h' (producer_signature (header s));
    dpos_proposed_irreversible_blocknum := dpos_proposed_irreversible_blocknum s;
    dpos_irreversible_blocknum := dpos_irreversible_blocknum s;
    bft_irreversible_blocknum := bft_irreversible_blocknum s;
    pending_schedule_lib_num := block_num s;
    pending_schedule_hash := hash_schedule pending;
    pending_schedule := pending;
    active_schedule := active_schedule s;
    blockroot_merkle := blockroot_merkle s;
    producer_to_last_produced := producer_to_last_produced s;
    producer_to_last_implied_irb := producer_to_last_implied_irb s;
    block_signing_key := block_signing_key s;
    confirm_count := confirm_count s;
    confirmations := confirmations s
  |}.

(** The [while( i >= 0 && blocks_to_confirm )] loop of [set_confirmed]; the
    first argument is [i + 1]. The result is the vector and, when a count
    reached zero, the index where it did. *)
Fixpoint set_confirmed_loop (n : nat) (blocks_to_confirm : Z) (cc : list Z) : list Z * option nat :=
  match n with
  | O => (cc, None)
  | S i =>
      if blocks_to_confirm =? 0 then (cc, None)
      else
        let c := u8 (cc !!! i - 1) in
        let cc := <[i := c]> cc in
        if c =? 0 then (cc, Some i)
        else set_confirmed_loop i (blocks_to_confirm - 1) cc
  end.

Definition set_confirmed (s : block_header_state) (num_prev_blocks : Z) : block_header_state :=
  let h := sbh_header (header s) in
  let h' := mk_header (timestamp h) (producer h) num_prev_blocks (previous h) (transaction_mroot h)
              (action_mroot h) (schedule_version h) (new_producers h) (header_extensions h) in
  let '(cc, found) :=
    set_confirmed_loop (length (confirm_count s)) (num_prev_blocks + 1) (confirm_count s) in
  let '(cc', proposed) :=
    match found with
    | Some i =>
        (drop (S i) cc, u32 (block_num s - (Z.of_nat (length cc) - 1 - Z.of_nat i)))
    | None => (cc, dpos_proposed_irreversible_blocknum s)
    end in
  {|
    id := id s;
    block_num := block_num s;
    header := mk_signed_header h' (producer_signature (header s));
    dpos_proposed_irreversible_blocknum := proposed;
    dpos_irreversible_blocknum := dpos_irreversible_blocknum s;
    bft_irreversible_blocknum := bft_irreversible_blocknum s;
    pending_schedule_lib_num := pending_schedule_lib_num s;
    pending_schedule_hash := pending_schedule_hash s;
    pending_schedule := pending_schedule s;
    active_schedule := active_schedule s;
    blockroot_merkle := blockroot_merkle s;
    producer_to_last_produced := producer_to_last_produced s;
    producer_to_last_implied_irb := producer_to_last_implied_irb s;
    block_signing_key := block_signing_key s;
    confirm_count := cc';
    confirmations := confirmations s
  |}.

Definition sig_digest (s : block_header_state) : digest :=
  let header_bmroot := hash_pair (header_digest (sbh_header (header s)), get_root (blockroot_merkle s)) in
  hash_pair (header_bmroot, pending_schedule_hash s).

(** [s] with another header and id. *)
Definition with_header (s : block_header_state) (h : signed_block_header) (i : digest) :
    block_header_state :=
  {|
    id := i;
    block_num := block_num s;
    header := h;
    dpos_proposed_irreversible_blocknum := dpos_proposed_irreversible_blocknum s;
    dpos_irreversible_blocknum := dpos_irreversible_blocknum s;
    bft_irreversible_blocknum := bft_irreversible_blocknum s;
    pending_schedule_lib_num := pending_schedule_lib_num s;
    pending_schedule_hash := pending_schedule_hash s;
    pending_schedule := pending_schedule s;
    active_schedule := active_schedule s;
    blockroot_merkle := blockroot_merkle s;
    producer_to_last_produced := producer_to_last_produced s;
    producer_to_last_implied_irb := producer_to_last_implied_irb s;
    block_signing_key := block_signing_key s;
    confirm_count := confirm_count s;
    confirmations := confirmations s
  |}.

Definition sign (s : block_header_state) (signer : digest -> signature_type) :
    result block_header_state :=
  let d := sig_digest s in
  let sg := signer d in
  let s' := with_header s (mk_signed_header (sbh_header (header s)) sg) (id s) in
  k ← recover_key sg d false;
  SNAX_ASSERT (block_signing_key s' =? k) wrong_signing_key;;
  mret s'.

Definition signee (s : block_header_state) : result public_key_type :=
  recover_key (producer_signature (header s)) (sig_digest s) true.

Definition verify_signee (s : block_header_state) (k : public_key_type) : result unit :=
  SNAX_ASSERT (block_signing_key s =? k) wrong_signing_key.

(** [itr->second < result.block_num - h.confirmed] on 32-bit unsigned values. *)
Definition check_double_confirm (last_produced : gmap Z Z) (prod next_num conf : Z) : result unit :=
  match last_produced !! prod with
  | Some n => SNAX_ASSERT (n <? u32 (next_num - conf)) producer_double_confirm
  | None => mret tt
  end.

Definition next (s : block_header_state) (h : signed_block_header) (skip_validate_signee : bool) :
    result block_header_state :=
  let hh := sbh_header h in
  SNAX_ASSERT (negb (timestamp hh =? 0)) block_validate_exception;;
  SNAX_ASSERT (length (header_extensions hh) =? 0)%nat block_validate_exception;;
  SNAX_ASSERT (timestamp (sbh_header (header s)) <? timestamp hh) block_validate_exception;;
  SNAX_ASSERT (bool_decide (previous hh = id s)) unlinkable_block_exception;;
  result ← generate_next s (timestamp hh);
  SNAX_ASSERT (producer (sbh_header (header result)) =? producer hh) wrong_producer;;
  SNAX_ASSERT (schedule_version (sbh_header (header result)) =? schedule_version hh)
    producer_schedule_exception;;
  check_double_confirm (producer_to_last_produced s) (producer hh) (block_num result) (confirmed hh);;
  let result := set_confirmed result (confirmed hh) in
  let '(result, was_pending_promoted) := maybe_promote_pending result in
  result ←
    match new_producers hh with
    | Some ps =>
        SNAX_ASSERT (negb was_pending_promoted) producer_schedule_exception;;
        set_new_producers result ps
    | None => mret result
    end;
  let rh := sbh_header (header result) in
  let rh := mk_header (timestamp rh) (producer rh) (confirmed rh) (previous rh)
              (transaction_mroot hh) (action_mroot hh) (schedule_version rh) (new_producers rh)
              (header_extensions rh) in
  let result := with_header result (mk_signed_header rh (producer_signature h)) (header_id rh) in
  (if skip_validate_signee then mret tt
   else k ← signee result; verify_signee result k);;
  mret result.

Definition add_confirmation (s : block_header_state) (conf : header_confirmation) :
    result block_header_state :=
  SNAX_ASSERT (forallb (fun c => negb (conf_producer c =? conf_producer conf)) (confirmations s))
    producer_double_confirm;;
  let key := get_producer_key (active_schedule s) (conf_producer conf) in
  SNAX_ASSERT (negb (key =? default_key)) producer_not_in_schedule;;
  signer ← recover_key (conf_signature conf) (sig_digest s) true;
  SNAX_ASSERT (signer =? key) wrong_signing_key;;
  mret {|
    id := id s;
    block_num := block_num s;
    header := header s;
    dpos_proposed_irreversible_blocknum := dpos_proposed_irreversible_blocknum s;
    dpos_irreversible_blocknum := dpos_irreversible_blocknum s;
    bft_irreversible_blocknum := bft_irreversible_blocknum s;
    pending_schedule_lib_num := pending_schedule_lib_num s;
    pending_schedule_hash := pending_schedule_hash s;
    pending_schedule := pending_schedule s;
    active_schedule := active_schedule s;
    blockroot_merkle := blockroot_merkle s;
    producer_to_last_produced := producer_to_last_produced s;
    producer_to_last_implied_irb := producer_to_last_implied_irb s;
    block_signing_key := block_signing_key s;
    confirm_count := confirm_count s;
    confirmations := confirmations s ++ [conf]
  |}.

End State.
