(* ===== verification/BlockHeaderProofs.v ===== *)
(** * Properties of block header states

    The two-thirds rule of [calc_dpos_last_irreversible], the order of the
    irreversibility numbers along a chain of headers, the producer schedule and
    the block number stored in a block id ([BlockHeader.v] has the model). *)

From Stdlib Require Import ZArith Lia Bool.
From stdpp Require Import base numbers gmap sorting list.
From S2P Require Import Prelude Merkle BlockTime BlockHeader.

Open Scope Z_scope.

(** ** Two thirds *)

(** The values of [l] that reach [c]. *)
Definition reach (c : Z) (l : list Z) : list Z := filter (fun n => c <= n) l.

Lemma reach_cons c x l : reach c (x :: l) = if decide (c <= x) then x :: reach c l else reach c l.
Proof. apply filter_cons. Qed.

Lemma reach_all c l : Forall (fun n => c <= n) l -> reach c l = l.
Proof.
  induction 1 as [|x l Hx Hl IH]; [done|]. rewrite reach_cons, decide_True, IH; done.
Qed.

#[export] Instance reach_proper c : Proper ((≡ₚ) ==> (≡ₚ)) (reach c).
Proof. intros l l' Hp. unfold reach. by rewrite Hp. Qed.

Lemma reach_perm c l l' : l ≡ₚ l' -> length (reach c l) = length (reach c l').
Proof. intros Hp. by rewrite Hp. Qed.

(** In a sorted list the value at [k] splits the values that reach [c]. *)
Lemma reach_sorted c l k x :
  StronglySorted Z.le l -> l !! k = Some x ->
  (c <= x -> (length l <= length (reach c l) + k)%nat) /\
  (x < c -> (length (reach c l) + k + 1 <= length l)%nat).
Proof.
  intros Hs. revert k. induction Hs as [|a l Hs IH Ha]; intros k Hk; [done|].
  rewrite reach_cons. destruct k as [|k]; simpl in Hk.
  - injection Hk as ->. split; intros Hc.
    + rewrite decide_True by done. rewrite reach_all; [simpl; lia|].
      eapply Forall_impl; [exact Ha|]. simpl. lia.
    + rewrite decide_False by lia. simpl. unfold reach.
      pose proof (length_filter (fun n => c <= n) l). lia.
  - destruct (IH k Hk) as [IH1 IH2].
    assert (a <= x) as Hax by (rewrite Forall_forall in Ha; eapply Ha, list_elem_of_lookup_2, Hk).
    split; intros Hc.
    + specialize (IH1 Hc). destruct (decide (c <= a)); simpl; lia.
    + specialize (IH2 Hc). rewrite decide_False by lia. simpl. lia.
Qed.

Lemma calc_dpos_lookup m :
  m <> ∅ ->
  exists l, l ≡ₚ (map_to_list m).*2 /\ StronglySorted Z.le l /\ length l = size m /\
    l !! ((length l - 1) / 3)%nat = Some (calc_dpos_last_irreversible m).
Proof.
  intros Hm. unfold calc_dpos_last_irreversible.
  assert (length ((map_to_list m).*2) = size m) as Hsz by (rewrite length_fmap; apply length_map_to_list).
  destruct ((map_to_list m).*2) as [|v vs] eqn:E.
  { exfalso. simpl in Hsz. symmetry in Hsz. by apply map_size_empty_inv in Hsz. }
  exists (merge_sort Z.le (v :: vs)).
  pose proof (merge_sort_Permutation Z.le (v :: vs)) as Hp.
  split_and!; [done|apply StronglySorted_merge_sort; typeclasses eauto|by rewrite Hp|].
  destruct (lookup_lt_is_Some_2 (merge_sort Z.le (v :: vs))
    ((length (merge_sort Z.le (v :: vs)) - 1) / 3)) as [x Hx].
  { assert (length (merge_sort Z.le (v :: vs)) = S (length vs)) as Hn by (by rewrite Hp).
    apply Nat.Div0.div_lt_upper_bound. lia. }
  rewrite Hx. f_equal. by erewrite list_lookup_total_correct.
Qed.

(** The value at one third of the sorted list, by counting. *)
Lemma calc_dpos_reach m c :
  m <> ∅ ->
  c <= calc_dpos_last_irreversible m <->
  (size m <= length (reach c (map_to_list m).*2) + (size m - 1) / 3)%nat.
Proof.
  intros Hm. destruct (calc_dpos_lookup m Hm) as (l & Hp & Hs & Hl & Hk).
  rewrite <- (reach_perm c _ _ Hp), <- Hl.
  destruct (reach_sorted c l _ _ Hs Hk) as [Hge Hlt]. split; [done|].
  intros Hc. destruct (decide (c <= calc_dpos_last_irreversible m)); [done|].
  specialize (Hlt ltac:(lia)). lia.
Qed.

(** C1: [calc_dpos_last_irreversible] is the two-thirds rule: the number it
    returns is the highest block number that strictly more than two thirds of
    the producers have implied to be irreversible, that is, a block number is
    at most the result exactly when more than two thirds of the values reach
    it. *)
Theorem calc_dpos_two_thirds m c (Hm : m <> ∅) :
  c <= calc_dpos_last_irreversible m <->
  (2 * size m < 3 * length (reach c (map_to_list m).*2))%nat.
Proof.
  rewrite calc_dpos_reach by done.
  assert (size m <> 0%nat) by (by intros ?%map_size_empty_inv).
  pose proof (Nat.div_mod_eq (size m - 1) 3).
  pose proof (Nat.mod_upper_bound (size m - 1) 3 ltac:(lia)). lia.
Qed.

Lemma calc_dpos_two_thirds_witness :
  let m : gmap Z Z := {[ 1 := 10; 2 := 12; 3 := 7; 4 := 11 ]} in
  10 <= calc_dpos_last_irreversible m.
Proof.
  apply calc_dpos_two_thirds; [|vm_compute; lia].
  intros E%(f_equal (fun m : gmap Z Z => m !! 1)). vm_compute in E. discriminate.
Defined.

(** ** The irreversibility numbers along a chain *)

Lemma calc_dpos_elem m :
  m <> ∅ -> exists p, m !! p = Some (calc_dpos_last_irreversible m).
Proof.
  intros Hm. destruct (calc_dpos_lookup m Hm) as (l & Hp & _ & _ & Hk).
  apply list_elem_of_lookup_2 in Hk. rewrite Hp in Hk.
  apply list_elem_of_fmap in Hk as ([p v] & -> & Hin). exists p. by apply elem_of_map_to_list in Hin.
Qed.

Lemma reach_insert (m : gmap Z Z) p x c :
  length (reach c (map_to_list (<[p:=x]> m)).*2) =
  length (reach c (x :: (map_to_list (delete p m)).*2)).
Proof.
  rewrite <- insert_delete_eq. rewrite map_to_list_insert by apply lookup_delete_eq. done.
Qed.

(** A producer that raises its value to the maximum cannot lower the result. *)
Lemma calc_dpos_insert_max (m : gmap Z Z) p x :
  m <> ∅ -> (forall q v, m !! q = Some v -> v <= x) ->
  calc_dpos_last_irreversible m <= calc_dpos_last_irreversible (<[p:=x]> m).
Proof.
  intros Hm Hmax. set (c := calc_dpos_last_irreversible m).
  assert (c <= x) as Hcx by (destruct (calc_dpos_elem m Hm) as [q Hq]; eapply Hmax, Hq).
  assert (c <= calc_dpos_last_irreversible m) as Hc by (unfold c; lia).
  apply calc_dpos_reach in Hc; [|done]. apply calc_dpos_reach; [apply insert_non_empty|].
  rewrite reach_insert, reach_cons, decide_True by done. simpl length.
  destruct (m !! p) as [v|] eqn:E.
  - rewrite map_size_insert_Some by eauto.
    assert (length (reach c (map_to_list m).*2) <=
            S (length (reach c (map_to_list (delete p m)).*2)))%nat.
    { rewrite <- (insert_delete_id m p v E) at 1. rewrite insert_delete_eq, reach_insert, reach_cons.
      destruct (decide (c <= v)); simpl; lia. }
    lia.
  - rewrite map_size_insert_None, delete_id by done.
    assert (size m <> 0%nat) by (by intros ?%map_size_empty_inv).
    assert ((size m - 1) / 3 <= (S (size m) - 1) / 3)%nat by (apply Nat.Div0.div_le_mono; lia).
    lia.
Qed.

(** What every reachable header state satisfies: the blocks still counted in
    [confirm_count] are above the proposed irreversible number, every count is
    positive, and no implied or final irreversible number exceeds the proposed
    one. *)
Record hs_inv (s : block_header_state) : Prop := {
  inv_num : 0 <= block_num s;
  inv_counts : Forall (fun c => 1 <= c <= 255) (confirm_count s);
  inv_proposed : 0 <= dpos_proposed_irreversible_blocknum s;
  inv_tracked :
    dpos_proposed_irreversible_blocknum s + Z.of_nat (length (confirm_count s)) <= block_num s;
  inv_implied : forall p v, producer_to_last_implied_irb s !! p = Some v ->
    0 <= v <= dpos_proposed_irreversible_blocknum s;
  inv_irreversible :
    0 <= dpos_irreversible_blocknum s <= dpos_proposed_irreversible_blocknum s
}.

Lemma set_confirmed_loop_spec n btc cc cc' found :
  (n <= length cc)%nat -> Forall (fun c => 1 <= c <= 255) cc ->
  set_confirmed_loop n btc cc = (cc', found) ->
  length cc' = length cc /\
  match found with
  | None => Forall (fun c => 1 <= c <= 255) cc'
  | Some i => (i < length cc)%nat /\ Forall (fun c => 1 <= c <= 255) (drop (S i) cc')
  end.
Proof.
  revert btc cc. induction n as [|n IH]; intros btc cc Hn Hcc Heq; simpl in Heq.
  { by simplify_eq. }
  destruct (btc =? 0); [by simplify_eq|].
  destruct (lookup_lt_is_Some_2 cc n ltac:(lia)) as [c Hc].
  assert (1 <= c <= 255) as Hb by (rewrite Forall_forall in Hcc; eapply Hcc, list_elem_of_lookup_2, Hc).
  rewrite (list_lookup_total_correct _ _ _ Hc) in Heq.
  assert (u8 (c - 1) = c - 1) as E by (apply Z.mod_small; lia). rewrite E in Heq.
  destruct (Z.eqb_spec (c - 1) 0) as [H0|H0].
  - simplify_eq. rewrite length_insert. split; [done|]. split; [lia|].
    rewrite drop_insert_lt by lia. by apply Forall_drop.
  - apply IH in Heq as [Hl Hf]; [|rewrite length_insert; lia|apply Forall_insert; [done|lia]].
    rewrite length_insert in *. done.
Qed.

Section Next.
Context `{Crypto}.

Lemma set_confirmed_inv s n :
  hs_inv s -> block_num s < 2 ^ 32 ->
  hs_inv (set_confirmed s n) /\
  dpos_proposed_irreversible_blocknum s <= dpos_proposed_irreversible_blocknum (set_confirmed s n).
Proof.
  intros [Hn Hc Hp Ht Hi Hd] Hb. unfold set_confirmed.
  destruct (set_confirmed_loop _ _ _) as [cc found] eqn:E.
  apply set_confirmed_loop_spec in E as [Hl Hf]; [|done|done].
  destruct found as [i|]; simpl.
  - destruct Hf as [Hi' Hf].
    assert (u32 (block_num s - (Z.of_nat (length cc) - 1 - Z.of_nat i)) =
            block_num s - (Z.of_nat (length cc) - 1 - Z.of_nat i)) as E'.
    { apply u32_small. unfold is_u32. lia. }
    split; [|simpl; lia]. constructor; simpl; rewrite ?E', ?length_drop; try done; try lia.
    intros p v Hv. specialize (Hi p v Hv). lia.
  - split; [|lia]. constructor; simpl; rewrite ?Hl; done.
Qed.

Lemma carry_over_lookup ps old d p v :
  carry_over ps old d !! p = Some v -> v = d \/ old !! p = Some v.
Proof.
  unfold carry_over. assert (forall m : gmap Z Z, fold_left (fun m pro =>
    <[producer_name pro := default d (old !! producer_name pro)]> m) ps m !! p = Some v ->
    m !! p = Some v \/ v = d \/ old !! p = Some v) as Hg.
  { induction ps as [|q ps IH]; intros m Hm; simpl in Hm; [by left|].
    apply IH in Hm as [Hm|Hm]; [|by right].
    apply lookup_insert_Some in Hm as [[Hq Hv]|[_ Hm]]; [|by left].
    right. rewrite Hq in Hv. clear Hq. rewrite <- Hv.
    destruct (old !! p); simpl; auto. }
  intros Hv. apply Hg in Hv as [Hv|?]; [|done]. by rewrite lookup_empty in Hv.
Qed.

Lemma maybe_promote_inv s s' b :
  hs_inv s -> maybe_promote_pending s = (s', b) ->
  hs_inv s' /\ dpos_irreversible_blocknum s' = dpos_irreversible_blocknum s /\
  dpos_proposed_irreversible_blocknum s' = dpos_proposed_irreversible_blocknum s /\
  block_num s' = block_num s.
Proof.
  unfold maybe_promote_pending. intros [Hn Hc Hp Ht Hi Hd] E.
  destruct (_ && _); simplify_eq; split_and!; try done.
  constructor; simpl; try done.
  intros p v Hv. apply carry_over_lookup in Hv as [->|Hv]; [done|eauto].
Qed.

Lemma set_new_producers_inv s ps s' :
  hs_inv s -> set_new_producers s ps = Ok s' ->
  hs_inv s' /\ dpos_irreversible_blocknum s' = dpos_irreversible_blocknum s /\
  dpos_proposed_irreversible_blocknum s' = dpos_proposed_irreversible_blocknum s /\
  block_num s' = block_num s.
Proof.
  unfold set_new_producers. intros [Hn Hc Hp Ht Hi Hd] E. inv_ok.
  split_and!; [|done..]. by constructor.
Qed.

Definition few_producers (s : block_header_state) : Prop :=
  Z.of_nat (length (producers (active_schedule s))) <= max_producers.

Lemma required_confs_range s :
  few_producers s ->
  1 <= u8 (u32 (Z.of_nat (length (producers (active_schedule s))) * 2 / 3 + 1)) <= 255.
Proof.
  unfold few_producers, max_producers. intros Hf.
  set (n := Z.of_nat _) in *. assert (0 <= n) by (unfold n; lia).
  assert (0 <= n * 2 / 3 <= 83) by (Z.div_mod_to_equations; lia).
  rewrite u32_small by (unfold is_u32; lia). unfold u8, wrap. rewrite Z.mod_small; lia.
Qed.

Lemma generate_next_inv s w s' :
  hs_inv s -> few_producers s -> block_num s + 1 < 2 ^ 32 -> generate_next s w = Ok s' ->
  hs_inv s' /\ block_num s' = block_num s + 1 /\
  dpos_proposed_irreversible_blocknum s' = dpos_proposed_irreversible_blocknum s /\
  (producer_to_last_implied_irb s <> ∅ ->
   calc_dpos_last_irreversible (producer_to_last_implied_irb s) <= dpos_irreversible_blocknum s') /\
  dpos_irreversible_blocknum s' = calc_dpos_last_irreversible (producer_to_last_implied_irb s').
Proof.
  intros [Hn Hc Hp Ht Hi Hd] Hf Hb E. unfold generate_next in E.
  apply bind_Ok in E as (when' & _ & E). apply bind_Ok in E as (pk & _ & E).
  apply bind_Ok in E as ([bm root] & _ & E). injection E as <-.
  pose proof (required_confs_range s Hf) as Hr.
  set (rc := u8 _) in *.
  assert (u32 (block_num s + 1) = block_num s + 1) as Hu by (apply u32_small; unfold is_u32; lia).
  set (m := <[producer_name pk := dpos_proposed_irreversible_blocknum s]> (producer_to_last_implied_irb s)).
  assert (forall p v, m !! p = Some v -> 0 <= v <= dpos_proposed_irreversible_blocknum s) as Hm.
  { intros p v [[<- <-]|[_ Hv]]%lookup_insert_Some; [lia|eauto]. }
  split_and!; cbn [block_num dpos_proposed_irreversible_blocknum dpos_irreversible_blocknum
    producer_to_last_implied_irb]; try done.
  2:{ intros Hne. apply calc_dpos_insert_max; [done|]. intros q v Hv. by apply Hi in Hv as [_ ?]. }
  constructor; cbn [block_num dpos_proposed_irreversible_blocknum dpos_irreversible_blocknum
    producer_to_last_implied_irb confirm_count]; fold m; rewrite ?Hu; try done; try lia.
  - case_match; apply Forall_app; (split; [|by apply Forall_singleton]); [done|by apply Forall_drop].
  - case_match; rewrite length_app; simpl length; rewrite ?length_drop; split_bool; [lia|].
    unfold maximum_tracked_dpos_confirmations in *. lia.
  - destruct (calc_dpos_elem m ltac:(apply insert_non_empty)) as [q Hq]. by eapply Hm.
Qed.

(** What a successful [next] checked, and the states it went through. *)
Lemma next_parts s h b s' :
  next s h b = Ok s' ->
  let hh := sbh_header h in
  exists g p prom r,
    (timestamp (sbh_header (header s)) < timestamp hh /\ previous hh = id s /\
     producer (sbh_header (header g)) = producer hh /\
     schedule_version (sbh_header (header g)) = schedule_version hh /\
     check_double_confirm (producer_to_last_produced s) (producer hh) (block_num g)
       (confirmed hh) = Ok tt) /\
    generate_next s (timestamp hh) = Ok g /\
    maybe_promote_pending (set_confirmed g (confirmed hh)) = (p, prom) /\
    (new_producers hh = None /\ r = p \/
     exists ps, new_producers hh = Some ps /\ prom = false /\ set_new_producers p ps = Ok r) /\
    let rh := sbh_header (header r) in
    let rh := mk_header (timestamp rh) (producer rh) (confirmed rh) (previous rh)
                (transaction_mroot hh) (action_mroot hh) (schedule_version rh) (new_producers rh)
                (header_extensions rh) in
    s' = with_header r (mk_signed_header rh (producer_signature h)) (header_id rh) /\
    (b = true \/ signee s' = Ok (block_signing_key s')).
Proof.
  unfold next. intros E.
  apply bind_Ok in E as ([] & _ & E). apply bind_Ok in E as ([] & _ & E).
  apply bind_Ok in E as ([] & Ht & E). apply bind_Ok in E as ([] & Hpr & E).
  apply bind_Ok in E as (g & Hg & E). apply bind_Ok in E as ([] & Hprod & E).
  apply bind_Ok in E as ([] & Hsv & E). apply bind_Ok in E as ([] & Hdc & E).
  destruct (maybe_promote_pending _) as [p prom] eqn:Hp.
  apply bind_Ok in E as (r & Hr & E). apply bind_Ok in E as ([] & Hs & E).
  inv_ok. split_bool. exists g, p, prom, r. split_and!; try done.
  - destruct (new_producers (sbh_header h)) as [ps|]; [right|left]; inv_ok; [|done].
    exists ps. by split_bool.
  - destruct b; [by left|right]. inv_ok. unfold verify_signee in *. inv_ok. split_bool. congruence.
Qed.

(** Along every chain of headers the irreversibility numbers stay ordered
    and the proposed number never goes back: from a state in order, a header
    that [next] accepts leads to a state in order whose block number is one
    higher and whose proposed irreversible number is at least the old one. *)
Theorem next_preserves_order s h b s'
  (Hi : hs_inv s) (Hf : few_producers s) (Hb : block_num s + 1 < 2 ^ 32)
  (E : next s h b = Ok s') :
  hs_inv s' /\ block_num s' = block_num s + 1 /\
  dpos_proposed_irreversible_blocknum s <= dpos_proposed_irreversible_blocknum s'.
Proof.
  apply next_parts in E as (g & p & prom & r & _ & Hg & Hp & Hr & -> & _).
  destruct (generate_next_inv _ _ _ Hi Hf Hb Hg) as (Hig & Hn & Hprop & _).
  destruct (set_confirmed_inv g (confirmed (sbh_header h)) Hig ltac:(lia)) as [Hic Hpc].
  destruct (maybe_promote_inv _ _ _ Hic Hp) as (Hip & _ & Hpp & Hnp).
  assert (hs_inv r /\ block_num r = block_num p /\ dpos_proposed_irreversible_blocknum r =
    dpos_proposed_irreversible_blocknum p) as (Hir & Hnr & Hpr).
  { destruct Hr as [[_ ->]|(ps & _ & _ & Hr)]; [done|].
    destruct (set_new_producers_inv _ _ _ Hip Hr) as (? & _ & ? & ?). done. }
  assert (block_num (set_confirmed g (confirmed (sbh_header h))) = block_num g) as Hnc
    by (unfold set_confirmed; by repeat case_match).
  split_and!; [by destruct Hir; constructor|simpl; lia|simpl; lia].
Qed.

(** The last irreversible number never goes back while the schedule stays:
    from a state in order whose last irreversible number is supported by its
    implied numbers, every accepted header leads to a last irreversible number
    at least as high; and as long as no pending schedule can be promoted the new
    number is supported again, so the step can be repeated. *)
Theorem next_lib_monotone s h b s'
  (Hi : hs_inv s) (Hf : few_producers s) (Hb : block_num s + 1 < 2 ^ 32)
  (Hne : producer_to_last_implied_irb s <> ∅)
  (Hsup : dpos_irreversible_blocknum s <= calc_dpos_last_irreversible (producer_to_last_implied_irb s))
  (E : next s h b = Ok s') :
  dpos_irreversible_blocknum s <= dpos_irreversible_blocknum s' /\
  (length (producers (pending_schedule s)) = 0%nat ->
   dpos_irreversible_blocknum s' <= calc_dpos_last_irreversible (producer_to_last_implied_irb s')).
Proof.
  apply next_parts in E as (g & p & prom & r & _ & Hg & Hp & Hr & -> & _).
  destruct (generate_next_inv _ _ _ Hi Hf Hb Hg) as (Hig & Hn & Hprop & Hlib & Hcalc).
  specialize (Hlib Hne). set (c := set_confirmed g (confirmed (sbh_header h))) in *.
  assert (dpos_irreversible_blocknum c = dpos_irreversible_blocknum g /\
    producer_to_last_implied_irb c = producer_to_last_implied_irb g /\
    pending_schedule c = pending_schedule s) as (Hc1 & Hc2 & Hc3).
  { unfold c, set_confirmed. repeat case_match; simpl; split_and!; try done;
      unfold generate_next in Hg; repeat (apply bind_Ok in Hg as (? & _ & Hg));
      case_match; by inv_ok. }
  assert (dpos_irreversible_blocknum r = dpos_irreversible_blocknum p /\
    producer_to_last_implied_irb r = producer_to_last_implied_irb p) as [Hr1 Hr2].
  { destruct Hr as [[_ ->]|(ps & _ & _ & Hr)]; [done|]. unfold set_new_producers in Hr. by inv_ok. }
  assert (dpos_irreversible_blocknum p = dpos_irreversible_blocknum c) as Hp1.
  { unfold maybe_promote_pending in Hp. by case_match; simplify_eq. }
  simpl. split; [lia|]. intros Hpend. rewrite Hr1, Hr2, Hp1.
  unfold maybe_promote_pending in Hp. rewrite Hc3, Hpend in Hp. simpl in Hp. simplify_eq.
  rewrite Hc2, Hc1, Hcalc. done.
Qed.

(** The state [next] returns is the one after [s]: its number, its link and the
    numbers that the header does not touch. *)
Lemma next_child s h b s' :
  next s h b = Ok s' ->
  block_num s' = u32 (block_num s + 1) /\ previous (sbh_header (header s')) = id s /\
  id s' = header_id (sbh_header (header s')) /\
  bft_irreversible_blocknum s' = bft_irreversible_blocknum s.
Proof.
  intros E. apply next_parts in E as (g & p & prom & r & _ & Hg & Hp & Hr & -> & _).
  assert (block_num g = u32 (block_num s + 1) /\ previous (sbh_header (header g)) = id s /\
    bft_irreversible_blocknum g = bft_irreversible_blocknum s) as (Hg1 & Hg2 & Hg3).
  { unfold generate_next in Hg. repeat (apply bind_Ok in Hg as (? & _ & Hg)). case_match. by inv_ok. }
  set (c := set_confirmed g (confirmed (sbh_header h))) in *.
  assert (block_num c = block_num g /\ previous (sbh_header (header c)) = previous (sbh_header (header g)) /\
    bft_irreversible_blocknum c = bft_irreversible_blocknum g) as (Hc1 & Hc2 & Hc3)
    by (unfold c, set_confirmed; repeat case_match; done).
  assert (block_num p = block_num c /\ header p = header c /\
    bft_irreversible_blocknum p = bft_irreversible_blocknum c) as (Hp1 & Hp2 & Hp3)
    by (unfold maybe_promote_pending in Hp; case_match; by simplify_eq).
  assert (block_num r = block_num p /\ previous (sbh_header (header r)) = previous (sbh_header (header p)) /\
    bft_irreversible_blocknum r = bft_irreversible_blocknum p) as (Hr1 & Hr2 & Hr3).
  { destruct Hr as [[_ ->]|(ps & _ & _ & Hr)]; [done|]. unfold set_new_producers in Hr. by inv_ok. }
  simpl. split_and!; congruence.
Qed.

(** ** The producer of a slot *)

Lemma slot_index n t : 0 < n -> t mod (n * 12) / 12 = (t / 12) mod n.
Proof. intros Hn. rewrite (Z.mul_comm n), Z.rem_mul_r by lia.
  rewrite (Z.mul_comm 12), Z.add_comm, Z.div_add_l by lia.
  rewrite (Z.div_small (t mod 12)) by (apply Z.mod_pos_bound; lia). lia.
Qed.

(** Production rotates through the active schedule: in round [r] the
    producer at index [i] owns the twelve consecutive slots that start at
    [(r * n + i) * 12], for every round, index and slot of the twelve; the
    lookup never leaves the vector. *)
Theorem scheduled_producer_rotation s pk i r k
  (Hpk : producers (active_schedule s) !! i = Some pk) (Hr : 0 <= r) (Hk : 0 <= k < producer_repetitions) :
  let n := Z.of_nat (length (producers (active_schedule s))) in
  get_scheduled_producer s ((r * n + Z.of_nat i) * producer_repetitions + k) = Ok pk.
Proof.
  intros n. unfold get_scheduled_producer, producer_repetitions in *. fold n.
  apply lookup_lt_Some in Hpk as Hi. assert (0 < n) by (unfold n; lia).
  destruct (Z.eqb_spec (n * 12) 0); [lia|].
  rewrite slot_index, Z.div_add_l, (Z.div_small k), Z.add_0_r by lia.
  rewrite Z.add_comm, Z.mod_add, Z.mod_small by (unfold n in *; lia).
  by rewrite Nat2Z.id, Hpk.
Qed.

(** ** The double-confirmation guard *)

(** Exactly when the guard of [next] lets a producer confirm [conf] blocks
    before block [num]: when the range ends above the last block it produced,
    and also whenever [conf] exceeds [num], because the 32-bit subtraction
    wraps. *)
Theorem double_confirm_guard_exact lp prod num conf n
  (Hn : lp !! prod = Some n) (Hlt : 0 <= n <= num) (Hnum : is_u32 num) (Hconf : is_u16 conf) :
  check_double_confirm lp prod num conf = Ok tt <->
  n + conf < num \/ (num < conf /\ n + conf < num + 2 ^ 32).
Proof.
  unfold check_double_confirm. rewrite Hn, assert_Ok, Z.ltb_lt. unfold is_u32, is_u16, u32, wrap in *.
  destruct (decide (num < conf)).
  - rewrite <- (Z.mod_add _ 1), Z.mod_small by lia. lia.
  - rewrite Z.mod_small by lia. lia.
Qed.

(** ** Confirmations *)

Definition distinct_confirmers (s : block_header_state) : Prop := NoDup (conf_producer <$> confirmations s).

(** A confirmation is recorded only for a producer of the active schedule
    that has not confirmed the block yet and whose key signed the block's
    digest, and nothing but the list of confirmations changes; so no producer
    ever counts twice. *)
Theorem add_confirmation_sound s c s'
  (Hd : distinct_confirmers s) (E : add_confirmation s c = Ok s') :
  distinct_confirmers s' /\
  recover_key (conf_signature c) (sig_digest s) true =
    Ok (get_producer_key (active_schedule s) (conf_producer c)) /\
  conf_producer c ∈ producer_name <$> producers (active_schedule s) /\
  confirmations s' = confirmations s ++ [c] /\
  sig_digest s' = sig_digest s /\ header s' = header s.
Proof.
  unfold add_confirmation in E. inv_ok. split_bool. split_and!; simpl; try done.
  - unfold distinct_confirmers. simpl. rewrite fmap_app. apply NoDup_app. split_and!; [done| |].
    + intros p (c' & -> & Hc')%list_elem_of_fmap [Hp|[]%elem_of_nil]%elem_of_cons.
      match goal with H : forallb _ _ = true |- _ => rewrite forallb_forall in H;
        specialize (H c' ltac:(by apply list_elem_of_In)) end.
      split_bool. done.
    + apply NoDup_singleton.
  - match goal with H : _ = get_producer_key _ _ |- _ => by rewrite <- H end.
  - unfold get_producer_key in *. match goal with H : _ <> _ |- _ => revert H end.
    clear. induction (producers (active_schedule s)) as [|q ps IH]; simpl; [done|].
    destruct (Z.eqb_spec (producer_name q) (conf_producer c)) as [<-|].
    + intros _. by apply elem_of_cons; left.
    + intros Hk. apply elem_of_cons. right. auto.
Qed.

End Next.

(** ** The block number in a block id *)

Section Ids.
Context `{CryptoLaws}.

Lemma num_from_id_of_id h : num_from_id (header_id h) = header_block_num h.
Proof.
  unfold num_from_id at 1, header_id. cbv zeta. cbn [hash0].
  set (w := Z.land _ _). set (e := endian_reverse_u32 (header_block_num h)).
  assert (w mod 2 ^ 32 = 0) as Hw.
  { apply Z.bits_inj'. intros i Hi. rewrite Z.bits_0.
    destruct (decide (i < 32)); [|by rewrite Z.mod_pow2_bits_high by lia].
    rewrite Z.mod_pow2_bits_low by lia. unfold w. rewrite Z.land_spec.
    change 0xffffffff00000000 with (Z.shiftl 0xffffffff 32).
    rewrite Z.shiftl_spec_low by lia. by rewrite andb_false_r. }
  assert (u32 (u64 (w + e)) = e) as ->.
  { pose proof (endian_reverse_u32_range (header_block_num h)) as He. fold e in He.
    unfold u32, u64, wrap, is_u32 in *.
    rewrite <- Znumtheory.Zmod_div_mod; [|lia|lia|by exists (2 ^ 32)].
    rewrite <- Z.add_mod_idemp_l, Hw, Z.add_0_l, Z.mod_small by lia. done. }
  apply endian_reverse_u32_inv, u32_is_u32.
Qed.

(** The number stored in the id of a header is the header's block number:
    [num_from_id] reads back what [id()] wrote, and the following header counts
    one up. *)
Theorem num_from_id_header_id h h' :
  num_from_id (header_id h) = header_block_num h /\
  (previous h' = header_id h -> header_block_num h' = u32 (header_block_num h + 1)).
Proof.
  split; [apply num_from_id_of_id|]. intros Hp. unfold header_block_num at 1.
  by rewrite Hp, num_from_id_of_id.
Qed.

End Ids.

(** ** Concrete headers

    A byte swap and stand-ins for the hash and the key recovery, to run the
    model on concrete headers. *)
Module Concrete.

Definition swap32 (x : Z) : Z := horner 256 0 (rev (digs 256 4 (u32 x))).

#[export] Instance crypto : Crypto := {
  hash_header h := mk_digest (timestamp h) (producer h) (confirmed h) (schedule_version h);
  hash_schedule s := mk_digest (version s) (Z.of_nat (length (producers s))) 0 0;
  hash_pair p := mk_digest (u64 (hash0 p.1 + 3 * hash0 p.2)) (hash1 p.1) (hash2 p.2) 1;
  recover_key sg d strict := Ok sg;
  endian_reverse_u32 := swap32
}.

#[export] Instance crypto_laws : CryptoLaws.
Proof.
  assert (forall x, Forall (is_digit 256) (rev (digs 256 4 (u32 x)))) as Hd
    by (intros x; apply Forall_rev, digs_digit; lia).
  split; simpl; unfold swap32.
  - intros x. pose proof (horner_bound 256 ltac:(lia) _ (Hd x)) as Hb.
    by rewrite length_rev, length_digs in Hb.
  - intros x Hx. pose proof (horner_bound 256 ltac:(lia) _ (Hd x)) as Hb.
    rewrite length_rev, length_digs in Hb.
    rewrite (u32_small (horner _ _ _)) by done.
    pose proof (digs_horner 256 ltac:(lia) _ (Hd x)) as Hr.
    rewrite length_rev, length_digs in Hr. rewrite Hr, rev_involutive, u32_small by done.
    rewrite horner_digs by (unfold is_u32 in Hx; lia). by apply Z.mod_small.
Qed.

Definition schedule1 : producer_schedule_type :=
  mk_schedule 1 [mk_producer_key 5 50; mk_producer_key 6 60; mk_producer_key 7 70; mk_producer_key 8 80].

(** A chain at block 9 whose schedule has four producers. *)
Definition state9 : block_header_state := {|
  id := mk_digest (swap32 9) 1 2 3;
  block_num := 9;
  header := mk_signed_header
    (mk_header 95 6 0 (mk_digest (swap32 8) 1 2 3) zero_digest zero_digest 1 None []) 60;
  dpos_proposed_irreversible_blocknum := 6;
  dpos_irreversible_blocknum := 5;
  bft_irreversible_blocknum := 0;
  pending_schedule_lib_num := 1;
  pending_schedule_hash := zero_digest;
  pending_schedule := mk_schedule 1 [];
  active_schedule := schedule1;
  blockroot_merkle := mk_imerkle 0 [];
  producer_to_last_produced := {[ 5 := 7; 6 := 9; 7 := 3; 8 := 5 ]};
  producer_to_last_implied_irb := {[ 5 := 5; 6 := 6; 7 := 1; 8 := 5 ]};
  block_signing_key := 60;
  confirm_count := [1; 1; 3];
  confirmations := []
|}.

(** Block 10, by producer 5, confirms the two blocks before it. *)
Definition header10 : signed_block_header :=
  mk_signed_header (mk_header 96 5 2 (id state9) zero_digest zero_digest 1 None []) 50.

Definition state10 : block_header_state :=
  match next state9 header10 false with Ok s => s | Err _ => state9 end.

Lemma state9_ordered : hs_inv state9.
Proof.
  constructor; try (simpl; lia).
  - simpl. repeat constructor; lia.
  - intros p v Hv. simpl in Hv.
    repeat (apply lookup_insert_Some in Hv as [[_ <-]|[_ Hv]]; [simpl; lia|]).
    apply lookup_singleton_Some in Hv as [_ <-]. simpl. lia.
Qed.

Lemma state9_next : next state9 header10 false = Ok state10.
Proof. vm_compute. reflexivity. Qed.

Lemma next_preserves_order_witness :
  hs_inv state10 /\ block_num state10 = block_num state9 + 1 /\
  dpos_proposed_irreversible_blocknum state9 <= dpos_proposed_irreversible_blocknum state10.
Proof.
  apply (next_preserves_order state9 header10 false);
    [apply state9_ordered|vm_compute; congruence|vm_compute; reflexivity|apply state9_next].
Defined.

Lemma next_lib_monotone_witness :
  dpos_irreversible_blocknum state9 <= dpos_irreversible_blocknum state10 /\
  dpos_irreversible_blocknum state10 <=
    calc_dpos_last_irreversible (producer_to_last_implied_irb state10).
Proof.
  destruct (next_lib_monotone state9 header10 false state10) as [Hm Hs];
    [apply state9_ordered|vm_compute; congruence|vm_compute; reflexivity| | |apply state9_next|].
  - intros E%(f_equal (fun m : gmap Z Z => m !! 5)). vm_compute in E. discriminate.
  - vm_compute. congruence.
  - split; [exact Hm|apply Hs; reflexivity].
Defined.

Lemma scheduled_producer_rotation_witness :
  get_scheduled_producer state9 ((3 * 4 + 2) * 12 + 11) = Ok (mk_producer_key 7 70).
Proof.
  apply (scheduled_producer_rotation state9 (mk_producer_key 7 70) 2 3 11);
    [reflexivity|lia|unfold producer_repetitions; lia].
Defined.

Lemma double_confirm_guard_exact_witness :
  check_double_confirm (producer_to_last_produced state9) 5 10 2 = Ok tt.
Proof.
  apply (double_confirm_guard_exact _ _ _ _ 7);
    [reflexivity|lia|split; [lia|reflexivity]|split; [lia|reflexivity]|left; lia].
Defined.

(** A second confirmation of block 7 passes the guard when the producer claims
    to confirm eleven blocks before block 10, and a claim of three does not. *)
Example double_confirm_wraps :
  check_double_confirm (producer_to_last_produced state9) 5 10 11 = Ok tt /\
  check_double_confirm (producer_to_last_produced state9) 5 10 3 = Err producer_double_confirm.
Proof. split; reflexivity. Qed.

Definition confirmation7 : header_confirmation := mk_confirmation (id state9) 7 70.

Lemma add_confirmation_sound_witness :
  exists s', add_confirmation state9 confirmation7 = Ok s' /\ distinct_confirmers s' /\
    confirmations s' = [confirmation7].
Proof.
  eexists. split; [reflexivity|].
  edestruct (add_confirmation_sound state9 confirmation7) as (Hd & _ & _ & Hc & _);
    [apply NoDup_nil_2|reflexivity|]. exact (conj Hd Hc).
Defined.

Lemma num_from_id_header_id_witness :
  num_from_id (header_id (sbh_header header10)) = 10 /\
  forall h, previous h = header_id (sbh_header header10) -> header_block_num h = 11.
Proof.
  split.
  - rewrite (proj1 (num_from_id_header_id (sbh_header header10) default_header)). reflexivity.
  - intros h Hp. rewrite (proj2 (num_from_id_header_id (sbh_header header10) h) Hp). reflexivity.
Defined.

End Concrete.
