(* ===== verification/ResourceLimits.v ===== *)
(** * Resource limits

    [resource_limits.hpp], [resource_limits_private.hpp] and
    [resource_limits.cpp] of [libraries/chain]: the moving averages of CPU and
    NET usage, the elastic limits of blocks, the limits and the RAM usage of
    accounts.

    The rows live in the chain database, whose changes are undone when an
    exception leaves the block or transaction that made them: an operation is a
    function that returns the new database or the exception. *)

From Stdlib Require Import ZArith Lia Bool.
From stdpp Require Import base numbers gmap sorting list.
From S2P Require Import Prelude BlockTime BlockHeader.

Open Scope Z_scope.

(** ** Configuration *)

Definition percent_100 : Z := 1000000.
Definition percent_1 : Z := 10000.
Definition rate_limiting_precision : Z := 1000 * 1000.
Definition account_cpu_usage_average_window_ms : Z := 24 * 60 * 60 * 1000.
Definition account_net_usage_average_window_ms : Z := 24 * 60 * 60 * 1000.
Definition block_cpu_usage_average_window_ms : Z := 60 * 1000.
Definition block_size_average_window_ms : Z := 60 * 1000.
Definition default_max_block_net_usage : Z := 1024 * 1024.
Definition default_target_block_net_usage_pct : Z := 10 * percent_1.
Definition default_max_block_cpu_usage : Z := 200000.
Definition default_target_block_cpu_usage_pct : Z := 10 * percent_1.

Definition SNAX_PERCENT (value percentage : Z) : Z := u64 (value * percentage) / percent_100.

(** ** Integer helpers *)

Record ratio := mk_ratio { numerator : Z; denominator : Z }.

Definition make_ratio (n d : Z) : ratio := mk_ratio n d.

(** [operator*] of a 64-bit value and a ratio; a zero denominator is a division
    by zero. *)
Definition mul_ratio (value : Z) (r : ratio) : result Z :=
  SNAX_ASSERT ((numerator r =? 0) || (value <=? UINT64_MAX / numerator r))
    rate_limiting_state_inconsistent;;
  if denominator r =? 0 then Err undefined_behavior
  else mret (u64 (value * numerator r) / denominator r).

Definition integer_divide_ceil (num den : Z) : result Z :=
  if den =? 0 then Err undefined_behavior
  else mret (num / den + (if 0 <? num mod den then 1 else 0)).

(** [downgrade_cast<uint64_t>] and [downgrade_cast<int64_t>] of unsigned 128-bit
    values. *)
Definition downgrade_cast_u64 (val : Z) : result Z :=
  SNAX_ASSERT ((0 <=? val) && (val <=? UINT64_MAX)) rate_limiting_state_inconsistent;; mret val.

Definition downgrade_cast_i64 (val : Z) : result Z :=
  SNAX_ASSERT ((0 <=? val) && (val <=? INT64_MAX)) rate_limiting_state_inconsistent;; mret val.

(** [downgrade_cast<int64_t>] of a signed 128-bit value. *)
Definition downgrade_cast_i64_signed (val : Z) : result Z :=
  SNAX_ASSERT ((INT64_MIN <=? val) && (val <=? INT64_MAX)) rate_limiting_state_inconsistent;; mret val.

(** ** Exponential moving averages *)

Record usage_accumulator := mk_accumulator {
  last_ordinal : Z;
  value_ex : Z;
  consumed : Z
}.

Definition empty_accumulator : usage_accumulator := mk_accumulator 0 0 0.

Definition max_raw_value : Z := UINT64_MAX / rate_limiting_precision.

Definition average (a : usage_accumulator) : result Z :=
  integer_divide_ceil (value_ex a) rate_limiting_precision.

(** The [if( last_ordinal != ordinal )] block of [add]. *)
Definition advance (a : usage_accumulator) (ordinal window_size : Z) : result usage_accumulator :=
  if last_ordinal a =? ordinal then mret a
  else
    SNAX_ASSERT (last_ordinal a <? ordinal) resource_limit_exception;;
    v ← (if ordinal <? last_ordinal a + window_size then
           let delta := u32 (ordinal - last_ordinal a) in
           mul_ratio (value_ex a) (make_ratio (u64 (window_size - delta)) window_size)
         else mret 0);
    c ← average (mk_accumulator ordinal v (consumed a));
    mret (mk_accumulator ordinal v c).

Definition accumulator_add (a : usage_accumulator) (units ordinal window_size : Z) :
    result usage_accumulator :=
  SNAX_ASSERT (units <=? max_raw_value) rate_limiting_state_inconsistent;;
  SNAX_ASSERT (units <=? UINT64_MAX - consumed a) rate_limiting_state_inconsistent;;
  contrib ← integer_divide_ceil (u128 (units * rate_limiting_precision)) window_size;
  contrib ← downgrade_cast_u64 contrib;
  SNAX_ASSERT (contrib <=? UINT64_MAX - value_ex a) rate_limiting_state_inconsistent;;
  a ← advance a ordinal window_size;
  mret (mk_accumulator (last_ordinal a) (u64 (value_ex a + contrib)) (u64 (consumed a + units))).

(** ** Elastic limits *)

Record elastic_limit_parameters := mk_elastic {
  target : Z;
  max : Z;
  periods : Z;
  max_multiplier : Z;
  contract_rate : ratio;
  expand_rate : ratio
}.

Definition update_elastic_limit (current_limit average_usage : Z) (params : elastic_limit_parameters) :
    result Z :=
  r ← (if target params <? average_usage then mul_ratio current_limit (contract_rate params)
       else mul_ratio current_limit (expand_rate params));
  mret (Z.min (Z.max r (max params)) (u64 (max params * max_multiplier params))).

Definition validate (p : elastic_limit_parameters) : result unit :=
  SNAX_ASSERT (0 <? periods p) resource_limit_exception;;
  SNAX_ASSERT (0 <? denominator (contract_rate p)) resource_limit_exception;;
  SNAX_ASSERT (0 <? denominator (expand_rate p)) resource_limit_exception.

(** ** The rows *)

Record limits_object := mk_limits {
  lo_net_weight : Z;
  lo_cpu_weight : Z;
  lo_ram_bytes : Z
}.

Definition default_limits : limits_object := mk_limits (-1) (-1) (-1).

Record usage_object := mk_usage {
  net_usage : usage_accumulator;
  cpu_usage : usage_accumulator;
  ram_usage : Z
}.

Definition default_usage : usage_object := mk_usage empty_accumulator empty_accumulator 0.

Record config_object := mk_config {
  cpu_limit_parameters : elastic_limit_parameters;
  net_limit_parameters : elastic_limit_parameters;
  account_cpu_usage_average_window : Z;
  account_net_usage_average_window : Z
}.

Definition default_config : config_object := {|
  cpu_limit_parameters := mk_elastic
    (SNAX_PERCENT default_max_block_cpu_usage default_target_block_cpu_usage_pct)
    default_max_block_cpu_usage (block_cpu_usage_average_window_ms / block_interval_ms) 1000
    (mk_ratio 99 100) (mk_ratio 1000 999);
  net_limit_parameters := mk_elastic
    (SNAX_PERCENT default_max_block_net_usage default_target_block_net_usage_pct)
    default_max_block_net_usage (block_size_average_window_ms / block_interval_ms) 1000
    (mk_ratio 99 100) (mk_ratio 1000 999);
  account_cpu_usage_average_window := account_cpu_usage_average_window_ms / block_interval_ms;
  account_net_usage_average_window := account_net_usage_average_window_ms / block_interval_ms
|}.

Record state_object := mk_state {
  average_block_net_usage : usage_accumulator;
  average_block_cpu_usage : usage_accumulator;
  pending_net_usage : Z;
  pending_cpu_usage : Z;
  total_net_weight : Z;
  total_cpu_weight : Z;
  total_ram_bytes : Z;
  virtual_net_limit : Z;
  virtual_cpu_limit : Z
}.

(** The rows of the four indices. [limits] is keyed by [(pending, owner)] and
    [usage] by owner; the configuration and the state are single rows. *)
Record resource_limits := mk_rl {
  config : config_object;
  state : state_object;
  limits : gmap (bool * Z) limits_object;
  usage : gmap Z usage_object
}.

Definition set_state_row (rl : resource_limits) (s : state_object) : resource_limits :=
  mk_rl (config rl) s (limits rl) (usage rl).
Definition set_limits (rl : resource_limits) (l : gmap (bool * Z) limits_object) : resource_limits :=
  mk_rl (config rl) (state rl) l (usage rl).
Definition set_usage (rl : resource_limits) (u : gmap Z usage_object) : resource_limits :=
  mk_rl (config rl) (state rl) (limits rl) u.

Definition initialize_database : resource_limits :=
  let c := default_config in
  mk_rl c
    {| average_block_net_usage := empty_accumulator; average_block_cpu_usage := empty_accumulator;
       pending_net_usage := 0; pending_cpu_usage := 0; total_net_weight := 0;
       total_cpu_weight := 0; total_ram_bytes := 0;
       virtual_net_limit := max (net_limit_parameters c);
       virtual_cpu_limit := max (cpu_limit_parameters c) |} ∅ ∅.

(** [create] throws when a row with the key is there. *)
Definition initialize_account (rl : resource_limits) (account : account_name) : result resource_limits :=
  SNAX_ASSERT (match limits rl !! (false, account) with None => true | Some _ => false end)
    uniqueness_violation;;
  let rl := set_limits rl (<[(false, account) := default_limits]> (limits rl)) in
  SNAX_ASSERT (match usage rl !! account with None => true | Some _ => false end)
    uniqueness_violation;;
  mret (set_usage rl (<[account := default_usage]> (usage rl))).

Definition set_block_parameters (rl : resource_limits) (cpu net : elastic_limit_parameters) :
    result resource_limits :=
  validate cpu;;
  validate net;;
  mret (mk_rl (mk_config cpu net (account_cpu_usage_average_window (config rl))
                 (account_net_usage_average_window (config rl)))
          (state rl) (limits rl) (usage rl)).

Definition get_usage (rl : resource_limits) (a : account_name) : result usage_object :=
  of_option std_out_of_range (usage rl !! a).

(** [bu.net_usage.add( net, ... ); bu.cpu_usage.add( cpu, ... )]. *)
Definition add_usage (c : config_object) (u : usage_object) (cpu net time_slot : Z) :
    result usage_object :=
  n ← accumulator_add (net_usage u) net time_slot (account_net_usage_average_window c);
  p ← accumulator_add (cpu_usage u) cpu time_slot (account_cpu_usage_average_window c);
  mret (mk_usage n p (ram_usage u)).

(** [accounts] is a sorted set. *)
Fixpoint update_account_usage (rl : resource_limits) (accounts : list account_name) (time_slot : Z) :
    result resource_limits :=
  match accounts with
  | [] => mret rl
  | a :: accounts =>
      u ← get_usage rl a;
      u ← add_usage (config rl) u 0 0 time_slot;
      update_account_usage (set_usage rl (<[a := u]> (usage rl))) accounts time_slot
  end.

Definition get_account_limits (rl : resource_limits) (account : account_name) : result limits_object :=
  match limits rl !! (true, account) with
  | Some l => mret l
  | None => of_option std_out_of_range (limits rl !! (false, account))
  end.

(** [static_cast<uint128_t>(cbrt(static_cast<double>(w)) * k)]: floating-point
    arithmetic of the C library. *)
Class Cbrt := cbrt_scaled : Z -> Z -> Z.

Class CbrtLaws `{Cbrt} : Prop := {
  cbrt_scaled_nonneg w k : 0 <= w -> 0 <= k -> 0 <= cbrt_scaled w k;
  cbrt_scaled_mono w w' k : 0 <= w <= w' -> 0 <= k -> cbrt_scaled w k <= cbrt_scaled w' k
}.

Section Manager.
Context `{Cbrt}.

(** The most an account of weight [w] among [total] may use in a window, with
    the minimum [threshold] of small accounts: the code of the CPU check
    ([scale] 1440, [cap] 31000) and of the NET check (75, 2500). *)
Definition max_user_use (virtual_limit window_size w total scale cap : Z) : result Z :=
  let capacity := u128 (virtual_limit * window_size) / 10 in
  let threshold := cbrt_scaled w scale in
  let max_use := u128 (capacity * w) / total in
  t ← downgrade_cast_i64 threshold;
  let threshold := if cap <? t then cap else threshold in
  mret (if max_use <? threshold then threshold else max_use).

(** [usage.value_ex * window_size / rate_limiting_precision]. *)
Definition used_in_window (a : usage_accumulator) (window_size : Z) : Z :=
  u128 (value_ex a * window_size) / rate_limiting_precision.

Definition check_cpu (rl : resource_limits) (u : usage_object) (cpu_weight : Z) : result unit :=
  let s := state rl in
  if (0 <=? cpu_weight) && (0 <? total_cpu_weight s) then
    let window_size := account_cpu_usage_average_window (config rl) in
    m ← max_user_use (virtual_cpu_limit s) window_size cpu_weight (total_cpu_weight s) 1440 31000;
    SNAX_ASSERT (used_in_window (cpu_usage u) window_size <=? m) tx_cpu_usage_exceeded
  else mret tt.

Definition check_net (rl : resource_limits) (u : usage_object) (net_weight : Z) : result unit :=
  let s := state rl in
  if (0 <=? net_weight) && (0 <? total_net_weight s) then
    let window_size := account_net_usage_average_window (config rl) in
    m ← max_user_use (virtual_net_limit s) window_size net_weight (total_net_weight s) 75 2500;
    SNAX_ASSERT (used_in_window (net_usage u) window_size <=? m) tx_net_usage_exceeded
  else mret tt.

(** The loop over the accounts that are billed. *)
Fixpoint bill_accounts (rl : resource_limits) (accounts : list account_name)
    (cpu net time_slot : Z) : result resource_limits :=
  match accounts with
  | [] => mret rl
  | a :: accounts =>
      u ← get_usage rl a;
      l ← get_account_limits rl a;
      u ← add_usage (config rl) u cpu net time_slot;
      let rl := set_usage rl (<[a := u]> (usage rl)) in
      check_cpu rl u (lo_cpu_weight l);;
      check_net rl u (lo_net_weight l);;
      bill_accounts rl accounts cpu net time_slot
  end.

Definition set_pending (s : state_object) (net cpu : Z) : state_object :=
  mk_state (average_block_net_usage s) (average_block_cpu_usage s) net cpu (total_net_weight s)
    (total_cpu_weight s) (total_ram_bytes s) (virtual_net_limit s) (virtual_cpu_limit s).

Definition add_transaction_usage (rl : resource_limits) (accounts : list account_name)
    (cpu_usage net_usage time_slot : Z) : result resource_limits :=
  rl ← bill_accounts rl accounts cpu_usage net_usage time_slot;
  let s := state rl in
  let s := set_pending s (u64 (pending_net_usage s + net_usage)) (u64 (pending_cpu_usage s + cpu_usage)) in
  let rl := set_state_row rl s in
  SNAX_ASSERT (pending_cpu_usage s <=? max (cpu_limit_parameters (config rl))) block_resource_exhausted;;
  SNAX_ASSERT (pending_net_usage s <=? max (net_limit_parameters (config rl))) block_resource_exhausted;;
  mret rl.

(** ** RAM *)

(** [-ram_delta] overflows for the smallest 64-bit integer. *)
Definition add_pending_ram_usage (rl : resource_limits) (account : account_name) (ram_delta : Z) :
    result resource_limits :=
  if ram_delta =? 0 then mret rl
  else
    u ← get_usage rl account;
    SNAX_ASSERT ((ram_delta <=? 0) || (u64 ram_delta <=? UINT64_MAX - ram_usage u)) transaction_exception;;
    (if 0 <=? ram_delta then mret tt
     else if ram_delta =? INT64_MIN then Err undefined_behavior
     else SNAX_ASSERT (u64 (- ram_delta) <=? ram_usage u) transaction_exception);;
    let u := mk_usage (net_usage u) (cpu_usage u) (u64 (ram_usage u + ram_delta)) in
    mret (set_usage rl (<[account := u]> (usage rl))).

Definition verify_account_ram_usage (rl : resource_limits) (account : account_name) : result unit :=
  l ← get_account_limits rl account;
  u ← get_usage rl account;
  if 0 <=? lo_ram_bytes l then SNAX_ASSERT (ram_usage u <=? lo_ram_bytes l) ram_usage_exceeded
  else mret tt.

Definition get_account_ram_usage (rl : resource_limits) (account : account_name) : result Z :=
  u ← get_usage rl account; mret (i64 (ram_usage u)).

(** ** Account limits *)

Definition set_account_limits (rl : resource_limits) (account : account_name)
    (ram_bytes net_weight cpu_weight : Z) : result (resource_limits * bool) :=
  (* find_or_create_pending_limits *)
  l ← match limits rl !! (true, account) with
      | Some l => mret l
      | None => of_option std_out_of_range (limits rl !! (false, account))
      end;
  let decreased_limit :=
    if 0 <=? ram_bytes then (lo_ram_bytes l <? 0) || (ram_bytes <? lo_ram_bytes l) else false in
  let l := mk_limits net_weight cpu_weight ram_bytes in
  mret (set_limits rl (<[(true, account) := l]> (limits rl)), decreased_limit).

(** The lambda [update_state_and_value]: the new total. *)
Definition update_total (total value pending_value : Z) : result Z :=
  total ← (if 0 <? value then
             SNAX_ASSERT (value <=? total) rate_limiting_state_inconsistent;; mret (total - value)
           else mret total);
  if 0 <? pending_value then
    SNAX_ASSERT (pending_value <=? UINT64_MAX - total) rate_limiting_state_inconsistent;;
    mret (total + pending_value)
  else mret total.

(** One pass of the loop for the pending row [p] of [owner]. *)
Definition apply_pending (rl : resource_limits) (owner : account_name) (p : limits_object) :
    result resource_limits :=
  actual ← of_option std_out_of_range (limits rl !! (false, owner));
  let s := state rl in
  ram ← update_total (total_ram_bytes s) (lo_ram_bytes actual) (lo_ram_bytes p);
  cpu ← update_total (total_cpu_weight s) (lo_cpu_weight actual) (lo_cpu_weight p);
  net ← update_total (total_net_weight s) (lo_net_weight actual) (lo_net_weight p);
  let s := mk_state (average_block_net_usage s) (average_block_cpu_usage s) (pending_net_usage s)
             (pending_cpu_usage s) net cpu ram (virtual_net_limit s) (virtual_cpu_limit s) in
  mret (mk_rl (config rl) s (delete (true, owner) (<[(false, owner) := p]> (limits rl))) (usage rl)).

(** The owners of the pending rows, in the order of the index. *)
Definition pending_owners (m : gmap (bool * Z) limits_object) : list account_name :=
  merge_sort Z.le ((fun kv => kv.1.2) <$> filter (fun kv => kv.1.1 = true) (map_to_list m)).

(** The loop takes the first pending row and removes it, so it goes through the
    rows in order; a row found by [lower_bound] is there. *)
Fixpoint apply_all_pending (rl : resource_limits) (owners : list account_name) : result resource_limits :=
  match owners with
  | [] => mret rl
  | o :: owners =>
      p ← of_option undefined_behavior (limits rl !! (true, o));
      rl ← apply_pending rl o p;
      apply_all_pending rl owners
  end.

Definition process_account_limit_updates (rl : resource_limits) : result resource_limits :=
  apply_all_pending rl (pending_owners (limits rl)).

(** ** Blocks *)

Definition update_virtual_cpu_limit (s : state_object) (cfg : config_object) : result state_object :=
  avg ← average (average_block_cpu_usage s);
  v ← update_elastic_limit (virtual_cpu_limit s) avg (cpu_limit_parameters cfg);
  mret (mk_state (average_block_net_usage s) (average_block_cpu_usage s) (pending_net_usage s)
    (pending_cpu_usage s) (total_net_weight s) (total_cpu_weight s) (total_ram_bytes s)
    (virtual_net_limit s) v).

Definition update_virtual_net_limit (s : state_object) (cfg : config_object) : result state_object :=
  avg ← average (average_block_net_usage s);
  v ← update_elastic_limit (virtual_net_limit s) avg (net_limit_parameters cfg);
  mret (mk_state (average_block_net_usage s) (average_block_cpu_usage s) (pending_net_usage s)
    (pending_cpu_usage s) (total_net_weight s) (total_cpu_weight s) (total_ram_bytes s)
    v (virtual_cpu_limit s)).

Definition set_average_cpu (s : state_object) (a : usage_accumulator) : state_object :=
  mk_state (average_block_net_usage s) a (pending_net_usage s) (pending_cpu_usage s)
    (total_net_weight s) (total_cpu_weight s) (total_ram_bytes s) (virtual_net_limit s) (virtual_cpu_limit s).
Definition set_average_net (s : state_object) (a : usage_accumulator) : state_object :=
  mk_state a (average_block_cpu_usage s) (pending_net_usage s) (pending_cpu_usage s)
    (total_net_weight s) (total_cpu_weight s) (total_ram_bytes s) (virtual_net_limit s) (virtual_cpu_limit s).

Definition process_block_usage (rl : resource_limits) (block_num : Z) : result resource_limits :=
  let s := state rl in
  let cfg := config rl in
  a ← accumulator_add (average_block_cpu_usage s) (pending_cpu_usage s) block_num
        (periods (cpu_limit_parameters cfg));
  s ← update_virtual_cpu_limit (set_average_cpu s a) cfg;
  let s := set_pending s (pending_net_usage s) 0 in
  a ← accumulator_add (average_block_net_usage s) (pending_net_usage s) block_num
        (periods (net_limit_parameters cfg));
  s ← update_virtual_net_limit (set_average_net s a) cfg;
  let s := set_pending s 0 (pending_cpu_usage s) in
  mret (set_state_row rl s).

Definition get_virtual_block_cpu_limit (rl : resource_limits) : Z := virtual_cpu_limit (state rl).
Definition get_virtual_block_net_limit (rl : resource_limits) : Z := virtual_net_limit (state rl).

Definition get_block_cpu_limit (rl : resource_limits) : Z :=
  u64 (max (cpu_limit_parameters (config rl)) - pending_cpu_usage (state rl)).
Definition get_block_net_limit (rl : resource_limits) : Z :=
  u64 (max (net_limit_parameters (config rl)) - pending_net_usage (state rl)).

(** ** What an account may still use *)

Record account_resource_limit := mk_arl { arl_used : Z; arl_available : Z; arl_max : Z }.

Definition unlimited : account_resource_limit := mk_arl (-1) (-1) (-1).

Definition get_account_cpu_limit_ex (rl : resource_limits) (name : account_name) (elastic : bool) :
    result account_resource_limit :=
  u ← get_usage rl name;
  l ← get_account_limits rl name;
  let s := state rl in
  let cpu_weight := lo_cpu_weight l in
  if (cpu_weight <? 0) || (total_cpu_weight s =? 0) then mret unlimited
  else
    let cpu_minimum_threshold := cbrt_scaled cpu_weight 1440 in
    let window_size := account_cpu_usage_average_window (config rl) in
    let limit := if elastic then virtual_cpu_limit s else max (cpu_limit_parameters (config rl)) in
    let capacity := u128 (limit * window_size) / 10 in
    let max_use := u128 (capacity * cpu_weight) / total_cpu_weight s in
    used_u ← integer_divide_ceil (u128 (value_ex (cpu_usage u) * window_size)) rate_limiting_precision;
    used ← downgrade_cast_i64 used_u;
    t ← downgrade_cast_i64_signed cpu_minimum_threshold;
    let cpu_minimum_threshold := if 31000 <? t then 31000 else cpu_minimum_threshold in
    let max_use := if max_use <? cpu_minimum_threshold then cpu_minimum_threshold else max_use in
    available ← (if max_use <=? used_u then mret 0 else downgrade_cast_i64 (max_use - used_u));
    m ← downgrade_cast_i64 max_use;
    mret (mk_arl used available m).

Definition get_account_net_limit_ex (rl : resource_limits) (name : account_name) (elastic : bool) :
    result account_resource_limit :=
  u ← get_usage rl name;
  l ← get_account_limits rl name;
  let s := state rl in
  let net_weight := lo_net_weight l in
  if (net_weight <? 0) || (total_net_weight s =? 0) then mret unlimited
  else
    let window_size := account_net_usage_average_window (config rl) in
    let limit := if elastic then virtual_net_limit s else max (net_limit_parameters (config rl)) in
    let capacity := u128 (limit * window_size) / 10 in
    let net_minimum_threshold := cbrt_scaled net_weight 75 in
    let max_use := u128 (capacity * net_weight) / total_net_weight s in
    used_u ← integer_divide_ceil (u128 (value_ex (net_usage u) * window_size)) rate_limiting_precision;
    t ← downgrade_cast_i64 net_minimum_threshold;
    let net_minimum_threshold := if 2500 <? t then 2500 else net_minimum_threshold in
    let max_use := if max_use <? net_minimum_threshold then net_minimum_threshold else max_use in
    used ← downgrade_cast_i64 used_u;
    available ← (if max_use <=? used_u then mret 0 else downgrade_cast_i64 (max_use - used_u));
    m ← downgrade_cast_i64 max_use;
    mret (mk_arl used available m).

Definition get_account_cpu_limit (rl : resource_limits) (name : account_name) (elastic : bool) : result Z :=
  arl ← get_account_cpu_limit_ex rl name elastic; mret (arl_available arl).
Definition get_account_net_limit (rl : resource_limits) (name : account_name) (elastic : bool) : result Z :=
  arl ← get_account_net_limit_ex rl name elastic; mret (arl_available arl).

End Manager.
