(* ===== verification/ResourceLimitsProofs.v ===== *)
(** * Properties of the resource limits

    Bounds of the moving averages and of the elastic limits, exact RAM
    accounting, the totals of the account weights and what billing checks
    ([ResourceLimits.v] has the model). *)

From Stdlib Require Import ZArith Lia Bool.
From stdpp Require Import base numbers gmap sorting sets list.
From S2P Require Import Prelude BlockTime BlockHeader ResourceLimits.

Open Scope Z_scope.

Notation P := rate_limiting_precision.

(** ** Integer helpers *)

Lemma ceil_Ok num den : 0 < den ->
  exists c, integer_divide_ceil num den = Ok c /\ num <= den * c <= num + den - 1.
Proof.
  intros Hd. unfold integer_divide_ceil. destruct (Z.eqb_spec den 0); [lia|].
  eexists. split; [reflexivity|]. pose proof (Z.div_mod num den ltac:(lia)).
  pose proof (Z.mod_pos_bound num den Hd).
  destruct (Z.ltb_spec 0 (num mod den)); lia.
Qed.

(** The ceiling of a quotient. *)
Definition ceil_div (num den : Z) : Z := num / den + (if 0 <? num mod den then 1 else 0).

Lemma ceil_div_bound num den : 0 < den -> num <= den * ceil_div num den <= num + den - 1.
Proof.
  intros Hd. destruct (ceil_Ok num den Hd) as (c & E & Hc). unfold integer_divide_ceil in E.
  destruct (Z.eqb_spec den 0); [lia|]. unfold ceil_div. by injection E as ->.
Qed.

Lemma integer_divide_ceil_Ok num den : 0 < den -> integer_divide_ceil num den = Ok (ceil_div num den).
Proof.
  intros Hd. unfold integer_divide_ceil. destruct (Z.eqb_spec den 0); [lia|done].
Qed.

Lemma ceil_div_nonneg num den : 0 < den -> 0 <= num -> 0 <= ceil_div num den.
Proof. intros Hd Hn. pose proof (ceil_div_bound num den Hd). nia. Qed.

(** [value * r], when it throws and when it does not. *)
Lemma mul_ratio_Ok v n d :
  0 <= v -> 0 <= n -> 0 < d ->
  (v * n <= UINT64_MAX -> mul_ratio v (mk_ratio n d) = Ok (v * n / d)) /\
  (UINT64_MAX < v * n -> mul_ratio v (mk_ratio n d) = Err rate_limiting_state_inconsistent).
Proof.
  intros Hv Hn Hd. unfold mul_ratio. simpl numerator. simpl denominator.
  destruct (Z.eqb_spec d 0); [lia|]. destruct (Z.eqb_spec n 0) as [->|Hn0].
  { rewrite Z.mul_0_r. split; [done|]. unfold UINT64_MAX. lia. }
  simpl orb. destruct (Z.leb_spec v (UINT64_MAX / n)) as [Hl|Hl]; simpl.
  - assert (v * n <= UINT64_MAX) by (pose proof (Z.mul_div_le UINT64_MAX n ltac:(lia)); nia).
    split; [intros _|lia]. rewrite u64_small by (unfold is_u64, UINT64_MAX in *; nia). done.
  - split; [|done]. intros Hle. exfalso.
    assert (v <= UINT64_MAX / n) by (apply Z.div_le_lower_bound; nia). lia.
Qed.

(** ** The moving average *)

Record acc_ok (a : usage_accumulator) : Prop := {
  acc_ordinal : is_u32 (last_ordinal a);
  acc_value : is_u64 (value_ex a);
  acc_consumed : is_u64 (consumed a)
}.

(** What is left of the value after the periods since the last one. *)
Definition decayed (a : usage_accumulator) (ordinal w : Z) : Z :=
  if last_ordinal a =? ordinal then value_ex a
  else if ordinal <? last_ordinal a + w
  then value_ex a * (w - (ordinal - last_ordinal a)) / w
  else 0.

Lemma decayed_bound a ordinal w :
  0 <= value_ex a -> last_ordinal a <= ordinal -> 0 < w -> 0 <= decayed a ordinal w <= value_ex a.
Proof.
  intros Hv Ho Hw. unfold decayed. destruct (Z.eqb_spec (last_ordinal a) ordinal); [lia|].
  destruct (Z.ltb_spec ordinal (last_ordinal a + w)); [|lia].
  split; [apply Z.div_pos; nia|]. apply Z.div_le_upper_bound; nia.
Qed.

Lemma advance_Ok a ordinal w :
  acc_ok a -> is_u32 ordinal -> 0 < w < 2 ^ 32 -> last_ordinal a <= ordinal ->
  value_ex a * w <= UINT64_MAX ->
  advance a ordinal w =
    Ok (mk_accumulator ordinal (decayed a ordinal w)
          (if last_ordinal a =? ordinal then consumed a else ceil_div (decayed a ordinal w) P)).
Proof.
  intros [Ho Hv Hc] Hord Hw Hle Hmul. unfold advance, decayed, is_u32, is_u64 in *.
  destruct (Z.eqb_spec (last_ordinal a) ordinal) as [E|E]; [by rewrite <- E; destruct a|].
  destruct (Z.ltb_spec (last_ordinal a) ordinal); [|lia]. simpl SNAX_ASSERT.
  unfold average, make_ratio. destruct (Z.ltb_spec ordinal (last_ordinal a + w)).
  - rewrite (u32_small (ordinal - last_ordinal a)) by (unfold is_u32; lia).
    rewrite u64_small by (unfold is_u64; lia).
    destruct (mul_ratio_Ok (value_ex a) (w - (ordinal - last_ordinal a)) w) as [Em _]; [lia..|].
    rewrite Em by nia. cbn [mbind result_bind value_ex]. rewrite integer_divide_ceil_Ok by done. done.
  - cbn [mbind result_bind mret result_ret value_ex]. rewrite integer_divide_ceil_Ok by done. done.
Qed.

(** The value and the consumption after an [add] that does not throw. *)
Lemma accumulator_add_Ok a units ordinal w :
  acc_ok a -> is_u32 ordinal -> 0 < w < 2 ^ 32 -> last_ordinal a <= ordinal ->
  value_ex a * w <= UINT64_MAX -> 0 <= units <= max_raw_value -> units + consumed a <= UINT64_MAX ->
  ceil_div (units * P) w + value_ex a <= UINT64_MAX ->
  let a' := mk_accumulator ordinal (decayed a ordinal w + ceil_div (units * P) w)
    ((if last_ordinal a =? ordinal then consumed a else ceil_div (decayed a ordinal w) P) + units) in
  accumulator_add a units ordinal w = Ok a' /\ acc_ok a'.
Proof.
  intros Ha Hord Hw Hle Hmul Hu Hc Hv a'.
  assert (0 <= value_ex a) as Hv0 by (destruct Ha as [_ [? _] _]; done).
  assert (0 <= consumed a) as Hc0 by (destruct Ha as [_ _ [? _]]; done).
  pose proof (decayed_bound a ordinal w Hv0 Hle ltac:(lia)) as Hd.
  assert (0 <= ceil_div (units * P) w) as Hcd by (apply ceil_div_nonneg; unfold P; lia).
  pose proof (ceil_div_bound (decayed a ordinal w) P ltac:(done)) as Hcb.
  assert (0 <= ceil_div (decayed a ordinal w) P) as Hcn by (apply ceil_div_nonneg; [done|lia]).
  assert (acc_ok a') as Ha'.
  { unfold a', max_raw_value, UINT64_MAX, P in *.
    constructor; unfold is_u64; cbn [last_ordinal value_ex consumed]; [done|lia|].
    destruct (_ =? _); [lia|]. change (18446744073709551615 / (1000 * 1000)) with 18446744073709 in *. lia. }
  split; [|done]. unfold accumulator_add.
  destruct (Z.leb_spec units max_raw_value); [|lia]. simpl SNAX_ASSERT.
  destruct (Z.leb_spec units (UINT64_MAX - consumed a)); [|lia]. simpl SNAX_ASSERT. cbn [mbind result_bind].
  assert (u128 (units * P) = units * P) as ->.
  { apply Z.mod_small. unfold max_raw_value, UINT64_MAX, P in *.
    change (18446744073709551615 / (1000 * 1000)) with 18446744073709 in *. lia. }
  rewrite integer_divide_ceil_Ok by lia. cbn [mbind result_bind]. unfold downgrade_cast_u64.
  destruct (Z.leb_spec 0 (ceil_div (units * P) w)); [|lia].
  destruct (Z.leb_spec (ceil_div (units * P) w) UINT64_MAX); [|lia]. simpl andb. simpl SNAX_ASSERT.
  cbn [mbind result_bind mret result_ret].
  destruct (Z.leb_spec (ceil_div (units * P) w) (UINT64_MAX - value_ex a)); [|lia]. simpl SNAX_ASSERT.
  rewrite advance_Ok by done. cbn [mbind result_bind mret result_ret last_ordinal value_ex consumed].
  destruct Ha' as [_ Hx Hy]. unfold a' in *. cbn [last_ordinal value_ex consumed] in *.
  by rewrite !u64_small.
Qed.

(** The average of periods that never used more than [U] units stays at [U], up
    to the rounding of the decay and of the contributions. *)
Record acc_bound (U w : Z) (a : usage_accumulator) : Prop := {
  ab_ok : acc_ok a;
  ab_value : value_ex a <= U * P + w;
  ab_consumed : consumed a <= 2 * U + 2
}.

Lemma decay_step U w v d c units :
  0 < w -> 1 <= d -> 0 <= v <= U * P + w -> units <= U -> d <= w ->
  w * c <= units * P + w - 1 -> v * (w - d) / w + c <= U * P + w.
Proof.
  intros Hw Hd Hv Hu Hdw Hc. pose proof (Z.mul_div_le (v * (w - d)) w Hw) as Hq.
  set (q := v * (w - d) / w) in *. unfold P in *.
  assert (v * (w - d) <= (U * (1000 * 1000) + w) * (w - 1)) by nia. nia.
Qed.

Lemma accumulator_bounded U w a units ordinal :
  acc_bound U w a -> 0 <= units <= U -> last_ordinal a < ordinal -> is_u32 ordinal ->
  0 < w <= P -> 2 * (U * P + w) * w <= UINT64_MAX ->
  exists a' m, accumulator_add a units ordinal w = Ok a' /\ acc_bound U w a' /\
    last_ordinal a' = ordinal /\ average a' = Ok m /\ 0 <= m <= U + 1.
Proof.
  intros [Ha Hv Hc] Hu Hord Hu32 Hw Hbig.
  assert (0 <= value_ex a) as Hv0 by (destruct Ha as [_ [? _] _]; done).
  assert (0 <= U * P) as HUP by (unfold P; lia).
  pose proof (ceil_div_bound (units * P) w ltac:(lia)) as Hcb.
  assert (0 <= ceil_div (units * P) w) as Hc0 by (apply ceil_div_nonneg; [lia|unfold P; lia]).
  assert (ceil_div (units * P) w <= units * P + w) as Hc1 by nia.
  assert (U * P + w <= (U * P + w) * w) as Hb1 by nia.
  assert (units * P <= U * P) as Hup by (unfold P; lia).
  destruct (accumulator_add_Ok a units ordinal w) as [E Ha'].
  - done.
  - done.
  - unfold P in *. lia.
  - lia.
  - nia.
  - split; [lia|]. unfold max_raw_value, P, UINT64_MAX in *.
    change (18446744073709551615 / (1000 * 1000)) with 18446744073709. nia.
  - unfold P, UINT64_MAX in *. nia.
  - lia.
  - set (v' := decayed a ordinal w + ceil_div (units * P) w) in *.
    assert (decayed a ordinal w + ceil_div (units * P) w <= U * P + w) as Hv'.
    { unfold decayed. destruct (Z.eqb_spec (last_ordinal a) ordinal); [lia|].
      destruct (Z.ltb_spec ordinal (last_ordinal a + w)).
      - apply (decay_step U w (value_ex a) (ordinal - last_ordinal a) _ units); lia.
      - lia. }
    assert (0 <= decayed a ordinal w) as Hd0 by (apply decayed_bound; lia).
    pose proof (ceil_div_bound (decayed a ordinal w) P ltac:(done)) as Hcd.
    pose proof (ceil_div_bound v' P ltac:(done)) as Hcv.
    assert (0 <= v') as Hv'0 by (unfold v'; lia).
    pose proof (ceil_div_nonneg v' P ltac:(done) Hv'0) as Hcn.
    eexists _, (ceil_div v' P). split; [exact E|]. split_and!.
    + constructor; cbn [value_ex consumed]; [done|done|].
      destruct (Z.eqb_spec (last_ordinal a) ordinal); [lia|]. unfold P in *. lia.
    + done.
    + by apply integer_divide_ceil_Ok.
    + done.
    + unfold P in *. lia.
Qed.

(** The moving average is a bounded average: starting within its bound, an
    accumulator fed once per period with at most [U] units never throws, never
    overflows its 64 bits, and its average never exceeds [U + 1]. *)
Theorem accumulator_average_bounded U w a units ordinal
  (Ha : acc_bound U w a) (Hu : 0 <= units <= U) (Hord : last_ordinal a < ordinal)
  (Hu32 : is_u32 ordinal) (Hw : 0 < w <= P) (Hbig : 2 * (U * P + w) * w <= UINT64_MAX) :
  exists a' m, accumulator_add a units ordinal w = Ok a' /\ acc_bound U w a' /\
    last_ordinal a' = ordinal /\ average a' = Ok m /\ 0 <= m <= U + 1.
Proof. by apply accumulator_bounded. Qed.

Lemma accumulator_average_bounded_witness :
  exists a', accumulator_add empty_accumulator 150000 7 120 = Ok a' /\ acc_bound 200000 120 a'.
Proof.
  destruct (accumulator_average_bounded 200000 120 empty_accumulator 150000 7) as (a' & m & E & Hb & _).
  - constructor; [constructor|..]; vm_compute; intuition congruence.
  - lia.
  - reflexivity.
  - split; [lia|reflexivity].
  - split; [lia|vm_compute; congruence].
  - vm_compute. congruence.
  - exists a'. split; [exact E|exact Hb].
Defined.

(** ** Elastic limits *)

Record params_ok (p : elastic_limit_parameters) : Prop := {
  po_max : 0 <= max p;
  po_mult : 1 <= max_multiplier p;
  po_periods : 0 < periods p <= P;
  po_contract : 0 <= numerator (contract_rate p) <= denominator (contract_rate p) /\
    0 < denominator (contract_rate p);
  po_expand : 0 < denominator (expand_rate p) <= numerator (expand_rate p);
  po_fits : 2 * (max p * P + periods p) * periods p <= UINT64_MAX;
  po_fits_contract : max p * max_multiplier p * denominator (contract_rate p) <= UINT64_MAX;
  po_fits_expand : max p * max_multiplier p * numerator (expand_rate p) <= UINT64_MAX
}.

Definition in_range (p : elastic_limit_parameters) (v : Z) : Prop :=
  max p <= v <= max p * max_multiplier p.

Lemma update_elastic_limit_range p v avg :
  params_ok p -> in_range p v ->
  exists r, update_elastic_limit v avg p = Ok r /\ in_range p r /\
    (target p < avg -> r <= v) /\ (avg <= target p -> v <= r).
Proof.
  intros [Hm Hx Hp Hc He _ Hfc Hfe] [Hlo Hhi]. unfold update_elastic_limit, in_range in *.
  set (top := max p * max_multiplier p) in *.
  assert (0 <= top <= UINT64_MAX) as Ht by (unfold UINT64_MAX in *; nia).
  assert (u64 top = top) as Hut by (apply u64_small; unfold is_u64, UINT64_MAX in *; lia).
  destruct (contract_rate p) as [cn cd], (expand_rate p) as [en ed]. simpl in *.
  destruct (Z.ltb_spec (target p) avg) as [Hl|Hg].
  - destruct (mul_ratio_Ok v cn cd ltac:(lia) ltac:(lia) ltac:(lia)) as [E _]. rewrite E by nia.
    simpl. eexists. split; [reflexivity|]. fold top. rewrite Hut.
    assert (v * cn / cd <= v) by (apply Z.div_le_upper_bound; nia).
    split; [|split]; [split|..]; nia || lia.
  - destruct (mul_ratio_Ok v en ed ltac:(lia) ltac:(lia) ltac:(lia)) as [E _]. rewrite E by nia.
    simpl. eexists. split; [reflexivity|]. fold top. rewrite Hut.
    assert (v <= v * en / ed) by (apply Z.div_le_lower_bound; nia).
    split; [|split]; [split|..]; nia || lia.
Qed.

(** ** Blocks *)

(** The averages are within the block maximum, the pending usage does not exceed
    it, and the virtual limits are between the maximum and its multiple. *)
Record block_inv (rl : resource_limits) : Prop := {
  bv_cpu_params : params_ok (cpu_limit_parameters (config rl));
  bv_net_params : params_ok (net_limit_parameters (config rl));
  bv_cpu_avg : acc_bound (max (cpu_limit_parameters (config rl)))
    (periods (cpu_limit_parameters (config rl))) (average_block_cpu_usage (state rl));
  bv_net_avg : acc_bound (max (net_limit_parameters (config rl)))
    (periods (net_limit_parameters (config rl))) (average_block_net_usage (state rl));
  bv_cpu_pending : 0 <= pending_cpu_usage (state rl) <= max (cpu_limit_parameters (config rl));
  bv_net_pending : 0 <= pending_net_usage (state rl) <= max (net_limit_parameters (config rl));
  bv_cpu_virtual : in_range (cpu_limit_parameters (config rl)) (virtual_cpu_limit (state rl));
  bv_net_virtual : in_range (net_limit_parameters (config rl)) (virtual_net_limit (state rl))
}.

Definition last_block (rl : resource_limits) : Z :=
  Z.max (last_ordinal (average_block_cpu_usage (state rl)))
        (last_ordinal (average_block_net_usage (state rl))).

(** The end of a block never fails: from a consistent state, for a later
    block number, [process_block_usage] succeeds, resets the pending usage and
    leaves a consistent state in which both virtual limits lie between the block
    maximum and [max_multiplier] times it; a limit shrinks only when the average
    is above its target and grows only when it is not. *)
Theorem process_block_usage_total rl n
  (Hinv : block_inv rl) (Hn : last_block rl < n) (Hn32 : is_u32 n) :
  exists rl' cpu net, process_block_usage rl n = Ok rl' /\ block_inv rl' /\
    pending_cpu_usage (state rl') = 0 /\ pending_net_usage (state rl') = 0 /\
    limits rl' = limits rl /\ usage rl' = usage rl /\ last_block rl' = n /\
    average (average_block_cpu_usage (state rl')) = Ok cpu /\
    average (average_block_net_usage (state rl')) = Ok net /\
    (virtual_cpu_limit (state rl') < virtual_cpu_limit (state rl) ->
       target (cpu_limit_parameters (config rl)) < cpu) /\
    (virtual_cpu_limit (state rl) < virtual_cpu_limit (state rl') ->
       cpu <= target (cpu_limit_parameters (config rl))) /\
    (virtual_net_limit (state rl') < virtual_net_limit (state rl) ->
       target (net_limit_parameters (config rl)) < net) /\
    (virtual_net_limit (state rl) < virtual_net_limit (state rl') ->
       net <= target (net_limit_parameters (config rl))).
Proof.
  destruct Hinv as [Hcp Hnp Hca Hna Hcu Hnu Hcv Hnv]. unfold last_block in Hn.
  destruct (accumulator_bounded _ _ _ (pending_cpu_usage (state rl)) n Hca Hcu ltac:(lia) Hn32
    (po_periods _ Hcp) (po_fits _ Hcp)) as (ca & cm & Eca & Hca' & Hcl & Ecm & Hcm).
  destruct (accumulator_bounded _ _ _ (pending_net_usage (state rl)) n Hna Hnu ltac:(lia) Hn32
    (po_periods _ Hnp) (po_fits _ Hnp)) as (na & nm & Ena & Hna' & Hnl & Enm & Hnm).
  destruct (update_elastic_limit_range _ _ cm Hcp Hcv) as (cv & Ecv & Hcr & Hcdn & Hcup).
  destruct (update_elastic_limit_range _ _ nm Hnp Hnv) as (nv & Env & Hnr & Hndn & Hnup).
  unfold process_block_usage. rewrite Eca. cbn [mbind result_bind].
  unfold update_virtual_cpu_limit. simpl average_block_cpu_usage. rewrite Ecm. cbn [mbind result_bind].
  simpl virtual_cpu_limit. rewrite Ecv. cbn [mbind result_bind mret result_ret].
  simpl average_block_net_usage. simpl pending_net_usage. rewrite Ena. cbn [mbind result_bind].
  unfold update_virtual_net_limit. simpl average_block_net_usage. rewrite Enm. cbn [mbind result_bind].
  simpl virtual_net_limit. rewrite Env. cbn [mbind result_bind mret result_ret].
  eexists _, cm, nm. split; [reflexivity|]. unfold last_block. simpl.
  split_and!; try done; try lia. by constructor; simpl; try lia.
Qed.

Lemma initialize_database_inv : block_inv initialize_database.
Proof.
  constructor; simpl; try (vm_compute; intuition congruence);
    constructor; simpl; try (vm_compute; intuition congruence);
    constructor; vm_compute; intuition congruence.
Qed.

Lemma process_block_usage_total_witness :
  exists rl', process_block_usage initialize_database 5 = Ok rl' /\ block_inv rl'.
Proof.
  destruct (process_block_usage_total initialize_database 5) as (rl' & cpu & net & E & Hi & _).
  - exact initialize_database_inv.
  - vm_compute. reflexivity.
  - split; [lia|reflexivity].
  - exists rl'. split; [exact E|exact Hi].
Defined.

(** ** RAM *)

(** RAM accounting is exact: a change of an account's RAM usage is applied
    as an integer when the result fits in 64 bits and throws otherwise, so the
    counter never wraps around; no other account and no other row changes. *)
Theorem add_pending_ram_usage_exact rl a u delta
  (Hu : usage rl !! a = Some u) (Hram : is_u64 (ram_usage u)) (Hd : - 2 ^ 63 < delta < 2 ^ 63) :
  add_pending_ram_usage rl a delta =
    if decide (is_u64 (ram_usage u + delta))
    then Ok (set_usage rl (<[a := mk_usage (net_usage u) (cpu_usage u) (ram_usage u + delta)]> (usage rl)))
    else Err transaction_exception.
Proof.
  unfold add_pending_ram_usage, get_usage. unfold is_u64, UINT64_MAX, INT64_MIN in *.
  destruct (Z.eqb_spec delta 0) as [->|Hd0].
  { rewrite decide_True by lia. rewrite Z.add_0_r. f_equal. destruct rl, u. unfold set_usage. simpl in *.
    by rewrite insert_id. }
  rewrite Hu. cbn [of_option mbind result_bind].
  destruct (decide (delta < 0)) as [Hneg|Hpos].
  - destruct (Z.leb_spec delta 0); [|lia]. destruct (Z.leb_spec 0 delta); [lia|].
    destruct (Z.eqb_spec delta (-9223372036854775808)); [lia|]. cbn [orb SNAX_ASSERT mbind result_bind].
    rewrite (u64_small (- delta)) by (unfold is_u64; lia).
    destruct (Z.leb_spec (- delta) (ram_usage u)); cbn [SNAX_ASSERT mbind result_bind mret result_ret].
    + rewrite decide_True, u64_small by (unfold is_u64; lia). done.
    + rewrite decide_False by lia. done.
  - destruct (Z.leb_spec delta 0); [lia|]. destruct (Z.leb_spec 0 delta); [|lia]. cbn [orb].
    rewrite (u64_small delta) by (unfold is_u64; lia).
    destruct (Z.leb_spec delta (18446744073709551615 - ram_usage u));
      cbn [SNAX_ASSERT mbind result_bind mret result_ret].
    + rewrite decide_True, u64_small by (unfold is_u64; lia). done.
    + rewrite decide_False by lia. done.
Qed.

(** The RAM counter of an account, zero without a row, and 64-bit counters. *)
Definition ram_in (rl : resource_limits) (a : account_name) : Z :=
  match usage rl !! a with Some u => ram_usage u | None => 0 end.
Definition counters_typed (rl : resource_limits) : Prop :=
  forall a u, usage rl !! a = Some u -> is_u64 (ram_usage u).

Lemma add_pending_ram_usage_Ok rl a d rl' :
  counters_typed rl -> - 2 ^ 63 < d < 2 ^ 63 -> add_pending_ram_usage rl a d = Ok rl' ->
  counters_typed rl' /\ forall b, ram_in rl' b = ram_in rl b + if b =? a then d else 0.
Proof.
  intros Hty Hd E. unfold add_pending_ram_usage in E. destruct (Z.eqb_spec d 0) as [->|Hd0].
  { injection E as <-. split; [done|]. intros b. destruct (b =? a); lia. }
  apply bind_Ok in E as (u & Hu & E). unfold get_usage in Hu. apply of_option_Ok in Hu.
  apply bind_Ok in E as ([] & H1 & E). apply assert_Ok in H1. apply bind_Ok in E as ([] & H2 & E).
  injection E as <-. pose proof (Hty a u Hu) as Hru. unfold is_u64 in Hru. split.
  - intros b v Hb. simpl in Hb. apply lookup_insert_Some in Hb as [[_ <-]|[_ Hb]]; [apply u64_is_u64|by apply (Hty b)].
  - intros b. unfold ram_in. simpl.
    destruct (Z.eqb_spec b a) as [->|Hne]; [|rewrite lookup_insert_ne by done; lia].
    rewrite lookup_insert_eq, Hu. simpl. apply u64_small. unfold is_u64, UINT64_MAX in *.
    destruct (Z.leb_spec 0 d).
    + apply orb_true_iff in H1 as [H1|H1]; apply Z.leb_le in H1; [lia|].
      rewrite u64_small in H1 by (unfold is_u64; lia). lia.
    + destruct (Z.eqb_spec d INT64_MIN); [done|]. apply assert_Ok, Z.leb_le in H2.
      rewrite u64_small in H2 by (unfold is_u64; lia). lia.
Qed.

Lemma add_pending_ram_usage_exact_witness :
  let rl := set_usage initialize_database {[ 7 := default_usage ]} in
  add_pending_ram_usage rl 7 (-1) = Err transaction_exception /\
  add_pending_ram_usage rl 7 400 =
    Ok (set_usage rl (<[7 := mk_usage empty_accumulator empty_accumulator 400]> (usage rl))).
Proof.
  split.
  - rewrite (add_pending_ram_usage_exact _ 7 default_usage (-1));
      [reflexivity|reflexivity|split; [vm_compute; congruence|reflexivity]|lia].
  - rewrite (add_pending_ram_usage_exact _ 7 default_usage 400);
      [reflexivity|reflexivity|split; [vm_compute; congruence|reflexivity]|lia].
Defined.

(** ** The totals of the weights *)

(** What the row [k] adds to the total of field [f]: pending rows and negative
    (unlimited) values count for nothing. *)
Definition contribution (f : limits_object -> Z) (k : bool * Z) (l : limits_object) : Z :=
  if k.1 then 0 else Z.max 0 (f l).

Definition total_of (f : limits_object -> Z) (m : gmap (bool * Z) limits_object) : Z :=
  map_sum (contribution f) m.

Lemma contribution_nonneg f k l : 0 <= contribution f k l.
Proof. unfold contribution. destruct (k.1); lia. Qed.

(** The totals in the state row are the sums over the accounts' rows, and a
    pending row belongs to an account. *)
Record totals_ok (rl : resource_limits) : Prop := {
  to_ram : total_ram_bytes (state rl) = total_of lo_ram_bytes (limits rl);
  to_cpu : total_cpu_weight (state rl) = total_of lo_cpu_weight (limits rl);
  to_net : total_net_weight (state rl) = total_of lo_net_weight (limits rl);
  to_fits : total_of lo_ram_bytes (limits rl) <= UINT64_MAX /\
    total_of lo_cpu_weight (limits rl) <= UINT64_MAX /\ total_of lo_net_weight (limits rl) <= UINT64_MAX;
  to_owner o l : limits rl !! (true, o) = Some l -> is_Some (limits rl !! (false, o))
}.

(** The lambda keeps a total in step with its summand. *)
Lemma update_total_spec f m o actual p :
  m !! (false, o) = Some actual -> total_of f m <= UINT64_MAX ->
  let m' := delete (true, o) (<[(false, o) := p]> m) in
  update_total (total_of f m) (f actual) (f p) =
    if total_of f m' <=? UINT64_MAX then Ok (total_of f m') else Err rate_limiting_state_inconsistent.
Proof.
  intros Ha Hle m'.
  assert (total_of f m' = total_of f m - Z.max 0 (f actual) + Z.max 0 (f p)) as Hm'.
  { unfold m', total_of.
    pose proof (map_sum_delete (contribution f) (<[(false, o) := p]> m) (true, o)) as Hd.
    rewrite map_sum_insert, Ha in Hd. cbn [summand] in Hd.
    assert (summand (contribution f) (true, o) (<[(false, o) := p]> m !! (true, o)) = 0) as H0
      by (by destruct (<[(false, o) := p]> m !! (true, o))).
    change (contribution f (false, o) actual) with (Z.max 0 (f actual)) in Hd.
    change (contribution f (false, o) p) with (Z.max 0 (f p)) in Hd. lia. }
  pose proof (summand_le_map_sum (contribution f) m (false, o)
    ltac:(intros; apply contribution_nonneg)) as Hc. rewrite Ha in Hc.
  change (0 <= Z.max 0 (f actual) <= total_of f m) in Hc.
  rewrite Hm'. unfold update_total.
  destruct (Z.ltb_spec 0 (f actual)).
  - destruct (Z.leb_spec (f actual) (total_of f m)); [|lia]. cbn [SNAX_ASSERT mbind result_bind mret result_ret].
    destruct (Z.ltb_spec 0 (f p)).
    + destruct (Z.leb_spec (f p) (UINT64_MAX - (total_of f m - f actual))), (Z.leb_spec
        (total_of f m - Z.max 0 (f actual) + Z.max 0 (f p)) UINT64_MAX); try lia; [|done].
      cbn [SNAX_ASSERT mbind result_bind mret result_ret]. f_equal. lia.
    + destruct (Z.leb_spec (total_of f m - Z.max 0 (f actual) + Z.max 0 (f p)) UINT64_MAX); [|lia].
      f_equal. lia.
  - cbn [mbind result_bind mret result_ret]. destruct (Z.ltb_spec 0 (f p)).
    + destruct (Z.leb_spec (f p) (UINT64_MAX - total_of f m)), (Z.leb_spec
        (total_of f m - Z.max 0 (f actual) + Z.max 0 (f p)) UINT64_MAX); try lia; [|done].
      cbn [SNAX_ASSERT mbind result_bind mret result_ret]. f_equal. lia.
    + destruct (Z.leb_spec (total_of f m - Z.max 0 (f actual) + Z.max 0 (f p)) UINT64_MAX); [|lia].
      f_equal. lia.
Qed.

Lemma apply_pending_spec rl o p :
  totals_ok rl -> limits rl !! (true, o) = Some p ->
  match apply_pending rl o p with
  | Ok rl' => totals_ok rl' /\ usage rl' = usage rl /\ config rl' = config rl /\
      limits rl' = delete (true, o) (<[(false, o) := p]> (limits rl))
  | Err e => e = rate_limiting_state_inconsistent
  end.
Proof.
  intros [Hr Hc Hn (Fr & Fc & Fn) Ho] Hp. destruct (Ho o p Hp) as [actual Ha].
  unfold apply_pending. rewrite Ha. cbn [of_option mbind result_bind].
  set (m' := delete (true, o) (<[(false, o) := p]> (limits rl))).
  assert (forall f, total_of f (limits rl) <= UINT64_MAX ->
    update_total (total_of f (limits rl)) (f actual) (f p) =
    if total_of f m' <=? UINT64_MAX then Ok (total_of f m') else Err rate_limiting_state_inconsistent) as Hu
    by (intros f Hf; by apply update_total_spec).
  rewrite Hr, (Hu lo_ram_bytes) by done.
  destruct (Z.leb_spec (total_of lo_ram_bytes m') UINT64_MAX); [|done]. cbn [mbind result_bind].
  rewrite Hc, (Hu lo_cpu_weight) by done.
  destruct (Z.leb_spec (total_of lo_cpu_weight m') UINT64_MAX); [|done]. cbn [mbind result_bind].
  rewrite Hn, (Hu lo_net_weight) by done.
  destruct (Z.leb_spec (total_of lo_net_weight m') UINT64_MAX); [|done]. cbn [mbind result_bind mret result_ret].
  split_and!; [|done..]. constructor; simpl; try done.
  intros o' l Hl. fold m' in Hl. unfold m' in *. apply lookup_delete_Some in Hl as [Hne Hl].
  rewrite lookup_insert_ne in Hl by done. rewrite lookup_delete_ne by done.
  destruct (decide (o' = o)) as [->|Hno]; [by rewrite lookup_insert_eq|].
  rewrite lookup_insert_ne by congruence. eauto.
Qed.

Lemma elem_of_pending_owners m o : o ∈ pending_owners m <-> is_Some (m !! (true, o)).
Proof.
  unfold pending_owners. rewrite merge_sort_Permutation, list_elem_of_fmap. split.
  - intros ([[b o'] l] & -> & [Hb Hin]%list_elem_of_filter). simpl in *. subst b.
    apply elem_of_map_to_list in Hin. by exists l.
  - intros [l Hl]. exists ((true, o), l). split; [done|]. apply list_elem_of_filter.
    split; [done|]. by apply elem_of_map_to_list.
Qed.

Lemma pending_owners_nodup m : NoDup (pending_owners m).
Proof.
  unfold pending_owners. rewrite merge_sort_Permutation. apply NoDup_fmap_2_strong.
  - intros [[b o] l] [[b' o'] l'] [Hb Hin]%list_elem_of_filter [Hb' Hin']%list_elem_of_filter E.
    simpl in *. subst. apply elem_of_map_to_list in Hin, Hin'. congruence.
  - apply NoDup_filter, NoDup_map_to_list.
Qed.

(** The limits that apply to [o]: the pending ones if there are any. *)
Definition effective (m : gmap (bool * Z) limits_object) (o : Z) : option limits_object :=
  match m !! (true, o) with Some p => Some p | None => m !! (false, o) end.

Lemma apply_all_pending_spec rl owners :
  totals_ok rl -> NoDup owners -> (forall o, o ∈ owners -> is_Some (limits rl !! (true, o))) ->
  match apply_all_pending rl owners with
  | Ok rl' => totals_ok rl' /\ usage rl' = usage rl /\ config rl' = config rl /\
      (forall o, effective (limits rl') o = effective (limits rl) o) /\
      (forall o, limits rl' !! (true, o) = if decide (o ∈ owners) then None else limits rl !! (true, o))
  | Err e => e = rate_limiting_state_inconsistent
  end.
Proof.
  revert rl. induction owners as [|o owners IH]; intros rl Ht Hn Hs; cbn [apply_all_pending].
  { cbn [mret result_ret]. split_and!; try done. }
  apply NoDup_cons in Hn as [Hno Hn]. destruct (Hs o ltac:(by left)) as [p Hp].
  rewrite Hp. cbn [of_option mbind result_bind]. pose proof (apply_pending_spec rl o p Ht Hp) as Ha.
  destruct (apply_pending rl o p) as [rl1|e]; cbn [mbind result_bind]; [|done].
  destruct Ha as (Ht1 & Hu1 & Hc1 & Hl1).
  assert (forall o', o' <> o -> limits rl1 !! (true, o') = limits rl !! (true, o')) as Hoth.
  { intros o' Hne. rewrite Hl1, lookup_delete_ne by congruence. by rewrite lookup_insert_ne. }
  assert (limits rl1 !! (true, o) = None) as Hnone by (rewrite Hl1; apply lookup_delete_eq).
  assert (forall o', effective (limits rl1) o' = effective (limits rl) o') as Heff.
  { intros o'. unfold effective. destruct (decide (o' = o)) as [->|Hne].
    - rewrite Hnone, Hp, Hl1, lookup_delete_ne by congruence. by rewrite lookup_insert_eq.
    - rewrite Hoth by done. destruct (limits rl !! (true, o')); [done|].
      rewrite Hl1, lookup_delete_ne, lookup_insert_ne by congruence. done. }
  specialize (IH rl1 Ht1 Hn). destruct (apply_all_pending rl1 owners) as [rl2|e].
  - destruct IH as (Ht2 & Hu2 & Hc2 & He2 & Hp2).
    { intros o' Ho'. rewrite Hoth by (intros ->; done). apply Hs. by right. }
    split_and!; [done|congruence|congruence|by intros o'; rewrite He2|].
    intros o'. rewrite Hp2. destruct (decide (o' ∈ owners)) as [Hin|Hin].
    + rewrite decide_True by set_solver. done.
    + destruct (decide (o' = o)) as [->|Hne].
      * rewrite decide_True by set_solver. done.
      * rewrite decide_False by set_solver. by apply Hoth.
  - apply IH. intros o' Ho'. rewrite Hoth by (intros ->; done). apply Hs. by right.
Qed.

(** When the pending limits take effect, every account keeps the limits
    that applied to it, no pending row is left, and the totals of RAM, CPU and
    NET in the state row are again exactly the sums over all accounts; the only
    failure is a total that does not fit in 64 bits, never an underflow. *)
Theorem process_account_limit_updates_totals rl (Ht : totals_ok rl) :
  match process_account_limit_updates rl with
  | Ok rl' => totals_ok rl' /\ usage rl' = usage rl /\
      forall o, limits rl' !! (true, o) = None /\ limits rl' !! (false, o) = effective (limits rl) o
  | Err e => e = rate_limiting_state_inconsistent
  end.
Proof.
  unfold process_account_limit_updates.
  pose proof (apply_all_pending_spec rl (pending_owners (limits rl)) Ht (pending_owners_nodup _)
    (fun o Ho => proj1 (elem_of_pending_owners _ o) Ho)) as Hs.
  destruct (apply_all_pending rl _) as [rl'|e]; [|done].
  destruct Hs as (Ht' & Hu & _ & He & Hp). split_and!; [done|done|]. intros o.
  assert (limits rl' !! (true, o) = None) as Hnone.
  { rewrite Hp. case_decide as Hd; [done|]. rewrite elem_of_pending_owners in Hd.
    by apply eq_None_not_Some. }
  split; [done|]. rewrite <- He. unfold effective. by rewrite Hnone.
Qed.

Lemma process_account_limit_updates_totals_witness :
  let l := {[ (false, 7) := mk_limits 5 (-1) 100; (true, 7) := mk_limits 8 3 90 ]} in
  let rl := mk_rl default_config (mk_state empty_accumulator empty_accumulator 0 0 5 0 100 0 0) l ∅ in
  totals_ok rl /\ exists rl', process_account_limit_updates rl = Ok rl' /\ totals_ok rl'.
Proof.
  assert (totals_ok (mk_rl default_config (mk_state empty_accumulator empty_accumulator 0 0 5 0 100 0 0)
    {[ (false, 7) := mk_limits 5 (-1) 100; (true, 7) := mk_limits 8 3 90 ]} ∅)) as Ht.
  { constructor; try (vm_compute; reflexivity).
    - vm_compute. intuition congruence.
    - intros o l Hl. simpl in *. rewrite lookup_insert_ne in Hl by congruence.
      apply lookup_singleton_Some in Hl as [[= <-] _]. vm_compute. by eexists. }
  split; [exact Ht|]. pose proof (process_account_limit_updates_totals _ Ht) as Hp.
  destruct (process_account_limit_updates _) as [rl'|e] eqn:E.
  - exists rl'. split; [reflexivity|exact (proj1 Hp)].
  - exfalso. vm_compute in E. discriminate.
Defined.

(** The other operations on limits keep the totals. *)
Lemma initialize_account_totals rl a rl' :
  totals_ok rl -> initialize_account rl a = Ok rl' -> totals_ok rl'.
Proof.
  intros [Hr Hc Hn Hf Ho] E. unfold initialize_account in E. inv_ok. simpl in *.
  destruct (limits rl !! (false, a)) eqn:Hl; [done|].
  assert (forall f, f default_limits = -1 ->
    total_of f (<[(false, a) := default_limits]> (limits rl)) = total_of f (limits rl)) as Ht.
  { intros f Hd. unfold total_of. rewrite map_sum_insert_None by done. unfold contribution. simpl.
    rewrite Hd. lia. }
  constructor; simpl; rewrite ?Ht by done; try done.
  intros o l. rewrite lookup_insert_ne by congruence. intros Hl'. destruct (decide (o = a)) as [->|Hne].
  - by rewrite lookup_insert_eq.
  - rewrite lookup_insert_ne by congruence. eauto.
Qed.

(** [set_account_limits] only records a pending change: from then on the
    given limits are the account's, those of every other account are as before,
    the totals do not move, and the result says whether the RAM limit became
    stricter. An account without a row is refused. *)
Theorem set_account_limits_pending rl a ram net cpu (Ht : totals_ok rl) :
  match set_account_limits rl a ram net cpu with
  | Ok (rl', decreased) =>
      totals_ok rl' /\ state rl' = state rl /\ usage rl' = usage rl /\
      get_account_limits rl' a = Ok (mk_limits net cpu ram) /\
      (forall b, b <> a -> get_account_limits rl' b = get_account_limits rl b) /\
      exists old, get_account_limits rl a = Ok old /\
        (decreased = true <-> 0 <= ram /\ (lo_ram_bytes old < 0 \/ ram < lo_ram_bytes old))
  | Err e => e = std_out_of_range /\ limits rl !! (false, a) = None
  end.
Proof.
  destruct Ht as [Hr Hc Hn Hf Ho]. unfold set_account_limits.
  assert (match limits rl !! (true, a) with Some l => mret l
    | None => of_option std_out_of_range (limits rl !! (false, a)) end = get_account_limits rl a) as -> by done.
  destruct (get_account_limits rl a) as [old|e] eqn:Eg; cbn [mbind result_bind mret result_ret].
  - assert (is_Some (limits rl !! (false, a))) as Hs.
    { unfold get_account_limits in Eg. destruct (limits rl !! (true, a)) eqn:Hp; [by eapply Ho|].
      apply of_option_Ok in Eg. by eexists. }
    assert (forall f l, total_of f (<[(true, a) := l]> (limits rl)) = total_of f (limits rl)) as Ht.
    { intros f l. unfold total_of. rewrite map_sum_insert.
      assert (summand (contribution f) (true, a) (limits rl !! (true, a)) = 0) as ->
        by (by destruct (limits rl !! (true, a))).
      change (contribution f (true, a) l) with 0. lia. }
    split_and!; try done.
    + constructor; simpl; rewrite ?Ht; try done.
      intros o l Hl. rewrite lookup_insert_ne by congruence.
      apply lookup_insert_Some in Hl as [[[= <-] _]|[_ Hl]]; [done|eauto].
    + unfold get_account_limits. simpl. by rewrite lookup_insert_eq.
    + intros b Hb. unfold get_account_limits. simpl. by rewrite !lookup_insert_ne by congruence.
    + exists old. split; [done|]. destruct (Z.leb_spec 0 ram); [|split; [done|lia]].
      rewrite orb_true_iff, !Z.ltb_lt. lia.
  - unfold get_account_limits in Eg. destruct (limits rl !! (true, a)); [done|].
    apply of_option_Err in Eg as [? <-]. done.
Qed.

Lemma set_account_limits_pending_witness :
  let rl := mk_rl default_config (state initialize_database) {[ (false, 7) := default_limits ]} ∅ in
  exists rl', set_account_limits rl 7 100 5 6 = Ok (rl', true) /\
    get_account_limits rl' 7 = Ok (mk_limits 5 6 100).
Proof.
  assert (totals_ok (mk_rl default_config (state initialize_database) {[ (false, 7) := default_limits ]} ∅)) as Ht.
  { constructor; try (vm_compute; reflexivity).
    - vm_compute. intuition congruence.
    - intros o l Hl. simpl in *. by apply lookup_singleton_Some in Hl as [[=] _]. }
  pose proof (set_account_limits_pending _ 7 100 5 6 Ht) as Hp.
  destruct (set_account_limits _ 7 100 5 6) as [[rl' b]|e] eqn:E; [|exfalso; vm_compute in E; discriminate].
  destruct Hp as (_ & _ & _ & Hg & _). exists rl'. split; [|exact Hg].
  assert (b = true) as -> by (vm_compute in E; congruence). exact E.
Defined.

(** ** Billing *)

Section Billing.
Context `{CbrtLaws}.

(** Billing touches the usage of the given accounts only. *)
Lemma bill_accounts_frame rl accounts cpu net slot rl' :
  bill_accounts rl accounts cpu net slot = Ok rl' ->
  config rl' = config rl /\ state rl' = state rl /\ limits rl' = limits rl /\
  forall b, b ∉ accounts -> usage rl' !! b = usage rl !! b.
Proof.
  revert rl. induction accounts as [|a accounts IH]; intros rl E; cbn [bill_accounts] in E.
  { by inv_ok. }
  apply bind_Ok in E as (u & _ & E). apply bind_Ok in E as (l & _ & E).
  apply bind_Ok in E as (u' & _ & E). apply bind_Ok in E as ([] & _ & E).
  apply bind_Ok in E as ([] & _ & E). apply IH in E as (Hc & Hs & Hl & Hu). simpl in *.
  split_and!; try done. intros b [Hne Hb]%not_elem_of_cons. rewrite Hu by done.
  by rewrite lookup_insert_ne.
Qed.

(** The checks read the configuration, the state row and the account's usage. *)
Lemma check_cpu_frame rl rl' u w :
  config rl' = config rl -> state rl' = state rl -> check_cpu rl' u w = check_cpu rl u w.
Proof. intros Hc Hs. unfold check_cpu. by rewrite Hc, Hs. Qed.
Lemma check_net_frame rl rl' u w :
  config rl' = config rl -> state rl' = state rl -> check_net rl' u w = check_net rl u w.
Proof. intros Hc Hs. unfold check_net. by rewrite Hc, Hs. Qed.

Lemma bill_accounts_each rl accounts cpu net slot rl' a :
  NoDup accounts -> bill_accounts rl accounts cpu net slot = Ok rl' -> a ∈ accounts ->
  exists u u' l, usage rl !! a = Some u /\ add_usage (config rl) u cpu net slot = Ok u' /\
    usage rl' !! a = Some u' /\ get_account_limits rl a = Ok l /\
    check_cpu rl u' (lo_cpu_weight l) = Ok tt /\ check_net rl u' (lo_net_weight l) = Ok tt.
Proof.
  revert rl. induction accounts as [|b accounts IH]; intros rl Hn E Ha; [by apply elem_of_nil in Ha|].
  apply NoDup_cons in Hn as [Hb Hn]. cbn [bill_accounts] in E.
  apply bind_Ok in E as (u & Hu & E). apply bind_Ok in E as (l & Hl & E).
  apply bind_Ok in E as (u' & Hu' & E). apply bind_Ok in E as ([] & Hcpu & E).
  apply bind_Ok in E as ([] & Hnet & E). apply of_option_Ok in Hu.
  set (rl1 := set_usage rl (<[b := u']> (usage rl))) in *.
  apply elem_of_cons in Ha as [->|Ha].
  - exists u, u', l. apply bill_accounts_frame in E as (_ & _ & _ & Hf). split_and!; try done.
    rewrite Hf by done. simpl. by rewrite lookup_insert_eq.
  - destruct (IH rl1 Hn E Ha) as (v & v' & l' & Hv & Hv' & Hr & Hl' & Hc' & Hn').
    exists v, v', l'. split_and!; try done.
    rewrite <- Hv. simpl. rewrite lookup_insert_ne; [done|]. intros ->. done.
Qed.

(** What a billed transaction guarantees: it was added to the averages of
    each billed account and of no other, each of them passed the CPU and NET
    checks with the new averages, and the block's pending usage, increased by
    the transaction, is within the block's maximum. *)
Theorem add_transaction_usage_checked rl accounts cpu net slot rl'
  (Hn : NoDup accounts) (Hcpu : is_u64 (pending_cpu_usage (state rl) + cpu))
  (Hnet : is_u64 (pending_net_usage (state rl) + net))
  (E : add_transaction_usage rl accounts cpu net slot = Ok rl') :
  pending_cpu_usage (state rl') = pending_cpu_usage (state rl) + cpu /\
  pending_cpu_usage (state rl') <= max (cpu_limit_parameters (config rl)) /\
  pending_net_usage (state rl') = pending_net_usage (state rl) + net /\
  pending_net_usage (state rl') <= max (net_limit_parameters (config rl)) /\
  (forall b, b ∉ accounts -> usage rl' !! b = usage rl !! b) /\
  forall a, a ∈ accounts -> exists u u' l, usage rl !! a = Some u /\
    add_usage (config rl) u cpu net slot = Ok u' /\ usage rl' !! a = Some u' /\
    get_account_limits rl a = Ok l /\
    check_cpu rl u' (lo_cpu_weight l) = Ok tt /\ check_net rl u' (lo_net_weight l) = Ok tt.
Proof.
  unfold add_transaction_usage in E. apply bind_Ok in E as (rl1 & Eb & E).
  apply bill_accounts_frame in Eb as Hf. destruct Hf as (Hc & Hs & Hl & Hu).
  rewrite Hs in E. cbn [set_pending pending_net_usage pending_cpu_usage] in E.
  rewrite !u64_small in E by done. inv_ok. split_bool. simpl in *. rewrite Hc in *.
  split_and!; try done. intros a Ha. by apply (bill_accounts_each rl accounts cpu net slot rl1 a Hn Eb).
Qed.

(** ** What an account may still use *)

(** The CPU an account is told it has: with a limit, the available amount
    and the used amount add up to the maximum while something is left, and
    nothing is available once the maximum is used; the maximum is the account's
    share of the capacity or, if that is less, its guaranteed minimum. *)
Theorem cpu_limit_consistent rl a elastic arl u l
  (Hu : usage rl !! a = Some u) (Hl : get_account_limits rl a = Ok l)
  (Hw : 0 <= lo_cpu_weight l) (Ht : 0 < total_cpu_weight (state rl))
  (E : get_account_cpu_limit_ex rl a elastic = Ok arl) :
  let limit := if elastic then virtual_cpu_limit (state rl) else max (cpu_limit_parameters (config rl)) in
  max_user_use limit (account_cpu_usage_average_window (config rl)) (lo_cpu_weight l)
    (total_cpu_weight (state rl)) 1440 31000 = Ok (arl_max arl) /\
  0 <= arl_available arl /\ 0 <= arl_used arl /\ arl_max arl <= INT64_MAX /\
  (arl_used arl < arl_max arl -> arl_used arl + arl_available arl = arl_max arl) /\
  (arl_max arl <= arl_used arl -> arl_available arl = 0).
Proof.
  intros limit. unfold get_account_cpu_limit_ex, get_usage in E. rewrite Hu, Hl in E.
  cbn [of_option mbind result_bind] in E.
  destruct (Z.ltb_spec (lo_cpu_weight l) 0); [lia|].
  destruct (Z.eqb_spec (total_cpu_weight (state rl)) 0); [lia|]. cbn [orb] in E.
  apply bind_Ok in E as (used_u & _ & E). apply bind_Ok in E as (used & Hused & E).
  unfold downgrade_cast_i64 in Hused. apply bind_Ok in Hused as ([] & Hr & Hused).
  apply assert_Ok in Hr. injection Hused as <-.
  apply bind_Ok in E as (t & Ht' & E). unfold downgrade_cast_i64_signed in Ht'.
  apply bind_Ok in Ht' as ([] & Htr & Ht'). apply assert_Ok in Htr. injection Ht' as <-.
  apply bind_Ok in E as (av & Hav & E). apply bind_Ok in E as (m & Hm & E). injection E as <-.
  unfold downgrade_cast_i64 in Hm. apply bind_Ok in Hm as ([] & Hmr & Hm). apply assert_Ok in Hmr.
  injection Hm as <-. split_bool. subst limit.
  set (lim := if elastic then _ else _) in *.
  pose proof (cbrt_scaled_nonneg (lo_cpu_weight l) 1440 ltac:(lia) ltac:(lia)) as Hcb.
  set (mu := if u128 _ / _ <? _ then _ else _) in *. cbn [arl_used arl_available arl_max].
  assert (max_user_use lim (account_cpu_usage_average_window (config rl)) (lo_cpu_weight l)
    (total_cpu_weight (state rl)) 1440 31000 = Ok mu) as ->.
  { unfold max_user_use, downgrade_cast_i64.
    destruct (Z.leb_spec 0 (cbrt_scaled (lo_cpu_weight l) 1440)); [|lia].
    destruct (Z.leb_spec (cbrt_scaled (lo_cpu_weight l) 1440) INT64_MAX); [|lia]. done. }
  destruct (Z.leb_spec mu used_u) as [Hmu|Hmu].
  - injection Hav as <-. split_and!; try done; lia.
  - unfold downgrade_cast_i64 in Hav. apply bind_Ok in Hav as ([] & _ & Hav). injection Hav as <-.
    split_and!; try done; lia.
Qed.

End Billing.

(** The integer part of the scaled cube root, cut off at 300, to run the model. *)
Module Runs.

#[export] Instance cbrt : Cbrt := fun w k =>
  Z.of_nat (length (filter (fun r => r * r * r <= w * k * k * k) (seqZ 1 300))).

#[export] Instance cbrt_laws : CbrtLaws.
Proof.
  split; unfold cbrt_scaled, cbrt.
  - intros w k _ _. lia.
  - intros w w' k Hw Hk. apply Nat2Z.inj_le, length_filter_le. intros r _ Hr. simpl in *.
    assert (w * k * k * k <= w' * k * k * k) by (repeat apply Z.mul_le_mono_nonneg_r; lia). lia.
Qed.

(** Account 7 has half of the CPU weight, account 8 the other half. *)
Definition two_accounts : resource_limits :=
  let l := {[ (false, 7) := mk_limits 1 50 1000; (false, 8) := mk_limits 1 50 1000 ]} in
  let s := mk_state empty_accumulator empty_accumulator 0 0 2 100 2000 1048576 200000 in
  mk_rl default_config s l {[ 7 := default_usage; 8 := default_usage ]}.

Lemma add_transaction_usage_checked_witness :
  exists rl', add_transaction_usage two_accounts [7] 1500 200 40 = Ok rl' /\
    pending_cpu_usage (state rl') = pending_cpu_usage (state two_accounts) + 1500 /\
    (forall b, b ∉ [7] -> usage rl' !! b = usage two_accounts !! b).
Proof.
  assert (is_Ok (add_transaction_usage two_accounts [7] 1500 200 40) = true) as Hok
    by (vm_compute; reflexivity).
  destruct (add_transaction_usage two_accounts [7] 1500 200 40) as [rl'|e] eqn:E; [|discriminate Hok].
  exists rl'. split; [reflexivity|].
  destruct (add_transaction_usage_checked two_accounts [7] 1500 200 40 rl')
    as (Hp & _ & _ & _ & Ho & _).
  - apply NoDup_singleton.
  - split; [vm_compute; congruence|reflexivity].
  - split; [vm_compute; congruence|reflexivity].
  - exact E.
  - split; [exact Hp|exact Ho].
Defined.

Lemma cpu_limit_consistent_witness :
  exists arl, get_account_cpu_limit_ex two_accounts 7 true = Ok arl /\
    (arl_used arl < arl_max arl -> arl_used arl + arl_available arl = arl_max arl).
Proof.
  assert (is_Ok (get_account_cpu_limit_ex two_accounts 7 true) = true) as Hok
    by (vm_compute; reflexivity).
  destruct (get_account_cpu_limit_ex two_accounts 7 true) as [arl|e] eqn:E; [|discriminate Hok].
  exists arl. split; [reflexivity|].
  destruct (cpu_limit_consistent two_accounts 7 true arl default_usage (mk_limits 1 50 1000))
    as (_ & _ & _ & _ & Hc & _).
  - reflexivity.
  - reflexivity.
  - vm_compute. congruence.
  - reflexivity.
  - exact E.
  - exact Hc.
Defined.

End Runs.
