(* ===== verification/Authority.v ===== *)
(** * Authorities and the authority checker

    [authority.hpp], [authority_checker.hpp] and the permission levels of
    [action.hpp] of [libraries/chain]: weighted thresholds over keys, other
    permissions and delays, and the evaluation that decides whether a set of
    keys satisfies one. *)

From Stdlib Require Import ZArith Lia Bool.
From stdpp Require Import base numbers gmap sorting list.
From S2P Require Import Prelude BlockHeader.

Open Scope Z_scope.

(** ** Permission levels *)

(** [permission_level]: the actor and the permission name. *)
Notation permission_level := (Z * Z)%type (only parsing).

Definition level_ltb (a b : permission_level) : bool :=
  (a.1 <? b.1) || ((a.1 =? b.1) && (a.2 <? b.2)).
Definition level_geb (a b : permission_level) : bool := negb (level_ltb a b).

(** ** Authorities *)

Record permission_level_weight := mk_level_weight { plw_permission : permission_level; plw_weight : Z }.
Record key_weight := mk_key_weight { kw_key : public_key_type; kw_weight : Z }.
Record wait_weight := mk_wait_weight { ww_wait_sec : Z; ww_weight : Z }.

Record authority := mk_authority {
  threshold : Z;
  keys : list key_weight;
  accounts : list permission_level_weight;
  waits : list wait_weight
}.

(** [authority( key, delay_sec )]. *)
Definition authority_of_key (k : public_key_type) (delay_sec : Z) : authority :=
  if 0 <? delay_sec then mk_authority 2 [mk_key_weight k 1] [] [mk_wait_weight delay_sec 1]
  else mk_authority 1 [mk_key_weight k 1] [] [].

Definition billable_size_permission_level_weight : Z := 24.
Definition billable_size_key_weight : Z := 8.
Definition billable_size_wait_weight : Z := 16.

(** [get_billable_size]; [pack_size] is the serialized size of a key. *)
Definition get_billable_size (pack_size : public_key_type -> Z) (a : authority) : Z :=
  let accounts_size := u64 (Z.of_nat (length (accounts a)) * billable_size_permission_level_weight) in
  let waits_size := u64 (Z.of_nat (length (waits a)) * billable_size_wait_weight) in
  let keys_size :=
    fold_left (fun s k => u64 (u64 (s + billable_size_key_weight) + pack_size (kw_key k))) (keys a) 0 in
  u64 (u64 (accounts_size + waits_size) + keys_size).

(** The loops of [validate]: [prev] is the previous element; the result is the
    sum of the weights, or nothing when the order is violated. *)
Fixpoint sum_keys (prev : option key_weight) (total : Z) (l : list key_weight) : option Z :=
  match l with
  | [] => Some total
  | k :: l =>
      if match prev with Some p => negb (kw_key p <? kw_key k) | None => false end then None
      else sum_keys (Some k) (u32 (total + kw_weight k)) l
  end.

Fixpoint sum_accounts (prev : option permission_level_weight) (total : Z)
    (l : list permission_level_weight) : option Z :=
  match l with
  | [] => Some total
  | a :: l =>
      if match prev with Some p => level_geb (plw_permission p) (plw_permission a) | None => false end
      then None
      else sum_accounts (Some a) (u32 (total + plw_weight a)) l
  end.

Fixpoint sum_waits (prev : option wait_weight) (total : Z) (l : list wait_weight) : option Z :=
  match l with
  | [] => Some total
  | w :: l =>
      if match prev with Some p => ww_wait_sec w <=? ww_wait_sec p | None => false end then None
      else sum_waits (Some w) (u32 (total + ww_weight w)) l
  end.

Definition authority_size (a : authority) : Z :=
  Z.of_nat (length (keys a) + length (accounts a) + length (waits a)).

Definition validate (a : authority) : bool :=
  if 2 ^ 16 <? authority_size a then false
  else if threshold a =? 0 then false
  else
    match sum_keys None 0 (keys a) with
    | None => false
    | Some total =>
        match sum_accounts None total (accounts a) with
        | None => false
        | Some total =>
            if match waits a with w :: _ => ww_wait_sec w =? 0 | [] => false end then false
            else match sum_waits None total (waits a) with
                 | None => false
                 | Some total => threshold a <=? total
                 end
        end
    end.

(** ** The checker *)

Inductive meta_permission :=
| meta_level (p : permission_level_weight)
| meta_key (k : key_weight)
| meta_wait (w : wait_weight).

(** [which()] and the weight of a [meta_permission]. *)
Definition which (m : meta_permission) : Z :=
  match m with meta_level _ => 0 | meta_key _ => 1 | meta_wait _ => 2 end.
Definition get_weight (m : meta_permission) : Z :=
  match m with meta_level p => plw_weight p | meta_key k => kw_weight k | meta_wait w => ww_weight w end.

(** [meta_permission_comparator]. *)
Definition meta_before (a b : meta_permission) : bool :=
  (get_weight b <? get_weight a) || ((get_weight a =? get_weight b) && (which b <? which a)).

(** The iteration order of the [flat_multiset] of permissions; the order of
    equal ones is left open. *)
Class MetaOrder := meta_sort : list meta_permission -> list meta_permission.

Class MetaOrderLaws `{MetaOrder} : Prop := {
  meta_sort_perm l : meta_sort l ≡ₚ l;
  meta_sort_sorted l : StronglySorted (fun a b => meta_before b a = false) (meta_sort l)
}.

Inductive permission_cache_status := being_evaluated | permission_unsatisfied | permission_satisfied.

#[export] Instance permission_cache_status_eq_dec : EqDecision permission_cache_status.
Proof. solve_decision. Defined.

Notation permission_cache_type := (gmap (Z * Z) permission_cache_status) (only parsing).

Record authority_checker := mk_checker {
  provided_keys : list public_key_type;
  provided_permissions : list permission_level;
  used_flags : list bool;
  provided_delay : Z; (* microseconds *)
  recursion_depth_limit : nat
}.

(** The constructor; the key and permission sets are given in order. *)
Definition make_auth_checker (limit : nat) (ks : list public_key_type)
    (ps : list permission_level) (delay : Z) : authority_checker :=
  mk_checker ks ps (replicate (length ks) false) delay limit.

Definition all_keys_used (c : authority_checker) : bool := forallb (fun b => b) (used_flags c).

Definition filter_data_by_marker (data : list public_key_type) (markers : list bool) (v : bool) :
    list public_key_type :=
  snd <$> filter (fun p => p.1 = v) (zip markers data).

Definition used_keys (c : authority_checker) : list public_key_type :=
  filter_data_by_marker (provided_keys c) (used_flags c) true.
Definition unused_keys (c : authority_checker) : list public_key_type :=
  filter_data_by_marker (provided_keys c) (used_flags c) false.

Definition permission_status_in_cache (permissions : permission_cache_type) (level : permission_level) :
    option permission_cache_status :=
  match permissions !! level with
  | Some s => Some s
  | None => permissions !! (level.1, 0)
  end.

Definition initialize_permission_cache (c : authority_checker) : permission_cache_type :=
  fold_left (fun m p => <[p := permission_satisfied]> m) (provided_permissions c) ∅.

(** What an evaluation changes: the marks of the used keys and the cache. *)
Record eval_state := mk_eval { es_used : list bool; es_cache : permission_cache_type }.

Section Checker.
Context `{MetaOrder}.
(** [permission_to_authority], which throws [permission_query_exception] for a
    permission that does not exist. *)
Context (permission_to_authority : permission_level -> result authority).
Context (c : authority_checker).

Definition find_key (k : public_key_type) : option nat :=
  fst <$> list_find (fun k' => k' = k) (provided_keys c).

Definition visit_wait (total : Z) (w : wait_weight) : Z :=
  if ww_wait_sec w * 1000000 <=? provided_delay c then u32 (total + ww_weight w) else total.

Definition visit_key (total : Z) (k : key_weight) (st : eval_state) : Z * eval_state :=
  match find_key (kw_key k) with
  | Some i => (u32 (total + kw_weight k), mk_eval (<[i := true]> (es_used st)) (es_cache st))
  | None => (total, st)
  end.

(** [rec] evaluates an authority one level deeper; there is none at the depth
    limit. *)
Definition visit_level (rec : option (authority -> eval_state -> result (bool * eval_state)))
    (total : Z) (p : permission_level_weight) (st : eval_state) : result (Z * eval_state) :=
  match permission_status_in_cache (es_cache st) (plw_permission p) with
  | None =>
      match rec with
      | None => mret (total, st)
      | Some rec =>
          match permission_to_authority (plw_permission p) with
          | Err permission_query_exception => mret (total, st)
          | Err e => Err e
          | Ok auth =>
              let st := mk_eval (es_used st) (<[plw_permission p := being_evaluated]> (es_cache st)) in
              '(r, st) ← rec auth st;
              if (r : bool) then
                mret (u32 (total + plw_weight p),
                      mk_eval (es_used st) (<[plw_permission p := permission_satisfied]> (es_cache st)))
              else
                mret (total,
                      mk_eval (es_used st) (<[plw_permission p := permission_unsatisfied]> (es_cache st)))
          end
      end
  | Some permission_satisfied => mret (u32 (total + plw_weight p), st)
  | Some _ => mret (total, st)
  end.

Definition visit (rec : option (authority -> eval_state -> result (bool * eval_state)))
    (total : Z) (m : meta_permission) (st : eval_state) : result (Z * eval_state) :=
  match m with
  | meta_wait w => mret (visit_wait total w, st)
  | meta_key k => mret (visit_key total k st)
  | meta_level p => visit_level rec total p st
  end.

(** The loop over the permissions, from the highest weight on. *)
Fixpoint tally (rec : option (authority -> eval_state -> result (bool * eval_state)))
    (thr : Z) (total : Z) (ms : list meta_permission) (st : eval_state) : result (bool * eval_state) :=
  match ms with
  | [] => mret (false, st)
  | m :: ms =>
      '(total, st) ← visit rec total m st;
      if thr <=? total then mret (true, st) else tally rec thr total ms st
  end.

Definition permissions (a : authority) : list meta_permission :=
  meta_sort ((meta_wait <$> waits a) ++ (meta_key <$> keys a) ++ (meta_level <$> accounts a)).

(** [satisfied( authority, cached_permissions, depth )]; [n] is the number of
    levels left below the depth limit. The marks of the used keys are restored
    when the authority is not satisfied. *)
Fixpoint satisfied_at (n : nat) (a : authority) (st : eval_state) : result (bool * eval_state) :=
  '(r, st') ← tally (match n with O => None | S n' => Some (satisfied_at n') end)
                (threshold a) 0 (permissions a) st;
  mret (if (r : bool) then (true, st') else (false, mk_eval (es_used st) (es_cache st'))).

Definition with_used (used : list bool) : authority_checker :=
  mk_checker (provided_keys c) (provided_permissions c) used (provided_delay c) (recursion_depth_limit c).

(** [satisfied( authority, cached_perms )]; without a given cache it starts from
    the provided permissions. *)
Definition satisfied (a : authority) (cached_perms : option permission_cache_type) :
    result (bool * authority_checker) :=
  let cache := default (initialize_permission_cache c) cached_perms in
  '(r, st) ← satisfied_at (recursion_depth_limit c) a (mk_eval (used_flags c) cache);
  mret (r, with_used (es_used st)).

(** [satisfied( permission, cached_perms )]. *)
Definition satisfied_permission (p : permission_level) (cached_perms : option permission_cache_type) :
    result (bool * authority_checker) :=
  let cache := default (initialize_permission_cache c) cached_perms in
  let rec := match recursion_depth_limit c with O => None | S n' => Some (satisfied_at n') end in
  '(total, st) ← visit_level rec 0 (mk_level_weight p 1) (mk_eval (used_flags c) cache);
  mret (0 <? total, with_used (es_used st)).

End Checker.

Section Delays.
Context `{MetaOrder}.
Context (permission_to_authority : permission_level -> result authority).

Definition with_delay (c : authority_checker) (d : Z) : authority_checker :=
  mk_checker (provided_keys c) (provided_permissions c) (used_flags c) d (recursion_depth_limit c).

(** The overloads that replace the provided delay for one evaluation. *)
Definition satisfied_with_delay (c : authority_checker) (a : authority) (delay : Z) :
    result (bool * authority_checker) :=
  '(r, c') ← satisfied permission_to_authority (with_delay c delay) a None;
  mret (r, with_delay c' (provided_delay c)).

Definition satisfied_permission_with_delay (c : authority_checker) (p : permission_level) (delay : Z) :
    result (bool * authority_checker) :=
  '(r, c') ← satisfied_permission permission_to_authority (with_delay c delay) p None;
  mret (r, with_delay c' (provided_delay c)).

End Delays.
