(* ===== verification/AuthorityProofs.v ===== *)
(** * Properties of authorities and their checker

    What [validate] accepts, soundness of the checker with respect to the
    authorities as weighted thresholds, and exactness on authorities that do
    not recurse ([Authority.v] has the model). *)

From Stdlib Require Import ZArith Lia Bool Sorted.
From stdpp Require Import base numbers gmap sorting sets list.
From S2P Require Import Prelude BlockHeader Authority.

Open Scope Z_scope.

(** ** Weights *)

Definition metas (a : authority) : list meta_permission :=
  (meta_wait <$> waits a) ++ (meta_key <$> keys a) ++ (meta_level <$> accounts a).

Definition sum_weights (ms : list meta_permission) : Z := fold_right (fun m s => get_weight m + s) 0 ms.

Definition total_weight (a : authority) : Z := sum_weights (metas a).

Lemma sum_weights_app ms ms' : sum_weights (ms ++ ms') = sum_weights ms + sum_weights ms'.
Proof. induction ms as [|m ms IH]; simpl; lia. Qed.

#[export] Instance sum_weights_proper : Proper ((≡ₚ) ==> (=)) sum_weights.
Proof. induction 1; simpl; lia. Qed.

(** Weights are 16-bit, waits and the threshold 32-bit values. *)
Record authority_typed (a : authority) : Prop := {
  at_weights m : m ∈ metas a -> 0 <= get_weight m < 2 ^ 16;
  at_waits w : w ∈ waits a -> 0 <= ww_wait_sec w;
  at_threshold : 0 <= threshold a
}.

Lemma sum_weights_bound ms :
  (forall m, m ∈ ms -> 0 <= get_weight m < 2 ^ 16) ->
  0 <= sum_weights ms <= Z.of_nat (length ms) * (2 ^ 16 - 1).
Proof.
  intros Hw. induction ms as [|m ms IH]; simpl; [lia|].
  specialize (IH ltac:(intros m' Hm'; apply Hw; by right)).
  pose proof (Hw m ltac:(by left)). lia.
Qed.

Lemma length_metas a : Z.of_nat (length (metas a)) = authority_size a.
Proof. unfold metas, authority_size. rewrite !length_app, !length_fmap. lia. Qed.

(** ** Validation *)

(** The common shape of the three loops of [validate]. *)
Section SumLoop.
Context {A : Type} (out_of_order : A -> A -> bool) (w : A -> Z).

Fixpoint sum_loop (prev : option A) (total : Z) (l : list A) : option Z :=
  match l with
  | [] => Some total
  | x :: l =>
      if match prev with Some p => out_of_order p x | None => false end then None
      else sum_loop (Some x) (u32 (total + w x)) l
  end.

Definition sum_of (l : list A) : Z := fold_right (fun x s => w x + s) 0 l.

Lemma sum_of_nonneg l : (forall x, x ∈ l -> 0 <= w x) -> 0 <= sum_of l.
Proof.
  intros Hl. induction l as [|x l IH]; simpl; [lia|].
  pose proof (Hl x ltac:(by left)). specialize (IH ltac:(intros y Hy; apply Hl; by right)). lia.
Qed.

Lemma sum_loop_spec prev total l t :
  (forall x, x ∈ l -> 0 <= w x) -> 0 <= total -> total + sum_of l < 2 ^ 32 ->
  sum_loop prev total l = Some t <->
  Sorted (fun x y => out_of_order x y = false) (option_list prev ++ l) /\ t = total + sum_of l.
Proof.
  intros Hw. revert prev total. induction l as [|x l IH]; intros prev total Ht Hs; simpl.
  - rewrite Z.add_0_r, app_nil_r. destruct prev; simpl; naive_solver.
  - simpl in Hs. pose proof (Hw x ltac:(by left)).
    assert (0 <= sum_of l) as Hl by (apply sum_of_nonneg; set_solver).
    rewrite u32_small by (unfold is_u32; lia).
    assert (sum_loop (Some x) (total + w x) l = Some t <->
      Sorted (fun x y => out_of_order x y = false) (x :: l) /\ t = total + (w x + sum_of l)) as Hrec.
    { rewrite IH; [|set_solver|lia|lia]. simpl. rewrite Z.add_assoc. done. }
    destruct prev as [p|]; simpl.
    + destruct (out_of_order p x) eqn:E.
      * split; [done|]. intros [Hso _]. apply Sorted_inv in Hso as [_ Hh]. apply HdRel_inv in Hh. congruence.
      * rewrite Hrec. split.
        -- intros [Hso ->]. split; [|done]. constructor; [done|by constructor].
        -- intros [Hso ->]. apply Sorted_inv in Hso as [Hso _]. done.
    + by rewrite Hrec.
Qed.

(** The loop from the start of a list. *)
Lemma sum_loop_cases total l :
  (forall x, x ∈ l -> 0 <= w x) -> 0 <= total -> total + sum_of l < 2 ^ 32 ->
  match sum_loop None total l with
  | Some t => Sorted (fun x y => out_of_order x y = false) l /\ t = total + sum_of l
  | None => ~ Sorted (fun x y => out_of_order x y = false) l
  end.
Proof.
  intros Hw Ht Hs. destruct (sum_loop None total l) as [t|] eqn:E.
  - by apply sum_loop_spec in E.
  - intros Hso. assert (sum_loop None total l = Some (total + sum_of l)) as E'
      by (apply sum_loop_spec; done). congruence.
Qed.

End SumLoop.

Lemma sum_keys_loop prev total l :
  sum_keys prev total l = sum_loop (fun p k => negb (kw_key p <? kw_key k)) kw_weight prev total l.
Proof. revert prev total. induction l as [|k l IH]; intros; simpl; [done|]. by rewrite IH. Qed.
Lemma sum_accounts_loop prev total l :
  sum_accounts prev total l =
  sum_loop (fun p a => level_geb (plw_permission p) (plw_permission a)) plw_weight prev total l.
Proof. revert prev total. induction l as [|k l IH]; intros; simpl; [done|]. by rewrite IH. Qed.
Lemma sum_waits_loop prev total l :
  sum_waits prev total l = sum_loop (fun p w => ww_wait_sec w <=? ww_wait_sec p) ww_weight prev total l.
Proof. revert prev total. induction l as [|k l IH]; intros; simpl; [done|]. by rewrite IH. Qed.

Lemma sum_weights_fmap {A} (f : A -> meta_permission) (w : A -> Z) l :
  (forall x, get_weight (f x) = w x) -> sum_weights (f <$> l) = sum_of w l.
Proof.
  intros Hf. induction l as [|x l IH]; [done|].
  change (get_weight (f x) + sum_weights (f <$> l) = w x + sum_of w l). by rewrite Hf, IH.
Qed.

Lemma total_weight_parts a :
  total_weight a = sum_of kw_weight (keys a) + sum_of plw_weight (accounts a) + sum_of ww_weight (waits a).
Proof.
  unfold total_weight, metas. rewrite !sum_weights_app.
  rewrite (sum_weights_fmap meta_wait ww_weight), (sum_weights_fmap meta_key kw_weight),
    (sum_weights_fmap meta_level plw_weight) by done. lia.
Qed.

(** The sorting conditions of the comment on [validate]. *)
Record authority_sorted (a : authority) : Prop := {
  as_keys : Sorted (fun k k' => kw_key k < kw_key k') (keys a);
  as_accounts : Sorted (fun p p' => level_ltb (plw_permission p) (plw_permission p') = true) (accounts a);
  as_waits : Sorted (fun w w' => ww_wait_sec w < ww_wait_sec w') (waits a);
  as_first_wait : Forall (fun w => 0 < ww_wait_sec w) (option_list (List.hd_error (waits a)))
}.

Lemma Sorted_iff {A} (R S : A -> A -> Prop) l : (forall x y, R x y <-> S x y) -> Sorted R l <-> Sorted S l.
Proof.
  intros Heq. split; induction 1 as [|x l Hs IH Hh]; constructor; try done;
    destruct Hh; constructor; by apply Heq.
Qed.

Lemma validate_accepts a :
  authority_typed a ->
  validate a = true <->
  authority_size a <= 2 ^ 16 /\ 0 < threshold a <= total_weight a /\ authority_sorted a.
Proof.
  intros Ha.
  destruct Ha as [Hw Hwt Hthr]. unfold validate.
  destruct (Z.ltb_spec (2 ^ 16) (authority_size a)) as [Hsz|Hsz]; [split; [done|lia]|].
  destruct (Z.eqb_spec (threshold a) 0) as [Ht|Ht]; [split; [done|lia]|].
  pose proof (sum_weights_bound (metas a) Hw) as Hb. rewrite length_metas in Hb.
  fold (total_weight a) in Hb. rewrite total_weight_parts in *.
  assert (forall k, k ∈ keys a -> 0 <= kw_weight k) as Hk.
  { intros k Hin. apply (Hw (meta_key k)). unfold metas. rewrite !elem_of_app.
    right; left. by apply list_elem_of_fmap_2. }
  assert (forall p, p ∈ accounts a -> 0 <= plw_weight p) as Hp.
  { intros p Hin. apply (Hw (meta_level p)). unfold metas. rewrite !elem_of_app.
    right; right. by apply list_elem_of_fmap_2. }
  assert (forall w, w ∈ waits a -> 0 <= ww_weight w) as Hww.
  { intros w Hin. apply (Hw (meta_wait w)). unfold metas. rewrite !elem_of_app.
    left. by apply list_elem_of_fmap_2. }
  pose proof (sum_of_nonneg kw_weight _ Hk) as Hk0. pose proof (sum_of_nonneg plw_weight _ Hp) as Hp0.
  pose proof (sum_of_nonneg ww_weight _ Hww) as Hw0.
  assert (Sorted (fun x y => negb (kw_key x <? kw_key y) = false) (keys a) <->
    Sorted (fun k k' => kw_key k < kw_key k') (keys a)) as Sk.
  { apply Sorted_iff. intros x y. rewrite negb_false_iff. apply Z.ltb_lt. }
  assert (Sorted (fun x y => level_geb (plw_permission x) (plw_permission y) = false) (accounts a) <->
    Sorted (fun p p' => level_ltb (plw_permission p) (plw_permission p') = true) (accounts a)) as Sp.
  { apply Sorted_iff. intros x y. unfold level_geb. apply negb_false_iff. }
  assert (Sorted (fun x y => (ww_wait_sec y <=? ww_wait_sec x) = false) (waits a) <->
    Sorted (fun w w' => ww_wait_sec w < ww_wait_sec w') (waits a)) as Sw.
  { apply Sorted_iff. intros x y. apply Z.leb_gt. }
  rewrite sum_keys_loop.
  pose proof (sum_loop_cases (fun p k => negb (kw_key p <? kw_key k)) kw_weight 0 (keys a) Hk ltac:(lia) ltac:(lia)) as C1.
  destruct (sum_loop _ kw_weight None 0 (keys a)) as [t1|];
    [|split; [done|]; intros (_ & _ & [? _ _ _]); by apply Sk in as_keys0].
  destruct C1 as [S1 ->]. rewrite sum_accounts_loop.
  pose proof (sum_loop_cases (fun p a => level_geb (plw_permission p) (plw_permission a)) plw_weight
    (0 + sum_of kw_weight (keys a)) (accounts a) Hp ltac:(lia) ltac:(lia)) as C2.
  destruct (sum_loop _ plw_weight None _ (accounts a)) as [t2|];
    [|split; [done|]; intros (_ & _ & [_ ? _ _]); by apply Sp in as_accounts0].
  destruct C2 as [S2 ->]. rewrite sum_waits_loop.
  pose proof (sum_loop_cases (fun p w => ww_wait_sec w <=? ww_wait_sec p) ww_weight
    (0 + sum_of kw_weight (keys a) + sum_of plw_weight (accounts a)) (waits a) Hww ltac:(lia) ltac:(lia)) as C3.
  destruct (sum_loop _ ww_weight None _ (waits a)) as [t3|].
  - destruct C3 as [S3 ->]. apply Sk in S1. apply Sp in S2. apply Sw in S3.
    destruct (waits a) as [|w ws] eqn:Ew.
    + rewrite Z.leb_le. split.
      * intros Hle. split_and!; [lia|lia|lia|]. constructor; rewrite ?Ew; simpl; by constructor || done.
      * lia.
    + pose proof (Hwt w ltac:(by left)). destruct (Z.eqb_spec (ww_wait_sec w) 0) as [Hz|Hz].
      * split; [done|]. intros (_ & _ & [_ _ _ Hf]). rewrite Ew in Hf. simpl in Hf.
        apply Forall_cons in Hf as [Hf _]. lia.
      * rewrite Z.leb_le. split; [|lia]. intros Hle. split_and!; [lia|lia|lia|].
        constructor; rewrite ?Ew; try done. simpl. apply Forall_singleton. lia.
  - split; [by destruct (match waits a with [] => _ | _ => _ end)|].
    intros (_ & _ & [_ _ Hs _]). by apply Sw in Hs.
Qed.

(** [validate] accepts exactly the authorities with at most 65536 entries,
    a positive threshold that the weights can reach together, and keys,
    permissions and waits strictly sorted with no zero wait; the 32-bit sum of
    the weights never wraps. *)
Theorem validate_exact a (Ha : authority_typed a) :
  validate a = true <->
  authority_size a <= 2 ^ 16 /\ 0 < threshold a <= total_weight a /\ authority_sorted a.
Proof. by apply validate_accepts. Qed.

Definition key_and_account : authority :=
  mk_authority 3 [mk_key_weight 10 1; mk_key_weight 20 2] [mk_level_weight (7, 1) 2] [mk_wait_weight 60 1].

Lemma key_and_account_typed : authority_typed key_and_account.
Proof.
  constructor.
  - intros m Hm. unfold metas in Hm. simpl in Hm.
    repeat (apply elem_of_cons in Hm as [->|Hm]; [vm_compute; intuition congruence|]).
    by apply elem_of_nil in Hm.
  - intros w Hw. simpl in Hw. apply list_elem_of_singleton in Hw as ->. vm_compute. congruence.
  - vm_compute. congruence.
Qed.

Lemma validate_exact_witness :
  authority_size key_and_account <= 2 ^ 16 /\
  0 < threshold key_and_account <= total_weight key_and_account /\ authority_sorted key_and_account.
Proof. apply (validate_exact key_and_account key_and_account_typed). vm_compute. reflexivity. Defined.

(** ** Soundness *)

Section Sound.
Context `{MetaOrderLaws}.
Context (permission_to_authority : Z * Z -> result authority).
Context (c : authority_checker).

(** A permission the caller brings along, or all permissions of its actor. *)
Definition provided (p : Z * Z) : Prop :=
  p ∈ provided_permissions c \/ (p.1, 0) ∈ provided_permissions c.

(** What it means for a permission to be granted: it is provided, or its
    authority has entries whose weights reach the threshold and each of which
    holds: a provided key, a delay that has passed, or a permission that is
    itself granted. *)
Inductive granted : Z * Z -> Prop :=
| granted_provided p : provided p -> granted p
| granted_authority p a ms :
    permission_to_authority p = Ok a -> ms ⊆+ metas a -> threshold a <= sum_weights ms ->
    (forall k, meta_key k ∈ ms -> kw_key k ∈ provided_keys c) ->
    (forall w, meta_wait w ∈ ms -> ww_wait_sec w * 1000000 <= provided_delay c) ->
    (forall l, meta_level l ∈ ms -> granted (plw_permission l)) ->
    granted p.

Definition met (m : meta_permission) : Prop :=
  match m with
  | meta_key k => kw_key k ∈ provided_keys c
  | meta_wait w => ww_wait_sec w * 1000000 <= provided_delay c
  | meta_level l => granted (plw_permission l)
  end.

(** The authority as a weighted threshold. *)
Definition meets (a : authority) : Prop :=
  exists ms, ms ⊆+ metas a /\ threshold a <= sum_weights ms /\ Forall met ms.

Lemma meets_granted p a : permission_to_authority p = Ok a -> meets a -> granted p.
Proof.
  intros Hp (ms & Hs & Ht & Hm). rewrite Forall_forall in Hm.
  eapply granted_authority; [done|done|done|..]; intros x Hx; exact (Hm _ Hx).
Qed.

(** What the cache marks satisfied is granted; an entry for all permissions of
    an actor only comes from the caller. *)
Definition cache_sound (m : gmap (Z * Z) permission_cache_status) : Prop := forall p,
  m !! p = Some permission_satisfied -> granted p /\ (p.2 = 0 -> p ∈ provided_permissions c).

Lemma cache_sound_status m p :
  cache_sound m -> permission_status_in_cache m p = Some permission_satisfied -> granted p.
Proof.
  intros Hm. unfold permission_status_in_cache. destruct (m !! p) as [s|] eqn:E.
  - intros [= ->]. by apply Hm.
  - intros E'. apply Hm in E' as [_ Hp]. apply granted_provided. right. by apply Hp.
Qed.

Lemma cache_sound_insert m p s :
  cache_sound m -> (s = permission_satisfied -> granted p /\ p.2 <> 0) -> cache_sound (<[p := s]> m).
Proof.
  intros Hm Hs q Hq. apply lookup_insert_Some in Hq as [[<- ->]|[_ Hq]]; [|by apply Hm].
  destruct (Hs eq_refl) as [Hg Hn]. done.
Qed.

Lemma initialize_cache_sound : cache_sound (initialize_permission_cache c).
Proof.
  unfold initialize_permission_cache.
  assert (forall l m, (forall p, p ∈ l -> p ∈ provided_permissions c) -> cache_sound m ->
    cache_sound (fold_left (fun m p => <[p := permission_satisfied]> m) l m)) as Hg.
  { induction l as [|p l IH]; intros m Hl Hm; simpl; [done|]. apply IH; [set_solver|].
    intros q Hq. apply lookup_insert_Some in Hq as [[<- _]|[_ Hq]]; [|by apply Hm].
    assert (p ∈ provided_permissions c) by (apply Hl; by left). split; [|done].
    apply granted_provided. by left. }
  apply Hg; [done|]. intros p Hp. by rewrite lookup_empty in Hp.
Qed.

(** A permission without a name has no authority. *)
Hypothesis no_empty_permission : forall a, is_Ok (permission_to_authority (a, 0)) = false.

(** Every authority the evaluation meets has unsigned weights. *)
Hypothesis weights_unsigned : forall p a, permission_to_authority p = Ok a ->
  forall m, m ∈ metas a -> 0 <= get_weight m.

(** What [visit_level] needs of the evaluation one level deeper. *)
Definition rec_sound (rec : option (authority -> eval_state -> result (bool * eval_state))) : Prop :=
  forall f a st r st', rec = Some f -> (forall m, m ∈ metas a -> 0 <= get_weight m) ->
    cache_sound (es_cache st) -> f a st = Ok (r, st') ->
    cache_sound (es_cache st') /\ (r = true -> meets a).

Lemma visit_sound rec total m st total' st' :
  rec_sound rec -> cache_sound (es_cache st) -> visit permission_to_authority c rec total m st = Ok (total', st') ->
  cache_sound (es_cache st') /\ (total' = total \/ (total' = u32 (total + get_weight m) /\ met m)).
Proof.
  intros Hrec Hc E. destruct m as [p|k|w]; cbn [visit get_weight] in *.
  - unfold visit_level in E.
    destruct (permission_status_in_cache (es_cache st) (plw_permission p)) as [s|] eqn:Es.
    { destruct s; injection E as <- <-; [by auto|by auto|]. split; [done|right]. split; [done|].
      by eapply cache_sound_status. }
    destruct rec as [f|]; [|injection E as <- <-; auto].
    destruct (permission_to_authority (plw_permission p)) as [a|e] eqn:Ea.
    + apply bind_Ok in E as ([r st1] & Ef & E).
      apply (Hrec f) in Ef as [Hc1 Hr]; [|done|by eapply weights_unsigned|by apply cache_sound_insert].
      destruct r; injection E as <- <-; cbn [es_cache].
      * assert (granted (plw_permission p)) as Hg by (eapply meets_granted; [done|auto]).
        assert ((plw_permission p).2 <> 0) as Hne.
        { intros Hz0. pose proof (no_empty_permission (plw_permission p).1) as Hno.
          rewrite <- Hz0, <- surjective_pairing, Ea in Hno. done. }
        split; [by apply cache_sound_insert|right; done].
      * split; [by apply cache_sound_insert|by left].
    + destruct e; try done. injection E as <- <-. auto.
  - unfold visit_key, find_key in E. destruct (list_find _ _) as [[i k']|] eqn:Ef; simpl in E.
    + injection E as <- <-. split; [done|right; split; [done|]]. simpl.
      apply list_find_Some in Ef as (Hi & <- & _). by eapply list_elem_of_lookup_2.
    + injection E as <- <-. auto.
  - injection E as <- <-. split; [done|]. unfold visit_wait.
    destruct (Z.leb_spec (ww_wait_sec w * 1000000) (provided_delay c)); [right|left]; done.
Qed.

Lemma u32_le z : 0 <= z -> u32 z <= z.
Proof. intros Hz. apply Z.mod_le; [done|lia]. Qed.

Lemma tally_sound rec thr total ms st r st' seen :
  rec_sound rec -> cache_sound (es_cache st) -> (forall m, m ∈ ms -> 0 <= get_weight m) ->
  0 <= total <= sum_weights seen -> Forall met seen ->
  tally permission_to_authority c rec thr total ms st = Ok (r, st') ->
  cache_sound (es_cache st') /\
  (r = true -> exists sub, sub ⊆+ ms /\ thr <= sum_weights (seen ++ sub) /\ Forall met (seen ++ sub)).
Proof.
  intros Hrec. revert total st seen. induction ms as [|m ms IH]; intros total st seen Hc Hw Ht Hs E;
    cbn [tally] in E.
  { by injection E as <- <-. }
  apply bind_Ok in E as ([total' st1] & Ev & E).
  pose proof (Hw m ltac:(by left)) as Hm0.
  apply visit_sound in Ev as [Hc1 Hcase]; [|done|done].
  assert (exists seen', (seen' = seen \/ seen' = seen ++ [m]) /\ 0 <= total' <= sum_weights seen' /\
    Forall met seen') as (seen' & Hsn & Ht' & Hs').
  { destruct Hcase as [->|[-> Hm]]; [exists seen; auto|]. exists (seen ++ [m]). split_and!; [by right| | |].
    - apply u32_is_u32.
    - rewrite sum_weights_app. simpl. pose proof (u32_le (total + get_weight m) ltac:(lia)). lia.
    - apply Forall_app. split; [done|]. by apply Forall_singleton. }
  assert (forall sub, sub ⊆+ ms -> exists sub', sub' ⊆+ m :: ms /\ seen ++ sub' = seen' ++ sub) as Hsub.
  { intros sub Hss. destruct Hsn as [->| ->].
    - exists sub. split; [by apply submseteq_cons|done].
    - exists (m :: sub). split; [by apply submseteq_skip|]. by rewrite <- app_assoc. }
  destruct (Z.leb_spec thr total') as [Hle|Hgt].
  - injection E as <- <-. split; [done|]. intros _.
    destruct (Hsub [] ltac:(apply submseteq_nil_l)) as (sub' & Hs1 & Heq).
    exists sub'. rewrite Heq, app_nil_r. split_and!; [done|lia|done].
  - apply (IH total' st1 seen') in E as [Hc2 Hr]; [|done|intros x Hx; apply Hw; by right|done|done].
    split; [done|]. intros ->. destruct (Hr eq_refl) as (sub & Hss & Hthr & Hf).
    destruct (Hsub sub Hss) as (sub' & Hs1 & Heq). exists sub'. by rewrite Heq.
Qed.

Lemma satisfied_at_sound n a st r st' :
  (forall m, m ∈ metas a -> 0 <= get_weight m) -> cache_sound (es_cache st) ->
  satisfied_at permission_to_authority c n a st = Ok (r, st') ->
  cache_sound (es_cache st') /\ (r = true -> meets a).
Proof.
  revert a st r st'. induction n as [|n IH]; intros a st r st' Hw Hc E; cbn [satisfied_at] in E;
    apply bind_Ok in E as ([r1 st1] & Et & E).
  all: apply (tally_sound _ _ _ _ _ _ _ []) in Et as [Hc1 Hr];
    [|intros f a' st0 r0 st0' Hf ? ? ?; try done; injection Hf as <-; by eapply IH
     |done|intros m; unfold permissions; rewrite meta_sort_perm; apply Hw|done|constructor].
  all: assert (cache_sound (es_cache st') /\ r = r1) as [Hc' ->] by (destruct r1; by injection E as <- <-).
  all: split; [done|]; intros ->; destruct (Hr eq_refl) as (sub & Hs & Ht & Hf); exists sub.
  all: split_and!; [|done|done]; unfold permissions in Hs; by rewrite meta_sort_perm in Hs.
Qed.

(** The checker grants nothing that the authorities do not: when it reports
    an authority satisfied by a fresh evaluation, the authority is met as a
    weighted threshold over the provided keys, the provided permissions and the
    delay, with every permission it counted granted in turn; caching, the depth
    limit and the early exit cannot make it say yes wrongly. *)
Theorem satisfied_sound a r c'
  (Hw : forall m, m ∈ metas a -> 0 <= get_weight m)
  (E : satisfied permission_to_authority c a None = Ok (r, c')) :
  r = true -> meets a.
Proof.
  unfold satisfied in E. simpl default in E. apply bind_Ok in E as ([r1 st1] & Es & E).
  injection E as -> _. apply satisfied_at_sound in Es as [_ Hr]; [done|done|apply initialize_cache_sound].
Qed.

Lemma satisfied_permission_sound_lemma p r c' :
  satisfied_permission permission_to_authority c p None = Ok (r, c') -> r = true -> granted p.
Proof.
  unfold satisfied_permission. simpl default. intros E. apply bind_Ok in E as ([t st1] & Ev & E).
  injection E as <- _. intros Ht. apply Z.ltb_lt in Ht.
  change (visit_level permission_to_authority ?rec 0 (mk_level_weight p 1) ?st)
    with (visit permission_to_authority c rec 0 (meta_level (mk_level_weight p 1)) st) in Ev.
  apply visit_sound in Ev as [_ [->|[_ Hm]]]; [lia|done| |apply initialize_cache_sound].
  intros f a st r st' Hf Hw Hc E. destruct (recursion_depth_limit c) as [|n]; [done|].
  injection Hf as <-. by eapply satisfied_at_sound.
Qed.

End Sound.

(** ** Exactness without recursion *)

Section Flat.
Context `{MetaOrderLaws}.
Context (permission_to_authority : Z * Z -> result authority).
Context (c : authority_checker).

Definition provided_b (p : Z * Z) : bool :=
  bool_decide (p ∈ provided_permissions c) || bool_decide ((p.1, 0) ∈ provided_permissions c).

Definition available (m : meta_permission) : bool :=
  match m with
  | meta_key k => bool_decide (kw_key k ∈ provided_keys c)
  | meta_wait w => ww_wait_sec w * 1000000 <=? provided_delay c
  | meta_level l => provided_b (plw_permission l)
  end.

(** Every permission the authority mentions is provided. *)
Definition flat (ms : list meta_permission) : Prop :=
  forall l, meta_level l ∈ ms -> provided_b (plw_permission l) = true.

Lemma initialize_cache_lookup p :
  initialize_permission_cache c !! p =
    if decide (p ∈ provided_permissions c) then Some permission_satisfied else None.
Proof.
  unfold initialize_permission_cache.
  assert (forall l (m : gmap (Z * Z) permission_cache_status),
    fold_left (fun m p => <[p := permission_satisfied]> m) l m !! p =
    if decide (p ∈ l) then Some permission_satisfied else m !! p) as Hg.
  { induction l as [|q l IH]; intros m; simpl; [done|]. rewrite IH.
    destruct (decide (p ∈ l)), (decide (p ∈ q :: l)) as [Hin|Hin]; try done; try set_solver.
    - apply elem_of_cons in Hin as [->|]; [by rewrite lookup_insert_eq|done].
    - rewrite lookup_insert_ne; [done|]. set_solver. }
  rewrite Hg. case_decide; [done|apply lookup_empty].
Qed.

Lemma provided_status p :
  provided_b p = true ->
  permission_status_in_cache (initialize_permission_cache c) p = Some permission_satisfied.
Proof.
  unfold provided_b, permission_status_in_cache. rewrite !initialize_cache_lookup.
  intros Hp. destruct (decide (p ∈ provided_permissions c)) as [|Hn]; [done|].
  rewrite bool_decide_eq_false_2 in Hp by done. simpl in Hp. split_bool. by rewrite decide_True.
Qed.

Lemma find_key_available k :
  match find_key c k with Some _ => true | None => false end = bool_decide (k ∈ provided_keys c).
Proof.
  unfold find_key. destruct (list_find _ _) as [[i k']|] eqn:E; simpl.
  - apply list_find_Some in E as (Hi & <- & _). symmetry. apply bool_decide_eq_true.
    by eapply list_elem_of_lookup_2.
  - symmetry. apply bool_decide_eq_false. intros Hk. rewrite list_find_None, Forall_forall in E.
    by eapply E.
Qed.

Lemma visit_flat rec total m st :
  (forall l, m = meta_level l -> provided_b (plw_permission l) = true) ->
  es_cache st = initialize_permission_cache c ->
  exists st', visit permission_to_authority c rec total m st =
      Ok (if available m then u32 (total + get_weight m) else total, st') /\ es_cache st' = es_cache st.
Proof.
  intros Hl Hc. destruct m as [p|k|w]; cbn [visit available get_weight].
  - unfold visit_level. rewrite Hc, provided_status, Hl by auto. by exists st.
  - unfold visit_key. pose proof (find_key_available (kw_key k)) as Hk.
    destruct (find_key c (kw_key k)); rewrite <- Hk; by eexists.
  - unfold visit_wait. by exists st.
Qed.

Definition available_weight (ms : list meta_permission) : Z :=
  sum_weights (filter (fun m => available m = true) ms).

Lemma available_weight_cons m ms :
  available_weight (m :: ms) = (if available m then get_weight m else 0) + available_weight ms.
Proof.
  unfold available_weight. rewrite filter_cons. destruct (available m); simpl; lia.
Qed.

Lemma available_weight_bound ms :
  (forall m, m ∈ ms -> 0 <= get_weight m) -> 0 <= available_weight ms <= sum_weights ms.
Proof.
  induction ms as [|m ms IH]; intros Hw; [done|]. rewrite available_weight_cons. simpl.
  specialize (IH ltac:(intros x Hx; apply Hw; by right)). pose proof (Hw m ltac:(by left)).
  destruct (available m); lia.
Qed.

Lemma tally_flat rec thr total ms st :
  flat ms -> es_cache st = initialize_permission_cache c ->
  (forall m, m ∈ ms -> 0 <= get_weight m) -> 0 <= total < thr -> total + sum_weights ms < 2 ^ 32 ->
  exists st', tally permission_to_authority c rec thr total ms st =
    Ok (thr <=? total + available_weight ms, st').
Proof.
  revert total st. induction ms as [|m ms IH]; intros total st Hf Hc Hw Ht Hs; cbn [tally].
  { exists st. destruct (Z.leb_spec thr (total + available_weight [])); [|done].
    unfold available_weight in *. simpl in *. lia. }
  destruct (visit_flat rec total m st) as (st1 & -> & Hc1).
  { intros l ->. apply Hf. by left. }
  { done. }
  cbn [mbind result_bind]. rewrite available_weight_cons. simpl in Hs.
  pose proof (Hw m ltac:(by left)) as Hm0.
  assert (forall x, x ∈ ms -> 0 <= get_weight x) as Hw' by (intros x Hx; apply Hw; by right).
  pose proof (available_weight_bound ms Hw') as Hb.
  set (g := if available m then get_weight m else 0).
  assert ((if available m then u32 (total + get_weight m) else total) = total + g) as ->.
  { unfold g. destruct (available m); [|lia]. apply u32_small. unfold is_u32. lia. }
  assert (0 <= g <= get_weight m) by (unfold g; destruct (available m); lia).
  destruct (Z.leb_spec thr (total + g)).
  - exists st1. destruct (Z.leb_spec thr (total + (g + available_weight ms))); [done|lia].
  - destruct (IH (total + g) st1) as [st2 E]; [|congruence|done|lia|lia|].
    { intros l Hl. apply Hf. by right. }
    exists st2. rewrite E. by rewrite Z.add_assoc.
Qed.

Lemma satisfied_flat a :
  authority_typed a -> authority_size a <= 2 ^ 16 -> 0 < threshold a -> flat (metas a) ->
  exists c', satisfied permission_to_authority c a None =
    Ok (threshold a <=? available_weight (metas a), c').
Proof.
  intros Ha Hsz Hthr Hf. unfold satisfied. simpl default.
  pose proof (sum_weights_bound (metas a) (at_weights a Ha)) as Hb. rewrite length_metas in Hb.
  assert (forall rec, exists st', tally permission_to_authority c rec (threshold a) 0 (permissions a)
    (mk_eval (used_flags c) (initialize_permission_cache c)) =
    Ok (threshold a <=? available_weight (metas a), st')) as Ht.
  { intros rec. destruct (tally_flat rec (threshold a) 0 (permissions a)
      (mk_eval (used_flags c) (initialize_permission_cache c))) as [st' E].
    - intros l. unfold permissions. rewrite meta_sort_perm. apply Hf.
    - done.
    - intros m. unfold permissions. rewrite meta_sort_perm. intros Hm. by apply (at_weights a Ha).
    - lia.
    - unfold permissions. rewrite (meta_sort_perm _). fold (metas a). lia.
    - exists st'. rewrite E. do 2 f_equal. rewrite Z.add_0_l. unfold available_weight, permissions.
      by rewrite meta_sort_perm. }
  destruct (recursion_depth_limit c) as [|n]; cbn [satisfied_at].
  all: match goal with |- context [tally _ _ ?rec _ _ _ _] => destruct (Ht rec) as [st' ->] end.
  all: cbn [mbind result_bind mret result_ret];
    destruct (threshold a <=? available_weight (metas a)); by eexists.
Qed.

(** On an authority whose permissions are provided the checker is exact: it
    reports whether the weights of the provided keys, the provided permissions
    and the waits that have passed add up to the threshold, whatever the order
    in which it visits them. *)
Theorem satisfied_flat_exact a (Ha : authority_typed a) (Hsz : authority_size a <= 2 ^ 16)
  (Hthr : 0 < threshold a) (Hf : flat (metas a)) :
  exists c', satisfied permission_to_authority c a None =
    Ok (threshold a <=? available_weight (metas a), c').
Proof. by apply satisfied_flat. Qed.

(** An authority that [validate] accepts can be satisfied: with all its
    keys, all its permissions and its longest delay the checker says yes. *)
Theorem validate_satisfiable a (Ha : authority_typed a) (Hv : validate a = true)
  (Hk : forall k, k ∈ keys a -> kw_key k ∈ provided_keys c)
  (Hp : forall p, p ∈ accounts a -> plw_permission p ∈ provided_permissions c)
  (Hd : forall w, w ∈ waits a -> ww_wait_sec w * 1000000 <= provided_delay c) :
  exists c', satisfied permission_to_authority c a None = Ok (true, c').
Proof.
  apply validate_accepts in Hv as (Hsz & Hthr & _); [|done].
  assert (forall m, m ∈ metas a -> available m = true) as Hav.
  { intros m. unfold metas. rewrite !elem_of_app, !list_elem_of_fmap.
    intros [(w & -> & Hw)|[(k & -> & Hk')|(p & -> & Hp')]]; simpl.
    - apply Z.leb_le. auto.
    - apply bool_decide_eq_true. auto.
    - unfold provided_b. rewrite bool_decide_eq_true_2 by auto. done. }
  destruct (satisfied_flat a Ha Hsz ltac:(lia)) as [c' E].
  { intros l Hl. apply (Hav _ Hl). }
  exists c'. rewrite E. unfold available_weight. rewrite filter_all by done. fold (total_weight a).
  do 2 f_equal. apply Z.leb_le. lia.
Qed.

End Flat.

(** ** The marks of the used keys *)

Section Marks.
Context `{MetaOrder}.
Context (permission_to_authority : Z * Z -> result authority).
Context (c : authority_checker).

(** [more u u']: the same keys, with at least the marks of [u]. *)
Definition more (u u' : list bool) : Prop := Forall2 (fun b b' => b = true -> b' = true) u u'.

#[export] Instance more_preorder : PreOrder more.
Proof.
  split.
  - intros u. apply Forall2_same_length_lookup_2; [done|]. intros i b b'. congruence.
  - intros u v w Huv Hvw. unfold more in *. eapply Forall2_trans; [|done|done]. simpl. auto.
Qed.

Lemma more_mark u i : more u (<[i := true]> u).
Proof.
  apply Forall2_same_length_lookup_2; [by rewrite length_insert|].
  intros j b b' Hb Hb' ->. destruct (decide (i = j)) as [->|Hne].
  - apply list_lookup_insert_Some in Hb' as [(_ & <- & _)|[? _]]; done.
  - rewrite list_lookup_insert_ne in Hb' by done. congruence.
Qed.

Definition rec_marks (rec : option (authority -> eval_state -> result (bool * eval_state))) : Prop :=
  forall f a st r st', rec = Some f -> f a st = Ok (r, st') ->
    more (es_used st) (es_used st') /\ (r = false -> es_used st' = es_used st).

Lemma visit_marks rec total m st total' st' :
  rec_marks rec -> visit permission_to_authority c rec total m st = Ok (total', st') ->
  more (es_used st) (es_used st').
Proof.
  intros Hrec E. destruct m as [p|k|w]; cbn [visit] in E.
  - unfold visit_level in E. destruct (permission_status_in_cache _ _) as [[]|];
      try (injection E as _ <-; reflexivity).
    destruct rec as [f|]; [|injection E as _ <-; reflexivity].
    destruct (permission_to_authority _) as [a|e].
    + apply bind_Ok in E as ([r st1] & Ef & E). apply (Hrec f) in Ef as [Hm _]; [|done].
      destruct r; injection E as _ <-; exact Hm.
    + destruct e; try done. injection E as _ <-. reflexivity.
  - unfold visit_key in E. destruct (find_key c (kw_key k)); injection E as _ <-; [apply more_mark|reflexivity].
  - injection E as _ <-. reflexivity.
Qed.

Lemma tally_marks rec thr total ms st r st' :
  rec_marks rec -> tally permission_to_authority c rec thr total ms st = Ok (r, st') ->
  more (es_used st) (es_used st').
Proof.
  intros Hrec. revert total st. induction ms as [|m ms IH]; intros total st E; cbn [tally] in E.
  { injection E as _ <-. reflexivity. }
  apply bind_Ok in E as ([t st1] & Ev & E). apply visit_marks in Ev; [|done].
  destruct (thr <=? t); [injection E as _ <-; done|]. etrans; [done|]. by eapply IH.
Qed.

Lemma satisfied_at_marks n : forall a st r st',
  satisfied_at permission_to_authority c n a st = Ok (r, st') ->
  more (es_used st) (es_used st') /\ (r = false -> es_used st' = es_used st).
Proof.
  induction n as [|n IH]; intros a st r st' E; cbn [satisfied_at] in E;
    apply bind_Ok in E as ([r1 st1] & Et & E);
    (apply tally_marks in Et; [|intros f a' st0 r0 st0' Hf E'; try done; injection Hf as <-; eauto]);
    destruct r1; injection E as <- <-; done.
Qed.

(** A failed evaluation leaves no trace in the marks of the used keys, and a
    successful one only adds marks, so the keys used by earlier authorities of a
    transaction stay used. *)
Theorem satisfied_keeps_marks a cache r c'
  (E : satisfied permission_to_authority c a cache = Ok (r, c')) :
  provided_keys c' = provided_keys c /\ more (used_flags c) (used_flags c') /\
  (r = false -> used_flags c' = used_flags c).
Proof.
  unfold satisfied in E. apply bind_Ok in E as ([r1 st1] & Es & E). injection E as <- <-.
  apply satisfied_at_marks in Es as [Hm Hf]. split_and!; [done|exact Hm|exact Hf].
Qed.

End Marks.

(** ** Runs *)

Module Runs.

Definition meta_le (a b : meta_permission) : Prop := meta_before b a = false.

#[export] Instance meta_le_dec a b : Decision (meta_le a b).
Proof. unfold meta_le. apply _. Defined.

#[export] Instance meta_le_trans : Transitive meta_le.
Proof. intros a b d. unfold meta_le, meta_before. lia. Qed.

#[export] Instance meta_le_total : Total meta_le.
Proof. intros a b. unfold meta_le, meta_before. lia. Qed.

#[export] Instance order : MetaOrder := merge_sort meta_le.

#[export] Instance order_laws : MetaOrderLaws.
Proof.
  split.
  - intros l. apply merge_sort_Permutation.
  - intros l. apply StronglySorted_merge_sort; apply _.
Qed.

(** Permission (1,1) needs key 10; permission (2,1) needs (1,1) and key 99;
    permission (3,1) is content with (1,1) but looks at (2,1) first. *)
Definition authorities (p : Z * Z) : result authority :=
  if bool_decide (p = (1, 1)) then Ok (mk_authority 1 [mk_key_weight 10 1] [] [])
  else if bool_decide (p = (2, 1)) then
    Ok (mk_authority 2 [mk_key_weight 99 1] [mk_level_weight (1, 1) 1] [])
  else if bool_decide (p = (3, 1)) then
    Ok (mk_authority 1 [] [mk_level_weight (1, 1) 1; mk_level_weight (2, 1) 2] [])
  else Err permission_query_exception.

Definition run (p : Z * Z) (ks : list Z) : result (bool * list Z) :=
  fmap (fun rc => (rc.1, used_keys rc.2))
    (satisfied_permission authorities (make_auth_checker 6 ks [] 0) p None).

(** Keys that satisfy a permission inside an authority that fails are unmarked,
    and the permission's cached result is used later without marking them
    again: key 10 is needed, and reported unused. *)
Example cached_permission_unmarks_keys :
  run (1, 1) [10] = Ok (true, [10]) /\ run (3, 1) [10] = Ok (true, []) /\ run (3, 1) [] = Ok (false, []).
Proof. split_and!; vm_compute; reflexivity. Qed.

Lemma authorities_weights p a : authorities p = Ok a -> forall m, m ∈ metas a -> 0 <= get_weight m.
Proof.
  unfold authorities. intros E m Hm.
  destruct (bool_decide (p = (1, 1))); [|destruct (bool_decide (p = (2, 1)));
    [|destruct (bool_decide (p = (3, 1))); [|done]]];
    injection E as <-; unfold metas in Hm; simpl in Hm;
    repeat (apply elem_of_cons in Hm as [->|Hm]; [vm_compute; congruence|]); by apply elem_of_nil in Hm.
Qed.

Definition checker : authority_checker := make_auth_checker 6 [10; 20] [(7, 1)] 60000000.

Lemma authorities_named a : is_Ok (authorities (a, 0)) = false.
Proof. unfold authorities. by rewrite !bool_decide_eq_false_2 by congruence. Qed.

Lemma satisfied_sound_witness : meets authorities checker key_and_account.
Proof.
  destruct (satisfied authorities checker key_and_account None) as [[r c']|e] eqn:E;
    [|exfalso; vm_compute in E; discriminate].
  apply (satisfied_sound authorities checker authorities_named authorities_weights key_and_account r c').
  - intros m Hm. by apply (at_weights _ key_and_account_typed).
  - exact E.
  - vm_compute in E. congruence.
Defined.

Lemma key_and_account_flat : flat checker (metas key_and_account).
Proof.
  intros l. unfold metas. rewrite !elem_of_app, !list_elem_of_fmap.
  intros [(w & [=] & _)|[(k & [=] & _)|(p & [= ->] & Hp)]].
  simpl in Hp. apply list_elem_of_singleton in Hp as ->. reflexivity.
Qed.

Lemma satisfied_flat_exact_witness :
  exists c', satisfied authorities checker key_and_account None = Ok (true, c').
Proof.
  destruct (satisfied_flat_exact authorities checker key_and_account key_and_account_typed) as [c' E].
  - vm_compute. congruence.
  - vm_compute. reflexivity.
  - exact key_and_account_flat.
  - exists c'. exact E.
Defined.

Lemma validate_satisfiable_witness :
  exists c', satisfied authorities checker key_and_account None = Ok (true, c').
Proof.
  apply (validate_satisfiable authorities checker key_and_account key_and_account_typed).
  - vm_compute. reflexivity.
  - intros k Hk. simpl in Hk. set_solver.
  - intros p Hp. simpl in Hp. set_solver.
  - intros w Hw. simpl in Hw. apply list_elem_of_singleton in Hw as ->. vm_compute. congruence.
Defined.

Lemma satisfied_keeps_marks_witness :
  exists c', satisfied authorities (make_auth_checker 6 [99] [] 0) (mk_authority 2 [mk_key_weight 99 1] [] []) None
    = Ok (false, c') /\ used_flags c' = [false].
Proof.
  destruct (satisfied authorities (make_auth_checker 6 [99] [] 0) (mk_authority 2 [mk_key_weight 99 1] [] []) None)
    as [[r c']|e] eqn:E; [|exfalso; vm_compute in E; discriminate].
  assert (r = false) as -> by (vm_compute in E; congruence).
  exists c'. split; [reflexivity|].
  destruct (satisfied_keeps_marks _ _ _ _ _ _ E) as (_ & _ & Hf). exact (Hf eq_refl).
Defined.

End Runs.
