(* ===== verification/Token.v ===== *)
(** * The token contract

    [contracts/snaxlib/symbol.hpp] and [contracts/snaxlib/asset.hpp] (the assets
    of contracts) and [contracts/snax.token]: creating, issuing and transferring
    tokens.

    The tables of the contract are maps; a failed assertion throws and the
    transaction that contains the action has no effect. An action returns the
    new tables and what it asks of the chain: the accounts to notify and the
    inline transfer. Which account pays for the memory of a row is not part of
    the model. *)

From Stdlib Require Import ZArith Lia Bool.
From stdpp Require Import base numbers gmap list.
From S2P Require Import Prelude BlockHeader.

Open Scope Z_scope.

(** ** Symbols and assets of contracts *)

Definition symbol_value_name (s : Z) : Z := Z.shiftr s 8.
Definition symbol_value_precision (s : Z) : Z := Z.land s 0xff.

Definition is_upper (ch : Z) : bool := (65 <=? ch) && (ch <=? 90).

(** The [do .. while( i < 7 )] loop of [is_valid_symbol]: only zero bytes from
    here on. *)
Fixpoint zero_tail (n : nat) (sym : Z) : bool :=
  match n with
  | O => true
  | S n => let sym := Z.shiftr sym 8 in if negb (Z.land sym 0xff =? 0) then false else zero_tail n sym
  end.

(** The [for] loop with [n] = [7 - i] passes left. A zero byte ends the name: the
    inner loop then runs [7 - i] times and the outer loop ends with it. *)
Fixpoint valid_symbol_loop (n : nat) (sym : Z) : bool :=
  match n with
  | O => true
  | S n' =>
      if negb (is_upper (Z.land sym 0xff)) then false
      else
        let sym := Z.shiftr sym 8 in
        if Z.land sym 0xff =? 0 then zero_tail n sym
        else valid_symbol_loop n' sym
  end.

Definition is_valid_symbol (sym : Z) : bool := valid_symbol_loop 7 (Z.shiftr sym 8).

(** [symbol_name_length]. *)
Fixpoint name_length_loop (n : nat) (sym : Z) : Z :=
  match n with
  | O => 0
  | S n => if Z.land sym 0xff =? 0 then 0 else 1 + name_length_loop n (Z.shiftr sym 8)
  end.
Definition symbol_name_length (sym : Z) : Z := name_length_loop 8 (Z.shiftr sym 8).

Record asset := mk_asset { amount : Z; symbol : Z }.

Definition max_amount : Z := 2 ^ 62 - 1.

Definition is_amount_within_range (a : asset) : bool :=
  (- max_amount <=? amount a) && (amount a <=? max_amount).
Definition is_valid (a : asset) : bool := is_amount_within_range a && is_valid_symbol (symbol a).

(** [snax_assert]. *)
Definition snax_assert (cond : bool) : result unit := SNAX_ASSERT cond snax_assert_message.

(** [asset( a, s )]. *)
Definition make_asset (a s : Z) : result asset :=
  let r := mk_asset a s in
  snax_assert (is_amount_within_range r);;
  snax_assert (is_valid_symbol s);;
  mret r.

(** 64-bit signed arithmetic, which must not overflow. *)
Definition checked_i64 (z : Z) : result Z :=
  if bool_decide (is_i64 z) then mret z else Err undefined_behavior.

Definition asset_set_amount (x : asset) (a : Z) : result asset :=
  let r := mk_asset a (symbol x) in
  snax_assert (is_amount_within_range r);; mret r.

Definition asset_neg (x : asset) : result asset :=
  a ← checked_i64 (- amount x); mret (mk_asset a (symbol x)).

Definition asset_sub (x a : asset) : result asset :=
  snax_assert (symbol a =? symbol x);;
  r ← checked_i64 (amount x - amount a);
  snax_assert (- max_amount <=? r);;
  snax_assert (r <=? max_amount);;
  mret (mk_asset r (symbol x)).

Definition asset_add (x a : asset) : result asset :=
  snax_assert (symbol a =? symbol x);;
  r ← checked_i64 (amount x + amount a);
  snax_assert (- max_amount <=? r);;
  snax_assert (r <=? max_amount);;
  mret (mk_asset r (symbol x)).

(** [operator*=]: the product has 128 bits. *)
Definition asset_mul (x : asset) (a : Z) : result asset :=
  let tmp := amount x * a in
  snax_assert (tmp <=? max_amount);;
  snax_assert (- max_amount <=? tmp);;
  mret (mk_asset tmp (symbol x)).

(** [operator/=]: the quotient is truncated towards zero. *)
Definition asset_div (x : asset) (a : Z) : result asset :=
  snax_assert (negb (a =? 0));;
  snax_assert (negb ((amount x =? INT64_MIN) && (a =? -1)));;
  mret (mk_asset (Z.quot (amount x) a) (symbol x)).

(** [operator/] of two assets. *)
Definition asset_quot (a b : asset) : result Z :=
  snax_assert (symbol a =? symbol b);;
  if amount b =? 0 then Err undefined_behavior else checked_i64 (Z.quot (amount a) (amount b)).

(** The comparisons refuse assets of different symbols. *)
Definition asset_compare (test : Z -> Z -> bool) (a b : asset) : result bool :=
  snax_assert (symbol a =? symbol b);; mret (test (amount a) (amount b)).
Definition asset_eq : asset -> asset -> result bool := asset_compare Z.eqb.
Definition asset_ne (a b : asset) : result bool := r ← asset_eq a b; mret (negb r).
Definition asset_lt : asset -> asset -> result bool := asset_compare Z.ltb.
Definition asset_le : asset -> asset -> result bool := asset_compare Z.leb.
Definition asset_gt : asset -> asset -> result bool := asset_compare (fun x y => y <? x).
Definition asset_ge : asset -> asset -> result bool := asset_compare (fun x y => y <=? x).

(** ** The contract *)

Record currency_stats := mk_stats { supply : asset; max_supply : asset; issuer : account_name }.

(** [stats] by symbol name; [accounts] by owner and symbol name. *)
Record token_tables := mk_tables {
  stats : gmap Z currency_stats;
  accounts : gmap (Z * Z) asset
}.

Inductive effect :=
| require_recipient (a : account_name)
| send_inline_transfer (from to : account_name) (quantity : asset) (memo : list Z).

(** What the chain tells the contract: the account it runs as, whose authority
    an action carries and which accounts exist. *)
Record context := mk_context {
  self : account_name;
  has_auth : account_name -> bool;
  is_account : account_name -> bool
}.

Definition require_auth (cx : context) (a : account_name) : result unit :=
  SNAX_ASSERT (has_auth cx a) missing_auth_exception.

Definition create (cx : context) (t : token_tables) (iss : account_name) (maximum_supply : asset) :
    result (token_tables * list effect) :=
  require_auth cx (self cx);;
  let sym := symbol maximum_supply in
  snax_assert (is_valid_symbol sym);;
  snax_assert (is_valid maximum_supply);;
  snax_assert (0 <? amount maximum_supply);;
  let name := symbol_value_name sym in
  snax_assert (match stats t !! name with None => true | Some _ => false end);;
  let s := mk_stats (mk_asset 0 sym) maximum_supply iss in
  mret (mk_tables (<[name := s]> (stats t)) (accounts t), []).

Definition sub_balance (t : token_tables) (owner : account_name) (value : asset) : result token_tables :=
  let k := (owner, symbol_value_name (symbol value)) in
  from ← of_option snax_assert_message (accounts t !! k);
  snax_assert (amount value <=? amount from);;
  if amount from =? amount value then mret (mk_tables (stats t) (delete k (accounts t)))
  else
    b ← asset_sub from value;
    mret (mk_tables (stats t) (<[k := b]> (accounts t))).

Definition add_balance (t : token_tables) (owner : account_name) (value : asset) : result token_tables :=
  let k := (owner, symbol_value_name (symbol value)) in
  match accounts t !! k with
  | None => mret (mk_tables (stats t) (<[k := value]> (accounts t)))
  | Some to =>
      b ← asset_add to value;
      mret (mk_tables (stats t) (<[k := b]> (accounts t)))
  end.

Definition issue (cx : context) (t : token_tables) (to : account_name) (quantity : asset) (memo : list Z) :
    result (token_tables * list effect) :=
  let sym := symbol quantity in
  snax_assert (is_valid_symbol sym);;
  snax_assert (length memo <=? 256)%nat;;
  let name := symbol_value_name sym in
  st ← of_option snax_assert_message (stats t !! name);
  require_auth cx (issuer st);;
  snax_assert (is_valid quantity);;
  snax_assert (0 <? amount quantity);;
  snax_assert (symbol quantity =? symbol (supply st));;
  left ← checked_i64 (amount (max_supply st) - amount (supply st));
  snax_assert (amount quantity <=? left);;
  s ← asset_add (supply st) quantity;
  let t := mk_tables (<[name := mk_stats s (max_supply st) (issuer st)]> (stats t)) (accounts t) in
  t ← add_balance t (issuer st) quantity;
  mret (t, if negb (to =? issuer st) then [send_inline_transfer (issuer st) to quantity memo] else []).

Definition transfer (cx : context) (t : token_tables) (from to : account_name) (quantity : asset)
    (memo : list Z) : result (token_tables * list effect) :=
  snax_assert (negb (from =? to));;
  require_auth cx from;;
  snax_assert (is_account cx to);;
  st ← of_option snax_assert_message (stats t !! symbol_value_name (symbol quantity));
  snax_assert (is_valid quantity);;
  snax_assert (0 <? amount quantity);;
  snax_assert (symbol quantity =? symbol (supply st));;
  snax_assert (length memo <=? 256)%nat;;
  t ← sub_balance t from quantity;
  t ← add_balance t to quantity;
  mret (t, [require_recipient from; require_recipient to]).

Definition get_supply (t : token_tables) (sym : Z) : result asset :=
  st ← of_option snax_assert_message (stats t !! sym); mret (supply st).
Definition get_max_supply (t : token_tables) (sym : Z) : result asset :=
  st ← of_option snax_assert_message (stats t !! sym); mret (max_supply st).
Definition get_balance (t : token_tables) (owner sym : Z) : result asset :=
  of_option snax_assert_message (accounts t !! (owner, sym)).

(** The inline transfers of an action, carried out with the authority of their
    sender. *)
Fixpoint run_effects (cx : context) (t : token_tables) (es : list effect) : result token_tables :=
  match es with
  | [] => mret t
  | require_recipient _ :: es => run_effects cx t es
  | send_inline_transfer from to q memo :: es =>
      '(t, _) ← transfer (mk_context (self cx) (fun a => a =? from) (is_account cx)) t from to q memo;
      run_effects cx t es
  end.

(** An action with its inline actions, as a transaction carries them out. *)
Definition run_action (cx : context) (r : result (token_tables * list effect)) : result token_tables :=
  '(t, es) ← r; run_effects cx t es.
