(* ===== verification/TokenProofs.v ===== *)
(** * Properties of the token contract

    Conservation of the supply over every sequence of actions and the exact
    effect of a transfer ([Token.v] has the model). *)

From Stdlib Require Import ZArith Lia Bool.
From stdpp Require Import base numbers gmap relations sets list.
From S2P Require Import Prelude BlockHeader Token.

Open Scope Z_scope.

(** ** The invariant *)

(** The sum of all balances of the symbol named [n]. *)
Definition balance_of (n : Z) (k : Z * Z) (b : asset) : Z := if k.2 =? n then amount b else 0.
Definition total_balance (n : Z) (t : token_tables) : Z := map_sum (balance_of n) (accounts t).

(** Every balance is positive, belongs to a created token and has its symbol; the
    balances of a token add up to its supply, which is within the maximum. *)
Record token_ok (t : token_tables) : Prop := {
  tk_name n s : stats t !! n = Some s -> symbol_value_name (symbol (supply s)) = n;
  tk_supply n s : stats t !! n = Some s ->
    0 <= amount (supply s) <= amount (max_supply s) /\ amount (max_supply s) <= max_amount;
  tk_sum n s : stats t !! n = Some s -> total_balance n t = amount (supply s);
  tk_balance o n b : accounts t !! (o, n) = Some b ->
    0 < amount b /\ exists s, stats t !! n = Some s /\ symbol b = symbol (supply s)
}.

Definition empty_tables : token_tables := mk_tables ∅ ∅.

Lemma empty_tables_ok : token_ok empty_tables.
Proof. constructor; intros *; simpl; by rewrite lookup_empty. Qed.

Lemma total_balance_insert n t k b :
  total_balance n (mk_tables (stats t) (<[k := b]> (accounts t))) =
  total_balance n t - summand (balance_of n) k (accounts t !! k) + balance_of n k b.
Proof. apply map_sum_insert. Qed.

Lemma total_balance_delete n t k :
  total_balance n (mk_tables (stats t) (delete k (accounts t))) =
  total_balance n t - summand (balance_of n) k (accounts t !! k).
Proof. unfold total_balance. simpl. rewrite (map_sum_delete _ (accounts t) k). lia. Qed.

(** A balance never exceeds the sum of the balances, nor the supply of its token. *)
Lemma balance_le_total t o n b :
  (forall o n b, accounts t !! (o, n) = Some b -> 0 < amount b) -> accounts t !! (o, n) = Some b ->
  amount b <= total_balance n t.
Proof.
  intros Hpos Hb. unfold total_balance.
  pose proof (summand_le_map_sum (balance_of n) (accounts t) (o, n)) as Hle.
  assert (summand (balance_of n) (o, n) (accounts t !! (o, n)) = amount b) as Heq.
  { rewrite Hb. unfold summand, balance_of. simpl. by rewrite Z.eqb_refl. }
  rewrite <- Heq. apply Hle. intros [o' n'] b' Hb'. unfold balance_of. simpl.
  destruct (n' =? n); [|lia]. specialize (Hpos o' n' b' Hb'). lia.
Qed.

Lemma balance_le_supply t o n b s :
  token_ok t -> accounts t !! (o, n) = Some b -> stats t !! n = Some s ->
  0 < amount b <= amount (supply s).
Proof.
  intros Hok Hb Hs. destruct (tk_balance t Hok o n b Hb) as [Hpos _]. split; [done|].
  rewrite <- (tk_sum t Hok n s Hs). apply (balance_le_total t o); [|done].
  intros o' n' b' Hb'. by destruct (tk_balance t Hok o' n' b' Hb').
Qed.

(** The balance of [o], zero without a row. *)
Definition balance (t : token_tables) (o n : Z) : Z :=
  match accounts t !! (o, n) with Some b => amount b | None => 0 end.

Lemma asset_sub_Ok x a r :
  asset_sub x a = Ok r -> symbol a = symbol x /\ amount r = amount x - amount a /\ symbol r = symbol x.
Proof.
  unfold asset_sub, snax_assert, checked_i64. intros E. inv_ok. split_bool.
  case_bool_decide; [|done]. by inv_ok.
Qed.

Lemma asset_add_Ok x a r :
  asset_add x a = Ok r -> symbol a = symbol x /\ amount r = amount x + amount a /\ symbol r = symbol x.
Proof.
  unfold asset_add, snax_assert, checked_i64. intros E. inv_ok. split_bool.
  case_bool_decide; [|done]. by inv_ok.
Qed.

(** The two balance operations move exactly [value]. *)
Lemma sub_balance_Ok t o v t' :
  0 < amount v -> sub_balance t o v = Ok t' ->
  let n := symbol_value_name (symbol v) in
  stats t' = stats t /\ balance t' o n = balance t o n - amount v /\ amount v <= balance t o n /\
  (forall k, k <> (o, n) -> accounts t' !! k = accounts t !! k) /\
  (forall m, total_balance m t' = total_balance m t - if m =? n then amount v else 0) /\
  (forall b, accounts t' !! (o, n) = Some b -> 0 < amount b /\
     exists b0, accounts t !! (o, n) = Some b0 /\ symbol b = symbol b0).
Proof.
  intros Hv E n. unfold sub_balance in E. fold n in E.
  apply bind_Ok in E as (b & Hb & E). apply of_option_Ok in Hb. apply bind_Ok in E as ([] & Hle & E).
  apply assert_Ok in Hle. split_bool. unfold balance. rewrite Hb.
  assert (forall m, (if n =? m then amount b else 0) - (if m =? n then amount v else 0) =
    if n =? m then amount b - amount v else 0) as Harith.
  { intros m. rewrite (Z.eqb_sym m n). destruct (n =? m); lia. }
  destruct (Z.eqb_spec (amount b) (amount v)) as [Heq|Hne].
  - injection E as <-. simpl. rewrite lookup_delete_eq. split_and!; try done; try lia.
    + intros k Hk. by rewrite lookup_delete_ne.
    + intros m. rewrite total_balance_delete, Hb. unfold summand, balance_of. simpl.
      specialize (Harith m). destruct (n =? m); lia.
  - apply bind_Ok in E as (r & Hr & E). injection E as <-. apply asset_sub_Ok in Hr as (_ & Har & Hsr).
    simpl. rewrite lookup_insert_eq. split_and!; try done; try lia.
    + intros k Hk. by rewrite lookup_insert_ne.
    + intros m. rewrite total_balance_insert, Hb. unfold summand, balance_of. simpl.
      specialize (Harith m). destruct (n =? m); lia.
    + intros b' [= <-]. split; [lia|]. by exists b.
Qed.

Lemma add_balance_Ok t o v t' :
  0 < amount v -> add_balance t o v = Ok t' ->
  let n := symbol_value_name (symbol v) in
  stats t' = stats t /\ balance t' o n = balance t o n + amount v /\
  (forall k, k <> (o, n) -> accounts t' !! k = accounts t !! k) /\
  (forall m, total_balance m t' = total_balance m t + if m =? n then amount v else 0) /\
  (forall b, accounts t' !! (o, n) = Some b -> symbol b = symbol v /\ amount b = balance t o n + amount v).
Proof.
  intros Hv E n. unfold add_balance in E. fold n in E. unfold balance.
  destruct (accounts t !! (o, n)) as [b|] eqn:Hb.
  - apply bind_Ok in E as (r & Hr & E). injection E as <-. apply asset_add_Ok in Hr as (Hs & Har & Hsr).
    simpl. rewrite lookup_insert_eq. split_and!; try done.
    + intros k Hk. by rewrite lookup_insert_ne.
    + intros m. rewrite total_balance_insert, Hb. unfold summand, balance_of. simpl.
      rewrite (Z.eqb_sym m n). destruct (n =? m); lia.
    + intros b' [= <-]. split; [congruence|lia].
  - injection E as <-. simpl. rewrite lookup_insert_eq. split_and!; try done.
    + intros k Hk. by rewrite lookup_insert_ne.
    + intros m. rewrite total_balance_insert, Hb. unfold summand, balance_of. simpl.
      rewrite (Z.eqb_sym m n). destruct (n =? m); lia.
    + intros b' [= <-]. split; [done|lia].
Qed.

(** ** The actions *)

Lemma create_Ok cx t i m t' es :
  create cx t i m = Ok (t', es) ->
  let n := symbol_value_name (symbol m) in
  has_auth cx (self cx) = true /\ stats t !! n = None /\ 0 < amount m <= max_amount /\
  t' = mk_tables (<[n := mk_stats (mk_asset 0 (symbol m)) m i]> (stats t)) (accounts t) /\ es = [].
Proof.
  unfold create, require_auth, snax_assert. intros E. inv_ok.
  destruct (stats t !! _) eqn:Hs; [done|]. unfold is_valid, is_amount_within_range in *. split_bool.
  split_and!; done || lia.
Qed.

Lemma transfer_Ok cx t f to q memo t' es :
  transfer cx t f to q memo = Ok (t', es) ->
  exists st t1, let n := symbol_value_name (symbol q) in
  f <> to /\ has_auth cx f = true /\ is_account cx to = true /\ stats t !! n = Some st /\
  0 < amount q <= max_amount /\ symbol q = symbol (supply st) /\
  sub_balance t f q = Ok t1 /\ add_balance t1 to q = Ok t' /\
  es = [require_recipient f; require_recipient to].
Proof.
  unfold transfer, require_auth, snax_assert. intros E. inv_ok.
  unfold is_valid, is_amount_within_range in *. split_bool.
  eexists _, _. split_and!; try done; try lia; eauto.
Qed.

Lemma issue_Ok cx t to q memo t' es :
  issue cx t to q memo = Ok (t', es) ->
  exists st s, let n := symbol_value_name (symbol q) in
  stats t !! n = Some st /\ has_auth cx (issuer st) = true /\ 0 < amount q /\
  symbol q = symbol (supply st) /\ amount q <= amount (max_supply st) - amount (supply st) /\
  amount s = amount (supply st) + amount q /\ symbol s = symbol q /\
  add_balance (mk_tables (<[n := mk_stats s (max_supply st) (issuer st)]> (stats t)) (accounts t))
    (issuer st) q = Ok t' /\
  es = if negb (to =? issuer st) then [send_inline_transfer (issuer st) to q memo] else [].
Proof.
  unfold issue, require_auth, snax_assert. intros E. inv_ok. split_bool.
  unfold checked_i64 in *. case_bool_decide; [|done]. inv_ok.
  match goal with H : asset_add _ _ = Ok _ |- _ => apply asset_add_Ok in H as (? & ? & ?) end.
  eexists _, _. split_and!; try done; try congruence; eauto.
Qed.

(** ** Conservation

    Between the two halves of a movement [v] is part of the supply and of
    nobody's balance. *)
Record in_flight (v : asset) (t : token_tables) : Prop := {
  if_name n s : stats t !! n = Some s -> symbol_value_name (symbol (supply s)) = n;
  if_supply n s : stats t !! n = Some s ->
    0 <= amount (supply s) <= amount (max_supply s) /\ amount (max_supply s) <= max_amount;
  if_sum n s : stats t !! n = Some s ->
    total_balance n t + (if n =? symbol_value_name (symbol v) then amount v else 0) = amount (supply s);
  if_balance o n b : accounts t !! (o, n) = Some b ->
    0 < amount b /\ exists s, stats t !! n = Some s /\ symbol b = symbol (supply s);
  if_value : 0 < amount v /\
    exists s, stats t !! symbol_value_name (symbol v) = Some s /\ symbol v = symbol (supply s)
}.

Lemma sub_balance_in_flight t o v t' st :
  token_ok t -> 0 < amount v -> stats t !! symbol_value_name (symbol v) = Some st ->
  symbol v = symbol (supply st) -> sub_balance t o v = Ok t' -> in_flight v t'.
Proof.
  intros Hok Hv Hst Hsym E. pose proof (sub_balance_Ok t o v t' Hv E) as (Hs & _ & _ & Ho & Hsum & Hb).
  constructor; rewrite ?Hs; eauto using tk_name, tk_supply.
  - intros n s Hn. rewrite Hsum, (tk_sum t Hok n s Hn). lia.
  - intros o' n b Hl. destruct (decide ((o', n) = (o, symbol_value_name (symbol v)))) as [[= -> ->]|Hne].
    + destruct (Hb b Hl) as (Hpos & b0 & Hb0 & ->). split; [done|].
      by apply (tk_balance t Hok o _ b0).
    + rewrite Ho in Hl by done. by apply (tk_balance t Hok o').
Qed.

Lemma add_balance_lands t o v t' : in_flight v t -> add_balance t o v = Ok t' -> token_ok t'.
Proof.
  intros Hfl E. destruct (if_value v t Hfl) as [Hv (st & Hst & Hsym)].
  pose proof (add_balance_Ok t o v t' Hv E) as (Hs & _ & Ho & Hsum & Hb).
  constructor; rewrite ?Hs; eauto using if_name, if_supply.
  - intros n s Hn. rewrite Hsum. by apply (if_sum v t Hfl).
  - intros o' n b Hl. destruct (decide ((o', n) = (o, symbol_value_name (symbol v)))) as [[= -> ->]|Hne].
    + destruct (Hb b Hl) as [-> ->]. split; [|by exists st].
      unfold balance. destruct (accounts t !! _) as [b0|] eqn:Hb0; [|lia].
      destruct (if_balance v t Hfl _ _ b0 Hb0). lia.
    + rewrite Ho in Hl by done. by apply (if_balance v t Hfl o').
Qed.

Lemma transfer_ok cx t f to q memo t' es :
  token_ok t -> transfer cx t f to q memo = Ok (t', es) -> token_ok t'.
Proof.
  intros Hok E. apply transfer_Ok in E as (st & t1 & _ & _ & _ & Hst & Hq & Hsym & Hsub & Hadd & _).
  eapply add_balance_lands; [|done]. eapply sub_balance_in_flight; try done; lia.
Qed.

(** Adding to the supply puts the quantity in flight. *)
Lemma grow_supply_in_flight t q st s :
  token_ok t -> let n := symbol_value_name (symbol q) in
  stats t !! n = Some st -> 0 < amount q -> symbol q = symbol (supply st) ->
  amount q <= amount (max_supply st) - amount (supply st) ->
  amount s = amount (supply st) + amount q -> symbol s = symbol q ->
  in_flight q (mk_tables (<[n := mk_stats s (max_supply st) (issuer st)]> (stats t)) (accounts t)).
Proof.
  intros Hok n Hst Hq Hsym Hmax Hs Hss.
  constructor; simpl; fold n.
  - intros m s' [[<- <-]|[_ Hm]]%lookup_insert_Some; simpl; [by rewrite Hss|by apply (tk_name t Hok)].
  - intros m s' [[<- <-]|[_ Hm]]%lookup_insert_Some; simpl; [|by apply (tk_supply t Hok m)].
    destruct (tk_supply t Hok n st Hst). lia.
  - intros m s' [[<- <-]|[Hne Hm]]%lookup_insert_Some; simpl.
    + rewrite Z.eqb_refl, Hs. by rewrite <- (tk_sum t Hok n st Hst).
    + destruct (Z.eqb_spec m n); [done|]. rewrite <- (tk_sum t Hok m s' Hm). apply Z.add_0_r.
  - intros o m b Hb. destruct (tk_balance t Hok o m b Hb) as [Hpos (s' & Hs' & Hbs)]. split; [done|].
    destruct (decide (m = n)) as [->|Hne].
    + rewrite lookup_insert_eq. eexists. split; [done|]. simpl. congruence.
    + rewrite lookup_insert_ne by done. by exists s'.
  - split; [done|]. rewrite lookup_insert_eq. eexists. split; [done|]. by simpl.
Qed.

Lemma issue_ok cx t to q memo t' es :
  token_ok t -> issue cx t to q memo = Ok (t', es) -> token_ok t'.
Proof.
  intros Hok E. apply issue_Ok in E as (st & s & Hst & _ & Hq & Hsym & Hmax & Hs & Hss & Hadd & _).
  eapply add_balance_lands; [|done]. by apply grow_supply_in_flight.
Qed.

Lemma create_ok cx t i m t' es : token_ok t -> create cx t i m = Ok (t', es) -> token_ok t'.
Proof.
  intros Hok E. apply create_Ok in E as (_ & Hnew & Hm & -> & _).
  set (n := symbol_value_name (symbol m)) in *.
  assert (forall o b, accounts t !! (o, n) <> Some b) as Hnone.
  { intros o b Hb. destruct (tk_balance t Hok o n b Hb) as [_ (s & Hs & _)]. congruence. }
  constructor; simpl.
  - intros k s [[<- <-]|[_ Hk]]%lookup_insert_Some; simpl; [done|by apply (tk_name t Hok)].
  - intros k s [[<- <-]|[_ Hk]]%lookup_insert_Some; simpl; [lia|by apply (tk_supply t Hok k)].
  - intros k s [[<- <-]|[_ Hk]]%lookup_insert_Some; simpl; [|by apply (tk_sum t Hok)].
    apply map_sum_zero. intros [o k] b Hb. unfold balance_of. simpl.
    destruct (Z.eqb_spec k n) as [->|]; [|done]. by destruct (Hnone o b).
  - intros o k b Hb. destruct (tk_balance t Hok o k b Hb) as [Hpos (s & Hs & Hbs)]. split; [done|].
    exists s. split; [|done]. rewrite lookup_insert_ne; [done|]. intros <-. by apply (Hnone o b).
Qed.

(** ** Runs of the contract

    One step is one action, with any authority and arguments; the inline
    transfer of [issue] is a step of its own, so that the actions of other
    contracts may come between. *)
Inductive token_step (cx : context) : token_tables -> token_tables -> Prop :=
| step_create t i m t' es : create cx t i m = Ok (t', es) -> token_step cx t t'
| step_issue t to q memo t' es : issue cx t to q memo = Ok (t', es) -> token_step cx t t'
| step_transfer t f to q memo t' es : transfer cx t f to q memo = Ok (t', es) -> token_step cx t t'.

Definition token_run : token_tables -> token_tables -> Prop := rtc (fun t t' => exists cx, token_step cx t t').

Lemma token_step_ok cx t t' : token_ok t -> token_step cx t t' -> token_ok t'.
Proof.
  intros Hok Hs. destruct Hs as [? ? ? ? ? E|? ? ? ? ? ? E|? ? ? ? ? ? ? E];
  [exact (create_ok _ _ _ _ _ _ Hok E)|exact (issue_ok _ _ _ _ _ _ _ Hok E)|exact (transfer_ok _ _ _ _ _ _ _ _ Hok E)].
Qed.

Lemma token_run_ok t t' : token_ok t -> token_run t t' -> token_ok t'.
Proof.
  intros Hok Hrun. induction Hrun as [|t u t' [cx Hs] _ IH]; [done|].
  apply IH. by apply (token_step_ok cx t).
Qed.

(** C31: in every state the contract can reach from empty tables the balances of a
    created token add up to its supply, which never exceeds the maximum supply
    fixed when it was created; every balance is positive, within the supply and
    of the token's symbol. *)
Theorem token_conservation t n s :
  token_run empty_tables t -> stats t !! n = Some s ->
  total_balance n t = amount (supply s) /\
  0 <= amount (supply s) <= amount (max_supply s) /\ amount (max_supply s) <= max_amount /\
  forall o b, accounts t !! (o, n) = Some b ->
    0 < amount b <= amount (supply s) /\ symbol b = symbol (supply s).
Proof.
  intros Hrun Hs. pose proof (token_run_ok _ _ empty_tables_ok Hrun) as Hok.
  destruct (tk_supply t Hok n s Hs). split_and!; try lia; [by apply (tk_sum t Hok)|].
  intros o b Hb. split; [by apply (balance_le_supply t o n b s)|].
  destruct (tk_balance t Hok o n b Hb) as [_ (s' & Hs' & ->)]. congruence.
Qed.

(** A token, once created, keeps its maximum supply and its issuer. *)
Lemma token_step_stats cx t t' n s :
  token_step cx t t' -> stats t !! n = Some s ->
  exists s', stats t' !! n = Some s' /\ max_supply s' = max_supply s /\ issuer s' = issuer s /\
    amount (supply s) <= amount (supply s').
Proof.
  intros Hstep Hs. destruct Hstep as [t i m t' es E|t to q memo t' es E|t f to q memo t' es E].
  - apply create_Ok in E as (_ & Hnew & _ & -> & _). exists s. simpl. split_and!; try done.
    rewrite lookup_insert_ne; [done|]. congruence.
  - apply issue_Ok in E as (st & s' & Hst & _ & Hq & _ & _ & Hs' & _ & Hadd & _).
    apply add_balance_Ok in Hadd as (-> & _); [|done]. simpl.
    destruct (decide (n = symbol_value_name (symbol q))) as [->|Hne].
    + rewrite lookup_insert_eq. eexists. split; [done|]. simplify_eq. simpl. split_and!; done || lia.
    + rewrite lookup_insert_ne by done. by exists s.
  - apply transfer_Ok in E as (st & t1 & _ & _ & _ & _ & Hq & _ & Hsub & Hadd & _).
    apply add_balance_Ok in Hadd as (-> & _); [|lia]. apply sub_balance_Ok in Hsub as (-> & _); [|lia].
    by exists s.
Qed.

Lemma token_run_stats t t' n s :
  token_run t t' -> stats t !! n = Some s ->
  exists s', stats t' !! n = Some s' /\ max_supply s' = max_supply s /\ issuer s' = issuer s /\
    amount (supply s) <= amount (supply s').
Proof.
  intros Hrun. revert s. induction Hrun as [t|t u t' [cx Hstep] _ IH]; intros s Hs; [by exists s|].
  destruct (token_step_stats cx t u n s Hstep Hs) as (s1 & Hs1 & Hm & Hi & Hle).
  destruct (IH s1 Hs1) as (s2 & Hs2 & Hm2 & Hi2 & Hle2). exists s2.
  split_and!; try done; try congruence. lia.
Qed.

(** ** Acceptance and effect of the actions *)

(** [q] moved from [from] to [to] and nothing else changed. *)
Definition moved (t t' : token_tables) (from to : Z) (q : asset) : Prop :=
  let n := symbol_value_name (symbol q) in
  stats t' = stats t /\
  balance t' from n = balance t from n - amount q /\ balance t' to n = balance t to n + amount q /\
  forall o m, (o, m) <> (from, n) -> (o, m) <> (to, n) -> balance t' o m = balance t o m.

(** What [transfer] asks for. *)
Definition transfer_allowed (cx : context) (t : token_tables) (from to : Z) (q : asset) (memo : list Z) : Prop :=
  let n := symbol_value_name (symbol q) in
  from <> to /\ has_auth cx from = true /\ is_account cx to = true /\
  (exists st, stats t !! n = Some st /\ symbol q = symbol (supply st)) /\
  is_valid q = true /\ 0 < amount q <= balance t from n /\ (length memo <= 256)%nat.

Lemma transfer_moves cx t from to q memo t' es :
  transfer cx t from to q memo = Ok (t', es) ->
  transfer_allowed cx t from to q memo /\ moved t t' from to q /\
  es = [require_recipient from; require_recipient to].
Proof.
  intros E. assert (is_valid q = true /\ (length memo <= 256)%nat) as [Hv Hm].
  { unfold transfer, snax_assert in E. inv_ok. split_bool. split; [done|by apply Nat.leb_le]. }
  apply transfer_Ok in E as (st & t1 & Hft & Ha & Hto & Hst & Hq & Hsy & Hsub & Hadd & Hes).
  apply sub_balance_Ok in Hsub as (Hs1 & Hb1 & Hle & Ho1 & _); [|lia].
  apply add_balance_Ok in Hadd as (Hs2 & Hb2 & Ho2 & _); [|lia].
  set (n := symbol_value_name (symbol q)) in *.
  assert (forall o m, (o, m) <> (from, n) -> balance t1 o m = balance t o m) as Hk1.
  { intros o m Hne. unfold balance. by rewrite Ho1. }
  assert (forall o m, (o, m) <> (to, n) -> balance t' o m = balance t1 o m) as Hk2.
  { intros o m Hne. unfold balance. by rewrite Ho2. }
  split; [|split; [|done]]; unfold transfer_allowed, moved; fold n; split_and!; try done; try lia; eauto.
  - congruence.
  - rewrite Hk2 by congruence. done.
  - rewrite Hb2, Hk1 by congruence. done.
  - intros o m Hf Ht. by rewrite Hk2, Hk1.
Qed.

Lemma checked_i64_in z : is_i64 z -> checked_i64 z = Ok z.
Proof. intros Hz. unfold checked_i64. by rewrite bool_decide_true. Qed.

(** Sums and differences within the range of assets are computed. *)
Lemma asset_add_in x a :
  symbol a = symbol x -> - max_amount <= amount x + amount a <= max_amount ->
  asset_add x a = Ok (mk_asset (amount x + amount a) (symbol x)).
Proof.
  unfold asset_add, snax_assert. intros -> Hr. rewrite Z.eqb_refl, checked_i64_in.
  - simpl. destruct (Z.leb_spec (- max_amount) (amount x + amount a)); [|lia].
    destruct (Z.leb_spec (amount x + amount a) max_amount); [done|lia].
  - unfold is_i64, max_amount in *. lia.
Qed.

Lemma asset_sub_in x a :
  symbol a = symbol x -> - max_amount <= amount x - amount a <= max_amount ->
  asset_sub x a = Ok (mk_asset (amount x - amount a) (symbol x)).
Proof.
  unfold asset_sub, snax_assert. intros -> Hr. rewrite Z.eqb_refl, checked_i64_in.
  - simpl. destruct (Z.leb_spec (- max_amount) (amount x - amount a)); [|lia].
    destruct (Z.leb_spec (amount x - amount a) max_amount); [done|lia].
  - unfold is_i64, max_amount in *. lia.
Qed.

Lemma sub_balance_total t o v st :
  token_ok t -> stats t !! symbol_value_name (symbol v) = Some st -> symbol v = symbol (supply st) ->
  0 < amount v <= balance t o (symbol_value_name (symbol v)) -> exists t', sub_balance t o v = Ok t'.
Proof.
  intros Hok Hst Hsym Hv. unfold sub_balance, balance in *.
  destruct (accounts t !! _) as [b|] eqn:Hb; [|lia]. simpl.
  pose proof (balance_le_supply t o _ b st Hok Hb Hst). destruct (tk_supply t Hok _ st Hst).
  destruct (tk_balance t Hok o _ b Hb) as [_ (s & Hs & Hsb)].
  unfold snax_assert. destruct (Z.leb_spec (amount v) (amount b)); [|lia]. simpl.
  destruct (amount b =? amount v); [by eexists|].
  rewrite asset_sub_in; [by eexists|congruence|lia].
Qed.

Lemma add_balance_total t o v : in_flight v t -> exists t', add_balance t o v = Ok t'.
Proof.
  intros Hfl. destruct (if_value v t Hfl) as [Hv (st & Hst & Hsym)]. unfold add_balance.
  destruct (accounts t !! _) as [b|] eqn:Hb; [|by eexists].
  destruct (if_balance v t Hfl o _ b Hb) as [Hpos (s & Hs & Hsb)]. assert (s = st) as -> by congruence.
  destruct (if_supply v t Hfl _ st Hst). pose proof (if_sum v t Hfl _ st Hst) as Hsum. rewrite Z.eqb_refl in Hsum.
  assert (amount b <= total_balance (symbol_value_name (symbol v)) t).
  { apply (balance_le_total t o _ b); [|done]. intros. by eapply (if_balance v t Hfl). }
  rewrite asset_add_in; [by eexists|congruence|lia].
Qed.

Lemma transfer_total cx t from to q memo :
  token_ok t -> transfer_allowed cx t from to q memo ->
  exists t', transfer cx t from to q memo = Ok (t', [require_recipient from; require_recipient to]).
Proof.
  intros Hok (Hft & Ha & Hto & (st & Hst & Hsym) & Hv & Hq & Hm).
  destruct (sub_balance_total t from q st Hok Hst Hsym Hq) as [t1 Ht1].
  destruct (add_balance_total t1 to q) as [t2 Ht2].
  { eapply sub_balance_in_flight; try done; lia. }
  exists t2. unfold transfer, snax_assert, require_auth.
  destruct (Z.eqb_spec from to); [done|]. rewrite Ha, Hto, Hst. simpl. rewrite Hv, Hsym, Z.eqb_refl.
  destruct (Z.ltb_spec 0 (amount q)); [|lia]. apply Nat.leb_le in Hm. rewrite Hm. simpl.
  rewrite Ht1. simpl. by rewrite Ht2.
Qed.

(** C32: [transfer] succeeds exactly when the accounts differ, the recipient
    exists, the sender authorised it and has the balance, the quantity is a
    positive asset of the token's symbol and the memo is short; it then moves
    exactly [quantity] from the sender to the recipient, changes nothing else and
    notifies both. Otherwise it throws. No balance can overflow. *)
Theorem transfer_exact cx t from to q memo :
  token_ok t ->
  (transfer_allowed cx t from to q memo /\ exists t',
     transfer cx t from to q memo = Ok (t', [require_recipient from; require_recipient to]) /\
     moved t t' from to q /\ token_ok t') \/
  (~ transfer_allowed cx t from to q memo /\ exists e, transfer cx t from to q memo = Err e).
Proof.
  intros Hok. destruct (transfer cx t from to q memo) as [[t' es]|e] eqn:E.
  - left. destruct (transfer_moves _ _ _ _ _ _ _ _ E) as (Hall & Hmv & ->). split; [done|].
    exists t'. split_and!; try done. by apply transfer_ok in E.
  - right. split; [|by eexists]. intros Hall.
    destruct (transfer_total cx t from to q memo Hok Hall) as [t' Ht']. congruence.
Qed.

(** What [issue] asks for, its inline transfer included. *)
Definition issue_allowed (cx : context) (t : token_tables) (st : currency_stats) (to : Z) (q : asset)
    (memo : list Z) : Prop :=
  has_auth cx (issuer st) = true /\ symbol q = symbol (supply st) /\ is_valid q = true /\
  0 < amount q <= amount (max_supply st) - amount (supply st) /\ (length memo <= 256)%nat /\
  (to = issuer st \/ is_account cx to = true).

Lemma issue_total cx t to q memo st :
  token_ok t -> stats t !! symbol_value_name (symbol q) = Some st -> issue_allowed cx t st to q memo ->
  exists t', issue cx t to q memo =
    Ok (t', if negb (to =? issuer st) then [send_inline_transfer (issuer st) to q memo] else []).
Proof.
  intros Hok Hst (Ha & Hsym & Hv & Hq & Hm & _). set (n := symbol_value_name (symbol q)) in *.
  destruct (tk_supply t Hok n st Hst) as [Hs Hmax].
  destruct (add_balance_total (mk_tables (<[n := mk_stats (mk_asset (amount (supply st) + amount q)
    (symbol (supply st))) (max_supply st) (issuer st)]> (stats t)) (accounts t)) (issuer st) q) as [t' Ht'].
  { apply (grow_supply_in_flight t q st); simpl; try done; lia. }
  exists t'. unfold issue, snax_assert, require_auth. apply Nat.leb_le in Hm.
  assert (is_valid_symbol (symbol q) = true) as -> by (unfold is_valid in Hv; by split_bool).
  rewrite Hm. simpl. fold n. rewrite Hst. simpl. rewrite Ha, Hv. simpl.
  destruct (Z.ltb_spec 0 (amount q)); [|lia]. rewrite Hsym, Z.eqb_refl. simpl.
  rewrite checked_i64_in by (unfold is_i64, max_amount in *; lia). simpl.
  destruct (Z.leb_spec (amount q) (amount (max_supply st) - amount (supply st))); [|lia]. simpl.
  rewrite asset_add_in by (done || lia). simpl. by rewrite Ht'.
Qed.

(** An [issue] that the issuer authorised, of a valid positive quantity
    within what the maximum supply leaves, to an existing account, succeeds
    together with its inline transfer: the supply grows by the quantity, the
    recipient's balance too, and no other balance changes, the issuer's
    included. *)
Theorem issue_delivers cx t to q memo st :
  token_ok t -> let n := symbol_value_name (symbol q) in
  stats t !! n = Some st -> issue_allowed cx t st to q memo ->
  exists t' st', run_action cx (issue cx t to q memo) = Ok t' /\ token_ok t' /\
  stats t' = <[n := st']> (stats t) /\ issuer st' = issuer st /\ max_supply st' = max_supply st /\
  amount (supply st') = amount (supply st) + amount q /\
  forall o m, balance t' o m = balance t o m + if decide ((o, m) = (to, n)) then amount q else 0.
Proof.
  intros Hok n Hst Hall. destruct (issue_total cx t to q memo st Hok Hst Hall) as [t1 E].
  rewrite E. unfold run_action. simpl. pose proof (issue_ok _ _ _ _ _ _ _ Hok E) as Hok1.
  destruct Hall as (_ & Hsym & Hv & Hq & Hm & Hacc).
  apply issue_Ok in E as (st0 & s & Hst0 & _ & _ & _ & _ & Hs & Hss & Hadd & _). fold n in Hst0, Hadd. simplify_eq.
  apply add_balance_Ok in Hadd as (Hs1 & Hb1 & Ho1 & _); [|lia]. fold n in Hb1, Ho1. simpl in Hs1.
  assert (forall o m, balance t1 o m = balance t o m + if decide ((o, m) = (issuer st, n)) then amount q else 0)
    as Hbal1.
  { intros o m. case_decide as Hom; [|unfold balance; rewrite Ho1 by done; simpl; lia].
    simplify_eq. rewrite Hb1. done. }
  destruct (Z.eqb_spec to (issuer st)) as [->|Hne]; simpl.
  - exists t1, (mk_stats s (max_supply st) (issuer st)). by rewrite Hs1.
  - destruct Hacc as [|Hacc]; [done|].
    set (cx' := mk_context (self cx) (fun a => a =? issuer st) (is_account cx)).
    destruct (transfer_total cx' t1 (issuer st) to q memo Hok1) as [t2 E2].
    { unfold transfer_allowed. fold n. split_and!; try done; try lia; simpl.
      - by rewrite Z.eqb_refl.
      - rewrite Hs1, lookup_insert_eq. eexists. split; [done|]. by rewrite <- Hss.
      - rewrite Hb1. assert (0 <= balance t (issuer st) n); [|unfold balance in *; simpl; lia].
        unfold balance. destruct (accounts t !! _) as [b|] eqn:Hb; [|lia]. destruct (tk_balance t Hok _ _ b Hb). lia. }
    rewrite E2. simpl. pose proof (transfer_ok _ _ _ _ _ _ _ _ Hok1 E2) as Hok2.
    apply transfer_moves in E2 as (_ & (Hs2 & Hf & Ht & Hr) & _). fold n in Hf, Ht, Hr.
    exists t2, (mk_stats s (max_supply st) (issuer st)). split_and!; try done; [by rewrite Hs2, Hs1|].
    intros o m. case_decide as Hom; [simplify_eq; rewrite Ht, Hbal1, decide_False by congruence; lia|].
    destruct (decide ((o, m) = (issuer st, n))) as [Hi|Hi].
    + simplify_eq. rewrite Hf, Hbal1, decide_True by done. lia.
    + rewrite Hr, Hbal1, decide_False by done. done.
Qed.

(** ** Witnesses *)
Module Runs.

(** The symbol "4,SNAX", and a token of it. *)
Definition SNAX : Z := 4 + Z.shiftl 83 8 + Z.shiftl 78 16 + Z.shiftl 65 24 + Z.shiftl 88 32.
Definition cx (a : Z) : context := mk_context 1 (fun b => b =? a) (fun b => b <? 10).
Definition quantity (a : Z) : asset := mk_asset a SNAX.

Definition created : token_tables :=
  mk_tables {[symbol_value_name SNAX := mk_stats (quantity 0) (quantity 1000) 2]} ∅.
Definition issued : token_tables :=
  mk_tables {[symbol_value_name SNAX := mk_stats (quantity 300) (quantity 1000) 2]}
    {[(2, symbol_value_name SNAX) := quantity 300]}.
Definition shared : token_tables :=
  mk_tables {[symbol_value_name SNAX := mk_stats (quantity 300) (quantity 1000) 2]}
    (<[(3, symbol_value_name SNAX) := quantity 100]> {[(2, symbol_value_name SNAX) := quantity 200]}).

Lemma shared_run : token_run empty_tables shared.
Proof.
  eapply rtc_l; [exists (cx 1); apply (step_create _ _ 2 (quantity 1000) created []); vm_compute; reflexivity|].
  eapply rtc_l; [exists (cx 2); apply (step_issue _ _ 3 (quantity 300) [] issued
    [send_inline_transfer 2 3 (quantity 300) []]); vm_compute; reflexivity|].
  eapply rtc_l; [exists (cx 2); apply (step_transfer _ _ 2 3 (quantity 100) [] shared
    [require_recipient 2; require_recipient 3]); vm_compute; reflexivity|].
  apply rtc_refl.
Qed.

Lemma token_conservation_witness :
  stats shared !! symbol_value_name SNAX = Some (mk_stats (quantity 300) (quantity 1000) 2) /\
  total_balance (symbol_value_name SNAX) shared = amount (quantity 300).
Proof.
  assert (stats shared !! symbol_value_name SNAX = Some (mk_stats (quantity 300) (quantity 1000) 2)) as Hs
    by (vm_compute; reflexivity).
  split; [exact Hs|].
  exact (proj1 (token_conservation shared (symbol_value_name SNAX) _ shared_run Hs)).
Defined.

Lemma transfer_exact_witness :
  exists t', transfer (cx 3) shared 3 4 (quantity 40) [] =
    Ok (t', [require_recipient 3; require_recipient 4]) /\ moved shared t' 3 4 (quantity 40).
Proof.
  destruct (transfer_exact (cx 3) shared 3 4 (quantity 40) []) as [(_ & t' & E & Hm & _)|(_ & e & E)].
  - apply (token_run_ok empty_tables); [apply empty_tables_ok|apply shared_run].
  - exists t'. split; [exact E|exact Hm].
  - exfalso. assert (is_Ok (transfer (cx 3) shared 3 4 (quantity 40) []) = true) as H by (vm_compute; reflexivity).
    rewrite E in H. discriminate H.
Defined.

Lemma issue_delivers_witness :
  exists t' st', run_action (cx 2) (issue (cx 2) shared 5 (quantity 700) []) = Ok t' /\
  stats t' = <[symbol_value_name SNAX := st']> (stats shared) /\ amount (supply st') = 1000.
Proof.
  destruct (issue_delivers (cx 2) shared 5 (quantity 700) [] (mk_stats (quantity 300) (quantity 1000) 2))
    as (t' & st' & E & _ & Hs & _ & _ & Ha & _).
  - apply (token_run_ok empty_tables); [apply empty_tables_ok|apply shared_run].
  - vm_compute. reflexivity.
  - unfold issue_allowed. split_and!; simpl; try (vm_compute; reflexivity); lia.
  - exists t', st'. split; [exact E|]. split; [exact Hs|exact Ha].
Defined.

End Runs.
