(* ===== verification/Permissions.v ===== *)
(** * Permissions and the authorization manager

    [permission_object.hpp], [permission_link_object.hpp] and
    [authorization_manager.cpp] of [libraries/chain]: the tree of permissions of
    every account, the links from contract actions to permissions, and the check
    that the authorizations a transaction declares are relevant and satisfied.

    The chainbase tables are maps by id; their other unique indices are searches
    of the map. A chainbase session undoes everything when an exception is
    thrown, so an operation returns the new tables or an exception. Loading and
    saving snapshots is not part of the model. *)

From Stdlib Require Import ZArith Lia Bool String.
From stdpp Require Import base numbers gmap sorting list.
From S2P Require Import Prelude Name Merkle BlockHeader Authority.

Open Scope Z_scope.

(** ** Names of [config.hpp] and of the native actions *)

Definition system_account_name : Z := Eval vm_compute in N_ "snax".
Definition null_account_name : Z := Eval vm_compute in N_ "snax.null".
Definition producers_account_name : Z := Eval vm_compute in N_ "snax.prods".
Definition majority_producers_permission_name : Z := Eval vm_compute in N_ "prod.major".
Definition minority_producers_permission_name : Z := Eval vm_compute in N_ "prod.minor".
Definition active_name : Z := Eval vm_compute in N_ "active".
Definition owner_name : Z := Eval vm_compute in N_ "owner".
Definition snax_any_name : Z := Eval vm_compute in N_ "snax.any".
Definition snax_code_name : Z := Eval vm_compute in N_ "snax.code".
Definition updateauth_name : Z := Eval vm_compute in N_ "updateauth".
Definition deleteauth_name : Z := Eval vm_compute in N_ "deleteauth".
Definition linkauth_name : Z := Eval vm_compute in N_ "linkauth".
Definition unlinkauth_name : Z := Eval vm_compute in N_ "unlinkauth".
Definition canceldelay_name : Z := Eval vm_compute in N_ "canceldelay".

(** ** Tables *)

Record permission_object := mk_permission {
  po_usage_id : Z;
  po_parent : Z;
  po_owner : account_name;
  po_name : Z;
  po_last_updated : Z;
  po_auth : authority
}.

(** The links are keyed by account, code and action name. *)
Record authorization_db := mk_auth_db {
  permission_index : gmap Z permission_object;
  next_permission_id : Z;
  permission_usage_index : gmap Z Z;
  next_usage_id : Z;
  permission_link_index : gmap (Z * Z * Z) Z
}.

(** The index [by_owner]: at most one row has this owner and name. *)
Definition by_owner (db : authorization_db) (o n : Z) : option (Z * permission_object) :=
  head (filter (fun r => po_owner r.2 = o /\ po_name r.2 = n) (map_to_list (permission_index db))).

(** The rows of the index [by_parent] with this parent. *)
Definition by_parent (db : authorization_db) (i : Z) : list (Z * permission_object) :=
  filter (fun r => po_parent r.2 = i) (map_to_list (permission_index db)).

(** The first row of the index [by_name] with this name, of any owner. *)
Definition by_name (db : authorization_db) (n : Z) : option (Z * permission_object) :=
  head (filter (fun r => po_name r.2 = n) (map_to_list (permission_index db))).

(** The links of the index [by_permission_name] with this account and permission. *)
Definition by_permission_name (db : authorization_db) (a p : Z) : list (Z * Z * Z * Z) :=
  filter (fun l => l.1.1.1 = a /\ l.2 = p) (map_to_list (permission_link_index db)).

Definition set_permissions (db : authorization_db) (m : gmap Z permission_object) : authorization_db :=
  mk_auth_db m (next_permission_id db) (permission_usage_index db) (next_usage_id db) (permission_link_index db).
Definition set_links (db : authorization_db) (m : gmap (Z * Z * Z) Z) : authorization_db :=
  mk_auth_db (permission_index db) (next_permission_id db) (permission_usage_index db) (next_usage_id db) m.
Definition set_usages (db : authorization_db) (m : gmap Z Z) : authorization_db :=
  mk_auth_db (permission_index db) (next_permission_id db) m (next_usage_id db) (permission_link_index db).

(** [create<permission_usage_object>] and [create<permission_object>]: ids count
    up; a row that breaks a unique index is refused. *)
Definition create_usage (db : authorization_db) (last_used : Z) : authorization_db * Z :=
  let i := next_usage_id db in
  (mk_auth_db (permission_index db) (next_permission_id db) (<[i := last_used]> (permission_usage_index db))
     (i + 1) (permission_link_index db), i).

Definition create_row (db : authorization_db) (p : permission_object) : result (authorization_db * Z) :=
  SNAX_ASSERT (match by_owner db (po_owner p) (po_name p) with None => true | Some _ => false end)
    uniqueness_violation;;
  let i := next_permission_id db in
  mret (mk_auth_db (<[i := p]> (permission_index db)) (i + 1) (permission_usage_index db)
          (next_usage_id db) (permission_link_index db), i).

Definition empty_auth_db : authorization_db := mk_auth_db ∅ 0 ∅ 0 ∅.
Definition empty_authority : authority := mk_authority 0 [] [] [].

(** The reserved permission 0. *)
Definition initialize_auth_db : result authorization_db :=
  '(db, _) ← create_row empty_auth_db (mk_permission 0 0 0 0 0 empty_authority);
  mret db.

(** ** Permissions *)

(** [now] is the time of the pending block; an initial creation time of zero
    stands for it. *)
Definition create_permission (db : authorization_db) (now : Z) (account name parent : Z) (auth : authority)
    (initial_creation_time : Z) : result (authorization_db * Z) :=
  let creation_time := if initial_creation_time =? 0 then now else initial_creation_time in
  let '(db, usage_id) := create_usage db creation_time in
  create_row db (mk_permission usage_id parent account name creation_time auth).

Definition with_auth (p : permission_object) (auth : authority) (now : Z) : permission_object :=
  mk_permission (po_usage_id p) (po_parent p) (po_owner p) (po_name p) now auth.

Definition modify_permission (db : authorization_db) (now : Z) (i : Z) (p : permission_object)
    (auth : authority) : authorization_db :=
  set_permissions db (<[i := with_auth p auth now]> (permission_index db)).

Definition remove_permission (db : authorization_db) (i : Z) (p : permission_object) :
    result authorization_db :=
  SNAX_ASSERT (match by_parent db i with [] => true | _ => false end) action_validate_exception;;
  of_option std_out_of_range (permission_usage_index db !! po_usage_id p);;
  let db := set_usages db (delete (po_usage_id p) (permission_usage_index db)) in
  mret (set_permissions db (delete i (permission_index db))).

Definition update_permission_usage (db : authorization_db) (now : Z) (p : permission_object) :
    result authorization_db :=
  of_option std_out_of_range (permission_usage_index db !! po_usage_id p);;
  mret (set_usages db (<[po_usage_id p := now]> (permission_usage_index db))).

Definition get_permission_last_used (db : authorization_db) (p : permission_object) : result Z :=
  of_option std_out_of_range (permission_usage_index db !! po_usage_id p).

Definition valid_level (level : Z * Z) : bool := negb (level.1 =? 0) && negb (level.2 =? 0).

(** A missing row of [get] is rethrown as [permission_query_exception]. *)
Definition find_permission (db : authorization_db) (level : Z * Z) : result (option (Z * permission_object)) :=
  SNAX_ASSERT (valid_level level) invalid_permission;;
  mret (by_owner db level.1 level.2).

Definition get_permission (db : authorization_db) (level : Z * Z) : result (Z * permission_object) :=
  SNAX_ASSERT (valid_level level) invalid_permission;;
  of_option permission_query_exception (by_owner db level.1 level.2).

(** The [while] loop of [satisfies]: [parent] is the row reached. *)
Fixpoint satisfies_loop (fuel : nat) (db : authorization_db) (i : Z) (parent : permission_object) : result bool :=
  match fuel with
  | O => Err out_of_fuel
  | S fuel =>
      if i =? po_parent parent then mret true
      else if po_parent parent =? 0 then mret false
      else match permission_index db !! po_parent parent with
           | None => Err undefined_behavior
           | Some parent => satisfies_loop fuel db i parent
           end
  end.

(** [permission_object::satisfies]: the permission [this] is [other] or above it.
    Ids decrease along the loop, so their number bounds it. *)
Definition satisfies (db : authorization_db) (this other : Z * permission_object) : result bool :=
  if negb (po_owner this.2 =? po_owner other.2) then mret false
  else if (this.1 =? other.1) || (this.1 =? po_parent other.2) then mret true
  else match permission_index db !! po_parent other.2 with
       | None => Err undefined_behavior
       | Some parent => satisfies_loop (S (Z.to_nat (next_permission_id db))) db this.1 parent
       end.

(** ** Links *)

Definition lookup_linked_permission (db : authorization_db) (authorizer scope act_name : Z) : option Z :=
  match permission_link_index db !! (authorizer, scope, act_name) with
  | Some r => Some r
  | None => permission_link_index db !! (authorizer, scope, 0)
  end.

(** The actions of the system account that cannot be linked. *)
Definition unlinkable (act_name : Z) : bool :=
  (act_name =? updateauth_name) || (act_name =? deleteauth_name) || (act_name =? linkauth_name) ||
  (act_name =? unlinkauth_name) || (act_name =? canceldelay_name).

(** No permission is needed for an action linked to [snax.any]. *)
Definition lookup_minimum_permission (db : authorization_db) (authorizer scope act_name : Z) :
    result (option Z) :=
  (if scope =? system_account_name
   then SNAX_ASSERT (negb (unlinkable act_name)) unlinkable_min_permission_action
   else mret tt);;
  match lookup_linked_permission db authorizer scope act_name with
  | None => mret (Some active_name)
  | Some l => if l =? snax_any_name then mret None else mret (Some l)
  end.

(** ** Actions *)

Record action := mk_action {
  act_account : account_name;
  act_name : Z;
  act_authorization : list (Z * Z);
  act_data : list Z
}.

Record updateauth := mk_updateauth { ua_account : Z; ua_permission : Z; ua_parent : Z; ua_auth : authority }.
Record deleteauth := mk_deleteauth { da_account : Z; da_permission : Z }.
Record linkauth := mk_linkauth { la_account : Z; la_code : Z; la_type : Z; la_requirement : Z }.
Record unlinkauth := mk_unlinkauth { ul_account : Z; ul_code : Z; ul_type : Z }.
Record canceldelay := mk_canceldelay { cd_canceling_auth : Z * Z; cd_trx_id : digest }.

Record generated_transaction_object := mk_generated {
  gt_sender : account_name;
  gt_sender_id : Z;
  gt_payer : account_name;
  gt_delay_until : Z;
  gt_expiration : Z;
  gt_published : Z;
  gt_packed_trx : list Z
}.

(** [data_as] and [fc::raw::unpack]: the serialization is not part of the model. *)
Class ActionData := {
  as_updateauth : list Z -> result updateauth;
  as_deleteauth : list Z -> result deleteauth;
  as_linkauth : list Z -> result linkauth;
  as_unlinkauth : list Z -> result unlinkauth;
  as_canceldelay : list Z -> result canceldelay;
  unpack_transaction : list Z -> result (list action)
}.

(** The two values of the chain's configuration the checks use: seconds and a
    depth. *)
Record auth_config := mk_auth_config { max_transaction_delay : Z; max_authority_depth : nat }.

(** ** Who may change permissions and links *)

(** [auths.size() == 1] and [auths[0]]. *)
Definition single_authorization (auths : list (Z * Z)) : result (Z * Z) :=
  match auths with [auth] => mret auth | _ => Err irrelevant_auth_exception end.

(** [get_permission( auth ).satisfies( min_permission, .. )] as a requirement. *)
Definition require_satisfies (db : authorization_db) (auth : Z * Z) (min_permission : Z * permission_object) :
    result unit :=
  p ← get_permission db auth;
  b ← satisfies db p min_permission;
  SNAX_ASSERT b irrelevant_auth_exception.

Definition check_updateauth_authorization (db : authorization_db) (update : updateauth) (auths : list (Z * Z)) :
    result unit :=
  auth ← single_authorization auths;
  SNAX_ASSERT (auth.1 =? ua_account update) irrelevant_auth_exception;;
  found ← find_permission db (ua_account update, ua_permission update);
  min_permission ← match found with
                   | Some p => mret p
                   | None => get_permission db (ua_account update, ua_parent update)
                   end;
  require_satisfies db auth min_permission.

Definition check_deleteauth_authorization (db : authorization_db) (del : deleteauth) (auths : list (Z * Z)) :
    result unit :=
  auth ← single_authorization auths;
  SNAX_ASSERT (auth.1 =? da_account del) irrelevant_auth_exception;;
  min_permission ← get_permission db (da_account del, da_permission del);
  require_satisfies db auth min_permission.

Definition check_linkauth_authorization (db : authorization_db) (link : linkauth) (auths : list (Z * Z)) :
    result unit :=
  auth ← single_authorization auths;
  SNAX_ASSERT (auth.1 =? la_account link) irrelevant_auth_exception;;
  SNAX_ASSERT (negb (unlinkable (la_type link))) action_validate_exception;;
  linked_permission_name ← lookup_minimum_permission db (la_account link) (la_code link) (la_type link);
  match linked_permission_name with
  | None => mret tt
  | Some n =>
      min_permission ← get_permission db (la_account link, n);
      require_satisfies db auth min_permission
  end.

Definition check_unlinkauth_authorization (db : authorization_db) (unlink : unlinkauth) (auths : list (Z * Z)) :
    result unit :=
  auth ← single_authorization auths;
  SNAX_ASSERT (auth.1 =? ul_account unlink) irrelevant_auth_exception;;
  n ← of_option transaction_exception
        (lookup_linked_permission db (ul_account unlink) (ul_code unlink) (ul_type unlink));
  if n =? snax_any_name then mret tt
  else
    min_permission ← get_permission db (ul_account unlink, n);
    require_satisfies db auth min_permission.

Section Check.
Context `{MetaOrder} `{ActionData}.

(** The deferred transactions are keyed by their id, the key of the index
    [by_trx_id]. *)
Definition check_canceldelay_authorization (db : authorization_db)
    (generated : gmap digest generated_transaction_object) (cancel : canceldelay) (auths : list (Z * Z)) : result Z :=
  auth ← single_authorization auths;
  min_permission ← get_permission db (cd_canceling_auth cancel);
  require_satisfies db auth min_permission;;
  itr ← of_option tx_not_found (generated !! cd_trx_id cancel);
  SNAX_ASSERT (gt_sender itr =? 0) tx_not_found;;
  trx ← unpack_transaction (gt_packed_trx itr);
  let found := existsb (fun act =>
    existsb (fun a => bool_decide (a = cd_canceling_auth cancel)) (act_authorization act)) trx in
  SNAX_ASSERT found action_validate_exception;;
  mret (gt_delay_until itr - gt_published itr).

Definition microseconds_maximum : Z := 0x7fffffffffffffff.

Definition effective_delay (cfg : auth_config) (provided_delay : Z) : Z :=
  if max_transaction_delay cfg * 1000000 <=? provided_delay then microseconds_maximum else provided_delay.

(** The argument [permission_to_authority] of the checker. *)
Definition permission_authority (db : authorization_db) (p : Z * Z) : result authority :=
  '(_, po) ← get_permission db p; mret (po_auth po).

(** The special cases: whether the action is one, and the delay its
    authorizations need. *)
Definition check_native (db : authorization_db) (generated : gmap digest generated_transaction_object)
    (act : action) (delay : Z) : result (bool * Z) :=
  if act_account act =? system_account_name then
    if act_name act =? updateauth_name then
      d ← as_updateauth (act_data act);
      check_updateauth_authorization db d (act_authorization act);; mret (true, delay)
    else if act_name act =? deleteauth_name then
      d ← as_deleteauth (act_data act);
      check_deleteauth_authorization db d (act_authorization act);; mret (true, delay)
    else if act_name act =? linkauth_name then
      d ← as_linkauth (act_data act);
      check_linkauth_authorization db d (act_authorization act);; mret (true, delay)
    else if act_name act =? unlinkauth_name then
      d ← as_unlinkauth (act_data act);
      check_unlinkauth_authorization db d (act_authorization act);; mret (true, delay)
    else if act_name act =? canceldelay_name then
      d ← as_canceldelay (act_data act);
      cancel_delay ← check_canceldelay_authorization db generated d (act_authorization act);
      mret (true, Z.max delay cancel_delay)
    else mret (false, delay)
  else mret (false, delay).

(** The declared authorization must be at least the minimum permission. *)
Definition check_relevant (db : authorization_db) (act : action) (declared_auth : Z * Z) : result unit :=
  min_permission_name ← lookup_minimum_permission db declared_auth.1 (act_account act) (act_name act);
  match min_permission_name with
  | None => mret tt
  | Some n =>
      min_permission ← get_permission db (declared_auth.1, n);
      require_satisfies db declared_auth min_permission
  end.

(** [permissions_to_satisfy.emplace], keeping the smaller delay. *)
Definition emplace_delay (m : gmap (Z * Z) Z) (level : Z * Z) (delay : Z) : gmap (Z * Z) Z :=
  match m !! level with
  | None => <[level := delay]> m
  | Some d => if delay <? d then <[level := delay]> m else m
  end.

(** The loop over the authorizations of one action. *)
Fixpoint collect_auths (db : authorization_db) (act : action) (special_case : bool) (delay : Z)
    (satisfied_authorizations : list (Z * Z)) (auths : list (Z * Z)) (m : gmap (Z * Z) Z) :
    result (gmap (Z * Z) Z) :=
  match auths with
  | [] => mret m
  | declared_auth :: auths =>
      (if special_case then mret tt else check_relevant db act declared_auth);;
      let m := if bool_decide (declared_auth ∈ satisfied_authorizations) then m
               else emplace_delay m declared_auth delay in
      collect_auths db act special_case delay satisfied_authorizations auths m
  end.

Fixpoint collect_actions (db : authorization_db) (generated : gmap digest generated_transaction_object)
    (delay : Z) (satisfied_authorizations : list (Z * Z)) (actions : list action) (m : gmap (Z * Z) Z) :
    result (gmap (Z * Z) Z) :=
  match actions with
  | [] => mret m
  | act :: actions =>
      '(special_case, act_delay) ← check_native db generated act delay;
      m ← collect_auths db act special_case act_delay satisfied_authorizations (act_authorization act) m;
      collect_actions db generated delay satisfied_authorizations actions m
  end.

(** The map is traversed in ascending order. *)
Definition level_le (a b : Z * Z * Z) : Prop := level_ltb b.1 a.1 = false.
#[export] Instance level_le_dec : RelDecision level_le.
Proof. intros a b. unfold level_le. apply _. Defined.

Definition ascending (m : gmap (Z * Z) Z) : list (Z * Z * Z) := merge_sort level_le (map_to_list m).

Fixpoint satisfy_all (db : authorization_db) (c : authority_checker) (ps : list (Z * Z * Z)) :
    result authority_checker :=
  match ps with
  | [] => mret c
  | (p, delay) :: ps =>
      '(b, c) ← satisfied_permission_with_delay (permission_authority db) c p delay;
      SNAX_ASSERT b unsatisfied_authorization;;
      satisfy_all db c ps
  end.

(** [check_authorization( actions, .. )]; [checktime], a deadline callback, is
    left out. *)
Definition check_authorization (db : authorization_db) (generated : gmap digest generated_transaction_object)
    (cfg : auth_config) (actions : list action) (provided_keys : list public_key_type)
    (provided_permissions : list (Z * Z)) (provided_delay : Z) (allow_unused_keys : bool)
    (satisfied_authorizations : list (Z * Z)) : result unit :=
  let delay := effective_delay cfg provided_delay in
  let checker := make_auth_checker (max_authority_depth cfg) provided_keys provided_permissions delay in
  permissions_to_satisfy ← collect_actions db generated delay satisfied_authorizations actions ∅;
  checker ← satisfy_all db checker (ascending permissions_to_satisfy);
  if allow_unused_keys then mret tt else SNAX_ASSERT (all_keys_used checker) tx_irrelevant_sig.

(** [check_authorization( account, permission, .. )]. *)
Definition check_permission_authorization (db : authorization_db) (cfg : auth_config) (account permission : Z)
    (provided_keys : list public_key_type) (provided_permissions : list (Z * Z)) (provided_delay : Z)
    (allow_unused_keys : bool) : result unit :=
  let checker := make_auth_checker (max_authority_depth cfg) provided_keys provided_permissions
                   (effective_delay cfg provided_delay) in
  '(b, checker) ← satisfied_permission (permission_authority db) checker (account, permission) None;
  SNAX_ASSERT b unsatisfied_authorization;;
  if allow_unused_keys then mret tt else SNAX_ASSERT (all_keys_used checker) tx_irrelevant_sig.

Fixpoint require_all (db : authorization_db) (c : authority_checker) (auths : list (Z * Z)) :
    result authority_checker :=
  match auths with
  | [] => mret c
  | declared_auth :: auths =>
      '(b, c) ← satisfied_permission (permission_authority db) c declared_auth None;
      SNAX_ASSERT b unsatisfied_authorization;;
      require_all db c auths
  end.

Definition get_required_keys (db : authorization_db) (cfg : auth_config) (trx_actions : list action)
    (candidate_keys : list public_key_type) (provided_delay : Z) : result (list public_key_type) :=
  let checker := make_auth_checker (max_authority_depth cfg) candidate_keys [] provided_delay in
  checker ← require_all db checker (trx_actions ≫= act_authorization);
  mret (used_keys checker).

End Check.
