(* ===== verification/PermissionsProofs.v ===== *)
(** * Properties of the permission tree and of authorization checks

    The invariant of the permission tables, the exact meaning of [satisfies], and
    what a successful [check_authorization] guarantees ([Permissions.v] has the
    model). *)

From Stdlib Require Import ZArith Lia Bool.
From stdpp Require Import base numbers gmap relations sorting sets list.
From S2P Require Import Prelude Name Merkle BlockHeader Authority AuthorityProofs Permissions.

Open Scope Z_scope.

(** ** The invariant *)

(** The permission 0 is reserved; the permissions of an account form a tree whose
    root is [owner], ids grow downwards, names are unique within an account, and
    every permission has a usage row of its own. *)
Record perms_ok (db : authorization_db) : Prop := {
  ok_reserved : exists p, permission_index db !! 0 = Some p /\
    po_parent p = 0 /\ po_owner p = 0 /\ po_name p = 0;
  ok_ids i p : permission_index db !! i = Some p -> 0 <= i < next_permission_id db;
  ok_named i p : permission_index db !! i = Some p -> i <> 0 -> po_owner p <> 0 /\ po_name p <> 0;
  ok_unique i j p q : permission_index db !! i = Some p -> permission_index db !! j = Some q ->
    po_owner p = po_owner q -> po_name p = po_name q -> i = j;
  ok_parent i p : permission_index db !! i = Some p -> i <> 0 ->
    (po_name p = owner_name <-> po_parent p = 0) /\
    (po_parent p <> 0 -> po_parent p < i /\
       exists q, permission_index db !! po_parent p = Some q /\ po_owner q = po_owner p);
  ok_usage i p : permission_index db !! i = Some p -> i <> 0 ->
    0 <= po_usage_id p < next_usage_id db /\ is_Some (permission_usage_index db !! po_usage_id p);
  ok_usage_unique i j p q : permission_index db !! i = Some p -> permission_index db !! j = Some q ->
    i <> 0 -> j <> 0 -> po_usage_id p = po_usage_id q -> i = j;
  ok_auth i p : permission_index db !! i = Some p -> authority_typed (po_auth p);
  ok_counters : 0 <= next_usage_id db
}.

(** ** Searches *)

Lemma head_filter_Some {A} (P : A -> Prop) `{forall x, Decision (P x)} l x :
  head (filter P l) = Some x -> x ∈ l /\ P x.
Proof.
  intros Hh. apply head_Some_elem_of in Hh. apply list_elem_of_filter in Hh. naive_solver.
Qed.

Lemma head_filter_None {A} (P : A -> Prop) `{forall x, Decision (P x)} l :
  head (filter P l) = None <-> forall x, x ∈ l -> ~ P x.
Proof.
  split.
  - intros Hh x Hx HP. assert (x ∈ filter P l) as Hf by (by apply list_elem_of_filter).
    destruct (filter P l); [by apply not_elem_of_nil in Hf|done].
  - intros Hall. destruct (filter P l) as [|x l'] eqn:E; [done|].
    assert (x ∈ filter P l) as Hf by (rewrite E; apply list_elem_of_here).
    apply list_elem_of_filter in Hf as [HP Hx]. by destruct (Hall x Hx).
Qed.

Lemma by_owner_Some db o n i p :
  by_owner db o n = Some (i, p) -> permission_index db !! i = Some p /\ po_owner p = o /\ po_name p = n.
Proof. intros Hh. apply head_filter_Some in Hh as [Hin HP]. by apply elem_of_map_to_list in Hin. Qed.

Lemma by_owner_None db o n :
  by_owner db o n = None <->
  forall i p, permission_index db !! i = Some p -> po_owner p = o -> po_name p = n -> False.
Proof.
  unfold by_owner. rewrite head_filter_None. split.
  - intros Hall i p Hp Ho Hn. apply (Hall (i, p)); [by apply elem_of_map_to_list|done].
  - intros Hall [i p] Hin [Ho Hn]. apply elem_of_map_to_list in Hin. by apply (Hall i p).
Qed.

Lemma by_owner_lookup db i p :
  perms_ok db -> permission_index db !! i = Some p -> by_owner db (po_owner p) (po_name p) = Some (i, p).
Proof.
  intros Hok Hp. destruct (by_owner db _ _) as [[j q]|] eqn:E.
  - apply by_owner_Some in E as (Hq & Ho & Hn). assert (j = i) as -> by by eapply ok_unique.
    congruence.
  - rewrite by_owner_None in E. by destruct (E i p).
Qed.

Lemma get_permission_Ok db l i p :
  get_permission db l = Ok (i, p) ->
  permission_index db !! i = Some p /\ po_owner p = l.1 /\ po_name p = l.2 /\ l.1 <> 0 /\ l.2 <> 0.
Proof.
  unfold get_permission, valid_level. intros E. inv_ok. split_bool.
  match goal with H : by_owner _ _ _ = Some _ |- _ => apply by_owner_Some in H as (? & ? & ?) end. done.
Qed.

Lemma get_permission_nonzero db l i p : perms_ok db -> get_permission db l = Ok (i, p) -> i <> 0.
Proof.
  intros Hok E. apply get_permission_Ok in E as (Hp & Ho & _ & Hl & _). intros ->.
  destruct (ok_reserved db Hok) as (p0 & Hp0 & _ & Ho0 & _). congruence.
Qed.

(** ** The tree *)

Definition parent_step (db : authorization_db) (i j : Z) : Prop :=
  exists p, permission_index db !! i = Some p /\ po_parent p = j.

(** [i] is [j] or one of the permissions above it. *)
Definition above (db : authorization_db) (i j : Z) : Prop := rtc (parent_step db) j i.

Section Tree.
Context (db : authorization_db) (Hok : perms_ok db).

Lemma parent_zero_loops i : above db i 0 -> i = 0.
Proof.
  unfold above. intros Hs. remember 0 as z eqn:Hz.
  induction Hs as [|x y z (p & Hp & Hpar) _ IH]; [done|]. subst x.
  destruct (ok_reserved db Hok) as (p0 & Hp0 & Hpar0 & _).
  assert (y = 0) as -> by congruence. by apply IH.
Qed.

Lemma above_step i j p :
  permission_index db !! j = Some p -> above db i j <-> i = j \/ above db i (po_parent p).
Proof.
  intros Hp. split.
  - intros Ha. inversion Ha as [|? y ? (q & Hq & Hpar) Hr]; subst; [by left|].
    right. by simplify_eq.
  - intros [->|Ha]; [apply rtc_refl|]. eapply rtc_l; [|done]. by exists p.
Qed.

Lemma above_same_owner i j p q :
  above db i j -> i <> 0 -> permission_index db !! i = Some p -> permission_index db !! j = Some q ->
  po_owner p = po_owner q.
Proof.
  intros Ha Hi Hp. revert q. induction Ha as [|j k i (r & Hr & Hpar) Ha IH]; intros q Hq.
  { by simplify_eq. }
  assert (r = q) as -> by congruence. subst k. destruct (decide (j = 0)) as [->|Hj].
  - destruct (ok_reserved db Hok) as (p0 & Hp0 & Hpar0 & _). simplify_eq.
    rewrite Hpar0 in Ha. by apply parent_zero_loops in Ha.
  - destruct (decide (po_parent q = 0)) as [Hz|Hz]; [rewrite Hz in Ha; by apply parent_zero_loops in Ha|].
    destruct (ok_parent db Hok j q Hq Hj) as [_ Hpq]. destruct (Hpq Hz) as [_ (r & Hr' & Ho)].
    rewrite <- Ho. by apply IH.
Qed.

Lemma satisfies_loop_spec fuel i k par :
  permission_index db !! k = Some par -> (Z.to_nat k < fuel)%nat -> i <> 0 ->
  exists b, satisfies_loop fuel db i par = Ok b /\ (b = true <-> above db i (po_parent par)).
Proof.
  revert k par. induction fuel as [|fuel IH]; intros k par Hk Hf Hi; [lia|]. simpl.
  destruct (Z.eqb_spec i (po_parent par)) as [->|Hne].
  { exists true. split; [done|]. split; [|done]. intros _. apply rtc_refl. }
  destruct (Z.eqb_spec (po_parent par) 0) as [Hz|Hz].
  { exists false. split; [done|]. split; [done|]. rewrite Hz. by intros ?%parent_zero_loops. }
  assert (k <> 0) as Hk0.
  { intros ->. destruct (ok_reserved db Hok) as (p0 & Hp0 & Hpar0 & _). simplify_eq. }
  destruct (ok_parent db Hok k par Hk Hk0) as [_ Hpq]. destruct (Hpq Hz) as [Hlt (q & Hq & _)].
  rewrite Hq. pose proof (ok_ids db Hok _ _ Hq). pose proof (ok_ids db Hok _ _ Hk).
  destruct (IH (po_parent par) q Hq ltac:(lia) Hi) as (b & -> & Hb). exists b. split; [done|].
  rewrite Hb, (above_step i (po_parent par) q Hq). naive_solver.
Qed.

Lemma satisfies_spec i p j q :
  permission_index db !! i = Some p -> i <> 0 -> permission_index db !! j = Some q -> j <> 0 ->
  exists b, satisfies db (i, p) (j, q) = Ok b /\ (b = true <-> above db i j).
Proof.
  intros Hp Hi Hq Hj. unfold satisfies. simpl. setoid_rewrite (above_step i j q Hq).
  destruct (Z.eqb_spec (po_owner p) (po_owner q)) as [Ho|Ho]; simpl.
  2:{ exists false. split; [done|]. split; [done|]. intros Ha. destruct Ho.
      apply (above_same_owner i j p q); try done. by apply (above_step i j q Hq). }
  destruct (Z.eqb_spec i j) as [->|Hij]; simpl; [exists true; naive_solver|].
  destruct (Z.eqb_spec i (po_parent q)) as [Hpar|Hpar].
  { exists true. split; [done|]. split; [|done]. intros _. right. rewrite Hpar. apply rtc_refl. }
  assert (exists par, permission_index db !! po_parent q = Some par) as [par Hpp].
  { destruct (decide (po_parent q = 0)) as [Hz|Hz].
    - destruct (ok_reserved db Hok) as (p0 & Hp0 & _). exists p0. by rewrite Hz.
    - destruct (ok_parent db Hok j q Hq Hj) as [_ Hpq]. destruct (Hpq Hz) as [_ (r & Hr & _)]. by exists r. }
  rewrite Hpp. pose proof (ok_ids db Hok _ _ Hpp).
  destruct (satisfies_loop_spec (S (Z.to_nat (next_permission_id db))) i _ par Hpp ltac:(lia) Hi)
    as (b & Hb1 & Hb2). exists b. split; [done|].
  rewrite Hb2, (above_step i (po_parent q) par Hpp). naive_solver.
Qed.

End Tree.

(** ** Creating, changing and removing permissions *)

(** What a new permission must bring: a name of its own and a parent of the same
    account, none exactly for [owner]. *)
Definition may_create (db : authorization_db) (account name parent : Z) (auth : authority) : Prop :=
  account <> 0 /\ name <> 0 /\ authority_typed auth /\
  (name = owner_name <-> parent = 0) /\
  (parent <> 0 -> exists q, permission_index db !! parent = Some q /\ po_owner q = account).

Lemma create_permission_Ok db now account name parent auth t db' i :
  create_permission db now account name parent auth t = Ok (db', i) ->
  i = next_permission_id db /\ next_permission_id db' = i + 1 /\
  by_owner db account name = None /\
  permission_link_index db' = permission_link_index db /\
  next_usage_id db' = next_usage_id db + 1 /\
  exists ct, permission_index db' =
    <[i := mk_permission (next_usage_id db) parent account name ct auth]> (permission_index db) /\
    permission_usage_index db' = <[next_usage_id db := ct]> (permission_usage_index db).
Proof.
  unfold create_permission, create_usage, create_row. set (ct := if t =? 0 then now else t).
  intros E. apply bind_Ok in E as ([] & Hu & E). apply assert_Ok in Hu. simpl in Hu.
  injection E as <- <-. simpl. split_and!; try done; [|by exists ct].
  change (by_owner (mk_auth_db _ _ _ _ _) account name) with (by_owner db account name) in Hu.
  by destruct (by_owner db account name).
Qed.

Lemma reserved_kept (m : gmap Z permission_object) i p p0 : i <> 0 ->
  m !! 0 = Some p0 -> <[i := p]> m !! 0 = Some p0.
Proof. intros Hi Hp. by rewrite lookup_insert_ne. Qed.

Lemma create_permission_ok db now account name parent auth t db' i :
  perms_ok db -> may_create db account name parent auth ->
  create_permission db now account name parent auth t = Ok (db', i) -> perms_ok db' /\ i <> 0.
Proof.
  intros Hok (Ha & Hn & Hty & Hroot & Hpar) E.
  apply create_permission_Ok in E as (Hi & Hnext & Hnew & _ & Hnu & ct & Hidx & Huse).
  destruct (ok_reserved db Hok) as (p0 & Hp0 & Hr0). pose proof (ok_ids db Hok 0 p0 Hp0) as Hpos.
  assert (i <> 0) as Hi0 by lia. rewrite by_owner_None in Hnew.
  assert (forall j p, permission_index db !! j = Some p -> j < i /\ j <> i) as Hlt.
  { intros j p Hp. pose proof (ok_ids db Hok j p Hp). lia. }
  split; [|done]. constructor; rewrite ?Hidx, ?Huse, ?Hnext, ?Hnu.
  - exists p0. split; [by apply reserved_kept|done].
  - intros j p [[<- <-]|[_ Hp]]%lookup_insert_Some; [lia|]. pose proof (ok_ids db Hok j p Hp). lia.
  - intros j p [[<- <-]|[_ Hp]]%lookup_insert_Some; [done|by apply (ok_named db Hok j)].
  - intros j k p q [[<- <-]|[Hj Hp]]%lookup_insert_Some [[<- <-]|[Hk Hq]]%lookup_insert_Some Ho Hnm;
      simpl in *; [done|by destruct (Hnew k q)|by destruct (Hnew j p)|by apply (ok_unique db Hok j k p q)].
  - intros j p [[<- <-]|[Hj Hp]]%lookup_insert_Some Hj0; simpl.
    + split; [done|]. intros Hp0'. destruct (Hpar Hp0') as (q & Hq & Hqo).
      destruct (Hlt _ _ Hq). split; [done|]. exists q. by rewrite lookup_insert_ne.
    + destruct (ok_parent db Hok j p Hp Hj0) as [Hr Hq]. split; [done|]. intros Hnz.
      destruct (Hq Hnz) as [Hlt' (q & Hq' & Hqo)]. split; [done|]. exists q.
      destruct (Hlt _ _ Hq'). by rewrite lookup_insert_ne.
  - intros j p [[<- <-]|[Hj Hp]]%lookup_insert_Some Hj0; simpl; pose proof (ok_counters db Hok).
    + rewrite lookup_insert_eq. split; [lia|done].
    + destruct (ok_usage db Hok j p Hp Hj0) as [Hb Hs]. split; [lia|]. rewrite lookup_insert_ne by lia. done.
  - intros j k p q [[<- <-]|[Hj Hp]]%lookup_insert_Some [[<- <-]|[Hk Hq]]%lookup_insert_Some Hj0 Hk0 Hu; simpl in *.
    + done.
    + destruct (ok_usage db Hok k q Hq Hk0). lia.
    + destruct (ok_usage db Hok j p Hp Hj0). lia.
    + by apply (ok_usage_unique db Hok j k p q).
  - intros j p [[<- <-]|[_ Hp]]%lookup_insert_Some; [done|by apply (ok_auth db Hok j)].
  - pose proof (ok_counters db Hok). lia.
Qed.

(** Two versions of a table whose rows differ only in authority and time. *)
Definition same_shape (p q : permission_object) : Prop :=
  po_usage_id p = po_usage_id q /\ po_parent p = po_parent q /\ po_owner p = po_owner q /\ po_name p = po_name q.

Lemma set_permission_ok db i p p' :
  perms_ok db -> permission_index db !! i = Some p -> same_shape p' p -> authority_typed (po_auth p') ->
  perms_ok (set_permissions db (<[i := p']> (permission_index db))).
Proof.
  intros Hok Hp (Hu & Hpa & Ho & Hn) Hty.
  assert (forall j q, <[i := p']> (permission_index db) !! j = Some q ->
    exists q0, permission_index db !! j = Some q0 /\ same_shape q q0) as Hback.
  { intros j q [[<- <-]|[_ Hq]]%lookup_insert_Some; [by exists p|by exists q]. }
  assert (forall j q, permission_index db !! j = Some q ->
    exists q', <[i := p']> (permission_index db) !! j = Some q' /\ same_shape q' q) as Hforth.
  { intros j q Hq. destruct (decide (i = j)) as [<-|Hne].
    - rewrite lookup_insert_eq. exists p'. by simplify_eq.
    - rewrite lookup_insert_ne by done. by exists q. }
  constructor; simpl.
  - destruct (ok_reserved db Hok) as (p0 & Hp0 & H1 & H2 & H3).
    destruct (Hforth 0 p0 Hp0) as (q & Hq & _ & E1 & E2 & E3). exists q. split_and!; congruence.
  - intros j q Hq. destruct (Hback j q Hq) as (q0 & Hq0 & _). by apply (ok_ids db Hok j q0).
  - intros j q Hq Hj. destruct (Hback j q Hq) as (q0 & Hq0 & _ & _ & -> & ->). by apply (ok_named db Hok j q0).
  - intros j k q r Hq Hr Hqo Hqn. destruct (Hback j q Hq) as (q0 & Hq0 & _ & _ & E1 & E2).
    destruct (Hback k r Hr) as (r0 & Hr0 & _ & _ & E3 & E4). apply (ok_unique db Hok j k q0 r0); congruence.
  - intros j q Hq Hj. destruct (Hback j q Hq) as (q0 & Hq0 & _ & -> & -> & ->).
    destruct (ok_parent db Hok j q0 Hq0 Hj) as [Hr Hpq]. split; [done|]. intros Hnz.
    destruct (Hpq Hnz) as [Hlt (r & Hr' & Hro)]. split; [done|].
    destruct (Hforth _ r Hr') as (r' & Hr2 & _ & _ & E2 & _). exists r'. split; congruence.
  - intros j q Hq Hj. destruct (Hback j q Hq) as (q0 & Hq0 & -> & _). by apply (ok_usage db Hok j q0).
  - intros j k q r Hq Hr Hj Hk Heq. destruct (Hback j q Hq) as (q0 & Hq0 & E1 & _).
    destruct (Hback k r Hr) as (r0 & Hr0 & E2 & _). apply (ok_usage_unique db Hok j k q0 r0); congruence.
  - intros j q [[<- <-]|[_ Hq]]%lookup_insert_Some; [done|by apply (ok_auth db Hok j)].
  - apply (ok_counters db Hok).
Qed.

Lemma remove_permission_ok db i p db' :
  perms_ok db -> permission_index db !! i = Some p -> i <> 0 -> remove_permission db i p = Ok db' ->
  perms_ok db' /\ permission_index db' = delete i (permission_index db) /\
  permission_link_index db' = permission_link_index db.
Proof.
  intros Hok Hp Hi E. unfold remove_permission in E.
  apply bind_Ok in E as ([] & Hch & E). apply assert_Ok in Hch. apply bind_Ok in E as (u & _ & E).
  injection E as <-. split; [|done].
  assert (forall j q, permission_index db !! j = Some q -> po_parent q <> i) as Hno.
  { intros j q Hq Hpar. destruct (by_parent db i) as [|] eqn:Ech; [|done].
    assert ((j, q) ∈ by_parent db i) as Hin; [|rewrite Ech in Hin; by apply not_elem_of_nil in Hin].
    apply list_elem_of_filter. split; [done|]. by apply elem_of_map_to_list. }
  constructor; simpl.
  - destruct (ok_reserved db Hok) as (p0 & Hp0 & Hr). exists p0. by rewrite lookup_delete_ne.
  - intros j q [Hj Hq]%lookup_delete_Some. by apply (ok_ids db Hok j q).
  - intros j q [Hj Hq]%lookup_delete_Some. by apply (ok_named db Hok j q).
  - intros j k q r [Hj Hq]%lookup_delete_Some [Hk Hr]%lookup_delete_Some. by apply (ok_unique db Hok j k q r).
  - intros j q [Hj Hq]%lookup_delete_Some Hj0. destruct (ok_parent db Hok j q Hq Hj0) as [Hr Hpq].
    split; [done|]. intros Hnz. destruct (Hpq Hnz) as [Hlt (r & Hr' & Hro)]. split; [done|].
    exists r. rewrite lookup_delete_ne; [done|]. intros Heq. by apply (Hno j q).
  - intros j q [Hj Hq]%lookup_delete_Some Hj0. destruct (ok_usage db Hok j q Hq Hj0) as [Hb Hs].
    split; [done|]. rewrite lookup_delete_ne; [done|]. intros Heq. destruct Hj.
    by apply (ok_usage_unique db Hok i j p q).
  - intros j k q r [Hj Hq]%lookup_delete_Some [Hk Hr]%lookup_delete_Some. by apply (ok_usage_unique db Hok j k q r).
  - intros j q [Hj Hq]%lookup_delete_Some. by apply (ok_auth db Hok j q).
  - apply (ok_counters db Hok).
Qed.

(** ** Relevance of authorizations *)

(** The permission of [auth] exists and is the permission [j] or above it. *)
Definition at_least (db : authorization_db) (auth : Z * Z) (j : Z) : Prop :=
  exists i p, get_permission db auth = Ok (i, p) /\ above db i j.

Lemma require_satisfies_Ok db auth j q :
  perms_ok db -> permission_index db !! j = Some q -> j <> 0 ->
  require_satisfies db auth (j, q) = Ok tt -> at_least db auth j.
Proof.
  intros Hok Hq Hj E. unfold require_satisfies in E. apply bind_Ok in E as ([i p] & Hp & E).
  apply bind_Ok in E as (b & Hb & E). apply assert_Ok in E as ->.
  exists i, p. split; [done|]. pose proof (get_permission_nonzero db auth i p Hok Hp).
  apply get_permission_Ok in Hp as (Hi & _).
  destruct (satisfies_spec db Hok i p j q) as (b' & Hb' & Habove); [done..|].
  apply Habove. congruence.
Qed.

(** [auth] is at least the permission of [level]. *)
Definition at_least_level (db : authorization_db) (auth level : Z * Z) : Prop :=
  exists j q, get_permission db level = Ok (j, q) /\ at_least db auth j.

Lemma require_satisfies_level db auth level m :
  perms_ok db -> get_permission db level = Ok m -> require_satisfies db auth m = Ok tt ->
  at_least_level db auth level.
Proof.
  intros Hok Hm E. destruct m as [j q]. exists j, q. split; [done|].
  pose proof (get_permission_nonzero db level j q Hok Hm).
  apply get_permission_Ok in Hm as (Hq & _). by apply (require_satisfies_Ok db auth j q).
Qed.

(** An action that is not one of the special cases: every declared
    authorization is at least the permission linked to the action, [active]
    without a link, and anything for an action linked to [snax.any]. *)
Definition relevant (db : authorization_db) (act : action) (auth : Z * Z) : Prop :=
  match lookup_linked_permission db auth.1 (act_account act) (act_name act) with
  | None => at_least_level db auth (auth.1, active_name)
  | Some n => n = snax_any_name \/ at_least_level db auth (auth.1, n)
  end.

Lemma check_relevant_Ok db act auth :
  perms_ok db -> check_relevant db act auth = Ok tt -> relevant db act auth.
Proof.
  intros Hok E. unfold check_relevant in E. apply bind_Ok in E as (mn & Hmn & E).
  unfold lookup_minimum_permission in Hmn. apply bind_Ok in Hmn as ([] & _ & Hmn). unfold relevant.
  destruct (lookup_linked_permission _ _ _ _) as [n|].
  - destruct (Z.eqb_spec n snax_any_name) as [Heq|Hne]; [by left|]. right. injection Hmn as <-.
    apply bind_Ok in E as (m & Hm & E). by eapply require_satisfies_level.
  - injection Hmn as <-. apply bind_Ok in E as (m & Hm & E). by eapply require_satisfies_level.
Qed.

(** The five special cases. *)
Definition update_authorized (db : authorization_db) (d : updateauth) (auth : Z * Z) : Prop :=
  auth.1 = ua_account d /\
  match by_owner db (ua_account d) (ua_permission d) with
  | Some (j, _) => at_least db auth j
  | None => at_least_level db auth (ua_account d, ua_parent d)
  end.

Definition delete_authorized (db : authorization_db) (d : deleteauth) (auth : Z * Z) : Prop :=
  auth.1 = da_account d /\ at_least_level db auth (da_account d, da_permission d).

Definition link_authorized (db : authorization_db) (d : linkauth) (auth : Z * Z) : Prop :=
  auth.1 = la_account d /\ unlinkable (la_type d) = false /\
  match lookup_linked_permission db (la_account d) (la_code d) (la_type d) with
  | None => at_least_level db auth (la_account d, active_name)
  | Some n => n = snax_any_name \/ at_least_level db auth (la_account d, n)
  end.

Definition unlink_authorized (db : authorization_db) (d : unlinkauth) (auth : Z * Z) : Prop :=
  auth.1 = ul_account d /\
  exists n, lookup_linked_permission db (ul_account d) (ul_code d) (ul_type d) = Some n /\
    (n = snax_any_name \/ at_least_level db auth (ul_account d, n)).

Lemma single_Ok auths auth : single_authorization auths = Ok auth -> auths = [auth].
Proof. destruct auths as [|a [|b l]]; [done| |done]. by intros [= ->]. Qed.

Section Native.
Context (db : authorization_db) (Hok : perms_ok db).

Lemma check_updateauth_Ok d auths :
  check_updateauth_authorization db d auths = Ok tt -> exists auth, auths = [auth] /\ update_authorized db d auth.
Proof.
  intros E. apply bind_Ok in E as (auth & Hs & E). apply single_Ok in Hs. exists auth. split; [done|].
  apply bind_Ok in E as ([] & Ha & E). apply assert_Ok, Z.eqb_eq in Ha.
  apply bind_Ok in E as (found & Hf & E). apply bind_Ok in E as ([j q] & Hm & E).
  split; [done|]. unfold find_permission in Hf. apply bind_Ok in Hf as ([] & Hv & Hf). injection Hf as Hf.
  simpl in Hf. rewrite Hf. destruct found as [[j' q']|].
  - injection Hm as <- <-. eapply require_satisfies_Ok; [done| | |done].
    + by apply by_owner_Some in Hf as (? & _).
    + apply (get_permission_nonzero db (ua_account d, ua_permission d) j' q' Hok).
      unfold get_permission. apply assert_Ok in Hv. rewrite Hv. simpl. by rewrite Hf.
  - by eapply require_satisfies_level.
Qed.

Lemma check_deleteauth_Ok d auths :
  check_deleteauth_authorization db d auths = Ok tt -> exists auth, auths = [auth] /\ delete_authorized db d auth.
Proof.
  intros E. apply bind_Ok in E as (auth & Hs & E). apply single_Ok in Hs. exists auth. split; [done|].
  apply bind_Ok in E as ([] & Ha & E). apply assert_Ok, Z.eqb_eq in Ha.
  apply bind_Ok in E as (m & Hm & E). split; [done|]. by eapply require_satisfies_level.
Qed.

Lemma check_linkauth_Ok d auths :
  check_linkauth_authorization db d auths = Ok tt -> exists auth, auths = [auth] /\ link_authorized db d auth.
Proof.
  intros E. apply bind_Ok in E as (auth & Hs & E). apply single_Ok in Hs. exists auth. split; [done|].
  apply bind_Ok in E as ([] & Ha & E). apply assert_Ok, Z.eqb_eq in Ha.
  apply bind_Ok in E as ([] & Hu & E). apply assert_Ok, negb_true_iff in Hu.
  apply bind_Ok in E as (mn & Hmn & E). unfold lookup_minimum_permission in Hmn.
  apply bind_Ok in Hmn as ([] & _ & Hmn). split_and!; [done|done|].
  destruct (lookup_linked_permission _ _ _ _) as [n|].
  - destruct (Z.eqb_spec n snax_any_name) as [Heq|Hne]; [by left|]. right. injection Hmn as <-.
    apply bind_Ok in E as (m & Hm & E). by eapply require_satisfies_level.
  - injection Hmn as <-. apply bind_Ok in E as (m & Hm & E). by eapply require_satisfies_level.
Qed.

Lemma check_unlinkauth_Ok d auths :
  check_unlinkauth_authorization db d auths = Ok tt -> exists auth, auths = [auth] /\ unlink_authorized db d auth.
Proof.
  intros E. apply bind_Ok in E as (auth & Hs & E). apply single_Ok in Hs. exists auth. split; [done|].
  apply bind_Ok in E as ([] & Ha & E). apply assert_Ok, Z.eqb_eq in Ha.
  apply bind_Ok in E as (n & Hn & E). apply of_option_Ok in Hn. split; [done|]. exists n. split; [done|].
  destruct (Z.eqb_spec n snax_any_name) as [Heq|Hne]; [by left|]. right.
  apply bind_Ok in E as (m & Hm & E). by eapply require_satisfies_level.
Qed.

End Native.

Section CheckSound.
Context `{MetaOrderLaws} `{ActionData}.
Context (db : authorization_db) (Hok : perms_ok db).
Context (generated : gmap digest generated_transaction_object).

Definition cancel_authorized (d : canceldelay) (auth : Z * Z) (delay : Z) : Prop :=
  at_least_level db auth (cd_canceling_auth d) /\
  exists g trx act, generated !! cd_trx_id d = Some g /\ gt_sender g = 0 /\
    unpack_transaction (gt_packed_trx g) = Ok trx /\ act ∈ trx /\ cd_canceling_auth d ∈ act_authorization act /\
    delay = gt_delay_until g - gt_published g.

(** Who may send an action: the rule of the special case, or relevance of every
    declared authorization. [delay] is the delay the action grants. *)
Inductive action_authorized (act : action) (base : Z) : Z -> Prop :=
| authorized_update d auth : act_account act = system_account_name -> act_name act = updateauth_name ->
    as_updateauth (act_data act) = Ok d -> act_authorization act = [auth] -> update_authorized db d auth ->
    action_authorized act base base
| authorized_delete d auth : act_account act = system_account_name -> act_name act = deleteauth_name ->
    as_deleteauth (act_data act) = Ok d -> act_authorization act = [auth] -> delete_authorized db d auth ->
    action_authorized act base base
| authorized_link d auth : act_account act = system_account_name -> act_name act = linkauth_name ->
    as_linkauth (act_data act) = Ok d -> act_authorization act = [auth] -> link_authorized db d auth ->
    action_authorized act base base
| authorized_unlink d auth : act_account act = system_account_name -> act_name act = unlinkauth_name ->
    as_unlinkauth (act_data act) = Ok d -> act_authorization act = [auth] -> unlink_authorized db d auth ->
    action_authorized act base base
| authorized_cancel d auth delay : act_account act = system_account_name -> act_name act = canceldelay_name ->
    as_canceldelay (act_data act) = Ok d -> act_authorization act = [auth] -> cancel_authorized d auth delay ->
    action_authorized act base (Z.max base delay)
| authorized_contract :
    (act_account act = system_account_name -> unlinkable (act_name act) = false) ->
    Forall (relevant db act) (act_authorization act) -> action_authorized act base base.

Lemma check_canceldelay_Ok d auths delay :
  check_canceldelay_authorization db generated d auths = Ok delay ->
  exists auth, auths = [auth] /\ cancel_authorized d auth delay.
Proof.
  intros E. apply bind_Ok in E as (auth & Hs & E). apply single_Ok in Hs. exists auth. split; [done|].
  apply bind_Ok in E as (m & Hm & E). apply bind_Ok in E as ([] & Hr & E).
  apply bind_Ok in E as (g & Hg & E). apply of_option_Ok in Hg.
  apply bind_Ok in E as ([] & Hz & E). apply assert_Ok, Z.eqb_eq in Hz.
  apply bind_Ok in E as (trx & Ht & E). apply bind_Ok in E as ([] & Hf & E). apply assert_Ok in Hf.
  injection E as <-. split; [by eapply require_satisfies_level|].
  apply existsb_exists in Hf as (act & Hact & Ha). apply existsb_exists in Ha as (a & Hin & Heq).
  apply bool_decide_eq_true_1 in Heq as ->.
  exists g, trx, act. split_and!; try done; by apply list_elem_of_In.
Qed.

Lemma check_native_Ok act base special delay :
  check_native db generated act base = Ok (special, delay) ->
  (special = true -> action_authorized act base delay) /\
  (special = false -> delay = base /\ (act_account act = system_account_name -> unlinkable (act_name act) = false)).
Proof.
  unfold check_native, unlinkable. intros E.
  destruct (Z.eqb_spec (act_account act) system_account_name) as [Hs|Hs]; [|injection E as <- <-; done].
  destruct (Z.eqb_spec (act_name act) updateauth_name).
  { apply bind_Ok in E as (d & Hd & E). apply bind_Ok in E as ([] & Hc & E). injection E as <- <-.
    apply check_updateauth_Ok in Hc as (auth & ? & ?); [|done]. split; [intros _|done]. by eapply authorized_update. }
  destruct (Z.eqb_spec (act_name act) deleteauth_name).
  { apply bind_Ok in E as (d & Hd & E). apply bind_Ok in E as ([] & Hc & E). injection E as <- <-.
    apply check_deleteauth_Ok in Hc as (auth & ? & ?); [|done]. split; [intros _|done]. by eapply authorized_delete. }
  destruct (Z.eqb_spec (act_name act) linkauth_name).
  { apply bind_Ok in E as (d & Hd & E). apply bind_Ok in E as ([] & Hc & E). injection E as <- <-.
    apply check_linkauth_Ok in Hc as (auth & ? & ?); [|done]. split; [intros _|done]. by eapply authorized_link. }
  destruct (Z.eqb_spec (act_name act) unlinkauth_name).
  { apply bind_Ok in E as (d & Hd & E). apply bind_Ok in E as ([] & Hc & E). injection E as <- <-.
    apply check_unlinkauth_Ok in Hc as (auth & ? & ?); [|done]. split; [intros _|done]. by eapply authorized_unlink. }
  destruct (Z.eqb_spec (act_name act) canceldelay_name).
  { apply bind_Ok in E as (d & Hd & E). apply bind_Ok in E as (cd & Hc & E). injection E as <- <-.
    apply check_canceldelay_Ok in Hc as (auth & ? & ?). split; [intros _|done]. by eapply authorized_cancel. }
  injection E as <- <-. done.
Qed.

(** The delays collected only get smaller. *)
Definition collected (m : gmap (Z * Z) Z) (l : Z * Z) (delay : Z) : Prop := exists d, m !! l = Some d /\ d <= delay.

Lemma emplace_delay_collected m l d l' d' :
  collected m l' d' \/ (l' = l /\ d <= d') -> collected (emplace_delay m l d) l' d'.
Proof.
  unfold collected, emplace_delay. intros Hc.
  destruct (decide (l' = l)) as [->|Hne].
  - destruct (m !! l) as [d0|] eqn:Hm.
    + destruct (Z.ltb_spec d d0).
      * rewrite lookup_insert_eq. exists d. split; [done|]. destruct Hc as [(? & [= <-] & ?)|[_ ?]]; lia.
      * rewrite Hm. exists d0. split; [done|]. destruct Hc as [(? & [= <-] & ?)|[_ ?]]; lia.
    + rewrite lookup_insert_eq. exists d. split; [done|]. by destruct Hc as [(? & [=] & ?)|[_ ?]].
  - destruct Hc as [(d0 & Hd0 & Hle)|[-> _]]; [|done]. exists d0. split; [|done].
    destruct (m !! l); [destruct (d <? _); [|done]|]; by rewrite lookup_insert_ne.
Qed.

Lemma collect_auths_Ok act special delay sat auths m m' :
  collect_auths db act special delay sat auths m = Ok m' ->
  (special = false -> Forall (relevant db act) auths) /\
  (forall l, l ∈ auths -> l ∈ sat \/ collected m' l delay) /\
  (forall l d, collected m l d -> collected m' l d).
Proof.
  revert m. induction auths as [|a auths IH]; intros m E; cbn [collect_auths] in E.
  { injection E as <-. split_and!; [constructor|set_solver|done]. }
  apply bind_Ok in E as ([] & Hr & E). apply IH in E as (Hrel & Hin & Hkeep).
  assert (forall l d, collected m l d \/ (l = a /\ delay <= d /\ a ∉ sat) -> collected m' l d) as Hm.
  { intros l d Hc. apply Hkeep. case_bool_decide as Hs; [destruct Hc as [|(-> & _ & ?)]; done|].
    apply emplace_delay_collected. destruct Hc as [|(-> & ? & _)]; auto. }
  split_and!.
  - intros ->. constructor; [by apply check_relevant_Ok|by apply Hrel].
  - intros l [->|Hl]%elem_of_cons; [|by apply Hin].
    destruct (decide (a ∈ sat)); [by left|right]. apply Hm. right. split_and!; done || lia.
  - intros l d Hc. apply Hm. by left.
Qed.

Lemma collect_actions_Ok delay sat acts m m' :
  collect_actions db generated delay sat acts m = Ok m' ->
  (forall act, act ∈ acts -> exists d, action_authorized act delay d /\
     forall l, l ∈ act_authorization act -> l ∈ sat \/ collected m' l d) /\
  (forall l d, collected m l d -> collected m' l d).
Proof.
  revert m. induction acts as [|a acts IH]; intros m E; cbn [collect_actions] in E.
  { injection E as <-. split; [set_solver|done]. }
  apply bind_Ok in E as ([special d] & Hn & E). apply bind_Ok in E as (m1 & Hc & E).
  apply check_native_Ok in Hn as [Hspec Hord]. apply collect_auths_Ok in Hc as (Hrel & Hin & Hkeep).
  apply IH in E as [Hacts Hkeep']. split.
  - intros act [->|Hact]%elem_of_cons; [|by apply Hacts]. exists d. split.
    + destruct special; [by apply Hspec|]. destruct (Hord eq_refl) as [-> Hu].
      apply authorized_contract; [done|by apply Hrel].
    + intros l Hl. destruct (Hin l Hl) as [|Hcl]; [by left|right]. by apply Hkeep'.
  - intros l dl Hl. by apply Hkeep', Hkeep.
Qed.

(** ** Satisfaction *)

(** Being granted depends on the keys, permissions and delay of the checker. *)
Lemma granted_ext pta c c' p :
  provided_keys c = provided_keys c' -> provided_permissions c = provided_permissions c' ->
  provided_delay c = provided_delay c' -> granted pta c p -> granted pta c' p.
Proof.
  intros Hk Hp Hd Hg. induction Hg as [p Hpr|p a ms Ha Hs Ht Hkeys Hwaits _ IH].
  - apply granted_provided. unfold provided in *. by rewrite <- Hp.
  - eapply granted_authority; [done..| | |]; [by rewrite <- Hk|by rewrite <- Hd|done].
Qed.

Lemma permission_authority_unnamed a : is_Ok (permission_authority db (a, 0)) = false.
Proof.
  unfold permission_authority, get_permission, valid_level. simpl. rewrite andb_false_r. done.
Qed.

Lemma permission_authority_weights p a :
  permission_authority db p = Ok a -> forall m, m ∈ metas a -> 0 <= get_weight m.
Proof.
  unfold permission_authority. intros E m Hm. apply bind_Ok in E as ([i po] & Hp & E). injection E as <-.
  apply get_permission_Ok in Hp as (Hi & _). pose proof (at_weights _ (ok_auth db Hok i po Hi) m Hm). lia.
Qed.

Lemma satisfied_with_delay_Ok c p d r c' :
  satisfied_permission_with_delay (permission_authority db) c p d = Ok (r, c') ->
  provided_keys c' = provided_keys c /\ provided_permissions c' = provided_permissions c /\
  recursion_depth_limit c' = recursion_depth_limit c /\
  (r = true -> granted (permission_authority db) (with_delay c d) p).
Proof.
  unfold satisfied_permission_with_delay. intros E. apply bind_Ok in E as ([r1 c1] & Es & E).
  injection E as <- <-. split_and!; simpl.
  1-3: unfold satisfied_permission in Es; apply bind_Ok in Es as ([t st] & _ & Es); by injection Es as _ <-.
  eapply satisfied_permission_sound_lemma; [apply permission_authority_unnamed| |done].
  apply permission_authority_weights.
Qed.

Lemma satisfy_all_Ok c ps c' :
  satisfy_all db c ps = Ok c' ->
  forall p d, (p, d) ∈ ps -> granted (permission_authority db) (with_delay c d) p.
Proof.
  revert c. induction ps as [|[p d] ps IH]; intros c E q dq Hin; cbn [satisfy_all] in E; [set_solver|].
  apply bind_Ok in E as ([b c1] & Hs & E). apply bind_Ok in E as ([] & Hb & E). apply assert_Ok in Hb.
  apply satisfied_with_delay_Ok in Hs as (Hk & Hp & _ & Hg).
  apply elem_of_cons in Hin as [[= -> ->]|Hin]; [by apply Hg|].
  eapply granted_ext; [..|exact (IH c1 E q dq Hin)]; simpl; done.
Qed.

End CheckSound.

Lemma check_authorization_Ok `{MetaOrderLaws} `{ActionData} db generated cfg acts keys perms delay allow sat
  (Hok : perms_ok db)
  (E : check_authorization db generated cfg acts keys perms delay allow sat = Ok tt) act (Hact : act ∈ acts) :
  exists d, action_authorized db generated act (effective_delay cfg delay) d /\
  forall l, l ∈ act_authorization act -> l ∈ sat \/
    exists d', d' <= d /\
      granted (permission_authority db) (make_auth_checker (max_authority_depth cfg) keys perms d') l.
Proof.
  unfold check_authorization in E. apply bind_Ok in E as (m & Hm & E). apply bind_Ok in E as (c & Hs & _).
  apply collect_actions_Ok in Hm as [Hacts _]; [|done]. destruct (Hacts act Hact) as (d & Ha & Hl).
  exists d. split; [done|]. intros l Hin. destruct (Hl l Hin) as [|(d' & Hd & Hle)]; [by left|right].
  exists d'. split; [done|].
  assert ((l, d') ∈ ascending m) as Hasc.
  { unfold ascending. rewrite merge_sort_Permutation. by apply elem_of_map_to_list. }
  eapply granted_ext; [..|exact (satisfy_all_Ok db Hok _ _ _ Hs l d' Hasc)]; done.
Qed.

(** [satisfies] is the order of the permission tree: on well-formed tables it
    always ends, never follows a missing parent, and holds exactly when the first
    permission is the second one or one above it. *)
Theorem satisfies_exact db i p j q (Hok : perms_ok db)
  (Hp : permission_index db !! i = Some p) (Hi : i <> 0)
  (Hq : permission_index db !! j = Some q) (Hj : j <> 0) :
  exists b, satisfies db (i, p) (j, q) = Ok b /\ (b = true <-> above db i j).
Proof. by apply satisfies_spec. Qed.

(** C3: a successful [check_authorization] means that every action was allowed to
    its senders: each declared authorization is at least the permission linked to
    the action ([active] without a link), and each of the five native actions
    obeys its own rule; and that every declared authorization that was not
    already satisfied is granted by the provided keys, permissions and delay. *)
Theorem check_authorization_sound `{MetaOrderLaws} `{ActionData} db generated cfg acts keys perms delay allow sat
  (Hok : perms_ok db)
  (E : check_authorization db generated cfg acts keys perms delay allow sat = Ok tt) act (Hact : act ∈ acts) :
  exists d, action_authorized db generated act (effective_delay cfg delay) d /\
  forall l, l ∈ act_authorization act -> l ∈ sat \/
    exists d', d' <= d /\
      granted (permission_authority db) (make_auth_checker (max_authority_depth cfg) keys perms d') l.
Proof. by eapply check_authorization_Ok. Qed.
