(* ===== verification/NativeActions.v ===== *)
(** * The native actions of the system account

    [snax_contract.cpp] of [libraries/chain]: creating accounts, setting code and
    ABI, changing permissions and links and cancelling deferred transactions,
    with the RAM each of them bills; [create_native_account],
    [initialize_database] and [update_producers_authority] of [controller.cpp] as
    far as accounts and permissions go. *)

From Stdlib Require Import ZArith Lia Bool String.
From stdpp Require Import base numbers gmap list.
From S2P Require Import Prelude ResourceLimits Name Merkle BlockHeader Authority Permissions.

Open Scope Z_scope.

(** ** Billable sizes *)

Definition billable_size_v (value : Z) : Z := (value + 16 - 1) / 16 * 16.

Definition overhead_per_row_per_index_ram_bytes : Z := 32.
Definition overhead_per_account_ram_bytes : Z := 2 * 1024.
Definition setcode_ram_bytes_multiplier : Z := 10.
Definition billable_size_shared_authority : Z := billable_size_v (3 * 16 + 4).
Definition billable_size_permission_object : Z :=
  billable_size_v (billable_size_shared_authority + 64 + 5 * overhead_per_row_per_index_ram_bytes).
Definition billable_size_permission_link_object : Z :=
  billable_size_v (40 + overhead_per_row_per_index_ram_bytes * 3).
Definition billable_size_generated_transaction_object : Z :=
  billable_size_v (96 + 4 + overhead_per_row_per_index_ram_bytes * 5).

(** ** State *)

Record account_object := mk_account {
  ao_privileged : bool;
  ao_last_code_update : Z;
  ao_code_version : digest;
  ao_creation_date : Z;
  ao_code : list Z;
  ao_abi : list Z
}.

Record account_sequence_object := mk_sequence {
  recv_sequence : Z; auth_sequence : Z; code_sequence : Z; abi_sequence : Z
}.
Definition new_sequence : account_sequence_object := mk_sequence 0 0 0 0.

Record chain_db := mk_chain_db {
  db_auth : authorization_db;
  db_accounts : gmap Z account_object;
  db_sequences : gmap Z account_sequence_object;
  db_generated : gmap digest generated_transaction_object;
  db_limits : ResourceLimits.resource_limits
}.

Definition set_auth (db : chain_db) (a : authorization_db) : chain_db :=
  mk_chain_db a (db_accounts db) (db_sequences db) (db_generated db) (db_limits db).
Definition set_limits (db : chain_db) (rl : ResourceLimits.resource_limits) : chain_db :=
  mk_chain_db (db_auth db) (db_accounts db) (db_sequences db) (db_generated db) rl.
Definition set_generated (db : chain_db) (g : gmap digest generated_transaction_object) : chain_db :=
  mk_chain_db (db_auth db) (db_accounts db) (db_sequences db) g (db_limits db).

(** What an action sees besides the tables: its authorizations, the time of the
    pending block, the configuration, and the keys a producing node refuses
    ([None] when the list is not enforced). *)
Record apply_context := mk_apply {
  ctx_authorization : list (Z * Z);
  pending_block_time : Z;
  cfg_max_transaction_delay : Z;
  cfg_contract_owner : bool;
  cfg_privileged_contracts : bool;
  key_blacklist : option (list public_key_type)
}.

(** Code outside the chain library: the size of a packed key, the hash of a byte
    string and the validation of a contract. *)
Class NativeOps := {
  pack_size : public_key_type -> Z;
  sha256_bytes : list Z -> digest;
  wasm_validate : list Z -> result unit
}.

(** [require_authorization]; the index of the authorization it marks as used. *)
Definition require_authorization (cx : apply_context) (account : account_name) : result nat :=
  of_option missing_auth_exception (fst <$> list_find (fun a => a.1 = account) (ctx_authorization cx)).
Definition require_authorization_of (cx : apply_context) (account permission : Z) : result nat :=
  of_option missing_auth_exception (fst <$> list_find (fun a => a = (account, permission)) (ctx_authorization cx)).

Definition add_ram_usage (db : chain_db) (account : account_name) (ram_delta : Z) : result chain_db :=
  rl ← ResourceLimits.add_pending_ram_usage (db_limits db) account ram_delta;
  mret (set_limits db rl).

Definition get_account (db : chain_db) (a : account_name) : result account_object :=
  of_option std_out_of_range (db_accounts db !! a).

(** [name.to_string().find( "snax." ) == 0]. *)
Definition starts_with_snax (n : Z) : bool :=
  bool_decide (take 5 (name_to_string n) = chars "snax.").

Section Native.
Context `{NativeOps}.

Definition permission_size (a : authority) : Z :=
  i64 (u64 (billable_size_permission_object + get_billable_size pack_size a)).

(** One account of the authority: it exists, and so does the permission unless it
    is [owner], [active] or the virtual [snax.code]. *)
Definition check_account_entry (db : chain_db) (a : permission_level_weight) : result unit :=
  let '(actor, permission) := plw_permission a in
  SNAX_ASSERT (bool_decide (is_Some (db_accounts db !! actor))) action_validate_exception;;
  if (permission =? owner_name) || (permission =? active_name) || (permission =? snax_code_name) then mret tt
  else match get_permission (db_auth db) (actor, permission) with
       | Err permission_query_exception => Err action_validate_exception
       | Err e => Err e
       | Ok _ => mret tt
       end.

Fixpoint check_all {A} (f : A -> result unit) (l : list A) : result unit :=
  match l with [] => mret tt | x :: l => f x;; check_all f l end.

Definition validate_authority_precondition (cx : apply_context) (db : chain_db) (auth : authority) : result unit :=
  check_all (check_account_entry db) (accounts auth);;
  match key_blacklist cx with
  | None => mret tt
  | Some l => check_all (fun k => SNAX_ASSERT (negb (bool_decide (kw_key k ∈ l))) key_blacklist_exception) (keys auth)
  end.

(** The rows of a new account with its two permissions, and their RAM. *)
Definition create_account_rows (db : chain_db) (name : account_name) (a : account_object) : result chain_db :=
  SNAX_ASSERT (bool_decide (db_accounts db !! name = None)) uniqueness_violation;;
  SNAX_ASSERT (bool_decide (db_sequences db !! name = None)) uniqueness_violation;;
  mret (mk_chain_db (db_auth db) (<[name := a]> (db_accounts db)) (<[name := new_sequence]> (db_sequences db))
          (db_generated db) (db_limits db)).

Definition account_ram (owner active : authority) : Z :=
  i64 (u64 (u64 (overhead_per_account_ram_bytes + 2 * billable_size_permission_object +
                 get_billable_size pack_size owner) + get_billable_size pack_size active)).

Definition create_account_permissions (db : chain_db) (now : Z) (name : account_name) (owner active : authority)
    (initial_creation_time : Z) : result chain_db :=
  '(ad, owner_id) ← create_permission (db_auth db) now name owner_name 0 owner initial_creation_time;
  '(ad, _) ← create_permission ad now name active_name owner_id active initial_creation_time;
  rl ← ResourceLimits.initialize_account (db_limits db) name;
  mret (set_limits (set_auth db ad) rl).

Record newaccount := mk_newaccount { na_creator : Z; na_name : Z; na_owner : authority; na_active : authority }.

Definition apply_snax_newaccount (cx : apply_context) (db : chain_db) (create : newaccount) : result chain_db :=
  require_authorization cx (na_creator create);;
  SNAX_ASSERT (validate (na_owner create)) action_validate_exception;;
  SNAX_ASSERT (validate (na_active create)) action_validate_exception;;
  let name_str := name_to_string (na_name create) in
  SNAX_ASSERT (negb (na_name create =? 0)) action_validate_exception;;
  SNAX_ASSERT (length name_str <=? 12)%nat action_validate_exception;;
  creator ← get_account db (na_creator create);
  (if ao_privileged creator then mret tt
   else SNAX_ASSERT (negb (starts_with_snax (na_name create))) action_validate_exception);;
  SNAX_ASSERT (bool_decide (db_accounts db !! na_name create = None)) account_name_exists_exception;;
  db ← create_account_rows db (na_name create) (mk_account false 0 zero_digest (pending_block_time cx) [] []);
  validate_authority_precondition cx db (na_owner create);;
  validate_authority_precondition cx db (na_active create);;
  db ← create_account_permissions db (pending_block_time cx) (na_name create) (na_owner create) (na_active create) 0;
  add_ram_usage db (na_name create) (account_ram (na_owner create) (na_active create)).

Definition apply_snax_updateauth (cx : apply_context) (db : chain_db) (update : updateauth) : result chain_db :=
  require_authorization cx (ua_account update);;
  SNAX_ASSERT (negb (ua_permission update =? 0)) action_validate_exception;;
  SNAX_ASSERT (negb (starts_with_snax (ua_permission update))) action_validate_exception;;
  SNAX_ASSERT (negb (ua_permission update =? ua_parent update)) action_validate_exception;;
  get_account db (ua_account update);;
  SNAX_ASSERT (validate (ua_auth update)) action_validate_exception;;
  (if ua_permission update =? active_name
   then SNAX_ASSERT (ua_parent update =? owner_name) action_validate_exception else mret tt);;
  (if ua_permission update =? owner_name
   then SNAX_ASSERT (ua_parent update =? 0) action_validate_exception
   else SNAX_ASSERT (negb (ua_parent update =? 0)) action_validate_exception);;
  match last (waits (ua_auth update)) with
  | None => mret tt
  | Some w => SNAX_ASSERT (ww_wait_sec w <=? cfg_max_transaction_delay cx) action_validate_exception
  end;;
  validate_authority_precondition cx db (ua_auth update);;
  permission ← find_permission (db_auth db) (ua_account update, ua_permission update);
  parent_id ← (if negb (ua_permission update =? owner_name) then
                 '(i, _) ← get_permission (db_auth db) (ua_account update, ua_parent update); mret i
               else mret 0);
  match permission with
  | Some (i, p) =>
      SNAX_ASSERT (parent_id =? po_parent p) action_validate_exception;;
      let old_size := permission_size (po_auth p) in
      let new_size := permission_size (ua_auth update) in
      let db := set_auth db (modify_permission (db_auth db) (pending_block_time cx) i p (ua_auth update)) in
      add_ram_usage db (po_owner p) (new_size - old_size)
  | None =>
      '(ad, _) ← create_permission (db_auth db) (pending_block_time cx) (ua_account update)
                   (ua_permission update) parent_id (ua_auth update) 0;
      add_ram_usage (set_auth db ad) (ua_account update) (permission_size (ua_auth update))
  end.

Definition apply_snax_deleteauth (cx : apply_context) (db : chain_db) (remove : deleteauth) : result chain_db :=
  require_authorization cx (da_account remove);;
  SNAX_ASSERT (negb (da_permission remove =? active_name)) action_validate_exception;;
  SNAX_ASSERT (negb (da_permission remove =? owner_name)) action_validate_exception;;
  SNAX_ASSERT (match by_permission_name (db_auth db) (da_account remove) (da_permission remove) with
               | [] => true | _ => false end) action_validate_exception;;
  '(i, p) ← get_permission (db_auth db) (da_account remove, da_permission remove);
  let old_size := permission_size (po_auth p) in
  ad ← remove_permission (db_auth db) i p;
  add_ram_usage (set_auth db ad) (da_account remove) (- old_size).

Definition apply_snax_linkauth (cx : apply_context) (db : chain_db) (requirement : linkauth) : result chain_db :=
  SNAX_ASSERT (negb (la_requirement requirement =? 0)) action_validate_exception;;
  require_authorization cx (la_account requirement);;
  SNAX_ASSERT (bool_decide (is_Some (db_accounts db !! la_account requirement))) account_query_exception;;
  SNAX_ASSERT (bool_decide (is_Some (db_accounts db !! la_code requirement))) account_query_exception;;
  (if la_requirement requirement =? snax_any_name then mret tt
   else SNAX_ASSERT (match by_name (db_auth db) (la_requirement requirement) with
                     | Some _ => true | None => false end) permission_query_exception);;
  let link_key := (la_account requirement, la_code requirement, la_type requirement) in
  let linked := set_auth db (set_links (db_auth db)
    (<[link_key := la_requirement requirement]> (permission_link_index (db_auth db)))) in
  match permission_link_index (db_auth db) !! link_key with
  | Some link =>
      SNAX_ASSERT (negb (link =? la_requirement requirement)) action_validate_exception;;
      mret linked
  | None => add_ram_usage linked (la_account requirement) billable_size_permission_link_object
  end.

Definition apply_snax_unlinkauth (cx : apply_context) (db : chain_db) (unlink : unlinkauth) : result chain_db :=
  require_authorization cx (ul_account unlink);;
  let link_key := (ul_account unlink, ul_code unlink, ul_type unlink) in
  of_option action_validate_exception (permission_link_index (db_auth db) !! link_key);;
  db ← add_ram_usage db (ul_account unlink) (- billable_size_permission_link_object);
  mret (set_auth db (set_links (db_auth db) (delete link_key (permission_link_index (db_auth db))))).

(** The high half of the id becomes the sender id of a delayed transaction. *)
Definition transaction_id_to_sender_id (tid : digest) : Z := Z.lor (Z.shiftl (hash3 tid) 64) (hash2 tid).

(** The row of the index [by_sender_id]. *)
Definition by_sender_id (db : chain_db) (sender sender_id : Z) : option (digest * generated_transaction_object) :=
  head (filter (fun r => gt_sender r.2 = sender /\ gt_sender_id r.2 = sender_id) (map_to_list (db_generated db))).

(** [cancel_deferred_transaction]; the result is true when there was one. *)
Definition cancel_deferred_transaction (db : chain_db) (sender_id sender : Z) : result (chain_db * bool) :=
  match by_sender_id db sender sender_id with
  | None => mret (db, false)
  | Some (i, gto) =>
      let size := billable_size_generated_transaction_object + Z.of_nat (length (gt_packed_trx gto)) in
      db ← add_ram_usage db (gt_payer gto) (i64 (- size));
      mret (set_generated db (delete i (db_generated db)), true)
  end.

Definition apply_snax_canceldelay (cx : apply_context) (db : chain_db) (cancel : canceldelay) : result chain_db :=
  require_authorization cx (cd_canceling_auth cancel).1;;
  '(db, _) ← cancel_deferred_transaction db (transaction_id_to_sender_id (cd_trx_id cancel)) 0;
  mret db.

(** ** Code and ABI *)

Record setcode := mk_setcode { sc_account : Z; sc_vmtype : Z; sc_vmversion : Z; sc_code : list Z }.
Record setabi := mk_setabi { sa_account : Z; sa_abi : list Z }.

(** [owner] is needed when the configuration asks for it. *)
Definition require_contract_owner (cx : apply_context) (account : account_name) : result nat :=
  if cfg_contract_owner cx then require_authorization_of cx account owner_name
  else require_authorization cx account.

(** [require_set_contract_ability] and [require_set_abi_ability]. *)
Definition require_set_ability (cx : apply_context) (a : account_object) : result unit :=
  SNAX_ASSERT (negb (cfg_privileged_contracts cx) || ao_privileged a) action_validate_exception.

Definition set_account (db : chain_db) (n : account_name) (a : account_object)
    (s : account_sequence_object) : chain_db :=
  mk_chain_db (db_auth db) (<[n := a]> (db_accounts db)) (<[n := s]> (db_sequences db))
    (db_generated db) (db_limits db).

Definition apply_snax_setcode (cx : apply_context) (db : chain_db) (act : setcode) : result chain_db :=
  require_contract_owner cx (sc_account act);;
  SNAX_ASSERT (sc_vmtype act =? 0) invalid_contract_vm_type;;
  SNAX_ASSERT (sc_vmversion act =? 0) invalid_contract_vm_version;;
  code_id ← (if (0 <? length (sc_code act))%nat then
               wasm_validate (sc_code act);; mret (sha256_bytes (sc_code act))
             else mret zero_digest);
  a ← get_account db (sc_account act);
  require_set_ability cx a;;
  let code_size := Z.of_nat (length (sc_code act)) in
  let old_size := Z.of_nat (length (ao_code a)) * setcode_ram_bytes_multiplier in
  let new_size := code_size * setcode_ram_bytes_multiplier in
  SNAX_ASSERT (negb (bool_decide (ao_code_version a = code_id))) set_exact_code;;
  let a' := mk_account (ao_privileged a) (pending_block_time cx) code_id (ao_creation_date a)
              (sc_code act) (ao_abi a) in
  s ← of_option std_out_of_range (db_sequences db !! sc_account act);
  let s' := mk_sequence (recv_sequence s) (auth_sequence s) (u64 (code_sequence s + 1)) (abi_sequence s) in
  let db := set_account db (sc_account act) a' s' in
  if negb (new_size =? old_size) then add_ram_usage db (sc_account act) (new_size - old_size) else mret db.

Definition apply_snax_setabi (cx : apply_context) (db : chain_db) (act : setabi) : result chain_db :=
  require_contract_owner cx (sa_account act);;
  a ← get_account db (sa_account act);
  require_set_ability cx a;;
  let new_size := Z.of_nat (length (sa_abi act)) in
  let old_size := Z.of_nat (length (ao_abi a)) in
  let a' := mk_account (ao_privileged a) (ao_last_code_update a) (ao_code_version a) (ao_creation_date a)
              (ao_code a) (sa_abi act) in
  s ← of_option std_out_of_range (db_sequences db !! sa_account act);
  let s' := mk_sequence (recv_sequence s) (auth_sequence s) (code_sequence s) (u64 (abi_sequence s + 1)) in
  let db := set_account db (sa_account act) a' s' in
  if negb (new_size =? old_size) then add_ram_usage db (sa_account act) (new_size - old_size) else mret db.

(** ** Genesis *)

(** [create_native_account]; the ABI of the system account is built from a
    constant outside the model and given as [abi]. *)
Definition create_native_account (db : chain_db) (genesis_time : Z) (name : account_name)
    (owner active : authority) (is_privileged : bool) (abi : list Z) : result chain_db :=
  db ← create_account_rows db name (mk_account is_privileged 0 zero_digest genesis_time [] abi);
  db ← create_account_permissions db 0 name owner active genesis_time;
  db ← add_ram_usage db name (account_ram owner active);
  ResourceLimits.verify_account_ram_usage (db_limits db) name;;
  mret db.

(** [initialize_database], from the authorization tables on. *)
Definition initialize_chain_db (genesis_time : Z) (initial_key : public_key_type) (system_abi : list Z) :
    result chain_db :=
  ad ← initialize_auth_db;
  let db := mk_chain_db ad ∅ ∅ ∅ ResourceLimits.initialize_database in
  let system_auth := authority_of_key initial_key 0 in
  db ← create_native_account db genesis_time system_account_name system_auth system_auth true system_abi;
  let empty_auth := mk_authority 1 [] [] [] in
  let active_producers_authority :=
    mk_authority 1 [] [mk_level_weight (system_account_name, active_name) 1] [] in
  db ← create_native_account db genesis_time null_account_name empty_auth empty_auth false [];
  db ← create_native_account db genesis_time producers_account_name empty_auth active_producers_authority false [];
  '(active_id, _) ← get_permission (db_auth db) (producers_account_name, active_name);
  '(ad, majority_id) ← create_permission (db_auth db) 0 producers_account_name
     majority_producers_permission_name active_id active_producers_authority genesis_time;
  '(ad, _) ← create_permission ad 0 producers_account_name
     minority_producers_permission_name majority_id active_producers_authority genesis_time;
  mret (set_auth db ad).

End Native.

(** ** The producers' permissions *)

Definition producers_authority (producers : list account_name) (numerator denominator : Z) : authority :=
  mk_authority (u32 (u32 (Z.of_nat (length producers) * numerator) / denominator + 1)) []
    ((fun p => mk_level_weight (p, active_name) 1) <$> producers) [].

#[export] Instance authority_eq_dec : EqDecision authority.
Proof.
  assert (EqDecision permission_level_weight) by solve_decision.
  assert (EqDecision key_weight) by solve_decision.
  assert (EqDecision wait_weight) by solve_decision.
  solve_decision.
Defined.

(** A change of the authority keeps the time of the last update. *)
Definition update_producers_permission (ad : authorization_db) (permission : Z) (auth : authority) :
    result authorization_db :=
  '(i, p) ← get_permission ad (producers_account_name, permission);
  if bool_decide (po_auth p = auth) then mret ad
  else mret (set_permissions ad (<[i := with_auth p auth (po_last_updated p)]> (permission_index ad))).

Definition update_producers_authority (ad : authorization_db) (producers : list account_name) :
    result authorization_db :=
  ad ← update_producers_permission ad active_name (producers_authority producers 2 3);
  ad ← update_producers_permission ad majority_producers_permission_name (producers_authority producers 1 2);
  update_producers_permission ad minority_producers_permission_name (producers_authority producers 1 3).
