(* ===== verification/NativeActionsProofs.v ===== *)
(** * Properties of the native actions

    From the genesis tables on, every sequence of native actions keeps the
    permission trees well formed and gives every account its [owner] and [active]
    permissions; the RAM billed is exactly what the rows take
    ([NativeActions.v] has the model). *)

From Stdlib Require Import ZArith Lia Bool String.
From stdpp Require Import base numbers gmap relations sets list.
From S2P Require Import Prelude ResourceLimits Name Merkle BlockHeader Authority AuthorityProofs.
From S2P Require Import Permissions PermissionsProofs NativeActions.

Open Scope Z_scope.

(** ** The invariant *)

(** Every account has an [owner] permission and an [active] one directly below
    it; every permission belongs to an account. *)
Record native_ok (db : chain_db) : Prop := {
  nk_perms : perms_ok (db_auth db);
  nk_accounts a : is_Some (db_accounts db !! a) -> a <> 0 /\ exists o po k pk,
    by_owner (db_auth db) a owner_name = Some (o, po) /\
    by_owner (db_auth db) a active_name = Some (k, pk) /\ po_parent pk = o;
  nk_owners i p : permission_index (db_auth db) !! i = Some p -> i <> 0 -> is_Some (db_accounts db !! po_owner p)
}.

(** [native_ok] depends on the permissions and on which accounts exist. *)
Lemma native_ok_same db db' :
  native_ok db -> perms_ok (db_auth db') ->
  permission_index (db_auth db') = permission_index (db_auth db) ->
  (forall a, is_Some (db_accounts db' !! a) <-> is_Some (db_accounts db !! a)) -> native_ok db'.
Proof.
  intros Hok Hp Hidx Hacc.
  assert (forall o n, by_owner (db_auth db') o n = by_owner (db_auth db) o n) as Hby.
  { intros o n. unfold by_owner. by rewrite Hidx. }
  constructor; [done| |].
  - intros a Ha. apply Hacc, (nk_accounts db Hok) in Ha as [? (o & po & k & pk & ?)]. split; [done|].
    exists o, po, k, pk. by rewrite !Hby.
  - intros i p Hi. rewrite Hidx in Hi. intros Hz. by apply Hacc, (nk_owners db Hok i).
Qed.

Lemma add_ram_usage_auth db a d db' :
  add_ram_usage db a d = Ok db' ->
  db_auth db' = db_auth db /\ db_accounts db' = db_accounts db /\ db_sequences db' = db_sequences db /\
  db_generated db' = db_generated db.
Proof. intros E. apply bind_Ok in E as (rl & _ & E). by injection E as <-. Qed.

Lemma native_ok_ram db a d db' : native_ok db -> add_ram_usage db a d = Ok db' -> native_ok db'.
Proof.
  intros Hok E. apply add_ram_usage_auth in E as (Ha & Hb & _). apply (native_ok_same db); rewrite ?Ha, ?Hb; try done.
  apply (nk_perms db Hok).
Qed.

Lemma perms_ok_links ad l : perms_ok ad -> perms_ok (set_links ad l).
Proof. intros []. by constructor. Qed.

Lemma native_ok_links db l : native_ok db -> native_ok (set_auth db (set_links (db_auth db) l)).
Proof. intros Hok. apply (native_ok_same db); try done. apply perms_ok_links, (nk_perms db Hok). Qed.

(** A row keeps its place when another one is created, changed or removed. *)
Lemma by_owner_kept ad ad' o n i p :
  perms_ok ad' -> by_owner ad o n = Some (i, p) -> permission_index ad' !! i = Some p ->
  by_owner ad' o n = Some (i, p).
Proof.
  intros Hok Hby Hi. apply by_owner_Some in Hby as (_ & <- & <-). by apply by_owner_lookup.
Qed.

(** ** Creating permissions *)

Lemma native_ok_create db now account name parent auth t ad i :
  native_ok db -> may_create (db_auth db) account name parent auth -> is_Some (db_accounts db !! account) ->
  create_permission (db_auth db) now account name parent auth t = Ok (ad, i) ->
  native_ok (set_auth db ad).
Proof.
  intros Hok Hmay Hacc E. pose proof (create_permission_ok _ _ _ _ _ _ _ _ _ (nk_perms db Hok) Hmay E) as [Hp Hi].
  apply create_permission_Ok in E as (Hid & _ & _ & _ & _ & ct & Hidx & _).
  assert (forall j p, permission_index (db_auth db) !! j = Some p -> permission_index ad !! j = Some p) as Hkeep.
  { intros j p Hj. rewrite Hidx, lookup_insert_ne; [done|]. pose proof (ok_ids _ (nk_perms db Hok) j p Hj). lia. }
  constructor; simpl; [done| |].
  - intros a Ha. apply (nk_accounts db Hok) in Ha as [? (o & po & k & pk & H1 & H2 & H3)]. split; [done|].
    exists o, po, k, pk. split_and!; [| |done]; (eapply by_owner_kept; [done..|]); apply Hkeep.
    + by apply by_owner_Some in H1 as (? & _).
    + by apply by_owner_Some in H2 as (? & _).
  - intros j p Hj Hz. rewrite Hidx in Hj. apply lookup_insert_Some in Hj as [[_ <-]|[_ Hj]]; [done|].
    by apply (nk_owners db Hok j).
Qed.

(** Changing the authority of a permission. *)
Lemma native_ok_modify db i p p' :
  native_ok db -> permission_index (db_auth db) !! i = Some p -> same_shape p' p -> authority_typed (po_auth p') ->
  native_ok (set_auth db (set_permissions (db_auth db) (<[i := p']> (permission_index (db_auth db))))).
Proof.
  intros Hok Hp Hsh Hty. pose proof (set_permission_ok _ i p p' (nk_perms db Hok) Hp Hsh Hty) as Hp'.
  set (ad := set_permissions _ _) in *. constructor; simpl; [done| |].
  - intros a Ha. apply (nk_accounts db Hok) in Ha as [? (o & po & k & pk & H1 & H2 & H3)]. split; [done|].
    assert (forall n j q, by_owner (db_auth db) a n = Some (j, q) ->
      exists q', by_owner ad a n = Some (j, q') /\ po_parent q' = po_parent q) as Hfind.
    { intros n j q Hby. apply by_owner_Some in Hby as (Hj & Ho & Hn). destruct Hsh as (_ & S1 & S2 & S3).
      destruct (decide (i = j)) as [<-|Hne].
      - simplify_eq. exists p'. split; [|done]. rewrite <- S2, <- S3. apply by_owner_lookup; [done|].
        apply lookup_insert_eq.
      - exists q. split; [|done]. rewrite <- Ho, <- Hn. apply by_owner_lookup; [done|].
        simpl. by rewrite lookup_insert_ne. }
    destruct (Hfind owner_name o po H1) as (po' & Hpo & _). destruct (Hfind active_name k pk H2) as (pk' & Hpk & Hpar).
    exists o, po', k, pk'. split_and!; try done. congruence.
  - intros j q Hj Hz. apply lookup_insert_Some in Hj as [[<- <-]|[_ Hj]]; [|by apply (nk_owners db Hok j)].
    destruct Hsh as (_ & _ & -> & _). by apply (nk_owners db Hok i).
Qed.

Section Steps.
Context `{NativeOps}.

(** A new account and its two permissions. *)
Lemma create_account_ok db now name acc owner active t db1 db2 :
  native_ok db -> name <> 0 -> authority_typed owner -> authority_typed active ->
  create_account_rows db name acc = Ok db1 ->
  create_account_permissions db1 now name owner active t = Ok db2 -> native_ok db2.
Proof.
  intros Hok Hn Hto Hta Er Ep. pose proof (nk_perms db Hok) as Hp.
  apply bind_Ok in Er as ([] & Hnew & Er). apply bind_Ok in Er as ([] & _ & Er). injection Er as <-.
  apply bind_Ok in Ep as ([ad1 o] & E1 & Ep). apply bind_Ok in Ep as ([ad2 k] & E2 & Ep).
  apply bind_Ok in Ep as (rl & _ & Ep). injection Ep as <-. simpl in E1.
  assert (may_create (db_auth db) name owner_name 0 owner) as Hm1 by by split_and!.
  pose proof (create_permission_ok _ _ _ _ _ _ _ _ _ Hp Hm1 E1) as [Hp1 Ho].
  apply create_permission_Ok in E1 as (Ho' & Hn1 & _ & _ & _ & ct1 & Hidx1 & _).
  set (po := mk_permission _ 0 name owner_name ct1 owner) in *.
  assert (permission_index ad1 !! o = Some po) as Hpo by (rewrite Hidx1; apply lookup_insert_eq).
  assert (may_create ad1 name active_name o active) as Hm2 by (split_and!; try done; intros _; by exists po).
  pose proof (create_permission_ok _ _ _ _ _ _ _ _ _ Hp1 Hm2 E2) as [Hp2 Hk].
  apply create_permission_Ok in E2 as (Hk' & _ & _ & _ & _ & ct2 & Hidx2 & _).
  set (pk := mk_permission _ o name active_name ct2 active) in *.
  assert (forall j p, permission_index (db_auth db) !! j = Some p -> permission_index ad2 !! j = Some p) as Hkeep.
  { intros j p Hj. pose proof (ok_ids _ Hp j p Hj). rewrite Hidx2, lookup_insert_ne by lia.
    rewrite Hidx1, lookup_insert_ne by lia. done. }
  assert (permission_index ad2 !! o = Some po) as Hpo2 by (rewrite Hidx2, lookup_insert_ne by lia; done).
  assert (permission_index ad2 !! k = Some pk) as Hpk2 by (rewrite Hidx2; apply lookup_insert_eq).
  constructor; simpl; [done| |].
  - intros a Ha. destruct (decide (a = name)) as [->|Hne].
    + split; [done|]. exists o, po, k, pk. split_and!; [by apply (by_owner_lookup ad2 o po)|
        by apply (by_owner_lookup ad2 k pk)|done].
    + rewrite lookup_insert_ne in Ha by done.
      apply (nk_accounts db Hok) in Ha as [? (o' & po' & k' & pk' & H1 & H2 & H3)]. split; [done|].
      exists o', po', k', pk'. split_and!; [| |done]; (eapply by_owner_kept; [done..|]); apply Hkeep.
      * by apply by_owner_Some in H1 as (? & _).
      * by apply by_owner_Some in H2 as (? & _).
  - intros j p Hj Hz. rewrite Hidx2 in Hj. apply lookup_insert_Some in Hj as [[_ <-]|[_ Hj]].
    { simpl. by rewrite lookup_insert_eq. }
    rewrite Hidx1 in Hj. apply lookup_insert_Some in Hj as [[_ <-]|[_ Hj]].
    { simpl. by rewrite lookup_insert_eq. }
    destruct (decide (po_owner p = name)) as [->|Hne]; [by rewrite lookup_insert_eq|].
    rewrite lookup_insert_ne by done. by apply (nk_owners db Hok j).
Qed.

Lemma newaccount_ok cx db create db' :
  native_ok db -> authority_typed (na_owner create) -> authority_typed (na_active create) ->
  apply_snax_newaccount cx db create = Ok db' -> native_ok db'.
Proof.
  intros Hok Hto Hta E. unfold apply_snax_newaccount in E.
  do 3 (apply bind_Ok in E as (? & _ & E)). apply bind_Ok in E as ([] & Hn & E).
  apply assert_Ok, negb_true_iff, Z.eqb_neq in Hn. do 4 (apply bind_Ok in E as (? & _ & E)).
  apply bind_Ok in E as (db1 & Hr & E). do 2 (apply bind_Ok in E as (? & _ & E)).
  apply bind_Ok in E as (db2 & Hp & E). apply (native_ok_ram _ _ _ _) in E; [done|].
  exact (create_account_ok _ _ _ _ _ _ _ _ _ Hok Hn Hto Hta Hr Hp).
Qed.

(** The parent a permission is created under. *)
Lemma updateauth_ok cx db update db' :
  native_ok db -> authority_typed (ua_auth update) -> apply_snax_updateauth cx db update = Ok db' -> native_ok db'.
Proof.
  intros Hok Hty E. unfold apply_snax_updateauth in E.
  apply bind_Ok in E as (? & _ & E). apply bind_Ok in E as ([] & Hn & E). apply assert_Ok, negb_true_iff, Z.eqb_neq in Hn.
  do 2 (apply bind_Ok in E as (? & _ & E)). apply bind_Ok in E as (acc & Hacc & E).
  unfold get_account in Hacc. apply of_option_Ok in Hacc.
  do 2 (apply bind_Ok in E as (? & _ & E)). apply bind_Ok in E as ([] & Hpar & E).
  do 2 (apply bind_Ok in E as (? & _ & E)). apply bind_Ok in E as (permission & Hf & E).
  apply bind_Ok in E as (parent_id & Hpid & E). unfold find_permission in Hf. apply bind_Ok in Hf as ([] & _ & Hf).
  injection Hf as Hf. simpl in Hf. destruct permission as [[i p]|].
  - apply bind_Ok in E as ([] & _ & E). apply (native_ok_ram _ _ _ _) in E; [done|].
    apply by_owner_Some in Hf as (Hi & _). unfold modify_permission.
    by apply (native_ok_modify db i p).
  - apply bind_Ok in E as ([ad j] & Ec & E). apply (native_ok_ram _ _ _ _) in E; [done|].
    destruct (nk_accounts db Hok (ua_account update)) as [Hanz _]; [by rewrite Hacc|].
    eapply native_ok_create; [done| |by rewrite Hacc|exact Ec]. split_and!; try done.
    + destruct (Z.eqb_spec (ua_permission update) owner_name) as [->|Hne]; simpl in Hpid.
      * injection Hpid as <-. done.
      * apply bind_Ok in Hpid as ([j' q] & Hg & Hpid). injection Hpid as <-.
        pose proof (get_permission_nonzero _ _ _ _ (nk_perms db Hok) Hg). done.
    + intros Hnz. destruct (Z.eqb_spec (ua_permission update) owner_name) as [Heq|Hne]; simpl in Hpid.
      * by injection Hpid as <-.
      * apply bind_Ok in Hpid as ([j' q] & Hg & Hpid). injection Hpid as <-.
        apply get_permission_Ok in Hg as (Hq & Ho & _). by exists q.
Qed.

Lemma deleteauth_ok cx db remove db' :
  native_ok db -> apply_snax_deleteauth cx db remove = Ok db' -> native_ok db'.
Proof.
  intros Hok E. unfold apply_snax_deleteauth in E. apply bind_Ok in E as (? & _ & E).
  apply bind_Ok in E as ([] & Ha & E). apply bind_Ok in E as ([] & Ho & E). apply bind_Ok in E as ([] & _ & E).
  apply assert_Ok, negb_true_iff, Z.eqb_neq in Ha, Ho.
  apply bind_Ok in E as ([i p] & Hg & E). apply bind_Ok in E as (ad & Hr & E).
  apply (native_ok_ram _ _ _ _) in E; [done|].
  pose proof (get_permission_nonzero _ _ _ _ (nk_perms db Hok) Hg) as Hi.
  apply get_permission_Ok in Hg as (Hp & Hpo & Hpn & _). simpl in *.
  apply remove_permission_ok in Hr as (Hok' & Hidx & _); [|apply (nk_perms db Hok)|done|done].
  constructor; simpl; [done| |].
  - intros a Hacc. apply (nk_accounts db Hok) in Hacc as [? (o & po & k & pk & H1 & H2 & H3)]. split; [done|].
    assert (forall n j q, by_owner (db_auth db) a n = Some (j, q) -> n <> da_permission remove ->
      by_owner ad a n = Some (j, q)) as Hkeep.
    { intros n j q Hby Hne. eapply by_owner_kept; [done|done|]. apply by_owner_Some in Hby as (Hj & _ & <-).
      rewrite Hidx, lookup_delete_ne; [done|]. intros ->. congruence. }
    exists o, po, k, pk. split_and!; [by apply Hkeep|by apply Hkeep|done].
  - intros j q Hj Hz. rewrite Hidx in Hj. apply lookup_delete_Some in Hj as [_ Hj]. by apply (nk_owners db Hok j).
Qed.

Lemma linkauth_ok cx db r db' : native_ok db -> apply_snax_linkauth cx db r = Ok db' -> native_ok db'.
Proof.
  intros Hok E. unfold apply_snax_linkauth in E. do 5 (apply bind_Ok in E as (? & _ & E)).
  destruct (permission_link_index _ !! _).
  - apply bind_Ok in E as (? & _ & E). injection E as <-. by apply native_ok_links.
  - apply (native_ok_ram _ _ _ _) in E; [done|]. by apply native_ok_links.
Qed.

Lemma unlinkauth_ok cx db u db' : native_ok db -> apply_snax_unlinkauth cx db u = Ok db' -> native_ok db'.
Proof.
  intros Hok E. unfold apply_snax_unlinkauth in E. do 2 (apply bind_Ok in E as (? & _ & E)).
  apply bind_Ok in E as (db1 & Hr & E). injection E as <-.
  apply (native_ok_ram _ _ _ _ Hok) in Hr. by apply native_ok_links.
Qed.

Lemma canceldelay_ok cx db c db' : native_ok db -> apply_snax_canceldelay cx db c = Ok db' -> native_ok db'.
Proof.
  intros Hok E. unfold apply_snax_canceldelay, cancel_deferred_transaction in E.
  apply bind_Ok in E as (? & _ & E). apply bind_Ok in E as ([db1 b] & Hc & E). injection E as <-.
  destruct (by_sender_id db _ _) as [[i g]|]; [|by injection Hc as <- _].
  apply bind_Ok in Hc as (db2 & Hr & Hc). injection Hc as <- _.
  apply (native_ok_ram _ _ _ _ Hok) in Hr. apply (native_ok_same db2); try done. apply (nk_perms db2 Hr).
Qed.

Lemma native_ok_set_account db n a s :
  native_ok db -> is_Some (db_accounts db !! n) -> native_ok (set_account db n a s).
Proof.
  intros Hok Hn. apply (native_ok_same db); try done; [apply (nk_perms db Hok)|]. intros b. simpl.
  destruct (decide (b = n)) as [->|Hne]; [by rewrite lookup_insert_eq|by rewrite lookup_insert_ne].
Qed.

Lemma setcode_ok cx db act db' : native_ok db -> apply_snax_setcode cx db act = Ok db' -> native_ok db'.
Proof.
  intros Hok E. unfold apply_snax_setcode in E. do 3 (apply bind_Ok in E as (? & _ & E)).
  apply bind_Ok in E as (code_id & _ & E).
  apply bind_Ok in E as (a & Ha & E). apply of_option_Ok in Ha. do 2 (apply bind_Ok in E as (? & _ & E)).
  apply bind_Ok in E as (sq & _ & E).
  assert (native_ok (set_account db (sc_account act) (mk_account (ao_privileged a) (pending_block_time cx) code_id
    (ao_creation_date a) (sc_code act) (ao_abi a)) (mk_sequence (recv_sequence sq) (auth_sequence sq)
    (u64 (code_sequence sq + 1)) (abi_sequence sq)))) as Hs by (apply native_ok_set_account; [done|by rewrite Ha]).
  destruct (negb _); [by apply (native_ok_ram _ _ _ _) in E|by injection E as <-].
Qed.

Lemma setabi_ok cx db act db' : native_ok db -> apply_snax_setabi cx db act = Ok db' -> native_ok db'.
Proof.
  intros Hok E. unfold apply_snax_setabi in E. apply bind_Ok in E as (? & _ & E).
  apply bind_Ok in E as (a & Ha & E). apply of_option_Ok in Ha. apply bind_Ok in E as (? & _ & E).
  apply bind_Ok in E as (sq & _ & E).
  destruct (negb _); [apply (native_ok_ram _ _ _ _) in E; [done|]|injection E as <-];
    (apply native_ok_set_account; [done|by rewrite Ha]).
Qed.

(** ** Genesis *)

Lemma authority_typed_intro thr ks ls :
  0 <= thr -> Forall (fun k => 0 <= kw_weight k < 2 ^ 16) ks -> Forall (fun l => 0 <= plw_weight l < 2 ^ 16) ls ->
  authority_typed (mk_authority thr ks ls []).
Proof.
  intros Ht Hk Hl. rewrite Forall_forall in Hk. rewrite Forall_forall in Hl. constructor; simpl; [|set_solver|done].
  intros m Hm. unfold metas in Hm. simpl in Hm. rewrite elem_of_app, !list_elem_of_fmap in Hm.
  destruct Hm as [(k & -> & Hin)|(l & -> & Hin)]; simpl; auto.
Qed.

Lemma create_native_account_ok db t name owner active priv abi db' :
  native_ok db -> name <> 0 -> authority_typed owner -> authority_typed active ->
  create_native_account db t name owner active priv abi = Ok db' -> native_ok db'.
Proof.
  intros Hok Hn Hto Hta E. apply bind_Ok in E as (db1 & Hr & E). apply bind_Ok in E as (db2 & Hp & E).
  apply bind_Ok in E as (db3 & Hram & E). apply bind_Ok in E as (? & _ & E). injection E as <-.
  eapply native_ok_ram; [|done]. exact (create_account_ok _ _ _ _ _ _ _ _ _ Hok Hn Hto Hta Hr Hp).
Qed.

Lemma initialize_auth_db_ok : exists ad, initialize_auth_db = Ok ad /\ perms_ok ad /\
  forall i p, permission_index ad !! i = Some p -> i = 0.
Proof.
  eexists. split; [reflexivity|]. unfold empty_auth_db, by_owner. simpl.
  assert (forall i p, <[0 := mk_permission 0 0 0 0 0 empty_authority]> (∅ : gmap Z permission_object) !! i = Some p ->
    i = 0 /\ p = mk_permission 0 0 0 0 0 empty_authority) as Hone.
  { intros i p [[<- <-]|[_ Hp]]%lookup_insert_Some; [done|by rewrite lookup_empty in Hp]. }
  split; [|intros i p Hp; simpl in Hp; by apply Hone in Hp as [? _]].
  constructor; simpl; try (intros i p Hp; apply Hone in Hp as [-> ->]); try done.
  - eexists. split; [apply lookup_insert_eq|done].
  - intros i j p q Hp Hq. apply Hone in Hp as [-> ->], Hq as [-> ->]. done.
  - intros i j p q Hp Hq. apply Hone in Hp as [-> ->]. done.
  - by apply authority_typed_intro.
Qed.

Lemma genesis_ok t k abi db : initialize_chain_db t k abi = Ok db -> native_ok db.
Proof.
  unfold initialize_chain_db. destruct initialize_auth_db_ok as (ad0 & -> & Hp0 & Hone).
  cbn [mbind result_bind]. set (db0 := mk_chain_db ad0 ∅ ∅ ∅ _).
  assert (native_ok db0) as H00.
  { constructor; simpl; [done| |]; [by intros a [? Ha]; rewrite lookup_empty in Ha|].
    intros i p Hi Hz. by apply Hone in Hi. }
  set (sys := authority_of_key k 0). set (emp := mk_authority 1 [] [] []). set (act := mk_authority 1 [] [_] []).
  assert (authority_typed sys /\ authority_typed emp /\ authority_typed act) as (Ts & Te & Ta).
  { split_and!; apply authority_typed_intro; try done; by repeat constructor. }
  intros E. apply bind_Ok in E as (db1 & E1 & E). apply bind_Ok in E as (db2 & E2 & E).
  apply bind_Ok in E as (db3 & E3 & E).
  apply create_native_account_ok in E1; [|done..]. apply create_native_account_ok in E2; [|done..].
  apply create_native_account_ok in E3; [|done..].
  apply bind_Ok in E as ([ai ap] & Hg & E). apply bind_Ok in E as ([ad1 mj] & Em & E).
  apply bind_Ok in E as ([ad2 mn] & En & E). injection E as <-.
  pose proof (get_permission_nonzero _ _ _ _ (nk_perms db3 E3) Hg) as Hai.
  apply get_permission_Ok in Hg as (Hap & Hao & _). simpl in Hao.
  assert (is_Some (db_accounts db3 !! producers_account_name)) as Hacc.
  { rewrite <- Hao. by apply (nk_owners db3 E3 ai). }
  assert (may_create (db_auth db3) producers_account_name majority_producers_permission_name ai act) as Hm1.
  { split_and!; try done. intros _. by exists ap. }
  pose proof (native_ok_create db3 _ _ _ _ _ _ _ _ E3 Hm1 Hacc Em) as H4.
  pose proof (create_permission_ok _ _ _ _ _ _ _ _ _ (nk_perms db3 E3) Hm1 Em) as [_ Hmj].
  apply create_permission_Ok in Em as (-> & _ & _ & _ & _ & ct & Hidx & _).
  assert (native_ok (set_auth (set_auth db3 ad1) ad2)) as H5; [|done].
  eapply (native_ok_create (set_auth db3 ad1)); [done| |done|exact En].
  split_and!; try done. intros _. simpl. rewrite Hidx, lookup_insert_eq. by eexists.
Qed.

Lemma update_producers_permission_ok db perm auth ad :
  native_ok db -> authority_typed auth ->
  update_producers_permission (db_auth db) perm auth = Ok ad -> native_ok (set_auth db ad).
Proof.
  intros Hok Hty E. apply bind_Ok in E as ([i p] & Hg & E). apply get_permission_Ok in Hg as (Hp & _).
  case_bool_decide; injection E as <-; [by destruct db|].
  by apply (native_ok_modify db i p).
Qed.

Lemma producers_authority_typed ps n d : authority_typed (producers_authority ps n d).
Proof.
  apply authority_typed_intro; [apply u32_is_u32|constructor|].
  apply Forall_fmap, Forall_true. intros x. simpl. lia.
Qed.

Lemma update_producers_ok db ps ad :
  native_ok db -> update_producers_authority (db_auth db) ps = Ok ad -> native_ok (set_auth db ad).
Proof.
  intros Hok E. apply bind_Ok in E as (ad1 & E1 & E). apply bind_Ok in E as (ad2 & E2 & E).
  apply update_producers_permission_ok in E1; [|done|apply producers_authority_typed].
  apply (update_producers_permission_ok (set_auth db ad1)) in E2; [|done|apply producers_authority_typed].
  by apply (update_producers_permission_ok (set_auth db ad2)) in E; [|done|apply producers_authority_typed].
Qed.

(** ** Runs *)

(** One native action, with any authorizations and typed arguments, or the
    change of the producers' permissions when a block starts. *)
Inductive native_step : chain_db -> chain_db -> Prop :=
| step_newaccount cx db c db' : authority_typed (na_owner c) -> authority_typed (na_active c) ->
    apply_snax_newaccount cx db c = Ok db' -> native_step db db'
| step_updateauth cx db u db' : authority_typed (ua_auth u) ->
    apply_snax_updateauth cx db u = Ok db' -> native_step db db'
| step_deleteauth cx db d db' : apply_snax_deleteauth cx db d = Ok db' -> native_step db db'
| step_linkauth cx db l db' : apply_snax_linkauth cx db l = Ok db' -> native_step db db'
| step_unlinkauth cx db l db' : apply_snax_unlinkauth cx db l = Ok db' -> native_step db db'
| step_canceldelay cx db c db' : apply_snax_canceldelay cx db c = Ok db' -> native_step db db'
| step_setcode cx db c db' : apply_snax_setcode cx db c = Ok db' -> native_step db db'
| step_setabi cx db c db' : apply_snax_setabi cx db c = Ok db' -> native_step db db'
| step_producers db ps ad : update_producers_authority (db_auth db) ps = Ok ad -> native_step db (set_auth db ad).

Lemma native_step_ok db db' : native_step db db' -> native_ok db -> native_ok db'.
Proof.
  intros Hs Hok. destruct Hs; [eapply newaccount_ok|eapply updateauth_ok|eapply deleteauth_ok|eapply linkauth_ok
    |eapply unlinkauth_ok|eapply canceldelay_ok|eapply setcode_ok|eapply setabi_ok|eapply update_producers_ok];
    eassumption.
Qed.

(** The states the chain can reach from a genesis. *)
Definition reachable (db : chain_db) : Prop :=
  exists t k abi db0, initialize_chain_db t k abi = Ok db0 /\ rtc native_step db0 db.

Lemma reachable_ok db : reachable db -> native_ok db.
Proof.
  intros (t & k & abi & db0 & E & Hr). apply genesis_ok in E.
  induction Hr as [|? ? ? Hs _ IH]; [done|]. by apply IH, (native_step_ok _ _ Hs).
Qed.

End Steps.

(** The [owner] permission is above every permission of its account. *)
Lemma owner_above ad i p :
  perms_ok ad -> permission_index ad !! i = Some p -> i <> 0 ->
  exists o po, by_owner ad (po_owner p) owner_name = Some (o, po) /\ above ad o i.
Proof.
  intros Hok. revert p. induction (Z.lt_wf 0 i) as [i _ IH]. intros p Hp Hi.
  destruct (ok_parent ad Hok i p Hp Hi) as [Hroot Hpar]. destruct (decide (po_parent p = 0)) as [Hz|Hz].
  - exists i, p. split; [|apply rtc_refl]. rewrite <- (proj2 Hroot Hz). by apply by_owner_lookup.
  - destruct (Hpar Hz) as [Hlt (q & Hq & Ho)]. pose proof (ok_ids ad Hok _ _ Hq).
    destruct (IH (po_parent p) ltac:(lia) q Hq Hz) as (o & po & Hby & Hab). exists o, po.
    rewrite <- Ho. split; [done|]. eapply rtc_l; [|done]. by exists p.
Qed.

(** C5: in every state reachable from genesis by native actions each account has
    an [owner] permission and an [active] one directly below it, each permission
    belongs to an account and lies below that account's [owner], and
    [satisfies] always gives an answer. *)
Theorem permission_trees `{NativeOps} db (Hr : reachable db) :
  (forall a, is_Some (db_accounts db !! a) -> exists o po k pk,
     get_permission (db_auth db) (a, owner_name) = Ok (o, po) /\
     get_permission (db_auth db) (a, active_name) = Ok (k, pk) /\ po_parent pk = o) /\
  (forall i p, permission_index (db_auth db) !! i = Some p -> i <> 0 ->
     is_Some (db_accounts db !! po_owner p) /\
     exists o po, get_permission (db_auth db) (po_owner p, owner_name) = Ok (o, po) /\ above (db_auth db) o i) /\
  (forall l l' x y, get_permission (db_auth db) l = Ok x -> get_permission (db_auth db) l' = Ok y ->
     is_Ok (satisfies (db_auth db) x y) = true).
Proof.
  apply reachable_ok in Hr as Hok. pose proof (nk_perms db Hok) as Hp.
  assert (forall a n x, a <> 0 -> n <> 0 -> by_owner (db_auth db) a n = Some x ->
    get_permission (db_auth db) (a, n) = Ok x) as Hget.
  { intros a n x Ha Hn Hby. unfold get_permission, valid_level. simpl.
    apply Z.eqb_neq in Ha, Hn. rewrite Ha, Hn. simpl. by rewrite Hby. }
  split_and!.
  - intros a Ha. apply (nk_accounts db Hok) in Ha as [Hnz (o & po & k & pk & H1 & H2 & H3)].
    exists o, po, k, pk. split_and!; [by apply Hget|by apply Hget|done].
  - intros i p Hi Hz. split; [by apply (nk_owners db Hok i)|].
    destruct (owner_above (db_auth db) i p Hp Hi Hz) as (o & po & Hby & Hab). exists o, po. split; [|done].
    apply Hget; [|done|done]. by apply (ok_named _ Hp i).
  - intros l l' [i p] [j q] Hx Hy. pose proof (get_permission_nonzero _ _ _ _ Hp Hx).
    pose proof (get_permission_nonzero _ _ _ _ Hp Hy).
    apply get_permission_Ok in Hx as (Hx & _). apply get_permission_Ok in Hy as (Hy & _).
    destruct (satisfies_spec _ Hp i p j q) as (b & -> & _); done.
Qed.
