(* ===== verification/NativeRam.v ===== *)
(** * The RAM of the native actions

    What an account is billed by a native action is exactly the change of what
    its rows take: its account row with code and ABI, its permissions, its links
    and the deferred transactions it pays for. *)

From Stdlib Require Import ZArith Lia Bool String.
From stdpp Require Import base numbers gmap relations sets list.
From S2P Require Import Prelude ResourceLimits ResourceLimitsProofs Name Merkle BlockHeader Authority AuthorityProofs.
From S2P Require Import Permissions PermissionsProofs NativeActions NativeActionsProofs.

Open Scope Z_scope.

(** ** Sizes *)

(** A packed key has a few bytes. *)
Class NativeLaws `{NativeOps} : Prop := {
  pack_size_small k : 0 <= pack_size k < 2 ^ 16
}.

(** An authority of at most 65536 entries, as [validate] demands. *)
Definition small_authority (a : authority) : Prop := authority_size a <= 2 ^ 16.

Section Ram.
Context `{NativeLaws}.

Definition keys_size (ks : list key_weight) : Z :=
  fold_right (fun k s => billable_size_key_weight + pack_size (kw_key k) + s) 0 ks.

Definition plain_size (a : authority) : Z :=
  Z.of_nat (length (accounts a)) * billable_size_permission_level_weight +
  Z.of_nat (length (waits a)) * billable_size_wait_weight + keys_size (keys a).

Lemma keys_size_bound ks : 0 <= keys_size ks <= Z.of_nat (length ks) * 2 ^ 17.
Proof.
  induction ks as [|k ks IH]; simpl; [lia|]. pose proof (pack_size_small (kw_key k)).
  unfold billable_size_key_weight. lia.
Qed.

Lemma keys_fold ks s :
  0 <= s -> s + keys_size ks < 2 ^ 64 ->
  fold_left (fun s k => u64 (u64 (s + billable_size_key_weight) + pack_size (kw_key k))) ks s = s + keys_size ks.
Proof.
  revert s. induction ks as [|k ks IH]; intros s Hs Hb; simpl in *; [lia|].
  pose proof (pack_size_small (kw_key k)). pose proof (keys_size_bound ks).
  unfold billable_size_key_weight in *. rewrite (u64_small (s + 8)) by (unfold is_u64; lia).
  rewrite u64_small by (unfold is_u64; lia). rewrite IH by lia. lia.
Qed.

Lemma plain_size_bound a : small_authority a -> 0 <= plain_size a < 2 ^ 40.
Proof.
  unfold small_authority, authority_size, plain_size, billable_size_permission_level_weight, billable_size_wait_weight.
  intros Hs. pose proof (keys_size_bound (keys a)). lia.
Qed.

Lemma get_billable_size_plain a : small_authority a -> get_billable_size pack_size a = plain_size a.
Proof.
  intros Hs. pose proof (plain_size_bound a Hs) as Hb. unfold get_billable_size, plain_size in *.
  pose proof (keys_size_bound (keys a)).
  unfold billable_size_permission_level_weight, billable_size_wait_weight in *.
  rewrite keys_fold by lia. rewrite (u64_small (_ * 24)), (u64_small (_ * 16)) by (unfold is_u64; lia).
  rewrite (u64_small (_ * 24 + _)) by (unfold is_u64; lia). rewrite u64_small by (unfold is_u64; lia). lia.
Qed.

Lemma permission_size_plain a :
  small_authority a -> permission_size a = billable_size_permission_object + plain_size a.
Proof.
  intros Hs. pose proof (plain_size_bound a Hs). unfold permission_size. rewrite get_billable_size_plain by done.
  change billable_size_permission_object with 288.
  rewrite u64_small, i64_small by (unfold is_u64, is_i64; lia). done.
Qed.

Lemma permission_size_bound a : small_authority a -> 0 <= permission_size a < 2 ^ 41.
Proof.
  intros Hs. rewrite permission_size_plain by done. pose proof (plain_size_bound a Hs).
  change billable_size_permission_object with 288. lia.
Qed.

Lemma account_ram_sizes o a :
  small_authority o -> small_authority a ->
  account_ram o a = overhead_per_account_ram_bytes + permission_size o + permission_size a.
Proof.
  intros Ho Ha. rewrite !permission_size_plain by done. unfold account_ram.
  pose proof (plain_size_bound o Ho). pose proof (plain_size_bound a Ha). rewrite !get_billable_size_plain by done.
  change billable_size_permission_object with 288. change overhead_per_account_ram_bytes with 2048.
  rewrite (u64_small (_ + plain_size o)), u64_small, i64_small by (unfold is_u64, is_i64; lia). lia.
Qed.

Lemma validate_small a : validate a = true -> small_authority a.
Proof.
  unfold validate, small_authority. destruct (Z.ltb_spec (2 ^ 16) (authority_size a)); [done|]. by intros _.
Qed.

(** ** The counter *)

Definition ram_of (db : chain_db) (a : account_name) : Z := ram_in (db_limits db) a.
Definition ram_typed (db : chain_db) : Prop := counters_typed (db_limits db).

Lemma add_ram_usage_Ok db a d db' :
  ram_typed db -> - 2 ^ 63 < d < 2 ^ 63 -> add_ram_usage db a d = Ok db' ->
  forall b, ram_of db' b = ram_of db b + if b =? a then d else 0.
Proof.
  intros Hty Hd E. apply bind_Ok in E as (rl & Er & E). injection E as <-.
  by apply (add_pending_ram_usage_Ok _ _ _ _ Hty Hd Er).
Qed.

(** ** What the rows take *)

Definition account_size (o : option account_object) : Z :=
  match o with
  | Some ao => overhead_per_account_ram_bytes +
      Z.of_nat (length (ao_code ao)) * setcode_ram_bytes_multiplier + Z.of_nat (length (ao_abi ao))
  | None => 0
  end.
Definition permission_share (a : Z) (_ : Z) (p : permission_object) : Z :=
  if po_owner p =? a then permission_size (po_auth p) else 0.
Definition link_share (a : Z) (k : Z * Z * Z) (_ : Z) : Z :=
  if k.1.1 =? a then billable_size_permission_link_object else 0.
Definition generated_size (g : generated_transaction_object) : Z :=
  billable_size_generated_transaction_object + Z.of_nat (length (gt_packed_trx g)).
Definition generated_share (a : Z) (_ : digest) (g : generated_transaction_object) : Z :=
  if gt_payer g =? a then generated_size g else 0.

Definition footprint (db : chain_db) (a : account_name) : Z :=
  account_size (db_accounts db !! a) + map_sum (permission_share a) (permission_index (db_auth db)) +
  map_sum (link_share a) (permission_link_index (db_auth db)) + map_sum (generated_share a) (db_generated db).

(** [billed db db']: every account is billed what its rows grew by. *)
Definition billed (db db' : chain_db) : Prop :=
  forall a, ram_of db' a - ram_of db a = footprint db' a - footprint db a.

Lemma billed_ram db db1 a d db' :
  ram_typed db1 -> - 2 ^ 63 < d < 2 ^ 63 -> add_ram_usage db1 a d = Ok db' ->
  (forall b, ram_of db1 b = ram_of db b) ->
  (forall b, footprint db1 b = footprint db b + if b =? a then d else 0) -> billed db db'.
Proof.
  intros Hty Hd E Hr Hf b. rewrite (add_ram_usage_Ok _ _ _ _ Hty Hd E b), Hr.
  apply add_ram_usage_auth in E as (Ha & Hac & _ & Hg). specialize (Hf b).
  unfold footprint in *. rewrite Ha, Hac, Hg. lia.
Qed.

(** ** The actions *)

Ltac bill E := eapply billed_ram; [| |exact E| |].

Lemma permission_created m b i p :
  m !! i = None -> map_sum (permission_share b) (<[i := p]> m) = map_sum (permission_share b) m +
    if b =? po_owner p then permission_size (po_auth p) else 0.
Proof.
  intros Hi. rewrite map_sum_insert_None by done. unfold permission_share at 1.
  rewrite (Z.eqb_sym b). destruct (po_owner p =? b); lia.
Qed.

Lemma permission_removed m b i p :
  m !! i = Some p -> map_sum (permission_share b) (delete i m) = map_sum (permission_share b) m -
    if b =? po_owner p then permission_size (po_auth p) else 0.
Proof.
  intros Hi. rewrite (map_sum_delete _ m i), Hi. unfold summand, permission_share at 2.
  rewrite (Z.eqb_sym b). lia.
Qed.

Lemma link_removed m b k r :
  m !! k = Some r -> map_sum (link_share b) (delete k m) = map_sum (link_share b) m -
    if b =? k.1.1 then billable_size_permission_link_object else 0.
Proof.
  intros Hk. rewrite (map_sum_delete _ m k), Hk. unfold summand, link_share at 2. rewrite (Z.eqb_sym b). lia.
Qed.

Lemma generated_removed m b i g :
  m !! i = Some g -> map_sum (generated_share b) (delete i m) = map_sum (generated_share b) m -
    if b =? gt_payer g then generated_size g else 0.
Proof.
  intros Hi. rewrite (map_sum_delete _ m i), Hi. unfold summand, generated_share at 2. rewrite (Z.eqb_sym b). lia.
Qed.

Lemma fresh_permission ad : perms_ok ad -> permission_index ad !! next_permission_id ad = None.
Proof.
  intros Hok. destruct (permission_index ad !! _) as [p|] eqn:E; [|done].
  pose proof (ok_ids ad Hok _ _ E). lia.
Qed.

(** Sizes of what is stored, and 64-bit counters. *)
Record sizes_ok (db : chain_db) : Prop := {
  sz_auth i p : permission_index (db_auth db) !! i = Some p -> small_authority (po_auth p);
  sz_account a ao : db_accounts db !! a = Some ao ->
    Z.of_nat (length (ao_code ao)) < 2 ^ 32 /\ Z.of_nat (length (ao_abi ao)) < 2 ^ 32;
  sz_generated i g : db_generated db !! i = Some g -> Z.of_nat (length (gt_packed_trx g)) < 2 ^ 32;
  sz_ram : ram_typed db
}.

Lemma ram_typed_add db a d db' : ram_typed db -> add_ram_usage db a d = Ok db' -> ram_typed db'.
Proof.
  intros Hty E. apply bind_Ok in E as (rl & Er & E). injection E as <-. intros b u Hb. simpl in Hb.
  unfold add_pending_ram_usage in Er. destruct (d =? 0); [injection Er as <-; by apply (Hty b)|].
  apply bind_Ok in Er as (v & Hv & Er). apply bind_Ok in Er as ([] & _ & Er).
  apply bind_Ok in Er as ([] & _ & Er). injection Er as <-. simpl in Hb.
  apply lookup_insert_Some in Hb as [[_ <-]|[_ Hb]]; [apply u64_is_u64|by apply (Hty b)].
Qed.

Lemma sizes_ok_ram db a d db' : sizes_ok db -> add_ram_usage db a d = Ok db' -> sizes_ok db'.
Proof.
  intros [] E. pose proof (ram_typed_add _ _ _ _ sz_ram0 E).
  apply add_ram_usage_auth in E as (Ha & Hb & _ & Hg). constructor; rewrite ?Ha, ?Hb, ?Hg; done.
Qed.

Lemma sizes_ok_auth db ad :
  sizes_ok db -> (forall i p, permission_index ad !! i = Some p -> small_authority (po_auth p)) ->
  sizes_ok (set_auth db ad).
Proof. intros [] Hs. by constructor. Qed.

Lemma newaccount_billed cx db c db' :
  native_ok db -> sizes_ok db -> apply_snax_newaccount cx db c = Ok db' -> billed db db' /\ sizes_ok db'.
Proof.
  intros Hok Hsz E. unfold apply_snax_newaccount in E. apply bind_Ok in E as (? & _ & E).
  apply bind_Ok in E as ([] & Vo & E). apply bind_Ok in E as ([] & Va & E). apply assert_Ok, validate_small in Vo, Va.
  do 5 (apply bind_Ok in E as (? & _ & E)). apply bind_Ok in E as (db1 & Hr & E).
  do 2 (apply bind_Ok in E as (? & _ & E)). apply bind_Ok in E as (db2 & Hp & E).
  apply bind_Ok in Hr as ([] & Hnew & Hr). apply assert_Ok, bool_decide_eq_true_1 in Hnew.
  apply bind_Ok in Hr as ([] & _ & Hr). injection Hr as <-.
  apply bind_Ok in Hp as ([ad1 o] & E1 & Hp). apply bind_Ok in Hp as ([ad2 k] & E2 & Hp).
  apply bind_Ok in Hp as (rl & Hi & Hp). injection Hp as <-. simpl in E1, Hi.
  apply create_permission_Ok in E1 as (-> & Hn1 & _ & Hl1 & _ & ct1 & Hidx1 & _).
  apply create_permission_Ok in E2 as (-> & _ & _ & Hl2 & _ & ct2 & Hidx2 & _).
  apply bind_Ok in Hi as ([] & _ & Hi). apply bind_Ok in Hi as ([] & Hno & Hi). injection Hi as <-.
  apply assert_Ok in Hno. simpl in Hno. destruct (usage (db_limits db) !! na_name c) eqn:Hu; [done|].
  set (db1 := set_limits _ _) in E.
  assert (ram_typed db1) as Hty'.
  { intros a u Ha. simpl in Ha. apply lookup_insert_Some in Ha as [[_ <-]|[_ Ha]]; [done|by apply (sz_ram db Hsz a)]. }
  pose proof (permission_size_bound _ Vo). pose proof (permission_size_bound _ Va).
  rewrite account_ram_sizes in E by done. change overhead_per_account_ram_bytes with 2048 in E.
  split.
  2:{ eapply sizes_ok_ram; [|exact E]. constructor; simpl; [| |apply (sz_generated db Hsz)|exact Hty'].
      - rewrite Hidx2, Hidx1. intros i p [[_ <-]|[_ Hp]]%lookup_insert_Some; [done|].
        apply lookup_insert_Some in Hp as [[_ <-]|[_ Hp]]; [done|by apply (sz_auth db Hsz i)].
      - intros a ao [[_ <-]|[_ Hao]]%lookup_insert_Some; [done|by apply (sz_account db Hsz a)]. }
  bill E.
  - exact Hty'.
  - lia.
  - intros b. unfold ram_of, ram_in. simpl. destruct (decide (b = na_name c)) as [->|Hne].
    + by rewrite lookup_insert_eq, Hu.
    + by rewrite lookup_insert_ne.
  - intros b. unfold footprint. simpl. rewrite Hl2, Hl1, Hidx2, Hidx1. rewrite !permission_created.
    + simpl. destruct (Z.eqb_spec b (na_name c)) as [->|Hne].
      * rewrite lookup_insert_eq, Hnew. simpl. change overhead_per_account_ram_bytes with 2048. lia.
      * rewrite lookup_insert_ne by done. lia.
    + by apply fresh_permission, (nk_perms db Hok).
    + rewrite Hn1, lookup_insert_ne by lia.
      destruct (permission_index (db_auth db) !! _) as [p|] eqn:Hp; [|done].
      pose proof (ok_ids _ (nk_perms db Hok) _ _ Hp). lia.
Qed.

Lemma updateauth_billed cx db u db' :
  native_ok db -> sizes_ok db -> apply_snax_updateauth cx db u = Ok db' -> billed db db' /\ sizes_ok db'.
Proof.
  intros Hok Hsz E. unfold apply_snax_updateauth in E. do 5 (apply bind_Ok in E as (? & _ & E)).
  apply bind_Ok in E as ([] & Va & E). apply assert_Ok, validate_small in Va.
  do 4 (apply bind_Ok in E as (? & _ & E)). apply bind_Ok in E as (permission & Hf & E).
  apply bind_Ok in E as (parent_id & _ & E). unfold find_permission in Hf. apply bind_Ok in Hf as ([] & _ & Hf).
  injection Hf as Hf. simpl in Hf. pose proof (permission_size_bound _ Va). destruct permission as [[i p]|].
  - apply bind_Ok in E as ([] & _ & E). apply by_owner_Some in Hf as (Hi & _).
    pose proof (permission_size_bound _ (sz_auth db Hsz i p Hi)). split.
    + bill E; [exact (sz_ram db Hsz)|lia|done|]. intros b. unfold footprint. simpl.
      rewrite map_sum_insert, Hi. unfold summand, permission_share at 2 3. simpl.
      rewrite (Z.eqb_sym b). destruct (po_owner p =? b); lia.
    + eapply sizes_ok_ram; [|exact E]. apply sizes_ok_auth; [done|]. simpl.
      intros j q [[_ <-]|[_ Hq]]%lookup_insert_Some; [done|by apply (sz_auth db Hsz j)].
  - apply bind_Ok in E as ([ad j] & Ec & E).
    apply create_permission_Ok in Ec as (-> & _ & _ & Hl & _ & ct & Hidx & _). split.
    + bill E; [exact (sz_ram db Hsz)|lia|done|]. intros b. unfold footprint. simpl.
      rewrite Hl, Hidx, permission_created by (by apply fresh_permission, (nk_perms db Hok)). simpl. lia.
    + eapply sizes_ok_ram; [|exact E]. apply sizes_ok_auth; [done|]. rewrite Hidx.
      intros j q [[_ <-]|[_ Hq]]%lookup_insert_Some; [done|by apply (sz_auth db Hsz j)].
Qed.

Lemma deleteauth_billed cx db d db' :
  native_ok db -> sizes_ok db -> apply_snax_deleteauth cx db d = Ok db' -> billed db db' /\ sizes_ok db'.
Proof.
  intros Hok Hsz E. unfold apply_snax_deleteauth in E. do 4 (apply bind_Ok in E as (? & _ & E)).
  apply bind_Ok in E as ([i p] & Hg & E). apply bind_Ok in E as (ad & Hr & E).
  pose proof (get_permission_nonzero _ _ _ _ (nk_perms db Hok) Hg) as Hi.
  apply get_permission_Ok in Hg as (Hp & Hpo & _). simpl in Hpo.
  apply remove_permission_ok in Hr as (_ & Hidx & Hl); [|apply (nk_perms db Hok)|done|done].
  pose proof (permission_size_bound _ (sz_auth db Hsz i p Hp)). split.
  - bill E; [exact (sz_ram db Hsz)|lia|done|]. intros b. unfold footprint. simpl. rewrite Hidx, Hl.
    rewrite (permission_removed _ b i p Hp), <- Hpo. destruct (b =? po_owner p); lia.
  - eapply sizes_ok_ram; [|exact E]. apply sizes_ok_auth; [done|]. rewrite Hidx.
    intros j q [_ Hq]%lookup_delete_Some. by apply (sz_auth db Hsz j).
Qed.

Lemma sizes_ok_links db l : sizes_ok db -> sizes_ok (set_auth db (set_links (db_auth db) l)).
Proof. intros Hsz. apply sizes_ok_auth; [done|]. apply (sz_auth db Hsz). Qed.

Lemma linkauth_billed cx db r db' :
  sizes_ok db -> apply_snax_linkauth cx db r = Ok db' -> billed db db' /\ sizes_ok db'.
Proof.
  intros Hsz E. unfold apply_snax_linkauth in E. do 5 (apply bind_Ok in E as (? & _ & E)).
  destruct (permission_link_index _ !! _) as [l|] eqn:Hl.
  - apply bind_Ok in E as ([] & _ & E). injection E as <-. split; [|by apply sizes_ok_links].
    intros b. unfold footprint, ram_of. simpl. rewrite map_sum_insert, Hl. unfold summand, link_share at 2 3. lia.
  - split; [|eapply sizes_ok_ram; [|exact E]; by apply sizes_ok_links].
    bill E; [exact (sz_ram db Hsz)|done|done|]. intros b. unfold footprint. simpl.
    rewrite map_sum_insert_None by done. unfold link_share at 1. simpl. rewrite (Z.eqb_sym b).
    destruct (_ =? b); lia.
Qed.

Lemma unlinkauth_billed cx db u db' :
  sizes_ok db -> apply_snax_unlinkauth cx db u = Ok db' -> billed db db' /\ sizes_ok db'.
Proof.
  intros Hsz E. unfold apply_snax_unlinkauth in E. apply bind_Ok in E as (? & _ & E).
  apply bind_Ok in E as (l & Hl & E). apply of_option_Ok in Hl.
  apply bind_Ok in E as (db1 & Hr & E). injection E as <-. pose proof (sizes_ok_ram _ _ _ _ Hsz Hr) as Hsz1.
  split; [|by apply sizes_ok_links]. intros b.
  assert (- 2 ^ 63 < - billable_size_permission_link_object < 2 ^ 63) as Hrange by done.
  pose proof (add_ram_usage_Ok _ _ _ _ (sz_ram db Hsz) Hrange Hr b) as Hb.
  apply add_ram_usage_auth in Hr as (Ha & Hac & _ & Hg). unfold footprint. simpl. rewrite Ha, Hac, Hg.
  unfold ram_of in *. simpl. rewrite Hb.
  rewrite (link_removed _ b _ l Hl). simpl. destruct (b =? ul_account u); lia.
Qed.

Lemma canceldelay_billed cx db c db' :
  sizes_ok db -> apply_snax_canceldelay cx db c = Ok db' -> billed db db' /\ sizes_ok db'.
Proof.
  intros Hsz E. unfold apply_snax_canceldelay, cancel_deferred_transaction in E.
  apply bind_Ok in E as (? & _ & E). apply bind_Ok in E as ([db1 f] & Hc & E). injection E as <-.
  destruct (by_sender_id db _ _) as [[i g]|] eqn:Hby; [|injection Hc as <- _; split; [intros b; lia|done]].
  apply head_filter_Some in Hby as [Hin _]. apply elem_of_map_to_list in Hin.
  apply bind_Ok in Hc as (db2 & Hr & Hc). injection Hc as <- _. pose proof (sz_generated db Hsz i g Hin) as Hlen.
  change billable_size_generated_transaction_object with 272 in Hr.
  rewrite i64_small in Hr by (unfold is_i64; lia). pose proof (sizes_ok_ram _ _ _ _ Hsz Hr) as Hsz2. split.
  - intros b. assert (- 2 ^ 63 < - (272 + Z.of_nat (length (gt_packed_trx g))) < 2 ^ 63) as Hrange by lia.
    pose proof (add_ram_usage_Ok _ _ _ _ (sz_ram db Hsz) Hrange Hr b) as Hb.
    apply add_ram_usage_auth in Hr as (Ha & Hac & _ & Hg). unfold footprint. simpl. rewrite Ha, Hac, Hg.
    unfold ram_of in *. simpl. rewrite Hb, (generated_removed _ b i g Hin). unfold generated_size.
    change billable_size_generated_transaction_object with 272. destruct (b =? gt_payer g); lia.
  - destruct Hsz2. constructor; try done. simpl. intros j h [_ Hj]%lookup_delete_Some. by apply (sz_generated0 j).
Qed.

(** Code and ABI. *)
Lemma set_account_billed db n a a' s new old db' :
  sizes_ok db -> db_accounts db !! n = Some a ->
  Z.of_nat (length (ao_code a')) < 2 ^ 32 -> Z.of_nat (length (ao_abi a')) < 2 ^ 32 ->
  new - old = account_size (Some a') - account_size (Some a) ->
  (if negb (new =? old) then add_ram_usage (set_account db n a' s) n (new - old)
   else Ok (set_account db n a' s)) = Ok db' ->
  billed db db' /\ sizes_ok db'.
Proof.
  intros Hsz Ha Hc Hb Hd E. destruct (sz_account db Hsz n a Ha) as [Hc0 Hb0].
  assert (sizes_ok (set_account db n a' s)) as Hsz1.
  { destruct Hsz. constructor; try done. simpl.
    intros b ao [[_ <-]|[_ Hbo]]%lookup_insert_Some; [done|by apply (sz_account0 b)]. }
  assert (forall b, footprint (set_account db n a' s) b = footprint db b + if b =? n then new - old else 0) as Hf.
  { intros b. unfold footprint. simpl. destruct (Z.eqb_spec b n) as [->|Hne].
    - rewrite lookup_insert_eq, Ha, Hd. lia.
    - rewrite lookup_insert_ne by done. lia. }
  unfold account_size in Hd. change overhead_per_account_ram_bytes with 2048 in Hd.
  change setcode_ram_bytes_multiplier with 10 in Hd.
  destruct (Z.eqb_spec new old) as [->|Hne]; simpl in E.
  - injection E as <-. split; [|done]. intros b. rewrite Hf. unfold ram_of. simpl. destruct (b =? n); lia.
  - split; [|by eapply sizes_ok_ram]. bill E; [exact (sz_ram _ Hsz1)|lia|done|done].
Qed.

Lemma setcode_billed cx db c db' :
  sizes_ok db -> Z.of_nat (length (sc_code c)) < 2 ^ 32 ->
  apply_snax_setcode cx db c = Ok db' -> billed db db' /\ sizes_ok db'.
Proof.
  intros Hsz Hc E. unfold apply_snax_setcode in E. do 3 (apply bind_Ok in E as (? & _ & E)).
  apply bind_Ok in E as (code_id & _ & E). apply bind_Ok in E as (a & Ha & E). apply of_option_Ok in Ha.
  do 2 (apply bind_Ok in E as (? & _ & E)). apply bind_Ok in E as (sq & _ & E).
  destruct (sz_account db Hsz _ _ Ha) as [_ Hab].
  eapply (set_account_billed db _ a); [done|done| | | |exact E]; simpl; done || lia.
Qed.

Lemma setabi_billed cx db c db' :
  sizes_ok db -> Z.of_nat (length (sa_abi c)) < 2 ^ 32 ->
  apply_snax_setabi cx db c = Ok db' -> billed db db' /\ sizes_ok db'.
Proof.
  intros Hsz Hc E. unfold apply_snax_setabi in E. apply bind_Ok in E as (? & _ & E).
  apply bind_Ok in E as (a & Ha & E). apply of_option_Ok in Ha.
  apply bind_Ok in E as (? & _ & E). apply bind_Ok in E as (sq & _ & E).
  destruct (sz_account db Hsz _ _ Ha) as [Hco _].
  eapply (set_account_billed db _ a); [done|done| | | |exact E]; simpl; done || lia.
Qed.

(** A native action with arguments of their types. *)
Inductive native_action : chain_db -> chain_db -> Prop :=
| act_newaccount cx db c db' : authority_typed (na_owner c) -> authority_typed (na_active c) ->
    apply_snax_newaccount cx db c = Ok db' -> native_action db db'
| act_updateauth cx db u db' : authority_typed (ua_auth u) ->
    apply_snax_updateauth cx db u = Ok db' -> native_action db db'
| act_deleteauth cx db d db' : apply_snax_deleteauth cx db d = Ok db' -> native_action db db'
| act_linkauth cx db l db' : apply_snax_linkauth cx db l = Ok db' -> native_action db db'
| act_unlinkauth cx db l db' : apply_snax_unlinkauth cx db l = Ok db' -> native_action db db'
| act_canceldelay cx db c db' : apply_snax_canceldelay cx db c = Ok db' -> native_action db db'
| act_setcode cx db c db' : Z.of_nat (length (sc_code c)) < 2 ^ 32 ->
    apply_snax_setcode cx db c = Ok db' -> native_action db db'
| act_setabi cx db c db' : Z.of_nat (length (sa_abi c)) < 2 ^ 32 ->
    apply_snax_setabi cx db c = Ok db' -> native_action db db'.

Lemma native_action_step db db' : native_action db db' -> native_step db db'.
Proof.
  intros Hs. destruct Hs; [eapply step_newaccount|eapply step_updateauth|eapply step_deleteauth|eapply step_linkauth
    |eapply step_unlinkauth|eapply step_canceldelay|eapply step_setcode|eapply step_setabi]; eassumption.
Qed.

Lemma native_action_ok db db' :
  native_action db db' -> native_ok db -> sizes_ok db -> billed db db' /\ native_ok db' /\ sizes_ok db'.
Proof.
  intros Hs Hok Hsz.
  assert (native_ok db') as Hok' by (apply (native_step_ok db); [by apply native_action_step|done]).
  assert (billed db db' /\ sizes_ok db') as [Hb Hsz']; [|done].
  destruct Hs; [eapply newaccount_billed|eapply updateauth_billed|eapply deleteauth_billed|eapply linkauth_billed
    |eapply unlinkauth_billed|eapply canceldelay_billed|eapply setcode_billed|eapply setabi_billed]; eassumption.
Qed.

(** C4: along every sequence of native actions the RAM counter of an account
    changes by exactly what its rows grow or shrink: the account row with its
    code and ABI, its permissions, its links and the deferred transactions it
    pays for; no RAM is ever billed twice, forgotten or billed to another
    account, and no counter or size wraps. *)
Theorem native_ram_exact db db' a
  (Hok : native_ok db) (Hsz : sizes_ok db) (Hrun : rtc native_action db db') :
  ram_of db' a = ram_of db a + (footprint db' a - footprint db a) /\ native_ok db' /\ sizes_ok db'.
Proof.
  induction Hrun as [db|db1 db2 db3 Hs _ IH]; [split_and!; try done; lia|].
  destruct (native_action_ok _ _ Hs Hok Hsz) as (Hb & Hok2 & Hsz2).
  destruct (IH Hok2 Hsz2) as (Hr & Hok3 & Hsz3). split_and!; try done. specialize (Hb a). lia.
Qed.

End Ram.
