(* ===== verification/NativeRuns.v ===== *)
(** * Runs of the native actions

    Concrete runs from genesis: the hypotheses of the theorems on permissions,
    authorization and RAM hold of them, and a link to a permission the account
    does not have is accepted. *)

From Stdlib Require Import ZArith Lia Bool String.
From stdpp Require Import base numbers gmap relations sets list.
From S2P Require Import Prelude ResourceLimits ResourceLimitsProofs Name Merkle BlockHeader Authority AuthorityProofs.
From S2P Require Import Permissions PermissionsProofs NativeActions NativeActionsProofs NativeRam.

Open Scope Z_scope.

Module Runs.

(** Keys of 34 bytes; code is accepted, and hashed to its length. *)
#[local] Instance ops : NativeOps := {|
  pack_size _ := 34;
  sha256_bytes l := mk_digest (Z.of_nat (length l)) 0 0 0;
  wasm_validate _ := Ok tt
|}.

#[local] Instance laws : NativeLaws.
Proof. constructor. intros k. simpl. lia. Defined.

(** Action data that says nothing: [alice] gives herself a new permission. *)
Definition alice : Z := Eval vm_compute in N_ "alice".
Definition bob : Z := Eval vm_compute in N_ "bob".
Definition trading : Z := Eval vm_compute in N_ "trading".
Definition key_auth (k : Z) : authority := authority_of_key k 0.

Definition update : updateauth := mk_updateauth alice trading active_name (key_auth 8).

#[local] Instance data : ActionData := {|
  as_updateauth _ := Ok update;
  as_deleteauth _ := Err parse_error;
  as_linkauth _ := Err parse_error;
  as_unlinkauth _ := Err parse_error;
  as_canceldelay _ := Err parse_error;
  unpack_transaction _ := Err parse_error
|}.

Definition cx (a : Z) : apply_context := mk_apply [(a, active_name)] 1000 3888000 false false None.

Definition ok_db (r : result chain_db) : chain_db :=
  match r with Ok db => db | Err _ => mk_chain_db empty_auth_db ∅ ∅ ∅ initialize_database end.

Definition genesis : chain_db := Eval vm_compute in ok_db (initialize_chain_db 500 7 [1; 2]).
Definition with_alice : chain_db := Eval vm_compute in
  ok_db (apply_snax_newaccount (cx system_account_name) genesis
    (mk_newaccount system_account_name alice (key_auth 10) (key_auth 11))).
Definition with_bob : chain_db := Eval vm_compute in
  ok_db (apply_snax_newaccount (cx system_account_name) with_alice
    (mk_newaccount system_account_name bob (key_auth 20) (key_auth 21))).
Definition with_trading : chain_db := Eval vm_compute in ok_db (apply_snax_updateauth (cx alice) with_bob update).

Lemma key_auth_typed k : authority_typed (key_auth k).
Proof. apply authority_typed_intro; [done|by repeat constructor|constructor]. Qed.

Lemma genesis_init : initialize_chain_db 500 7 [1; 2] = Ok genesis.
Proof. vm_compute. reflexivity. Qed.

Lemma alice_run : native_action genesis with_alice.
Proof.
  eapply (act_newaccount (cx system_account_name) _
    (mk_newaccount system_account_name alice (key_auth 10) (key_auth 11)));
    [apply key_auth_typed..|vm_compute; reflexivity].
Qed.
Lemma bob_run : native_action with_alice with_bob.
Proof.
  eapply (act_newaccount (cx system_account_name) _
    (mk_newaccount system_account_name bob (key_auth 20) (key_auth 21)));
    [apply key_auth_typed..|vm_compute; reflexivity].
Qed.
Lemma trading_run : native_action with_bob with_trading.
Proof. eapply (act_updateauth (cx alice) _ update); [apply key_auth_typed|vm_compute; reflexivity]. Qed.

(** A test of all entries of a map. *)
Lemma lookup_forallb `{Countable K} {V} (f : V -> bool) (m : gmap K V) :
  forallb (fun kv => f kv.2) (map_to_list m) = true -> forall k v, m !! k = Some v -> f v = true.
Proof.
  intros Hf k v Hk. rewrite forallb_forall in Hf. apply (Hf (k, v)).
  by apply list_elem_of_In, elem_of_map_to_list.
Qed.

Lemma genesis_sizes : sizes_ok genesis.
Proof.
  constructor.
  - intros i p Hp. apply Z.leb_le. revert i p Hp.
    apply (lookup_forallb (fun p => authority_size (po_auth p) <=? 2 ^ 16)). vm_compute. reflexivity.
  - intros a ao Ha. rewrite <- !Z.ltb_lt, <- andb_true_iff. revert a ao Ha.
    apply (lookup_forallb (fun ao => (Z.of_nat (length (ao_code ao)) <? 2 ^ 32) &&
      (Z.of_nat (length (ao_abi ao)) <? 2 ^ 32))). vm_compute. reflexivity.
  - intros i g Hg. assert (db_generated genesis = ∅) as Hz by reflexivity. by rewrite Hz, lookup_empty in Hg.
  - intros a u Hu. unfold is_u64. rewrite <- Z.leb_le, <- Z.ltb_lt, <- andb_true_iff. revert a u Hu.
    apply (lookup_forallb (fun u => (0 <=? ram_usage u) && (ram_usage u <? 2 ^ 64))). vm_compute. reflexivity.
Qed.

Lemma trading_actions : rtc native_action genesis with_trading.
Proof.
  eapply rtc_l; [apply alice_run|]. eapply rtc_l; [apply bob_run|]. eapply rtc_l; [apply trading_run|]. apply rtc_refl.
Qed.

Lemma trading_reachable : reachable with_trading.
Proof.
  exists 500, 7, [1; 2], genesis. split; [apply genesis_init|].
  eapply rtc_l; [apply native_action_step, alice_run|]. eapply rtc_l; [apply native_action_step, bob_run|].
  eapply rtc_l; [apply native_action_step, trading_run|]. apply rtc_refl.
Qed.

Lemma trading_ok : perms_ok (db_auth with_trading).
Proof. apply nk_perms, reachable_ok, trading_reachable. Qed.

(** ** Witnesses *)

Lemma permission_trees_witness :
  exists o po k pk, get_permission (db_auth with_trading) (alice, owner_name) = Ok (o, po) /\
    get_permission (db_auth with_trading) (alice, active_name) = Ok (k, pk) /\ po_parent pk = o.
Proof.
  destruct (permission_trees with_trading trading_reachable) as [H _]. apply H.
  exists (mk_account false 0 zero_digest 1000 [] []). vm_compute. reflexivity.
Defined.

Lemma native_ram_exact_witness :
  ram_of with_trading alice = ram_of genesis alice + (footprint with_trading alice - footprint genesis alice) /\
  ram_of with_trading alice = 3038.
Proof.
  split; [|vm_compute; reflexivity].
  destruct (native_ram_exact genesis with_trading alice) as (Hr & _ & _); [| | |exact Hr].
  - eapply genesis_ok. apply genesis_init.
  - apply genesis_sizes.
  - apply trading_actions.
Defined.

(** [alice@owner] is above [alice@trading]. *)
Lemma satisfies_exact_witness :
  exists i p j q b, get_permission (db_auth with_trading) (alice, owner_name) = Ok (i, p) /\
    get_permission (db_auth with_trading) (alice, trading) = Ok (j, q) /\
    satisfies (db_auth with_trading) (i, p) (j, q) = Ok b /\ (b = true <-> above (db_auth with_trading) i j).
Proof.
  destruct (get_permission (db_auth with_trading) (alice, owner_name)) as [[i p]|] eqn:E1.
  2:{ exfalso. assert (is_Ok (get_permission (db_auth with_trading) (alice, owner_name)) = true) as H
        by (vm_compute; reflexivity). rewrite E1 in H. discriminate H. }
  destruct (get_permission (db_auth with_trading) (alice, trading)) as [[j q]|] eqn:E2.
  2:{ exfalso. assert (is_Ok (get_permission (db_auth with_trading) (alice, trading)) = true) as H
        by (vm_compute; reflexivity). rewrite E2 in H. discriminate H. }
  destruct (satisfies_exact (db_auth with_trading) i p j q trading_ok) as (b & Hb & Hab).
  - by apply get_permission_Ok in E1 as (? & _).
  - exact (get_permission_nonzero _ _ _ _ trading_ok E1).
  - by apply get_permission_Ok in E2 as (? & _).
  - exact (get_permission_nonzero _ _ _ _ trading_ok E2).
  - exists i, p, j, q, b. done.
Defined.

(** [alice] updates her [trading] permission with the key of [active]. *)
Definition update_action : action := mk_action system_account_name updateauth_name [(alice, active_name)] [].

#[local] Existing Instances AuthorityProofs.Runs.order AuthorityProofs.Runs.order_laws.

Lemma update_checked :
  check_authorization (db_auth with_trading) ∅ (mk_auth_config 100 6) [update_action] [11] [] 0 false [] = Ok tt.
Proof. vm_compute. reflexivity. Qed.

Lemma check_authorization_sound_witness :
  exists d, action_authorized (db_auth with_trading) ∅ update_action 0 d /\
  exists d', d' <= d /\
    granted (permission_authority (db_auth with_trading)) (make_auth_checker 6 [11] [] d') (alice, active_name).
Proof.
  destruct (check_authorization_sound (db_auth with_trading) ∅ (mk_auth_config 100 6) [update_action] [11] [] 0 false []
    trading_ok update_checked update_action ltac:(by left)) as (d & Ha & Hl).
  exists d. split; [exact Ha|]. destruct (Hl (alice, active_name)) as [Hn|Hg]; [by left| |exact Hg].
  by apply not_elem_of_nil in Hn.
Defined.

(** ** A link to a permission of somebody else

    [linkauth] looks the permission up by name among all accounts: [bob], who has
    no permission [trading], links the actions of [alice] to it because [alice]
    has one. Afterwards he cannot send such an action with any permission:
    checking the authorization throws. *)
Definition with_link : result chain_db :=
  apply_snax_linkauth (cx bob) with_trading (mk_linkauth bob alice 0 trading).

Example link_to_missing_permission :
  get_permission (db_auth with_trading) (bob, trading) = Err permission_query_exception /\
  is_Ok with_link = true /\
  check_authorization (db_auth (ok_db with_link)) ∅ (mk_auth_config 100 6)
    [mk_action alice 5 [(bob, owner_name)] []] [20] [] 0 false [] = Err permission_query_exception.
Proof. split_and!; vm_compute; reflexivity. Qed.

End Runs.
