(* ===== verification/ContractTables.v ===== *)
(** * The tables of contracts

    [contract_table_objects.hpp] and the database interface of [apply_context]
    ([apply_context.cpp], [apply_context.hpp]): rows with a primary key, the five
    secondary indices, the iterators a contract holds, and the RAM a row is
    billed for.

    The chainbase tables are maps by id, and a pointer to a row is its id: ids
    are never reused, so following the pointer to a removed row is undefined
    behaviour. An operation returns the new session or throws, and then the
    transaction has no effect. Iterators are [int]s that a session never runs out
    of. *)

From Stdlib Require Import ZArith Lia Bool.
From stdpp Require Import base numbers gmap list.
From S2P Require Import Prelude ResourceLimits BlockHeader NativeActions.

Open Scope Z_scope.

(** ** Rows *)

Record table_id_object := mk_table {
  t_code : account_name; t_scope : Z; t_table : Z; t_payer : account_name; t_count : Z
}.

Record key_value_object := mk_kv {
  kv_t_id : Z; kv_primary_key : Z; kv_payer : account_name; kv_value : list Z
}.

(** A secondary key is the integer of its bits; the two halves of a 256-bit key
    are compared in order, so it is one number. *)
Record index_object := mk_index {
  ix_t_id : Z; ix_primary_key : Z; ix_payer : account_name; ix_secondary_key : Z
}.

Inductive index_kind := idx64 | idx128 | idx256 | idx_double | idx_long_double.

#[export] Instance index_kind_eq_dec : EqDecision index_kind.
Proof. solve_decision. Defined.

Definition kind_number (k : index_kind) : nat :=
  match k with idx64 => 0 | idx128 => 1 | idx256 => 2 | idx_double => 3 | idx_long_double => 4 end.
#[export] Instance index_kind_countable : Countable index_kind.
Proof.
  apply (inj_countable' kind_number (fun n => match n with
    | 0%nat => idx64 | 1%nat => idx128 | 2%nat => idx256 | 3%nat => idx_double | _ => idx_long_double end)).
  by intros [].
Defined.

Record table_db := mk_table_db {
  tb_tables : gmap Z table_id_object;
  tb_next_table : Z;
  tb_kvs : gmap Z key_value_object;
  tb_next_kv : Z;
  tb_indices : gmap (index_kind * Z) index_object;
  tb_next_index : Z;
  tb_limits : resource_limits
}.

Definition set_tables (db : table_db) (m : gmap Z table_id_object) : table_db :=
  mk_table_db m (tb_next_table db) (tb_kvs db) (tb_next_kv db) (tb_indices db) (tb_next_index db) (tb_limits db).
Definition set_kvs (db : table_db) (m : gmap Z key_value_object) : table_db :=
  mk_table_db (tb_tables db) (tb_next_table db) m (tb_next_kv db) (tb_indices db) (tb_next_index db) (tb_limits db).
Definition set_indices (db : table_db) (m : gmap (index_kind * Z) index_object) : table_db :=
  mk_table_db (tb_tables db) (tb_next_table db) (tb_kvs db) (tb_next_kv db) m (tb_next_index db) (tb_limits db).
Definition set_table_limits (db : table_db) (rl : resource_limits) : table_db :=
  mk_table_db (tb_tables db) (tb_next_table db) (tb_kvs db) (tb_next_kv db) (tb_indices db) (tb_next_index db) rl.

Definition billable_size_table_id_object : Z := billable_size_v (44 + overhead_per_row_per_index_ram_bytes * 2).
Definition billable_size_key_value_object : Z := billable_size_v (32 + 8 + 4 + overhead_per_row_per_index_ram_bytes * 2).
Definition billable_size_index_object (k : index_kind) : Z :=
  billable_size_v (24 + match k with
    | idx64 | idx_double => 8 | idx128 | idx_long_double => 16 | idx256 => 32 end +
    overhead_per_row_per_index_ram_bytes * 3).

(** ** Ordered indices *)

Section Least.
Context {A : Type} (lt : A -> A -> bool).

(** The first element in the order of the index. *)
Fixpoint least (l : list A) : option A :=
  match l with
  | [] => None
  | x :: l => match least l with
              | None => Some x
              | Some y => if lt y x then Some y else Some x
              end
  end.

(** The first element of the index with property [P], and the last. *)
Definition first_where (P : A -> bool) (l : list A) : option A := least (filter (fun x => P x = true) l).
End Least.

Definition last_where {A} (lt : A -> A -> bool) (P : A -> bool) (l : list A) : option A :=
  first_where (fun x y => lt y x) P l.

(** [( t_id, primary_key )]. *)
Definition pair_lt (a b : Z * Z) : bool := (a.1 <? b.1) || ((a.1 =? b.1) && (a.2 <? b.2)).

(** ** The iterators of a contract *)

(** [iterator_cache]: the cached tables with their end iterators, and the rows
    behind the iterators. *)
Record iterator_cache := mk_cache {
  table_cache : gmap Z Z;
  end_iterator_to_table : list Z;
  iterator_to_object : list (option Z);
  object_to_iterator : gmap Z Z
}.

Definition empty_cache : iterator_cache := mk_cache ∅ [] [] ∅.

Definition end_iterator_to_index (ei : Z) : Z := - ei - 2.
Definition index_to_end_iterator (indx : Z) : Z := - (indx + 2).

Definition cache_table (c : iterator_cache) (t : Z) : iterator_cache * Z :=
  match table_cache c !! t with
  | Some ei => (c, ei)
  | None =>
      let ei := index_to_end_iterator (Z.of_nat (length (end_iterator_to_table c))) in
      (mk_cache (<[t := ei]> (table_cache c)) (end_iterator_to_table c ++ [t])
         (iterator_to_object c) (object_to_iterator c), ei)
  end.

Definition get_table (c : iterator_cache) (db : table_db) (t : Z) : result table_id_object :=
  of_option table_not_in_cache (table_cache c !! t);;
  of_option undefined_behavior (tb_tables db !! t).

Definition get_end_iterator_by_table_id (c : iterator_cache) (t : Z) : result Z :=
  of_option table_not_in_cache (table_cache c !! t).

(** The pointer it returns is not followed here. *)
Definition find_table_by_end_iterator (c : iterator_cache) (ei : Z) : result (option Z) :=
  SNAX_ASSERT (ei <? -1) invalid_table_iterator;;
  mret (end_iterator_to_table c !! Z.to_nat (end_iterator_to_index ei)).

Definition cache_get (c : iterator_cache) (iterator : Z) : result Z :=
  SNAX_ASSERT (negb (iterator =? -1)) invalid_table_iterator;;
  SNAX_ASSERT (0 <=? iterator) table_operation_not_permitted;;
  r ← of_option invalid_table_iterator (iterator_to_object c !! Z.to_nat iterator);
  of_option table_operation_not_permitted r.

Definition cache_remove (c : iterator_cache) (iterator : Z) : result iterator_cache :=
  SNAX_ASSERT (negb (iterator =? -1)) invalid_table_iterator;;
  SNAX_ASSERT (0 <=? iterator) table_operation_not_permitted;;
  r ← of_option invalid_table_iterator (iterator_to_object c !! Z.to_nat iterator);
  match r with
  | None => mret c
  | Some obj =>
      mret (mk_cache (table_cache c) (end_iterator_to_table c)
              (<[Z.to_nat iterator := None]> (iterator_to_object c)) (delete obj (object_to_iterator c)))
  end.

Definition cache_add (c : iterator_cache) (obj : Z) : iterator_cache * Z :=
  match object_to_iterator c !! obj with
  | Some it => (c, it)
  | None =>
      let it := Z.of_nat (length (iterator_to_object c)) in
      (mk_cache (table_cache c) (end_iterator_to_table c) (iterator_to_object c ++ [Some obj])
         (<[obj := it]> (object_to_iterator c)), it)
  end.

(** ** The session of one action *)

(** What the action sees: the account whose code runs, the account the action
    was sent to, its authorizations, and whether RAM may be charged to others
    while the code handles a notification. *)
Record table_context := mk_table_context {
  tc_receiver : account_name;
  tc_act_account : account_name;
  tc_authorization : list (Z * Z);
  tc_privileged : bool;
  tc_billing_in_notify : bool
}.

Record session := mk_session {
  ss_db : table_db;
  ss_keyval : iterator_cache;
  ss_index : gmap index_kind iterator_cache
}.

Definition index_cache (s : session) (k : index_kind) : iterator_cache := default empty_cache (ss_index s !! k).
Definition set_db (s : session) (db : table_db) : session := mk_session db (ss_keyval s) (ss_index s).
Definition set_keyval (s : session) (c : iterator_cache) : session := mk_session (ss_db s) c (ss_index s).
Definition set_index_cache (s : session) (k : index_kind) (c : iterator_cache) : session :=
  mk_session (ss_db s) (ss_keyval s) (<[k := c]> (ss_index s)).

Section Database.
Context (cx : table_context).

Definition has_authorization (payer : account_name) : bool :=
  existsb (fun a => a.1 =? payer) (tc_authorization cx).

(** A charge to an account that does not run the code needs its authorization. *)
Definition update_db_usage (db : table_db) (payer : account_name) (delta : Z) : result table_db :=
  (if (0 <? delta) && negb (tc_privileged cx || (payer =? tc_receiver cx)) then
     SNAX_ASSERT (tc_billing_in_notify cx || (tc_receiver cx =? tc_act_account cx))
       subjective_block_production_exception;;
     SNAX_ASSERT (has_authorization payer) missing_auth_exception
   else mret tt);;
  rl ← add_pending_ram_usage (tb_limits db) payer delta;
  mret (set_table_limits db rl).

(** ** Tables *)

Definition is_table (code scope table : Z) (t : table_id_object) : bool :=
  (t_code t =? code) && (t_scope t =? scope) && (t_table t =? table).

(** The unique row of the index [by_code_scope_table]. *)
Definition find_table (db : table_db) (code scope table : Z) : option Z :=
  fst <$> head (filter (fun r => is_table code scope table r.2 = true) (map_to_list (tb_tables db))).

Definition find_or_create_table (db : table_db) (code scope table : Z) (payer : account_name) :
    result (table_db * Z) :=
  match find_table db code scope table with
  | Some t => mret (db, t)
  | None =>
      db ← update_db_usage db payer billable_size_table_id_object;
      let t := tb_next_table db in
      mret (mk_table_db (<[t := mk_table code scope table payer 0]> (tb_tables db)) (t + 1)
              (tb_kvs db) (tb_next_kv db) (tb_indices db) (tb_next_index db) (tb_limits db), t)
  end.

Definition set_count (t : table_id_object) (n : Z) : table_id_object :=
  mk_table (t_code t) (t_scope t) (t_table t) (t_payer t) n.

(** [++t.count] and [--t.count] of a 32-bit counter. *)
Definition change_count (db : table_db) (t : Z) (d : Z) : result table_db :=
  tab ← of_option undefined_behavior (tb_tables db !! t);
  mret (set_tables db (<[t := set_count tab (u32 (t_count tab + d))]> (tb_tables db))).

Definition remove_table (db : table_db) (t : Z) : result table_db :=
  tab ← of_option undefined_behavior (tb_tables db !! t);
  db ← update_db_usage db (t_payer tab) (- billable_size_table_id_object);
  mret (set_tables db (delete t (tb_tables db))).

(** [if( table_obj.count == 0 ) remove_table( table_obj )]. *)
Definition remove_if_empty (db : table_db) (t : Z) : result table_db :=
  tab ← of_option undefined_behavior (tb_tables db !! t);
  if t_count tab =? 0 then remove_table db t else mret db.

(** ** Rows with a primary key *)

Definition kv_key (o : key_value_object) : Z * Z := (kv_t_id o, kv_primary_key o).
Definition kv_lt (a b : Z * key_value_object) : bool := pair_lt (kv_key a.2) (kv_key b.2).

Definition kv_rows (db : table_db) : list (Z * key_value_object) := map_to_list (tb_kvs db).

(** [find<key_value_object, by_scope_primary>]. *)
Definition find_kv (db : table_db) (t id : Z) : option (Z * key_value_object) :=
  head (filter (fun r => kv_key r.2 = (t, id)) (kv_rows db)).

(** The row of an iterator, [const key_value_object& obj = keyval_cache.get( iterator )]. *)
Definition kv_of (s : session) (iterator : Z) : result (Z * key_value_object) :=
  i ← cache_get (ss_keyval s) iterator;
  o ← of_option undefined_behavior (tb_kvs (ss_db s) !! i);
  mret (i, o).

Definition add_iterator (s : session) (i : Z) : session * Z :=
  let '(c, it) := cache_add (ss_keyval s) i in (set_keyval s c, it).

Definition db_store_i64_code (s : session) (code scope table : Z) (payer : account_name) (id : Z)
    (buffer : list Z) : result (session * Z) :=
  '(db, t) ← find_or_create_table (ss_db s) code scope table payer;
  SNAX_ASSERT (negb (payer =? 0)) invalid_table_payer;;
  SNAX_ASSERT (match find_kv db t id with None => true | Some _ => false end) uniqueness_violation;;
  let i := tb_next_kv db in
  let db := mk_table_db (tb_tables db) (tb_next_table db) (<[i := mk_kv t id payer buffer]> (tb_kvs db)) (i + 1)
              (tb_indices db) (tb_next_index db) (tb_limits db) in
  db ← change_count db t 1;
  let billable_size := i64 (u64 (Z.of_nat (length buffer) + billable_size_key_value_object)) in
  db ← update_db_usage db payer billable_size;
  let '(c, _) := cache_table (ss_keyval s) t in
  mret (add_iterator (mk_session db c (ss_index s)) i).

Definition db_store_i64 (s : session) (scope table : Z) (payer : account_name) (id : Z) (buffer : list Z) :
    result (session * Z) :=
  db_store_i64_code s (tc_receiver cx) scope table payer id buffer.

Definition db_update_i64 (s : session) (iterator : Z) (payer : account_name) (buffer : list Z) : result session :=
  '(i, obj) ← kv_of s iterator;
  table_obj ← get_table (ss_keyval s) (ss_db s) (kv_t_id obj);
  SNAX_ASSERT (t_code table_obj =? tc_receiver cx) table_access_violation;;
  let overhead := billable_size_key_value_object in
  let old_size := i64 (u64 (Z.of_nat (length (kv_value obj)) + overhead)) in
  let new_size := i64 (u64 (Z.of_nat (length buffer) + overhead)) in
  let payer := if payer =? 0 then kv_payer obj else payer in
  db ← (if negb (kv_payer obj =? payer) then
          db ← update_db_usage (ss_db s) (kv_payer obj) (- old_size);
          update_db_usage db payer new_size
        else if negb (old_size =? new_size) then
          update_db_usage (ss_db s) (kv_payer obj) (new_size - old_size)
        else mret (ss_db s));
  mret (set_db s (set_kvs db (<[i := mk_kv (kv_t_id obj) (kv_primary_key obj) payer buffer]> (tb_kvs db)))).

Definition db_remove_i64 (s : session) (iterator : Z) : result session :=
  '(i, obj) ← kv_of s iterator;
  table_obj ← get_table (ss_keyval s) (ss_db s) (kv_t_id obj);
  SNAX_ASSERT (t_code table_obj =? tc_receiver cx) table_access_violation;;
  db ← update_db_usage (ss_db s) (kv_payer obj)
         (i64 (- (Z.of_nat (length (kv_value obj)) + billable_size_key_value_object)));
  db ← change_count db (kv_t_id obj) (-1);
  let db := set_kvs db (delete i (tb_kvs db)) in
  db ← remove_if_empty db (kv_t_id obj);
  c ← cache_remove (ss_keyval s) iterator;
  mret (mk_session db c (ss_index s)).

(** The size is returned and the buffer filled as far as it goes. *)
Definition db_get_i64 (s : session) (iterator : Z) (buffer_size : nat) : result (Z * list Z) :=
  '(_, obj) ← kv_of s iterator;
  let sz := length (kv_value obj) in
  if (buffer_size =? 0)%nat then mret (Z.of_nat sz, [])
  else let copy_size := Nat.min buffer_size sz in mret (Z.of_nat copy_size, take copy_size (kv_value obj)).

(** An iterator to a row of table [t], the end iterator otherwise. *)
Definition row_or_end (s : session) (t table_end_itr : Z) (itr : option (Z * key_value_object)) : session * Z :=
  match itr with
  | Some (i, o) => if kv_t_id o =? t then add_iterator s i else (s, table_end_itr)
  | None => (s, table_end_itr)
  end.

Definition with_table (s : session) (code scope table : Z) (f : session -> Z -> Z -> session * Z) : session * Z :=
  match find_table (ss_db s) code scope table with
  | None => (s, -1)
  | Some t => let '(c, ei) := cache_table (ss_keyval s) t in f (set_keyval s c) t ei
  end.

Definition db_find_i64 (s : session) (code scope table id : Z) : session * Z :=
  with_table s code scope table (fun s t ei =>
    match find_kv (ss_db s) t id with None => (s, ei) | Some (i, _) => add_iterator s i end).

Definition db_lowerbound_i64 (s : session) (code scope table id : Z) : session * Z :=
  with_table s code scope table (fun s t ei =>
    row_or_end s t ei (first_where kv_lt (fun r => negb (pair_lt (kv_key r.2) (t, id))) (kv_rows (ss_db s)))).

Definition db_upperbound_i64 (s : session) (code scope table id : Z) : session * Z :=
  with_table s code scope table (fun s t ei =>
    row_or_end s t ei (first_where kv_lt (fun r => pair_lt (t, id) (kv_key r.2)) (kv_rows (ss_db s)))).

Definition db_end_i64 (s : session) (code scope table : Z) : session * Z :=
  with_table s code scope table (fun s t ei => (s, ei)).

(** The result is the iterator and, when it is one to a row, the primary key. *)
Definition db_next_i64 (s : session) (iterator : Z) : result (session * Z * option Z) :=
  if iterator <? -1 then mret (s, -1, None)
  else
    '(i, obj) ← kv_of s iterator;
    match first_where kv_lt (fun r => pair_lt (kv_key obj) (kv_key r.2)) (kv_rows (ss_db s)) with
    | Some (j, o) =>
        if kv_t_id o =? kv_t_id obj then
          let '(s, it) := add_iterator s j in mret (s, it, Some (kv_primary_key o))
        else ei ← get_end_iterator_by_table_id (ss_keyval s) (kv_t_id obj); mret (s, ei, None)
    | None => ei ← get_end_iterator_by_table_id (ss_keyval s) (kv_t_id obj); mret (s, ei, None)
    end.

(** The row before, when it belongs to table [t]. *)
Definition row_before (s : session) (t : Z) (itr : option (Z * key_value_object)) : session * Z * option Z :=
  match itr with
  | Some (j, o) =>
      if kv_t_id o =? t then let '(s, it) := add_iterator s j in (s, it, Some (kv_primary_key o))
      else (s, -1, None)
  | None => (s, -1, None)
  end.

Definition db_previous_i64 (s : session) (iterator : Z) : result (session * Z * option Z) :=
  if iterator <? -1 then
    tab ← find_table_by_end_iterator (ss_keyval s) iterator;
    t ← of_option invalid_table_iterator tab;
    of_option undefined_behavior (tb_tables (ss_db s) !! t);;
    mret (row_before s t (last_where kv_lt (fun r => kv_t_id r.2 <=? t) (kv_rows (ss_db s))))
  else
    '(i, obj) ← kv_of s iterator;
    mret (row_before s (kv_t_id obj)
            (last_where kv_lt (fun r => pair_lt (kv_key r.2) (kv_key obj)) (kv_rows (ss_db s)))).

End Database.

(** ** Secondary indices *)

(** The comparisons of the softfloat library on the bits of floating-point
    numbers. *)
Class SoftFloat := { f64_lt : Z -> Z -> bool; f128_lt : Z -> Z -> bool }.

Section Secondary.
Context `{SoftFloat} (cx : table_context) (kind : index_kind).

(** [SecondaryKeyLess]. *)
Definition key_less : Z -> Z -> bool :=
  match kind with idx_double => f64_lt | idx_long_double => f128_lt | _ => Z.ltb end.

(** [( t_id, secondary_key )] and [( t_id, secondary_key, primary_key )]. *)
Definition secondary_lt (a b : Z * Z) : bool := (a.1 <? b.1) || ((a.1 =? b.1) && key_less a.2 b.2).
Definition triple_lt (a b : Z * Z * Z) : bool :=
  secondary_lt a.1 b.1 || (negb (secondary_lt b.1 a.1) && (a.2 <? b.2)).

Definition ix_key (o : index_object) : Z * Z := (ix_t_id o, ix_primary_key o).
Definition ix_secondary (o : index_object) : Z * Z := (ix_t_id o, ix_secondary_key o).
Definition ix_triple (o : index_object) : Z * Z * Z := (ix_secondary o, ix_primary_key o).

(** The orders [by_primary] and [by_secondary]. *)
Definition ix_lt (a b : Z * index_object) : bool := pair_lt (ix_key a.2) (ix_key b.2).
Definition ix_secondary_lt (a b : Z * index_object) : bool := triple_lt (ix_triple a.2) (ix_triple b.2).

Definition ix_rows (db : table_db) : list (Z * index_object) :=
  omap (fun r => if decide (r.1.1 = kind) then Some (r.1.2, r.2) else None) (map_to_list (tb_indices db)).

Definition find_ix (db : table_db) (t primary : Z) : option (Z * index_object) :=
  head (filter (fun r => ix_key r.2 = (t, primary)) (ix_rows db)).

Definition ix_of (s : session) (iterator : Z) : result (Z * index_object) :=
  i ← cache_get (index_cache s kind) iterator;
  o ← of_option undefined_behavior (tb_indices (ss_db s) !! (kind, i));
  mret (i, o).

Definition add_ix_iterator (s : session) (i : Z) : session * Z :=
  let '(c, it) := cache_add (index_cache s kind) i in (set_index_cache s kind c, it).

Definition index_store (s : session) (scope table : Z) (payer : account_name) (id value : Z) :
    result (session * Z) :=
  SNAX_ASSERT (negb (payer =? 0)) invalid_table_payer;;
  '(db, t) ← find_or_create_table cx (ss_db s) (tc_receiver cx) scope table payer;
  SNAX_ASSERT (match find_ix db t id with None => true | Some _ => false end) uniqueness_violation;;
  let i := tb_next_index db in
  let db := mk_table_db (tb_tables db) (tb_next_table db) (tb_kvs db) (tb_next_kv db)
              (<[(kind, i) := mk_index t id payer value]> (tb_indices db)) (i + 1) (tb_limits db) in
  db ← change_count db t 1;
  db ← update_db_usage cx db payer (billable_size_index_object kind);
  let '(c, _) := cache_table (index_cache s kind) t in
  mret (add_ix_iterator (mk_session db (ss_keyval s) (<[kind := c]> (ss_index s))) i).

Definition index_remove (s : session) (iterator : Z) : result session :=
  '(i, obj) ← ix_of s iterator;
  db ← update_db_usage cx (ss_db s) (ix_payer obj) (- billable_size_index_object kind);
  table_obj ← get_table (index_cache s kind) db (ix_t_id obj);
  SNAX_ASSERT (t_code table_obj =? tc_receiver cx) table_access_violation;;
  db ← change_count db (ix_t_id obj) (-1);
  let db := set_indices db (delete (kind, i) (tb_indices db)) in
  db ← remove_if_empty cx db (ix_t_id obj);
  c ← cache_remove (index_cache s kind) iterator;
  mret (set_index_cache (set_db s db) kind c).

Definition index_update (s : session) (iterator : Z) (payer : account_name) (secondary : Z) : result session :=
  '(i, obj) ← ix_of s iterator;
  table_obj ← get_table (index_cache s kind) (ss_db s) (ix_t_id obj);
  SNAX_ASSERT (t_code table_obj =? tc_receiver cx) table_access_violation;;
  let payer := if payer =? 0 then ix_payer obj else payer in
  let billing_size := billable_size_index_object kind in
  db ← (if negb (ix_payer obj =? payer) then
          db ← update_db_usage cx (ss_db s) (ix_payer obj) (- billing_size);
          update_db_usage cx db payer billing_size
        else mret (ss_db s));
  mret (set_db s (set_indices db
    (<[(kind, i) := mk_index (ix_t_id obj) (ix_primary_key obj) payer secondary]> (tb_indices db)))).

(** Queries return the iterator and, for a row, its primary and secondary key. *)
Definition ix_row_or (s : session) (t otherwise : Z) (itr : option (Z * index_object)) :
    session * Z * option (Z * Z) :=
  match itr with
  | Some (i, o) =>
      if ix_t_id o =? t then
        let '(s, it) := add_ix_iterator s i in (s, it, Some (ix_primary_key o, ix_secondary_key o))
      else (s, otherwise, None)
  | None => (s, otherwise, None)
  end.

Definition with_ix_table (s : session) (code scope table : Z)
    (f : session -> Z -> Z -> session * Z * option (Z * Z)) : session * Z * option (Z * Z) :=
  match find_table (ss_db s) code scope table with
  | None => (s, -1, None)
  | Some t => let '(c, ei) := cache_table (index_cache s kind) t in f (set_index_cache s kind c) t ei
  end.

(** [find] by part of the key: the first row that is not below, if it is not
    above either. *)
Definition find_secondary (s : session) (code scope table secondary : Z) : session * Z * option (Z * Z) :=
  with_ix_table s code scope table (fun s t ei =>
    ix_row_or s t ei
      (first_where ix_secondary_lt (fun r => negb (secondary_lt (ix_secondary r.2) (t, secondary)) &&
         negb (secondary_lt (t, secondary) (ix_secondary r.2))) (ix_rows (ss_db s)))).

Definition lowerbound_secondary (s : session) (code scope table secondary : Z) : session * Z * option (Z * Z) :=
  with_ix_table s code scope table (fun s t ei =>
    ix_row_or s t ei
      (first_where ix_secondary_lt (fun r => negb (secondary_lt (ix_secondary r.2) (t, secondary)))
         (ix_rows (ss_db s)))).

Definition upperbound_secondary (s : session) (code scope table secondary : Z) : session * Z * option (Z * Z) :=
  with_ix_table s code scope table (fun s t ei =>
    ix_row_or s t ei
      (first_where ix_secondary_lt (fun r => secondary_lt (t, secondary) (ix_secondary r.2)) (ix_rows (ss_db s)))).

Definition end_secondary (s : session) (code scope table : Z) : session * Z * option (Z * Z) :=
  with_ix_table s code scope table (fun s t ei => (s, ei, None)).

Definition find_primary (s : session) (code scope table primary : Z) : session * Z * option (Z * Z) :=
  with_ix_table s code scope table (fun s t ei => ix_row_or s t ei (find_ix (ss_db s) t primary)).

Definition lowerbound_primary (s : session) (code scope table primary : Z) : session * Z * option (Z * Z) :=
  with_ix_table s code scope table (fun s t ei =>
    ix_row_or s t ei (first_where ix_lt (fun r => negb (pair_lt (ix_key r.2) (t, primary))) (ix_rows (ss_db s)))).

Definition upperbound_primary (s : session) (code scope table primary : Z) : session * Z * option (Z * Z) :=
  with_ix_table s code scope table (fun s t ei =>
    ix_row_or s t ei (first_where ix_lt (fun r => pair_lt (t, primary) (ix_key r.2)) (ix_rows (ss_db s)))).

(** [next_secondary] and [next_primary] differ in the order they follow. *)
Definition index_next (lt : Z * index_object -> Z * index_object -> bool) (s : session) (iterator : Z) :
    result (session * Z * option (Z * Z)) :=
  if iterator <? -1 then mret (s, -1, None)
  else
    '(i, obj) ← ix_of s iterator;
    let itr := first_where lt (fun r => lt (i, obj) r) (ix_rows (ss_db s)) in
    if match itr with Some (_, o) => negb (ix_t_id o =? ix_t_id obj) | None => true end then
      ei ← get_end_iterator_by_table_id (index_cache s kind) (ix_t_id obj); mret (s, ei, None)
    else mret (ix_row_or s (ix_t_id obj) (-1) itr).
Definition next_secondary : session -> Z -> result (session * Z * option (Z * Z)) := index_next ix_secondary_lt.
Definition next_primary : session -> Z -> result (session * Z * option (Z * Z)) := index_next ix_lt.

Definition index_previous (lt : Z * index_object -> Z * index_object -> bool) (s : session) (iterator : Z) :
    result (session * Z * option (Z * Z)) :=
  if iterator <? -1 then
    tab ← find_table_by_end_iterator (index_cache s kind) iterator;
    t ← of_option invalid_table_iterator tab;
    of_option undefined_behavior (tb_tables (ss_db s) !! t);;
    mret (ix_row_or s t (-1) (last_where lt (fun r => ix_t_id r.2 <=? t) (ix_rows (ss_db s))))
  else
    '(i, obj) ← ix_of s iterator;
    mret (ix_row_or s (ix_t_id obj) (-1) (last_where lt (fun r => lt r (i, obj)) (ix_rows (ss_db s)))).
Definition previous_secondary : session -> Z -> result (session * Z * option (Z * Z)) := index_previous ix_secondary_lt.
Definition previous_primary : session -> Z -> result (session * Z * option (Z * Z)) := index_previous ix_lt.

Definition index_get (s : session) (iterator : Z) : result (Z * Z) :=
  '(_, obj) ← ix_of s iterator; mret (ix_primary_key obj, ix_secondary_key obj).

End Secondary.
