(* ===== verification/ContractTablesProofs.v ===== *)
(** * Properties of the tables of contracts

    The invariant of tables and iterators, what each operation returns and
    changes, the order in which rows are visited, and the RAM that is billed
    ([ContractTables.v] has the model). *)

From Stdlib Require Import ZArith Lia Bool.
From stdpp Require Import base numbers gmap relations sorting sets list.
From S2P Require Import Prelude ResourceLimits ResourceLimitsProofs BlockHeader NativeActions ContractTables.

Open Scope Z_scope.

(** ** Ordered indices *)

Lemma least_elem {A} (lt : A -> A -> bool) l x : least lt l = Some x -> x ∈ l.
Proof.
  revert x. induction l as [|a l IH]; intros x Hx; simpl in Hx; [done|].
  destruct (least lt l) as [b|]; [|injection Hx as <-; by left].
  destruct (lt b a); injection Hx as <-; [right; by apply IH|by left].
Qed.

Lemma first_where_elem {A} (lt : A -> A -> bool) P l x : first_where lt P l = Some x -> x ∈ l.
Proof. intros E%least_elem. by apply list_elem_of_filter in E as [_ E]. Qed.

Section Order.
Context {A : Type} (lt : A -> A -> bool).
(** A strict weak order. *)
Context (lt_asym : forall x y, lt x y = true -> lt y x = false).
Context (lt_neg_trans : forall x y z, lt x y = false -> lt y z = false -> lt x z = false).

Lemma least_None l : least lt l = None <-> l = [].
Proof. destruct l as [|x l]; simpl; [done|]. destruct (least lt l) as [y|]; [destruct (lt y x)|]; done. Qed.

Lemma least_Some l x : least lt l = Some x -> x ∈ l /\ forall y, y ∈ l -> lt y x = false.
Proof.
  assert (forall z, lt z z = false) as Hirr.
  { intros z. destruct (lt z z) eqn:E; [|done]. by rewrite (lt_asym z z E) in E. }
  revert x. induction l as [|a l IH]; intros x Hx; simpl in Hx; [done|].
  destruct (least lt l) as [b|] eqn:Hb.
  - destruct (IH b eq_refl) as [Hin Hmin]. destruct (lt b a) eqn:Hba; injection Hx as <-.
    + split; [by right|]. intros y [->|Hy]%elem_of_cons; [by apply lt_asym|by apply Hmin].
    + split; [by left|]. intros y [->|Hy]%elem_of_cons; [apply Hirr|].
      apply (lt_neg_trans y b a); [by apply Hmin|done].
  - injection Hx as <-. apply least_None in Hb as ->. split; [by left|].
    intros y [->|Hy]%elem_of_cons; [apply Hirr|by apply not_elem_of_nil in Hy].
Qed.

Lemma first_where_Some P l x :
  first_where lt P l = Some x -> x ∈ l /\ P x = true /\ forall y, y ∈ l -> P y = true -> lt y x = false.
Proof.
  intros Hx. apply least_Some in Hx as [Hin Hmin]. apply list_elem_of_filter in Hin as [HP Hin].
  split_and!; [done|done|]. intros y Hy HPy. apply Hmin, list_elem_of_filter. done.
Qed.

Lemma first_where_None P l : first_where lt P l = None -> forall y, y ∈ l -> P y = false.
Proof.
  intros Hn y Hy. apply least_None in Hn. destruct (P y) eqn:HP; [|done].
  assert (y ∈ filter (fun x => P x = true) l) as Hin by (by apply list_elem_of_filter).
  rewrite Hn in Hin. by apply not_elem_of_nil in Hin.
Qed.

End Order.

Lemma pair_lt_asym x y : pair_lt x y = true -> pair_lt y x = false.
Proof. unfold pair_lt. lia. Qed.
Lemma pair_lt_neg_trans x y z : pair_lt x y = false -> pair_lt y z = false -> pair_lt x z = false.
Proof. unfold pair_lt. lia. Qed.

(** ** The iterator cache *)

(** Iterators and cached objects correspond one to one, end iterators and cached
    tables too, and a cached object is a live row of a cached table. [table_of]
    gives the table of a live row. *)
Record cache_ok (table_of : Z -> option Z) (c : iterator_cache) : Prop := {
  co_objects n i : iterator_to_object c !! n = Some (Some i) <-> object_to_iterator c !! i = Some (Z.of_nat n);
  co_nonneg i it : object_to_iterator c !! i = Some it -> 0 <= it;
  co_ends t ei : table_cache c !! t = Some ei ->
    ei < -1 /\ end_iterator_to_table c !! Z.to_nat (end_iterator_to_index ei) = Some t;
  co_tables n t : end_iterator_to_table c !! n = Some t ->
    table_cache c !! t = Some (index_to_end_iterator (Z.of_nat n));
  co_live i it : object_to_iterator c !! i = Some it ->
    exists t, table_of i = Some t /\ is_Some (table_cache c !! t)
}.

Lemma empty_cache_ok f : cache_ok f empty_cache.
Proof.
  constructor; simpl.
  - intros n i. by rewrite lookup_nil, lookup_empty.
  - intros i it. by rewrite lookup_empty.
  - intros t ei. by rewrite lookup_empty.
  - intros n t. by rewrite lookup_nil.
  - intros i it. by rewrite lookup_empty.
Qed.

Lemma cache_ok_ext f g c : (forall i, is_Some (object_to_iterator c !! i) -> f i = g i) -> cache_ok f c -> cache_ok g c.
Proof.
  intros Hfg []. constructor; try done. intros i it Hi.
  destruct (co_live0 i it Hi) as (t & Ht & Hc). exists t. rewrite <- Hfg; done.
Qed.

Lemma cache_table_ok f c t c' ei :
  cache_ok f c -> cache_table c t = (c', ei) ->
  cache_ok f c' /\ table_cache c' !! t = Some ei /\ ei < -1 /\
  (forall u, is_Some (table_cache c !! u) -> table_cache c' !! u = table_cache c !! u) /\
  iterator_to_object c' = iterator_to_object c /\ object_to_iterator c' = object_to_iterator c.
Proof.
  intros Hok E. unfold cache_table in E. destruct (table_cache c !! t) as [e|] eqn:Ht; injection E as <- <-.
  { split_and!; try done. by apply (co_ends f c Hok t). }
  set (n := length (end_iterator_to_table c)).
  assert (index_to_end_iterator (Z.of_nat n) < -1) as Hlt by (unfold index_to_end_iterator; lia).
  split_and!; simpl; try done; [|apply lookup_insert_eq|].
  - destruct Hok. constructor; simpl; try done.
    + intros u e [[<- <-]|[Hne Hu]]%lookup_insert_Some.
      * split; [done|]. unfold end_iterator_to_index, index_to_end_iterator.
        replace (Z.to_nat _) with n by lia. rewrite lookup_app_r by lia. by rewrite Nat.sub_diag.
      * destruct (co_ends0 u e Hu) as [He Hl]. split; [done|]. by apply lookup_app_l_Some.
    + intros k u Hk. apply lookup_app_Some in Hk as [Hk|[Hge Hk]].
      * rewrite lookup_insert_ne; [by apply co_tables0|]. intros <-. apply co_tables0 in Hk. congruence.
      * apply list_lookup_singleton_Some in Hk as [Hz <-]. rewrite lookup_insert_eq. repeat f_equal. lia.
    + intros i it Hi. destruct (co_live0 i it Hi) as (u & Hu & Hc). exists u. split; [done|].
      destruct (decide (t = u)) as [<-|Hne]; [by rewrite lookup_insert_eq|by rewrite lookup_insert_ne].
  - intros u [e Hu]. rewrite lookup_insert_ne; [done|]. intros <-. congruence.
Qed.

Lemma cache_get_Ok f c it i :
  cache_ok f c -> cache_get c it = Ok i <-> 0 <= it /\ object_to_iterator c !! i = Some it.
Proof.
  intros Hok. unfold cache_get. rewrite !bind_Ok. setoid_rewrite bind_Ok. setoid_rewrite bind_Ok. split.
  - intros ([] & _ & [] & Hp & r & Hr & Hi). apply assert_Ok, Z.leb_le in Hp. apply of_option_Ok in Hr, Hi.
    subst r. split; [done|]. apply (co_objects f c Hok) in Hr. by rewrite Z2Nat.id in Hr.
  - intros [Hp Hi]. exists tt. split; [apply assert_Ok; lia|]. exists tt. split; [apply assert_Ok; lia|].
    exists (Some i). split; [|done]. apply of_option_Ok, (co_objects f c Hok). by rewrite Z2Nat.id.
Qed.

Lemma cache_add_ok f c i t c' it :
  cache_ok f c -> f i = Some t -> is_Some (table_cache c !! t) -> cache_add c i = (c', it) ->
  cache_ok f c' /\ 0 <= it /\ object_to_iterator c' !! i = Some it /\ table_cache c' = table_cache c /\
  (forall j, is_Some (object_to_iterator c !! j) -> object_to_iterator c' !! j = object_to_iterator c !! j).
Proof.
  intros Hok Hf Ht E. unfold cache_add in E. destruct (object_to_iterator c !! i) as [k|] eqn:Hi; injection E as <- <-.
  { split_and!; try done. by apply (co_nonneg f c Hok i). }
  set (n := length (iterator_to_object c)).
  split_and!; simpl; try done; [|lia|apply lookup_insert_eq|].
  - destruct Hok. constructor; simpl; try done.
    + intros m j. split.
      * intros Hm. apply lookup_app_Some in Hm as [Hm|[Hge Hm]].
        -- apply co_objects0 in Hm. rewrite lookup_insert_ne; [done|]. congruence.
        -- apply list_lookup_singleton_Some in Hm as [Hz [= <-]]. rewrite lookup_insert_eq. repeat f_equal. lia.
      * intros [[<- Hm]|[Hne Hm]]%lookup_insert_Some.
        -- assert (m = n) as -> by lia. rewrite lookup_app_r by lia. by rewrite Nat.sub_diag.
        -- apply lookup_app_l_Some. by apply co_objects0.
    + intros j k [[<- <-]|[_ Hj]]%lookup_insert_Some; [lia|by apply (co_nonneg0 j)].
    + intros j k [[<- <-]|[_ Hj]]%lookup_insert_Some; [by exists t|by apply (co_live0 j k)].
  - intros j [k Hj]. rewrite lookup_insert_ne; [done|]. congruence.
Qed.

Lemma cache_remove_ok f g c it i c' :
  cache_ok f c -> object_to_iterator c !! i = Some it -> (forall j, j <> i -> g j = f j) ->
  cache_remove c it = Ok c' ->
  cache_ok g c' /\ table_cache c' = table_cache c /\ object_to_iterator c' = delete i (object_to_iterator c).
Proof.
  intros Hok Hi Hg E. pose proof (co_nonneg f c Hok i it Hi) as Hnn. unfold cache_remove in E.
  apply bind_Ok in E as ([] & _ & E). apply bind_Ok in E as ([] & _ & E).
  assert (iterator_to_object c !! Z.to_nat it = Some (Some i)) as Hl.
  { apply (co_objects f c Hok). by rewrite Z2Nat.id. }
  rewrite Hl in E. injection E as <-. split_and!; [|done|done].
  destruct Hok. constructor; simpl; try done.
  - intros n j. rewrite lookup_delete_Some, <- co_objects0. split.
    + intros [(_ & Hx & _)|[Hne Hn]]%list_lookup_insert_Some; [done|]. split; [|done]. intros <-.
      apply co_objects0 in Hn. rewrite Hi in Hn. injection Hn as Hn. lia.
    + intros [Hne Hn]. rewrite list_lookup_insert_ne; [done|]. intros <-. congruence.
  - intros j k [_ Hj]%lookup_delete_Some. by apply (co_nonneg0 j).
  - intros j k [Hne Hj]%lookup_delete_Some. rewrite Hg by done. by apply (co_live0 j k).
Qed.

(** ** The invariant of the tables *)

Definition kv_in (t : Z) (_ : Z) (o : key_value_object) : Z := if kv_t_id o =? t then 1 else 0.
Definition ix_in (t : Z) (_ : index_kind * Z) (o : index_object) : Z := if ix_t_id o =? t then 1 else 0.

(** The rows of a table, and all rows. *)
Definition rows_of (db : table_db) (t : Z) : Z := map_sum (kv_in t) (tb_kvs db) + map_sum (ix_in t) (tb_indices db).
Definition total_rows (db : table_db) : Z :=
  map_sum (fun _ _ => 1) (tb_kvs db) + map_sum (fun _ _ => 1) (tb_indices db).

Definition same_table (a b : table_id_object) : Prop :=
  t_code a = t_code b /\ t_scope a = t_scope b /\ t_table a = t_table b.

(** Ids are fresh, keys are unique, every row belongs to a table and the counter
    of a table is the number of its rows. *)
Record db_ok (db : table_db) : Prop := {
  dk_unique t u a b : tb_tables db !! t = Some a -> tb_tables db !! u = Some b -> same_table a b -> t = u;
  dk_fresh_table t : is_Some (tb_tables db !! t) -> t < tb_next_table db;
  dk_fresh_kv i : is_Some (tb_kvs db !! i) -> i < tb_next_kv db;
  dk_fresh_ix k i : is_Some (tb_indices db !! (k, i)) -> i < tb_next_index db;
  dk_kv_table i o : tb_kvs db !! i = Some o -> is_Some (tb_tables db !! kv_t_id o);
  dk_ix_table k o : tb_indices db !! k = Some o -> is_Some (tb_tables db !! ix_t_id o);
  dk_kv_key i j a b : tb_kvs db !! i = Some a -> tb_kvs db !! j = Some b -> kv_key a = kv_key b -> i = j;
  dk_ix_key k i j a b : tb_indices db !! (k, i) = Some a -> tb_indices db !! (k, j) = Some b -> ix_key a = ix_key b -> i = j;
  dk_count t a : tb_tables db !! t = Some a -> t_count a = rows_of db t;
  dk_small i o : tb_kvs db !! i = Some o -> Z.of_nat (length (kv_value o)) < 2 ^ 32;
  dk_typed : counters_typed (tb_limits db)
}.

(** No table is empty between two operations. *)
Definition no_empty (db : table_db) : Prop := forall t a, tb_tables db !! t = Some a -> 0 < t_count a.

Lemma kv_in_nonneg t k o : 0 <= kv_in t k o <= 1.
Proof. unfold kv_in. destruct (_ =? _); lia. Qed.
Lemma ix_in_nonneg t k o : 0 <= ix_in t k o <= 1.
Proof. unfold ix_in. destruct (_ =? _); lia. Qed.

Lemma rows_of_bound db t : 0 <= rows_of db t <= total_rows db.
Proof.
  unfold rows_of, total_rows.
  pose proof (map_sum_nonneg (kv_in t) (tb_kvs db) ltac:(intros; apply kv_in_nonneg)).
  pose proof (map_sum_nonneg (ix_in t) (tb_indices db) ltac:(intros; apply ix_in_nonneg)).
  pose proof (map_sum_le (kv_in t) (fun _ _ => 1) (tb_kvs db) ltac:(intros; apply kv_in_nonneg)).
  pose proof (map_sum_le (ix_in t) (fun _ _ => 1) (tb_indices db) ltac:(intros; apply ix_in_nonneg)). lia.
Qed.

Lemma kv_counted db i o : tb_kvs db !! i = Some o -> 0 < rows_of db (kv_t_id o).
Proof.
  intros Hi. unfold rows_of. pose proof (map_sum_nonneg (ix_in (kv_t_id o)) (tb_indices db) ltac:(intros; apply ix_in_nonneg)).
  pose proof (summand_le_map_sum (kv_in (kv_t_id o)) (tb_kvs db) i ltac:(intros; apply kv_in_nonneg)) as Hs.
  rewrite Hi in Hs. unfold kv_in in Hs at 2. simpl in Hs. rewrite Z.eqb_refl in Hs. lia.
Qed.
Lemma ix_counted db k o : tb_indices db !! k = Some o -> 0 < rows_of db (ix_t_id o).
Proof.
  intros Hi. unfold rows_of. pose proof (map_sum_nonneg (kv_in (ix_t_id o)) (tb_kvs db) ltac:(intros; apply kv_in_nonneg)).
  pose proof (summand_le_map_sum (ix_in (ix_t_id o)) (tb_indices db) k ltac:(intros; apply ix_in_nonneg)) as Hs.
  rewrite Hi in Hs. unfold ix_in in Hs at 2. simpl in Hs. rewrite Z.eqb_refl in Hs. lia.
Qed.

(** *** Tables that differ in counters only *)

Definition tables_sim (T T' : gmap Z table_id_object) : Prop :=
  (forall t, is_Some (T' !! t) <-> is_Some (T !! t)) /\
  forall t a b, T !! t = Some a -> T' !! t = Some b -> same_table a b /\ t_payer a = t_payer b.

Lemma tables_sim_count T t tab n : T !! t = Some tab -> tables_sim T (<[t := set_count tab n]> T).
Proof.
  intros Ht. split.
  - intros u. destruct (decide (t = u)) as [<-|Hne]; [rewrite lookup_insert_eq, Ht|by rewrite lookup_insert_ne].
    split; intros _; eauto.
  - intros u a b Ha [[<- <-]|[_ Hb]]%lookup_insert_Some; [|by replace b with a by congruence].
    by replace a with tab by congruence.
Qed.

Lemma tables_sim_unique T T' t u a b :
  tables_sim T T' ->
  (forall t u a b, T !! t = Some a -> T !! u = Some b -> same_table a b -> t = u) ->
  T' !! t = Some a -> T' !! u = Some b -> same_table a b -> t = u.
Proof.
  intros [Hd Hs] HU Ha Hb (E1 & E2 & E3).
  destruct (proj1 (Hd t) (ex_intro _ a Ha)) as [x Hx]. destruct (proj1 (Hd u) (ex_intro _ b Hb)) as [y Hy].
  destruct (Hs t x a Hx Ha) as [(? & ? & ?) _]. destruct (Hs u y b Hy Hb) as [(? & ? & ?) _].
  apply (HU t u x y Hx Hy). split_and!; congruence.
Qed.

(** *** Steps that keep the invariant *)

Lemma db_ok_limits db rl : db_ok db -> counters_typed rl -> db_ok (set_table_limits db rl).
Proof. intros [] Hty. constructor; try done. Qed.

Lemma db_ok_kvs db T K n :
  db_ok db -> tables_sim (tb_tables db) T ->
  (forall i o, K !! i = Some o ->
     is_Some (tb_tables db !! kv_t_id o) /\ i < n /\ Z.of_nat (length (kv_value o)) < 2 ^ 32) ->
  (forall i j a b, K !! i = Some a -> K !! j = Some b -> kv_key a = kv_key b -> i = j) ->
  (forall t a, T !! t = Some a -> t_count a = map_sum (kv_in t) K + map_sum (ix_in t) (tb_indices db)) ->
  db_ok (mk_table_db T (tb_next_table db) K n (tb_indices db) (tb_next_index db) (tb_limits db)).
Proof.
  intros [] HT HK HU HC. constructor; simpl; try done.
  - intros t u a b. by apply (tables_sim_unique (tb_tables db)).
  - intros t Ht. by apply dk_fresh_table0, HT.
  - intros i [o Hi]. by apply (HK i o).
  - intros i o Hi. apply HT. by apply (HK i o).
  - intros k o Hi. apply HT. by apply (dk_ix_table0 k o).
  - intros i o Hi. by apply (HK i o).
Qed.

Lemma db_ok_indices db T X n :
  db_ok db -> tables_sim (tb_tables db) T ->
  (forall k i o, X !! (k, i) = Some o -> is_Some (tb_tables db !! ix_t_id o) /\ i < n) ->
  (forall k i j a b, X !! (k, i) = Some a -> X !! (k, j) = Some b -> ix_key a = ix_key b -> i = j) ->
  (forall t a, T !! t = Some a -> t_count a = map_sum (kv_in t) (tb_kvs db) + map_sum (ix_in t) X) ->
  db_ok (mk_table_db T (tb_next_table db) (tb_kvs db) (tb_next_kv db) X n (tb_limits db)).
Proof.
  intros [] HT HX HU HC. constructor; simpl; try done.
  - intros t u a b. by apply (tables_sim_unique (tb_tables db)).
  - intros t Ht. by apply dk_fresh_table0, HT.
  - intros k i [o Hi]. by apply (HX k i o).
  - intros i o Hi. apply HT. by apply (dk_kv_table0 i o).
  - intros [k i] o Hi. apply HT. by apply (HX k i o).
Qed.

Lemma count_insert db t tab d (f : Z -> Z) :
  db_ok db -> tb_tables db !! t = Some tab -> 0 <= rows_of db t + d < 2 ^ 32 ->
  (forall u, f u = rows_of db u + if t =? u then d else 0) ->
  forall u a, <[t := set_count tab (u32 (t_count tab + d))]> (tb_tables db) !! u = Some a -> t_count a = f u.
Proof.
  intros Hok Ht Hd Hf u a [[<- <-]|[Hne Ha]]%lookup_insert_Some; rewrite Hf.
  - simpl. rewrite (dk_count db Hok t tab Ht), Z.eqb_refl. by apply u32_small.
  - rewrite (dk_count db Hok u a Ha). destruct (Z.eqb_spec t u); [done|lia].
Qed.

Definition with_count (db : table_db) (t : Z) (tab : table_id_object) (d : Z) : gmap Z table_id_object :=
  <[t := set_count tab (u32 (t_count tab + d))]> (tb_tables db).

Lemma add_kv_ok db t tab id payer buffer :
  db_ok db -> tb_tables db !! t = Some tab -> total_rows db < 2 ^ 32 - 1 ->
  (forall i o, tb_kvs db !! i = Some o -> kv_key o <> (t, id)) -> Z.of_nat (length buffer) < 2 ^ 32 ->
  db_ok (mk_table_db (with_count db t tab 1) (tb_next_table db)
    (<[tb_next_kv db := mk_kv t id payer buffer]> (tb_kvs db)) (tb_next_kv db + 1) (tb_indices db) (tb_next_index db)
    (tb_limits db)).
Proof.
  intros Hok Ht Hr Hk Hb. pose proof (rows_of_bound db t).
  assert (tb_kvs db !! tb_next_kv db = None) as Hn.
  { apply eq_None_not_Some. intros Hs. apply (dk_fresh_kv db Hok) in Hs. lia. }
  apply db_ok_kvs; [done|by apply tables_sim_count| | |].
  - intros i o [[<- <-]|[_ Hi]]%lookup_insert_Some; simpl; [split_and!; [eauto|lia|done]|].
    pose proof (dk_fresh_kv db Hok i (ex_intro _ o Hi)).
    split_and!; [by apply (dk_kv_table db Hok i)|lia|by apply (dk_small db Hok i)].
  - intros i j a b [[<- <-]|[_ Hi]]%lookup_insert_Some [[<- <-]|[_ Hj]]%lookup_insert_Some E; try done.
    + by destruct (Hk j b Hj).
    + by destruct (Hk i a Hi).
    + by apply (dk_kv_key db Hok i j a b).
  - apply count_insert; [done|done|lia|]. intros u. rewrite map_sum_insert, Hn. unfold rows_of, kv_in at 3. simpl. lia.
Qed.

Lemma add_ix_ok db kind t tab id payer value :
  db_ok db -> tb_tables db !! t = Some tab -> total_rows db < 2 ^ 32 - 1 ->
  (forall i o, tb_indices db !! (kind, i) = Some o -> ix_key o <> (t, id)) ->
  db_ok (mk_table_db (with_count db t tab 1) (tb_next_table db) (tb_kvs db) (tb_next_kv db)
    (<[(kind, tb_next_index db) := mk_index t id payer value]> (tb_indices db)) (tb_next_index db + 1) (tb_limits db)).
Proof.
  intros Hok Ht Hr Hk. pose proof (rows_of_bound db t).
  assert (tb_indices db !! (kind, tb_next_index db) = None) as Hn.
  { apply eq_None_not_Some. intros Hs. apply (dk_fresh_ix db Hok) in Hs. lia. }
  apply db_ok_indices; [done|by apply tables_sim_count| | |].
  - intros k i o [[[= <- <-] <-]|[_ Hi]]%lookup_insert_Some; simpl; [split; [eauto|lia]|].
    pose proof (dk_fresh_ix db Hok k i (ex_intro _ o Hi)). split; [by apply (dk_ix_table db Hok (k, i))|lia].
  - intros k i j a b [[E1 <-]|[_ Hi]]%lookup_insert_Some [[E2 <-]|[_ Hj]]%lookup_insert_Some; simplify_eq; intros E; try done.
    + by destruct (Hk j b Hj).
    + by destruct (Hk i a Hi).
    + by apply (dk_ix_key db Hok k i j a b).
  - apply count_insert; [done|done|lia|]. intros u. rewrite map_sum_insert, Hn. unfold rows_of, ix_in at 3. simpl. lia.
Qed.

Lemma edit_kv_ok db i o payer buffer :
  db_ok db -> tb_kvs db !! i = Some o -> Z.of_nat (length buffer) < 2 ^ 32 ->
  db_ok (set_kvs db (<[i := mk_kv (kv_t_id o) (kv_primary_key o) payer buffer]> (tb_kvs db))).
Proof.
  intros Hok Hi Hb. apply db_ok_kvs; [done|by split; [|intros t a b Ha Hb'; replace b with a by congruence]| | |].
  - intros j p [[<- <-]|[_ Hj]]%lookup_insert_Some; simpl.
    + split_and!; [by apply (dk_kv_table db Hok i)|by apply (dk_fresh_kv db Hok); eauto|done].
    + split_and!; [by apply (dk_kv_table db Hok j)|by apply (dk_fresh_kv db Hok); eauto|by apply (dk_small db Hok j)].
  - intros j k a b [[<- <-]|[_ Hj]]%lookup_insert_Some [[<- <-]|[_ Hk]]%lookup_insert_Some E; try done.
    + by apply (dk_kv_key db Hok i k o b).
    + by apply (dk_kv_key db Hok j i a o).
    + by apply (dk_kv_key db Hok j k a b).
  - intros t a Ha. rewrite map_sum_insert, Hi, (dk_count db Hok t a Ha). unfold rows_of, summand, kv_in. simpl. lia.
Qed.

Lemma edit_ix_ok db kind i o payer value :
  db_ok db -> tb_indices db !! (kind, i) = Some o ->
  db_ok (set_indices db (<[(kind, i) := mk_index (ix_t_id o) (ix_primary_key o) payer value]> (tb_indices db))).
Proof.
  intros Hok Hi. apply db_ok_indices; [done|by split; [|intros t a b Ha Hb'; replace b with a by congruence]| | |].
  - intros k j p [[[= <- <-] <-]|[_ Hj]]%lookup_insert_Some; simpl.
    + split; [by apply (dk_ix_table db Hok (kind, i))|by apply (dk_fresh_ix db Hok kind); eauto].
    + split; [by apply (dk_ix_table db Hok (k, j))|by apply (dk_fresh_ix db Hok k); eauto].
  - intros k j l a b [[E1 <-]|[_ Hj]]%lookup_insert_Some [[E2 <-]|[_ Hl]]%lookup_insert_Some; simplify_eq; intros E; try done.
    + by apply (dk_ix_key db Hok k j l o b).
    + by apply (dk_ix_key db Hok k j l a o).
    + by apply (dk_ix_key db Hok k j l a b).
  - intros t a Ha. rewrite map_sum_insert, Hi, (dk_count db Hok t a Ha). unfold rows_of, summand, ix_in. simpl. lia.
Qed.

Lemma drop_kv_ok db i o tab :
  db_ok db -> tb_kvs db !! i = Some o -> tb_tables db !! kv_t_id o = Some tab -> total_rows db < 2 ^ 32 ->
  db_ok (mk_table_db (with_count db (kv_t_id o) tab (-1)) (tb_next_table db) (delete i (tb_kvs db)) (tb_next_kv db)
    (tb_indices db) (tb_next_index db) (tb_limits db)).
Proof.
  intros Hok Hi Ht Hr. pose proof (rows_of_bound db (kv_t_id o)). pose proof (kv_counted db i o Hi).
  apply db_ok_kvs; [done|by apply tables_sim_count| | |].
  - intros j p [_ Hj]%lookup_delete_Some.
    split_and!; [by apply (dk_kv_table db Hok j)|by apply (dk_fresh_kv db Hok); eauto|by apply (dk_small db Hok j)].
  - intros j k a b [_ Hj]%lookup_delete_Some [_ Hk]%lookup_delete_Some. by apply (dk_kv_key db Hok j k a b).
  - apply count_insert; [done|done|lia|]. intros u. unfold rows_of. rewrite (map_sum_delete _ (tb_kvs db) i), Hi.
    unfold summand, kv_in at 2. destruct (kv_t_id o =? u); lia.
Qed.

Lemma drop_ix_ok db kind i o tab :
  db_ok db -> tb_indices db !! (kind, i) = Some o -> tb_tables db !! ix_t_id o = Some tab -> total_rows db < 2 ^ 32 ->
  db_ok (mk_table_db (with_count db (ix_t_id o) tab (-1)) (tb_next_table db) (tb_kvs db) (tb_next_kv db)
    (delete (kind, i) (tb_indices db)) (tb_next_index db) (tb_limits db)).
Proof.
  intros Hok Hi Ht Hr. pose proof (rows_of_bound db (ix_t_id o)). pose proof (ix_counted db _ o Hi).
  apply db_ok_indices; [done|by apply tables_sim_count| | |].
  - intros k j p [_ Hj]%lookup_delete_Some.
    split; [by apply (dk_ix_table db Hok (k, j))|by apply (dk_fresh_ix db Hok k); eauto].
  - intros k j l a b [_ Hj]%lookup_delete_Some [_ Hl]%lookup_delete_Some. by apply (dk_ix_key db Hok k j l a b).
  - apply count_insert; [done|done|lia|]. intros u. unfold rows_of.
    rewrite (map_sum_delete _ (tb_indices db) (kind, i)), Hi. unfold summand, ix_in at 2. destruct (ix_t_id o =? u); lia.
Qed.

Lemma new_table_ok db code scope table payer :
  db_ok db -> (forall t a, tb_tables db !! t = Some a -> is_table code scope table a = false) ->
  db_ok (mk_table_db (<[tb_next_table db := mk_table code scope table payer 0]> (tb_tables db)) (tb_next_table db + 1)
    (tb_kvs db) (tb_next_kv db) (tb_indices db) (tb_next_index db) (tb_limits db)).
Proof.
  intros Hok Hn. assert (tb_tables db !! tb_next_table db = None) as Hf.
  { apply eq_None_not_Some. intros Hs. apply (dk_fresh_table db Hok) in Hs. lia. }
  assert (forall t a, tb_tables db !! t = Some a -> t_code a = code -> t_scope a = scope -> t_table a = table -> False) as Hx.
  { intros t a Ha <- <- <-. specialize (Hn t a Ha). unfold is_table in Hn. by rewrite !Z.eqb_refl in Hn. }
  destruct Hok. constructor; simpl; try done.
  - intros t u a b [[<- <-]|[_ Ha]]%lookup_insert_Some [[<- <-]|[_ Hb]]%lookup_insert_Some (E1 & E2 & E3); simpl in *; try done.
    + by destruct (Hx u b Hb).
    + by destruct (Hx t a Ha).
    + by apply (dk_unique0 t u a b).
  - intros t [a [[<- _]|[_ Ha]]%lookup_insert_Some]; [lia|]. assert (t < tb_next_table db); [|lia]. apply dk_fresh_table0; eauto.
  - intros i o Hi. apply lookup_insert_is_Some'. right. by apply (dk_kv_table0 i).
  - intros i o Hi. apply lookup_insert_is_Some'. right. by apply (dk_ix_table0 i).
  - intros t a [[<- <-]|[_ Ha]]%lookup_insert_Some; [|by apply dk_count0]. simpl. unfold rows_of. simpl.
    rewrite !map_sum_zero; [done| |].
    + intros k o Ho. unfold ix_in. destruct (Z.eqb_spec (ix_t_id o) (tb_next_table db)) as [E|]; [|done].
      apply dk_ix_table0 in Ho as [x Hx']. congruence.
    + intros k o Ho. unfold kv_in. destruct (Z.eqb_spec (kv_t_id o) (tb_next_table db)) as [E|]; [|done].
      apply dk_kv_table0 in Ho as [x Hx']. congruence.
Qed.

Lemma drop_table_ok db t a :
  db_ok db -> tb_tables db !! t = Some a -> t_count a = 0 -> db_ok (set_tables db (delete t (tb_tables db))).
Proof.
  intros Hok Ha Hc. pose proof (dk_count db Hok t a Ha) as Hr. pose proof Hok as []. constructor; simpl; try done.
  - intros u v b c [_ Hb]%lookup_delete_Some [_ Hv]%lookup_delete_Some. by apply (dk_unique0 u v b c).
  - intros u [b [_ Hb]%lookup_delete_Some]. apply dk_fresh_table0. eauto.
  - intros i o Hi. rewrite lookup_delete_ne; [by apply (dk_kv_table0 i)|].
    intros ->. apply kv_counted in Hi. lia.
  - intros i o Hi. rewrite lookup_delete_ne; [by apply (dk_ix_table0 i)|].
    intros ->. apply ix_counted in Hi. lia.
  - intros u b [_ Hb]%lookup_delete_Some. by apply dk_count0.
Qed.

(** ** What an operation does to the tables *)

(** *** What the rows of an account take *)

Definition kv_size (o : key_value_object) : Z := Z.of_nat (length (kv_value o)) + billable_size_key_value_object.
Definition table_share (a : account_name) (_ : Z) (t : table_id_object) : Z :=
  if t_payer t =? a then billable_size_table_id_object else 0.
Definition kv_share (a : account_name) (_ : Z) (o : key_value_object) : Z := if kv_payer o =? a then kv_size o else 0.
Definition ix_share (a : account_name) (k : index_kind * Z) (o : index_object) : Z :=
  if ix_payer o =? a then billable_size_index_object k.1 else 0.

Definition table_footprint (db : table_db) (a : account_name) : Z :=
  map_sum (table_share a) (tb_tables db) + map_sum (kv_share a) (tb_kvs db) + map_sum (ix_share a) (tb_indices db).

Definition at_account (p : account_name) (d : Z) (a : account_name) : Z := if p =? a then d else 0.

Section Effects.
Context (cx : table_context).

(** Who may be charged for RAM. *)
Definition chargeable (a : account_name) : Prop :=
  tc_privileged cx = true \/ a = tc_receiver cx \/ has_authorization cx a = true.

(** An operation leaves the tables of other contracts alone, charges RAM to the
    receiver and to those who authorized it only, and bills [D a] more to [a]
    than the rows of [a] grow by. *)
Record effect (db db' : table_db) (D : account_name -> Z) : Prop := {
  ef_foreign t a : tb_tables db !! t = Some a -> t_code a <> tc_receiver cx ->
    tb_tables db' !! t = Some a /\
    (forall i o, kv_t_id o = t -> tb_kvs db' !! i = Some o <-> tb_kvs db !! i = Some o) /\
    (forall k o, ix_t_id o = t -> tb_indices db' !! k = Some o <-> tb_indices db !! k = Some o);
  ef_charge a : ram_in (tb_limits db) a < ram_in (tb_limits db') a -> chargeable a;
  ef_billed a : ram_in (tb_limits db') a - table_footprint db' a = ram_in (tb_limits db) a - table_footprint db a + D a
}.

Lemma effect_trans db1 db2 db3 D1 D2 D :
  effect db1 db2 D1 -> effect db2 db3 D2 -> (forall a, D a = D1 a + D2 a) -> effect db1 db3 D.
Proof.
  intros [F1 C1 B1] [F2 C2 B2] HD. constructor.
  - intros t a Ha Hc. destruct (F1 t a Ha Hc) as (Ha2 & K1 & X1). destruct (F2 t a Ha2 Hc) as (Ha3 & K2 & X2).
    split_and!; [done| |]; intros.
    + by rewrite K2, K1.
    + by rewrite X2, X1.
  - intros a Hlt. destruct (decide (ram_in (tb_limits db1) a < ram_in (tb_limits db2) a)); [by apply C1|].
    apply C2. lia.
  - intros a. rewrite B2, B1, HD. lia.
Qed.

Lemma effect_refl db : effect db db (fun _ => 0).
Proof. constructor; [done| |]; intros; lia. Qed.

Lemma update_db_usage_effect db payer d db' :
  db_ok db -> - 2 ^ 63 < d < 2 ^ 63 -> update_db_usage cx db payer d = Ok db' ->
  exists rl, db' = set_table_limits db rl /\ db_ok db' /\ effect db db' (at_account payer d).
Proof.
  intros Hok Hd E. unfold update_db_usage in E. apply bind_Ok in E as ([] & Hc & E).
  apply bind_Ok in E as (rl & Hrl & E). injection E as <-.
  destruct (add_pending_ram_usage_Ok _ _ _ _ (dk_typed db Hok) Hd Hrl) as [Hty Hram].
  exists rl. split_and!; [done|by apply db_ok_limits|]. constructor; simpl.
  - intros t a Ha _. done.
  - intros a. rewrite Hram. destruct (Z.eqb_spec a payer) as [->|]; [|lia]. intros Hlt. unfold chargeable.
    destruct (Z.ltb_spec 0 d); [|lia]. destruct (tc_privileged cx); [by left|].
    destruct (Z.eqb_spec payer (tc_receiver cx)) as [->|]; [by right; left|]. simpl in Hc.
    apply bind_Ok in Hc as ([] & _ & Hc). apply assert_Ok in Hc. by right; right.
  - intros a. rewrite Hram. unfold at_account. rewrite (Z.eqb_sym payer a).
    change (table_footprint (set_table_limits db rl) a) with (table_footprint db a). lia.
Qed.

(** A change of rows of the receiver's tables, without billing. *)
Lemma effect_rows db db' D :
  tb_limits db' = tb_limits db ->
  (forall t a, tb_tables db !! t = Some a -> t_code a <> tc_receiver cx ->
    tb_tables db' !! t = Some a /\
    (forall i o, kv_t_id o = t -> tb_kvs db' !! i = Some o <-> tb_kvs db !! i = Some o) /\
    (forall k o, ix_t_id o = t -> tb_indices db' !! k = Some o <-> tb_indices db !! k = Some o)) ->
  (forall a, table_footprint db' a = table_footprint db a - D a) -> effect db db' D.
Proof. intros Hl HF HD. constructor; [done| |]; intros a; rewrite Hl; [lia|]. rewrite HD. lia. Qed.

Lemma with_count_footprint db t tab d a :
  tb_tables db !! t = Some tab -> map_sum (table_share a) (with_count db t tab d) = map_sum (table_share a) (tb_tables db).
Proof. intros Ht. unfold with_count. rewrite map_sum_insert, Ht. unfold summand, table_share. simpl. lia. Qed.

Lemma insert_other `{Countable K} {V} (m : gmap K V) (P : V -> Prop) k v i o :
  (forall w, m !! k = Some w -> P w) -> P v -> ~ P o -> <[k := v]> m !! i = Some o <-> m !! i = Some o.
Proof.
  intros Hw Hv Ho. destruct (decide (k = i)) as [<-|Hne]; [|by rewrite lookup_insert_ne]. rewrite lookup_insert_eq.
  split; [intros [= <-]; done|]. intros Hk. by apply Hw in Hk.
Qed.
Lemma delete_other `{Countable K} {V} (m : gmap K V) (P : V -> Prop) k i o :
  (forall w, m !! k = Some w -> P w) -> ~ P o -> delete k m !! i = Some o <-> m !! i = Some o.
Proof.
  intros Hw Ho. rewrite lookup_delete_Some. split; [by intros [_ ?]|]. intros Hi. split; [|done]. intros <-.
  by apply Hw in Hi.
Qed.

Definition counts_only (db : table_db) (t : Z) (T : gmap Z table_id_object) : Prop :=
  (forall u, u <> t -> T !! u = tb_tables db !! u) /\
  forall a, map_sum (table_share a) T = map_sum (table_share a) (tb_tables db).

Lemma counts_only_refl db t : counts_only db t (tb_tables db).
Proof. done. Qed.
Lemma with_count_only db t tab d : tb_tables db !! t = Some tab -> counts_only db t (with_count db t tab d).
Proof.
  intros Ht. split; [|by intros a; apply with_count_footprint].
  intros u Hne. unfold with_count. by rewrite lookup_insert_ne.
Qed.

Lemma kv_effect db t tab T n m K D :
  tb_tables db !! t = Some tab -> t_code tab = tc_receiver cx -> counts_only db t T ->
  (forall i o, kv_t_id o <> t -> K !! i = Some o <-> tb_kvs db !! i = Some o) ->
  (forall a, map_sum (kv_share a) K = map_sum (kv_share a) (tb_kvs db) - D a) ->
  effect db (mk_table_db T n K m (tb_indices db) (tb_next_index db) (tb_limits db)) D.
Proof.
  intros Ht Hc [HT HS] HK HD. apply effect_rows; simpl; [done| |].
  - intros u a Ha Hne. assert (u <> t) as Hut by (intros ->; congruence).
    split_and!; [by rewrite HT|by intros i o <-; apply HK|done].
  - intros a. unfold table_footprint. simpl. rewrite HS, HD. lia.
Qed.

Lemma ix_effect db t tab T n m X D :
  tb_tables db !! t = Some tab -> t_code tab = tc_receiver cx -> counts_only db t T ->
  (forall k o, ix_t_id o <> t -> X !! k = Some o <-> tb_indices db !! k = Some o) ->
  (forall a, map_sum (ix_share a) X = map_sum (ix_share a) (tb_indices db) - D a) ->
  effect db (mk_table_db T n (tb_kvs db) (tb_next_kv db) X m (tb_limits db)) D.
Proof.
  intros Ht Hc [HT HS] HX HD. apply effect_rows; simpl; [done| |].
  - intros u a Ha Hne. assert (u <> t) as Hut by (intros ->; congruence).
    split_and!; [by rewrite HT|done|by intros i o <-; apply HX].
  - intros a. unfold table_footprint. simpl. rewrite HS, HD. lia.
Qed.

Lemma new_table_effect db scope table payer :
  db_ok db ->
  effect db (mk_table_db (<[tb_next_table db := mk_table (tc_receiver cx) scope table payer 0]> (tb_tables db))
    (tb_next_table db + 1) (tb_kvs db) (tb_next_kv db) (tb_indices db) (tb_next_index db) (tb_limits db))
    (at_account payer (- billable_size_table_id_object)).
Proof.
  intros Hok. assert (tb_tables db !! tb_next_table db = None) as Hf.
  { apply eq_None_not_Some. intros Hs. apply (dk_fresh_table db Hok) in Hs. lia. }
  apply effect_rows; simpl; [done| |].
  - intros t a Ha _. split; [|done]. rewrite lookup_insert_ne; [done|]. congruence.
  - intros a. unfold table_footprint. simpl. rewrite map_sum_insert, Hf. unfold summand, table_share at 2, at_account.
    simpl. destruct (payer =? a); lia.
Qed.

Lemma drop_table_effect db t tab :
  tb_tables db !! t = Some tab -> t_code tab = tc_receiver cx ->
  effect db (set_tables db (delete t (tb_tables db))) (at_account (t_payer tab) billable_size_table_id_object).
Proof.
  intros Ht Hc. apply effect_rows; simpl; [done| |].
  - intros u a Ha Hne. split; [|done]. rewrite lookup_delete_ne; [done|]. congruence.
  - intros a. unfold table_footprint. simpl. rewrite (map_sum_delete _ (tb_tables db) t), Ht.
    unfold summand, table_share at 2, at_account. simpl. destruct (t_payer tab =? a); lia.
Qed.

(** ** Finding tables and rows *)

Lemma find_table_Some db code scope table t :
  find_table db code scope table = Some t ->
  exists a, tb_tables db !! t = Some a /\ t_code a = code /\ t_scope a = scope /\ t_table a = table.
Proof.
  unfold find_table. intros E. apply fmap_Some in E as ([u a] & Hh & ->). apply head_Some_elem_of in Hh.
  apply list_elem_of_filter in Hh as [Hi Hin]. apply elem_of_map_to_list in Hin. exists a. split; [done|].
  unfold is_table in Hi. simpl in Hi. split_bool. done.
Qed.

Lemma find_table_None db code scope table t a :
  find_table db code scope table = None -> tb_tables db !! t = Some a -> is_table code scope table a = false.
Proof.
  unfold find_table. intros E Ha. apply fmap_None, head_None in E.
  destruct (is_table code scope table a) eqn:Hi; [|done].
  assert ((t, a) ∈ filter (fun r => is_table code scope table r.2 = true) (map_to_list (tb_tables db))) as Hin.
  { apply list_elem_of_filter. split; [done|]. by apply elem_of_map_to_list. }
  rewrite E in Hin. by apply not_elem_of_nil in Hin.
Qed.

Lemma find_table_exact db code scope table t a :
  db_ok db -> tb_tables db !! t = Some a -> t_code a = code -> t_scope a = scope -> t_table a = table ->
  find_table db code scope table = Some t.
Proof.
  intros Hok Ha <- <- <-. destruct (find_table db (t_code a) (t_scope a) (t_table a)) as [u|] eqn:E.
  - apply find_table_Some in E as (b & Hb & ? & ? & ?). f_equal. apply (dk_unique db Hok u t b a Hb Ha). done.
  - apply (find_table_None _ _ _ _ t a) in E; [|done]. unfold is_table in E. by rewrite !Z.eqb_refl in E.
Qed.

Lemma find_kv_Some db t id i o :
  find_kv db t id = Some (i, o) -> tb_kvs db !! i = Some o /\ kv_key o = (t, id).
Proof.
  unfold find_kv, kv_rows. intros Hh%head_Some_elem_of. apply list_elem_of_filter in Hh as [Hk Hin].
  by apply elem_of_map_to_list in Hin.
Qed.

Lemma find_kv_None db t id i o : find_kv db t id = None -> tb_kvs db !! i = Some o -> kv_key o <> (t, id).
Proof.
  unfold find_kv, kv_rows. intros E%head_None Hi Hk.
  assert ((i, o) ∈ filter (fun r : Z * key_value_object => kv_key r.2 = (t, id)) (map_to_list (tb_kvs db))) as Hin.
  { apply list_elem_of_filter. split; [done|]. by apply elem_of_map_to_list. }
  rewrite E in Hin. by apply not_elem_of_nil in Hin.
Qed.

Lemma elem_of_ix_rows kind db i o : (i, o) ∈ ix_rows kind db <-> tb_indices db !! (kind, i) = Some o.
Proof.
  unfold ix_rows. rewrite list_elem_of_omap. split.
  - intros ([[k j] p] & Hin & E). simpl in E. case_decide; simplify_eq. by apply elem_of_map_to_list.
  - intros Hi. exists ((kind, i), o). rewrite elem_of_map_to_list. split; [done|]. simpl. by rewrite decide_True.
Qed.

Lemma find_ix_Some kind db t id i o :
  find_ix kind db t id = Some (i, o) -> tb_indices db !! (kind, i) = Some o /\ ix_key o = (t, id).
Proof.
  unfold find_ix. intros Hh%head_Some_elem_of. apply list_elem_of_filter in Hh as [Hk Hin].
  by apply elem_of_ix_rows in Hin.
Qed.

Lemma find_ix_None kind db t id i o :
  find_ix kind db t id = None -> tb_indices db !! (kind, i) = Some o -> ix_key o <> (t, id).
Proof.
  unfold find_ix. intros E%head_None Hi Hk.
  assert ((i, o) ∈ filter (fun r : Z * index_object => ix_key r.2 = (t, id)) (ix_rows kind db)) as Hin.
  { apply list_elem_of_filter. split; [done|]. by apply elem_of_ix_rows. }
  rewrite E in Hin. by apply not_elem_of_nil in Hin.
Qed.

(** ** Parts of the operations *)

Lemma billable_sizes k :
  0 < billable_size_table_id_object < 2 ^ 10 /\ 0 < billable_size_key_value_object < 2 ^ 10 /\
  0 < billable_size_index_object k < 2 ^ 10.
Proof. destruct k; vm_compute; auto. Qed.

Lemma find_or_create_table_effect db scope table payer db' t :
  db_ok db -> find_or_create_table cx db (tc_receiver cx) scope table payer = Ok (db', t) ->
  db_ok db' /\ effect db db' (fun _ => 0) /\
  tb_kvs db' = tb_kvs db /\ tb_indices db' = tb_indices db /\
  tb_next_kv db' = tb_next_kv db /\ tb_next_index db' = tb_next_index db /\
  (forall u, u <> t -> tb_tables db' !! u = tb_tables db !! u) /\
  exists tab, tb_tables db' !! t = Some tab /\ t_code tab = tc_receiver cx /\ t_scope tab = scope /\ t_table tab = table.
Proof.
  intros Hok E. unfold find_or_create_table in E.
  destruct (find_table db (tc_receiver cx) scope table) as [u|] eqn:Hf.
  - injection E as <- <-. apply find_table_Some in Hf. split_and!; try done. apply effect_refl.
  - apply bind_Ok in E as (db1 & Hu & E). injection E as <- <-. pose proof (billable_sizes idx64).
    destruct (fun Hd => update_db_usage_effect _ _ _ _ Hok Hd Hu) as (rl & -> & Hok1 & Hef); [lia|].
    split_and!; simpl; try done.
    + apply (new_table_ok (set_table_limits db rl)); [done|]. intros t a. by apply find_table_None.
    + eapply effect_trans; [exact Hef|by apply (new_table_effect (set_table_limits db rl))|].
      intros a. unfold at_account. destruct (payer =? a); lia.
    + intros u Hne. by rewrite lookup_insert_ne.
    + eexists. by rewrite lookup_insert_eq.
Qed.

Lemma remove_if_empty_effect db t tab db' :
  db_ok db -> tb_tables db !! t = Some tab -> t_code tab = tc_receiver cx -> remove_if_empty cx db t = Ok db' ->
  db_ok db' /\ effect db db' (fun _ => 0) /\
  tb_kvs db' = tb_kvs db /\ tb_indices db' = tb_indices db /\
  (forall u, u <> t -> tb_tables db' !! u = tb_tables db !! u) /\
  forall a, tb_tables db' !! t = Some a -> 0 < t_count a.
Proof.
  intros Hok Ht Hc E. unfold remove_if_empty in E. rewrite Ht in E. cbn [of_option mbind result_bind] in E.
  destruct (Z.eqb_spec (t_count tab) 0) as [Hz|Hz].
  - unfold remove_table in E. rewrite Ht in E. cbn [of_option mbind result_bind] in E.
    apply bind_Ok in E as (db1 & Hu & E). injection E as <-. pose proof (billable_sizes idx64).
    destruct (fun Hd => update_db_usage_effect _ _ _ _ Hok Hd Hu) as (rl & -> & Hok1 & Hef); [lia|].
    split_and!; simpl; try done.
    + by apply (drop_table_ok (set_table_limits db rl) t tab).
    + eapply effect_trans; [exact Hef|by apply (drop_table_effect (set_table_limits db rl) t tab)|].
      intros a. unfold at_account. destruct (t_payer tab =? a); lia.
    + intros u Hne. by rewrite lookup_delete_ne.
    + intros a Ha. by rewrite lookup_delete_eq in Ha.
  - injection E as <-. split_and!; try done; [apply effect_refl|].
    intros a Ha. assert (a = tab) as -> by congruence. pose proof (dk_count db Hok t tab Ht).
    pose proof (rows_of_bound db t). lia.
Qed.

End Effects.
