(* ===== verification/ContractTablesOps.v ===== *)
(** * The operations on contract tables keep their promises

    Every operation of the database interface keeps the invariant of tables and
    iterators, bills exactly what it stores, charges only accounts that agreed
    and touches only tables of the running contract; walking a table visits its
    rows in the order of their keys. *)

From Stdlib Require Import ZArith Lia Bool.
From stdpp Require Import base numbers gmap relations sorting sets list.
From S2P Require Import Prelude ResourceLimits ResourceLimitsProofs BlockHeader NativeActions ContractTables.
From S2P Require Import ContractTablesProofs.

Open Scope Z_scope.

(** ** The invariant of a session *)

Definition kv_table (db : table_db) (i : Z) : option Z := kv_t_id <$> tb_kvs db !! i.
Definition ix_table (db : table_db) (k : index_kind) (i : Z) : option Z := ix_t_id <$> tb_indices db !! (k, i).

Record session_ok (s : session) : Prop := {
  so_db : db_ok (ss_db s);
  so_nonempty : no_empty (ss_db s);
  so_kv : cache_ok (kv_table (ss_db s)) (ss_keyval s);
  so_ix k : cache_ok (ix_table (ss_db s) k) (index_cache s k)
}.

Lemma index_cache_set s k c k' :
  index_cache (set_index_cache s k c) k' = if decide (k = k') then c else index_cache s k'.
Proof.
  unfold index_cache, set_index_cache. simpl.
  case_decide as Hk; [subst; by rewrite lookup_insert_eq|by rewrite lookup_insert_ne].
Qed.

(** What an operation does to the database. *)
Record outcome (cx : table_context) (db db' : table_db) : Prop := {
  oc_ok : db_ok db';
  oc_nonempty : no_empty db';
  oc_effect : effect cx db db' (fun _ => 0);
  oc_rows : total_rows db' <= total_rows db + 1
}.

Section Operations.
Context (cx : table_context).

Lemma kv_of_Ok s it i o :
  session_ok s -> kv_of s it = Ok (i, o) <->
  object_to_iterator (ss_keyval s) !! i = Some it /\ tb_kvs (ss_db s) !! i = Some o.
Proof.
  intros Hs. unfold kv_of. split.
  - intros E. apply bind_Ok in E as (j & Hj & E). apply bind_Ok in E as (p & Hp & E). injection E as -> ->.
    apply of_option_Ok in Hp. by apply (cache_get_Ok _ _ _ _ (so_kv s Hs)) in Hj as [_ Hj].
  - intros [Hi Ho]. rewrite (proj2 (cache_get_Ok _ _ it i (so_kv s Hs))).
    + cbn [mbind result_bind]. by rewrite Ho.
    + split; [|done]. by apply (co_nonneg _ _ (so_kv s Hs) i).
Qed.

Lemma get_table_Ok c db t tab : get_table c db t = Ok tab -> tb_tables db !! t = Some tab.
Proof. intros E. apply bind_Ok in E as (ei & _ & E). by apply of_option_Ok in E. Qed.

Lemma update_total db payer d db' : update_db_usage cx db payer d = Ok db' -> total_rows db' = total_rows db.
Proof.
  intros E. unfold update_db_usage in E. apply bind_Ok in E as ([] & _ & E).
  apply bind_Ok in E as (rl & _ & E). by injection E as <-.
Qed.

Lemma total_rows_kv db T n K m X p rl i o :
  tb_kvs db !! i = None -> K = <[i := o]> (tb_kvs db) -> X = tb_indices db ->
  total_rows (mk_table_db T n K m X p rl) = total_rows db + 1.
Proof. intros Hi -> ->. unfold total_rows. simpl. rewrite map_sum_insert, Hi. simpl. lia. Qed.

(** *** Storing a row *)

Lemma store_size buffer :
  Z.of_nat (length buffer) < 2 ^ 32 ->
  i64 (u64 (Z.of_nat (length (A := Z) buffer) + billable_size_key_value_object)) =
  Z.of_nat (length buffer) + billable_size_key_value_object.
Proof.
  intros Hb. pose proof (billable_sizes idx64). rewrite u64_small by (unfold is_u64; lia).
  apply i64_small. unfold is_i64. lia.
Qed.

Lemma no_empty_others db t db' :
  no_empty db -> (forall u, u <> t -> tb_tables db' !! u = tb_tables db !! u) ->
  (forall a, tb_tables db' !! t = Some a -> 0 < t_count a) -> no_empty db'.
Proof.
  intros Hn Hu Ht u a Ha. destruct (decide (u = t)) as [->|Hne]; [by apply Ht|].
  rewrite Hu in Ha by done. by apply (Hn u).
Qed.

Lemma change_count_Ok db t d tab :
  tb_tables db !! t = Some tab -> change_count db t d = Ok (set_tables db (with_count db t tab d)).
Proof. intros Ht. unfold change_count. by rewrite Ht. Qed.

(** A row is added to a table of the receiver and paid for. *)
Lemma store_row_outcome db db1 t tab db2 db' payer sz :
  no_empty db -> effect cx db db1 (fun _ => 0) -> total_rows db1 = total_rows db ->
  (forall u, u <> t -> tb_tables db1 !! u = tb_tables db !! u) ->
  0 < sz < 2 ^ 33 -> db_ok db1 -> db_ok db2 -> effect cx db1 db2 (at_account payer (- sz)) ->
  total_rows db2 = total_rows db1 + 1 -> tb_tables db2 = with_count db1 t tab 1 ->
  total_rows db < 2 ^ 32 - 1 -> tb_tables db1 !! t = Some tab ->
  update_db_usage cx db2 payer sz = Ok db' ->
  outcome cx db db' /\ exists rl, db' = set_table_limits db2 rl.
Proof.
  intros Hn He1 Hr1 Hu Hsz Hok1 Hok2 He2 Hr2 HT Hb Ht E.
  destruct (fun Hd => update_db_usage_effect cx _ _ _ _ Hok2 Hd E) as (rl & -> & Hok3 & He3); [lia|].
  split; [|by exists rl]. constructor; [done| | |].
  - simpl. apply (no_empty_others db t); simpl; [done| |]; rewrite HT; unfold with_count.
    + intros u Hne. rewrite lookup_insert_ne by done. by apply Hu.
    + intros a Ha. rewrite lookup_insert_eq in Ha. injection Ha as <-. simpl.
      rewrite (dk_count db1 Hok1 t tab Ht). pose proof (rows_of_bound db1 t). rewrite u32_small; [lia|]. unfold is_u32. lia.
  - eapply effect_trans; [exact He1|eapply effect_trans; [exact He2|exact He3|done]|].
    intros a. unfold at_account. simpl. destruct (payer =? a); lia.
  - change (total_rows (set_table_limits db2 rl)) with (total_rows db2). lia.
Qed.

Lemma cache_ok_fresh f g c i : (forall j, j <> i -> f j = g j) -> f i = None -> cache_ok f c -> cache_ok g c.
Proof.
  intros Hfg Hi Hc. apply (cache_ok_ext f); [|done]. intros j [it Hj]. apply Hfg. intros ->.
  destruct (co_live f c Hc i it Hj) as (t & Ht & _). congruence.
Qed.

Lemma kv_next_fresh db : db_ok db -> tb_kvs db !! tb_next_kv db = None.
Proof. intros Hok. apply eq_None_not_Some. intros Hs. apply (dk_fresh_kv db Hok) in Hs. lia. Qed.
Lemma ix_next_fresh db k : db_ok db -> tb_indices db !! (k, tb_next_index db) = None.
Proof. intros Hok. apply eq_None_not_Some. intros Hs. apply (dk_fresh_ix db Hok) in Hs. lia. Qed.

Lemma kv_share_at a i o : kv_share a i o = at_account (kv_payer o) (kv_size o) a.
Proof. done. Qed.
Lemma ix_share_at a k o : ix_share a k o = at_account (ix_payer o) (billable_size_index_object k.1) a.
Proof. done. Qed.

Lemma store_kv_outcome db scope table payer id buffer db1 t db' :
  db_ok db -> no_empty db -> total_rows db < 2 ^ 32 - 1 -> Z.of_nat (length buffer) < 2 ^ 32 ->
  find_or_create_table cx db (tc_receiver cx) scope table payer = Ok (db1, t) -> find_kv db1 t id = None ->
  change_count (mk_table_db (tb_tables db1) (tb_next_table db1)
    (<[tb_next_kv db1 := mk_kv t id payer buffer]> (tb_kvs db1)) (tb_next_kv db1 + 1) (tb_indices db1)
    (tb_next_index db1) (tb_limits db1)) t 1 ≫= (fun db2 => update_db_usage cx db2 payer (kv_size (mk_kv t id payer buffer))) = Ok db' ->
  outcome cx db db' /\ tb_kvs db' = <[tb_next_kv db := mk_kv t id payer buffer]> (tb_kvs db) /\
  tb_indices db' = tb_indices db /\ tb_next_kv db1 = tb_next_kv db /\
  exists tab, tb_tables db' !! t = Some tab /\ t_code tab = tc_receiver cx /\ t_scope tab = scope /\ t_table tab = table.
Proof.
  intros Hok Hne Hr Hb Hf Hfk E. pose proof (billable_sizes idx64).
  destruct (find_or_create_table_effect cx _ _ _ _ _ _ Hok Hf) as (Hok1 & He1 & Ek & Ei & Enk & Eni & Hut & tab & Ht & Hc & Hsc & Htb).
  pose proof (kv_next_fresh db1 Hok1) as Hfr.
  assert (total_rows db1 = total_rows db) as Hr1 by (unfold total_rows; by rewrite Ek, Ei).
  rewrite (change_count_Ok _ t 1 tab) in E by done. cbn [mbind result_bind] in E.
  apply (store_row_outcome db db1 t tab) in E as [Hout (rl & ->)]; try done.
  - split_and!; simpl; [done|congruence|done|done|]. unfold with_count. eexists. by rewrite lookup_insert_eq.
  - unfold kv_size. simpl. lia.
  - apply (add_kv_ok db1); try done; [lia|]. intros i o. by apply find_kv_None.
  - apply (kv_effect cx db1 t tab); [done|done|exact (with_count_only db1 t tab 1 Ht)| |].
    + intros i o Ho. by apply (insert_other _ (fun w => kv_t_id w = t)); [rewrite Hfr| |].
    + intros a. cbn [tb_kvs set_tables]. rewrite map_sum_insert, Hfr. rewrite kv_share_at. unfold at_account. simpl.
      destruct (payer =? a); lia.
  - by eapply total_rows_kv.
Qed.

Lemma db_store_i64_outcome s scope table payer id buffer s' it :
  session_ok s -> total_rows (ss_db s) < 2 ^ 32 - 1 -> Z.of_nat (length buffer) < 2 ^ 32 ->
  db_store_i64 cx s scope table payer id buffer = Ok (s', it) ->
  session_ok s' /\ outcome cx (ss_db s) (ss_db s') /\
  exists i t tab, tb_tables (ss_db s') !! t = Some tab /\
    t_code tab = tc_receiver cx /\ t_scope tab = scope /\ t_table tab = table /\
    tb_kvs (ss_db s') = <[i := mk_kv t id payer buffer]> (tb_kvs (ss_db s)) /\ tb_kvs (ss_db s) !! i = None /\
    object_to_iterator (ss_keyval s') !! i = Some it.
Proof.
  intros Hs Hr Hb E. pose proof Hs as [Hok Hne Hkv Hix]. unfold db_store_i64, db_store_i64_code in E.
  apply bind_Ok in E as ([db1 t] & Hf & E). apply bind_Ok in E as ([] & _ & E). apply bind_Ok in E as ([] & Hu & E).
  apply assert_Ok in Hu. destruct (find_kv db1 t id) eqn:Hfk; [done|]. clear Hu.
  cbv zeta in E. rewrite store_size in E by done. rewrite <- bind_assoc in E. apply bind_Ok in E as (db' & Hst & E).
  destruct (store_kv_outcome _ _ _ _ _ _ _ _ _ Hok Hne Hr Hb Hf Hfk Hst) as (Hout & Ek & Ei & En & tab & Ht & Hc & Hsc & Htb).
  pose proof (kv_next_fresh _ Hok) as Hfr. rewrite En in E. unfold add_iterator in E.
  destruct (cache_table (ss_keyval s) t) as [c ei] eqn:Hct. simpl in E.
  destruct (cache_add c (tb_next_kv (ss_db s))) as [c' it'] eqn:Hca. injection E as <- <-.
  destruct (cache_table_ok _ _ _ _ _ Hkv Hct) as (Hc1 & Hct1 & _).
  assert (cache_ok (kv_table db') c) as Hc2.
  { apply (cache_ok_fresh (kv_table (ss_db s)) _ _ (tb_next_kv (ss_db s))); [| |done]; unfold kv_table.
    - intros j Hj. by rewrite Ek, lookup_insert_ne.
    - by rewrite Hfr. }
  destruct (cache_add_ok (kv_table db') c (tb_next_kv (ss_db s)) t c' it') as (Hc3 & _ & Hit & _); [done| |by eauto|done|].
  { unfold kv_table. by rewrite Ek, lookup_insert_eq. }
  split_and!; [constructor; simpl; [apply Hout|apply Hout|done|]|done|by exists (tb_next_kv (ss_db s)), t, tab].
  intros k. unfold ix_table. rewrite Ei. apply Hix.
Qed.

Lemma store_ix_outcome kind db scope table payer id value db1 t db' :
  db_ok db -> no_empty db -> total_rows db < 2 ^ 32 - 1 ->
  find_or_create_table cx db (tc_receiver cx) scope table payer = Ok (db1, t) -> find_ix kind db1 t id = None ->
  change_count (mk_table_db (tb_tables db1) (tb_next_table db1) (tb_kvs db1) (tb_next_kv db1)
    (<[(kind, tb_next_index db1) := mk_index t id payer value]> (tb_indices db1)) (tb_next_index db1 + 1)
    (tb_limits db1)) t 1 ≫= (fun db2 => update_db_usage cx db2 payer (billable_size_index_object kind)) = Ok db' ->
  outcome cx db db' /\ tb_indices db' = <[(kind, tb_next_index db) := mk_index t id payer value]> (tb_indices db) /\
  tb_kvs db' = tb_kvs db /\ tb_next_index db1 = tb_next_index db /\
  exists tab, tb_tables db' !! t = Some tab /\ t_code tab = tc_receiver cx /\ t_scope tab = scope /\ t_table tab = table.
Proof.
  intros Hok Hne Hr Hf Hfk E. pose proof (billable_sizes kind).
  destruct (find_or_create_table_effect cx _ _ _ _ _ _ Hok Hf) as (Hok1 & He1 & Ek & Ei & Enk & Eni & Hut & tab & Ht & Hc & Hsc & Htb).
  pose proof (ix_next_fresh db1 kind Hok1) as Hfr.
  assert (total_rows db1 = total_rows db) as Hr1 by (unfold total_rows; by rewrite Ek, Ei).
  rewrite (change_count_Ok _ t 1 tab) in E by done. cbn [mbind result_bind] in E.
  apply (store_row_outcome db db1 t tab) in E as [Hout (rl & ->)]; try done.
  - split_and!; simpl; [done|congruence|done|done|]. unfold with_count. eexists. by rewrite lookup_insert_eq.
  - lia.
  - apply (add_ix_ok db1); try done; [lia|]. intros i o. by apply find_ix_None.
  - apply (ix_effect cx db1 t tab); [done|done|exact (with_count_only db1 t tab 1 Ht)| |].
    + intros i o Ho. by apply (insert_other _ (fun w => ix_t_id w = t)); [rewrite Hfr| |].
    + intros a. cbn [tb_indices set_tables]. rewrite map_sum_insert, Hfr. rewrite ix_share_at. unfold at_account. simpl.
      destruct (payer =? a); lia.
  - unfold total_rows. simpl. rewrite map_sum_insert, Hfr. simpl. lia.
Qed.

Lemma index_store_outcome kind s scope table payer id value s' it :
  session_ok s -> total_rows (ss_db s) < 2 ^ 32 - 1 ->
  index_store cx kind s scope table payer id value = Ok (s', it) ->
  session_ok s' /\ outcome cx (ss_db s) (ss_db s') /\
  exists i t tab, tb_tables (ss_db s') !! t = Some tab /\
    t_code tab = tc_receiver cx /\ t_scope tab = scope /\ t_table tab = table /\
    tb_indices (ss_db s') = <[(kind, i) := mk_index t id payer value]> (tb_indices (ss_db s)) /\
    tb_indices (ss_db s) !! (kind, i) = None /\ object_to_iterator (index_cache s' kind) !! i = Some it.
Proof.
  intros Hs Hr E. pose proof Hs as [Hok Hne Hkv Hix]. unfold index_store in E.
  apply bind_Ok in E as ([] & _ & E). apply bind_Ok in E as ([db1 t] & Hf & E). apply bind_Ok in E as ([] & Hu & E).
  apply assert_Ok in Hu. destruct (find_ix kind db1 t id) eqn:Hfk; [done|]. clear Hu.
  cbv zeta in E. rewrite <- bind_assoc in E. apply bind_Ok in E as (db' & Hst & E).
  destruct (store_ix_outcome _ _ _ _ _ _ _ _ _ _ Hok Hne Hr Hf Hfk Hst) as (Hout & Ek & Ei & En & tab & Ht & Hc & Hsc & Htb).
  pose proof (ix_next_fresh _ kind Hok) as Hfr. rewrite En in E. unfold add_ix_iterator in E.
  destruct (cache_table (index_cache s kind) t) as [c ei] eqn:Hct. simpl in E.
  change (mk_session db' (ss_keyval s) (<[kind:=c]> (ss_index s))) with (set_index_cache (set_db s db') kind c) in E.
  rewrite index_cache_set, decide_True in E by done.
  destruct (cache_add c (tb_next_index (ss_db s))) as [c' it'] eqn:Hca. injection E as <- <-.
  destruct (cache_table_ok _ _ _ _ _ (Hix kind) Hct) as (Hc1 & Hct1 & _).
  assert (forall k j, (k, j) <> (kind, tb_next_index (ss_db s)) -> ix_table db' k j = ix_table (ss_db s) k j) as Hsame.
  { intros k j Hne'. unfold ix_table. by rewrite Ek, lookup_insert_ne. }
  assert (cache_ok (ix_table db' kind) c) as Hc2.
  { apply (cache_ok_fresh (ix_table (ss_db s) kind) _ _ (tb_next_index (ss_db s))); [| |done].
    - intros j Hj. symmetry. apply Hsame. congruence.
    - unfold ix_table. by rewrite Hfr. }
  destruct (cache_add_ok (ix_table db' kind) c (tb_next_index (ss_db s)) t c' it') as (Hc3 & _ & Hit & _); [done| |by eauto|done|].
  { unfold ix_table. by rewrite Ek, lookup_insert_eq. }
  split_and!; [constructor; simpl; [apply Hout|apply Hout| |]|done|].
  - unfold kv_table. by rewrite Ei.
  - intros k. rewrite !index_cache_set. case_decide as Hk; [by subst|].
    apply (cache_ok_ext (ix_table (ss_db s) k)); [|apply Hix]. intros j _. symmetry. apply Hsame. congruence.
  - exists (tb_next_index (ss_db s)), t, tab. rewrite index_cache_set, decide_True by done. done.
Qed.

(** *** Updating a row *)

Lemma same_rows_outcome db db' db'' D :
  no_empty db -> effect cx db db' D -> db_ok db'' -> effect cx db' db'' (fun a => - D a) ->
  tb_tables db'' = tb_tables db -> total_rows db'' = total_rows db -> outcome cx db db''.
Proof.
  intros Hne He Hok He' HT Hr. constructor; [done|by unfold no_empty; rewrite HT| |lia].
  eapply effect_trans; [exact He|exact He'|]. intros a. simpl. lia.
Qed.

(** The old payer gets the old size back and the new one pays the new size. *)
Lemma repay_effect db old payer osz nsz db' :
  db_ok db -> 0 <= osz < 2 ^ 62 -> 0 <= nsz < 2 ^ 62 ->
  (db1 ← update_db_usage cx db old (- osz); update_db_usage cx db1 payer nsz) = Ok db' ->
  exists rl, db' = set_table_limits db rl /\ db_ok db' /\
    effect cx db db' (fun a => at_account payer nsz a - at_account old osz a).
Proof.
  intros Hok Ho Hn E. apply bind_Ok in E as (db1 & E1 & E2).
  destruct (fun Hd => update_db_usage_effect cx _ _ _ _ Hok Hd E1) as (rl1 & -> & Hok1 & He1); [lia|].
  destruct (fun Hd => update_db_usage_effect cx _ _ _ _ Hok1 Hd E2) as (rl2 & -> & Hok2 & He2); [lia|].
  exists rl2. split_and!; [done|done|]. eapply effect_trans; [exact He1|exact He2|].
  intros a. unfold at_account. simpl. destruct (old =? a), (payer =? a); lia.
Qed.

Lemma effect_ext db db' D D' : effect cx db db' D -> (forall a, D a = D' a) -> effect cx db db' D'.
Proof. intros [] HD. constructor; [done|done|]. intros a. by rewrite ef_billed, HD. Qed.

Lemma kv_size_bound db i o : db_ok db -> tb_kvs db !! i = Some o -> 0 <= kv_size o < 2 ^ 33.
Proof.
  intros Hok Hi. pose proof (dk_small db Hok i o Hi). pose proof (billable_sizes idx64). unfold kv_size. lia.
Qed.

Lemma total_rows_kv_edit db i o o' :
  tb_kvs db !! i = Some o -> total_rows (set_kvs db (<[i := o']> (tb_kvs db))) = total_rows db.
Proof. intros Hi. unfold total_rows. simpl. rewrite map_sum_insert, Hi. simpl. lia. Qed.
Lemma total_rows_ix_edit db k o o' :
  tb_indices db !! k = Some o -> total_rows (set_indices db (<[k := o']> (tb_indices db))) = total_rows db.
Proof. intros Hi. unfold total_rows. simpl. rewrite map_sum_insert, Hi. simpl. lia. Qed.

(** The receiver's row [o] is given to [payer] with a new value. *)
Lemma edit_kv_effect db i o tab payer buffer :
  db_ok db -> tb_kvs db !! i = Some o -> tb_tables db !! kv_t_id o = Some tab -> t_code tab = tc_receiver cx ->
  let o' := mk_kv (kv_t_id o) (kv_primary_key o) payer buffer in
  effect cx db (set_kvs db (<[i := o']> (tb_kvs db)))
    (fun a => - (at_account payer (kv_size o') a - at_account (kv_payer o) (kv_size o) a)).
Proof.
  intros Hok Hi Ht Hc o'. apply (kv_effect cx db (kv_t_id o) tab); [done|done|by apply counts_only_refl| |].
  - intros j p Hp. apply (insert_other _ (fun w => kv_t_id w = kv_t_id o)); [|done|done]. intros w Hw. congruence.
  - intros a. rewrite map_sum_insert, Hi. unfold summand. rewrite !kv_share_at. simpl. lia.
Qed.

Lemma edit_ix_effect db k o tab payer value :
  db_ok db -> tb_indices db !! k = Some o -> tb_tables db !! ix_t_id o = Some tab -> t_code tab = tc_receiver cx ->
  let sz := billable_size_index_object k.1 in
  effect cx db (set_indices db (<[k := mk_index (ix_t_id o) (ix_primary_key o) payer value]> (tb_indices db)))
    (fun a => - (at_account payer sz a - at_account (ix_payer o) sz a)).
Proof.
  intros Hok Hi Ht Hc sz. apply (ix_effect cx db (ix_t_id o) tab); [done|done|by apply counts_only_refl| |].
  - intros j p Hp. apply (insert_other _ (fun w => ix_t_id w = ix_t_id o)); [|done|done]. intros w Hw. congruence.
  - intros a. rewrite map_sum_insert, Hi. unfold summand. rewrite !ix_share_at. simpl. unfold sz. lia.
Qed.

(** What [db_update_i64] bills. *)
Lemma update_payment db old payer osz nsz db' :
  db_ok db -> 0 <= osz < 2 ^ 62 -> 0 <= nsz < 2 ^ 62 ->
  (if negb (old =? payer) then db1 ← update_db_usage cx db old (- osz); update_db_usage cx db1 payer nsz
   else if negb (osz =? nsz) then update_db_usage cx db old (nsz - osz) else mret db) = Ok db' ->
  exists rl, db' = set_table_limits db rl /\ db_ok db' /\
    effect cx db db' (fun a => at_account payer nsz a - at_account old osz a).
Proof.
  intros Hok Ho Hn E. destruct (Z.eqb_spec old payer) as [->|Hp]; cbn [negb] in E; [|by apply repay_effect].
  destruct (Z.eqb_spec osz nsz) as [->|Hz]; cbn [negb] in E.
  - injection E as <-. exists (tb_limits db). split_and!; [by destruct db|done|].
    eapply effect_ext; [apply effect_refl|]. intros a. simpl. lia.
  - destruct (fun Hd => update_db_usage_effect cx _ _ _ _ Hok Hd E) as (rl & -> & Hok1 & He1); [lia|].
    exists rl. split_and!; [done|done|]. eapply effect_ext; [exact He1|]. intros a. unfold at_account. destruct (_ =? a); lia.
Qed.

Lemma db_update_i64_outcome s it payer buffer s' :
  session_ok s -> Z.of_nat (length buffer) < 2 ^ 32 -> db_update_i64 cx s it payer buffer = Ok s' ->
  session_ok s' /\ outcome cx (ss_db s) (ss_db s') /\
  exists i o, object_to_iterator (ss_keyval s) !! i = Some it /\ tb_kvs (ss_db s) !! i = Some o /\
    ss_keyval s' = ss_keyval s /\
    tb_kvs (ss_db s') = <[i := mk_kv (kv_t_id o) (kv_primary_key o) (if payer =? 0 then kv_payer o else payer) buffer]>
                          (tb_kvs (ss_db s)).
Proof.
  intros Hs Hb E. pose proof Hs as [Hok Hne Hkv Hix]. unfold db_update_i64 in E.
  apply bind_Ok in E as ([i o] & Hio & E). apply (kv_of_Ok s it i o Hs) in Hio as [Hit Hi].
  apply bind_Ok in E as (tab & Ht & E). apply get_table_Ok in Ht. apply bind_Ok in E as ([] & Hc & E).
  apply assert_Ok, Z.eqb_eq in Hc. cbv zeta in E. apply bind_Ok in E as (db1 & Hpay & E). injection E as <-.
  rewrite !store_size in Hpay by (done || by apply (dk_small _ Hok i)).
  set (p := if payer =? 0 then kv_payer o else payer) in *.
  set (o' := mk_kv (kv_t_id o) (kv_primary_key o) p buffer) in *.
  change (Z.of_nat (length (kv_value o)) + _) with (kv_size o) in Hpay.
  change (Z.of_nat (length buffer) + _) with (kv_size o') in Hpay.
  pose proof (kv_size_bound _ i o Hok Hi). pose proof (billable_sizes idx64).
  assert (0 <= kv_size o' < 2 ^ 33) as Hso by (unfold kv_size; simpl; lia).
  destruct (update_payment (ss_db s) (kv_payer o) p (kv_size o) (kv_size o') db1) as (rl & -> & Hok1 & He1); [done|lia|lia|done|].
  split_and!; [constructor; simpl| |by exists i, o].
  - by apply (edit_kv_ok (set_table_limits (ss_db s) rl)).
  - done.
  - apply (cache_ok_ext (kv_table (ss_db s))); [|done]. intros j _. unfold kv_table. simpl.
    destruct (decide (i = j)) as [<-|Hj]; [by rewrite lookup_insert_eq, Hi|by rewrite lookup_insert_ne].
  - done.
  - simpl. eapply same_rows_outcome; [done|exact He1| | |done|exact (total_rows_kv_edit (ss_db s) i o _ Hi)].
    + by apply (edit_kv_ok (set_table_limits (ss_db s) rl)).
    + by apply (edit_kv_effect (set_table_limits (ss_db s) rl) i o tab).
Qed.

Lemma ix_of_Ok kind s it i o :
  session_ok s -> ix_of kind s it = Ok (i, o) <->
  object_to_iterator (index_cache s kind) !! i = Some it /\ tb_indices (ss_db s) !! (kind, i) = Some o.
Proof.
  intros Hs. unfold ix_of. split.
  - intros E. apply bind_Ok in E as (j & Hj & E). apply bind_Ok in E as (p & Hp & E). injection E as -> ->.
    apply of_option_Ok in Hp. by apply (cache_get_Ok _ _ _ _ (so_ix s Hs kind)) in Hj as [_ Hj].
  - intros [Hi Ho]. rewrite (proj2 (cache_get_Ok _ _ it i (so_ix s Hs kind))).
    + cbn [mbind result_bind]. by rewrite Ho.
    + split; [|done]. by apply (co_nonneg _ _ (so_ix s Hs kind) i).
Qed.

Lemma index_update_outcome kind s it payer value s' :
  session_ok s -> index_update cx kind s it payer value = Ok s' ->
  session_ok s' /\ outcome cx (ss_db s) (ss_db s') /\
  exists i o, object_to_iterator (index_cache s kind) !! i = Some it /\ tb_indices (ss_db s) !! (kind, i) = Some o /\
    ss_index s' = ss_index s /\
    tb_indices (ss_db s') =
      <[(kind, i) := mk_index (ix_t_id o) (ix_primary_key o) (if payer =? 0 then ix_payer o else payer) value]>
        (tb_indices (ss_db s)).
Proof.
  intros Hs E. pose proof Hs as [Hok Hne Hkv Hix]. unfold index_update in E.
  apply bind_Ok in E as ([i o] & Hio & E). apply (ix_of_Ok kind s it i o Hs) in Hio as [Hit Hi].
  apply bind_Ok in E as (tab & Ht & E). apply get_table_Ok in Ht. apply bind_Ok in E as ([] & Hc & E).
  apply assert_Ok, Z.eqb_eq in Hc. cbv zeta in E. apply bind_Ok in E as (db1 & Hpay & E). injection E as <-.
  set (p := if payer =? 0 then ix_payer o else payer) in *. pose proof (billable_sizes kind).
  destruct (update_payment (ss_db s) (ix_payer o) p (billable_size_index_object kind)
    (billable_size_index_object kind) db1) as (rl & -> & Hok1 & He1); [done|lia|lia|by rewrite Z.eqb_refl|].
  split_and!; [constructor; simpl| |by exists i, o].
  - by apply (edit_ix_ok (set_table_limits (ss_db s) rl)).
  - done.
  - done.
  - intros k. apply (cache_ok_ext (ix_table (ss_db s) k)); [|apply Hix]. intros j _. unfold ix_table. simpl.
    destruct (decide ((kind, i) = (k, j))) as [<-|Hj]; [by rewrite lookup_insert_eq, Hi|by rewrite lookup_insert_ne].
  - simpl. eapply same_rows_outcome; [done|exact He1| | |done|exact (total_rows_ix_edit (ss_db s) (kind, i) o _ Hi)].
    + by apply (edit_ix_ok (set_table_limits (ss_db s) rl)).
    + by apply (edit_ix_effect (set_table_limits (ss_db s) rl) (kind, i) o tab).
Qed.

(** *** Removing a row *)

(** The row is refunded and gone from table [t], which goes with its last row. *)
Lemma drop_row_outcome db db1 t tab db2 db' payer sz :
  no_empty db -> effect cx db db1 (at_account payer (- sz)) -> db_ok db2 -> effect cx db1 db2 (at_account payer sz) ->
  tb_tables db1 = tb_tables db -> tb_tables db2 = with_count db1 t tab (-1) ->
  t_code tab = tc_receiver cx -> total_rows db2 <= total_rows db -> remove_if_empty cx db2 t = Ok db' ->
  outcome cx db db' /\ tb_kvs db' = tb_kvs db2 /\ tb_indices db' = tb_indices db2.
Proof.
  intros Hne He1 Hok2 He2 HT1 HT2 Hc Hr E.
  assert (tb_tables db2 !! t = Some (set_count tab (u32 (t_count tab + -1)))) as Ht2.
  { rewrite HT2. unfold with_count. by rewrite lookup_insert_eq. }
  destruct (remove_if_empty_effect cx _ _ _ _ Hok2 Ht2 Hc E) as (Hok' & He' & Ek & Ei & Hu & Hn).
  split_and!; [constructor|done|done]; [done| | |].
  - apply (no_empty_others db t); [done| |done]. intros u Hut. rewrite Hu, HT2 by done. unfold with_count.
    by rewrite lookup_insert_ne, HT1.
  - eapply effect_trans; [exact He1|eapply effect_trans; [exact He2|exact He'|done]|].
    intros a. unfold at_account. simpl. destruct (payer =? a); lia.
  - unfold total_rows in *. rewrite Ek, Ei. lia.
Qed.

Lemma total_rows_kv_drop db T i o :
  tb_kvs db !! i = Some o -> total_rows (set_kvs (set_tables db T) (delete i (tb_kvs db))) = total_rows db - 1.
Proof. intros Hi. unfold total_rows. simpl. rewrite (map_sum_delete _ (tb_kvs db) i), Hi. simpl. lia. Qed.
Lemma total_rows_ix_drop db T k o :
  tb_indices db !! k = Some o -> total_rows (set_indices (set_tables db T) (delete k (tb_indices db))) = total_rows db - 1.
Proof. intros Hi. unfold total_rows. simpl. rewrite (map_sum_delete _ (tb_indices db) k), Hi. simpl. lia. Qed.

Lemma drop_kv_effect db i o tab :
  tb_kvs db !! i = Some o -> tb_tables db !! kv_t_id o = Some tab -> t_code tab = tc_receiver cx ->
  effect cx db (set_kvs (set_tables db (with_count db (kv_t_id o) tab (-1))) (delete i (tb_kvs db)))
    (at_account (kv_payer o) (kv_size o)).
Proof.
  intros Hi Ht Hc. apply (kv_effect cx db (kv_t_id o) tab); [done|done|by apply with_count_only| |].
  - intros j p Hp. apply (delete_other _ (fun w => kv_t_id w = kv_t_id o)); [|done]. intros w Hw. congruence.
  - intros a. rewrite (map_sum_delete _ (tb_kvs db) i), Hi. unfold summand. rewrite kv_share_at. lia.
Qed.
Lemma drop_ix_effect db k o tab :
  tb_indices db !! k = Some o -> tb_tables db !! ix_t_id o = Some tab -> t_code tab = tc_receiver cx ->
  effect cx db (set_indices (set_tables db (with_count db (ix_t_id o) tab (-1))) (delete k (tb_indices db)))
    (at_account (ix_payer o) (billable_size_index_object k.1)).
Proof.
  intros Hi Ht Hc. apply (ix_effect cx db (ix_t_id o) tab); [done|done|by apply with_count_only| |].
  - intros j p Hp. apply (delete_other _ (fun w => ix_t_id w = ix_t_id o)); [|done]. intros w Hw. congruence.
  - intros a. rewrite (map_sum_delete _ (tb_indices db) k), Hi. unfold summand. rewrite ix_share_at. lia.
Qed.

Lemma db_remove_i64_outcome s it s' :
  session_ok s -> total_rows (ss_db s) < 2 ^ 32 - 1 -> db_remove_i64 cx s it = Ok s' ->
  session_ok s' /\ outcome cx (ss_db s) (ss_db s') /\
  exists i, object_to_iterator (ss_keyval s) !! i = Some it /\ tb_kvs (ss_db s') = delete i (tb_kvs (ss_db s)) /\
    object_to_iterator (ss_keyval s') = delete i (object_to_iterator (ss_keyval s)).
Proof.
  intros Hs Hr E. pose proof Hs as [Hok Hne Hkv Hix]. unfold db_remove_i64 in E.
  apply bind_Ok in E as ([i o] & Hio & E). apply (kv_of_Ok s it i o Hs) in Hio as [Hit Hi].
  apply bind_Ok in E as (tab & Ht & E). apply get_table_Ok in Ht. apply bind_Ok in E as ([] & Hc & E).
  apply assert_Ok, Z.eqb_eq in Hc. pose proof (kv_size_bound _ i o Hok Hi) as Hsz.
  apply bind_Ok in E as (db1 & Hpay & E). change (Z.of_nat (length (kv_value o)) + _) with (kv_size o) in Hpay.
  rewrite i64_small in Hpay by (unfold is_i64; lia).
  destruct (fun Hd => update_db_usage_effect cx _ _ _ _ Hok Hd Hpay) as (rl & -> & Hok1 & He1); [lia|].
  rewrite (change_count_Ok _ (kv_t_id o) (-1) tab) in E by done. cbn [mbind result_bind] in E.
  apply bind_Ok in E as (db' & Hrm & E). apply bind_Ok in E as (c & Hcr & E). injection E as <-.
  apply (drop_row_outcome (ss_db s) (set_table_limits (ss_db s) rl) (kv_t_id o) tab _ db' (kv_payer o) (kv_size o))
    in Hrm as (Hout & Ek & Ei); try done.
  - simpl in Ek, Ei. destruct (fun Hg => cache_remove_ok (kv_table (ss_db s)) (kv_table db') _ _ i _ Hkv Hit Hg Hcr)
      as (Hc' & _ & Hob).
    { intros j Hj. unfold kv_table. by rewrite Ek, lookup_delete_ne. }
    split_and!; [constructor; simpl; [apply Hout|apply Hout|done|]|done|by exists i].
    intros k. unfold ix_table. rewrite Ei. apply Hix.
  - apply (drop_kv_ok (set_table_limits (ss_db s) rl)); [done|done|done|]. change (total_rows (ss_db s) < 2 ^ 32). lia.
  - by apply (drop_kv_effect (set_table_limits (ss_db s) rl)).
  - pose proof (total_rows_kv_drop (ss_db s) (tb_tables (ss_db s)) i o Hi) as Ht'. unfold total_rows in *. simpl in *. lia.
Qed.

Lemma index_remove_outcome kind s it s' :
  session_ok s -> total_rows (ss_db s) < 2 ^ 32 - 1 -> index_remove cx kind s it = Ok s' ->
  session_ok s' /\ outcome cx (ss_db s) (ss_db s') /\
  exists i, object_to_iterator (index_cache s kind) !! i = Some it /\
    tb_indices (ss_db s') = delete (kind, i) (tb_indices (ss_db s)) /\
    object_to_iterator (index_cache s' kind) = delete i (object_to_iterator (index_cache s kind)).
Proof.
  intros Hs Hr E. pose proof Hs as [Hok Hne Hkv Hix]. unfold index_remove in E.
  apply bind_Ok in E as ([i o] & Hio & E). apply (ix_of_Ok kind s it i o Hs) in Hio as [Hit Hi].
  apply bind_Ok in E as (db1 & Hpay & E). pose proof (billable_sizes kind) as Hsz.
  destruct (fun Hd => update_db_usage_effect cx _ _ _ _ Hok Hd Hpay) as (rl & -> & Hok1 & He1); [lia|].
  apply bind_Ok in E as (tab & Ht & E). apply get_table_Ok in Ht. apply bind_Ok in E as ([] & Hc & E).
  apply assert_Ok, Z.eqb_eq in Hc.
  rewrite (change_count_Ok _ (ix_t_id o) (-1) tab) in E by done. cbn [mbind result_bind] in E.
  apply bind_Ok in E as (db' & Hrm & E). apply bind_Ok in E as (c & Hcr & E). injection E as <-.
  apply (drop_row_outcome (ss_db s) (set_table_limits (ss_db s) rl) (ix_t_id o) tab _ db' (ix_payer o)
    (billable_size_index_object kind)) in Hrm as (Hout & Ek & Ei); try done.
  - simpl in Ek, Ei. assert (forall k j, (k, j) <> (kind, i) -> ix_table db' k j = ix_table (ss_db s) k j) as Hsame.
    { intros k j Hj. unfold ix_table. by rewrite Ei, lookup_delete_ne. }
    destruct (fun Hg => cache_remove_ok (ix_table (ss_db s) kind) (ix_table db' kind) _ _ i _ (Hix kind) Hit Hg Hcr)
      as (Hc' & _ & Hob).
    { intros j Hj. apply Hsame. congruence. }
    split_and!; [constructor; simpl; [apply Hout|apply Hout| |]|done|].
    + unfold kv_table. by rewrite Ek.
    + intros k. rewrite index_cache_set. case_decide as Hk; [by subst|].
      apply (cache_ok_ext (ix_table (ss_db s) k)); [|apply Hix]. intros j _. symmetry. apply Hsame. congruence.
    + exists i. rewrite index_cache_set, decide_True by done. done.
  - apply (drop_ix_ok (set_table_limits (ss_db s) rl)); [done|done|done|]. change (total_rows (ss_db s) < 2 ^ 32). lia.
  - by apply (drop_ix_effect (set_table_limits (ss_db s) rl) (kind, i)).
  - pose proof (total_rows_ix_drop (ss_db s) (tb_tables (ss_db s)) (kind, i) o Hi) as Ht'.
    unfold total_rows in *. simpl in *. lia.
Qed.

End Operations.

(** ** Queries *)

(** The session after a query: the same rows, more iterators. *)
Record cache_grown (c c' : iterator_cache) : Prop := {
  cg_tables t ei : table_cache c !! t = Some ei -> table_cache c' !! t = Some ei;
  cg_objects i it : object_to_iterator c !! i = Some it -> object_to_iterator c' !! i = Some it
}.

Record grown (s s' : session) : Prop := {
  gr_ok : session_ok s';
  gr_db : ss_db s' = ss_db s;
  gr_kv : cache_grown (ss_keyval s) (ss_keyval s');
  gr_ix k : cache_grown (index_cache s k) (index_cache s' k)
}.

#[export] Instance cache_grown_preorder : PreOrder cache_grown.
Proof. split; [done|]. intros a b c [] []. constructor; auto. Qed.

Lemma grown_refl s : session_ok s -> grown s s.
Proof. done. Qed.
Lemma grown_trans s1 s2 s3 : grown s1 s2 -> grown s2 s3 -> grown s1 s3.
Proof.
  intros [_ E1 K1 X1] [Hok E2 K2 X2]. constructor; [done|congruence|by etrans|].
  intros k. etrans; [apply X1|apply X2].
Qed.

Lemma set_keyval_grown s c :
  session_ok s -> cache_ok (kv_table (ss_db s)) c -> cache_grown (ss_keyval s) c -> grown s (set_keyval s c).
Proof. intros [] Hc Hg. constructor; simpl; try done. Qed.

Lemma set_index_grown s k c :
  session_ok s -> cache_ok (ix_table (ss_db s) k) c -> cache_grown (index_cache s k) c -> grown s (set_index_cache s k c).
Proof.
  intros [] Hc Hg. constructor; simpl; try done.
  - constructor; simpl; try done. intros k'. rewrite index_cache_set. by case_decide; [subst|].
  - intros k'. rewrite index_cache_set. by case_decide; [subst|].
Qed.

Lemma cache_table_grown f c t c' ei :
  cache_ok f c -> cache_table c t = (c', ei) ->
  cache_ok f c' /\ cache_grown c c' /\ table_cache c' !! t = Some ei /\ ei < -1.
Proof.
  intros Hc E. destruct (cache_table_ok _ _ _ _ _ Hc E) as (Hok & Ht & Hei & Hu & _ & Ho).
  split_and!; try done. constructor; [|by rewrite Ho]. intros u e Hue. rewrite Hu; eauto.
Qed.

Lemma cache_add_grown f c i t c' it :
  cache_ok f c -> f i = Some t -> is_Some (table_cache c !! t) -> cache_add c i = (c', it) ->
  cache_ok f c' /\ cache_grown c c' /\ object_to_iterator c' !! i = Some it /\ 0 <= it.
Proof.
  intros Hc Hf Ht E. destruct (cache_add_ok _ _ _ _ _ _ Hc Hf Ht E) as (Hok & Hit & Ho & Htc & Hj).
  split_and!; try done. constructor; [by rewrite Htc|]. intros j e Hje. rewrite Hj; eauto.
Qed.

(** *** Rows with a primary key *)

(** [kv_answer s t itr s' it]: the query returns an iterator to row [itr], or the
    end iterator of table [t]. *)
Definition kv_answer (s : session) (t : Z) (itr : option (Z * key_value_object)) (it : Z) : Prop :=
  match itr with
  | Some (i, o) => object_to_iterator (ss_keyval s) !! i = Some it /\ tb_kvs (ss_db s) !! i = Some o /\ kv_t_id o = t
  | None => table_cache (ss_keyval s) !! t = Some it
  end.

Definition in_table (t : Z) (itr : option (Z * key_value_object)) : option (Z * key_value_object) :=
  match itr with Some (i, o) => if kv_t_id o =? t then Some (i, o) else None | None => None end.

Lemma add_iterator_grown s i o s' it :
  session_ok s -> tb_kvs (ss_db s) !! i = Some o -> is_Some (table_cache (ss_keyval s) !! kv_t_id o) ->
  add_iterator s i = (s', it) -> grown s s' /\ object_to_iterator (ss_keyval s') !! i = Some it /\ 0 <= it.
Proof.
  intros Hs Hi Ht E. unfold add_iterator in E. destruct (cache_add (ss_keyval s) i) as [c it'] eqn:Hc.
  injection E as <- <-. destruct (fun Hf => cache_add_grown (kv_table (ss_db s)) _ _ (kv_t_id o) _ _ (so_kv s Hs) Hf Ht Hc)
    as (Hok & Hg & Hit & Hnn); [by unfold kv_table; rewrite Hi|].
  split_and!; [by apply set_keyval_grown|done|done].
Qed.

Lemma row_or_end_grown s t ei itr s' it :
  session_ok s -> table_cache (ss_keyval s) !! t = Some ei ->
  (forall i o, itr = Some (i, o) -> tb_kvs (ss_db s) !! i = Some o) ->
  row_or_end s t ei itr = (s', it) -> grown s s' /\ kv_answer s' t (in_table t itr) it.
Proof.
  intros Hs Ht Hi E. unfold row_or_end in E. destruct itr as [[i o]|]; simpl in *.
  - destruct (Z.eqb_spec (kv_t_id o) t) as [Hto|]; [|by injection E as <- <-; split; [apply grown_refl|]].
    destruct (add_iterator_grown s i o s' it) as (Hg & Hit & _); [done|by apply Hi|rewrite Hto; eauto|done|].
    split; [done|]. simpl. rewrite (gr_db _ _ Hg). auto.
  - injection E as <- <-. split; [by apply grown_refl|done].
Qed.

Lemma with_table_grown s code scope table f s' it :
  session_ok s -> with_table s code scope table f = (s', it) ->
  (find_table (ss_db s) code scope table = None /\ s' = s /\ it = -1) \/
  exists t s1 ei, find_table (ss_db s) code scope table = Some t /\ grown s s1 /\
    table_cache (ss_keyval s1) !! t = Some ei /\ f s1 t ei = (s', it).
Proof.
  intros Hs E. unfold with_table in E. destruct (find_table (ss_db s) code scope table) as [t|] eqn:Hf.
  2: { injection E as <- <-. by left. }
  right. destruct (cache_table (ss_keyval s) t) as [c ei] eqn:Hc.
  destruct (cache_table_grown _ _ _ _ _ (so_kv s Hs) Hc) as (Hok & Hg & Ht & _).
  exists t, (set_keyval s c), ei. split_and!; [done|by apply set_keyval_grown|done|done].
Qed.

Lemma kv_lt_asym a b : kv_lt a b = true -> kv_lt b a = false.
Proof. apply pair_lt_asym. Qed.
Lemma kv_lt_neg_trans a b c : kv_lt a b = false -> kv_lt b c = false -> kv_lt a c = false.
Proof. apply pair_lt_neg_trans. Qed.

Lemma elem_of_kv_rows db i o : (i, o) ∈ kv_rows db <-> tb_kvs db !! i = Some o.
Proof. apply elem_of_map_to_list. Qed.

Lemma kv_key_eq o t : kv_t_id o = t -> kv_key o = (t, kv_primary_key o).
Proof. by intros <-. Qed.

(** The first row of table [t] among those above a bound, given that rows before
    table [t] are below it. *)
Lemma first_in_table db t P :
  (forall k, P k = true -> t <= k.1) ->
  match in_table t (first_where kv_lt (fun r => P (kv_key r.2)) (kv_rows db)) with
  | Some (j, o) => tb_kvs db !! j = Some o /\ kv_t_id o = t /\ P (kv_key o) = true /\
      forall i p, tb_kvs db !! i = Some p -> kv_t_id p = t -> P (kv_key p) = true -> kv_primary_key o <= kv_primary_key p
  | None => forall i p, tb_kvs db !! i = Some p -> kv_t_id p = t -> P (kv_key p) = false
  end.
Proof.
  intros HP. destruct (first_where _ _ _) as [[j o]|] eqn:E; simpl.
  - apply (first_where_Some _ kv_lt_asym kv_lt_neg_trans) in E as (Hj & Hp & Hmin). apply elem_of_kv_rows in Hj.
    assert (forall i p, tb_kvs db !! i = Some p -> P (kv_key p) = true -> pair_lt (kv_key p) (kv_key o) = false) as Hm.
    { intros i p Hi Hq. exact (Hmin (i, p) (proj2 (elem_of_kv_rows _ _ _) Hi) Hq). }
    clear Hmin. simpl in Hp. destruct (Z.eqb_spec (kv_t_id o) t) as [Ht|Ht].
    + split_and!; [done|done|done|]. intros i p Hi Hpt HPp. specialize (Hm i p Hi HPp).
      unfold pair_lt, kv_key in Hm. simpl in Hm. lia.
    + intros i p Hi Hpt. destruct (P (kv_key p)) eqn:HPp; [|done]. specialize (Hm i p Hi HPp).
      apply HP in Hp. unfold pair_lt, kv_key in *. simpl in *. lia.
  - intros i p Hi _. by apply (first_where_None _ _ _ E (i, p)), elem_of_kv_rows.
Qed.

(** The last row of table [t] among those below a bound. *)
Lemma last_in_table db t P :
  (forall k, P k = true -> k.1 <= t) ->
  match in_table t (last_where kv_lt (fun r => P (kv_key r.2)) (kv_rows db)) with
  | Some (j, o) => tb_kvs db !! j = Some o /\ kv_t_id o = t /\ P (kv_key o) = true /\
      forall i p, tb_kvs db !! i = Some p -> kv_t_id p = t -> P (kv_key p) = true -> kv_primary_key p <= kv_primary_key o
  | None => forall i p, tb_kvs db !! i = Some p -> kv_t_id p = t -> P (kv_key p) = false
  end.
Proof.
  intros HP. unfold last_where. destruct (first_where _ _ _) as [[j o]|] eqn:E; simpl.
  - apply first_where_Some in E as (Hj & Hp & Hmin); [|intros x y; apply kv_lt_asym|].
    2: { intros x y z Hxy Hyz. by apply (kv_lt_neg_trans z y x). }
    apply elem_of_kv_rows in Hj.
    assert (forall i p, tb_kvs db !! i = Some p -> P (kv_key p) = true -> pair_lt (kv_key o) (kv_key p) = false) as Hm.
    { intros i p Hi Hq. exact (Hmin (i, p) (proj2 (elem_of_kv_rows _ _ _) Hi) Hq). }
    clear Hmin. simpl in Hp. destruct (Z.eqb_spec (kv_t_id o) t) as [Ht|Ht].
    + split_and!; [done|done|done|]. intros i p Hi Hpt HPp. specialize (Hm i p Hi HPp).
      unfold pair_lt, kv_key in Hm. simpl in Hm. lia.
    + intros i p Hi Hpt. destruct (P (kv_key p)) eqn:HPp; [|done]. specialize (Hm i p Hi HPp).
      apply HP in Hp. unfold pair_lt, kv_key in *. simpl in *. lia.
  - intros i p Hi _. by apply (first_where_None _ _ _ E (i, p)), elem_of_kv_rows.
Qed.

(** [least_row db t P itr]: [itr] is the row of table [t] with the least primary
    key that has property [P], if there is one; [greatest_row] likewise. *)
Definition least_row (db : table_db) (t : Z) (P : Z -> Prop) (itr : option (Z * key_value_object)) : Prop :=
  match itr with
  | Some (j, o) => tb_kvs db !! j = Some o /\ kv_t_id o = t /\ P (kv_primary_key o) /\
      forall i p, tb_kvs db !! i = Some p -> kv_t_id p = t -> P (kv_primary_key p) -> kv_primary_key o <= kv_primary_key p
  | None => forall i p, tb_kvs db !! i = Some p -> kv_t_id p = t -> ~ P (kv_primary_key p)
  end.
Definition greatest_row (db : table_db) (t : Z) (P : Z -> Prop) (itr : option (Z * key_value_object)) : Prop :=
  match itr with
  | Some (j, o) => tb_kvs db !! j = Some o /\ kv_t_id o = t /\ P (kv_primary_key o) /\
      forall i p, tb_kvs db !! i = Some p -> kv_t_id p = t -> P (kv_primary_key p) -> kv_primary_key p <= kv_primary_key o
  | None => forall i p, tb_kvs db !! i = Some p -> kv_t_id p = t -> ~ P (kv_primary_key p)
  end.

Lemma first_least db t P (Q : Z -> Prop) :
  (forall k, P k = true -> t <= k.1) -> (forall id, P (t, id) = true <-> Q id) ->
  least_row db t Q (in_table t (first_where kv_lt (fun r => P (kv_key r.2)) (kv_rows db))).
Proof.
  intros HP HQ. pose proof (first_in_table db t P HP) as Hf. unfold least_row.
  destruct (in_table _ _) as [[j o]|].
  - destruct Hf as (Hj & Ht & Hp & Hmin). rewrite (kv_key_eq o t Ht) in Hp. split_and!; [done|done|by apply HQ|].
    intros i p Hi Hpt Hq. apply (Hmin i p Hi Hpt). rewrite (kv_key_eq p t Hpt). by apply HQ.
  - intros i p Hi Hpt Hq. specialize (Hf i p Hi Hpt). rewrite (kv_key_eq p t Hpt) in Hf. apply HQ in Hq. congruence.
Qed.

Lemma last_greatest db t P (Q : Z -> Prop) :
  (forall k, P k = true -> k.1 <= t) -> (forall id, P (t, id) = true <-> Q id) ->
  greatest_row db t Q (in_table t (last_where kv_lt (fun r => P (kv_key r.2)) (kv_rows db))).
Proof.
  intros HP HQ. pose proof (last_in_table db t P HP) as Hf. unfold greatest_row.
  destruct (in_table _ _) as [[j o]|].
  - destruct Hf as (Hj & Ht & Hp & Hmin). rewrite (kv_key_eq o t Ht) in Hp. split_and!; [done|done|by apply HQ|].
    intros i p Hi Hpt Hq. apply (Hmin i p Hi Hpt). rewrite (kv_key_eq p t Hpt). by apply HQ.
  - intros i p Hi Hpt Hq. specialize (Hf i p Hi Hpt). rewrite (kv_key_eq p t Hpt) in Hf. apply HQ in Hq. congruence.
Qed.

(** What a query by key answers: [-1] when there is no such table. *)
Definition query_ok (s : session) (code scope table : Z) (R : Z -> option (Z * key_value_object) -> Prop)
    (s' : session) (it : Z) : Prop :=
  match find_table (ss_db s) code scope table with
  | None => s' = s /\ it = -1
  | Some t => grown s s' /\ exists itr, kv_answer s' t itr it /\ R t itr
  end.

Lemma first_where_row db P i o : first_where kv_lt P (kv_rows db) = Some (i, o) -> tb_kvs db !! i = Some o.
Proof.
  intros E. apply (first_where_Some _ kv_lt_asym kv_lt_neg_trans) in E as (Hj & _). by apply elem_of_kv_rows.
Qed.
Lemma last_where_row db P i o : last_where kv_lt P (kv_rows db) = Some (i, o) -> tb_kvs db !! i = Some o.
Proof.
  intros E. apply first_where_Some in E as (Hj & _); [by apply elem_of_kv_rows|intros x y; apply kv_lt_asym|].
  intros x y z Hxy Hyz. by apply (kv_lt_neg_trans z y x).
Qed.

Lemma bound_query_ok s code scope table P (Q : Z -> Z -> Prop) s' it :
  session_ok s -> (forall t k, P t k = true -> t <= k.1) -> (forall t id, P t (t, id) = true <-> Q t id) ->
  with_table s code scope table (fun s t ei =>
    row_or_end s t ei (first_where kv_lt (fun r => P t (kv_key r.2)) (kv_rows (ss_db s)))) = (s', it) ->
  query_ok s code scope table (fun t => least_row (ss_db s) t (Q t)) s' it.
Proof.
  intros Hs HP HQ E. unfold query_ok.
  apply with_table_grown in E as [(Hf & -> & ->)|(t & s1 & ei & Hf & Hg & Ht & E)]; [by rewrite Hf| |done].
  rewrite Hf. apply row_or_end_grown in E as (Hg' & Ha); [|apply Hg|done|].
  - split; [by eapply grown_trans|]. eexists. split; [exact Ha|]. rewrite (gr_db _ _ Hg). apply (first_least _ t (P t) (Q t) (HP t) (HQ t)).
  - intros i o. apply first_where_row.
Qed.

Lemma db_lowerbound_query s code scope table id s' it :
  session_ok s -> db_lowerbound_i64 s code scope table id = (s', it) ->
  query_ok s code scope table (fun t => least_row (ss_db s) t (fun k => id <= k)) s' it.
Proof.
  intros Hs E. apply (bound_query_ok s code scope table (fun t k => negb (pair_lt k (t, id))) (fun _ k => id <= k)) in E; try done.
  - intros t k. unfold pair_lt. simpl. lia.
  - intros t k. unfold pair_lt. simpl. lia.
Qed.

Lemma db_upperbound_query s code scope table id s' it :
  session_ok s -> db_upperbound_i64 s code scope table id = (s', it) ->
  query_ok s code scope table (fun t => least_row (ss_db s) t (fun k => id < k)) s' it.
Proof.
  intros Hs E. apply (bound_query_ok s code scope table (fun t k => pair_lt (t, id) k) (fun _ k => id < k)) in E; try done.
  - intros t k. unfold pair_lt. simpl. lia.
  - intros t k. unfold pair_lt. simpl. lia.
Qed.

Lemma db_find_query s code scope table id s' it :
  session_ok s -> db_find_i64 s code scope table id = (s', it) ->
  query_ok s code scope table (fun t => least_row (ss_db s) t (fun k => k = id)) s' it.
Proof.
  intros Hs E. unfold query_ok. unfold db_find_i64 in E.
  apply with_table_grown in E as [(Hf & -> & ->)|(t & s1 & ei & Hf & Hg & Ht & E)]; [by rewrite Hf| |done].
  rewrite Hf, <- (gr_db _ _ Hg). destruct (find_kv (ss_db s1) t id) as [[i o]|] eqn:Hk.
  - apply find_kv_Some in Hk as [Hi [= Hto Hid]]. apply (add_iterator_grown s1 i o) in E as (Hg' & Hit & _);
      [|apply Hg|done|rewrite Hto; eauto]. split; [by eapply grown_trans|]. exists (Some (i, o)). simpl.
    rewrite (gr_db _ _ Hg'). split_and!; try done. intros j p _ _ ->. lia.
  - injection E as <- <-. split; [done|]. exists None. split; [done|]. intros i p Hi Hpt Hpk.
    apply (find_kv_None _ _ _ i p Hk Hi). rewrite <- Hpk, <- Hpt. done.
Qed.

Lemma db_end_query s code scope table s' it :
  session_ok s -> db_end_i64 s code scope table = (s', it) ->
  query_ok s code scope table (fun t itr => itr = None) s' it.
Proof.
  intros Hs E. unfold query_ok, db_end_i64 in *.
  apply with_table_grown in E as [(Hf & -> & ->)|(t & s1 & ei & Hf & Hg & Ht & E)]; [by rewrite Hf| |done].
  rewrite Hf. injection E as <- <-. split; [done|]. by exists None.
Qed.

(** *** Moving an iterator *)

Lemma kv_cached s i o it :
  session_ok s -> object_to_iterator (ss_keyval s) !! i = Some it -> tb_kvs (ss_db s) !! i = Some o ->
  0 <= it /\ exists ei, table_cache (ss_keyval s) !! kv_t_id o = Some ei /\ ei < -1.
Proof.
  intros Hs Hi Ho. split; [by apply (co_nonneg _ _ (so_kv s Hs) i)|].
  destruct (co_live _ _ (so_kv s Hs) i it Hi) as (t & Ht & ei & He). unfold kv_table in Ht. rewrite Ho in Ht.
  injection Ht as <-. exists ei. split; [done|]. by apply (co_ends _ _ (so_kv s Hs) (kv_t_id o)).
Qed.

Lemma db_next_i64_moves s it i o :
  session_ok s -> kv_of s it = Ok (i, o) ->
  exists s' it' itr, db_next_i64 s it = Ok (s', it', (fun r => kv_primary_key r.2) <$> itr) /\ grown s s' /\
    kv_answer s' (kv_t_id o) itr it' /\ least_row (ss_db s) (kv_t_id o) (fun k => kv_primary_key o < k) itr.
Proof.
  intros Hs Hio. pose proof Hio as [Hit Hi]%(kv_of_Ok s it i o Hs).
  destruct (kv_cached s i o it Hs Hit Hi) as [Hnn (ei & Hei & _)]. unfold db_next_i64.
  destruct (Z.ltb_spec it (-1)); [lia|]. rewrite Hio. cbn [mbind result_bind].
  pose proof (first_least (ss_db s) (kv_t_id o) (pair_lt (kv_key o)) (fun k => kv_primary_key o < k)) as HL.
  specialize (HL ltac:(intros k; unfold pair_lt; simpl; lia) ltac:(intros k; unfold pair_lt; simpl; lia)).
  destruct (first_where _ _ _) as [[j p]|] eqn:Hfw; cbn [in_table] in HL.
  - destruct (Z.eqb_spec (kv_t_id p) (kv_t_id o)) as [Hpt|Hpt].
    + destruct (add_iterator s j) as [s' it'] eqn:Ha. apply (add_iterator_grown s j p) in Ha as (Hg & Hj & _);
        [|done|by eapply first_where_row|rewrite Hpt; eauto].
      exists s', it', (Some (j, p)). split_and!; [done|done| |done]. simpl. rewrite (gr_db _ _ Hg).
      split_and!; [done|by eapply first_where_row|done].
    + exists s, ei, None. unfold get_end_iterator_by_table_id. rewrite Hei. split_and!; try done.
  - exists s, ei, None. unfold get_end_iterator_by_table_id. rewrite Hei. split_and!; try done.
Qed.
