(* ===== verification/ContractTablesRuns.v ===== *)
(** * Walks and runs over contract tables

    Moving an iterator forth and back, the loop over a table, and every sequence
    of operations of the database interface. *)

From Stdlib Require Import ZArith Lia Bool.
From stdpp Require Import base numbers gmap relations sorting sets list.
From S2P Require Import Prelude ResourceLimits ResourceLimitsProofs BlockHeader NativeActions ContractTables.
From S2P Require Import ContractTablesProofs ContractTablesOps.

Open Scope Z_scope.

(** ** Moving back *)

Definition kv_before (s : session) (itr : option (Z * key_value_object)) (it : Z) : Prop :=
  match itr with
  | Some (i, o) => object_to_iterator (ss_keyval s) !! i = Some it /\ tb_kvs (ss_db s) !! i = Some o
  | None => it = -1
  end.

Lemma row_before_grown s t itr s' it key :
  session_ok s -> is_Some (table_cache (ss_keyval s) !! t) ->
  (forall i o, itr = Some (i, o) -> tb_kvs (ss_db s) !! i = Some o) ->
  row_before s t itr = (s', it, key) ->
  grown s s' /\ kv_before s' (in_table t itr) it /\ key = (fun r => kv_primary_key r.2) <$> in_table t itr.
Proof.
  intros Hs Ht Hi E. unfold row_before in E. destruct itr as [[j o]|]; simpl in *; [|by injection E as <- <- <-].
  destruct (Z.eqb_spec (kv_t_id o) t) as [Hto|]; [|by injection E as <- <- <-].
  destruct (add_iterator s j) as [s1 it1] eqn:Ha. injection E as <- <- <-.
  apply (add_iterator_grown s j o) in Ha as (Hg & Hj & _); [|done|by apply Hi|by rewrite Hto].
  split_and!; [done| |done]. simpl. rewrite (gr_db _ _ Hg). auto.
Qed.

Lemma db_previous_row s it i o :
  session_ok s -> kv_of s it = Ok (i, o) ->
  exists s' it' itr, db_previous_i64 s it = Ok (s', it', (fun r => kv_primary_key r.2) <$> itr) /\ grown s s' /\
    kv_before s' itr it' /\ greatest_row (ss_db s) (kv_t_id o) (fun k => k < kv_primary_key o) itr.
Proof.
  intros Hs Hio. pose proof Hio as [Hit Hi]%(kv_of_Ok s it i o Hs).
  destruct (kv_cached s i o it Hs Hit Hi) as [Hnn (ei & Hei & _)]. unfold db_previous_i64.
  destruct (Z.ltb_spec it (-1)); [lia|]. rewrite Hio. cbn [mbind result_bind].
  destruct (row_before _ _ _) as [[s' it'] key] eqn:E. apply row_before_grown in E as (Hg & Hb & ->);
    [|done|eauto|intros j p; apply last_where_row].
  exists s', it'. eexists. split_and!; [done|done|exact Hb|].
  apply (last_greatest (ss_db s) (kv_t_id o) (fun k => pair_lt k (kv_key o)) (fun k => k < kv_primary_key o)).
  - intros k. unfold pair_lt. simpl. lia.
  - intros k. unfold pair_lt. simpl. lia.
Qed.

(** From the end iterator of a live table to its last row. *)
Lemma db_previous_end s t it :
  session_ok s -> table_cache (ss_keyval s) !! t = Some it -> is_Some (tb_tables (ss_db s) !! t) ->
  exists s' it' itr, db_previous_i64 s it = Ok (s', it', (fun r => kv_primary_key r.2) <$> itr) /\ grown s s' /\
    kv_before s' itr it' /\ greatest_row (ss_db s) t (fun _ => True) itr.
Proof.
  intros Hs Ht [tab Htab]. destruct (co_ends _ _ (so_kv s Hs) t it Ht) as [Hlt Hend]. unfold db_previous_i64.
  destruct (Z.ltb_spec it (-1)); [|lia]. unfold find_table_by_end_iterator. rewrite (proj2 (Z.ltb_lt it (-1)) Hlt), Hend.
  cbn [SNAX_ASSERT of_option mbind mret result_bind result_ret]. rewrite Htab. cbn [of_option mbind result_bind].
  destruct (row_before _ _ _) as [[s' it'] key] eqn:E. apply row_before_grown in E as (Hg & Hb & ->);
    [|done|eauto|intros j p; apply last_where_row].
  exists s', it'. eexists. split_and!; [done|done|exact Hb|].
  apply (last_greatest (ss_db s) t (fun k => k.1 <=? t) (fun _ => True)).
  - intros k. lia.
  - intros k. simpl. rewrite Z.leb_refl. done.
Qed.

(** ** The loop over a table *)

(** [for( itr = lower_bound(id); itr >= 0; itr = db_next_i64(itr) )], the primary
    keys it visits. *)
Fixpoint walk_keys (fuel : nat) (s : session) (it : Z) : result (session * list Z) :=
  match fuel with
  | O => Err out_of_fuel
  | S n =>
      if it <? 0 then mret (s, [])
      else
        '(_, o) ← kv_of s it;
        '(s, it, _) ← db_next_i64 s it;
        '(s, ks) ← walk_keys n s it;
        mret (s, kv_primary_key o :: ks)
  end.

Definition from_key (db : table_db) (t b : Z) : list (Z * key_value_object) :=
  filter (fun r => kv_t_id r.2 = t /\ b <= kv_primary_key r.2) (kv_rows db).

Definition has_key (db : table_db) (t k : Z) : Prop := exists i o, tb_kvs db !! i = Some o /\ kv_key o = (t, k).

Lemma kv_answer_end s t it : session_ok s -> kv_answer s t None it -> it < -1.
Proof. intros Hs Ht. by apply (co_ends _ _ (so_kv s Hs) t). Qed.

Lemma from_key_step db t b i o :
  tb_kvs db !! i = Some o -> kv_t_id o = t -> b <= kv_primary_key o ->
  (length (from_key db t (kv_primary_key o + 1)) < length (from_key db t b))%nat.
Proof.
  intros Hi Ht Hb. apply (length_filter_lt _ _ _ (i, o)); simpl.
  - intros r _ [? ?]. split; [done|lia].
  - by apply elem_of_kv_rows.
  - done.
  - lia.
Qed.

(** The walk from [it] on is over, with the keys from [b] on. *)
Definition walked (s : session) (t b : Z) (r : result (session * list Z)) : Prop :=
  exists s' ks, r = Ok (s', ks) /\ grown s s' /\ StronglySorted Z.lt ks /\
    forall k, k ∈ ks <-> b <= k /\ has_key (ss_db s) t k.

Lemma walk_end n s t b it :
  session_ok s -> kv_answer s t None it -> least_row (ss_db s) t (fun k => b <= k) None ->
  walked s t b (walk_keys (S n) s it).
Proof.
  intros Hs Ha Hl. pose proof (kv_answer_end s t it Hs Ha). simpl. destruct (Z.ltb_spec it 0); [|lia].
  exists s, []. split_and!; [done|by apply grown_refl|constructor|]. intros k. rewrite elem_of_nil. split; [done|].
  intros [Hk (j & p & Hj & Hp)]. injection Hp as Hpt <-. exact (Hl j p Hj Hpt Hk).
Qed.

Lemma walk_keys_S n s it :
  walk_keys (S n) s it =
  if it <? 0 then mret (s, [])
  else '(_, o) ← kv_of s it; '(s, it, _) ← db_next_i64 s it; '(s, ks) ← walk_keys n s it; mret (s, kv_primary_key o :: ks).
Proof. done. Qed.

Lemma least_row_above db t b itr :
  least_row db t (fun k => b < k) itr -> least_row db t (fun k => b + 1 <= k) itr.
Proof.
  unfold least_row. destruct itr as [[j p]|].
  - intros (? & ? & ? & Hm). split_and!; [done|done|lia|]. intros j' p' ? ? ?. apply (Hm j' p'); [done|done|lia].
  - intros Hl j p Hj Hp Hle. apply (Hl j p Hj Hp). lia.
Qed.

Lemma walk_from n : forall s t b itr it,
  session_ok s -> kv_answer s t itr it -> least_row (ss_db s) t (fun k => b <= k) itr ->
  (length (from_key (ss_db s) t b) <= n)%nat -> walked s t b (walk_keys (S n) s it).
Proof.
  induction n as [|n IH]; intros s t b itr it Hs Ha Hl Hn; (destruct itr as [[i o]|]; [|by apply walk_end]).
  { destruct Hl as (Hi & Ht & Hb & _). pose proof (from_key_step _ t b i o Hi Ht Hb). lia. }
  destruct Ha as (Hit & Hi & Ht). destruct Hl as (_ & _ & Hb & Hmin).
  destruct (kv_cached s i o it Hs Hit Hi) as [Hnn _]. rewrite walk_keys_S. destruct (Z.ltb_spec it 0); [lia|].
  assert (kv_of s it = Ok (i, o)) as Hof by (by apply kv_of_Ok).
  destruct (db_next_i64_moves s it i o Hs Hof) as (s1 & it1 & itr1 & Hnx & Hg & Ha1 & Hl1).
  rewrite Hof, Hnx. cbn [mbind result_bind]. rewrite Ht in *. pose proof (from_key_step _ t b i o Hi Ht Hb).
  destruct (IH s1 t (kv_primary_key o + 1) itr1 it1) as (s' & ks & Hw & Hg' & Hsort & Hin); rewrite ?(gr_db _ _ Hg) in *.
  { apply Hg. } { done. } { by apply least_row_above. } { lia. }
  exists s', (kv_primary_key o :: ks). rewrite Hw. split_and!; [done|by eapply grown_trans| |].
  - constructor; [done|]. apply Forall_forall. intros k Hk%Hin. lia.
  - intros k. rewrite elem_of_cons, Hin. split.
    + intros [->|[Hk Hh]]; [|split; [lia|done]]. split; [done|]. exists i, o. by rewrite (kv_key_eq o t Ht).
    + intros [Hk (j & p & Hj & Hp)]. injection Hp as Hpt <-. pose proof (Hmin j p Hj Hpt Hk).
      destruct (decide (kv_primary_key p = kv_primary_key o)); [by left|right]. split; [lia|]. exists j, p.
      by rewrite (kv_key_eq p t Hpt).
Qed.

(** Walking a table from [lower_bound( id )] by [db_next_i64] ends and visits
    exactly the keys of the table from [id] on, in increasing order. *)
Theorem table_walk s code scope table t id s1 it :
  session_ok s -> find_table (ss_db s) code scope table = Some t ->
  db_lowerbound_i64 s code scope table id = (s1, it) ->
  exists s' ks, walk_keys (S (size (tb_kvs (ss_db s)))) s1 it = Ok (s', ks) /\ session_ok s' /\ ss_db s' = ss_db s /\
    StronglySorted Z.lt ks /\ forall k, k ∈ ks <-> id <= k /\ has_key (ss_db s) t k.
Proof.
  intros Hs Hf E. apply db_lowerbound_query in E; [|done]. unfold query_ok in E. rewrite Hf in E.
  destruct E as (Hg & itr & Ha & Hl). rewrite <- (gr_db _ _ Hg) in *.
  destruct (walk_from (size (tb_kvs (ss_db s1))) s1 t id itr it) as (s' & ks & Hw & Hg' & Hsort & Hin); [apply Hg|done|done| |].
  - unfold from_key, kv_rows. etrans; [apply length_filter|]. by rewrite length_map_to_list.
  - exists s', ks. rewrite (gr_db _ _ Hg'). split_and!; try done. apply Hg'.
Qed.

(** [db_previous_i64] undoes [db_next_i64]: from the row after [it], or from
    the end of the table, it comes back to [it]. *)
Theorem next_previous s it i o s1 it1 key :
  session_ok s -> kv_of s it = Ok (i, o) -> db_next_i64 s it = Ok (s1, it1, key) ->
  exists s2, db_previous_i64 s1 it1 = Ok (s2, it, Some (kv_primary_key o)) /\ session_ok s2.
Proof.
  intros Hs Hio E. pose proof Hio as [Hit Hi]%(kv_of_Ok s it i o Hs).
  destruct (db_next_i64_moves s it i o Hs Hio) as (s' & it' & itr & E' & Hg & Ha & Hl). rewrite E in E'.
  injection E' as <- <- ->. pose proof (gr_db _ _ Hg) as Hdb.
  assert (exists Q : Z -> Prop, Q (kv_primary_key o) /\ (forall k, Q k -> has_key (ss_db s) (kv_t_id o) k -> k <= kv_primary_key o) /\
    exists s2 it2 itr2, db_previous_i64 s1 it1 = Ok (s2, it2, (fun r => kv_primary_key r.2) <$> itr2) /\ grown s1 s2 /\
      kv_before s2 itr2 it2 /\ greatest_row (ss_db s) (kv_t_id o) Q itr2) as (Q & HQo & HQ & s2 & it2 & itr2 & E2 & Hg2 & Hb & Hgr).
  { destruct itr as [[j p]|].
    - destruct Ha as (Hj & Hp & Hpt), Hl as (_ & _ & Hlt & Hmin). exists (fun k => k < kv_primary_key p). split_and!; [done| |].
      + intros k Hk (j' & p' & Hj' & [= Hpt' <-]). destruct (decide (kv_primary_key o < kv_primary_key p')) as [Hx|]; [|lia].
        pose proof (Hmin j' p' Hj' Hpt' Hx). lia.
      + rewrite <- Hdb, <- Hpt. apply (db_previous_row s1 it1 j p); [apply Hg|]. apply kv_of_Ok; [apply Hg|done].
    - exists (fun _ => True). split_and!; [done| |].
      + intros k _ (j' & p' & Hj' & [= Hpt' <-]). specialize (Hl j' p' Hj' Hpt'). cbv beta in Hl. lia.
      + rewrite <- Hdb. apply db_previous_end; [apply Hg|done|]. rewrite Hdb. by apply (dk_kv_table _ (so_db s Hs) i). }
  destruct itr2 as [[j q]|]; simpl in Hgr, Hb; [|by destruct (Hgr i o)].
  destruct Hgr as (Hj & Hqt & HQq & Hmax). pose proof (Hmax i o Hi eq_refl HQo).
  assert (kv_primary_key q <= kv_primary_key o) by (apply HQ; [done|]; exists j, q; by rewrite (kv_key_eq q _ Hqt)).
  assert (kv_primary_key q = kv_primary_key o) as Hk by lia.
  assert (j = i) as -> by (apply (dk_kv_key _ (so_db s Hs) j i q o Hj Hi); unfold kv_key; congruence).
  destruct Hb as [Hb _]. exists s2. rewrite E2. simpl. split; [|apply Hg2]. rewrite Hk. repeat f_equal.
  apply (cg_objects _ _ (gr_kv _ _ Hg)), (cg_objects _ _ (gr_kv _ _ Hg2)) in Hit. congruence.
Qed.

(** ** Queries of secondary indices *)

Section Secondary.
Context `{SoftFloat} (kind : index_kind).

Lemma ix_row_or_grown s t otherwise itr s' it r :
  session_ok s -> is_Some (table_cache (index_cache s kind) !! t) ->
  (forall i o, itr = Some (i, o) -> (i, o) ∈ ix_rows kind (ss_db s)) ->
  ix_row_or kind s t otherwise itr = (s', it, r) -> grown s s'.
Proof.
  intros Hs Ht Hi E. unfold ix_row_or in E. destruct itr as [[j o]|]; [|by injection E as <- _ _].
  destruct (Z.eqb_spec (ix_t_id o) t) as [Hto|]; [|by injection E as <- _ _].
  specialize (Hi j o eq_refl). apply elem_of_ix_rows in Hi.
  unfold add_ix_iterator in E. destruct (cache_add (index_cache s kind) j) as [c it'] eqn:Hc. injection E as <- _ _.
  destruct (fun Hf => cache_add_grown (ix_table (ss_db s) kind) _ _ t _ _ (so_ix s Hs kind) Hf Ht Hc) as (Hok & Hg & _).
  - unfold ix_table. by rewrite Hi, <- Hto.
  - by apply set_index_grown.
Qed.

Lemma with_ix_table_grown s code scope table f s' it r :
  session_ok s -> with_ix_table kind s code scope table f = (s', it, r) ->
  (forall s1 t ei, session_ok s1 -> is_Some (table_cache (index_cache s1 kind) !! t) -> f s1 t ei = (s', it, r) -> grown s1 s') ->
  grown s s'.
Proof.
  intros Hs E Hf. unfold with_ix_table in E. destruct (find_table (ss_db s) code scope table) as [t|].
  2: { by injection E as <- _ _. }
  destruct (cache_table (index_cache s kind) t) as [c ei] eqn:Hc.
  destruct (cache_table_grown _ _ _ _ _ (so_ix s Hs kind) Hc) as (Hok & Hg & Ht & _).
  pose proof (set_index_grown s kind c Hs Hok Hg) as Hg1. eapply grown_trans; [exact Hg1|].
  apply (Hf _ t ei); [apply Hg1| |done]. rewrite index_cache_set, decide_True by done. eauto.
Qed.

Lemma ix_cached s it i o :
  session_ok s -> ix_of kind s it = Ok (i, o) -> is_Some (table_cache (index_cache s kind) !! ix_t_id o).
Proof.
  intros Hs [Hit Hi]%(ix_of_Ok kind s it i o Hs). destruct (co_live _ _ (so_ix s Hs kind) i it Hit) as (t & Ht & He).
  unfold ix_table in Ht. rewrite Hi in Ht. by injection Ht as <-.
Qed.

Lemma index_next_grown lt s it s' it' r :
  session_ok s -> index_next kind lt s it = Ok (s', it', r) -> grown s s'.
Proof.
  intros Hs E. unfold index_next in E. destruct (it <? -1); [by injection E as <- _ _|].
  apply bind_Ok in E as ([i o] & Hio & E). pose proof (ix_cached s it i o Hs Hio) as Ht. cbv zeta in E.
  destruct (match _ with Some _ => _ | None => _ end).
  - apply bind_Ok in E as (ei & _ & E). by injection E as <- _ _.
  - assert (ix_row_or kind s (ix_t_id o) (-1) (first_where lt (fun r => lt (i, o) r) (ix_rows kind (ss_db s))) = (s', it', r))
      as E' by (by injection E). eapply ix_row_or_grown; [done|exact Ht| |exact E']. intros j p. apply first_where_elem.
Qed.

Lemma index_previous_grown lt s it s' it' r :
  session_ok s -> index_previous kind lt s it = Ok (s', it', r) -> grown s s'.
Proof.
  intros Hs E. unfold index_previous in E. destruct (Z.ltb_spec it (-1)).
  - apply bind_Ok in E as (tab & Hf & E). apply bind_Ok in E as (t & Ht & E). apply of_option_Ok in Ht as ->.
    apply bind_Ok in E as (tb & _ & E). apply bind_Ok in Hf as ([] & _ & Hf). injection Hf as Hf.
    apply (co_tables _ _ (so_ix s Hs kind)) in Hf.
    assert (ix_row_or kind s t (-1) (last_where lt (fun r => ix_t_id r.2 <=? t) (ix_rows kind (ss_db s))) = (s', it', r))
      as E' by (by injection E). eapply ix_row_or_grown; [done| | |exact E']; [eauto|]. intros j p. apply first_where_elem.
  - apply bind_Ok in E as ([i o] & Hio & E). pose proof (ix_cached s it i o Hs Hio) as Ht.
    assert (ix_row_or kind s (ix_t_id o) (-1) (last_where lt (fun r => lt r (i, o)) (ix_rows kind (ss_db s))) = (s', it', r))
      as E' by (by injection E). eapply ix_row_or_grown; [done|exact Ht| |exact E']. intros j p. apply first_where_elem.
Qed.

End Secondary.

(** ** Any operation *)

Inductive ix_query : Type :=
| q_find_secondary (code scope table secondary : Z)
| q_lowerbound_secondary (code scope table secondary : Z)
| q_upperbound_secondary (code scope table secondary : Z)
| q_end_secondary (code scope table : Z)
| q_find_primary (code scope table primary : Z)
| q_lowerbound_primary (code scope table primary : Z)
| q_upperbound_primary (code scope table primary : Z).

Inductive table_op : Type :=
| op_store (scope table : Z) (payer : account_name) (id : Z) (buffer : list Z)
| op_update (iterator : Z) (payer : account_name) (buffer : list Z)
| op_remove (iterator : Z)
| op_find (code scope table id : Z)
| op_lowerbound (code scope table id : Z)
| op_upperbound (code scope table id : Z)
| op_end (code scope table : Z)
| op_next (iterator : Z)
| op_previous (iterator : Z)
| op_ix_store (kind : index_kind) (scope table : Z) (payer : account_name) (id value : Z)
| op_ix_update (kind : index_kind) (iterator : Z) (payer : account_name) (secondary : Z)
| op_ix_remove (kind : index_kind) (iterator : Z)
| op_ix_query (kind : index_kind) (q : ix_query)
| op_ix_next_secondary (kind : index_kind) (iterator : Z)
| op_ix_next_primary (kind : index_kind) (iterator : Z)
| op_ix_previous_secondary (kind : index_kind) (iterator : Z)
| op_ix_previous_primary (kind : index_kind) (iterator : Z).

(** The buffer of a contract is in a memory of 32-bit addresses. *)
Definition op_fits (op : table_op) : Prop :=
  match op with
  | op_store _ _ _ _ buffer | op_update _ _ buffer => Z.of_nat (length buffer) < 2 ^ 32
  | _ => True
  end.

Section Runs.
Context `{SoftFloat}.

Definition run_ix_query (kind : index_kind) (s : session) (q : ix_query) : session * Z * option (Z * Z) :=
  match q with
  | q_find_secondary c sc t v => find_secondary kind s c sc t v
  | q_lowerbound_secondary c sc t v => lowerbound_secondary kind s c sc t v
  | q_upperbound_secondary c sc t v => upperbound_secondary kind s c sc t v
  | q_end_secondary c sc t => end_secondary kind s c sc t
  | q_find_primary c sc t v => find_primary kind s c sc t v
  | q_lowerbound_primary c sc t v => lowerbound_primary kind s c sc t v
  | q_upperbound_primary c sc t v => upperbound_primary kind s c sc t v
  end.

Definition run_op (cx : table_context) (s : session) (op : table_op) : result session :=
  match op with
  | op_store sc t payer id buffer => fst <$> db_store_i64 cx s sc t payer id buffer
  | op_update it payer buffer => db_update_i64 cx s it payer buffer
  | op_remove it => db_remove_i64 cx s it
  | op_find c sc t id => Ok (db_find_i64 s c sc t id).1
  | op_lowerbound c sc t id => Ok (db_lowerbound_i64 s c sc t id).1
  | op_upperbound c sc t id => Ok (db_upperbound_i64 s c sc t id).1
  | op_end c sc t => Ok (db_end_i64 s c sc t).1
  | op_next it => (fun r => r.1.1) <$> db_next_i64 s it
  | op_previous it => (fun r => r.1.1) <$> db_previous_i64 s it
  | op_ix_store kind sc t payer id value => fst <$> index_store cx kind s sc t payer id value
  | op_ix_update kind it payer value => index_update cx kind s it payer value
  | op_ix_remove kind it => index_remove cx kind s it
  | op_ix_query kind q => Ok (run_ix_query kind s q).1.1
  | op_ix_next_secondary kind it => (fun r => r.1.1) <$> next_secondary kind s it
  | op_ix_next_primary kind it => (fun r => r.1.1) <$> next_primary kind s it
  | op_ix_previous_secondary kind it => (fun r => r.1.1) <$> previous_secondary kind s it
  | op_ix_previous_primary kind it => (fun r => r.1.1) <$> previous_primary kind s it
  end.

Fixpoint run_ops (s : session) (l : list (table_context * table_op)) : result session :=
  match l with
  | [] => Ok s
  | (cx, op) :: l => s ← run_op cx s op; run_ops s l
  end.

(** *** What an operation does *)

Lemma fmap_Ok {A B} (f : A -> B) (r : result A) b : f <$> r = Ok b <-> exists a, r = Ok a /\ b = f a.
Proof. destruct r; simpl; naive_solver. Qed.

Lemma query_grown s code scope table R s' it : session_ok s -> query_ok s code scope table R s' it -> grown s s'.
Proof. intros Hs Hq. unfold query_ok in Hq. destruct (find_table _ _ _ _); [by destruct Hq|by destruct Hq as [-> _]]. Qed.

Lemma db_next_grown s it s' it' key : session_ok s -> db_next_i64 s it = Ok (s', it', key) -> grown s s'.
Proof.
  intros Hs E. destruct (decide (it < -1)) as [Hlt|Hge].
  { unfold db_next_i64 in E. rewrite (proj2 (Z.ltb_lt _ _) Hlt) in E. by injection E as <- _ _. }
  destruct (kv_of s it) as [[i o]|e] eqn:Hio.
  - destruct (db_next_i64_moves s it i o Hs Hio) as (s1 & it1 & itr & E1 & Hg & _). rewrite E in E1. by injection E1 as <- _ _.
  - unfold db_next_i64 in E. rewrite (proj2 (Z.ltb_ge it (-1))), Hio in E by lia. done.
Qed.

(** An end iterator stands for a cached table. *)
Lemma end_iterator_table f c it t :
  cache_ok f c -> it < -1 -> end_iterator_to_table c !! Z.to_nat (end_iterator_to_index it) = Some t ->
  table_cache c !! t = Some it.
Proof.
  intros Hc Hlt Ht. apply (co_tables f c Hc) in Ht. rewrite Ht. f_equal.
  unfold index_to_end_iterator, end_iterator_to_index. lia.
Qed.

Lemma db_previous_grown s it s' it' key : session_ok s -> db_previous_i64 s it = Ok (s', it', key) -> grown s s'.
Proof.
  intros Hs E. destruct (decide (it < -1)) as [Hlt|Hge].
  - pose proof E as E0. unfold db_previous_i64 in E0. rewrite (proj2 (Z.ltb_lt _ _) Hlt) in E0.
    apply bind_Ok in E0 as (tab & Hf & E0). apply bind_Ok in E0 as (t & Ht & E0). apply of_option_Ok in Ht as ->.
    apply bind_Ok in E0 as (tb & Htb & _). apply of_option_Ok in Htb. apply bind_Ok in Hf as ([] & _ & Hf). injection Hf as Hf.
    apply (end_iterator_table _ _ _ _ (so_kv s Hs) Hlt) in Hf.
    destruct (db_previous_end s t it Hs Hf) as (s1 & it1 & itr & E1 & Hg & _); [eauto|]. rewrite E in E1. by injection E1 as <- _ _.
  - destruct (kv_of s it) as [[i o]|e] eqn:Hio.
    + destruct (db_previous_row s it i o Hs Hio) as (s1 & it1 & itr & E1 & Hg & _). rewrite E in E1. by injection E1 as <- _ _.
    + unfold db_previous_i64 in E. rewrite (proj2 (Z.ltb_ge it (-1))), Hio in E by lia. done.
Qed.

Lemma run_ix_query_grown kind s q s' it r : session_ok s -> run_ix_query kind s q = (s', it, r) -> grown s s'.
Proof.
  intros Hs E. destruct q; simpl in E; (eapply with_ix_table_grown; [done|exact E|]); intros s1 t ei Hs1 Ht E1.
  4: by injection E1 as <- _ _.
  4: { eapply ix_row_or_grown; [done|done| |exact E1]. intros i o [Hi _]%find_ix_Some. by apply elem_of_ix_rows. }
  all: eapply ix_row_or_grown; [done|done| |exact E1]; intros i o; apply first_where_elem.
Qed.

Lemma grown_outcome cx s s' : session_ok s -> grown s s' -> session_ok s' /\ outcome cx (ss_db s) (ss_db s').
Proof.
  intros Hs [Hok E _ _]. split; [done|]. rewrite E. constructor; [apply Hs|apply Hs|apply effect_refl|lia].
Qed.

Lemma run_op_outcome cx s op s' :
  session_ok s -> total_rows (ss_db s) < 2 ^ 32 - 1 -> op_fits op -> run_op cx s op = Ok s' ->
  session_ok s' /\ outcome cx (ss_db s) (ss_db s').
Proof.
  intros Hs Hr Hf E. destruct op; simpl in E, Hf.
  1: { apply fmap_Ok in E as ([s1 it] & E & ->). by apply db_store_i64_outcome in E as (? & ? & _). }
  1: by apply db_update_i64_outcome in E as (? & ? & _).
  1: by apply db_remove_i64_outcome in E as (? & ? & _).
  7: { apply fmap_Ok in E as ([s1 it] & E & ->). by apply index_store_outcome in E as (? & ? & _). }
  7: by apply index_update_outcome in E as (? & ? & _).
  7: by apply index_remove_outcome in E as (? & ? & _).
  all: apply grown_outcome; [done|].
  1-4: injection E as <-; eapply query_grown; [done|].
  - eapply db_find_query; [done|]. apply surjective_pairing.
  - eapply db_lowerbound_query; [done|]. apply surjective_pairing.
  - eapply db_upperbound_query; [done|]. apply surjective_pairing.
  - eapply db_end_query; [done|]. apply surjective_pairing.
  - apply fmap_Ok in E as ([[s1 it] r] & E & ->). by eapply db_next_grown.
  - apply fmap_Ok in E as ([[s1 it] r] & E & ->). by eapply db_previous_grown.
  - injection E as <-. destruct (run_ix_query kind s q) as [[s1 it] r] eqn:E. by eapply run_ix_query_grown.
  - apply fmap_Ok in E as ([[s1 it] r] & E & ->). by eapply index_next_grown.
  - apply fmap_Ok in E as ([[s1 it] r] & E & ->). by eapply index_next_grown.
  - apply fmap_Ok in E as ([[s1 it] r] & E & ->). by eapply index_previous_grown.
  - apply fmap_Ok in E as ([[s1 it] r] & E & ->). by eapply index_previous_grown.
Qed.

Lemma run_ops_ind (Inv : session -> Prop) s l s' :
  session_ok s -> total_rows (ss_db s) + Z.of_nat (length l) < 2 ^ 32 -> Forall (fun x => op_fits x.2) l ->
  (forall cx op s1 s2, (cx, op) ∈ l -> session_ok s1 -> outcome cx (ss_db s1) (ss_db s2) -> Inv s1 -> Inv s2) ->
  Inv s -> run_ops s l = Ok s' -> session_ok s' /\ Inv s'.
Proof.
  revert s. induction l as [|[cx op] l IH]; intros s Hs Hr Hf Hstep Hi E; simpl in E.
  { by injection E as <-. }
  apply bind_Ok in E as (s1 & E1 & E). apply Forall_cons in Hf as [Hf1 Hf]. simpl in Hr, Hf1.
  destruct (run_op_outcome cx s op s1) as [Hs1 Ho]; [done|lia|done|done|]. pose proof (oc_rows _ _ _ Ho).
  apply (IH s1); [done|lia|done| | |done].
  - intros cx' op' s2 s3 Hin. apply (Hstep cx' op'). by right.
  - apply (Hstep cx op s s1); [by left|done|done|done].
Qed.

End Runs.
