(* ===== verification/ContractTablesSafety.v ===== *)
(** * Runs over contract tables: claims

    What holds after every sequence of operations, the one operation whose
    behaviour is undefined, and concrete runs. *)

From Stdlib Require Import ZArith Lia Bool.
From stdpp Require Import base numbers gmap relations sorting sets list.
From S2P Require Import Prelude ResourceLimits ResourceLimitsProofs BlockHeader NativeActions ContractTables.
From S2P Require Import ContractTablesProofs ContractTablesOps ContractTablesRuns.

Open Scope Z_scope.

(** ** Errors that never occur *)

(** The code relies on a cached table for every cached row ("an invariant was
    broken, table should be in cache"), and on pointers to live rows. *)
Definition safe {A} (r : result A) : Prop := r <> Err undefined_behavior /\ r <> Err table_not_in_cache.

Lemma safe_Ok {A} (a : A) : safe (Ok a).
Proof. done. Qed.
Lemma safe_bind {A B} (m : result A) (f : A -> result B) :
  safe m -> (forall a, m = Ok a -> safe (f a)) -> safe (m ≫= f).
Proof. destruct m as [a|e]; simpl; [|intros [] _; split; congruence]. intros _ Hf. by apply Hf. Qed.
Lemma safe_fmap {A B} (m : result A) (f : A -> B) : safe m -> safe (f <$> m).
Proof. destruct m; [done|]. intros [? ?]. split; simpl; congruence. Qed.
Lemma safe_assert c e : e <> undefined_behavior -> e <> table_not_in_cache -> safe (SNAX_ASSERT c e).
Proof. destruct c; [done|]. intros ? ?. split; simpl; congruence. Qed.
Lemma safe_of_option {A} e (o : option A) :
  is_Some o \/ (e <> undefined_behavior /\ e <> table_not_in_cache) -> safe (of_option e o).
Proof. destruct o; [done|]. intros [[? ?]|[? ?]]; [done|]. split; simpl; congruence. Qed.

Ltac safe_guard := first [apply safe_Ok | apply safe_assert; congruence | apply safe_of_option; right; split; congruence].

Section Safety.
Context `{SoftFloat} (cx : table_context).

Lemma update_db_usage_safe db payer d : - 2 ^ 63 < d -> safe (update_db_usage cx db payer d).
Proof.
  intros Hd. unfold update_db_usage. apply safe_bind.
  { destruct (_ && _); [|done]. apply safe_bind; [safe_guard|]. intros _ _. safe_guard. }
  intros _ _. apply safe_bind; [|done]. unfold add_pending_ram_usage. destruct (d =? 0); [done|].
  apply safe_bind; [safe_guard|]. intros u _. apply safe_bind; [safe_guard|]. intros _ _. apply safe_bind; [|done].
  destruct (0 <=? d); [done|]. destruct (Z.eqb_spec d INT64_MIN) as [->|]; [unfold INT64_MIN in Hd; lia|]. safe_guard.
Qed.

Lemma find_or_create_table_safe db code scope table payer : safe (find_or_create_table cx db code scope table payer).
Proof.
  unfold find_or_create_table. destruct (find_table _ _ _ _); [done|]. pose proof (billable_sizes idx64).
  apply safe_bind; [apply update_db_usage_safe; lia|done].
Qed.

Lemma cache_get_safe c it : safe (cache_get c it).
Proof.
  unfold cache_get. apply safe_bind; [safe_guard|]. intros _ _. apply safe_bind; [safe_guard|]. intros _ _.
  apply safe_bind; [safe_guard|]. intros r _. safe_guard.
Qed.
Lemma cache_remove_safe c it : safe (cache_remove c it).
Proof.
  unfold cache_remove. apply safe_bind; [safe_guard|]. intros _ _. apply safe_bind; [safe_guard|]. intros _ _.
  apply safe_bind; [safe_guard|]. by intros [o|] _.
Qed.

(** A cached row is live and its table is cached. *)
Lemma kv_of_safe s it : session_ok s -> safe (kv_of s it).
Proof.
  intros Hs. unfold kv_of. apply safe_bind; [apply cache_get_safe|]. intros i Hi.
  apply (cache_get_Ok _ _ _ _ (so_kv s Hs)) in Hi as [_ Hi].
  destruct (co_live _ _ (so_kv s Hs) i it Hi) as (t & Ht & _). unfold kv_table in Ht.
  apply fmap_Some in Ht as (o & Ho & _). rewrite Ho. done.
Qed.
Lemma ix_of_safe kind s it : session_ok s -> safe (ix_of kind s it).
Proof.
  intros Hs. unfold ix_of. apply safe_bind; [apply cache_get_safe|]. intros i Hi.
  apply (cache_get_Ok _ _ _ _ (so_ix s Hs kind)) in Hi as [_ Hi].
  destruct (co_live _ _ (so_ix s Hs kind) i it Hi) as (t & Ht & _). unfold ix_table in Ht.
  apply fmap_Some in Ht as (o & Ho & _). rewrite Ho. done.
Qed.

Lemma get_table_safe c db t : is_Some (table_cache c !! t) -> is_Some (tb_tables db !! t) -> safe (get_table c db t).
Proof. intros [ei Hei] [tab Htab]. unfold get_table. by rewrite Hei, Htab. Qed.

Lemma kv_table_safe s it i o :
  session_ok s -> kv_of s it = Ok (i, o) -> safe (get_table (ss_keyval s) (ss_db s) (kv_t_id o)).
Proof.
  intros Hs [Hit Hi]%(kv_of_Ok s it i o Hs). destruct (kv_cached s i o it Hs Hit Hi) as [_ (ei & Hei & _)].
  apply get_table_safe; [eauto|]. by apply (dk_kv_table _ (so_db s Hs) i).
Qed.

Lemma change_count_safe db t d : is_Some (tb_tables db !! t) -> safe (change_count db t d).
Proof. intros [tab Ht]. unfold change_count. by rewrite Ht. Qed.

Lemma remove_if_empty_safe db t : is_Some (tb_tables db !! t) -> safe (remove_if_empty cx db t).
Proof.
  intros [tab Ht]. unfold remove_if_empty. rewrite Ht. cbn [of_option mbind result_bind]. destruct (_ =? 0); [|done].
  unfold remove_table. rewrite Ht. cbn [of_option mbind result_bind]. pose proof (billable_sizes idx64).
  apply safe_bind; [apply update_db_usage_safe; lia|done].
Qed.

(** The tables stay the same while usage and counters change. *)
Lemma update_tables db payer d db' : update_db_usage cx db payer d = Ok db' -> tb_tables db' = tb_tables db.
Proof.
  intros E. unfold update_db_usage in E. apply bind_Ok in E as ([] & _ & E).
  apply bind_Ok in E as (rl & _ & E). by injection E as <-.
Qed.
Lemma change_count_tables db t d db' u :
  change_count db t d = Ok db' -> is_Some (tb_tables db' !! u) <-> is_Some (tb_tables db !! u).
Proof.
  intros E. unfold change_count in E. apply bind_Ok in E as (tab & Ht & E). apply of_option_Ok in Ht. injection E as <-.
  simpl. rewrite lookup_insert_is_Some'. split; [|by right]. intros [->|?]; eauto.
Qed.

Lemma db_store_safe s scope table payer id buffer :
  session_ok s -> Z.of_nat (length buffer) < 2 ^ 32 -> safe (db_store_i64 cx s scope table payer id buffer).
Proof.
  intros Hs Hb. unfold db_store_i64, db_store_i64_code. apply safe_bind; [apply find_or_create_table_safe|].
  intros [db t] Hf. destruct (find_or_create_table_effect cx _ _ _ _ _ _ (so_db s Hs) Hf) as (_ & _ & _ & _ & _ & _ & _ & tab & Ht & _).
  apply safe_bind; [safe_guard|]. intros _ _. apply safe_bind; [safe_guard|]. intros _ _. cbv zeta. rewrite store_size by done.
  apply safe_bind; [apply change_count_safe; simpl; eauto|]. intros db2 _. pose proof (billable_sizes idx64).
  apply safe_bind; [apply update_db_usage_safe; lia|]. intros db3 _. by destruct (cache_table _ _).
Qed.

Lemma db_update_safe s it payer buffer :
  session_ok s -> Z.of_nat (length buffer) < 2 ^ 32 -> safe (db_update_i64 cx s it payer buffer).
Proof.
  intros Hs Hb. unfold db_update_i64. apply safe_bind; [by apply kv_of_safe|]. intros [i o] Hio.
  apply safe_bind; [by apply (kv_table_safe s it i)|]. intros tab _. apply safe_bind; [safe_guard|]. intros _ _. cbv zeta.
  apply (kv_of_Ok s it i o Hs) in Hio as [_ Hi]. pose proof (kv_size_bound _ i o (so_db s Hs) Hi) as Hsz. unfold kv_size in Hsz.
  rewrite !store_size by (done || by apply (dk_small _ (so_db s Hs) i)). pose proof (billable_sizes idx64).
  apply safe_bind; [|done]. destruct (negb _).
  - apply safe_bind; [apply update_db_usage_safe; lia|]. intros db1 _. apply update_db_usage_safe; lia.
  - destruct (negb _); [|done]. apply update_db_usage_safe. lia.
Qed.

Lemma db_remove_safe s it : session_ok s -> safe (db_remove_i64 cx s it).
Proof.
  intros Hs. unfold db_remove_i64. apply safe_bind; [by apply kv_of_safe|]. intros [i o] Hio.
  apply safe_bind; [by apply (kv_table_safe s it i)|]. intros tab Ht%get_table_Ok. apply safe_bind; [safe_guard|]. intros _ _.
  apply (kv_of_Ok s it i o Hs) in Hio as [_ Hi]. pose proof (kv_size_bound _ i o (so_db s Hs) Hi) as Hsz. unfold kv_size in Hsz.
  rewrite i64_small by (unfold is_i64; lia). apply safe_bind; [apply update_db_usage_safe; lia|]. intros db1 E1%update_tables.
  assert (is_Some (tb_tables db1 !! kv_t_id o)) as Hdb1 by (rewrite E1; eauto).
  apply safe_bind; [by apply change_count_safe|]. intros db2 E2. apply (change_count_tables _ _ _ _ (kv_t_id o)) in E2.
  apply safe_bind; [apply remove_if_empty_safe; simpl; by apply E2|]. intros db3 _.
  apply safe_bind; [apply cache_remove_safe|done].
Qed.

Lemma index_store_safe kind s scope table payer id value :
  session_ok s -> safe (index_store cx kind s scope table payer id value).
Proof.
  intros Hs. unfold index_store. apply safe_bind; [safe_guard|]. intros _ _. apply safe_bind; [apply find_or_create_table_safe|].
  intros [db t] Hf. destruct (find_or_create_table_effect cx _ _ _ _ _ _ (so_db s Hs) Hf) as (_ & _ & _ & _ & _ & _ & _ & tab & Ht & _).
  apply safe_bind; [safe_guard|]. intros _ _. cbv zeta.
  apply safe_bind; [apply change_count_safe; simpl; eauto|]. intros db2 _. pose proof (billable_sizes kind).
  apply safe_bind; [apply update_db_usage_safe; lia|]. intros db3 _. by destruct (cache_table _ _).
Qed.

Lemma ix_table_safe kind s db it i o :
  session_ok s -> ix_of kind s it = Ok (i, o) -> tb_tables db = tb_tables (ss_db s) ->
  safe (get_table (index_cache s kind) db (ix_t_id o)).
Proof.
  intros Hs Hio E. apply get_table_safe; [by eapply ix_cached|]. rewrite E.
  apply (ix_of_Ok kind s it i o Hs) in Hio as [_ Hi]. by apply (dk_ix_table _ (so_db s Hs) (kind, i)).
Qed.

Lemma index_update_safe kind s it payer value : session_ok s -> safe (index_update cx kind s it payer value).
Proof.
  intros Hs. unfold index_update. apply safe_bind; [by apply ix_of_safe|]. intros [i o] Hio.
  apply safe_bind; [by apply (ix_table_safe kind s _ it i)|]. intros tab _. apply safe_bind; [safe_guard|]. intros _ _. cbv zeta.
  pose proof (billable_sizes kind). apply safe_bind; [|done]. destruct (negb _); [|done].
  apply safe_bind; [apply update_db_usage_safe; lia|]. intros db1 _. apply update_db_usage_safe. lia.
Qed.

Lemma index_remove_safe kind s it : session_ok s -> safe (index_remove cx kind s it).
Proof.
  intros Hs. unfold index_remove. apply safe_bind; [by apply ix_of_safe|]. intros [i o] Hio. pose proof (billable_sizes kind).
  apply safe_bind; [apply update_db_usage_safe; lia|]. intros db1 E1%update_tables.
  apply safe_bind; [by apply (ix_table_safe kind s _ it i)|]. intros tab Ht%get_table_Ok. apply safe_bind; [safe_guard|]. intros _ _.
  apply safe_bind; [apply change_count_safe; eauto|]. intros db2 E2. apply (change_count_tables _ _ _ _ (ix_t_id o)) in E2.
  apply safe_bind; [apply remove_if_empty_safe; simpl; apply E2; eauto|]. intros db3 _.
  apply safe_bind; [apply cache_remove_safe|done].
Qed.

Lemma db_next_safe s it : session_ok s -> safe (db_next_i64 s it).
Proof.
  intros Hs. destruct (kv_of s it) as [[i o]|e] eqn:Hio.
  - destruct (db_next_i64_moves s it i o Hs Hio) as (s' & it' & itr & -> & _). done.
  - pose proof (kv_of_safe s it Hs) as Hsafe. unfold db_next_i64. rewrite Hio in *.
    destruct (it <? -1); [done|]. destruct Hsafe. split; simpl; congruence.
Qed.

Lemma index_next_safe kind lt s it : session_ok s -> safe (index_next kind lt s it).
Proof.
  intros Hs. unfold index_next. destruct (it <? -1); [done|]. apply safe_bind; [by apply ix_of_safe|]. intros [i o] Hio.
  pose proof (ix_cached kind s it i o Hs Hio) as [ei Hei]. cbv zeta. destruct (match _ with Some _ => _ | None => _ end); [|done].
  unfold get_end_iterator_by_table_id. by rewrite Hei.
Qed.

(** The end iterator of a table that was removed. *)
Definition stale (db : table_db) (c : iterator_cache) (it : Z) : Prop :=
  it < -1 /\ exists t, end_iterator_to_table c !! Z.to_nat (end_iterator_to_index it) = Some t /\ tb_tables db !! t = None.

(** [m] starts by following the end iterator. *)
Lemma follow_end {A} db c it (f : Z -> result A) :
  (forall t, safe (f t)) ->
  let r := tab ← find_table_by_end_iterator c it; t ← of_option invalid_table_iterator tab;
           of_option undefined_behavior (tb_tables db !! t);; f t in
  it < -1 -> (r = Err undefined_behavior <-> stale db c it) /\ r <> Err table_not_in_cache.
Proof.
  intros Hf r Hlt. unfold r, find_table_by_end_iterator, stale. rewrite (proj2 (Z.ltb_lt _ _) Hlt).
  cbn [SNAX_ASSERT mbind result_bind mret result_ret].
  destruct (end_iterator_to_table c !! _) as [t|]; cbn [of_option mbind result_bind].
  2: { split; [|done]. split; [done|]. intros (_ & t & Ht & _). done. }
  destruct (tb_tables db !! t) as [tab|] eqn:Hd; cbn [of_option mbind result_bind].
  - destruct (Hf t) as [H1 H2]. split; [|done]. split; [done|]. intros (_ & u & Hu & Hn). congruence.
  - split; [|done]. split; [|done]. intros _. split; [done|]. by exists t.
Qed.

Lemma db_previous_undefined s it :
  session_ok s ->
  (db_previous_i64 s it = Err undefined_behavior <-> stale (ss_db s) (ss_keyval s) it) /\
  db_previous_i64 s it <> Err table_not_in_cache.
Proof.
  intros Hs. unfold db_previous_i64. destruct (Z.ltb_spec it (-1)) as [Hlt|Hge]; [apply follow_end; [intros t; apply safe_Ok|done]|].
  assert (safe ('(i, obj) ← kv_of s it; mret (row_before s (kv_t_id obj)
    (last_where kv_lt (fun r => pair_lt (kv_key r.2) (kv_key obj)) (kv_rows (ss_db s)))))) as [H1 H2].
  { apply safe_bind; [by apply kv_of_safe|]. by intros []. }
  split; [|done]. split; [done|]. intros [? _]. lia.
Qed.

Lemma index_previous_undefined kind lt s it :
  session_ok s ->
  (index_previous kind lt s it = Err undefined_behavior <-> stale (ss_db s) (index_cache s kind) it) /\
  index_previous kind lt s it <> Err table_not_in_cache.
Proof.
  intros Hs. unfold index_previous. destruct (Z.ltb_spec it (-1)) as [Hlt|Hge]; [apply follow_end; [intros t; apply safe_Ok|done]|].
  assert (safe ('(i, obj) ← ix_of kind s it; mret (ix_row_or kind s (ix_t_id obj) (-1)
    (last_where lt (fun r => lt r (i, obj)) (ix_rows kind (ss_db s)))))) as [H1 H2].
  { apply safe_bind; [by apply ix_of_safe|]. by intros []. }
  split; [|done]. split; [done|]. intros [? _]. lia.
Qed.

Definition stale_op (s : session) (op : table_op) : Prop :=
  match op with
  | op_previous it => stale (ss_db s) (ss_keyval s) it
  | op_ix_previous_secondary kind it | op_ix_previous_primary kind it => stale (ss_db s) (index_cache s kind) it
  | _ => False
  end.

Lemma fmap_Err {A B} (f : A -> B) (r : result A) e : f <$> r = Err e <-> r = Err e.
Proof. destruct r; simpl; naive_solver. Qed.

End Safety.

Section Claims.
Context `{SoftFloat}.

(** An operation on tables and iterators is undefined exactly when it moves
    back from the end iterator of a table that was removed, and the cache never
    misses the table of a row it holds. *)
Theorem table_op_undefined cx s op :
  session_ok s -> op_fits op ->
  (run_op cx s op = Err undefined_behavior <-> stale_op s op) /\ run_op cx s op <> Err table_not_in_cache.
Proof.
  intros Hs Hf. assert (safe (run_op cx s op) -> ~ stale_op s op ->
    (run_op cx s op = Err undefined_behavior <-> stale_op s op) /\ run_op cx s op <> Err table_not_in_cache) as Hsafe.
  { intros [H1 H2] H3. tauto. }
  destruct op; try (apply Hsafe; [|by intros []]); simpl in *.
  all: try apply safe_fmap; try done; rewrite ?fmap_Err.
  - by apply db_store_safe.
  - by apply db_update_safe.
  - by apply db_remove_safe.
  - by apply db_next_safe.
  - by apply db_previous_undefined.
  - by apply index_store_safe.
  - by apply index_update_safe.
  - by apply index_remove_safe.
  - by apply index_next_safe.
  - by apply index_next_safe.
  - by apply index_previous_undefined.
  - by apply index_previous_undefined.
Qed.

(** C29: after any sequence of operations by any contracts, tables exist exactly
    while they have rows, their counters are right, keys are unique and every
    iterator stands for a live row. *)
Theorem table_session_invariant s l s' :
  session_ok s -> total_rows (ss_db s) + Z.of_nat (length l) < 2 ^ 32 -> Forall (fun x => op_fits x.2) l ->
  run_ops s l = Ok s' -> session_ok s'.
Proof. intros Hs Hr Hf E. by apply (run_ops_ind (fun _ => True) s l s'). Qed.

(** C28: over any sequence of operations every account is billed exactly what the
    tables and rows it pays for grow by. *)
Theorem table_ram_exact s l s' a :
  session_ok s -> total_rows (ss_db s) + Z.of_nat (length l) < 2 ^ 32 -> Forall (fun x => op_fits x.2) l ->
  run_ops s l = Ok s' ->
  ram_in (tb_limits (ss_db s')) a - ram_in (tb_limits (ss_db s)) a =
  table_footprint (ss_db s') a - table_footprint (ss_db s) a.
Proof.
  intros Hs Hr Hf E.
  destruct (run_ops_ind (fun s1 => ram_in (tb_limits (ss_db s1)) a - table_footprint (ss_db s1) a =
    ram_in (tb_limits (ss_db s)) a - table_footprint (ss_db s) a) s l s') as [_ Hb]; try done; [|lia].
  intros cx op s1 s2 _ _ Ho Hi. rewrite (ef_billed _ _ _ _ (oc_effect _ _ _ Ho) a), Hi. lia.
Qed.

(** C30: contracts other than [code] do not change a table of [code], nor a row
    of it, and RAM is charged only to the contract that runs, to accounts that
    authorized its action, and by privileged contracts. *)
Theorem table_isolation s l s' code t tab :
  session_ok s -> total_rows (ss_db s) + Z.of_nat (length l) < 2 ^ 32 -> Forall (fun x => op_fits x.2) l ->
  run_ops s l = Ok s' -> (forall cx op, (cx, op) ∈ l -> tc_receiver cx <> code) ->
  tb_tables (ss_db s) !! t = Some tab -> t_code tab = code ->
  tb_tables (ss_db s') !! t = Some tab /\
  (forall i o, kv_t_id o = t -> tb_kvs (ss_db s') !! i = Some o <-> tb_kvs (ss_db s) !! i = Some o) /\
  (forall k o, ix_t_id o = t -> tb_indices (ss_db s') !! k = Some o <-> tb_indices (ss_db s) !! k = Some o) /\
  forall a, ram_in (tb_limits (ss_db s)) a < ram_in (tb_limits (ss_db s')) a -> exists cx op, (cx, op) ∈ l /\ chargeable cx a.
Proof.
  intros Hs Hr Hf E Hl Ht Hc.
  destruct (run_ops_ind (fun s1 => tb_tables (ss_db s1) !! t = Some tab /\
    (forall i o, kv_t_id o = t -> tb_kvs (ss_db s1) !! i = Some o <-> tb_kvs (ss_db s) !! i = Some o) /\
    (forall k o, ix_t_id o = t -> tb_indices (ss_db s1) !! k = Some o <-> tb_indices (ss_db s) !! k = Some o) /\
    (forall a, ram_in (tb_limits (ss_db s)) a < ram_in (tb_limits (ss_db s1)) a ->
       exists cx op, (cx, op) ∈ l /\ chargeable cx a)) s l s') as [_ Hb]; try done.
  - intros cx op s1 s2 Hin _ Ho (Ht1 & Hk & Hx & Hram). destruct (oc_effect _ _ _ Ho) as [Hfo Hch _].
    specialize (Hl cx op Hin). destruct (Hfo t tab Ht1) as (Ht2 & Hk2 & Hx2); [congruence|]. split_and!; [done| | |].
    + intros i o Hio. rewrite Hk2, Hk by done. done.
    + intros k o Hio. rewrite Hx2, Hx by done. done.
    + intros a Ha. destruct (decide (ram_in (tb_limits (ss_db s)) a < ram_in (tb_limits (ss_db s1)) a)); [by apply Hram|].
      exists cx, op. split; [done|]. apply Hch. lia.
  - split_and!; try done. intros a Ha. lia.
Qed.

End Claims.

(** ** A concrete session *)

Definition demo_floats : SoftFloat := {| f64_lt := Z.ltb; f128_lt := Z.ltb |}.

(** Contract 100 runs an action authorized by 200. *)
Definition demo_cx : table_context := mk_table_context 100 100 [(200, 1)] false false.
Definition demo_start : session :=
  mk_session (mk_table_db ∅ 0 ∅ 0 ∅ 0 (set_usage initialize_database {[100 := default_usage; 200 := default_usage]}))
    empty_cache ∅.
Definition demo_ops : list (table_context * table_op) :=
  (fun op => (demo_cx, op)) <$>
  [op_store 1 2 200 30 [1; 2]; op_store 1 2 100 10 []; op_ix_store idx128 1 2 100 10 7; op_store 1 2 200 20 [3];
   op_update 0 100 [4; 5; 6]].

Definition result_session (s : session) (r : result session) : session := match r with Ok s' => s' | Err _ => s end.
Definition demo : session := result_session demo_start (run_ops (H := demo_floats) demo_start demo_ops).

Lemma demo_start_ok : session_ok demo_start.
Proof.
  constructor; [constructor; simpl| | |].
  - intros t u a b. by rewrite lookup_empty.
  - intros t [a Ha]. by rewrite lookup_empty in Ha.
  - intros i [o Ho]. by rewrite lookup_empty in Ho.
  - intros k i [o Ho]. by rewrite lookup_empty in Ho.
  - intros i o. by rewrite lookup_empty.
  - intros k o. by rewrite lookup_empty.
  - intros i j a b. by rewrite lookup_empty.
  - intros k i j a b. by rewrite lookup_empty.
  - intros t a. by rewrite lookup_empty.
  - intros i o. by rewrite lookup_empty.
  - intros a u Hu. unfold set_usage in Hu. simpl in Hu. apply lookup_insert_Some in Hu as [[_ <-]|[_ Hu]]; [done|].
    by apply lookup_singleton_Some in Hu as [_ <-].
  - intros t a. simpl. by rewrite lookup_empty.
  - apply empty_cache_ok.
  - intros k. apply empty_cache_ok.
Qed.

Lemma demo_ops_fit : Forall (fun x => op_fits x.2) demo_ops.
Proof. unfold demo_ops. simpl. repeat constructor; simpl; lia. Qed.

Lemma demo_run : run_ops (H := demo_floats) demo_start demo_ops = Ok demo.
Proof. vm_compute. reflexivity. Qed.

Lemma demo_ok : session_ok demo.
Proof.
  destruct (run_ops_ind (H := demo_floats) (fun _ => True) demo_start demo_ops demo) as [Hok _]; [| | | | | |exact Hok].
  - apply demo_start_ok.
  - vm_compute. reflexivity.
  - apply demo_ops_fit.
  - by intros.
  - exact I.
  - apply demo_run.
Qed.

Lemma table_session_invariant_witness : run_ops (H := demo_floats) demo_start demo_ops = Ok demo /\ session_ok demo.
Proof.
  split; [apply demo_run|]. apply (table_session_invariant (H := demo_floats) demo_start demo_ops).
  - apply demo_start_ok.
  - vm_compute. reflexivity.
  - apply demo_ops_fit.
  - apply demo_run.
Defined.

Lemma table_ram_exact_witness :
  ram_in (tb_limits (ss_db demo)) 200 - ram_in (tb_limits (ss_db demo_start)) 200 =
  table_footprint (ss_db demo) 200 - table_footprint (ss_db demo_start) 200 /\
  table_footprint (ss_db demo) 200 = 112 + 113.
Proof.
  split; [|vm_compute; reflexivity]. apply (table_ram_exact (H := demo_floats) demo_start demo_ops).
  - apply demo_start_ok.
  - vm_compute. reflexivity.
  - apply demo_ops_fit.
  - apply demo_run.
Defined.

(** Contract 300 reads the table of 100 and cannot write it. *)
Definition other_cx : table_context := mk_table_context 300 300 [] false false.

Lemma table_isolation_witness :
  exists s', run_ops (H := demo_floats) demo [(other_cx, op_find 100 1 2 10); (other_cx, op_next 1)] = Ok s' /\
    is_Some (tb_tables (ss_db s') !! 0).
Proof.
  destruct (run_ops (H := demo_floats) demo [(other_cx, op_find 100 1 2 10); (other_cx, op_next 1)]) as [s'|e] eqn:E.
  2: { exfalso. assert (is_Ok (run_ops (H := demo_floats) demo [(other_cx, op_find 100 1 2 10); (other_cx, op_next 1)]) = true)
    as Hok by (vm_compute; reflexivity). rewrite E in Hok. discriminate. }
  exists s'. split; [done|]. destruct (tb_tables (ss_db demo) !! 0) as [tab|] eqn:Ht; [|vm_compute in Ht; discriminate].
  destruct (table_isolation (H := demo_floats) demo [(other_cx, op_find 100 1 2 10); (other_cx, op_next 1)] s' 100 0 tab)
    as [Hs' _]; [| | | | | | |rewrite Hs'; eauto].
  - apply demo_ok.
  - vm_compute. reflexivity.
  - repeat constructor.
  - exact E.
  - intros cx op [[= -> ->]|[[= -> ->]|[]%elem_of_nil]%elem_of_cons]%elem_of_cons; discriminate.
  - exact Ht.
  - vm_compute in Ht. by injection Ht as <-.
Defined.

Lemma table_walk_witness :
  exists s' ks, walk_keys 4 (db_lowerbound_i64 demo 100 1 2 15).1 (db_lowerbound_i64 demo 100 1 2 15).2 = Ok (s', ks) /\
    StronglySorted Z.lt ks /\ forall k, k ∈ ks <-> 15 <= k /\ has_key (ss_db demo) 0 k.
Proof.
  destruct (table_walk demo 100 1 2 0 15 (db_lowerbound_i64 demo 100 1 2 15).1 (db_lowerbound_i64 demo 100 1 2 15).2)
    as (s' & ks & Hw & _ & _ & Hsort & Hin).
  - apply demo_ok.
  - vm_compute. reflexivity.
  - apply surjective_pairing.
  - exists s', ks. replace 4%nat with (S (size (tb_kvs (ss_db demo)))) by (vm_compute; reflexivity).
    split; [exact Hw|]. split; [exact Hsort|exact Hin].
Defined.

Lemma next_previous_witness :
  exists i o s1 it1 key s2, kv_of demo 1 = Ok (i, o) /\ db_next_i64 demo 1 = Ok (s1, it1, key) /\
    db_previous_i64 s1 it1 = Ok (s2, 1, Some 10).
Proof.
  destruct (kv_of demo 1) as [[i o]|e] eqn:Ho; [|vm_compute in Ho; discriminate].
  destruct (db_next_i64 demo 1) as [[[s1 it1] key]|e] eqn:E; [|vm_compute in E; discriminate].
  destruct (next_previous demo 1 i o s1 it1 key) as (s2 & Hp & _); [apply demo_ok|exact Ho|exact E|].
  exists i, o, s1, it1, key, s2. split; [reflexivity|]. split; [reflexivity|].
  assert (kv_primary_key o = 10) as Hk by (vm_compute in Ho; injection Ho as _ <-; reflexivity).
  rewrite Hk in Hp. exact Hp.
Defined.

(** ** The end iterator of a removed table *)

(** The contract stores one row, keeps the end iterator of the table, removes the
    row and with it the table, and steps back from the end iterator. *)
Definition dangling_ops : list (table_context * table_op) :=
  (fun op => (demo_cx, op)) <$> [op_store 1 2 100 10 []; op_end 100 1 2; op_remove 0].
Definition dangling : session := result_session demo_start (run_ops (H := demo_floats) demo_start dangling_ops).

Lemma dangling_run : run_ops (H := demo_floats) demo_start dangling_ops = Ok dangling.
Proof. vm_compute. reflexivity. Qed.

Lemma dangling_ok : session_ok dangling.
Proof.
  destruct (run_ops_ind (H := demo_floats) (fun _ => True) demo_start dangling_ops dangling) as [Hok _]; [| | | | | |exact Hok].
  - apply demo_start_ok.
  - vm_compute. reflexivity.
  - unfold dangling_ops. simpl. repeat constructor; simpl; lia.
  - by intros.
  - exact I.
  - apply dangling_run.
Qed.

Lemma table_op_undefined_witness :
  db_end_i64 demo 100 1 2 = (demo, -2) /\ stale_op dangling (op_previous (-2)) /\
  run_op (H := demo_floats) demo_cx dangling (op_previous (-2)) = Err undefined_behavior.
Proof.
  assert (stale_op dangling (op_previous (-2))) as Hst.
  { split; [reflexivity|]. exists 0. split; vm_compute; reflexivity. }
  split; [vm_compute; reflexivity|]. split; [exact Hst|].
  apply (table_op_undefined (H := demo_floats) demo_cx dangling (op_previous (-2)) dangling_ok I). exact Hst.
Defined.
