(* ===== verification/Float64.v ===== *)
(** * Doubles

    IEEE 754 binary64 arithmetic with rounding to the nearest even, as contracts
    compute with it, on the executable specification of the Standard Library, and
    the conversion to 64-bit integers of [wasm_interface.cpp]. The functions of
    [<cmath>] are parameters. *)

From Stdlib Require Import ZArith Lia Bool SpecFloat.
From stdpp Require Import base numbers.
From S2P Require Import Prelude.

Open Scope Z_scope.

Definition double : Type := spec_float.

Definition dadd : double -> double -> double := SFadd 53 1024.
Definition dsub : double -> double -> double := SFsub 53 1024.
Definition dmul : double -> double -> double := SFmul 53 1024.
Definition ddiv : double -> double -> double := SFdiv 53 1024.
Definition dneg : double -> double := SFopp.
Definition dabs : double -> double := SFabs.
Definition dsqrt : double -> double := SFsqrt 53 1024.
Definition deq : double -> double -> bool := SFeqb.
Definition is_nan (d : double) : bool := match d with S754_nan => true | _ => false end.
Definition dlt : double -> double -> bool := SFltb.
Definition dle : double -> double -> bool := SFleb.

(** [double( z )] of an integer. *)
Definition of_int (z : Z) : double := binary_normalize 53 1024 z 0 false.

(** A decimal literal [a / b]: integers below 2^53 are exact and the quotient is
    the double closest to it. *)
Definition literal (a b : Z) : double := ddiv (of_int a) (of_int b).

(** [f64.trunc]: towards zero. *)
Definition dtrunc (d : double) : option Z :=
  match d with
  | S754_zero _ => Some 0
  | S754_finite s m e =>
      let z := if 0 <=? e then Z.pos m * 2 ^ e else Z.pos m / 2 ^ (- e) in
      Some (if s then - z else z)
  | _ => None
  end.

(** [int64_t( d )]. *)
Definition to_int64 (d : double) : result Z :=
  z ← of_option wasm_execution_error (dtrunc d);
  SNAX_ASSERT (bool_decide (is_i64 z)) wasm_execution_error;;
  mret z.

Class CMath := {
  dpow : double -> double -> double;
  dexp : double -> double;
  dlog : double -> double
}.

Lemma to_int64_i64 d z : to_int64 d = Ok z -> is_i64 z.
Proof.
  unfold to_int64. intros E. apply bind_Ok in E as (x & _ & E). apply bind_Ok in E as ([] & Hx & E).
  apply assert_Ok, bool_decide_eq_true in Hx. by injection E as <-.
Qed.

Example literal_half : literal 1 2 = S754_finite false 4503599627370496 (-53).
Proof. reflexivity. Qed.
Example of_int_trunc : to_int64 (dmul (of_int 1000001) (literal 1 2)) = Ok 500000.
Proof. reflexivity. Qed.
Example to_int64_overflow : to_int64 (of_int (2 ^ 63)) = Err wasm_execution_error.
Proof. reflexivity. Qed.
