(* ===== verification/SystemContract.v ===== *)
(** * The system contract: state and voting

    [contracts/snax.system]: the tables of [snax.system.hpp] and
    [delegate_bandwidth.cpp], and [voting.cpp].

    A table is a map by its scope and primary key; a row is the object that every
    iterator to it shares, so it is read again after each change. A failed
    assertion throws and the action has no effect. What an action asks of the
    chain (inline actions, deferred transactions, notifications) is recorded in
    order in [sy_out]; the limits it sets are in [sy_limits]. Which account pays
    for the memory of a row is not part of the model. *)

From Stdlib Require Import ZArith Lia Bool Ascii String.
From stdpp Require Import base numbers gmap list.
From S2P Require Import Prelude Name BlockHeader Token Float64.

Open Scope Z_scope.

(** ** Constants *)

Definition snax_name : account_name := Eval vm_compute in N_ "snax".
Definition snax_stake : account_name := Eval vm_compute in N_ "snax.stake".
Definition snax_team : account_name := Eval vm_compute in N_ "snax.team".
Definition snax_b1 : account_name := Eval vm_compute in N_ "b1".
Definition snax_ram : account_name := Eval vm_compute in N_ "snax.ram".
Definition snax_ramfee : account_name := Eval vm_compute in N_ "snax.ramfee".
Definition snax_names : account_name := Eval vm_compute in N_ "snax.names".
Definition snax_bpay : account_name := Eval vm_compute in N_ "snax.bpay".
Definition snax_vpay : account_name := Eval vm_compute in N_ "snax.vpay".

(** [S(4,SNAX)]. *)
Definition CORE_SYMBOL : Z := 0x58414e5304.

Definition refund_delay : Z := 3 * 24 * 3600.
Definition seconds_per_year : Z := 52 * 7 * 24 * 3600.
Definition seconds_per_day : Z := 24 * 3600.
Definition min_activated_stake : Z := 100000000000000.
Definition min_pervote_pay : Z := 1000000.
Definition blocks_per_day : Z := 2 * 24 * 3600.
Definition useconds_per_day : Z := 24 * 3600 * 1000000.
Definition min_per_block_amount : Z := 40000.

Definition snax_vote_multipliers : list double :=
  [literal 1 1; literal 9 10; literal 8 10; literal 7 10; literal 55 100; literal 4 10; literal 25 100; literal 1 10;
   literal 5 100; literal 25 1000; literal 125 10000; literal 625 100000; literal 3125 1000000; literal 15625 10000000;
   literal 78125 100000000; literal 390625 1000000000; literal 1953125 10000000000; literal 9765625 100000000000;
   literal 48828125 1000000000000; literal 244140625 10000000000000; literal 1220703125 100000000000000;
   literal 610351563 100000000000000; literal 244140625 100000000000000; literal 244140625 100000000000000;
   literal 244140625 100000000000000; literal 244140625 100000000000000; literal 244140625 100000000000000;
   literal 244140625 100000000000000; literal 244140625 100000000000000; literal 244140625 100000000000000].

(** ** Rows *)

Record user_resources := mk_resources { ur_net_weight : asset; ur_cpu_weight : asset; ur_ram_bytes : Z }.
Record delegated_bandwidth := mk_delegated { db_net_weight : asset; db_cpu_weight : asset }.
Record refund_request := mk_refund { rf_request_time : Z; rf_net_amount : asset; rf_cpu_amount : asset }.
Record voter_info := mk_voter {
  vi_proxy : account_name;
  vi_producers : list account_name;
  vi_staked : Z;
  vi_last_vote_weight : double;
  vi_proxied_vote_weight : double;
  vi_is_proxy : bool
}.
Record producer_info := mk_producer {
  pi_total_votes : double;
  pi_producer_key : Z;
  pi_is_active : bool;
  pi_url : list Z;
  pi_unpaid_blocks : Z;
  pi_last_claim_time : Z;
  pi_last_block_time : Z;
  pi_last_top_list_entry_time : Z;
  pi_location : Z
}.
Record escrow_bandwidth := mk_escrow {
  eb_created : Z; eb_period_count : Z; eb_initial_amount : asset; eb_amount : asset
}.
Record name_bid := mk_bid { nb_high_bidder : account_name; nb_high_bid : Z; nb_last_bid_time : Z }.

(** [blockchain_parameters] of [snaxlib/privileged.hpp]. *)
Record blockchain_parameters := mk_parameters {
  bp_max_block_net_usage : Z;
  bp_target_block_net_usage_pct : Z;
  bp_max_transaction_net_usage : Z;
  bp_base_per_transaction_net_usage : Z;
  bp_net_usage_leeway : Z;
  bp_context_free_discount_net_usage_num : Z;
  bp_context_free_discount_net_usage_den : Z;
  bp_max_block_cpu_usage : Z;
  bp_target_block_cpu_usage_pct : Z;
  bp_max_transaction_cpu_usage : Z;
  bp_min_transaction_cpu_usage : Z;
  bp_resources_market_open : Z;
  bp_privileged_contracts : Z;
  bp_contract_owner : Z;
  bp_platform_lock_duration : Z;
  bp_max_transaction_lifetime : Z;
  bp_deferred_trx_expiration_window : Z;
  bp_max_transaction_delay : Z;
  bp_max_inline_action_size : Z;
  bp_max_inline_action_depth : Z;
  bp_max_authority_depth : Z
}.

(** [quotas] and [platform_config] of [snaxlib/privileged.hpp]. *)
Record quotas := mk_quotas { q_ram_bytes : Z; q_cpu_weight : Z; q_net_weight : Z }.
Record platform_config := mk_platform { pc_account : account_name; pc_weight : double; pc_period : Z; pc_quotas : quotas }.
Record platform_request := mk_request { pr_request : Z; pr_token_amount : asset }.

(** The fields of [snax_global_state] the contract works with, its base last. *)
Record snax_global_state := mk_global {
  gs_max_ram_size : Z;
  gs_total_ram_bytes_reserved : Z;
  gs_total_ram_stake : Z;
  gs_last_producer_schedule_update : Z;
  gs_last_pervote_bucket_fill : Z;
  gs_pervote_bucket : Z;
  gs_perblock_bucket : Z;
  gs_total_unpaid_blocks : Z;
  gs_total_activated_stake : Z;
  gs_thresh_activated_stake_time : Z;
  gs_last_producer_schedule_size : Z;
  gs_total_producer_vote_weight : double;
  gs_last_name_close : Z;
  gs_total_bp_reward : asset;
  gs_initialized : bool;
  gs_system_parabola_a : Z;
  gs_system_parabola_b : Z;
  gs_params : blockchain_parameters
}.
Definition gs_resources_market_open (g : snax_global_state) : bool := negb (bp_resources_market_open (gs_params g) =? 0).

(** What an action sends: inline actions with the active authority of the sender,
    the deferred refund of an account, the calls that change the chain's
    configuration, notifications. *)
Inductive sys_effect :=
| inline_transfer (from to : account_name) (quantity : asset)
| inline_issue (to : account_name) (quantity : asset)
| send_deferred_refund (owner : account_name) (delay : Z)
| cancel_deferred (owner : account_name)
| inline_buyram (payer receiver : account_name) (quant : asset)
| inline_escrowbw (from receiver : account_name) (net cpu : asset) (transfer : bool) (period_count : Z)
| set_privileged (a : account_name) (is_priv : Z)
| set_blockchain_parameters (p : blockchain_parameters)
| propose_producers (producers : list (account_name * Z))
| notify (a : account_name).

Record connector := mk_connector { cn_balance : asset; cn_weight : double }.
Record exchange_state := mk_exchange { ex_supply : asset; ex_base : connector; ex_quote : connector }.

Record system_state := mk_system {
  sy_userres : gmap account_name user_resources;
  sy_delband : gmap (account_name * account_name) delegated_bandwidth;
  sy_refunds : gmap account_name refund_request;
  sy_voters : gmap account_name voter_info;
  sy_producers : gmap account_name producer_info;
  sy_escrow : gmap account_name (gmap Z escrow_bandwidth);
  sy_bids : gmap account_name name_bid;
  sy_rammarket : option exchange_state;
  sy_gstate : snax_global_state;
  sy_limits : gmap account_name (Z * Z * Z);
  sy_platforms : gmap account_name platform_config;
  sy_requests : gmap account_name (gmap Z platform_request);
  sy_locks : gmap account_name (gmap Z Z);
  sy_out : list sys_effect
}.

Definition set_userres (s : system_state) m : system_state :=
  mk_system m (sy_delband s) (sy_refunds s) (sy_voters s) (sy_producers s) (sy_escrow s) (sy_bids s) (sy_rammarket s)
    (sy_gstate s) (sy_limits s) (sy_platforms s) (sy_requests s) (sy_locks s) (sy_out s).
Definition set_delband (s : system_state) m : system_state :=
  mk_system (sy_userres s) m (sy_refunds s) (sy_voters s) (sy_producers s) (sy_escrow s) (sy_bids s) (sy_rammarket s)
    (sy_gstate s) (sy_limits s) (sy_platforms s) (sy_requests s) (sy_locks s) (sy_out s).
Definition set_refunds (s : system_state) m : system_state :=
  mk_system (sy_userres s) (sy_delband s) m (sy_voters s) (sy_producers s) (sy_escrow s) (sy_bids s) (sy_rammarket s)
    (sy_gstate s) (sy_limits s) (sy_platforms s) (sy_requests s) (sy_locks s) (sy_out s).
Definition set_voters (s : system_state) m : system_state :=
  mk_system (sy_userres s) (sy_delband s) (sy_refunds s) m (sy_producers s) (sy_escrow s) (sy_bids s) (sy_rammarket s)
    (sy_gstate s) (sy_limits s) (sy_platforms s) (sy_requests s) (sy_locks s) (sy_out s).
Definition set_producers (s : system_state) m : system_state :=
  mk_system (sy_userres s) (sy_delband s) (sy_refunds s) (sy_voters s) m (sy_escrow s) (sy_bids s) (sy_rammarket s)
    (sy_gstate s) (sy_limits s) (sy_platforms s) (sy_requests s) (sy_locks s) (sy_out s).
Definition set_escrow (s : system_state) m : system_state :=
  mk_system (sy_userres s) (sy_delband s) (sy_refunds s) (sy_voters s) (sy_producers s) m (sy_bids s) (sy_rammarket s)
    (sy_gstate s) (sy_limits s) (sy_platforms s) (sy_requests s) (sy_locks s) (sy_out s).
Definition set_bids (s : system_state) m : system_state :=
  mk_system (sy_userres s) (sy_delband s) (sy_refunds s) (sy_voters s) (sy_producers s) (sy_escrow s) m (sy_rammarket s)
    (sy_gstate s) (sy_limits s) (sy_platforms s) (sy_requests s) (sy_locks s) (sy_out s).
Definition set_rammarket (s : system_state) m : system_state :=
  mk_system (sy_userres s) (sy_delband s) (sy_refunds s) (sy_voters s) (sy_producers s) (sy_escrow s) (sy_bids s) m
    (sy_gstate s) (sy_limits s) (sy_platforms s) (sy_requests s) (sy_locks s) (sy_out s).
Definition set_gstate (s : system_state) g : system_state :=
  mk_system (sy_userres s) (sy_delband s) (sy_refunds s) (sy_voters s) (sy_producers s) (sy_escrow s) (sy_bids s)
    (sy_rammarket s) g (sy_limits s) (sy_platforms s) (sy_requests s) (sy_locks s) (sy_out s).
Definition set_platforms (s : system_state) m : system_state :=
  mk_system (sy_userres s) (sy_delband s) (sy_refunds s) (sy_voters s) (sy_producers s) (sy_escrow s) (sy_bids s)
    (sy_rammarket s) (sy_gstate s) (sy_limits s) m (sy_requests s) (sy_locks s) (sy_out s).
Definition set_requests (s : system_state) m : system_state :=
  mk_system (sy_userres s) (sy_delband s) (sy_refunds s) (sy_voters s) (sy_producers s) (sy_escrow s) (sy_bids s)
    (sy_rammarket s) (sy_gstate s) (sy_limits s) (sy_platforms s) m (sy_locks s) (sy_out s).
Definition set_locks (s : system_state) m : system_state :=
  mk_system (sy_userres s) (sy_delband s) (sy_refunds s) (sy_voters s) (sy_producers s) (sy_escrow s) (sy_bids s)
    (sy_rammarket s) (sy_gstate s) (sy_limits s) (sy_platforms s) (sy_requests s) m (sy_out s).

(** [set_resource_limits( a, ram, net, cpu )]. *)
Definition set_resource_limits (s : system_state) (a : account_name) (ram net cpu : Z) : system_state :=
  mk_system (sy_userres s) (sy_delband s) (sy_refunds s) (sy_voters s) (sy_producers s) (sy_escrow s) (sy_bids s)
    (sy_rammarket s) (sy_gstate s) (<[a := (ram, net, cpu)]> (sy_limits s))
    (sy_platforms s) (sy_requests s) (sy_locks s) (sy_out s).
Definition emit (s : system_state) (e : sys_effect) : system_state :=
  mk_system (sy_userres s) (sy_delband s) (sy_refunds s) (sy_voters s) (sy_producers s) (sy_escrow s) (sy_bids s)
    (sy_rammarket s) (sy_gstate s) (sy_limits s) (sy_platforms s) (sy_requests s) (sy_locks s)
    (sy_out s ++ [e]).

(** What the chain tells the contract; [sc_set_proposed] is the result of
    [set_proposed_producers]. *)
Record sys_context := mk_sys_context {
  sc_self : account_name;
  sc_has_auth : account_name -> bool;
  sc_is_privileged : account_name -> bool;
  sc_is_account : account_name -> bool;
  sc_now : Z;
  sc_current_time : Z;
  sc_set_proposed : list (account_name * Z) -> Z
}.

Definition sys_require_auth (cx : sys_context) (a : account_name) : result unit :=
  SNAX_ASSERT (sc_has_auth cx a) missing_auth_exception.

(** ** Votes *)

Section Voting.
Context `{CMath} (cx : sys_context).

(** The slot of a time in seconds, and the seconds of a slot
    ([block_timestamp] of [snaxlib/time.hpp]). *)
Definition slot_of_seconds (sec : Z) : Z := u32 (Z.quot (sec * 1000 - 946684800000) 500).
Definition seconds_of_slot (slot : Z) : Z := Z.quot ((slot * 500 + 946684800000) * 1000) 1000000.

Definition stake2vote (staked : Z) : double :=
  let weight := ddiv (of_int (Z.quot (sc_now cx - Z.quot 946684800000 1000) (seconds_per_day * 7))) (of_int 52) in
  dmul (ddiv (of_int staked) (of_int 100)) (dpow (of_int 2) weight).

(** [apply_vote_weight]; the table of multipliers has thirty entries. *)
Definition apply_vote_weight (voter : account_name) (vote_weight : double) (iter : Z) : result double :=
  if voter =? snax_team then
    m ← of_option undefined_behavior (snax_vote_multipliers !! Z.to_nat iter); mret (dmul vote_weight m)
  else mret vote_weight.

Definition set_last_vote_weight (v : voter_info) (w : double) : voter_info :=
  mk_voter (vi_proxy v) (vi_producers v) (vi_staked v) w (vi_proxied_vote_weight v) (vi_is_proxy v).
Definition set_proxied_vote_weight (v : voter_info) (w : double) : voter_info :=
  mk_voter (vi_proxy v) (vi_producers v) (vi_staked v) (vi_last_vote_weight v) w (vi_is_proxy v).
Definition set_total_votes (p : producer_info) (w : double) : producer_info :=
  mk_producer w (pi_producer_key p) (pi_is_active p) (pi_url p) (pi_unpaid_blocks p) (pi_last_claim_time p)
    (pi_last_block_time p) (pi_last_top_list_entry_time p) (pi_location p).
Definition set_vote_weight (g : snax_global_state) (w : double) : snax_global_state :=
  mk_global (gs_max_ram_size g) (gs_total_ram_bytes_reserved g) (gs_total_ram_stake g)
    (gs_last_producer_schedule_update g) (gs_last_pervote_bucket_fill g) (gs_pervote_bucket g) (gs_perblock_bucket g)
    (gs_total_unpaid_blocks g) (gs_total_activated_stake g) (gs_thresh_activated_stake_time g)
    (gs_last_producer_schedule_size g) w (gs_last_name_close g) (gs_total_bp_reward g) (gs_initialized g)
    (gs_system_parabola_a g) (gs_system_parabola_b g) (gs_params g).
Definition set_activated (g : snax_global_state) (stake time : Z) : snax_global_state :=
  mk_global (gs_max_ram_size g) (gs_total_ram_bytes_reserved g) (gs_total_ram_stake g)
    (gs_last_producer_schedule_update g) (gs_last_pervote_bucket_fill g) (gs_pervote_bucket g) (gs_perblock_bucket g)
    (gs_total_unpaid_blocks g) stake time (gs_last_producer_schedule_size g) (gs_total_producer_vote_weight g)
    (gs_last_name_close g) (gs_total_bp_reward g) (gs_initialized g)
    (gs_system_parabola_a g) (gs_system_parabola_b g) (gs_params g).

(** [_voters.modify( .. )] of the row of [name]. *)
Definition modify_voter (s : system_state) (name : account_name) (f : voter_info -> voter_info) : system_state :=
  set_voters s (alter f name (sy_voters s)).

(** [_producers.modify( .. )] of [total_votes]: the table is indexed by it, and an
    index refuses NaN. *)
Definition store_votes (s : system_state) (name : account_name) (p : producer_info) (votes : double) : result system_state :=
  SNAX_ASSERT (negb (is_nan votes)) transaction_exception;;
  mret (set_producers s (<[name := set_total_votes p votes]> (sy_producers s))).

(** [p.total_votes += votes; _gstate.total_producer_vote_weight += votes]. *)
Definition add_votes (s : system_state) (name : account_name) (p : producer_info) (votes : double) : result system_state :=
  s ← store_votes s name p (dadd (pi_total_votes p) votes);
  mret (set_gstate s (set_vote_weight (sy_gstate s) (dadd (gs_total_producer_vote_weight (sy_gstate s)) votes))).

(** The loop over [voter.producers] of [propagate_weight_change]. *)
Fixpoint propagate_to_producers (s : system_state) (owner : account_name) (delta : double) (iter : Z)
    (producers : list account_name) : result system_state :=
  match producers with
  | [] => mret s
  | acnt :: rest =>
      s ← (if acnt =? 0 then mret s
           else
             p ← of_option snax_assert_message (sy_producers s !! acnt);
             votes ← apply_vote_weight owner delta iter;
             add_votes s acnt p votes);
      propagate_to_producers s owner delta (u8 (iter + 1)) rest
  end.

(** The weight of a voter's own stake and, for a proxy, of those it votes for. *)
Definition voter_weight (v : voter_info) : double :=
  let w := stake2vote (vi_staked v) in
  if vi_is_proxy v then dadd w (vi_proxied_vote_weight v) else w.

(** The recursion follows the chain of proxies. *)
Fixpoint propagate_weight_change (fuel : nat) (s : system_state) (name : account_name) : result system_state :=
  match fuel with
  | O => Err out_of_fuel
  | S fuel =>
      v ← of_option snax_assert_message (sy_voters s !! name);
      snax_assert ((vi_proxy v =? 0) || negb (vi_is_proxy v));;
      let new_weight := voter_weight v in
      s ← (if dlt (of_int 1) (dabs (dsub new_weight (vi_last_vote_weight v))) then
             if negb (vi_proxy v =? 0) then
               of_option snax_assert_message (sy_voters s !! vi_proxy v);;
               let s := modify_voter s (vi_proxy v) (fun p => set_proxied_vote_weight p
                 (dadd (vi_proxied_vote_weight p) (dsub new_weight (vi_last_vote_weight v)))) in
               propagate_weight_change fuel s (vi_proxy v)
             else
               propagate_to_producers s name (dsub new_weight (vi_last_vote_weight v)) 0 (vi_producers v)
           else mret s);
      mret (modify_voter s name (fun v => set_last_vote_weight v new_weight))
  end.

(** Enough for any chain of proxies, see [VotingProofs.v]. *)
Definition propagate (s : system_state) (name : account_name) : result system_state :=
  propagate_weight_change (S (size (sy_voters s))) s name.

(** [boost::container::flat_map< account_name, pair<double, bool> >], in the order
    of its keys; a new entry is [( 0.0, false )]. *)
Definition deltas : Type := list (account_name * (double * bool)).
Fixpoint upsert (m : deltas) (k : account_name) (f : double -> double) (b : bool) : deltas :=
  match m with
  | [] => [(k, (f (of_int 0), b))]
  | (k', (d, b')) :: m' =>
      if k =? k' then (k, (f d, b)) :: m'
      else if k <? k' then (k, (f (of_int 0), b)) :: m
      else (k', (d, b')) :: upsert m' k f b
  end.

(** The two loops that fill [producer_deltas]. *)
Fixpoint collect_deltas (op : double -> double -> double) (fresh : bool) (m : deltas) (voter : account_name)
    (weight : double) (iter : Z) (producers : list account_name) : result deltas :=
  match producers with
  | [] => mret m
  | p :: rest =>
      m ← (if p =? 0 then mret m
           else w ← apply_vote_weight voter weight iter; mret (upsert m p (fun d => op d w) fresh));
      collect_deltas op fresh m voter weight (u8 (iter + 1)) rest
  end.

(** The loop over [producer_deltas]. *)
Fixpoint apply_deltas (s : system_state) (voting : bool) (m : deltas) : result system_state :=
  match m with
  | [] => mret s
  | (name, (d, fresh)) :: m =>
      s ← match sy_producers s !! name with
          | Some p =>
              snax_assert (negb voting || pi_is_active p || negb fresh);;
              let t := dadd (pi_total_votes p) d in
              let t := if dlt t (of_int 0) then of_int 0 else t in
              s ← store_votes s name p t;
              mret (set_gstate s (set_vote_weight (sy_gstate s) (dadd (gs_total_producer_vote_weight (sy_gstate s)) d)))
          | None => snax_assert (negb fresh);; mret s
          end;
      apply_deltas s voting m
  end.

(** [*producer == 0 || *producer_to_compare != *producer] for all pairs. *)
Fixpoint unique_producers (l : list account_name) : bool :=
  match l with
  | [] => true
  | p :: l => ((p =? 0) || forallb (fun q => negb (q =? p)) l) && unique_producers l
  end.

(** The checks of the arguments, before any table is read. *)
Definition validate_vote (s : system_state) (voter_name proxy : account_name) (producers : list account_name) :
    result system_state :=
  if negb (proxy =? 0) then
    snax_assert (Z.of_nat (length producers) =? 0);;
    snax_assert (negb (voter_name =? proxy));;
    mret (emit s (notify proxy))
  else
    snax_assert (Z.of_nat (length producers) <=? 30);;
    snax_assert (unique_producers producers);;
    mret s.

(** A voter who votes for the first time activates the stake. *)
Definition activate_stake (s : system_state) (v : voter_info) : result system_state :=
  if dle (vi_last_vote_weight v) (of_int 0) then
    let g := sy_gstate s in
    stake ← checked_i64 (gs_total_activated_stake g + vi_staked v);
    let time := if (min_activated_stake <=? stake) && (gs_thresh_activated_stake_time g =? 0)
                then sc_current_time cx else gs_thresh_activated_stake_time g in
    mret (set_gstate s (set_activated g stake time))
  else mret s.

(** The previous vote is taken back. *)
Definition retract_vote (s : system_state) (voter_name : account_name) : result (system_state * deltas) :=
  v ← of_option undefined_behavior (sy_voters s !! voter_name);
  if dlt (of_int 0) (vi_last_vote_weight v) then
    if negb (vi_proxy v =? 0) then
      of_option snax_assert_message (sy_voters s !! vi_proxy v);;
      let s := modify_voter s (vi_proxy v) (fun vp => set_proxied_vote_weight vp
        (dsub (vi_proxied_vote_weight vp) (vi_last_vote_weight v))) in
      s ← propagate s (vi_proxy v); mret (s, [])
    else m ← collect_deltas dsub false [] voter_name (vi_last_vote_weight v) 0 (vi_producers v); mret (s, m)
  else mret (s, []).

(** The new vote is cast. *)
Definition cast_vote (s : system_state) (voter_name proxy : account_name) (producers : list account_name)
    (voting : bool) (new_vote_weight : double) (m : deltas) : result (system_state * deltas) :=
  if negb (proxy =? 0) then
    np ← of_option snax_assert_message (sy_voters s !! proxy);
    snax_assert (negb voting || vi_is_proxy np);;
    if dle (of_int 0) new_vote_weight then
      let s := modify_voter s proxy (fun vp => set_proxied_vote_weight vp
        (dadd (vi_proxied_vote_weight vp) new_vote_weight)) in
      s ← propagate s proxy; mret (s, m)
    else mret (s, m)
  else if dle (of_int 0) new_vote_weight then
    m ← collect_deltas dadd true m voter_name new_vote_weight 0 producers; mret (s, m)
  else mret (s, m).

Definition update_votes (s : system_state) (voter_name proxy : account_name) (producers : list account_name)
    (voting : bool) : result system_state :=
  s ← validate_vote s voter_name proxy producers;
  v ← of_option snax_assert_message (sy_voters s !! voter_name);
  snax_assert ((proxy =? 0) || negb (vi_is_proxy v));;
  s ← activate_stake s v;
  let new_vote_weight := voter_weight v in
  '(s, m) ← retract_vote s voter_name;
  '(s, m) ← cast_vote s voter_name proxy producers voting new_vote_weight m;
  s ← apply_deltas s voting m;
  mret (modify_voter s voter_name (fun av =>
    mk_voter proxy producers (vi_staked av) new_vote_weight (vi_proxied_vote_weight av) (vi_is_proxy av))).

Definition voteproducer (s : system_state) (voter_name proxy : account_name) (producers : list account_name) :
    result system_state :=
  sys_require_auth cx voter_name;; update_votes s voter_name proxy producers true.

Definition new_voter (staked : Z) (is_proxy : bool) : voter_info := mk_voter 0 [] staked (of_int 0) (of_int 0) is_proxy.

Definition regproxy (s : system_state) (proxy : account_name) (isproxy : bool) : result system_state :=
  sys_require_auth cx proxy;;
  match sy_voters s !! proxy with
  | Some v =>
      snax_assert (negb (Bool.eqb isproxy (vi_is_proxy v)));;
      snax_assert (negb isproxy || (vi_proxy v =? 0));;
      let s := modify_voter s proxy (fun p =>
        mk_voter (vi_proxy p) (vi_producers p) (vi_staked p) (vi_last_vote_weight p) (vi_proxied_vote_weight p) isproxy) in
      propagate s proxy
  | None => mret (set_voters s (<[proxy := new_voter 0 isproxy]> (sy_voters s)))
  end.

End Voting.
