(* ===== verification/VotingProofs.v ===== *)
(** * Votes and proxies

    Proxies form a forest in every state the contract reaches, so the change of a
    weight that travels from proxy to proxy comes to an end; and it changes
    weights only. *)

From Stdlib Require Import ZArith Lia Bool.
From stdpp Require Import base numbers gmap relations sets list.
From S2P Require Import Prelude Name BlockHeader Token Float64 SystemContract.

Open Scope Z_scope.

(** ** What votes change *)

(** The parts of a row that are not weights. *)
Definition voter_key (v : voter_info) : account_name * list account_name * Z * bool :=
  (vi_proxy v, vi_producers v, vi_staked v, vi_is_proxy v).
Definition producer_key_of (p : producer_info) : producer_info := set_total_votes p (of_int 0).
Definition global_key (g : snax_global_state) : snax_global_state := set_vote_weight g (of_int 0).

Definition same_voters (V V' : gmap account_name voter_info) : Prop :=
  forall a, voter_key <$> V !! a = voter_key <$> V' !! a.

#[export] Instance same_voters_equivalence : Equivalence same_voters.
Proof. split; [by intros V a|by intros V V' HV a|intros V1 V2 V3 H1 H2 a; by rewrite H1, H2]. Qed.

Record weights_only (s s' : system_state) : Prop := {
  wo_voters : same_voters (sy_voters s) (sy_voters s');
  wo_producers a : producer_key_of <$> sy_producers s !! a = producer_key_of <$> sy_producers s' !! a;
  wo_gstate : global_key (sy_gstate s) = global_key (sy_gstate s');
  wo_userres : sy_userres s = sy_userres s';
  wo_delband : sy_delband s = sy_delband s';
  wo_refunds : sy_refunds s = sy_refunds s';
  wo_escrow : sy_escrow s = sy_escrow s';
  wo_bids : sy_bids s = sy_bids s';
  wo_rammarket : sy_rammarket s = sy_rammarket s';
  wo_limits : sy_limits s = sy_limits s';
  wo_out : sy_out s = sy_out s'
}.

#[export] Instance weights_only_preorder : PreOrder weights_only.
Proof.
  split; [done|]. intros s1 s2 s3 [V1 P1] [V2 P2]. constructor; [by etrans|intros a; by rewrite P1, P2|congruence..].
Qed.

Lemma modify_voter_weights s a f :
  (forall v, voter_key (f v) = voter_key v) -> weights_only s (modify_voter s a f).
Proof.
  intros Hf. constructor; try done. intros b. simpl. destruct (decide (a = b)) as [<-|Hne].
  - rewrite lookup_alter_eq. destruct (sy_voters s !! a); simpl; [by rewrite Hf|done].
  - by rewrite lookup_alter_ne.
Qed.

Lemma store_votes_weights s a p w s' : sy_producers s !! a = Some p -> store_votes s a p w = Ok s' -> weights_only s s'.
Proof.
  intros Hp E. apply bind_Ok in E as ([] & _ & E). injection E as <-. constructor; try done. intros b. simpl.
  destruct (decide (a = b)) as [<-|Hne]; [by rewrite lookup_insert_eq, Hp|by rewrite lookup_insert_ne].
Qed.

Lemma set_vote_weight_weights s w : weights_only s (set_gstate s (set_vote_weight (sy_gstate s) w)).
Proof. by constructor. Qed.

Lemma add_votes_weights s a p w s' : sy_producers s !! a = Some p -> add_votes s a p w = Ok s' -> weights_only s s'.
Proof.
  intros Hp E. apply bind_Ok in E as (s1 & E1 & E). injection E as <-. eapply store_votes_weights in E1; [|done].
  etrans; [exact E1|apply set_vote_weight_weights].
Qed.

Lemma add_votes_cases s a p w : (exists s', add_votes s a p w = Ok s') \/ add_votes s a p w = Err transaction_exception.
Proof. unfold add_votes, store_votes. destruct (is_nan _); [by right|left; by eexists]. Qed.

Section Weights.
Context `{CMath} (cx : sys_context).

Lemma propagate_to_producers_weights owner delta ps : forall s iter s',
  propagate_to_producers s owner delta iter ps = Ok s' -> weights_only s s'.
Proof.
  induction ps as [|p ps IH]; intros s iter s' E; simpl in E; [by injection E as <-|].
  apply bind_Ok in E as (s1 & E1 & E). etrans; [|by eapply IH]. destruct (p =? 0); [by injection E1 as <-|].
  apply bind_Ok in E1 as (q & Hq & E1). apply of_option_Ok in Hq. apply bind_Ok in E1 as (w & _ & E1).
  by eapply add_votes_weights.
Qed.

Lemma propagate_weights fuel : forall s name s', propagate_weight_change cx fuel s name = Ok s' -> weights_only s s'.
Proof.
  induction fuel as [|fuel IH]; intros s name s' E; simpl in E; [done|].
  apply bind_Ok in E as (v & Hv & E). apply bind_Ok in E as ([] & _ & E). apply bind_Ok in E as (s1 & E1 & E).
  injection E as <-. etrans; [|by apply modify_voter_weights]. destruct (dlt _ _); [|by injection E1 as <-].
  destruct (negb _).
  - apply bind_Ok in E1 as (p & _ & E1). etrans; [|by eapply IH]. by apply modify_voter_weights.
  - by eapply propagate_to_producers_weights.
Qed.

Lemma apply_deltas_weights voting m : forall s s', apply_deltas s voting m = Ok s' -> weights_only s s'.
Proof.
  induction m as [|[a [d fresh]] m IH]; intros s s' E; simpl in E; [by injection E as <-|].
  apply bind_Ok in E as (s1 & E1 & E). etrans; [|by eapply IH]. destruct (sy_producers s !! a) as [p|] eqn:Hp.
  - apply bind_Ok in E1 as ([] & _ & E1). apply bind_Ok in E1 as (s2 & E2 & E1). injection E1 as <-.
    eapply store_votes_weights in E2; [|done]. etrans; [exact E2|apply set_vote_weight_weights].
  - apply bind_Ok in E1 as ([] & _ & E1). by injection E1 as <-.
Qed.

Lemma retract_vote_weights s a s' m : retract_vote cx s a = Ok (s', m) -> weights_only s s'.
Proof.
  intros E. unfold retract_vote in E. apply bind_Ok in E as (v & _ & E). destruct (dlt _ _); [|by injection E as <- _].
  destruct (negb _); [|by apply bind_Ok in E as (m' & _ & E); injection E as <- _].
  apply bind_Ok in E as (p & _ & E). apply bind_Ok in E as (s1 & E1 & E). injection E as <- _.
  etrans; [|by eapply propagate_weights]. by apply modify_voter_weights.
Qed.

Lemma cast_vote_weights s a proxy ps voting w m s' m' :
  cast_vote cx s a proxy ps voting w m = Ok (s', m') ->
  weights_only s s' /\ (proxy <> 0 -> exists v, sy_voters s !! proxy = Some v /\ (voting = true -> vi_is_proxy v = true)).
Proof.
  intros E. unfold cast_vote in E. destruct (Z.eqb_spec proxy 0) as [->|Hp]; cbn [negb] in E.
  - split; [|done]. destruct (dle _ _); [|by injection E as <- _].
    apply bind_Ok in E as (m1 & _ & E). by injection E as <- _.
  - apply bind_Ok in E as (np & Hnp & E). apply of_option_Ok in Hnp. apply bind_Ok in E as ([] & Hv & E).
    apply assert_Ok in Hv. split; [|intros _; exists np; split; [done|by intros ->]].
    destruct (dle _ _); [|by injection E as <- _]. apply bind_Ok in E as (s1 & E1 & E). injection E as <- _.
    etrans; [|by eapply propagate_weights]. by apply modify_voter_weights.
Qed.

End Weights.

(** ** Proxies form a forest *)

(** [a] votes through [b]. *)
Definition uses_proxy (V : gmap account_name voter_info) (a b : account_name) : Prop :=
  exists v, V !! a = Some v /\ vi_proxy v = b /\ b <> 0.

Record voters_ok (V : gmap account_name voter_info) : Prop := {
  vo_exists a b : uses_proxy V a b -> is_Some (V !! b);
  vo_leaf a v : V !! a = Some v -> vi_is_proxy v = true -> vi_proxy v = 0;
  vo_rank : exists rank : account_name -> nat, forall a b, uses_proxy V a b -> (rank b < rank a)%nat
}.

Lemma rank_acyclic V (rank : account_name -> nat) a b :
  (forall a b, uses_proxy V a b -> (rank b < rank a)%nat) -> tc (uses_proxy V) a b -> (rank b < rank a)%nat.
Proof. intros Hr. induction 1 as [a b Hab|a b c Hab _ IH]; [by apply Hr|]. apply Hr in Hab. lia. Qed.

Lemma voters_ok_acyclic V a : voters_ok V -> ~ tc (uses_proxy V) a a.
Proof. intros [_ _ [rank Hr]] Ht. apply (rank_acyclic V rank a a Hr) in Ht. lia. Qed.

Lemma same_voters_lookup V V' a v :
  same_voters V V' -> V' !! a = Some v -> exists w, V !! a = Some w /\ voter_key w = voter_key v.
Proof. intros HV Hv. specialize (HV a). rewrite Hv in HV. apply fmap_Some in HV as (w & Hw & E). eauto. Qed.

Lemma same_voters_uses V V' a b : same_voters V V' -> uses_proxy V' a b -> uses_proxy V a b.
Proof.
  intros HV (v & Hv & Hp & Hb). destruct (same_voters_lookup V V' a v HV Hv) as (w & Hw & E). exists w.
  unfold voter_key in E. split_and!; congruence.
Qed.

Lemma same_voters_ok V V' : same_voters V V' -> voters_ok V -> voters_ok V'.
Proof.
  intros HV [He Hl [rank Hr]]. constructor.
  - intros a b Hab. apply (same_voters_uses _ _ _ _ HV), He in Hab as [v Hv]. specialize (HV b). rewrite Hv in HV.
    symmetry in HV. apply fmap_Some in HV as (w & Hw & _). eauto.
  - intros a v Hv Hp. destruct (same_voters_lookup V V' a v HV Hv) as (w & Hw & E). unfold voter_key in E.
    specialize (Hl a w Hw). simplify_eq. rewrite <- H. apply Hl. congruence.
  - exists rank. intros a b Hab. apply Hr. by eapply same_voters_uses.
Qed.

#[export] Instance voters_ok_proper : Proper (same_voters ==> iff) voters_ok.
Proof. intros V V' HV. split; apply same_voters_ok; [done|by symmetry]. Qed.

(** ** The change of a weight comes to an end *)

(** Every vote is for a registered producer. *)
Definition producers_known (s : system_state) : Prop :=
  forall a v, sy_voters s !! a = Some v ->
    Z.of_nat (length (vi_producers v)) <= 30 /\
    forall p, p ∈ vi_producers v -> p <> 0 -> is_Some (sy_producers s !! p).

Lemma weights_only_known s s' : weights_only s s' -> producers_known s -> producers_known s'.
Proof.
  intros Hw Hk a v Hv. destruct (same_voters_lookup _ _ a v (wo_voters _ _ Hw) Hv) as (w & Hw' & E).
  unfold voter_key in E. specialize (Hk a w Hw'). assert (vi_producers w = vi_producers v) as <- by congruence.
  destruct Hk as [Hl Hk]. split; [done|]. intros p Hp Hn. specialize (Hk p Hp Hn) as [q Hq].
  pose proof (wo_producers _ _ Hw p) as Hpp. rewrite Hq in Hpp. symmetry in Hpp. apply fmap_Some in Hpp as (r & Hr & _). eauto.
Qed.

Section Termination.
Context `{CMath} (cx : sys_context).

Lemma apply_vote_weight_Ok a w iter : 0 <= iter < 30 -> exists d, apply_vote_weight a w iter = Ok d.
Proof.
  intros Hi. unfold apply_vote_weight. destruct (a =? snax_team); [|eauto].
  destruct (snax_vote_multipliers !! Z.to_nat iter) as [m|] eqn:Hm; [eexists; done|].
  apply lookup_ge_None in Hm. simpl in Hm. lia.
Qed.

Lemma apply_vote_weight_fuel a w iter : apply_vote_weight a w iter <> Err out_of_fuel.
Proof. unfold apply_vote_weight. destruct (a =? snax_team); [|done]. by destruct (_ !! _). Qed.

Lemma propagate_to_producers_fuel owner delta ps : forall s iter,
  propagate_to_producers s owner delta iter ps <> Err out_of_fuel.
Proof.
  induction ps as [|p ps IH]; intros s iter; simpl; [done|]. intros E. apply bind_Err in E as [E|(s1 & _ & E)]; [|by apply IH in E].
  destruct (p =? 0); [done|]. apply bind_Err in E as [E|(q & _ & E)]; [by apply of_option_Err in E as [_ E]|].
  apply bind_Err in E as [E|(w & _ & E)]; [by apply apply_vote_weight_fuel in E|].
  destruct (add_votes_cases s p q w) as [[s1 E1]|E1]; congruence.
Qed.

(** It succeeds, unless the index of producers is given NaN. *)
Definition settles (r : result system_state) : Prop := (exists s', r = Ok s') \/ r = Err transaction_exception.

Lemma propagate_to_producers_settles owner delta ps : forall s iter,
  0 <= iter -> iter + Z.of_nat (length ps) <= 30 ->
  (forall p, p ∈ ps -> p <> 0 -> is_Some (sy_producers s !! p)) ->
  settles (propagate_to_producers s owner delta iter ps).
Proof.
  induction ps as [|p ps IH]; intros s iter H0 Hi Hk; simpl; [left; eexists; done|]. simpl in Hi.
  set (r := if p =? 0 then mret s else _).
  assert ((exists s1, r = Ok s1 /\ weights_only s s1) \/ r = Err transaction_exception) as [(s1 & -> & Hw)| ->]; [|..|by right].
  { unfold r. destruct (Z.eqb_spec p 0) as [->|Hp]; [left; by exists s|]. destruct (Hk p ltac:(by left) Hp) as [q Hq]. rewrite Hq.
    destruct (apply_vote_weight_Ok owner delta iter) as [w Ew]; [lia|]. cbn [of_option mbind result_bind]. rewrite Ew.
    cbn [mbind result_bind]. destruct (add_votes_cases s p q w) as [[s1 E1]| ->]; [|by right].
    left. exists s1. split; [done|by eapply add_votes_weights]. }
  cbn [mbind result_bind]. apply IH.
  - unfold u8. apply Z.mod_pos_bound. done.
  - unfold u8, wrap. rewrite Z.mod_small by lia. lia.
  - intros q Hq Hn. destruct (Hk q ltac:(by right) Hn) as [r Hr]. pose proof (wo_producers _ _ Hw q) as Hpp.
    rewrite Hr in Hpp. symmetry in Hpp. apply fmap_Some in Hpp as (x & Hx & _). eauto.
Qed.

(** Along a chain of proxies the accounts already passed, [X], are all different. *)
Lemma propagate_bounded (rank : account_name -> nat) fuel : forall s name (X : gset account_name),
  voters_ok (sy_voters s) -> (forall a b, uses_proxy (sy_voters s) a b -> (rank b < rank a)%nat) ->
  is_Some (sy_voters s !! name) -> X ⊆ dom (sy_voters s) -> (forall x, x ∈ X -> (rank name < rank x)%nat) ->
  (size (sy_voters s) < size X + fuel)%nat ->
  propagate_weight_change cx fuel s name <> Err out_of_fuel /\
  (producers_known s -> settles (propagate_weight_change cx fuel s name)).
Proof.
  induction fuel as [|fuel IH]; intros s name X Hok Hr [v Hv] HX Hlt Hsz.
  { pose proof (subseteq_size _ _ HX) as Hle. rewrite size_dom in Hle. lia. }
  cbn [propagate_weight_change]. rewrite Hv. cbn [of_option mbind result_bind].
  assert ((vi_proxy v =? 0) || negb (vi_is_proxy v) = true) as Hleaf.
  { destruct (vi_is_proxy v) eqn:Hp; [|by rewrite orb_true_r]. by rewrite (vo_leaf _ Hok name v Hv Hp). }
  unfold snax_assert. rewrite Hleaf. cbn [SNAX_ASSERT mbind result_bind].
  set (r := if dlt _ _ then _ else _). 
  assert (r <> Err out_of_fuel /\ (producers_known s -> settles r)) as [Hr1 Hr2].
  { unfold r. destruct (dlt _ _); [|split; [done|intros _; left; by eexists]]. destruct (Z.eqb_spec (vi_proxy v) 0) as [Hp|Hp]; cbn [negb].
    { split; [apply propagate_to_producers_fuel|]. intros Hk. destruct (Hk name v Hv) as [Hlen Hpk].
      apply propagate_to_producers_settles; [lia|lia|done]. }
    assert (uses_proxy (sy_voters s) name (vi_proxy v)) as Hu by (by exists v).
    destruct (vo_exists _ Hok _ _ Hu) as [w Hw]. rewrite Hw. cbn [of_option mbind result_bind].
    set (s1 := modify_voter _ _ _). assert (weights_only s s1) as Hw1 by (by apply modify_voter_weights).
    assert (dom (sy_voters s1) = dom (sy_voters s)) as Hdom by apply dom_alter_L.
    destruct (IH s1 (vi_proxy v) (X ∪ {[name]})) as [IH1 IH2].
    - by rewrite <- (wo_voters _ _ Hw1).
    - intros a b Hab. apply Hr. eapply same_voters_uses; [apply (wo_voters _ _ Hw1)|done].
    - apply elem_of_dom. rewrite Hdom. by apply elem_of_dom.
    - rewrite Hdom. apply union_subseteq. split; [done|]. apply singleton_subseteq_l, elem_of_dom. eauto.
    - intros x [Hx|Hx%elem_of_singleton]%elem_of_union; [|subst x; by apply Hr]. specialize (Hlt x Hx). specialize (Hr _ _ Hu). lia.
    - rewrite size_union; [|set_unfold; intros x Hx ->; specialize (Hlt _ Hx); lia].
      rewrite size_singleton. rewrite <- size_dom, Hdom, size_dom. lia.
    - split; [done|]. intros Hk. apply IH2. by eapply weights_only_known. }
  split.
  - intros E. apply bind_Err in E as [E|(s1 & _ & E)]; [done|done].
  - intros Hk. destruct (Hr2 Hk) as [[s1 ->]| ->]; [left; by eexists|by right].
Qed.

Lemma propagate_total s name :
  voters_ok (sy_voters s) -> is_Some (sy_voters s !! name) ->
  propagate cx s name <> Err out_of_fuel /\ (producers_known s -> settles (propagate cx s name)).
Proof.
  intros Hok Hn. destruct (vo_rank _ Hok) as [rank Hr]. apply (propagate_bounded rank _ s name ∅); try done.
  rewrite size_empty. lia.
Qed.

End Termination.

(** ** Voting *)

(** The fields of the RAM market and of the rewards, and the mark of the premine. *)
Definition ledger_key (g : snax_global_state) : Z * Z * Z * Z * Z * Z * bool :=
  (gs_max_ram_size g, gs_total_ram_bytes_reserved g, gs_total_ram_stake g,
   gs_pervote_bucket g, gs_perblock_bucket g, gs_total_unpaid_blocks g, gs_initialized g).

(** The tables of stakes, which votes do not touch. *)
Record same_stakes (s s' : system_state) : Prop := {
  ss_userres : sy_userres s = sy_userres s';
  ss_delband : sy_delband s = sy_delband s';
  ss_refunds : sy_refunds s = sy_refunds s';
  ss_escrow : sy_escrow s = sy_escrow s';
  ss_bids : sy_bids s = sy_bids s';
  ss_rammarket : sy_rammarket s = sy_rammarket s';
  ss_limits : sy_limits s = sy_limits s';
  ss_ledger : ledger_key (sy_gstate s) = ledger_key (sy_gstate s');
  ss_unpaid a : pi_unpaid_blocks <$> sy_producers s !! a = pi_unpaid_blocks <$> sy_producers s' !! a
}.

#[export] Instance same_stakes_preorder : PreOrder same_stakes.
Proof. split; [done|]. intros s1 s2 s3 [] []. constructor; congruence || (intros a; congruence). Qed.

Lemma same_key_unpaid (P P' : gmap account_name producer_info) a :
  producer_key_of <$> P !! a = producer_key_of <$> P' !! a -> pi_unpaid_blocks <$> P !! a = pi_unpaid_blocks <$> P' !! a.
Proof.
  intros E. apply (f_equal (fmap pi_unpaid_blocks)) in E. rewrite <- !option_fmap_compose in E.
  by destruct (P !! a), (P' !! a).
Qed.

Lemma weights_only_stakes s s' : weights_only s s' -> same_stakes s s'.
Proof.
  intros [_ HP HG]. constructor; try done; [by apply (f_equal ledger_key) in HG|]. intros a. by apply same_key_unpaid.
Qed.

Definition revote (proxy : account_name) (ps : list account_name) (w : double) (v : voter_info) : voter_info :=
  mk_voter proxy ps (vi_staked v) w (vi_proxied_vote_weight v) (vi_is_proxy v).

(** The effects that move tokens. *)
Definition is_transfer (e : sys_effect) : bool :=
  match e with inline_transfer _ _ _ | inline_issue _ _ => true | _ => false end.

Section Update.
Context `{CMath} (cx : sys_context).

(** What [update_votes] checks and does, weights apart. *)
Record voted (s : system_state) (a proxy : account_name) (ps : list account_name) (voting : bool) (s' : system_state) : Prop := {
  vd_voter : exists v, sy_voters s !! a = Some v /\ (proxy <> 0 -> vi_is_proxy v = false);
  vd_proxy : proxy <> 0 -> a <> proxy /\ ps = [] /\
    exists pv, sy_voters s !! proxy = Some pv /\ (voting = true -> vi_is_proxy pv = true);
  vd_voters : exists w, same_voters (alter (revote proxy ps w) a (sy_voters s)) (sy_voters s');
  vd_length : Z.of_nat (length ps) <= 30;
  vd_stakes : same_stakes s s';
  vd_producers b : producer_key_of <$> sy_producers s !! b = producer_key_of <$> sy_producers s' !! b;
  vd_out : List.filter is_transfer (sy_out s') = List.filter is_transfer (sy_out s)
}.

Lemma validate_vote_Ok s a proxy ps s' :
  validate_vote s a proxy ps = Ok s' ->
  s' = (if proxy =? 0 then s else emit s (notify proxy)) /\ Z.of_nat (length ps) <= 30 /\
  (proxy <> 0 -> a <> proxy /\ ps = []).
Proof.
  unfold validate_vote. destruct (Z.eqb_spec proxy 0) as [->|Hp]; cbn [negb]; intros E.
  - apply bind_Ok in E as ([] & Hl & E). apply assert_Ok, Z.leb_le in Hl. apply bind_Ok in E as ([] & _ & E).
    injection E as <-. done.
  - apply bind_Ok in E as ([] & Hl & E). apply assert_Ok, Z.eqb_eq in Hl. apply bind_Ok in E as ([] & Hn & E).
    apply assert_Ok in Hn. split_bool. injection E as <-. destruct ps; [|simpl in Hl; lia]. done.
Qed.

Lemma activate_stake_Ok s v s' :
  activate_stake cx s v = Ok s' ->
  same_stakes s s' /\ sy_voters s' = sy_voters s /\ sy_producers s' = sy_producers s /\ sy_out s' = sy_out s.
Proof.
  unfold activate_stake. destruct (dle _ _); intros E; [|by injection E as <-].
  apply bind_Ok in E as (st & _ & E). by injection E as <-.
Qed.

Lemma same_voters_alter f a V V' :
  (forall v w, voter_key v = voter_key w -> voter_key (f v) = voter_key (f w)) ->
  same_voters V V' -> same_voters (alter f a V) (alter f a V').
Proof.
  intros Hf HV b. specialize (HV b). destruct (decide (a = b)) as [<-|Hne]; [|by rewrite !lookup_alter_ne].
  rewrite !lookup_alter_eq. destruct (V !! a) as [v|], (V' !! a) as [w|]; simpl in *; try done. f_equal. apply Hf. congruence.
Qed.

Lemma revote_key proxy ps w v v' : voter_key v = voter_key v' -> voter_key (revote proxy ps w v) = voter_key (revote proxy ps w v').
Proof. unfold voter_key. intros E. simpl. congruence. Qed.

Lemma update_votes_voted s a proxy ps voting s' :
  update_votes cx s a proxy ps voting = Ok s' -> voted s a proxy ps voting s'.
Proof.
  intros E. unfold update_votes in E. apply bind_Ok in E as (s0 & E0 & E).
  apply validate_vote_Ok in E0 as (Hs0 & Hlen & Hpx).
  assert (sy_voters s0 = sy_voters s /\ sy_producers s0 = sy_producers s /\ same_stakes s s0 /\
    List.filter is_transfer (sy_out s0) = List.filter is_transfer (sy_out s)) as (EV0 & EP0 & ES0 & EO0).
  { subst s0. destruct (proxy =? 0); [done|]. split_and!; try done. simpl. by rewrite List.filter_app, app_nil_r. }
  clear Hs0. apply bind_Ok in E as (v & Hv & E). apply of_option_Ok in Hv. rewrite EV0 in Hv.
  apply bind_Ok in E as ([] & Hip & E). apply assert_Ok in Hip. apply bind_Ok in E as (s1 & E1 & E).
  apply activate_stake_Ok in E1 as (ES1 & EV1 & EP1 & EO1). apply bind_Ok in E as ([s2 m2] & E2 & E).
  apply retract_vote_weights in E2. apply bind_Ok in E as ([s3 m3] & E3 & E). apply cast_vote_weights in E3 as [E3 Hpv].
  apply bind_Ok in E as (s4 & E4 & E). apply apply_deltas_weights in E4. injection E as <-.
  assert (weights_only s1 s4) as Hw by (etrans; [exact E2|etrans; [exact E3|exact E4]]).
  assert (same_voters (sy_voters s) (sy_voters s4)) as HV by (rewrite <- EV0, <- EV1; apply Hw).
  constructor.
  - exists v. split; [done|]. intros Hp. destruct (Z.eqb_spec proxy 0); [done|]. by destruct (vi_is_proxy v).
  - intros Hp. destruct (Hpx Hp). split_and!; [done|done|]. destruct (Hpv Hp) as (pv & Hpv1 & Hpv2).
    destruct (same_voters_lookup (sy_voters s) (sy_voters s2) proxy pv) as (w & Hw' & Ek); [|done|].
    { rewrite <- EV0, <- EV1. apply E2. }
    exists w. split; [done|]. intros Hvt. unfold voter_key in Ek. rewrite <- (Hpv2 Hvt). congruence.
  - eexists. simpl. apply same_voters_alter; [|exact HV]. apply revote_key.
  - done.
  - etrans; [exact ES0|]. etrans; [exact ES1|]. apply weights_only_stakes in Hw. etrans; [exact Hw|done].
  - intros b. simpl. rewrite <- (wo_producers _ _ Hw b), EP1, EP0. done.
  - simpl. rewrite <- (wo_out _ _ Hw), EO1. done.
Qed.

(** The forest stays a forest. *)
Lemma voted_voters_ok s a proxy ps voting s' :
  voted s a proxy ps voting s' -> voters_ok (sy_voters s) ->
  voting = true \/ (exists v, sy_voters s !! a = Some v /\ vi_proxy v = proxy) -> voters_ok (sy_voters s').
Proof.
  intros [(v & Hv & Hvp) Hpx (w & HV) _ _ _ _] Hok Hcase. rewrite <- HV. pose proof Hok as [He Hl [rank Hr]].
  assert (forall x y, uses_proxy (alter (revote proxy ps w) a (sy_voters s)) x y ->
    (x <> a /\ uses_proxy (sy_voters s) x y) \/ (x = a /\ y = proxy /\ proxy <> 0)) as Huse.
  { intros x y (u & Hu & Hxy & Hy). destruct (decide (a = x)) as [<-|Hne].
    - rewrite lookup_alter_eq, Hv in Hu. injection Hu as <-. simpl in Hxy. subst y. by right.
    - rewrite lookup_alter_ne in Hu by done. left. split; [done|]. by exists u. }
  assert (dom (alter (revote proxy ps w) a (sy_voters s)) = dom (sy_voters s)) as Hd by apply dom_alter_L.
  constructor.
  - intros x y Hxy. apply elem_of_dom. rewrite Hd. apply elem_of_dom. destruct (Huse x y Hxy) as [[_ Hu]|(-> & -> & Hn)].
    + by apply (He x).
    + destruct (Hpx Hn) as (_ & _ & pv & Hpv & _). eauto.
  - intros x u Hu Hp. destruct (decide (a = x)) as [<-|Hne].
    + rewrite lookup_alter_eq, Hv in Hu. injection Hu as <-. simpl in *. destruct (decide (proxy = 0)) as [|Hn]; [done|].
      rewrite Hvp in Hp; done.
    + rewrite lookup_alter_ne in Hu by done. by apply (Hl x).
  - destruct (decide (proxy = 0)) as [->|Hn].
    { exists rank. intros x y Hxy. destruct (Huse x y Hxy) as [[_ Hu]|(_ & _ & Hn)]; [by apply Hr|done]. }
    destruct Hcase as [->|(v' & Hv' & Hv'p)].
    + destruct (Hpx Hn) as (_ & _ & pv & Hpv & Hip). specialize (Hl _ _ Hpv (Hip eq_refl)).
      exists (fun x => if decide (x = proxy) then 0%nat else S (rank x)). intros x y Hxy.
      destruct (Huse x y Hxy) as [[_ Hu]|(-> & -> & _)].
      * specialize (Hr x y Hu). destruct (decide (x = proxy)) as [->|]; [|destruct (decide (y = proxy)); lia].
        destruct Hu as (u & Hu & Hy & Hy0). congruence.
      * destruct (Hpx Hn) as (Ha & _). destruct (decide (proxy = proxy)), (decide (a = proxy)); (done || lia).
    + exists rank. intros x y Hxy. destruct (Huse x y Hxy) as [[_ Hu]|(-> & -> & _)]; [by apply Hr|].
      apply Hr. by exists v'.
Qed.

Lemma voteproducer_ok s a proxy ps s' :
  voters_ok (sy_voters s) -> voteproducer cx s a proxy ps = Ok s' -> voters_ok (sy_voters s').
Proof.
  intros Hok E. apply bind_Ok in E as ([] & _ & E). apply update_votes_voted in E.
  eapply voted_voters_ok; [exact E|done|by left].
Qed.

Lemma voters_ok_insert V a v :
  voters_ok V -> (vi_is_proxy v = true -> vi_proxy v = 0) ->
  (vi_proxy v = 0 \/ exists w, V !! a = Some w /\ vi_proxy w = vi_proxy v) -> voters_ok (<[a := v]> V).
Proof.
  intros [He Hl [rank Hr]] Hp Hc.
  assert (forall x y, uses_proxy (<[a := v]> V) x y -> uses_proxy V x y) as Huse.
  { intros x y (u & [[<- <-]|[_ Hu]]%lookup_insert_Some & Hxy & Hy); [|by exists u].
    destruct Hc as [Hz|(w & Hw & Hwp)]; [congruence|]. exists w. split_and!; congruence. }
  constructor.
  - intros x y Hxy%Huse. apply lookup_insert_is_Some'. right. by apply (He x).
  - intros x u [[<- <-]|[_ Hu]]%lookup_insert_Some; [done|by apply (Hl x)].
  - exists rank. intros x y Hxy%Huse. by apply Hr.
Qed.

Lemma regproxy_ok s a b s' : voters_ok (sy_voters s) -> regproxy cx s a b = Ok s' -> voters_ok (sy_voters s').
Proof.
  intros Hok E. apply bind_Ok in E as ([] & _ & E). destruct (sy_voters s !! a) as [v|] eqn:Hv.
  - apply bind_Ok in E as ([] & _ & E). apply bind_Ok in E as ([] & Hb & E). apply assert_Ok in Hb.
    unfold propagate in E. apply propagate_weights in E. rewrite <- (wo_voters _ _ E). simpl.
    assert (forall f, alter f a (sy_voters s) = <[a := f v]> (sy_voters s)) as ->.
    { intros f. apply map_eq. intros c. destruct (decide (a = c)) as [<-|Hne].
      - by rewrite lookup_alter_eq, lookup_insert_eq, Hv.
      - by rewrite lookup_alter_ne, lookup_insert_ne. }
    apply voters_ok_insert; simpl; [done| |right; by exists v].
    intros ->. simpl in Hb. by split_bool.
  - injection E as <-. apply voters_ok_insert; simpl; [done|done|by left].
Qed.

End Update.
