(* ===== verification/Staking.v ===== *)
(** * The system contract: staking

    [contracts/snax.system/delegate_bandwidth.cpp]: stakes, their totals, refunds,
    escrow and the deferred refund. *)

From Stdlib Require Import ZArith Lia Bool.
From stdpp Require Import base numbers gmap sorting list.
From S2P Require Import Prelude Name BlockHeader Token Float64 SystemContract.

Open Scope Z_scope.

(** [asset( a )]. *)
Definition core (a : Z) : result asset := make_asset a CORE_SYMBOL.
(** [asset( 0 )]. *)
Definition zero : asset := mk_asset 0 CORE_SYMBOL.

(** Both weights are zero; the second is compared only if the first is. *)
Definition both_zero (net cpu : asset) : result bool :=
  n ← asset_eq net zero; if (n : bool) then asset_eq cpu zero else mret false.

Definition require_nonnegative (a : asset) : result unit := b ← asset_le zero a; snax_assert b.

(** The order of a table of escrows. *)
Definition key_le (a b : Z * escrow_bandwidth) : Prop := a.1 <= b.1.
#[export] Instance key_le_dec a b : Decision (key_le a b).
Proof. unfold key_le. apply _. Defined.

Section Staking.
Context `{CMath} (cx : sys_context).

(** [max_claimable * double( now() - base_time ) / ( 10 * seconds_per_year )]; the
    difference of [now()] and the 64-bit base time is a 64-bit number. *)
Definition validate_b1_vesting (stake : Z) : result unit :=
  let base_time := 1527811200 in
  let max_claimable := 1000000000000 in
  claimable ← to_int64 (ddiv (dmul (of_int max_claimable) (of_int (sc_now cx - base_time))) (of_int (10 * seconds_per_year)));
  d ← checked_i64 (max_claimable - claimable);
  snax_assert (d <=? stake).

(** The stake from [from] to [receiver]. *)
Definition update_delegation (s : system_state) (from receiver : account_name) (net cpu : asset) : result system_state :=
  '(n, c) ← match sy_delband s !! (from, receiver) with
            | None => mret (net, cpu)
            | Some d => n ← asset_add (db_net_weight d) net; c ← asset_add (db_cpu_weight d) cpu; mret (n, c)
            end;
  require_nonnegative n;;
  require_nonnegative c;;
  z ← both_zero n c;
  mret (set_delband s (if (z : bool) then delete (from, receiver) (sy_delband s)
                       else <[(from, receiver) := mk_delegated n c]> (sy_delband s))).

(** The totals of [receiver], and its limits. *)
Definition update_totals (s : system_state) (receiver : account_name) (net cpu : asset) : result system_state :=
  '(n, c, ram) ← match sy_userres s !! receiver with
                 | None => mret (net, cpu, 0)
                 | Some t =>
                     n ← asset_add (ur_net_weight t) net; c ← asset_add (ur_cpu_weight t) cpu;
                     mret (n, c, ur_ram_bytes t)
                 end;
  require_nonnegative n;;
  require_nonnegative c;;
  let s := set_resource_limits s receiver ram (amount n) (amount c) in
  z ← both_zero n c;
  mret (set_userres s (if (z : bool) && (ram =? 0) then delete receiver (sy_userres s)
                       else <[receiver := mk_resources n c ram]> (sy_userres s))).

(** [r -= balance]: what is left of the refund, and the part of the balance that
    it does not cover. *)
Definition settle (r balance : asset) : result (asset * asset) :=
  d ← asset_sub r balance;
  negative ← asset_lt d zero;
  if (negative : bool) then b ← asset_neg d; mret (zero, b) else mret (d, zero).

(** [net_balance < asset(0) || cpu_balance < asset(0)]. *)
Definition some_negative (net cpu : asset) : result bool :=
  b ← asset_lt net zero; if (b : bool) then mret true else asset_lt cpu zero.

(** The refund of a negative balance. *)
Definition take_refund (balance : asset) : result (asset * asset) :=
  b ← asset_lt balance zero;
  if (b : bool) then r ← asset_neg balance; mret (r, zero) else mret (zero, balance).

(** The refund request of [from]: the new table, the balances that are left to
    transfer, and whether a deferred transaction is needed. *)
Definition update_refund_row (s : system_state) (from : account_name) (net cpu : asset) :
    result (gmap account_name refund_request * asset * asset * bool) :=
  match sy_refunds s !! from with
  | Some r =>
      n ← some_negative net cpu;
      let time := if (n : bool) then sc_now cx else rf_request_time r in
      '(rn, net) ← settle (rf_net_amount r) net;
      '(rc, cpu) ← settle (rf_cpu_amount r) cpu;
      require_nonnegative rn;;
      require_nonnegative rc;;
      z ← both_zero rn rc;
      mret (if (z : bool) then delete from (sy_refunds s) else <[from := mk_refund time rn rc]> (sy_refunds s),
            net, cpu, negb z)
  | None =>
      n ← some_negative net cpu;
      if (n : bool) then
        '(rn, net) ← take_refund net;
        '(rc, cpu) ← take_refund cpu;
        mret (<[from := mk_refund (sc_now cx) rn rc]> (sy_refunds s), net, cpu, true)
      else mret (sy_refunds s, net, cpu, false)
  end.

Definition update_refunds (s : system_state) (source_stake_from from receiver : account_name) (net cpu : asset)
    (transfer : bool) : result system_state :=
  if snax_stake =? source_stake_from then mret s
  else
    total ← checked_i64 (amount net + amount cpu);
    let is_undelegating := total <? 0 in
    let is_delegating_to_self := negb transfer && (from =? receiver) in
    '(refunds, net, cpu, need_deferred_trx) ←
      (if is_delegating_to_self || is_undelegating then update_refund_row s from net cpu
       else mret (sy_refunds s, net, cpu, false));
    let s := emit (set_refunds s refunds) (cancel_deferred from) in
    let s := if (need_deferred_trx : bool) then emit s (send_deferred_refund from refund_delay) else s in
    transfer_amount ← asset_add net cpu;
    b ← asset_lt zero transfer_amount;
    mret (if (b : bool) then emit s (inline_transfer source_stake_from snax_stake transfer_amount) else s).

(** The stake a voter votes with. *)
Definition update_voting_power (s : system_state) (from : account_name) (net cpu : asset) : result system_state :=
  total_update ← asset_add net cpu;
  v ← match sy_voters s !! from with
      | None => mret (new_voter (amount total_update) false)
      | Some v =>
          staked ← checked_i64 (vi_staked v + amount total_update);
          mret (mk_voter (vi_proxy v) (vi_producers v) staked (vi_last_vote_weight v) (vi_proxied_vote_weight v) (vi_is_proxy v))
      end;
  let s := set_voters s (<[from := v]> (sy_voters s)) in
  snax_assert (0 <=? vi_staked v);;
  (if from =? snax_b1 then validate_b1_vesting (vi_staked v) else mret tt);;
  if negb (Z.of_nat (length (vi_producers v)) =? 0) || negb (vi_proxy v =? 0) then
    update_votes cx s from (vi_proxy v) (vi_producers v) false
  else mret s.

Definition changebw (s : system_state) (from receiver : account_name) (stake_net_delta stake_cpu_delta : asset)
    (transfer : bool) : result system_state :=
  sys_require_auth cx from;;
  n ← asset_ne stake_net_delta zero;
  c ← (if (n : bool) then mret true else asset_ne stake_cpu_delta zero);
  snax_assert c;;
  snax_assert (gs_resources_market_open (sy_gstate s) || sc_is_privileged cx from);;
  total ← asset_add stake_net_delta stake_cpu_delta;
  snax_assert (Z.max (Z.abs (amount stake_net_delta)) (Z.abs (amount stake_cpu_delta)) <=? Z.abs (amount total));;
  let source_stake_from := from in
  let from := if transfer then receiver else from in
  s ← update_delegation s from receiver stake_net_delta stake_cpu_delta;
  s ← update_totals s receiver stake_net_delta stake_cpu_delta;
  s ← update_refunds s source_stake_from from receiver stake_net_delta stake_cpu_delta transfer;
  update_voting_power s from stake_net_delta stake_cpu_delta.

Definition delegatebw (s : system_state) (from receiver : account_name) (net cpu : asset) (transfer : bool) :
    result system_state :=
  b ← asset_ge cpu zero; snax_assert b;;
  b ← asset_ge net zero; snax_assert b;;
  total ← asset_add net cpu;
  b ← asset_gt total zero; snax_assert b;;
  snax_assert (negb transfer || negb (from =? receiver));;
  changebw s from receiver net cpu transfer.

Definition escrow_of (s : system_state) (a : account_name) : gmap Z escrow_bandwidth := default ∅ (sy_escrow s !! a).

(** The row is keyed by the second it is created in. *)
Definition escrowbw (s : system_state) (from receiver : account_name) (net cpu : asset) (transfer : bool)
    (period_count : Z) : result system_state :=
  snax_assert ((from =? receiver) || transfer);;
  s ← delegatebw s from receiver net cpu transfer;
  total ← asset_add net cpu;
  let created := slot_of_seconds (sc_now cx) in
  let key := seconds_of_slot created in
  match escrow_of s receiver !! key with
  | Some _ => Err uniqueness_violation
  | None =>
      mret (set_escrow s (<[receiver := <[key := mk_escrow created period_count total total]> (escrow_of s receiver)]>
        (sy_escrow s)))
  end.

(** What can be unstaked from one escrow, by the periods of half a year that have
    passed. *)
Definition escrow_available (r : escrow_bandwidth) : result asset :=
  let period_count := Z.quot (seconds_of_slot (slot_of_seconds (sc_now cx)) - seconds_of_slot (eb_created r)) 15768000 in
  unstaked ← asset_sub (eb_initial_amount r) (eb_amount r);
  (if eb_period_count r =? 0 then Err wasm_execution_error else mret tt);;
  share ← checked_i64 (Z.quot (amount (eb_initial_amount r)) (eb_period_count r) * (period_count + 1));
  a ← core share;
  asset_sub a unstaked.

(** The loop over the escrows of [from], in the order of their keys: what is
    available, whether it is enough, and the changed rows. *)
Fixpoint unstake_escrows (net cpu available : asset) (rows : list (Z * escrow_bandwidth)) :
    result (asset * list (Z * escrow_bandwidth)) :=
  match rows with
  | [] => mret (available, [])
  | (k, r) :: rest =>
      bucket ← escrow_available r;
      available ← asset_sub available (eb_amount r);
      available ← asset_add available bucket;
      request ← asset_add net cpu;
      more ← asset_gt available request;
      '(bucket, available) ←
        (if (more : bool) then
           excess ← asset_sub available net;
           excess ← asset_sub excess cpu;
           bucket ← asset_sub bucket excess; mret (bucket, request)
         else mret (bucket, available));
      a ← asset_sub (eb_amount r) bucket;
      let r := mk_escrow (eb_created r) (eb_period_count r) (eb_initial_amount r) a in
      if (more : bool) then mret (available, (k, r) :: rest)
      else '(available, rest) ← unstake_escrows net cpu available rest; mret (available, (k, r) :: rest)
  end.

(** The rows in the order of their keys, from 1 on. *)
Definition escrow_rows (m : gmap Z escrow_bandwidth) : list (Z * escrow_bandwidth) :=
  merge_sort key_le (filter (fun r => 1 <= r.1) (map_to_list m)).

(** The escrow table has the scope [from], and all its rows have the owner [from], so
    the test of the owner in the loop always holds. *)
Definition undelegatebw (s : system_state) (from receiver : account_name) (net cpu : asset) : result system_state :=
  b ← asset_le zero cpu; snax_assert b;;
  b ← asset_le zero net; snax_assert b;;
  total ← asset_add cpu net;
  b ← asset_lt zero total; snax_assert b;;
  d ← of_option snax_assert_message (sy_delband s !! (from, receiver));
  available ← asset_add (db_net_weight d) (db_cpu_weight d);
  request ← asset_add net cpu;
  '(available, s) ←
    (if from =? receiver then
       '(available, rows) ← unstake_escrows net cpu available (escrow_rows (escrow_of s from));
       mret (available, set_escrow s (<[from := list_to_map rows ∪ escrow_of s from]> (sy_escrow s)))
     else mret (available, s));
  b ← asset_le request available; snax_assert b;;
  snax_assert (min_activated_stake <=? gs_total_activated_stake (sy_gstate s));;
  n ← asset_neg net;
  c ← asset_neg cpu;
  changebw s from receiver n c false.

Definition refund (s : system_state) (owner : account_name) : result system_state :=
  sys_require_auth cx owner;;
  r ← of_option snax_assert_message (sy_refunds s !! owner);
  snax_assert (u32 (rf_request_time r + refund_delay) <=? sc_now cx);;
  total ← asset_add (rf_net_amount r) (rf_cpu_amount r);
  mret (set_refunds (emit s (inline_transfer snax_stake owner total)) (delete owner (sy_refunds s))).

End Staking.
