(* ===== verification/StakingProofs.v ===== *)
(** * Stakes are accounted for

    Tokens held by [snax.stake] are the stakes and the refunds that wait; the
    stake an account votes with is what it delegates; totals and limits are what
    is delegated to an account. *)

From Stdlib Require Import ZArith Lia Bool.
From stdpp Require Import base numbers gmap relations sets sorting list.
From S2P Require Import Prelude Name BlockHeader Token TokenProofs Float64 SystemContract VotingProofs Staking.

Open Scope Z_scope.

(** ** Assets *)

Lemma asset_compare_Ok test a b r : asset_compare test a b = Ok r -> symbol a = symbol b /\ r = test (amount a) (amount b).
Proof. unfold asset_compare. intros E. apply bind_Ok in E as ([] & Hs & E). apply assert_Ok, Z.eqb_eq in Hs. by injection E as <-. Qed.

Lemma asset_neg_Ok a r : asset_neg a = Ok r -> amount r = - amount a /\ symbol r = symbol a.
Proof.
  unfold asset_neg, checked_i64. intros E. apply bind_Ok in E as (x & Hx & E). injection E as <-.
  case_bool_decide; [|done]. by injection Hx as <-.
Qed.

Lemma require_nonnegative_Ok a u : require_nonnegative a = Ok u -> 0 <= amount a.
Proof.
  unfold require_nonnegative. intros E. apply bind_Ok in E as (b & Hb & E). apply assert_Ok in E as ->.
  apply asset_compare_Ok in Hb as [_ Hb]. simpl in Hb. lia.
Qed.

Lemma both_zero_Ok n c b : both_zero n c = Ok b -> b = true <-> amount n = 0 /\ amount c = 0.
Proof.
  unfold both_zero. intros E. apply bind_Ok in E as (x & Hx & E). apply asset_compare_Ok in Hx as [_ ->]. simpl in E.
  destruct (Z.eqb_spec (amount n) 0) as [->|]; [|injection E as <-; split; [done|tauto]].
  apply asset_compare_Ok in E as [_ ->]. simpl. rewrite Z.eqb_eq. tauto.
Qed.

Lemma some_negative_Ok n c b : some_negative n c = Ok b -> b = false -> 0 <= amount n /\ 0 <= amount c.
Proof.
  unfold some_negative. intros E ->. apply bind_Ok in E as (x & Hx & E). apply asset_compare_Ok in Hx as [_ ->]. simpl in E.
  destruct (Z.ltb_spec (amount n) 0); [done|]. apply asset_compare_Ok in E as [_ E]. simpl in E. symmetry in E. lia.
Qed.

(** What a refund gives up is what the balance grows by. *)
Lemma settle_Ok r b r' b' :
  settle r b = Ok (r', b') ->
  amount b' - amount b = amount r' - amount r /\ 0 <= amount b' /\ 0 <= amount r' /\ symbol r' = CORE_SYMBOL.
Proof.
  unfold settle. intros E. apply bind_Ok in E as (d & Hd & E). apply asset_sub_Ok in Hd as (_ & Hd & _).
  apply bind_Ok in E as (x & Hx & E). apply asset_compare_Ok in Hx as [Hs ->]. simpl in Hs, E.
  destruct (Z.ltb_spec (amount d) 0).
  - apply bind_Ok in E as (y & Hy & E). apply asset_neg_Ok in Hy as [Hy Hys]. injection E as <- <-. simpl. split_and!; (lia || done || congruence).
  - injection E as <- <-. simpl. split_and!; (lia || done).
Qed.

Lemma take_refund_Ok b r b' :
  take_refund b = Ok (r, b') -> amount b' - amount b = amount r /\ 0 <= amount b' /\ 0 <= amount r /\ symbol r = CORE_SYMBOL.
Proof.
  unfold take_refund. intros E. apply bind_Ok in E as (x & Hx & E). apply asset_compare_Ok in Hx as [Hs ->]. simpl in Hs, E.
  destruct (Z.ltb_spec (amount b) 0).
  - apply bind_Ok in E as (y & Hy & E). apply asset_neg_Ok in Hy as [Hy Hys]. injection E as <- <-. simpl. split_and!; (lia || done || congruence).
  - injection E as <- <-. simpl. split_and!; (lia || done).
Qed.

(** ** Sums over stakes *)

(** The part [x] of the net and [y] of the cpu stakes of the rows [P] selects. *)
Definition stake_share (x y : Z) (P : account_name * account_name -> bool) (k : account_name * account_name)
    (d : delegated_bandwidth) : Z :=
  if P k then x * amount (db_net_weight d) + y * amount (db_cpu_weight d) else 0.
Definition stakes (x y : Z) (P : account_name * account_name -> bool) (s : system_state) : Z :=
  map_sum (stake_share x y P) (sy_delband s).

Definition delegated_by (s : system_state) (a : account_name) : Z := stakes 1 1 (fun k => k.1 =? a) s.
Definition net_to (s : system_state) (a : account_name) : Z := stakes 1 0 (fun k => k.2 =? a) s.
Definition cpu_to (s : system_state) (a : account_name) : Z := stakes 0 1 (fun k => k.2 =? a) s.

Definition refund_total (_ : account_name) (r : refund_request) : Z := amount (rf_net_amount r) + amount (rf_cpu_amount r).
Definition refunding (s : system_state) : Z := map_sum refund_total (sy_refunds s).
(** All that is staked or waits to be refunded. *)
Definition locked (s : system_state) : Z := stakes 1 1 (fun _ => true) s + refunding s.

Definition staked_of (s : system_state) (a : account_name) : Z :=
  match sy_voters s !! a with Some v => vi_staked v | None => 0 end.
Definition net_weight_of (s : system_state) (a : account_name) : Z :=
  match sy_userres s !! a with Some u => amount (ur_net_weight u) | None => 0 end.
Definition cpu_weight_of (s : system_state) (a : account_name) : Z :=
  match sy_userres s !! a with Some u => amount (ur_cpu_weight u) | None => 0 end.

(** What the inline transfers and issues of an action bring to an account. *)
Definition flow_of (a : account_name) (e : sys_effect) : Z :=
  match e with
  | inline_transfer from to q => (if to =? a then amount q else 0) - (if from =? a then amount q else 0)
  | inline_issue to q => if to =? a then amount q else 0
  | _ => 0
  end.
Definition flow (a : account_name) (out : list sys_effect) : Z := foldr (fun e z => flow_of a e + z) 0 out.

Lemma flow_app a l1 l2 : flow a (l1 ++ l2) = flow a l1 + flow a l2.
Proof. induction l1 as [|e l1 IH]; simpl; [lia|]. rewrite IH. lia. Qed.

Lemma flow_transfers a l : flow a l = flow a (List.filter is_transfer l).
Proof. induction l as [|[] l IH]; simpl; rewrite ?IH; lia. Qed.

(** ** The steps of [changebw] *)

(** Refunds are positive amounts of the core token. *)
Definition refund_ok (r : refund_request) : Prop :=
  0 <= amount (rf_net_amount r) /\ 0 <= amount (rf_cpu_amount r) /\
  symbol (rf_net_amount r) = CORE_SYMBOL /\ symbol (rf_cpu_amount r) = CORE_SYMBOL.

(** Only the core token is moved and issued. *)
Definition core_transfer (e : sys_effect) : Prop :=
  match e with
  | inline_transfer _ _ q | inline_issue _ q => symbol q = CORE_SYMBOL
  | _ => True
  end.

Lemma core_transfers l : Forall core_transfer l <-> Forall core_transfer (List.filter is_transfer l).
Proof.
  induction l as [|e l IH]; [done|]. simpl. destruct e; simpl; rewrite !Forall_cons, ?IH; simpl; tauto.
Qed.

Lemma update_delegation_Ok s f r n c s' :
  update_delegation s f r n c = Ok s' ->
  (forall x y P, stakes x y P s' = stakes x y P s + if P (f, r) then x * amount n + y * amount c else 0) /\
  (forall k d, sy_delband s' !! k = Some d -> sy_delband s !! k = Some d \/ 0 <= amount (db_net_weight d) /\ 0 <= amount (db_cpu_weight d)) /\
  exists m, s' = set_delband s m.
Proof.
  intros E. unfold update_delegation in E. apply bind_Ok in E as ([n' c'] & Enc & E).
  apply bind_Ok in E as ([] & Hn%require_nonnegative_Ok & E). apply bind_Ok in E as ([] & Hc%require_nonnegative_Ok & E).
  apply bind_Ok in E as (z & Hz%both_zero_Ok & E). injection E as <-.
  assert (forall x y P, summand (stake_share x y P) (f, r) (sy_delband s !! (f, r)) + (if P (f, r) then x * amount n + y * amount c else 0) =
    if P (f, r) then x * amount n' + y * amount c' else 0) as Hsum.
  { intros x y P. unfold summand, stake_share. destruct (sy_delband s !! (f, r)) as [d|].
    - apply bind_Ok in Enc as (a & Ha & Enc). apply bind_Ok in Enc as (b & Hb & Enc). injection Enc as <- <-.
      apply asset_add_Ok in Ha as (_ & Ha & _). apply asset_add_Ok in Hb as (_ & Hb & _). rewrite Ha, Hb. destruct (P (f, r)); lia.
    - injection Enc as <- <-. destruct (P (f, r)); lia. }
  split_and!; [|destruct z; simpl|by eexists].
  - intros x y P. specialize (Hsum x y P). unfold stakes. simpl. destruct z.
    + destruct Hz as [Hz _]. specialize (Hz eq_refl) as [Hn0 Hc0]. rewrite Hn0, Hc0 in Hsum.
      rewrite (map_sum_delete _ (sy_delband s) (f, r)). destruct (P (f, r)); lia.
    + rewrite map_sum_insert. unfold stake_share at 3. simpl. destruct (P (f, r)); lia.
  - intros k d [_ Hk]%lookup_delete_Some. by left.
  - intros k d [[_ <-]|[_ Hk]]%lookup_insert_Some; [by right|by left].
Qed.

Lemma update_totals_Ok s r n c s' :
  update_totals s r n c = Ok s' ->
  (forall a, net_weight_of s' a = net_weight_of s a + if r =? a then amount n else 0) /\
  (forall a, cpu_weight_of s' a = cpu_weight_of s a + if r =? a then amount c else 0) /\
  (exists ram, sy_limits s' = <[r := (ram, net_weight_of s r + amount n, cpu_weight_of s r + amount c)]> (sy_limits s)) /\
  sy_delband s' = sy_delband s /\ sy_refunds s' = sy_refunds s /\ sy_voters s' = sy_voters s /\
  sy_escrow s' = sy_escrow s /\ sy_out s' = sy_out s /\ sy_gstate s' = sy_gstate s /\ sy_producers s' = sy_producers s.
Proof.
  intros E. unfold update_totals in E. apply bind_Ok in E as ([[n' c'] ram] & Enc & E).
  apply bind_Ok in E as ([] & _ & E). apply bind_Ok in E as ([] & _ & E).
  apply bind_Ok in E as (z & Hz%both_zero_Ok & E). injection E as <-.
  assert (amount n' = net_weight_of s r + amount n /\ amount c' = cpu_weight_of s r + amount c) as [Hn Hc].
  { unfold net_weight_of, cpu_weight_of. destruct (sy_userres s !! r) as [t|].
    - apply bind_Ok in Enc as (a & Ha & Enc). apply bind_Ok in Enc as (b & Hb & Enc). injection Enc as <- <- <-.
      apply asset_add_Ok in Ha as (_ & Ha & _). apply asset_add_Ok in Hb as (_ & Hb & _). done.
    - injection Enc as <- <- <-. lia. }
  assert (forall a, net_weight_of (set_userres s (if z && (ram =? 0) then delete r (sy_userres s)
      else <[r := mk_resources n' c' ram]> (sy_userres s))) a = net_weight_of s a + (if r =? a then amount n else 0) /\
    cpu_weight_of (set_userres s (if z && (ram =? 0) then delete r (sy_userres s)
      else <[r := mk_resources n' c' ram]> (sy_userres s))) a = cpu_weight_of s a + (if r =? a then amount c else 0)) as Ha.
  { intros a. unfold net_weight_of, cpu_weight_of in *. simpl. destruct (Z.eqb_spec r a) as [<-|Hne].
    - destruct z; simpl; [|rewrite lookup_insert_eq; done]. destruct (ram =? 0); [|rewrite lookup_insert_eq; done].
      rewrite lookup_delete_eq. destruct Hz as [Hz _]. specialize (Hz eq_refl). lia.
    - destruct (z && (ram =? 0)); [rewrite lookup_delete_ne by done|rewrite lookup_insert_ne by done]; lia. }
  split_and!; simpl; try done; [intros a; apply (Ha a)|intros a; apply (Ha a)|].
  exists ram. by rewrite Hn, Hc.
Qed.

Lemma update_refund_row_Ok cx s f n c R n' c' d :
  update_refund_row cx s f n c = Ok (R, n', c', d) ->
  amount n' + amount c' - (amount n + amount c) = map_sum refund_total R - refunding s /\ 0 <= amount n' /\ 0 <= amount c' /\
  (forall a r, R !! a = Some r -> sy_refunds s !! a = Some r \/ refund_ok r).
Proof.
  intros E. unfold update_refund_row in E. unfold refunding. destruct (sy_refunds s !! f) as [r|] eqn:Hr.
  - apply bind_Ok in E as (x & _ & E). apply bind_Ok in E as ([rn n1] & Hn%settle_Ok & E).
    apply bind_Ok in E as ([rc c1] & Hc%settle_Ok & E). apply bind_Ok in E as ([] & _ & E). apply bind_Ok in E as ([] & _ & E).
    apply bind_Ok in E as (z & Hz%both_zero_Ok & E). injection E as <- <- <- _. destruct z.
    + destruct Hz as [Hz _]. specialize (Hz eq_refl). split_and!; [|lia|lia|].
      * rewrite (map_sum_delete _ (sy_refunds s) f), Hr. unfold summand, refund_total at 2. lia.
      * intros a q [_ Hq]%lookup_delete_Some. by left.
    + split_and!; [|lia|lia|].
      * rewrite map_sum_insert, Hr. unfold summand, refund_total at 2 3. simpl. lia.
      * intros a q [[_ <-]|[_ Hq]]%lookup_insert_Some; [right; unfold refund_ok; simpl; split_and!; (lia || tauto)|by left].
  - apply bind_Ok in E as (x & Hx & E). destruct x.
    + apply bind_Ok in E as ([rn n1] & Hn%take_refund_Ok & E). apply bind_Ok in E as ([rc c1] & Hc%take_refund_Ok & E).
      injection E as <- <- <- _. split_and!; [|lia|lia|].
      * rewrite map_sum_insert, Hr. unfold summand, refund_total at 2. simpl. lia.
      * intros a q [[_ <-]|[_ Hq]]%lookup_insert_Some; [right; unfold refund_ok; simpl; split_and!; (lia || tauto)|by left].
    + apply some_negative_Ok in Hx; [|done]. injection E as <- <- <- _. split_and!; [lia|lia|lia|by left].
Qed.

Lemma update_refunds_Ok cx s src f r n c tr s' :
  src <> snax_stake ->
  update_refunds cx s src f r n c tr = Ok s' ->
  flow snax_stake (sy_out s') - flow snax_stake (sy_out s) = amount n + amount c + (refunding s' - refunding s) /\
  (Forall core_transfer (sy_out s) -> Forall core_transfer (sy_out s')) /\
  (forall a q, sy_refunds s' !! a = Some q ->
     sy_refunds s !! a = Some q \/ refund_ok q) /\
  sy_delband s' = sy_delband s /\ sy_voters s' = sy_voters s /\ sy_userres s' = sy_userres s /\
  sy_escrow s' = sy_escrow s /\ sy_limits s' = sy_limits s /\ sy_gstate s' = sy_gstate s /\ sy_producers s' = sy_producers s.
Proof.
  intros Hsrc E. unfold update_refunds in E. destruct (Z.eqb_spec snax_stake src) as [|_]; [done|].
  apply bind_Ok in E as (tot & Htot & E). unfold checked_i64 in Htot. case_bool_decide; [|done]. injection Htot as <-.
  apply bind_Ok in E as ([[[R n'] c'] need] & ER & E). apply bind_Ok in E as (ta & Hta & E). apply asset_add_Ok in Hta as (_ & Hta & _).
  apply bind_Ok in E as (b & Hb & E). apply asset_compare_Ok in Hb as [Hsy Hb]. simpl in Hsy, Hb. injection E as <-.
  assert (amount n' + amount c' - (amount n + amount c) = map_sum refund_total R - refunding s /\ 0 <= amount n' + amount c' /\
    (forall a r, R !! a = Some r -> sy_refunds s !! a = Some r \/ refund_ok r))
    as (Hsum & Hpos & HR).
  { destruct (Z.ltb_spec (amount n + amount c) 0) as [Hlt|Hge].
    - rewrite orb_true_r in ER. apply update_refund_row_Ok in ER as (? & ? & ? & ?). split_and!; [done|lia|done].
    - rewrite orb_false_r in ER. destruct (negb tr && (f =? r)).
      + apply update_refund_row_Ok in ER as (? & ? & ? & ?). split_and!; [done|lia|done].
      + injection ER as <- <- <- _. split_and!; [unfold refunding; lia|lia|by left]. }
  assert (forall s0 : system_state, sy_refunds (if b then emit s0 (inline_transfer src snax_stake ta) else s0) = sy_refunds s0) as Href
    by (by destruct b).
  destruct need, b; simpl; rewrite ?flow_app; unfold refunding in *; simpl.
  all: rewrite ?Z.eqb_refl, ?(proj2 (Z.eqb_neq src snax_stake) Hsrc); split_and!; try done; try lia.
  all: intros Hf; repeat (apply Forall_app; split); try done; by repeat constructor.
Qed.

Lemma staked_of_same V V' a :
  same_voters V V' ->
  match V !! a with Some v => vi_staked v | None => 0 end = match V' !! a with Some v => vi_staked v | None => 0 end.
Proof.
  intros HV. specialize (HV a). destruct (V !! a) as [v|], (V' !! a) as [w|]; simpl in HV; try done.
  unfold voter_key in HV. congruence.
Qed.

Lemma update_voting_power_Ok `{CMath} cx s f n c s' :
  update_voting_power cx s f n c = Ok s' ->
  (forall a, staked_of s' a = staked_of s a + if f =? a then amount n + amount c else 0) /\
  (voters_ok (sy_voters s) -> voters_ok (sy_voters s')) /\ 0 <= staked_of s' f /\
  same_stakes s s' /\ (forall a, flow a (sy_out s') = flow a (sy_out s)) /\
  (Forall core_transfer (sy_out s) -> Forall core_transfer (sy_out s')).
Proof.
  intros E. unfold update_voting_power in E. apply bind_Ok in E as (t & Ht & E). apply asset_add_Ok in Ht as (_ & Ht & _).
  apply bind_Ok in E as (v & Hv & E). apply bind_Ok in E as ([] & Hpos & E). apply assert_Ok, Z.leb_le in Hpos.
  apply bind_Ok in E as ([] & _ & E).
  assert (vi_staked v = staked_of s f + amount n + amount c /\
    (vi_proxy v = 0 /\ vi_is_proxy v = false \/ exists w, sy_voters s !! f = Some w /\ vi_proxy w = vi_proxy v /\ vi_is_proxy w = vi_is_proxy v))
    as [Hst Hw].
  { unfold staked_of. destruct (sy_voters s !! f) as [w|].
    - apply bind_Ok in Hv as (x & Hx & Hv). unfold checked_i64 in Hx. case_bool_decide; [|done]. injection Hx as <-.
      injection Hv as <-. simpl. split; [lia|]. right. by exists w.
    - injection Hv as <-. simpl. split; [lia|by left]. }
  set (s1 := set_voters s (<[f := v]> (sy_voters s))) in *.
  assert (forall a, staked_of s1 a = staked_of s a + if f =? a then amount n + amount c else 0) as Hs1.
  { intros a. unfold staked_of in *. unfold s1. simpl. destruct (Z.eqb_spec f a) as [<-|Hne];
      [rewrite lookup_insert_eq|rewrite lookup_insert_ne by done]; lia. }
  assert (voters_ok (sy_voters s) -> voters_ok (sy_voters s1)) as Hok1.
  { intros Hok. apply voters_ok_insert; [done| |].
    - intros Hp. destruct Hw as [[? ?]|(w & Hw & <- & Hwp)]; [done|]. apply (vo_leaf _ Hok f w Hw). congruence.
    - destruct Hw as [[? ?]|(w & Hw & ? & _)]; [by left|right; eauto]. }
  assert (staked_of s1 f = vi_staked v) as Hs1f by (unfold staked_of, s1; simpl; by rewrite lookup_insert_eq).
  destruct (_ || _).
  - apply update_votes_voted in E as Hvd. pose proof Hvd as [_ _ (w & HV) _ HS _ HO].
    assert (forall a, staked_of s' a = staked_of s1 a) as Hst'.
    { intros a. unfold staked_of. rewrite <- (staked_of_same _ _ a HV). destruct (decide (f = a)) as [<-|Hne].
      - rewrite lookup_alter_eq. by destruct (sy_voters s1 !! f).
      - by rewrite lookup_alter_ne. }
    split_and!; [intros a; by rewrite Hst', Hs1| | |by etrans; [|exact HS]| |].
    + intros Hok. eapply voted_voters_ok; [exact Hvd|by apply Hok1|]. right. exists v. split; [|done].
      unfold s1. simpl. by rewrite lookup_insert_eq.
    + rewrite Hst'. lia.
    + intros a. rewrite (flow_transfers _ (sy_out s')), HO, <- flow_transfers. done.
    + intros Hf. apply core_transfers. rewrite HO. by apply core_transfers in Hf.
  - injection E as <-. split_and!; [done|done|lia|done|done|done].
Qed.

(** ** The invariant *)

Record stake_ok (s : system_state) : Prop := {
  sk_stakes k d : sy_delband s !! k = Some d -> 0 <= amount (db_net_weight d) /\ 0 <= amount (db_cpu_weight d);
  sk_refunds a r : sy_refunds s !! a = Some r -> refund_ok r;
  sk_voters : voters_ok (sy_voters s);
  sk_staked a : staked_of s a = delegated_by s a;
  sk_net a : net_weight_of s a = net_to s a;
  sk_cpu a : cpu_weight_of s a = cpu_to s a;
  sk_limits a ram n c : sy_limits s !! a = Some (ram, n, c) -> n = net_weight_of s a /\ c = cpu_weight_of s a
}.

(** What [changebw] does to the stakes and the tokens. *)
Record rebalanced (s s' : system_state) : Prop := {
  rb_ok : stake_ok s -> stake_ok s';
  rb_flow : flow snax_stake (sy_out s') - flow snax_stake (sy_out s) = locked s' - locked s;
  rb_core : stake_ok s -> Forall core_transfer (sy_out s) -> Forall core_transfer (sy_out s')
}.

#[export] Instance rebalanced_preorder : PreOrder rebalanced.
Proof.
  split; [intros s; constructor; [done|lia|done]|]. intros s1 s2 s3 [O1 F1 C1] [O2 F2 C2].
  constructor; [by auto|lia|by auto].
Qed.

Lemma same_stakes_sums s s' :
  same_stakes s s' ->
  (forall x y P, stakes x y P s' = stakes x y P s) /\ refunding s' = refunding s /\
  (forall a, net_weight_of s' a = net_weight_of s a) /\ (forall a, cpu_weight_of s' a = cpu_weight_of s a).
Proof.
  intros [Hu Hd Hr]. unfold stakes, refunding, net_weight_of, cpu_weight_of. by rewrite Hu, Hd, Hr.
Qed.

Section Actions.
Context `{CMath} (cx : sys_context).

Lemma changebw_Ok s from receiver n c tr s' :
  from <> snax_stake -> changebw cx s from receiver n c tr = Ok s' ->
  rebalanced s s' /\ sc_has_auth cx from = true /\
  (forall x y P, stakes x y P s' = stakes x y P s +
     if P (if tr then receiver else from, receiver) then x * amount n + y * amount c else 0) /\
  sy_escrow s' = sy_escrow s.
Proof.
  intros Hsrc E. unfold changebw in E. apply bind_Ok in E as ([] & Hauth & E). apply assert_Ok in Hauth.
  apply bind_Ok in E as (b1 & _ & E). apply bind_Ok in E as (b2 & _ & E). apply bind_Ok in E as ([] & _ & E).
  apply bind_Ok in E as ([] & _ & E). apply bind_Ok in E as (tot & _ & E). apply bind_Ok in E as ([] & _ & E).
  set (f := if tr then receiver else from) in *.
  apply bind_Ok in E as (s1 & E1 & E). apply update_delegation_Ok in E1 as (Hst & Hnn & m & ->).
  apply bind_Ok in E as (s2 & E2 & E). apply update_totals_Ok in E2 as (Hn2 & Hc2 & (ram & Hl2) & Hd2 & Hr2 & Hv2 & He2 & Ho2 & _ & _).
  apply bind_Ok in E as (s3 & E3 & E). apply update_refunds_Ok in E3 as (Hf3 & Hcore3 & Hr3 & Hd3 & Hv3 & Hu3 & He3 & Hl3 & _); [|done].
  apply update_voting_power_Ok in E as (Hst4 & Hok4 & _ & HS4 & Hf4 & Hcore4).
  destruct (same_stakes_sums _ _ HS4) as (Hs4 & Href4 & Hn4 & Hc4).
  assert (forall x y P, stakes x y P s' = stakes x y P s + if P (f, receiver) then x * amount n + y * amount c else 0) as Hsum.
  { intros x y P. rewrite Hs4, <- Hst. unfold stakes. rewrite Hd3, Hd2. done. }
  split_and!; [|done|done|by rewrite <- (ss_escrow _ _ HS4), He3, He2]. constructor.
  - intros []. constructor.
    + intros k d Hk. rewrite <- (ss_delband _ _ HS4), Hd3, Hd2 in Hk. destruct (Hnn k d Hk) as [Hk'|]; [by eapply sk_stakes0|done].
    + intros a r Ha. rewrite <- (ss_refunds _ _ HS4) in Ha. destruct (Hr3 a r Ha) as [Ha'|]; [|done].
      rewrite Hr2 in Ha'. by apply (sk_refunds0 a).
    + apply Hok4. by rewrite Hv3, Hv2.
    + intros a. rewrite Hst4. unfold staked_of. rewrite Hv3, Hv2. fold (staked_of (set_delband s m) a).
      change (staked_of (set_delband s m) a) with (staked_of s a). rewrite sk_staked0. unfold delegated_by. rewrite Hsum. cbn [fst].
      destruct (f =? a); lia.
    + intros a. rewrite Hn4. unfold net_weight_of. rewrite Hu3. fold (net_weight_of s2 a). rewrite Hn2.
      change (net_weight_of (set_delband s m) a) with (net_weight_of s a). rewrite sk_net0. unfold net_to. rewrite Hsum. cbn [snd].
      destruct (receiver =? a); lia.
    + intros a. rewrite Hc4. unfold cpu_weight_of. rewrite Hu3. fold (cpu_weight_of s2 a). rewrite Hc2.
      change (cpu_weight_of (set_delband s m) a) with (cpu_weight_of s a). rewrite sk_cpu0. unfold cpu_to. rewrite Hsum. cbn [snd].
      destruct (receiver =? a); lia.
    + intros a ram' n' c' Ha. rewrite <- (ss_limits _ _ HS4), Hl3, Hl2 in Ha. rewrite Hn4, Hc4.
      unfold net_weight_of, cpu_weight_of. rewrite Hu3. fold (net_weight_of s2 a). fold (cpu_weight_of s2 a). rewrite Hn2, Hc2.
      apply lookup_insert_Some in Ha as [[<- [= <- <- <-]]|[Hne Ha]].
      * rewrite Z.eqb_refl. done.
      * destruct (Z.eqb_spec receiver a); [done|]. apply sk_limits0 in Ha as [-> ->].
        split; unfold net_weight_of, cpu_weight_of; simpl; lia.
  - rewrite Hf4. unfold locked. rewrite Hsum, Href4. rewrite Ho2 in Hf3.
    assert (refunding s2 = refunding s) as Hrs by (unfold refunding; by rewrite Hr2). simpl in *. lia.
  - intros _ Hc. apply Hcore4, Hcore3. by rewrite Ho2.
Qed.

Lemma delegatebw_Ok s from receiver n c tr s' :
  delegatebw cx s from receiver n c tr = Ok s' ->
  0 <= amount n /\ 0 <= amount c /\ 0 < amount n + amount c /\ changebw cx s from receiver n c tr = Ok s'.
Proof.
  intros E. unfold delegatebw in E. apply bind_Ok in E as (b & Hb & E). apply bind_Ok in E as ([] & ->%assert_Ok & E).
  apply asset_compare_Ok in Hb as [_ Hb]. apply bind_Ok in E as (b & Hn & E). apply bind_Ok in E as ([] & ->%assert_Ok & E).
  apply asset_compare_Ok in Hn as [_ Hn]. apply bind_Ok in E as (t & Ht & E). apply asset_add_Ok in Ht as (_ & Ht & _).
  apply bind_Ok in E as (b & Hp & E). apply bind_Ok in E as ([] & ->%assert_Ok & E). apply asset_compare_Ok in Hp as [_ Hp].
  apply bind_Ok in E as ([] & _ & E). simpl in *. split_and!; [lia|lia|lia|done].
Qed.

Lemma set_escrow_rebalanced s m : rebalanced s (set_escrow s m).
Proof.
  constructor; [|unfold locked, stakes, refunding; simpl; lia|done].
  intros []. by constructor.
Qed.

Lemma escrowbw_Ok s from receiver n c tr p s' :
  from <> snax_stake -> escrowbw cx s from receiver n c tr p = Ok s' -> rebalanced s s'.
Proof.
  intros Hsrc E. unfold escrowbw in E. apply bind_Ok in E as ([] & _ & E). apply bind_Ok in E as (s1 & E1 & E).
  apply delegatebw_Ok in E1 as (_ & _ & _ & E1). apply changebw_Ok in E1 as [Hr _]; [|done].
  apply bind_Ok in E as (t & _ & E). destruct (_ !! _); [done|]. injection E as <-.
  etrans; [exact Hr|apply set_escrow_rebalanced].
Qed.

Lemma undelegatebw_Ok s from receiver n c s' :
  from <> snax_stake -> undelegatebw cx s from receiver n c = Ok s' ->
  rebalanced s s' /\ 0 <= amount n /\ 0 <= amount c /\ 0 < amount n + amount c /\
  (forall x y P, stakes x y P s' = stakes x y P s - if P (from, receiver) then x * amount n + y * amount c else 0).
Proof.
  intros Hsrc E. unfold undelegatebw in E. apply bind_Ok in E as (b & Hb & E). apply bind_Ok in E as ([] & ->%assert_Ok & E).
  apply asset_compare_Ok in Hb as [_ Hb]. apply bind_Ok in E as (b & Hn & E). apply bind_Ok in E as ([] & ->%assert_Ok & E).
  apply asset_compare_Ok in Hn as [_ Hn]. apply bind_Ok in E as (t & Ht & E). apply asset_add_Ok in Ht as (_ & Ht & _).
  apply bind_Ok in E as (b & Hp & E). apply bind_Ok in E as ([] & ->%assert_Ok & E). apply asset_compare_Ok in Hp as [_ Hp].
  apply bind_Ok in E as (d & _ & E). apply bind_Ok in E as (av & _ & E). apply bind_Ok in E as (rq & _ & E).
  apply bind_Ok in E as ([av' s1] & E1 & E). apply bind_Ok in E as (b & _ & E). apply bind_Ok in E as ([] & _ & E).
  apply bind_Ok in E as ([] & _ & E). apply bind_Ok in E as (n' & Hn'%asset_neg_Ok & E). apply bind_Ok in E as (c' & Hc'%asset_neg_Ok & E).
  apply changebw_Ok in E as (Hr & _ & Hst & _); [|done].
  assert (exists m, s1 = set_escrow s m) as [m ->].
  { destruct (from =? receiver); [|injection E1 as _ <-; exists (sy_escrow s); by destruct s].
    apply bind_Ok in E1 as ([a rows] & _ & E1). injection E1 as _ <-. by eexists. }
  simpl in *. split_and!; [etrans; [apply set_escrow_rebalanced|exact Hr]|lia|lia|lia|].
  intros x y P. rewrite Hst. change (stakes x y P (set_escrow s m)) with (stakes x y P s). destruct (P (from, receiver)); nia.
Qed.

Lemma refund_Ok s owner s' :
  owner <> snax_stake -> refund cx s owner = Ok s' -> rebalanced s s'.
Proof.
  intros Ho E. unfold refund in E. apply bind_Ok in E as ([] & _ & E). apply bind_Ok in E as (r & Hr & E).
  apply of_option_Ok in Hr. apply bind_Ok in E as ([] & _ & E). apply bind_Ok in E as (t & Ht & E).
  apply asset_add_Ok in Ht as (_ & Ht & Hs). injection E as <-. constructor.
  - intros []. constructor; simpl; try done. intros a q [_ Hq]%lookup_delete_Some. by apply (sk_refunds0 a).
  - simpl. rewrite flow_app. simpl. rewrite ?Z.eqb_refl, (proj2 (Z.eqb_neq owner snax_stake) Ho).
    unfold locked, stakes, refunding. simpl. rewrite (map_sum_delete _ (sy_refunds s) owner), Hr. unfold summand, refund_total at 2. lia.
  - intros [] Hf. simpl. apply Forall_app. split; [done|]. repeat constructor. simpl. rewrite Hs. by apply (sk_refunds0 owner).
Qed.

End Actions.
