(* ===== verification/StakingRuns.v ===== *)
(** * Runs of the staking actions

    Staking actions composed with the token contract, and what escrow guarantees;
    the runs of staking together with the RAM market are in [SystemRuns.v]. *)

From Stdlib Require Import ZArith Lia Bool.
From stdpp Require Import base numbers gmap relations sets sorting list.
From S2P Require Import Prelude Name BlockHeader Token TokenProofs Float64 SystemContract VotingProofs Staking StakingProofs.

Open Scope Z_scope.

(** ** Actions with their inline transfers *)

Inductive stake_action :=
| do_delegatebw (from receiver : account_name) (net cpu : asset) (transfer : bool)
| do_escrowbw (from receiver : account_name) (net cpu : asset) (transfer : bool) (period_count : Z)
| do_undelegatebw (from receiver : account_name) (net cpu : asset)
| do_refund (owner : account_name)
| do_voteproducer (voter proxy : account_name) (producers : list account_name)
| do_regproxy (proxy : account_name) (isproxy : bool).

(** The account that stakes or is refunded. *)
Definition actor (a : stake_action) : account_name :=
  match a with
  | do_delegatebw from _ _ _ _ | do_escrowbw from _ _ _ _ _ | do_undelegatebw from _ _ _ => from
  | do_refund owner => owner
  | do_voteproducer a _ _ | do_regproxy a _ => a
  end.

Definition clear_out (s : system_state) : system_state :=
  mk_system (sy_userres s) (sy_delband s) (sy_refunds s) (sy_voters s) (sy_producers s) (sy_escrow s) (sy_bids s)
    (sy_rammarket s) (sy_gstate s) (sy_limits s) (sy_platforms s) (sy_requests s) (sy_locks s) [].

(** The inline actions, each with the authority of its sender; [accts] tells which
    accounts exist. *)
Fixpoint execute (accts : account_name -> bool) (t : token_tables) (es : list sys_effect) : result token_tables :=
  match es with
  | [] => mret t
  | inline_transfer from to q :: es =>
      '(t, _) ← Token.transfer (mk_context 0 (fun a => a =? from) accts) t from to q [];
      execute accts t es
  | inline_issue to q :: es =>
      t ← run_action (mk_context 0 (fun _ => true) accts)
            (issue (mk_context 0 (fun a => a =? snax_name) accts) t to q []);
      execute accts t es
  | _ :: es => execute accts t es
  end.

Section Runs.
Context `{CMath}.

Definition run_stake_action (cx : sys_context) (s : system_state) (a : stake_action) : result system_state :=
  match a with
  | do_delegatebw from receiver net cpu tr => delegatebw cx s from receiver net cpu tr
  | do_escrowbw from receiver net cpu tr p => escrowbw cx s from receiver net cpu tr p
  | do_undelegatebw from receiver net cpu => undelegatebw cx s from receiver net cpu
  | do_refund owner => refund cx s owner
  | do_voteproducer a proxy ps => voteproducer cx s a proxy ps
  | do_regproxy a b => regproxy cx s a b
  end.

(** A transaction with one action. *)
Definition stake_transaction (cx : sys_context) (st : system_state * token_tables) (a : stake_action) :
    result (system_state * token_tables) :=
  s ← run_stake_action cx (clear_out st.1) a;
  t ← execute (sc_is_account cx) st.2 (sy_out s);
  mret (s, t).

Fixpoint stake_run (st : system_state * token_tables) (l : list (sys_context * stake_action)) :
    result (system_state * token_tables) :=
  match l with
  | [] => mret st
  | (cx, a) :: l => st ← stake_transaction cx st a; stake_run st l
  end.

(** *** Tokens follow the flow *)

Definition core_name : Z := symbol_value_name CORE_SYMBOL.

Lemma issue_moves cx cx' t to q memo t' :
  run_action cx' (issue cx t to q memo) = Ok t' ->
  let n := symbol_value_name (symbol q) in
  (forall a, balance t' a n = balance t a n + if to =? a then amount q else 0) /\
  (forall m, m <> n -> stats t' !! m = stats t !! m).
Proof.
  intros E. apply bind_Ok in E as ([t1 es] & E1 & E).
  apply issue_Ok in E1 as (st & s & Hst & _ & Hq & _ & _ & _ & _ & Hadd & ->). intros n. fold n in Hst, Hadd.
  apply add_balance_Ok in Hadd as (Hs1 & Hb1 & Ho1 & _); [|lia]. fold n in Hb1, Ho1. simpl in Hs1.
  assert (forall a, balance t1 a n = balance t a n + if issuer st =? a then amount q else 0) as Hbal.
  { intros a. destruct (Z.eqb_spec (issuer st) a) as [<-|Hne]; [exact Hb1|].
    unfold balance. rewrite Ho1 by congruence. simpl. lia. }
  assert (forall m, m <> n -> stats t1 !! m = stats t !! m) as Hst1 by (intros m Hm; by rewrite Hs1, lookup_insert_ne).
  destruct (Z.eqb_spec to (issuer st)) as [->|Hne]; simpl in E.
  - by injection E as <-.
  - apply bind_Ok in E as ([t2 es2] & E2 & E). injection E as <-.
    apply transfer_moves in E2 as (_ & (Hs2 & Hf & Ht & Hr) & _). fold n in Hf, Ht, Hr. split; [|intros m Hm; by rewrite Hs2, Hst1].
    intros a. destruct (Z.eqb_spec to a) as [<-|Ha].
    + rewrite Ht, Hbal. destruct (Z.eqb_spec (issuer st) to); [congruence|lia].
    + destruct (decide (a = issuer st)) as [->|Hi]; [rewrite Hf, Hbal, Z.eqb_refl; lia|].
      rewrite Hr, Hbal by congruence. destruct (Z.eqb_spec (issuer st) a); [congruence|lia].
Qed.

Lemma execute_balance accts es : forall t t' a,
  Forall core_transfer es -> execute accts t es = Ok t' -> balance t' a core_name = balance t a core_name + flow a es.
Proof.
  induction es as [|e es IH]; intros t t' a Hf E; [injection E as <-; simpl; lia|].
  apply Forall_cons in Hf as [He Hf]. destruct e as [f to q|to q| | | | | | | |]; simpl in E, He; try done; try by apply IH.
  2:{ apply bind_Ok in E as (t1 & E1 & E). apply issue_moves in E1 as [Hb _]. rewrite He in Hb. fold core_name in Hb.
    rewrite (IH t1 t' a Hf E), Hb. simpl. lia. }
  apply bind_Ok in E as ([t1 es1] & E1 & E). apply transfer_moves in E1 as ((Hne & _) & (_ & Hbf & Hbt & Hbo) & _).
  rewrite He in *. fold core_name in *. rewrite (IH t1 t' a Hf E). simpl.
  destruct (Z.eqb_spec to a) as [->|Ht], (Z.eqb_spec f a) as [->|Hfa]; try done; try lia.
  rewrite (Hbo a core_name); [lia|congruence|congruence].
Qed.

Lemma vote_rebalanced s s' :
  same_stakes s s' -> voters_ok (sy_voters s') \/ ~ voters_ok (sy_voters s) ->
  (forall a, staked_of s' a = staked_of s a) ->
  List.filter is_transfer (sy_out s') = List.filter is_transfer (sy_out s) -> rebalanced s s'.
Proof.
  intros HS Hv Hst HO. destruct (same_stakes_sums _ _ HS) as (Hs & Hr & Hn & Hc). constructor.
  - intros Hok. destruct Hv as [Hv|Hv]; [|by destruct Hv; apply Hok]. constructor.
    + rewrite <- (ss_delband _ _ HS). apply Hok.
    + rewrite <- (ss_refunds _ _ HS). apply Hok.
    + done.
    + intros a. rewrite Hst. unfold delegated_by. rewrite Hs. by apply (sk_staked s Hok).
    + intros a. rewrite Hn. unfold net_to. rewrite Hs. by apply (sk_net s Hok).
    + intros a. rewrite Hc. unfold cpu_to. rewrite Hs. by apply (sk_cpu s Hok).
    + intros a ram n c Ha. rewrite Hn, Hc. rewrite <- (ss_limits _ _ HS) in Ha. by apply (sk_limits s Hok a ram).
  - rewrite (flow_transfers _ (sy_out s')), HO, <- flow_transfers. unfold locked. rewrite Hs, Hr. lia.
  - intros _ Hf. apply core_transfers. rewrite HO. by apply core_transfers in Hf.
Qed.

Lemma voted_rebalanced s a proxy ps s' : voted s a proxy ps true s' -> stake_ok s -> rebalanced s s'.
Proof.
  intros Hvd Hok. pose proof Hvd as [_ _ (w & HV) _ HS _ HO]. apply vote_rebalanced; [done| | |done].
  - left. eapply voted_voters_ok; [exact Hvd|apply Hok|by left].
  - intros b. unfold staked_of. rewrite <- (staked_of_same _ _ b HV). destruct (decide (a = b)) as [<-|Hne].
    + rewrite lookup_alter_eq. by destruct (sy_voters s !! a).
    + by rewrite lookup_alter_ne.
Qed.

Lemma regproxy_rebalanced cx s a b s' : stake_ok s -> regproxy cx s a b = Ok s' -> rebalanced s s'.
Proof.
  intros Hok E. pose proof (regproxy_ok cx s a b s' (sk_voters s Hok) E) as Hv. apply bind_Ok in E as ([] & _ & E).
  destruct (sy_voters s !! a) as [v|] eqn:Ha.
  - apply bind_Ok in E as ([] & _ & E). apply bind_Ok in E as ([] & _ & E).
    unfold propagate in E. apply propagate_weights in E.
    apply vote_rebalanced; [etrans; [|by apply weights_only_stakes]; done|by left| |by rewrite <- (wo_out _ _ E)].
    intros c. unfold staked_of. rewrite <- (staked_of_same _ _ c (wo_voters _ _ E)). simpl.
    destruct (decide (a = c)) as [<-|Hne]; [rewrite lookup_alter_eq; by destruct (sy_voters s !! a)|by rewrite lookup_alter_ne].
  - injection E as <-. apply vote_rebalanced; [done|by left| |done].
    intros c. unfold staked_of. simpl. destruct (decide (a = c)) as [<-|Hne]; [by rewrite lookup_insert_eq, Ha|by rewrite lookup_insert_ne].
Qed.

Lemma run_stake_action_rebalanced cx s a s' :
  stake_ok s -> actor a <> snax_stake -> run_stake_action cx s a = Ok s' -> rebalanced s s'.
Proof.
  intros Hok Hn E. destruct a; simpl in Hn, E.
  - apply delegatebw_Ok in E as (_ & _ & _ & E). by apply changebw_Ok in E as [Hr _].
  - by apply escrowbw_Ok in E.
  - by apply undelegatebw_Ok in E as [Hr _].
  - by apply refund_Ok in E.
  - apply bind_Ok in E as ([] & _ & E). apply update_votes_voted in E. by eapply voted_rebalanced.
  - by apply regproxy_rebalanced in E.
Qed.

Lemma clear_out_ok s : stake_ok s -> stake_ok (clear_out s).
Proof. intros []. by constructor. Qed.

End Runs.

(** ** Escrow *)

Section Escrow.
Context `{CMath} (cx : sys_context).

(** What an escrow still holds back: the shares of the periods to come. *)
Definition escrow_holds (r : escrow_bandwidth) : Z :=
  amount (eb_initial_amount r) - Z.quot (amount (eb_initial_amount r)) (eb_period_count r) *
    (Z.quot (seconds_of_slot (slot_of_seconds (sc_now cx)) - seconds_of_slot (eb_created r)) 15768000 + 1).
Definition holds (rows : list (Z * escrow_bandwidth)) : Z := foldr (fun r z => escrow_holds r.2 + z) 0 rows.

Lemma escrow_available_Ok r b :
  escrow_available cx r = Ok b -> amount b = amount (eb_amount r) - escrow_holds r /\ eb_period_count r <> 0.
Proof.
  unfold escrow_available, escrow_holds. intros E. apply bind_Ok in E as (u & Hu & E). apply asset_sub_Ok in Hu as (_ & Hu & _).
  apply bind_Ok in E as ([] & Hp & E). destruct (Z.eqb_spec (eb_period_count r) 0) as [|Hp0]; [done|].
  apply bind_Ok in E as (sh & Hsh & E). unfold checked_i64 in Hsh. case_bool_decide; [|done]. injection Hsh as <-.
  apply bind_Ok in E as (a & Ha & E). apply asset_sub_Ok in E as (_ & Eb & _).
  unfold core, make_asset in Ha. apply bind_Ok in Ha as ([] & _ & Ha). apply bind_Ok in Ha as ([] & _ & Ha).
  injection Ha as <-. simpl in Eb. split; [lia|done].
Qed.

(** The loop respects the escrows it visits, and stops as soon as there is more
    than is asked for. *)
Lemma unstake_escrows_bound n c rows : forall available available' rows',
  unstake_escrows cx n c available rows = Ok (available', rows') -> amount n + amount c <= amount available' ->
  exists pre post, rows = pre ++ post /\ amount n + amount c <= amount available - holds pre /\
    (post = [] \/ amount n + amount c < amount available - holds pre /\ pre <> []) /\
    Forall (fun r => eb_period_count r.2 <> 0) pre.
Proof.
  induction rows as [|[k r] rows IH]; intros av av' rows' E Hle; simpl in E.
  { injection E as <- _. exists [], []. simpl. split_and!; [done|lia|by left|done]. }
  apply bind_Ok in E as (b & Hb%escrow_available_Ok & E). destruct Hb as [Hb Hp].
  apply bind_Ok in E as (a1 & Ha1 & E). apply asset_sub_Ok in Ha1 as (_ & Ha1 & _).
  apply bind_Ok in E as (a2 & Ha2 & E). apply asset_add_Ok in Ha2 as (_ & Ha2 & _).
  apply bind_Ok in E as (rq & Hrq & E). apply asset_add_Ok in Hrq as (_ & Hrq & _).
  apply bind_Ok in E as (more & Hm & E). apply asset_compare_Ok in Hm as [_ Hm].
  apply bind_Ok in E as ([b' a3] & E3 & E). apply bind_Ok in E as (a4 & _ & E). destruct more.
  - exists [(k, r)], rows. simpl. symmetry in Hm. apply Z.ltb_lt in Hm. split_and!; [done|lia|right; split; [lia|done]|by repeat constructor].
  - injection E3 as <- <-. apply bind_Ok in E as ([a5 rest] & E5 & E). injection E as <- _.
    destruct (IH a2 a5 rest E5 Hle) as (pre & post & -> & Hle' & Hpost & Hf). exists ((k, r) :: pre), post. simpl.
    split_and!; [done|lia|destruct Hpost as [|[? ?]]; [by left|right; split; [lia|done]]|by constructor].
Qed.

(** What is unstaked from oneself, and the escrows that were looked at. *)
Lemma undelegate_self s a n c s' :
  undelegatebw cx s a a n c = Ok s' ->
  exists d pre post, sy_delband s !! (a, a) = Some d /\ escrow_rows (escrow_of s a) = pre ++ post /\
    amount n + amount c <= amount (db_net_weight d) + amount (db_cpu_weight d) - holds pre /\
    (post = [] \/ pre <> []) /\
    Forall (fun r => eb_period_count r.2 <> 0) pre.
Proof.
  intros E. unfold undelegatebw in E. apply bind_Ok in E as (b1 & _ & E). apply bind_Ok in E as ([] & _ & E).
  apply bind_Ok in E as (b2 & _ & E). apply bind_Ok in E as ([] & _ & E). apply bind_Ok in E as (t & _ & E).
  apply bind_Ok in E as (b3 & _ & E). apply bind_Ok in E as ([] & _ & E).
  apply bind_Ok in E as (d & Hd & E). apply of_option_Ok in Hd. apply bind_Ok in E as (av & Hav & E).
  apply asset_add_Ok in Hav as (_ & Hav & _). apply bind_Ok in E as (rq & Hrq & E). apply asset_add_Ok in Hrq as (_ & Hrq & _).
  rewrite Z.eqb_refl in E. apply bind_Ok in E as ([av' s1] & E1 & E). apply bind_Ok in E1 as ([av'' rows] & Eu & E1).
  injection E1 as <- <-. apply bind_Ok in E as (b4 & Hb4 & E). apply bind_Ok in E as ([] & ->%assert_Ok & E).
  apply asset_compare_Ok in Hb4 as [_ Hb4]. symmetry in Hb4. apply Z.leb_le in Hb4.
  destruct (unstake_escrows_bound _ _ _ _ _ _ Eu) as (pre & post & Hpp & Hle & Hpost & Hf); [lia|].
  exists d, pre, post. rewrite Hav in *. split_and!; try done. by destruct Hpost as [|[_ ?]]; [left|right].
Qed.

(** An account with one escrow can unstake from itself no more than its stake
    without the shares of the periods to come; with several escrows only those
    before the first that leaves more than is asked for are respected. *)
Theorem escrow_respected s a n c s' :
  undelegatebw cx s a a n c = Ok s' ->
  exists d pre post, sy_delband s !! (a, a) = Some d /\ escrow_rows (escrow_of s a) = pre ++ post /\
    amount n + amount c <= amount (db_net_weight d) + amount (db_cpu_weight d) - holds pre /\
    ((length (escrow_rows (escrow_of s a)) <= 1)%nat -> pre = escrow_rows (escrow_of s a)).
Proof.
  intros E. destruct (undelegate_self s a n c s' E) as (d & pre & post & Hd & Hpp & Hle & Hpost & _).
  exists d, pre, post. split_and!; [done|done|done|]. rewrite Hpp, length_app. intros Hl.
  destruct Hpost as [->|Hne]; [by rewrite app_nil_r|]. destruct pre; [done|]. destruct post; [by rewrite app_nil_r|].
  simpl in Hl. lia.
Qed.

Lemma created_positive : 1 <= seconds_of_slot (slot_of_seconds (sc_now cx)).
Proof.
  unfold seconds_of_slot. pose proof (u32_is_u32 (Z.quot (sc_now cx * 1000 - 946684800000) 500)) as Hs.
  fold (slot_of_seconds (sc_now cx)) in Hs. unfold is_u32 in Hs.
  apply Z.quot_le_lower_bound; lia.
Qed.

End Escrow.

Lemma escrow_rows_single k r : 1 <= k -> escrow_rows {[k := r]} = [(k, r)].
Proof.
  intros Hk. unfold escrow_rows. rewrite map_to_list_singleton, filter_cons, decide_True by done. reflexivity.
Qed.

(** Anyone can stake to an account with an escrow of no periods, and from then
    on that account, if it had no escrow, can never unstake from itself. *)
Theorem escrow_denial `{CMath} cx cx' attacker victim s n c s1 s2 n' c' :
  attacker <> snax_stake -> escrow_of s victim = ∅ -> escrowbw cx s attacker victim n c true 0 = Ok s1 ->
  escrow_of s2 victim = escrow_of s1 victim -> is_Ok (undelegatebw cx' s2 victim victim n' c') = false.
Proof.
  intros Hat He E Hs2. unfold escrowbw in E. apply bind_Ok in E as ([] & _ & E). apply bind_Ok in E as (s0 & E0 & E).
  apply delegatebw_Ok in E0 as (_ & _ & _ & E0). apply changebw_Ok in E0 as (_ & _ & _ & Hes); [|done].
  apply bind_Ok in E as (t & _ & E). destruct (_ !! _) eqn:Hk; [done|]. injection E as <-.
  assert (escrow_of s0 victim = ∅) as He0 by (unfold escrow_of in *; by rewrite Hes).
  destruct (undelegatebw cx' s2 victim victim n' c') as [s3|e] eqn:Eu; [|done]. exfalso.
  destruct (undelegate_self cx' s2 victim n' c' s3 Eu) as (d & pre & post & _ & Hpp & _ & Hpost & Hf).
  rewrite Hs2 in Hpp. unfold escrow_of at 1 in Hpp. simpl in Hpp. rewrite lookup_insert_eq in Hpp. simpl in Hpp.
  rewrite He0 in Hpp. rewrite insert_empty, escrow_rows_single in Hpp by apply created_positive.
  destruct pre as [|p pre]; [destruct Hpost; [by subst post|done]|]. injection Hpp as <- _.
  apply Forall_cons in Hf as [Hf _]. done.
Qed.

(** ** Concrete runs *)

Module Demo.

Definition math : CMath := {| dpow := fun _ _ => of_int 1; dexp := fun x => x; dlog := fun x => x |}.
#[local] Existing Instance math.

Definition snx (a : Z) : asset := mk_asset a CORE_SYMBOL.
Definition alice : account_name := 1001.
Definition bob : account_name := 1002.

Definition at_time (a : account_name) (now : Z) : sys_context :=
  mk_sys_context snax_name (fun b => b =? a) (fun _ => false) (fun _ => true) now (now * 1000000) (fun _ => 1).
Definition start_time : Z := 1600000000.

Definition parameters : blockchain_parameters := mk_parameters 0 0 0 0 0 0 0 0 0 0 0 1 0 0 0 0 0 0 0 0 6.
Definition gstate : snax_global_state :=
  mk_global (2 ^ 32) 0 0 0 0 0 0 0 min_activated_stake 1 0 (of_int 0) 0 (snx 0) true 4385772 (-1324503311) parameters.
Definition start : system_state := mk_system ∅ ∅ ∅ ∅ ∅ ∅ ∅ None gstate ∅ ∅ ∅ ∅ [].
Definition tokens : token_tables :=
  mk_tables {[core_name := mk_stats (snx 2000) (snx 100000) snax_name]}
    {[(alice, core_name) := snx 1000; (bob, core_name) := snx 1000]}.

Definition result_of (st : system_state * token_tables) (r : result (system_state * token_tables)) :=
  match r with Ok st' => st' | Err _ => st end.
(** *** Escrow *)

Definition escrowed_by (l : list (sys_context * stake_action)) : system_state :=
  (result_of (start, tokens) (stake_run (start, tokens) l)).1.

(** One escrow of 100 in ten periods holds 90 back at first. *)
Definition one_escrow : system_state :=
  escrowed_by [(at_time alice start_time, do_escrowbw alice alice (snx 60) (snx 40) false 10)].

Lemma escrow_respected_witness :
  exists s', undelegatebw (at_time alice start_time) one_escrow alice alice (snx 10) (snx 0) = Ok s' /\
    exists pre, pre = escrow_rows (escrow_of one_escrow alice) /\ 10 <= 100 - holds (at_time alice start_time) pre.
Proof.
  destruct (undelegatebw (at_time alice start_time) one_escrow alice alice (snx 10) (snx 0)) as [s'|e] eqn:E;
    [|vm_compute in E; discriminate].
  exists s'. split; [reflexivity|].
  destruct (escrow_respected (at_time alice start_time) one_escrow alice (snx 10) (snx 0) s' E)
    as (d & pre & post & Hd & Hpp & Hle & Hall). exists pre. split; [apply Hall; vm_compute; lia|].
  vm_compute in Hd. injection Hd as <-. exact Hle.
Defined.

Example one_escrow_refuses :
  undelegatebw (at_time alice start_time) one_escrow alice alice (snx 11) (snx 0) = Err snax_assert_message.
Proof. vm_compute. reflexivity. Qed.

(** Two such escrows hold 180 of 200 back, and 60 can be unstaked. *)
Definition two_escrows : system_state :=
  escrowed_by [(at_time alice start_time, do_escrowbw alice alice (snx 60) (snx 40) false 10);
               (at_time alice (start_time + 1), do_escrowbw alice alice (snx 60) (snx 40) false 10)].

Example second_escrow_ignored :
  holds (at_time alice (start_time + 2)) (escrow_rows (escrow_of two_escrows alice)) = 180 /\
  is_Ok (undelegatebw (at_time alice (start_time + 2)) two_escrows alice alice (snx 60) (snx 0)) = true.
Proof. vm_compute. auto. Qed.

(** Bob stakes one unit to Alice with an escrow of no periods. *)
Definition staked : system_state :=
  escrowed_by [(at_time alice start_time, do_delegatebw alice alice (snx 100) (snx 50) false)].
Definition attacked : system_state :=
  match escrowbw (at_time bob start_time) staked bob alice (snx 1) (snx 0) true 0 with Ok s => s | Err _ => staked end.

Lemma escrow_denial_witness :
  is_Ok (undelegatebw (at_time alice start_time) staked alice alice (snx 100) (snx 0)) = true /\
  is_Ok (undelegatebw (at_time alice (start_time + 1000000000)) attacked alice alice (snx 100) (snx 0)) = false.
Proof.
  split; [vm_compute; reflexivity|].
  apply (escrow_denial (at_time bob start_time) _ bob alice staked (snx 1) (snx 0) attacked attacked); vm_compute;
    [discriminate|reflexivity|reflexivity|reflexivity].
Defined.

End Demo.
