(* ===== verification/RamMarket.v ===== *)
(** * The system contract: the RAM market

    [contracts/snax.system/exchange_state.cpp] and the RAM actions of
    [delegate_bandwidth.cpp] and [snax.system.cpp]. *)

From Stdlib Require Import ZArith Lia Bool.
From stdpp Require Import base numbers gmap list.
From S2P Require Import Prelude Name BlockHeader Token Float64 SystemContract Staking.

Open Scope Z_scope.

(** [S(0,RAM)] and [S(4,RAMCORE)]. *)
Definition RAM_SYMBOL : Z := 0x4d415200.
Definition RAMCORE_SYMBOL : Z := 0x45524f434d415204.

Section Market.
Context `{CMath} (cx : sys_context).

Definition add_amount (a : asset) (d : Z) : result asset := x ← checked_i64 (amount a + d); mret (mk_asset x (symbol a)).

Definition convert_to_exchange (supply : asset) (c : connector) (input : asset) : result (asset * connector * asset) :=
  let R := of_int (amount supply) in
  sum ← checked_i64 (amount (cn_balance c) + amount input);
  let C := of_int sum in
  let F := ddiv (cn_weight c) (of_int 1000) in
  let T := of_int (amount input) in
  let ONE := of_int 1 in
  let E := dmul (dneg R) (dsub ONE (dpow (dadd ONE (ddiv T C)) F)) in
  issued ← to_int64 E;
  supply ← add_amount supply issued;
  balance ← add_amount (cn_balance c) (amount input);
  out ← make_asset issued (symbol supply);
  mret (supply, mk_connector balance (cn_weight c), out).

Definition convert_from_exchange (supply : asset) (c : connector) (input : asset) : result (asset * connector * asset) :=
  snax_assert (symbol input =? symbol supply);;
  rest ← checked_i64 (amount supply - amount input);
  let R := of_int rest in
  let C := of_int (amount (cn_balance c)) in
  let F := ddiv (of_int 1000) (cn_weight c) in
  let E := of_int (amount input) in
  let ONE := of_int 1 in
  let T := dmul C (dsub (dpow (dadd ONE (ddiv E R)) F) ONE) in
  out ← to_int64 T;
  supply ← add_amount supply (- amount input);
  balance ← add_amount (cn_balance c) (- out);
  res ← make_asset out (symbol (cn_balance c));
  mret (supply, mk_connector balance (cn_weight c), res).

(** One call of [convert], without the call it ends with. *)
Definition convert_step (m : exchange_state) (from : asset) (to : Z) : result (exchange_state * asset) :=
  let sell_symbol := symbol from in
  let base_symbol := symbol (cn_balance (ex_base m)) in
  let quote_symbol := symbol (cn_balance (ex_quote m)) in
  if negb (sell_symbol =? symbol (ex_supply m)) then
    if sell_symbol =? base_symbol then
      '(su, c, a) ← convert_to_exchange (ex_supply m) (ex_base m) from; mret (mk_exchange su c (ex_quote m), a)
    else if sell_symbol =? quote_symbol then
      '(su, c, a) ← convert_to_exchange (ex_supply m) (ex_quote m) from; mret (mk_exchange su (ex_base m) c, a)
    else Err snax_assert_message
  else
    if to =? base_symbol then
      '(su, c, a) ← convert_from_exchange (ex_supply m) (ex_base m) from; mret (mk_exchange su c (ex_quote m), a)
    else if to =? quote_symbol then
      '(su, c, a) ← convert_from_exchange (ex_supply m) (ex_quote m) from; mret (mk_exchange su (ex_base m) c, a)
    else Err snax_assert_message.

(** Two calls are enough, see [RamMarketProofs.v]. *)
Fixpoint convert_fuel (fuel : nat) (m : exchange_state) (from : asset) (to : Z) : result (exchange_state * asset) :=
  match fuel with
  | O => Err out_of_fuel
  | S fuel =>
      '(m, a) ← convert_step m from to;
      if negb (to =? symbol a) then convert_fuel fuel m a to else mret (m, a)
  end.
Definition convert : exchange_state -> asset -> Z -> result (exchange_state * asset) := convert_fuel 2.

Definition set_ram (g : snax_global_state) (max reserved stake : Z) : snax_global_state :=
  mk_global max reserved stake
    (gs_last_producer_schedule_update g) (gs_last_pervote_bucket_fill g) (gs_pervote_bucket g) (gs_perblock_bucket g)
    (gs_total_unpaid_blocks g) (gs_total_activated_stake g) (gs_thresh_activated_stake_time g)
    (gs_last_producer_schedule_size g) (gs_total_producer_vote_weight g) (gs_last_name_close g) (gs_total_bp_reward g)
    (gs_initialized g) (gs_system_parabola_a g) (gs_system_parabola_b g) (gs_params g).

(** The row of [account] with [d] more bytes, and its limits. *)
Definition change_ram (s : system_state) (account : account_name) (d : Z) : result system_state :=
  u ← match sy_userres s !! account with
      | None => mret (mk_resources zero zero d)
      | Some u => b ← checked_i64 (ur_ram_bytes u + d); mret (mk_resources (ur_net_weight u) (ur_cpu_weight u) b)
      end;
  let s := set_userres s (<[account := u]> (sy_userres s)) in
  mret (set_resource_limits s account (ur_ram_bytes u) (amount (ur_net_weight u)) (amount (ur_cpu_weight u))).

Definition buyram (s : system_state) (payer receiver : account_name) (quant : asset) : result system_state :=
  sys_require_auth cx payer;;
  snax_assert (0 <? amount quant);;
  snax_assert (gs_resources_market_open (sy_gstate s) || sc_is_privileged cx payer);;
  rounded ← checked_i64 (amount quant + 199);
  let fee := mk_asset (Z.quot rounded 200) (symbol quant) in
  let quant_after_fee := mk_asset (amount quant - amount fee) (symbol quant) in
  let s := emit s (inline_transfer payer snax_ram quant_after_fee) in
  let s := if 0 <? amount fee then emit s (inline_transfer payer snax_ramfee fee) else s in
  m ← of_option snax_assert_message (sy_rammarket s);
  '(m, out) ← convert m quant_after_fee RAM_SYMBOL;
  let s := set_rammarket s (Some m) in
  let bytes_out := amount out in
  snax_assert (0 <? bytes_out);;
  let g := sy_gstate s in
  stake ← checked_i64 (gs_total_ram_stake g + amount quant_after_fee);
  let s := set_gstate s (set_ram g (gs_max_ram_size g) (u64 (gs_total_ram_bytes_reserved g + bytes_out)) stake) in
  change_ram s receiver bytes_out.

Definition buyrambytes (s : system_state) (payer receiver : account_name) (bytes : Z) : result system_state :=
  m ← of_option undefined_behavior (sy_rammarket s);
  b ← make_asset bytes RAM_SYMBOL;
  '(_, snaxout) ← convert m b CORE_SYMBOL;
  buyram s payer receiver snaxout.

Definition sellram (s : system_state) (account : account_name) (bytes : Z) : result system_state :=
  sys_require_auth cx account;;
  snax_assert (0 <? bytes);;
  u ← of_option snax_assert_message (sy_userres s !! account);
  snax_assert (bytes <=? ur_ram_bytes u);;
  m ← of_option snax_assert_message (sy_rammarket s);
  b ← make_asset bytes RAM_SYMBOL;
  '(m, tokens_out) ← convert m b CORE_SYMBOL;
  let s := set_rammarket s (Some m) in
  snax_assert (1 <? amount tokens_out);;
  let g := sy_gstate s in
  stake ← checked_i64 (gs_total_ram_stake g - amount tokens_out);
  snax_assert (0 <=? stake);;
  let s := set_gstate s (set_ram g (gs_max_ram_size g) (u64 (gs_total_ram_bytes_reserved g - bytes)) stake) in
  s ← change_ram s account (- bytes);
  let s := emit s (inline_transfer snax_ram account tokens_out) in
  rounded ← checked_i64 (amount tokens_out + 199);
  let fee := Z.quot rounded 200 in
  if 0 <? fee then f ← core fee; mret (emit s (inline_transfer account snax_ramfee f)) else mret s.

Definition setram (s : system_state) (max_ram_size : Z) : result system_state :=
  sys_require_auth cx (sc_self cx);;
  let g := sy_gstate s in
  snax_assert (gs_max_ram_size g <? max_ram_size);;
  snax_assert (max_ram_size <? 1024 * 1024 * 1024 * 1024 * 1024);;
  snax_assert (gs_total_ram_bytes_reserved g <? max_ram_size);;
  delta ← checked_i64 (i64 max_ram_size - i64 (gs_max_ram_size g));
  m ← of_option snax_assert_message (sy_rammarket s);
  b ← add_amount (cn_balance (ex_base m)) delta;
  let s := set_rammarket s (Some (mk_exchange (ex_supply m) (mk_connector b (cn_weight (ex_base m))) (ex_quote m))) in
  mret (set_gstate s (set_ram g max_ram_size (gs_total_ram_bytes_reserved g) (gs_total_ram_stake g))).

End Market.
