(* ===== verification/RamMarketProofs.v ===== *)
(** * The RAM market is balanced

    Bytes on sale and bytes sold add up to the size of the RAM, the market's
    supply never changes, and the tokens of [snax.ram] follow the stake the
    contract records. *)

From Stdlib Require Import ZArith Lia Bool.
From stdpp Require Import base numbers gmap relations sets sorting list.
From S2P Require Import Prelude Name BlockHeader Token TokenProofs Float64 SystemContract VotingProofs Staking StakingProofs.
From S2P Require Import StakingRuns RamMarket.

Open Scope Z_scope.

(** ** Conversions *)

Lemma checked_i64_Ok z r : checked_i64 z = Ok r -> r = z /\ is_i64 z.
Proof. unfold checked_i64. case_bool_decide; [|done]. by intros [= <-]. Qed.

Lemma add_amount_Ok a d r : add_amount a d = Ok r -> amount r = amount a + d /\ symbol r = symbol a /\ is_i64 (amount r).
Proof.
  unfold add_amount. intros E. apply bind_Ok in E as (x & Hx & E). apply checked_i64_Ok in Hx as [-> Hi]. by injection E as <-.
Qed.

Lemma contract_asset_Ok a s r : make_asset a s = Ok r -> amount r = a /\ symbol r = s.
Proof.
  unfold make_asset. intros E. apply bind_Ok in E as ([] & _ & E). apply bind_Ok in E as ([] & _ & E). by injection E as <-.
Qed.

Section Convert.
Context `{CMath}.

Lemma convert_to_exchange_Ok su c i su' c' a :
  convert_to_exchange su c i = Ok (su', c', a) ->
  amount su' = amount su + amount a /\ symbol su' = symbol su /\ symbol a = symbol su /\
  amount (cn_balance c') = amount (cn_balance c) + amount i /\ symbol (cn_balance c') = symbol (cn_balance c) /\
  is_i64 (amount (cn_balance c')).
Proof.
  unfold convert_to_exchange. intros E. apply bind_Ok in E as (x & _ & E). apply bind_Ok in E as (y & _ & E).
  apply bind_Ok in E as (s1 & Hs1%add_amount_Ok & E). apply bind_Ok in E as (b & Hb%add_amount_Ok & E).
  apply bind_Ok in E as (o & Ho%contract_asset_Ok & E). injection E as <- <- <-. simpl. destruct Hs1, Hb, Ho. intuition congruence.
Qed.

Lemma convert_from_exchange_Ok su c i su' c' a :
  convert_from_exchange su c i = Ok (su', c', a) ->
  amount su' = amount su - amount i /\ symbol su' = symbol su /\ symbol i = symbol su /\
  amount (cn_balance c') = amount (cn_balance c) - amount a /\ symbol (cn_balance c') = symbol (cn_balance c) /\
  symbol a = symbol (cn_balance c) /\ is_i64 (amount (cn_balance c')).
Proof.
  unfold convert_from_exchange. intros E. apply bind_Ok in E as ([] & Hsy & E). apply assert_Ok, Z.eqb_eq in Hsy.
  apply bind_Ok in E as (x & _ & E). apply bind_Ok in E as (y & _ & E).
  apply bind_Ok in E as (s1 & (H1 & H2 & _)%add_amount_Ok & E). apply bind_Ok in E as (b & (H3 & H4 & H5)%add_amount_Ok & E).
  apply bind_Ok in E as (o & (H6 & H7)%contract_asset_Ok & E). injection E as <- <- <-. simpl.
  split_and!; try congruence; lia.
Qed.

(** *** One exchange *)

Lemma convert_step_sell m from to m' a :
  symbol from <> symbol (ex_supply m) -> convert_step m from to = Ok (m', a) ->
  symbol a = symbol (ex_supply m') /\ symbol (ex_supply m') = symbol (ex_supply m).
Proof.
  intros Hne E. unfold convert_step in E. apply Z.eqb_neq in Hne. rewrite Hne in E. simpl in E.
  destruct (symbol from =? symbol (cn_balance (ex_base m)));
    [|destruct (symbol from =? symbol (cn_balance (ex_quote m))); [|done]];
    apply bind_Ok in E as ([[su c] b] & (_ & Hs & Ha & _)%convert_to_exchange_Ok & E); injection E as <- <-; simpl; split; congruence.
Qed.

Lemma convert_step_buy m from to m' a :
  symbol from = symbol (ex_supply m) -> convert_step m from to = Ok (m', a) -> symbol a = to.
Proof.
  intros He E. unfold convert_step in E. apply Z.eqb_eq in He. rewrite He in E. simpl in E.
  destruct (Z.eqb_spec to (symbol (cn_balance (ex_base m)))) as [->|];
    [|destruct (Z.eqb_spec to (symbol (cn_balance (ex_quote m)))) as [->|]; [|done]];
    apply bind_Ok in E as ([[su c] b] & (_ & _ & _ & _ & _ & Ha & _)%convert_from_exchange_Ok & E); by injection E as <- <-.
Qed.

(** Whatever the market and the symbols, the second exchange gives the symbol
    that is asked for. *)
Lemma convert_fuel_enough n m from to : convert_fuel (2 + n) m from to = convert m from to.
Proof.
  unfold convert. simpl. destruct (convert_step m from to) as [[m1 a]|] eqn:E1; [|done]. simpl.
  destruct (Z.eqb_spec to (symbol a)) as [|Hne]; [done|]. simpl.
  destruct (decide (symbol from = symbol (ex_supply m))) as [He|He].
  { by apply convert_step_buy in E1. }
  apply convert_step_sell in E1 as [Ha _]; [|done].
  destruct (convert_step m1 a to) as [[m2 b]|] eqn:E2; [|done]. simpl.
  apply convert_step_buy in E2 as ->; [|done]. by rewrite Z.eqb_refl.
Qed.

Definition market_symbols (m : exchange_state) : Prop :=
  symbol (ex_supply m) = RAMCORE_SYMBOL /\ symbol (cn_balance (ex_base m)) = RAM_SYMBOL /\
  symbol (cn_balance (ex_quote m)) = CORE_SYMBOL.

(** The market after [bytes] left it and [tokens] came in. *)
Record exchanged (m : exchange_state) (bytes tokens : Z) (m' : exchange_state) : Prop := {
  xc_symbols : market_symbols m';
  xc_supply : ex_supply m' = ex_supply m;
  xc_base : amount (cn_balance (ex_base m')) = amount (cn_balance (ex_base m)) - bytes;
  xc_quote : amount (cn_balance (ex_quote m')) = amount (cn_balance (ex_quote m)) + tokens;
  xc_range : is_i64 (amount (cn_balance (ex_base m')))
}.

Lemma asset_eq_parts (a b : asset) : amount a = amount b -> symbol a = symbol b -> a = b.
Proof. destruct a, b. simpl. by intros -> ->. Qed.

Lemma convert_two m from to m' a :
  symbol from <> symbol (ex_supply m) -> to <> symbol (ex_supply m) -> convert m from to = Ok (m', a) ->
  exists m1 b, convert_step m from to = Ok (m1, b) /\ convert_step m1 b to = Ok (m', a).
Proof.
  intros Hf Ht E. unfold convert in E. simpl in E. apply bind_Ok in E as ([m1 b] & E1 & E).
  pose proof (convert_step_sell _ _ _ _ _ Hf E1) as [Hb Hs]. rewrite Hb, Hs in E. apply Z.eqb_neq in Ht. rewrite Ht in E.
  simpl in E. apply bind_Ok in E as ([m2 c] & E2 & E). exists m1, b. split; [done|].
  pose proof (convert_step_buy _ _ _ _ _ Hb E2) as Hc. rewrite <- Hc, Z.eqb_refl in E. simpl in E. by injection E as <- <-.
Qed.

Lemma convert_buy m q m' a :
  market_symbols m -> symbol q = CORE_SYMBOL -> convert m q RAM_SYMBOL = Ok (m', a) ->
  exchanged m (amount a) (amount q) m' /\ symbol a = RAM_SYMBOL.
Proof.
  intros (Hs & Hb & Hq) Hy E. apply convert_two in E as (m1 & b & E1 & E2); [|rewrite Hs, ?Hy; done..].
  unfold convert_step in E1. rewrite Hs, Hb, Hq, Hy in E1. simpl in E1.
  apply bind_Ok in E1 as ([[su c] d] & (H1 & H2 & H3 & H4 & H5 & _)%convert_to_exchange_Ok & E1). injection E1 as <- <-.
  unfold convert_step in E2. simpl in E2. rewrite H2, H3, Hs, Hb in E2. simpl in E2.
  apply bind_Ok in E2 as ([[su' c'] d'] & (G1 & G2 & G3 & G4 & G5 & G6 & G7)%convert_from_exchange_Ok & E2). injection E2 as <- <-.
  split; [|congruence]. constructor; simpl; [unfold market_symbols; simpl; split_and!; congruence| |lia|lia|done].
  apply asset_eq_parts; [lia|congruence].
Qed.

Lemma convert_sell m q m' a :
  market_symbols m -> symbol q = RAM_SYMBOL -> convert m q CORE_SYMBOL = Ok (m', a) ->
  exchanged m (- amount q) (- amount a) m' /\ symbol a = CORE_SYMBOL.
Proof.
  intros (Hs & Hb & Hq) Hy E. apply convert_two in E as (m1 & b & E1 & E2); [|rewrite Hs, ?Hy; done..].
  unfold convert_step in E1. rewrite Hs, Hb, Hy in E1. simpl in E1.
  apply bind_Ok in E1 as ([[su c] d] & (H1 & H2 & H3 & H4 & H5 & H6)%convert_to_exchange_Ok & E1). injection E1 as <- <-.
  unfold convert_step in E2. simpl in E2. rewrite H2, H3, Hs, H5, Hb, Hq in E2. simpl in E2.
  apply bind_Ok in E2 as ([[su' c'] d'] & (G1 & G2 & G3 & G4 & G5 & G6 & G7)%convert_from_exchange_Ok & E2). injection E2 as <- <-.
  split; [|congruence]. constructor; simpl; [unfold market_symbols; simpl; split_and!; congruence| |lia|lia|done].
  apply asset_eq_parts; [lia|congruence].
Qed.

End Convert.

(** ** The actions *)

Definition ram_of (s : system_state) (a : account_name) : Z :=
  match sy_userres s !! a with Some u => ur_ram_bytes u | None => 0 end.

(** [account] has [bytes] more and the market [tokens]. *)
Record traded (s : system_state) (account : account_name) (bytes tokens : Z) (s' : system_state) : Prop := {
  td_market : exists m m', sy_rammarket s = Some m /\ sy_rammarket s' = Some m' /\ exchanged m bytes tokens m';
  td_gstate : sy_gstate s' = set_ram (sy_gstate s) (gs_max_ram_size (sy_gstate s))
    (u64 (gs_total_ram_bytes_reserved (sy_gstate s) + bytes)) (gs_total_ram_stake (sy_gstate s) + tokens);
  td_row : exists u, sy_userres s' = <[account := u]> (sy_userres s) /\ ur_ram_bytes u = ram_of s account + bytes /\
    amount (ur_net_weight u) = net_weight_of s account /\ amount (ur_cpu_weight u) = cpu_weight_of s account /\
    sy_limits s' = <[account := (ur_ram_bytes u, amount (ur_net_weight u), amount (ur_cpu_weight u))]> (sy_limits s);
  td_delband : sy_delband s' = sy_delband s;
  td_refunds : sy_refunds s' = sy_refunds s;
  td_voters : sy_voters s' = sy_voters s;
  td_producers : sy_producers s' = sy_producers s;
  td_bids : sy_bids s' = sy_bids s
}.

Lemma change_ram_Ok s a d s' :
  change_ram s a d = Ok s' ->
  exists u, s' = set_resource_limits (set_userres s (<[a := u]> (sy_userres s))) a (ur_ram_bytes u)
      (amount (ur_net_weight u)) (amount (ur_cpu_weight u)) /\
    ur_ram_bytes u = ram_of s a + d /\ amount (ur_net_weight u) = net_weight_of s a /\
    amount (ur_cpu_weight u) = cpu_weight_of s a.
Proof.
  unfold change_ram, ram_of, net_weight_of, cpu_weight_of. intros E. apply bind_Ok in E as (u & Hu & E). injection E as <-.
  exists u. split; [done|]. destruct (sy_userres s !! a) as [v|].
  - apply bind_Ok in Hu as (b & [-> _]%checked_i64_Ok & Hu). by injection Hu as <-.
  - injection Hu as <-. simpl. split_and!; [lia|done|done].
Qed.

(** The fee of a trade: one two hundredth, rounded up. *)
Definition ram_fee (a : Z) : Z := (a + 199) / 200.

Lemma ram_fee_spec a : 0 < a -> 0 < ram_fee a <= a /\ a <= 200 * ram_fee a < a + 200.
Proof. unfold ram_fee. intros Ha. pose proof (Z.div_mod (a + 199) 200). pose proof (Z.mod_pos_bound (a + 199) 200). lia. Qed.

Section Actions.
Context `{CMath} (cx : sys_context).

Lemma buyram_Ok s payer receiver q s' :
  symbol q = CORE_SYMBOL -> (forall m, sy_rammarket s = Some m -> market_symbols m) ->
  buyram cx s payer receiver q = Ok s' ->
  sc_has_auth cx payer = true /\ 0 < amount q /\
  exists bytes, 0 < bytes /\ traded s receiver bytes (amount q - ram_fee (amount q)) s' /\
    sy_out s' = sy_out s ++ [inline_transfer payer snax_ram (mk_asset (amount q - ram_fee (amount q)) CORE_SYMBOL);
                             inline_transfer payer snax_ramfee (mk_asset (ram_fee (amount q)) CORE_SYMBOL)].
Proof.
  intros Hy Hms E. unfold buyram in E. apply bind_Ok in E as ([] & Ha%assert_Ok & E).
  apply bind_Ok in E as ([] & Hq & E). apply assert_Ok, Z.ltb_lt in Hq. apply bind_Ok in E as ([] & _ & E).
  apply bind_Ok in E as (r & [-> _]%checked_i64_Ok & E). rewrite Z.quot_div_nonneg in E by lia. fold (ram_fee (amount q)) in E.
  pose proof (ram_fee_spec _ Hq) as [[Hf0 Hf1] _]. simpl in E.
  apply bind_Ok in E as (m & Hm & E). apply of_option_Ok in Hm. apply bind_Ok in E as ([m' out] & Hc & E).
  apply bind_Ok in E as ([] & Hb & E). apply assert_Ok, Z.ltb_lt in Hb.
  apply bind_Ok in E as (st & [-> _]%checked_i64_Ok & E). apply change_ram_Ok in E as (u & -> & Hu).
  apply Z.ltb_lt in Hf0. rewrite Hf0, Hy in *. simpl in *. split_and!; [done|done|]. exists (amount out).
  apply convert_buy in Hc as [Hx _]; [|by apply Hms|done]. split_and!; [done| |by rewrite <- app_assoc].
  constructor; simpl; try done; [by exists m, m'|]. exists u. by destruct Hu as (? & ? & ?).
Qed.

Lemma buyrambytes_Ok s payer receiver bytes s' :
  (forall m, sy_rammarket s = Some m -> market_symbols m) ->
  buyrambytes cx s payer receiver bytes = Ok s' ->
  exists q, symbol q = CORE_SYMBOL /\ buyram cx s payer receiver q = Ok s'.
Proof.
  intros Hms E. unfold buyrambytes in E. apply bind_Ok in E as (m & Hm & E). apply of_option_Ok in Hm.
  apply bind_Ok in E as (b & [_ Hb]%contract_asset_Ok & E). apply bind_Ok in E as ([m' q] & Hc & E).
  exists q. split; [|done]. by apply convert_sell in Hc as [_ ?]; [|apply Hms|].
Qed.

Lemma sellram_Ok s a bytes s' :
  (forall m, sy_rammarket s = Some m -> market_symbols m) ->
  sellram cx s a bytes = Ok s' ->
  sc_has_auth cx a = true /\ 0 < bytes <= ram_of s a /\
  exists tokens, 1 < tokens <= gs_total_ram_stake (sy_gstate s) /\ traded s a (- bytes) (- tokens) s' /\
    sy_out s' = sy_out s ++ [inline_transfer snax_ram a (mk_asset tokens CORE_SYMBOL);
                             inline_transfer a snax_ramfee (mk_asset (ram_fee tokens) CORE_SYMBOL)].
Proof.
  intros Hms E. unfold sellram in E. apply bind_Ok in E as ([] & Ha%assert_Ok & E).
  apply bind_Ok in E as ([] & Hb & E). apply assert_Ok, Z.ltb_lt in Hb. apply bind_Ok in E as (u & Hu & E). apply of_option_Ok in Hu.
  apply bind_Ok in E as ([] & Hle & E). apply assert_Ok, Z.leb_le in Hle. apply bind_Ok in E as (m & Hm & E). apply of_option_Ok in Hm.
  apply bind_Ok in E as (b & [Hba Hby]%contract_asset_Ok & E). apply bind_Ok in E as ([m' out] & Hc & E).
  apply bind_Ok in E as ([] & Ho & E). apply assert_Ok, Z.ltb_lt in Ho. apply bind_Ok in E as (st & [-> _]%checked_i64_Ok & E).
  apply bind_Ok in E as ([] & Hst & E). apply assert_Ok, Z.leb_le in Hst. simpl in Hst.
  apply bind_Ok in E as (s1 & (v & -> & Hv)%change_ram_Ok & E). apply bind_Ok in E as (r & [-> _]%checked_i64_Ok & E).
  rewrite Z.quot_div_nonneg in E by lia. fold (ram_fee (amount out)) in E. pose proof (ram_fee_spec (amount out)) as [[Hf0 _] _]; [lia|].
  apply Z.ltb_lt in Hf0. rewrite Hf0 in E. apply bind_Ok in E as (f & [Hfa Hfs]%contract_asset_Ok & E). injection E as <-.
  apply convert_sell in Hc as [Hx Hs]; [|by apply Hms|done]. rewrite Hba in Hx.
  split_and!; [done|done|unfold ram_of; by rewrite Hu|]. exists (amount out). split_and!; [done|lia| |].
  - constructor; simpl; try done; [by exists m, m'|]. exists v. by destruct Hv as (? & ? & ?).
  - simpl. rewrite <- app_assoc. simpl. do 2 f_equal; [|f_equal]; f_equal; by apply asset_eq_parts.
Qed.

Lemma setram_Ok s n s' :
  setram cx s n = Ok s' ->
  sc_has_auth cx (sc_self cx) = true /\ gs_max_ram_size (sy_gstate s) < n < 2 ^ 50 /\
  exists m b, sy_rammarket s = Some m /\
    amount b = amount (cn_balance (ex_base m)) + (i64 n - i64 (gs_max_ram_size (sy_gstate s))) /\ is_i64 (amount b) /\
    symbol b = symbol (cn_balance (ex_base m)) /\
    s' = set_gstate (set_rammarket s (Some (mk_exchange (ex_supply m) (mk_connector b (cn_weight (ex_base m))) (ex_quote m))))
      (set_ram (sy_gstate s) n (gs_total_ram_bytes_reserved (sy_gstate s)) (gs_total_ram_stake (sy_gstate s))).
Proof.
  intros E. unfold setram in E. apply bind_Ok in E as ([] & Ha%assert_Ok & E).
  apply bind_Ok in E as ([] & H1 & E). apply assert_Ok, Z.ltb_lt in H1. apply bind_Ok in E as ([] & H2 & E). apply assert_Ok, Z.ltb_lt in H2.
  apply bind_Ok in E as ([] & _ & E). apply bind_Ok in E as (d & [-> _]%checked_i64_Ok & E).
  apply bind_Ok in E as (m & Hm & E). apply of_option_Ok in Hm. apply bind_Ok in E as (b & (Hb & Hs & Hi)%add_amount_Ok & E).
  injection E as <-. split_and!; [done|done|lia|]. by exists m, b.
Qed.

End Actions.
