(* ===== verification/Producers.v ===== *)
(** * The system contract: producers and rewards

    The registration and election of producers of
    [contracts/snax.system/voting.cpp] and the rewards of [producer_pay.cpp].
    The contract reads the tables of the token contract, [t]. *)

From Stdlib Require Import ZArith Lia Bool.
From stdpp Require Import base numbers gmap sorting list.
From S2P Require Import Prelude Name BlockHeader Token Float64 SystemContract Staking.

Open Scope Z_scope.

(** [team_memory_initial] and the other premined amounts. *)
Definition team_memory_initial : Z := 10000000.
Definition team_balance_initial : Z := 1000000000.
Definition staked_by_team_initial : Z := 150000000000000 - team_memory_initial - team_balance_initial.
Definition account_creator_initial : Z := 5000000000000.
Definition airdrop_initial : Z := 5000000000000.

(** The order of the first components of the rows of a table. *)
Definition fst_le {A} (a b : account_name * A) : Prop := a.1 <= b.1.
#[export] Instance fst_le_dec {A} (a b : account_name * A) : Decision (fst_le a b).
Proof. unfold fst_le. apply _. Defined.

(** ** Producers *)

(** [public_key()]. *)
Definition no_key : Z := 0.

Definition by_votes (p : producer_info) : double := if pi_is_active p then dneg (pi_total_votes p) else pi_total_votes p.

Definition deactivate (p : producer_info) : producer_info :=
  mk_producer (pi_total_votes p) no_key false (pi_url p) (pi_unpaid_blocks p) (pi_last_claim_time p)
    (pi_last_block_time p) 0 (pi_location p).

Definition set_times (p : producer_info) (top block : Z) : producer_info :=
  mk_producer (pi_total_votes p) (pi_producer_key p) (pi_is_active p) (pi_url p) (pi_unpaid_blocks p)
    (pi_last_claim_time p) block top (pi_location p).

Definition set_unpaid (p : producer_info) (unpaid claim block : Z) : producer_info :=
  mk_producer (pi_total_votes p) (pi_producer_key p) (pi_is_active p) (pi_url p) unpaid claim block
    (pi_last_top_list_entry_time p) (pi_location p).

Definition store_producer (s : system_state) (name : account_name) (p : producer_info) : system_state :=
  set_producers s (<[name := p]> (sy_producers s)).

Definition set_schedule (g : snax_global_state) (update size : Z) : snax_global_state :=
  mk_global (gs_max_ram_size g) (gs_total_ram_bytes_reserved g) (gs_total_ram_stake g)
    update (gs_last_pervote_bucket_fill g) (gs_pervote_bucket g) (gs_perblock_bucket g)
    (gs_total_unpaid_blocks g) (gs_total_activated_stake g) (gs_thresh_activated_stake_time g)
    size (gs_total_producer_vote_weight g) (gs_last_name_close g) (gs_total_bp_reward g) (gs_initialized g)
    (gs_system_parabola_a g) (gs_system_parabola_b g) (gs_params g).

(** The fields of the rewards. *)
Definition set_rewards (g : snax_global_state) (fill pervote perblock unpaid : Z) (total : asset) : snax_global_state :=
  mk_global (gs_max_ram_size g) (gs_total_ram_bytes_reserved g) (gs_total_ram_stake g)
    (gs_last_producer_schedule_update g) fill pervote perblock
    unpaid (gs_total_activated_stake g) (gs_thresh_activated_stake_time g)
    (gs_last_producer_schedule_size g) (gs_total_producer_vote_weight g) (gs_last_name_close g) total (gs_initialized g)
    (gs_system_parabola_a g) (gs_system_parabola_b g) (gs_params g).

Definition set_name_close (g : snax_global_state) (close : Z) : snax_global_state :=
  mk_global (gs_max_ram_size g) (gs_total_ram_bytes_reserved g) (gs_total_ram_stake g)
    (gs_last_producer_schedule_update g) (gs_last_pervote_bucket_fill g) (gs_pervote_bucket g) (gs_perblock_bucket g)
    (gs_total_unpaid_blocks g) (gs_total_activated_stake g) (gs_thresh_activated_stake_time g)
    (gs_last_producer_schedule_size g) (gs_total_producer_vote_weight g) close (gs_total_bp_reward g) (gs_initialized g)
    (gs_system_parabola_a g) (gs_system_parabola_b g) (gs_params g).

(** *** The index by votes *)

(** The order of an index of doubles: by the key, then by the primary key. *)
Definition vote_pos : Type := double * account_name.
Definition vote_lt (a b : vote_pos) : bool := dlt a.1 b.1 || negb (dlt b.1 a.1) && (a.2 <? b.2).

Definition vote_entries (P : gmap account_name producer_info) : list vote_pos :=
  (fun x => (by_votes x.2, x.1)) <$> map_to_list P.

Definition least (l : list vote_pos) : option vote_pos :=
  foldr (fun e r => match r with Some a => if vote_lt e a then Some e else r | None => Some e end) None l.

(** [idx.cbegin()] and the iterator after the entry at [pos]. *)
Definition votes_begin (P : gmap account_name producer_info) : option vote_pos := least (vote_entries P).
Definition votes_next (P : gmap account_name producer_info) (pos : vote_pos) : option vote_pos :=
  least (List.filter (vote_lt pos) (vote_entries P)).

Section Producers.
Context `{CMath} (cx : sys_context).

Definition regproducer (s : system_state) (producer : account_name) (key : Z) (url : list Z) (location : Z) :
    result system_state :=
  snax_assert (Z.of_nat (length url) <? 512);;
  snax_assert (negb (key =? no_key));;
  sys_require_auth cx producer;;
  let now := slot_of_seconds (sc_now cx) in
  match sy_producers s !! producer with
  | Some p =>
      mret (store_producer s producer
        (mk_producer (pi_total_votes p) key true url (pi_unpaid_blocks p) (pi_last_claim_time p) now 0 location))
  | None => mret (store_producer s producer (mk_producer (of_int 0) key true url 0 0 now 0 location))
  end.

Definition unregprod (s : system_state) (producer : account_name) : result system_state :=
  sys_require_auth cx producer;;
  p ← of_option snax_assert_message (sy_producers s !! producer);
  mret (store_producer s producer (deactivate p)).

Definition rmvproducer (s : system_state) (producer : account_name) : result system_state :=
  sys_require_auth cx (sc_self cx);;
  p ← of_option snax_assert_message (sy_producers s !! producer);
  mret (store_producer s producer (deactivate p)).

(** One turn of the loop of [update_elected_producers]: the row of the producer
    after it, and the candidate it adds. *)
Definition elect_one (g : snax_global_state) (block_time : Z) (owner : account_name) (p : producer_info) :
    producer_info * list (account_name * Z * Z) :=
  let previous_iteration_in_top_list := pi_last_top_list_entry_time p =? gs_last_producer_schedule_update g in
  let p := if previous_iteration_in_top_list then p else set_times p block_time block_time in
  if previous_iteration_in_top_list && (3600 <=? u32 (block_time - pi_last_block_time p)) then (deactivate p, [])
  else (set_times p block_time (pi_last_block_time p), [(owner, pi_producer_key p, pi_location p)]).

(** The loop. A producer that is deactivated moves to another place of the index,
    and the iterator goes on from there. *)
Fixpoint elect_loop (fuel : nat) (s : system_state) (block_time : Z) (it : option vote_pos)
    (top : list (account_name * Z * Z)) : result (system_state * list (account_name * Z * Z)) :=
  match fuel, it with
  | O, _ => Err out_of_fuel
  | S fuel, None => mret (s, top)
  | S fuel, Some (_, owner) =>
      p ← of_option undefined_behavior (sy_producers s !! owner);
      if (length top <? 21)%nat && dlt (of_int 0) (pi_total_votes p) then
        let '(p, new) := if pi_is_active p then elect_one (sy_gstate s) block_time owner p else (p, []) in
        let s := store_producer s owner p in
        elect_loop fuel s block_time (votes_next (sy_producers s) (by_votes p, owner)) (top ++ new)
      else mret (s, top)
  end.

(** Enough for every producer, see [ProducersProofs.v]. *)
Definition elect (s : system_state) (block_time : Z) : result (system_state * list (account_name * Z * Z)) :=
  elect_loop (S (size (sy_producers s))) s block_time (votes_begin (sy_producers s)) [].

Definition update_elected_producers (s : system_state) (block_time : Z) : result system_state :=
  '(s, top) ← elect s block_time;
  let g := sy_gstate s in
  let s := set_gstate s (set_schedule g block_time (gs_last_producer_schedule_size g)) in
  if Z.of_nat (length top) <? gs_last_producer_schedule_size g then mret s
  else
    let schedule := merge_sort fst_le (fst <$> top) in
    let s := emit s (propose_producers schedule) in
    if 0 <=? sc_set_proposed cx schedule
    then mret (set_gstate s (set_schedule (sy_gstate s) block_time (u16 (Z.of_nat (length top)))))
    else mret s.

(** ** Rewards *)

Definition core_symbol_name : Z := symbol_value_name CORE_SYMBOL.

(** [get_balance( account )] of the system contract. *)
Definition core_balance (t : token_tables) (a : account_name) : asset := default zero (accounts t !! (a, core_symbol_name)).

Fixpoint add_balances (t : token_tables) (balance : asset) (l : list account_name) : result asset :=
  match l with
  | [] => mret balance
  | a :: l => b ← asset_add balance (core_balance t a); add_balances t b l
  end.
Definition platform_accounts (s : system_state) : list account_name :=
  fst <$> merge_sort fst_le (map_to_list (sy_platforms s)).
Definition get_platform_full_balance (s : system_state) (t : token_tables) : result asset :=
  add_balances t zero (platform_accounts s).

Definition get_block_reward_multiplier (x : double) : double :=
  let target_point := of_int 40000000000 in
  let x0 := dexp (literal 15 100) in
  let x1 := ddiv (dsub (dexp (of_int 1)) x0) target_point in
  dlog (dadd x0 (dmul x x1)).

(** [a - b - c ..]. *)
Fixpoint asset_sub_all (a : asset) (l : list asset) : result asset :=
  match l with [] => mret a | b :: l => c ← asset_sub a b; asset_sub_all c l end.

(** The reward of a block, its half, and whether it is paid. *)
Definition block_reward (s : system_state) (t : token_tables) : result (asset * bool) :=
  system_supply_limit ← Token.get_max_supply t core_symbol_name;
  system_supply_soft_limit ← asset_div system_supply_limit 10;
  platform_full_balance ← get_platform_full_balance s t;
  issued_supply ← Token.get_supply t core_symbol_name;
  circulating_supply ← asset_sub_all issued_supply [platform_full_balance; core_balance t snax_name];
  supply_difference ← asset_sub system_supply_soft_limit circulating_supply;
  staked ← core staked_by_team_initial;
  airdrop ← core airdrop_initial;
  creator ← core account_creator_initial;
  x ← asset_sub_all circulating_supply [gs_total_bp_reward (sy_gstate s); staked; airdrop; creator];
  reward ← to_int64 (dmul (dmul (of_int (amount supply_difference)) (literal 5 10000000000))
    (get_block_reward_multiplier (ddiv (of_int (amount x)) (of_int 10000))));
  bp_reward ← core reward;
  bp_reward ← (if amount bp_reward <? min_per_block_amount then core min_per_block_amount else mret bp_reward);
  semi_bp_reward ← core (Z.quot (amount bp_reward) 2);
  positive ← asset_gt semi_bp_reward zero;
  paid ← (if (positive : bool) then sum ← asset_add bp_reward issued_supply; asset_lt sum system_supply_limit
          else mret false);
  mret (semi_bp_reward, paid).

(** The reward of a registered producer for its block. *)
Definition reward_producer (s : system_state) (t : token_tables) (timestamp : Z) (producer : account_name)
    (prod : producer_info) : result system_state :=
  let g := sy_gstate s in
  let unpaid := u32 (gs_total_unpaid_blocks g + 1) in
  '(semi_bp_reward, paid) ← block_reward s t;
  s ← (if (paid : bool) then
         let s := emit s (inline_issue snax_bpay semi_bp_reward) in
         let s := emit s (inline_issue snax_vpay semi_bp_reward) in
         pervote ← checked_i64 (gs_pervote_bucket g + amount semi_bp_reward);
         perblock ← checked_i64 (gs_perblock_bucket g + amount semi_bp_reward);
         both ← asset_add semi_bp_reward semi_bp_reward;
         total ← asset_add (gs_total_bp_reward g) both;
         mret (set_gstate s (set_rewards g (sc_current_time cx) pervote perblock unpaid total))
       else
         mret (set_gstate s (set_rewards g (gs_last_pervote_bucket_fill g) (gs_pervote_bucket g) (gs_perblock_bucket g)
           unpaid (gs_total_bp_reward g))));
  mret (store_producer s producer
    (set_unpaid prod (u32 (pi_unpaid_blocks prod + 1)) (pi_last_claim_time prod) timestamp)).

(** The index of bids by [static_cast<uint64_t>(-high_bid)]. *)
Definition by_high_bid (b : name_bid) : Z := u64 (- nb_high_bid b).
Definition bid_before (a b : account_name * name_bid) : bool :=
  (by_high_bid a.2 <? by_high_bid b.2) || (by_high_bid a.2 =? by_high_bid b.2) && (a.1 <? b.1).
Definition first_bid (B : gmap account_name name_bid) : option (account_name * name_bid) :=
  foldr (fun e r => match r with Some a => if bid_before e a then Some e else r | None => Some e end) None (map_to_list B).

(** The auction of the highest bid is closed. *)
Definition close_auction (s : system_state) (timestamp : Z) : system_state :=
  match first_bid (sy_bids s) with
  | Some (newname, b) =>
      if (0 <? nb_high_bid b) &&
         (nb_last_bid_time b <? u64 (sc_current_time cx - useconds_per_day)) &&
         (0 <? gs_thresh_activated_stake_time (sy_gstate s)) &&
         (14 * useconds_per_day <? u64 (sc_current_time cx - gs_thresh_activated_stake_time (sy_gstate s)))
      then
        let s := set_gstate s (set_name_close (sy_gstate s) timestamp) in
        set_bids s (<[newname := mk_bid (nb_high_bidder b) (- nb_high_bid b) (nb_last_bid_time b)]> (sy_bids s))
      else s
  | None => s
  end.

Definition onblock (s : system_state) (t : token_tables) (timestamp : Z) (producer : account_name) : result system_state :=
  sys_require_auth cx snax_name;;
  if gs_total_activated_stake (sy_gstate s) <? min_activated_stake then mret s
  else
    let g := sy_gstate s in
    let fill := if gs_last_pervote_bucket_fill g =? 0 then sc_current_time cx else gs_last_pervote_bucket_fill g in
    let s := set_gstate s (set_rewards g fill (gs_pervote_bucket g) (gs_perblock_bucket g) (gs_total_unpaid_blocks g)
      (gs_total_bp_reward g)) in
    s ← match sy_producers s !! producer with
        | Some prod => reward_producer s t timestamp producer prod
        | None => mret s
        end;
    if 120 <=? u32 (timestamp - gs_last_producer_schedule_update (sy_gstate s)) then
      s ← update_elected_producers s timestamp;
      mret (if blocks_per_day <? u32 (timestamp - gs_last_name_close (sy_gstate s)) then close_auction s timestamp else s)
    else mret s.

Definition claimrewards (s : system_state) (owner : account_name) : result system_state :=
  sys_require_auth cx owner;;
  prod ← of_option snax_assert_message (sy_producers s !! owner);
  snax_assert (pi_is_active prod);;
  let g := sy_gstate s in
  snax_assert (min_activated_stake <=? gs_total_activated_stake g);;
  let ct := sc_current_time cx in
  snax_assert (useconds_per_day <? u64 (ct - pi_last_claim_time prod));;
  producer_per_block_pay ←
    (if 0 <? gs_total_unpaid_blocks g then
       x ← checked_i64 (gs_perblock_bucket g * pi_unpaid_blocks prod); mret (Z.quot x (gs_total_unpaid_blocks g))
     else mret 0);
  producer_per_vote_pay ←
    (if dlt (of_int 0) (gs_total_producer_vote_weight g) then
       to_int64 (ddiv (dmul (of_int (gs_pervote_bucket g)) (pi_total_votes prod)) (gs_total_producer_vote_weight g))
     else mret 0);
  let producer_per_vote_pay := if producer_per_vote_pay <? min_pervote_pay then 0 else producer_per_vote_pay in
  pervote ← checked_i64 (gs_pervote_bucket g - producer_per_vote_pay);
  perblock ← checked_i64 (gs_perblock_bucket g - producer_per_block_pay);
  let unpaid := u32 (gs_total_unpaid_blocks g - pi_unpaid_blocks prod) in
  let s := set_gstate s (set_rewards g (gs_last_pervote_bucket_fill g) pervote perblock unpaid (gs_total_bp_reward g)) in
  let s := store_producer s owner (set_unpaid prod 0 ct (pi_last_block_time prod)) in
  s ← (if 0 <? producer_per_block_pay then
         a ← core producer_per_block_pay; mret (emit s (inline_transfer snax_bpay owner a))
       else mret s);
  if 0 <? producer_per_vote_pay then
    a ← core producer_per_vote_pay; mret (emit s (inline_transfer snax_vpay owner a))
  else mret s.

End Producers.
