(* ===== verification/Platforms.v ===== *)
(** * The system contract: names, platforms and its constructor

    The name auction, the platforms and the parameters of
    [contracts/snax.system/snax.system.cpp], and [name_suffix] of
    [snaxlib/types.hpp]. *)

From Stdlib Require Import ZArith Lia Bool Ascii String.
From stdpp Require Import base numbers gmap sorting list.
From S2P Require Import Prelude Name BlockHeader Token Float64 SystemContract Staking RamMarket Producers.

Open Scope Z_scope.

Definition snax_airdrop : account_name := Eval vm_compute in N_ "snax.airdrop".
Definition snax_creator : account_name := Eval vm_compute in N_ "snax.creator".

(** ** Names *)

(** The loop of [name_suffix] over the positions of the first twelve characters:
    [remaining_bits_after_last_actual_dot] and [tmp]. *)
Fixpoint suffix_loop (n : Z) (bits : list Z) (after_dot tmp : Z) : Z * Z :=
  match bits with
  | [] => (after_dot, tmp)
  | remaining_bits :: bits =>
      let c := Z.land (Z.shiftr n remaining_bits) 0x1f in
      if c =? 0 then suffix_loop n bits after_dot remaining_bits else suffix_loop n bits tmp tmp
  end.

Definition name_suffix (n : Z) : Z :=
  let '(after_dot, tmp) := suffix_loop n [59; 54; 49; 44; 39; 34; 29; 24; 19; 14; 9; 4] 0 0 in
  let thirteenth_character := Z.land n 0xf in
  let after_dot := if negb (thirteenth_character =? 0) then tmp else after_dot in
  if after_dot =? 0 then n
  else
    let mask := u64 (u64 (Z.shiftl 1 after_dot) - 16) in
    let shift := 64 - after_dot in
    u64 (u64 (Z.shiftl (Z.land n mask) shift) + u64 (Z.shiftl thirteenth_character (shift - 1))).

(** The loop of [newaccount] over the characters of a name from the last one on:
    its length, and whether it has a dot. *)
Fixpoint measure_name (fuel : nat) (tmp length : Z) (has_dot begin : bool) (previous_empty : Z) : Z * bool :=
  match fuel with
  | O => (length, has_dot)
  | S fuel =>
      let current := negb (Z.land tmp 0x1f =? 0) in
      let tmp' := Z.shiftr tmp 5 in
      if current && (previous_empty =? 1) then measure_name fuel tmp' (u16 (length + 2)) true begin (-1)
      else if current then measure_name fuel tmp' (u16 (length + 1)) has_dot true previous_empty
      else if begin && (previous_empty =? 0) then measure_name fuel tmp' length has_dot begin 1
      else if begin && ((previous_empty =? 1) || (previous_empty =? -1)) then (length, has_dot)
      else measure_name fuel tmp' length has_dot begin previous_empty
  end.

Section Names.
Context (cx : sys_context).

Definition bidname (s : system_state) (bidder newname : account_name) (bid : asset) : result system_state :=
  sys_require_auth cx bidder;;
  snax_assert (name_suffix newname =? newname);;
  snax_assert (negb (newname =? 0));;
  snax_assert (Z.land newname 0xf =? 0);;
  snax_assert (Z.land newname 0x1f0 =? 0);;
  snax_assert (negb (sc_is_account cx newname));;
  snax_assert (symbol bid =? CORE_SYMBOL);;
  snax_assert (0 <? amount bid);;
  let s := emit s (inline_transfer bidder snax_names bid) in
  match sy_bids s !! newname with
  | None => mret (set_bids s (<[newname := mk_bid bidder (amount bid) (sc_current_time cx)]> (sy_bids s)))
  | Some current =>
      snax_assert (0 <? nb_high_bid current);;
      d ← checked_i64 (amount bid - nb_high_bid current);
      snax_assert (Z.quot (nb_high_bid current) 10 <? d);;
      snax_assert (negb (nb_high_bidder current =? bidder));;
      refund ← core (nb_high_bid current);
      let s := emit s (inline_transfer snax_names (nb_high_bidder current) refund) in
      mret (set_bids s (<[newname := mk_bid bidder (amount bid) (sc_current_time cx)]> (sy_bids s)))
  end.

(** [native::newaccount], after the chain has created the account. *)
Definition newaccount (s : system_state) (creator newact : account_name) : result system_state :=
  s ← (if creator =? sc_self cx then mret s
       else
         let '(length, has_dot) := measure_name 12 (Z.shiftr newact 4) 0 false false 0 in
         if has_dot || (length <? 6) then
           let suffix := name_suffix newact in
           if suffix =? newact then
             current ← of_option snax_assert_message (sy_bids s !! newact);
             snax_assert (nb_high_bidder current =? creator);;
             snax_assert (nb_high_bid current <? 0);;
             mret (set_bids s (delete newact (sy_bids s)))
           else snax_assert (creator =? suffix);; mret s
         else mret s);
  match sy_userres s !! newact with
  | Some _ => Err uniqueness_violation
  | None =>
      let s := set_userres s (<[newact := mk_resources zero zero 0]> (sy_userres s)) in
      mret (set_resource_limits s newact 0 0 0)
  end.

(** ** Parameters *)

Definition set_params (g : snax_global_state) (p : blockchain_parameters) : snax_global_state :=
  mk_global (gs_max_ram_size g) (gs_total_ram_bytes_reserved g) (gs_total_ram_stake g)
    (gs_last_producer_schedule_update g) (gs_last_pervote_bucket_fill g) (gs_pervote_bucket g) (gs_perblock_bucket g)
    (gs_total_unpaid_blocks g) (gs_total_activated_stake g) (gs_thresh_activated_stake_time g)
    (gs_last_producer_schedule_size g) (gs_total_producer_vote_weight g) (gs_last_name_close g) (gs_total_bp_reward g)
    (gs_initialized g) (gs_system_parabola_a g) (gs_system_parabola_b g) p.

Definition setparams (s : system_state) (p : blockchain_parameters) : result system_state :=
  sys_require_auth cx snax_name;;
  let s := set_gstate s (set_params (sy_gstate s) p) in
  snax_assert (3 <=? bp_max_authority_depth (gs_params (sy_gstate s)));;
  mret (emit s (set_blockchain_parameters p)).

Definition setpriv (s : system_state) (account : account_name) (ispriv : Z) : result system_state :=
  sys_require_auth cx (sc_self cx);;
  mret (emit s (set_privileged account ispriv)).

(** ** Platforms *)

(** The first loop of [setplatforms], over the platforms in the order of their
    accounts: those not in the new list lose their bandwidth and their row. *)
Definition drop_platform (s : system_state) (a : account_name) : system_state :=
  let s := match sy_userres s !! a with
           | Some u =>
               let s := set_resource_limits s a (ur_ram_bytes u) 0 0 in
               set_userres s (<[a := mk_resources zero zero (ur_ram_bytes u)]> (sy_userres s))
           | None => s
           end in
  set_platforms s (delete a (sy_platforms s)).

Fixpoint drop_platforms (s : system_state) (keep l : list account_name) : system_state :=
  match l with
  | [] => s
  | a :: l => drop_platforms (if existsb (fun b => b =? a) keep then s else drop_platform s a) keep l
  end.

(** The row of a platform, and its limits if it had a row before. *)
Definition give_quotas (s : system_state) (p : platform_config) : result system_state :=
  let a := pc_account p in
  let q := pc_quotas p in
  let had_row := bool_decide (is_Some (sy_userres s !! a)) in
  let s := if had_row
           then set_resource_limits s a (i64 (q_ram_bytes q)) (i64 (q_net_weight q)) (i64 (q_cpu_weight q))
           else s in
  net ← core (i64 (q_net_weight q));
  cpu ← core (i64 (q_cpu_weight q));
  mret (set_userres s (<[a := mk_resources net cpu (i64 (q_ram_bytes q))]> (sy_userres s))).

Fixpoint add_platforms (s : system_state) (total_weight : double) (l : list platform_config) :
    result (system_state * double) :=
  match l with
  | [] => mret (s, total_weight)
  | p :: l =>
      snax_assert (dle (of_int 0) (pc_weight p));;
      let total_weight := dadd total_weight (pc_weight p) in
      snax_assert (0 <? pc_period p);;
      snax_assert (sc_is_account cx (pc_account p));;
      s ← give_quotas s p;
      add_platforms (set_platforms s (<[pc_account p := p]> (sy_platforms s))) total_weight l
  end.

Definition setplatforms (s : system_state) (platforms : list platform_config) : result system_state :=
  sys_require_auth cx (sc_self cx);;
  let s := drop_platforms s (pc_account <$> platforms) (platform_accounts s) in
  '(s, total_weight) ← add_platforms s (of_int 0) platforms;
  snax_assert (dle total_weight (of_int 1) && dle (of_int 0) total_weight);;
  mret s.

(** The microseconds of a slot, the keys of [platlocks] and [platsteps]. *)
Definition usec_of_slot (slot : Z) : Z := (slot * 500 + 946684800000) * 1000.

Definition lockplatform (s : system_state) (platform : account_name) : result system_state :=
  sys_require_auth cx platform;;
  let time := slot_of_seconds (sc_now cx) in
  let rows := default ∅ (sy_locks s !! platform) in
  match rows !! usec_of_slot time with
  | Some _ => Err uniqueness_violation
  | None => mret (set_locks s (<[platform := <[usec_of_slot time := time]> rows]> (sy_locks s)))
  end.

(** The row with the greatest key. *)
Definition last_row {A} (m : gmap Z A) : option (Z * A) := last (merge_sort fst_le (map_to_list m)).

(** [solve_quadratic_equation]: the smaller of its results is the one that is
    used. *)
Definition solve_quadratic_equation (a b c : double) : result (double * double) :=
  let d := dsub (dmul b b) (dmul (dmul (of_int 4) a) c) in
  snax_assert (dle (of_int 0) d);;
  mret (ddiv (ddiv (dadd (dneg b) (dsqrt d)) (of_int 2)) a, ddiv (ddiv (dsub (dneg b) (dsqrt d)) (of_int 2)) a).

Definition calculate_parabola (a b c x : double) : double := dadd (dadd (dmul (dmul a x) x) (dmul b x)) c.

(** The tokens of a round for [found], from the supply in circulation. *)
Definition platform_amount (g : snax_global_state) (soft_limit circulating offset_of_round : Z) (found : platform_config) :
    result asset :=
  supply_difference ← checked_i64 (soft_limit - circulating);
  let supply_difference := Z.max supply_difference 10000000000000 in
  let a := of_int (gs_system_parabola_a g) in
  let b := of_int (gs_system_parabola_b g) in
  '(_, current_offset) ← solve_quadratic_equation a b (of_int (Z.quot circulating 10000));
  y ← to_int64 (calculate_parabola a b (of_int (Z.quot soft_limit 10000)) (dadd current_offset (of_int offset_of_round)));
  d ← checked_i64 (Z.quot supply_difference 10000 - y);
  round_supply ← checked_i64 (d * 10000);
  amount ← to_int64 (ddiv (dmul (dmul (of_int round_supply) (pc_weight found)) (of_int (pc_period found)))
    (of_int offset_of_round));
  core amount.

Definition emitplatform (s : system_state) (t : token_tables) (platform : account_name) : result system_state :=
  sys_require_auth cx platform;;
  platform_full_balance ← get_platform_full_balance s t;
  let offset_of_round := foldr (fun x m => Z.max (pc_period x.2) m) 1 (map_to_list (sy_platforms s)) in
  found ← of_option snax_assert_message (sy_platforms s !! platform);
  let now := slot_of_seconds (sc_now cx) in
  limit ← Token.get_max_supply t core_symbol_name;
  soft ← core (Z.quot (amount limit) 10);
  let requests := default ∅ (sy_requests s !! platform) in
  snax_assert (match last_row requests with
               | Some (_, r) => seconds_of_slot (pr_request r) + u32 (3600 * 24 * pc_period found) <=? seconds_of_slot now
               | None => true
               end);;
  snax_assert (match last_row (default ∅ (sy_locks s !! platform)) with
               | Some (_, time) => seconds_of_slot time + bp_platform_lock_duration (gs_params (sy_gstate s)) <=? seconds_of_slot now
               | None => true
               end);;
  issued_supply ← Token.get_supply t core_symbol_name;
  let system_balance := core_balance t (sc_self cx) in
  c ← checked_i64 (amount issued_supply - amount system_balance);
  c ← checked_i64 (c - amount platform_full_balance);
  amount_to_transfer ← platform_amount (sy_gstate s) (amount soft) (Z.max c 0) offset_of_round found;
  more ← asset_gt amount_to_transfer system_balance;
  amount_to_issue ← (if (more : bool) then asset_sub amount_to_transfer system_balance else mret zero);
  issuing ← asset_gt amount_to_issue zero;
  let s := if (issuing : bool) then emit s (inline_issue snax_name amount_to_issue) else s in
  sending ← asset_gt amount_to_transfer zero;
  let s := if (sending : bool) then emit s (inline_transfer snax_name platform amount_to_transfer) else s in
  match requests !! usec_of_slot now with
  | Some _ => Err uniqueness_violation
  | None =>
      mret (set_requests s (<[platform := <[usec_of_slot now := mk_request now amount_to_transfer]> requests]> (sy_requests s)))
  end.

(** ** The constructor *)

(** What every action of the contract does first: it creates the RAM market when
    there is none, and asks for the premine once. *)
Definition create_market (s : system_state) (t : token_tables) : result system_state :=
  match sy_rammarket s with
  | Some _ => mret s
  | None =>
      max ← Token.get_max_supply t core_symbol_name;
      let limit := Z.quot (amount max) 10 in
      let g := sy_gstate s in
      mret (if 0 <? limit then
              set_rammarket s (Some (mk_exchange (mk_asset 100000000000000 RAMCORE_SYMBOL)
                (mk_connector (mk_asset (i64 (u64 (gs_max_ram_size g - gs_total_ram_bytes_reserved g))) RAM_SYMBOL) (literal 1 2))
                (mk_connector (mk_asset (Z.quot limit 7500) CORE_SYMBOL) (literal 1 2))))
            else s)
  end.

Definition set_initialized (g : snax_global_state) : snax_global_state :=
  mk_global (gs_max_ram_size g) (gs_total_ram_bytes_reserved g) (gs_total_ram_stake g)
    (gs_last_producer_schedule_update g) (gs_last_pervote_bucket_fill g) (gs_pervote_bucket g) (gs_perblock_bucket g)
    (gs_total_unpaid_blocks g) (gs_total_activated_stake g) (gs_thresh_activated_stake_time g)
    (gs_last_producer_schedule_size g) (gs_total_producer_vote_weight g) (gs_last_name_close g) (gs_total_bp_reward g)
    true (gs_system_parabola_a g) (gs_system_parabola_b g) (gs_params g).

Definition system_contract (s : system_state) (t : token_tables) : result system_state :=
  s ← create_market s t;
  if gs_initialized (sy_gstate s) then mret s
  else
    let self := sc_self cx in
    premine ← core (staked_by_team_initial + team_memory_initial + team_balance_initial + account_creator_initial + airdrop_initial);
    let s := emit s (inline_issue self premine) in
    team ← core team_balance_initial;
    let s := emit s (inline_transfer self snax_team team) in
    memory ← core team_memory_initial;
    let s := emit s (inline_buyram self snax_team memory) in
    net ← core (Z.quot staked_by_team_initial 5);
    cpu ← core (Z.quot staked_by_team_initial 5 * 4);
    let s := emit s (inline_escrowbw self snax_team net cpu true 10) in
    airdrop ← core airdrop_initial;
    let s := emit s (inline_transfer self snax_airdrop airdrop) in
    creator ← core account_creator_initial;
    let s := emit s (inline_transfer self snax_creator creator) in
    mret (set_gstate s (set_initialized (sy_gstate s))).

End Names.
