(* ===== verification/ProducersProofs.v ===== *)
(** * Elections and rewards

    The loop that elects the producers ends and takes the most voted ones, and the
    buckets of the rewards follow the tokens paid into them. *)

From Stdlib Require Import ZArith Lia Bool Floats.SpecFloat.
From stdpp Require Import base numbers gmap relations sets sorting list.
From S2P Require Import Prelude Name BlockHeader Token TokenProofs Float64 SystemContract VotingProofs Staking StakingProofs.
From S2P Require Import StakingRuns Producers.

Open Scope Z_scope.

(** ** The order of doubles *)

(** A double that is a number, as its place in the order. *)
Definition place (d : double) : Z * Z * Z :=
  match d with
  | S754_infinity true => (-2, 0, 0)
  | S754_finite true m e => (-1, - e, - Z.pos m)
  | S754_finite false m e => (1, e, Z.pos m)
  | S754_infinity false => (2, 0, 0)
  | _ => (0, 0, 0)
  end.
Definition place_lt (a b : Z * Z * Z) : Prop :=
  a.1.1 < b.1.1 \/ a.1.1 = b.1.1 /\ (a.1.2 < b.1.2 \/ a.1.2 = b.1.2 /\ a.2 < b.2).

Lemma dlt_place x y : is_nan x = false -> is_nan y = false -> dlt x y = true <-> place_lt (place x) (place y).
Proof.
  unfold dlt, SFltb, place_lt. intros Hx Hy.
  destruct x as [sx|[]| |[] mx ex], y as [sy|[]| |[] my ey]; try done; cbn [SFcompare place fst snd]; try (split; [done|lia]);
    try (split; [lia|done]).
  - destruct (Z.compare_spec ex ey) as [->|Hl|Hg]; cbn [CompOpp].
    + change (Pos.compare_cont Eq mx my) with (Pos.compare mx my).
      destruct (Pos.compare_spec mx my) as [->|Hl|Hg]; cbn [CompOpp]; split; (done || lia).
    + split; (done || lia).
    + split; (done || lia).
  - destruct (Z.compare_spec ex ey) as [->|Hl|Hg].
    + change (Pos.compare_cont Eq mx my) with (Pos.compare mx my).
      destruct (Pos.compare_spec mx my) as [->|Hl|Hg]; split; (done || lia).
    + split; (done || lia).
    + split; (done || lia).
Qed.

Lemma place_neg d : place (dneg d) = (- (place d).1.1, - (place d).1.2, - (place d).2).
Proof. destruct d as [s|[]| |[] m e]; simpl; f_equal; try f_equal; lia. Qed.

Lemma is_nan_neg d : is_nan (dneg d) = is_nan d.
Proof. by destruct d as [s|[]| |[] m e]. Qed.

(** *** The order of the index *)

Definition number (a : vote_pos) : Prop := is_nan a.1 = false.

Definition pos_lt (a b : vote_pos) : Prop :=
  place_lt (place a.1) (place b.1) \/ ~ place_lt (place b.1) (place a.1) /\ a.2 < b.2.

Lemma vote_lt_pos a b : number a -> number b -> vote_lt a b = true <-> pos_lt a b.
Proof.
  unfold number, vote_lt, pos_lt. intros Ha Hb. rewrite orb_true_iff, andb_true_iff, negb_true_iff, <- not_true_iff_false.
  rewrite !dlt_place, Z.ltb_lt by done. done.
Qed.

Ltac solve_pos := unfold pos_lt, place_lt in *; lia.

Lemma vote_lt_irreflexive a : number a -> vote_lt a a = false.
Proof. intros Ha. apply not_true_iff_false. rewrite vote_lt_pos by done. solve_pos. Qed.

Lemma vote_lt_transitive a b c :
  number a -> number b -> number c -> vote_lt a b = true -> vote_lt b c = true -> vote_lt a c = true.
Proof. intros Ha Hb Hc. rewrite !vote_lt_pos by done. solve_pos. Qed.

Lemma vote_lt_total a b : number a -> number b -> a.2 <> b.2 -> vote_lt a b = false -> vote_lt b a = true.
Proof. intros Ha Hb Hn. rewrite <- not_true_iff_false, !vote_lt_pos by done. solve_pos. Qed.

Lemma vote_lt_asym a b : number a -> number b -> vote_lt a b = true -> vote_lt b a = false.
Proof. intros Ha Hb. rewrite <- not_true_iff_false, !vote_lt_pos by done. solve_pos. Qed.

(** ** The election *)

Definition numeric (P : gmap account_name producer_info) : Prop :=
  forall n p, P !! n = Some p -> is_nan (pi_total_votes p) = false.

Lemma by_votes_number P n p : numeric P -> P !! n = Some p -> number (by_votes p, n).
Proof. intros HP Hp. unfold number, by_votes. simpl. destruct (pi_is_active p); rewrite ?is_nan_neg; by apply (HP n). Qed.

Lemma least_spec l e :
  (forall x, x ∈ l -> number x) -> least l = Some e ->
  e ∈ l /\ forall x, x ∈ l -> vote_lt x e = false.
Proof.
  revert e. induction l as [|y l IH]; intros e Hl E; [done|]. simpl in E.
  destruct (least l) as [a|] eqn:Ha.
  - destruct (IH a) as [Hin Hmin]; [intros x Hx; apply Hl; by right|done|].
    assert (number y) as Hy by (apply Hl; by left). assert (number a) as Hna by (apply Hl; by right).
    destruct (vote_lt y a) eqn:Hya; injection E as <-.
    + split; [by left|]. intros x [->|Hx]%elem_of_cons; [by apply vote_lt_irreflexive|].
      apply not_true_iff_false. intros Hxy. assert (vote_lt x a = true); [|by rewrite Hmin in *].
      eapply vote_lt_transitive; [apply Hl; by right| |done|exact Hxy|done]. done.
    + split; [by right|]. intros x [->|Hx]%elem_of_cons; [done|by apply Hmin].
  - injection E as <-. destruct l as [|z l]; [|simpl in Ha; by repeat case_match].
    split; [by left|]. intros x [->|Hx]%elem_of_cons; [|by apply elem_of_nil in Hx]. apply vote_lt_irreflexive, Hl. by left.
Qed.

Lemma least_nil l : least l = None -> l = [].
Proof. destruct l as [|z l]; [done|]. simpl. by repeat case_match. Qed.

Lemma elem_of_entries P x : x ∈ vote_entries P <-> exists p, P !! x.2 = Some p /\ x.1 = by_votes p.
Proof.
  unfold vote_entries. rewrite list_elem_of_fmap. destruct x as [d n]. split.
  - intros ([m p] & [= -> ->] & Hp%elem_of_map_to_list). by exists p.
  - intros (p & Hp & Hd). exists (n, p). simpl in *. subst d. split; [done|]. by apply elem_of_map_to_list.
Qed.

(** The rows after a place of the index. *)
Definition beyond (P : gmap account_name producer_info) (pos : vote_pos) : gmap account_name producer_info :=
  filter (fun x => vote_lt pos (by_votes x.2, x.1) = true) P.

Lemma lookup_beyond P pos n p : beyond P pos !! n = Some p <-> P !! n = Some p /\ vote_lt pos (by_votes p, n) = true.
Proof. unfold beyond. rewrite map_lookup_filter_Some. done. Qed.

(** An iterator stands on a row. *)
Definition on_row (P : gmap account_name producer_info) (pos : vote_pos) : Prop :=
  exists p, P !! pos.2 = Some p /\ pos.1 = by_votes p.

Lemma on_row_number P pos : numeric P -> on_row P pos -> number pos.
Proof. intros HP (p & Hp & Hd). destruct pos as [d n]. simpl in *. subst d. by eapply by_votes_number. Qed.

Lemma votes_next_spec P pos :
  numeric P ->
  match votes_next P pos with
  | Some e => on_row P e /\ vote_lt pos e = true /\
      forall n p, P !! n = Some p -> vote_lt pos (by_votes p, n) = true -> vote_lt (by_votes p, n) e = false
  | None => forall n p, P !! n = Some p -> vote_lt pos (by_votes p, n) = false
  end.
Proof.
  intros HP. unfold votes_next. destruct (least _) as [e|] eqn:E.
  - apply least_spec in E as [Hin Hmin].
    + apply list_elem_of_In, filter_In in Hin as [Hin Hlt]. apply list_elem_of_In, elem_of_entries in Hin as (p & Hp & Hd).
      split_and!; [by exists p|done|]. intros n q Hq Hlt'. apply Hmin. apply list_elem_of_In, filter_In. split; [|done].
      apply list_elem_of_In, elem_of_entries. by exists q.
    + intros x Hx. apply list_elem_of_In, filter_In in Hx as [Hx _]. apply list_elem_of_In, elem_of_entries in Hx as (p & Hp & Hd).
      destruct x as [d n]. simpl in *. subst d. by eapply by_votes_number.
  - apply least_nil in E. intros n p Hp. apply not_true_iff_false. intros Hlt.
    assert ((by_votes p, n) ∈ @nil vote_pos) as Hx; [|by apply elem_of_nil in Hx]. rewrite <- E.
    apply list_elem_of_In, filter_In. split; [|done]. apply list_elem_of_In, elem_of_entries. by exists p.
Qed.

Lemma votes_begin_spec P :
  numeric P ->
  match votes_begin P with
  | Some e => on_row P e /\ forall n p, P !! n = Some p -> vote_lt (by_votes p, n) e = false
  | None => P = ∅
  end.
Proof.
  intros HP. unfold votes_begin. destruct (least _) as [e|] eqn:E.
  - apply least_spec in E as [Hin Hmin].
    + apply elem_of_entries in Hin as (p & Hp & Hd). split; [by exists p|]. intros n q Hq. apply Hmin, elem_of_entries. by exists q.
    + intros x Hx. apply elem_of_entries in Hx as (p & Hp & Hd). destruct x as [d n]. simpl in *. subst d. by eapply by_votes_number.
  - apply least_nil in E. apply map_empty. intros n. destruct (P !! n) as [p|] eqn:Hp; [|done].
    assert ((by_votes p, n) ∈ @nil vote_pos) as Hx; [|by apply elem_of_nil in Hx]. rewrite <- E. apply elem_of_entries. by exists p.
Qed.

(** *** One turn of the loop *)

Definition turn (g : snax_global_state) (block_time : Z) (owner : account_name) (p : producer_info) :
    producer_info * list (account_name * Z * Z) :=
  if pi_is_active p then elect_one g block_time owner p else (p, []).

Definition candidate (n : account_name) (p : producer_info) : account_name * Z * Z := (n, pi_producer_key p, pi_location p).

(** A row keeps its votes; it is deactivated, or stays what it is. *)
Definition deactivated (p p' : producer_info) : Prop := pi_is_active p = true /\ pi_is_active p' = false.
Definition stays (p p' : producer_info) : Prop :=
  pi_is_active p' = pi_is_active p /\ pi_producer_key p' = pi_producer_key p /\ pi_location p' = pi_location p.

Lemma turn_spec g bt n p p' new :
  turn g bt n p = (p', new) ->
  pi_total_votes p' = pi_total_votes p /\ pi_unpaid_blocks p' = pi_unpaid_blocks p /\
  (deactivated p p' /\ new = [] \/ stays p p' /\ new = if pi_is_active p then [candidate n p] else []).
Proof.
  unfold turn, elect_one. destruct (pi_is_active p) eqn:Ha; [|intros [= <- <-]; split_and!; [done|done|by right]].
  destruct (_ =? _); simpl.
  - destruct (_ <=? _); intros [= <- <-]; (split_and!; [done|done|]).
    + left. by repeat split.
    + right. by repeat split.
  - intros [= <- <-]. split_and!; [done|done|]. right. by repeat split.
Qed.

Lemma stays_by_votes p p' : pi_total_votes p' = pi_total_votes p -> stays p p' -> by_votes p' = by_votes p.
Proof. unfold by_votes. by intros -> (-> & _). Qed.

(** A producer with votes moves forward when it is deactivated. *)
Lemma turn_forward p p' n :
  is_nan (pi_total_votes p) = false -> dlt (of_int 0) (pi_total_votes p) = true -> pi_total_votes p' = pi_total_votes p ->
  deactivated p p' -> vote_lt (by_votes p, n) (by_votes p', n) = true.
Proof.
  intros Hn Hv Ht [Ha Ha']. rewrite dlt_place in Hv by done. unfold by_votes. rewrite Ha, Ha', Ht.
  apply vote_lt_pos; [unfold number; simpl; by rewrite is_nan_neg|done|]. left. simpl. rewrite place_neg.
  change (place (of_int 0)) with (0, 0, 0) in Hv. unfold place_lt in *. simpl in *. lia.
Qed.

(** What the loop does with the row at [pos], and where it goes. *)
Record turned (P : gmap account_name producer_info) (pos : vote_pos) (p p' : producer_info) (P' : gmap account_name producer_info)
    : Prop := {
  tu_row : P !! pos.2 = Some p;
  tu_pos : pos.1 = by_votes p;
  tu_table : P' = <[pos.2 := p']> P;
  tu_votes : pi_total_votes p' = pi_total_votes p;
  tu_numeric : numeric P';
  tu_after x : number x -> vote_lt (by_votes p', pos.2) x = true -> vote_lt pos x = true
}.

Lemma turn_turned g bt P pos p p' new :
  numeric P -> P !! pos.2 = Some p -> pos.1 = by_votes p -> dlt (of_int 0) (pi_total_votes p) = true ->
  turn g bt pos.2 p = (p', new) -> turned P pos p p' (<[pos.2 := p']> P).
Proof.
  intros HP Hp Hd Hv E. destruct pos as [d n]. simpl in *. subst d. apply turn_spec in E as (Ht & _ & Hc).
  assert (numeric (<[n := p']> P)) as HP'.
  { intros m q [[<- <-]|[_ Hq]]%lookup_insert_Some; [rewrite Ht; by apply (HP n)|by apply (HP m)]. }
  constructor; simpl; try done. intros x Hx Hlt.
  destruct Hc as [[Hde _]|[Hst _]]; [|by rewrite <- (stays_by_votes p p' Ht Hst)].
  eapply vote_lt_transitive; [by apply (by_votes_number P)|apply (by_votes_number _ n p' HP'), lookup_insert_eq|done| |exact Hlt].
  apply turn_forward; try done. by apply (HP n).
Qed.

Lemma turned_beyond P pos p p' P' : turned P pos p p' P' -> beyond P' (by_votes p', pos.2) ⊆ beyond P pos.
Proof.
  intros [Hp Hd HT Hv HP Ha]. apply map_subseteq_spec. intros n q Hq. apply lookup_beyond in Hq as [Hq Hlt].
  assert (number (by_votes q, n)) as Hn by (by eapply by_votes_number).
  apply lookup_beyond. split; [|by apply Ha]. rewrite HT in Hq. apply lookup_insert_Some in Hq as [[Hn' <-]|[_ Hq]]; [|done].
  subst n. by rewrite vote_lt_irreflexive in Hlt.
Qed.

Lemma beyond_shrinks P pos e :
  numeric P -> number pos -> on_row P e -> vote_lt pos e = true -> (size (beyond P e) < size (beyond P pos))%nat.
Proof.
  intros HP Hpos He Hlt. pose proof (on_row_number P e HP He) as Hne. destruct He as (p & Hp & Hd). destruct e as [d n]. simpl in *. subst d.
  apply map_subset_size, map_subset_alt. split.
  - apply map_subseteq_spec. intros m q Hq. apply lookup_beyond in Hq as [Hq Hlt']. apply lookup_beyond. split; [done|].
    eapply vote_lt_transitive; [done|exact Hne|by eapply by_votes_number|done|done].
  - exists n. split.
    + apply eq_None_not_Some. intros [q Hq]. apply lookup_beyond in Hq as [Hq Hlt']. simplify_eq. by rewrite vote_lt_irreflexive in Hlt'.
    + exists p. by apply lookup_beyond.
Qed.

(** *** The loop as a relation *)

Inductive elects (bt : Z) : system_state -> option vote_pos -> list (account_name * Z * Z) ->
    system_state -> list (account_name * Z * Z) -> Prop :=
| elects_end s top : elects bt s None top s top
| elects_stop s pos p top :
    sy_producers s !! pos.2 = Some p -> (21 <= length top)%nat \/ dlt (of_int 0) (pi_total_votes p) = false ->
    elects bt s (Some pos) top s top
| elects_turn s pos p p' new top s' top' :
    sy_producers s !! pos.2 = Some p -> (length top < 21)%nat -> dlt (of_int 0) (pi_total_votes p) = true ->
    turn (sy_gstate s) bt pos.2 p = (p', new) ->
    elects bt (store_producer s pos.2 p')
      (votes_next (sy_producers (store_producer s pos.2 p')) (by_votes p', pos.2)) (top ++ new) s' top' ->
    elects bt s (Some pos) top s' top'.

Definition it_on_row (P : gmap account_name producer_info) (it : option vote_pos) : Prop :=
  match it with Some pos => on_row P pos | None => True end.

Lemma next_on_row P pos : numeric P -> it_on_row P (votes_next P pos).
Proof. intros HP. pose proof (votes_next_spec P pos HP) as Hs. destruct (votes_next P pos); [|done]. apply Hs. Qed.

Lemma elect_loop_elects bt fuel : forall s it top,
  numeric (sy_producers s) -> it_on_row (sy_producers s) it ->
  match it with Some pos => (S (size (beyond (sy_producers s) pos)) < fuel)%nat | None => (0 < fuel)%nat end ->
  exists s' top', elect_loop fuel s bt it top = Ok (s', top') /\ elects bt s it top s' top'.
Proof.
  induction fuel as [|fuel IH]; intros s it top HP Hit Hf; [destruct it; lia|].
  destruct it as [[d n]|]; cbn [elect_loop]; [|exists s, top; split; [done|constructor]].
  destruct Hit as (p & Hp & Hd). simpl in Hp, Hd. rewrite Hp. cbn [of_option mbind result_bind].
  destruct (Nat.ltb_spec (length top) 21) as [Hlt|Hge]; cbn [andb].
  2:{ exists s, top. split; [done|]. eapply elects_stop; [exact Hp|by left]. }
  destruct (dlt (of_int 0) (pi_total_votes p)) eqn:Hv.
  2:{ exists s, top. split; [done|]. eapply elects_stop; [exact Hp|by right]. }
  fold (turn (sy_gstate s) bt n p). destruct (turn (sy_gstate s) bt n p) as [p' new] eqn:Et.
  pose proof (turn_turned (sy_gstate s) bt _ (d, n) p p' new HP Hp Hd Hv Et) as HT. simpl in HT.
  set (s1 := store_producer s n p') in *. change (<[n:=p']> (sy_producers s)) with (sy_producers s1) in HT.
  pose proof (tu_numeric _ _ _ _ _ HT) as HP1. pose proof (turned_beyond _ _ _ _ _ HT) as Hsub. cbn [snd] in Hsub.
  destruct (IH s1 (votes_next (sy_producers s1) (by_votes p', n)) (top ++ new) HP1 (next_on_row _ _ HP1)) as (s' & top' & E & He).
  - pose proof (votes_next_spec (sy_producers s1) (by_votes p', n) HP1) as Hs. destruct (votes_next _ _) as [e|]; [|lia].
    destruct Hs as (Ho & Hlt' & _). apply map_subseteq_size in Hsub.
    assert (size (beyond (sy_producers s1) e) < size (beyond (sy_producers s1) (by_votes p', n)))%nat; [|lia].
    apply beyond_shrinks; try done. apply (by_votes_number (sy_producers s1)); [done|]. apply lookup_insert_eq.
  - exists s', top'. split; [exact E|]. by eapply (elects_turn bt s (d, n) p p' new).
Qed.

Lemma beyond_begin P e : numeric P -> on_row P e -> (size (beyond P e) < size P)%nat.
Proof.
  intros HP He. pose proof (on_row_number P e HP He) as Hne. destruct He as (p & Hp & Hd). destruct e as [d n]. simpl in *. subst d.
  apply map_subset_size, map_subset_alt. split; [apply map_filter_subseteq|]. exists n. split; [|by eexists].
  apply eq_None_not_Some. intros [q Hq]. apply lookup_beyond in Hq as [Hq Hlt']. simplify_eq. by rewrite vote_lt_irreflexive in Hlt'.
Qed.

(** The fuel of [elect] is enough. *)
Lemma elect_elects s bt :
  numeric (sy_producers s) ->
  exists s' top, elect s bt = Ok (s', top) /\ elects bt s (votes_begin (sy_producers s)) [] s' top.
Proof.
  intros HP. unfold elect. pose proof (votes_begin_spec _ HP) as Hb.
  apply elect_loop_elects; [done|destruct (votes_begin _); [apply Hb|done]|].
  destruct (votes_begin _) as [e|]; [|lia]. destruct Hb as [Ho _]. pose proof (beyond_begin _ e HP Ho). lia.
Qed.

(** *** Rows keep their votes *)

Definition row_kept (p p' : producer_info) : Prop :=
  pi_total_votes p' = pi_total_votes p /\ pi_unpaid_blocks p' = pi_unpaid_blocks p /\ (pi_is_active p = false -> pi_is_active p' = false).

Lemma elects_rows bt s it top s' top' :
  elects bt s it top s' top' ->
  (forall n, match sy_producers s !! n, sy_producers s' !! n with
             | Some p, Some p' => row_kept p p'
             | None, None => True
             | _, _ => False
             end) /\ exists P, s' = set_producers s P.
Proof.
  assert (forall s : system_state, exists P, s = set_producers s P) as Hrefl by (intros s0; exists (sy_producers s0); by destruct s0).
  induction 1 as [s top|s pos p top Hp _|s pos p p' new top s' top' Hp _ _ Et _ [IH [P IHs]]].
  - split; [|done]. intros n. by destruct (sy_producers s !! n).
  - split; [|done]. intros n. by destruct (sy_producers s !! n).
  - apply turn_spec in Et as (Ht & Hu & Hc). split; [|subst s'; by eexists]. intros n. specialize (IH n). simpl in IH.
    destruct (decide (pos.2 = n)) as [<-|Hne]; [|by rewrite lookup_insert_ne in IH].
    rewrite lookup_insert_eq in IH. rewrite Hp. destruct (sy_producers s' !! pos.2) as [q|]; [|done].
    destruct IH as (H1 & H2 & H3). split_and!; [congruence|congruence|]. intros Ha. apply H3.
    destruct Hc as [[[Ha' _] _]|[(-> & _) _]]; congruence.
Qed.

Lemma elects_top bt s it top s' top' : elects bt s it top s' top' -> exists new, top' = top ++ new.
Proof.
  induction 1 as [s top|s pos p top Hp _|s pos p p' new top s' top' Hp _ _ Et _ [new' ->]].
  - exists []. by rewrite app_nil_r.
  - exists []. by rewrite app_nil_r.
  - exists (new ++ new'). by rewrite app_assoc.
Qed.

(** *** Who is elected *)

(** Not before the iterator. *)
Definition at_or_after (it : option vote_pos) (x : vote_pos) : Prop :=
  match it with Some pos => vote_lt x pos = false | None => False end.

(** A row that is still ahead of the iterator after a turn was ahead of it before,
    and is another row. *)
Lemma ahead_of_turn P pos p p' P' n q :
  numeric P -> turned P pos p p' P' -> P' !! n = Some q ->
  at_or_after (votes_next P' (by_votes p', pos.2)) (by_votes q, n) ->
  n <> pos.2 /\ P !! n = Some q /\ vote_lt pos (by_votes q, n) = true.
Proof.
  intros HP HT Hq Ha. pose proof HT as [Hp Hd HT' Hv HP' Hafter]. pose proof (votes_next_spec P' (by_votes p', pos.2) HP') as Hs.
  destruct (votes_next P' _) as [e|]; [|done]. simpl in Ha. destruct Hs as (Ho & Hlt & _).
  assert (P' !! pos.2 = Some p') as Hp' by (rewrite HT'; apply lookup_insert_eq).
  pose proof (by_votes_number P' n q HP' Hq) as Nq. pose proof (by_votes_number P' _ p' HP' Hp') as Np. pose proof (on_row_number P' e HP' Ho) as Ne.
  assert (vote_lt (by_votes p', pos.2) (by_votes q, n) = true) as Hpq.
  { rewrite <- not_true_iff_false in Ha. rewrite vote_lt_pos in Ha, Hlt by done. rewrite vote_lt_pos by done. solve_pos. }
  assert (n <> pos.2) as Hn. { intros ->. simplify_eq. by rewrite vote_lt_irreflexive in Hpq. }
  split_and!; [done| |by apply Hafter]. by rewrite HT', lookup_insert_ne in Hq.
Qed.

Lemma elects_sound bt s it top s' top' :
  elects bt s it top s' top' -> numeric (sy_producers s) -> it_on_row (sy_producers s) it ->
  exists new, top' = top ++ new /\ ((length top <= 21)%nat -> (length top' <= 21)%nat) /\ NoDup (fst <$> (fst <$> new)) /\
    forall c, c ∈ new -> exists p, sy_producers s !! c.1.1 = Some p /\ pi_is_active p = true /\
      dlt (of_int 0) (pi_total_votes p) = true /\ c = candidate c.1.1 p /\ at_or_after it (by_votes p, c.1.1).
Proof.
  induction 1 as [s top|s pos p top Hp _|s pos p p' new top s' top' Hp Hl Hv Et _ IH]; intros HP Hit.
  - exists []. rewrite app_nil_r. split_and!; [done|done|constructor|]. intros c Hc. by apply elem_of_nil in Hc.
  - exists []. rewrite app_nil_r. split_and!; [done|done|constructor|]. intros c Hc. by apply elem_of_nil in Hc.
  - destruct Hit as (p0 & Hp0 & Hd). assert (p0 = p) as -> by congruence.
    pose proof (turn_turned (sy_gstate s) bt _ pos p p' new HP Hp Hd Hv Et) as HT.
    change (<[pos.2:=p']> (sy_producers s)) with (sy_producers (store_producer s pos.2 p')) in HT.
    pose proof (tu_numeric _ _ _ _ _ HT) as HP1. destruct (IH HP1 (next_on_row _ _ HP1)) as (new' & -> & Hlen & Hnd & Hc).
    apply turn_spec in Et as (_ & _ & Hnew).
    assert (forall c, c ∈ new' -> c.1.1 <> pos.2 /\ exists q, sy_producers s !! c.1.1 = Some q /\ pi_is_active q = true /\
      dlt (of_int 0) (pi_total_votes q) = true /\ c = candidate c.1.1 q /\ at_or_after (Some pos) (by_votes q, c.1.1)) as Hc'.
    { intros c Hcn. destruct (Hc c Hcn) as (q & Hq & Ha & Hqv & Hcand & Hat).
      destruct (ahead_of_turn _ _ _ _ _ _ _ HP HT Hq Hat) as (Hne & Hq' & Hlt). split; [done|]. exists q. split_and!; try done.
      apply vote_lt_asym; [|by eapply by_votes_number|done]. by apply (on_row_number (sy_producers s)); [|exists p]. }
    assert (new = [] \/ new = [candidate pos.2 p] /\ pi_is_active p = true) as Hn.
    { destruct Hnew as [[_ ->]|[_ ->]]; [by left|]. destruct (pi_is_active p); [by right|by left]. }
    exists (new ++ new'). rewrite app_assoc. split_and!; [done| | |].
    + intros _. apply Hlen. rewrite length_app. destruct Hn as [->|[-> _]]; simpl; lia.
    + rewrite !fmap_app. destruct Hn as [->|[-> _]]; [done|]. simpl. apply NoDup_cons_2; [|done].
      intros (c1 & Hc1 & (c & -> & Hcn)%list_elem_of_fmap)%list_elem_of_fmap. by destruct (Hc' c Hcn).
    + intros c [Hcn|Hcn]%elem_of_app; [|by destruct (Hc' c Hcn) as [_ ?]].
      destruct Hn as [->|[-> Ha]]; [by apply elem_of_nil in Hcn|]. apply list_elem_of_singleton in Hcn as ->. exists p.
      split_and!; try done. simpl. destruct pos as [d n]. simpl in *. subst d. apply vote_lt_irreflexive.
      by apply (by_votes_number (sy_producers s)).
Qed.

(** No producer has fewer than no votes. *)
Definition votes_ok (P : gmap account_name producer_info) : Prop :=
  forall n p, P !! n = Some p -> is_nan (pi_total_votes p) = false /\ dlt (pi_total_votes p) (of_int 0) = false.

Lemma votes_ok_numeric P : votes_ok P -> numeric P.
Proof. intros HP n p Hp. by destruct (HP n p Hp). Qed.

(** Those who are active at a position or before it stay so. *)
Definition none_lost_to (pos : vote_pos) (s s' : system_state) : Prop :=
  forall n p, sy_producers s !! n = Some p -> pi_is_active p = true -> vote_lt pos (by_votes p, n) = false ->
    exists p', sy_producers s' !! n = Some p' /\ pi_is_active p' = true.

Lemma no_votes_behind P pos p n q :
  votes_ok P -> P !! pos.2 = Some p -> pos.1 = by_votes p -> dlt (of_int 0) (pi_total_votes p) = false ->
  P !! n = Some q -> pi_is_active q = true -> dlt (of_int 0) (pi_total_votes q) = true -> vote_lt (by_votes q, n) pos = true.
Proof.
  intros HP Hp Hd Hv Hq Ha Hqv. destruct (HP _ _ Hp) as [Np Gp]. destruct (HP _ _ Hq) as [Nq _].
  assert (is_nan (of_int 0) = false) as N0 by reflexivity.
  rewrite <- not_true_iff_false in Hv, Gp. rewrite dlt_place in Hv, Gp, Hqv by done.
  change (place (of_int 0)) with (0, 0, 0) in Hv, Gp, Hqv. destruct pos as [d m]. simpl in Hd. subst d.
  apply vote_lt_pos; [by apply (by_votes_number P); [apply votes_ok_numeric|]|by apply (by_votes_number P); [apply votes_ok_numeric|]|].
  left. unfold by_votes. rewrite Ha. simpl. rewrite place_neg. destruct (pi_is_active p); rewrite ?place_neg; unfold place_lt in *; simpl in *; lia.
Qed.

(** Those already elected are before the iterator. *)
Definition top_before (P : gmap account_name producer_info) (it : option vote_pos) (top : list (account_name * Z * Z)) : Prop :=
  forall c, c ∈ top -> exists q, P !! c.1.1 = Some q /\ pi_is_active q = true /\
    match it with Some pos => vote_lt (by_votes q, c.1.1) pos = true | None => True end.

Lemma turn_stays bt s (pos : vote_pos) p p' new s' top top' :
  sy_producers s !! pos.2 = Some p -> turn (sy_gstate s) bt pos.2 p = (p', new) ->
  (pi_is_active p = true -> exists p', sy_producers s' !! pos.2 = Some p' /\ pi_is_active p' = true) ->
  elects bt (store_producer s pos.2 p') (votes_next (sy_producers (store_producer s pos.2 p')) (by_votes p', pos.2)) top s' top' ->
  stays p p' /\ pi_total_votes p' = pi_total_votes p /\ new = if pi_is_active p then [candidate pos.2 p] else [].
Proof.
  intros Hp Et Hnl He. apply turn_spec in Et as (Ht & _ & [[[Ha Hd] _]|[Hs Hn]]); [|done].
  destruct (Hnl Ha) as (q & Hq & Hqa). apply elects_rows in He as [Hr _]. specialize (Hr pos.2). simpl in Hr.
  rewrite lookup_insert_eq, Hq in Hr. destruct Hr as (_ & _ & Hi). rewrite Hi in Hqa; done.
Qed.

(** A turn that deactivates no one. *)
Record stayed (P : gmap account_name producer_info) (pos : vote_pos) (p p' : producer_info) (P' : gmap account_name producer_info)
    : Prop := {
  sd_turned : turned P pos p p' P';
  sd_stays : stays p p';
  sd_pos : (by_votes p', pos.2) = pos;
  sd_number : number pos
}.

Lemma turned_stayed P pos p p' P' : numeric P -> turned P pos p p' P' -> stays p p' -> stayed P pos p p' P'.
Proof.
  intros HN HT Hs. pose proof HT as [Hp Hd _ Hv _ _]. constructor; [done|done| |by apply (on_row_number P); [|exists p]].
  rewrite (stays_by_votes p p' Hv Hs), <- Hd. by destruct pos.
Qed.

Lemma stayed_other P pos p p' P' n q : stayed P pos p p' P' -> P !! n = Some q -> n <> pos.2 -> P' !! n = Some q.
Proof. intros [[_ _ -> _ _ _] _ _ _] Hq Hn. by rewrite lookup_insert_ne. Qed.

Lemma stayed_row P pos p p' P' : stayed P pos p p' P' -> P' !! pos.2 = Some p'.
Proof. intros [[_ _ -> _ _ _] _ _ _]. apply lookup_insert_eq. Qed.

Lemma stayed_top P pos p p' P' top :
  numeric P -> stayed P pos p p' P' -> top_before P (Some pos) top ->
  top_before P' (votes_next P' pos) (top ++ if pi_is_active p then [candidate pos.2 p] else []).
Proof.
  intros HN HS Htop. pose proof HS as [[Hp Hd _ _ HN1 _] Hst Hpos Npos]. pose proof (votes_next_spec P' pos HN1) as Hnx.
  intros c [Hc|Hc]%elem_of_app.
  - destruct (Htop c Hc) as (r & Hr & Hra & Hrl). exists r. assert (c.1.1 <> pos.2) as Hcn.
    { intros Hcn. rewrite Hcn in Hr, Hrl. assert (r = p) as -> by congruence. rewrite <- Hd in Hrl.
      destruct pos as [d n]. simpl in Hrl. by rewrite vote_lt_irreflexive in Hrl. }
    pose proof (stayed_other _ _ _ _ _ _ _ HS Hr Hcn) as Hr1. split_and!; [done|done|].
    destruct (votes_next P' pos) as [e|]; [|done]. destruct Hnx as (Ho & Hle & _).
    eapply vote_lt_transitive; [by eapply (by_votes_number P)|exact Npos|by apply (on_row_number P')|done|done].
  - destruct (pi_is_active p) eqn:Hpa; [|by apply elem_of_nil in Hc]. apply list_elem_of_singleton in Hc as ->.
    exists p'. simpl. split_and!; [by eapply stayed_row|destruct Hst as (-> & _); done|].
    rewrite Hpos. destruct (votes_next P' pos) as [e|]; [|done]. by destruct Hnx as (_ & Hle & _).
Qed.

Lemma stayed_ahead P pos p p' P' n q :
  numeric P -> stayed P pos p p' P' -> P !! n = Some q -> n <> pos.2 -> at_or_after (Some pos) (by_votes q, n) ->
  at_or_after (votes_next P' pos) (by_votes q, n).
Proof.
  intros HN HS Hq Hne Hat. pose proof HS as [[_ _ _ _ HN1 _] _ _ Npos]. pose proof (votes_next_spec P' pos HN1) as Hnx.
  pose proof (stayed_other _ _ _ _ _ _ _ HS Hq Hne) as Hq1.
  assert (vote_lt pos (by_votes q, n) = true) as Hlt by (apply vote_lt_total; [by eapply (by_votes_number P)|done..]).
  destruct (votes_next P' pos) as [e|]; [|by rewrite (Hnx n q Hq1) in Hlt]. destruct Hnx as (_ & _ & Hmin). by apply (Hmin n q).
Qed.

Lemma stayed_votes_ok P pos p p' P' : votes_ok P -> stayed P pos p p' P' -> votes_ok P'.
Proof.
  intros HP [[Hp _ -> Hv _ _] _ _ _] m r [[<- <-]|[_ Hr]]%lookup_insert_Some; [rewrite Hv; by apply (HP pos.2)|by apply (HP m)].
Qed.

Lemma elects_complete bt s it top s' top' :
  elects bt s it top s' top' -> votes_ok (sy_producers s) -> it_on_row (sy_producers s) it ->
  top_before (sy_producers s) it top ->
  forall n p, none_lost_to (by_votes p, n) s s' -> sy_producers s !! n = Some p -> pi_is_active p = true -> dlt (of_int 0) (pi_total_votes p) = true ->
    at_or_after it (by_votes p, n) ->
    candidate n p ∈ top' \/
    (21 <= length top')%nat /\ forall c, c ∈ top' -> exists q, sy_producers s' !! c.1.1 = Some q /\ pi_is_active q = true /\
      vote_lt (by_votes p, n) (by_votes q, c.1.1) = false.
Proof.
  induction 1 as [s top|s pos p top Hp Hstop|s pos p p' new top s' top' Hp Hl Hv Et He IH];
    intros HP Hit Htop n q Hnl Hq Ha Hqv Hat; [done|..]; pose proof (votes_ok_numeric _ HP) as HN;
    destruct Hit as (p0 & Hp0 & Hd); assert (p0 = p) as -> by congruence.
  - destruct Hstop as [Hlen|Hz]; [|simpl in Hat; by rewrite (no_votes_behind _ pos p n q HP Hp Hd Hz Hq Ha Hqv) in Hat].
    right. split; [done|]. intros c Hc. destruct (Htop c Hc) as (r & Hr & Hra & Hlt). exists r. split_and!; try done.
    pose proof (by_votes_number _ _ _ HN Hr) as Nr. pose proof (by_votes_number _ _ _ HN Hq) as Nq. simpl in Hat.
    assert (number pos) as Npos by (by apply (on_row_number (sy_producers s)); [|exists p]).
    rewrite <- not_true_iff_false in Hat |- *. rewrite vote_lt_pos in Hat, Hlt by done. rewrite vote_lt_pos by done. solve_pos.
  - pose proof (turn_turned (sy_gstate s) bt _ pos p p' new HN Hp Hd Hv Et) as HT.
    assert (pi_is_active p = true -> exists p', sy_producers s' !! pos.2 = Some p' /\ pi_is_active p' = true) as Hnl'
      by (intros Hpa; apply (Hnl pos.2 p); [done|done|]; rewrite <- Hd; by destruct pos).
    destruct (turn_stays _ _ _ _ _ _ _ _ _ Hp Et Hnl' He) as (Hst & Hvt & Hnew).
    change (<[pos.2:=p']> (sy_producers s)) with (sy_producers (store_producer s pos.2 p')) in HT.
    apply turned_stayed in HT as HS; [|done|done]. pose proof (sd_pos _ _ _ _ _ HS) as Hpos.
    destruct (decide (n = pos.2)) as [->|Hne].
    { assert (q = p) as -> by congruence. left. apply elects_top in He as [rest ->]. rewrite Hnew, Ha.
      apply elem_of_app. left. apply elem_of_app. right. by apply list_elem_of_singleton. }
    apply IH; try done.
    + by eapply stayed_votes_ok.
    + apply next_on_row. by eapply tu_numeric.
    + rewrite Hpos, Hnew. by eapply stayed_top.
    + intros m r Hr Hra Hvl. simpl in Hr. apply lookup_insert_Some in Hr as [[<- <-]|[_ Hr]]; [|by apply (Hnl m r)].
      apply Hnl'. destruct Hst as (<- & _). done.
    + by eapply stayed_other.
    + rewrite Hpos. by eapply stayed_ahead.
Qed.

(** *** What a deactivation does *)

(** The loop leaves the rows it has passed alone. *)
Lemma elects_passed bt s it top s' top' n p :
  elects bt s it top s' top' -> numeric (sy_producers s) -> it_on_row (sy_producers s) it ->
  sy_producers s !! n = Some p -> sy_producers s' !! n = Some p \/ at_or_after it (by_votes p, n).
Proof.
  induction 1 as [s top|s pos q top Hq _|s pos q q' new top s' top' Hq _ Hv Et _ IH]; intros HN Hit Hn; [by left|by left|].
  destruct Hit as (q0 & Hq0 & Hd). assert (q0 = q) as -> by congruence.
  pose proof (turn_turned (sy_gstate s) bt _ pos q q' new HN Hq Hd Hv Et) as HT.
  change (<[pos.2:=q']> (sy_producers s)) with (sy_producers (store_producer s pos.2 q')) in HT.
  assert (number pos) as Npos by (by apply (on_row_number (sy_producers s)); [|exists q]).
  destruct (decide (pos.2 = n)) as [<-|Hne].
  { right. assert (p = q) as -> by congruence. simpl. rewrite <- Hd. destruct pos as [d m]. by apply vote_lt_irreflexive. }
  destruct IH as [?|Hat]; [by eapply tu_numeric|apply next_on_row; by eapply tu_numeric|simpl; by rewrite lookup_insert_ne|by left|].
  right. destruct (ahead_of_turn _ _ _ _ _ n p HN HT) as (_ & _ & Hlt); [simpl; by rewrite lookup_insert_ne|done|].
  simpl. apply vote_lt_asym; [done|by eapply by_votes_number|done].
Qed.

Lemma elects_inactive_tail bt s it top s' top' :
  elects bt s it top s' top' -> numeric (sy_producers s) -> it_on_row (sy_producers s) it ->
  (forall n p, sy_producers s !! n = Some p -> at_or_after it (by_votes p, n) -> pi_is_active p = false) -> top' = top.
Proof.
  induction 1 as [s top|s pos p top Hp _|s pos p p' new top s' top' Hp _ Hv Et _ IH]; intros HN Hit Hin; [done|done|].
  destruct Hit as (p0 & Hp0 & Hd). assert (p0 = p) as -> by congruence.
  pose proof (turn_turned (sy_gstate s) bt _ pos p p' new HN Hp Hd Hv Et) as HT.
  change (<[pos.2:=p']> (sy_producers s)) with (sy_producers (store_producer s pos.2 p')) in HT.
  assert (number pos) as Npos by (by apply (on_row_number (sy_producers s)); [|exists p]).
  assert (pi_is_active p = false) as Ha.
  { apply (Hin pos.2 p Hp). simpl. rewrite <- Hd. destruct pos as [d n]. by apply vote_lt_irreflexive. }
  unfold turn in Et. rewrite Ha in Et. injection Et as <- <-. rewrite app_nil_r in IH. apply IH.
  - by eapply tu_numeric.
  - apply next_on_row. by eapply tu_numeric.
  - intros n q Hq Hat. destruct (ahead_of_turn _ _ _ _ _ n q HN HT Hq Hat) as (_ & Hq' & Hlt). apply (Hin n q Hq').
    simpl. apply vote_lt_asym; [done|by eapply (by_votes_number (sy_producers s))|done].
Qed.

(** After a deactivation only inactive producers follow. *)
Lemma deactivated_tail P p p' n m q :
  votes_ok P -> P !! n = Some p -> dlt (of_int 0) (pi_total_votes p) = true -> pi_total_votes p' = pi_total_votes p ->
  deactivated p p' -> P !! m = Some q -> vote_lt (by_votes p', n) (by_votes q, m) = true -> pi_is_active q = false.
Proof.
  intros HP Hp Hv Ht [Ha Ha'] Hq Hlt. destruct (pi_is_active q) eqn:Hqa; [|done]. destruct (HP _ _ Hp) as [Np _]. destruct (HP _ _ Hq) as [Nq Gq].
  rewrite dlt_place in Hv by done. rewrite <- not_true_iff_false, dlt_place in Gq by done. unfold by_votes in Hlt.
  rewrite Ha', Hqa, Ht in Hlt. rewrite vote_lt_pos in Hlt by (unfold number; simpl; rewrite ?is_nan_neg; done).
  unfold pos_lt in Hlt. simpl in Hlt. rewrite place_neg in Hlt. change (place (of_int 0)) with (0, 0, 0) in *.
  unfold place_lt in *. simpl in *. lia.
Qed.

Lemma elects_lost bt s it top s' top' n p p' m q :
  elects bt s it top s' top' -> votes_ok (sy_producers s) -> it_on_row (sy_producers s) it ->
  sy_producers s !! n = Some p -> pi_is_active p = true -> sy_producers s' !! n = Some p' -> pi_is_active p' = false ->
  sy_producers s !! m = Some q -> pi_is_active q = true -> vote_lt (by_votes p, n) (by_votes q, m) = true ->
  m ∈ (fst <$> (fst <$> top')) -> m ∈ (fst <$> (fst <$> top)).
Proof.
  intros He. revert p q. induction He as [s top|s pos r top Hr _|s pos r r' new top s' top' Hr Hl Hv Et He IH];
    intros p q HP Hit Hn Ha Hn' Ha' Hm Hma Hlt; [done|done|].
  pose proof (votes_ok_numeric _ HP) as HN. pose proof (elects_passed bt s (Some pos) top s' top' n p) as Hpass.
  destruct Hit as (r0 & Hr0 & Hd). assert (r0 = r) as -> by congruence.
  assert (at_or_after (Some pos) (by_votes p, n)) as Hat.
  { destruct Hpass as [|Hat]; [by eapply elects_turn|done|by exists r|done|congruence|done]. }
  pose proof (turn_turned (sy_gstate s) bt _ pos r r' new HN Hr Hd Hv Et) as HT.
  change (<[pos.2:=r']> (sy_producers s)) with (sy_producers (store_producer s pos.2 r')) in HT.
  pose proof (tu_numeric _ _ _ _ _ HT) as HN1.
  assert (number pos) as Npos by (by apply (on_row_number (sy_producers s)); [|exists r]).
  assert (m <> pos.2) as Hmp.
  { intros ->. assert (q = r) as -> by congruence. simpl in Hat. rewrite <- Hd in Hlt.
    destruct pos as [d k]. simpl in *. congruence. }
  apply turn_spec in Et as (Ht & _ & Hc).
  assert (votes_ok (<[pos.2 := r']> (sy_producers s))) as HP1.
  { intros k x [[<- <-]|[_ Hx]]%lookup_insert_Some; [rewrite Ht; by apply (HP pos.2)|by apply (HP k)]. }
  destruct Hc as [[Hde ->]|[Hst Hnew]].
  - rewrite app_nil_r in He. apply elects_inactive_tail in He as ->; [done|done|by apply next_on_row|].
    intros k x Hx Hxat. pose proof (votes_next_spec _ (by_votes r', pos.2) HN1) as Hnx.
    destruct (ahead_of_turn _ _ _ _ _ k x HN HT Hx Hxat) as (Hk & Hx' & _).
    eapply (deactivated_tail (sy_producers s) r r' pos.2 k x); try done.
    destruct (votes_next _ _) as [e|]; [|done]. destruct Hnx as (Ho & Hle & _). simpl in Hxat.
    pose proof (on_row_number _ _ HN1 Ho) as Ne. pose proof (by_votes_number _ _ _ HN Hx') as Nx.
    assert (number (by_votes r', pos.2)) as Nr by (apply (by_votes_number _ _ _ HN1), lookup_insert_eq).
    rewrite <- not_true_iff_false in Hxat. rewrite vote_lt_pos in Hxat, Hle by done. rewrite vote_lt_pos by done. solve_pos.
  - intros Hin. apply (IH (if decide (n = pos.2) then r' else p) q) in Hin; try done.
    + rewrite !fmap_app in Hin. apply elem_of_app in Hin as [Hin|Hin]; [done|]. rewrite Hnew in Hin.
      destruct (pi_is_active r); simpl in Hin; [|by apply elem_of_nil in Hin]. by apply list_elem_of_singleton in Hin.
    + by apply next_on_row.
    + simpl. destruct (decide (n = pos.2)) as [->|]; [by rewrite lookup_insert_eq|by rewrite lookup_insert_ne].
    + destruct (decide (n = pos.2)) as [->|]; [|done]. assert (r = p) as -> by congruence. by destruct Hst as (-> & _).
    + simpl. by rewrite lookup_insert_ne.
    + destruct (decide (n = pos.2)) as [->|]; [|done]. assert (r = p) as -> by congruence. by rewrite (stays_by_votes p r' Ht Hst).
Qed.

(** *** The schedule *)

Section Elected.
Context (cx : sys_context).

(** An active producer with votes. *)
Definition electable (s : system_state) (n : account_name) (p : producer_info) : Prop :=
  sy_producers s !! n = Some p /\ pi_is_active p = true /\ dlt (of_int 0) (pi_total_votes p) = true.

Lemma update_elected_cases s bt :
  numeric (sy_producers s) ->
  exists s1 top, elects bt s (votes_begin (sy_producers s)) [] s1 top /\
    exists s', update_elected_producers cx s bt = Ok s' /\ sy_producers s' = sy_producers s1 /\
      gs_last_producer_schedule_update (sy_gstate s') = bt /\
      (sy_out s' = sy_out s /\ Z.of_nat (length top) < gs_last_producer_schedule_size (sy_gstate s) \/
       sy_out s' = sy_out s ++ [propose_producers (merge_sort fst_le (fst <$> top))] /\
         gs_last_producer_schedule_size (sy_gstate s) <= Z.of_nat (length top)).
Proof.
  intros HN. destruct (elect_elects s bt HN) as (s1 & top & E & He). exists s1, top. split; [done|].
  apply elects_rows in He as [_ [P ->]]. unfold update_elected_producers. rewrite E. cbn [mbind result_bind].
  change (sy_gstate (set_producers s P)) with (sy_gstate s).
  destruct (Z.ltb_spec (Z.of_nat (length top)) (gs_last_producer_schedule_size (sy_gstate s))); cbv zeta.
  - eexists. split; [done|]. split_and!; [done|done|by left].
  - destruct (0 <=? sc_set_proposed cx _); eexists; (split; [done|]); (split_and!; [done|done|by right]).
Qed.

Lemma begin_at_or_after P n p : numeric P -> P !! n = Some p -> at_or_after (votes_begin P) (by_votes p, n).
Proof.
  intros HN Hp. pose proof (votes_begin_spec P HN) as Hb. destruct (votes_begin P) as [e|]; [by apply Hb|].
  subst P. by rewrite lookup_empty in Hp.
Qed.

Lemma begin_on_row P : numeric P -> it_on_row P (votes_begin P).
Proof. intros HN. pose proof (votes_begin_spec P HN) as Hb. destruct (votes_begin P); [by apply Hb|done]. Qed.

(** The order of the index is the opposite order of the votes. *)
Lemma active_votes_order p q n m :
  is_nan (pi_total_votes p) = false -> is_nan (pi_total_votes q) = false -> pi_is_active p = true -> pi_is_active q = true ->
  vote_lt (by_votes p, n) (by_votes q, m) = false -> dlt (pi_total_votes q) (pi_total_votes p) = false.
Proof.
  intros Np Nq Hp Hq. unfold by_votes. rewrite Hp, Hq, <- !not_true_iff_false, dlt_place by done.
  rewrite vote_lt_pos by (unfold number; simpl; by rewrite is_nan_neg). unfold pos_lt. simpl. rewrite !place_neg. unfold place_lt. simpl. lia.
Qed.

(** More votes come first. *)
Lemma more_votes_first P n p m q : votes_ok P -> P !! n = Some p -> pi_is_active p = true -> P !! m = Some q -> pi_is_active q = true ->
  dlt (pi_total_votes q) (pi_total_votes p) = true -> vote_lt (by_votes p, n) (by_votes q, m) = true.
Proof.
  intros HP Hp Ha Hq Hqa Hlt. destruct (HP _ _ Hp) as [Np _]. destruct (HP _ _ Hq) as [Nq _]. unfold by_votes. rewrite Ha, Hqa.
  apply vote_lt_pos; [unfold number; simpl; by rewrite is_nan_neg..|]. rewrite dlt_place in Hlt by done. left. simpl. rewrite !place_neg.
  unfold place_lt in *. simpl. lia.
Qed.

(** The election took the producer out for missing blocks. *)
Definition lost (s s' : system_state) (n : account_name) (p : producer_info) : Prop :=
  sy_producers s !! n = Some p /\ pi_is_active p = true /\ exists p', sy_producers s' !! n = Some p' /\ pi_is_active p' = false.

(** What was elected: at most 21 active producers with votes, under their keys,
    each once; all those with more votes than every producer that was taken out
    are elected, unless there are 21, each with as many votes at least; and none
    with fewer votes than one that was taken out is. *)
Record elected (s s' : system_state) (l : list (account_name * Z)) : Prop := {
  el_once : NoDup (fst <$> l);
  el_bound : (length l <= 21)%nat;
  el_sound n k : (n, k) ∈ l -> exists p, electable s n p /\ pi_producer_key p = k;
  el_complete n p : electable s n p -> (forall m q, lost s s' m q -> dlt (pi_total_votes q) (pi_total_votes p) = true) ->
    (n, pi_producer_key p) ∈ l \/
    length l = 21%nat /\ forall m k, (m, k) ∈ l -> exists q, sy_producers s !! m = Some q /\ dlt (pi_total_votes q) (pi_total_votes p) = false;
  el_cut n p m q : lost s s' n p -> electable s m q -> dlt (pi_total_votes q) (pi_total_votes p) = true -> m ∉ (fst <$> l)
}.

Lemma elects_elected s bt s1 s' top : votes_ok (sy_producers s) -> elects bt s (votes_begin (sy_producers s)) [] s1 top -> sy_producers s' = sy_producers s1 ->
  elected s s' (merge_sort fst_le (fst <$> top)).
Proof.
  intros HP He HP1. pose proof (votes_ok_numeric _ HP) as HN. pose proof (merge_sort_Permutation fst_le (fst <$> top)) as Hperm.
  set (schedule := merge_sort fst_le (fst <$> top)) in *.
  pose proof (elects_sound _ _ _ _ _ _ He HN (begin_on_row _ HN)) as (new & -> & Hlen & Hnd & Hc). simpl in *.
  assert (length schedule = length new) as HL by (rewrite Hperm; apply length_fmap).
  assert (forall n k, (n, k) ∈ schedule <-> exists l, (n, k, l) ∈ new) as Hin.
  { intros n k. rewrite Hperm, list_elem_of_fmap. split; [intros ([[n' k'] l] & [= <- <-] & ?); by exists l|intros [l ?]; by exists (n, k, l)]. }
  pose proof (proj1 (elects_rows _ _ _ _ _ _ He)) as Hrows. constructor; [by rewrite Hperm|rewrite HL; by apply Hlen; lia|..].
  - intros n k [l Hl]%Hin. destruct (Hc _ Hl) as (p & Hp & Ha & Hv & Hcand & _). simpl in *. exists p. split; [done|].
    unfold candidate in Hcand. congruence.
  - intros n p (Hp & Ha & Hv) Hlost. assert (none_lost_to (by_votes p, n) s s1) as Hnl.
    { intros m q Hq Hqa Hle. specialize (Hrows m). rewrite Hq in Hrows. destruct (sy_producers s1 !! m) as [q'|] eqn:Hq'; [|done]. exists q'. split; [done|].
      destruct (pi_is_active q') eqn:Hqa'; [done|]. rewrite (more_votes_first _ n p m q HP Hp Ha Hq Hqa) in Hle; [done|]. apply (Hlost m). split_and!; [done|done|]. exists q'. by rewrite HP1. }
    destruct (elects_complete _ _ _ _ _ _ He HP (begin_on_row _ HN) ltac:(intros c Hcn; by apply elem_of_nil in Hcn) n p Hnl Hp Ha Hv
      (begin_at_or_after _ _ _ HN Hp)) as [Hcn|[H21 Hall]].
    + left. apply Hin. by exists (pi_location p).
    + right. split; [assert (length new <= 21)%nat by (apply Hlen; lia); lia|]. intros m k [l Hl]%Hin. destruct (Hall _ Hl) as (q' & Hq' & Hqa & Hlt).
      simpl in *. specialize (Hrows m). rewrite Hq' in Hrows.
      destruct (sy_producers s !! m) as [q|] eqn:Hq; [|done]. exists q. split; [done|]. destruct Hrows as (Ht & _ & _). rewrite <- Ht.
      eapply active_votes_order; [by apply (HP n)|rewrite Ht; by apply (HP m)|exact Ha|exact Hqa|exact Hlt].
  - intros n p m q (Hp & Ha & p' & Hp' & Ha') (Hq & Hqa & _) Hlt Hm. rewrite HP1 in Hp'. rewrite Hperm in Hm.
    apply (elects_lost _ _ _ _ _ _ n p p' m q He HP (begin_on_row _ HN)) in Hm; try done; [by apply elem_of_nil in Hm|]. by apply (more_votes_first (sy_producers s)).
Qed.

(** C36: the election always ends. What it elects are active producers with votes,
    at most 21 of them, each once: all those with more votes than every producer
    that it took out for missing blocks, unless there are 21, none of which has
    fewer votes than one left out; and none with fewer votes than one it took out.
    Exactly if these are no fewer than the last schedule has it proposes them,
    sorted by name, as the schedule; otherwise it proposes nothing. *)
Theorem election_of_most_voted s bt :
  votes_ok (sy_producers s) ->
  exists s' schedule, update_elected_producers cx s bt = Ok s' /\ elected s s' schedule /\ Sorted fst_le schedule /\
    sy_out s' = sy_out s ++ (if Z.of_nat (length schedule) <? gs_last_producer_schedule_size (sy_gstate s) then [] else [propose_producers schedule]).
Proof.
  intros HP. destruct (update_elected_cases s bt (votes_ok_numeric _ HP)) as (s1 & top & He & s' & E & HP1 & _ & Hcase).
  exists s', (merge_sort fst_le (fst <$> top)). split_and!; [done|by eapply elects_elected|apply Sorted_merge_sort; intros x y; unfold fst_le; lia|].
  rewrite (Permutation_length (merge_sort_Permutation fst_le (fst <$> top))), length_fmap.
  destruct Hcase as [[-> Hlt]|[-> Hle]]; destruct (Z.ltb_spec (Z.of_nat (length top)) (gs_last_producer_schedule_size (sy_gstate s))); try lia; [by rewrite app_nil_r|done].
Qed.

(** When the election removes a producer for missing blocks, no producer with
    fewer votes is in the schedule of that round: the iterator goes on behind the
    place the removed producer moved to. *)
Theorem removal_cuts_election s bt s' n p p' m q schedule :
  votes_ok (sy_producers s) -> update_elected_producers cx s bt = Ok s' ->
  electable s n p -> sy_producers s' !! n = Some p' -> pi_is_active p' = false ->
  electable s m q -> dlt (pi_total_votes q) (pi_total_votes p) = true ->
  sy_out s' = sy_out s ++ [propose_producers schedule] -> m ∉ (fst <$> schedule).
Proof.
  intros HP E (Hp & Ha & Hv) Hp' Ha' Hm Hlt Ho.
  destruct (update_elected_cases s bt (votes_ok_numeric _ HP)) as (s1 & top & He & s2 & E2 & HP1 & _ & Hcase). assert (s2 = s') as -> by congruence.
  destruct Hcase as [[Ho' _]|[Ho' _]]; rewrite Ho' in Ho.
  { apply (f_equal length) in Ho. rewrite length_app in Ho. simpl in Ho. lia. }
  apply app_inv_head in Ho as [= <-]. apply (elects_elected _ _ _ s') in He; [|done|done]. eapply (el_cut _ _ _ He n p); [|done|done]. split_and!; eauto.
Qed.

End Elected.

(** Without any assumption on the votes: what the loop returns it got by turns. *)
Lemma elect_loop_Ok bt fuel : forall s it top s' top',
  elect_loop fuel s bt it top = Ok (s', top') -> elects bt s it top s' top'.
Proof.
  induction fuel as [|fuel IH]; intros s it top s' top' E; [done|]. destruct it as [[d n]|]; cbn [elect_loop] in E.
  - apply bind_Ok in E as (p & Hp & E). apply of_option_Ok in Hp.
    destruct (Nat.ltb_spec (length top) 21) as [Hlt|Hge]; cbn [andb] in E.
    2:{ injection E as <- <-. eapply elects_stop; [exact Hp|by left]. }
    destruct (dlt (of_int 0) (pi_total_votes p)) eqn:Hv.
    2:{ injection E as <- <-. eapply elects_stop; [exact Hp|by right]. }
    fold (turn (sy_gstate s) bt n p) in E. destruct (turn (sy_gstate s) bt n p) as [p' new] eqn:Et.
    eapply (elects_turn bt s (d, n) p p' new); [exact Hp|exact Hlt|exact Hv|exact Et|]. by apply IH.
  - injection E as <- <-. constructor.
Qed.
