(* ===== verification/Ledgers.v ===== *)
(** * The ledgers of the system contract

    What the actions do to the stakes, the RAM market, the buckets of the rewards
    and the bids for names, and to the tokens that back them. *)

From Stdlib Require Import ZArith Lia Bool.
From stdpp Require Import base numbers gmap relations sets sorting list.
From S2P Require Import Prelude Name BlockHeader Token TokenProofs Float64 SystemContract VotingProofs Staking StakingProofs.
From S2P Require Import StakingRuns RamMarket RamMarketProofs Producers ProducersProofs Platforms.

Open Scope Z_scope.

(** ** Staking leaves the other ledgers alone *)

Definition unpaid_of (s : system_state) (a : account_name) : Z :=
  match sy_producers s !! a with Some p => pi_unpaid_blocks p | None => 0 end.

(** Nothing of the RAM, the rewards and the bids changes, and no tokens but those
    of [actor] and [snax.stake] move. *)
Record ram_kept (actor : account_name) (s s' : system_state) : Prop := {
  rk_market : sy_rammarket s' = sy_rammarket s;
  rk_key : ledger_key (sy_gstate s') = ledger_key (sy_gstate s);
  rk_bids : sy_bids s' = sy_bids s;
  rk_unpaid a : unpaid_of s' a = unpaid_of s a;
  rk_ram a : ram_of s' a = ram_of s a;
  rk_limits : (forall a r n c, sy_limits s !! a = Some (r, n, c) -> r = ram_of s a) ->
    forall a r n c, sy_limits s' !! a = Some (r, n, c) -> r = ram_of s' a;
  rk_flow a : a <> actor -> a <> snax_stake -> flow a (sy_out s') = flow a (sy_out s)
}.

#[export] Instance ram_kept_preorder actor : PreOrder (ram_kept actor).
Proof.
  split; [done|]. intros s1 s2 s3 [M1 K1 B1 U1 R1 L1 F1] [M2 K2 B2 U2 R2 L2 F2].
  constructor; [congruence|congruence|congruence| | |intros HL; apply L2, L1, HL|].
  - intros a. by rewrite U2, U1.
  - intros a. by rewrite R2, R1.
  - intros a H1 H2. by rewrite F2, F1.
Qed.

Lemma flow_of_other a from to q : a <> from -> a <> to -> flow_of a (inline_transfer from to q) = 0.
Proof. intros Hf Ht. unfold flow_of. rewrite !(proj2 (Z.eqb_neq _ a)) by congruence. lia. Qed.

Lemma flow_snoc a l e : flow a (l ++ [e]) = flow a l + flow_of a e.
Proof. rewrite flow_app. cbn [flow foldr]. lia. Qed.

Lemma same_stakes_kept actor s s' :
  same_stakes s s' -> (forall a, flow a (sy_out s') = flow a (sy_out s)) -> ram_kept actor s s'.
Proof.
  intros [Hu _ _ _ Hb Hm Hl Hk Hp] Hf.
  constructor; unfold ram_of; rewrite <- ?Hu, <- ?Hl; try (congruence || by auto).
  intros a. unfold unpaid_of. specialize (Hp a). destruct (sy_producers s !! a), (sy_producers s' !! a); simpl in Hp; congruence.
Qed.

Lemma update_totals_kept actor s r n c s' : update_totals s r n c = Ok s' -> ram_kept actor s s'.
Proof.
  intros E. unfold update_totals in E. apply bind_Ok in E as ([[n' c'] ram] & Enc & E).
  apply bind_Ok in E as ([] & _ & E). apply bind_Ok in E as ([] & _ & E). apply bind_Ok in E as (z & _ & E). injection E as <-.
  assert (ram = ram_of s r) as ->.
  { unfold ram_of. destruct (sy_userres s !! r) as [t|]; [|by injection Enc as _ _ <-].
    apply bind_Ok in Enc as (a & _ & Enc). apply bind_Ok in Enc as (b & _ & Enc). by injection Enc as _ _ <-. }
  assert (forall a, ram_of (set_userres s (if z && (ram_of s r =? 0) then delete r (sy_userres s)
    else <[r := mk_resources n' c' (ram_of s r)]> (sy_userres s))) a = ram_of s a) as Hr.
  { intros a. destruct (Z.eqb_spec (ram_of s r) 0) as [H0|H0]; destruct z; unfold ram_of in *; simpl;
      (destruct (decide (r = a)) as [<-|Hne]; [rewrite ?lookup_delete_eq, ?lookup_insert_eq|rewrite ?lookup_delete_ne, ?lookup_insert_ne by done]);
      simpl; congruence. }
  constructor; simpl; try done. intros Hl a q n1 c1 Ha. transitivity (ram_of s a); [|symmetry; apply Hr].
  apply lookup_insert_Some in Ha as [[<- [= <- _ _]]|[_ Ha]]; [done|by apply (Hl a q n1 c1)].
Qed.

Lemma update_refunds_kept cx s src f r n c tr s' : update_refunds cx s src f r n c tr = Ok s' -> ram_kept src s s'.
Proof.
  intros E. unfold update_refunds in E. destruct (snax_stake =? src); [by injection E as <-|].
  apply bind_Ok in E as (tot & _ & E). apply bind_Ok in E as ([[[R n'] c'] need] & _ & E). apply bind_Ok in E as (ta & _ & E).
  apply bind_Ok in E as (b & _ & E). injection E as <-. destruct need, b; constructor; simpl; try done.
  all: intros a Ha Hs; rewrite !flow_snoc, ?flow_of_other by done; cbn [flow_of]; lia.
Qed.

Section Kept.
Context `{CMath} (cx : sys_context).

Lemma changebw_kept s from receiver n c tr s' : changebw cx s from receiver n c tr = Ok s' -> ram_kept from s s'.
Proof.
  intros E. unfold changebw in E. apply bind_Ok in E as ([] & _ & E). apply bind_Ok in E as (b1 & _ & E). apply bind_Ok in E as (b2 & _ & E).
  apply bind_Ok in E as ([] & _ & E). apply bind_Ok in E as ([] & _ & E). apply bind_Ok in E as (tot & _ & E). apply bind_Ok in E as ([] & _ & E).
  apply bind_Ok in E as (s1 & E1 & E). apply update_delegation_Ok in E1 as (_ & _ & m & ->).
  apply bind_Ok in E as (s2 & E2%(update_totals_kept from) & E). apply bind_Ok in E as (s3 & E3%update_refunds_kept & E).
  apply update_voting_power_Ok in E as (_ & _ & _ & HS & HF & _).
  transitivity (set_delband s m); [done|]. etrans; [exact E2|]. etrans; [exact E3|]. by apply same_stakes_kept.
Qed.

Lemma delegatebw_kept s from receiver n c tr s' : delegatebw cx s from receiver n c tr = Ok s' -> ram_kept from s s'.
Proof. intros (_ & _ & _ & E)%delegatebw_Ok. by apply changebw_kept in E. Qed.

Lemma undelegatebw_kept s from receiver n c s' : undelegatebw cx s from receiver n c = Ok s' -> ram_kept from s s'.
Proof.
  intros E. unfold undelegatebw in E. do 2 (apply bind_Ok in E as (? & _ & E); apply bind_Ok in E as ([] & _ & E)).
  apply bind_Ok in E as (t & _ & E). apply bind_Ok in E as (b & _ & E). apply bind_Ok in E as ([] & _ & E).
  apply bind_Ok in E as (d & _ & E). apply bind_Ok in E as (av & _ & E). apply bind_Ok in E as (rq & _ & E).
  apply bind_Ok in E as ([av' s1] & E1 & E). apply bind_Ok in E as (b4 & _ & E). apply bind_Ok in E as ([] & _ & E).
  apply bind_Ok in E as ([] & _ & E). apply bind_Ok in E as (n' & _ & E). apply bind_Ok in E as (c' & _ & E).
  apply changebw_kept in E. transitivity s1; [|done].
  destruct (from =? receiver); [|by injection E1 as _ <-]. apply bind_Ok in E1 as ([a rows] & _ & E1). by injection E1 as _ <-.
Qed.

Lemma run_stake_action_kept s a s' : run_stake_action cx s a = Ok s' -> ram_kept (actor a) s s'.
Proof.
  intros E. destruct a as [from receiver n c tr|from receiver n c tr p|from receiver n c|owner|v proxy ps|v b]; simpl in *.
  - by apply delegatebw_kept in E.
  - apply bind_Ok in E as ([] & _ & E). apply bind_Ok in E as (s1 & E1%delegatebw_kept & E). apply bind_Ok in E as (t & _ & E).
    cbv zeta in E. destruct (escrow_of s1 receiver !! _); [done|]. injection E as <-. by etrans; [exact E1|].
  - by apply undelegatebw_kept in E.
  - apply bind_Ok in E as ([] & _ & E). apply bind_Ok in E as (r & _ & E). apply bind_Ok in E as ([] & _ & E). apply bind_Ok in E as (t & _ & E).
    injection E as <-. constructor; simpl; try done. intros a Ha Hs. rewrite flow_snoc, flow_of_other by done. lia.
  - apply bind_Ok in E as ([] & _ & E). apply update_votes_voted in E as [_ _ _ _ HS _ HO]. apply same_stakes_kept; [done|].
    intros a. by rewrite (flow_transfers a (sy_out s')), HO, <- flow_transfers.
  - apply bind_Ok in E as ([] & _ & E). destruct (sy_voters s !! v); [|by injection E as <-].
    apply bind_Ok in E as ([] & _ & E). apply bind_Ok in E as ([] & _ & E). unfold propagate in E. apply propagate_weights in E.
    apply same_stakes_kept; [etrans; [|by apply weights_only_stakes]; done|]. intros a. by rewrite <- (wo_out _ _ E).
Qed.

End Kept.

(** ** The RAM ledger *)

Definition ram_bytes (_ : account_name) (u : user_resources) : Z := ur_ram_bytes u.

Record market_ok (s : system_state) : Prop := {
  mo_market : exists m, sy_rammarket s = Some m /\ market_symbols m /\
    amount (cn_balance (ex_base m)) + gs_total_ram_bytes_reserved (sy_gstate s) = gs_max_ram_size (sy_gstate s);
  mo_ram a : 0 <= ram_of s a;
  mo_total : map_sum ram_bytes (sy_userres s) = gs_total_ram_bytes_reserved (sy_gstate s);
  mo_max : 0 <= gs_max_ram_size (sy_gstate s) < 2 ^ 50;
  mo_limits a r n c : sy_limits s !! a = Some (r, n, c) -> r = ram_of s a
}.

(** The tokens of the market that the recorded stake does not explain, and its
    supply: both are what the market was created with. *)
Definition market_constants (s : system_state) : option (asset * Z) :=
  (fun m => (ex_supply m, amount (cn_balance (ex_quote m)) - gs_total_ram_stake (sy_gstate s))) <$> sy_rammarket s.

(** What a step does to the ledgers. *)
Record accounted (s s' : system_state) : Prop := {
  ac_market : market_ok s';
  ac_constants : market_constants s' = market_constants s;
  ac_flow : flow snax_ram (sy_out s') - flow snax_ram (sy_out s) =
    gs_total_ram_stake (sy_gstate s') - gs_total_ram_stake (sy_gstate s)
}.

Lemma kept_accounted actor s s' :
  actor <> snax_ram -> market_ok s -> ram_kept actor s s' -> accounted s s'.
Proof.
  intros Ha [(m & Hm & Hs & Hb) Hr Ht Hx Hl] [Km Kk _ _ Kr Kl Kf]. unfold ledger_key in Kk. injection Kk as K1 K2 K3 _ _ _ _. constructor.
  - constructor; rewrite ?K1, ?K2, ?Km; [by exists m|intros a; by rewrite Kr| |done|by apply Kl].
    rewrite <- Ht. apply map_sum_ext. intros k. specialize (Kr k). unfold ram_of in Kr. unfold summand, ram_bytes.
    by destruct (sy_userres s' !! k), (sy_userres s !! k).
  - unfold market_constants. by rewrite Km, K3.
  - rewrite K3, Kf by (congruence || done). lia.
Qed.

Lemma traded_accounted s a bytes tokens s' :
  market_ok s -> 0 <= ram_of s a + bytes -> traded s a bytes tokens s' ->
  flow snax_ram (sy_out s') - flow snax_ram (sy_out s) = tokens -> accounted s s'.
Proof.
  intros [(m & Hm & Hs & Hb) Hr Ht Hx Hl] Hp [(m1 & m2 & Hm1 & Hm2 & [X1 X2 X3 X4 X5]) HG (u & Hu & Hur & _ & _ & HL) _ _ _ _ _] HF.
  assert (m1 = m) as -> by congruence.
  assert (forall b, ram_of s' b = if decide (b = a) then ram_of s a + bytes else ram_of s b) as HR.
  { intros b. unfold ram_of at 1. rewrite Hu. destruct (decide (b = a)) as [->|Hne]; [by rewrite lookup_insert_eq|].
    by rewrite lookup_insert_ne. }
  assert (map_sum ram_bytes (sy_userres s') = gs_total_ram_bytes_reserved (sy_gstate s) + bytes) as HS.
  { rewrite Hu, map_sum_insert, Ht. unfold ram_bytes at 2. rewrite Hur. unfold ram_of, summand, ram_bytes.
    destruct (sy_userres s !! a); lia. }
  assert (0 <= gs_total_ram_bytes_reserved (sy_gstate s) + bytes) as Hn.
  { rewrite <- HS. apply map_sum_nonneg. intros k v Hk. unfold ram_bytes. specialize (HR k). unfold ram_of in HR at 1. rewrite Hk in HR.
    rewrite HR. case_decide; [done|apply Hr]. }
  unfold is_i64 in X5. rewrite u64_small in HG by (unfold is_u64; lia).
  constructor.
  - constructor; rewrite ?HG; simpl; [exists m2; split_and!; [done|done|lia]| |done|done|].
    + intros b. rewrite HR. case_decide; [done|apply Hr].
    + intros b r n c Hbl. rewrite HL in Hbl. rewrite HR.
      apply lookup_insert_Some in Hbl as [[<- [= <- _ _]]|[Hne Hbl]]; [by rewrite decide_True|].
      rewrite decide_False by done. by apply (Hl b r n c).
  - unfold market_constants. rewrite Hm, Hm2, HG. simpl. rewrite X2. do 2 f_equal. lia.
  - rewrite HG, HF. simpl. lia.
Qed.

Lemma traded_stake_ok s a bytes tokens s' : stake_ok s -> traded s a bytes tokens s' -> stake_ok s' /\ locked s' = locked s.
Proof.
  intros [] [_ _ (u & Hu & _ & Hn & Hc & HL) Hd Hr Hv _ _].
  assert (forall b, net_weight_of s' b = net_weight_of s b /\ cpu_weight_of s' b = cpu_weight_of s b) as Hw.
  { intros b. unfold net_weight_of, cpu_weight_of in *. rewrite Hu. destruct (decide (a = b)) as [<-|Hne];
      [by rewrite lookup_insert_eq|by rewrite lookup_insert_ne]. }
  split; [|unfold locked, stakes, refunding; by rewrite Hd, Hr]. unfold staked_of, delegated_by, net_to, cpu_to, stakes in *.
  constructor; unfold staked_of, delegated_by, net_to, cpu_to, stakes; rewrite ?Hd, ?Hr, ?Hv; try done.
  - intros b. rewrite (proj1 (Hw b)). apply sk_net.
  - intros b. rewrite (proj2 (Hw b)). apply sk_cpu.
  - intros b ram n c Hb. destruct (Hw b) as [-> ->]. rewrite HL in Hb.
    apply lookup_insert_Some in Hb as [[<- [= <- <- <-]]|[Hne Hb]]; [done|by apply (sk_limits b ram)].
Qed.

(** ** The rewards and the bids *)

Definition unpaid (_ : account_name) (p : producer_info) : Z := pi_unpaid_blocks p.
Definition unpaid_total (s : system_state) : Z := map_sum unpaid (sy_producers s).

Definition high_bid (_ : account_name) (b : name_bid) : Z := Z.abs (nb_high_bid b).
Definition bids_total (s : system_state) : Z := map_sum high_bid (sy_bids s).

(** The accounts that hold tokens for the contract. *)
Definition reserved : list account_name := [snax_stake; snax_ram; snax_bpay; snax_vpay; snax_names].

Record system_ok (s : system_state) : Prop := {
  so_stake : stake_ok s;
  so_market : market_ok s;
  so_unpaid : gs_total_unpaid_blocks (sy_gstate s) = unpaid_total s;
  so_unpaid_pos a : 0 <= unpaid_of s a;
  so_perblock : 0 <= gs_perblock_bucket (sy_gstate s);
  so_bids n b : sy_bids s !! n = Some b -> nb_high_bidder b ∉ reserved;
  so_initialized : gs_initialized (sy_gstate s) = true
}.

(** What an action does: the invariant is kept, and what each reserved account
    gets is what its ledger grows by; [snax.names] may keep more. At most [k] more
    blocks wait to be paid. *)
Record stepped (k : Z) (s s' : system_state) : Prop := {
  sp_ok : system_ok s';
  sp_unpaid : unpaid_total s' <= unpaid_total s + k;
  sp_constants : market_constants s' = market_constants s;
  sp_stake : flow snax_stake (sy_out s') - flow snax_stake (sy_out s) = locked s' - locked s;
  sp_ram : flow snax_ram (sy_out s') - flow snax_ram (sy_out s) =
    gs_total_ram_stake (sy_gstate s') - gs_total_ram_stake (sy_gstate s);
  sp_bpay : flow snax_bpay (sy_out s') - flow snax_bpay (sy_out s) =
    gs_perblock_bucket (sy_gstate s') - gs_perblock_bucket (sy_gstate s);
  sp_vpay : flow snax_vpay (sy_out s') - flow snax_vpay (sy_out s) =
    gs_pervote_bucket (sy_gstate s') - gs_pervote_bucket (sy_gstate s);
  sp_names : bids_total s' - bids_total s <= flow snax_names (sy_out s') - flow snax_names (sy_out s);
  sp_core : Forall core_transfer (sy_out s) -> Forall core_transfer (sy_out s')
}.

Lemma reserved_ne a r : a ∉ reserved -> r ∈ reserved -> a <> r.
Proof. by intros Ha Hr ->. Qed.

Lemma in_stake : snax_stake ∈ reserved. Proof. unfold reserved. set_solver. Qed.
Lemma in_ram : snax_ram ∈ reserved. Proof. unfold reserved. set_solver. Qed.
Lemma in_bpay : snax_bpay ∈ reserved. Proof. unfold reserved. set_solver. Qed.
Lemma in_vpay : snax_vpay ∈ reserved. Proof. unfold reserved. set_solver. Qed.
Lemma in_names : snax_names ∈ reserved. Proof. unfold reserved. set_solver. Qed.
#[export] Hint Resolve in_stake in_ram in_bpay in_vpay in_names : snax.

Lemma unpaid_total_ext s s' : (forall a, unpaid_of s' a = unpaid_of s a) -> unpaid_total s' = unpaid_total s.
Proof.
  intros Hu. apply map_sum_ext. intros k. specialize (Hu k). unfold unpaid_of in Hu. unfold summand, unpaid.
  by destruct (sy_producers s' !! k), (sy_producers s !! k).
Qed.

(** *** Staking *)

Lemma stake_stepped `{CMath} cx s a s' :
  system_ok s -> actor a ∉ reserved -> run_stake_action cx s a = Ok s' -> stepped 0 s s'.
Proof.
  intros [Hs Hm Hu Hup Hpb Hb Hin] Ha E. pose proof (reserved_ne _ _ Ha in_stake) as Hns.
  pose proof (run_stake_action_rebalanced cx s a s' Hs Hns E) as [Ok' Fl Co]. apply run_stake_action_kept in E as HK.
  pose proof HK as [_ Kk Kb Ku _ _ Kf]. unfold ledger_key in Kk. injection Kk as _ _ _ K4 K5 K6 K7.
  destruct (kept_accounted _ _ _ (reserved_ne _ _ Ha in_ram) Hm HK) as [Hm' Hc Hr]. constructor.
  - constructor; [by auto|done|rewrite K6, Hu; by rewrite (unpaid_total_ext s s' Ku)|intros b; by rewrite Ku|by rewrite K5|by rewrite Kb|by rewrite K7].
  - rewrite (unpaid_total_ext s s' Ku). lia.
  - done.
  - done.
  - done.
  - rewrite Kf, K5 by first [done|intros E2; by apply Ha; rewrite <- E2; apply in_bpay]. lia.
  - rewrite Kf, K4 by first [done|intros E2; by apply Ha; rewrite <- E2; apply in_vpay]. lia.
  - unfold bids_total. rewrite Kb, Kf by first [done|intros E2; by apply Ha; rewrite <- E2; apply in_names]. lia.
  - by auto.
Qed.

(** *** RAM *)

(** The flow of two transfers between accounts that are not [a]. *)
Lemma flow_two_others a l f1 t1 q1 f2 t2 q2 :
  a <> f1 -> a <> t1 -> a <> f2 -> a <> t2 -> flow a (l ++ [inline_transfer f1 t1 q1; inline_transfer f2 t2 q2]) = flow a l.
Proof.
  intros H1 H2 H3 H4. change [inline_transfer f1 t1 q1; inline_transfer f2 t2 q2] with ([inline_transfer f1 t1 q1] ++ [inline_transfer f2 t2 q2]).
  rewrite app_assoc, !flow_snoc, !flow_of_other by done. lia.
Qed.

Lemma traded_stepped s a bytes tokens s' f1 t1 q1 f2 t2 q2 :
  system_ok s -> traded s a bytes tokens s' -> 0 <= ram_of s a + bytes ->
  sy_out s' = sy_out s ++ [inline_transfer f1 t1 q1; inline_transfer f2 t2 q2] ->
  (forall r, r ∈ reserved -> r <> snax_ram -> r <> f1 /\ r <> t1 /\ r <> f2 /\ r <> t2) ->
  symbol q1 = CORE_SYMBOL -> symbol q2 = CORE_SYMBOL ->
  flow_of snax_ram (inline_transfer f1 t1 q1) = tokens -> flow_of snax_ram (inline_transfer f2 t2 q2) = 0 -> stepped 0 s s'.
Proof.
  intros [Hs Hm Hu Hup Hpb Hb Hin] HT Hr HO Hne Y1 Y2 F1 F2. destruct (traded_stake_ok _ _ _ _ _ Hs HT) as [Hs' HL].
  assert (forall r, r ∈ reserved -> r <> snax_ram -> flow r (sy_out s') = flow r (sy_out s)) as Hflow.
  { intros r H1 H2. destruct (Hne r H1 H2) as (? & ? & ? & ?). rewrite HO. by apply flow_two_others. }
  destruct (traded_accounted s a bytes tokens s') as [Hm' Hc Hf]; [done|done|done| |].
  { rewrite HO. change [inline_transfer f1 t1 q1; inline_transfer f2 t2 q2] with ([inline_transfer f1 t1 q1] ++ [inline_transfer f2 t2 q2]).
    rewrite app_assoc, !flow_snoc, F1, F2. lia. }
  pose proof HT as [_ HG _ _ _ _ HP HB]. constructor.
  - constructor; [done|done|rewrite HG; simpl; unfold unpaid_total; by rewrite HP|unfold unpaid_of; by rewrite HP|by rewrite HG|by rewrite HB|by rewrite HG].
  - unfold unpaid_total. rewrite HP. lia.
  - done.
  - rewrite Hflow, HL by (done || auto with snax). lia.
  - done.
  - rewrite Hflow, HG by (done || auto with snax). simpl. lia.
  - rewrite Hflow, HG by (done || auto with snax). simpl. lia.
  - unfold bids_total. rewrite Hflow, HB by (done || auto with snax). lia.
  - intros Hfo. rewrite HO. apply Forall_app. split; [done|]. by repeat constructor.
Qed.

Lemma market_ok_symbols s : market_ok s -> forall m, sy_rammarket s = Some m -> market_symbols m.
Proof. intros [(m & Hm & Hs & _)] m' Hm'. congruence. Qed.

(** The reserved accounts are different, and different from the fee account. *)
Lemma reserved_ram_fee r : r ∈ reserved -> r <> snax_ram -> r <> snax_ramfee.
Proof. intros Hr _ ->. unfold reserved in Hr. repeat (apply elem_of_cons in Hr as [Hr|Hr]; [done|]). by apply elem_of_nil in Hr. Qed.

Lemma buyram_stepped `{CMath} cx s payer receiver q s' :
  system_ok s -> payer ∉ reserved -> symbol q = CORE_SYMBOL -> buyram cx s payer receiver q = Ok s' -> stepped 0 s s'.
Proof.
  intros Hok Hp Hy E.
  destruct (buyram_Ok cx s payer receiver q s' Hy (market_ok_symbols s (so_market s Hok)) E) as (_ & Hq & bytes & Hb & HT & HO).
  assert (payer <> snax_ram) as Hpr by (apply reserved_ne; auto with snax).
  eapply traded_stepped; [done|exact HT| |exact HO| |done|done| |].
  - pose proof (mo_ram s (so_market s Hok) receiver). lia.
  - intros r Hr Hrr. pose proof (reserved_ram_fee r Hr Hrr). pose proof (reserved_ne payer r Hp Hr). split_and!; congruence.
  - unfold flow_of. rewrite Z.eqb_refl, (proj2 (Z.eqb_neq payer snax_ram)) by done. simpl. lia.
  - by apply flow_of_other.
Qed.

Lemma sellram_stepped `{CMath} cx s a bytes s' :
  system_ok s -> a ∉ reserved -> sellram cx s a bytes = Ok s' -> stepped 0 s s'.
Proof.
  intros Hok Ha E.
  destruct (sellram_Ok cx s a bytes s' (market_ok_symbols s (so_market s Hok)) E) as (_ & Hb & tokens & Ht & HT & HO).
  assert (a <> snax_ram) as Har by (apply reserved_ne; auto with snax).
  eapply traded_stepped; [done|exact HT|lia|exact HO| |done|done| |].
  - intros r Hr Hrr. pose proof (reserved_ram_fee r Hr Hrr). pose proof (reserved_ne a r Ha Hr). split_and!; congruence.
  - unfold flow_of. rewrite Z.eqb_refl, (proj2 (Z.eqb_neq a snax_ram)) by done. simpl. lia.
  - by apply flow_of_other.
Qed.

Lemma setram_stepped cx s n s' : system_ok s -> setram cx s n = Ok s' -> stepped 0 s s'.
Proof.
  intros [Hs [(m & Hm & (Y1 & Y2 & Y3) & Hb) Hr Ht Hx Hl] Hu Hup Hpb Hbi Hin] E.
  apply setram_Ok in E as (_ & Hn & m' & b & Hm' & Ha & Hi & Hy & ->).
  assert (m' = m) as -> by congruence. rewrite !i64_small in Ha by (unfold is_i64; lia). constructor; simpl; try lia; try done.
  - constructor; [destruct Hs; by constructor| |done|done|done|done|done].
    constructor; simpl; try done; [|lia]. eexists. split; [done|]. simpl. split; [|lia]. by split_and!; simpl; [|congruence|].
  - unfold unpaid_total. simpl. lia.
  - unfold market_constants. simpl. by rewrite Hm.
  - unfold locked, stakes, refunding. simpl. lia.
  - unfold bids_total. simpl. lia.
Qed.

(** *** Producers, names and platforms *)

(** The stakes and the RAM are as before. *)
Record untouched (s s' : system_state) : Prop := {
  un_userres : sy_userres s' = sy_userres s;
  un_delband : sy_delband s' = sy_delband s;
  un_refunds : sy_refunds s' = sy_refunds s;
  un_voters : sy_voters s' = sy_voters s;
  un_market : sy_rammarket s' = sy_rammarket s;
  un_limits : sy_limits s' = sy_limits s;
  un_max : gs_max_ram_size (sy_gstate s') = gs_max_ram_size (sy_gstate s);
  un_reserved : gs_total_ram_bytes_reserved (sy_gstate s') = gs_total_ram_bytes_reserved (sy_gstate s);
  un_stake : gs_total_ram_stake (sy_gstate s') = gs_total_ram_stake (sy_gstate s);
  un_initialized : gs_initialized (sy_gstate s') = gs_initialized (sy_gstate s)
}.

#[export] Instance untouched_preorder : PreOrder untouched.
Proof. split; [done|]. intros s1 s2 s3 [] []. constructor; congruence. Qed.

Lemma untouched_ok s s' : stake_ok s -> market_ok s -> untouched s s' ->
  stake_ok s' /\ market_ok s' /\ market_constants s' = market_constants s /\ locked s' = locked s.
Proof.
  intros [] [] []. split_and!.
  - unfold staked_of, net_weight_of, cpu_weight_of, delegated_by, net_to, cpu_to, stakes in *.
    constructor; unfold staked_of, net_weight_of, cpu_weight_of, delegated_by, net_to, cpu_to, stakes;
      rewrite ?un_userres0, ?un_delband0, ?un_refunds0, ?un_voters0, ?un_limits0; done.
  - unfold ram_of in *. constructor; unfold ram_of; rewrite ?un_userres0, ?un_market0, ?un_limits0, ?un_max0, ?un_reserved0; done.
  - unfold market_constants. by rewrite un_market0, un_stake0.
  - unfold locked, stakes, refunding. by rewrite un_delband0, un_refunds0.
Qed.

(** What is left to show of an action that leaves them alone. *)
Lemma untouched_stepped k s s' :
  system_ok s -> untouched s s' ->
  gs_total_unpaid_blocks (sy_gstate s') = unpaid_total s' -> (forall a, 0 <= unpaid_of s' a) ->
  unpaid_total s' <= unpaid_total s + k -> 0 <= gs_perblock_bucket (sy_gstate s') ->
  (forall n b, sy_bids s' !! n = Some b -> nb_high_bidder b ∉ reserved) ->
  flow snax_stake (sy_out s') = flow snax_stake (sy_out s) -> flow snax_ram (sy_out s') = flow snax_ram (sy_out s) ->
  flow snax_bpay (sy_out s') - flow snax_bpay (sy_out s) = gs_perblock_bucket (sy_gstate s') - gs_perblock_bucket (sy_gstate s) ->
  flow snax_vpay (sy_out s') - flow snax_vpay (sy_out s) = gs_pervote_bucket (sy_gstate s') - gs_pervote_bucket (sy_gstate s) ->
  bids_total s' - bids_total s <= flow snax_names (sy_out s') - flow snax_names (sy_out s) ->
  (Forall core_transfer (sy_out s) -> Forall core_transfer (sy_out s')) -> stepped k s s'.
Proof.
  intros [Hs Hm _ _ _ _ Hin] HU H1 H1a H1b H1c H2 H3 H4 H5 H6 H7 H8. destruct (untouched_ok s s' Hs Hm HU) as (Hs' & Hm' & Hc & Hl).
  constructor; [constructor; try done; by rewrite (un_initialized _ _ HU)|done|done|lia|rewrite (un_stake _ _ HU); lia|done|done|done|done].
Qed.

Lemma unpaid_store s a p : unpaid_total (store_producer s a p) = unpaid_total s - unpaid_of s a + pi_unpaid_blocks p.
Proof.
  unfold unpaid_total. simpl. rewrite map_sum_insert. unfold unpaid at 3. unfold unpaid_of, summand, unpaid.
  destruct (sy_producers s !! a); lia.
Qed.

Lemma unpaid_of_store s a p b : unpaid_of (store_producer s a p) b = if decide (a = b) then pi_unpaid_blocks p else unpaid_of s b.
Proof.
  unfold unpaid_of. simpl. destruct (decide (a = b)) as [<-|Hne]; [by rewrite lookup_insert_eq|by rewrite lookup_insert_ne].
Qed.

Lemma stepped_refl s : system_ok s -> stepped 0 s s.
Proof. intros Hok. constructor; (done || lia). Qed.

Lemma stepped_trans j k s1 s2 s3 : stepped j s1 s2 -> stepped k s2 s3 -> stepped (j + k) s1 s3.
Proof. intros [] []. constructor; (done || lia || congruence || auto). Qed.

(** An action that changes neither the rewards, the producers nor the bids and
    moves no tokens. *)
Lemma quiet_stepped s s' :
  system_ok s -> untouched s s' -> sy_producers s' = sy_producers s -> sy_bids s' = sy_bids s ->
  gs_total_unpaid_blocks (sy_gstate s') = gs_total_unpaid_blocks (sy_gstate s) ->
  gs_perblock_bucket (sy_gstate s') = gs_perblock_bucket (sy_gstate s) ->
  gs_pervote_bucket (sy_gstate s') = gs_pervote_bucket (sy_gstate s) ->
  (forall a, a ∈ reserved -> flow a (sy_out s') = flow a (sy_out s)) ->
  (Forall core_transfer (sy_out s) -> Forall core_transfer (sy_out s')) -> stepped 0 s s'.
Proof.
  intros Hok HU HP HB G1 G2 G3 HF HC.
  apply untouched_stepped; try done; rewrite ?HF, ?G1, ?G2, ?G3, ?HB by auto with snax; try lia; try apply Hok.
  - unfold unpaid_total. rewrite HP. apply Hok.
  - intros a. unfold unpaid_of. rewrite HP. apply (so_unpaid_pos s Hok).
  - unfold unpaid_total. rewrite HP. lia.
  - unfold bids_total. rewrite HB. lia.
Qed.

(** Registration. *)
Lemma store_producer_stepped s a p : system_ok s -> pi_unpaid_blocks p = unpaid_of s a -> stepped 0 s (store_producer s a p).
Proof.
  intros Hok Hp. apply untouched_stepped; try done; simpl; try lia; try apply Hok.
  - rewrite (so_unpaid s Hok), unpaid_store. lia.
  - intros b. rewrite unpaid_of_store. case_decide as Hd; [rewrite Hp|]; apply (so_unpaid_pos s Hok).
  - rewrite unpaid_store. lia.
  - unfold bids_total. simpl. lia.
Qed.

Lemma regproducer_stepped cx s a k u l s' : system_ok s -> regproducer cx s a k u l = Ok s' -> stepped 0 s s'.
Proof.
  intros Hok E. apply bind_Ok in E as ([] & _ & E). apply bind_Ok in E as ([] & _ & E). apply bind_Ok in E as ([] & _ & E).
  destruct (sy_producers s !! a) as [p|] eqn:Ha; injection E as <-; apply store_producer_stepped; try done;
    unfold unpaid_of; by rewrite Ha.
Qed.

Lemma deactivate_stepped s a p : system_ok s -> sy_producers s !! a = Some p -> stepped 0 s (store_producer s a (deactivate p)).
Proof. intros Hok Ha. apply store_producer_stepped; [done|]. unfold unpaid_of. by rewrite Ha. Qed.

Lemma unregprod_stepped cx s a s' : system_ok s -> unregprod cx s a = Ok s' -> stepped 0 s s'.
Proof.
  intros Hok E. apply bind_Ok in E as ([] & _ & E). apply bind_Ok in E as (p & Hp & E). apply of_option_Ok in Hp. injection E as <-.
  by apply deactivate_stepped.
Qed.

Lemma rmvproducer_stepped cx s a s' : system_ok s -> rmvproducer cx s a = Ok s' -> stepped 0 s s'.
Proof.
  intros Hok E. apply bind_Ok in E as ([] & _ & E). apply bind_Ok in E as (p & Hp & E). apply of_option_Ok in Hp. injection E as <-.
  by apply deactivate_stepped.
Qed.

(** *** Blocks and rewards *)

(** The flow of an issue to another account. *)
Lemma flow_of_issue_other a to q : a <> to -> flow_of a (inline_issue to q) = 0.
Proof. intros Hn. unfold flow_of. by rewrite (proj2 (Z.eqb_neq to a)) by congruence. Qed.
Lemma flow_of_issue to q : flow_of to (inline_issue to q) = amount q.
Proof. unfold flow_of. by rewrite Z.eqb_refl. Qed.

Lemma block_reward_core `{CMath} s t semi paid :
  block_reward s t = Ok (semi, paid) -> symbol semi = CORE_SYMBOL /\ (paid = true -> 0 < amount semi).
Proof.
  intros E. unfold block_reward in E. do 13 (apply bind_Ok in E as (? & _ & E)).
  apply bind_Ok in E as (semi' & [_ Hs]%contract_asset_Ok & E). apply bind_Ok in E as (b & [_ Hb]%asset_compare_Ok & E).
  apply bind_Ok in E as (b' & Hb' & E). injection E as <- <-. split; [done|]. intros ->. destruct b; [|done].
  symmetry in Hb. by apply Z.ltb_lt in Hb.
Qed.

Lemma unpaid_le_total s a : system_ok s -> 0 <= unpaid_of s a <= unpaid_total s.
Proof.
  intros Hok. pose proof (summand_le_map_sum unpaid (sy_producers s) a) as Hle.
  assert (summand unpaid a (sy_producers s !! a) = unpaid_of s a) as Hs by (unfold summand, unpaid, unpaid_of; by destruct (sy_producers s !! a)).
  rewrite Hs in Hle. apply Hle. intros k v Hk. pose proof (so_unpaid_pos s Hok k) as Hp. unfold unpaid_of in Hp. by rewrite Hk in Hp.
Qed.

Lemma reward_producer_stepped `{CMath} cx s t bt a p s' :
  system_ok s -> unpaid_total s + 1 < 2 ^ 32 -> sy_producers s !! a = Some p -> reward_producer cx s t bt a p = Ok s' -> stepped 1 s s'.
Proof.
  intros Hok Hroom Hp E. apply bind_Ok in E as ([semi paid] & [Hsemi Hpos]%block_reward_core & E).
  apply bind_Ok in E as (s1 & E1 & E). injection E as <-. pose proof (unpaid_le_total s a Hok) as Hle.
  assert (unpaid_of s a = pi_unpaid_blocks p) as Hup by (unfold unpaid_of; by rewrite Hp).
  assert (untouched s s1 /\ sy_producers s1 = sy_producers s /\ sy_bids s1 = sy_bids s /\
    gs_total_unpaid_blocks (sy_gstate s1) = unpaid_total s + 1) as (HU & HP & HB & HG).
  { destruct paid; [do 4 (apply bind_Ok in E1 as (? & _ & E1))|]; injection E1 as <-; simpl; split_and!; try done;
      rewrite (so_unpaid s Hok); apply u32_small; unfold is_u32; lia. }
  assert (unpaid_of s1 a = pi_unpaid_blocks p) as Hup1 by (unfold unpaid_of; by rewrite HP, Hp).
  assert (unpaid_total s1 = unpaid_total s) as Hut by (unfold unpaid_total; by rewrite HP).
  assert (u32 (pi_unpaid_blocks p + 1) = pi_unpaid_blocks p + 1) as Hw by (apply u32_small; unfold is_u32; lia).
  apply untouched_stepped; [done|etrans; [exact HU|done]|..].
  { rewrite unpaid_store. simpl. rewrite HG, Hup1, Hut, Hw. lia. }
  { intros b. rewrite unpaid_of_store. simpl. rewrite Hw. case_decide; [lia|]. unfold unpaid_of. rewrite HP. apply (so_unpaid_pos s Hok). }
  { rewrite unpaid_store. simpl. rewrite Hup1, Hut, Hw. lia. }
  2:{ simpl. rewrite HB. apply Hok. }
  all: simpl; unfold bids_total; simpl; rewrite ?HB; pose proof (so_perblock s Hok); destruct paid;
    [|injection E1 as <-; simpl; lia || done].
  all: apply bind_Ok in E1 as (v & [-> _]%checked_i64_Ok & E1); apply bind_Ok in E1 as (b & [-> _]%checked_i64_Ok & E1);
    apply bind_Ok in E1 as (x & _ & E1); apply bind_Ok in E1 as (y & _ & E1); injection E1 as <-; simpl.
  all: rewrite ?flow_snoc, ?flow_of_issue, ?flow_of_issue_other by done; specialize (Hpos eq_refl); try lia.
  intros Hf. rewrite !Forall_app. by repeat constructor.
Qed.

Lemma update_elected_stepped cx s bt s' : system_ok s -> update_elected_producers cx s bt = Ok s' -> stepped 0 s s'.
Proof.
  intros Hok E. unfold update_elected_producers in E. apply bind_Ok in E as ([s1 top] & E1 & E).
  apply elect_loop_Ok in E1. apply elects_rows in E1 as [Hr [P ->]].
  assert (forall a, unpaid_of (set_producers s P) a = unpaid_of s a) as Hu.
  { intros a. specialize (Hr a). unfold unpaid_of. simpl in *. destruct (sy_producers s !! a), (P !! a); try done. by destruct Hr as (_ & ? & _). }
  assert (stepped 0 s (set_producers s P)) as H1.
  { pose proof (unpaid_total_ext _ _ Hu) as Hut. apply untouched_stepped; try done; simpl; try lia; try apply Hok.
    - rewrite Hut. apply Hok.
    - intros a. rewrite Hu. apply (so_unpaid_pos s Hok).
    - unfold bids_total. simpl. lia. }
  assert (forall s2, stepped 0 (set_producers s P) s2 -> stepped 0 s s2) as Hgo.
  { intros s2. by apply (stepped_trans 0 0 s (set_producers s P) s2). }
  apply Hgo. simpl in E. destruct (_ <? _); [injection E as <-; by apply quiet_stepped; [apply H1|..]|].
  destruct (_ <=? _); injection E as <-; (apply quiet_stepped; [apply H1|done|done|done|done|done|done|intros a _|intros Hf]); simpl;
    (rewrite flow_snoc; simpl; lia) || (apply Forall_app; split; [done|by repeat constructor]).
Qed.

Lemma first_bid_lookup B n b : first_bid B = Some (n, b) -> B !! n = Some b.
Proof.
  unfold first_bid. intros E. apply elem_of_map_to_list.
  assert (forall l, foldr (fun e r => match r with Some a => if bid_before e a then Some e else r | None => Some e end) None l = Some (n, b) ->
    (n, b) ∈ l) as Hl; [|by apply Hl]. clear E.
  induction l as [|x l IH]; simpl; [done|]. destruct (foldr _ _ l) as [a|]; [|intros [= ->]; by left].
  destruct (bid_before x a); [intros [= ->]; by left|]. intros [= ->]. right. by apply IH.
Qed.

Lemma close_auction_stepped cx s bt : system_ok s -> stepped 0 s (close_auction cx s bt).
Proof.
  intros Hok. unfold close_auction. destruct (first_bid (sy_bids s)) as [[n b]|] eqn:Hb; [|by apply stepped_refl].
  apply first_bid_lookup in Hb. destruct (_ && _); [|by apply stepped_refl].
  apply untouched_stepped; try done; simpl; try lia; try apply Hok.
  - unfold unpaid_total. simpl. lia.
  - intros m c [[<- <-]|[_ Hc]]%lookup_insert_Some; [by apply (so_bids s Hok n b)|by apply (so_bids s Hok m c)].
  - unfold bids_total. simpl. rewrite map_sum_insert, Hb. unfold summand, high_bid at 2 3. simpl. lia.
Qed.

Lemma onblock_stepped `{CMath} cx s t bt a s' :
  system_ok s -> unpaid_total s + 1 < 2 ^ 32 -> onblock cx s t bt a = Ok s' -> stepped 1 s s'.
Proof.
  intros Hok Hroom E. assert (forall s2, stepped 0 s s2 -> stepped 1 s s2) as Hw by (intros s2 []; constructor; (done || lia)).
  apply bind_Ok in E as ([] & _ & E). destruct (_ <? _); [injection E as <-; by apply Hw, stepped_refl|].
  cbv zeta in E. set (s0 := set_gstate s _) in E. apply bind_Ok in E as (s1 & E1 & E).
  assert (stepped 0 s s0) as H0 by (by apply quiet_stepped).
  assert (stepped 1 s s1) as H1.
  { destruct (sy_producers s0 !! a) as [p|] eqn:Hp; [|injection E1 as <-; by apply Hw].
    apply (stepped_trans 0 1 s s0 s1 H0). eapply reward_producer_stepped; [apply H0|exact Hroom|exact Hp|exact E1]. }
  destruct (_ <=? _); [|by injection E as <-]. apply bind_Ok in E as (s2 & E2 & E). injection E as <-.
  apply update_elected_stepped in E2; [|apply H1]. pose proof (stepped_trans 1 0 s s1 s2 H1 E2) as H2.
  destruct (_ <? _); [|done]. apply (stepped_trans 1 0 s s2); [done|]. apply close_auction_stepped, H2.
Qed.

(** A payment of a reward, when there is one. *)
Lemma pay_out s from owner pay s' :
  (if 0 <? pay then a ← core pay; mret (emit s (inline_transfer from owner a)) else mret s) = Ok s' -> 0 <= pay ->
  (exists out, s' = mk_system (sy_userres s) (sy_delband s) (sy_refunds s) (sy_voters s) (sy_producers s) (sy_escrow s) (sy_bids s)
    (sy_rammarket s) (sy_gstate s) (sy_limits s) (sy_platforms s) (sy_requests s) (sy_locks s) out) /\
  (Forall core_transfer (sy_out s) -> Forall core_transfer (sy_out s')) /\
  (forall r, r <> owner -> flow r (sy_out s') = flow r (sy_out s) - if from =? r then pay else 0).
Proof.
  intros E Hpay. destruct (Z.ltb_spec 0 pay) as [Hpos|Hneg].
  - apply bind_Ok in E as (a & [Ha Hs]%contract_asset_Ok & E). injection E as <-. split_and!; [by eexists|..]; simpl.
    + intros Hf. apply Forall_app. split; [done|]. by repeat constructor.
    + intros r Hr. rewrite flow_snoc. unfold flow_of. rewrite (proj2 (Z.eqb_neq owner r)), Ha by congruence. destruct (from =? r); lia.
  - injection E as <-. split_and!; [exists (sy_out s); by destruct s|done|]. intros r _. assert (pay = 0) as -> by lia. destruct (from =? r); lia.
Qed.

Lemma claimrewards_stepped cx s a s' :
  system_ok s -> unpaid_total s < 2 ^ 32 -> a ∉ reserved -> claimrewards cx s a = Ok s' -> stepped 0 s s'.
Proof.
  intros Hok Hroom Ha E. unfold claimrewards in E. apply bind_Ok in E as ([] & _ & E). apply bind_Ok in E as (p & Hp & E).
  apply of_option_Ok in Hp. do 3 (apply bind_Ok in E as ([] & _ & E)). cbv zeta in E.
  apply bind_Ok in E as (pb & Epb & E). apply bind_Ok in E as (pv & _ & E).
  set (vp := if pv <? min_pervote_pay then 0 else pv) in E.
  apply bind_Ok in E as (v & [-> _]%checked_i64_Ok & E). apply bind_Ok in E as (b & [-> _]%checked_i64_Ok & E).
  set (s0 := store_producer _ a _) in E. apply bind_Ok in E as (s1 & E1 & E).
  assert (unpaid_of s a = pi_unpaid_blocks p) as Hup by (unfold unpaid_of; by rewrite Hp).
  pose proof (unpaid_le_total s a Hok) as Hle. pose proof (so_perblock s Hok) as Hbu. rewrite (so_unpaid s Hok) in *.
  assert (0 <= pb <= gs_perblock_bucket (sy_gstate s)) as Hpb.
  { destruct (Z.ltb_spec 0 (unpaid_total s)) as [Hpos|]; [|injection Epb as <-; lia].
    apply bind_Ok in Epb as (x & [-> _]%checked_i64_Ok & Epb). injection Epb as <-. rewrite <- Hup, Z.quot_div_nonneg by nia.
    split; [apply Z.div_pos; nia|]. apply Z.div_le_upper_bound; nia. }
  assert (0 <= vp) as Hvp by (unfold vp, min_pervote_pay; destruct (Z.ltb_spec pv 1000000); lia).
  apply pay_out in E1 as ((out1 & ->) & C1 & F1); [|lia]. apply pay_out in E as ((out2 & ->) & C2 & F2); [|done]. simpl in *.
  assert (forall r, r ∈ reserved -> flow r out2 = flow r (sy_out s) - (if snax_bpay =? r then pb else 0) - (if snax_vpay =? r then vp else 0)) as HF.
  { intros r Hr. pose proof (reserved_ne a r Ha Hr). rewrite F2, F1 by congruence. reflexivity. }
  assert (unpaid_total s0 = unpaid_total s - unpaid_of s a) as Hut.
  { unfold s0. rewrite unpaid_store. transitivity (unpaid_total s - unpaid_of s a + 0); [reflexivity|lia]. }
  apply untouched_stepped; try done; simpl; rewrite ?HF by auto with snax; simpl; try lia; try apply Hok.
  - transitivity (unpaid_total s0); [|reflexivity]. rewrite Hut, (so_unpaid s Hok), <- Hup. apply u32_small. unfold is_u32.
    lia.
  - intros c. change (0 <= unpaid_of s0 c). unfold s0. rewrite unpaid_of_store. simpl. case_decide; [lia|]. apply (so_unpaid_pos s Hok).
  - change (unpaid_total s0 <= unpaid_total s + 0). lia.
  - unfold bids_total. simpl. lia.
  - auto.
Qed.

(** *** Names and platforms *)

Lemma bidname_stepped cx s a n q s' : system_ok s -> a ∉ reserved -> bidname cx s a n q = Ok s' -> stepped 0 s s'.
Proof.
  intros Hok Ha E. apply bind_Ok in E as ([] & _ & E). do 5 (apply bind_Ok in E as ([] & _ & E)).
  apply bind_Ok in E as ([] & Hy & E). apply assert_Ok, Z.eqb_eq in Hy. apply bind_Ok in E as ([] & Hq & E). apply assert_Ok, Z.ltb_lt in Hq.
  simpl in E. assert (forall r, r ∈ reserved -> a <> r) as Hne by (intros r Hr; by apply reserved_ne).
  assert (forall r, r ∈ reserved -> r <> snax_names -> flow_of r (inline_transfer a snax_names q) = 0) as Hfo.
  { intros r Hr Hn. apply flow_of_other; [|done]. by apply not_eq_sym, Hne. }
  assert (flow_of snax_names (inline_transfer a snax_names q) = amount q) as Hfn.
  { unfold flow_of. rewrite Z.eqb_refl, (proj2 (Z.eqb_neq a snax_names)) by auto with snax. lia. }
  assert (forall b m c, nb_high_bidder b = a -> <[n := b]> (sy_bids s) !! m = Some c -> nb_high_bidder c ∉ reserved) as Hbid.
  { intros b m c Hb [[<- <-]|[_ Hc]]%lookup_insert_Some; [by rewrite Hb|by apply (so_bids s Hok m c)]. }
  destruct (sy_bids s !! n) as [b|] eqn:Hn.
  - apply bind_Ok in E as ([] & Hb & E). apply assert_Ok, Z.ltb_lt in Hb. apply bind_Ok in E as (d & _ & E).
    do 2 (apply bind_Ok in E as ([] & _ & E)). apply bind_Ok in E as (rf & [Hra Hrs]%contract_asset_Ok & E). injection E as <-.
    pose proof (so_bids s Hok n b Hn) as Hbb.
    assert (forall r, r ∈ reserved -> r <> snax_names -> flow_of r (inline_transfer snax_names (nb_high_bidder b) rf) = 0) as Hfo2.
    { intros r Hr Hrn. apply flow_of_other; [done|]. by apply not_eq_sym, reserved_ne. }
    assert (flow_of snax_names (inline_transfer snax_names (nb_high_bidder b) rf) = - nb_high_bid b) as Hfn2.
    { unfold flow_of. rewrite Z.eqb_refl, (proj2 (Z.eqb_neq (nb_high_bidder b) snax_names)) by (apply reserved_ne; auto with snax). lia. }
    apply untouched_stepped; try done; cbn [sy_out sy_gstate set_bids emit]; rewrite ?flow_snoc, ?Hfo, ?Hfo2, ?Hfn, ?Hfn2 by (done || auto with snax);
      try lia; try apply Hok.
    + unfold unpaid_total. simpl. lia.
    + intros m c Hc. by eapply Hbid; [|exact Hc].
    + unfold bids_total. simpl. rewrite map_sum_insert, Hn. unfold summand, high_bid at 2 3. simpl. lia.
    + intros Hf. rewrite !Forall_app. by repeat constructor.
  - injection E as <-. apply untouched_stepped; try done; cbn [sy_out sy_gstate set_bids emit]; rewrite ?flow_snoc, ?Hfo, ?Hfn by (done || auto with snax);
      try lia; try apply Hok.
    + unfold unpaid_total. simpl. lia.
    + intros m c Hc. by eapply Hbid; [|exact Hc].
    + unfold bids_total. simpl. rewrite map_sum_insert, Hn. unfold summand, high_bid at 2. simpl. lia.
    + intros Hf. rewrite Forall_app. by repeat constructor.
Qed.

(** The row of a new account. *)
Definition new_row (s : system_state) (n : account_name) : system_state :=
  set_resource_limits (set_userres s (<[n := mk_resources zero zero 0]> (sy_userres s))) n 0 0 0.

Lemma new_row_weights s n a :
  sy_userres s !! n = None ->
  net_weight_of (new_row s n) a = net_weight_of s a /\ cpu_weight_of (new_row s n) a = cpu_weight_of s a /\
  ram_of (new_row s n) a = ram_of s a.
Proof.
  intros Hn. unfold net_weight_of, cpu_weight_of, ram_of. simpl.
  destruct (decide (n = a)) as [<-|Hne]; [by rewrite lookup_insert_eq, Hn|by rewrite lookup_insert_ne].
Qed.

Lemma new_row_stake_ok s n : stake_ok s -> sy_userres s !! n = None -> stake_ok (new_row s n).
Proof.
  intros [] Hn. pose proof (fun a => new_row_weights s n a Hn) as Hw. constructor; try done.
  - intros a. rewrite (proj1 (Hw a)). apply sk_net.
  - intros a. rewrite (proj1 (proj2 (Hw a))). apply sk_cpu.
  - intros a ram x y. destruct (Hw a) as (-> & -> & _). simpl. intros [[<- [= <- <- <-]]|[Hne Ha]]%lookup_insert_Some; [|by apply (sk_limits a ram)].
    unfold net_weight_of, cpu_weight_of. by rewrite Hn.
Qed.

Lemma new_row_market_ok s n : market_ok s -> sy_userres s !! n = None -> market_ok (new_row s n).
Proof.
  intros [Hm Hr Ht Hx Hl] Hn. pose proof (fun a => new_row_weights s n a Hn) as Hw. constructor; try done.
  - intros a. destruct (Hw a) as (_ & _ & ->). apply Hr.
  - simpl. rewrite <- Ht, map_sum_insert, Hn. unfold summand, ram_bytes at 2. simpl. lia.
  - intros a r x y. destruct (Hw a) as (_ & _ & ->). simpl.
    intros [[<- [= <- <- <-]]|[Hne Ha]]%lookup_insert_Some; [unfold ram_of; by rewrite Hn|by apply (Hl a r x y)].
Qed.

Lemma newaccount_Ok cx s c n s' :
  newaccount cx s c n = Ok s' ->
  exists B, s' = new_row (set_bids s B) n /\ (B = sy_bids s \/ B = delete n (sy_bids s)) /\ sy_userres s !! n = None.
Proof.
  intros E. apply bind_Ok in E as (s1 & E1 & E).
  assert (exists B, s1 = set_bids s B /\ (B = sy_bids s \/ B = delete n (sy_bids s))) as (B & -> & HB).
  { assert (exists B, s = set_bids s B /\ (B = sy_bids s \/ B = delete n (sy_bids s))) as Hsame
      by (exists (sy_bids s); split; [by destruct s|by left]).
    destruct (_ =? _); [by injection E1 as <-|]. destruct (measure_name _ _ _ _ _ _) as [len dot].
    destruct (_ || _); [|by injection E1 as <-]. cbv zeta in E1. destruct (_ =? _).
    - apply bind_Ok in E1 as (b & _ & E1). do 2 (apply bind_Ok in E1 as ([] & _ & E1)). injection E1 as <-. eexists. split; [done|by right].
    - apply bind_Ok in E1 as ([] & _ & E1). by injection E1 as <-. }
  simpl in E. destruct (sy_userres s !! n) as [u|] eqn:Hn; [done|]. injection E as <-. by exists B.
Qed.

Lemma newaccount_stepped cx s c n s' : system_ok s -> newaccount cx s c n = Ok s' -> stepped 0 s s'.
Proof.
  intros [Hs Hm Hu Hup Hpb Hb Hin] (B & -> & HB & Hn)%newaccount_Ok. constructor; simpl; try lia; try done.
  - constructor; [apply new_row_stake_ok; [destruct Hs; by constructor|done]|apply new_row_market_ok; [destruct Hm; by constructor|done]|done|done|done| |done].
    intros m b Hmb. simpl in Hmb. destruct HB as [->| ->]; [by apply (Hb m b)|]. apply lookup_delete_Some in Hmb as [_ Hmb]. by apply (Hb m b).
  - unfold unpaid_total. simpl. lia.
  - unfold locked, stakes, refunding. simpl. lia.
  - unfold bids_total. simpl. destruct HB as [->| ->]; [lia|]. rewrite (map_sum_delete _ (sy_bids s) n).
    unfold summand, high_bid at 2. destruct (sy_bids s !! n); lia.
Qed.

Lemma setparams_stepped cx s p s' : system_ok s -> setparams cx s p = Ok s' -> stepped 0 s s'.
Proof.
  intros Hok E. apply bind_Ok in E as ([] & _ & E). apply bind_Ok in E as ([] & _ & E). injection E as <-.
  apply quiet_stepped; try done; simpl; [intros a _; rewrite flow_snoc; simpl; lia|].
  intros Hf. apply Forall_app. split; [done|by repeat constructor].
Qed.

Lemma setpriv_stepped cx s a b s' : system_ok s -> setpriv cx s a b = Ok s' -> stepped 0 s s'.
Proof.
  intros Hok E. apply bind_Ok in E as ([] & _ & E). injection E as <-.
  apply quiet_stepped; try done; simpl; [intros r _; rewrite flow_snoc; simpl; lia|].
  intros Hf. apply Forall_app. split; [done|by repeat constructor].
Qed.

Lemma lockplatform_stepped cx s a s' : system_ok s -> lockplatform cx s a = Ok s' -> stepped 0 s s'.
Proof.
  intros Hok E. apply bind_Ok in E as ([] & _ & E). cbv zeta in E. destruct (_ !! usec_of_slot _); [done|]. injection E as <-.
  by apply quiet_stepped.
Qed.

Lemma platform_amount_core g a b c p q : platform_amount g a b c p = Ok q -> symbol q = CORE_SYMBOL.
Proof.
  intros E. unfold platform_amount in E. apply bind_Ok in E as (? & _ & E). cbv zeta in E. apply bind_Ok in E as ([? ?] & _ & E).
  do 4 (apply bind_Ok in E as (? & _ & E)). by apply contract_asset_Ok in E as [_ ?].
Qed.

Lemma emitplatform_stepped cx s t a s' : system_ok s -> a ∉ reserved -> emitplatform cx s t a = Ok s' -> stepped 0 s s'.
Proof.
  intros Hok Ha E. apply bind_Ok in E as ([] & _ & E). apply bind_Ok in E as (fb & _ & E). cbv zeta in E.
  apply bind_Ok in E as (found & _ & E). apply bind_Ok in E as (lim & _ & E). apply bind_Ok in E as (soft & _ & E).
  do 2 (apply bind_Ok in E as ([] & _ & E)). apply bind_Ok in E as (iss & _ & E). do 2 (apply bind_Ok in E as (? & _ & E)).
  apply bind_Ok in E as (q & Hq%platform_amount_core & E). apply bind_Ok in E as (more & _ & E). apply bind_Ok in E as (i & Hi & E).
  apply bind_Ok in E as (b1 & _ & E). apply bind_Ok in E as (b2 & _ & E). destruct (_ !! usec_of_slot _); [done|]. injection E as <-.
  assert (symbol i = CORE_SYMBOL) as His. { destruct more; [apply asset_sub_Ok in Hi as (_ & _ & Hi); congruence|by injection Hi as <-]. }
  assert (forall r, r ∈ reserved -> flow_of r (inline_issue snax_name i) = 0) as H1.
  { intros r Hr. apply flow_of_issue_other. intros ->. unfold reserved in Hr.
    repeat (apply elem_of_cons in Hr as [Hr|Hr]; [done|]). by apply elem_of_nil in Hr. }
  assert (forall r, r ∈ reserved -> flow_of r (inline_transfer snax_name a q) = 0) as H2.
  { intros r Hr. apply flow_of_other; [|by apply not_eq_sym, reserved_ne]. intros ->. unfold reserved in Hr.
    repeat (apply elem_of_cons in Hr as [Hr|Hr]; [done|]). by apply elem_of_nil in Hr. }
  destruct b1, b2; (apply quiet_stepped; [done|done|done|done|done|done|done|intros r Hr|intros Hf]); cbn [sy_out set_requests emit];
    try (rewrite ?flow_snoc, ?H1, ?H2 by done; lia); rewrite ?Forall_app; by repeat constructor.
Qed.
