(* ===== verification/SystemRuns.v ===== *)
(** * Runs of the system contract

    Staking, voting, the RAM market, the rewards, the name auction and the
    platforms together, each action with the constructor before it and its inline
    transfers and issues after it. *)

From Stdlib Require Import ZArith Lia Bool Ascii String.
From stdpp Require Import base numbers gmap relations sets sorting list.
From S2P Require Import Prelude Name BlockHeader Token TokenProofs Float64 SystemContract VotingProofs Staking StakingProofs.
From S2P Require Import StakingRuns RamMarket RamMarketProofs Producers ProducersProofs Platforms Ledgers.

Open Scope Z_scope.

(** ** Actions *)

Inductive system_action :=
| act_stake (a : stake_action)
| act_buyram (payer receiver : account_name) (quant : asset)
| act_buyrambytes (payer receiver : account_name) (bytes : Z)
| act_sellram (account : account_name) (bytes : Z)
| act_setram (max_ram_size : Z)
| act_regproducer (producer : account_name) (key : Z) (url : list Z) (location : Z)
| act_unregprod (producer : account_name)
| act_rmvproducer (producer : account_name)
| act_onblock (timestamp : Z) (producer : account_name)
| act_claimrewards (owner : account_name)
| act_bidname (bidder newname : account_name) (bid : asset)
| act_newaccount (creator newact : account_name)
| act_lockplatform (platform : account_name)
| act_emitplatform (platform : account_name)
| act_setparams (params : blockchain_parameters)
| act_setpriv (account : account_name) (is_priv : Z).

(** The account that stakes, pays, sells or is paid, if there is one. *)
Definition acts (a : system_action) (b : account_name) : Prop :=
  match a with
  | act_stake a => b = actor a
  | act_buyram payer _ _ | act_buyrambytes payer _ _ => b = payer
  | act_sellram a _ | act_claimrewards a | act_bidname a _ _ | act_emitplatform a => b = a
  | _ => False
  end.

Section Runs.
Context `{CMath}.

Definition run_system_action (cx : sys_context) (s : system_state) (t : token_tables) (a : system_action) : result system_state :=
  match a with
  | act_stake a => run_stake_action cx s a
  | act_buyram payer receiver q => buyram cx s payer receiver q
  | act_buyrambytes payer receiver b => buyrambytes cx s payer receiver b
  | act_sellram a b => sellram cx s a b
  | act_setram n => setram cx s n
  | act_regproducer a k u l => regproducer cx s a k u l
  | act_unregprod a => unregprod cx s a
  | act_rmvproducer a => rmvproducer cx s a
  | act_onblock ts a => onblock cx s t ts a
  | act_claimrewards a => claimrewards cx s a
  | act_bidname a n q => bidname cx s a n q
  | act_newaccount c n => newaccount cx s c n
  | act_lockplatform a => lockplatform cx s a
  | act_emitplatform a => emitplatform cx s t a
  | act_setparams p => setparams cx s p
  | act_setpriv a b => setpriv cx s a b
  end.

(** A transaction with one action: the constructor, the action, what it sends. *)
Definition system_transaction (cx : sys_context) (st : system_state * token_tables) (a : system_action) :
    result (system_state * token_tables) :=
  s ← system_contract cx (clear_out st.1) st.2;
  s ← run_system_action cx s st.2 a;
  t ← execute (sc_is_account cx) st.2 (sy_out s);
  mret (s, t).

Fixpoint system_run (st : system_state * token_tables) (l : list (sys_context * system_action)) :
    result (system_state * token_tables) :=
  match l with
  | [] => mret st
  | (cx, a) :: l => st ← system_transaction cx st a; system_run st l
  end.

(** The constructor does nothing once the market is there and the premine done. *)
Lemma constructor_idle cx s t : system_ok s -> system_contract cx s t = Ok s.
Proof.
  intros Hok. destruct (mo_market s (so_market s Hok)) as (m & Hm & _). unfold system_contract, create_market. rewrite Hm.
  cbn [mbind result_bind mret result_ret]. by rewrite (so_initialized s Hok).
Qed.

Lemma run_system_action_stepped cx s t a s' :
  system_ok s -> unpaid_total s + 1 < 2 ^ 32 -> (forall b, acts a b -> b ∉ reserved) ->
  (forall payer receiver q, a = act_buyram payer receiver q -> symbol q = CORE_SYMBOL) ->
  run_system_action cx s t a = Ok s' -> stepped 1 s s'.
Proof.
  intros Hok Hroom Ha Hq E. assert (forall s2, stepped 0 s s2 -> stepped 1 s s2) as Hw by (intros s2 []; constructor; (done || lia)).
  destruct a; simpl in Ha, E; try (by eapply onblock_stepped); apply Hw.
  - eapply stake_stepped; eauto.
  - eapply buyram_stepped; eauto.
  - apply buyrambytes_Ok in E as (q & Hy & E); [|by apply market_ok_symbols, Hok]. eapply buyram_stepped; eauto.
  - eapply sellram_stepped; eauto.
  - eapply setram_stepped; eauto.
  - eapply regproducer_stepped; eauto.
  - eapply unregprod_stepped; eauto.
  - eapply rmvproducer_stepped; eauto.
  - eapply claimrewards_stepped; eauto. lia.
  - eapply bidname_stepped; eauto.
  - eapply newaccount_stepped; eauto.
  - eapply lockplatform_stepped; eauto.
  - eapply emitplatform_stepped; eauto.
  - eapply setparams_stepped; eauto.
  - eapply setpriv_stepped; eauto.
Qed.

(** *** Only the core token buys RAM *)

(** The token contract has no tokens with the symbols of the market. *)
Definition no_market_tokens (t : token_tables) : Prop :=
  stats t !! symbol_value_name RAM_SYMBOL = None /\ stats t !! symbol_value_name RAMCORE_SYMBOL = None.

Lemma convert_sells m from to m' a :
  market_symbols m -> convert m from to = Ok (m', a) ->
  symbol from = RAMCORE_SYMBOL \/ symbol from = RAM_SYMBOL \/ symbol from = CORE_SYMBOL.
Proof.
  intros (H1 & H2 & H3) E. unfold convert in E. simpl in E. apply bind_Ok in E as ([m1 b] & E & _). unfold convert_step in E.
  destruct (Z.eqb_spec (symbol from) (symbol (ex_supply m))) as [->|_]; [by left|]. simpl in E.
  destruct (Z.eqb_spec (symbol from) (symbol (cn_balance (ex_base m)))) as [->|_]; [by right; left|].
  destruct (Z.eqb_spec (symbol from) (symbol (cn_balance (ex_quote m)))) as [->|_]; [by right; right|done].
Qed.

Lemma buyram_core cx s payer receiver q s' accts t t' :
  market_ok s -> sy_out s = [] -> no_market_tokens t -> buyram cx s payer receiver q = Ok s' ->
  execute accts t (sy_out s') = Ok t' -> symbol q = CORE_SYMBOL.
Proof.
  intros Hm HO [T1 T2] E Et.
  assert (exists qa es, symbol qa = symbol q /\ sy_out s' = inline_transfer payer snax_ram qa :: es /\
    (symbol q = RAMCORE_SYMBOL \/ symbol q = RAM_SYMBOL \/ symbol q = CORE_SYMBOL)) as (qa & es & Hqa & Hout & Hy).
  { unfold buyram in E. apply bind_Ok in E as ([] & _ & E). apply bind_Ok in E as ([] & _ & E). apply bind_Ok in E as ([] & _ & E).
    apply bind_Ok in E as (r & _ & E). cbv zeta in E. apply bind_Ok in E as (m & Hmk & E). apply of_option_Ok in Hmk.
    apply bind_Ok in E as ([m' out] & Hc & E). apply bind_Ok in E as ([] & _ & E). apply bind_Ok in E as (st & _ & E).
    apply change_ram_Ok in E as (u & -> & _). apply convert_sells in Hc.
    - exists (mk_asset (amount q - Z.quot r 200) (symbol q)),
        (if 0 <? Z.quot r 200 then [inline_transfer payer snax_ramfee (mk_asset (Z.quot r 200) (symbol q))] else []).
      split_and!; [done| |exact Hc]. simpl. by destruct (0 <? Z.quot r 200); simpl; rewrite HO.
    - apply (market_ok_symbols s Hm). by destruct (_ <? _). }
  rewrite Hout in Et. simpl in Et. apply bind_Ok in Et as ([t1 e1] & Et & _).
  apply transfer_moves in Et as ((_ & _ & _ & (st & Hst & _) & _) & _). rewrite Hqa in Hst.
  destruct Hy as [Hy|[Hy|Hy]]; [rewrite Hy in Hst; congruence|rewrite Hy in Hst; congruence|done].
Qed.

Lemma execute_stats accts es n : forall t t',
  Forall core_transfer es -> n <> core_name -> execute accts t es = Ok t' -> stats t' !! n = stats t !! n.
Proof.
  induction es as [|e es IH]; intros t t' Hf Hn E; [by injection E as <-|].
  apply Forall_cons in Hf as [He Hf]. destruct e as [f to q|to q| | | | | | | |]; simpl in E, He; try done; try by apply IH.
  - apply bind_Ok in E as ([t1 es1] & E1 & E). apply transfer_moves in E1 as (_ & (Hs & _) & _). rewrite (IH t1 t' Hf Hn E). by rewrite Hs.
  - apply bind_Ok in E as (t1 & E1 & E). apply issue_moves in E1 as [_ Hs]. rewrite (IH t1 t' Hf Hn E). apply Hs. by rewrite He.
Qed.

(** *** Every run *)

(** No account that holds tokens for the contract acts by itself. *)
Definition honest (l : list (sys_context * system_action)) : Prop := Forall (fun x => forall b, acts x.2 b -> b ∉ reserved) l.

Lemma clear_out_system s : system_ok s -> system_ok (clear_out s).
Proof. intros [[] [] ]. constructor; try done; by constructor. Qed.

(** What a run does to the ledgers and the tokens of the reserved accounts. *)
Record balanced (s : system_state) (t : token_tables) (s' : system_state) (t' : token_tables) : Prop := {
  bl_constants : market_constants s' = market_constants s;
  bl_stake : balance t' snax_stake core_name - balance t snax_stake core_name = locked s' - locked s;
  bl_ram : balance t' snax_ram core_name - balance t snax_ram core_name =
    gs_total_ram_stake (sy_gstate s') - gs_total_ram_stake (sy_gstate s);
  bl_bpay : balance t' snax_bpay core_name - balance t snax_bpay core_name =
    gs_perblock_bucket (sy_gstate s') - gs_perblock_bucket (sy_gstate s);
  bl_vpay : balance t' snax_vpay core_name - balance t snax_vpay core_name =
    gs_pervote_bucket (sy_gstate s') - gs_pervote_bucket (sy_gstate s);
  bl_names : bids_total s' - bids_total s <= balance t' snax_names core_name - balance t snax_names core_name
}.

Lemma system_transaction_stepped cx s t a s' t' :
  system_ok s -> unpaid_total s + 1 < 2 ^ 32 -> no_market_tokens t -> (forall b, acts a b -> b ∉ reserved) ->
  system_transaction cx (s, t) a = Ok (s', t') ->
  system_ok s' /\ unpaid_total s' <= unpaid_total s + 1 /\ no_market_tokens t' /\ balanced s t s' t'.
Proof.
  intros Hok Hroom Ht Ha E. apply clear_out_system in Hok as Hok0. unfold system_transaction in E. simpl in E.
  rewrite (constructor_idle cx (clear_out s) t Hok0) in E. cbn [mbind result_bind] in E.
  apply bind_Ok in E as (s1 & E1 & E). apply bind_Ok in E as (t1 & Et & E). injection E as <- <-.
  assert (stepped 1 (clear_out s) s1) as [K1 K2 K3 K4 K5 K6 K7 K8 Hc].
  { apply (run_system_action_stepped cx _ t a); try done. intros payer receiver q ->.
    eapply (buyram_core cx (clear_out s)); try done. apply Hok0. }
  specialize (Hc (Forall_nil_2 _)). simpl in *. split_and!; [done|done| |].
  - destruct Ht as [T1 T2]. split; rewrite (execute_stats _ _ _ _ _ Hc) by done; done.
  - constructor; [done|..]; rewrite (execute_balance _ _ _ _ _ Hc Et).
    + change (locked (clear_out s)) with (locked s) in K4. lia.
    + lia.
    + lia.
    + lia.
    + change (bids_total (clear_out s)) with (bids_total s) in K8. lia.
Qed.

Lemma system_run_invariant l : forall s t s' t',
  system_ok s -> unpaid_total s + Z.of_nat (length l) < 2 ^ 32 -> no_market_tokens t -> honest l ->
  system_run (s, t) l = Ok (s', t') -> system_ok s' /\ balanced s t s' t'.
Proof.
  induction l as [|[cx a] l IH]; intros s t s' t' Hok Hroom Ht Hl E; simpl in E.
  { injection E as <- <-. split; [done|]. constructor; (done || lia). }
  apply Forall_cons in Hl as [Ha Hl]. apply bind_Ok in E as ([s2 t2] & E2 & E). simpl in Hroom.
  apply system_transaction_stepped in E2 as (Hok2 & Hu2 & Ht2 & [C1 B1 B2 B3 B4 B5]); [|done|lia|done|done].
  destruct (IH s2 t2 s' t' Hok2 ltac:(lia) Ht2 Hl E) as (Hok3 & [D1 F1 F2 F3 F4 F5]). split; [done|]. constructor; congruence || lia.
Qed.

(** C33: over every sequence of actions of the system contract but [setplatforms],
    each with the constructor before it and its inline transfers and issues after
    it, in which the accounts that hold tokens for the contract do not act
    themselves: the tokens of [snax.stake] change by exactly what is staked and
    waiting for refund, those of [snax.ram] by exactly the stake the market
    records, those of [snax.bpay] and [snax.vpay] by exactly the buckets of the
    rewards, and those of [snax.names] cover the bids. *)
Theorem system_backed s t l s' t' :
  system_ok s -> unpaid_total s + Z.of_nat (length l) < 2 ^ 32 -> no_market_tokens t -> honest l ->
  system_run (s, t) l = Ok (s', t') ->
  balance t' snax_stake core_name - balance t snax_stake core_name = locked s' - locked s /\
  balance t' snax_ram core_name - balance t snax_ram core_name =
    gs_total_ram_stake (sy_gstate s') - gs_total_ram_stake (sy_gstate s) /\
  balance t' snax_bpay core_name - balance t snax_bpay core_name =
    gs_perblock_bucket (sy_gstate s') - gs_perblock_bucket (sy_gstate s) /\
  balance t' snax_vpay core_name - balance t snax_vpay core_name =
    gs_pervote_bucket (sy_gstate s') - gs_pervote_bucket (sy_gstate s) /\
  bids_total s' - bids_total s <= balance t' snax_names core_name - balance t snax_names core_name.
Proof. intros Hok Hr Ht Hl E. by destruct (system_run_invariant l s t s' t' Hok Hr Ht Hl E) as (_ & []). Qed.

(** C34: after every such sequence, in which the accounts that hold tokens for the
    contract do not act themselves, the bytes for sale and the bytes of all accounts
    add up to the size of the RAM, no account has a negative quota, the limit set
    for an account is its quota, the supply of the market is the one it was
    created with, and so are its tokens but for the recorded stake. *)
Theorem ram_accounted s t l s' t' :
  system_ok s -> unpaid_total s + Z.of_nat (length l) < 2 ^ 32 -> no_market_tokens t -> honest l ->
  system_run (s, t) l = Ok (s', t') ->
  (exists m, sy_rammarket s' = Some m /\
     amount (cn_balance (ex_base m)) + map_sum ram_bytes (sy_userres s') = gs_max_ram_size (sy_gstate s')) /\
  (forall a, 0 <= ram_of s' a) /\
  (forall a r n c, sy_limits s' !! a = Some (r, n, c) -> r = ram_of s' a) /\
  market_constants s' = market_constants s.
Proof.
  intros Hok Hr Ht Hl E. destruct (system_run_invariant l s t s' t' Hok Hr Ht Hl E) as (Hok' & Hb).
  destruct (so_market s' Hok') as [(m & Hm1 & _ & Hmb) Hra Ho _ Hli].
  split_and!; [exists m; split; [done|lia]|done|done|apply Hb].
Qed.

(** C35: after every such sequence the stake an account votes with is the sum of
    what it delegates, its totals and the limits set for it are the sums of what
    is delegated to it, and no stake or refund is negative. *)
Theorem staking_consistent s t l s' t' :
  system_ok s -> unpaid_total s + Z.of_nat (length l) < 2 ^ 32 -> no_market_tokens t -> honest l ->
  system_run (s, t) l = Ok (s', t') ->
  (forall a, staked_of s' a = delegated_by s' a) /\
  (forall a, net_weight_of s' a = net_to s' a /\ cpu_weight_of s' a = cpu_to s' a) /\
  (forall a ram n c, sy_limits s' !! a = Some (ram, n, c) -> n = net_to s' a /\ c = cpu_to s' a) /\
  (forall k d, sy_delband s' !! k = Some d -> 0 <= amount (db_net_weight d) /\ 0 <= amount (db_cpu_weight d)) /\
  (forall a r, sy_refunds s' !! a = Some r -> 0 <= amount (rf_net_amount r) /\ 0 <= amount (rf_cpu_amount r)).
Proof.
  intros Hok Hr Ht Hl E. destruct (system_run_invariant l s t s' t' Hok Hr Ht Hl E) as (Hok' & _).
  destruct (so_stake s' Hok') as [Hd Hrf _ Hst Hn Hc Hlim].
  split_and!; [done|by split|intros a ram n c Ha; by rewrite <- Hn, <- Hc; apply (Hlim a ram)|done|].
  intros a r Ha. by destruct (Hrf a r Ha) as (? & ? & _).
Qed.

(** After every such sequence no account is its own proxy through others, so
    a change of weight that travels from proxy to proxy comes to an end; when the
    producers voted for are registered it succeeds, or is refused because a sum of
    votes is not a number. *)
Theorem weight_change_ends cx s t l s' t' name :
  system_ok s -> unpaid_total s + Z.of_nat (length l) < 2 ^ 32 -> no_market_tokens t -> honest l ->
  system_run (s, t) l = Ok (s', t') -> is_Some (sy_voters s' !! name) ->
  (forall a, ~ tc (uses_proxy (sy_voters s')) a a) /\ propagate cx s' name <> Err out_of_fuel /\
  (producers_known s' -> settles (propagate cx s' name)).
Proof.
  intros Hok Hr Ht Hl E Hn. destruct (system_run_invariant l s t s' t' Hok Hr Ht Hl E) as (Hok' & _).
  pose proof (sk_voters s' (so_stake s' Hok')) as Hv.
  split; [intros a; by apply voters_ok_acyclic|]. by apply propagate_total.
Qed.

(** After every such sequence the blocks the contract counts as unpaid are the
    unpaid blocks of the producers, and a claim takes no more out of the bucket of
    the blocks than is in it, which never runs below zero. *)
Theorem rewards_accounted s t l s' t' :
  system_ok s -> unpaid_total s + Z.of_nat (length l) < 2 ^ 32 -> no_market_tokens t -> honest l ->
  system_run (s, t) l = Ok (s', t') ->
  gs_total_unpaid_blocks (sy_gstate s') = map_sum unpaid (sy_producers s') /\
  (forall a, 0 <= unpaid_of s' a <= gs_total_unpaid_blocks (sy_gstate s')) /\
  0 <= gs_perblock_bucket (sy_gstate s').
Proof.
  intros Hok Hr Ht Hl E. destruct (system_run_invariant l s t s' t' Hok Hr Ht Hl E) as (Hok' & _).
  rewrite (so_unpaid s' Hok'). split_and!; [done|intros a; by apply unpaid_le_total|apply (so_perblock s' Hok')].
Qed.

(** ** The beginning *)

(** The state before the first action: no rows, and the parameters of the chain. *)
Definition genesis_state (params : blockchain_parameters) (max_ram_size parabola_a parabola_b : Z) : system_state :=
  mk_system ∅ ∅ ∅ ∅ ∅ ∅ ∅ None
    (mk_global max_ram_size 0 0 0 0 0 0 0 0 0 0 (of_int 0) 0 zero false parabola_a parabola_b params) ∅ ∅ ∅ ∅ [].

(** The constructor of the first action creates the market and asks for the
    premine, and from then on the invariant of the runs holds; without the core
    token it throws. *)
Theorem constructor_establishes cx params max_ram_size a b t :
  0 <= max_ram_size < 2 ^ 50 ->
  match stats t !! core_name with
  | None => system_contract cx (genesis_state params max_ram_size a b) t = Err snax_assert_message
  | Some st => 10 <= amount (max_supply st) ->
      exists s, system_contract cx (genesis_state params max_ram_size a b) t = Ok s /\ system_ok s /\
        (length (sy_out s) = 6)%nat
  end.
Proof.
  intros Hmax. unfold system_contract, create_market, Token.get_max_supply. change core_symbol_name with core_name. simpl.
  destruct (stats t !! core_name) as [st|]; [|done]. intros Hst. simpl.
  assert (0 < Z.quot (amount (max_supply st)) 10) as Hq by (rewrite Z.quot_div_nonneg by lia; apply Z.div_str_pos; lia).
  apply Z.ltb_lt in Hq. rewrite Hq. cbn -[literal of_int Z.quot i64 u64]. eexists. split; [reflexivity|]. split; [|done].
  constructor; simpl; try done.
  - constructor; simpl; try done; try (intros ? ? ?; by rewrite lookup_empty); try (intros ? ?; by rewrite lookup_empty).
    constructor; [by intros ? ? (v & Hv & _)|by intros ? v|exists (fun _ => 0%nat); by intros ? ? (v & Hv & _)].
  - constructor; simpl; try done. eexists. split; [done|]. split; [done|]. simpl. rewrite Z.sub_0_r, u64_small, i64_small by (unfold is_u64, is_i64; lia). lia.
Qed.

End Runs.

(** ** Examples *)
Module Demo.

(** Powers to first order, close enough for the small trades here. *)
Definition math : CMath :=
  {| dpow := fun b e => dadd (of_int 1) (dmul e (dsub b (of_int 1))); dexp := fun x => x; dlog := fun x => x |}.
#[local] Existing Instance math.

Definition snx (a : Z) : asset := mk_asset a CORE_SYMBOL.
Definition alice : account_name := 1001.
Definition bob : account_name := 1002.

Definition short_name : account_name := Eval vm_compute in N_ "ab".

Definition at_time (a : account_name) (now : Z) : sys_context :=
  mk_sys_context snax_name (fun b => b =? a) (fun _ => false) (fun b => negb (b =? short_name)) now (now * 1000000) (fun _ => 1).
Definition start_time : Z := 1600000000.

Definition ram_size : Z := 2 ^ 36.
Definition parameters : blockchain_parameters := mk_parameters 0 0 0 0 0 0 0 0 0 0 0 1 0 0 0 0 0 0 0 0 6.
Definition gstate : snax_global_state :=
  mk_global ram_size 0 0 0 0 0 0 0 min_activated_stake 1 0 (of_int 0) 0 (snx 0) true 4385772 (-1324503311) parameters.
Definition market : exchange_state :=
  mk_exchange (mk_asset 100000000000000 RAMCORE_SYMBOL) (mk_connector (mk_asset ram_size RAM_SYMBOL) (literal 1 2))
    (mk_connector (snx 10000000000) (literal 1 2)).
Definition start : system_state := mk_system ∅ ∅ ∅ ∅ ∅ ∅ ∅ (Some market) gstate ∅ ∅ ∅ ∅ [].
Definition tokens : token_tables :=
  mk_tables {[core_name := mk_stats (snx 20000000) (snx 1000000000000000) snax_name]}
    {[(alice, core_name) := snx 10000000; (bob, core_name) := snx 10000000]}.

Definition script : list (sys_context * system_action) :=
  [(at_time alice start_time, act_buyram alice alice (snx 100000));
   (at_time alice start_time, act_stake (do_delegatebw alice alice (snx 100) (snx 50) false));
   (at_time bob start_time, act_buyrambytes bob bob 200000);
   (at_time alice start_time, act_stake (do_delegatebw alice bob (snx 10) (snx 20) false));
   (at_time bob start_time, act_stake (do_regproxy bob true));
   (at_time alice start_time, act_stake (do_voteproducer alice bob []));
   (at_time alice start_time, act_stake (do_undelegatebw alice alice (snx 30) (snx 0)));
   (at_time alice start_time, act_sellram alice 100000);
   (at_time snax_name start_time, act_setram (2 ^ 37));
   (at_time alice (start_time + 10), act_stake (do_delegatebw alice alice (snx 20) (snx 5) false));
   (at_time bob start_time, act_regproducer bob 77 [] 1);
   (at_time snax_name start_time, act_onblock (slot_of_seconds start_time) bob);
   (at_time snax_name start_time, act_onblock (slot_of_seconds start_time + 1) bob);
   (at_time bob start_time, act_claimrewards bob);
   (at_time snax_name start_time, act_onblock (slot_of_seconds start_time + 2) bob);
   (at_time alice start_time, act_bidname alice short_name (snx 1000));
   (at_time bob start_time, act_bidname bob short_name (snx 2000));
   (at_time snax_name start_time, act_newaccount snax_name 1003);
   (at_time alice (start_time + 300000), act_stake (do_refund alice))].

Lemma start_ok : system_ok start.
Proof.
  constructor; [constructor|constructor|..]; simpl; try (by intros; rewrite ?lookup_empty in *); try reflexivity; try (vm_compute; congruence).
  - constructor; [by intros a b (v & Hv & _)|by intros a v|exists (fun _ => 0%nat); by intros a b (v & Hv & _)].
  - exists market. split; [reflexivity|]. split; [repeat split|vm_compute; reflexivity].
Qed.

Lemma tokens_ok : no_market_tokens tokens.
Proof. split; vm_compute; reflexivity. Qed.

Definition result_of (st : system_state * token_tables) (r : result (system_state * token_tables)) :=
  match r with Ok st' => st' | Err _ => st end.
Definition final : system_state * token_tables := result_of (start, tokens) (system_run (start, tokens) script).

Lemma script_run : system_run (start, tokens) script = Ok (final.1, final.2).
Proof. vm_compute. reflexivity. Qed.

Lemma script_honest : honest script.
Proof.
  unfold honest, script, reserved.
  repeat (apply Forall_cons_2; [intros b Hb; simpl in Hb; try done; subst b; rewrite !elem_of_cons, elem_of_nil; vm_compute; intuition congruence|]).
  apply Forall_nil_2.
Qed.

Lemma script_room : unpaid_total start + Z.of_nat (length script) < 2 ^ 32.
Proof. vm_compute. reflexivity. Qed.

Lemma system_backed_witness :
  balance final.2 snax_stake core_name - balance tokens snax_stake core_name = locked final.1 - locked start /\
  balance final.2 snax_ram core_name - balance tokens snax_ram core_name =
    gs_total_ram_stake (sy_gstate final.1) - gs_total_ram_stake (sy_gstate start) /\
  balance final.2 snax_bpay core_name - balance tokens snax_bpay core_name =
    gs_perblock_bucket (sy_gstate final.1) - gs_perblock_bucket (sy_gstate start).
Proof.
  destruct (system_backed start tokens script final.1 final.2 start_ok script_room tokens_ok script_honest script_run)
    as (H1 & H2 & H3 & _). split; [exact H1|]. split; [exact H2|exact H3].
Defined.

(** The amounts of the run: what is staked, paid for RAM, left in the buckets of
    the blocks and of the votes, and bid. *)
Example final_amounts :
  (locked final.1, gs_total_ram_stake (sy_gstate final.1), gs_perblock_bucket (sy_gstate final.1),
   gs_pervote_bucket (sy_gstate final.1), bids_total final.1) = (175, 113906, 20000, 60000, 2000).
Proof. vm_compute. reflexivity. Qed.

Lemma ram_accounted_witness :
  exists m, sy_rammarket final.1 = Some m /\
    amount (cn_balance (ex_base m)) + map_sum ram_bytes (sy_userres final.1) = gs_max_ram_size (sy_gstate final.1).
Proof. apply (ram_accounted start tokens script final.1 final.2 start_ok script_room tokens_ok script_honest script_run). Defined.

Lemma staking_consistent_witness : staked_of final.1 alice = delegated_by final.1 alice /\ delegated_by final.1 alice = 175.
Proof.
  destruct (staking_consistent start tokens script final.1 final.2 start_ok script_room tokens_ok script_honest script_run) as [Hs _].
  split; [apply (Hs alice)|vm_compute; reflexivity].
Defined.

Lemma weight_change_ends_witness :
  uses_proxy (sy_voters final.1) alice bob /\
  propagate (at_time alice (start_time + 400000)) final.1 alice <> Err out_of_fuel.
Proof.
  assert (uses_proxy (sy_voters final.1) alice bob) as Hu.
  { destruct (sy_voters final.1 !! alice) as [v|] eqn:Hv; [|vm_compute in Hv; discriminate]. exists v. split; [exact Hv|].
    vm_compute in Hv. injection Hv as <-. split; [reflexivity|discriminate]. }
  split; [exact Hu|].
  apply (weight_change_ends (at_time alice (start_time + 400000)) start tokens script final.1 final.2 alice start_ok
    script_room tokens_ok script_honest script_run). destruct Hu as (v & Hv & _). exists v. exact Hv.
Defined.

Lemma rewards_accounted_witness :
  gs_total_unpaid_blocks (sy_gstate final.1) = map_sum unpaid (sy_producers final.1) /\ gs_total_unpaid_blocks (sy_gstate final.1) = 1.
Proof.
  destruct (rewards_accounted start tokens script final.1 final.2 start_ok script_room tokens_ok script_honest script_run) as (H1 & _).
  split; [exact H1|vm_compute; reflexivity].
Defined.

Lemma constructor_establishes_witness :
  exists s, system_contract (at_time snax_name start_time) (genesis_state parameters ram_size 4385772 (-1324503311)) tokens = Ok s /\
    system_ok s.
Proof.
  destruct (constructor_establishes (at_time snax_name start_time) parameters ram_size 4385772 (-1324503311) tokens
    ltac:(vm_compute; split; [discriminate|reflexivity]) ltac:(vm_compute; discriminate)) as (s & E & Hok & _).
  exists s. split; [exact E|exact Hok].
Defined.

(** A purchase of 200,000 bytes brings fewer: the price asked for is what selling
    them would bring, and the fee is taken out of it. *)
Example buyrambytes_short :
  exists s, buyrambytes (at_time bob start_time) start bob bob 200000 = Ok s /\ ram_of s bob = 198989.
Proof.
  destruct (buyrambytes (at_time bob start_time) start bob bob 200000) as [s|e] eqn:E; [|vm_compute in E; discriminate].
  exists s. split; [reflexivity|]. vm_compute in E. injection E as <-. vm_compute. reflexivity.
Qed.

End Demo.
