(* ===== verification/PlatformsProofs.v ===== *)
(** * Auctions and platforms

    What an unclaimed name does to the other auctions, and what leaving the list of
    platforms does to the stake of an account; examples for the elections. *)

From Stdlib Require Import ZArith Lia Bool Ascii String.
From stdpp Require Import base numbers gmap relations sets sorting list.
From S2P Require Import Prelude Name BlockHeader Token TokenProofs Float64 SystemContract VotingProofs Staking StakingProofs.
From S2P Require Import RamMarket RamMarketProofs Producers ProducersProofs Platforms Ledgers.

Open Scope Z_scope.

(** ** The name auction *)

Lemma first_bid_least B n b : B !! n = Some b -> exists m c, first_bid B = Some (m, c) /\ by_high_bid c <= by_high_bid b.
Proof.
  intros Hb. apply elem_of_map_to_list in Hb. unfold first_bid. induction (map_to_list B) as [|x l IH]; [by apply elem_of_nil in Hb|].
  simpl. destruct (foldr _ _ l) as [[m c]|] eqn:Hl.
  - unfold bid_before. simpl. apply elem_of_cons in Hb as [<-|Hb]; simpl.
    + destruct (Z.ltb_spec (by_high_bid b) (by_high_bid c)); simpl; [by exists n, b|].
      destruct (_ && _); [by exists n, b|exists m, c; split; [done|lia]].
    + destruct (IH Hb) as (m' & c' & [= <- <-] & Hle). destruct x as [k d]. simpl.
      destruct (Z.ltb_spec (by_high_bid d) (by_high_bid c)); simpl; [exists k, d; split; [done|lia]|].
      destruct (Z.eqb_spec (by_high_bid d) (by_high_bid c)) as [He|]; simpl; [|by exists m, c].
      destruct (k <? m); [exists k, d; split; [done|lia]|by exists m, c].
  - destruct x as [k d]. exists k, d. split; [done|]. apply elem_of_cons in Hb as [[= <- <-]|Hb]; [lia|].
    destruct (IH Hb) as (m & c & ? & _). done.
Qed.

(** Closed auctions come before open ones in the index. *)
Lemma closed_first b c :
  is_i64 (nb_high_bid b) -> is_i64 (nb_high_bid c) -> nb_high_bid b < 0 -> by_high_bid c <= by_high_bid b -> nb_high_bid c <= 0.
Proof.
  unfold by_high_bid, u64, wrap, is_i64. intros Hb Hc Hneg Hle. destruct (Z.le_gt_cases (nb_high_bid c) 0) as [|Hpos]; [done|].
  rewrite (Z.mod_small (- nb_high_bid b)) in Hle by lia.
  assert (- nb_high_bid c mod 2 ^ 64 = 2 ^ 64 - nb_high_bid c) as Hm by (symmetry; apply (Z.mod_unique_pos _ _ (-1)); lia). lia.
Qed.

Lemma reward_producer_bids `{CMath} cx s t ts a p s' : reward_producer cx s t ts a p = Ok s' -> sy_bids s' = sy_bids s.
Proof.
  intros E. apply bind_Ok in E as ([semi paid] & _ & E). apply bind_Ok in E as (s1 & E1 & E). injection E as <-. simpl.
  destruct paid; [do 4 (apply bind_Ok in E1 as (? & _ & E1))|]; by injection E1 as <-.
Qed.

Lemma update_elected_bids cx s bt s' : update_elected_producers cx s bt = Ok s' -> sy_bids s' = sy_bids s.
Proof.
  intros E. unfold update_elected_producers in E. apply bind_Ok in E as ([s1 top] & E1 & E). apply elect_loop_Ok in E1.
  apply elects_rows in E1 as [_ [P ->]]. simpl in E. destruct (_ <? _); [by injection E as <-|]. by destruct (_ <=? _); injection E as <-.
Qed.

(** While a closed auction waits to be claimed, [onblock] closes no other: the
    closed bid is the first of the index by the highest bid. *)
Theorem unclaimed_bid_blocks `{CMath} cx s t ts producer s' n b :
  sy_bids s !! n = Some b -> nb_high_bid b < 0 -> (forall m c, sy_bids s !! m = Some c -> is_i64 (nb_high_bid c)) ->
  onblock cx s t ts producer = Ok s' -> sy_bids s' = sy_bids s.
Proof.
  intros Hn Hneg Hr E. apply bind_Ok in E as ([] & _ & E). destruct (_ <? _); [by injection E as <-|].
  cbv zeta in E. apply bind_Ok in E as (s1 & E1 & E).
  assert (sy_bids s1 = sy_bids s) as H1.
  { simpl in E1. destruct (sy_producers s !! producer); [|by injection E1 as <-]. by apply reward_producer_bids in E1. }
  destruct (_ <=? _); [|by injection E as <-]. apply bind_Ok in E as (s2 & E2%update_elected_bids & E). injection E as <-.
  destruct (_ <? _); [|congruence]. unfold close_auction. rewrite E2, H1.
  destruct (first_bid_least _ n b Hn) as (m & c & Hf & Hle). rewrite Hf. pose proof (first_bid_lookup _ _ _ Hf) as Hc.
  destruct (Z.ltb_spec 0 (nb_high_bid c)) as [Hpos|]; simpl; [|congruence].
  pose proof (closed_first b c (Hr _ _ Hn) (Hr _ _ Hc) Hneg Hle). lia.
Qed.

(** ** The platforms *)

Lemma drop_platform_other s a b : a <> b -> sy_userres (drop_platform s a) !! b = sy_userres s !! b.
Proof. intros Hne. unfold drop_platform. simpl. destruct (sy_userres s !! a); simpl; [by rewrite lookup_insert_ne|done]. Qed.

Lemma drop_platform_self s a u :
  sy_userres s !! a = Some u -> sy_userres (drop_platform s a) !! a = Some (mk_resources zero zero (ur_ram_bytes u)).
Proof. intros Hu. unfold drop_platform. rewrite Hu. simpl. apply lookup_insert_eq. Qed.

(** A platform that is not kept loses its weights. *)
Lemma drop_platforms_lost keep l : forall s a u,
  sy_userres s !! a = Some u -> a ∈ l -> a ∉ keep ->
  exists u', sy_userres (drop_platforms s keep l) !! a = Some u' /\ ur_net_weight u' = zero /\ ur_cpu_weight u' = zero.
Proof.
  assert (forall l s a u, sy_userres s !! a = Some u -> ur_net_weight u = zero -> ur_cpu_weight u = zero ->
    exists u', sy_userres (drop_platforms s keep l) !! a = Some u' /\ ur_net_weight u' = zero /\ ur_cpu_weight u' = zero) as Hz.
  { clear l. induction l as [|b l IH]; intros s a u Hu Hn Hc; simpl; [by exists u|]. destruct (existsb _ keep); [by eapply IH|].
    destruct (decide (b = a)) as [->|Hne]; [|eapply IH; [by rewrite drop_platform_other|done|done]].
    eapply IH; [by apply drop_platform_self|done|done]. }
  induction l as [|b l IH]; intros s a u Hu Hin Hk; [by apply elem_of_nil in Hin|]. simpl. apply elem_of_cons in Hin as [<-|Hin].
  - destruct (existsb _ keep) eqn:Hex.
    + apply existsb_exists in Hex as (x & Hx%list_elem_of_In & He%Z.eqb_eq). by subst x.
    + eapply Hz; [by apply drop_platform_self|done|done].
  - destruct (existsb _ keep); [by eapply IH|]. destruct (decide (b = a)) as [->|Hne].
    + eapply Hz; [by apply drop_platform_self|done|done].
    + eapply IH; [by rewrite drop_platform_other|done|done].
Qed.

Lemma give_quotas_other s p s' a : give_quotas s p = Ok s' -> pc_account p <> a -> sy_userres s' !! a = sy_userres s !! a.
Proof.
  intros E Hne. unfold give_quotas in E. apply bind_Ok in E as (n & _ & E). apply bind_Ok in E as (c & _ & E). injection E as <-.
  destruct (bool_decide _); simpl; by rewrite lookup_insert_ne.
Qed.

Lemma add_platforms_other cx l a : forall s w s' w',
  add_platforms cx s w l = Ok (s', w') -> a ∉ (pc_account <$> l) -> sy_userres s' !! a = sy_userres s !! a.
Proof.
  induction l as [|p l IH]; intros s w s' w' E Ha; simpl in E; [by injection E as <- _|].
  apply bind_Ok in E as ([] & _ & E). do 2 (apply bind_Ok in E as ([] & _ & E)). apply bind_Ok in E as (s1 & E1 & E).
  rewrite fmap_cons, not_elem_of_cons in Ha. destruct Ha as [Hne Ha].
  rewrite (IH _ _ _ _ E Ha). simpl. by eapply give_quotas_other.
Qed.

Lemma elem_of_platform_accounts s a : a ∈ platform_accounts s <-> is_Some (sy_platforms s !! a).
Proof.
  unfold platform_accounts. rewrite merge_sort_Permutation, list_elem_of_fmap. split.
  - intros ([b p] & -> & Hp%elem_of_map_to_list). by exists p.
  - intros [p Hp]. exists (a, p). split; [done|]. by apply elem_of_map_to_list.
Qed.

(** Nothing can be unstaked from an account whose totals are zero. *)
Lemma changebw_no_totals `{CMath} cx s from a n c tr u s' :
  sy_userres s !! a = Some u -> ur_net_weight u = zero -> ur_cpu_weight u = zero -> amount n < 0 \/ amount c < 0 ->
  changebw cx s from a n c tr <> Ok s'.
Proof.
  intros Hu Hn Hc Hneg E. unfold changebw in E. apply bind_Ok in E as ([] & _ & E). do 2 (apply bind_Ok in E as (? & _ & E)).
  do 2 (apply bind_Ok in E as ([] & _ & E)). apply bind_Ok in E as (tot & _ & E). apply bind_Ok in E as ([] & _ & E).
  apply bind_Ok in E as (s1 & E1 & E). apply update_delegation_Ok in E1 as (_ & _ & m & ->).
  apply bind_Ok in E as (s2 & E2 & _). unfold update_totals in E2. simpl in E2. rewrite Hu in E2.
  apply bind_Ok in E2 as ([[n' c'] ram] & En & E2). apply bind_Ok in E2 as ([] & H1%require_nonnegative_Ok & E2).
  apply bind_Ok in E2 as ([] & H2%require_nonnegative_Ok & E2). apply bind_Ok in En as (xn & Hx & En). apply bind_Ok in En as (xc & Hy & En).
  injection En as <- <- _. apply asset_add_Ok in Hx as (_ & Hx & _). apply asset_add_Ok in Hy as (_ & Hy & _).
  rewrite Hn in Hx. rewrite Hc in Hy. simpl in Hx, Hy. lia.
Qed.

Lemma undelegatebw_no_totals `{CMath} cx s from a n c u :
  sy_userres s !! a = Some u -> ur_net_weight u = zero -> ur_cpu_weight u = zero ->
  is_Ok (undelegatebw cx s from a n c) = false.
Proof.
  intros Hu Hn Hc. destruct (undelegatebw cx s from a n c) as [s'|e] eqn:E; [exfalso|done]. unfold undelegatebw in E.
  do 2 (apply bind_Ok in E as (? & _ & E); apply bind_Ok in E as ([] & _ & E)).
  apply bind_Ok in E as (t & Ht & E). apply asset_add_Ok in Ht as (_ & Ht & _).
  apply bind_Ok in E as (b & Hp & E). apply bind_Ok in E as ([] & ->%assert_Ok & E). apply asset_compare_Ok in Hp as [_ Hp].
  apply bind_Ok in E as (d & _ & E). apply bind_Ok in E as (av & _ & E). apply bind_Ok in E as (rq & _ & E).
  apply bind_Ok in E as ([av' s1] & E1 & E). apply bind_Ok in E as (b4 & _ & E). apply bind_Ok in E as ([] & _ & E).
  apply bind_Ok in E as ([] & _ & E). apply bind_Ok in E as (n' & Hn'%asset_neg_Ok & E). apply bind_Ok in E as (c' & Hc'%asset_neg_Ok & E).
  eapply changebw_no_totals; [|exact Hn|exact Hc| |exact E]; [|simpl in Hp; lia].
  destruct (from =? a); [|by injection E1 as _ <-]. apply bind_Ok in E1 as ([av2 rows] & _ & E1). by injection E1 as _ <-.
Qed.

Lemma drop_platforms_delband keep l : forall s, sy_delband (drop_platforms s keep l) = sy_delband s.
Proof.
  induction l as [|a l IH]; intros s; simpl; [done|]. rewrite IH. destruct (existsb _ _); [done|].
  unfold drop_platform. simpl. by destruct (sy_userres s !! a).
Qed.

Lemma add_platforms_delband cx l : forall s w s' w', add_platforms cx s w l = Ok (s', w') -> sy_delband s' = sy_delband s.
Proof.
  induction l as [|p l IH]; intros s w s' w' E; simpl in E; [by injection E as <- _|].
  apply bind_Ok in E as ([] & _ & E). do 2 (apply bind_Ok in E as ([] & _ & E)). apply bind_Ok in E as (s1 & E1 & E).
  apply IH in E as ->. simpl. unfold give_quotas in E1. apply bind_Ok in E1 as (n & _ & E1). apply bind_Ok in E1 as (c & _ & E1).
  injection E1 as <-. by destruct (bool_decide _).
Qed.

(** When an account with a row of resources leaves the list of platforms, no
    one can unstake what is staked to it: the delegations stay, the totals are set
    to zero, and unstaking would make them negative. *)
Theorem removed_platform_locks_stake `{CMath} cx s platforms s' a u :
  setplatforms cx s platforms = Ok s' -> is_Some (sy_platforms s !! a) -> a ∉ (pc_account <$> platforms) ->
  sy_userres s !! a = Some u ->
  sy_delband s' = sy_delband s /\ forall cx' from n c, is_Ok (undelegatebw cx' s' from a n c) = false.
Proof.
  intros E Hp%elem_of_platform_accounts Hl Hu. apply bind_Ok in E as ([] & _ & E). cbv zeta in E.
  apply bind_Ok in E as ([s1 w] & E1 & E). apply bind_Ok in E as ([] & _ & E). injection E as <-.
  destruct (drop_platforms_lost (pc_account <$> platforms) (platform_accounts s) s a u Hu Hp Hl) as (u' & Hu' & Hn & Hc).
  rewrite <- (add_platforms_other _ _ a _ _ _ _ E1 Hl) in Hu'. split.
  - rewrite (add_platforms_delband _ _ _ _ _ _ E1). apply drop_platforms_delband.
  - intros cx' from n c. by eapply undelegatebw_no_totals.
Qed.

(** ** Examples *)
Module Examples.

#[local] Instance math : CMath := {| dpow := fun b e => dadd (of_int 1) (dmul e (dsub b (of_int 1))); dexp := fun x => x; dlog := fun x => x |}.

Definition at_time (a : account_name) (now : Z) : sys_context :=
  mk_sys_context snax_name (fun b => b =? a) (fun _ => false) (fun b => 1000 <? b) now (now * 1000000) (fun _ => 1).
Definition start_time : Z := 1600000000.
Definition snx (a : Z) : asset := mk_asset a CORE_SYMBOL.
Definition parameters : blockchain_parameters := mk_parameters 0 0 0 0 0 0 0 0 0 0 0 1 0 0 0 0 0 0 0 0 6.
Definition now_slot : Z := slot_of_seconds start_time.

Example suffix_token : name_suffix (N_ "snax.token") = N_ "token".
Proof. vm_compute. reflexivity. Qed.
Example suffix_plain : name_suffix (N_ "alice") = N_ "alice".
Proof. vm_compute. reflexivity. Qed.

(** *** Elections *)

Definition producer (votes key last_top last_block : Z) (active : bool) : producer_info :=
  mk_producer (of_int votes) key active [] 0 0 last_block last_top 0.

(** Three active producers, one of which has produced nothing for an hour. *)
Definition gstate (size : Z) : snax_global_state :=
  mk_global (2 ^ 36) 0 0 100 0 0 0 0 min_activated_stake 1 size (of_int 0) 0 (snx 0) true 0 0 parameters.
Definition elections (last_block : Z) : system_state :=
  mk_system ∅ ∅ ∅ ∅ {[1001 := producer 50 11 100 5000 true; 1002 := producer 40 12 100 last_block true;
                      1003 := producer 30 13 0 5000 true; 1004 := producer 60 14 0 5000 false]}
    ∅ ∅ None (gstate 1) ∅ ∅ ∅ ∅ [].

Lemma votes_ok_elections b : votes_ok (sy_producers (elections b)).
Proof.
  intros n p Hp. simpl in Hp. repeat (apply lookup_insert_Some in Hp as [[_ <-]|[_ Hp]]; [split; reflexivity|]).
  apply lookup_singleton_Some in Hp as [_ <-]. split; reflexivity.
Qed.

Lemma election_of_most_voted_witness :
  exists s', update_elected_producers (at_time snax_name start_time) (elections 5000) 5100 = Ok s' /\
    sy_out s' = [propose_producers [(1001, 11); (1002, 12); (1003, 13)]].
Proof.
  destruct (election_of_most_voted (at_time snax_name start_time) (elections 5000) 5100 (votes_ok_elections 5000)) as (s' & schedule & E & _).
  exists s'. split; [exact E|]. vm_compute in E. injection E as <-. reflexivity.
Defined.

(** The second producer is removed, and the third is not elected with the first. *)
Definition cut : system_state :=
  match update_elected_producers (at_time snax_name start_time) (elections 0) 5100 with Ok s => s | Err _ => elections 0 end.

Lemma removal_cuts_election_witness : 1003 ∉ (fst <$> [(1001, 11)]) /\ sy_out cut = [propose_producers [(1001, 11)]].
Proof.
  split; [|vm_compute; reflexivity].
  apply (removal_cuts_election (at_time snax_name start_time) (elections 0) 5100 cut 1002 (producer 40 12 100 0 true)
    (deactivate (producer 40 12 100 0 true)) 1003 (producer 30 13 0 5000 true));
    [apply votes_ok_elections|..]; unfold electable; vm_compute; auto.
Defined.

(** *** Auctions *)

Definition auctions : system_state :=
  mk_system ∅ ∅ ∅ ∅ ∅ ∅ {[5 := mk_bid 1001 (-10) 1; 6 := mk_bid 1002 1000 1]} None (gstate 0) ∅ ∅ ∅ ∅ [].
Definition tokens : token_tables :=
  mk_tables {[core_symbol_name := mk_stats (snx 20000000) (snx 1000000000000000) snax_name]} ∅.

Lemma unclaimed_bid_blocks_witness :
  exists s', onblock (at_time snax_name start_time) auctions tokens now_slot 0 = Ok s' /\ sy_bids s' = sy_bids auctions.
Proof.
  destruct (onblock (at_time snax_name start_time) auctions tokens now_slot 0) as [s'|e] eqn:E; [|vm_compute in E; discriminate].
  exists s'. split; [reflexivity|].
  apply (unclaimed_bid_blocks (at_time snax_name start_time) auctions tokens now_slot 0 s' 5 (mk_bid 1001 (-10) 1)); [reflexivity|reflexivity| |exact E].
  intros m c Hc. simpl in Hc. repeat (apply lookup_insert_Some in Hc as [[_ <-]|[_ Hc]]; [split; vm_compute; congruence|]).
  apply lookup_singleton_Some in Hc as [_ <-]. split; vm_compute; congruence.
Defined.

(** Without the unclaimed name the other auction is closed. *)
Example claimed_bid_allows :
  match onblock (at_time snax_name start_time) (set_bids auctions {[6 := mk_bid 1002 1000 1]}) tokens now_slot 0 with
  | Ok s => nb_high_bid <$> sy_bids s !! 6
  | Err _ => None
  end = Some (-1000).
Proof. vm_compute. reflexivity. Qed.

(** *** Platforms *)

(** Account 1005 is a platform with stake from 1001. *)
Definition staked_platform : system_state :=
  mk_system {[1005 := mk_resources (snx 10) (snx 20) 500]} {[(1001, 1005) := mk_delegated (snx 10) (snx 20)]} ∅
    {[1001 := new_voter 30 false]} ∅ ∅ ∅ None (gstate 0) ∅
    {[1005 := mk_platform 1005 (literal 1 2) 1 (mk_quotas 500 20 10)]} ∅ ∅ [].
Definition no_platforms : system_state :=
  match setplatforms (at_time snax_name start_time) staked_platform [] with Ok s => s | Err _ => staked_platform end.

Lemma removed_platform_locks_stake_witness :
  is_Ok (undelegatebw (at_time 1001 start_time) staked_platform 1001 1005 (snx 10) (snx 20)) = true /\
  is_Ok (undelegatebw (at_time 1001 start_time) no_platforms 1001 1005 (snx 10) (snx 20)) = false.
Proof.
  split; [vm_compute; reflexivity|].
  apply (removed_platform_locks_stake (at_time snax_name start_time) staked_platform [] no_platforms 1005 (mk_resources (snx 10) (snx 20) 500));
    [vm_compute; reflexivity|eexists; reflexivity|apply not_elem_of_nil|reflexivity].
Defined.

End Examples.
