(* ===== verification/PlatformContract.v ===== *)
(** * The platform contract

    [contracts/platform]: the users of a social platform, the accounts bound to
    them, the rounds in which attention rates are updated and the emitted tokens
    are paid out, and transfers to users without an account. *)

From Stdlib Require Import ZArith Lia Bool Ascii String.
From stdpp Require Import base numbers gmap sorting list.
From S2P Require Import Prelude Name BlockHeader Token Float64 SystemContract.

Open Scope Z_scope.

Definition snax_transf : account_name := Eval vm_compute in N_ "snax.transf".

(** Strings are lists of bytes. *)
Definition bytes : Type := list Z.

(** ** Data *)

Record user := mk_user {
  us_attention_rate : double;
  us_attention_rate_rating_position : Z;
  us_last_attention_rate_updated_step_number : Z;
  us_posts_ranked_in_last_period : Z
}.

Record account := mk_account {
  ac_name : account_name;
  ac_last_paid_step_number : Z;
  ac_verification_post : Z;
  ac_verification_salt : bytes;
  ac_created : Z;
  ac_stat_diff : list Z;
  ac_active : bool
}.

Record platform_state := mk_state {
  ps_platform_name : bytes;
  ps_updating : Z;
  ps_step_number : Z;
  ps_registered_user_count : Z;
  ps_total_user_count : Z;
  ps_total_attention_rate : double;
  ps_registered_attention_rate : double;
  ps_token_dealer : account_name;
  ps_account : account_name;
  ps_airdrop : account_name;
  ps_round_supply : asset;
  ps_sent_amount : asset;
  ps_round_sent_account_count : Z;
  ps_round_updated_account_count : Z;
  ps_token_symbols : list Z
}.

Record state_step := mk_step {
  sp_registered_user_count : Z;
  sp_total_user_count : Z;
  sp_total_attention_rate : double;
  sp_registered_attention_rate : double;
  sp_round_supply : asset;
  sp_sent_amount : asset;
  sp_round_sent_account_count : Z;
  sp_round_updated_account_count : Z
}.

Record account_with_attention_rate := mk_rate {
  ar_id : Z;
  ar_attention_rate : double;
  ar_attention_rate_rating_position : Z;
  ar_stat_diff : list Z;
  ar_posts_ranked_in_period : Z
}.

Record account_to_add := mk_to_add {
  aa_name : account_name;
  aa_id : Z;
  aa_verification_post : Z;
  aa_verification_salt : bytes;
  aa_stat_diff : list Z
}.

(** The inline actions of the contract; the memos it writes itself are left out. *)
Inductive platform_effect :=
| pay (from to : account_name) (quantity : asset) (memo : bytes)
| ask_lockplatform (dealer platform : account_name)
| ask_emitplatform (dealer platform : account_name).

(** The tables by their primary keys; [transfers] by the symbol's name and the id,
    [bindings] by the account, which is the scope too. *)
Record platform_tables := mk_platform_tables {
  pl_state : option platform_state;
  pl_users : gmap Z user;
  pl_accounts : gmap Z account;
  pl_creators : gmap account_name unit;
  pl_history : gmap Z state_step;
  pl_bindings : gmap account_name bytes;
  pl_transfers : gmap (Z * Z) asset;
  pl_out : list platform_effect
}.

Definition set_state (s : platform_tables) (st : platform_state) : platform_tables :=
  mk_platform_tables (Some st) (pl_users s) (pl_accounts s) (pl_creators s) (pl_history s) (pl_bindings s) (pl_transfers s) (pl_out s).
Definition set_users (s : platform_tables) (m : gmap Z user) : platform_tables :=
  mk_platform_tables (pl_state s) m (pl_accounts s) (pl_creators s) (pl_history s) (pl_bindings s) (pl_transfers s) (pl_out s).
Definition set_accounts (s : platform_tables) (m : gmap Z account) : platform_tables :=
  mk_platform_tables (pl_state s) (pl_users s) m (pl_creators s) (pl_history s) (pl_bindings s) (pl_transfers s) (pl_out s).
Definition set_creators (s : platform_tables) (m : gmap account_name unit) : platform_tables :=
  mk_platform_tables (pl_state s) (pl_users s) (pl_accounts s) m (pl_history s) (pl_bindings s) (pl_transfers s) (pl_out s).
Definition set_history (s : platform_tables) (m : gmap Z state_step) : platform_tables :=
  mk_platform_tables (pl_state s) (pl_users s) (pl_accounts s) (pl_creators s) m (pl_bindings s) (pl_transfers s) (pl_out s).
Definition set_bindings (s : platform_tables) (m : gmap account_name bytes) : platform_tables :=
  mk_platform_tables (pl_state s) (pl_users s) (pl_accounts s) (pl_creators s) (pl_history s) m (pl_transfers s) (pl_out s).
Definition set_transfers (s : platform_tables) (m : gmap (Z * Z) asset) : platform_tables :=
  mk_platform_tables (pl_state s) (pl_users s) (pl_accounts s) (pl_creators s) (pl_history s) (pl_bindings s) m (pl_out s).
Definition send (s : platform_tables) (e : platform_effect) : platform_tables :=
  mk_platform_tables (pl_state s) (pl_users s) (pl_accounts s) (pl_creators s) (pl_history s) (pl_bindings s) (pl_transfers s) (pl_out s ++ [e]).

(** Changes of the state row. *)
Definition set_updating (st : platform_state) (u : Z) : platform_state :=
  mk_state (ps_platform_name st) u (ps_step_number st) (ps_registered_user_count st) (ps_total_user_count st)
    (ps_total_attention_rate st) (ps_registered_attention_rate st) (ps_token_dealer st) (ps_account st) (ps_airdrop st)
    (ps_round_supply st) (ps_sent_amount st) (ps_round_sent_account_count st) (ps_round_updated_account_count st)
    (ps_token_symbols st).
Definition set_rates (st : platform_state) (total registered : double) : platform_state :=
  mk_state (ps_platform_name st) (ps_updating st) (ps_step_number st) (ps_registered_user_count st) (ps_total_user_count st)
    total registered (ps_token_dealer st) (ps_account st) (ps_airdrop st)
    (ps_round_supply st) (ps_sent_amount st) (ps_round_sent_account_count st) (ps_round_updated_account_count st)
    (ps_token_symbols st).
Definition set_counts (st : platform_state) (registered total : Z) : platform_state :=
  mk_state (ps_platform_name st) (ps_updating st) (ps_step_number st) registered total
    (ps_total_attention_rate st) (ps_registered_attention_rate st) (ps_token_dealer st) (ps_account st) (ps_airdrop st)
    (ps_round_supply st) (ps_sent_amount st) (ps_round_sent_account_count st) (ps_round_updated_account_count st)
    (ps_token_symbols st).
Definition set_round (st : platform_state) (supply sent : asset) (sent_count updated_count : Z) : platform_state :=
  mk_state (ps_platform_name st) (ps_updating st) (ps_step_number st) (ps_registered_user_count st) (ps_total_user_count st)
    (ps_total_attention_rate st) (ps_registered_attention_rate st) (ps_token_dealer st) (ps_account st) (ps_airdrop st)
    supply sent sent_count updated_count (ps_token_symbols st).
Definition set_step (st : platform_state) (step : Z) : platform_state :=
  mk_state (ps_platform_name st) (ps_updating st) step (ps_registered_user_count st) (ps_total_user_count st)
    (ps_total_attention_rate st) (ps_registered_attention_rate st) (ps_token_dealer st) (ps_account st) (ps_airdrop st)
    (ps_round_supply st) (ps_sent_amount st) (ps_round_sent_account_count st) (ps_round_updated_account_count st)
    (ps_token_symbols st).
Definition set_symbols (st : platform_state) (l : list Z) : platform_state :=
  mk_state (ps_platform_name st) (ps_updating st) (ps_step_number st) (ps_registered_user_count st) (ps_total_user_count st)
    (ps_total_attention_rate st) (ps_registered_attention_rate st) (ps_token_dealer st) (ps_account st) (ps_airdrop st)
    (ps_round_supply st) (ps_sent_amount st) (ps_round_sent_account_count st) (ps_round_updated_account_count st) l.

(** What the chain tells the contract, and what the memory of a fresh object
    holds: the fields without a constructor of the member [_state] and of a new
    row of [pusers] keep it until they are set. *)
Record platform_context := mk_platform_context {
  px_self : account_name;
  px_has_auth : account_name -> bool;
  px_is_account : account_name -> bool;
  px_now : Z;
  px_state_memory : platform_state;
  px_user_memory : user
}.

(** ** Helpers *)

(** [string_to_symbol] of [snaxlib/symbol.hpp]: other characters leave a hole, and
    the eighth character cannot be shifted into 64 bits. *)
Fixpoint symbol_chars (i : Z) (str : bytes) : result Z :=
  match str with
  | [] => mret 0
  | c :: str =>
      if c =? 0 then mret 0
      else if (c <? 65) || (90 <? c) then symbol_chars (i + 1) str
      else
        SNAX_ASSERT (8 * (1 + i) <? 64) undefined_behavior;;
        r ← symbol_chars (i + 1) str;
        mret (Z.lor (Z.shiftl c (8 * (1 + i))) r)
  end.
Definition string_to_symbol (precision : Z) (str : bytes) : result Z :=
  r ← symbol_chars 0 str; mret (Z.lor r precision).

Section Platform.
Context (cx : platform_context).

Definition px_require_auth (a : account_name) : result unit := SNAX_ASSERT (px_has_auth cx a) missing_auth_exception.

(** [require_initialized()] followed by [_state = _platform_state.get()]. *)
Definition load (s : platform_tables) : result platform_state := of_option snax_assert_message (pl_state s).
Definition require_initialized (s : platform_tables) : result unit := snax_assert (bool_decide (is_Some (pl_state s))).
Definition require_uninitialized (s : platform_tables) : result unit := snax_assert (bool_decide (pl_state s = None)).

Definition require_creator_or_platform (s : platform_tables) (a : account_name) : result unit :=
  px_require_auth a;;
  snax_assert ((a =? px_self cx) || bool_decide (is_Some (pl_creators s !! a))).

(** [get_balance( account, symbol )]: the row of the token contract [t]. *)
Definition platform_balance (s : platform_tables) (t : token_tables) (a : account_name) (sym : Z) : result asset :=
  require_initialized s;;
  match Token.accounts t !! (a, symbol_value_name sym) with
  | Some b => mret b
  | None => make_asset 0 sym
  end.

(** ** Administration *)

Definition initialize (s : platform_tables) (name : bytes) (token_dealer : account_name) (token_symbol_str : bytes)
    (precision : Z) (airdrop : account_name) : result platform_tables :=
  px_require_auth (px_self cx);;
  require_uninitialized s;;
  snax_assert (0 <? Z.of_nat (List.length name));;
  token_symbol ← string_to_symbol precision token_symbol_str;
  none ← make_asset 0 token_symbol;
  mret (set_state s (mk_state name 0 1 0 0 (of_int 0) (of_int 0) token_dealer (px_self cx) airdrop none none 0 0 [token_symbol])).

Definition addcreator (s : platform_tables) (name : account_name) : result platform_tables :=
  px_require_auth (px_self cx);;
  require_initialized s;;
  snax_assert (px_is_account cx name);;
  snax_assert (bool_decide (pl_creators s !! name = None));;
  mret (set_creators s (<[name := tt]> (pl_creators s))).

Definition rmcreator (s : platform_tables) (name : account_name) : result platform_tables :=
  px_require_auth (px_self cx);;
  require_initialized s;;
  snax_assert (px_is_account cx name);;
  snax_assert (bool_decide (is_Some (pl_creators s !! name)));;
  mret (set_creators s (delete name (pl_creators s))).

(** [_state] as it is constructed: assets, strings and vectors have constructors,
    numbers have not. *)
Definition constructed_state : platform_state :=
  let m := px_state_memory cx in
  mk_state [] (ps_updating m) (ps_step_number m) (ps_registered_user_count m) (ps_total_user_count m)
    (ps_total_attention_rate m) (ps_registered_attention_rate m) (ps_token_dealer m) (ps_account m) (ps_airdrop m)
    (mk_asset 0 CORE_SYMBOL) (mk_asset 0 CORE_SYMBOL) (ps_round_sent_account_count m) (ps_round_updated_account_count m) [].

(** [addsymbol] changes [_state] without reading the row first. *)
Definition addsymbol (s : platform_tables) (token_symbol_str : bytes) (precision : Z) : result platform_tables :=
  px_require_auth (px_self cx);;
  require_initialized s;;
  sym ← string_to_symbol precision token_symbol_str;
  mret (set_state s (set_symbols constructed_state (ps_token_symbols constructed_state ++ [sym]))).

(** ** The phases of a round *)

Definition lockarupdate (s : platform_tables) : result platform_tables :=
  px_require_auth (px_self cx);;
  st ← load s;
  snax_assert (ps_updating st =? 0);;
  mret (set_state s (set_rates (set_updating st 1) (of_int 0) (of_int 0))).

Definition lockupdate (s : platform_tables) : result platform_tables :=
  px_require_auth (px_self cx);;
  st ← load s;
  snax_assert (ps_updating st =? 1);;
  let s := send s (ask_lockplatform (ps_token_dealer st) (px_self cx)) in
  mret (set_state s (set_updating st 2)).

(** The rows of a table in the order of their keys. *)
Definition key_order {A} (a b : Z * A) : Prop := a.1 <= b.1.
#[export] Instance key_order_dec {A} (a b : Z * A) : Decision (key_order a b).
Proof. unfold key_order. apply _. Defined.
Definition last_round (s : platform_tables) : option state_step :=
  snd <$> last (merge_sort key_order (map_to_list (pl_history s))).

Definition resetupdate (s : platform_tables) (updating_state : Z) : result platform_tables :=
  px_require_auth (px_self cx);;
  st ← load s;
  snax_assert ((updating_state =? 0) || (updating_state =? 1));;
  snax_assert ((updating_state <? ps_updating st) && (ps_updating st <? 3));;
  st ← (if updating_state =? 0 then
          snax_assert (deq (ps_total_attention_rate st) (of_int 0) && deq (ps_registered_attention_rate st) (of_int 0));;
          mret match last_round s with
               | Some r => set_rates st (sp_total_attention_rate r) (sp_registered_attention_rate r)
               | None => st
               end
        else mret st);
  mret (set_state s (set_updating st updating_state)).

Definition nextround (s : platform_tables) : result platform_tables :=
  px_require_auth (px_self cx);;
  st ← load s;
  snax_assert (ps_updating st =? 2);;
  let s := send s (ask_emitplatform (ps_token_dealer st) (px_self cx)) in
  mret (set_state s (set_updating (set_round st (ps_round_supply st) (ps_sent_amount st) 0 (ps_round_updated_account_count st)) 3)).

(** ** Users and accounts *)

(** The loop of [claim_transfered] over the symbols of the platform. *)
Fixpoint claim_symbols (s : platform_tables) (id : Z) (a : account_name) (symbols : list Z) : platform_tables :=
  match symbols with
  | [] => s
  | sym :: symbols =>
      let k := (symbol_value_name sym, id) in
      claim_symbols
        match pl_transfers s !! k with
        | Some amount => set_transfers (send s (pay snax_transf a amount [])) (delete k (pl_transfers s))
        | None => s
        end id a symbols
  end.
Definition claim_transfered (s : platform_tables) (st : platform_state) (id : Z) (a : account_name) : result platform_tables :=
  require_initialized s;;
  mret (if a =? 0 then s else claim_symbols s id a (ps_token_symbols st)).

Definition addaccount (s : platform_tables) (creator a : account_name) (id verification_post : Z)
    (verification_salt : bytes) (stat_diff : list Z) : result platform_tables :=
  require_creator_or_platform s creator;;
  st ← load s;
  let found_user := pl_users s !! id in
  let found_account := pl_accounts s !! id in
  snax_assert (bool_decide (found_user = None) || bool_decide (found_account = None));;
  s ← claim_transfered s st id a;
  let is_user_new := bool_decide (found_user = None) in
  let m := px_user_memory cx in
  let s := if is_user_new
           then set_users s (<[id := mk_user (us_attention_rate m) (us_attention_rate_rating_position m) 0
                                       (us_posts_ranked_in_last_period m)]> (pl_users s))
           else s in
  '(s, registered_attention_rate) ←
    (if negb (a =? 0) then
       snax_assert (bool_decide (found_account = None));;
       snax_assert (0 <? verification_post);;
       snax_assert (0 <? Z.of_nat (List.length verification_salt));;
       mret (set_accounts s (<[id := mk_account a 0 verification_post verification_salt (slot_of_seconds (px_now cx)) stat_diff true]>
                               (pl_accounts s)),
             match found_user with Some u => dadd (of_int 0) (us_attention_rate u) | None => of_int 0 end)
     else mret (s, of_int 0));
  st ← load s;
  mret (set_state s (set_counts (set_rates st (ps_total_attention_rate st) (dadd (ps_registered_attention_rate st) registered_attention_rate))
    (u64 (ps_registered_user_count st + Z.b2z (negb (a =? 0)))) (u64 (ps_total_user_count st + Z.b2z is_user_new)))).

Fixpoint add_each (s : platform_tables) (creator : account_name) (l : list account_to_add) : result platform_tables :=
  match l with
  | [] => mret s
  | x :: l =>
      s ← addaccount s creator (aa_name x) (aa_id x) (aa_verification_post x) (aa_verification_salt x) (aa_stat_diff x);
      add_each s creator l
  end.
Definition addaccounts (s : platform_tables) (creator : account_name) (l : list account_to_add) : result platform_tables :=
  require_creator_or_platform s creator;;
  require_initialized s;;
  add_each s creator l.

Definition dropaccount (s : platform_tables) (initiator : account_name) (id : Z) : result platform_tables :=
  px_require_auth initiator;;
  st ← load s;
  a ← of_option snax_assert_message (pl_accounts s !! id);
  snax_assert ((px_self cx =? initiator) || (ac_name a =? initiator));;
  let st := set_counts st (u64 (ps_registered_user_count st - 1)) (ps_total_user_count st) in
  let st := match pl_users s !! id with
            | Some u => set_rates st (ps_total_attention_rate st) (dsub (ps_registered_attention_rate st) (us_attention_rate u))
            | None => st
            end in
  mret (set_state (set_accounts s (delete id (pl_accounts s))) st).

Definition dropuser (s : platform_tables) (id : Z) : result platform_tables :=
  px_require_auth (px_self cx);;
  require_initialized s;;
  u ← of_option snax_assert_message (pl_users s !! id);
  s ← (if bool_decide (is_Some (pl_accounts s !! id)) then dropaccount s (px_self cx) id else mret s);
  st ← load s;
  let st := set_rates st (dsub (ps_total_attention_rate st) (us_attention_rate u)) (ps_registered_attention_rate st) in
  let st := set_counts st (ps_registered_user_count st) (u64 (ps_total_user_count st - 1)) in
  mret (set_state (set_users s (delete id (pl_users s))) st).

Definition bindaccount (s : platform_tables) (a : account_name) (salt : bytes) : result platform_tables :=
  px_require_auth a;;
  require_initialized s;;
  snax_assert (bool_decide (pl_bindings s !! a = None));;
  mret (set_bindings s (<[a := salt]> (pl_bindings s))).

Definition set_account_active (s : platform_tables) (id : Z) (active : bool) : result platform_tables :=
  a ← of_option snax_assert_message (pl_accounts s !! id);
  mret (set_accounts s (<[id := mk_account (ac_name a) (ac_last_paid_step_number a) (ac_verification_post a)
    (ac_verification_salt a) (ac_created a) (ac_stat_diff a) active]> (pl_accounts s))).
Definition activate (s : platform_tables) (id : Z) : result platform_tables :=
  px_require_auth (px_self cx);; require_initialized s;; set_account_active s id true.
Definition deactivate (s : platform_tables) (id : Z) : result platform_tables :=
  px_require_auth (px_self cx);; require_initialized s;; set_account_active s id false.

(** ** Attention rates *)

(** What the updates of an action add to the state row. *)
Record rate_totals := mk_totals { rt_total : double; rt_registered : double; rt_updated : Z; rt_new : Z }.

Definition rated_user (st : platform_state) (r : account_with_attention_rate) : user :=
  mk_user (ar_attention_rate r) (ar_attention_rate_rating_position r) (ps_step_number st) (ar_posts_ranked_in_period r).

Definition set_stat_diff (a : account) (l : list Z) : account :=
  mk_account (ac_name a) (ac_last_paid_step_number a) (ac_verification_post a) (ac_verification_salt a) (ac_created a) l (ac_active a).

(** The body shared by [updatear] and the loop of [updatearmult]. *)
Definition update_rate (s : platform_tables) (st : platform_state) (add_account_if_not_exist : bool)
    (w : rate_totals) (r : account_with_attention_rate) : result (platform_tables * rate_totals) :=
  match pl_users s !! ar_id r with
  | Some found =>
      snax_assert (dle (of_int 0) (ar_attention_rate r));;
      let already_updated := us_last_attention_rate_updated_step_number found =? ps_step_number st in
      let inc := if already_updated then dsub (ar_attention_rate r) (us_attention_rate found) else ar_attention_rate r in
      let s := set_users s (<[ar_id r := rated_user st r]> (pl_users s)) in
      let updated := u32 (rt_updated w + Z.b2z (negb already_updated)) in
      mret match pl_accounts s !! ar_id r with
           | Some a => (set_accounts s (<[ar_id r := set_stat_diff a (ar_stat_diff r)]> (pl_accounts s)),
                        mk_totals (dadd (rt_total w) inc) (dadd (rt_registered w) inc) updated (rt_new w))
           | None => (s, mk_totals (dadd (rt_total w) inc) (rt_registered w) updated (rt_new w))
           end
  | None =>
      snax_assert add_account_if_not_exist;;
      let s := set_users s (<[ar_id r := rated_user st r]> (pl_users s)) in
      s ← addaccount s (px_self cx) 0 (ar_id r) 0 [] (ar_stat_diff r);
      mret (s, mk_totals (dadd (rt_total w) (ar_attention_rate r)) (rt_registered w) (u32 (rt_updated w + 1)) (u32 (rt_new w + 1)))
  end.

(** The end of both actions: the totals are added to the row. *)
Definition add_totals (s : platform_tables) (w : rate_totals) : result platform_tables :=
  st ← load s;
  let st := set_rates st (dadd (ps_total_attention_rate st) (rt_total w)) (dadd (ps_registered_attention_rate st) (rt_registered w)) in
  let st := set_round st (ps_round_supply st) (ps_sent_amount st) (ps_round_sent_account_count st)
    (u64 (ps_round_updated_account_count st + rt_updated w)) in
  mret (set_state s (set_counts st (ps_registered_user_count st) (u64 (ps_total_user_count st + rt_new w)))).

Definition no_totals : rate_totals := mk_totals (of_int 0) (of_int 0) 0 0.

Definition updatear (s : platform_tables) (r : account_with_attention_rate) (add_account_if_not_exist : bool) : result platform_tables :=
  px_require_auth (px_self cx);;
  st ← load s;
  snax_assert (ps_updating st =? 1);;
  '(s, w) ← update_rate s st add_account_if_not_exist no_totals r;
  add_totals s w.

Fixpoint update_rates (s : platform_tables) (st : platform_state) (add_account_if_not_exist : bool)
    (w : rate_totals) (l : list account_with_attention_rate) : result (platform_tables * rate_totals) :=
  match l with
  | [] => mret (s, w)
  | r :: l => '(s, w) ← update_rate s st add_account_if_not_exist w r; update_rates s st add_account_if_not_exist w l
  end.

Definition updatearmult (s : platform_tables) (l : list account_with_attention_rate) (add_account_if_not_exist : bool) :
    result platform_tables :=
  px_require_auth (px_self cx);;
  st ← load s;
  snax_assert (ps_updating st =? 1);;
  '(s, w) ← update_rates s st add_account_if_not_exist no_totals l;
  add_totals s w.

(** ** Payments *)

(** The accounts from [lower] on in the index by name, equal names by id. *)
Definition name_order (a b : Z * account) : Prop := ac_name a.2 < ac_name b.2 \/ ac_name a.2 = ac_name b.2 /\ a.1 <= b.1.
#[export] Instance name_order_dec a b : Decision (name_order a b).
Proof. unfold name_order. apply _. Defined.
Definition accounts_from (m : gmap Z account) (lower : account_name) : list (Z * account) :=
  merge_sort name_order (List.filter (fun x => lower <=? ac_name x.2) (map_to_list m)).

Definition set_paid (a : account) (step : Z) : account :=
  mk_account (ac_name a) step (ac_verification_post a) (ac_verification_salt a) (ac_created a) (ac_stat_diff a) (ac_active a).

(** The tokens of an account, from what is left of the balance. *)
Definition token_amount (st : platform_state) (u : user) (active : bool) (total_balance current_balance : asset) : result asset :=
  if dlt (literal 1 10) (us_attention_rate u) && (us_last_attention_rate_updated_step_number u =? ps_step_number st) && active then
    portion ← to_int64 (ddiv (ps_total_attention_rate st) (us_attention_rate u));
    if portion <? amount total_balance then
      tokens ← asset_div total_balance portion;
      mret (if amount current_balance <? amount tokens then current_balance else tokens)
    else mret (mk_asset 0 CORE_SYMBOL)
  else mret (mk_asset 0 CORE_SYMBOL).

(** The loop of [sendpayments]: the balance that is left, the tokens sent and the
    accounts seen. *)
Fixpoint pay_accounts (s : platform_tables) (st : platform_state) (total_balance current_balance sent_amount : asset)
    (updated_account_count account_count : Z) (rows : list (Z * account)) :
    result (platform_tables * asset * asset * Z) :=
  match rows with
  | [] => mret (s, current_balance, sent_amount, updated_account_count)
  | (id, a) :: rows =>
      if account_count =? 0 then mret (s, current_balance, sent_amount, updated_account_count)
      else
        u ← of_option undefined_behavior (pl_users s !! id);
        if ac_name a =? 0 then
          pay_accounts s st total_balance current_balance sent_amount updated_account_count (account_count - 1) rows
        else
          snax_assert (ac_last_paid_step_number a <? ps_step_number st);;
          tokens ← token_amount st u (ac_active a) total_balance current_balance;
          '(s, current_balance, sent_amount) ←
            (if 0 <? amount tokens then
               current_balance ← asset_sub current_balance tokens;
               let s := send s (pay (px_self cx) (ac_name a) tokens []) in
               sent_amount ← asset_add sent_amount tokens;
               mret (s, current_balance, sent_amount)
             else mret (s, current_balance, sent_amount));
          let s := set_accounts s (<[id := set_paid a (ps_step_number st)]> (pl_accounts s)) in
          pay_accounts s st total_balance current_balance sent_amount (u32 (updated_account_count + 1)) (account_count - 1) rows
  end.

(** The end of a round: it is written to the history and the rest of the tokens
    goes back. *)
Definition unlock_update (s : platform_tables) (current_amount last_sent_amount : asset) (last_updated_account_count : Z) :
    result platform_tables :=
  require_initialized s;;
  st ← load s;
  sent ← asset_add (ps_sent_amount st) last_sent_amount;
  let step := mk_step (ps_registered_user_count st) (ps_total_user_count st) (ps_total_attention_rate st)
    (ps_registered_attention_rate st) (ps_round_supply st) sent
    (u64 (ps_round_sent_account_count st + last_updated_account_count)) (ps_round_updated_account_count st) in
  s ← match pl_history s !! ps_step_number st with
      | Some _ => Err uniqueness_violation
      | None => mret (set_history s (<[ps_step_number st := step]> (pl_history s)))
      end;
  supply ← asset_sub (ps_round_supply st) (ps_round_supply st);
  let st := set_step (set_round (set_updating st 0) supply sent 0 0) (u16 (ps_step_number st + 1)) in
  let s := set_state s st in
  mret (if 0 <? amount current_amount then send s (pay (px_self cx) snax_name current_amount []) else s).

Definition sendpayments (s : platform_tables) (t : token_tables) (lower_account_name : account_name) (account_count : Z) :
    result platform_tables :=
  px_require_auth (px_self cx);;
  st ← load s;
  snax_assert (ps_updating st =? 3);;
  let rows := accounts_from (pl_accounts s) (if negb (lower_account_name =? 0) then lower_account_name else 1) in
  current_balance ← platform_balance s t (px_self cx) (symbol (ps_round_supply st));
  sent_amount ← asset_sub (ps_round_supply st) (ps_round_supply st);
  let first := (amount (ps_round_supply st) =? 0) && (0 <? amount current_balance) in
  let st := if first then set_round st current_balance (ps_sent_amount st) (ps_round_sent_account_count st)
                            (ps_round_updated_account_count st) else st in
  let s := if first then set_state s st else s in
  let total_balance := ps_round_supply st in
  '(s, current_balance, sent_amount, updated_account_count) ←
    pay_accounts s st total_balance current_balance sent_amount 0 account_count rows;
  if ps_registered_user_count st <=? u64 (ps_round_sent_account_count st + updated_account_count)
  then unlock_update s current_balance sent_amount updated_account_count
  else
    sent ← asset_add (ps_sent_amount st) sent_amount;
    mret (set_state s (set_round st (ps_round_supply st) sent (u64 (ps_round_sent_account_count st + updated_account_count))
      (ps_round_updated_account_count st))).

(** ** Transfers to users *)

(** A user without an account: [snax.transf] keeps the tokens. *)
Definition store_transfer (s : platform_tables) (from : account_name) (to : Z) (quantity : asset) (memo : bytes) :
    result platform_tables :=
  let k := (symbol_value_name (symbol quantity), to) in
  let s := send s (pay from snax_transf quantity memo) in
  match pl_transfers s !! k with
  | Some amount => total ← asset_add amount quantity; mret (set_transfers s (<[k := total]> (pl_transfers s)))
  | None => mret (set_transfers s (<[k := quantity]> (pl_transfers s)))
  end.

Definition transfersoc (s : platform_tables) (t : token_tables) (from : account_name) (to : Z) (quantity : asset)
    (memo : bytes) : result platform_tables :=
  px_require_auth from;;
  require_initialized s;;
  balance ← platform_balance s t from (symbol quantity);
  enough ← asset_ge balance quantity;
  snax_assert enough;;
  match pl_accounts s !! to with
  | Some a =>
      if negb (ac_name a =? 0) then mret (send s (pay from (ac_name a) quantity memo))
      else store_transfer s from to quantity memo
  | None => store_transfer s from to quantity memo
  end.

End Platform.
