(* ===== verification/PlatformContractProofs.v ===== *)
(** * The platform contract: rounds, users and accounts

    The counters of the platform are the sizes of its tables, every account
    belongs to a user, a round goes through its phases in order and is recorded
    once, and an account is marked as paid at most once in a round. *)

From Stdlib Require Import ZArith Lia Bool.
From stdpp Require Import base numbers gmap sorting list.
From S2P Require Import Prelude Name BlockHeader Token TokenProofs Float64 SystemContract PlatformContract.

Open Scope Z_scope.

(** ** Actions *)

(** The actions of [SNAX_ABI]. *)
Inductive platform_action :=
| pa_initialize (name : bytes) (token_dealer : account_name) (token_symbol_str : bytes) (precision : Z) (airdrop : account_name)
| pa_addsymbol (token_symbol_str : bytes) (precision : Z)
| pa_addcreator (name : account_name)
| pa_rmcreator (name : account_name)
| pa_lockarupdate
| pa_lockupdate
| pa_resetupdate (updating_state : Z)
| pa_nextround
| pa_sendpayments (lower : account_name) (count : Z)
| pa_activate (id : Z)
| pa_deactivate (id : Z)
| pa_updatear (r : account_with_attention_rate) (add : bool)
| pa_updatearmult (l : list account_with_attention_rate) (add : bool)
| pa_dropuser (id : Z)
| pa_bindaccount (a : account_name) (salt : bytes)
| pa_dropaccount (initiator : account_name) (id : Z)
| pa_addaccount (creator a : account_name) (id post : Z) (salt : bytes) (stat_diff : list Z)
| pa_addaccounts (creator : account_name) (l : list account_to_add)
| pa_transfersoc (from : account_name) (to : Z) (quantity : asset) (memo : bytes).

Definition run_platform_action (cx : platform_context) (s : platform_tables) (t : token_tables) (a : platform_action) :
    result platform_tables :=
  match a with
  | pa_initialize n d sym p ad => initialize cx s n d sym p ad
  | pa_addsymbol sym p => addsymbol cx s sym p
  | pa_addcreator n => addcreator cx s n
  | pa_rmcreator n => rmcreator cx s n
  | pa_lockarupdate => lockarupdate cx s
  | pa_lockupdate => lockupdate cx s
  | pa_resetupdate u => resetupdate cx s u
  | pa_nextround => nextround cx s
  | pa_sendpayments lower count => sendpayments cx s t lower count
  | pa_activate id => activate cx s id
  | pa_deactivate id => deactivate cx s id
  | pa_updatear r b => updatear cx s r b
  | pa_updatearmult l b => updatearmult cx s l b
  | pa_dropuser id => dropuser cx s id
  | pa_bindaccount a salt => bindaccount cx s a salt
  | pa_dropaccount i id => dropaccount cx s i id
  | pa_addaccount c a id post salt d => addaccount cx s c a id post salt d
  | pa_addaccounts c l => addaccounts cx s c l
  | pa_transfersoc f to q m => transfersoc cx s t f to q m
  end.

(** The arguments of an action fit its counters. *)
Definition sized (a : platform_action) : Prop :=
  match a with
  | pa_updatearmult l _ => Z.of_nat (length l) < 2 ^ 32
  | pa_sendpayments _ count => 0 <= count
  | _ => True
  end.

(** All actions but [addsymbol], which overwrites the state of the platform. *)
Definition keeps_state (a : platform_action) : Prop := match a with pa_addsymbol _ _ => False | _ => True end.

(** ** The invariant *)

(** [pending] new users are in their table and not yet counted. *)
Record platform_ok_but (pending : Z) (s : platform_tables) (st : platform_state) : Prop := {
  po_row : pl_state s = Some st;
  po_registered : ps_registered_user_count st = u64 (Z.of_nat (size (pl_accounts s)));
  po_total : ps_total_user_count st = u64 (Z.of_nat (size (pl_users s)) - pending);
  po_known id a : pl_accounts s !! id = Some a -> is_Some (pl_users s !! id) /\ ac_name a <> 0;
  po_phase : 0 <= ps_updating st <= 3;
  po_step : 1 <= ps_step_number st < 2 ^ 16;
  po_history k : is_Some (pl_history s !! k) <-> 1 <= k < ps_step_number st;
  po_paid id a : pl_accounts s !! id = Some a ->
    ac_last_paid_step_number a <= ps_step_number st /\ (ps_updating st <> 3 -> ac_last_paid_step_number a < ps_step_number st)
}.
Notation platform_ok := (platform_ok_but 0).

(** The phases: nothing, updating the rates, locked, paying. *)
Inductive round_edge : Z -> Z -> Prop :=
| stay u : round_edge u u
| to_updating : round_edge 0 1
| to_locked : round_edge 1 2
| to_paying : round_edge 2 3
| to_done : round_edge 3 0
| reset_updating u : 0 < u < 3 -> round_edge u 0
| reset_locked : round_edge 2 1.

Definition finished (st st' : platform_state) : bool := (ps_updating st =? 3) && (ps_updating st' =? 0).

Record advanced (st st' : platform_state) : Prop := {
  ad_phase : round_edge (ps_updating st) (ps_updating st');
  ad_step : ps_step_number st' = ps_step_number st + Z.b2z (finished st st')
}.

Lemma same_phase_advanced st st' :
  ps_updating st' = ps_updating st -> ps_step_number st' = ps_step_number st -> advanced st st'.
Proof.
  intros Hu Hs. constructor; [rewrite Hu; constructor|]. rewrite Hs. unfold finished. rewrite Hu.
  destruct (Z.eqb_spec (ps_updating st) 3) as [->|_]; simpl; lia.
Qed.

(** Counters that wrap follow sizes that do not. *)
Lemma u64_count a b n m : a = u64 n -> m = n + b -> u64 (a + b) = u64 m.
Proof. intros -> ->. unfold u64, wrap. by rewrite Zplus_mod_idemp_l. Qed.

Lemma size_insert_new {A} (m : gmap Z A) k x : m !! k = None -> Z.of_nat (size (<[k := x]> m)) = Z.of_nat (size m) + 1.
Proof. intros Hk. rewrite map_size_insert_None by done. lia. Qed.
Lemma size_insert_old {A} (m : gmap Z A) k x y : m !! k = Some y -> size (<[k := x]> m) = size m.
Proof. intros Hk. by rewrite map_size_insert_Some. Qed.
Lemma size_delete_old {A} (m : gmap Z A) k y : m !! k = Some y -> Z.of_nat (size (delete k m)) = Z.of_nat (size m) - 1.
Proof.
  intros Hk. rewrite map_size_delete_Some by done. assert (size m <> 0%nat); [|lia].
  intros H0%map_size_empty_inv. subst. by rewrite lookup_empty in Hk.
Qed.

Lemma load_Ok s st : load s = Ok st <-> pl_state s = Some st.
Proof. apply of_option_Ok. Qed.

(** ** Accounts *)

Lemma claim_symbols_frame l : forall s id a,
  let s' := claim_symbols s id a l in
  pl_state s' = pl_state s /\ pl_users s' = pl_users s /\ pl_accounts s' = pl_accounts s /\ pl_history s' = pl_history s.
Proof.
  induction l as [|sym l IH]; intros s id a; simpl; [done|]. destruct (IH (match pl_transfers s !! (symbol_value_name sym, id) with
    | Some amount => set_transfers (send s (pay snax_transf a amount [])) (delete (symbol_value_name sym, id) (pl_transfers s))
    | None => s end) id a) as (H1 & H2 & H3 & H4). rewrite H1, H2, H3, H4. by destruct (pl_transfers s !! _).
Qed.

Lemma claim_transfered_Ok s st id a s' :
  claim_transfered s st id a = Ok s' ->
  pl_state s' = pl_state s /\ pl_users s' = pl_users s /\ pl_accounts s' = pl_accounts s /\ pl_history s' = pl_history s.
Proof.
  intros E. apply bind_Ok in E as ([] & _ & E). injection E as <-. destruct (a =? 0); [done|]. apply claim_symbols_frame.
Qed.

Section Invariant.
Context (cx : platform_context).

(** What [addaccount] leaves of the state row. *)
Record counted (st st' : platform_state) : Prop := {
  ct_updating : ps_updating st' = ps_updating st;
  ct_step : ps_step_number st' = ps_step_number st
}.
#[local] Instance counted_preorder : PreOrder counted.
Proof. split; [by constructor|]. intros a b c [] []. constructor; congruence. Qed.

Lemma counted_advanced st st' : counted st st' -> advanced st st'.
Proof. intros []. by apply same_phase_advanced. Qed.

(** A new account of a known user. *)
Lemma new_account_ok n s st id a x :
  platform_ok_but n s st -> pl_accounts s !! id = None -> is_Some (pl_users s !! id) -> a <> 0 ->
  ac_name x = a -> ac_last_paid_step_number x = 0 ->
  let s' := set_accounts s (<[id := x]> (pl_accounts s)) in
  forall st', counted st st' -> ps_registered_user_count st' = u64 (ps_registered_user_count st + 1) ->
  ps_total_user_count st' = ps_total_user_count st -> platform_ok_but n (set_state s' st') st'.
Proof.
  intros [H1 H2 H3 H4 H5 H6 H7 H8] Hid Hu Ha Hn Hp s' st' [Cu Cs] Hr Ht. constructor; simpl; rewrite ?Cu, ?Cs; try done.
  - rewrite Hr. eapply u64_count; [exact H2|]. by rewrite size_insert_new.
  - by rewrite Ht.
  - intros i y Hy. apply lookup_insert_Some in Hy as [[<- <-]|[_ Hy]]; [by rewrite Hn|by eapply H4].
  - intros i y Hy. apply lookup_insert_Some in Hy as [[<- <-]|[_ Hy]]; [rewrite Hp; lia|by eapply H8].
Qed.

Lemma new_user_ok n s st id u :
  platform_ok_but n s st -> pl_users s !! id = None -> platform_ok_but (n + 1) (set_users s (<[id := u]> (pl_users s))) st.
Proof.
  intros [H1 H2 H3 H4 H5 H6 H7 H8] Hid. constructor; simpl; try done.
  - rewrite size_insert_new by done. rewrite H3. f_equal. lia.
  - intros i y Hy. destruct (H4 i y Hy) as [Hu Hn]. split; [|done]. by apply lookup_insert_is_Some'; right.
Qed.

Lemma count_users n k s st st' :
  platform_ok_but (n + k) s st -> counted st st' -> ps_registered_user_count st' = ps_registered_user_count st ->
  ps_total_user_count st' = u64 (ps_total_user_count st + k) -> platform_ok_but n (set_state s st') st'.
Proof.
  intros [H1 H2 H3 H4 H5 H6 H7 H8] [Cu Cs] Hr Ht. constructor; simpl; rewrite ?Cu, ?Cs; try done.
  - congruence.
  - rewrite Ht. eapply u64_count; [exact H3|lia].
Qed.

Lemma frame_ok n s s' st :
  pl_state s' = pl_state s -> pl_users s' = pl_users s -> pl_accounts s' = pl_accounts s -> pl_history s' = pl_history s ->
  platform_ok_but n s st -> platform_ok_but n s' st.
Proof. intros F1 F2 F3 F4 []. constructor; rewrite ?F1, ?F2, ?F3, ?F4; done. Qed.

Lemma addaccount_ok n s st creator a id post salt d s' :
  platform_ok_but n s st -> addaccount cx s creator a id post salt d = Ok s' ->
  exists st', platform_ok_but n s' st' /\ counted st st'.
Proof.
  intros Hok E. unfold addaccount in E. apply bind_Ok in E as ([] & _ & E). apply bind_Ok in E as (st0 & H0%load_Ok & E).
  rewrite (po_row _ _ _ Hok) in H0. injection H0 as <-. cbv zeta in E. apply bind_Ok in E as ([] & _ & E).
  apply bind_Ok in E as (s1 & (F1 & F2 & F3 & F4)%claim_transfered_Ok & E).
  apply (frame_ok n s s1 st F1 F2 F3 F4) in Hok. rewrite <- F2, <- F3 in E. clear s F1 F2 F3 F4.
  set (new := bool_decide (pl_users s1 !! id = None)) in *.
  set (s2 := if new then _ else s1) in E.
  assert (platform_ok_but (n + Z.b2z new) s2 st /\ is_Some (pl_users s2 !! id) /\ pl_accounts s2 = pl_accounts s1) as (Hok2 & Hu2 & HA).
  { unfold s2, new. destruct (bool_decide_reflect (pl_users s1 !! id = None)) as [Hn|Hn]; simpl.
    - split; [by apply new_user_ok|]. split; [by rewrite lookup_insert_eq|done].
    - rewrite Z.add_0_r. split; [done|]. split; [by apply not_eq_None_Some|done]. }
  clearbody s2. apply bind_Ok in E as ([s3 rate] & E3 & E). apply bind_Ok in E as (st3 & H3%load_Ok & E). injection E as <-.
  destruct (Z.eqb_spec a 0) as [->|Ha]; simpl in *.
  - injection E3 as -> <-. rewrite (po_row _ _ _ Hok2) in H3. injection H3 as <-. eexists. split; cycle 1; [|eapply (count_users n _ s3 st); [done| | |done]]; [by constructor..|]. simpl. rewrite Z.add_0_r, (po_registered _ _ _ Hok2).
    unfold u64, wrap. by rewrite Zmod_mod.
  - apply bind_Ok in E3 as ([] & Hna%assert_Ok & E3). apply bool_decide_eq_true in Hna.
    do 2 (apply bind_Ok in E3 as ([] & _ & E3)). injection E3 as <- _. simpl in H3.
    rewrite (po_row _ _ _ Hok2) in H3. injection H3 as <-.
    set (x := mk_account a 0 post salt _ d true).
    assert (platform_ok_but (n + Z.b2z new) (set_state (set_accounts s2 (<[id := x]> (pl_accounts s2)))
      (set_counts st (u64 (ps_registered_user_count st + 1)) (ps_total_user_count st)))
      (set_counts st (u64 (ps_registered_user_count st + 1)) (ps_total_user_count st))) as Hok3
      by (eapply new_account_ok; first [done|congruence|by constructor]).
    eapply count_users in Hok3; [eexists; split; [exact Hok3|]|..]; [by constructor..|done|done].
Qed.

Lemma add_each_ok creator l : forall s st s',
  platform_ok s st -> add_each cx s creator l = Ok s' -> exists st', platform_ok s' st' /\ counted st st'.
Proof.
  induction l as [|x l IH]; intros s st s' Hok E; [injection E as <-; exists st; split; [done|by constructor]|].
  apply bind_Ok in E as (s1 & E1 & E). destruct (addaccount_ok _ _ _ _ _ _ _ _ _ _ Hok E1) as (st1 & Hok1 & C1).
  destruct (IH _ _ _ Hok1 E) as (st' & Hok' & C'). exists st'. split; [done|by etrans].
Qed.

Lemma dropaccount_ok s st i id s' :
  platform_ok s st -> dropaccount cx s i id = Ok s' ->
  exists st', platform_ok s' st' /\ counted st st' /\ pl_users s' = pl_users s /\ pl_accounts s' = delete id (pl_accounts s).
Proof.
  intros [H1 H2 H3 H4 H5 H6 H7 H8] E. apply bind_Ok in E as ([] & _ & E). apply bind_Ok in E as (st0 & H0%load_Ok & E).
  assert (st0 = st) as -> by congruence. apply bind_Ok in E as (a & Ha%of_option_Ok & E). apply bind_Ok in E as ([] & _ & E). cbv zeta in E.
  injection E as <-. eexists. split; [|split; [|done]]; cycle 1.
  2: constructor; simpl; [reflexivity|..]; try done.
  1: by destruct (pl_users s !! id).
  - transitivity (u64 (ps_registered_user_count st + -1)); [by destruct (pl_users s !! id)|].
    eapply u64_count; [exact H2|]. by rewrite (size_delete_old _ _ a).
  - by destruct (pl_users s !! id).
  - intros j y [_ Hy]%lookup_delete_Some. by eapply H4.
  - by destruct (pl_users s !! id).
  - by destruct (pl_users s !! id).
  - intros k. destruct (pl_users s !! id); apply H7.
  - intros j y [_ Hy]%lookup_delete_Some. destruct (pl_users s !! id); by eapply H8.
Qed.

Lemma dropuser_ok s st id s' :
  platform_ok s st -> dropuser cx s id = Ok s' -> exists st', platform_ok s' st' /\ counted st st'.
Proof.
  intros Hok E. apply bind_Ok in E as ([] & _ & E). apply bind_Ok in E as ([] & _ & E). apply bind_Ok in E as (u & Hu%of_option_Ok & E).
  apply bind_Ok in E as (s1 & E1 & E). apply bind_Ok in E as (st1 & H1%load_Ok & E). injection E as <-.
  assert (exists st0, platform_ok s1 st0 /\ counted st st0 /\ pl_users s1 = pl_users s /\ pl_accounts s1 !! id = None) as (st0 & Hok1 & C & HU & HA).
  { destruct (bool_decide_reflect (is_Some (pl_accounts s !! id))) as [Hs|Hs].
    - destruct (dropaccount_ok _ _ _ _ _ Hok E1) as (st0 & Hok1 & C & HU & HA). exists st0. rewrite HA. by rewrite lookup_delete_eq.
    - injection E1 as <-. exists st. split_and!; [done|by constructor|done|by apply eq_None_not_Some]. }
  assert (st1 = st0) as -> by (pose proof (po_row _ _ _ Hok1); congruence). destruct Hok1 as [I1 I2 I3 I4 I5 I6 I7 I8].
  eexists. split; cycle 1.
  2: constructor; simpl; [reflexivity|..]; try done.
  1: etrans; [exact C|by constructor].
  - change (u64 (ps_total_user_count st0 + -1) = u64 (Z.of_nat (size (delete id (pl_users s1))) - 0)).
    eapply u64_count; [exact I3|]. rewrite (size_delete_old _ _ u) by congruence. lia.
  - intros j y Hy. destruct (I4 j y Hy) as [[v Hv] Hn]. split; [|done]. exists v. apply lookup_delete_Some. split; [|done]. congruence.
Qed.

(** ** Attention rates *)

Lemma old_user_ok n s st id u v :
  platform_ok_but n s st -> pl_users s !! id = Some v -> platform_ok_but n (set_users s (<[id := u]> (pl_users s))) st.
Proof.
  intros [H1 H2 H3 H4 H5 H6 H7 H8] Hid. constructor; simpl; try done; [by rewrite (size_insert_old _ _ _ v)|].
  intros i y Hy. destruct (H4 i y Hy) as [Hu Hn]. split; [|done]. by apply lookup_insert_is_Some'; right.
Qed.

Lemma old_account_ok n s st id a b :
  platform_ok_but n s st -> pl_accounts s !! id = Some a -> ac_name b = ac_name a ->
  ac_last_paid_step_number b = ac_last_paid_step_number a ->
  platform_ok_but n (set_accounts s (<[id := b]> (pl_accounts s))) st.
Proof.
  intros [H1 H2 H3 H4 H5 H6 H7 H8] Hid Hn Hp. constructor; simpl; try done.
  - by rewrite (size_insert_old _ _ _ a).
  - intros i y Hy. apply lookup_insert_Some in Hy as [[<- <-]|[_ Hy]]; [rewrite Hn; by apply H4|by apply H4].
  - intros i y Hy. apply lookup_insert_Some in Hy as [[<- <-]|[_ Hy]]; [rewrite Hp; by apply (H8 id)|by apply (H8 i)].
Qed.

Lemma update_rate_ok s st0 st b w r s' w' :
  platform_ok_but (rt_new w) s st -> 0 <= rt_new w -> rt_new w + 1 < 2 ^ 32 -> update_rate cx s st0 b w r = Ok (s', w') ->
  exists st', platform_ok_but (rt_new w') s' st' /\ counted st st' /\ rt_new w <= rt_new w' <= rt_new w + 1.
Proof.
  intros Hok H0 Hb E. unfold update_rate in E. destruct (pl_users s !! ar_id r) as [u|] eqn:Hu.
  - apply bind_Ok in E as ([] & _ & E). cbv zeta in E. injection E as E. exists st.
    apply (old_user_ok _ _ _ (ar_id r) (rated_user st0 r) u) in Hok; [|done]. simpl in E.
    destruct (pl_accounts s !! ar_id r) as [a|] eqn:Ha; injection E as <- <-; simpl; (split; [|split; [by constructor|lia]]); [|done].
    by apply (old_account_ok _ _ _ (ar_id r) a (set_stat_diff a (ar_stat_diff r))) in Hok.
  - apply bind_Ok in E as ([] & _ & E). cbv zeta in E. apply bind_Ok in E as (s1 & E1 & E). injection E as <- <-. simpl.
    apply (new_user_ok _ _ _ (ar_id r) (rated_user st0 r)) in Hok; [|done].
    destruct (addaccount_ok _ _ _ _ _ _ _ _ _ _ Hok E1) as (st' & Hok' & C). exists st'.
    rewrite u32_small by (unfold is_u32; lia). split; [done|]. split; [done|lia].
Qed.

Lemma update_rates_ok l : forall s st0 st b w s' w',
  platform_ok_but (rt_new w) s st -> 0 <= rt_new w -> rt_new w + Z.of_nat (length l) < 2 ^ 32 ->
  update_rates cx s st0 b w l = Ok (s', w') -> exists st', platform_ok_but (rt_new w') s' st' /\ counted st st' /\ 0 <= rt_new w'.
Proof.
  induction l as [|r l IH]; intros s st0 st b w s' w' Hok H0 Hb E; [injection E as <- <-; exists st; split; [done|]; by split|].
  apply bind_Ok in E as ([s1 w1] & E1 & E). simpl length in Hb.
  destruct (update_rate_ok _ _ _ _ _ _ _ _ Hok H0 ltac:(lia) E1) as (st1 & Hok1 & C1 & Hw).
  destruct (IH _ _ _ _ _ _ _ Hok1 ltac:(lia) ltac:(lia) E) as (st' & Hok' & C' & ?). exists st'. split; [done|]. split; [by etrans|done].
Qed.

Lemma add_totals_ok s st w s' :
  platform_ok_but (rt_new w) s st -> add_totals s w = Ok s' -> exists st', platform_ok s' st' /\ counted st st'.
Proof.
  intros Hok E. apply bind_Ok in E as (st1 & H1%load_Ok & E). injection E as <-.
  assert (st1 = st) as -> by (pose proof (po_row _ _ _ Hok); congruence).
  eexists. split; [eapply (count_users 0 (rt_new w)); [exact Hok|..]|]; by constructor.
Qed.

Lemma updatearmult_ok s st l b s' :
  platform_ok s st -> Z.of_nat (length l) < 2 ^ 32 -> updatearmult cx s l b = Ok s' -> exists st', platform_ok s' st' /\ counted st st'.
Proof.
  intros Hok Hl E. apply bind_Ok in E as ([] & _ & E). apply bind_Ok in E as (st1 & H1%load_Ok & E). apply bind_Ok in E as ([] & _ & E).
  apply bind_Ok in E as ([s1 w] & E1 & E). destruct (update_rates_ok l s st1 st b no_totals s1 w Hok ltac:(done) Hl E1) as (st2 & Hok2 & C2 & _).
  destruct (add_totals_ok _ _ _ _ Hok2 E) as (st' & Hok' & C'). exists st'. split; [done|by etrans].
Qed.

Lemma updatear_mult s r b : updatear cx s r b = updatearmult cx s [r] b.
Proof.
  unfold updatear, updatearmult. destruct (px_require_auth _ _) as [[]|]; [|done]. destruct (load s) as [st|]; [|done].
  cbn [mbind result_bind]. destruct (snax_assert _) as [[]|]; [|done]. cbn [mbind result_bind update_rates].
  by destruct (update_rate cx s st b no_totals r) as [[s1 w]|].
Qed.

(** ** Payments *)

Lemma accounts_from_spec m lower :
  NoDup (accounts_from m lower).*1 /\ forall id a, (id, a) ∈ accounts_from m lower <-> m !! id = Some a /\ lower <= ac_name a.
Proof.
  unfold accounts_from. split.
  - rewrite merge_sort_Permutation. apply (sublist_NoDup _ (map_to_list m).*1); [apply NoDup_fst_map_to_list|].
    induction (map_to_list m) as [|x l IH]; simpl; [done|]. destruct (lower <=? _); simpl; by constructor.
  - intros id a. rewrite merge_sort_Permutation, list_elem_of_In, filter_In, <- list_elem_of_In, elem_of_map_to_list. simpl. by rewrite Z.leb_le.
Qed.

(** An account takes part in the payments of a round if it is active and the rate of
    its user was updated in the round and is above 0.1. *)
Definition takes_part (st : platform_state) (u : user) (a : account) : bool :=
  dlt (literal 1 10) (us_attention_rate u) && (us_last_attention_rate_updated_step_number u =? ps_step_number st) && ac_active a.

(** Such an account is to get the [n]-th part of the supply, where [n] is the number
    of times the rate of its user goes into the total rate, without a fraction;
    nothing if the supply does not exceed [n]. *)
Definition part (st : platform_state) (supply : Z) (u : user) (a : account) : Z :=
  if takes_part st u a then
    match to_int64 (ddiv (ps_total_attention_rate st) (us_attention_rate u)) with
    | Ok n => if n <? supply then Z.quot supply n else 0
    | Err _ => 0
    end
  else 0.

(** The payments to a list of accounts: each its part, as long as tokens are left. *)
Fixpoint payouts (st : platform_state) (users : gmap Z user) (supply left : Z) (rows : list (Z * account)) : list (account * Z) :=
  match rows with
  | [] => []
  | (id, a) :: rows =>
      let q := match users !! id with Some u => Z.min (part st supply u a) left | None => 0 end in
      if 0 <? q then (a, q) :: payouts st users supply (left - q) rows else payouts st users supply left rows
  end.
Definition total_of (l : list (account * Z)) : Z := foldr (fun x z => x.2 + z) 0 l.

Definition transfers (symbol : Z) (l : list (account * Z)) : list platform_effect :=
  (fun x => pay (px_self cx) (ac_name x.1) (mk_asset x.2 symbol) []) <$> l.

Lemma payouts_total st users supply rows : forall left, 0 <= left -> 0 <= total_of (payouts st users supply left rows) <= left.
Proof.
  unfold total_of. induction rows as [|[id a] rows IH]; intros left Hl; simpl; [lia|]. set (q := match users !! id with Some _ => _ | None => _ end).
  assert (q <= left) by (unfold q; destruct (users !! id); lia). destruct (Z.ltb_spec 0 q); [simpl; specialize (IH (left - q)); lia|by apply IH].
Qed.

Lemma token_amount_part st u a total cb q :
  token_amount st u (ac_active a) total cb = Ok q ->
  (0 < amount q <-> 0 < Z.min (part st (amount total) u a) (amount cb)) /\ (0 < amount q -> amount q = Z.min (part st (amount total) u a) (amount cb)).
Proof.
  unfold token_amount, part, takes_part. intros E. destruct (_ && ac_active a); [|injection E as <-; simpl; lia]. apply bind_Ok in E as (n & Hn & E). rewrite Hn.
  destruct (n <? amount total); [|injection E as <-; simpl; lia]. apply bind_Ok in E as (t & Ht & E). injection E as <-.
  unfold asset_div, snax_assert in Ht. inv_ok. simpl in *. destruct (Z.ltb_spec (amount cb) (Z.quot (amount total) n)); simpl; lia.
Qed.

(** What the loop of the payments does. *)
Record paid_out (s : platform_tables) (st : platform_state) (total cb sent : asset) (cnt count : Z) (rows : list (Z * account))
    (s' : platform_tables) (cb' sent' : asset) (cnt' : Z) (visited : list (Z * account)) : Prop := {
  pp_visited : exists rest, rows = visited ++ rest /\ (rest = [] \/ Z.of_nat (length visited) = count);
  pp_unpaid : Forall (fun x => ac_last_paid_step_number x.2 < ps_step_number st) visited;
  pp_state : pl_state s' = pl_state s /\ pl_users s' = pl_users s /\ pl_history s' = pl_history s /\ pl_transfers s' = pl_transfers s;
  pp_accounts : pl_accounts s' = foldl (fun m x => <[x.1 := set_paid x.2 (ps_step_number st)]> m) (pl_accounts s) visited;
  pp_out : pl_out s' = pl_out s ++ transfers (symbol cb) (payouts st (pl_users s) (amount total) (amount cb) visited);
  pp_left : amount cb' = amount cb - total_of (payouts st (pl_users s) (amount total) (amount cb) visited);
  pp_sent : amount sent' - amount sent = amount cb - amount cb' /\ symbol cb' = symbol cb /\ symbol sent' = symbol sent;
  pp_count : cnt' = u32 (cnt + Z.of_nat (length visited))
}.

Lemma pay_accounts_Ok rows : forall s st total cb sent cnt count s' cb' sent' cnt',
  Forall (fun x => ac_name x.2 <> 0) rows -> is_u32 cnt -> 0 <= count ->
  pay_accounts cx s st total cb sent cnt count rows = Ok (s', cb', sent', cnt') ->
  exists visited, paid_out s st total cb sent cnt count rows s' cb' sent' cnt' visited.
Proof.
  induction rows as [|[id a] rows IH]; intros s st total cb sent cnt count s' cb' sent' cnt' Hn Hc H0 E; simpl in E.
  { injection E as <- <- <- <-. exists []. constructor; unfold transfers, total_of; simpl; rewrite ?app_nil_r; try done; [by exists []; auto|lia|split_and!; (done || lia)|].
    by rewrite Z.add_0_r, u32_small. }
  apply Forall_cons in Hn as [Hn Hns]. simpl in Hn. destruct (Z.eqb_spec count 0) as [->|Hcz].
  { injection E as <- <- <- <-. exists []. constructor; unfold transfers, total_of; simpl; rewrite ?app_nil_r; try done; [by eexists; split; [|right]|lia|split_and!; (done || lia)|].
    by rewrite Z.add_0_r, u32_small. }
  apply bind_Ok in E as (u & Hu%of_option_Ok & E). destruct (Z.eqb_spec (ac_name a) 0) as [|_]; [done|].
  apply bind_Ok in E as ([] & Hp%assert_Ok & E). apply Z.ltb_lt in Hp. apply bind_Ok in E as (q & Hq & E).
  apply bind_Ok in E as ([[s1 cb1] sent1] & E1 & E). apply token_amount_part in Hq as [Hpos Hval]. set (m := Z.min (part st (amount total) u a) (amount cb)) in *.
  assert (pl_state s1 = pl_state s /\ pl_users s1 = pl_users s /\ pl_history s1 = pl_history s /\ pl_transfers s1 = pl_transfers s /\
    pl_accounts s1 = pl_accounts s /\ pl_out s1 = pl_out s ++ (if 0 <? m then transfers (symbol cb) [(a, m)] else []) /\
    amount cb1 = amount cb - (if 0 <? m then m else 0) /\ amount sent1 - amount sent = amount cb - amount cb1 /\ symbol cb1 = symbol cb /\ symbol sent1 = symbol sent)
    as (F1 & F2 & F3 & F4 & F5 & F6 & B1 & B2 & B3 & B4).
  { destruct (Z.ltb_spec 0 (amount q)) as [Hq|Hq].
    - rewrite (proj2 (Z.ltb_lt 0 m)) by (by apply Hpos). apply bind_Ok in E1 as (c1 & Hc1 & E1). apply bind_Ok in E1 as (se & Hse & E1). injection E1 as <- <- <-.
      apply asset_sub_Ok in Hc1 as (Hy & Hc1 & Hy1). apply asset_add_Ok in Hse as (_ & Hse & Hy2). specialize (Hval Hq). split_and!; try done; try lia.
      unfold transfers. simpl. rewrite <- Hval, <- Hy. by destruct q.
    - rewrite (proj2 (Z.ltb_ge 0 m)) by lia. injection E1 as <- <- <-. rewrite app_nil_r. split_and!; (done || lia). }
  apply IH in E as (visited & [(rest & V1 & V2) V3 (G1 & G2 & G3 & G4) G5 G6 G7 (G8 & G9 & G10) G11]); [|done|apply u32_is_u32|lia].
  simpl in *. rewrite F2, B3 in G6. rewrite F2 in G7. exists ((id, a) :: visited). constructor; simpl; rewrite ?Hu; fold m.
  - exists rest. simpl. split; [congruence|]. destruct V2 as [->|V2]; [by left|right; lia].
  - by constructor.
  - split_and!; congruence.
  - rewrite G5. by rewrite F5.
  - rewrite G6, F6, B1, <- app_assoc. f_equal. destruct (0 <? m); [done|]. by rewrite Z.sub_0_r.
  - rewrite G7, B1. destruct (0 <? m); [unfold total_of; simpl; lia|]. rewrite Z.sub_0_r. done.
  - split_and!; (lia || congruence).
  - rewrite G11. unfold u32, wrap. rewrite Zplus_mod_idemp_l. f_equal. lia.
Qed.

(** Rows that are visited once are marked. *)
Lemma marked_lookup step l : forall (m : gmap Z account) id,
  NoDup l.*1 -> Forall (fun x => m !! x.1 = Some x.2) l ->
  foldl (fun m x => <[x.1 := set_paid x.2 step]> m) m l !! id =
    (fun a => if bool_decide (id ∈ l.*1) then set_paid a step else a) <$> m !! id.
Proof.
  induction l as [|[i a] l IH]; intros m id Hnd Hm; simpl; [by destruct (m !! id)|].
  apply NoDup_cons in Hnd as [Hi Hnd]. apply Forall_cons in Hm as [Ha Hm]. simpl in *.
  rewrite IH; [|done|].
  - destruct (decide (id = i)) as [->|Hne].
    + rewrite lookup_insert_eq, Ha. simpl. rewrite (bool_decide_false (i ∈ l.*1)), bool_decide_true by (done || by left). done.
    + rewrite lookup_insert_ne by done. destruct (m !! id); [|done]. simpl. f_equal.
      erewrite (bool_decide_ext (id ∈ l.*1)); [reflexivity|]. rewrite elem_of_cons. naive_solver.
  - apply Forall_forall. intros [j b] Hj. rewrite Forall_forall in Hm. simpl. rewrite lookup_insert_ne; [by apply (Hm (j, b))|].
    intros <-. apply Hi. by apply (list_elem_of_fmap_2' fst _ (i, b)).
Qed.

Lemma size_marked step l : forall (m : gmap Z account),
  NoDup l.*1 -> Forall (fun x => m !! x.1 = Some x.2) l -> size (foldl (fun m x => <[x.1 := set_paid x.2 step]> m) m l) = size m.
Proof.
  intros m Hnd Hm. rewrite <- !size_dom. f_equal. apply set_eq. intros id. rewrite !elem_of_dom, marked_lookup by done.
  by rewrite fmap_is_Some.
Qed.

(** The state row after the payments of an action. *)
Lemma unlock_update_Ok s cb sent cnt s' st :
  pl_state s = Some st -> unlock_update cx s cb sent cnt = Ok s' ->
  exists st' r, pl_state s' = Some st' /\ ps_updating st' = 0 /\ ps_step_number st' = u16 (ps_step_number st + 1) /\
    ps_registered_user_count st' = ps_registered_user_count st /\ ps_total_user_count st' = ps_total_user_count st /\
    pl_history s !! ps_step_number st = None /\ pl_history s' = <[ps_step_number st := r]> (pl_history s) /\
    pl_users s' = pl_users s /\ pl_accounts s' = pl_accounts s /\ pl_transfers s' = pl_transfers s /\
    amount (ps_round_supply st') = 0 /\ amount (ps_sent_amount st') = amount (ps_sent_amount st) + amount sent /\
    pl_out s' = pl_out s ++ (if 0 <? amount cb then [pay (px_self cx) snax_name cb []] else []).
Proof.
  intros Hst E. apply bind_Ok in E as ([] & _ & E). apply bind_Ok in E as (st1 & H1%load_Ok & E).
  assert (st1 = st) as -> by congruence. apply bind_Ok in E as (x & Hx & E). cbv zeta in E. apply bind_Ok in E as (s1 & E1 & E).
  apply bind_Ok in E as (y & Hy & E). apply asset_add_Ok in Hx as (_ & Hx & _). apply asset_sub_Ok in Hy as (_ & Hy & _).
  destruct (pl_history s !! ps_step_number st) eqn:Hh; [done|]. injection E1 as <-. injection E as <-. eexists _, _.
  destruct (0 <? amount cb); simpl; rewrite ?app_nil_r; split_and!; (done || (simpl; lia)).
Qed.

Definition started (st : platform_state) (balance : asset) : platform_state :=
  if (amount (ps_round_supply st) =? 0) && (0 <? amount balance)
  then set_round st balance (ps_sent_amount st) (ps_round_sent_account_count st) (ps_round_updated_account_count st) else st.

Lemma started_same st balance :
  let st1 := started st balance in
  ps_updating st1 = ps_updating st /\ ps_step_number st1 = ps_step_number st /\
  ps_registered_user_count st1 = ps_registered_user_count st /\ ps_total_user_count st1 = ps_total_user_count st /\
  ps_total_attention_rate st1 = ps_total_attention_rate st /\ ps_sent_amount st1 = ps_sent_amount st /\
  ps_round_sent_account_count st1 = ps_round_sent_account_count st.
Proof. unfold started. by destruct (_ && _). Qed.

Lemma sendpayments_Ok s t st lower count s' :
  platform_ok s st -> 0 <= count -> sendpayments cx s t lower count = Ok s' ->
  exists balance none s1 cb' sent' cnt' visited,
    let st1 := started st balance in
    ps_updating st = 3 /\ platform_balance s t (px_self cx) (symbol (ps_round_supply st)) = Ok balance /\ amount none = 0 /\
    paid_out (set_state s st1) st1 (ps_round_supply st1) balance none 0 count
      (accounts_from (pl_accounts s) (if lower =? 0 then 1 else lower)) s1 cb' sent' cnt' visited /\
    if ps_registered_user_count st <=? u64 (ps_round_sent_account_count st + cnt') then unlock_update cx s1 cb' sent' cnt' = Ok s'
    else exists st', s' = set_state s1 st' /\ ps_updating st' = 3 /\ ps_step_number st' = ps_step_number st /\
      ps_registered_user_count st' = ps_registered_user_count st /\ ps_total_user_count st' = ps_total_user_count st.
Proof.
  intros Hok H0 E. unfold sendpayments in E. apply bind_Ok in E as ([] & _ & E). apply bind_Ok in E as (st0 & Hst%load_Ok & E).
  assert (st0 = st) as -> by (pose proof (po_row _ _ _ Hok); congruence). apply bind_Ok in E as ([] & Hu%assert_Ok & E). apply Z.eqb_eq in Hu.
  cbv zeta in E. apply bind_Ok in E as (balance & Hb & E). apply bind_Ok in E as (none & Hnone & E). fold (started st balance) in E.
  assert (amount none = 0) as Hz by (apply asset_sub_Ok in Hnone as (_ & ? & _); lia).
  assert ((if (amount (ps_round_supply st) =? 0) && (0 <? amount balance) then set_state s (started st balance) else s) = set_state s (started st balance)) as Hs.
  { unfold started. destruct (_ && _); [done|]. destruct s; simpl in *. by subst. }
  rewrite Hs in E. clear Hs. apply bind_Ok in E as ([[[s1 cb'] sent'] cnt'] & E1 & E). rewrite if_negb in E1.
  destruct (started_same st balance) as (S1 & S2 & S3 & S4 & S5 & S6 & S7). rewrite S3, S7 in E.
  destruct (accounts_from_spec (pl_accounts s) (if lower =? 0 then 1 else lower)) as [_ Hin].
  apply pay_accounts_Ok in E1 as (visited & HP); [|..|done].
  - exists balance, none, s1, cb', sent', cnt', visited. cbv zeta. split_and!; try done. destruct (_ <=? _); [done|].
    apply bind_Ok in E as (x & _ & E). injection E as <-. eexists. split; [done|]. simpl. by rewrite S1, S2, S3, S4.
  - apply Forall_forall. intros [id a] [Ha _]%Hin. by apply (po_known _ _ _ Hok id).
  - by unfold is_u32.
Qed.

(** The accounts that are visited are rows of the table. *)
Lemma visited_rows s m lower rest visited :
  accounts_from m lower = visited ++ rest -> pl_accounts s = m ->
  NoDup visited.*1 /\ Forall (fun x => pl_accounts s !! x.1 = Some x.2) visited.
Proof.
  intros Hv <-. destruct (accounts_from_spec (pl_accounts s) lower) as [Hnd Hin]. rewrite Hv in Hnd, Hin. split.
  - rewrite fmap_app in Hnd. by apply NoDup_app in Hnd as [? _].
  - apply Forall_forall. intros [id a] Hx. apply Hin. apply elem_of_app. by left.
Qed.

Lemma part_started st balance supply u a : part (started st balance) supply u a = part st supply u a.
Proof. destruct (started_same st balance) as (_ & S2 & _ & _ & S5 & _). unfold part, takes_part. by rewrite S2, S5. Qed.

Lemma payouts_started st balance users supply rows : forall left, payouts (started st balance) users supply left rows = payouts st users supply left rows.
Proof.
  induction rows as [|[id a] rows IH]; intros left; simpl; [done|]. destruct (users !! id) as [u|]; [rewrite part_started|]; by rewrite !IH.
Qed.

(** C38: every successful [sendpayments] visits the next accounts of the index,
    none of which was paid in this round, and marks them. The transfers it sends
    are exactly these: in the order of the index, each visited account that is
    active and whose user's attention rate was updated in this round and is above
    0.1 gets the [n]-th part of the supply of the round, where [n] is the quotient
    of the total rate by the user's without its fraction, or what is left of the
    balance if that is less, and no transfer if that is nothing; when the round
    ends the rest of the balance goes back. The payments never exceed the
    balance. *)
Theorem payments_exact s t st lower count s' :
  platform_ok s st -> 0 <= count < 2 ^ 64 -> sendpayments cx s t lower count = Ok s' ->
  exists st' balance visited,
    let supply := if (amount (ps_round_supply st) =? 0) && (0 <? amount balance) then balance else ps_round_supply st in
    let pays := payouts st (pl_users s) (amount supply) (amount balance) visited in
    let rest := amount balance - total_of pays in
    pl_state s' = Some st' /\
    platform_balance s t (px_self cx) (symbol (ps_round_supply st)) = Ok balance /\
    (exists later, accounts_from (pl_accounts s) (if lower =? 0 then 1 else lower) = visited ++ later /\
       (later = [] \/ Z.of_nat (length visited) = count)) /\
    Forall (fun x => ac_last_paid_step_number x.2 < ps_step_number st) visited /\
    (forall id, pl_accounts s' !! id =
       (fun a => if bool_decide (id ∈ visited.*1) then set_paid a (ps_step_number st) else a) <$> pl_accounts s !! id) /\
    (ps_updating st' = 3 /\ ps_step_number st' = ps_step_number st \/
     ps_updating st' = 0 /\ ps_step_number st' = u16 (ps_step_number st + 1)) /\
    pl_out s' = pl_out s ++ transfers (symbol balance) pays ++
      (if (ps_updating st' =? 0) && (0 <? rest) then [pay (px_self cx) snax_name (mk_asset rest (symbol balance)) []] else []) /\
    (0 <= amount balance -> 0 <= rest).
Proof.
  intros Hok [H0 _] E. destruct (sendpayments_Ok _ _ _ _ _ _ Hok H0 E) as (balance & none & s1 & cb' & sent' & cnt' & visited & Hu & Hb & Hz & HP & Hend).
  destruct HP as [(later & V1 & V2) V3 (G1 & G2 & G3 & G4) G5 G6 G7 (G8 & G9 & G10) G11].
  destruct (started_same st balance) as (S1 & S2 & S3 & S4 & S5 & S6 & S7). rewrite S2 in V3, G5. rewrite payouts_started in G6, G7.
  assert (ps_round_supply (started st balance) = if (amount (ps_round_supply st) =? 0) && (0 <? amount balance) then balance else ps_round_supply st) as Hsup
    by (unfold started; by destruct (_ && _)). rewrite Hsup in G6, G7. change (pl_users (set_state s (started st balance))) with (pl_users s) in G6, G7.
  assert (exists st', pl_state s' = Some st' /\ pl_accounts s' = pl_accounts s1 /\
    (ps_updating st' = 3 /\ ps_step_number st' = ps_step_number st /\ pl_out s' = pl_out s1 \/
     ps_updating st' = 0 /\ ps_step_number st' = u16 (ps_step_number st + 1) /\
     pl_out s' = pl_out s1 ++ (if 0 <? amount cb' then [pay (px_self cx) snax_name cb' []] else []))) as (st' & R1 & R2 & R3).
  { destruct (_ <=? _).
    - apply (unlock_update_Ok _ _ _ _ _ (started st balance)) in Hend as (st' & r & T); [|by rewrite G1]. exists st'.
      destruct T as (T1 & T2 & T3 & _ & _ & _ & _ & _ & T4 & _ & _ & _ & T5). rewrite S2 in T3. split; [done|]. split; [done|]. by right.
    - destruct Hend as (st' & -> & T1 & T2 & _). exists st'. split; [done|]. split; [done|]. by left. }
  destruct (visited_rows s _ _ _ _ V1 eq_refl) as [Hnd Hrows].
  exists st', balance, visited. cbv zeta. split_and!; try done.
  - by exists later.
  - intros id. rewrite R2, G5. by apply marked_lookup.
  - destruct R3 as [(? & ? & _)|(? & ? & _)]; auto.
  - rewrite <- G7. destruct R3 as [(-> & _ & ->)|(-> & _ & ->)]; rewrite G6; simpl; [by rewrite app_nil_r|]. rewrite <- app_assoc. do 2 f_equal. destruct (0 <? amount cb'); [|done].
    rewrite <- G9. by destruct cb'.
  - intros Hb0. pose proof (payouts_total st (pl_users s) (amount (if (amount (ps_round_supply st) =? 0) && (0 <? amount balance) then balance else ps_round_supply st)) visited
      (amount balance) Hb0). lia.
Qed.

Lemma sendpayments_ok s t st lower count s' :
  platform_ok s st -> 0 <= count -> ps_step_number st + 1 < 2 ^ 16 -> sendpayments cx s t lower count = Ok s' ->
  exists st', platform_ok s' st' /\ advanced st st'.
Proof.
  intros Hok H0 Hst E.
  destruct (sendpayments_Ok _ _ _ _ _ _ Hok H0 E) as (balance & none & s1 & cb' & sent' & cnt' & visited & Hu & _ & _ & HP & Hend).
  destruct HP as [(rest & V1 & _) _ (G1 & G2 & G3 & _) G5 _ _ _ _]. simpl in G1, G2, G3, G5.
  destruct (started_same st balance) as (S1 & S2 & S3 & S4 & _). rewrite S2 in G5. destruct Hok as [H1 H2 H3 H4 H5 H6 H7 H8].
  destruct (visited_rows s _ _ _ _ V1 eq_refl) as [Hnd Hrows].
  assert (forall id a, pl_accounts s1 !! id = Some a -> exists b, pl_accounts s !! id = Some b /\ ac_name a = ac_name b /\
    ac_last_paid_step_number a <= ps_step_number st) as HA.
  { intros id a Ha. rewrite G5, marked_lookup in Ha by done. apply fmap_Some in Ha as (b & Hb & ->). exists b. destruct (H8 id b Hb) as [? _].
    by case_bool_decide. }
  assert (size (pl_accounts s1) = size (pl_accounts s)) as HS by (rewrite G5; by apply size_marked).
  assert (forall id a, pl_accounts s1 !! id = Some a -> is_Some (pl_users s1 !! id) /\ ac_name a <> 0) as HK.
  { intros id a Ha. destruct (HA _ _ Ha) as (b & Hb & -> & _). rewrite G2. by apply H4. }
  destruct (_ <=? _).
  - apply (unlock_update_Ok _ _ _ _ _ (started st balance)) in Hend as (st' & r & T1 & T2 & T3 & T4 & T5 & T6 & T7 & T8 & T9 & _); [|done].
    rewrite S2 in T3, T6, T7. assert (u16 (ps_step_number st + 1) = ps_step_number st + 1) as Hs by (apply Z.mod_small; lia).
    rewrite Hs in T3. exists st'. split; [constructor; rewrite ?T8, ?T9, ?T2, ?T3; try done|].
    + by rewrite T4, S3, HS.
    + by rewrite T5, S4, G2.
    + lia.
    + intros k. rewrite T7, G3, lookup_insert_is_Some'. rewrite H7. lia.
    + intros id a Ha. destruct (HA _ _ Ha) as (b & _ & _ & ?). lia.
    + constructor; rewrite ?T2, ?Hu; [constructor|]. rewrite T3. unfold finished. by rewrite Hu, T2.
  - destruct Hend as (st' & -> & T1 & T2 & T3 & T4). exists st'. split; [|apply same_phase_advanced; congruence].
    constructor; simpl; rewrite ?T1, ?T2, ?G3; try done; [by rewrite T3, HS|by rewrite T4, G2|].
    intros id a Ha. destruct (HA _ _ Ha) as (b & _ & _ & ?). split; [done|]. by intros [].
Qed.

Lemma set_state_ok s st st' :
  platform_ok s st -> ps_registered_user_count st' = ps_registered_user_count st -> ps_total_user_count st' = ps_total_user_count st ->
  ps_step_number st' = ps_step_number st -> 0 <= ps_updating st' <= 3 -> (ps_updating st = 3 -> ps_updating st' = 3) ->
  platform_ok (set_state s st') st'.
Proof.
  intros [H1 H2 H3 H4 H5 H6 H7 H8] Hr Ht Hs Hp H33. constructor; simpl; rewrite ?Hs; try done; try congruence.
  intros id a Ha. destruct (H8 id a Ha) as [? Hl]. split; [done|]. intros Hn. apply Hl. naive_solver.
Qed.

Lemma phase_ok s st s1 st' :
  platform_ok s st -> pl_users s1 = pl_users s -> pl_accounts s1 = pl_accounts s -> pl_history s1 = pl_history s -> pl_state s1 = pl_state s ->
  ps_registered_user_count st' = ps_registered_user_count st -> ps_total_user_count st' = ps_total_user_count st ->
  ps_step_number st' = ps_step_number st -> 0 <= ps_updating st' <= 3 -> ps_updating st <> 3 -> round_edge (ps_updating st) (ps_updating st') ->
  exists st'', platform_ok (set_state s1 st') st'' /\ advanced st st''.
Proof.
  intros Hok F1 F2 F3 F4 Hr Ht Hs Hp Hn He. exists st'. apply (frame_ok _ s s1) in Hok; [|done..]. split; [by eapply set_state_ok|].
  constructor; [done|]. rewrite Hs. unfold finished. destruct (Z.eqb_spec (ps_updating st) 3); [done|simpl; lia].
Qed.

Lemma resetupdate_ok s st u s' :
  platform_ok s st -> resetupdate cx s u = Ok s' -> exists st', platform_ok s' st' /\ advanced st st'.
Proof.
  intros Hok E. apply bind_Ok in E as ([] & _ & E). apply bind_Ok in E as (st0 & H0%load_Ok & E).
  assert (st0 = st) as -> by (pose proof (po_row _ _ _ Hok); congruence).
  apply bind_Ok in E as ([] & Hu%assert_Ok & E). apply bind_Ok in E as ([] & Hlt%assert_Ok & E). split_bool.
  apply bind_Ok in E as (st1 & E1 & E). injection E as <-.
  assert (ps_registered_user_count st1 = ps_registered_user_count st /\ ps_total_user_count st1 = ps_total_user_count st /\
    ps_step_number st1 = ps_step_number st) as (R1 & R2 & R3).
  { destruct (u =? 0); [|by injection E1 as <-]. apply bind_Ok in E1 as ([] & _ & E1). injection E1 as <-. by destruct (last_round s). }
  apply orb_true_iff in Hu as [Hu%Z.eqb_eq | Hu%Z.eqb_eq]; subst u; apply (phase_ok s st); simpl; try done; try lia; [by constructor; lia|].
  replace (ps_updating st) with 2 by lia. constructor.
Qed.

(** The rows of the accounts and the state stay. *)
Lemma quiet_ok s st s' :
  platform_ok s st -> pl_state s' = pl_state s -> pl_users s' = pl_users s -> pl_accounts s' = pl_accounts s -> pl_history s' = pl_history s ->
  exists st', platform_ok s' st' /\ advanced st st'.
Proof. intros Hok F1 F2 F3 F4. exists st. split; [by eapply frame_ok|by apply same_phase_advanced]. Qed.

Lemma transfersoc_frame s t f to q m s' :
  transfersoc cx s t f to q m = Ok s' ->
  pl_state s' = pl_state s /\ pl_users s' = pl_users s /\ pl_accounts s' = pl_accounts s /\ pl_history s' = pl_history s.
Proof.
  intros E. do 2 (apply bind_Ok in E as ([] & _ & E)). do 2 (apply bind_Ok in E as (? & _ & E)). apply bind_Ok in E as ([] & _ & E).
  assert (forall s2, store_transfer s f to q m = Ok s2 ->
    pl_state s2 = pl_state s /\ pl_users s2 = pl_users s /\ pl_accounts s2 = pl_accounts s /\ pl_history s2 = pl_history s) as Hst.
  { intros s2 E2. unfold store_transfer in E2. simpl in E2. destruct (pl_transfers s !! _); [apply bind_Ok in E2 as (? & _ & E2)|]; by injection E2 as <-. }
  destruct (pl_accounts s !! to) as [a|]; [|by apply Hst]. destruct (negb _); [by injection E as <-|by apply Hst].
Qed.

Lemma set_account_active_ok s st id b s' :
  platform_ok s st -> set_account_active s id b = Ok s' -> exists st', platform_ok s' st' /\ advanced st st'.
Proof.
  intros Hok E. apply bind_Ok in E as (a & Ha%of_option_Ok & E). injection E as <-. exists st.
  split; [by eapply old_account_ok|by apply same_phase_advanced].
Qed.

Lemma run_platform_action_ok s t st a s' :
  platform_ok s st -> sized a /\ keeps_state a -> ps_step_number st + 1 < 2 ^ 16 -> run_platform_action cx s t a = Ok s' ->
  exists st', platform_ok s' st' /\ advanced st st'.
Proof.
  intros Hok [Ha Hk] Hst E. pose proof (po_row _ _ _ Hok) as Hrow.
  assert ((exists st', platform_ok s' st' /\ counted st st') -> exists st', platform_ok s' st' /\ advanced st st') as Hc
    by (intros (st' & ? & ?); exists st'; split; [done|by apply counted_advanced]).
  destruct a; simpl in E, Ha, Hk.
  - apply bind_Ok in E as ([] & _ & E). apply bind_Ok in E as ([] & Hun%assert_Ok & _). by rewrite Hrow in Hun.
  - done.
  - do 4 (apply bind_Ok in E as ([] & _ & E)). injection E as <-. by eapply quiet_ok.
  - do 4 (apply bind_Ok in E as ([] & _ & E)). injection E as <-. by eapply quiet_ok.
  - apply bind_Ok in E as ([] & _ & E). apply bind_Ok in E as (st0 & H0%load_Ok & E). assert (st0 = st) as -> by congruence. apply bind_Ok in E as ([] & Hu%assert_Ok & E).
    apply Z.eqb_eq in Hu. injection E as <-. apply (phase_ok s st); rewrite ?Hu; try done. constructor.
  - apply bind_Ok in E as ([] & _ & E). apply bind_Ok in E as (st0 & H0%load_Ok & E). assert (st0 = st) as -> by congruence. apply bind_Ok in E as ([] & Hu%assert_Ok & E).
    apply Z.eqb_eq in Hu. injection E as <-. apply (phase_ok s st); rewrite ?Hu; try done. constructor.
  - by eapply resetupdate_ok.
  - apply bind_Ok in E as ([] & _ & E). apply bind_Ok in E as (st0 & H0%load_Ok & E). assert (st0 = st) as -> by congruence. apply bind_Ok in E as ([] & Hu%assert_Ok & E).
    apply Z.eqb_eq in Hu. injection E as <-. apply (phase_ok s st); rewrite ?Hu; try done. constructor.
  - by eapply sendpayments_ok.
  - do 2 (apply bind_Ok in E as ([] & _ & E)). by eapply set_account_active_ok.
  - do 2 (apply bind_Ok in E as ([] & _ & E)). by eapply set_account_active_ok.
  - apply Hc. apply (updatearmult_ok s st [r] add); [done|done|]. by rewrite <- updatear_mult.
  - apply Hc. by eapply updatearmult_ok.
  - apply Hc. by eapply dropuser_ok.
  - do 3 (apply bind_Ok in E as ([] & _ & E)). injection E as <-. by eapply quiet_ok.
  - apply Hc. destruct (dropaccount_ok _ _ _ _ _ Hok E) as (st' & ? & ? & _). by exists st'.
  - apply Hc. by eapply addaccount_ok.
  - do 2 (apply bind_Ok in E as ([] & _ & E)). apply Hc. by eapply add_each_ok.
  - apply transfersoc_frame in E as (? & ? & ? & ?). by eapply quiet_ok.
Qed.

(** ** The payments of a round can be completed *)

(** The share of an account can be computed. *)
Definition payable (st : platform_state) (u : user) (a : account) : Prop :=
  dlt (literal 1 10) (us_attention_rate u) = true -> us_last_attention_rate_updated_step_number u = ps_step_number st ->
  ac_active a = true -> exists p, to_int64 (ddiv (ps_total_attention_rate st) (us_attention_rate u)) = Ok p /\ p <> 0.

Lemma token_amount_total st u a total cb :
  payable st u a -> amount total <> INT64_MIN -> symbol cb = symbol total ->
  exists q, token_amount st u (ac_active a) total cb = Ok q /\ (0 < amount q -> symbol q = symbol total).
Proof.
  intros Hp Hm Hs. unfold token_amount. destruct (dlt _ _) eqn:Hr; simpl; [|eexists; split; [done|simpl; lia]].
  destruct (Z.eqb_spec (us_last_attention_rate_updated_step_number u) (ps_step_number st)) as [Hst|]; simpl; [|eexists; split; [done|simpl; lia]].
  destruct (ac_active a) eqn:Ha; [|eexists; split; [done|simpl; lia]]. destruct (Hp Hr Hst Ha) as (p & -> & Hp0). cbn [mbind result_bind].
  destruct (p <? amount total); [|eexists; split; [done|simpl; lia]]. unfold asset_div, snax_assert.
  rewrite (proj2 (Z.eqb_neq p 0)), (proj2 (Z.eqb_neq (amount total) INT64_MIN)) by done. simpl. eexists. split; [done|]. by destruct (_ <? _).
Qed.

Lemma plat_asset_sub_in a b : symbol b = symbol a -> 0 <= amount b <= amount a -> amount a <= max_amount ->
  exists c, asset_sub a b = Ok c /\ amount c = amount a - amount b /\ symbol c = symbol a.
Proof.
  intros Hs Hb Ha. unfold max_amount in *. unfold asset_sub, snax_assert, max_amount. rewrite (proj2 (Z.eqb_eq _ _) Hs), checked_i64_in by (unfold is_i64; lia).
  cbn [mbind result_bind SNAX_ASSERT]. do 2 (case Z.leb_spec; [intros _|lia]; cbn [mbind result_bind]). by eexists.
Qed.

Lemma plat_asset_add_in a b : symbol b = symbol a -> 0 <= amount b -> 0 <= amount a -> amount a + amount b <= max_amount ->
  exists c, asset_add a b = Ok c /\ amount c = amount a + amount b /\ symbol c = symbol a.
Proof.
  intros Hs Hb Ha Hab. unfold max_amount in *. unfold asset_add, snax_assert, max_amount. rewrite (proj2 (Z.eqb_eq _ _) Hs), checked_i64_in by (unfold is_i64; lia).
  cbn [mbind result_bind SNAX_ASSERT]. do 2 (case Z.leb_spec; [intros _|lia]; cbn [mbind result_bind]). by eexists.
Qed.

Lemma pay_accounts_total st total rows : forall s cb sent cnt count,
  Forall (fun x => ac_name x.2 <> 0 /\ ac_last_paid_step_number x.2 < ps_step_number st /\
    exists u, pl_users s !! x.1 = Some u /\ payable st u x.2) rows ->
  Z.of_nat (length rows) <= count -> 0 <= amount cb -> 0 <= amount sent -> amount sent + amount cb <= max_amount ->
  symbol cb = symbol total -> symbol sent = symbol total -> amount total <> INT64_MIN ->
  exists r, pay_accounts cx s st total cb sent cnt count rows = Ok r.
Proof.
  induction rows as [|[id a] rows IH]; intros s cb sent cnt count Hr Hl Hcb Hse Hsum Hy1 Hy2 Hm; [by eexists|].
  apply Forall_cons in Hr as [(Hn & Hp & u & Hu & Hpay) Hr]. simpl in Hn, Hp, Hu, Hl, Hpay. cbn [pay_accounts].
  rewrite (proj2 (Z.eqb_neq count 0)) by lia. rewrite Hu. cbn [of_option mbind result_bind].
  rewrite (proj2 (Z.eqb_neq _ _) Hn), (proj2 (Z.ltb_lt _ _) Hp). cbn [snax_assert SNAX_ASSERT mbind result_bind].
  destruct (token_amount_total st u a total cb Hpay Hm Hy1) as (q & Hq & Hqy). rewrite Hq. cbn [mbind result_bind].
  destruct (Z.ltb_spec 0 (amount q)) as [Hpos|Hneg].
  - apply token_amount_part in Hq as [_ Hle]. specialize (Hle Hpos).
    destruct (plat_asset_sub_in cb q) as (c1 & -> & C1 & C2); [by rewrite Hqy|lia|lia|]. cbn [mbind result_bind].
    destruct (plat_asset_add_in sent q) as (se & -> & S1 & S2); [by rewrite Hqy|lia|lia|lia|]. cbn [mbind result_bind mret result_ret].
    apply IH; simpl; try done; try lia; try congruence.
  - cbn [mbind result_bind mret result_ret]. apply IH; simpl; try done; lia.
Qed.

Lemma accounts_from_all m :
  (forall id a, m !! id = Some a -> 1 <= ac_name a) ->
  length (accounts_from m 1) = size m /\ forall id, id ∈ (accounts_from m 1).*1 <-> is_Some (m !! id).
Proof.
  intros Hm. destruct (accounts_from_spec m 1) as [Hnd Hin].
  assert (forall id, id ∈ (accounts_from m 1).*1 <-> is_Some (m !! id)) as Hids.
  { intros id. rewrite list_elem_of_fmap. split.
    - intros ([i a] & -> & [Ha _]%Hin). by exists a.
    - intros [a Ha]. exists (id, a). split; [done|]. apply Hin. split; [done|by eapply Hm]. }
  split; [|done]. rewrite <- size_dom, <- (length_fmap fst). rewrite <- (size_list_to_set (C := gset Z)) by done. f_equal. apply set_eq.
  intros id. by rewrite elem_of_list_to_set, Hids, elem_of_dom.
Qed.

Lemma sendpayments_start s t st balance lower count :
  platform_ok s st -> ps_updating st = 3 -> px_has_auth cx (px_self cx) = true ->
  platform_balance s t (px_self cx) (symbol (ps_round_supply st)) = Ok balance -> 0 <= amount (ps_round_supply st) <= max_amount ->
  exists none, amount none = 0 /\ symbol none = symbol (ps_round_supply st) /\ sendpayments cx s t lower count =
    let st1 := started st balance in
    '(s1, cb, sent, cnt) ← pay_accounts cx (set_state s st1) st1 (ps_round_supply st1) balance none 0 count
                             (accounts_from (pl_accounts s) (if lower =? 0 then 1 else lower));
    if ps_registered_user_count st <=? u64 (ps_round_sent_account_count st + cnt) then unlock_update cx s1 cb sent cnt
    else
      sent ← asset_add (ps_sent_amount st) sent;
      mret (set_state s1 (set_round st1 (ps_round_supply st1) sent (u64 (ps_round_sent_account_count st + cnt)) (ps_round_updated_account_count st1))).
Proof.
  intros Hok Hu Ha Hb Hr. destruct (plat_asset_sub_in (ps_round_supply st) (ps_round_supply st)) as (none & Hn & Hz & Hy); [done|lia|lia|].
  exists none. split; [lia|]. split; [done|]. unfold sendpayments, px_require_auth, load. rewrite Ha, (po_row _ _ _ Hok).
  cbn [of_option mbind result_bind SNAX_ASSERT]. rewrite Hu. cbn [snax_assert SNAX_ASSERT mbind result_bind Z.eqb Pos.eqb].
  rewrite Hb. cbn [mbind result_bind]. rewrite Hn. cbn [mbind result_bind]. cbv zeta. fold (started st balance). rewrite if_negb.
  destruct (started_same st balance) as (_ & _ & S3 & _ & _ & S6 & S7). rewrite S3, S6, S7.
  replace (if (amount (ps_round_supply st) =? 0) && (0 <? amount balance) then set_state s (started st balance) else s)
    with (set_state s (started st balance)); [done|].
  unfold started. destruct (_ && _); [done|]. pose proof (po_row _ _ _ Hok). destruct s; simpl in *. by subst.
Qed.

Lemma unlock_update_total s st cb sent cnt :
  pl_state s = Some st -> pl_history s !! ps_step_number st = None -> symbol sent = symbol (ps_sent_amount st) ->
  0 <= amount sent -> 0 <= amount (ps_sent_amount st) -> amount (ps_sent_amount st) + amount sent <= max_amount ->
  0 <= amount (ps_round_supply st) <= max_amount -> exists s', unlock_update cx s cb sent cnt = Ok s'.
Proof.
  intros Hst Hh Hy H1 H2 H3 H4. unfold unlock_update, require_initialized, load. rewrite Hst. rewrite bool_decide_true by done. cbn [snax_assert SNAX_ASSERT of_option mbind result_bind].
  destruct (plat_asset_add_in (ps_sent_amount st) sent) as (x & -> & _); [done|lia|lia|lia|]. cbn [mbind result_bind]. rewrite Hh. cbn [mbind result_bind mret result_ret].
  destruct (plat_asset_sub_in (ps_round_supply st) (ps_round_supply st)) as (y & -> & _); [done|lia|lia|]. by eexists.
Qed.

(** C39: after [nextround] the payments of the round can be completed in one action:
    if the quotients for the accounts that take part can be computed and the
    amounts are in range, [sendpayments] from the first account on succeeds, and
    its transfers are exactly these: every account, in the order of the names, gets
    its part of the supply of the round as long as the balance lasts, and what is
    left of the balance then goes back. All accounts are marked as paid, the round
    is recorded and the platform is open for the next one. *)
Theorem payments_complete s t st balance count :
  platform_ok s st -> ps_updating st = 3 -> ps_round_sent_account_count st = 0 -> ps_step_number st + 1 < 2 ^ 16 ->
  px_has_auth cx (px_self cx) = true ->
  (forall id a, pl_accounts s !! id = Some a -> ac_last_paid_step_number a < ps_step_number st /\ 1 <= ac_name a) ->
  (forall id a u, pl_accounts s !! id = Some a -> pl_users s !! id = Some u -> payable st u a) ->
  Z.of_nat (size (pl_accounts s)) <= count -> Z.of_nat (size (pl_accounts s)) < 2 ^ 32 ->
  platform_balance s t (px_self cx) (symbol (ps_round_supply st)) = Ok balance -> symbol balance = symbol (ps_round_supply st) ->
  symbol (ps_sent_amount st) = symbol (ps_round_supply st) -> 0 <= amount balance -> 0 <= amount (ps_round_supply st) <= max_amount ->
  0 <= amount (ps_sent_amount st) -> amount (ps_sent_amount st) + amount balance <= max_amount ->
  let supply := if (amount (ps_round_supply st) =? 0) && (0 <? amount balance) then balance else ps_round_supply st in
  let pays := payouts st (pl_users s) (amount supply) (amount balance) (accounts_from (pl_accounts s) 1) in
  let rest := amount balance - total_of pays in
  exists s' st', sendpayments cx s t 0 count = Ok s' /\ pl_state s' = Some st' /\ ps_updating st' = 0 /\
    ps_step_number st' = ps_step_number st + 1 /\ is_Some (pl_history s' !! ps_step_number st) /\
    pl_out s' = pl_out s ++ transfers (symbol balance) pays ++ (if 0 <? rest then [pay (px_self cx) snax_name (mk_asset rest (symbol balance)) []] else []) /\
    (forall id, id ∈ (accounts_from (pl_accounts s) 1).*1 <-> is_Some (pl_accounts s !! id)) /\
    forall id, pl_accounts s' !! id = (fun a => set_paid a (ps_step_number st)) <$> pl_accounts s !! id.
Proof.
  intros Hok Hu Hs0 Hst Ha Hacc Hpay Hc1 Hc2 Hb Hy1 Hy2 Hb0 Hr Hse0 Hse supply pays left.
  destruct (sendpayments_start s t st balance 0 count Hok Hu Ha Hb Hr) as (none & N1 & N2 & E). cbv zeta in E. simpl (0 =? 0) in E. cbv iota in E.
  destruct (accounts_from_all (pl_accounts s)) as [Hlen Hids]; [intros id a Hx; by apply (Hacc id)|].
  destruct (accounts_from_spec (pl_accounts s) 1) as [Hnd Hin]. set (rows := accounts_from (pl_accounts s) 1) in *.
  destruct (started_same st balance) as (S1 & S2 & S3 & S4 & S5 & S6 & S7).
  assert (symbol (ps_round_supply (started st balance)) = symbol (ps_round_supply st) /\
    0 <= amount (ps_round_supply (started st balance)) <= max_amount) as [Y1 Y2] by (unfold started; destruct (_ && _); simpl; split; (congruence || lia)).
  set (st1 := started st balance) in *.
  destruct (pay_accounts_total st1 (ps_round_supply st1) rows (set_state s st1) balance none 0 count) as [[[[s1 cb] sent] cnt] Er];
    [|lia|lia|lia|lia|congruence|congruence|unfold INT64_MIN; lia|].
  { apply Forall_forall. intros [id a] [Hx _]%Hin. simpl. destruct (Hacc id a Hx) as [Hlp Hn1]. rewrite S2. split; [lia|]. split; [done|].
    destruct (po_known _ _ _ Hok id a Hx) as [[u Hu2] _]. exists u. split; [done|]. specialize (Hpay id a u Hx Hu2). unfold payable in *. by rewrite S2, S5. }
  rewrite Er in E. cbn [mbind result_bind] in E.
  apply pay_accounts_Ok in Er as (visited & HP); [|apply Forall_forall; intros [id a] [Hx _]%Hin; by apply (po_known _ _ _ Hok id)|by unfold is_u32|lia].
  destruct HP as [(rest & V1 & V2) _ (G1 & _ & G3 & _) G5 G6 G7 (G10 & G12 & G13) G14]. simpl in G1, G3, G5. rewrite S2 in G5.
  assert (ps_round_supply st1 = supply) as Hsup by (unfold st1, started, supply; by destruct (_ && _)). unfold st1 in G6, G7. rewrite payouts_started in G6, G7. fold st1 in G6, G7.
  rewrite Hsup in G6, G7. change (pl_users (set_state s st1)) with (pl_users s) in G6, G7. change (pl_out (set_state s st1)) with (pl_out s) in G6.
  assert (rest = []) as -> by (destruct V2 as [|V2]; [done|]; apply (f_equal length) in V1; rewrite length_app in V1; apply nil_length_inv; lia).
  rewrite app_nil_r in V1. subst visited. fold rows in pays. fold pays in G6, G7.
  assert (0 <= total_of pays <= amount balance) as Hpt by (by apply payouts_total). rewrite Hlen, Z.add_0_l, u32_small in G14 by (unfold is_u32; lia).
  rewrite Hs0, G14, Z.add_0_l, (po_registered _ _ _ Hok), Z.leb_refl in E.
  destruct (unlock_update_total s1 st1 cb sent (Z.of_nat (size (pl_accounts s)))) as [s' Es'];
    [done|rewrite G3, S2; apply eq_None_not_Some; rewrite (po_history _ _ _ Hok); lia|congruence|lia|congruence|rewrite S6; lia|done|].
  pose proof Es' as (st' & r & T1 & T2 & T3 & _ & _ & _ & T7 & _ & T9 & _ & _ & _ & T13)%(fun x => unlock_update_Ok _ _ _ _ _ _ G1 x).
  rewrite S2 in T3, T7. exists s', st'. split; [congruence|]. split; [done|]. split; [done|].
  split; [rewrite T3; apply Z.mod_small; pose proof (po_step _ _ _ Hok); lia|]. split; [by rewrite T7, lookup_insert_eq|].
  split; [rewrite T13, G6, <- app_assoc; unfold left; rewrite <- G7; do 2 f_equal; destruct (0 <? amount cb); [rewrite <- G12; by destruct cb|done]|]. split; [done|].
  intros id. destruct (visited_rows s _ _ [] rows ltac:(by rewrite app_nil_r) eq_refl) as [Hnd2 Hrows].
  rewrite T9, G5, marked_lookup by done. destruct (pl_accounts s !! id) eqn:Hx; [|done]. simpl. rewrite bool_decide_true; [done|]. by apply Hids.
Qed.

End Invariant.
