(* ===== verification/PlatformRuns.v ===== *)
(** * Runs of the platform contract

    The actions of a platform together with the token contract, which carries out
    their payments, and with the contract that emits tokens for the platform. *)

From Stdlib Require Import ZArith Lia Bool.
From stdpp Require Import base numbers gmap sorting list.
From S2P Require Import Prelude Name BlockHeader Token TokenProofs Float64 SystemContract StakingProofs Staking StakingRuns.
From S2P Require Import RamMarket Producers Platforms Ledgers SystemRuns PlatformContract PlatformContractProofs.

Open Scope Z_scope.

(** ** The token dealer *)

(** What the platform asks of the account [dealer] it names: the actions
    [lockplatform] and [emitplatform]. [serves] tells which platforms it keeps
    apart from its own accounts. *)
Class TokenDealer (D : Type) := {
  dealer_ok : D -> Prop;
  serves : account_name -> Prop;
  deal_lock : platform_context -> account_name -> D -> token_tables -> account_name -> result (D * token_tables);
  deal_emit : platform_context -> account_name -> D -> token_tables -> account_name -> result (D * token_tables)
}.

(** A lock moves no tokens, and an emission none but those of the platform and of
    the system account. *)
Class DealerLaws (D : Type) `{TokenDealer D} := {
  lock_law cx dealer d t p d' t' :
    dealer_ok d -> deal_lock cx dealer d t p = Ok (d', t') -> dealer_ok d' /\ forall a n, balance t' a n = balance t a n;
  emit_law cx dealer d t p d' t' :
    dealer_ok d -> serves p -> deal_emit cx dealer d t p = Ok (d', t') ->
    dealer_ok d' /\ forall a n, a <> p -> a <> snax_name -> balance t' a n = balance t a n
}.

(** *** The system contract is a token dealer *)

Section SystemDealer.
Context `{CMath}.

Definition system_context_of (cx : platform_context) (p : account_name) : sys_context :=
  mk_sys_context snax_name (fun a => a =? p) (fun _ => false) (px_is_account cx) (px_now cx) (px_now cx * 1000000) (fun _ => -1).

(** An action of the system contract with what it sends; another account has no
    contract, and an action to it does nothing. *)
Definition system_deal (a : system_action) (cx : platform_context) (dealer : account_name) (s : system_state) (t : token_tables)
    (p : account_name) : result (system_state * token_tables) :=
  if dealer =? snax_name then system_transaction (system_context_of cx p) (s, t) a else mret (s, t).

#[export] Instance system_dealer : TokenDealer system_state := {|
  dealer_ok := system_ok;
  serves p := p ∉ reserved;
  deal_lock cx dealer s t p := system_deal (act_lockplatform p) cx dealer s t p;
  deal_emit cx dealer s t p := system_deal (act_emitplatform p) cx dealer s t p
|}.

(** The accounts an effect moves tokens of. *)
Definition touches (S : list account_name) (e : sys_effect) : Prop :=
  match e with
  | inline_transfer from to _ => from ∈ S /\ to ∈ S
  | inline_issue to _ => to ∈ S
  | _ => True
  end.

Lemma issue_other cx cx' t to q memo t' :
  run_action cx' (issue cx t to q memo) = Ok t' ->
  forall a m, m <> symbol_value_name (symbol q) -> balance t' a m = balance t a m.
Proof.
  intros E a m Hm. apply bind_Ok in E as ([t1 es] & E1 & E). apply issue_Ok in E1 as (st & s & _ & _ & Hq & _ & _ & _ & _ & Hadd & ->).
  apply add_balance_Ok in Hadd as (_ & _ & Ho1 & _); [|lia].
  assert (balance t1 a m = balance t a m) as H1 by (unfold balance; rewrite Ho1; [done|congruence]). rewrite <- H1.
  destruct (negb _); simpl in E; [|by injection E as <-]. apply bind_Ok in E as ([t2 es2] & E2 & E). injection E as <-.
  apply transfer_moves in E2 as (_ & (_ & _ & _ & Hr) & _). apply Hr; congruence.
Qed.

Lemma execute_others accts S es : forall t t' a n,
  Forall (touches S) es -> a ∉ S -> execute accts t es = Ok t' -> balance t' a n = balance t a n.
Proof.
  induction es as [|e es IH]; intros t t' a n Hf Ha E; [by injection E as <-|]. apply Forall_cons in Hf as [He Hf].
  destruct e; simpl in E, He; try (by eapply IH).
  - apply bind_Ok in E as ([t1 es1] & E1 & E). rewrite (IH _ _ _ n Hf Ha E). destruct He as [Hf1 Ht1].
    apply transfer_moves in E1 as (_ & (_ & _ & _ & Hr) & _). apply Hr; intros [=]; subst; by apply Ha.
  - apply bind_Ok in E as (t1 & E1 & E). rewrite (IH _ _ _ n Hf Ha E).
    destruct (decide (n = symbol_value_name (symbol quantity))) as [->|Hn]; [|by eapply issue_other].
    apply issue_moves in E1 as [Hb _]. rewrite Hb. destruct (Z.eqb_spec to a) as [->|]; [done|lia].
Qed.

Lemma emitplatform_out cx s t p s' :
  emitplatform cx s t p = Ok s' -> exists es, sy_out s' = sy_out s ++ es /\ Forall (touches [p; snax_name]) es.
Proof.
  intros E. unfold emitplatform in E. apply bind_Ok in E as ([] & _ & E). apply bind_Ok in E as (fb & _ & E). cbv zeta in E.
  apply bind_Ok in E as (found & _ & E). apply bind_Ok in E as (lim & _ & E). apply bind_Ok in E as (soft & _ & E).
  do 2 (apply bind_Ok in E as ([] & _ & E)). apply bind_Ok in E as (iss & _ & E). do 2 (apply bind_Ok in E as (? & _ & E)).
  apply bind_Ok in E as (q & _ & E). apply bind_Ok in E as (more & _ & E). apply bind_Ok in E as (i & _ & E).
  apply bind_Ok in E as (b1 & _ & E). apply bind_Ok in E as (b2 & _ & E). destruct (_ !! usec_of_slot _); [done|]. injection E as <-.
  destruct b1, b2; cbn [sy_out set_requests emit]; rewrite <- ?app_assoc; eexists; (split; [done || by rewrite app_nil_r|]);
    repeat constructor; set_solver.
Qed.

Lemma lockplatform_out cx s p s' : lockplatform cx s p = Ok s' -> sy_out s' = sy_out s.
Proof. intros E. apply bind_Ok in E as ([] & _ & E). cbv zeta in E. destruct (_ !! usec_of_slot _); [done|]. by injection E as <-. Qed.

Lemma system_deal_others a cx dealer s t p s' t' S b n :
  system_ok s -> (forall s1, run_system_action (system_context_of cx p) (clear_out s) t a = Ok s1 ->
    stepped 0 (clear_out s) s1 /\ Forall (touches S) (sy_out s1)) ->
  system_deal a cx dealer s t p = Ok (s', t') -> system_ok s' /\ (b ∉ S -> balance t' b n = balance t b n).
Proof.
  intros Hok Hrun E. unfold system_deal in E. destruct (dealer =? snax_name); [|by injection E as <- <-].
  apply clear_out_system in Hok as Hok0. unfold system_transaction in E. cbn [fst snd] in E. rewrite (constructor_idle _ _ t Hok0) in E.
  cbn [mbind result_bind] in E. apply bind_Ok in E as (s1 & E1 & E). apply bind_Ok in E as (t1 & Et & E). injection E as <- <-.
  destruct (Hrun _ E1) as [Hs Ht]. split; [apply Hs|]. intros Hb. by eapply execute_others.
Qed.

#[export] Instance system_dealer_laws : DealerLaws system_state.
Proof.
  constructor.
  - intros cx dealer d t p d' t' Hok E. split.
    + eapply (system_deal_others _ cx dealer d t p d' t' [] 0 0); [done| |exact E]. intros s1 E1. split.
      * eapply lockplatform_stepped; [by apply clear_out_system|exact E1].
      * apply lockplatform_out in E1 as ->. constructor.
    + intros a n. eapply (system_deal_others _ cx dealer d t p d' t' []); [done| |exact E|apply not_elem_of_nil]. intros s1 E1. split.
      * eapply lockplatform_stepped; [by apply clear_out_system|exact E1].
      * apply lockplatform_out in E1 as ->. constructor.
  - intros cx dealer d t p d' t' Hok Hp E.
    assert (forall s1, run_system_action (system_context_of cx p) (clear_out d) t (act_emitplatform p) = Ok s1 ->
      stepped 0 (clear_out d) s1 /\ Forall (touches [p; snax_name]) (sy_out s1)) as Hrun.
    { intros s1 E1. split; [eapply emitplatform_stepped; [by apply clear_out_system|exact Hp|exact E1]|].
      apply emitplatform_out in E1 as (es & -> & Hes). done. }
    split.
    + by eapply (system_deal_others _ cx dealer d t p d' t' _ 0 0); [| |exact E].
    + intros a n Ha Hs. eapply system_deal_others; [done|exact Hrun|exact E|]. set_solver.
Qed.

End SystemDealer.

(** ** Runs *)

Definition clear_platform (s : platform_tables) : platform_tables :=
  mk_platform_tables (pl_state s) (pl_users s) (pl_accounts s) (pl_creators s) (pl_history s) (pl_bindings s) (pl_transfers s) [].

Section Runs.
Context {D : Type} `{DealerLaws D}.

(** The inline actions, in order, each with the authority of its sender. *)
Fixpoint execute_platform (cx : platform_context) (d : D) (t : token_tables) (es : list platform_effect) : result (D * token_tables) :=
  match es with
  | [] => mret (d, t)
  | pay from to q memo :: es =>
      '(t, _) ← Token.transfer (mk_context 0 (fun a => a =? from) (px_is_account cx)) t from to q memo;
      execute_platform cx d t es
  | ask_lockplatform dealer p :: es => '(d, t) ← deal_lock cx dealer d t p; execute_platform cx d t es
  | ask_emitplatform dealer p :: es => '(d, t) ← deal_emit cx dealer d t p; execute_platform cx d t es
  end.

Definition platform_world : Type := platform_tables * D * token_tables.

Definition platform_transaction (cx : platform_context) (w : platform_world) (a : platform_action) : result platform_world :=
  let '(s, d, t) := w in
  s ← run_platform_action cx (clear_platform s) t a;
  '(d, t) ← execute_platform cx d t (pl_out s);
  mret (s, d, t).

Fixpoint platform_run (w : platform_world) (l : list (platform_context * platform_action)) : result platform_world :=
  match l with
  | [] => mret w
  | (cx, a) :: l => w ← platform_transaction cx w a; platform_run w l
  end.

(** *** Rounds *)

Lemma clear_platform_ok s st : platform_ok s st -> platform_ok (clear_platform s) st.
Proof. by apply frame_ok. Qed.

(** The number of the round stays below its bound during the run. *)
Definition round_fits (s : platform_tables) : bool :=
  match pl_state s with Some st => ps_step_number st <? 2 ^ 16 - 1 | None => true end.
Fixpoint rounds_fit (w : platform_world) (l : list (platform_context * platform_action)) : bool :=
  match l with
  | [] => true
  | (cx, a) :: l => round_fits w.1.1 && match platform_transaction cx w a with Ok w => rounds_fit w l | Err _ => true end
  end.

Lemma platform_run_ok l : forall s d t st s' d' t',
  platform_ok s st -> Forall (fun x => sized x.2 /\ keeps_state x.2) l -> rounds_fit (s, d, t) l = true ->
  platform_run (s, d, t) l = Ok (s', d', t') -> exists st', platform_ok s' st' /\ rtc advanced st st'.
Proof.
  induction l as [|[cx a] l IH]; intros s d t st s' d' t' Hok Hl Hst E.
  { injection E as <- _ _. by exists st. }
  apply Forall_cons in Hl as [Ha Hl]. cbn [fst snd] in Ha. cbn [rounds_fit] in Hst. apply andb_true_iff in Hst as [Hfit Hst].
  unfold round_fits in Hfit. cbn [fst] in Hfit. rewrite (po_row _ _ _ Hok) in Hfit. apply Z.ltb_lt in Hfit.
  apply bind_Ok in E as ([[s1 d1] t1] & E1 & E). rewrite E1 in Hst.
  apply bind_Ok in E1 as (s2 & E2 & E1). apply bind_Ok in E1 as ([d2 t2] & _ & E1). injection E1 as -> -> ->.
  destruct (run_platform_action_ok cx (clear_platform s) t st a s1 (clear_platform_ok _ _ Hok) Ha ltac:(lia) E2) as (st1 & Hok1 & A1).
  destruct (IH _ _ _ _ _ _ _ Hok1 Hl Hst E) as (st' & Hok' & R). exists st'. split; [done|]. by eapply rtc_l.
Qed.

Definition no_platform : platform_tables := mk_platform_tables None ∅ ∅ ∅ ∅ ∅ ∅ [].

Lemma initialize_ok cx name dealer sym prec airdrop s :
  initialize cx no_platform name dealer sym prec airdrop = Ok s -> exists st, platform_ok s st /\ ps_step_number st = 1.
Proof.
  intros E. do 3 (apply bind_Ok in E as ([] & _ & E)). apply bind_Ok in E as (x & _ & E). apply bind_Ok in E as (y & _ & E). injection E as <-.
  eexists. split; [constructor; simpl; [reflexivity|..]|done]; try done; try lia.
  intros k. simpl. split; [by intros [? ?]|lia].
Qed.


(** *** Transfers to users *)

(** The tokens with the name [n] recorded for users. *)
Definition owed_row (n : Z) (k : Z * Z) (q : asset) : Z := if k.1 =? n then amount q else 0.
Definition owed (s : platform_tables) (n : Z) : Z := map_sum (owed_row n) (pl_transfers s).

Definition names_ok (s : platform_tables) : Prop := forall k q, pl_transfers s !! k = Some q -> symbol_value_name (symbol q) = k.1.

(** What an effect does to the tokens of [snax.transf]. *)
Definition transf_flow (n : Z) (e : platform_effect) : Z :=
  match e with
  | pay from to q _ =>
      if symbol_value_name (symbol q) =? n then (if to =? snax_transf then amount q else 0) - (if from =? snax_transf then amount q else 0) else 0
  | _ => 0
  end.
Definition transf_flows (n : Z) (es : list platform_effect) : Z := foldr (fun e z => transf_flow n e + z) 0 es.

(** Effects that can be carried out, sent by the platform [self]. *)
Definition proper (self : account_name) (e : platform_effect) : Prop :=
  match e with
  | pay from to q _ => from <> to /\ 0 < amount q
  | ask_lockplatform _ p | ask_emitplatform _ p => p = self
  end.

Lemma transf_flows_app n l1 l2 : transf_flows n (l1 ++ l2) = transf_flows n l1 + transf_flows n l2.
Proof. induction l1 as [|e l IH]; simpl; [done|]. rewrite IH. lia. Qed.

Lemma execute_platform_transf cx self es : forall d t d' t',
  dealer_ok d -> serves self -> self <> snax_transf ->
  Forall (fun e => match e with pay _ _ _ _ => True | ask_lockplatform _ p | ask_emitplatform _ p => p = self end) es ->
  execute_platform cx d t es = Ok (d', t') ->
  dealer_ok d' /\ Forall (proper self) es /\ forall n, balance t' snax_transf n = balance t snax_transf n + transf_flows n es.
Proof.
  induction es as [|e es IH]; intros d t d' t' Hd Hs Hne Hes E; [injection E as <- <-; split_and!; [done|done|simpl; lia]|].
  apply Forall_cons in Hes as [He Hes]. destruct e as [from to q memo|dealer p|dealer p]; simpl in E, He; subst.
  - apply bind_Ok in E as ([t1 es1] & E1 & E). apply transfer_moves in E1 as ((Hft & _ & _ & _ & _ & Hq & _) & (_ & Hf & Ht & Ho) & _).
    destruct (IH _ _ _ _ Hd Hs Hne Hes E) as (Hd' & Hp & Hb). split; [done|]. split; [constructor; [|done]; simpl; lia|].
    intros n. rewrite Hb. simpl. destruct (Z.eqb_spec (symbol_value_name (symbol q)) n) as [<-|Hn].
    + destruct (Z.eqb_spec to snax_transf) as [->|H1], (Z.eqb_spec from snax_transf) as [->|H2]; try done; try lia.
      rewrite Ho by congruence. lia.
    + rewrite Ho by congruence. lia.
  - apply bind_Ok in E as ([d1 t1] & E1 & E). apply lock_law in E1 as [Hd1 Hb1]; [|done].
    destruct (IH _ _ _ _ Hd1 Hs Hne Hes E) as (Hd' & Hp & Hb). split; [done|]. split; [by constructor|]. intros n. rewrite Hb, Hb1. simpl. lia.
  - apply bind_Ok in E as ([d1 t1] & E1 & E). apply emit_law in E1 as [Hd1 Hb1]; [|done|done].
    destruct (IH _ _ _ _ Hd1 Hs Hne Hes E) as (Hd' & Hp & Hb). split; [done|]. split; [by constructor|]. intros n. rewrite Hb, Hb1 by done. simpl. lia.
Qed.

(** What an action does to the recorded transfers is covered by what it sends. *)
Record covers (self : account_name) (s s' : platform_tables) (es : list platform_effect) : Prop := {
  cv_out : pl_out s' = pl_out s ++ es;
  cv_self : Forall (fun e => match e with pay _ _ _ _ => True | ask_lockplatform _ p | ask_emitplatform _ p => p = self end) es;
  cv_owed : Forall (proper self) es -> names_ok s -> names_ok s' /\ forall n, owed s' n - owed s n <= transf_flows n es
}.
Definition covered (self : account_name) (s s' : platform_tables) : Prop := exists es, covers self s s' es.

#[local] Instance covered_preorder self : PreOrder (covered self).
Proof.
  split.
  - intros s. exists []. constructor; [by rewrite app_nil_r|done|]. intros _ Hn. split; [done|]. intros n. simpl. lia.
  - intros s1 s2 s3 [e1 [O1 S1 W1]] [e2 [O2 S2 W2]]. exists (e1 ++ e2). constructor.
    + by rewrite O2, O1, app_assoc.
    + by apply Forall_app.
    + intros [P1 P2]%Forall_app Hn. destruct (W1 P1 Hn) as [Hn1 H1]. destruct (W2 P2 Hn1) as [Hn2 H2]. split; [done|].
      intros n. rewrite transf_flows_app. specialize (H1 n). specialize (H2 n). lia.
Qed.

(** The platform pays from its own tokens, or asks its dealer. *)
Definition from_self (self : account_name) (e : platform_effect) : Prop :=
  match e with pay from _ _ _ => from <> snax_transf | ask_lockplatform _ p | ask_emitplatform _ p => p = self end.

Lemma covered_frame self s s' es :
  pl_transfers s' = pl_transfers s -> pl_out s' = pl_out s ++ es -> Forall (from_self self) es -> covered self s s'.
Proof.
  intros Ht Ho Hes. exists es. constructor; [done| |].
  - eapply Forall_impl; [exact Hes|]. by intros [].
  - intros Hp Hn. split; [by unfold names_ok; rewrite Ht|]. intros n. unfold owed. rewrite Ht. clear Ho Ht Hn.
    induction es as [|e es IH]; simpl; [lia|]. apply Forall_cons in Hes as [He Hes]. apply Forall_cons in Hp as [Hpe Hp]. specialize (IH Hes Hp).
    destruct e as [f to q m| |]; simpl in *; try lia. rewrite (proj2 (Z.eqb_neq f snax_transf)) by done. destruct (_ =? n), (to =? snax_transf); lia.
Qed.

Lemma covered_quiet self s s' : pl_transfers s' = pl_transfers s -> pl_out s' = pl_out s -> covered self s s'.
Proof. intros Ht Ho. apply (covered_frame self s s' []); [done|by rewrite app_nil_r|done]. Qed.

Lemma claim_symbols_covered self id a l : forall s, covered self s (claim_symbols s id a l).
Proof.
  induction l as [|sym l IH]; intros s; simpl; [done|]. etrans; [|apply IH].
  destruct (pl_transfers s !! (symbol_value_name sym, id)) as [q|] eqn:Hq; [|done].
  exists [pay snax_transf a q []]. constructor; [done|by constructor|]. intros Hp Hn. apply Forall_singleton in Hp as [Hne Hpos].
  pose proof (Hn _ _ Hq) as Hname. simpl in Hname. split.
  - intros k x Hx. simpl in Hx. apply lookup_delete_Some in Hx as [_ Hx]. by apply Hn.
  - intros n. unfold owed. simpl. rewrite (map_sum_delete _ (pl_transfers s) (symbol_value_name sym, id)), Hq. simpl. unfold owed_row at 2. simpl.
    rewrite Hname, (proj2 (Z.eqb_neq a snax_transf)) by congruence. destruct (symbol_value_name sym =? n); lia.
Qed.

Section Covered.
Context (cx : platform_context).
Notation self := (px_self cx).

Lemma addaccount_covered s c a id post salt d s' : addaccount cx s c a id post salt d = Ok s' -> covered self s s'.
Proof.
  intros E. unfold addaccount in E. apply bind_Ok in E as ([] & _ & E). apply bind_Ok in E as (st & _ & E). cbv zeta in E.
  apply bind_Ok in E as ([] & _ & E). apply bind_Ok in E as (s1 & E1 & E). apply bind_Ok in E as ([s3 rate] & E3 & E).
  apply bind_Ok in E as (st3 & _ & E). injection E as <-.
  transitivity s1.
  { apply bind_Ok in E1 as ([] & _ & E1). injection E1 as <-. destruct (a =? 0); [done|]. apply claim_symbols_covered. }
  apply covered_quiet; simpl; (destruct (negb (a =? 0)); [do 3 (apply bind_Ok in E3 as ([] & _ & E3))|]; injection E3 as <- _; simpl; by destruct (bool_decide _)).
Qed.

Lemma add_each_covered c l : forall s s', add_each cx s c l = Ok s' -> covered self s s'.
Proof.
  induction l as [|x l IH]; intros s s' E; [by injection E as <-|]. apply bind_Ok in E as (s1 & E1%addaccount_covered & E). etrans; [exact E1|by apply IH].
Qed.

Lemma update_rate_covered s st b w r s' w' : update_rate cx s st b w r = Ok (s', w') -> covered self s s'.
Proof.
  intros E. unfold update_rate in E. destruct (pl_users s !! ar_id r).
  - apply bind_Ok in E as ([] & _ & E). cbv zeta in E. injection E as E. destruct (pl_accounts _ !! ar_id r); injection E as <- _; by apply covered_quiet.
  - apply bind_Ok in E as ([] & _ & E). cbv zeta in E. apply bind_Ok in E as (s1 & E1%addaccount_covered & E). injection E as <- _.
    etrans; [|exact E1]. by apply covered_quiet.
Qed.

Lemma update_rates_covered l : forall s st b w s' w', update_rates cx s st b w l = Ok (s', w') -> covered self s s'.
Proof.
  induction l as [|r l IH]; intros s st b w s' w' E; [by injection E as <- _|].
  apply bind_Ok in E as ([s1 w1] & E1%update_rate_covered & E). etrans; [exact E1|by eapply IH].
Qed.

Lemma updatearmult_covered s l b s' : updatearmult cx s l b = Ok s' -> covered self s s'.
Proof.
  intros E. apply bind_Ok in E as ([] & _ & E). apply bind_Ok in E as (st & _ & E). apply bind_Ok in E as ([] & _ & E).
  apply bind_Ok in E as ([s1 w] & E1%update_rates_covered & E). etrans; [exact E1|]. apply bind_Ok in E as (st1 & _ & E). injection E as <-. by apply covered_quiet.
Qed.

Lemma dropaccount_covered s i id s' : dropaccount cx s i id = Ok s' -> covered self s s'.
Proof.
  intros E. apply bind_Ok in E as ([] & _ & E). do 2 (apply bind_Ok in E as (? & _ & E)). apply bind_Ok in E as ([] & _ & E). injection E as <-. by apply covered_quiet.
Qed.

Lemma dropuser_covered s id s' : dropuser cx s id = Ok s' -> covered self s s'.
Proof.
  intros E. do 2 (apply bind_Ok in E as ([] & _ & E)). apply bind_Ok in E as (u & _ & E). apply bind_Ok in E as (s1 & E1 & E).
  apply bind_Ok in E as (st & _ & E). injection E as <-. transitivity s1; [|by apply covered_quiet].
  destruct (bool_decide _); [by eapply dropaccount_covered|by injection E1 as <-].
Qed.

Lemma pay_accounts_covered rows : forall s st total cb sent cnt count s' cb' sent' cnt', self <> snax_transf ->
  pay_accounts cx s st total cb sent cnt count rows = Ok (s', cb', sent', cnt') -> covered self s s'.
Proof.
  induction rows as [|[id a] rows IH]; intros s st total cb sent cnt count s' cb' sent' cnt' Hs E; simpl in E; [by injection E as <- _ _ _|].
  destruct (count =? 0); [by injection E as <- _ _ _|]. apply bind_Ok in E as (u & _ & E). destruct (ac_name a =? 0); [by eapply IH|].
  apply bind_Ok in E as ([] & _ & E). apply bind_Ok in E as (q & _ & E). apply bind_Ok in E as ([[s1 cb1] sent1] & E1 & E).
  etrans; [|by eapply IH]. destruct (0 <? amount q).
  - apply bind_Ok in E1 as (c1 & _ & E1). apply bind_Ok in E1 as (se & _ & E1). injection E1 as <- _ _.
    by apply (covered_frame self _ _ [pay self (ac_name a) q []]); [..|constructor].
  - injection E1 as <- _ _. by apply covered_quiet.
Qed.

Lemma sendpayments_covered s t lower count s' : self <> snax_transf -> sendpayments cx s t lower count = Ok s' -> covered self s s'.
Proof.
  intros Hs E. apply bind_Ok in E as ([] & _ & E). apply bind_Ok in E as (st & _ & E). apply bind_Ok in E as ([] & _ & E). cbv zeta in E.
  apply bind_Ok in E as (bal & _ & E). apply bind_Ok in E as (none & _ & E). apply bind_Ok in E as ([[[s1 cb] sent] cnt] & E1 & E).
  apply pay_accounts_covered in E1; [|done]. etrans; [|etrans; [exact E1|]]; [by destruct (_ && _); apply covered_quiet|].
  destruct (_ <=? _).
  - apply bind_Ok in E as ([] & _ & E). apply bind_Ok in E as (st1 & _ & E). apply bind_Ok in E as (x & _ & E). cbv zeta in E.
    apply bind_Ok in E as (s2 & E2 & E). apply bind_Ok in E as (y & _ & E). destruct (pl_history s1 !! _); [done|]. injection E2 as <-. injection E as <-.
    destruct (0 <? amount cb); [|by apply covered_quiet]. by apply (covered_frame self _ _ [pay self snax_name cb []]); [..|constructor].
  - apply bind_Ok in E as (x & _ & E). injection E as <-. by apply covered_quiet.
Qed.

Lemma transfersoc_covered s t f to q m s' : f <> snax_transf -> transfersoc cx s t f to q m = Ok s' -> covered self s s'.
Proof.
  intros Hf E. do 2 (apply bind_Ok in E as ([] & _ & E)). do 2 (apply bind_Ok in E as (? & _ & E)). apply bind_Ok in E as ([] & _ & E).
  assert (store_transfer s f to q m = Ok s' -> covered self s s') as Hst.
  { intros E2. unfold store_transfer in E2. set (k := (symbol_value_name (symbol q), to)) in E2. simpl in E2. exists [pay f snax_transf q m].
    assert (exists total, s' = set_transfers (send s (pay f snax_transf q m)) (<[k := total]> (pl_transfers s)) /\ symbol_value_name (symbol total) = k.1 /\
      forall n, owed_row n k total = summand (owed_row n) k (pl_transfers s !! k) + (if k.1 =? n then amount q else 0)) as (total & -> & Hy & Ht).
    { destruct (pl_transfers s !! k) as [old|] eqn:Hx.
      - apply bind_Ok in E2 as (total & (Hy & Ha & Hy2)%asset_add_Ok & E2). injection E2 as <-. exists total. split; [done|]. split; [by rewrite Hy2, <- Hy|].
        intros n. unfold owed_row. simpl. unfold owed_row. simpl. destruct (symbol_value_name (symbol q) =? n); lia.
      - injection E2 as <-. exists q. split; [done|]. split; [done|]. intros n. unfold owed_row. simpl. lia. }
    constructor; [done|by constructor|]. intros _ Hn. split.
    - intros j y Hj. simpl in Hj. apply lookup_insert_Some in Hj as [[<- <-]|[_ Hj]]; [done|by apply Hn].
    - intros n. unfold owed. simpl. rewrite map_sum_insert, Ht. simpl. rewrite (proj2 (Z.eqb_neq f snax_transf)) by done.
      destruct (symbol_value_name (symbol q) =? n); lia. }
  destruct (pl_accounts s !! to) as [a|]; [|by apply Hst]. destruct (negb _); [|by apply Hst]. injection E as <-.
  by apply (covered_frame self _ _ [pay f (ac_name a) q m]); [..|constructor].
Qed.

(** [snax.transf] itself sends no tokens to users. *)
Definition keeps_transf (a : platform_action) : Prop := match a with pa_transfersoc from _ _ _ => from <> snax_transf | _ => True end.

Lemma run_platform_action_covered s t a s' :
  self <> snax_transf -> keeps_transf a -> run_platform_action cx s t a = Ok s' -> covered self s s'.
Proof.
  intros Hs Ha E. destruct a; simpl in E, Ha.
  - do 3 (apply bind_Ok in E as ([] & _ & E)). do 2 (apply bind_Ok in E as (? & _ & E)). injection E as <-. by apply covered_quiet.
  - do 2 (apply bind_Ok in E as ([] & _ & E)). apply bind_Ok in E as (? & _ & E). injection E as <-. by apply covered_quiet.
  - do 4 (apply bind_Ok in E as ([] & _ & E)). injection E as <-. by apply covered_quiet.
  - do 4 (apply bind_Ok in E as ([] & _ & E)). injection E as <-. by apply covered_quiet.
  - apply bind_Ok in E as ([] & _ & E). apply bind_Ok in E as (st & _ & E). apply bind_Ok in E as ([] & _ & E). injection E as <-. by apply covered_quiet.
  - apply bind_Ok in E as ([] & _ & E). apply bind_Ok in E as (st & _ & E). apply bind_Ok in E as ([] & _ & E). injection E as <-.
    by apply (covered_frame self _ _ [ask_lockplatform (ps_token_dealer st) self]); [..|constructor].
  - apply bind_Ok in E as ([] & _ & E). apply bind_Ok in E as (st & _ & E). do 2 (apply bind_Ok in E as ([] & _ & E)).
    apply bind_Ok in E as (st1 & _ & E). injection E as <-. by apply covered_quiet.
  - apply bind_Ok in E as ([] & _ & E). apply bind_Ok in E as (st & _ & E). apply bind_Ok in E as ([] & _ & E). injection E as <-.
    by apply (covered_frame self _ _ [ask_emitplatform (ps_token_dealer st) self]); [..|constructor].
  - by eapply sendpayments_covered.
  - do 2 (apply bind_Ok in E as ([] & _ & E)). apply bind_Ok in E as (x & _ & E). injection E as <-. by apply covered_quiet.
  - do 2 (apply bind_Ok in E as ([] & _ & E)). apply bind_Ok in E as (x & _ & E). injection E as <-. by apply covered_quiet.
  - rewrite updatear_mult in E. by eapply updatearmult_covered.
  - by eapply updatearmult_covered.
  - by eapply dropuser_covered.
  - do 3 (apply bind_Ok in E as ([] & _ & E)). injection E as <-. by apply covered_quiet.
  - by eapply dropaccount_covered.
  - by eapply addaccount_covered.
  - do 2 (apply bind_Ok in E as ([] & _ & E)). by eapply add_each_covered.
  - by eapply transfersoc_covered.
Qed.

End Covered.

(** In every run of a platform, [snax.transf] has the tokens recorded for users
    without an account: what is recorded grows by no more than its tokens, for
    every token and whatever the emitting contract does, as long as it keeps its
    promise. *)
Theorem social_transfers_backed l self s d t s' d' t' n :
  names_ok s -> dealer_ok d -> serves self -> self <> snax_transf ->
  Forall (fun x => px_self x.1 = self /\ keeps_transf x.2) l -> platform_run (s, d, t) l = Ok (s', d', t') ->
  owed s' n - owed s n <= balance t' snax_transf n - balance t snax_transf n.
Proof.
  intros Hn Hd Hs Hne. revert s d t Hn Hd. induction l as [|[cx a] l IH]; intros s d t Hn Hd Hl E; [injection E as <- _ <-; lia|].
  apply Forall_cons in Hl as [[Hx Ha] Hl]. simpl in Hx, Ha. apply bind_Ok in E as ([[s1 d1] t1] & E1 & E).
  apply bind_Ok in E1 as (s2 & E2 & E1). apply bind_Ok in E1 as ([d2 t2] & Ex & E1). injection E1 as -> -> ->.
  apply run_platform_action_covered in E2 as (es & [O1 S1 W1]); [|congruence|done]. simpl in O1. rewrite O1 in Ex. rewrite Hx in *.
  destruct (execute_platform_transf _ self _ _ _ _ _ Hd Hs Hne S1 Ex) as (Hd1 & Hp & Hb). destruct (W1 Hp Hn) as [Hn1 Hw].
  specialize (IH _ _ _ Hn1 Hd1 Hl E). specialize (Hw n). unfold owed in Hw at 2. simpl in Hw. fold (owed s n) in Hw. specialize (Hb n). lia.
Qed.

End Runs.

(** ** A change of [_state] that was not read *)

(** [addsymbol] replaces the state of the platform by one that depends only on
    the new symbol and on what the memory held: the name of the platform, the
    supply of the round and all other symbols are lost. *)
Theorem addsymbol_forgets cx s sym prec s' :
  addsymbol cx s sym prec = Ok s' ->
  exists st' x, pl_state s' = Some st' /\ string_to_symbol prec sym = Ok x /\ ps_token_symbols st' = [x] /\ ps_platform_name st' = [] /\
    ps_round_supply st' = mk_asset 0 CORE_SYMBOL /\
    forall s2, is_Some (pl_state s2) -> addsymbol cx s2 sym prec = Ok (set_state s2 st').
Proof.
  intros E. unfold addsymbol in E. apply bind_Ok in E as ([] & Ha & E). apply bind_Ok in E as ([] & _ & E). apply bind_Ok in E as (x & Hx & E).
  injection E as <-. eexists _, x. split; [reflexivity|]. split_and!; try done. intros s2 Hs2. unfold addsymbol, require_initialized.
  rewrite Ha, bool_decide_true, Hx by done. done.
Qed.

(** ** Examples *)
Module PlatformDemo.
Import SystemRuns.Demo.

#[local] Existing Instance math.

Definition steem : account_name := 2000.
Definition carol : account_name := 1003.
Definition memory_state : platform_state :=
  mk_state [] 7 7 7 7 (of_int 7) (of_int 7) 7 7 7 (snx 0) (snx 0) 7 7 [].
Definition as_account (a : account_name) : platform_context :=
  mk_platform_context steem (fun b => b =? a) (fun b => 1000 <? b) start_time memory_state (mk_user (of_int 0) 0 0 0).

Definition SNAX : bytes := [83; 78; 65; 88].
Definition opened : platform_tables :=
  match initialize (as_account steem) no_platform [115] snax_name SNAX 4 0 with Ok s => s | Err _ => no_platform end.

Definition system : system_state :=
  set_platforms start {[steem := mk_platform steem (literal 1 2) 1 (mk_quotas 0 0 0)]}.
Lemma system_is_ok : system_ok system.
Proof. destruct start_ok as [[] [] ]. constructor; try done; by constructor. Qed.

Definition rate (id r : Z) : account_with_attention_rate := mk_rate id (of_int r) 1 [] 1.

Definition round : list (platform_context * platform_action) :=
  [(as_account steem, pa_addaccount steem bob 7 1 [1] []);
   (as_account alice, pa_transfersoc alice 8 (snx 500) []);
   (as_account steem, pa_addaccount steem carol 8 1 [1] []);
   (as_account alice, pa_transfersoc alice 9 (snx 70) []);
   (as_account steem, pa_lockarupdate);
   (as_account steem, pa_updatear (rate 7 10) false);
   (as_account steem, pa_updatearmult [rate 8 30; rate 10 5] true);
   (as_account steem, pa_lockupdate);
   (as_account steem, pa_nextround);
   (as_account steem, pa_sendpayments 0 1);
   (as_account steem, pa_sendpayments carol 10)].

Definition after (l : list (platform_context * platform_action)) : platform_world :=
  match platform_run (opened, system, tokens) l with Ok w => w | Err _ => (opened, system, tokens) end.
Definition last_world : platform_world := after round.

Lemma round_run : platform_run (opened, system, tokens) round = Ok (last_world.1.1, last_world.1.2, last_world.2).
Proof. vm_compute. reflexivity. Qed.

(** The tokens of bob, carol, the platform and [snax.transf] after the round. Bob has
    ten of forty-five points and gets a fourth; carol has thirty and would get the
    whole supply, of which three fourths are left. *)
Example round_tokens :
  let '(s, _, t) := last_world in
  (balance t bob core_name, balance t carol core_name, balance t steem core_name, balance t snax_transf core_name, owed s core_name) =
  (1650156907500, 4950440723000, 0, 70, 70).
Proof. vm_compute. reflexivity. Qed.

Lemma opened_ok : exists st, platform_ok opened st /\ ps_step_number st = 1.
Proof. apply (initialize_ok (as_account steem) [115] snax_name SNAX 4 0). vm_compute. reflexivity. Qed.

Lemma round_sized : Forall (fun x : platform_context * platform_action => sized x.2 /\ keeps_state x.2) round.
Proof. repeat (apply Forall_cons_2; [split; simpl; try exact I; lia|]). apply Forall_nil_2. Qed.

Lemma prefix_ok k : rounds_fit (opened, system, tokens) (take k round) = true -> is_Ok (platform_run (opened, system, tokens) (take k round)) = true ->
  exists st, platform_ok (after (take k round)).1.1 st.
Proof.
  intros Hk E. destruct opened_ok as (st0 & Hok & _). unfold after. destruct (platform_run _ (take k round)) as [[[s d] t]|] eqn:ER; [|done].
  destruct (platform_run_ok (take k round) opened system tokens st0 s d t Hok) as (st & Hst & _); [|exact Hk|exact ER|by exists st].
  apply Forall_take, round_sized.
Qed.


Lemma social_transfers_backed_witness :
  owed last_world.1.1 core_name - owed opened core_name <= balance last_world.2 snax_transf core_name - balance tokens snax_transf core_name /\
  owed last_world.1.1 core_name = 70.
Proof.
  split; [|vm_compute; reflexivity].
  apply (social_transfers_backed round steem opened system tokens last_world.1.1 last_world.1.2 last_world.2 core_name).
  - intros k q Hq. vm_compute in Hq. discriminate.
  - exact system_is_ok.
  - simpl. unfold reserved. rewrite !elem_of_cons, elem_of_nil. vm_compute. intuition congruence.
  - vm_compute. discriminate.
  - repeat (apply Forall_cons_2; [split; [reflexivity|try exact I; vm_compute; discriminate]|]). apply Forall_nil_2.
  - exact round_run.
Defined.

(** Before the payments. *)
Definition paying : platform_world := after (take 9 round).
Definition paying_state : platform_state := match pl_state paying.1.1 with Some st => st | None => memory_state end.

Lemma paying_ok : platform_ok paying.1.1 paying_state.
Proof.
  destruct (prefix_ok 9) as (st & Hst); [vm_compute; reflexivity..|]. pose proof (po_row _ _ _ Hst) as Hr. unfold paying_state.
  fold paying in Hst, Hr. rewrite Hr. exact Hst.
Qed.

Definition paid_once : platform_tables :=
  match sendpayments (as_account steem) paying.1.1 paying.2 0 1 with Ok s => s | Err _ => paying.1.1 end.

(** One account is paid, bob: he has ten of forty-five points and gets a fourth. *)
Example paid_bob : pl_out paid_once = pl_out paying.1.1 ++ [pay steem bob (snx 1650146907500) []].
Proof. vm_compute. reflexivity. Qed.

Lemma payments_exact_witness : exists (balance : asset) (visited : list (Z * account)),
  (length visited <= 2)%nat /\
  pl_out paid_once = pl_out paying.1.1 ++ transfers (as_account steem) (symbol balance) (payouts paying_state (pl_users paying.1.1) (amount balance) (amount balance) visited).
Proof.
  destruct (payments_exact (as_account steem) paying.1.1 paying.2 paying_state 0 1 paid_once paying_ok) as
    (st' & b & visited & H1 & H2 & (later & Hv & _) & _ & _ & _ & Ho & _); [lia|vm_compute; reflexivity|].
  assert (b = snx (balance paying.2 steem core_name)) as -> by (vm_compute in H2 |- *; injection H2 as <-; reflexivity).
  exists (snx (balance paying.2 steem core_name)), visited. split.
  - apply (f_equal length) in Hv. rewrite length_app in Hv.
    assert (length (accounts_from (pl_accounts paying.1.1) 1) = 2%nat) as H3 by (vm_compute; reflexivity). change (0 =? 0) with true in Hv. cbv iota in Hv. lia.
  - assert (ps_updating st' = 3) as H3 by (vm_compute in H1; injection H1 as <-; reflexivity). rewrite H3 in Ho. cbn [Z.eqb Pos.eqb andb] in Ho. rewrite app_nil_r in Ho. exact Ho.
Defined.

(** Every row of a concrete table. *)
Lemma every_row {A} (f : Z -> A -> bool) (m : gmap Z A) :
  forallb (fun x => f x.1 x.2) (map_to_list m) = true -> forall i x, m !! i = Some x -> f i x = true.
Proof. intros Hm i x Hx. rewrite forallb_forall in Hm. apply (Hm (i, x)), list_elem_of_In. by apply elem_of_map_to_list. Qed.

Definition share_exists (id : Z) (a : account) : bool :=
  match pl_users paying.1.1 !! id with
  | Some u => match to_int64 (ddiv (ps_total_attention_rate paying_state) (us_attention_rate u)) with Ok p => negb (p =? 0) | Err _ => false end
  | None => true
  end.

Lemma shares_exist : forall id a, pl_accounts paying.1.1 !! id = Some a -> share_exists id a = true.
Proof. refine (every_row share_exists (pl_accounts paying.1.1) _). vm_compute. reflexivity. Qed.

Definition unpaid_row (id : Z) (a : account) : bool := (ac_last_paid_step_number a <? ps_step_number paying_state) && (1 <=? ac_name a).
Lemma unpaid_rows : forall id a, pl_accounts paying.1.1 !! id = Some a -> unpaid_row id a = true.
Proof. refine (every_row unpaid_row (pl_accounts paying.1.1) _). vm_compute. reflexivity. Qed.

Lemma payments_complete_witness :
  exists s' st', sendpayments (as_account steem) paying.1.1 paying.2 0 2 = Ok s' /\ pl_state s' = Some st' /\ ps_updating st' = 0 /\
    pl_out s' = pl_out paying.1.1 ++ [pay steem bob (snx 1650146907500) []; pay steem carol (snx 4950440722500) []].
Proof.
  destruct (payments_complete (as_account steem) paying.1.1 paying.2 paying_state (snx (balance paying.2 steem core_name)) 2) as (s' & st' & E & H1 & H2 & _ & _ & Ho & _);
    [exact paying_ok|vm_compute; reflexivity..| | |vm_compute; congruence|vm_compute; reflexivity|vm_compute; reflexivity|
     vm_compute; reflexivity|vm_compute; reflexivity|vm_compute; congruence|vm_compute; split; congruence|vm_compute; congruence|vm_compute; congruence|].
  - intros id a Ha. pose proof (unpaid_rows id a Ha) as Hu. unfold unpaid_row in Hu. apply andb_true_iff in Hu as [H1 H2].
    split; [apply Z.ltb_lt, H1|apply Z.leb_le, H2].
  - intros id a u Ha Hu _ _ _. pose proof (shares_exist id a Ha) as Hsh.
    unfold share_exists in Hsh. rewrite Hu in Hsh. destruct (to_int64 _) as [q|]; [|discriminate]. exists q. split; [reflexivity|].
    intros ->. discriminate.
  - exists s', st'. split; [exact E|]. split; [exact H1|]. split; [exact H2|]. rewrite Ho. vm_compute. reflexivity.
Defined.

Lemma addsymbol_forgets_witness :
  exists st' x, pl_state opened <> Some st' /\ ps_token_symbols st' = [x] /\ addsymbol (as_account steem) opened [88] 0 = Ok (set_state opened st').
Proof.
  destruct (addsymbol_forgets (as_account steem) opened [88] 0
    (match addsymbol (as_account steem) opened [88] 0 with Ok s => s | Err _ => opened end)) as (st' & x & H1 & _ & H2 & H3 & _ & H5); [vm_compute; reflexivity|].
  exists st', x. split; [|split; [exact H2|apply H5; vm_compute; eexists; reflexivity]].
  vm_compute. intros [= <-]. vm_compute in H3. discriminate.
Defined.

(** An account that is dropped and added again during the payments is paid again. *)
Example paid_twice :
  let '(s, _, t) := after (take 10 round ++ [(as_account bob, pa_dropaccount bob 7);
    (as_account steem, pa_addaccount steem bob 7 1 [1] []); (as_account steem, pa_sendpayments bob 1)]) in
  balance t bob core_name = 10000000 + 2 * 1650146907500.
Proof. vm_compute. reflexivity. Qed.

(** A user that is dropped takes points away that were not counted in this round:
    the share of the others cannot be computed any more. *)
Definition next_day : platform_context :=
  mk_platform_context steem (fun b => b =? steem) (fun b => 1000 <? b) (start_time + 86400) memory_state (mk_user (of_int 0) 0 0 0).
Example stale_points :
  is_Ok (platform_run (opened, system, tokens)
    (round ++ [(next_day, pa_lockarupdate); (next_day, pa_updatear (rate 7 10) false); (next_day, pa_dropuser 10);
               (next_day, pa_lockupdate); (next_day, pa_nextround)])) = true /\
  platform_run (opened, system, tokens)
    (round ++ [(next_day, pa_lockarupdate); (next_day, pa_updatear (rate 7 10) false); (next_day, pa_dropuser 10);
               (next_day, pa_lockupdate); (next_day, pa_nextround); (next_day, pa_sendpayments 0 1)]) = Err snax_assert_message.
Proof. vm_compute. split; reflexivity. Qed.

End PlatformDemo.
