(* ===== verification/Datastream.v ===== *)
(** * The serialization of contracts

    [contracts/snaxlib/datastream.hpp] and [varint.hpp]: reading and writing of
    numbers, vectors and records, and the transaction header of
    [contracts/snaxlib/transaction.hpp]. A format is a record of a writer and a
    reader, which returns what is left of the buffer. *)

From Stdlib Require Import ZArith Lia Bool.
From stdpp Require Import base numbers list.
From S2P Require Import Prelude BlockHeader Token.

Open Scope Z_scope.

(** Bytes are numbers below 256. *)
Notation buffer := (list Z) (only parsing).

(** ** Reading and writing *)

Record codec (A : Type) := mk_codec { cd_put : A -> buffer; cd_get : buffer -> result (A * buffer) }.
Arguments mk_codec {A} _ _.
Arguments cd_put {A} _ _.
Arguments cd_get {A} _ _.

(** What is written is read back, and nothing behind it. *)
Class RoundTrip {A} (c : codec A) (valid : A -> Prop) :=
  get_put : forall x rest, valid x -> cd_get c (cd_put c x ++ rest) = Ok (x, rest).

(** [read( d, s )]. *)
Definition read (s : Z) (ds : buffer) : result (buffer * buffer) :=
  snax_assert (s <=? Z.of_nat (length ds));; mret (take (Z.to_nat s) ds, drop (Z.to_nat s) ds).

(** [get( c )]. *)
Definition get (ds : buffer) : result (Z * buffer) :=
  match ds with [] => Err snax_assert_message | b :: ds => mret (b, ds) end.

(** *** Primitive types, in the byte order of WebAssembly *)

Fixpoint le_put (n : nat) (v : Z) : buffer :=
  match n with O => [] | S n => u8 v :: le_put n (Z.shiftr v 8) end.
Fixpoint le_value (l : buffer) : Z := match l with [] => 0 | b :: l => b + 256 * le_value l end.

Definition primitive (n : nat) : codec Z :=
  mk_codec (le_put n) (fun ds => '(l, ds) ← read (Z.of_nat n) ds; mret (le_value l, ds)).

(** *** [unsigned_int] *)

(** The loop that writes seven bits at a time; ten turns do for 64 bits. *)
Fixpoint varint_put (fuel : nat) (val : Z) : buffer :=
  match fuel with
  | O => []
  | S fuel =>
      let b := Z.land val 0x7f in
      let val := Z.shiftr val 7 in
      let b := Z.lor b (if 0 <? val then 0x80 else 0) in
      b :: if val =? 0 then [] else varint_put fuel val
  end.

(** The loop that reads them: the bits are shifted as a 32-bit number. *)
Fixpoint varint_get (by_ v : Z) (ds : buffer) : result (Z * buffer) :=
  match ds with
  | [] => Err snax_assert_message
  | b :: ds =>
      SNAX_ASSERT (by_ <? 32) undefined_behavior;;
      let v := Z.lor v (u32 (Z.shiftl (Z.land b 0x7f) by_)) in
      if Z.land b 0x80 =? 0 then mret (u32 v, ds) else varint_get (u8 (by_ + 7)) v ds
  end.

Definition unsigned_int : codec Z := mk_codec (varint_put 10) (varint_get 0 0).

(** *** Vectors and records *)

Fixpoint get_many {A} (c : codec A) (n : nat) (ds : buffer) : result (list A * buffer) :=
  match n with
  | O => mret ([], ds)
  | S n => '(x, ds) ← cd_get c ds; '(l, ds) ← get_many c n ds; mret (x :: l, ds)
  end.

Definition vector {A} (c : codec A) : codec (list A) :=
  mk_codec
    (fun v => cd_put unsigned_int (Z.of_nat (length v)) ++ mjoin (cd_put c <$> v))
    (fun ds => '(s, ds) ← cd_get unsigned_int ds; get_many c (Z.to_nat s) ds).

(** [vector<char>]. *)
Definition char_vector : codec buffer :=
  mk_codec
    (fun v => cd_put unsigned_int (Z.of_nat (length v)) ++ v)
    (fun ds => '(s, ds) ← cd_get unsigned_int ds; read s ds).

(** The fields of a record one after the other. *)
Definition pair_codec {A B} (c : codec A) (d : codec B) : codec (A * B) :=
  mk_codec (fun x => cd_put c x.1 ++ cd_put d x.2)
    (fun ds => '(a, ds) ← cd_get c ds; '(b, ds) ← cd_get d ds; mret ((a, b), ds)).

Definition map_codec {A B} (f : A -> B) (g : B -> A) (c : codec A) : codec B :=
  mk_codec (fun x => cd_put c (g x)) (fun ds => '(a, ds) ← cd_get c ds; mret (f a, ds)).

(** [pack] and [unpack]: what follows the value is not looked at. *)
Definition pack {A} (c : codec A) (x : A) : buffer := cd_put c x.
Definition unpack {A} (c : codec A) (ds : buffer) : result A := '(x, _) ← cd_get c ds; mret x.

(** ** Round trips *)

Lemma get_put_app {A} (c : codec A) valid x l rest `{RoundTrip A c valid} :
  valid x -> l = cd_put c x ++ rest -> cd_get c l = Ok (x, rest).
Proof. intros Hv ->. by apply get_put. Qed.

Lemma length_le_put n v : length (le_put n v) = n.
Proof. revert v. induction n as [|n IH]; intros v; simpl; [done|]. by rewrite IH. Qed.

Lemma le_value_put n : forall v, 0 <= v < 2 ^ (8 * Z.of_nat n) -> le_value (le_put n v) = v.
Proof.
  induction n as [|n IH]; intros v Hv; simpl; [simpl in Hv; lia|]. unfold u8, wrap. rewrite Z.shiftr_div_pow2 by lia. rewrite IH.
  - change (2 ^ 8) with 256. pose proof (Z_div_mod_eq_full v 256). lia.
  - replace (8 * Z.of_nat (S n)) with (8 * Z.of_nat n + 8) in Hv by lia. rewrite Z.pow_add_r in Hv by lia. change (2 ^ 8) with 256 in *.
    split; [apply Z.div_pos; lia|]. apply Z.div_lt_upper_bound; lia.
Qed.

Lemma read_app l rest : read (Z.of_nat (length l)) (l ++ rest) = Ok (l, rest).
Proof.
  unfold read. rewrite length_app, (proj2 (Z.leb_le _ _)) by lia. cbn [snax_assert SNAX_ASSERT mbind result_bind].
  by rewrite Nat2Z.id, take_app_length, drop_app_length.
Qed.

#[export] Instance primitive_roundtrip n : RoundTrip (primitive n) (fun v => 0 <= v < 2 ^ (8 * Z.of_nat n)).
Proof.
  intros v rest Hv. simpl. rewrite <- (length_le_put n v) at 1. rewrite read_app. cbn [mbind result_bind]. by rewrite le_value_put.
Qed.

Lemma varint_byte val (c : bool) : 0 <= val ->
  let b := Z.lor (Z.land val 0x7f) (if c then 0x80 else 0) in
  Z.land b 0x7f = val mod 128 /\ (Z.land b 0x80 =? 0) = negb c.
Proof.
  intros Hv b. unfold b. rewrite !Z.land_lor_distr_l, <- !Z.land_assoc. change (Z.land 0x7f 0x7f) with 0x7f. change (Z.land 0x7f 0x80) with 0.
  rewrite Z.land_0_r. change 0x7f with (Z.ones 7) at 1. rewrite Z.land_ones by lia. change (2 ^ 7) with 128.
  destruct c; (split; [|done]); by rewrite Z.lor_0_r.
Qed.

Lemma varint_roundtrip fuel : forall by_ v val rest,
  0 <= by_ < 32 -> 0 <= v < 2 ^ by_ -> 0 <= val < 2 ^ (32 - by_) -> val < 2 ^ (7 * Z.of_nat fuel) -> (0 < fuel)%nat ->
  varint_get by_ v (varint_put fuel val ++ rest) = Ok (v + val * 2 ^ by_, rest).
Proof.
  induction fuel as [|fuel IH]; intros by_ v val rest Hb Hv Hval Hf Hpos; [lia|]. cbn [varint_put]. cbv zeta.
  rewrite !Z.shiftr_div_pow2 by lia. change (2 ^ 7) with 128.
  destruct (varint_byte val (0 <? val / 128)) as [B1 B2]; [lia|]. set (b := Z.lor (Z.land val 127) _) in *.
  cbn [app varint_get]. rewrite (proj2 (Z.ltb_lt by_ 32)) by lia. cbn [SNAX_ASSERT mbind result_bind]. rewrite B1, B2. cbv zeta.
  pose proof (Z_div_mod_eq_full val 128) as Hdm. pose proof (Z.mod_pos_bound val 128 ltac:(lia)) as Hm.
  assert (0 < 2 ^ by_) as Hp by (apply Z.pow_pos_nonneg; lia).
  assert (2 ^ 32 = 2 ^ (32 - by_) * 2 ^ by_) as H32 by (rewrite <- Z.pow_add_r by lia; f_equal; lia).
  assert (val / 128 < 2 ^ (32 - by_ - 7) \/ 32 - by_ < 7) as Hq.
  { destruct (Z.lt_ge_cases (32 - by_) 7); [by right|left]. apply Z.div_lt_upper_bound; [lia|]. change 128 with (2 ^ 7). rewrite <- Z.pow_add_r by lia.
    replace (7 + (32 - by_ - 7)) with (32 - by_) by lia. lia. }
  rewrite Z.shiftl_mul_pow2 by lia.
  assert (u32 (val mod 128 * 2 ^ by_) = val mod 128 * 2 ^ by_) as Hu by (apply u32_small; unfold is_u32; split; [lia|]; rewrite H32; nia).
  assert (Z.lor v (val mod 128 * 2 ^ by_) = v + val mod 128 * 2 ^ by_) as Hl.
  { pose proof (lor_shiftl_add (val mod 128) v by_) as Hx. rewrite Z.shiftl_mul_pow2 in Hx by lia. rewrite Z.lor_comm, Hx by lia. lia. }
  rewrite Hu, Hl. destruct (Z.ltb_spec 0 (val / 128)) as [Hgt|Hle]; cbn [negb].
  - rewrite (proj2 (Z.eqb_neq (val / 128) 0)) by lia.
    destruct Hq as [Hq|Hq].
    2:{ assert (val < 128); [|rewrite Z.div_small in Hgt; lia]. apply (Z.lt_le_trans _ (2 ^ (32 - by_))); [lia|]. change 128 with (2 ^ 7). apply Z.pow_le_mono_r; lia. }
    assert (32 - by_ - 7 > 0) as Hby by (destruct (Z.le_gt_cases (32 - by_ - 7) 0) as [Hx|]; [|lia]; assert (2 ^ (32 - by_ - 7) <= 2 ^ 0) by (apply Z.pow_le_mono_r; lia); lia).
    assert (u8 (by_ + 7) = by_ + 7) as -> by (apply Z.mod_small; lia).
    assert (fuel <> 0%nat) by (intros ->; change (7 * Z.of_nat 1) with 7 in Hf; change (2 ^ 7) with 128 in Hf; rewrite Z.div_small in Hgt; lia).
    assert (0 <= v + val mod 128 * 2 ^ by_ < 2 ^ (by_ + 7)) by (rewrite Z.pow_add_r by lia; change (2 ^ 7) with 128; nia).
    assert (val / 128 < 2 ^ (7 * Z.of_nat fuel)).
    { apply Z.div_lt_upper_bound; [lia|]. replace (7 * Z.of_nat (S fuel)) with (7 + 7 * Z.of_nat fuel) in Hf by lia. by rewrite Z.pow_add_r in Hf by lia. }
    rewrite IH; [|lia|done|by replace (32 - (by_ + 7)) with (32 - by_ - 7) by lia; split; [apply Z.div_pos; lia|]|done|lia].
    do 2 f_equal. rewrite Z.pow_add_r by lia. change (2 ^ 7) with 128.
    transitivity (v + (128 * (val / 128) + val mod 128) * 2 ^ by_); [ring|by rewrite <- Hdm].
  - assert (val / 128 = 0) as Hz by (pose proof (Z.div_pos val 128); lia). rewrite Hz. cbn [Z.eqb].
    rewrite u32_small by (unfold is_u32; split; [nia|]; rewrite H32; nia). do 2 f_equal. nia.
Qed.

#[export] Instance unsigned_int_roundtrip : RoundTrip unsigned_int (fun v => 0 <= v < 2 ^ 32).
Proof.
  intros v rest Hv. cbn [cd_get cd_put unsigned_int]. rewrite varint_roundtrip; [|lia|simpl; lia|simpl; lia| |lia]; [do 2 f_equal; simpl; lia|].
  apply (Z.lt_trans _ (2 ^ 32)); [lia|]. simpl. lia.
Qed.

#[export] Instance pair_roundtrip {A B} (c : codec A) (d : codec B) P Q :
  RoundTrip c P -> RoundTrip d Q -> RoundTrip (pair_codec c d) (fun x => P x.1 /\ Q x.2).
Proof.
  intros Hc Hd [a b] rest [Ha Hb]. simpl. rewrite <- app_assoc, (Hc a _ Ha). cbn [mbind result_bind]. by rewrite (Hd b _ Hb).
Qed.

Lemma map_roundtrip {A B} (f : A -> B) (g : B -> A) c P :
  RoundTrip c P -> (forall y, f (g y) = y) -> RoundTrip (map_codec f g c) (fun y => P (g y)).
Proof. intros Hc Hfg y rest Hy. simpl. rewrite (Hc _ _ Hy). cbn [mbind result_bind]. by rewrite Hfg. Qed.

#[export] Instance vector_roundtrip {A} (c : codec A) P :
  RoundTrip c P -> RoundTrip (vector c) (fun v => Z.of_nat (length v) < 2 ^ 32 /\ Forall P v).
Proof.
  intros Hc v rest [Hl Hv]. cbn [vector cd_get cd_put]. rewrite <- app_assoc, (get_put (c := unsigned_int)) by lia. cbn [mbind result_bind].
  rewrite Nat2Z.id. clear Hl. induction Hv as [|x v Hx Hv IH]; [done|]. cbn [length get_many].
  change (mjoin ((cd_put c) <$> x :: v)) with (cd_put c x ++ mjoin (cd_put c <$> v)).
  rewrite <- app_assoc, (Hc x _ Hx). cbn [mbind result_bind]. by rewrite IH.
Qed.

#[export] Instance char_vector_roundtrip : RoundTrip char_vector (fun v => Z.of_nat (length v) < 2 ^ 32).
Proof.
  intros v rest Hl. cbn [char_vector cd_get cd_put]. rewrite <- app_assoc, (get_put (c := unsigned_int)) by lia. cbn [mbind result_bind].
  apply read_app.
Qed.

(** ** The transaction header *)

Record transaction_header := mk_trx_header {
  th_expiration : Z;
  th_ref_block_num : Z;
  th_ref_block_prefix : Z;
  th_net_usage_words : Z;
  th_max_cpu_usage_ms : Z;
  th_delay_sec : Z
}.

Definition header_codec : codec transaction_header :=
  map_codec
    (fun '(e, (n, (p, (w, (c, d))))) => mk_trx_header e n p w c d)
    (fun h => (th_expiration h, (th_ref_block_num h, (th_ref_block_prefix h, (th_net_usage_words h, (th_max_cpu_usage_ms h, th_delay_sec h))))))
    (pair_codec (primitive 4) (pair_codec (primitive 2) (pair_codec (primitive 4) (pair_codec unsigned_int (pair_codec (primitive 1) unsigned_int))))).

Definition header_ok (h : transaction_header) : Prop :=
  is_u32 (th_expiration h) /\ 0 <= th_ref_block_num h < 2 ^ 16 /\ is_u32 (th_ref_block_prefix h) /\ is_u32 (th_net_usage_words h) /\
  0 <= th_max_cpu_usage_ms h < 2 ^ 8 /\ is_u32 (th_delay_sec h).

#[export] Instance header_roundtrip : RoundTrip header_codec header_ok.
Proof.
  intros h rest Hh. unfold header_codec. eapply (map_roundtrip _ _ _ _).
  - typeclasses eauto.
  - by intros [].
  - exact Hh.
Qed.

(** [permission_level]: the actor and the permission. *)
Definition level_codec : codec (Z * Z) := pair_codec (primitive 8) (primitive 8).
