(* ===== verification/ChainConfig.v ===== *)
(** * The configuration of the chain and of a node

    [chain_config.hpp] and [chain_config.cpp] of [libraries/chain], and of
    [controller.cpp] the lists a producing node enforces and the rules for
    skipping checks. A [flat_set] is its sorted list of elements; [None] in place
    of a block status stands for no pending block. *)

From Stdlib Require Import ZArith Lia Bool Sorted.
From stdpp Require Import base numbers sets list sorting.
From S2P Require Import Prelude ResourceLimits BlockHeader.

Open Scope Z_scope.

(** ** The parameters the producers agree on *)

Definition min_net_usage_delta_between_base_and_max_for_trx : Z := 10 * 1024.
Definition transaction_id_net_usage : Z := 32.

Record chain_config := mk_chain_config {
  cc_max_block_net_usage : Z;
  cc_target_block_net_usage_pct : Z;
  cc_max_transaction_net_usage : Z;
  cc_base_per_transaction_net_usage : Z;
  cc_net_usage_leeway : Z;
  cc_context_free_discount_net_usage_num : Z;
  cc_context_free_discount_net_usage_den : Z;
  cc_max_block_cpu_usage : Z;
  cc_target_block_cpu_usage_pct : Z;
  cc_max_transaction_cpu_usage : Z;
  cc_min_transaction_cpu_usage : Z;
  cc_resources_market_open : Z;
  cc_privileged_contracts : Z;
  cc_contract_owner : Z;
  cc_platform_lock_duration : Z;
  cc_max_transaction_lifetime : Z;
  cc_deferred_trx_expiration_window : Z;
  cc_max_transaction_delay : Z;
  cc_max_inline_action_size : Z;
  cc_max_inline_action_depth : Z;
  cc_max_authority_depth : Z
}.

(** [chain_config::validate]; the subtractions are of unsigned 32-bit values. *)
Definition validate_chain_config (c : chain_config) : result unit :=
  SNAX_ASSERT (cc_target_block_net_usage_pct c <=? percent_100) action_validate_exception;;
  SNAX_ASSERT (percent_1 / 10 <=? cc_target_block_net_usage_pct c) action_validate_exception;;
  SNAX_ASSERT (cc_target_block_cpu_usage_pct c <=? percent_100) action_validate_exception;;
  SNAX_ASSERT (percent_1 / 10 <=? cc_target_block_cpu_usage_pct c) action_validate_exception;;
  SNAX_ASSERT (cc_max_transaction_net_usage c <? cc_max_block_net_usage c) action_validate_exception;;
  SNAX_ASSERT (cc_max_transaction_cpu_usage c <? cc_max_block_cpu_usage c) action_validate_exception;;
  SNAX_ASSERT (cc_base_per_transaction_net_usage c <? cc_max_transaction_net_usage c) action_validate_exception;;
  SNAX_ASSERT (min_net_usage_delta_between_base_and_max_for_trx <=?
                 u32 (cc_max_transaction_net_usage c - cc_base_per_transaction_net_usage c)) action_validate_exception;;
  SNAX_ASSERT (0 <? cc_context_free_discount_net_usage_den c) action_validate_exception;;
  SNAX_ASSERT (cc_context_free_discount_net_usage_num c <=? cc_context_free_discount_net_usage_den c) action_validate_exception;;
  SNAX_ASSERT (cc_min_transaction_cpu_usage c <=? cc_max_transaction_cpu_usage c) action_validate_exception;;
  SNAX_ASSERT (cc_max_transaction_cpu_usage c <? u32 (cc_max_block_cpu_usage c - cc_min_transaction_cpu_usage c))
    action_validate_exception;;
  SNAX_ASSERT (1 <=? cc_max_authority_depth c) action_validate_exception.

(** The genesis configuration of [genesis_state.hpp], with the defaults of [config.hpp]. *)
Definition genesis_configuration : chain_config :=
  mk_chain_config default_max_block_net_usage default_target_block_net_usage_pct (default_max_block_net_usage / 2) 12 500 20 100
    default_max_block_cpu_usage default_target_block_cpu_usage_pct (3 * default_max_block_cpu_usage / 4) 100
    1 0 0 14400 (60 * 60) (10 * 60) (45 * 24 * 3600) (4 * 1024) 4 6.

(** [operator ==]: the pairs of fields that are compared. *)
Definition chain_config_eqb (lhs rhs : chain_config) : bool :=
  (cc_max_block_net_usage lhs =? cc_max_block_net_usage rhs) &&
  (cc_target_block_net_usage_pct lhs =? cc_target_block_net_usage_pct rhs) &&
  (cc_max_transaction_net_usage lhs =? cc_max_transaction_net_usage rhs) &&
  (cc_base_per_transaction_net_usage lhs =? cc_base_per_transaction_net_usage rhs) &&
  (cc_net_usage_leeway lhs =? cc_net_usage_leeway rhs) &&
  (cc_context_free_discount_net_usage_num lhs =? cc_context_free_discount_net_usage_num rhs) &&
  (cc_context_free_discount_net_usage_den lhs =? cc_context_free_discount_net_usage_den rhs) &&
  (cc_max_block_cpu_usage lhs =? cc_max_block_cpu_usage rhs) &&
  (cc_target_block_cpu_usage_pct lhs =? cc_target_block_cpu_usage_pct rhs) &&
  (cc_max_transaction_cpu_usage lhs =? cc_max_transaction_cpu_usage rhs) &&
  (cc_max_transaction_cpu_usage lhs =? cc_max_transaction_cpu_usage rhs) &&
  (cc_resources_market_open lhs =? cc_resources_market_open rhs) &&
  (cc_privileged_contracts lhs =? cc_privileged_contracts rhs) &&
  (cc_contract_owner lhs =? cc_contract_owner rhs) &&
  (cc_platform_lock_duration lhs =? cc_platform_lock_duration lhs) &&
  (cc_max_transaction_lifetime lhs =? cc_max_transaction_lifetime rhs) &&
  (cc_deferred_trx_expiration_window lhs =? cc_deferred_trx_expiration_window rhs) &&
  (cc_max_transaction_delay lhs =? cc_max_transaction_delay rhs) &&
  (cc_max_inline_action_size lhs =? cc_max_inline_action_size rhs) &&
  (cc_max_inline_action_depth lhs =? cc_max_inline_action_depth rhs) &&
  (cc_max_authority_depth lhs =? cc_max_authority_depth rhs).

(** The part of [finalize_block] that makes the limits of the next block. *)
Definition block_parameters (c : chain_config) : elastic_limit_parameters * elastic_limit_parameters :=
  (mk_elastic (SNAX_PERCENT (cc_max_block_cpu_usage c) (cc_target_block_cpu_usage_pct c)) (cc_max_block_cpu_usage c)
     (block_cpu_usage_average_window_ms / BlockTime.block_interval_ms) 1000 (mk_ratio 99 100) (mk_ratio 1000 999),
   mk_elastic (SNAX_PERCENT (cc_max_block_net_usage c) (cc_target_block_net_usage_pct c)) (cc_max_block_net_usage c)
     (block_size_average_window_ms / BlockTime.block_interval_ms) 1000 (mk_ratio 99 100) (mk_ratio 1000 999)).

(** ** The configuration of a node *)

Inductive block_status := irreversible | validated | complete | incomplete.
#[export] Instance block_status_eq_dec : EqDecision block_status.
Proof. solve_decision. Defined.

Record controller_config := mk_node {
  sender_bypass_whiteblacklist : list account_name;
  actor_whitelist : list account_name;
  actor_blacklist : list account_name;
  contract_whitelist : list account_name;
  contract_blacklist : list account_name;
  action_blacklist : list (account_name * Z);
  node_key_blacklist : list public_key_type;
  resource_greylist : list account_name;
  force_all_checks : bool;
  disable_replay_opts : bool;
  allow_ram_billing_in_notify : bool;
  light_block_validation : bool
}.

(** The members of the controller the rules read: the status of the pending block,
    [in_trx_requiring_checks] and [trusted_producer_light_validation]. *)
Record controller_status := mk_status {
  pending_status : option block_status;
  in_trx_requiring_checks : bool;
  trusted_producer_light_validation : bool
}.

Definition light_validation_allowed (conf : controller_config) (st : controller_status)
    (replay_opts_disabled_by_policy : bool) : bool :=
  match pending_status st with
  | None => false
  | Some pb_status =>
      if in_trx_requiring_checks st then false
      else
        let consider_skipping_on_replay :=
          bool_decide (pb_status = irreversible \/ pb_status = validated) && negb replay_opts_disabled_by_policy in
        let consider_skipping_on_validate :=
          bool_decide (pb_status = complete) && (light_block_validation conf || trusted_producer_light_validation st) in
        consider_skipping_on_replay || consider_skipping_on_validate
  end.

Definition skip_auth_check (conf : controller_config) (st : controller_status) : bool :=
  light_validation_allowed conf st (force_all_checks conf).
Definition skip_trx_checks (conf : controller_config) (st : controller_status) : bool :=
  light_validation_allowed conf st (disable_replay_opts conf).
Definition is_producing_block (st : controller_status) : bool := bool_decide (pending_status st = Some incomplete).
Definition is_ram_billing_in_notify_allowed (conf : controller_config) (st : controller_status) : bool :=
  negb (is_producing_block st) || allow_ram_billing_in_notify conf.
Definition is_resource_greylisted (conf : controller_config) (name : account_name) : bool :=
  bool_decide (name ∈ resource_greylist conf).

(** ** Lists *)

Definition sender_avoids_whitelist_blacklist_enforcement (conf : controller_config) (sender : account_name) : bool :=
  bool_decide (sender ∈ sender_bypass_whiteblacklist conf).

(** [std::lower_bound( lower, end, x )]: an iterator is what lies from it on. *)
Fixpoint lower_bound (l : list account_name) (x : account_name) : list account_name :=
  match l with
  | [] => []
  | y :: l' => if y <? x then lower_bound l' x else l
  end.

(** The loop over the actors against a whitelist. *)
Fixpoint subset_loop (lower actors : list account_name) : bool :=
  match actors with
  | [] => true
  | actor :: actors =>
      match lower_bound lower actor with
      | [] => false
      | y :: rest => if y =? actor then subset_loop rest actors else false
      end
  end.

(** The loop over the actors against a blacklist. *)
Fixpoint intersects_loop (lower actors : list account_name) : bool :=
  match actors with
  | [] => false
  | actor :: actors =>
      match lower_bound lower actor with
      | [] => false
      | y :: rest => if y =? actor then true else intersects_loop (y :: rest) actors
      end
  end.

(** [*cbegin()] and [*crbegin()] of a set that is not empty. *)
Definition set_first (l : list account_name) : account_name := default 0 (head l).
Definition set_last (l : list account_name) : account_name := default 0 (last l).

Definition check_actor_list (conf : controller_config) (actors : list account_name) : result unit :=
  if bool_decide (actors = []) then mret tt
  else if negb (bool_decide (actor_whitelist conf = [])) then
    let whitelist := actor_whitelist conf in
    let is_subset :=
      if (set_first whitelist <=? set_first actors) && (set_last actors <=? set_last whitelist)
      then subset_loop whitelist actors else false in
    SNAX_ASSERT is_subset actor_whitelist_exception
  else if negb (bool_decide (actor_blacklist conf = [])) then
    let blacklist := actor_blacklist conf in
    let intersects :=
      if (set_first actors <=? set_last blacklist) && (set_first blacklist <=? set_last actors)
      then intersects_loop blacklist actors else false in
    SNAX_ASSERT (negb intersects) actor_blacklist_exception
  else mret tt.

Definition check_contract_list (conf : controller_config) (code : account_name) : result unit :=
  if negb (bool_decide (contract_whitelist conf = [])) then
    SNAX_ASSERT (bool_decide (code ∈ contract_whitelist conf)) contract_whitelist_exception
  else if negb (bool_decide (contract_blacklist conf = [])) then
    SNAX_ASSERT (negb (bool_decide (code ∈ contract_blacklist conf))) contract_blacklist_exception
  else mret tt.

Definition check_action_list (conf : controller_config) (code : account_name) (action : Z) : result unit :=
  SNAX_ASSERT (negb (bool_decide ((code, action) ∈ action_blacklist conf))) action_blacklist_exception.

(** ** The lists mean what they say *)

Section Lists.

Notation ascending := (StronglySorted Z.lt).

Lemma lower_bound_sorted l x : ascending l -> ascending (lower_bound l x).
Proof. induction 1 as [|y l Hl IH Hy]; simpl; [constructor|]. destruct (y <? x); [done|by constructor]. Qed.

(** Nothing from [x] on is skipped. *)
Lemma lower_bound_elem l x z : ascending l -> x <= z -> z ∈ lower_bound l x <-> z ∈ l.
Proof.
  intros Hl Hz. induction Hl as [|y l Hl IH Hy]; simpl; [done|].
  destruct (Z.ltb_spec y x); [|done]. rewrite IH, elem_of_cons. naive_solver lia.
Qed.

Lemma lower_bound_ge l x : ascending l -> Forall (fun z => x <= z) (lower_bound l x).
Proof.
  induction 1 as [|y l Hl IH Hy]; simpl; [constructor|]. destruct (Z.ltb_spec y x); [done|].
  constructor; [done|]. eapply Forall_impl; [exact Hy|]. simpl. lia.
Qed.

Lemma above_head x l z : Forall (Z.lt x) l -> z ∈ l -> x < z.
Proof. intros Hl Hz. by apply (proj1 (Forall_forall _ _) Hl). Qed.

Lemma subset_loop_spec actors : forall l, ascending l -> ascending actors ->
  subset_loop l actors = true <-> (forall a, a ∈ actors -> a ∈ l).
Proof.
  induction actors as [|a actors IH]; intros l Hl Ha; simpl; [set_solver|].
  apply StronglySorted_inv in Ha as [Ha Hgt].
  pose proof (lower_bound_elem l a) as Hlb. pose proof (lower_bound_sorted l a Hl) as Hs. pose proof (lower_bound_ge l a Hl) as Hg.
  destruct (lower_bound l a) as [|y rest] eqn:E.
  { split; [done|]. intros Hsub. pose proof (proj2 (Hlb a Hl ltac:(lia)) (Hsub a ltac:(left))). set_solver. }
  apply StronglySorted_inv in Hs as [Hs Hy]. inversion_clear Hg as [|? ? Hya Hg'].
  destruct (Z.eqb_spec y a) as [->|Hne].
  - rewrite IH by done. split.
    + intros Hsub b [->|Hb]%elem_of_cons; [apply (Hlb a); [done|lia|left]|].
      pose proof (above_head _ _ _ Hgt Hb). apply (Hlb b); [done|lia|]. right. by apply Hsub.
    + intros Hsub b Hb. pose proof (above_head _ _ _ Hgt Hb).
      assert (b ∈ a :: rest) as [->|Hr]%elem_of_cons by (apply Hlb; [done|lia|apply Hsub; by right]); [lia|done].
  - split; [done|]. intros Hsub. exfalso.
    assert (a ∈ y :: rest) as [->|Hr]%elem_of_cons by (apply Hlb; [done|lia|apply Hsub; left]); [done|].
    pose proof (above_head _ _ _ Hy Hr). lia.
Qed.

Lemma intersects_loop_spec actors : forall l, ascending l -> ascending actors ->
  intersects_loop l actors = true <-> exists a, a ∈ actors /\ a ∈ l.
Proof.
  induction actors as [|a actors IH]; intros l Hl Ha; simpl; [set_solver|].
  apply StronglySorted_inv in Ha as [Ha Hgt].
  pose proof (lower_bound_elem l a) as Hlb. pose proof (lower_bound_sorted l a Hl) as Hs. pose proof (lower_bound_ge l a Hl) as Hg.
  assert (forall b, b ∈ a :: actors -> a <= b) as Hge.
  { intros b [->|Hb]%elem_of_cons; [lia|]. pose proof (above_head _ _ _ Hgt Hb). lia. }
  destruct (lower_bound l a) as [|y rest] eqn:E.
  { split; [done|]. intros (b & Hb & Hin). pose proof (proj2 (Hlb b Hl (Hge b Hb)) Hin). set_solver. }
  destruct (Z.eqb_spec y a) as [->|Hne].
  - split; [|done]. intros _. exists a. split; [left|]. apply (Hlb a); [done|lia|left].
  - rewrite IH by done. split.
    + intros (b & Hb & Hin). exists b. split; [by right|]. apply (Hlb b); [done| |done]. apply Hge. by right.
    + intros (b & Hb & Hin). exists b. pose proof (proj2 (Hlb b Hl (Hge b Hb)) Hin) as Hin'. split; [|done].
      apply elem_of_cons in Hb as [->|Hb]; [|done]. exfalso. inversion_clear Hg as [|? ? Hya Hg'].
      apply elem_of_cons in Hin' as [->|Hr]; [done|]. apply StronglySorted_inv in Hs as [_ Hy]. pose proof (above_head _ _ _ Hy Hr). lia.
Qed.

Lemma set_first_le l x : ascending l -> x ∈ l -> set_first l <= x.
Proof.
  destruct 1 as [|y l Hl Hy]; [set_solver|]. intros [->|Hx]%elem_of_cons; simpl; [unfold set_first; simpl; lia|].
  pose proof (above_head _ _ _ Hy Hx). unfold set_first. simpl. lia.
Qed.

Lemma set_last_ge l x : ascending l -> x ∈ l -> x <= set_last l.
Proof.
  unfold set_last. induction 1 as [|y l Hl IH Hy]; [set_solver|]. rewrite last_cons. intros [->|Hx]%elem_of_cons.
  - destruct (last l) as [z|] eqn:E; simpl; [|lia]. apply last_Some_elem_of in E. pose proof (above_head _ _ _ Hy E). lia.
  - specialize (IH Hx). destruct (last l) eqn:E; simpl in *; [done|]. apply last_None in E as ->. set_solver.
Qed.

Lemma set_first_elem l : l <> [] -> set_first l ∈ l.
Proof. destruct l; [done|]. intros _. left. Qed.
Lemma set_last_elem l : l <> [] -> set_last l ∈ l.
Proof.
  intros Hl. unfold set_last. destruct (last l) as [z|] eqn:E; [by apply last_Some_elem_of|]. by apply last_None in E.
Qed.

End Lists.

(** What [check_actor_list] is for. *)
Definition actors_allowed (conf : controller_config) (actors : list account_name) : Prop :=
  if decide (actor_whitelist conf = []) then forall a, a ∈ actors -> a ∉ actor_blacklist conf
  else forall a, a ∈ actors -> a ∈ actor_whitelist conf.

(** For sorted lists [check_actor_list], with its quick test of the extents and
    its single pass, accepts exactly the sets of actors that are all on the
    whitelist or, without a whitelist, not on the blacklist. *)
Theorem check_actor_list_exact conf actors
  (Hw : StronglySorted Z.lt (actor_whitelist conf)) (Hb : StronglySorted Z.lt (actor_blacklist conf))
  (Ha : StronglySorted Z.lt actors) :
  check_actor_list conf actors = Ok tt <-> actors_allowed conf actors.
Proof.
  unfold check_actor_list, actors_allowed. case_bool_decide as He; [subst; case_decide; set_solver|].
  case_decide as Hw0.
  - rewrite bool_decide_true by done. simpl. case_bool_decide as Hb0; simpl; [rewrite Hb0; set_solver|].
    rewrite assert_Ok, negb_true_iff. destruct (_ && _) eqn:Ex.
    + rewrite <- not_true_iff_false, intersects_loop_spec by done. naive_solver.
    + split; [|done]. intros _ a Hin Hbl. apply andb_false_iff in Ex. rewrite !Z.leb_gt in Ex.
      pose proof (set_first_le _ _ Ha Hin). pose proof (set_last_ge _ _ Ha Hin).
      pose proof (set_first_le _ _ Hb Hbl). pose proof (set_last_ge _ _ Hb Hbl). lia.
  - rewrite bool_decide_false by done. simpl. rewrite assert_Ok. destruct (_ && _) eqn:Ex; [by apply subset_loop_spec|].
    split; [done|]. intros Hsub. apply andb_false_iff in Ex. rewrite !Z.leb_gt in Ex.
    pose proof (set_first_le _ _ Hw (Hsub _ (set_first_elem _ He))). pose proof (set_last_ge _ _ Hw (Hsub _ (set_last_elem _ He))). lia.
Qed.

(** ** Valid configurations *)

Definition chain_config_u32 (c : chain_config) : Prop :=
  is_u32 (cc_max_transaction_net_usage c) /\ is_u32 (cc_base_per_transaction_net_usage c) /\
  is_u32 (cc_max_block_cpu_usage c) /\ is_u32 (cc_max_transaction_cpu_usage c) /\ is_u32 (cc_min_transaction_cpu_usage c) /\
  is_u32 (cc_context_free_discount_net_usage_num c).

(** What [validate_chain_config] guarantees: the subtractions do not wrap, a block
    has room for one transaction of any allowed size next to one of the least
    CPU, and there is always a positive amount to bill. *)
Lemma validate_chain_config_room c :
  chain_config_u32 c -> validate_chain_config c = Ok tt ->
  cc_base_per_transaction_net_usage c + min_net_usage_delta_between_base_and_max_for_trx <= cc_max_transaction_net_usage c /\
  cc_max_transaction_net_usage c < cc_max_block_net_usage c /\
  cc_min_transaction_cpu_usage c <= cc_max_transaction_cpu_usage c /\
  cc_max_transaction_cpu_usage c + cc_min_transaction_cpu_usage c < cc_max_block_cpu_usage c /\
  0 < cc_context_free_discount_net_usage_den c /\ 1 <= cc_max_authority_depth c.
Proof.
  unfold chain_config_u32, is_u32. intros Hr E. unfold validate_chain_config in E. inv_ok. split_bool.
  match goal with Hx : min_net_usage_delta_between_base_and_max_for_trx <= u32 ?x |- _ =>
    assert (u32 x = x) as Hx1 by (apply u32_small; unfold is_u32; lia); rewrite Hx1 in Hx end.
  match goal with Hx : _ < u32 ?x |- _ =>
    assert (u32 x = x) as Hx2 by (apply u32_small; unfold is_u32; lia); rewrite Hx2 in Hx end.
  unfold min_net_usage_delta_between_base_and_max_for_trx in *. lia.
Qed.

(** [operator ==] is true of configurations that differ in the least CPU time of a
    transaction and in the duration of the platform lock. *)
Example chain_config_eqb_ignores :
  exists a b, chain_config_eqb a b = true /\ cc_min_transaction_cpu_usage a <> cc_min_transaction_cpu_usage b /\
    cc_platform_lock_duration a <> cc_platform_lock_duration b.
Proof.
  exists (mk_chain_config 1 1 1 1 1 1 1 1 1 1 100 1 1 1 10 1 1 1 1 1 1), (mk_chain_config 1 1 1 1 1 1 1 1 1 1 200 1 1 1 20 1 1 1 1 1 1).
  split_and!; [reflexivity|done|done].
Qed.

Example genesis_configuration_valid : validate_chain_config genesis_configuration = Ok tt.
Proof. reflexivity. Qed.

Definition listed_node : controller_config := mk_node [] [3; 5; 8; 13] [] [] [] [] [] [] false false false false.

Lemma check_actor_list_exact_witness : check_actor_list listed_node [5; 13] = Ok tt <-> actors_allowed listed_node [5; 13].
Proof. apply check_actor_list_exact; repeat constructor. Defined.
