(* ===== verification/Transaction.v ===== *)
(** * Transactions

    [transaction.hpp], [transaction.cpp] and [transaction_metadata.hpp] of
    [libraries/chain]: headers and their reference block, the digest that is
    signed, recovery of the signing keys with its cache, and packed transactions.
    Packing, hashing and compression are outside the repository. *)

From Stdlib Require Import ZArith Lia Bool.
From stdpp Require Import base numbers gmap list.
From S2P Require Import Prelude Merkle BlockHeader Authority Permissions.

Open Scope Z_scope.

(** ** Data *)

(** The header and the body; an extension is a tag with its bytes. *)
Record transaction := mk_transaction {
  tr_expiration : Z;
  tr_ref_block_num : Z;
  tr_ref_block_prefix : Z;
  tr_max_net_usage_words : Z;
  tr_max_cpu_usage_ms : Z;
  tr_delay_sec : Z;
  tr_context_free_actions : list action;
  tr_actions : list action;
  tr_extensions : list (Z * list Z)
}.

Record signed_transaction := mk_signed {
  st_trx : transaction;
  st_signatures : list signature_type;
  st_context_free_data : list (list Z)
}.

(** [fc] and [boost::iostreams]: packing, sha256 of what is packed, zlib. *)
Class TransactionData := {
  pack_transaction : transaction -> list Z;
  raw_unpack_transaction : list Z -> result transaction;
  hash_transaction : transaction -> digest;
  hash_signing : digest -> transaction -> digest -> digest;
  hash_context_free_data : list (list Z) -> digest;
  pack_context_free : list (list Z) -> list Z;
  raw_unpack_context_free : list Z -> result (list (list Z));
  zlib_deflate : list Z -> list Z;
  zlib_inflate : list Z -> result (list Z)
}.

Class TransactionDataLaws `{TransactionData} : Prop := {
  unpack_pack_transaction t : raw_unpack_transaction (pack_transaction t) = Ok t;
  unpack_pack_context_free d : raw_unpack_context_free (pack_context_free d) = Ok d;
  pack_context_free_nonempty d : pack_context_free d <> [];
  inflate_deflate b : zlib_inflate (zlib_deflate b) = Ok b;
  deflate_nonempty b : zlib_deflate b <> []
}.

(** ** Headers *)

Definition with_header (t : transaction) (expiration ref_block_num ref_block_prefix : Z) : transaction :=
  mk_transaction expiration ref_block_num ref_block_prefix (tr_max_net_usage_words t) (tr_max_cpu_usage_ms t)
    (tr_delay_sec t) (tr_context_free_actions t) (tr_actions t) (tr_extensions t).

Section Headers.
Context `{Crypto}.

Definition set_reference_block (t : transaction) (reference_block : digest) : transaction :=
  with_header t (tr_expiration t) (u16 (endian_reverse_u32 (u32 (hash0 reference_block)))) (u32 (hash1 reference_block)).

Definition verify_reference_block (t : transaction) (reference_block : digest) : bool :=
  (tr_ref_block_num t =? u16 (endian_reverse_u32 (u32 (hash0 reference_block)))) &&
  (tr_ref_block_prefix t =? u32 (hash1 reference_block)).

End Headers.

(** [transaction_header::validate]. *)
Definition validate_header (t : transaction) : result unit :=
  SNAX_ASSERT (tr_max_net_usage_words t <? UINT32_MAX / 8) transaction_exception.

Definition total_actions (t : transaction) : Z :=
  u32 (Z.of_nat (length (tr_context_free_actions t)) + Z.of_nat (length (tr_actions t))).

(** The actor of the first authorization of any action. *)
Definition first_authorizor (t : transaction) : account_name :=
  match tr_actions t ≫= act_authorization with
  | [] => 0
  | u :: _ => u.1
  end.

(** ** Signing keys *)

Record cached_pub_key := mk_cached { ck_trx_id : digest; ck_pub_key : public_key_type; ck_sig : signature_type }.

(** In the order of insertion; signatures are unique. *)
Notation recovery_cache := (list cached_pub_key) (only parsing).

Definition by_sig (c : recovery_cache) (sig : signature_type) : option cached_pub_key :=
  snd <$> list_find (fun e => ck_sig e = sig) c.

Definition emplace_back (c : recovery_cache) (e : cached_pub_key) : recovery_cache :=
  match by_sig c (ck_sig e) with Some _ => c | None => c ++ [e] end.

Definition recovery_cache_size : nat := 1000.

(** [while( size() > recovery_cache_size ) erase( begin() )]. *)
Definition trim_cache (c : recovery_cache) : recovery_cache := drop (length c - recovery_cache_size) c.

Section Keys.
Context `{Crypto} `{TransactionData}.

Definition sig_digest (chain_id : digest) (t : transaction) (cfd : list (list Z)) : digest :=
  hash_signing chain_id t (match cfd with [] => zero_digest | _ => hash_context_free_data cfd end).

(** One signature: the key, from the cache when it holds the signature for a
    transaction of this id. *)
Definition recover (use_cache : bool) (trx_id dig : digest) (sig : signature_type) : M recovery_cache public_key_type :=
  if use_cache then
    c ← get_state;
    match by_sig c sig with
    | Some it =>
        if bool_decide (ck_trx_id it = trx_id) then mret (ck_pub_key it)
        else recov ← lift (recover_key sig dig true); put_state (emplace_back c (mk_cached trx_id recov sig));; mret recov
    | None => recov ← lift (recover_key sig dig true); put_state (emplace_back c (mk_cached trx_id recov sig));; mret recov
    end
  else lift (recover_key sig dig true).

(** The loop over the signatures; the set of keys in the order of insertion. *)
Fixpoint recover_all (use_cache allow_duplicate_keys : bool) (trx_id dig : digest) (sigs : list signature_type)
    (recovered : list public_key_type) : M recovery_cache (list public_key_type) :=
  match sigs with
  | [] => mret recovered
  | sig :: sigs =>
      recov ← recover use_cache trx_id dig sig;
      let successful_insertion := negb (bool_decide (recov ∈ recovered)) in
      M_ASSERT (allow_duplicate_keys || successful_insertion) tx_duplicate_sig;;
      recover_all use_cache allow_duplicate_keys trx_id dig sigs (if successful_insertion then recovered ++ [recov] else recovered)
  end.

Definition get_signature_keys (t : signed_transaction) (chain_id : digest) (allow_duplicate_keys use_cache : bool) :
    M recovery_cache (list public_key_type) :=
  keys ← recover_all use_cache allow_duplicate_keys (hash_transaction (st_trx t))
           (sig_digest chain_id (st_trx t) (st_context_free_data t)) (st_signatures t) [];
  (if use_cache then c ← get_state; put_state (trim_cache c) else mret tt);;
  mret keys.

End Keys.

(** ** Packed transactions *)

Inductive compression_type := none | zlib.

(** The enumeration is a byte of the wire format, so other values arrive too. *)
Record packed_transaction := mk_packed {
  pk_signatures : list signature_type;
  pk_compression : option compression_type;
  pk_packed_context_free_data : list Z;
  pk_packed_trx : list Z;
  pk_unpacked_trx : option transaction
}.

Definition fixed_net_overhead_of_packed_trx : Z := 16.

Section Packed.
Context `{TransactionData}.

Definition get_unprunable_size (p : packed_transaction) : result Z :=
  let size := fixed_net_overhead_of_packed_trx + Z.of_nat (length (pk_packed_trx p)) in
  SNAX_ASSERT (size <=? UINT32_MAX) tx_too_big;; mret size.

(** [pack_signatures] is [fc::raw::pack_size( signatures )]. *)
Definition get_prunable_size (pack_signatures : list signature_type -> Z) (p : packed_transaction) : result Z :=
  let size := pack_signatures (pk_signatures p) + Z.of_nat (length (pk_packed_context_free_data p)) in
  SNAX_ASSERT (size <=? UINT32_MAX) tx_too_big;; mret size.

(** The limit of the [read_limiter]. *)
Definition zlib_decompress (data : list Z) : result (list Z) :=
  out ← zlib_inflate data;
  SNAX_ASSERT (Z.of_nat (length out) <=? 1 * 1024 * 1024) tx_decompression_error;;
  mret out.

Definition unpack_context_free_data (data : list Z) : result (list (list Z)) :=
  match data with [] => mret [] | _ => raw_unpack_context_free data end.
Definition zlib_decompress_context_free_data (data : list Z) : result (list (list Z)) :=
  match data with [] => mret [] | _ => out ← zlib_decompress data; unpack_context_free_data out end.
Definition zlib_decompress_transaction (data : list Z) : result transaction :=
  out ← zlib_decompress data; raw_unpack_transaction out.

Definition pack_context_free_data (cfd : list (list Z)) : list Z :=
  match cfd with [] => [] | _ => pack_context_free cfd end.
Definition zlib_compress_context_free_data (cfd : list (list Z)) : list Z :=
  match cfd with [] => [] | _ => zlib_deflate (pack_context_free_data cfd) end.
Definition zlib_compress_transaction (t : transaction) : list Z := zlib_deflate (pack_transaction t).

Definition get_raw_transaction (p : packed_transaction) : result (list Z) :=
  match pk_compression p with
  | Some none => mret (pk_packed_trx p)
  | Some zlib => zlib_decompress (pk_packed_trx p)
  | None => Err unknown_transaction_compression
  end.

Definition get_context_free_data (p : packed_transaction) : result (list (list Z)) :=
  match pk_compression p with
  | Some none => unpack_context_free_data (pk_packed_context_free_data p)
  | Some zlib => zlib_decompress_context_free_data (pk_packed_context_free_data p)
  | None => Err unknown_transaction_compression
  end.

Definition set_unpacked (p : packed_transaction) (t : transaction) : packed_transaction :=
  mk_packed (pk_signatures p) (pk_compression p) (pk_packed_context_free_data p) (pk_packed_trx p) (Some t).

(** [local_unpack]: what was unpacked once is kept. *)
Definition local_unpack (p : packed_transaction) : result packed_transaction :=
  match pk_unpacked_trx p with
  | Some _ => mret p
  | None =>
      t ← match pk_compression p with
          | Some none => raw_unpack_transaction (pk_packed_trx p)
          | Some zlib => zlib_decompress_transaction (pk_packed_trx p)
          | None => Err unknown_transaction_compression
          end;
      mret (set_unpacked p t)
  end.

Definition get_transaction (p : packed_transaction) : result (packed_transaction * transaction) :=
  p ← local_unpack p;
  t ← of_option undefined_behavior (pk_unpacked_trx p);
  mret (p, t).

Definition packed_id (p : packed_transaction) : result (packed_transaction * digest) :=
  '(p, t) ← get_transaction p; mret (p, hash_transaction t).

Definition get_uncached_id (p : packed_transaction) : result digest :=
  raw ← get_raw_transaction p; t ← raw_unpack_transaction raw; mret (hash_transaction t).

Definition get_signed_transaction (p : packed_transaction) : result (packed_transaction * signed_transaction) :=
  match pk_compression p with
  | None => Err unknown_transaction_compression
  | Some _ =>
      '(p, t) ← get_transaction p;
      cfd ← get_context_free_data p;
      mret (p, mk_signed t (pk_signatures p) cfd)
  end.

(** [set_transaction( t, _compression )]. *)
Definition set_transaction (p : packed_transaction) (t : transaction) (compression : compression_type) : packed_transaction :=
  mk_packed (pk_signatures p) (Some compression) []
    match compression with none => pack_transaction t | zlib => zlib_compress_transaction t end (pk_unpacked_trx p).

(** [set_transaction( t, cfd, _compression )]. *)
Definition set_transaction_data (p : packed_transaction) (t : transaction) (cfd : list (list Z))
    (compression : compression_type) : packed_transaction :=
  mk_packed (pk_signatures p) (Some compression)
    match compression with none => pack_context_free_data cfd | zlib => zlib_compress_context_free_data cfd end
    match compression with none => pack_transaction t | zlib => zlib_compress_transaction t end (pk_unpacked_trx p).

(** The constructor from a signed transaction. *)
Definition packed_of_signed (t : signed_transaction) (compression : compression_type) : packed_transaction :=
  set_transaction_data (mk_packed (st_signatures t) (Some none) [] [] None) (st_trx t) (st_context_free_data t) compression.

End Packed.

(** [transaction_metadata]: what a node keeps of a transaction. [signed_id] is the
    hash of the packed transaction; the future of the signing keys is filled by
    the thread pool with [get_signature_keys]. *)
Record transaction_metadata := mk_metadata {
  md_id : digest;
  md_trx : signed_transaction;
  md_packed_trx : packed_transaction;
  md_signing_keys : option (digest * list public_key_type);
  md_implicit : bool
}.

Section Metadata.
Context `{Crypto} `{TransactionData}.

Definition metadata_of_packed (p : packed_transaction) : result transaction_metadata :=
  '(p', t) ← get_signed_transaction p;
  mret (mk_metadata (hash_transaction (st_trx t)) t p' None false).

(** [recover_keys] without a future. *)
Definition recover_keys (m : transaction_metadata) (chain_id : digest) :
    M recovery_cache (transaction_metadata * list public_key_type) :=
  match md_signing_keys m with
  | Some (c, keys) =>
      if bool_decide (c = chain_id) then mret (m, keys)
      else keys ← get_signature_keys (md_trx m) chain_id false true;
           mret (mk_metadata (md_id m) (md_trx m) (md_packed_trx m) (Some (chain_id, keys)) (md_implicit m), keys)
  | None =>
      keys ← get_signature_keys (md_trx m) chain_id false true;
      mret (mk_metadata (md_id m) (md_trx m) (md_packed_trx m) (Some (chain_id, keys)) (md_implicit m), keys)
  end.

End Metadata.
