(* ===== verification/TransactionProofs.v ===== *)
(** * Properties of transactions

    The recovery cache is transparent for transactions whose id determines what
    was signed, and only for those; packing and unpacking a signed transaction
    gives it back; a transaction refers to the block it was given. *)

From Stdlib Require Import ZArith Lia Bool.
From stdpp Require Import base numbers gmap list.
From S2P Require Import Prelude Merkle BlockHeader Authority Permissions Transaction.

Open Scope Z_scope.

(** ** The recovery cache *)

Section Cache.
Context `{Crypto} `{TransactionData} (chain_id : digest).

Definition signed_digest (t : signed_transaction) : digest := sig_digest chain_id (st_trx t) (st_context_free_data t).
Definition signed_trx_id (t : signed_transaction) : digest := hash_transaction (st_trx t).

(** The calls of a thread, one after the other, on its cache. *)
Fixpoint key_calls (use_cache : bool) (c : list cached_pub_key) (calls : list (signed_transaction * bool)) :
    list (result (list public_key_type)) :=
  match calls with
  | [] => []
  | (t, allow) :: calls => let '(c, r) := get_signature_keys t chain_id allow use_cache c in r :: key_calls use_cache c calls
  end.

(** Transactions of the same id were signed with the same context-free data. *)
Definition id_determines_digest (P : signed_transaction -> Prop) : Prop :=
  forall x y, P x -> P y -> signed_trx_id x = signed_trx_id y -> signed_digest x = signed_digest y.

Definition entry_sound (P : signed_transaction -> Prop) (e : cached_pub_key) : Prop :=
  exists x, P x /\ signed_trx_id x = ck_trx_id e /\ recover_key (ck_sig e) (signed_digest x) true = Ok (ck_pub_key e).

Lemma by_sig_Some c sig e : by_sig c sig = Some e -> e ∈ c /\ ck_sig e = sig.
Proof.
  unfold by_sig. destruct (list_find _ c) as [[i e']|] eqn:E; [|done]. intros [= ->].
  apply list_find_Some in E as (Hi & Hs & _). split; [by eapply list_elem_of_lookup_2|done].
Qed.

Lemma emplace_back_sound P c e : Forall (entry_sound P) c -> entry_sound P e -> Forall (entry_sound P) (emplace_back c e).
Proof. intros Hc He. unfold emplace_back. destruct (by_sig c (ck_sig e)); [done|]. apply Forall_app. by repeat constructor. Qed.

Lemma recover_sound P x c sig : id_determines_digest P -> P x -> Forall (entry_sound P) c ->
  exists c', recover true (signed_trx_id x) (signed_digest x) sig c = (c', recover_key sig (signed_digest x) true) /\ Forall (entry_sound P) c'.
Proof.
  intros Hid Hx Hc.
  assert (exists c', (lift (recover_key sig (signed_digest x) true) ≫= fun recov =>
      put_state (emplace_back c (mk_cached (signed_trx_id x) recov sig));; mret recov) c = (c', recover_key sig (signed_digest x) true) /\
      Forall (entry_sound P) c') as Hfresh.
  { unfold mbind, M_bind, lift, put_state, mret, M_ret. destruct (recover_key sig (signed_digest x) true) as [k|e] eqn:E; [|by eauto].
    eexists. split; [done|]. apply emplace_back_sound; [done|]. by exists x. }
  unfold recover, get_state. unfold mbind at 1, M_bind at 1. destruct (by_sig c sig) as [it|] eqn:Eit; [|done].
  case_bool_decide as Hd; [|done]. exists c. split; [|done]. apply by_sig_Some in Eit as [Hin <-].
  destruct (proj1 (Forall_forall _ _) Hc it Hin) as (y & Hy & Hi & Hk).
  unfold mret, M_ret. rewrite <- (Hid y x Hy Hx), Hk by congruence. done.
Qed.

Lemma recover_all_sound P x allow sigs : id_determines_digest P -> P x -> forall rec c c0, Forall (entry_sound P) c ->
  exists c', recover_all true allow (signed_trx_id x) (signed_digest x) sigs rec c =
    (c', (recover_all false allow (signed_trx_id x) (signed_digest x) sigs rec c0).2) /\ Forall (entry_sound P) c'.
Proof.
  intros Hid Hx. induction sigs as [|sig sigs IH]; intros rec c c0 Hc; cbn [recover_all]; [by eauto|].
  destruct (recover_sound P x c sig Hid Hx Hc) as (c1 & E & Hc1). unfold mbind, M_bind. rewrite E. unfold recover, lift.
  destruct (recover_key sig (signed_digest x) true) as [k|e]; simpl; [|by eauto].
  unfold M_ASSERT. destruct (allow || _); unfold mret, M_ret, throw; [by apply IH|by eauto].
Qed.

Lemma get_signature_keys_sound P x allow c c0 : id_determines_digest P -> P x -> Forall (entry_sound P) c ->
  exists c', get_signature_keys x chain_id allow true c = (c', (get_signature_keys x chain_id allow false c0).2) /\ Forall (entry_sound P) c'.
Proof.
  intros Hid Hx Hc. unfold get_signature_keys.
  destruct (recover_all_sound P x allow (st_signatures x) Hid Hx [] c c0 Hc) as (c1 & E & Hc1).
  unfold signed_trx_id, signed_digest in E. unfold mbind, M_bind. rewrite E.
  destruct (recover_all false _ _ _ _ _ c0) as [c2 [ks|e]]; simpl; [|by eauto].
  unfold get_state, put_state, mret, M_ret. eexists. split; [done|]. unfold trim_cache. by apply Forall_drop.
Qed.

(** For transactions whose id determines what was signed, a thread that keeps
    the keys it recovered answers every sequence of calls as one that recovers
    them every time. *)
Theorem recovery_cache_transparent calls
  (Hid : id_determines_digest (fun x => x ∈ calls.*1)) :
  key_calls true [] calls = key_calls false [] calls.
Proof.
  set (P := fun x => x ∈ calls.*1) in *.
  assert (forall l c c0, Forall (entry_sound P) c -> (forall x, x ∈ l.*1 -> P x) -> key_calls true c l = key_calls false c0 l) as Hall.
  { induction l as [|[x allow] l IH]; intros c c0 Hc Hl; [done|]. simpl.
    destruct (get_signature_keys_sound P x allow c c0) as (c1 & -> & Hc1); [done|apply Hl; left|done|].
    destruct (get_signature_keys x chain_id allow false c0) as [c2 r]. simpl. f_equal. apply IH; [done|]. intros y Hy. apply Hl. by right. }
  apply Hall; [constructor|done].
Qed.

End Cache.

(** ** Packed transactions *)

Section PackedProofs.
Context `{TransactionDataLaws}.

(** Data that is decompressed again fits the limit. *)
Definition fits (compression : compression_type) (t : signed_transaction) : Prop :=
  compression = zlib -> Z.of_nat (length (pack_transaction (st_trx t))) <= 1024 * 1024 /\
    Z.of_nat (length (pack_context_free (st_context_free_data t))) <= 1024 * 1024.

Lemma zlib_decompress_deflate b : Z.of_nat (length b) <= 1024 * 1024 -> zlib_decompress (zlib_deflate b) = Ok b.
Proof. intros Hb. unfold zlib_decompress. rewrite inflate_deflate. simpl. by rewrite (proj2 (Z.leb_le _ _)). Qed.

Lemma unpack_pack_data d : unpack_context_free_data (pack_context_free_data d) = Ok d.
Proof.
  destruct d as [|x d]; [done|]. unfold unpack_context_free_data, pack_context_free_data.
  pose proof (pack_context_free_nonempty (x :: d)) as Hne. destruct (pack_context_free (x :: d)) eqn:E; [done|].
  rewrite <- E. apply unpack_pack_context_free.
Qed.

Lemma decompress_compress_data d : Z.of_nat (length (pack_context_free d)) <= 1024 * 1024 ->
  zlib_decompress_context_free_data (zlib_compress_context_free_data d) = Ok d.
Proof.
  intros Hd. destruct d as [|x d]; [done|]. unfold zlib_compress_context_free_data.
  set (b := pack_context_free_data (x :: d)). unfold zlib_decompress_context_free_data.
  pose proof (deflate_nonempty b) as Hne. destruct (zlib_deflate b) eqn:E; [done|]. rewrite <- E.
  rewrite zlib_decompress_deflate by done. simpl. apply unpack_pack_data.
Qed.

(** A signed transaction packed with either compression unpacks to itself, with
    its signatures and context-free data, and the id read from the packed bytes is
    its id; compressed parts of more than a megabyte excepted. *)
Theorem packed_roundtrip t compression (Hfits : fits compression t) :
  exists p', get_signed_transaction (packed_of_signed t compression) = Ok (p', t) /\
    get_uncached_id (packed_of_signed t compression) = Ok (hash_transaction (st_trx t)) /\
    packed_id (packed_of_signed t compression) = Ok (p', hash_transaction (st_trx t)).
Proof.
  destruct t as [t sigs cfd], compression; unfold packed_of_signed, set_transaction_data, get_signed_transaction, packed_id, get_uncached_id,
    get_transaction, local_unpack, get_context_free_data, get_raw_transaction; simpl.
  - rewrite unpack_pack_transaction. simpl. rewrite unpack_pack_data. simpl. eauto.
  - destruct (Hfits eq_refl) as [H1 H2]. unfold zlib_decompress_transaction, zlib_compress_transaction. simpl in *.
    rewrite zlib_decompress_deflate by done. simpl. rewrite unpack_pack_transaction. simpl.
    rewrite decompress_compress_data by done. simpl. eauto.
Qed.

(** A transaction that was read once is still returned after another one was set:
    [set_transaction] leaves the unpacked copy in place. *)
Lemma set_transaction_stale p p' t u c : get_transaction p = Ok (p', t) -> exists p'', get_transaction (set_transaction p' u c) = Ok (p'', t).
Proof.
  intros E. unfold get_transaction in E. apply bind_Ok in E as (p1 & _ & E). apply bind_Ok in E as (t1 & Ht & E). injection E as -> ->.
  apply of_option_Ok in Ht. unfold get_transaction, local_unpack, set_transaction. simpl. rewrite Ht. simpl. eauto.
Qed.

End PackedProofs.

(** ** Reference blocks *)

Section Reference.
Context `{CryptoLaws}.

Lemma set_reference_block_verified t b : verify_reference_block (set_reference_block t b) b = true.
Proof. unfold verify_reference_block, set_reference_block. simpl. by rewrite !Z.eqb_refl. Qed.

(** The block referred to has the number the header names, up to the size of the
    ring of block summaries. *)
Lemma verify_reference_block_num t b : verify_reference_block t b = true -> tr_ref_block_num t = u16 (num_from_id b).
Proof. unfold verify_reference_block, num_from_id. intros E. split_bool. done. Qed.

End Reference.

(** ** Concrete transactions *)

Module TransactionDemo.

(** A toy crypto where a signature is the sum of the key and the digest. *)
#[local] Instance sum_crypto : Crypto := {|
  hash_header := fun _ => zero_digest; hash_schedule := fun _ => zero_digest; hash_pair := fun _ => zero_digest;
  recover_key := fun sig d _ => Ok (sig - hash0 d); endian_reverse_u32 := fun x => x
|}.

(** Packing is any injection into the numbers. *)
#[local] Instance action_eq_dec : EqDecision action.
Proof. solve_decision. Defined.
#[local] Instance action_countable : Countable action.
Proof.
  refine (inj_countable' (fun a => (act_account a, act_name a, act_authorization a, act_data a)) (fun '(a, n, l, d) => mk_action a n l d) _).
  by intros [].
Defined.
#[local] Instance transaction_eq_dec : EqDecision transaction.
Proof. solve_decision. Defined.
#[local] Instance transaction_countable : Countable transaction.
Proof.
  refine (inj_countable'
    (fun t => (tr_expiration t, tr_ref_block_num t, tr_ref_block_prefix t, tr_max_net_usage_words t, tr_max_cpu_usage_ms t, tr_delay_sec t,
               (tr_context_free_actions t, tr_actions t, tr_extensions t)))
    (fun '(e, n, p, w, c, d, (f, a, x)) => mk_transaction e n p w c d f a x) _).
  by intros [].
Defined.

Definition pack_number {A} `{Countable A} (a : A) : list Z := [Z.pos (encode a)].
Definition unpack_number {A} `{Countable A} (l : list Z) : result A :=
  match l with [Z.pos p] => of_option parse_error (decode p) | _ => Err parse_error end.
Lemma unpack_pack_number {A} `{Countable A} (a : A) : unpack_number (pack_number a) = Ok a.
Proof. simpl. by rewrite decode_encode. Qed.

Definition delayed (d : Z) : transaction := mk_transaction 0 0 0 0 0 d [] [] [].

#[local] Instance demo_data : TransactionData := {|
  pack_transaction := pack_number; raw_unpack_transaction := unpack_number;
  hash_transaction := fun t => mk_digest (tr_delay_sec t) 0 0 0;
  hash_signing := fun _ t d => mk_digest (tr_delay_sec t + hash0 d) 0 0 0;
  hash_context_free_data := fun d => mk_digest (100 * Z.of_nat (length d)) 0 0 0;
  pack_context_free := pack_number; raw_unpack_context_free := unpack_number;
  zlib_deflate := fun b => 0 :: b; zlib_inflate := fun b => Ok (tail b)
|}.
#[local] Instance demo_data_laws : TransactionDataLaws.
Proof. split; try done; intros; apply unpack_pack_number. Qed.

Definition signed (d sig : Z) (cfd : list (list Z)) : signed_transaction := mk_signed (delayed d) [sig] cfd.

Lemma recovery_cache_transparent_witness :
  key_calls zero_digest true [] [(signed 3 50 [], false); (signed 4 50 [[1]], false); (signed 3 50 [], false)] = [Ok [47]; Ok [-54]; Ok [47]].
Proof.
  rewrite recovery_cache_transparent; [reflexivity|]. intros x y Hx Hy. repeat (apply elem_of_cons in Hx as [-> | Hx]); repeat (apply elem_of_cons in Hy as [-> | Hy]);
    try reflexivity; try discriminate; set_solver.
Defined.

Lemma packed_roundtrip_witness :
  exists p', get_signed_transaction (packed_of_signed (signed 3 50 [[1; 2]; []]) zlib) = Ok (p', signed 3 50 [[1; 2]; []]) /\
    get_uncached_id (packed_of_signed (signed 3 50 [[1; 2]; []]) zlib) = Ok (mk_digest 3 0 0 0) /\
    packed_id (packed_of_signed (signed 3 50 [[1; 2]; []]) zlib) = Ok (p', mk_digest 3 0 0 0).
Proof. refine (packed_roundtrip (signed 3 50 [[1; 2]; []]) zlib _). by intros _. Defined.

(** Once the keys of a transaction are cached its context-free data can be
    exchanged: the signature is still attributed to the key that signed the
    original. *)
Example cached_forgery :
  key_calls zero_digest true [] [(signed 3 50 [], false); (signed 3 50 [[1]], false)] = [Ok [47]; Ok [47]] /\
  key_calls zero_digest false [] [(signed 3 50 [], false); (signed 3 50 [[1]], false)] = [Ok [47]; Ok [-53]].
Proof. split; reflexivity. Qed.

End TransactionDemo.
