(* ===== verification/Block.v ===== *)
(** * Blocks

    [block.hpp] of [libraries/chain]: the receipts of transactions and the block
    that carries them. *)

From Stdlib Require Import ZArith Bool.
From stdpp Require Import base numbers list.
From S2P Require Import Prelude Merkle BlockHeader Transaction.

Open Scope Z_scope.

Inductive receipt_status := executed | soft_fail | hard_fail | delayed | expired.
#[export] Instance receipt_status_eq_dec : EqDecision receipt_status.
Proof. solve_decision. Defined.

(** A receipt is for a scheduled transaction's id or for a packed transaction. *)
Record transaction_receipt := mk_trx_receipt {
  tp_status : receipt_status;
  tp_cpu_usage_us : Z;
  tp_net_usage_words : Z;
  tp_trx : digest + packed_transaction
}.

Record signed_block := mk_block {
  sb_header : signed_block_header;
  sb_transactions : list transaction_receipt;
  sb_extensions : list (Z * list Z)
}.

(** [operator==] of receipt headers. *)
Definition same_receipt (r r' : transaction_receipt) : bool :=
  bool_decide (tp_status r = tp_status r') && (tp_cpu_usage_us r =? tp_cpu_usage_us r') && (tp_net_usage_words r =? tp_net_usage_words r').
