(* ===== verification/ForkDatabase.v ===== *)
(** * The fork database

    [fork_database.hpp], [fork_database.cpp], [block_state.hpp] and
    [block_state.cpp] of [libraries/chain]: the blocks that are not yet irreversible, the choice of the head block and
    the bookkeeping when a block becomes invalid or irreversible.

    Block states are shared objects: the index, the head and the callers hold
    pointers, so the model has a store of block states and the index is a list
    of pointers. The secondary indices of the multi-index container are
    functions of the store and the index; their order among equal keys is left
    open ([IndexOrder]). An operation keeps what it wrote before an exception. *)

From Stdlib Require Import ZArith Lia Bool.
From stdpp Require Import base numbers gmap sorting list.
From S2P Require Import Prelude Merkle BlockTime BlockHeader Transaction Block.

Open Scope Z_scope.

(** ** Block states *)

Record block_state := mk_block_state {
  bs_header_state : block_header_state;
  block : signed_block;
  validated : bool;
  in_current_chain : bool;
  trxs : list transaction_metadata
}.

Definition bs_id (b : block_state) : digest := id (bs_header_state b).
Definition bs_num (b : block_state) : Z := block_num (bs_header_state b).
Definition bs_prev (b : block_state) : digest := previous (sbh_header (header (bs_header_state b))).
Definition bs_dpos (b : block_state) : Z := dpos_irreversible_blocknum (bs_header_state b).
Definition bs_bft (b : block_state) : Z := bft_irreversible_blocknum (bs_header_state b).

Definition default_schedule : producer_schedule_type := mk_schedule 0 [].

Definition default_header_state : block_header_state := {|
  id := zero_digest; block_num := 0;
  header := mk_signed_header default_header 0;
  dpos_proposed_irreversible_blocknum := 0; dpos_irreversible_blocknum := 0;
  bft_irreversible_blocknum := 0; pending_schedule_lib_num := 0;
  pending_schedule_hash := zero_digest; pending_schedule := default_schedule;
  active_schedule := default_schedule; blockroot_merkle := empty_imerkle;
  producer_to_last_produced := ∅; producer_to_last_implied_irb := ∅;
  block_signing_key := default_key; confirm_count := []; confirmations := []
|}.

#[export] Instance block_state_inhabited : Inhabited block_state :=
  populate (mk_block_state default_header_state
    (mk_block (mk_signed_header default_header 0) [] []) false false []).

(** Assignments to members of a block state. *)
Definition set_header_state (b : block_state) (s : block_header_state) : block_state :=
  mk_block_state s (block b) (validated b) (in_current_chain b) (trxs b).
Definition set_validated (b : block_state) (v : bool) : block_state :=
  mk_block_state (bs_header_state b) (block b) v (in_current_chain b) (trxs b).
Definition set_in_current_chain (b : block_state) (v : bool) : block_state :=
  mk_block_state (bs_header_state b) (block b) (validated b) v (trxs b).

Definition set_bft (b : block_state) (n : Z) : block_state :=
  let s := bs_header_state b in
  set_header_state b {|
    id := id s;
    block_num := block_num s;
    header := header s;
    dpos_proposed_irreversible_blocknum := dpos_proposed_irreversible_blocknum s;
    dpos_irreversible_blocknum := dpos_irreversible_blocknum s;
    bft_irreversible_blocknum := n;
    pending_schedule_lib_num := pending_schedule_lib_num s;
    pending_schedule_hash := pending_schedule_hash s;
    pending_schedule := pending_schedule s;
    active_schedule := active_schedule s;
    blockroot_merkle := blockroot_merkle s;
    producer_to_last_produced := producer_to_last_produced s;
    producer_to_last_implied_irb := producer_to_last_implied_irb s;
    block_signing_key := block_signing_key s;
    confirm_count := confirm_count s;
    confirmations := confirmations s
  |}.

(** ** The store and the index *)

Definition block_state_ptr : Type := nat.
Definition heap : Type := gmap nat block_state.

Record fork_database := mk_fork_database {
  store : heap;
  next_ptr : block_state_ptr;
  index : list block_state_ptr;
  head : option block_state_ptr;
  emitted : list block_state_ptr (* the [irreversible] signals sent so far *)
}.

Definition set_store (d : fork_database) (h : heap) : fork_database :=
  mk_fork_database h (next_ptr d) (index d) (head d) (emitted d).
Definition set_index (d : fork_database) (i : list block_state_ptr) : fork_database :=
  mk_fork_database (store d) (next_ptr d) i (head d) (emitted d).
Definition set_head (d : fork_database) (p : option block_state_ptr) : fork_database :=
  mk_fork_database (store d) (next_ptr d) (index d) p (emitted d).
Definition add_emitted (d : fork_database) (p : block_state_ptr) : fork_database :=
  mk_fork_database (store d) (next_ptr d) (index d) (head d) (emitted d ++ [p]).

(** [*p] for a pointer the container or the caller holds. *)
Definition at_ (h : heap) (p : block_state_ptr) : block_state := h !!! p.

(** [composite_key_compare< std::greater, std::greater, std::greater >]: [a] is
    strictly before [b]. *)
Definition lib_before (a b : block_state) : bool :=
  (bs_dpos b <? bs_dpos a) ||
  ((bs_dpos a =? bs_dpos b) &&
   ((bs_bft b <? bs_bft a) || ((bs_bft a =? bs_bft b) && (bs_num b <? bs_num a)))).

(** [composite_key_compare< std::less<uint32_t>, std::greater<bool> >]. *)
Definition num_before (a b : block_state) : bool :=
  (bs_num a <? bs_num b) ||
  ((bs_num a =? bs_num b) && (in_current_chain a && negb (in_current_chain b))).

(** The iteration orders of the four indices of [fork_multi_index_type]. *)
Class IndexOrder := {
  by_block_id : heap -> list block_state_ptr -> list block_state_ptr;
  by_prev : heap -> list block_state_ptr -> list block_state_ptr;
  by_block_num : heap -> list block_state_ptr -> list block_state_ptr;
  by_lib_block_num : heap -> list block_state_ptr -> list block_state_ptr
}.

(** An ordered index holds the elements of the container in an order in which
    no element is strictly before an earlier one, and erasing elements does not
    move the others. *)
Class IndexOrderLaws `{IndexOrder} : Prop := {
  by_block_id_perm h l : by_block_id h l ≡ₚ l;
  by_prev_perm h l : by_prev h l ≡ₚ l;
  by_block_num_perm h l : by_block_num h l ≡ₚ l;
  by_block_num_sorted h l :
    StronglySorted (fun p q => num_before (at_ h q) (at_ h p) = false) (by_block_num h l);
  by_block_num_erase h l (P : block_state_ptr -> Prop) `{forall p, Decision (P p)} :
    by_block_num h (filter P l) = filter P (by_block_num h l);
  by_lib_perm h l : by_lib_block_num h l ≡ₚ l;
  by_lib_sorted h l :
    StronglySorted (fun p q => lib_before (at_ h q) (at_ h p) = false) (by_lib_block_num h l)
}.

(** [find] of the unique hashed index. *)
Definition find_id (d : fork_database) (i : digest) : option block_state_ptr :=
  snd <$> list_find (fun p => bs_id (at_ (store d) p) = i) (index d).

(** [insert]: refused when an element with the id is there. *)
Definition insert_index (p : block_state_ptr) : M fork_database bool := fun d =>
  match find_id d (bs_id (at_ (store d) p)) with
  | Some _ => (d, Ok false)
  | None => (set_index d (index d ++ [p]), Ok true)
  end.

Definition erase_index (d : fork_database) (p : block_state_ptr) : fork_database :=
  set_index d (filter (fun q => q <> p) (index d)).

(** Write through a pointer. *)
Definition update_at (p : block_state_ptr) (f : block_state -> block_state) : M fork_database unit :=
  fun d => (set_store d (<[p := f (at_ (store d) p)]> (store d)), Ok tt).

(** The element after [p]. *)
Fixpoint successor (p : block_state_ptr) (l : list block_state_ptr) : option block_state_ptr :=
  match l with
  | [] => None
  | q :: l' => if decide (q = p) then List.hd_error l' else successor p l'
  end.

Section ForkDatabase.
Context `{Crypto} `{IndexOrder}.

(** [*idx.begin()]. *)
Definition begin_of (l : list block_state_ptr) : result block_state_ptr :=
  of_option undefined_behavior (List.hd_error l).

Definition children (d : fork_database) (i : digest) : list block_state_ptr :=
  filter (fun p => bs_prev (at_ (store d) p) = i) (by_prev (store d) (index d)).

Definition get_block (d : fork_database) (i : digest) : option block_state_ptr := find_id d i.

(** [lower_bound( n )] of the index on block number. *)
Definition lower_bound_num (d : fork_database) (n : Z) : option block_state_ptr :=
  snd <$> list_find (fun p => n <= bs_num (at_ (store d) p)) (by_block_num (store d) (index d)).

Definition get_block_in_current_chain_by_num (d : fork_database) (n : Z) : option block_state_ptr :=
  match lower_bound_num d n with
  | None => None
  | Some p =>
      let b := at_ (store d) p in
      if negb (bs_num b =? n) || negb (in_current_chain b) then None else Some p
  end.

(** [block_state( prev, when )]. *)
Definition block_state_at (prev : block_header_state) (when : Z) : result block_state :=
  s ← generate_next prev when;
  mret (mk_block_state s (mk_block (mk_signed_header (sbh_header (header s)) 0) [] [])
          false false []).

(** [block_state( prev, b, skip_validate_signee )]. *)
Definition block_state_of (prev : block_header_state) (b : signed_block) (skip : bool) :
    result block_state :=
  s ← BlockHeader.next prev (sb_header b) skip;
  mret (mk_block_state s b false false []).

(** [std::make_shared<block_state>]. *)
Definition make_shared (b : block_state) : M fork_database block_state_ptr := fun d =>
  (mk_fork_database (<[next_ptr d := b]> (store d)) (S (next_ptr d)) (index d) (head d) (emitted d),
   Ok (next_ptr d)).

(** ** Operations *)

Definition set (s : block_state_ptr) : M fork_database unit :=
  inserted ← insert_index s;
  d ← get_state;
  let b := at_ (store d) s in
  M_ASSERT (bool_decide (bs_id b = header_id (sbh_header (BlockHeader.header (bs_header_state b)))))
    fork_database_exception;;
  M_ASSERT inserted fork_database_exception;;
  match head d with
  | None => put_state (set_head d (Some s))
  | Some hd =>
      if bs_num (at_ (store d) hd) <? bs_num b then put_state (set_head d (Some s)) else mret tt
  end.

(** One pass of the [for] loop of [remove] for each entry of the queue from
    [i] on. *)
Fixpoint remove_loop (fuel : nat) (i : nat) (remove_queue : list digest) : M fork_database unit :=
  match fuel with
  | O => throw out_of_fuel
  | S fuel =>
      match remove_queue !! i with
      | None => mret tt
      | Some x =>
          d ← get_state;
          let d := match find_id d x with Some itr => erase_index d itr | None => d end in
          put_state d;;
          let pushed := (fun p => bs_id (at_ (store d) p)) <$> children d x in
          remove_loop fuel (S i) (remove_queue ++ pushed)
      end
  end.

Definition remove (i : digest) : M fork_database unit :=
  d ← get_state;
  remove_loop (2 + length (index d)) 0 [i];;
  d ← get_state;
  best ← lift (begin_of (by_lib_block_num (store d) (index d)));
  put_state (set_head d (Some best)).

Definition set_validity (h : block_state_ptr) (valid : bool) : M fork_database unit :=
  d ← get_state;
  if negb valid then remove (bs_id (at_ (store d) h))
  else update_at h (fun b => set_validated b true).

Definition mark_in_current_chain (h : block_state_ptr) (v : bool) : M fork_database unit :=
  d ← get_state;
  let b := at_ (store d) h in
  if Bool.eqb (in_current_chain b) v then mret tt
  else
    match find_id d (bs_id b) with
    | None => throw fork_db_block_not_found
    | Some itr => update_at itr (fun b => set_in_current_chain b v)
    end.

(** The handlers connected to the [irreversible] signal. *)
Context (on_irreversible : block_state -> result unit).

(** [while( bni != by_bn.end() && ( *bni)->block_num < num )]. *)
Fixpoint prune_older (fuel : nat) (prune : block_state_ptr -> M fork_database unit) (num : Z) :
    M fork_database unit :=
  match fuel with
  | O => throw out_of_fuel
  | S fuel =>
      d ← get_state;
      match List.hd_error (by_block_num (store d) (index d)) with
      | None => mret tt
      | Some bni =>
          if bs_num (at_ (store d) bni) <? num then prune bni;; prune_older fuel prune num
          else mret tt
      end
  end.

(** [while( nitr != numidx.end() && ( *nitr)->block_num == num )]; an iterator to
    an erased element must not be used. *)
Fixpoint prune_forks (fuel : nat) (num : Z) (nitr : option block_state_ptr) : M fork_database unit :=
  match fuel, nitr with
  | O, _ => throw out_of_fuel
  | S _, None => mret tt
  | S fuel, Some p =>
      d ← get_state;
      if negb (bool_decide (p ∈ index d)) then throw undefined_behavior
      else if bs_num (at_ (store d) p) =? num then
        let nitr := successor p (by_block_num (store d) (index d)) in
        remove (bs_id (at_ (store d) p));;
        prune_forks fuel num nitr
      else mret tt
  end.

Fixpoint prune (fuel : nat) (h : block_state_ptr) : M fork_database unit :=
  match fuel with
  | O => throw out_of_fuel
  | S fuel =>
      catch_all (
        d ← get_state;
        let num := bs_num (at_ (store d) h) in
        prune_older fuel (prune fuel) num;;
        d ← get_state;
        match find_id d (bs_id (at_ (store d) h)) with
        | None => mret tt
        | Some itr =>
            put_state (add_emitted d itr);;
            lift (on_irreversible (at_ (store d) itr));;
            d ← get_state;
            put_state (erase_index d itr)
        end;;
        d ← get_state;
        prune_forks fuel num (lower_bound_num d num))
  end.

(** More than the blocks of the index: every pass of a loop of [prune] removes
    one. *)
Definition prune_fuel (d : fork_database) : nat := 2 + length (index d).

(** [add( const block_state_ptr&, bool )]; [None] is the null pointer. *)
Definition add_state (n : option block_state_ptr) (skip_validate_previous : bool) :
    M fork_database block_state_ptr :=
  n ← lift (of_option fork_database_exception n);
  d ← get_state;
  M_ASSERT (match head d with Some _ => true | None => false end) fork_db_block_not_found;;
  (if negb skip_validate_previous then
     let prior := find_id d (previous (sbh_header (sb_header (block (at_ (store d) n))))) in
     M_ASSERT (match prior with Some _ => true | None => false end) unlinkable_block_exception
   else mret tt);;
  inserted ← insert_index n;
  M_ASSERT inserted fork_database_exception;;
  d ← get_state;
  best ← lift (begin_of (by_lib_block_num (store d) (index d)));
  put_state (set_head d (Some best));;
  let lib := bs_dpos (at_ (store d) best) in
  oldest ← lift (begin_of (by_block_num (store d) (index d)));
  (if bs_num (at_ (store d) oldest) <? lib then prune (prune_fuel d) oldest else mret tt);;
  mret n.

(** [add( signed_block_ptr, bool )]. *)
Definition add_block (b : option signed_block) (skip_validate_signee : bool) :
    M fork_database block_state_ptr :=
  b ← lift (of_option fork_database_exception b);
  d ← get_state;
  M_ASSERT (match head d with Some _ => true | None => false end) fork_db_block_not_found;;
  M_ASSERT (match find_id d (header_id (sbh_header (sb_header b))) with
            | Some _ => false | None => true end) fork_database_exception;;
  prior ← lift (of_option unlinkable_block_exception
                  (find_id d (previous (sbh_header (sb_header b)))));
  s ← lift (block_state_of (bs_header_state (at_ (store d) prior)) b skip_validate_signee);
  p ← make_shared s;
  add_state (Some p) true.

(** ** Branches *)

(** [while( first_branch->block_num > num )], with the branch read so far. When
    the parent is missing, the arguments of the message dereference the null
    pointer. *)
Fixpoint walk_down (fuel : nat) (d : fork_database) (p : block_state_ptr) (num : Z)
    (acc : list block_state_ptr) : result (block_state_ptr * list block_state_ptr) :=
  match fuel with
  | O => Err out_of_fuel
  | S fuel =>
      if num <? bs_num (at_ (store d) p) then
        match get_block d (bs_prev (at_ (store d) p)) with
        | None => Err undefined_behavior
        | Some q => walk_down fuel d q num (acc ++ [p])
        end
      else Ok (p, acc)
  end.

(** [while( first_branch->header.previous != second_branch->header.previous )]
    and the final [push_back]s. *)
Fixpoint walk_both (fuel : nat) (d : fork_database) (p q : block_state_ptr)
    (ps qs : list block_state_ptr) : result (list block_state_ptr * list block_state_ptr) :=
  match fuel with
  | O => Err out_of_fuel
  | S fuel =>
      if bool_decide (bs_prev (at_ (store d) p) = bs_prev (at_ (store d) q)) then
        Ok (ps ++ [p], qs ++ [q])
      else
        match get_block d (bs_prev (at_ (store d) p)), get_block d (bs_prev (at_ (store d) q)) with
        | Some p', Some q' => walk_both fuel d p' q' (ps ++ [p]) (qs ++ [q])
        | _, _ => Err undefined_behavior
        end
  end.

(** A missing [first] or [second] is a null pointer that the first loop
    condition dereferences. *)
Definition fetch_branch_from (d : fork_database) (first second : digest) :
    result (list block_state_ptr * list block_state_ptr) :=
  let fuel := S (length (index d)) in
  p ← of_option undefined_behavior (get_block d first);
  q ← of_option undefined_behavior (get_block d second);
  '(p, ps) ← walk_down fuel d p (bs_num (at_ (store d) q)) [];
  '(q, qs) ← walk_down fuel d q (bs_num (at_ (store d) p)) [];
  walk_both fuel d p q ps qs.

(** ** BFT irreversibility *)

(** The inner [while( pitr != epitr )] over the children of one block. *)
Fixpoint update_children (num : Z) (ps : list block_state_ptr) (h : heap) (updated : list digest) :
    heap * list digest :=
  match ps with
  | [] => (h, updated)
  | p :: ps =>
      let b := at_ h p in
      if bs_bft b <? num then
        update_children num ps (<[p := set_bft b num]> h) (updated ++ [bs_id b])
      else update_children num ps h updated
  end.

(** The lambda [update]: one layer of the traversal. *)
Fixpoint update_layer (num : Z) (ids : list digest) (d : fork_database) (updated : list digest) :
    fork_database * list digest :=
  match ids with
  | [] => (d, updated)
  | i :: ids =>
      let '(h, updated) := update_children num (children d i) (store d) updated in
      update_layer num ids (set_store d h) updated
  end.

Fixpoint update_queue (fuel : nat) (num : Z) (queue : list digest) (d : fork_database) :
    fork_database * result unit :=
  match queue, fuel with
  | [], _ => (d, Ok tt)
  | _, O => (d, Err out_of_fuel)
  | _, S fuel => let '(d, queue) := update_layer num queue d [] in update_queue fuel num queue d
  end.

Definition set_bft_irreversible (i : digest) : M fork_database unit :=
  d ← get_state;
  itr ← lift (of_option undefined_behavior (find_id d i));
  let num := bs_num (at_ (store d) itr) in
  update_at itr (fun b => set_bft b (bs_num b));;
  update_queue (S (length (index d))) num [i].

(** [add( const header_confirmation& )]. *)
Definition add_header_confirmation (c : header_confirmation) : M fork_database unit :=
  d ← get_state;
  p ← lift (of_option fork_db_block_not_found (get_block d (conf_block_id c)));
  s ← lift (add_confirmation (bs_header_state (at_ (store d) p)) c);
  update_at p (fun b => set_header_state b s);;
  if (bft_irreversible_blocknum s <? block_num s) &&
     (Z.of_nat (length (producers (active_schedule s))) * 2 / 3 + 1
        <=? Z.of_nat (length (confirmations s)))
  then set_bft_irreversible (conf_block_id c)
  else mret tt.

(** ** Saving and loading

    [close] writes the block states and the id of the head to a file, prunes
    the irreversible tail and empties the index; the constructor reads them
    back. The packing into bytes belongs to [fc]. *)
Definition close : M fork_database (option (list block_state * digest)) :=
  d ← get_state;
  match index d with
  | [] => mret None
  | _ =>
      let saved := at_ (store d) <$> by_block_id (store d) (index d) in
      let head_id := match head d with Some p => bs_id (at_ (store d) p) | None => zero_digest end in
      hd ← lift (of_option undefined_behavior (head d));
      let lib := bs_dpos (at_ (store d) hd) in
      oldest ← lift (begin_of (by_block_num (store d) (index d)));
      (if bs_num (at_ (store d) oldest) <=? lib then prune (prune_fuel d) oldest else mret tt);;
      d ← get_state;
      put_state (set_index d []);;
      mret (Some (saved, head_id))
  end.

Definition empty_fork_database : fork_database := mk_fork_database ∅ 0%nat [] None [].

Fixpoint set_all (bs : list block_state) : M fork_database unit :=
  match bs with
  | [] => mret tt
  | b :: bs => p ← make_shared b; set p;; set_all bs
  end.

Definition open_fork_database (saved : option (list block_state * digest)) :
    fork_database * result unit :=
  match saved with
  | None => (empty_fork_database, Ok tt)
  | Some (bs, head_id) =>
      (set_all bs;;
       d ← get_state;
       put_state (set_head d (get_block d head_id))) empty_fork_database
  end.

End ForkDatabase.
