(* ===== verification/ForkDatabaseProofs.v ===== *)
(** * Properties of the fork database

    What [remove] removes, the head the database chooses, the branches
    [fetch_branch_from] returns, the traversal of [set_bft_irreversible], and
    saving and loading ([ForkDatabase.v] has the model). *)

From Stdlib Require Import ZArith Lia Bool.
From stdpp Require Import base numbers gmap sorting sets list.
From S2P Require Import Prelude Merkle BlockTime BlockHeader BlockHeaderProofs Transaction Block ForkDatabase.

Open Scope Z_scope.

(** ** Well-formed databases *)

Definition id_at (d : fork_database) (p : block_state_ptr) : digest := bs_id (at_ (store d) p).
Definition prev_at (d : fork_database) (p : block_state_ptr) : digest := bs_prev (at_ (store d) p).
Definition num_at (d : fork_database) (p : block_state_ptr) : Z := bs_num (at_ (store d) p).
Definition bft_at (d : fork_database) (p : block_state_ptr) : Z := bs_bft (at_ (store d) p).

(** Different elements of the index have different ids, and a block's number is
    one more than its predecessor's. *)
Record fdb_wf (d : fork_database) : Prop := {
  wf_nodup : NoDup (index d);
  wf_unique p q : p ∈ index d -> q ∈ index d -> id_at d p = id_at d q -> p = q;
  wf_linked p q : p ∈ index d -> q ∈ index d -> prev_at d p = id_at d q ->
    num_at d p = num_at d q + 1
}.

(** [descends d i x]: [x] is [i] or a block of the index built on it. *)
Inductive descends (d : fork_database) (i : digest) : digest -> Prop :=
| descends_self : descends d i i
| descends_child p : p ∈ index d -> descends d i (prev_at d p) -> descends d i (id_at d p).

Lemma find_id_Some_1 d i p : find_id d i = Some p -> p ∈ index d /\ id_at d p = i.
Proof.
  unfold find_id. intros ([k q] & E & Hq)%fmap_Some. simpl in Hq. subst q.
  apply list_find_Some in E as (Hl & Hp & _). split; [by eapply list_elem_of_lookup_2|done].
Qed.

Lemma find_id_None d i : find_id d i = None <-> forall p, p ∈ index d -> id_at d p <> i.
Proof.
  unfold find_id. rewrite fmap_None, list_find_None, Forall_forall. done.
Qed.

Lemma find_id_unique d p : fdb_wf d -> p ∈ index d -> find_id d (id_at d p) = Some p.
Proof.
  intros Hw Hp. destruct (find_id d (id_at d p)) as [q|] eqn:E.
  - apply find_id_Some_1 in E as [Hq E]. f_equal. symmetry. by eapply wf_unique.
  - rewrite find_id_None in E. by eapply E in Hp.
Qed.

Lemma find_id_Some d i p : fdb_wf d -> find_id d i = Some p <-> p ∈ index d /\ id_at d p = i.
Proof.
  intros Hw. split; [apply find_id_Some_1|]. intros [Hp <-]. by apply find_id_unique.
Qed.

Lemma begin_of_Ok l p : begin_of l = Ok p <-> List.hd_error l = Some p.
Proof. apply of_option_Ok. Qed.

Lemma begin_of_min (R : nat -> nat -> Prop) l p :
  StronglySorted R l -> begin_of l = Ok p ->
  p ∈ l /\ forall q, q ∈ l -> q = p \/ R p q.
Proof.
  rewrite begin_of_Ok. destruct 1 as [|x l Hs Hx]; intros [= <-]. split; [by left|].
  intros q [->|Hq]%elem_of_cons; [by left|right]. by eapply Forall_forall in Hx.
Qed.

Lemma lib_before_irrefl b : lib_before b b = false.
Proof. unfold lib_before. rewrite !Z.ltb_irrefl, !andb_false_r. done. Qed.

Section Proofs.
Context `{Crypto} `{IndexOrderLaws}.

Lemma elem_of_by_lib h l p : p ∈ by_lib_block_num h l <-> p ∈ l.
Proof. by rewrite by_lib_perm. Qed.
Lemma elem_of_by_num h l p : p ∈ by_block_num h l <-> p ∈ l.
Proof. by rewrite by_block_num_perm. Qed.

Lemma elem_of_children d i p : p ∈ children d i <-> p ∈ index d /\ prev_at d p = i.
Proof. unfold children. rewrite list_elem_of_filter, by_prev_perm. unfold prev_at. tauto. Qed.

(** [b] comes first among the blocks of the index. *)
Definition is_best (d : fork_database) (b : block_state_ptr) : Prop :=
  b ∈ index d /\ forall p, p ∈ index d -> lib_before (at_ (store d) p) (at_ (store d) b) = false.

Lemma begin_by_lib d b :
  begin_of (by_lib_block_num (store d) (index d)) = Ok b -> is_best d b.
Proof.
  intros E. destruct (begin_of_min _ _ _ (by_lib_sorted _ _) E) as [Hb Hm].
  rewrite elem_of_by_lib in Hb. split; [done|]. intros p Hp.
  rewrite <- (elem_of_by_lib (store d)) in Hp. apply Hm in Hp as [->|Hp]; [|done].
  apply lib_before_irrefl.
Qed.

Lemma begin_perm_ok l l' : l ≡ₚ l' -> l' <> [] -> exists b, begin_of l = Ok b.
Proof.
  intros Hp Hl. destruct l as [|b l]; [by apply Permutation_nil in Hp|]. by exists b.
Qed.

(** ** Removal *)

Lemma erase_found d x :
  fdb_wf d ->
  match find_id d x with Some itr => erase_index d itr | None => d end =
  set_index d (filter (fun p => id_at d p <> x) (index d)).
Proof.
  intros Hw. destruct (find_id d x) as [itr|] eqn:E.
  - unfold erase_index. f_equal. apply find_id_Some_1 in E as [Hi <-].
    apply filter_ext_in. intros p Hp. split; [|congruence].
    intros Hne Heq. by apply (wf_unique d Hw) in Heq.
  - rewrite find_id_None in E. rewrite filter_all by done. by destruct d.
Qed.

(** A sub-list of the index is as well formed. *)
Lemma wf_filter d (P : block_state_ptr -> Prop) `{forall p, Decision (P p)} :
  fdb_wf d -> fdb_wf (set_index d (filter P (index d))).
Proof.
  intros [Hn Hu Hl]. constructor; simpl.
  - by apply NoDup_filter.
  - intros p q [_ Hp]%list_elem_of_filter [_ Hq]%list_elem_of_filter. by apply Hu.
  - intros p q [_ Hp]%list_elem_of_filter [_ Hq]%list_elem_of_filter. by apply Hl.
Qed.

(** The state of the loop of [remove] before entry [i] of the queue: the blocks
    of the entries before [i] are gone, every block built on one of them is in
    the queue, and every later entry was pushed for a block of the index. *)
Record remove_inv (d0 : fork_database) (x0 : digest) (i : nat) (rq : list digest)
    (d : fork_database) : Prop := {
  rm_state : d = set_index d0 (filter (fun p => id_at d0 p ∉ take i rq) (index d0));
  rm_bound : (i <= length rq)%nat;
  rm_first : rq !! 0%nat = Some x0;
  rm_nodup : NoDup rq;
  rm_desc x : x ∈ rq -> descends d0 x0 x;
  rm_pushed k x : rq !! S k = Some x ->
    exists p, p ∈ index d0 /\ id_at d0 p = x /\ prev_at d0 p ∈ take i rq;
  rm_closed p : p ∈ index d0 -> prev_at d0 p ∈ take i rq -> id_at d0 p ∈ rq
}.

Lemma remove_inv_length d0 x0 i rq d :
  remove_inv d0 x0 i rq d -> (length rq <= 1 + length (index d0))%nat.
Proof.
  intros Hinv. destruct rq as [|x rest]; [simpl; lia|]. simpl.
  assert (rest ⊆+ id_at d0 <$> index d0) as Hs.
  { apply NoDup_submseteq; [by apply NoDup_cons_1_2 with x, (rm_nodup _ _ _ _ _ Hinv)|].
    intros y [k Hk]%list_elem_of_lookup_1.
    destruct (rm_pushed _ _ _ _ _ Hinv k y Hk) as (p & Hp & <- & _). by apply list_elem_of_fmap_2. }
  apply submseteq_length in Hs. rewrite length_fmap in Hs. lia.
Qed.

Lemma take_step {A} (l m : list A) i x :
  l !! i = Some x -> take (S i) (l ++ m) = take i l ++ [x].
Proof.
  intros Hx. apply lookup_lt_Some in Hx as Hl.
  rewrite take_app_le by lia. by apply take_S_r.
Qed.

(** An element whose predecessor is entry [i] is pushed for the first time. *)
Lemma remove_inv_fresh d0 x0 i rq d x p :
  fdb_wf d0 -> remove_inv d0 x0 i rq d -> rq !! i = Some x ->
  p ∈ index d0 -> prev_at d0 p = x -> id_at d0 p ∉ take (S i) rq -> id_at d0 p ∉ rq.
Proof.
  intros Hw Hinv Hx Hp Hprev Hnt [k Hk]%list_elem_of_lookup_1. apply Hnt.
  destruct k as [|k].
  { rewrite <- (take_drop (S i) rq) in Hk. destruct rq as [|r rq']; [done|]. simpl in *. set_solver. }
  destruct (rm_pushed _ _ _ _ _ Hinv k _ Hk) as (q & Hq & Hid & Hqt).
  apply (wf_unique d0 Hw) in Hid as ->; [|done..]. exfalso. rewrite Hprev in Hqt.
  apply list_elem_of_lookup_1 in Hqt as [j Hj]. apply lookup_lt_Some in Hj as Hjl.
  rewrite length_take in Hjl. rewrite lookup_take_lt in Hj by lia.
  pose proof (NoDup_lookup _ _ _ _ (rm_nodup _ _ _ _ _ Hinv) Hj Hx). lia.
Qed.

Lemma remove_inv_step d0 x0 i rq d x :
  fdb_wf d0 -> remove_inv d0 x0 i rq d -> rq !! i = Some x ->
  let d1 := match find_id d x with Some itr => erase_index d itr | None => d end in
  remove_inv d0 x0 (S i) (rq ++ (id_at d1 <$> children d1 x)) d1.
Proof.
  intros Hw Hinv Hx d1. apply lookup_lt_Some in Hx as Hlt.
  pose proof (rm_state _ _ _ _ _ Hinv) as Hd.
  assert (d1 = set_index d0 (filter (fun p => id_at d0 p ∉ take (S i) rq) (index d0))) as Hd1.
  { unfold d1. rewrite erase_found by (rewrite Hd; by apply wf_filter). rewrite Hd.
    unfold set_index; simpl. f_equal. rewrite list_filter_filter. apply filter_ext_in.
    intros p _. rewrite (take_S_r _ _ x) by done. unfold id_at. simpl.
    rewrite not_elem_of_app, list_elem_of_singleton. naive_solver. }
  assert (forall p, p ∈ children d1 x <->
    p ∈ index d0 /\ prev_at d0 p = x /\ id_at d0 p ∉ take (S i) rq) as Hch.
  { intros p. rewrite elem_of_children, Hd1. simpl. rewrite list_elem_of_filter. unfold prev_at. simpl.
    naive_solver. }
  assert (forall p, id_at d1 p = id_at d0 p) as Hid by (intros p; by rewrite Hd1).
  assert (x ∈ take (S i) rq) as Hxt by (rewrite (take_S_r _ _ x) by done; set_solver).
  constructor.
  - by rewrite take_app_le by lia.
  - rewrite length_app. lia.
  - rewrite lookup_app_l by lia. apply (rm_first _ _ _ _ _ Hinv).
  - apply NoDup_app. split_and!; [apply (rm_nodup _ _ _ _ _ Hinv)| |].
    + intros y Hy (p & -> & Hp)%list_elem_of_fmap. apply Hch in Hp as (Hp & Hpr & Hnt).
      rewrite Hid in Hy. by eapply remove_inv_fresh in Hy.
    + apply NoDup_fmap_2_strong.
      * intros p q Hp Hq. rewrite !Hid. apply Hch in Hp as [Hp _], Hq as [Hq _].
        by apply (wf_unique d0 Hw).
      * unfold children. apply NoDup_filter. rewrite by_prev_perm, Hd1. simpl.
        apply NoDup_filter, (wf_nodup d0 Hw).
  - intros y [Hy|(p & -> & Hp)%list_elem_of_fmap]%elem_of_app; [by apply (rm_desc _ _ _ _ _ Hinv)|].
    apply Hch in Hp as (Hp & Hpr & _). rewrite Hid. constructor; [done|]. rewrite Hpr.
    apply (rm_desc _ _ _ _ _ Hinv). by eapply list_elem_of_lookup_2.
  - intros k y Hk. rewrite take_app_le by lia. apply lookup_app_Some in Hk as [Hk|[_ Hk]].
    + destruct (rm_pushed _ _ _ _ _ Hinv k y Hk) as (p & Hp & Hy & Ht). exists p.
      rewrite (take_S_r _ _ x) by done. set_solver.
    + apply list_elem_of_lookup_2, list_elem_of_fmap in Hk as (p & -> & Hp).
      apply Hch in Hp as (Hp & Hpr & _). exists p. rewrite Hpr. by split_and!.
  - intros p Hp. rewrite take_app_le by lia. intros Hpt. apply elem_of_app.
    destruct (decide (id_at d0 p ∈ take (S i) rq)) as [Hi|Hi].
    { left. rewrite <- (take_drop (S i) rq). set_solver. }
    rewrite (take_S_r _ _ x) in Hpt by done. apply elem_of_app in Hpt as [Hpt|Hpt].
    + left. by apply (rm_closed _ _ _ _ _ Hinv).
    + right. apply list_elem_of_singleton in Hpt. rewrite <- Hid.
      apply list_elem_of_fmap_2, Hch. done.
Qed.

Lemma remove_loop_spec fuel d0 x0 i rq d :
  fdb_wf d0 -> remove_inv d0 x0 i rq d -> (2 + length (index d0) <= fuel + i)%nat ->
  exists rq', remove_inv d0 x0 (length rq') rq'
    (set_index d0 (filter (fun p => id_at d0 p ∉ rq') (index d0))) /\
    remove_loop fuel i rq d = (set_index d0 (filter (fun p => id_at d0 p ∉ rq') (index d0)), Ok tt).
Proof.
  intros Hw. revert i rq d. induction fuel as [|fuel IH]; intros i rq d Hinv Hf.
  { apply remove_inv_length in Hinv as Hl. pose proof (rm_bound _ _ _ _ _ Hinv). lia. }
  simpl. destruct (rq !! i) as [x|] eqn:Hx.
  - unfold mbind, M_bind, get_state, put_state.
    apply (IH (S i)); [by apply remove_inv_step|lia].
  - apply lookup_ge_None in Hx. pose proof (rm_bound _ _ _ _ _ Hinv).
    assert (i = length rq) as -> by lia. exists rq.
    pose proof (rm_state _ _ _ _ _ Hinv) as Hd. rewrite firstn_all in Hd. subst d. done.
Qed.

Lemma remove_inv_init d x : remove_inv d x 0 [x] d.
Proof.
  constructor; simpl; try done.
  - rewrite filter_all by set_solver. by destruct d.
  - lia.
  - apply NoDup_singleton.
  - intros y ->%list_elem_of_singleton. constructor.
  - intros p _ []%elem_of_nil.
Qed.

(** What [remove] does, on the index and on the head. *)
Lemma remove_effect d x :
  fdb_wf d ->
  exists rq : list digest, (forall p, p ∈ index d -> id_at d p ∈ rq <-> descends d x (id_at d p)) /\
    let d1 := set_index d (filter (fun p => id_at d p ∉ rq) (index d)) in
    remove x d =
      match begin_of (by_lib_block_num (store d1) (index d1)) with
      | Ok best => (set_head d1 (Some best), Ok tt)
      | Err e => (d1, Err e)
      end.
Proof.
  intros Hw. destruct (remove_loop_spec (2 + length (index d)) d x 0 [x] d Hw) as (rq & Hinv & E);
    [apply remove_inv_init|lia|].
  exists rq. split.
  - intros p Hp. split; [apply (rm_desc _ _ _ _ _ Hinv)|].
    assert (forall y, descends d x y -> y ∈ rq) as Hall; [|by apply Hall].
    induction 1 as [|q Hq _ IH].
    + eapply list_elem_of_lookup_2, (rm_first _ _ _ _ _ Hinv).
    + apply (rm_closed _ _ _ _ _ Hinv); [done|]. by rewrite firstn_all.
  - intros d1. unfold remove, mbind, M_bind, get_state, put_state, lift. rewrite E. fold d1.
    by destruct (begin_of _).
Qed.

Lemma remove_spec d x d' r :
  fdb_wf d -> remove x d = (d', r) ->
  (forall p, p ∈ index d' <-> p ∈ index d /\ ~ descends d x (id_at d p)) /\
  fdb_wf d' /\ store d' = store d /\ emitted d' = emitted d /\
  match r with
  | Ok _ => exists best, head d' = Some best /\ is_best d' best
  | Err e => e = undefined_behavior /\ index d' = [] /\ head d' = head d
  end.
Proof.
  intros Hw E.
  destruct (remove_effect d x Hw) as (rq & Hrq & Heff). rewrite Heff in E. clear Heff.
  set (d1 := set_index d _) in *.
  assert (forall p, p ∈ index d1 <-> p ∈ index d /\ ~ descends d x (id_at d p)) as Hidx.
  { intros p. unfold d1. simpl. rewrite list_elem_of_filter. split; intros [? ?]; split; try done.
    - by rewrite <- Hrq.
    - by rewrite Hrq. }
  assert (fdb_wf d1) as Hw1 by (by apply wf_filter).
  destruct (begin_of _) as [best|e] eqn:Eb; injection E as <- <-.
  - split_and!; try done; [by destruct Hw1; constructor|].
    exists best. split; [done|]. by apply begin_by_lib in Eb.
  - unfold begin_of in Eb. apply of_option_Err in Eb as [Eb <-]. split_and!; try done.
    destruct (by_lib_block_num (store d1) (index d1)) eqn:El; [|done].
    apply Permutation_nil. by rewrite <- El, by_lib_perm.
Qed.

(** C2: [remove] takes the block and exactly the blocks built on it out of the
    index and nothing else changes in the store; the head becomes a block that
    no remaining block beats; the loop always ends. It fails only when nothing
    is left, where it dereferences the end of an empty index. *)
Theorem remove_descendants d x d' r (Hw : fdb_wf d) (E : remove x d = (d', r)) :
  (forall p, p ∈ index d' <-> p ∈ index d /\ ~ descends d x (id_at d p)) /\
  fdb_wf d' /\ store d' = store d /\ emitted d' = emitted d /\
  match r with
  | Ok _ => exists best, head d' = Some best /\ is_best d' best
  | Err e => e = undefined_behavior /\ index d' = [] /\ head d' = head d
  end.
Proof. by apply remove_spec. Qed.

(** ** The block of the current chain at a number *)

Lemma list_find_first (R : nat -> nat -> Prop) (P : nat -> Prop) `{forall x, Decision (P x)} l k p q :
  StronglySorted R l -> list_find P l = Some (k, p) -> q ∈ l -> P q -> q = p \/ R p q.
Proof.
  intros Hs. revert k. induction Hs as [|a l Hs IH Ha]; intros k E Hq HP; [by apply elem_of_nil in Hq|].
  simpl in E. destruct (decide (P a)) as [HPa|HPa].
  - injection E as <- <-. apply elem_of_cons in Hq as [->|Hq]; [by left|right].
    by eapply Forall_forall in Ha.
  - apply fmap_Some in E as ([k' p'] & E & E'). injection E' as -> ->.
    apply elem_of_cons in Hq as [->|Hq]; [done|eauto].
Qed.

Lemma lower_bound_num_spec d n p :
  lower_bound_num d n = Some p ->
  p ∈ index d /\ n <= num_at d p /\
  forall q, q ∈ index d -> n <= num_at d q ->
    q = p \/ num_before (at_ (store d) q) (at_ (store d) p) = false.
Proof.
  unfold lower_bound_num. intros ([k q] & E & ->)%fmap_Some. simpl.
  apply list_find_Some in E as Hs. destruct Hs as (Hk & Hn & _). split_and!.
  - apply list_elem_of_lookup_2 in Hk. by rewrite elem_of_by_num in Hk.
  - done.
  - intros q' Hq' Hn'. rewrite <- (elem_of_by_num (store d)) in Hq'.
    eapply (list_find_first _ _ _ _ _ _ (by_block_num_sorted _ _) E Hq'). done.
Qed.

(** [get_block_in_current_chain_by_num] finds a block of the given number
    on the current chain exactly when the index has one, however many blocks of
    other forks have that number and whatever their order. *)
Theorem current_chain_lookup d n :
  (forall p, get_block_in_current_chain_by_num d n = Some p ->
     p ∈ index d /\ num_at d p = n /\ in_current_chain (at_ (store d) p) = true) /\
  ((exists q, q ∈ index d /\ num_at d q = n /\ in_current_chain (at_ (store d) q) = true) ->
   exists p, get_block_in_current_chain_by_num d n = Some p).
Proof.
  unfold get_block_in_current_chain_by_num. destruct (lower_bound_num d n) as [p|] eqn:E.
  - apply lower_bound_num_spec in E as (Hp & Hn & Hmin). split.
    + intros p' E'. destruct (negb _ || _) eqn:Hc in E'; [done|]. injection E' as <-.
      split_bool. done.
    + intros (q & Hq & Hqn & Hqc). destruct (Hmin q Hq ltac:(lia)) as [->|Hb].
      * exists p. unfold num_at in Hqn. rewrite Hqn, Z.eqb_refl, Hqc. done.
      * unfold num_before in Hb. unfold num_at in *. rewrite Hqc, Hqn in Hb.
        apply orb_false_iff in Hb as [Hb1 Hb2]. split_bool.
        assert (bs_num (at_ (store d) p) = n) as Hpn by lia.
        rewrite Hpn, Z.eqb_refl in Hb2. simpl in Hb2. split_bool.
        exists p. rewrite Hpn, Z.eqb_refl, Hb2. done.
  - split; [done|]. intros (q & Hq & Hqn & _). exfalso. unfold lower_bound_num in E.
    rewrite fmap_None, list_find_None, Forall_forall in E. apply (E q); [|unfold num_at in Hqn; lia].
    by rewrite elem_of_by_num.
Qed.

(** ** Branches *)

(** [branch d l x]: [l] is a chain of blocks of the index, each built on the
    next, and the last one is built on [x]. *)
Inductive branch (d : fork_database) : list block_state_ptr -> digest -> Prop :=
| branch_one p : p ∈ index d -> branch d [p] (prev_at d p)
| branch_cons p q l x : p ∈ index d -> prev_at d p = id_at d q -> branch d (q :: l) x ->
    branch d (p :: q :: l) x.

(** [above d l p]: the blocks of [l], each built on the next, and the last one
    on [p] itself. *)
Fixpoint above (d : fork_database) (l : list block_state_ptr) (p : block_state_ptr) : Prop :=
  match l with
  | [] => True
  | q :: l' => q ∈ index d /\
      match l' with [] => prev_at d q = id_at d p | q' :: _ => prev_at d q = id_at d q' end /\
      above d l' p
  end.

Lemma above_snoc d l p q :
  above d l p -> p ∈ index d -> prev_at d p = id_at d q -> above d (l ++ [p]) q.
Proof.
  intros Hl Hp Hq. induction l as [|a l IH]; simpl in *; [done|].
  destruct Hl as (Ha & Hn & Hl). split_and!; [done| |auto]. by destruct l.
Qed.

Lemma above_branch d l p : above d l p -> p ∈ index d -> branch d (l ++ [p]) (prev_at d p).
Proof.
  intros Hl Hp. induction l as [|a l IH]; simpl in *; [by constructor|].
  destruct Hl as (Ha & Hn & Hl). specialize (IH Hl). destruct l; simpl in *; by constructor.
Qed.

(** [walked d l p q]: a walk from [p] that collected [l] and is now at [q]. *)
Definition walked (d : fork_database) (l : list block_state_ptr) (p q : block_state_ptr) : Prop :=
  above d l q /\ q ∈ index d /\ List.hd_error (l ++ [q]) = Some p /\
  num_at d p = num_at d q + Z.of_nat (length l).

Lemma walked_step d l p q q' :
  fdb_wf d -> walked d l p q -> q' ∈ index d -> prev_at d q = id_at d q' ->
  walked d (l ++ [q]) p q'.
Proof.
  intros Hw (Ha & Hq & Hh & Hn) Hq' Hp. split_and!.
  - by apply above_snoc.
  - done.
  - destruct l; done.
  - rewrite length_app. simpl. pose proof (wf_linked d Hw q q' Hq Hq' Hp). lia.
Qed.

Lemma get_block_Some d x p : get_block d x = Some p -> p ∈ index d /\ id_at d p = x.
Proof. apply find_id_Some_1. Qed.

Lemma walk_down_sound fuel d p p0 num acc q l :
  fdb_wf d -> walked d acc p0 p -> walk_down fuel d p num acc = Ok (q, l) ->
  walked d l p0 q /\ num_at d q <= num /\ (num <= num_at d p -> num_at d q = num) /\
  (num_at d p <= num -> l = acc).
Proof.
  intros Hw. revert p acc. induction fuel as [|fuel IH]; intros p acc Hwk E; simpl in E; [done|].
  destruct (Z.ltb_spec num (bs_num (at_ (store d) p))) as [Hlt|Hge].
  - destruct (get_block d _) as [p'|] eqn:Eg; [|done]. apply get_block_Some in Eg as [Hp' Hid].
    assert (prev_at d p = id_at d p') as Hl by done.
    pose proof (wf_linked d Hw p p' (proj1 (proj2 Hwk)) Hp' Hl) as Hnum.
    apply IH in E as (H3 & H4 & H5 & _); [|by apply walked_step]. unfold num_at in *.
    split_and!; [done|done|intros _; apply H5; lia|lia].
  - injection E as <- <-. split_and!; [done|done|unfold num_at; lia|done].
Qed.

Lemma above_elem d l p a :
  fdb_wf d -> above d l p -> p ∈ index d -> a ∈ l ->
  a ∈ index d /\ num_at d p < num_at d a /\ exists b, b ∈ index d /\ prev_at d a = id_at d b.
Proof.
  intros Hw Hl Hp. revert a. induction l as [|c l IH]; intros a; [by intros []%elem_of_nil|].
  simpl in Hl. destruct Hl as (Hc & Hn & Hl).
  assert (exists b, b ∈ index d /\ prev_at d c = id_at d b /\ num_at d p <= num_at d b) as (b & Hb & Hcb & Hbn).
  { destruct l as [|c' l']; [by exists p|]. exists c'. destruct (IH Hl c' ltac:(by left)) as (? & ? & _).
    split_and!; [done|done|lia]. }
  intros [->|Ha]%elem_of_cons; [|auto].
  split_and!; [done| |by exists b]. pose proof (wf_linked d Hw c b Hc Hb Hcb). lia.
Qed.

(** No block of one list has the predecessor of a block of the other. *)
Definition apart (d : fork_database) (ps qs : list block_state_ptr) : Prop :=
  forall a b, a ∈ ps -> b ∈ qs -> prev_at d a <> prev_at d b.

(** A block of number [num_at d p] and one above it have other predecessors. *)
Lemma above_apart d l q p a :
  fdb_wf d -> above d l q -> q ∈ index d -> p ∈ index d -> num_at d p = num_at d q -> a ∈ l ->
  prev_at d a <> prev_at d p.
Proof.
  intros Hw Hl Hq Hp Hn Ha Heq. destruct (above_elem d l q a Hw Hl Hq Ha) as (Hai & Hlt & b & Hb & Hab).
  pose proof (wf_linked d Hw a b Hai Hb Hab). pose proof (wf_linked d Hw p b Hp Hb ltac:(congruence)). lia.
Qed.

Lemma walk_both_sound fuel d p q p0 q0 ps qs ps' qs' :
  fdb_wf d -> walked d ps p0 p -> walked d qs q0 q -> num_at d p = num_at d q -> apart d ps qs ->
  walk_both fuel d p q ps qs = Ok (ps', qs') ->
  exists a b l m, ps' = l ++ [a] /\ qs' = m ++ [b] /\ walked d l p0 a /\ walked d m q0 b /\
    prev_at d a = prev_at d b /\
    forall a' b', a' ∈ ps' -> b' ∈ qs' -> prev_at d a' = prev_at d b' -> a' = a /\ b' = b.
Proof.
  intros Hw. revert p q ps qs.
  induction fuel as [|fuel IH]; intros p q ps qs Hp Hq Hn Hap E; simpl in E; [done|].
  pose proof Hp as (Hp1 & Hp2 & _). pose proof Hq as (Hq1 & Hq2 & _).
  destruct (bool_decide _) eqn:Hb; split_bool.
  - injection E as <- <-. exists p, q, ps, qs. split_and!; try done.
    intros a' b' Ha Hb' Heq. apply elem_of_app in Ha as [Ha|Ha], Hb' as [Hb'|Hb'];
      rewrite ?list_elem_of_singleton in *; subst; try done; exfalso.
    + by eapply Hap.
    + by eapply (above_apart d ps p q a').
    + by eapply (above_apart d qs q p b').
  - destruct (get_block d _) as [p'|] eqn:Ep; [|done].
    destruct (get_block d (bs_prev (at_ (store d) q))) as [q'|] eqn:Eq; [|done].
    apply get_block_Some in Ep as [Hp' Epp], Eq as [Hq' Eqq].
    apply IH in E; [done|apply walked_step; done|apply walked_step; done| |].
    + pose proof (wf_linked d Hw p p' Hp2 Hp' (eq_sym Epp)).
      pose proof (wf_linked d Hw q q' Hq2 Hq' (eq_sym Eqq)). lia.
    + intros a b Ha Hb'. apply elem_of_app in Ha as [Ha|Ha], Hb' as [Hb'|Hb'];
        rewrite ?list_elem_of_singleton in *; subst.
      * by apply Hap.
      * by eapply (above_apart d ps p q a).
      * intros Heq. by eapply (above_apart d qs q p b).
      * done.
Qed.

(** The blocks between a block and a predecessor of it, one per number. *)
Lemma descends_chain d root p :
  fdb_wf d -> root ∈ index d -> p ∈ index d -> descends d (id_at d root) (id_at d p) ->
  exists l, NoDup l /\ (forall a, a ∈ l -> a ∈ index d /\ num_at d a <= num_at d p) /\
    Z.of_nat (length l) = num_at d p - num_at d root + 1 /\ num_at d root <= num_at d p.
Proof.
  intros Hw Hr Hp Hd. remember (id_at d p) as x eqn:Ex. revert p Hp Ex.
  induction Hd as [|q Hq Hd IH]; intros p Hp Ex.
  - apply (wf_unique d Hw) in Ex as ->; [|done..]. exists [p].
    split_and!; [apply NoDup_singleton|intros a ->%list_elem_of_singleton; split; [done|lia]|simpl; lia|lia].
  - apply (wf_unique d Hw) in Ex as ->; [|done..].
    assert (exists p', p' ∈ index d /\ prev_at d p = id_at d p') as (p' & Hp' & Hpp).
    { inversion Hd as [Hi|p' Hp' Hd' Hi]; [by exists root|by exists p']. }
    destruct (IH p' Hp' Hpp) as (l & Hn & Hl & Hlen & Hle).
    pose proof (wf_linked d Hw p p' Hp Hp' Hpp). exists (p :: l). split_and!.
    + apply NoDup_cons. split; [|done]. intros Hin. apply Hl in Hin as [_ ?]. lia.
    + intros a [->|Ha]%elem_of_cons; [split; [done|lia]|]. apply Hl in Ha as [? ?]. split; [done|lia].
    + simpl length. lia.
    + lia.
Qed.

Lemma descends_bound d root p :
  fdb_wf d -> root ∈ index d -> p ∈ index d -> descends d (id_at d root) (id_at d p) ->
  num_at d root <= num_at d p /\ num_at d p - num_at d root < Z.of_nat (length (index d)).
Proof.
  intros Hw Hr Hp Hd. destruct (descends_chain d root p Hw Hr Hp Hd) as (l & Hn & Hl & Hlen & Hle).
  assert (l ⊆+ index d) as Hs%submseteq_length by (apply NoDup_submseteq; [done|by intros a [? _]%Hl]).
  lia.
Qed.

(** A block above its predecessor [root] has its parent in the index. *)
Lemma descends_parent d root p :
  fdb_wf d -> root ∈ index d -> p ∈ index d -> descends d (id_at d root) (id_at d p) -> p <> root ->
  exists p', get_block d (prev_at d p) = Some p' /\ p' ∈ index d /\ prev_at d p = id_at d p' /\
    descends d (id_at d root) (id_at d p').
Proof.
  intros Hw Hr Hp Hd Hne. inversion Hd as [Hi|q Hq Hd' Hi].
  { apply (wf_unique d Hw) in Hi; [congruence|done..]. }
  apply (wf_unique d Hw) in Hi as ->; [|done..].
  inversion Hd' as [Hi|p' Hp' Hd'' Hi].
  - exists root. split_and!; [|done|done|constructor]. by apply find_id_unique.
  - exists p'. split_and!; [|done|done|by constructor]. by apply find_id_unique.
Qed.

(** [root] is a block of the index that [p] is built on. *)
Definition built_on (d : fork_database) (root p : block_state_ptr) : Prop :=
  root ∈ index d /\ p ∈ index d /\ descends d (id_at d root) (id_at d p).

Lemma walk_down_total fuel d root p num acc :
  fdb_wf d -> built_on d root p -> num_at d root <= num ->
  Z.max 0 (num_at d p - num) < Z.of_nat fuel ->
  exists q l, walk_down fuel d p num acc = Ok (q, l) /\ built_on d root q.
Proof.
  intros Hw. revert p acc. induction fuel as [|fuel IH]; intros p acc (Hr & Hp & Hd) Hn Hf.
  { lia. }
  simpl. destruct (Z.ltb_spec num (bs_num (at_ (store d) p))) as [Hlt|Hge].
  2:{ exists p, acc. done. }
  destruct (descends_parent d root p Hw Hr Hp Hd) as (p' & Hg & Hp' & Hpp & Hd').
  { intros ->. unfold num_at in *. lia. }
  unfold prev_at in Hg. rewrite Hg. apply IH; [done|done|].
  pose proof (wf_linked d Hw p p' Hp Hp' Hpp). unfold num_at in *. lia.
Qed.

(** Only [root] itself has its number among the blocks built on it. *)
Lemma built_on_num_eq d root p :
  fdb_wf d -> built_on d root p -> num_at d p = num_at d root -> p = root.
Proof.
  intros Hw (Hr & Hp & Hd) Hn. destruct (decide (p = root)) as [|Hne]; [done|].
  destruct (descends_parent d root p Hw Hr Hp Hd Hne) as (p' & _ & Hp' & Hpp & Hd').
  pose proof (wf_linked d Hw p p' Hp Hp' Hpp).
  pose proof (descends_bound d root p' Hw Hr Hp' Hd'). lia.
Qed.

Lemma walk_both_total fuel d root p q ps qs :
  fdb_wf d -> built_on d root p -> built_on d root q -> num_at d p = num_at d q ->
  num_at d p - num_at d root < Z.of_nat fuel ->
  exists ps' qs', walk_both fuel d p q ps qs = Ok (ps', qs').
Proof.
  intros Hw. revert p q ps qs. induction fuel as [|fuel IH]; intros p q ps qs Hp Hq Hn Hf.
  { destruct Hp as (Hr & Hp & Hd). pose proof (descends_bound d root p Hw Hr Hp Hd). lia. }
  simpl. destruct (bool_decide _) eqn:Hb; split_bool; [eauto|].
  assert (num_at d root < num_at d p) as Hlt.
  { destruct (decide (num_at d p = num_at d root)) as [He|He].
    - apply built_on_num_eq in Hp as ->; [|done..].
      apply built_on_num_eq in Hq as ->; [done..|congruence].
    - destruct Hp as (Hr & Hp & Hd). pose proof (descends_bound d root p Hw Hr Hp Hd). lia. }
  destruct Hp as (Hr & Hp & Hd), Hq as (_ & Hq & Hdq).
  destruct (descends_parent d root p Hw Hr Hp Hd) as (p' & Hg & Hp' & Hpp & Hd'); [naive_solver lia|].
  destruct (descends_parent d root q Hw Hr Hq Hdq) as (q' & Hg' & Hq' & Hqq & Hdq'); [naive_solver lia|].
  unfold prev_at in Hg, Hg'. rewrite Hg, Hg'.
  pose proof (wf_linked d Hw p p' Hp Hp' Hpp). pose proof (wf_linked d Hw q q' Hq Hq' Hqq).
  apply IH; [done..|lia|lia].
Qed.

(** After the first two loops one of the branches is still empty. *)
Lemma walks_apart d p q p1 q1 ps qs : walked d ps p p1 -> walked d qs q q1 -> (num_at d p <= num_at d q -> ps = []) ->
  (num_at d q <= num_at d p -> num_at d p1 = num_at d q) -> num_at d p1 = num_at d q1 -> apart d ps qs.
Proof.
  intros (_ & _ & _ & Hlp) (_ & _ & _ & Hlq) Hnil Hm Hn. destruct ps as [|a ps]; [by intros a b []%elem_of_nil|].
  destruct qs as [|b qs]; [by intros a' b _ []%elem_of_nil|]. destruct (decide (num_at d p <= num_at d q)); [by specialize (Hnil ltac:(done))|].
  simpl in Hlp, Hlq. lia.
Qed.

(** What [fetch_branch_from] returns, if it does. *)
Lemma fetch_branch_sound d i j first second : fdb_wf d -> fetch_branch_from d i j = Ok (first, second) ->
  exists p q x, find_id d i = Some p /\ find_id d j = Some q /\ branch d first x /\ branch d second x /\
    List.hd_error first = Some p /\ List.hd_error second = Some q.
Proof.
  intros Hw E. unfold fetch_branch_from in E. apply bind_Ok in E as (p & Ep%of_option_Ok & E). apply bind_Ok in E as (q & Eq%of_option_Ok & E).
  apply bind_Ok in E as ([p1 ps] & E1 & E). apply bind_Ok in E as ([q1 qs] & E2 & E). unfold get_block in Ep, Eq.
  pose proof (find_id_Some_1 _ _ _ Ep) as [Hp _]. pose proof (find_id_Some_1 _ _ _ Eq) as [Hq _].
  assert (walked d [] p p) as Hwp by (split_and!; simpl; done || lia). assert (walked d [] q q) as Hwq by (split_and!; simpl; done || lia).
  pose proof (walk_down_sound _ _ _ _ _ _ _ _ Hw Hwp E1) as (Hps & Hle & Hm & Hnil). pose proof (walk_down_sound _ _ _ _ _ _ _ _ Hw Hwq E2) as (Hqs & _ & Heq & _).
  specialize (Heq Hle). pose proof (walks_apart d p q p1 q1 ps qs Hps Hqs Hnil Hm (eq_sym Heq)) as Hap.
  destruct (walk_both_sound _ _ _ _ _ _ _ _ _ _ Hw Hps Hqs (eq_sym Heq) Hap E) as (a & b & l & m & -> & -> & Hl & Hm' & Hab & _).
  destruct Hl as (Hl1 & Hl2 & Hl3 & _), Hm' as (Hm1 & Hm2 & Hm3 & _). exists p, q, (prev_at d a).
  split_and!; try done; [by apply above_branch|rewrite Hab; by apply above_branch].
Qed.

(** For two blocks built on a common block, [fetch_branch_from] returns and
    gives the two branches down to the fork: each starts at its block, every
    block is built on the next one, the last blocks have the same predecessor,
    and no other pair of blocks of the two branches has one. *)
Theorem fetch_branch_from_fork d root p q
  (Hw : fdb_wf d) (Hp : built_on d root p) (Hq : built_on d root q) :
  exists ps qs a b x,
    fetch_branch_from d (id_at d p) (id_at d q) = Ok (ps ++ [a], qs ++ [b]) /\
    branch d (ps ++ [a]) x /\ branch d (qs ++ [b]) x /\
    List.hd_error (ps ++ [a]) = Some p /\ List.hd_error (qs ++ [b]) = Some q /\
    forall a' b', a' ∈ ps ++ [a] -> b' ∈ qs ++ [b] -> prev_at d a' = prev_at d b' ->
      a' = a /\ b' = b.
Proof.
  pose proof Hp as (Hr & Hpi & Hpd). pose proof Hq as (_ & Hqi & Hqd).
  destruct (descends_bound d root p Hw Hr Hpi Hpd) as [Hp1 Hp2].
  destruct (descends_bound d root q Hw Hr Hqi Hqd) as [Hq1 Hq2].
  unfold fetch_branch_from, get_block. rewrite !find_id_unique by done. simpl of_option.
  cbn [mbind result_bind].
  assert (walked d [] p p) as Hwp by (split_and!; simpl; done || lia).
  assert (walked d [] q q) as Hwq by (split_and!; simpl; done || lia).
  destruct (walk_down_total (S (length (index d))) d root p (num_at d q) [] Hw Hp)
    as (p1 & ps & E1 & Hp1b); [lia|lia|].
  pose proof (walk_down_sound _ _ _ _ _ _ _ _ Hw Hwp E1) as (Hps & Hle & Heq & Hnil).
  assert (num_at d root <= num_at d p1) as Hrp
    by (destruct Hp1b as (_ & ? & ?); by apply (descends_bound d root p1)).
  destruct (walk_down_total (S (length (index d))) d root q (num_at d p1) [] Hw Hq)
    as (q1 & qs & E2 & Hq1b); [lia|lia|].
  pose proof (walk_down_sound _ _ _ _ _ _ _ _ Hw Hwq E2) as (Hqs & _ & Heq' & _).
  specialize (Heq' Hle). unfold num_at in E1, E2. rewrite E1. cbn [mbind result_bind]. rewrite E2.
  destruct (walk_both_total (S (length (index d))) d root p1 q1 ps qs Hw Hp1b Hq1b)
    as (ps' & qs' & E3); [done|lia|].
  pose proof (walks_apart d p q p1 q1 ps qs Hps Hqs Hnil Heq (eq_sym Heq')) as Hap.
  destruct (walk_both_sound _ _ _ _ _ _ _ _ _ _ Hw Hps Hqs (eq_sym Heq') Hap E3)
    as (a & b & l & m & -> & -> & Hl & Hm & Hab & Hfork).
  exists l, m, a, b, (prev_at d a).
  destruct Hl as (Hl1 & Hl2 & Hl3 & _), Hm as (Hm1 & Hm2 & Hm3 & _).
  split_and!; try done; [by apply above_branch|rewrite Hab; by apply above_branch].
Qed.

(** ** BFT irreversibility *)

Lemma set_bft_self b : set_bft b (bs_bft b) = b.
Proof. by destruct b as [[] ? ? ? ?]. Qed.

Lemma set_bft_neq b n : bs_bft b < n -> set_bft b n <> b.
Proof. intros Hlt E. rewrite <- E in Hlt. unfold bs_bft in Hlt. simpl in Hlt. lia. Qed.

Lemma at_insert (h : heap) p q b : at_ (<[p := b]> h) q = if decide (p = q) then b else at_ h q.
Proof.
  unfold at_. case_decide as Hpq; subst.
  - apply (lookup_total_insert_eq (M := gmap nat)).
  - by apply (lookup_total_insert_ne (M := gmap nat)).
Qed.

(** [raised num h h']: some block states below [num] got [num]. *)
Definition raised (num : Z) (h h' : heap) : Prop := forall p,
  at_ h' p = at_ h p \/ (bs_bft (at_ h p) < num /\ at_ h' p = set_bft (at_ h p) num).

Lemma raised_refl num h : raised num h h.
Proof. intros p. by left. Qed.

Lemma raised_trans num h1 h2 h3 : raised num h1 h2 -> raised num h2 h3 -> raised num h1 h3.
Proof.
  intros H12 H23 p. destruct (H12 p) as [E|[Hlt E]], (H23 p) as [E'|[Hlt' E']].
  - left. congruence.
  - right. rewrite E in Hlt', E'. done.
  - right. by rewrite E'.
  - exfalso. rewrite E in Hlt'. unfold bs_bft in Hlt'. simpl in Hlt'. lia.
Qed.

Lemma raised_fields num h h' p :
  raised num h h' ->
  bs_id (at_ h' p) = bs_id (at_ h p) /\ bs_prev (at_ h' p) = bs_prev (at_ h p) /\
  bs_num (at_ h' p) = bs_num (at_ h p) /\ bs_bft (at_ h p) <= bs_bft (at_ h' p) /\
  (num <= bs_bft (at_ h p) -> at_ h' p = at_ h p) /\
  (num <= bs_bft (at_ h' p) -> at_ h' p = set_bft (at_ h p) (Z.max (bs_bft (at_ h p)) num)).
Proof.
  intros Hr. destruct (Hr p) as [->|[Hlt ->]].
  - split_and!; try done. intros Hn. rewrite Z.max_l by done. by rewrite set_bft_self.
  - split_and!; try done.
    + unfold bs_bft in *. simpl. lia.
    + lia.
    + intros _. by rewrite Z.max_r by lia.
Qed.

Lemma update_children_spec num ps h upd h' upd' :
  update_children num ps h upd = (h', upd') ->
  raised num h h' /\ (forall p, p ∈ ps -> num <= bs_bft (at_ h' p)) /\
  (forall p, p ∉ ps -> at_ h' p = at_ h p) /\
  exists new, upd' = upd ++ new /\
    forall x, x ∈ new <-> exists p, p ∈ ps /\ bs_id (at_ h p) = x /\ bs_bft (at_ h p) < num.
Proof.
  revert h upd. induction ps as [|q ps IH]; intros h upd E; simpl in E.
  { injection E as <- <-. split_and!; [apply raised_refl|set_solver|done|].
    exists []. rewrite app_nil_r. split; [done|]. set_solver. }
  destruct (Z.ltb_spec (bs_bft (at_ h q)) num) as [Hlt|Hge].
  - apply IH in E as (Hr & Hge & Hout & new & -> & Hnew). clear IH.
    assert (raised num h (<[q := set_bft (at_ h q) num]> h)) as Hr0.
    { intros p. rewrite at_insert. case_decide; [subst; by right|by left]. }
    split_and!; [by eapply raised_trans| | |].
    + intros p [->|Hp]%elem_of_cons; [|auto].
      destruct (raised_fields _ _ _ q Hr) as (_ & _ & _ & Hb & _). rewrite at_insert in Hb.
      rewrite decide_True in Hb by done. unfold bs_bft in *. simpl in Hb. done.
    + intros p [Hpq Hp]%not_elem_of_cons. rewrite Hout, at_insert, decide_False by done. done.
    + exists (bs_id (at_ h q) :: new). split; [by rewrite <- app_assoc|]. intros x.
      rewrite elem_of_cons, Hnew. split.
      * intros [->|(p & Hp & Hid & Hb)]; [exists q; set_solver|]. exists p.
        rewrite at_insert in Hid, Hb. case_decide; subst; [|set_solver].
        unfold bs_bft in Hb. simpl in Hb. lia.
      * intros (p & [->|Hp]%elem_of_cons & <- & Hb); [by left|].
        destruct (decide (q = p)) as [->|]; [by left|]. right. exists p.
        rewrite at_insert, decide_False by done. done.
  - apply IH in E as (Hr & Hge' & Hout & new & -> & Hnew). clear IH.
    split_and!; [done| |set_solver|].
    + intros p [->|Hp]%elem_of_cons; [|auto]. destruct (raised_fields _ _ _ q Hr) as (_ & _ & _ & ? & _). lia.
    + exists new. split; [done|]. intros x. rewrite Hnew. split; [set_solver|].
      intros (p & [->|Hp]%elem_of_cons & <- & Hb); [lia|]. by exists p.
Qed.

Lemma update_layer_spec num ids d upd d' upd' :
  update_layer num ids d upd = (d', upd') ->
  d' = set_store d (store d') /\ raised num (store d) (store d') /\
  (forall p, p ∈ index d -> prev_at d p ∈ ids -> num <= bft_at d' p) /\
  (forall p, at_ (store d') p <> at_ (store d) p -> p ∈ index d /\ prev_at d p ∈ ids) /\
  exists new, upd' = upd ++ new /\
    forall x, x ∈ new <-> exists p, p ∈ index d /\ id_at d p = x /\ prev_at d p ∈ ids /\ bft_at d p < num.
Proof.
  revert d upd. induction ids as [|i ids IH]; intros d upd E; simpl in E.
  { injection E as <- <-. split_and!; [by destruct d|apply raised_refl|set_solver|done|].
    exists []. rewrite app_nil_r. split; [done|]. set_solver. }
  destruct (update_children num (children d i) (store d) upd) as [h upd1] eqn:Ec.
  apply update_children_spec in Ec as (Hr & Hge & Hout & new & -> & Hnew).
  apply IH in E as (Hd & Hr' & Hge' & Hout' & new' & -> & Hnew'). clear IH.
  assert (forall p, prev_at (set_store d h) p = prev_at d p /\ id_at (set_store d h) p = id_at d p) as Hf.
  { intros p. destruct (raised_fields _ _ _ p Hr) as (? & ? & _). done. }
  simpl in *. split_and!.
  - rewrite Hd. by destruct d.
  - by eapply raised_trans.
  - intros p Hp [<-|Hpr]%elem_of_cons.
    + assert (num <= bs_bft (at_ h p)) as Hb by (apply Hge, elem_of_children; done).
      destruct (raised_fields _ _ _ p Hr') as (_ & _ & _ & ? & _). unfold bft_at. lia.
    + apply Hge'; [done|]. by rewrite (proj1 (Hf p)).
  - intros p Hne. destruct (decide (p ∈ children d i)) as [Hc|Hc].
    + apply elem_of_children in Hc as [? <-]. split; [done|by left].
    + apply Hout in Hc. rewrite <- Hc in Hne. apply Hout' in Hne as [? Hpr].
      rewrite (proj1 (Hf p)) in Hpr. split; [done|by right].
  - exists (new ++ new'). split; [by rewrite app_assoc|]. intros x.
    rewrite elem_of_app, Hnew, Hnew'. split.
    + intros [(p & Hp & Hid & Hb)|(p & Hp & Hid & Hpr & Hb)].
      * apply elem_of_children in Hp as [Hp <-]. exists p. split_and!; [done|done|by left|done].
      * exists p. rewrite (proj1 (Hf p)) in Hpr. rewrite (proj2 (Hf p)) in Hid.
        destruct (raised_fields _ _ _ p Hr) as (_ & _ & _ & ? & _). unfold bft_at in *. simpl in *.
        split_and!; [done|done|by right|lia].
    + intros (p & Hp & Hid & [<-|Hpr]%elem_of_cons & Hb).
      * left. exists p. rewrite elem_of_children. done.
      * destruct (decide (p ∈ children d i)) as [Hc|Hc]; [left; by exists p|right].
        exists p. apply Hout in Hc. rewrite (proj1 (Hf p)), (proj2 (Hf p)). unfold bft_at. simpl.
        rewrite Hc. done.
Qed.

(** The state of the traversal that started at block [x] of [d0]: only blocks
    built on [x] were raised, and the blocks built on a raised one are at [num]
    or above, or still to be visited. *)
Record bft_inv (d0 : fork_database) (x : digest) (num : Z) (queue : list digest)
    (d : fork_database) : Prop := {
  bi_same : d = set_store d0 (store d);
  bi_raised : raised num (store d0) (store d);
  bi_queue y : y ∈ queue -> descends d0 x y;
  bi_changed p : at_ (store d) p <> at_ (store d0) p -> descends d0 x (id_at d0 p);
  bi_front q p : q ∈ index d0 -> p ∈ index d0 -> prev_at d0 p = id_at d0 q ->
    (id_at d0 q = x \/ at_ (store d) q <> at_ (store d0) q) ->
    id_at d0 q ∈ queue \/ num <= bft_at d p
}.

Lemma bft_inv_fields d0 x num queue d p :
  bft_inv d0 x num queue d ->
  index d = index d0 /\ id_at d p = id_at d0 p /\ prev_at d p = prev_at d0 p.
Proof.
  intros Hi. destruct (raised_fields _ _ _ p (bi_raised _ _ _ _ _ Hi)) as (? & ? & _).
  split_and!; try done. by rewrite (bi_same _ _ _ _ _ Hi).
Qed.

Lemma bft_inv_step d0 x num queue d d1 new :
  bft_inv d0 x num queue d -> update_layer num queue d [] = (d1, new) ->
  bft_inv d0 x num new d1.
Proof.
  intros Hinv E. apply update_layer_spec in E as (Hd1 & Hr & Hge & Hout & new' & Hn & Hnew).
  simpl in Hn. subst new'.
  assert (forall p, index d = index d0 /\ id_at d p = id_at d0 p /\ prev_at d p = prev_at d0 p) as Hf
    by (intros p; by eapply bft_inv_fields).
  destruct (Hf 0%nat) as [Hidx _]. rewrite Hidx in *.
  assert (forall p, p ∈ index d0 -> prev_at d p ∈ queue -> descends d0 x (id_at d0 p)) as Hdesc.
  { intros p Hp Hpr. constructor; [done|]. destruct (Hf p) as (_ & _ & <-).
    by apply (bi_queue _ _ _ _ _ Hinv). }
  constructor.
  - rewrite Hd1. rewrite (bi_same _ _ _ _ _ Hinv). done.
  - eapply raised_trans; [apply (bi_raised _ _ _ _ _ Hinv)|done].
  - intros y (p & Hp & Hid & Hpr & _)%Hnew. destruct (Hf p) as (_ & E & _). rewrite <- Hid, E. auto.
  - intros p Hne. destruct (Hr p) as [Heq|[Hlt Heq]].
    + apply (bi_changed _ _ _ _ _ Hinv). by rewrite <- Heq.
    + destruct (Hout p) as [? ?]; [rewrite Heq; by apply set_bft_neq|auto].
  - intros q p Hq Hp Hpq Hor.
    assert ((id_at d0 q = x \/ at_ (store d) q <> at_ (store d0) q) ->
            id_at d0 q ∈ new \/ num <= bft_at d1 p) as Hold.
    { intros Ho. destruct (bi_front _ _ _ _ _ Hinv q p Hq Hp Hpq Ho) as [Hin|Hb]; right.
      - apply Hge; [done|]. destruct (Hf p) as (_ & _ & ->). by rewrite Hpq.
      - destruct (raised_fields _ _ _ p Hr) as (_ & _ & _ & ? & _). unfold bft_at in *. lia. }
    destruct (Hr q) as [Heq|[Hlt Heq]]; [apply Hold; by rewrite Heq in Hor|].
    left. apply Hnew. exists q. destruct (Hf q) as (_ & E & _). split_and!; [done|done| |done].
    apply Hout. rewrite Heq. by apply set_bft_neq.
Qed.

(** How many blocks are still below [num]. *)
Definition below (num : Z) (d : fork_database) : nat :=
  length (filter (fun p => bft_at d p < num) (index d)).

Lemma update_layer_below num queue d d1 new :
  update_layer num queue d [] = (d1, new) -> new = [] \/ (below num d1 < below num d)%nat.
Proof.
  intros E. apply update_layer_spec in E as (Hd1 & Hr & Hge & Hout & new' & Hn & Hnew).
  simpl in Hn. subst new'. destruct new as [|y new]; [by left|right].
  destruct (proj1 (Hnew y) ltac:(by left)) as (p & Hp & _ & Hpr & Hb).
  unfold below. assert (index d1 = index d) as -> by (by rewrite Hd1).
  apply length_filter_lt with p; [|done|done|].
  - intros q _ Hq. destruct (raised_fields _ _ _ q Hr) as (_ & _ & _ & ? & _). unfold bft_at in *. lia.
  - pose proof (Hge p Hp Hpr). lia.
Qed.

Lemma update_queue_spec fuel d0 x num queue d :
  bft_inv d0 x num queue d -> (below num d < fuel)%nat ->
  exists d', update_queue fuel num queue d = (d', Ok tt) /\ bft_inv d0 x num [] d' /\
    raised num (store d) (store d').
Proof.
  revert queue d. induction fuel as [|fuel IH]; intros queue d Hinv Hf; [lia|].
  destruct queue as [|y queue]; [exists d; split_and!; [done..|apply raised_refl]|].
  cbn [update_queue]. destruct (update_layer num (y :: queue) d []) as [d1 new] eqn:E.
  pose proof (bft_inv_step _ _ _ _ _ _ _ Hinv E) as Hinv1.
  pose proof (update_layer_spec _ _ _ _ _ _ E) as (_ & Hr & _).
  destruct (update_layer_below _ _ _ _ _ E) as [->|Hlt].
  - exists d1. by destruct fuel.
  - destruct (IH new d1 Hinv1 ltac:(lia)) as (d' & E' & Hinv' & Hr').
    exists d'. split_and!; [done|done|by eapply raised_trans].
Qed.

(** Along every chain of the index the BFT number does not go back. *)
Definition bft_monotone (d : fork_database) : Prop := forall p q,
  p ∈ index d -> q ∈ index d -> prev_at d p = id_at d q -> bft_at d q <= bft_at d p.

(** When the traversal is over, the whole subtree is at [num] or above. *)
Lemma bft_inv_done d x itr num d' :
  fdb_wf d -> itr ∈ index d -> id_at d itr = x -> bft_monotone d ->
  bft_inv d x num [] d' -> num <= bft_at d' itr ->
  forall p, p ∈ index d -> descends d x (id_at d p) -> num <= bft_at d' p.
Proof.
  intros Hw Hi Hx Hm Hinv Hitr p Hp Hd. remember (id_at d p) as y eqn:Ey.
  revert p Hp Ey. induction Hd as [|q Hq Hd IH]; intros p Hp Ey.
  { rewrite <- Hx in Ey. apply (wf_unique d Hw) in Ey as ->; done. }
  apply (wf_unique d Hw) in Ey as ->; [|done..].
  assert (exists q, q ∈ index d /\ prev_at d p = id_at d q) as (q & Hq' & Hpq).
  { inversion Hd as [Hi'|q Hq' Hd' Hi']; [by exists itr; rewrite Hx|by exists q]. }
  specialize (IH q Hq' Hpq).
  destruct (decide (id_at d q = x)) as [Hqx|Hqx].
  { by destruct (bi_front _ _ _ _ _ Hinv q p Hq' Hp Hpq (or_introl Hqx)) as [[]%elem_of_nil|?]. }
  destruct (bi_raised _ _ _ _ _ Hinv q) as [Heq|[Hlt Heq]].
  - pose proof (Hm p q Hp Hq' Hpq) as Hmon.
    destruct (raised_fields _ _ _ p (bi_raised _ _ _ _ _ Hinv)) as (_ & _ & _ & ? & _).
    unfold bft_at in *. rewrite Heq in IH. lia.
  - destruct (bi_front _ _ _ _ _ Hinv q p Hq' Hp Hpq) as [[]%elem_of_nil|?]; [|done].
    right. rewrite Heq. by apply set_bft_neq.
Qed.

(** [set_bft_irreversible] ends, and the breadth-first traversal, which
    stops at blocks that are already past the number, does what its
    specification says: the block and every block built on it get the larger of
    their BFT number and the block's number, every other block keeps its state,
    and the BFT numbers still do not go back along any chain. *)
Theorem set_bft_irreversible_subtree d itr
  (Hw : fdb_wf d) (Hi : itr ∈ index d) (Hm : bft_monotone d) (Hb : bft_at d itr <= num_at d itr) :
  let x := id_at d itr in
  exists d', set_bft_irreversible x d = (d', Ok tt) /\
    index d' = index d /\ head d' = head d /\ bft_monotone d' /\
    forall p, p ∈ index d ->
      (descends d x (id_at d p) ->
         at_ (store d') p = set_bft (at_ (store d) p) (Z.max (bft_at d p) (num_at d itr))) /\
      (~ descends d x (id_at d p) -> at_ (store d') p = at_ (store d) p).
Proof.
  intros x. set (num := num_at d itr).
  set (d1 := set_store d (<[itr := set_bft (at_ (store d) itr) num]> (store d))).
  assert (raised num (store d) (store d1)) as Hr1.
  { intros p. unfold d1. simpl. rewrite at_insert. case_decide as Hp; [subst p|by left].
    fold (bft_at d itr). destruct (decide (bft_at d itr < num)) as [|Hn]; [by right|left].
    replace num with (bs_bft (at_ (store d) itr)); [apply set_bft_self|]. unfold bft_at, num in *. lia. }
  assert (bft_inv d x num [x] d1) as Hinv.
  { constructor; [done|done| | |].
    - intros y ->%list_elem_of_singleton. constructor.
    - intros p Hne. unfold d1 in Hne. simpl in Hne. rewrite at_insert in Hne.
      case_decide; [subst; constructor|done].
    - intros q p Hq Hp Hpq [Hx|Hne]; left; [rewrite Hx; by left|].
      unfold d1 in Hne. simpl in Hne. rewrite at_insert in Hne. case_decide; [subst; by left|done]. }
  destruct (update_queue_spec (S (length (index d))) d x num [x] d1 Hinv) as (d' & E & Hinv' & Hr').
  { unfold below. pose proof (length_filter (fun p => bft_at d1 p < num) (index d1)). simpl in *. lia. }
  assert (num <= bft_at d' itr) as Hitr.
  { destruct (raised_fields _ _ _ itr Hr') as (_ & _ & _ & Hle & _). unfold d1 in Hle. simpl in Hle.
    rewrite at_insert, decide_True in Hle by done. unfold bft_at, bs_bft in *. simpl in Hle. done. }
  pose proof (bft_inv_done d x itr num d' Hw Hi eq_refl Hm Hinv' Hitr) as Hdone.
  pose proof (bi_raised _ _ _ _ _ Hinv') as Hr.
  exists d'. split_and!.
  - unfold set_bft_irreversible, update_at, mbind, M_bind, get_state, lift.
    pose proof (find_id_unique d itr Hw Hi) as Hf. fold x in Hf. rewrite Hf. exact E.
  - by rewrite (bi_same _ _ _ _ _ Hinv').
  - by rewrite (bi_same _ _ _ _ _ Hinv').
  - intros p q. destruct (bft_inv_fields _ _ _ _ _ p Hinv') as (-> & _ & ->).
    destruct (bft_inv_fields _ _ _ _ _ q Hinv') as (_ & -> & _). intros Hp Hq Hpq.
    destruct (raised_fields _ _ _ p Hr) as (_ & _ & _ & Hle & _).
    destruct (Hr q) as [Heq|[Hlt Heq]]; unfold bft_at in *; rewrite Heq.
    + specialize (Hm p q Hp Hq Hpq). unfold bft_at in Hm. lia.
    + change (bs_bft (set_bft (at_ (store d) q) num)) with num. apply Hdone; [done|].
      constructor; [done|]. rewrite Hpq. apply (bi_changed _ _ _ _ _ Hinv'). rewrite Heq.
      by apply set_bft_neq.
  - intros p Hp. split.
    + intros Hd. specialize (Hdone p Hp Hd).
      by destruct (raised_fields _ _ _ p Hr) as (_ & _ & _ & _ & _ & ->).
    + intros Hd. destruct (Hr p) as [?|[Hlt Heq]]; [done|]. exfalso. apply Hd.
      apply (bi_changed _ _ _ _ _ Hinv'). rewrite Heq. by apply set_bft_neq.
Qed.

(** ** Pruning *)

Lemma descends_trans d x y z : descends d x y -> descends d y z -> descends d x z.
Proof. intros Hxy. induction 1; [done|]. by constructor. Qed.

(** [d'] has some of the blocks of [d] and the same store. *)
Definition sub_db (d d' : fork_database) : Prop :=
  (store d' = store d /\ next_ptr d' = next_ptr d) /\ exists P : block_state_ptr -> bool,
    index d' = filter (fun p => P p = true) (index d).

Lemma sub_db_refl d : sub_db d d.
Proof. split; [done|]. exists (fun _ => true). by rewrite filter_all. Qed.

Lemma sub_db_trans d1 d2 d3 : sub_db d1 d2 -> sub_db d2 d3 -> sub_db d1 d3.
Proof.
  intros [[Hs Hn] [P HP]] [[Hs' Hn'] [Q HQ]]. split; [split; congruence|]. exists (fun p => P p && Q p).
  rewrite HQ, HP, list_filter_filter. apply list_filter_iff. intros p.
  rewrite andb_true_iff. tauto.
Qed.

Lemma sub_db_fields d d' p :
  sub_db d d' -> id_at d' p = id_at d p /\ prev_at d' p = prev_at d p /\ num_at d' p = num_at d p.
Proof. intros [[Hs _] _]. unfold id_at, prev_at, num_at. by rewrite Hs. Qed.

Lemma sub_db_elem d d' p : sub_db d d' -> p ∈ index d' -> p ∈ index d.
Proof. intros [_ [P ->]]. by intros [_ ?]%list_elem_of_filter. Qed.

Lemma sub_db_length d d' p :
  sub_db d d' -> p ∈ index d -> p ∉ index d' -> (length (index d') < length (index d))%nat.
Proof.
  intros [_ [P ->]] Hp Hn. apply length_filter_drop with p; [done|]. intros HP.
  apply Hn. by apply list_elem_of_filter.
Qed.

Lemma sub_db_wf d d' : sub_db d d' -> fdb_wf d -> fdb_wf d'.
Proof.
  intros [[Hs _] [P HP]] Hw. pose proof (wf_filter d (fun p => P p = true) Hw) as [Hn Hu Hl].
  constructor; unfold id_at, prev_at, num_at in *; rewrite ?Hs, ?HP; done.
Qed.

Lemma remove_sub d x d' r : fdb_wf d -> remove x d = (d', r) -> sub_db d d'.
Proof.
  intros Hw E. destruct (remove_effect d x Hw) as (rq & _ & Heff). rewrite Heff in E. clear Heff.
  assert (sub_db d (set_index d (filter (fun p => id_at d p ∉ rq) (index d)))) as Hsub.
  { split; [done|]. exists (fun p => bool_decide (id_at d p ∉ rq)). simpl.
    apply list_filter_iff. intros p. by rewrite bool_decide_eq_true. }
  by destruct (begin_of _); injection E as <- _.
Qed.

(** What was built on a block that stays, stays built on it. *)
Lemma descends_survive d d1 x y z :
  sub_db d d1 -> (forall p, p ∈ index d1 <-> p ∈ index d /\ ~ descends d x (id_at d p)) ->
  descends d y z -> ~ descends d x z -> descends d1 y z.
Proof.
  intros Hsub Hidx Hd. induction Hd as [|p Hp Hd IH]; intros Hn; [constructor|].
  destruct (sub_db_fields d d1 p Hsub) as (Hi & Hpr & _). rewrite <- Hi. constructor.
  - by apply Hidx.
  - rewrite Hpr. apply IH. intros Hx. apply Hn. by constructor.
Qed.

Lemma descends_sub d d1 y z : sub_db d d1 -> descends d1 y z -> descends d y z.
Proof.
  intros Hsub. induction 1 as [|p Hp Hd IH]; [constructor|].
  destruct (sub_db_fields d d1 p Hsub) as (-> & Hpr & _). rewrite Hpr in IH.
  constructor; [by eapply sub_db_elem|done].
Qed.

Lemma begin_by_num d p q :
  List.hd_error (by_block_num (store d) (index d)) = Some p -> q ∈ index d ->
  p ∈ index d /\ (q = p \/ num_before (at_ (store d) q) (at_ (store d) p) = false).
Proof.
  intros E Hq. apply begin_of_Ok in E.
  destruct (begin_of_min _ _ _ (by_block_num_sorted _ _) E) as [Hp Hm].
  rewrite elem_of_by_num in Hp. split; [done|]. apply Hm. by rewrite elem_of_by_num.
Qed.

Lemma num_before_num a b : num_before a b = false -> bs_num b <= bs_num a.
Proof. unfold num_before. intros Hb. apply orb_false_iff in Hb as [Hb _]. split_bool. done. Qed.

(** [c] is the only block of the current chain at the number after [num], and it
    is not on a fork at [num]. *)
Record keeper (d : fork_database) (num : Z) (c : block_state_ptr) : Prop := {
  kp_elem : c ∈ index d;
  kp_num : num_at d c = num + 1;
  kp_current : in_current_chain (at_ (store d) c) = true;
  kp_only p : p ∈ index d -> num_at d p = num + 1 -> in_current_chain (at_ (store d) p) = true -> p = c;
  kp_free f : f ∈ index d -> num_at d f = num -> ~ descends d (id_at d f) (id_at d c);
  kp_min p : p ∈ index d -> num <= num_at d p
}.

(** The block after the first one of the index survives the removal of the
    first one and what is built on it. *)
Lemma next_survives d num c p q l :
  fdb_wf d -> keeper d num c -> num_at d p = num ->
  by_block_num (store d) (index d) = p :: q :: l ->
  ~ descends d (id_at d p) (id_at d q).
Proof.
  intros Hw Hk Hpn Hord.
  assert (forall a, a ∈ p :: q :: l <-> a ∈ index d) as Hin
    by (intros a; rewrite <- Hord; apply elem_of_by_num).
  assert (p ∈ index d) as Hp by (apply Hin; by left).
  assert (q ∈ index d) as Hq by (apply Hin; right; by left).
  assert (NoDup (p :: q :: l)) as Hnd by (rewrite <- Hord, by_block_num_perm; apply (wf_nodup d Hw)).
  assert (q <> p) as Hne by (apply NoDup_cons in Hnd as [Hnd _]; set_solver).
  destruct (decide (num_at d q = num)) as [Hqn|Hqn].
  { intros Hd. apply Hne, (built_on_num_eq d); [done|done|congruence]. }
  assert (q = c) as ->; [|by apply (kp_free d num c Hk)].
  pose proof (kp_min d num c Hk q Hq). pose proof (kp_elem d num c Hk) as Hc.
  pose proof (by_block_num_sorted (store d) (index d)) as Hs. rewrite Hord in Hs.
  apply StronglySorted_inv in Hs as [Hs _]. apply StronglySorted_inv in Hs as [_ Hs].
  apply Hin in Hc as Hc'. apply elem_of_cons in Hc' as [->|Hc'].
  { pose proof (kp_num d num p Hk). lia. }
  apply elem_of_cons in Hc' as [|Hc']; [done|].
  eapply Forall_forall in Hs; [|done]. apply num_before_num in Hs as Hle.
  pose proof (kp_num d num c Hk) as Hcn. unfold num_at in *.
  apply (kp_only d num c Hk); [done|unfold num_at; lia|].
  unfold num_before in Hs. rewrite (kp_current d num c Hk) in Hs.
  apply orb_false_iff in Hs as [_ Hs].
  replace (bs_num (at_ (store d) c) =? bs_num (at_ (store d) q)) with true in Hs
    by (symmetry; apply Z.eqb_eq; lia).
  simpl in Hs. by split_bool.
Qed.

Lemma keeper_sub d d1 num c :
  sub_db d d1 -> keeper d num c -> c ∈ index d1 -> keeper d1 num c.
Proof.
  intros Hsub [Hc Hn Hcc Ho Hf Hm] Hc1. pose proof (proj1 (proj1 Hsub)) as Hst.
  constructor; unfold num_at, id_at in *; rewrite ?Hst; try done.
  - intros p Hp. by apply Ho, (sub_db_elem d d1).
  - intros f Hf1 Hfn Hd. apply (Hf f); [by eapply sub_db_elem|done|].
    by eapply descends_sub.
  - intros p Hp. by apply Hm, (sub_db_elem d d1).
Qed.

(** [p] is on no fork at [num]. *)
Definition off_forks (d : fork_database) (num : Z) (p : block_state_ptr) : Prop :=
  forall f, f ∈ index d -> num_at d f = num -> ~ descends d (id_at d f) (id_at d p).

(** Removing one fork and then the others removes all of them. *)
Lemma off_forks_step d d1 num p a :
  fdb_wf d -> sub_db d d1 -> p ∈ index d -> num_at d p = num ->
  (forall a, a ∈ index d1 <-> a ∈ index d /\ ~ descends d (id_at d p) (id_at d a)) ->
  (a ∈ index d1 /\ off_forks d1 num a) <-> (a ∈ index d /\ off_forks d num a).
Proof.
  intros Hw Hsub Hp Hpn Hidx.
  assert (forall q, id_at d1 q = id_at d q /\ num_at d1 q = num_at d q) as Hf
    by (intros q; destruct (sub_db_fields d d1 q Hsub) as (? & _ & ?); done).
  split.
  - intros [Ha Hoff]. apply Hidx in Ha as [Ha Hna]. split; [done|]. intros f Hfi Hfn Hd.
    destruct (decide (f = p)) as [->|Hne]; [done|].
    apply (Hoff f); [|by rewrite (proj2 (Hf f))|rewrite !(proj1 (Hf _)); by eapply descends_survive].
    apply Hidx. split; [done|]. intros Hd'. apply Hne, (built_on_num_eq d); [done|done|congruence].
  - intros [Ha Hoff]. split; [apply Hidx; split; [done|by apply Hoff]|].
    intros f Hfi Hfn Hd. rewrite !(proj1 (Hf _)) in Hd. rewrite (proj2 (Hf f)) in Hfn.
    apply (Hoff f); [by eapply sub_db_elem|done|by eapply descends_sub].
Qed.

Lemma prune_forks_spec fuel d num c nitr :
  fdb_wf d -> keeper d num c ->
  List.hd_error (by_block_num (store d) (index d)) = nitr -> (length (index d) < fuel)%nat ->
  exists d', prune_forks fuel num nitr d = (d', Ok tt) /\ sub_db d d' /\ emitted d' = emitted d /\
    (forall p, p ∈ index d' <-> p ∈ index d /\ off_forks d num p).
Proof.
  revert d nitr. induction fuel as [|fuel IH]; intros d nitr Hw Hk Hn Hf; [lia|].
  destruct nitr as [p|].
  2:{ pose proof (kp_elem d num c Hk) as Hc. rewrite <- (elem_of_by_num (store d)) in Hc.
      destruct (by_block_num _ _); [by apply elem_of_nil in Hc|done]. }
  destruct (begin_by_num d p c Hn (kp_elem d num c Hk)) as [Hp _].
  cbn [prune_forks]. unfold mbind at 1, M_bind at 1, get_state.
  rewrite bool_decide_eq_true_2 by done. cbn [negb].
  destruct (Z.eqb_spec (bs_num (at_ (store d) p)) num) as [Hpn|Hpn].
  2:{ exists d. split_and!; [done|apply sub_db_refl|done|]. intros q. split; [|tauto]. intros Hq.
      split; [done|]. intros f Hfi Hfn. exfalso.
      destruct (begin_by_num d p f Hn Hfi) as [_ [->|Hb%num_before_num]]; [done|].
      pose proof (kp_min d num c Hk p Hp). unfold num_at in *. lia. }
  destruct (remove (bs_id (at_ (store d) p)) d) as [d1 r] eqn:Er.
  pose proof (remove_sub d _ d1 r Hw Er) as Hsub.
  apply remove_spec in Er as Hs; [|done]. destruct Hs as (Hidx & Hw1 & Hst & Hem & Hr).
  assert (c ∈ index d1) as Hc1.
  { apply Hidx. split; [apply (kp_elem d num c Hk)|]. by apply (kp_free d num c Hk). }
  destruct r as [[]|e]; [|destruct Hr as (_ & Hr & _); rewrite Hr in Hc1; by apply elem_of_nil in Hc1].
  destruct (by_block_num (store d) (index d)) as [|p' l] eqn:Hord; [done|].
  simpl in Hn. injection Hn as ->.
  assert (exists q l', l = q :: l') as (q & l' & ->).
  { destruct l; [|eauto]. exfalso. pose proof (kp_elem d num c Hk) as Hc.
    rewrite <- (elem_of_by_num (store d)), Hord in Hc. apply list_elem_of_singleton in Hc as ->.
    pose proof (kp_num d num p Hk). unfold num_at in *. lia. }
  assert (List.hd_error (by_block_num (store d1) (index d1)) = Some q) as Hn1.
  { pose proof (next_survives d num c p q l' Hw Hk Hpn Hord) as Hq.
    assert (q ∈ index d) as Hqi by (rewrite <- (elem_of_by_num (store d)), Hord; set_solver).
    assert (NoDup (p :: q :: l')) as Hnd by (rewrite <- Hord, by_block_num_perm; apply (wf_nodup d Hw)).
    destruct Hsub as [_ [P HP]]. rewrite Hst, HP, by_block_num_erase, Hord.
    assert (forall a, a ∈ index d -> P a = true <-> ~ descends d (id_at d p) (id_at d a)) as HPa.
    { intros a Ha. specialize (Hidx a). rewrite HP, list_elem_of_filter in Hidx. unfold id_at in *. tauto. }
    rewrite filter_cons, decide_False, filter_cons, decide_True; [done|by apply HPa|].
    rewrite HPa by done. intros Hnd'. apply Hnd'. constructor. }
  assert (length (index d1) < fuel)%nat as Hf1.
  { assert (p ∉ index d1) as Hp1 by (intros [_ Hnd]%Hidx; apply Hnd; constructor).
    pose proof (sub_db_length d d1 p Hsub Hp Hp1). lia. }
  destruct (IH d1 (Some q) Hw1 (keeper_sub d d1 num c Hsub Hk Hc1) Hn1 Hf1) as (d' & E & Hsub' & Hem' & Hidx').
  exists d'. cbn [successor]. rewrite decide_True by done. cbn [List.hd_error].
  unfold mbind, M_bind. rewrite Er. split_and!; [done|by eapply sub_db_trans|congruence|].
  intros a. rewrite Hidx'. by apply (off_forks_step d d1 num p).
Qed.

Lemma lower_bound_all d num :
  (forall p, p ∈ index d -> num <= num_at d p) ->
  lower_bound_num d num = List.hd_error (by_block_num (store d) (index d)).
Proof.
  intros Hall. unfold lower_bound_num.
  assert (forall p, p ∈ by_block_num (store d) (index d) -> num <= num_at d p) as Hall'
    by (intros p; rewrite elem_of_by_num; apply Hall).
  destruct (by_block_num _ _) as [|p l]; [done|]. simpl. rewrite decide_True; [done|].
  apply Hall'. by left.
Qed.

Context (on_irreversible : block_state -> result unit).

(** The body of [prune] for the oldest block: the loop over older blocks does
    nothing. *)
Lemma prune_oldest_body fuel d h :
  fdb_wf d -> h ∈ index d -> (forall p, p ∈ index d -> num_at d h <= num_at d p) ->
  on_irreversible (at_ (store d) h) = Ok tt ->
  let d1 := erase_index (add_emitted d h) h in
  prune on_irreversible (S (S fuel)) h d =
  catch_all (prune_forks (S fuel) (num_at d h)
    (List.hd_error (by_block_num (store d1) (index d1)))) d1.
Proof.
  intros Hw Hh Hmin Hcb d1. remember (S fuel) as f eqn:Ef. cbn [prune]. unfold catch_all.
  unfold mbind, M_bind, get_state, put_state, lift. fold (num_at d h). fold (id_at d h).
  assert (prune_older f (prune on_irreversible f) (num_at d h) d = (d, Ok tt)) as ->.
  { rewrite Ef at 1. cbn [prune_older]. unfold mbind, M_bind, get_state.
    destruct (List.hd_error _) as [b|] eqn:Eb; [|done].
    destruct (begin_by_num d b h Eb Hh) as [Hb _]. specialize (Hmin b Hb). unfold num_at in *.
    destruct (Z.ltb_spec (bs_num (at_ (store d) b)) (bs_num (at_ (store d) h))); [lia|done]. }
  fold (id_at d h). rewrite find_id_unique by done. simpl. rewrite Hcb. fold d1.
  rewrite lower_bound_all; [done|]. intros p [_ Hp]%list_elem_of_filter. by apply Hmin.
Qed.

(** Leaving [h] out does not change what is built on another block of its
    number. *)
Lemma descends_erase d d1 h f z :
  fdb_wf d -> sub_db d d1 -> (forall p, p ∈ index d1 <-> p ∈ index d /\ p <> h) ->
  h ∈ index d -> f ∈ index d -> f <> h -> num_at d f = num_at d h ->
  descends d1 (id_at d f) z <-> descends d (id_at d f) z.
Proof.
  intros Hw Hsub Hidx Hh Hf Hne Hn. split; [by apply descends_sub|].
  induction 1 as [|p Hp Hd IH]; [constructor|].
  destruct (sub_db_fields d d1 p Hsub) as (Hi & Hpr & _). rewrite <- Hi. constructor; [|by rewrite Hpr].
  apply Hidx. split; [done|]. intros ->. apply Hne. symmetry.
  apply (built_on_num_eq d); [done| |done]. split_and!; [done|done|by constructor].
Qed.

(** Pruning the oldest block. When the block has a successor on the current
    chain and the irreversible handlers succeed, [prune] ends, announces exactly
    that block, takes it out together with every fork of the same number and
    all that is built on those forks, and keeps everything else. *)
Theorem prune_oldest d h c
  (Hw : fdb_wf d) (Hh : h ∈ index d)
  (Hmin : forall p, p ∈ index d -> num_at d h <= num_at d p)
  (Hc : c ∈ index d) (Hhc : prev_at d c = id_at d h) (Hcc : in_current_chain (at_ (store d) c) = true)
  (Honly : forall p, p ∈ index d -> num_at d p = num_at d c ->
     in_current_chain (at_ (store d) p) = true -> p = c)
  (Hcb : on_irreversible (at_ (store d) h) = Ok tt) :
  exists d', prune on_irreversible (prune_fuel d) h d = (d', Ok tt) /\
    emitted d' = emitted d ++ [h] /\ store d' = store d /\ fdb_wf d' /\
    forall p, p ∈ index d' <-> p ∈ index d /\ p <> h /\
      forall f, f ∈ index d -> num_at d f = num_at d h -> f <> h -> ~ descends d (id_at d f) (id_at d p).
Proof.
  unfold prune_fuel. change (2 + length (index d))%nat with (S (S (length (index d)))).
  rewrite prune_oldest_body by done. set (d1 := erase_index (add_emitted d h) h).
  pose proof (wf_linked d Hw c h Hc Hh Hhc) as Hcn.
  assert (forall p, p ∈ index d1 <-> p ∈ index d /\ p <> h) as Hidx1.
  { intros p. unfold d1. simpl. rewrite list_elem_of_filter. tauto. }
  assert (sub_db d d1) as Hsub.
  { split; [done|]. exists (fun p => bool_decide (p <> h)). simpl. apply list_filter_iff.
    intros p. by rewrite bool_decide_eq_true. }
  assert (fdb_wf d1) as Hw1 by (by eapply sub_db_wf).
  assert (c ∈ index d1) as Hc1.
  { apply Hidx1. split; [done|]. intros ->. lia. }
  assert (keeper d1 (num_at d h) c) as Hk.
  { constructor; try done.
    - intros p [Hp _]%Hidx1 Hpn. apply Honly; [done|]. by rewrite Hcn.
    - intros f [Hf Hfh]%Hidx1 Hfn Hd. apply (descends_erase d d1 h) in Hd; [|done..].
      destruct (descends_parent d f c Hw Hf Hc Hd) as (p' & _ & Hp' & Hcp & Hd').
      { intros ->. unfold num_at in *. simpl in *. lia. }
      apply Hfh. symmetry. assert (p' = h) as -> by (apply (wf_unique d Hw); congruence).
      apply (built_on_num_eq d); done.
    - intros p [Hp _]%Hidx1. by apply Hmin. }
  assert (length (index d1) < length (index d))%nat as Hlen.
  { apply (sub_db_length d d1 h Hsub Hh). by intros [_ ?]%Hidx1. }
  destruct (prune_forks_spec (S (length (index d))) d1 (num_at d h) c _ Hw1 Hk eq_refl ltac:(lia))
    as (d' & E & Hsub' & Hem & Hidx').
  exists d'. unfold catch_all. rewrite E. split_and!; try done.
  - apply (proj1 (proj1 Hsub')).
  - by eapply sub_db_wf.
  - intros p. rewrite Hidx', Hidx1. unfold off_forks. split.
    + intros [[Hp Hph] Hoff]. split_and!; [done|done|]. intros f Hf Hfn Hfh Hd.
      apply (Hoff f); [by apply Hidx1|done|]. by apply (descends_erase d d1 h).
    + intros (Hp & Hph & Hoff). split; [done|]. intros f [Hf Hfh]%Hidx1 Hfn Hd.
      apply (Hoff f Hf Hfn Hfh). by apply (descends_erase d d1 h) in Hd.
Qed.

(** ** Additions *)

(** Ends the case of a computation that stops without touching the state. *)
Ltac stop_here :=
  match goal with E : _ = (_, _) |- _ => cbn in E; injection E as <- _; apply sub_db_refl end.

Lemma set_head_sub d d' p : sub_db d d' -> sub_db d (set_head d' p).
Proof. done. Qed.

Lemma erase_sub d p : sub_db d (erase_index d p).
Proof.
  split; [done|]. exists (fun q => bool_decide (q <> p)). simpl. apply list_filter_iff.
  intros q. by rewrite bool_decide_eq_true.
Qed.

Lemma catch_all_sub (m : M fork_database unit) d d' r :
  (forall d' r, m d = (d', r) -> sub_db d d') -> catch_all m d = (d', r) -> sub_db d d'.
Proof.
  intros Hm E. unfold catch_all in E. destruct (m d) as [d1 r1] eqn:E1. specialize (Hm _ _ eq_refl).
  destruct r1 as [|[]]; by simplify_eq.
Qed.

Lemma prune_forks_sub fuel num nitr d d' r :
  fdb_wf d -> prune_forks fuel num nitr d = (d', r) -> sub_db d d'.
Proof.
  revert nitr d. induction fuel as [|fuel IH]; intros nitr d Hw E.
  { stop_here. }
  destruct nitr as [p|]; [|stop_here].
  cbn [prune_forks] in E. unfold mbind, M_bind, get_state in E.
  destruct (negb _); [stop_here|].
  destruct (_ =? _); [|stop_here].
  destruct (remove _ d) as [d1 r1] eqn:Er. pose proof (remove_sub _ _ _ _ Hw Er) as Hsub.
  destruct r1; [|by simplify_eq]. eapply sub_db_trans; [done|]. eapply IH; [|done].
  by eapply sub_db_wf.
Qed.

Lemma prune_older_sub fuel (f : block_state_ptr -> M fork_database unit) num d d' r :
  (forall h d d' r, fdb_wf d -> f h d = (d', r) -> sub_db d d') ->
  fdb_wf d -> prune_older fuel f num d = (d', r) -> sub_db d d'.
Proof.
  intros Hf. revert d. induction fuel as [|fuel IH]; intros d Hw E.
  { stop_here. }
  cbn [prune_older] in E. unfold mbind, M_bind, get_state in E.
  destruct (List.hd_error _) as [b|]; [|stop_here].
  destruct (_ <? _); [|stop_here].
  destruct (f b d) as [d1 r1] eqn:Ef. pose proof (Hf _ _ _ _ Hw Ef) as Hsub.
  destruct r1; [|by simplify_eq]. eapply sub_db_trans; [done|]. apply IH; [|done].
  by eapply sub_db_wf.
Qed.

Lemma prune_sub fuel h d d' r :
  fdb_wf d -> prune on_irreversible fuel h d = (d', r) -> sub_db d d'.
Proof.
  revert h d d' r. induction fuel as [|fuel IH]; intros h d d' r Hw E.
  { stop_here. }
  cbn [prune] in E. eapply catch_all_sub; [|exact E]. clear E d' r. intros d' r E.
  unfold mbind, M_bind, get_state, put_state, lift in E.
  destruct (prune_older _ _ _ d) as [d1 r1] eqn:Eo.
  apply prune_older_sub in Eo as Hs1; [|exact IH|done].
  assert (fdb_wf d1) as Hw1 by (by eapply sub_db_wf).
  destruct r1; [|by simplify_eq]. eapply sub_db_trans; [exact Hs1|].
  destruct (find_id d1 _) as [itr|].
  - destruct (on_irreversible _); [|injection E as <- _; exact (sub_db_refl d1)].
    eapply sub_db_trans; [apply (erase_sub (add_emitted d1 itr) itr)|].
    eapply prune_forks_sub; [|exact E]. apply (sub_db_wf d1); [|done].
    exact (erase_sub d1 itr).
  - exact (prune_forks_sub _ _ _ _ _ _ Hw1 E).
Qed.

Definition is_Some_b {A} (o : option A) : bool := match o with Some _ => true | None => false end.

(** The database with [n] added and [best] as its head. *)
Definition with_block (d : fork_database) (n best : block_state_ptr) : fork_database :=
  set_head (set_index d (index d ++ [n])) (Some best).

Lemma wf_snoc d n :
  fdb_wf d -> n ∉ index d -> find_id d (id_at d n) = None ->
  (forall q, q ∈ index d -> prev_at d n = id_at d q -> num_at d n = num_at d q + 1) ->
  (forall q, q ∈ index d -> prev_at d q = id_at d n -> num_at d q = num_at d n + 1) ->
  prev_at d n <> id_at d n -> fdb_wf (set_index d (index d ++ [n])).
Proof.
  intros [Hn Hu Hl] Hni Hf Hln Hnl Hs. rewrite find_id_None in Hf. constructor; simpl.
  - apply NoDup_app. split_and!; [done|set_solver|apply NoDup_singleton].
  - intros p q [Hp| ->%list_elem_of_singleton]%elem_of_app [Hq| ->%list_elem_of_singleton]%elem_of_app E.
    + by apply Hu.
    + by apply Hf in E.
    + symmetry in E. by apply Hf in E.
    + done.
  - intros p q [Hp| ->%list_elem_of_singleton]%elem_of_app [Hq| ->%list_elem_of_singleton]%elem_of_app E.
    + by apply Hl.
    + by apply Hnl.
    + by apply Hln.
    + done.
Qed.

(** What [add] does from the insertion on. *)
Lemma add_state_inserted d n skip hd :
  head d = Some hd ->
  (skip || is_Some_b (find_id d (previous (sbh_header (sb_header (block (at_ (store d) n))))))) = true ->
  find_id d (id_at d n) = None ->
  exists best, is_best (with_block d n best) best /\
    exists oldest, (oldest ∈ index d ++ [n]) /\
    (forall p, p ∈ index d ++ [n] -> num_at d oldest <= num_at d p) /\
    add_state on_irreversible (Some n) skip d =
      if num_at d oldest <? bs_dpos (at_ (store d) best)
      then let '(d', r) := prune on_irreversible (prune_fuel (with_block d n best)) oldest (with_block d n best) in
           (d', r ≫= fun _ => Ok n)
      else (with_block d n best, Ok n).
Proof.
  intros Hh Hs Hf. set (d1 := set_index d (index d ++ [n])).
  assert (index d1 <> []) as Hne by (unfold d1; simpl; by destruct (index d)).
  destruct (begin_perm_ok (by_lib_block_num (store d1) (index d1)) _ (by_lib_perm _ _) Hne) as [best Eb].
  destruct (begin_perm_ok (by_block_num (store d1) (index d1)) _ (by_block_num_perm _ _) Hne) as [old Eo].
  exists best. split; [by apply begin_by_lib in Eb|]. exists old.
  apply begin_of_Ok in Eo as Eo'. split_and!.
  - by destruct (begin_by_num d1 old n Eo' ltac:(unfold d1; simpl; set_solver)).
  - intros p Hp. destruct (begin_by_num d1 old p Eo' Hp) as [_ [->|Hb%num_before_num]]; [lia|done].
  - unfold add_state, M_ASSERT, insert_index, mbind, M_bind, get_state, put_state, lift.
    cbn [of_option]. rewrite Hh.
    assert ((if negb skip then if match find_id d (previous (sbh_header (sb_header (block (at_ (store d) n)))))
        with Some _ => true | None => false end then mret () else throw unlinkable_block_exception
       else mret ()) d = (d, Ok tt)) as Hlink.
    { destruct skip; [done|]. simpl in *. by destruct (find_id d (previous _)). }
    cbn [mret M_ret]. rewrite Hlink.
    unfold id_at in Hf. rewrite Hf. cbn [mret M_ret]. fold d1. rewrite Eb, Eo. unfold num_at.
    change (with_block d n best) with (set_head d1 (Some best)).
    change (store d1) with (store d). change (prune_fuel d1) with (prune_fuel (set_head d1 (Some best))).
    destruct (_ <? _); [|done]. destruct (prune on_irreversible _ _ _) as [d' [[]|]]; done.
Qed.

Definition is_linked (d : fork_database) (n : block_state_ptr) : bool :=
  is_Some_b (find_id d (previous (sbh_header (sb_header (block (at_ (store d) n)))))).

(** The refused additions leave the database as it was. *)
Lemma add_state_refused d n skip :
  (head d = None -> add_state on_irreversible (Some n) skip d = (d, Err fork_db_block_not_found)) /\
  (forall hd, head d = Some hd -> skip || is_linked d n = false ->
     add_state on_irreversible (Some n) skip d = (d, Err unlinkable_block_exception)) /\
  (forall hd q, head d = Some hd -> skip || is_linked d n = true -> find_id d (id_at d n) = Some q ->
     add_state on_irreversible (Some n) skip d = (d, Err fork_database_exception)).
Proof.
  unfold add_state, M_ASSERT, insert_index, is_linked, is_Some_b, id_at, mbind, M_bind, get_state, lift.
  cbn [of_option]. split_and!.
  - intros ->. done.
  - intros hd -> Hs. cbn [mret M_ret]. destruct skip; [done|]. cbn [negb orb] in *. by rewrite Hs.
  - intros hd q -> Hs Hf. cbn [mret M_ret].
    destruct skip; cbn [negb orb] in *; [|rewrite Hs]; cbn [mret M_ret]; rewrite Hf; done.
Qed.

(** [add] of a block state. Without a head, without its predecessor when
    that is checked, or with an id that is already there, it throws and the
    database is unchanged; otherwise the block enters the index, the head is a
    block that no block of the index beats, and when every block is at or above
    the head's irreversible number that is all that happens. *)
Theorem add_state_outcome d n skip :
  let run := add_state on_irreversible (Some n) skip d in
  match head d with
  | None => run = (d, Err fork_db_block_not_found)
  | Some _ =>
      if negb (skip || is_linked d n) then run = (d, Err unlinkable_block_exception)
      else if is_Some_b (find_id d (id_at d n)) then run = (d, Err fork_database_exception)
      else exists best, is_best (with_block d n best) best /\
        ((forall p, p ∈ index d ++ [n] -> bs_dpos (at_ (store d) best) <= num_at d p) ->
         run = (with_block d n best, Ok n))
  end.
Proof.
  intros run. destruct (add_state_refused d n skip) as (Hnone & Hunl & Hdup).
  destruct (head d) as [hd|] eqn:Hh; [|by apply Hnone].
  destruct (skip || is_linked d n) eqn:Hs; cbn [negb]; [|by eapply Hunl].
  destruct (find_id d (id_at d n)) as [q|] eqn:Hf; cbn [is_Some_b]; [by eapply Hdup|].
  destruct (add_state_inserted d n skip hd Hh Hs Hf) as (best & Hbest & old & Ho & _ & E).
  exists best. split; [done|]. intros Hall. unfold run. rewrite E. specialize (Hall old Ho).
  destruct (Z.ltb_spec (num_at d old) (bs_dpos (at_ (store d) best))); [lia|done].
Qed.

(** Whatever [add] does, it ends with some of the blocks it started with and
    possibly the new one. *)
Lemma add_state_sub d n skip d' r :
  (find_id d (id_at d n) = None -> fdb_wf (set_index d (index d ++ [n]))) ->
  add_state on_irreversible (Some n) skip d = (d', r) ->
  sub_db d d' \/ (find_id d (id_at d n) = None /\ sub_db (set_index d (index d ++ [n])) d').
Proof.
  intros Hw E. destruct (add_state_refused d n skip) as (Hnone & Hunl & Hdup).
  destruct (head d) as [hd|] eqn:Hh; [|left; rewrite Hnone in E by done; stop_here].
  destruct (skip || is_linked d n) eqn:Hs; [|left; rewrite (Hunl hd) in E by done; stop_here].
  destruct (find_id d (id_at d n)) as [q|] eqn:Hf; [left; rewrite (Hdup hd q) in E by done; stop_here|].
  right. split; [done|].
  destruct (add_state_inserted d n skip hd Hh Hs Hf) as (best & _ & old & _ & _ & E').
  rewrite E' in E. clear E'. destruct (_ <? _); [|injection E as <- _; exact (sub_db_refl _)].
  destruct (prune on_irreversible _ _ _) as [d1 r1] eqn:Ep. injection E as <- _.
  apply prune_sub in Ep; [exact Ep|]. apply (sub_db_wf (set_index d (index d ++ [n]))); [|auto].
  exact (sub_db_refl _).
Qed.

End Proofs.

Section Additions.
Context `{CryptoLaws} `{IndexOrderLaws}.
Context (on_irreversible : block_state -> result unit).

(** A database whose blocks carry their numbers: in their own id and, one less,
    in the id of their predecessor; pointers that were not given out yet are
    not in the index. *)
Record fdb_ok (d : fork_database) : Prop := {
  ok_wf : fdb_wf d;
  ok_id p : p ∈ index d -> num_from_id (id_at d p) = num_at d p;
  ok_prev p : p ∈ index d -> num_at d p = num_from_id (prev_at d p) + 1;
  ok_ptr p : p ∈ index d -> (p < next_ptr d)%nat
}.

Lemma sub_db_ok d d' : sub_db d d' -> fdb_ok d -> fdb_ok d'.
Proof.
  intros Hsub [Hw Hi Hp Hf]. constructor; [by eapply sub_db_wf|..]; intros p Hpi;
    pose proof (sub_db_elem _ _ _ Hsub Hpi) as Hpd;
    destruct (sub_db_fields _ _ p Hsub) as (E1 & E2 & E3); rewrite ?E1, ?E2, ?E3; auto.
  rewrite (proj2 (proj1 Hsub)). auto.
Qed.

Lemma block_state_of_child s b skip bs :
  block_state_of s b skip = Ok bs ->
  bs_num bs = u32 (block_num s + 1) /\ bs_prev bs = id s /\
  num_from_id (bs_id bs) = u32 (num_from_id (id s) + 1).
Proof.
  unfold block_state_of. intros E. inv_ok.
  match goal with E : next _ _ _ = Ok _ |- _ => apply next_child in E as (Hn & Hp & Hi & _) end.
  unfold bs_num, bs_prev, bs_id. simpl. split_and!; [done|done|].
  rewrite Hi, num_from_id_of_id. unfold header_block_num. by rewrite Hp.
Qed.

(** The database after [std::make_shared]. *)
Definition allocate (d : fork_database) (b : block_state) : fork_database :=
  mk_fork_database (<[next_ptr d := b]> (store d)) (S (next_ptr d)) (index d) (head d) (emitted d).

Lemma allocate_at d b p :
  fdb_ok d -> p ∈ index d -> at_ (store (allocate d b)) p = at_ (store d) p.
Proof.
  intros Hok Hp. simpl. rewrite at_insert, decide_False; [done|].
  intros <-. pose proof (ok_ptr d Hok _ Hp). lia.
Qed.

Lemma allocate_ok d b : fdb_ok d -> fdb_ok (allocate d b).
Proof.
  intros Hok. pose proof (allocate_at d b) as Hat.
  assert (forall p, p ∈ index d -> id_at (allocate d b) p = id_at d p /\
    prev_at (allocate d b) p = prev_at d p /\ num_at (allocate d b) p = num_at d p) as Hf.
  { intros p Hp. unfold id_at, prev_at, num_at. by rewrite Hat. }
  destruct Hok as [[Hn Hu Hl] Hi Hp Hptr]. constructor; [constructor|..]; simpl; try done.
  - intros p q Hpi Hqi. destruct (Hf p Hpi) as (-> & _), (Hf q Hqi) as (-> & _). by apply Hu.
  - intros p q Hpi Hqi. destruct (Hf p Hpi) as (_ & -> & ->), (Hf q Hqi) as (-> & _ & ->). by apply Hl.
  - intros p Hpi. destruct (Hf p Hpi) as (-> & _ & ->). auto.
  - intros p Hpi. destruct (Hf p Hpi) as (_ & -> & ->). auto.
  - intros p Hpi. specialize (Hptr p Hpi). lia.
Qed.

(** Adding a block whose numbers follow those of a block of the index. *)
Lemma snoc_ok d n prior :
  fdb_ok d -> prior ∈ index d -> (n < next_ptr d)%nat -> n ∉ index d ->
  find_id d (id_at d n) = None -> prev_at d n = id_at d prior ->
  num_at d n = num_at d prior + 1 -> num_from_id (id_at d n) = num_at d n ->
  fdb_ok (set_index d (index d ++ [n])).
Proof.
  intros [Hw Hi Hp Hptr] Hprior Hn Hni Hf Hprev Hnum Hid. constructor; simpl.
  - apply wf_snoc; try done.
    + intros q Hq E. rewrite Hprev in E. apply (wf_unique d Hw) in E as ->; done.
    + intros q Hq E. rewrite (Hp q Hq), E, Hid. done.
    + rewrite Hprev. intros E. pose proof (Hi prior Hprior). rewrite E in *. lia.
  - intros p [Hpi| ->%list_elem_of_singleton]%elem_of_app; [by apply Hi|done].
  - intros p [Hpi| ->%list_elem_of_singleton]%elem_of_app; [by apply Hp|].
    unfold num_at, prev_at, id_at in *. simpl in *. rewrite Hprev, (Hi prior Hprior). done.
  - intros p [Hpi| ->%list_elem_of_singleton]%elem_of_app; [by apply Hptr|done].
Qed.

(** [add] of a block keeps the database in order, whether it succeeds,
    throws or prunes: ids stay distinct, every block's number is the one in its
    id and one more than its predecessor's. *)
Theorem add_block_preserves d b skip d' r
  (Hok : fdb_ok d) (Hfit : forall p, p ∈ index d -> 0 <= num_at d p /\ num_at d p + 1 < 2 ^ 32)
  (E : add_block on_irreversible b skip d = (d', r)) :
  fdb_ok d'.
Proof.
  unfold add_block, M_ASSERT, mbind, M_bind, get_state, lift in E.
  destruct b as [b|]; cbn [of_option] in E; [|by simplify_eq].
  destruct (head d) as [hd|]; cbn [mret M_ret throw] in E; [|by injection E as <- _].
  destruct (find_id d (header_id _)); cbn [mret M_ret throw] in E; [by injection E as <- _|].
  destruct (find_id d (previous _)) as [prior|] eqn:Ep; cbn [of_option] in E; [|by injection E as <- _].
  destruct (block_state_of _ b skip) as [bs|] eqn:Eb; [|by injection E as <- _].
  unfold make_shared in E. fold (allocate d bs) in E.
  apply find_id_Some_1 in Ep as [Hprior Hpid].
  apply block_state_of_child in Eb as (Hnum & Hprev & Hid).
  destruct (Hfit prior Hprior) as [Hlo Hhi].
  assert (at_ (store (allocate d bs)) (next_ptr d) = bs) as Hnew
    by (simpl; rewrite at_insert, decide_True; done).
  assert (block_num (bs_header_state (at_ (store d) prior)) = num_at d prior) as Hbn by done.
  pose proof (ok_id d Hok prior Hprior) as Hpn. unfold id_at in Hpn.
  assert (u32 (num_at d prior + 1) = num_at d prior + 1) as Hu by (apply u32_small; unfold is_u32; lia).
  pose proof (allocate_ok d bs Hok) as Hok1. set (d1 := allocate d bs) in *.
  assert (find_id d1 (id_at d1 (next_ptr d)) = None -> fdb_ok (set_index d1 (index d1 ++ [next_ptr d]))) as Hsn.
  { intros Hf. apply snoc_ok with prior; try done.
    - simpl. lia.
    - intros Hin. pose proof (ok_ptr d Hok _ Hin). lia.
    - unfold prev_at, id_at. rewrite Hnew, Hprev. unfold d1. by rewrite allocate_at.
    - unfold num_at. rewrite Hnew, Hnum, Hbn, Hu. unfold d1. by rewrite allocate_at.
    - unfold num_at, id_at. rewrite Hnew, Hid, Hnum, Hbn.
      by change (BlockHeader.id (bs_header_state (at_ (store d) prior))) with (bs_id (at_ (store d) prior));
        rewrite Hpn. }
  apply add_state_sub in E as [Hsub|[Hf Hsub]].
  - by eapply sub_db_ok.
  - eapply sub_db_ok; [done|auto].
  - intros Hf. by apply ok_wf, Hsn.
Qed.

End Additions.
