(* ===== verification/ForkDatabaseRuns.v ===== *)
(** * Runs of the fork database

    A container with stable orders that satisfies the laws of [IndexOrder],
    saving and loading, and concrete databases on which the theorems of
    [ForkDatabaseProofs.v] apply. *)

From Stdlib Require Import ZArith Lia Bool.
From stdpp Require Import base numbers gmap sorting sets list.
From S2P Require Import Prelude Merkle BlockTime BlockHeader BlockHeaderProofs.
From S2P Require Import Transaction Block ForkDatabase ForkDatabaseProofs.

Open Scope Z_scope.

(** ** A stable order *)

Section StableSort.
Context (before : nat -> nat -> bool).
Hypothesis before_asym : forall x y, before x y = true -> before y x = false.
Hypothesis before_cotrans : forall x y z, before x y = true -> before z y = false -> before x z = true.

Fixpoint place (x : nat) (l : list nat) : list nat :=
  match l with
  | [] => [x]
  | y :: l' => if before x y then x :: l else y :: place x l'
  end.

(** [x] goes after the elements it is not strictly before. *)
Definition stable_sort (l : list nat) : list nat := fold_left (fun acc x => place x acc) l [].

Let in_order (x y : nat) : Prop := before y x = false.

Lemma place_perm x l : place x l ≡ₚ x :: l.
Proof.
  induction l as [|y l IH]; [done|]. simpl. destruct (before x y); [done|].
  rewrite IH. apply Permutation_swap.
Qed.

Lemma in_order_trans x y z : in_order x y -> in_order y z -> in_order x z.
Proof.
  unfold in_order. intros Hxy Hyz. destruct (before z x) eqn:E; [|done].
  pose proof (before_cotrans z x y E Hxy). congruence.
Qed.

Lemma place_sorted x l : StronglySorted in_order l -> StronglySorted in_order (place x l).
Proof.
  induction 1 as [|y l Hs IH Hy]; [repeat constructor|]. simpl. destruct (before x y) eqn:E.
  - constructor; [by constructor|]. assert (in_order x y) by (by apply before_asym).
    constructor; [done|]. eapply Forall_impl; [exact Hy|]. intros z Hz. by eapply in_order_trans.
  - constructor; [done|]. rewrite place_perm. by constructor.
Qed.

Lemma place_filter x l (P : nat -> Prop) `{forall y, Decision (P y)} :
  StronglySorted in_order l ->
  filter P (place x l) = if decide (P x) then place x (filter P l) else filter P l.
Proof.
  induction 1 as [|y l Hs IH Hy]; [simpl; rewrite filter_cons; by case_decide|].
  simpl. destruct (before x y) eqn:E.
  - rewrite (filter_cons P x). destruct (decide (P x)); [|done].
    assert (forall z, z ∈ y :: l -> before x z = true) as Hb.
    { intros z [->|Hz]%elem_of_cons; [done|]. eapply Forall_forall in Hy; [|done].
      by eapply before_cotrans. }
    destruct (filter P (y :: l)) as [|z l'] eqn:Ef; [done|]. simpl. rewrite Hb; [done|].
    assert (z ∈ filter P (y :: l)) as Hz by (rewrite Ef; by left). by apply list_elem_of_filter in Hz as [_ ?].
  - rewrite !filter_cons, IH. destruct (decide (P x)), (decide (P y)); simpl; rewrite ?E; done.
Qed.

Lemma stable_sort_from l acc :
  StronglySorted in_order acc ->
  fold_left (fun acc x => place x acc) l acc ≡ₚ l ++ acc /\
  StronglySorted in_order (fold_left (fun acc x => place x acc) l acc) /\
  forall (P : nat -> Prop) `{forall y, Decision (P y)},
    fold_left (fun acc x => place x acc) (filter P l) (filter P acc) =
    filter P (fold_left (fun acc x => place x acc) l acc).
Proof.
  revert acc. induction l as [|x l IH]; intros acc Hs; [done|]. simpl.
  destruct (IH (place x acc) (place_sorted x acc Hs)) as (Hp & Hs' & Hf). split_and!; [|done|].
  - rewrite Hp, place_perm. symmetry. apply Permutation_middle.
  - intros P HP. rewrite <- Hf, (place_filter x acc P) by done. unfold filter at 1. simpl.
    by destruct (decide (P x)).
Qed.

Lemma stable_sort_laws l :
  stable_sort l ≡ₚ l /\ StronglySorted in_order (stable_sort l) /\
  forall (P : nat -> Prop) `{forall y, Decision (P y)},
    stable_sort (filter P l) = filter P (stable_sort l).
Proof.
  destruct (stable_sort_from l []) as (Hp & Hs & Hf); [constructor|].
  rewrite app_nil_r in Hp. split_and!; [done|done|]. intros P HP. exact (Hf P HP).
Qed.

End StableSort.

Module Stable.

#[export] Instance order : IndexOrder := {
  by_block_id h l := l;
  by_prev h l := l;
  by_block_num h l := stable_sort (fun p q => num_before (at_ h p) (at_ h q)) l;
  by_lib_block_num h l := stable_sort (fun p q => lib_before (at_ h p) (at_ h q)) l
}.

Lemma num_before_asym a b : num_before a b = true -> num_before b a = false.
Proof. unfold num_before. destruct (in_current_chain a), (in_current_chain b); simpl; lia. Qed.

Lemma num_before_cotrans a b c : num_before a b = true -> num_before c b = false -> num_before a c = true.
Proof.
  unfold num_before.
  destruct (in_current_chain a), (in_current_chain b), (in_current_chain c); simpl; lia.
Qed.

Lemma lib_before_asym a b : lib_before a b = true -> lib_before b a = false.
Proof. unfold lib_before. lia. Qed.

Lemma lib_before_cotrans a b c : lib_before a b = true -> lib_before c b = false -> lib_before a c = true.
Proof. unfold lib_before. lia. Qed.

#[export] Instance order_laws : IndexOrderLaws.
Proof.
  pose proof (fun h => stable_sort_laws (fun p q => num_before (at_ h p) (at_ h q))
    (fun x y => num_before_asym _ _) (fun x y z => num_before_cotrans _ _ _)) as Hn.
  pose proof (fun h => stable_sort_laws (fun p q => lib_before (at_ h p) (at_ h q))
    (fun x y => lib_before_asym _ _) (fun x y z => lib_before_cotrans _ _ _)) as Hl.
  constructor; simpl; intros; try done; try apply Hn; try apply Hl.
Qed.

End Stable.

(** ** Saving and loading *)

Section SaveLoad.
Context `{Crypto} `{IndexOrderLaws}.
Context (on_irreversible : block_state -> result unit).

Definition id_matches (b : block_state) : Prop :=
  bs_id b = header_id (sbh_header (header (bs_header_state b))).

(** [d] holds the block states of [bs], in that order. *)
Definition loaded (bs : list block_state) (d : fork_database) : Prop :=
  index d = seq 0 (length bs) /\ next_ptr d = length bs /\
  forall i b, bs !! i = Some b -> at_ (store d) i = b.

Lemma loaded_blocks bs d : loaded bs d -> at_ (store d) <$> index d = bs.
Proof.
  intros (Hi & _ & Hb). rewrite Hi. apply list_eq. intros i. rewrite list_lookup_fmap.
  destruct (decide (i < length bs)%nat) as [Hl|Hl].
  - rewrite lookup_seq_lt by done. simpl. destruct (lookup_lt_is_Some_2 bs i Hl) as [b E].
    rewrite E. f_equal. by apply Hb.
  - rewrite lookup_seq_ge by lia. simpl. symmetry. apply lookup_ge_None_2. lia.
Qed.

Lemma loaded_elem bs d p : loaded bs d -> p ∈ index d -> exists b, b ∈ bs /\ at_ (store d) p = b.
Proof.
  intros Hl Hp. exists (at_ (store d) p). split; [|done].
  rewrite <- (loaded_blocks bs d Hl). by apply list_elem_of_fmap_2.
Qed.

Lemma set_loaded bs b d :
  loaded bs d -> bs_id b ∉ bs_id <$> bs -> id_matches b ->
  exists d', (p ← make_shared b; set p) d = (d', Ok tt) /\ loaded (bs ++ [b]) d'.
Proof.
  intros Hl Hni Hid. pose proof Hl as (Hi & Hn & Hb).
  unfold mbind, M_bind, make_shared, set, insert_index. cbn [index store next_ptr head emitted].
  set (d1 := mk_fork_database _ _ _ _ _).
  assert (at_ (store d1) (next_ptr d) = b) as Hat
    by (unfold d1; simpl; rewrite at_insert, decide_True; done).
  assert (forall p, p ∈ index d -> at_ (store d1) p = at_ (store d) p) as Hold.
  { intros p Hp. simpl. rewrite at_insert, decide_False; [done|]. rewrite Hi, elem_of_seq in Hp. lia. }
  assert (find_id d1 (bs_id b) = None) as Hf.
  { apply find_id_None. intros p Hp. unfold id_at. rewrite Hold by done.
    destruct (loaded_elem bs d p Hl Hp) as (b' & Hb' & ->). intros E. apply Hni. rewrite <- E.
    by apply list_elem_of_fmap_2. }
  unfold mbind, M_bind. rewrite Hat, Hf. unfold get_state, M_ASSERT, put_state.
  change (store (set_index d1 (index d1 ++ [next_ptr d]))) with (store d1).
  change (index d1) with (index d). rewrite Hat, bool_decide_eq_true_2 by done. cbn [mret M_ret].
  assert (forall hd, loaded (bs ++ [b]) (set_head (set_index d1 (index d ++ [next_ptr d])) hd)) as Hnew.
  { intros hd. unfold loaded. simpl. rewrite length_app, Hi, Hn. simpl. split_and!.
    - by rewrite seq_app.
    - lia.
    - intros i b' E. apply lookup_app_Some in E as [E|[Hge E]].
      + rewrite <- Hn, Hold; [by apply Hb|]. rewrite Hi, elem_of_seq. apply lookup_lt_Some in E. lia.
      + apply list_lookup_singleton_Some in E as [E <-].
        rewrite at_insert, decide_True by lia. done. }
  change (head (set_index d1 (index d ++ [next_ptr d]))) with (head d).
  destruct (head d) as [hd|] eqn:Hh.
  - destruct (_ <? _); eexists; (split; [reflexivity|]); [apply Hnew|].
    specialize (Hnew (Some hd)). unfold loaded in *. simpl in *. done.
  - eexists. split; [reflexivity|]. apply Hnew.
Qed.

Lemma set_all_loaded bs pre d :
  loaded pre d -> NoDup (bs_id <$> pre ++ bs) -> Forall id_matches bs ->
  exists d', set_all bs d = (d', Ok tt) /\ loaded (pre ++ bs) d'.
Proof.
  revert pre d. induction bs as [|b bs IH]; intros pre d Hl Hn Hm.
  { exists d. rewrite app_nil_r. done. }
  apply Forall_cons in Hm as [Hb Hm].
  destruct (set_loaded pre b d Hl) as (d1 & E & Hl1); [|done|].
  { rewrite fmap_app in Hn. apply NoDup_app in Hn as (_ & Hn & _). intros Hin.
    apply (Hn _ Hin). simpl. by left. }
  rewrite (cons_middle b pre bs), (app_assoc pre) in Hn.
  destruct (IH (pre ++ [b]) d1 Hl1 Hn Hm) as (d2 & E2 & Hl2).
  exists d2. rewrite <- app_assoc in Hl2. split; [|done].
  unfold mbind, M_bind in E. simpl. unfold mbind, M_bind.
  destruct (make_shared b d) as [d0 [p|]]; [|done]. by rewrite E.
Qed.

(** A fork database survives a restart: what [close] writes, the
    constructor reads back into the same set of block states with the same head
    block; [close] leaves the index empty. *)
Theorem close_open_roundtrip d d' saved hd
  (Hw : fdb_wf d) (Hid : forall p, p ∈ index d -> id_matches (at_ (store d) p))
  (Hh : head d = Some hd) (Hhd : hd ∈ index d)
  (E : close on_irreversible d = (d', Ok (Some saved))) :
  index d' = [] /\
  exists d2 hd2, open_fork_database (Some saved) = (d2, Ok tt) /\
    (at_ (store d2) <$> index d2) ≡ₚ (at_ (store d) <$> index d) /\
    head d2 = Some hd2 /\ at_ (store d2) hd2 = at_ (store d) hd.
Proof.
  assert (index d' = [] /\ saved =
    (at_ (store d) <$> by_block_id (store d) (index d), bs_id (at_ (store d) hd))) as [Hd' ->].
  { unfold close, mbind, M_bind, get_state, lift, put_state in E. rewrite Hh in E. cbn [of_option] in E.
    destruct (index d) as [|p l]; [done|]. destruct (begin_of _); [|done].
    match type of E with (let (_, _) := ?m in _) = _ => destruct m as [d1 [[]|]] end; [|done].
    injection E as <- <-. split; reflexivity. }
  split; [done|]. set (bs := at_ (store d) <$> by_block_id (store d) (index d)).
  assert (forall b, b ∈ bs -> exists p, p ∈ index d /\ b = at_ (store d) p) as Hbs.
  { intros b (p & -> & Hp)%list_elem_of_fmap. rewrite by_block_id_perm in Hp. eauto. }
  assert (NoDup (bs_id <$> bs)) as Hnd.
  { unfold bs. rewrite by_block_id_perm, <- list_fmap_compose.
    apply NoDup_fmap_2_strong; [|apply (wf_nodup d Hw)]. intros p q Hp Hq. by apply (wf_unique d Hw). }
  destruct (set_all_loaded bs [] empty_fork_database) as (d2 & E2 & Hl); [done|done| |].
  { apply Forall_forall. intros b (p & Hp & ->)%Hbs. auto. }
  simpl in Hl. pose proof (loaded_blocks _ _ Hl) as Hblk.
  assert (exists hd2, find_id d2 (bs_id (at_ (store d) hd)) = Some hd2) as [hd2 Hf].
  { destruct (find_id d2 _) as [hd2|] eqn:Hf; [by exists hd2|]. exfalso.
    rewrite find_id_None in Hf.
    assert (at_ (store d) hd ∈ at_ (store d2) <$> index d2) as (p & Ep & Hp)%list_elem_of_fmap.
    { rewrite Hblk. apply list_elem_of_fmap_2. by rewrite by_block_id_perm. }
    apply (Hf p Hp). unfold id_at. by rewrite Ep. }
  exists (set_head d2 (Some hd2)), hd2. split_and!; [| |done|].
  - unfold open_fork_database, mbind, M_bind, get_state, put_state, get_block. by rewrite E2, Hf.
  - simpl. rewrite Hblk. unfold bs. by rewrite by_block_id_perm.
  - simpl. apply find_id_Some_1 in Hf as [Hp Hpid]. destruct (loaded_elem bs d2 hd2 Hl Hp) as (b & Hb & Eb).
    destruct (Hbs b Hb) as (p & Hp' & ->). rewrite Eb. f_equal. apply (wf_unique d Hw); [done|done|].
    unfold id_at in *. congruence.
Qed.

End SaveLoad.

(** ** Concrete databases *)

Module Runs.
Import BlockHeaderProofs.Concrete Stable.

(** Block [k] of number [n], built on block [k'] of the number before. *)
Definition bid (n k : Z) : digest := mk_digest (swap32 n) k 0 0.

Definition mk_block (n k k' dpos : Z) (current : bool) : block_state :=
  let h := mk_signed_header
    (mk_header (n * 2) 5 0 (bid (n - 1) k') zero_digest zero_digest 1 None []) 50 in
  mk_block_state
    {| id := bid n k; block_num := n; header := h;
       dpos_proposed_irreversible_blocknum := dpos; dpos_irreversible_blocknum := dpos;
       bft_irreversible_blocknum := 0; pending_schedule_lib_num := 0;
       pending_schedule_hash := zero_digest; pending_schedule := default_schedule;
       active_schedule := schedule1; blockroot_merkle := empty_imerkle;
       producer_to_last_produced := ∅; producer_to_last_implied_irb := ∅;
       block_signing_key := 50; confirm_count := []; confirmations := [] |}
    (mk_block h [] []) true current [].

(** Block 10 with two branches: 11/0, 12/0 on the current chain and 11/1, 12/1,
    and a second block 10/1 with 11/2 on it. *)
Definition tree_blocks : list block_state := [
  mk_block 10 0 0 8 true; mk_block 11 0 0 9 true; mk_block 11 1 0 9 false;
  mk_block 12 0 0 9 true; mk_block 12 1 1 9 false; mk_block 10 1 0 8 false; mk_block 11 2 1 8 false].

Definition db_of (bs : list block_state) (l : list nat) (hd : nat) : fork_database :=
  mk_fork_database (list_to_map (zip (seq 0 (length bs)) bs)) (length bs) l (Some hd) [].

Definition tree : fork_database := db_of tree_blocks [0; 1; 2; 3; 4; 5; 6]%nat 3%nat.

Definition silent (b : block_state) : result unit := Ok tt.

(** Case analysis on the elements of a concrete list. *)
Ltac each_elem H :=
  repeat (apply elem_of_cons in H as [->|H]); try (by apply elem_of_nil in H).

Lemma tree_wf : fdb_wf tree.
Proof.
  constructor.
  - apply (bool_decide_unpack _). vm_compute. exact I.
  - intros p q Hp Hq E. simpl in Hp, Hq. each_elem Hp; each_elem Hq; try reflexivity;
      exfalso; revert E; vm_compute; congruence.
  - intros p q Hp Hq E. simpl in Hp, Hq. each_elem Hp; each_elem Hq; try (vm_compute; reflexivity);
      exfalso; revert E; vm_compute; congruence.
Qed.

Lemma tree_ok : fdb_ok tree.
Proof.
  constructor; [apply tree_wf|..]; intros p Hp; simpl in Hp; each_elem Hp; vm_compute; reflexivity || lia.
Qed.

Lemma remove_descendants_witness :
  exists d' r, remove (bid 11 1) tree = (d', r) /\ fdb_wf d' /\
    (forall p, p ∈ index d' <-> p ∈ index tree /\ ~ descends tree (bid 11 1) (id_at tree p)).
Proof.
  destruct (remove (bid 11 1) tree) as [d' r] eqn:E. exists d', r. split; [reflexivity|].
  destruct (remove_descendants tree (bid 11 1) d' r tree_wf E) as (Hi & Hw & _). split; assumption.
Defined.

(** Branch 1 is removed and the head stays on branch 0. *)
Example remove_branch :
  let '(d', r) := remove (bid 11 1) tree in
  index d' = [0; 1; 3; 5; 6]%nat /\ head d' = Some 3%nat /\ r = Ok tt.
Proof. vm_compute. done. Qed.

(** Removing the only block dereferences the end of the index. *)
Example remove_last_block :
  (remove (bid 10 0) (db_of tree_blocks [0]%nat 0%nat)).2 = Err undefined_behavior.
Proof. vm_compute. done. Qed.

Lemma tree_built_on_0 p : p ∈ [0; 1; 2; 3; 4]%nat -> built_on tree 0%nat p.
Proof.
  assert (forall q, q ∈ index tree -> prev_at tree q = bid 10 0 ->
    descends tree (bid 10 0) (id_at tree q)) as H1.
  { intros q Hq E. constructor; [done|]. rewrite E. constructor. }
  assert (forall q q', q ∈ index tree -> prev_at tree q = id_at tree q' ->
    descends tree (bid 10 0) (id_at tree q') -> descends tree (bid 10 0) (id_at tree q)) as H2.
  { intros q q' Hq E Hd. constructor; [done|]. by rewrite E. }
  intros Hp. split_and!; [by left|simpl; set_solver|]. change (id_at tree 0%nat) with (bid 10 0).
  each_elem Hp.
  - constructor.
  - apply H1; [simpl; set_solver|reflexivity].
  - apply H1; [simpl; set_solver|reflexivity].
  - apply (H2 3%nat 1%nat); [simpl; set_solver|reflexivity|]. apply H1; [simpl; set_solver|reflexivity].
  - apply (H2 4%nat 2%nat); [simpl; set_solver|reflexivity|]. apply H1; [simpl; set_solver|reflexivity].
Qed.

Lemma fetch_branch_from_fork_witness :
  exists ps qs a b, fetch_branch_from tree (bid 12 0) (bid 12 1) = Ok (ps ++ [a], qs ++ [b]) /\
    List.hd_error (ps ++ [a]) = Some 3%nat /\ List.hd_error (qs ++ [b]) = Some 4%nat.
Proof.
  destruct (fetch_branch_from_fork tree 0%nat 3%nat 4%nat tree_wf
    (tree_built_on_0 3%nat ltac:(set_solver)) (tree_built_on_0 4%nat ltac:(set_solver)))
    as (ps & qs & a & b & x & E & _ & _ & Hp & Hq & _).
  exists ps, qs, a, b. split; [exact E|split; assumption].
Defined.

Example fetch_branches :
  fetch_branch_from tree (bid 12 0) (bid 12 1) = Ok ([3; 1], [4; 2])%nat /\
  fetch_branch_from tree (bid 12 0) (bid 11 0) = Ok ([3; 1], [1])%nat.
Proof. vm_compute. done. Qed.

(** A predecessor that is not in the index is a null pointer that the message of
    the failing assertion dereferences. *)
Example fetch_branch_missing_parent :
  fetch_branch_from (db_of tree_blocks [0; 1; 6]%nat 1%nat) (bid 11 0) (bid 11 2) =
    Err undefined_behavior.
Proof. vm_compute. done. Qed.

Lemma set_bft_irreversible_subtree_witness :
  exists d', set_bft_irreversible (bid 11 1) tree = (d', Ok tt) /\ index d' = index tree /\
    bft_monotone d'.
Proof.
  destruct (set_bft_irreversible_subtree tree 2%nat) as (d' & E & Hi & _ & Hm & _).
  - apply tree_wf.
  - simpl; set_solver.
  - intros p q Hp Hq _. simpl in Hp, Hq. each_elem Hp; each_elem Hq; vm_compute; congruence.
  - vm_compute. congruence.
  - exists d'. split; [exact E|split; [exact Hi|exact Hm]].
Defined.

Example bft_of_branch :
  let d' := (set_bft_irreversible (bid 11 1) tree).1 in
  bft_at d' <$> index d' = [0; 0; 11; 0; 11; 0; 0].
Proof. vm_compute. done. Qed.

Lemma prune_oldest_witness :
  exists d', prune silent (prune_fuel tree) 0%nat tree = (d', Ok tt) /\
    emitted d' = [0%nat] /\ fdb_wf d'.
Proof.
  destruct (prune_oldest silent tree 0%nat 1%nat) as (d' & E & He & _ & Hw & _).
  - apply tree_wf.
  - simpl; set_solver.
  - intros p Hp. simpl in Hp. each_elem Hp; vm_compute; congruence.
  - simpl; set_solver.
  - reflexivity.
  - reflexivity.
  - intros p Hp. simpl in Hp. each_elem Hp; vm_compute; congruence.
  - reflexivity.
  - exists d'. split; [exact E|split; [exact He|exact Hw]].
Defined.

(** The fork 10/1 goes with what is built on it. *)
Example prune_tree :
  let d' := (prune silent (prune_fuel tree) 0%nat tree).1 in index d' = [1; 2; 3; 4]%nat.
Proof. vm_compute. done. Qed.

(** Without a successor on the current chain the iterator that [prune] keeps can
    point to a block that [remove] erased: here the fork's child comes first
    among the blocks of the next number. *)
Example prune_dangling_iterator :
  let d := db_of tree_blocks [0; 6; 2; 5]%nat 0%nat in
  (prune silent (prune_fuel d) 0%nat d).2 = Err undefined_behavior.
Proof. vm_compute. done. Qed.

(** A block added on top of the tree. *)
Definition block13 : signed_block :=
  Block.mk_block (mk_signed_header
    (mk_header 30 7 0 (bid 12 0) zero_digest zero_digest 1 None []) 70) [] [].

Lemma add_block_preserves_witness :
  exists d' p, add_block silent (Some block13) true tree = (d', Ok p) /\ fdb_ok d'.
Proof.
  destruct (add_block silent (Some block13) true tree) as [d' [p|e]] eqn:E.
  - exists d', p. split; [reflexivity|].
    apply (add_block_preserves silent tree (Some block13) true d' (Ok p) tree_ok); [|exact E].
    intros q Hq. simpl in Hq. each_elem Hq; vm_compute; split; congruence.
  - exfalso. vm_compute in E. discriminate.
Defined.

Lemma current_chain_lookup_witness :
  exists p, get_block_in_current_chain_by_num tree 11 = Some p /\ num_at tree p = 11.
Proof.
  destruct (current_chain_lookup tree 11) as [Hs Hc].
  destruct Hc as [p E]; [exists 1%nat; split; [simpl; set_solver|split; reflexivity]|].
  exists p. split; [exact E|]. apply (Hs p E).
Defined.

Lemma add_state_outcome_witness :
  add_state silent (Some 3%nat) false tree = (tree, Err fork_database_exception).
Proof. exact (add_state_outcome silent tree 3%nat false). Defined.

(** A block state whose id is that of its header. *)
Definition own_id (b : block_state) : block_state :=
  let s := bs_header_state b in
  set_header_state b (BlockHeader.with_header s (header s) (header_id (sbh_header (header s)))).

Definition saved_db : fork_database :=
  db_of [own_id (mk_block 10 0 0 8 true); own_id (mk_block 11 0 0 9 true)] [0; 1]%nat 1%nat.

Lemma close_open_roundtrip_witness :
  exists d' saved d2, close silent saved_db = (d', Ok (Some saved)) /\
    open_fork_database (Some saved) = (d2, Ok tt) /\
    (at_ (store d2) <$> index d2) ≡ₚ (at_ (store saved_db) <$> index saved_db).
Proof.
  destruct (close silent saved_db) as [d' [[saved|]|e]] eqn:E;
    [|exfalso; vm_compute in E; discriminate..].
  destruct (close_open_roundtrip silent saved_db d' saved 1%nat) as (_ & d2 & hd2 & Eo & Hp & _).
  - constructor.
    + apply (bool_decide_unpack _). vm_compute. exact I.
    + intros p q Hp Hq Eq. simpl in Hp, Hq. each_elem Hp; each_elem Hq; try reflexivity;
        exfalso; revert Eq; vm_compute; congruence.
    + intros p q Hp Hq Eq. simpl in Hp, Hq. each_elem Hp; each_elem Hq;
        exfalso; revert Eq; vm_compute; congruence.
  - intros p Hp. simpl in Hp. each_elem Hp; vm_compute; reflexivity.
  - reflexivity.
  - simpl; set_solver.
  - exact E.
  - exists d', saved, d2. split; [reflexivity|split; [exact Eo|exact Hp]].
Defined.

End Runs.
