(* ===== verification/Bandwidth.v ===== *)
(** * What a transaction can be billed

    The limits an account is told it has and the check at the end of a
    transaction agree: an amount within the limit passes the check, although the
    one rounds up and the other down. *)

From Stdlib Require Import ZArith Lia Bool.
From stdpp Require Import base numbers gmap sorting sets list.
From S2P Require Import Prelude BlockTime BlockHeader ResourceLimits ResourceLimitsProofs.

Open Scope Z_scope.

(** ** Accumulators that are up to date *)

(** The accumulator was brought to this slot and has room for the usage of a
    block. *)
Record up_to_date (slot : Z) (a : usage_accumulator) : Prop := {
  ud_slot : last_ordinal a = slot;
  ud_value : 0 <= value_ex a < 2 ^ 63;
  ud_consumed : 0 <= consumed a < 2 ^ 63
}.

Definition added (a : usage_accumulator) (units w : Z) : usage_accumulator :=
  mk_accumulator (last_ordinal a) (value_ex a + ceil_div (units * P) w) (consumed a + units).

Lemma precision_value : P = 1000000. Proof. reflexivity. Qed.

Lemma ceil_le num den k : 0 < den -> num <= den * k -> ceil_div num den <= k.
Proof. intros Hd Hk. pose proof (ceil_div_bound num den Hd). nia. Qed.

Lemma add_here slot a units w : up_to_date slot a -> 0 <= units < 2 ^ 40 -> 0 < w ->
  accumulator_add a units slot w = Ok (added a units w).
Proof.
  intros [Hs Hv Hc] Hu Hw. unfold accumulator_add. pose proof precision_value as HP.
  assert (ceil_div (units * P) w <= units * P) as Hle by (apply ceil_le; nia).
  assert (0 <= ceil_div (units * P) w) as H0 by (apply ceil_div_nonneg; lia).
  assert (units <= max_raw_value) as Hraw by (change max_raw_value with 18446744073709; lia).
  assert (units <= UINT64_MAX - consumed a) as Hcons by (unfold UINT64_MAX; lia).
  assert (ceil_div (units * P) w <= UINT64_MAX - value_ex a) as Hm by (unfold UINT64_MAX; lia).
  rewrite (proj2 (Z.leb_le _ _) Hraw), (proj2 (Z.leb_le _ _) Hcons). cbn [SNAX_ASSERT mbind result_bind].
  assert (u128 (units * P) = units * P) as -> by (apply Z.mod_small; lia).
  rewrite integer_divide_ceil_Ok by done. cbn [mbind result_bind]. unfold downgrade_cast_u64.
  rewrite (proj2 (Z.leb_le _ _) H0), (proj2 (Z.leb_le (ceil_div _ _) UINT64_MAX)) by (unfold UINT64_MAX in *; lia).
  cbn [andb SNAX_ASSERT mbind result_bind mret result_ret]. rewrite (proj2 (Z.leb_le _ _) Hm). cbn [SNAX_ASSERT mbind result_bind].
  unfold advance. rewrite Hs, Z.eqb_refl. cbn [mbind result_bind mret result_ret]. unfold added.
  rewrite !u64_small by (unfold is_u64, UINT64_MAX in *; lia). by rewrite Hs.
Qed.

(** Rounding: the usage that is added, read back rounded down, is at most what was
    there, rounded up, and the units. *)
Lemma window_bound a units w : 0 <= value_ex a < 2 ^ 63 -> 0 <= units < 2 ^ 40 -> 0 < w <= P ->
  used_in_window (added a units w) w <= ceil_div (value_ex a * w) P + units.
Proof.
  intros Hv Hu Hw. unfold used_in_window, added. cbn [value_ex]. pose proof precision_value as HP.
  assert (ceil_div (units * P) w <= units * P) as Hle by (apply ceil_le; nia).
  assert (0 <= ceil_div (units * P) w) as H0 by (apply ceil_div_nonneg; lia).
  pose proof (ceil_div_bound (units * P) w ltac:(lia)) as Hc. pose proof (ceil_div_bound (value_ex a * w) P ltac:(done)) as Hd.
  set (c := ceil_div (units * P) w) in *. set (u := ceil_div (value_ex a * w) P) in *.
  assert (u128 ((value_ex a + c) * w) = (value_ex a + c) * w) as -> by (apply Z.mod_small; change (2 ^ 128) with (2 ^ 64 * 2 ^ 64); nia).
  apply Z.lt_succ_r, Z.div_lt_upper_bound; [done|]. nia.
Qed.

Lemma added_zero a w : 0 < w -> added a 0 w = a.
Proof.
  intros Hw. unfold added. assert (ceil_div (0 * P) w = 0) as -> by (pose proof (ceil_div_bound (0 * P) w Hw); nia).
  rewrite !Z.add_0_r. by destruct a.
Qed.

(** ** The limits of a window *)

Section Limits.
Context `{CbrtLaws}.

(** The share of the capacity or the guaranteed minimum. *)
Definition use_limit (limit w weight total scale cap : Z) : Z :=
  Z.max (limit * w / 10 * weight / total) (Z.min cap (cbrt_scaled weight scale)).

Lemma use_limit_mono limit limit' w weight total scale cap :
  0 <= limit <= limit' -> 0 < w -> 0 <= weight -> 0 < total ->
  use_limit limit w weight total scale cap <= use_limit limit' w weight total scale cap.
Proof.
  intros Hl Hw Hwt Ht. unfold use_limit. apply Z.max_le_compat_r. apply Z.div_le_mono; [done|].
  apply Z.mul_le_mono_nonneg_r; [done|]. apply Z.div_le_mono; [done|]. nia.
Qed.

(** The branches of the code, without overflow. *)
Lemma use_limit_code limit w weight total scale cap :
  0 <= limit * w < 2 ^ 64 -> 0 <= weight < 2 ^ 63 ->
  (let threshold := if cap <? cbrt_scaled weight scale then cap else cbrt_scaled weight scale in
   let max_use := u128 (u128 (limit * w) / 10 * weight) / total in
   if max_use <? threshold then threshold else max_use) = use_limit limit w weight total scale cap.
Proof.
  intros Hl Hw. cbv zeta. assert (u128 (limit * w) = limit * w) as -> by (apply Z.mod_small; change (2 ^ 128) with (2 ^ 64 * 2 ^ 64); lia).
  assert (0 <= limit * w / 10 < 2 ^ 64) by (split; [apply Z.div_pos; lia|apply Z.div_lt_upper_bound; lia]).
  assert (u128 (limit * w / 10 * weight) = limit * w / 10 * weight) as -> by (apply Z.mod_small; change (2 ^ 128) with (2 ^ 64 * 2 ^ 64); nia).
  unfold use_limit. destruct (Z.ltb_spec cap (cbrt_scaled weight scale)).
  - rewrite (Z.min_l cap) by lia. destruct (Z.ltb_spec (limit * w / 10 * weight / total) cap); lia.
  - rewrite (Z.min_r cap) by lia. destruct (Z.ltb_spec (limit * w / 10 * weight / total) (cbrt_scaled weight scale)); lia.
Qed.

Lemma max_user_use_eq limit w weight total scale cap :
  0 <= limit * w < 2 ^ 64 -> 0 <= weight < 2 ^ 63 -> 0 <= scale -> cbrt_scaled weight scale <= INT64_MAX ->
  max_user_use limit w weight total scale cap = Ok (use_limit limit w weight total scale cap).
Proof.
  intros Hl Hw Hs Ht. pose proof (cbrt_scaled_nonneg weight scale ltac:(lia) Hs). unfold max_user_use, downgrade_cast_i64.
  rewrite (proj2 (Z.leb_le 0 _)), (proj2 (Z.leb_le _ INT64_MAX)) by done. cbn [andb SNAX_ASSERT mbind result_bind mret result_ret].
  by rewrite use_limit_code.
Qed.

(** ** A consistent database *)

Record limits_ok (rl : resource_limits) : Prop := {
  lk_cpu_window : 0 < account_cpu_usage_average_window (config rl) <= P;
  lk_net_window : 0 < account_net_usage_average_window (config rl) <= P;
  lk_max_cpu : 0 <= max (cpu_limit_parameters (config rl)) < 2 ^ 40;
  lk_max_net : 0 <= max (net_limit_parameters (config rl)) < 2 ^ 40;
  lk_virtual_cpu : max (cpu_limit_parameters (config rl)) <= virtual_cpu_limit (state rl) < 2 ^ 44;
  lk_virtual_net : max (net_limit_parameters (config rl)) <= virtual_net_limit (state rl) < 2 ^ 44;
  lk_pending_cpu : 0 <= pending_cpu_usage (state rl) <= max (cpu_limit_parameters (config rl));
  lk_pending_net : 0 <= pending_net_usage (state rl) <= max (net_limit_parameters (config rl));
  lk_total_cpu : 0 <= total_cpu_weight (state rl);
  lk_total_net : 0 <= total_net_weight (state rl);
  lk_weights k l : limits rl !! k = Some l -> is_i64 (lo_cpu_weight l) /\ is_i64 (lo_net_weight l)
}.

Lemma weights_typed rl a l : limits_ok rl -> get_account_limits rl a = Ok l -> is_i64 (lo_cpu_weight l) /\ is_i64 (lo_net_weight l).
Proof.
  intros Hrl E. unfold get_account_limits in E. destruct (limits rl !! (true, a)) as [l'|] eqn:El.
  - injection E as ->. by eapply lk_weights.
  - apply of_option_Ok in E. by eapply lk_weights.
Qed.

(** What is available, as the code computes it, from the guaranteed amount [m] and
    the rounded usage [used]. *)
Definition remaining (m used : Z) : Z := Z.max 0 (m - used).

Lemma cpu_limit_left rl a elastic u l avail :
  limits_ok rl -> usage rl !! a = Some u -> 0 <= value_ex (cpu_usage u) < 2 ^ 63 -> get_account_limits rl a = Ok l ->
  0 <= lo_cpu_weight l -> 0 < total_cpu_weight (state rl) -> get_account_cpu_limit rl a elastic = Ok avail ->
  let w := account_cpu_usage_average_window (config rl) in
  let limit := if elastic then virtual_cpu_limit (state rl) else max (cpu_limit_parameters (config rl)) in
  cbrt_scaled (lo_cpu_weight l) 1440 <= INT64_MAX /\
  avail = remaining (use_limit limit w (lo_cpu_weight l) (total_cpu_weight (state rl)) 1440 31000) (ceil_div (value_ex (cpu_usage u) * w) P).
Proof.
  intros Hrl Hu Hv Hl Hw Ht E w limit. apply bind_Ok in E as (arl & E & Ea). injection Ea as <-.
  pose proof (weights_typed rl a l Hrl Hl) as [[_ Hw'] _]. pose proof (lk_cpu_window rl Hrl) as Hwin. pose proof precision_value as HP. pose proof (lk_virtual_cpu rl Hrl). pose proof (lk_max_cpu rl Hrl).
  unfold get_account_cpu_limit_ex, get_usage in E. rewrite Hu, Hl in E. cbn [of_option mbind result_bind] in E.
  rewrite (proj2 (Z.ltb_ge (lo_cpu_weight l) 0)), (proj2 (Z.eqb_neq (total_cpu_weight (state rl)) 0)) in E by lia. cbn [orb] in E. cbv zeta in E.
  fold w limit in E. assert (u128 (value_ex (cpu_usage u) * w) = value_ex (cpu_usage u) * w) as Hx by (apply Z.mod_small; change (2 ^ 128) with (2 ^ 64 * 2 ^ 64); nia).
  rewrite Hx, integer_divide_ceil_Ok in E by done. cbn [mbind result_bind] in E. apply bind_Ok in E as (used & _ & E). apply bind_Ok in E as (t & Hc & E).
  unfold downgrade_cast_i64_signed in Hc. apply bind_Ok in Hc as (x & Hc & Et). apply assert_Ok in Hc. injection Et as <-. split_bool. split; [done|].
  assert (0 <= limit * w < 2 ^ 64) as Hlw by (unfold limit; destruct elastic; nia).
  pose proof (use_limit_code limit w (lo_cpu_weight l) (total_cpu_weight (state rl)) 1440 31000 Hlw ltac:(lia)) as Hcode. cbv zeta in Hcode. rewrite Hcode in E.
  set (m := use_limit limit w _ _ _ _) in *. apply bind_Ok in E as (av & Hav & E). apply bind_Ok in E as (mm & _ & E). injection E as <-. cbn [arl_available].
  unfold remaining. destruct (Z.leb_spec m (ceil_div (value_ex (cpu_usage u) * w) P)).
  - injection Hav as <-. lia.
  - unfold downgrade_cast_i64 in Hav. inv_ok. lia.
Qed.

Lemma net_limit_left rl a elastic u l avail :
  limits_ok rl -> usage rl !! a = Some u -> 0 <= value_ex (net_usage u) < 2 ^ 63 -> get_account_limits rl a = Ok l ->
  0 <= lo_net_weight l -> 0 < total_net_weight (state rl) -> get_account_net_limit rl a elastic = Ok avail ->
  let w := account_net_usage_average_window (config rl) in
  let limit := if elastic then virtual_net_limit (state rl) else max (net_limit_parameters (config rl)) in
  cbrt_scaled (lo_net_weight l) 75 <= INT64_MAX /\
  avail = remaining (use_limit limit w (lo_net_weight l) (total_net_weight (state rl)) 75 2500) (ceil_div (value_ex (net_usage u) * w) P).
Proof.
  intros Hrl Hu Hv Hl Hw Ht E w limit. apply bind_Ok in E as (arl & E & Ea). injection Ea as <-.
  pose proof (weights_typed rl a l Hrl Hl) as [_ [_ Hw']]. pose proof (lk_net_window rl Hrl) as Hwin. pose proof precision_value as HP. pose proof (lk_virtual_net rl Hrl). pose proof (lk_max_net rl Hrl).
  unfold get_account_net_limit_ex, get_usage in E. rewrite Hu, Hl in E. cbn [of_option mbind result_bind] in E.
  rewrite (proj2 (Z.ltb_ge (lo_net_weight l) 0)), (proj2 (Z.eqb_neq (total_net_weight (state rl)) 0)) in E by lia. cbn [orb] in E. cbv zeta in E.
  fold w limit in E. assert (u128 (value_ex (net_usage u) * w) = value_ex (net_usage u) * w) as Hx by (apply Z.mod_small; change (2 ^ 128) with (2 ^ 64 * 2 ^ 64); nia).
  rewrite Hx, integer_divide_ceil_Ok in E by done. cbn [mbind result_bind] in E. apply bind_Ok in E as (t & Hc & E).
  unfold downgrade_cast_i64 at 1 in Hc. apply bind_Ok in Hc as (x & Hc & Et). apply assert_Ok in Hc. injection Et as <-. split_bool. split; [done|].
  assert (0 <= limit * w < 2 ^ 64) as Hlw by (unfold limit; destruct elastic; nia).
  pose proof (use_limit_code limit w (lo_net_weight l) (total_net_weight (state rl)) 75 2500 Hlw ltac:(lia)) as Hcode. cbv zeta in Hcode. rewrite Hcode in E.
  set (m := use_limit limit w _ _ _ _) in *. apply bind_Ok in E as (used & _ & E). apply bind_Ok in E as (av & Hav & E). apply bind_Ok in E as (mm & _ & E). injection E as <-.
  cbn [arl_available]. unfold remaining. destruct (Z.leb_spec m (ceil_div (value_ex (net_usage u) * w) P)).
  - injection Hav as <-. lia.
  - unfold downgrade_cast_i64 in Hav. inv_ok. lia.
Qed.

(** An account that does not exceed its limits now. *)
Definition billed_usage (rl : resource_limits) (u : usage_object) (cpu net : Z) : usage_object :=
  mk_usage (added (net_usage u) net (account_net_usage_average_window (config rl)))
    (added (cpu_usage u) cpu (account_cpu_usage_average_window (config rl))) (ram_usage u).

(** An amount that is within what the account is told it has passes the check; an
    amount of nothing passes when the account is within its limit already. *)
Lemma cpu_check_passes rl a elastic u l avail cpu net :
  limits_ok rl -> usage rl !! a = Some u -> 0 <= value_ex (cpu_usage u) < 2 ^ 63 -> get_account_limits rl a = Ok l ->
  get_account_cpu_limit rl a elastic = Ok avail -> 0 <= cpu < 2 ^ 40 -> (0 <= avail -> cpu <= avail) ->
  0 < cpu \/ check_cpu rl u (lo_cpu_weight l) = Ok tt -> check_cpu rl (billed_usage rl u cpu net) (lo_cpu_weight l) = Ok tt.
Proof.
  intros Hrl Hu Hv Hl E Hc Hle Hor. pose proof (lk_cpu_window rl Hrl) as Hwin. pose proof precision_value as HP.
  destruct (decide (cpu = 0)) as [->|Hne].
  { destruct Hor as [|Hnow]; [lia|]. unfold check_cpu in *. cbn [billed_usage cpu_usage]. by rewrite added_zero by lia. }
  clear Hor. unfold check_cpu. cbv zeta. destruct (_ && _) eqn:Hb; [|done]. apply andb_true_iff in Hb as [Hw Ht]. apply Z.leb_le in Hw. apply Z.ltb_lt in Ht.
  destruct (cpu_limit_left rl a elastic u l avail Hrl Hu Hv Hl Hw Ht E) as [Hcb ->].
  pose proof (weights_typed rl a l Hrl Hl) as [[_ Hw'] _]. pose proof (lk_virtual_cpu rl Hrl). pose proof (lk_max_cpu rl Hrl).
  set (w := account_cpu_usage_average_window (config rl)) in *.
  rewrite max_user_use_eq by (lia || nia). cbn [mbind result_bind]. apply assert_Ok, Z.leb_le. cbn [billed_usage cpu_usage]. fold w.
  pose proof (window_bound (cpu_usage u) cpu w Hv Hc Hwin) as Hb.
  pose proof (use_limit_mono (if elastic then virtual_cpu_limit (state rl) else max (cpu_limit_parameters (config rl))) (virtual_cpu_limit (state rl)) w
    (lo_cpu_weight l) (total_cpu_weight (state rl)) 1440 31000 ltac:(destruct elastic; lia) ltac:(lia) Hw Ht) as Hm.
  unfold remaining in *. lia.
Qed.

Lemma net_check_passes rl a elastic u l avail cpu net :
  limits_ok rl -> usage rl !! a = Some u -> 0 <= value_ex (net_usage u) < 2 ^ 63 -> get_account_limits rl a = Ok l ->
  get_account_net_limit rl a elastic = Ok avail -> 0 <= net < 2 ^ 40 -> (0 <= avail -> net <= avail) ->
  0 < net \/ check_net rl u (lo_net_weight l) = Ok tt -> check_net rl (billed_usage rl u cpu net) (lo_net_weight l) = Ok tt.
Proof.
  intros Hrl Hu Hv Hl E Hc Hle Hor. pose proof (lk_net_window rl Hrl) as Hwin. pose proof precision_value as HP.
  destruct (decide (net = 0)) as [->|Hne].
  { destruct Hor as [|Hnow]; [lia|]. unfold check_net in *. cbn [billed_usage net_usage]. by rewrite added_zero by lia. }
  clear Hor. unfold check_net. cbv zeta. destruct (_ && _) eqn:Hb; [|done]. apply andb_true_iff in Hb as [Hw Ht]. apply Z.leb_le in Hw. apply Z.ltb_lt in Ht.
  destruct (net_limit_left rl a elastic u l avail Hrl Hu Hv Hl Hw Ht E) as [Hcb ->].
  pose proof (weights_typed rl a l Hrl Hl) as [_ [_ Hw']]. pose proof (lk_virtual_net rl Hrl). pose proof (lk_max_net rl Hrl).
  set (w := account_net_usage_average_window (config rl)) in *.
  rewrite max_user_use_eq by (lia || nia). cbn [mbind result_bind]. apply assert_Ok, Z.leb_le. cbn [billed_usage net_usage]. fold w.
  pose proof (window_bound (net_usage u) net w Hv Hc Hwin) as Hb.
  pose proof (use_limit_mono (if elastic then virtual_net_limit (state rl) else max (net_limit_parameters (config rl))) (virtual_net_limit (state rl)) w
    (lo_net_weight l) (total_net_weight (state rl)) 75 2500 ltac:(destruct elastic; lia) ltac:(lia) Hw Ht) as Hm.
  unfold remaining in *. lia.
Qed.

(** ** Billing *)

Definition usage_ready (slot : Z) (u : usage_object) : Prop := up_to_date slot (net_usage u) /\ up_to_date slot (cpu_usage u).

(** The amounts pass the checks of this account. *)
Definition can_be_billed (rl : resource_limits) (slot cpu net : Z) (a : account_name) : Prop :=
  exists u l, usage rl !! a = Some u /\ usage_ready slot u /\ get_account_limits rl a = Ok l /\
    check_cpu rl (billed_usage rl u cpu net) (lo_cpu_weight l) = Ok tt /\
    check_net rl (billed_usage rl u cpu net) (lo_net_weight l) = Ok tt.

Lemma bill_accounts_total slot cpu net accounts : forall rl,
  limits_ok rl -> 0 <= cpu < 2 ^ 40 -> 0 <= net < 2 ^ 40 -> NoDup accounts ->
  (forall a, a ∈ accounts -> can_be_billed rl slot cpu net a) ->
  exists rl', bill_accounts rl accounts cpu net slot = Ok rl'.
Proof.
  induction accounts as [|a accounts IH]; intros rl Hrl Hc Hn Hnd Hall; cbn [bill_accounts]; [by eauto|].
  apply NoDup_cons in Hnd as [Hni Hnd]. destruct (Hall a ltac:(left)) as (u & l & Hu & [Hrn Hrc] & Hl & Kc & Kn).
  unfold get_usage. rewrite Hu, Hl. cbn [of_option mbind result_bind]. unfold add_usage.
  rewrite (add_here slot _ _ _ Hrn Hn) by apply (lk_net_window rl Hrl). cbn [mbind result_bind].
  rewrite (add_here slot _ _ _ Hrc Hc) by apply (lk_cpu_window rl Hrl). cbn [mbind result_bind mret result_ret].
  change (mk_usage _ _ _) with (billed_usage rl u cpu net). cbv zeta.
  set (rl1 := set_usage rl (<[a:=billed_usage rl u cpu net]> (usage rl))).
  rewrite (check_cpu_frame rl rl1) by done. rewrite Kc. cbn [mbind result_bind]. rewrite (check_net_frame rl rl1) by done. rewrite Kn. cbn [mbind result_bind].
  apply IH; [|done..|].
  - destruct Hrl. constructor; done.
  - intros b Hb. destruct (Hall b ltac:(by right)) as (v & lb & Hv & Hr & Hlb & Kcb & Knb). exists v, lb.
    split_and!; try done. simpl. rewrite lookup_insert_ne by set_solver. done.
Qed.

(** A bill within all limits never fails. *)
Lemma add_transaction_usage_total rl accounts cpu net slot :
  limits_ok rl -> NoDup accounts -> 0 <= cpu <= max (cpu_limit_parameters (config rl)) - pending_cpu_usage (state rl) ->
  0 <= net <= max (net_limit_parameters (config rl)) - pending_net_usage (state rl) ->
  (forall a, a ∈ accounts -> can_be_billed rl slot cpu net a) ->
  exists rl', add_transaction_usage rl accounts cpu net slot = Ok rl'.
Proof.
  intros Hrl Hnd Hc Hn Hall. pose proof (lk_max_cpu rl Hrl). pose proof (lk_max_net rl Hrl). pose proof (lk_pending_cpu rl Hrl). pose proof (lk_pending_net rl Hrl).
  destruct (bill_accounts_total slot cpu net accounts rl Hrl ltac:(lia) ltac:(lia) Hnd Hall) as [rl1 E].
  unfold add_transaction_usage. rewrite E. cbn [mbind result_bind]. apply bill_accounts_frame in E as (Hcf & Hs & _ & _). rewrite Hs. cbv zeta.
  cbn [set_pending pending_net_usage pending_cpu_usage set_state_row config]. rewrite Hcf.
  rewrite !u64_small by (unfold is_u64; lia). rewrite !(proj2 (Z.leb_le _ _)) by lia. by eexists.
Qed.

End Limits.
