(* ===== verification/TransactionContext.v ===== *)
(** * The context of a transaction

    [transaction_context.cpp] of [libraries/chain]: the limits of network and CPU
    a transaction runs under, the bill at its end, delayed transactions, the list
    of known transactions, and of [controller.cpp] the checks of expiration and
    reference block and the clearing of expired entries.

    The fields of the context stay as they are when an exception is thrown (the
    controller reads them afterwards), so operations are in the state monad. A
    reading of the clock is an argument, and so is the flag of the deadline
    timer, which a signal sets. Times are microseconds. *)

From Stdlib Require Import ZArith Lia Bool.
From stdpp Require Import base numbers gmap list.
From S2P Require Import Prelude ResourceLimits BlockTime Merkle BlockHeader Authority Permissions NativeActions ChainConfig Transaction.

Open Scope Z_scope.

(** ** State *)

(** What the controller tells a transaction. [cv_summaries] is the ring of block
    summaries. *)
Record controller_view := mk_view {
  cv_cfg : chain_config;
  cv_conf : controller_config;
  cv_status : controller_status;
  cv_pending_block_time : Z;
  cv_head_block_id : digest;
  cv_summaries : gmap Z digest
}.

Record action_receipt := mk_receipt {
  rc_receiver : account_name;
  rc_act : action;
  rc_global_sequence : Z;
  rc_recv_sequence : Z;
  rc_auth_sequence : gmap account_name Z;
  rc_code_sequence : Z;
  rc_abi_sequence : Z
}.

(** What the caller of the context sets. *)
Record trx_settings := mk_settings {
  tc_trx : transaction;
  tc_id : digest;
  tc_start : Z;
  tc_deadline : Z;
  tc_leeway : Z;
  tc_explicit_billed_cpu_time : bool;
  tc_enforce_whiteblacklist : bool;
  tc_delay : Z
}.

Record net_meter := mk_net {
  nm_net_limit : Z;
  nm_limit_due_to_block : bool;
  nm_limit_due_to_greylist : bool;
  nm_eager_net_limit : Z;
  nm_net_usage : Z
}.

(** The two exception codes are the exceptions themselves. *)
Record cpu_meter := mk_cpu {
  cm_limit_due_to_greylist : bool;
  cm_initial_objective_duration_limit : Z;
  cm_objective_duration_limit : Z;
  cm_deadline : Z;
  cm_deadline_exception_code : exn;
  cm_billing_timer_exception_code : exn;
  cm_pseudo_start : Z;
  cm_billed_time : Z;
  cm_billing_timer_duration_limit : Z;
  cm_billed_cpu_time_us : Z
}.

Record transaction_context := mk_tc {
  tc_settings : trx_settings;
  tc_published : Z;
  tc_bill_to_accounts : list account_name;
  tc_validate_ram_usage : list account_name;
  tc_is_input : bool;
  tc_apply_context_free : bool;
  tc_is_initialized : bool;
  tc_net : net_meter;
  tc_cpu : cpu_meter;
  tc_executed : list action_receipt
}.

(** The database with the known transactions and their expiration, the number of
    actions so far, and the context. *)
Record trx_state := mk_ts {
  ts_db : chain_db;
  ts_recorded : gmap digest Z;
  ts_global_sequence : Z;
  ts_tc : transaction_context
}.

Definition put_db (s : trx_state) (db : chain_db) : trx_state := mk_ts db (ts_recorded s) (ts_global_sequence s) (ts_tc s).
Definition put_tc (s : trx_state) (tc : transaction_context) : trx_state :=
  mk_ts (ts_db s) (ts_recorded s) (ts_global_sequence s) tc.
Definition put_net (tc : transaction_context) (n : net_meter) : transaction_context :=
  mk_tc (tc_settings tc) (tc_published tc) (tc_bill_to_accounts tc) (tc_validate_ram_usage tc) (tc_is_input tc)
    (tc_apply_context_free tc) (tc_is_initialized tc) n (tc_cpu tc) (tc_executed tc).
Definition put_cpu (tc : transaction_context) (c : cpu_meter) : transaction_context :=
  mk_tc (tc_settings tc) (tc_published tc) (tc_bill_to_accounts tc) (tc_validate_ram_usage tc) (tc_is_input tc)
    (tc_apply_context_free tc) (tc_is_initialized tc) (tc_net tc) c (tc_executed tc).
Definition put_accounts (tc : transaction_context) (bill ram : list account_name) : transaction_context :=
  mk_tc (tc_settings tc) (tc_published tc) bill ram (tc_is_input tc) (tc_apply_context_free tc) (tc_is_initialized tc)
    (tc_net tc) (tc_cpu tc) (tc_executed tc).
Definition put_phase (tc : transaction_context) (published : Z) (is_input apply_context_free is_initialized : bool) :
    transaction_context :=
  mk_tc (tc_settings tc) published (tc_bill_to_accounts tc) (tc_validate_ram_usage tc) is_input apply_context_free
    is_initialized (tc_net tc) (tc_cpu tc) (tc_executed tc).

Definition modify_tc (f : transaction_context -> transaction_context) : M trx_state unit :=
  s ← get_state; put_state (put_tc s (f (ts_tc s))).
Definition get_tc : M trx_state transaction_context := s ← get_state; mret (ts_tc s).
(** An operation on the database or the resource limits. *)
Definition on_db (f : chain_db -> result chain_db) : M trx_state unit :=
  s ← get_state; db ← lift (f (ts_db s)); put_state (put_db s db).
Definition on_limits (f : resource_limits -> result resource_limits) : M trx_state unit :=
  on_db (fun db => rl ← f (db_limits db); mret (NativeActions.set_limits db rl)).

(** Insertion into a [flat_set]. *)
Fixpoint set_insert (x : account_name) (l : list account_name) : list account_name :=
  match l with
  | [] => [x]
  | y :: l' => if x <? y then x :: l else if x =? y then l else y :: set_insert x l'
  end.

(** The constructor, with the default member initialisers; an extension of the
    transaction is refused. *)
Definition make_context (settings : trx_settings) (billed_cpu_time_us : Z) : result transaction_context :=
  SNAX_ASSERT (bool_decide (tr_extensions (tc_trx settings) = [])) unsupported_feature;;
  mret (mk_tc settings 0 [] [] false true false (mk_net 0 true false 0 0)
    (mk_cpu false 0 0 INT64_MAX block_cpu_usage_exceeded block_cpu_usage_exceeded (tc_start settings) 0 0 billed_cpu_time_us) []).

Section Context_.
Context `{Cbrt} `{Crypto} (cv : controller_view).

Notation cfg := (cv_cfg cv).
Definition checks_skipped : bool := skip_trx_checks (cv_conf cv) (cv_status cv).
Definition pending_slot : Z := set_time_point (cv_pending_block_time cv).

(** ** Network usage *)

Definition check_net_usage (tc : transaction_context) : result unit :=
  if checks_skipped then mret tt
  else
    let n := tc_net tc in
    if nm_eager_net_limit n <? nm_net_usage n then
      Err (if nm_limit_due_to_block n then block_net_usage_exceeded
           else if nm_limit_due_to_greylist n then greylist_net_usage_exceeded else tx_net_usage_exceeded)
    else mret tt.

Definition add_net_usage (u : Z) : M trx_state unit :=
  modify_tc (fun tc => let n := tc_net tc in
    put_net tc (mk_net (nm_net_limit n) (nm_limit_due_to_block n) (nm_limit_due_to_greylist n) (nm_eager_net_limit n)
                  (u64 (nm_net_usage n + u))));;
  tc ← get_tc; lift (check_net_usage tc).

(** ** CPU usage *)

(** [expired] is the flag of the timer, [now] the time if it is read. *)
Definition checktime (tc : transaction_context) (expired : bool) (now : Z) : result unit :=
  if negb expired then mret tt
  else
    let c := tc_cpu tc in
    if cm_deadline c <? now then
      if tc_explicit_billed_cpu_time (tc_settings tc) || bool_decide (cm_deadline_exception_code c = deadline_exception)
      then Err deadline_exception
      else if bool_decide (cm_deadline_exception_code c = block_cpu_usage_exceeded) then Err block_cpu_usage_exceeded
      else if bool_decide (cm_deadline_exception_code c = tx_cpu_usage_exceeded) then
        Err (if cm_limit_due_to_greylist c then greylist_cpu_usage_exceeded else tx_cpu_usage_exceeded)
      else if bool_decide (cm_deadline_exception_code c = leeway_deadline_exception) then Err leeway_deadline_exception
      else Err transaction_exception
    else mret tt.

Definition pause_billing_timer (tc : transaction_context) (now : Z) : transaction_context :=
  let c := tc_cpu tc in
  if tc_explicit_billed_cpu_time (tc_settings tc) || (cm_pseudo_start c =? 0) then tc
  else put_cpu tc (mk_cpu (cm_limit_due_to_greylist c) (cm_initial_objective_duration_limit c) (cm_objective_duration_limit c)
         (cm_deadline c) deadline_exception (cm_billing_timer_exception_code c) 0 (now - cm_pseudo_start c)
         (cm_billing_timer_duration_limit c) (cm_billed_cpu_time_us c)).

Definition resume_billing_timer (tc : transaction_context) (now : Z) : transaction_context :=
  let c := tc_cpu tc in
  if tc_explicit_billed_cpu_time (tc_settings tc) || negb (cm_pseudo_start c =? 0) then tc
  else
    let pseudo_start := now - cm_billed_time c in
    let own := pseudo_start + cm_billing_timer_duration_limit c <=? tc_deadline (tc_settings tc) in
    put_cpu tc (mk_cpu (cm_limit_due_to_greylist c) (cm_initial_objective_duration_limit c) (cm_objective_duration_limit c)
      (if own then pseudo_start + cm_billing_timer_duration_limit c else tc_deadline (tc_settings tc))
      (if own then cm_billing_timer_exception_code c else deadline_exception) (cm_billing_timer_exception_code c)
      pseudo_start (cm_billed_time c) (cm_billing_timer_duration_limit c) (cm_billed_cpu_time_us c)).

Definition validate_cpu_usage_to_bill (tc : transaction_context) (billed_us : Z) (check_minimum : bool) : result unit :=
  if checks_skipped then mret tt
  else
    let c := tc_cpu tc in
    (if check_minimum then SNAX_ASSERT (cc_min_transaction_cpu_usage cfg <=? billed_us) transaction_exception else mret tt);;
    SNAX_ASSERT (billed_us <=? cm_objective_duration_limit c)
      (if bool_decide (cm_billing_timer_exception_code c = block_cpu_usage_exceeded) then block_cpu_usage_exceeded
       else if cm_limit_due_to_greylist c then greylist_cpu_usage_exceeded else tx_cpu_usage_exceeded).

Definition set_billed (c : cpu_meter) (billed_us : Z) : cpu_meter :=
  mk_cpu (cm_limit_due_to_greylist c) (cm_initial_objective_duration_limit c) (cm_objective_duration_limit c) (cm_deadline c)
    (cm_deadline_exception_code c) (cm_billing_timer_exception_code c) (cm_pseudo_start c) (cm_billed_time c)
    (cm_billing_timer_duration_limit c) billed_us.

Definition update_billed_cpu_time (tc : transaction_context) (now : Z) : transaction_context :=
  let c := tc_cpu tc in
  if tc_explicit_billed_cpu_time (tc_settings tc) then tc
  else put_cpu tc (set_billed c (Z.max (now - cm_pseudo_start c) (cc_min_transaction_cpu_usage cfg))).

(** ** What the billed accounts can pay *)

Definition large_number_no_overflow : Z := INT64_MAX / 2.

Fixpoint bandwidth_loop (rl : resource_limits) (force_elastic_limits : bool) (accounts : list account_name)
    (net cpu : Z) (greylisted_net greylisted_cpu : bool) : result (Z * Z * bool * bool) :=
  match accounts with
  | [] => mret (net, cpu, greylisted_net, greylisted_cpu)
  | a :: accounts =>
      let elastic := force_elastic_limits || negb (is_producing_block (cv_status cv) && is_resource_greylisted (cv_conf cv) a) in
      net_limit ← get_account_net_limit rl a elastic;
      let '(net, greylisted_net) :=
        if 0 <=? net_limit then (Z.min net net_limit, if elastic then greylisted_net else true) else (net, greylisted_net) in
      cpu_limit ← get_account_cpu_limit rl a elastic;
      let '(cpu, greylisted_cpu) :=
        if 0 <=? cpu_limit then (Z.min cpu cpu_limit, if elastic then greylisted_cpu else true) else (cpu, greylisted_cpu) in
      bandwidth_loop rl force_elastic_limits accounts net cpu greylisted_net greylisted_cpu
  end.

Definition max_bandwidth_billed_accounts_can_pay (rl : resource_limits) (accounts : list account_name)
    (force_elastic_limits : bool) : result (Z * Z * bool * bool) :=
  bandwidth_loop rl force_elastic_limits accounts large_number_no_overflow large_number_no_overflow false false.

(** ** The beginning *)

(** The limits of the block, of the configuration and of the header; the net limit
    with whether it is the block's, the duration with the exception that stands
    for it. *)
Definition objective_net_limit (rl : resource_limits) (trx : transaction) : Z * bool :=
  let '(net_limit, due_to_block) := (get_block_net_limit rl, true) in
  let '(net_limit, due_to_block) :=
    if cc_max_transaction_net_usage cfg <=? net_limit then (cc_max_transaction_net_usage cfg, false) else (net_limit, due_to_block) in
  let specified := u64 (tr_max_net_usage_words trx * 8) in
  if (0 <? specified) && (specified <=? net_limit) then (specified, false) else (net_limit, due_to_block).

Definition objective_cpu_limit (rl : resource_limits) (trx : transaction) : Z * exn :=
  let '(limit, code) := (i64 (get_block_cpu_limit rl), block_cpu_usage_exceeded) in
  let '(limit, code) :=
    if cc_max_transaction_cpu_usage cfg <=? limit then (cc_max_transaction_cpu_usage cfg, tx_cpu_usage_exceeded) else (limit, code) in
  if 0 <? tr_max_cpu_usage_ms trx then
    let specified := tr_max_cpu_usage_ms trx * 1000 in
    if specified <=? limit then (specified, tx_cpu_usage_exceeded) else (limit, code)
  else (limit, code).

Definition init_limits (rl : resource_limits) (tc : transaction_context) : transaction_context :=
  let trx := tc_trx (tc_settings tc) in
  let '(net_limit, due_to_block) := objective_net_limit rl trx in
  let '(limit, code) := objective_cpu_limit rl trx in
  let n := tc_net tc in
  let c := tc_cpu tc in
  put_cpu (put_net tc (mk_net net_limit due_to_block (nm_limit_due_to_greylist n) (nm_eager_net_limit n) (nm_net_usage n)))
    (mk_cpu (cm_limit_due_to_greylist c) limit limit (tc_start (tc_settings tc) + limit) (cm_deadline_exception_code c) code
       (cm_pseudo_start c) (cm_billed_time c) (cm_billing_timer_duration_limit c) (cm_billed_cpu_time_us c)).

Definition authorizing_accounts (trx : transaction) : list account_name :=
  foldl (fun l a => set_insert a l) [] ((tr_actions trx ≫= act_authorization).*1).

(** The eager limit and the deadline that the accounts can pay. *)
Definition init_account_limits (tc : transaction_context) (net_limit cpu_limit : Z) (greylisted_net greylisted_cpu : bool) :
    transaction_context :=
  let set := tc_settings tc in
  let n := tc_net tc in
  let c := tc_cpu tc in
  let eager := nm_net_limit n in
  let new_eager := Z.min eager (u64 (net_limit + cc_net_usage_leeway cfg)) in
  let lowered := new_eager <? eager in
  let eager := if lowered then new_eager else eager in
  let due_to_block := if lowered then false else nm_limit_due_to_block n in
  let within := cpu_limit + tc_leeway set <=? cm_deadline c - tc_start set in
  let _deadline := if within then tc_start set + cpu_limit + tc_leeway set else cm_deadline c in
  let billing_code := if within then leeway_deadline_exception else cm_billing_timer_exception_code c in
  let duration := _deadline - tc_start set in
  let by_caller := tc_explicit_billed_cpu_time set || (tc_deadline set <? _deadline) in
  put_cpu
    (put_net tc (mk_net (nm_net_limit n) due_to_block (nm_limit_due_to_greylist n || greylisted_net) (eager / 8 * 8) (nm_net_usage n)))
    (mk_cpu (cm_limit_due_to_greylist c || greylisted_cpu) (cm_initial_objective_duration_limit c) (cm_objective_duration_limit c)
       (if by_caller then tc_deadline set else _deadline) (if by_caller then deadline_exception else billing_code) billing_code
       (cm_pseudo_start c) (cm_billed_time c) duration (cm_billed_cpu_time_us c)).

Definition init (initial_net_usage : Z) (expired : bool) (now : Z) : M trx_state unit :=
  tc ← get_tc;
  M_ASSERT (negb (tc_is_initialized tc)) transaction_exception;;
  s ← get_state;
  modify_tc (init_limits (db_limits (ts_db s)));;
  tc ← get_tc;
  (if 0 <? cm_billed_cpu_time_us (tc_cpu tc) then lift (validate_cpu_usage_to_bill tc (cm_billed_cpu_time_us (tc_cpu tc)) false)
   else mret tt);;
  let accounts := authorizing_accounts (tc_trx (tc_settings tc)) in
  modify_tc (fun tc => put_accounts tc accounts (tc_validate_ram_usage tc));;
  on_limits (fun rl => update_account_usage rl accounts pending_slot);;
  s ← get_state;
  '(net_limit, cpu_limit, greylisted_net, greylisted_cpu) ←
    lift (max_bandwidth_billed_accounts_can_pay (db_limits (ts_db s)) accounts false);
  modify_tc (fun tc => init_account_limits tc net_limit cpu_limit greylisted_net greylisted_cpu);;
  (if 0 <? initial_net_usage then add_net_usage initial_net_usage else mret tt);;
  tc ← get_tc;
  lift (checktime tc expired now);;
  modify_tc (fun tc => put_phase tc (tc_published tc) (tc_is_input tc) (tc_apply_context_free tc) true).

Definition init_for_implicit_trx (initial_net_usage : Z) (expired : bool) (now : Z) : M trx_state unit :=
  modify_tc (fun tc => put_phase tc (cv_pending_block_time cv) (tc_is_input tc) (tc_apply_context_free tc) (tc_is_initialized tc));;
  init initial_net_usage expired now.

Definition init_for_deferred_trx (published : Z) (expired : bool) (now : Z) : M trx_state unit :=
  modify_tc (fun tc => put_phase tc published (tc_is_input tc) false (tc_is_initialized tc));;
  init 0 expired now.

(** *** Input transactions *)

(** [controller::validate_expiration]. *)
Definition validate_expiration (trx : transaction) : result unit :=
  SNAX_ASSERT (cv_pending_block_time cv <=? tr_expiration trx * 1000000) expired_tx_exception;;
  SNAX_ASSERT (tr_expiration trx * 1000000 <=? cv_pending_block_time cv + cc_max_transaction_lifetime cfg * 1000000)
    tx_exp_too_far_exception.

(** [controller::validate_tapos]. *)
Definition validate_tapos (trx : transaction) : result unit :=
  b ← of_option std_out_of_range (cv_summaries cv !! u16 (tr_ref_block_num trx));
  SNAX_ASSERT (verify_reference_block trx b) invalid_ref_block_exception.

Definition check_cfa (db : chain_db) (a : action) : result unit :=
  SNAX_ASSERT (bool_decide (is_Some (db_accounts db !! act_account a))) transaction_exception;;
  SNAX_ASSERT (bool_decide (act_authorization a = [])) transaction_exception.

Definition check_authorizer (db : chain_db) (auth : Z * Z) : result unit :=
  SNAX_ASSERT (bool_decide (is_Some (db_accounts db !! auth.1))) transaction_exception;;
  p ← find_permission (db_auth db) auth;
  SNAX_ASSERT (bool_decide (is_Some p)) transaction_exception.

Definition check_referenced (db : chain_db) (a : action) : result unit :=
  SNAX_ASSERT (bool_decide (is_Some (db_accounts db !! act_account a))) transaction_exception;;
  check_all (check_authorizer db) (act_authorization a).

Definition validate_referenced_accounts (db : chain_db) (trx : transaction) (enforce_actor_whitelist_blacklist : bool) :
    result unit :=
  check_all (check_cfa db) (tr_context_free_actions trx);;
  check_all (check_referenced db) (tr_actions trx);;
  let actors := authorizing_accounts trx in
  SNAX_ASSERT (negb (bool_decide (tr_actions trx ≫= act_authorization = []))) tx_no_auths;;
  if enforce_actor_whitelist_blacklist then check_actor_list (cv_conf cv) actors else mret tt.

(** Any failure of [create] but the lack of memory becomes [tx_duplicate]. *)
Definition record_transaction (id : digest) (expire : Z) : M trx_state unit :=
  s ← get_state;
  M_ASSERT (bool_decide (ts_recorded s !! id = None)) tx_duplicate;;
  put_state (mk_ts (ts_db s) (<[id := expire]> (ts_recorded s)) (ts_global_sequence s) (ts_tc s)).

Definition discounted_size (prunable : Z) : Z :=
  let num := cc_context_free_discount_net_usage_num cfg in
  let den := cc_context_free_discount_net_usage_den cfg in
  if (0 <? den) && (num <? den) then u64 (u64 (prunable * num) + den - 1) / den else prunable.

Definition init_for_input_trx (packed_trx_unprunable_size packed_trx_prunable_size : Z) (skip_recording expired : bool)
    (now : Z) : M trx_state unit :=
  tc ← get_tc;
  let trx := tc_trx (tc_settings tc) in
  let initial_net_usage := u64 (cc_base_per_transaction_net_usage cfg + packed_trx_unprunable_size +
                                  discounted_size packed_trx_prunable_size) in
  let initial_net_usage :=
    if 0 <? tr_delay_sec trx then u64 (initial_net_usage + cc_base_per_transaction_net_usage cfg + transaction_id_net_usage)
    else initial_net_usage in
  modify_tc (fun tc => put_phase tc (cv_pending_block_time cv) true (tc_apply_context_free tc) (tc_is_initialized tc));;
  s ← get_state;
  (if checks_skipped then mret tt
   else
     lift (validate_expiration trx);;
     lift (validate_tapos trx);;
     lift (validate_referenced_accounts (ts_db s) trx
             (tc_enforce_whiteblacklist (tc_settings tc) && is_producing_block (cv_status cv))));;
  init initial_net_usage expired now;;
  if skip_recording then mret tt else record_transaction (tc_id (tc_settings tc)) (tr_expiration trx).

(** ** RAM and delayed transactions *)

Definition tc_add_ram_usage (account : account_name) (ram_delta : Z) : M trx_state unit :=
  on_db (fun db => NativeActions.add_ram_usage db account ram_delta);;
  if 0 <? ram_delta then modify_tc (fun tc => put_accounts tc (tc_bill_to_accounts tc) (set_insert account (tc_validate_ram_usage tc)))
  else mret tt.

(** [create<generated_transaction_object>]; the ids of transactions and the pairs of
    sender and sender id are unique. *)
Definition create_generated (trx_id : digest) (gto : generated_transaction_object) : M trx_state unit :=
  on_db (fun db =>
    SNAX_ASSERT (bool_decide (db_generated db !! trx_id = None)) uniqueness_violation;;
    SNAX_ASSERT (bool_decide (by_sender_id db (gt_sender gto) (gt_sender_id gto) = None)) uniqueness_violation;;
    mret (set_generated db (<[trx_id := gto]> (db_generated db)))).

Definition generated_size (gto : generated_transaction_object) : Z :=
  billable_size_generated_transaction_object + Z.of_nat (length (gt_packed_trx gto)).

Context `{TransactionData}.

Definition schedule_transaction : M trx_state unit :=
  tc ← get_tc;
  let set := tc_settings tc in
  let trx := tc_trx set in
  (if tr_delay_sec trx =? 0 then add_net_usage (cc_base_per_transaction_net_usage cfg + transaction_id_net_usage) else mret tt);;
  let gto := mk_generated 0 (transaction_id_to_sender_id (tc_id set)) (first_authorizor trx)
               (cv_pending_block_time cv + tc_delay set)
               (cv_pending_block_time cv + tc_delay set + cc_deferred_trx_expiration_window cfg * 1000000)
               (cv_pending_block_time cv) (pack_transaction trx) in
  create_generated (tc_id set) gto;;
  tc_add_ram_usage (gt_payer gto) (generated_size gto).

(** ** Execution; [dispatch] runs an action, the flag says whether it is
    context-free *)

Fixpoint dispatch_all (dispatch : action -> bool -> M trx_state unit) (context_free : bool) (l : list action) : M trx_state unit :=
  match l with
  | [] => mret tt
  | a :: l => dispatch a context_free;; dispatch_all dispatch context_free l
  end.

Definition exec (dispatch : action -> bool -> M trx_state unit) : M trx_state unit :=
  tc ← get_tc;
  M_ASSERT (tc_is_initialized tc) transaction_exception;;
  let trx := tc_trx (tc_settings tc) in
  (if tc_apply_context_free tc then dispatch_all dispatch true (tr_context_free_actions trx) else mret tt);;
  if tc_delay (tc_settings tc) =? 0 then dispatch_all dispatch false (tr_actions trx) else schedule_transaction.

(** ** The end *)

Fixpoint update_usages (ad : authorization_db) (now : Z) (auths : list (Z * Z)) : result authorization_db :=
  match auths with
  | [] => mret ad
  | auth :: auths =>
      '(_, p) ← get_permission ad auth;
      ad ← update_permission_usage ad now p;
      update_usages ad now auths
  end.

(** The new limits and the rounded usage. *)
Definition final_limits (tc : transaction_context) (net_limit cpu_limit : Z) (greylisted_net greylisted_cpu : bool) :
    transaction_context :=
  let n := tc_net tc in
  let c := tc_cpu tc in
  let lower_net := u64 net_limit <=? nm_net_limit n in
  let limit := if lower_net then u64 net_limit else nm_net_limit n in
  let lower_cpu := cpu_limit <=? cm_objective_duration_limit c in
  put_cpu
    (put_net tc (mk_net limit (if lower_net then false else nm_limit_due_to_block n) (nm_limit_due_to_greylist n || greylisted_net)
                   limit (u64 (nm_net_usage n + 7) / 8 * 8)))
    (mk_cpu (cm_limit_due_to_greylist c || greylisted_cpu) (cm_initial_objective_duration_limit c)
       (if lower_cpu then cpu_limit else cm_objective_duration_limit c) (cm_deadline c) (cm_deadline_exception_code c)
       (if lower_cpu then tx_cpu_usage_exceeded else cm_billing_timer_exception_code c) (cm_pseudo_start c) (cm_billed_time c)
       (cm_billing_timer_duration_limit c) (cm_billed_cpu_time_us c)).

(** Everything but the bill. *)
Definition finalize_checks (now : Z) : M trx_state unit :=
  tc ← get_tc;
  M_ASSERT (tc_is_initialized tc) transaction_exception;;
  (if tc_is_input tc then
     on_db (fun db => ad ← update_usages (db_auth db) (cv_pending_block_time cv)
                             (tr_actions (tc_trx (tc_settings tc)) ≫= act_authorization);
                      mret (set_auth db ad))
   else mret tt);;
  s ← get_state;
  let rl := db_limits (ts_db s) in
  lift (check_all (verify_account_ram_usage rl) (tc_validate_ram_usage tc));;
  '(net_limit, cpu_limit, greylisted_net, greylisted_cpu) ←
    lift (max_bandwidth_billed_accounts_can_pay rl (tc_bill_to_accounts tc) false);
  modify_tc (fun tc => final_limits tc net_limit cpu_limit greylisted_net greylisted_cpu);;
  tc ← get_tc;
  lift (check_net_usage tc);;
  modify_tc (fun tc => update_billed_cpu_time tc now);;
  tc ← get_tc;
  lift (validate_cpu_usage_to_bill tc (cm_billed_cpu_time_us (tc_cpu tc)) true).

Definition finalize (now : Z) : M trx_state unit :=
  finalize_checks now;;
  tc ← get_tc;
  on_limits (fun rl => add_transaction_usage rl (tc_bill_to_accounts tc) (u64 (cm_billed_cpu_time_us (tc_cpu tc)))
                         (nm_net_usage (tc_net tc)) pending_slot).

End Context_.

(** ** Known transactions and block summaries in the controller *)

(** [clear_expired_input_transactions]: the loop takes entries in the order of
    their expiration while they are in the past. *)
Definition clear_expired_input_transactions (recorded : gmap digest Z) (now : Z) : gmap digest Z :=
  filter (fun kv => ~ (kv.2 * 1000000 < now)) recorded.

Definition create_block_summary `{Crypto} (summaries : gmap Z digest) (id : digest) : gmap Z digest :=
  <[Z.land (num_from_id id) 0xffff := id]> summaries.
