(* ===== verification/TransactionContextProofs.v ===== *)
(** * Properties of transaction contexts

    A transaction is never billed more than the block, the configuration, its
    header and its accounts allow, and the bill at its end does not fail. *)

From Stdlib Require Import ZArith Lia Bool Sorted.
From stdpp Require Import base numbers gmap sorting sets list.
From S2P Require Import Prelude ResourceLimits ResourceLimitsProofs BlockTime Merkle BlockHeader Authority Permissions NativeActions ChainConfig.
From S2P Require Import Transaction Bandwidth TransactionContext.

Open Scope Z_scope.

(** ** The monad *)

Lemma modify_tc_run f s : modify_tc f s = (put_tc s (f (ts_tc s)), Ok tt).
Proof. reflexivity. Qed.
Lemma get_tc_run s : get_tc s = (s, Ok (ts_tc s)).
Proof. reflexivity. Qed.
Lemma lift_Ok {S A} (r : result A) (s s' : S) a : lift r s = (s', Ok a) <-> s' = s /\ r = Ok a.
Proof. unfold lift. naive_solver. Qed.
Lemma M_assert_Ok {S} b e (s s' : S) u : M_ASSERT b e s = (s', Ok u) <-> s' = s /\ b = true.
Proof. destruct b, u; unfold M_ASSERT, throw, mret, M_ret; naive_solver. Qed.
Lemma on_db_Ok f s s' u : on_db f s = (s', Ok u) <-> exists db, f (ts_db s) = Ok db /\ s' = put_db s db.
Proof. destruct u. unfold on_db, mbind, M_bind, get_state, lift, put_state. destruct (f (ts_db s)); naive_solver. Qed.
Lemma on_limits_Ok f s s' u : on_limits f s = (s', Ok u) <->
  exists rl, f (db_limits (ts_db s)) = Ok rl /\ s' = put_db s (NativeActions.set_limits (ts_db s) rl).
Proof.
  unfold on_limits. rewrite on_db_Ok. split.
  - intros (db & E & ->). apply bind_Ok in E as (rl & E & Er). injection Er as <-. eauto.
  - intros (rl & E & ->). exists (NativeActions.set_limits (ts_db s) rl). by rewrite E.
Qed.

(** [run_ok] opens a successful run of the state monad. *)
Ltac run_ok :=
  repeat match goal with
  | H : (_ ≫= _) _ = (_, Ok _) |- _ => apply M_bind_Ok in H as (? & ? & ? & H)
  | H : get_tc _ = (_, Ok _) |- _ => rewrite get_tc_run in H; injection H as <- <-
  | H : get_state _ = (_, Ok _) |- _ => injection H as <- <-
  | H : modify_tc _ _ = (_, Ok _) |- _ => rewrite modify_tc_run in H; injection H as <- <-
  | H : lift _ _ = (_, Ok _) |- _ => apply lift_Ok in H as [-> H]
  | H : M_ASSERT _ _ _ = (_, Ok _) |- _ => apply M_assert_Ok in H as [-> H]
  | H : mret _ _ = (_, Ok _) |- _ => injection H as <- <-
  end.

(** ** Sets of accounts *)

Lemma set_insert_elem x l y : y ∈ set_insert x l <-> y = x \/ y ∈ l.
Proof.
  induction l as [|z l IH]; simpl; [set_solver|]. destruct (x <? z); [set_solver|]. destruct (Z.eqb_spec x z); set_solver.
Qed.

Lemma set_insert_sorted x l : StronglySorted Z.lt l -> StronglySorted Z.lt (set_insert x l).
Proof.
  induction 1 as [|y l Hl IH Hy]; simpl; [repeat constructor|]. destruct (Z.ltb_spec x y).
  - constructor; [by constructor|]. constructor; [done|]. eapply Forall_impl; [exact Hy|]. simpl. lia.
  - destruct (Z.eqb_spec x y); [by constructor|]. constructor; [done|]. apply Forall_forall. intros z [->|Hz]%set_insert_elem; [lia|].
    by apply (above_head _ _ _ Hy).
Qed.

Lemma sorted_nodup (l : list Z) : StronglySorted Z.lt l -> NoDup l.
Proof.
  induction 1 as [|y l Hl IH Hy]; [constructor|]. constructor; [|done]. intros Hin. pose proof (above_head _ _ _ Hy Hin). lia.
Qed.

Lemma foldl_insert l acc : StronglySorted Z.lt acc ->
  StronglySorted Z.lt (foldl (fun l a => set_insert a l) acc l) /\ forall y, y ∈ foldl (fun l a => set_insert a l) acc l <-> y ∈ l \/ y ∈ acc.
Proof.
  revert acc. induction l as [|x l IH]; intros acc Ha; simpl; [split; [done|set_solver]|].
  destruct (IH (set_insert x acc) (set_insert_sorted x acc Ha)) as [Hs Hy]. split; [done|]. intros y. rewrite Hy, set_insert_elem. set_solver.
Qed.

Lemma authorizing_accounts_spec trx : NoDup (authorizing_accounts trx) /\ StronglySorted Z.lt (authorizing_accounts trx) /\
  forall a, a ∈ authorizing_accounts trx <-> a ∈ (tr_actions trx ≫= act_authorization).*1.
Proof.
  destruct (foldl_insert ((tr_actions trx ≫= act_authorization).*1) [] ltac:(constructor)) as [Hs Hy].
  split_and!; [by apply sorted_nodup|done|]. intros a. unfold authorizing_accounts. rewrite Hy. set_solver.
Qed.

Section Billing.
Context `{CbrtLaws} (cv : controller_view).

Notation rl_of s := (db_limits (ts_db s)).

(** ** What the accounts can pay *)

(** The amounts are within what every account has left. *)
Definition affordable (rl : resource_limits) (accounts : list account_name) (net cpu : Z) : Prop :=
  forall a, a ∈ accounts -> exists elastic n c, get_account_net_limit rl a elastic = Ok n /\ (0 <= n -> net <= n) /\
    get_account_cpu_limit rl a elastic = Ok c /\ (0 <= c -> cpu <= c).

Lemma bandwidth_loop_spec rl force accounts : forall net cpu gn gc net' cpu' gn' gc',
  bandwidth_loop cv rl force accounts net cpu gn gc = Ok (net', cpu', gn', gc') -> 0 <= net -> 0 <= cpu ->
  0 <= net' <= net /\ 0 <= cpu' <= cpu /\ affordable rl accounts net' cpu'.
Proof.
  induction accounts as [|a accounts IH]; intros net cpu gn gc net' cpu' gn' gc' E Hn Hc; cbn [bandwidth_loop] in E.
  { injection E as <- <- _ _. split_and!; try lia. intros a Ha. set_solver. }
  cbv zeta in E. set (el := force || _) in E. apply bind_Ok in E as (nl & Hnl & E).
  assert (exists net1 gn1, (if 0 <=? nl then (Z.min net nl, if el then gn else true) else (net, gn)) = (net1, gn1) /\
    0 <= net1 <= net /\ (0 <= nl -> net1 <= nl)) as (net1 & gn1 & En & Hn1 & Hn2).
  { destruct (Z.leb_spec 0 nl); eexists _, _; (split; [reflexivity|]); lia. }
  rewrite En in E. apply bind_Ok in E as (cl & Hcl & E).
  assert (exists cpu1 gc1, (if 0 <=? cl then (Z.min cpu cl, if el then gc else true) else (cpu, gc)) = (cpu1, gc1) /\
    0 <= cpu1 <= cpu /\ (0 <= cl -> cpu1 <= cl)) as (cpu1 & gc1 & Ec & Hc1 & Hc2).
  { destruct (Z.leb_spec 0 cl); eexists _, _; (split; [reflexivity|]); lia. }
  rewrite Ec in E. apply IH in E as (Hn' & Hc' & Haf); [|lia..]. split_and!; try lia.
  intros b [->|Hb]%elem_of_cons; [|by apply Haf]. exists el, nl, cl. split_and!; try done; lia.
Qed.

Lemma affordable_le rl accounts net cpu net' cpu' : affordable rl accounts net cpu -> net' <= net -> cpu' <= cpu -> affordable rl accounts net' cpu'.
Proof. intros Haf Hn Hc a Ha. destruct (Haf a Ha) as (el & n & c & En & Hn' & Ec & Hc'). exists el, n, c. split_and!; try done; lia. Qed.

Lemma max_bandwidth_spec rl accounts force net cpu gn gc :
  max_bandwidth_billed_accounts_can_pay cv rl accounts force = Ok (net, cpu, gn, gc) ->
  0 <= net < 2 ^ 63 /\ 0 <= cpu < 2 ^ 63 /\ affordable rl accounts net cpu.
Proof.
  intros E. apply bandwidth_loop_spec in E as (Hn & Hc & Haf); try done. unfold large_number_no_overflow in *.
  change (INT64_MAX / 2) with 4611686018427387903 in *. split_and!; try lia. done.
Qed.

(** ** The state in which a transaction is finalized *)

(** The accounts that are billed were brought to the slot of the block, and the
    limits of the context are within what is left of the block. *)
Record context_ok (rl : resource_limits) (tc : transaction_context) : Prop := {
  co_nodup : NoDup (tc_bill_to_accounts tc);
  co_accounts a : a ∈ tc_bill_to_accounts tc ->
    exists u l, usage rl !! a = Some u /\ usage_ready (pending_slot cv) u /\ get_account_limits rl a = Ok l;
  co_net : nm_net_limit (tc_net tc) <= max (net_limit_parameters (config rl)) - pending_net_usage (state rl);
  co_cpu : cm_objective_duration_limit (tc_cpu tc) <= max (cpu_limit_parameters (config rl)) - pending_cpu_usage (state rl)
}.

(** An account that is within its limits before the bill. *)
Definition within_limits (rl : resource_limits) (accounts : list account_name) (cpu net : Z) : Prop :=
  forall a u l, a ∈ accounts -> usage rl !! a = Some u -> get_account_limits rl a = Ok l ->
    (0 < cpu \/ check_cpu rl u (lo_cpu_weight l) = Ok tt) /\ (0 < net \/ check_net rl u (lo_net_weight l) = Ok tt).

Lemma affordable_billable rl tc net cpu : limits_ok rl -> context_ok rl tc ->
  0 <= net <= max (net_limit_parameters (config rl)) - pending_net_usage (state rl) ->
  0 <= cpu <= max (cpu_limit_parameters (config rl)) - pending_cpu_usage (state rl) ->
  affordable rl (tc_bill_to_accounts tc) net cpu -> within_limits rl (tc_bill_to_accounts tc) cpu net ->
  exists rl', add_transaction_usage rl (tc_bill_to_accounts tc) cpu net (pending_slot cv) = Ok rl'.
Proof.
  intros Hrl Hco Hn Hc Haf Hin. apply add_transaction_usage_total; [done|apply Hco|done..|]. intros a Ha.
  destruct (co_accounts rl tc Hco a Ha) as (u & l & Hu & Hr & Hl). destruct (Haf a Ha) as (el & n & c & En & Hn' & Ec & Hc').
  destruct (Hin a u l Ha Hu Hl) as [Hi1 Hi2]. pose proof (lk_max_cpu rl Hrl). pose proof (lk_max_net rl Hrl).
  pose proof (lk_pending_cpu rl Hrl). pose proof (lk_pending_net rl Hrl). destruct Hr as [Hr1 Hr2].
  exists u, l. split_and!; try done.
  - eapply cpu_check_passes; [done|done|apply Hr2|done|exact Ec|lia|done|done].
  - eapply net_check_passes; [done|done|apply Hr1|done|exact En|lia|done|done].
Qed.

(** What the checks of [finalize] guarantee. *)
Record bill_checked (s s1 : trx_state) : Prop := {
  bc_limits : rl_of s1 = rl_of s;
  bc_bill : tc_bill_to_accounts (ts_tc s1) = tc_bill_to_accounts (ts_tc s);
  bc_settings : tc_settings (ts_tc s1) = tc_settings (ts_tc s);
  bc_usage : nm_net_usage (tc_net (ts_tc s1)) = u64 (nm_net_usage (tc_net (ts_tc s)) + 7) / 8 * 8;
  bc_net : nm_net_usage (tc_net (ts_tc s1)) <= nm_net_limit (tc_net (ts_tc s));
  bc_min : cc_min_transaction_cpu_usage (cv_cfg cv) <= cm_billed_cpu_time_us (tc_cpu (ts_tc s1));
  bc_cpu : cm_billed_cpu_time_us (tc_cpu (ts_tc s1)) <= cm_objective_duration_limit (tc_cpu (ts_tc s));
  bc_affordable : affordable (rl_of s) (tc_bill_to_accounts (ts_tc s)) (nm_net_usage (tc_net (ts_tc s1))) (cm_billed_cpu_time_us (tc_cpu (ts_tc s1)))
}.

Lemma final_limits_net tc nl cl gn gc : 0 <= nl < 2 ^ 63 ->
  let n := tc_net (final_limits tc nl cl gn gc) in
  nm_eager_net_limit n <= nl /\ nm_eager_net_limit n <= nm_net_limit (tc_net tc) /\ nm_net_usage n = u64 (nm_net_usage (tc_net tc) + 7) / 8 * 8.
Proof.
  intros Hnl n. unfold n, final_limits. cbn [tc_net put_cpu put_net nm_eager_net_limit nm_net_usage].
  rewrite (u64_small nl) by (unfold is_u64; lia). destruct (Z.leb_spec nl (nm_net_limit (tc_net tc))); split_and!; try lia; done.
Qed.

Lemma final_limits_cpu tc nl cl gn gc :
  let c := tc_cpu (final_limits tc nl cl gn gc) in
  cm_objective_duration_limit c <= cl /\ cm_objective_duration_limit c <= cm_objective_duration_limit (tc_cpu tc).
Proof.
  intros c. unfold c, final_limits. cbn [tc_cpu put_cpu cm_objective_duration_limit].
  destruct (Z.leb_spec cl (cm_objective_duration_limit (tc_cpu tc))); lia.
Qed.

Lemma update_billed_keeps tc now : tc_net (update_billed_cpu_time cv tc now) = tc_net tc /\
  tc_bill_to_accounts (update_billed_cpu_time cv tc now) = tc_bill_to_accounts tc /\ tc_settings (update_billed_cpu_time cv tc now) = tc_settings tc /\
  cm_objective_duration_limit (tc_cpu (update_billed_cpu_time cv tc now)) = cm_objective_duration_limit (tc_cpu tc).
Proof. unfold update_billed_cpu_time. by destruct (tc_explicit_billed_cpu_time _). Qed.

Lemma finalize_checks_spec now s s1 : checks_skipped cv = false -> finalize_checks cv now s = (s1, Ok tt) -> bill_checked s s1.
Proof.
  intros Hsk E. unfold finalize_checks in E. apply M_bind_Ok in E as (s0 & tc & E0 & E). rewrite get_tc_run in E0. injection E0 as <- <-.
  apply M_bind_Ok in E as (s0 & [] & E0 & E). apply M_assert_Ok in E0 as [-> Hinit].
  apply M_bind_Ok in E as (s2 & [] & E0 & E).
  assert (rl_of s2 = rl_of s /\ ts_tc s2 = ts_tc s) as [Hr2 Ht2].
  { destruct (tc_is_input (ts_tc s)); [|by injection E0 as <-]. apply on_db_Ok in E0 as (db & Ed & ->). apply bind_Ok in Ed as (ad & _ & Ed).
    injection Ed as <-. done. }
  apply M_bind_Ok in E as (s0 & sx & E1 & E). injection E1 as <- <-. cbv zeta in E. rewrite Hr2 in E.
  apply M_bind_Ok in E as (s0 & [] & E1 & E). apply lift_Ok in E1 as [-> Hram].
  apply M_bind_Ok in E as (s0 & [[[nl cl] gn] gc] & E1 & E). apply lift_Ok in E1 as [-> Hbw]. apply max_bandwidth_spec in Hbw as (Hnl & Hcl & Haf).
  apply M_bind_Ok in E as (s3 & [] & E1 & E). rewrite modify_tc_run, Ht2 in E1. injection E1 as <-.
  apply M_bind_Ok in E as (s0 & tc3 & E1 & E). rewrite get_tc_run in E1. injection E1 as <- <-. cbn [ts_tc put_tc] in E.
  set (tcf := final_limits (ts_tc s) nl cl gn gc) in *.
  apply M_bind_Ok in E as (s0 & [] & E1 & E). apply lift_Ok in E1 as [-> Hnet].
  apply M_bind_Ok in E as (s3 & [] & E1 & E). rewrite modify_tc_run in E1. injection E1 as <-. cbn [ts_tc put_tc] in E.
  apply M_bind_Ok in E as (s0 & tc4 & E1 & E). rewrite get_tc_run in E1. injection E1 as <- <-. cbn [ts_tc put_tc] in E.
  apply lift_Ok in E as [-> Hcpu]. set (tcb := update_billed_cpu_time cv tcf now) in *.
  destruct (update_billed_keeps tcf now) as (K1 & K2 & K3 & K4). fold tcb in K1, K2, K3, K4.
  destruct (final_limits_net (ts_tc s) nl cl gn gc Hnl) as (F1 & F2 & F3). fold tcf in F1, F2, F3.
  destruct (final_limits_cpu (ts_tc s) nl cl gn gc) as [G1 G2]. fold tcf in G1, G2.
  unfold check_net_usage in Hnet. rewrite Hsk in Hnet. cbv zeta in Hnet. destruct (Z.ltb_spec (nm_eager_net_limit (tc_net tcf)) (nm_net_usage (tc_net tcf))) as [|Hle]; [done|].
  unfold validate_cpu_usage_to_bill in Hcpu. rewrite Hsk in Hcpu. apply bind_Ok in Hcpu as (u & Hmin & Hcpu). apply assert_Ok, Z.leb_le in Hmin. apply assert_Ok, Z.leb_le in Hcpu.
  constructor; cbn [ts_db ts_tc put_tc]; rewrite ?K1, ?K2, ?K3; try done; try lia.
  eapply affordable_le; [exact Haf|lia|lia].
Qed.

(** ** The beginning *)

Definition acc_bounded (a : usage_accumulator) : Prop := 0 <= value_ex a < 2 ^ 63 /\ 0 <= consumed a < 2 ^ 63.
Definition usage_bounded (rl : resource_limits) : Prop :=
  forall a u, usage rl !! a = Some u -> acc_bounded (net_usage u) /\ acc_bounded (cpu_usage u).

Lemma advance_zero a slot w a1 : acc_bounded a -> 0 < w < 2 ^ 32 -> advance a slot w = Ok a1 -> up_to_date slot a1.
Proof.
  intros [Hv Hc] Hw E. unfold advance in E. destruct (Z.eqb_spec (last_ordinal a) slot) as [Hs|Hs].
  { injection E as <-. by constructor. }
  apply bind_Ok in E as (u & Hlt & E). apply assert_Ok, Z.ltb_lt in Hlt. apply bind_Ok in E as (v & Ev & E). apply bind_Ok in E as (c & Ec & E). injection E as <-.
  assert (0 <= v <= value_ex a) as Hvb.
  { destruct (Z.ltb_spec slot (last_ordinal a + w)) as [Hin|]; [|injection Ev as <-; lia]. cbv zeta in Ev.
    rewrite (u32_small (slot - last_ordinal a)) in Ev by (unfold is_u32; lia). rewrite u64_small in Ev by (unfold is_u64; lia).
    destruct (mul_ratio_Ok (value_ex a) (w - (slot - last_ordinal a)) w) as [K1 K2]; [lia..|]. unfold make_ratio in Ev.
    destruct (Z.le_gt_cases (value_ex a * (w - (slot - last_ordinal a))) UINT64_MAX) as [Hle|Hgt]; [|rewrite K2 in Ev by lia; done].
    rewrite K1 in Ev by done. injection Ev as <-. split; [apply Z.div_pos; nia|]. apply Z.div_le_upper_bound; nia. }
  unfold average in Ec. cbn [value_ex] in Ec. rewrite integer_divide_ceil_Ok in Ec by done. injection Ec as <-.
  pose proof precision_value. pose proof (ceil_div_bound v P ltac:(done)).
  constructor; cbn [last_ordinal value_ex consumed]; [done|lia|nia].
Qed.

Lemma add_zero a slot w a' : acc_bounded a -> 0 < w < 2 ^ 32 -> accumulator_add a 0 slot w = Ok a' -> up_to_date slot a'.
Proof.
  intros Ha Hw E. unfold accumulator_add in E. do 2 (apply bind_Ok in E as (? & _ & E)). apply bind_Ok in E as (c & Ec & E).
  apply bind_Ok in E as (c' & Ec' & E). apply bind_Ok in E as (? & _ & E). apply bind_Ok in E as (a1 & Ea & E). injection E as <-.
  unfold downgrade_cast_u64 in Ec'. apply bind_Ok in Ec' as (? & _ & Ec'). injection Ec' as <-.
  change (u128 (0 * P)) with 0 in Ec. rewrite integer_divide_ceil_Ok in Ec by lia. injection Ec as <-.
  assert (ceil_div 0 w = 0) as -> by (pose proof (ceil_div_bound 0 w ltac:(lia)); nia).
  apply advance_zero in Ea as [Hs Hv Hc]; [|done..]. rewrite !Z.add_0_r.
  constructor; cbn [last_ordinal value_ex consumed]; rewrite ?u64_small by (unfold is_u64; lia); done.
Qed.

Lemma ready_bounded slot a : up_to_date slot a -> acc_bounded a.
Proof. by intros [_ Hv Hc]. Qed.

Lemma update_account_usage_Ok slot accounts : forall rl rl', NoDup accounts -> 0 < account_net_usage_average_window (config rl) < 2 ^ 32 ->
  0 < account_cpu_usage_average_window (config rl) < 2 ^ 32 -> usage_bounded rl -> update_account_usage rl accounts slot = Ok rl' ->
  config rl' = config rl /\ state rl' = state rl /\ limits rl' = limits rl /\ usage_bounded rl' /\
  (forall a, a ∈ accounts -> exists u, usage rl' !! a = Some u /\ usage_ready slot u) /\ (forall a, a ∉ accounts -> usage rl' !! a = usage rl !! a).
Proof.
  induction accounts as [|a accounts IH]; intros rl rl' Hnd Hwn Hwc Hub E; cbn [update_account_usage] in E.
  { injection E as <-. split_and!; try done. set_solver. }
  apply NoDup_cons in Hnd as [Hni Hnd]. apply bind_Ok in E as (u & Hu & E). apply of_option_Ok in Hu.
  apply bind_Ok in E as (u' & Hu' & E). unfold add_usage in Hu'. apply bind_Ok in Hu' as (n & Hn & Hu'). apply bind_Ok in Hu' as (c & Hc & Hu'). injection Hu' as <-.
  destruct (Hub a u Hu) as [Hb1 Hb2]. apply add_zero in Hn; [|done..]. apply add_zero in Hc; [|done..].
  set (rl1 := set_usage _ _) in E. assert (usage_bounded rl1) as Hub1.
  { intros b v Hv. simpl in Hv. destruct (decide (b = a)) as [->|Hne].
    - rewrite lookup_insert_eq in Hv. injection Hv as <-. simpl. split; by eapply ready_bounded.
    - rewrite lookup_insert_ne in Hv by done. by apply (Hub b). }
  apply IH in E as (H1 & H2 & H3 & H4 & H5 & H6); [|done..]. split_and!; try done.
  - intros b [->|Hb]%elem_of_cons; [|by apply H5]. rewrite H6 by done. simpl. rewrite lookup_insert_eq. eexists. split; [done|]. by split.
  - intros b Hb. rewrite H6 by set_solver. simpl. rewrite lookup_insert_ne by set_solver. done.
Qed.

(** The limits set at the beginning. *)
Lemma objective_net_limit_le rl trx : 0 <= tr_max_net_usage_words trx < 2 ^ 32 ->
  let l := (objective_net_limit cv rl trx).1 in
  l <= get_block_net_limit rl /\ l <= cc_max_transaction_net_usage (cv_cfg cv) /\
  (0 < tr_max_net_usage_words trx -> l <= tr_max_net_usage_words trx * 8).
Proof.
  intros Hw l. unfold l, objective_net_limit. cbv zeta. rewrite u64_small by (unfold is_u64; lia).
  destruct (Z.leb_spec (cc_max_transaction_net_usage (cv_cfg cv)) (get_block_net_limit rl)).
  all: destruct (Z.ltb_spec 0 (tr_max_net_usage_words trx * 8)); cbn [andb]; try (destruct (Z.leb_spec (tr_max_net_usage_words trx * 8) (cc_max_transaction_net_usage (cv_cfg cv))));
    try destruct (Z.leb_spec (tr_max_net_usage_words trx * 8) (get_block_net_limit rl)); simpl; lia.
Qed.

Lemma objective_cpu_limit_le rl trx :
  let l := (objective_cpu_limit cv rl trx).1 in
  l <= i64 (get_block_cpu_limit rl) /\ l <= cc_max_transaction_cpu_usage (cv_cfg cv) /\
  (0 < tr_max_cpu_usage_ms trx -> l <= tr_max_cpu_usage_ms trx * 1000).
Proof.
  intros l. unfold l, objective_cpu_limit. cbv zeta.
  destruct (Z.leb_spec (cc_max_transaction_cpu_usage (cv_cfg cv)) (i64 (get_block_cpu_limit rl)));
    destruct (Z.ltb_spec 0 (tr_max_cpu_usage_ms trx)); try (simpl; lia).
  - destruct (Z.leb_spec (tr_max_cpu_usage_ms trx * 1000) (cc_max_transaction_cpu_usage (cv_cfg cv))); simpl; lia.
  - destruct (Z.leb_spec (tr_max_cpu_usage_ms trx * 1000) (i64 (get_block_cpu_limit rl))); simpl; lia.
Qed.

(** What [init] leaves behind. *)
Record initialized (s s1 : trx_state) : Prop := {
  in_config : config (rl_of s1) = config (rl_of s);
  in_state : state (rl_of s1) = state (rl_of s);
  in_limits : limits (rl_of s1) = limits (rl_of s);
  in_context : context_ok (rl_of s1) (ts_tc s1);
  in_settings : tc_settings (ts_tc s1) = tc_settings (ts_tc s);
  in_bill : tc_bill_to_accounts (ts_tc s1) = authorizing_accounts (tc_trx (tc_settings (ts_tc s)));
  in_net : nm_net_limit (tc_net (ts_tc s1)) = (objective_net_limit cv (rl_of s) (tc_trx (tc_settings (ts_tc s)))).1;
  in_cpu : cm_objective_duration_limit (tc_cpu (ts_tc s1)) = (objective_cpu_limit cv (rl_of s) (tc_trx (tc_settings (ts_tc s)))).1
}.

Lemma add_net_usage_Ok u s s1 : add_net_usage cv u s = (s1, Ok tt) ->
  let n := tc_net (ts_tc s) in
  s1 = put_tc s (put_net (ts_tc s) (mk_net (nm_net_limit n) (nm_limit_due_to_block n) (nm_limit_due_to_greylist n) (nm_eager_net_limit n)
         (u64 (nm_net_usage n + u)))) /\ check_net_usage cv (ts_tc s1) = Ok tt.
Proof.
  intros E n. unfold add_net_usage in E. apply M_bind_Ok in E as (s0 & [] & E0 & E). rewrite modify_tc_run in E0. injection E0 as <-.
  apply M_bind_Ok in E as (s0 & tc & E0 & E). rewrite get_tc_run in E0. injection E0 as <- <-. by apply lift_Ok in E as [-> E].
Qed.

Lemma get_limit_limits rl a el n : get_account_net_limit rl a el = Ok n -> exists l, get_account_limits rl a = Ok l.
Proof.
  intros E. unfold get_account_net_limit, get_account_net_limit_ex in E. apply bind_Ok in E as (arl & E & _).
  apply bind_Ok in E as (u & _ & E). apply bind_Ok in E as (l & Hl & _). eauto.
Qed.

Lemma block_limits rl : limits_ok rl ->
  get_block_net_limit rl = max (net_limit_parameters (config rl)) - pending_net_usage (state rl) /\
  i64 (get_block_cpu_limit rl) = max (cpu_limit_parameters (config rl)) - pending_cpu_usage (state rl).
Proof.
  intros Hrl. pose proof (lk_max_cpu rl Hrl). pose proof (lk_max_net rl Hrl). pose proof (lk_pending_cpu rl Hrl). pose proof (lk_pending_net rl Hrl).
  unfold get_block_net_limit, get_block_cpu_limit. rewrite !u64_small by (unfold is_u64; lia). split; [done|]. apply i64_small. unfold is_i64. lia.
Qed.

Lemma init_Ok initial expired now s s1 : limits_ok (rl_of s) -> usage_bounded (rl_of s) -> 0 <= tr_max_net_usage_words (tc_trx (tc_settings (ts_tc s))) < 2 ^ 32 ->
  init cv initial expired now s = (s1, Ok tt) -> initialized s s1 /\ ts_recorded s1 = ts_recorded s /\
  nm_net_usage (tc_net (ts_tc s1)) = (if 0 <? initial then u64 (nm_net_usage (tc_net (ts_tc s)) + initial) else nm_net_usage (tc_net (ts_tc s))).
Proof.
  intros Hrl Hub Hwords E. unfold init in E. apply M_bind_Ok in E as (s0 & tc & E0 & E). rewrite get_tc_run in E0. injection E0 as <- <-.
  apply M_bind_Ok in E as (s0 & [] & E0 & E). apply M_assert_Ok in E0 as [-> _].
  apply M_bind_Ok in E as (s0 & sx & E0 & E). injection E0 as <- <-.
  apply M_bind_Ok in E as (s2 & [] & E0 & E). rewrite modify_tc_run in E0. injection E0 as <-.
  apply M_bind_Ok in E as (s0 & tc & E0 & E). rewrite get_tc_run in E0. injection E0 as <- <-.
  apply M_bind_Ok in E as (s0 & [] & E0 & E).
  assert (s0 = put_tc s (init_limits cv (rl_of s) (ts_tc s))) as ->.
  { destruct (0 <? _) in E0; [by apply lift_Ok in E0 as [-> _]|by injection E0 as <-]. }
  clear E0. cbn [ts_tc put_tc] in E. cbv zeta in E. set (trx := tc_trx (tc_settings (ts_tc s))) in *.
  assert (tc_settings (init_limits cv (rl_of s) (ts_tc s)) = tc_settings (ts_tc s) /\
    nm_net_limit (tc_net (init_limits cv (rl_of s) (ts_tc s))) = (objective_net_limit cv (rl_of s) trx).1 /\
    nm_net_usage (tc_net (init_limits cv (rl_of s) (ts_tc s))) = nm_net_usage (tc_net (ts_tc s)) /\
    cm_objective_duration_limit (tc_cpu (init_limits cv (rl_of s) (ts_tc s))) = (objective_cpu_limit cv (rl_of s) trx).1) as (L1 & L2 & L3 & L4).
  { unfold init_limits. fold trx. by destruct (objective_net_limit cv (rl_of s) trx), (objective_cpu_limit cv (rl_of s) trx). }
  set (tc0 := init_limits cv (rl_of s) (ts_tc s)) in *. rewrite L1 in E. fold trx in E.
  apply M_bind_Ok in E as (s2 & [] & E0 & E). rewrite modify_tc_run in E0. injection E0 as <-.
  apply M_bind_Ok in E as (s2 & [] & E0 & E). apply on_limits_Ok in E0 as (rl1 & Hup & ->). cbn [ts_db put_tc] in Hup.
  destruct (authorizing_accounts_spec trx) as (Hnd & _ & _). pose proof precision_value as HP.
  apply update_account_usage_Ok in Hup as (U1 & U2 & U3 & U4 & U5 & U6); [|done|pose proof (lk_net_window _ Hrl); lia|pose proof (lk_cpu_window _ Hrl); lia|done].
  apply M_bind_Ok in E as (s0 & sx & E0 & E). injection E0 as <- <-. cbn [ts_db put_db put_tc db_limits NativeActions.set_limits] in E.
  apply M_bind_Ok in E as (s0 & [[[nl cl] gn] gc] & E0 & E). apply lift_Ok in E0 as [-> Hbw]. apply max_bandwidth_spec in Hbw as (Hnl & Hcl & Haf).
  apply M_bind_Ok in E as (s2 & [] & E0 & E). rewrite modify_tc_run in E0. injection E0 as <-.
  cbn [ts_tc put_db put_tc] in E. set (tc1 := init_account_limits _ _ _ _ _ _) in E.
  apply M_bind_Ok in E as (s2 & [] & E0 & E).
  assert (exists n, s2 = put_tc (put_tc (put_db (put_tc (put_tc s tc0) (put_accounts tc0 (authorizing_accounts trx) (tc_validate_ram_usage tc0)))
      (NativeActions.set_limits (ts_db s) rl1)) tc1) (put_net tc1 n) /\ nm_net_limit n = nm_net_limit (tc_net tc1) /\
      nm_net_usage n = (if 0 <? initial then u64 (nm_net_usage (tc_net (ts_tc s)) + initial) else nm_net_usage (tc_net (ts_tc s)))) as (n & -> & N1 & N2).
  { destruct (0 <? initial).
    - apply add_net_usage_Ok in E0 as [-> _]. cbn [ts_tc put_tc]. eexists. split; [reflexivity|]. split; [done|].
      cbn [nm_net_usage]. unfold tc1, init_account_limits. cbn [tc_net put_net put_cpu nm_net_usage put_accounts]. by rewrite L3.
    - injection E0 as <-. exists (tc_net tc1). split; [by destruct tc1|]. split; [done|]. unfold tc1, init_account_limits.
      cbn [tc_net put_net put_cpu nm_net_usage put_accounts]. by rewrite L3. }
  clear E0. apply M_bind_Ok in E as (s2 & tc & E0 & E). rewrite get_tc_run in E0. injection E0 as <- <-.
  apply M_bind_Ok in E as (s2 & [] & E0 & E). apply lift_Ok in E0 as [-> _]. rewrite modify_tc_run in E. injection E as <-.
  cbn [ts_tc ts_db put_tc put_db put_net put_phase tc_net db_limits NativeActions.set_limits ts_recorded]. split; [|done].
  destruct (block_limits _ Hrl) as [B1 B2]. destruct (objective_net_limit_le (rl_of s) trx Hwords) as (O1 & _ & _). destruct (objective_cpu_limit_le (rl_of s) trx) as (O2 & _ & _).
  assert (tc_settings tc1 = tc_settings (ts_tc s) /\ nm_net_limit (tc_net tc1) = (objective_net_limit cv (rl_of s) trx).1 /\
    cm_objective_duration_limit (tc_cpu tc1) = (objective_cpu_limit cv (rl_of s) trx).1 /\ tc_bill_to_accounts tc1 = authorizing_accounts trx) as (T1 & T2 & T3 & T4).
  { unfold tc1, init_account_limits. cbn [tc_settings tc_net tc_cpu put_net put_cpu nm_net_limit put_accounts cm_objective_duration_limit tc_bill_to_accounts].
    by rewrite L2, L4. }
  constructor; cbn [ts_tc ts_db put_tc put_db put_net put_phase tc_net tc_cpu tc_settings tc_bill_to_accounts db_limits NativeActions.set_limits];
    rewrite ?N1; try done.
  constructor; cbn [ts_tc ts_db put_tc put_db put_net put_phase tc_net tc_cpu tc_settings tc_bill_to_accounts]; rewrite ?N1, ?T2, ?T3, ?T4, ?U1, ?U2; try done; try lia.
  intros a Ha. destruct (U5 a Ha) as (u & Hu & Hr). destruct (Haf a Ha) as (el & x & y & Ex & _ & _ & _). destruct (get_limit_limits rl1 a el x Ex) as [l Hl]. eauto.
Qed.

(** ** The actions in between *)

(** What the actions of a transaction can do to its bill: they use more network,
    change RAM and pending limits, and leave the rest alone. *)
Record acted (s s1 : trx_state) : Prop := {
  ac_config : config (rl_of s1) = config (rl_of s);
  ac_state : state (rl_of s1) = state (rl_of s);
  ac_usage a u : usage (rl_of s) !! a = Some u ->
    exists u', usage (rl_of s1) !! a = Some u' /\ net_usage u' = net_usage u /\ cpu_usage u' = cpu_usage u;
  ac_limits a l : get_account_limits (rl_of s) a = Ok l -> exists l', get_account_limits (rl_of s1) a = Ok l';
  ac_weights : (forall k l, limits (rl_of s) !! k = Some l -> is_i64 (lo_cpu_weight l) /\ is_i64 (lo_net_weight l)) ->
    forall k l, limits (rl_of s1) !! k = Some l -> is_i64 (lo_cpu_weight l) /\ is_i64 (lo_net_weight l);
  ac_settings : tc_settings (ts_tc s1) = tc_settings (ts_tc s);
  ac_bill : tc_bill_to_accounts (ts_tc s1) = tc_bill_to_accounts (ts_tc s);
  ac_net_limit : nm_net_limit (tc_net (ts_tc s1)) = nm_net_limit (tc_net (ts_tc s));
  ac_cpu_limit : cm_objective_duration_limit (tc_cpu (ts_tc s1)) = cm_objective_duration_limit (tc_cpu (ts_tc s));
  ac_net : nm_net_usage (tc_net (ts_tc s)) <= nm_net_usage (tc_net (ts_tc s1))
}.

#[export] Instance acted_preorder : PreOrder acted.
Proof.
  split.
  - intros s. constructor; eauto; lia.
  - intros x y z H1 H2. constructor.
    + by rewrite (ac_config _ _ H2), (ac_config _ _ H1).
    + by rewrite (ac_state _ _ H2), (ac_state _ _ H1).
    + intros a u Hu. destruct (ac_usage _ _ H1 a u Hu) as (u1 & Hu1 & E1 & E2). destruct (ac_usage _ _ H2 a u1 Hu1) as (u2 & Hu2 & E3 & E4).
      exists u2. split_and!; congruence.
    + intros a l Hl. destruct (ac_limits _ _ H1 a l Hl) as [l1 Hl1]. by apply (ac_limits _ _ H2 a l1).
    + intros Hw. apply (ac_weights _ _ H2), (ac_weights _ _ H1), Hw.
    + by rewrite (ac_settings _ _ H2), (ac_settings _ _ H1).
    + by rewrite (ac_bill _ _ H2), (ac_bill _ _ H1).
    + by rewrite (ac_net_limit _ _ H2), (ac_net_limit _ _ H1).
    + by rewrite (ac_cpu_limit _ _ H2), (ac_cpu_limit _ _ H1).
    + pose proof (ac_net _ _ H1). pose proof (ac_net _ _ H2). lia.
Qed.

(** Changes of the database outside the resource limits. *)
Lemma same_limits_acted s s1 : rl_of s1 = rl_of s -> ts_tc s1 = ts_tc s -> acted s s1.
Proof. intros Hr Ht. constructor; rewrite ?Hr, ?Ht; eauto; lia. Qed.

Lemma add_net_usage_acted u s s1 : 0 <= u -> 0 <= nm_net_usage (tc_net (ts_tc s)) -> nm_net_usage (tc_net (ts_tc s)) + u < 2 ^ 64 ->
  add_net_usage cv u s = (s1, Ok tt) -> acted s s1.
Proof. intros Hu Hn Hw E. apply add_net_usage_Ok in E as [-> _]. constructor; simpl; eauto. rewrite u64_small by (unfold is_u64; lia). lia. Qed.

Lemma tc_add_ram_usage_acted a d s s1 : tc_add_ram_usage a d s = (s1, Ok tt) -> acted s s1.
Proof.
  intros E. unfold tc_add_ram_usage in E. apply M_bind_Ok in E as (s2 & [] & E0 & E). apply on_db_Ok in E0 as (db & Ed & ->).
  transitivity (put_db s db).
  - unfold NativeActions.add_ram_usage in Ed. apply bind_Ok in Ed as (rl1 & Er & Ed). injection Ed as <-.
    unfold add_pending_ram_usage in Er. destruct (d =? 0); [injection Er as <-; by apply same_limits_acted|].
    apply bind_Ok in Er as (u & Hu & Er). apply of_option_Ok in Hu. do 2 (apply bind_Ok in Er as (? & _ & Er)). injection Er as <-.
    constructor; simpl; eauto; [|lia]. intros b v Hv. destruct (decide (b = a)) as [->|Hne].
    + rewrite lookup_insert_eq. eexists. split; [done|]. naive_solver.
    + rewrite lookup_insert_ne by done. eauto.
  - destruct (0 <? d); [rewrite modify_tc_run in E|]; injection E as <-; [constructor; simpl; eauto; lia|reflexivity].
Qed.

(** [set_resource_limits] of a privileged contract. *)
Lemma set_account_limits_acted s a ram net cpu rl1 b : is_i64 net -> is_i64 cpu -> set_account_limits (rl_of s) a ram net cpu = Ok (rl1, b) ->
  acted s (put_db s (NativeActions.set_limits (ts_db s) rl1)).
Proof.
  intros Hn Hc E. unfold set_account_limits in E. apply bind_Ok in E as (l & Hl & E). injection E as <- _.
  constructor; simpl; eauto; [..|lia].
  - intros x lx Hx. unfold get_account_limits in *. simpl. destruct (decide (x = a)) as [->|Hne].
    + rewrite lookup_insert_eq. by eexists.
    + rewrite !lookup_insert_ne by congruence. eauto.
  - intros Hw k lk Hk. destruct (decide (k = (true, a))) as [->|Hne].
    + rewrite lookup_insert_eq in Hk. injection Hk as <-. done.
    + rewrite lookup_insert_ne in Hk by done. by eapply Hw.
Qed.

Lemma acted_limits_ok s s1 : limits_ok (rl_of s) -> acted s s1 -> limits_ok (rl_of s1).
Proof.
  intros Hrl Ha. destruct Ha as [Hc Hs _ _ Hw _ _ _ _ _]. pose proof (lk_weights _ Hrl) as Hw'. destruct Hrl.
  constructor; rewrite ?Hc, ?Hs; eauto.
Qed.

Lemma acted_context_ok s s1 : acted s s1 -> context_ok (rl_of s) (ts_tc s) -> context_ok (rl_of s1) (ts_tc s1).
Proof.
  intros Ha [Hnd Hac Hn Hc]. constructor.
  - by rewrite (ac_bill _ _ Ha).
  - intros a Hin. rewrite (ac_bill _ _ Ha) in Hin. destruct (Hac a Hin) as (u & l & Hu & [Hr1 Hr2] & Hl).
    destruct (ac_usage _ _ Ha a u Hu) as (u' & Hu' & E1 & E2). destruct (ac_limits _ _ Ha a l Hl) as [l' Hl'].
    exists u', l'. split_and!; try done. split; by rewrite ?E1, ?E2.
  - by rewrite (ac_net_limit _ _ Ha), (ac_config _ _ Ha), (ac_state _ _ Ha).
  - by rewrite (ac_cpu_limit _ _ Ha), (ac_config _ _ Ha), (ac_state _ _ Ha).
Qed.

Lemma dispatch_all_acted dispatch cf l : (forall a s s1, dispatch a cf s = (s1, Ok tt) -> acted s s1) ->
  forall s s1, dispatch_all dispatch cf l s = (s1, Ok tt) -> acted s s1.
Proof.
  intros Hd. induction l as [|a l IH]; intros s s1 E; cbn [dispatch_all] in E; [injection E as <-; reflexivity|].
  apply M_bind_Ok in E as (s2 & [] & E0 & E). etrans; [by eapply Hd|by apply IH].
Qed.

(** ** The bill *)

(** The end of a transaction whose checks succeed. *)
Lemma finalize_bills now s s3 : checks_skipped cv = false -> limits_ok (rl_of s) -> context_ok (rl_of s) (ts_tc s) ->
  0 <= cc_min_transaction_cpu_usage (cv_cfg cv) -> finalize_checks cv now s = (s3, Ok tt) ->
  within_limits (rl_of s) (tc_bill_to_accounts (ts_tc s)) (cm_billed_cpu_time_us (tc_cpu (ts_tc s3))) (nm_net_usage (tc_net (ts_tc s3))) ->
  exists rl4, finalize cv now s = (put_db s3 (NativeActions.set_limits (ts_db s3) rl4), Ok tt) /\
    add_transaction_usage (rl_of s) (tc_bill_to_accounts (ts_tc s)) (cm_billed_cpu_time_us (tc_cpu (ts_tc s3)))
      (nm_net_usage (tc_net (ts_tc s3))) (pending_slot cv) = Ok rl4.
Proof.
  intros Hsk Hrl Hco Hmin E Hin. pose proof (finalize_checks_spec now s s3 Hsk E) as [K1 K2 K3 K4 K5 K6 K7 K8].
  pose proof (co_net _ _ Hco). pose proof (co_cpu _ _ Hco). pose proof (lk_max_cpu _ Hrl). pose proof (lk_pending_cpu _ Hrl).
  assert (0 <= nm_net_usage (tc_net (ts_tc s3))) as Hn0 by (rewrite K4; apply Z.mul_nonneg_nonneg; [apply Z.div_pos; [apply u64_is_u64|lia]|lia]).
  destruct (affordable_billable (rl_of s) (ts_tc s) (nm_net_usage (tc_net (ts_tc s3))) (cm_billed_cpu_time_us (tc_cpu (ts_tc s3)))) as [rl4 E4]; try done; try lia.
  exists rl4. split; [|done]. unfold finalize. rewrite (bind_run _ _ _ _ _ E). rewrite (bind_run _ _ _ _ _ (get_tc_run s3)).
  apply on_limits_Ok. exists rl4. split; [|done]. rewrite u64_small by (unfold is_u64; lia). by rewrite K1, K2.
Qed.

End Billing.
