(* ===== verification/TransactionRuns.v ===== *)
(** * Whole transactions

    From the beginning of an input transaction through its actions to its bill,
    and the protection against transactions that are sent twice. *)

From Stdlib Require Import ZArith Lia Bool String.
From stdpp Require Import base numbers gmap sorting sets list.
From S2P Require Import Prelude ResourceLimits ResourceLimitsProofs BlockTime Merkle BlockHeader Authority Permissions NativeActions ChainConfig.
From S2P Require Import Transaction TransactionProofs Bandwidth TransactionContext TransactionContextProofs.

Open Scope Z_scope.

Notation rl_of s := (db_limits (ts_db s)).

(** ** Input transactions *)

Definition sizes_ok (cv : controller_view) (unprunable prunable : Z) : Prop :=
  is_u32 (cc_base_per_transaction_net_usage (cv_cfg cv)) /\ is_u32 (cc_context_free_discount_net_usage_num (cv_cfg cv)) /\
  is_u32 (cc_context_free_discount_net_usage_den (cv_cfg cv)) /\ 0 < unprunable < 2 ^ 32 /\ is_u32 prunable.

Lemma discounted_size_le cv unprunable prunable : sizes_ok cv unprunable prunable -> 0 <= discounted_size cv prunable <= prunable.
Proof.
  unfold sizes_ok, is_u32, discounted_size. intros (_ & Hn & Hd & _ & Hp). cbv zeta.
  set (num := cc_context_free_discount_net_usage_num _) in *. set (den := cc_context_free_discount_net_usage_den _) in *.
  destruct (Z.ltb_spec 0 den), (Z.ltb_spec num den); simpl; try lia.
  rewrite (u64_small (prunable * num)) by (unfold is_u64; nia). rewrite u64_small by (unfold is_u64; nia).
  split; [apply Z.div_pos; nia|]. apply Z.lt_succ_r, Z.div_lt_upper_bound; nia.
Qed.

(** The network usage a transaction begins with. *)
Definition initial_usage (cv : controller_view) (trx : transaction) (unprunable prunable : Z) : Z :=
  cc_base_per_transaction_net_usage (cv_cfg cv) + unprunable + discounted_size cv prunable +
  if 0 <? tr_delay_sec trx then cc_base_per_transaction_net_usage (cv_cfg cv) + transaction_id_net_usage else 0.

Section Input.
Context `{CbrtLaws} `{Crypto} (cv : controller_view).

(** What a successful start checked and set. *)
Record input_started (s s1 : trx_state) (unprunable prunable : Z) (skip_recording : bool) : Prop := {
  is_initialized : initialized cv s s1;
  is_usage : nm_net_usage (tc_net (ts_tc s1)) = initial_usage cv (tc_trx (tc_settings (ts_tc s))) unprunable prunable;
  is_not_expired : checks_skipped cv = false -> cv_pending_block_time cv <= tr_expiration (tc_trx (tc_settings (ts_tc s))) * 1000000;
  is_recorded : ts_recorded s1 = if skip_recording then ts_recorded s
    else <[tc_id (tc_settings (ts_tc s)) := tr_expiration (tc_trx (tc_settings (ts_tc s)))]> (ts_recorded s);
  is_new : skip_recording = false -> ts_recorded s !! tc_id (tc_settings (ts_tc s)) = None
}.

Lemma initialized_same s0 s s1 : rl_of s0 = rl_of s -> tc_settings (ts_tc s0) = tc_settings (ts_tc s) ->
  initialized cv s0 s1 -> initialized cv s s1.
Proof. intros Hr Ht [I1 I2 I3 I4 I5 I6 I7 I8]. constructor; congruence. Qed.

Lemma init_for_input_trx_Ok unprunable prunable skip expired now s s1 :
  limits_ok (rl_of s) -> usage_bounded (rl_of s) -> 0 <= tr_max_net_usage_words (tc_trx (tc_settings (ts_tc s))) < 2 ^ 32 ->
  sizes_ok cv unprunable prunable -> nm_net_usage (tc_net (ts_tc s)) = 0 ->
  init_for_input_trx cv unprunable prunable skip expired now s = (s1, Ok tt) -> input_started s s1 unprunable prunable skip.
Proof.
  intros Hrl Hub Hw Hsz Hn0 E. pose proof (discounted_size_le cv _ _ Hsz) as Hd. unfold sizes_ok, is_u32 in Hsz.
  unfold init_for_input_trx in E. apply M_bind_Ok in E as (s0 & tc & E0 & E). rewrite get_tc_run in E0. injection E0 as <- <-.
  cbv zeta in E. set (trx := tc_trx (tc_settings (ts_tc s))) in *. apply M_bind_Ok in E as (s2 & [] & E0 & E). rewrite modify_tc_run in E0. injection E0 as <-.
  set (s0 := put_tc s _) in E. apply M_bind_Ok in E as (s2 & sx & E0 & E). injection E0 as <- <-.
  apply M_bind_Ok in E as (s2 & [] & Ec & E).
  assert (s2 = s0 /\ (checks_skipped cv = false -> cv_pending_block_time cv <= tr_expiration trx * 1000000)) as [-> Hexp].
  { destruct (checks_skipped cv) eqn:Hsk; [by injection Ec as <-|]. apply M_bind_Ok in Ec as (s3 & [] & E0 & Ec). apply lift_Ok in E0 as [-> Hx].
    apply M_bind_Ok in Ec as (s3 & [] & E0 & Ec). apply lift_Ok in E0 as [-> _]. apply lift_Ok in Ec as [-> _]. split; [done|]. intros _.
    unfold validate_expiration in Hx. apply bind_Ok in Hx as (x & Hx & _). by apply assert_Ok, Z.leb_le in Hx. }
  apply M_bind_Ok in E as (s2 & [] & Ei & E).
  match type of Ei with init _ ?i _ _ _ = _ => assert (i = initial_usage cv trx unprunable prunable) as Hi end.
  { unfold initial_usage. unfold transaction_id_net_usage. destruct (0 <? tr_delay_sec trx).
    - rewrite (u64_small (cc_base_per_transaction_net_usage (cv_cfg cv) + unprunable + _)) by (unfold is_u64; lia).
      rewrite u64_small by (unfold is_u64; lia). lia.
    - rewrite u64_small by (unfold is_u64; lia). lia. }
  rewrite Hi in Ei. assert (0 < initial_usage cv trx unprunable prunable < 2 ^ 64) as Hpos.
  { unfold initial_usage, transaction_id_net_usage. destruct (0 <? tr_delay_sec trx); lia. }
  apply init_Ok in Ei as (Hin & Hrec & Hus); [|done..]. rewrite (proj2 (Z.ltb_lt _ _)) in Hus by lia.
  change (nm_net_usage (tc_net (ts_tc s0))) with (nm_net_usage (tc_net (ts_tc s))) in Hus. rewrite Hn0, u64_small in Hus by (unfold is_u64; lia).
  apply (initialized_same s0 s) in Hin; [|done..]. destruct skip; cbn [andb] in E.
  - injection E as <-. constructor; try done.
  - unfold record_transaction in E. apply M_bind_Ok in E as (s3 & sx & E0 & E). injection E0 as <- <-.
    apply M_bind_Ok in E as (s3 & [] & E0 & E). apply M_assert_Ok in E0 as [-> Hnew]. injection E as <-. apply bool_decide_eq_true_1 in Hnew.
    rewrite Hrec in Hnew. constructor; cbn [ts_tc ts_recorded ts_db]; try done.
    + destruct Hin. by constructor.
    + by rewrite Hrec.
Qed.

End Input.

(** ** The bill of a transaction *)

(** C24: an input transaction whose final checks succeed is always billed: adding its
    usage to the accounts and to the block does not fail. The bill is rounded up
    to words, is at least the least CPU time, and is within what the block has
    left, the configuration, the header of the transaction and what every
    authorizing account can pay. *)
Theorem transaction_billed `{CbrtLaws} `{Crypto} cv unprunable prunable skip expired now0 now s s1 s2 s3
  (Hchecks : checks_skipped cv = false) (Hrl : limits_ok (rl_of s)) (Hub : usage_bounded (rl_of s))
  (Hwords : is_u32 (tr_max_net_usage_words (tc_trx (tc_settings (ts_tc s)))))
  (Hsizes : sizes_ok cv unprunable prunable) (Hmin : 0 < cc_min_transaction_cpu_usage (cv_cfg cv))
  (Hnew : nm_net_usage (tc_net (ts_tc s)) = 0)
  (Hinit : init_for_input_trx cv unprunable prunable skip expired now0 s = (s1, Ok tt))
  (Hacted : acted s1 s2) (Husage : nm_net_usage (tc_net (ts_tc s2)) < 2 ^ 63)
  (Hfinal : finalize_checks cv now s2 = (s3, Ok tt)) :
  let trx := tc_trx (tc_settings (ts_tc s)) in
  exists s4, finalize cv now s2 = (s4, Ok tt) /\
    let net := nm_net_usage (tc_net (ts_tc s4)) in
    let cpu := cm_billed_cpu_time_us (tc_cpu (ts_tc s4)) in
    initial_usage cv trx unprunable prunable <= nm_net_usage (tc_net (ts_tc s2)) <= net /\ net mod 8 = 0 /\
    net <= max (net_limit_parameters (config (rl_of s))) - pending_net_usage (state (rl_of s)) /\
    net <= cc_max_transaction_net_usage (cv_cfg cv) /\ (0 < tr_max_net_usage_words trx -> net <= tr_max_net_usage_words trx * 8) /\
    cc_min_transaction_cpu_usage (cv_cfg cv) <= cpu <= max (cpu_limit_parameters (config (rl_of s))) - pending_cpu_usage (state (rl_of s)) /\
    cpu <= cc_max_transaction_cpu_usage (cv_cfg cv) /\ (0 < tr_max_cpu_usage_ms trx -> cpu <= tr_max_cpu_usage_ms trx * 1000) /\
    affordable (rl_of s2) (authorizing_accounts trx) net cpu /\
    add_transaction_usage (rl_of s2) (authorizing_accounts trx) cpu net (pending_slot cv) = Ok (rl_of s4).
Proof.
  intros trx. apply init_for_input_trx_Ok in Hinit as [Hin Hus Hexp _ _]; [|done..].
  pose proof (discounted_size_le cv _ _ Hsizes) as Hd.
  assert (0 < initial_usage cv trx unprunable prunable) as Hpos.
  { unfold initial_usage, transaction_id_net_usage. unfold sizes_ok, is_u32 in Hsizes. destruct (0 <? tr_delay_sec trx); lia. }
  assert (limits_ok (rl_of s1)) as Hrl1.
  { destruct Hin as [I1 I2 I3 _ _ _ _ _]. destruct Hrl. constructor; rewrite ?I1, ?I2, ?I3; done. }
  pose proof (acted_limits_ok _ _ Hrl1 Hacted) as Hrl2. pose proof (acted_context_ok cv _ _ Hacted (in_context _ _ _ Hin)) as Hco2.
  destruct (finalize_checks_spec cv now s2 s3 Hchecks Hfinal) as [K1 K2 K3 K4 K5 K6 K7 K8].
  fold trx in Hus. pose proof (ac_net _ _ Hacted) as Hgrow. rewrite Hus in Hgrow.
  rewrite u64_small in K4 by (unfold is_u64; lia).
  assert (nm_net_usage (tc_net (ts_tc s2)) <= nm_net_usage (tc_net (ts_tc s3))) as Hround.
  { rewrite K4. pose proof (Z_div_mod_eq_full (nm_net_usage (tc_net (ts_tc s2)) + 7) 8). pose proof (Z.mod_pos_bound (nm_net_usage (tc_net (ts_tc s2)) + 7) 8). lia. }
  destruct (finalize_bills cv now s2 s3) as (rl4 & E4 & Ea); [done|done|done|lia|done| |].
  { intros a u l _ _ _. split; left; lia. }
  rewrite (ac_bill _ _ Hacted), (in_bill _ _ _ Hin) in Ea, K8. fold trx in Ea, K8.
  exists (put_db s3 (NativeActions.set_limits (ts_db s3) rl4)). split; [done|]. cbn [ts_tc ts_db put_db db_limits NativeActions.set_limits].
  rewrite (ac_net_limit _ _ Hacted), (in_net _ _ _ Hin) in K5. rewrite (ac_cpu_limit _ _ Hacted), (in_cpu _ _ _ Hin) in K7. fold trx in K5, K7.
  destruct (objective_net_limit_le cv (rl_of s) trx Hwords) as (O1 & O2 & O3). destruct (objective_cpu_limit_le cv (rl_of s) trx) as (P1 & P2 & P3).
  destruct (block_limits _ Hrl) as [B1 B2]. cbv zeta in *. rewrite B1 in O1. rewrite B2 in P1.
  assert (nm_net_usage (tc_net (ts_tc s3)) mod 8 = 0) as Hmod by (rewrite K4; apply Z.mod_mul; lia).
  split_and!; try lia; done.
Qed.

(** ** Transactions that are sent twice *)

Section Replay.
Context `{CbrtLaws} `{Crypto}.

(** The known transactions of a chain: blocks begin, at times that do not go back,
    and clear what has expired; input transactions are accepted in between.
    [accepted] lists them with their expiration, the last one first. *)
Inductive input_run : Z -> gmap digest Z -> list (digest * Z) -> Prop :=
| run_genesis now : input_run now ∅ []
| run_block now recorded accepted now' :
    input_run now recorded accepted -> now <= now' ->
    input_run now' (clear_expired_input_transactions recorded now') accepted
| run_input now recorded accepted cv s s1 unprunable prunable expired t :
    input_run now recorded accepted -> cv_pending_block_time cv = now -> checks_skipped cv = false -> ts_recorded s = recorded ->
    limits_ok (rl_of s) -> usage_bounded (rl_of s) -> is_u32 (tr_max_net_usage_words (tc_trx (tc_settings (ts_tc s)))) ->
    sizes_ok cv unprunable prunable -> nm_net_usage (tc_net (ts_tc s)) = 0 ->
    init_for_input_trx cv unprunable prunable false expired t s = (s1, Ok tt) ->
    input_run now (ts_recorded s1) ((tc_id (tc_settings (ts_tc s)), tr_expiration (tc_trx (tc_settings (ts_tc s)))) :: accepted).

(** An accepted transaction is known or has expired. *)
Definition remembered (now : Z) (recorded : gmap digest Z) (accepted : list (digest * Z)) : Prop :=
  forall i e, (i, e) ∈ accepted -> recorded !! i = Some e \/ e * 1000000 < now.

Lemma run_remembers now recorded accepted : input_run now recorded accepted ->
  (forall i e e', (i, e) ∈ accepted -> (i, e') ∈ accepted -> e = e') -> remembered now recorded accepted /\ NoDup accepted.*1.
Proof.
  induction 1 as [now|now recorded accepted now' Hrun IH Hle|now recorded accepted cv s s1 un pr expired t Hrun IH Hnow Hsk Hrec Hrl Hub Hw Hsz Hn Hinit];
    intros Hdet.
  - split; [intros i e Hin; set_solver|constructor].
  - destruct (IH Hdet) as [Hr Hnd]. split; [|done]. intros i e Hin. destruct (Z.lt_ge_cases (e * 1000000) now') as [|Hge]; [by right|].
    destruct (Hr i e Hin) as [Hk|]; [|lia]. left. unfold clear_expired_input_transactions. apply map_lookup_filter_Some. split; [done|]. simpl. lia.
  - apply init_for_input_trx_Ok in Hinit as [_ _ Hexp Hrec1 Hnew]; [|done..]. specialize (Hexp Hsk). specialize (Hnew eq_refl). rewrite Hrec in Hnew, Hrec1.
    set (i0 := tc_id _) in *. set (e0 := tr_expiration _) in *. cbn [andb] in Hrec1.
    destruct IH as [Hr Hnd]; [intros i e e' Ha Hb; apply (Hdet i e e'); by right|].
    assert (i0 ∉ accepted.*1) as Hfresh.
    { intros ([i e] & Hi & Hin)%list_elem_of_fmap. simpl in Hi. subst i. assert (e = e0) as -> by (apply (Hdet i0); [by right|left]).
      destruct (Hr i0 e0 Hin) as [Hk|Hlt]; [congruence|lia]. }
    split; [|by constructor]. rewrite Hrec1. intros i e [[= -> ->]|Hin]%elem_of_cons; [left; apply lookup_insert_eq|].
    destruct (decide (i = i0)) as [->|Hne]; [exfalso; apply Hfresh, list_elem_of_fmap; by exists (i0, e)|].
    rewrite lookup_insert_ne by done. by apply Hr.
Qed.

(** C25: no input transaction is accepted twice: although a node forgets a
    transaction once it has expired, in every run the ids of the accepted
    transactions are different. *)
Theorem no_replay now recorded accepted
  (Hrun : input_run now recorded accepted)
  (Hdet : forall i e e', (i, e) ∈ accepted -> (i, e') ∈ accepted -> e = e') :
  NoDup accepted.*1.
Proof. by apply (run_remembers now recorded accepted). Qed.

End Replay.

(** ** A concrete transaction *)

Module ContextDemo.
Import ResourceLimitsProofs.Runs.

#[local] Instance plain_crypto : Crypto := {|
  hash_header := fun _ => zero_digest; hash_schedule := fun _ => zero_digest; hash_pair := fun _ => zero_digest;
  recover_key := fun sig d _ => Ok (sig - hash0 d); endian_reverse_u32 := fun x => x
|}.

Definition block_time : Z := to_time_point 40.
Definition open_node : controller_config := mk_node [] [] [] [] [] [] [] [] false false false false.
Definition producing : controller_view :=
  mk_view genesis_configuration open_node (mk_status (Some incomplete) false false) block_time zero_digest {[ 0 := zero_digest ]}.

Definition one_action : transaction :=
  mk_transaction (block_time / 1000000 + 30) 0 0 40 0 0 [] [mk_action 7 1 [(7, active_name)] []] [].

Definition demo_permissions : authorization_db :=
  mk_auth_db {[ 1 := mk_permission 0 0 7 active_name 0 empty_authority ]} 2 {[ 0 := 0 ]} 1 ∅.
Definition demo_db : chain_db :=
  mk_chain_db demo_permissions {[ 7 := mk_account false 0 zero_digest 0 [] [] ]} {[ 7 := new_sequence ]} ∅ two_accounts.

Definition settings (trx : transaction) : trx_settings := mk_settings trx (mk_digest 1 2 3 4) block_time INT64_MAX 3000 false true 0.
Definition fresh (trx : transaction) : transaction_context :=
  mk_tc (settings trx) 0 [] [] false true false (mk_net 0 true false 0 0)
    (mk_cpu false 0 0 INT64_MAX block_cpu_usage_exceeded block_cpu_usage_exceeded block_time 0 0 0) [].

Example fresh_is_made : make_context (settings one_action) 0 = Ok (fresh one_action).
Proof. reflexivity. Qed.

Definition before : trx_state := mk_ts demo_db ∅ 0 (fresh one_action).
Definition started : trx_state := (init_for_input_trx producing 120 66 false false 0 before).1.
(** The action stores a row. *)
Definition after : trx_state := (tc_add_ram_usage 7 500 started).1.
Definition checked : trx_state := (finalize_checks producing (block_time + 350) after).1.

Lemma two_accounts_ok : limits_ok two_accounts.
Proof.
  constructor; [vm_compute; repeat split; congruence..|].
  intros k l Hk. unfold two_accounts in Hk. cbn [limits] in Hk.
  apply lookup_insert_Some in Hk as [[_ <-]|[_ [_ <-]%lookup_singleton_Some]]; vm_compute; intuition congruence.
Qed.

Lemma two_accounts_bounded : usage_bounded two_accounts.
Proof.
  intros a u Hu. unfold two_accounts in Hu. cbn [usage] in Hu.
  apply lookup_insert_Some in Hu as [[_ <-]|[_ [_ <-]%lookup_singleton_Some]]; vm_compute; intuition congruence.
Qed.

Lemma demo_sizes : sizes_ok producing 120 66.
Proof. repeat split; vm_compute; congruence. Qed.

Lemma started_Ok : init_for_input_trx producing 120 66 false false 0 before = (started, Ok tt).
Proof. vm_compute. reflexivity. Qed.
Lemma after_Ok : tc_add_ram_usage 7 500 started = (after, Ok tt).
Proof. vm_compute. reflexivity. Qed.
Lemma checked_Ok : finalize_checks producing (block_time + 350) after = (checked, Ok tt).
Proof. vm_compute. reflexivity. Qed.

Lemma transaction_billed_witness :
  exists s4, finalize producing (block_time + 350) after = (s4, Ok tt) /\
    nm_net_usage (tc_net (ts_tc s4)) mod 8 = 0 /\ nm_net_usage (tc_net (ts_tc s4)) <= 40 * 8 /\ cm_billed_cpu_time_us (tc_cpu (ts_tc s4)) <= 150000.
Proof.
  destruct (transaction_billed producing 120 66 false false 0 (block_time + 350) before started after checked) as (s4 & E & H1 & H2 & H3 & H4 & H5 & H6 & H7 & _).
  - reflexivity.
  - exact two_accounts_ok.
  - exact two_accounts_bounded.
  - vm_compute. split; congruence.
  - exact demo_sizes.
  - reflexivity.
  - reflexivity.
  - exact started_Ok.
  - exact (tc_add_ram_usage_acted 7 500 started after after_Ok).
  - reflexivity.
  - exact checked_Ok.
  - exists s4. split; [done|]. split; [done|]. split; [by apply H5|done].
Defined.

Lemma no_replay_witness : NoDup [mk_digest 1 2 3 4].
Proof.
  refine (no_replay block_time (ts_recorded started) [(mk_digest 1 2 3 4, tr_expiration one_action)] _ _).
  - refine (run_input block_time ∅ [] producing before started 120 66 false 0 (run_genesis block_time) _ _ _ _ _ _ _ _ _).
    + reflexivity.
    + reflexivity.
    + reflexivity.
    + exact two_accounts_ok.
    + exact two_accounts_bounded.
    + vm_compute. split; congruence.
    + exact demo_sizes.
    + reflexivity.
    + exact started_Ok.
  - intros i e e' [[= -> ->]|Hn]%elem_of_cons [[= ->]|Hn']%elem_of_cons; [done|set_solver..].
Defined.

(** The accepted transaction is refused while it is known. *)
Example sent_again : (init_for_input_trx producing 120 66 false false 0 (mk_ts demo_db (ts_recorded started) 0 (fresh one_action))).2 = Err tx_duplicate.
Proof. vm_compute. reflexivity. Qed.

(** A transaction without network usage, such as a deferred one, is not billed when
    an account is over its limit: the last step of [finalize] throws although its
    checks succeed. *)
Definition over_limit : resource_limits :=
  let u := mk_usage (mk_accumulator 40 4000000000 0) empty_accumulator 0 in
  set_usage two_accounts {[ 7 := u; 8 := default_usage ]}.
Definition deferred_before : trx_state :=
  mk_ts (NativeActions.set_limits demo_db (set_state_row over_limit (mk_state empty_accumulator empty_accumulator 0 0 2000000000 100 2000 1048576 200000))) ∅ 0
    (fresh one_action).
Definition deferred_started : trx_state := (init_for_deferred_trx producing block_time false 0 deferred_before).1.

Example unbilled_deferred :
  (init_for_deferred_trx producing block_time false 0 deferred_before).2 = Ok tt /\
  (finalize_checks producing (block_time + 350) deferred_started).2 = Ok tt /\
  (finalize producing (block_time + 350) deferred_started).2 = Err tx_net_usage_exceeded.
Proof. vm_compute. done. Qed.

End ContextDemo.
