(* ===== verification/ApplyContext.v ===== *)
(** * Running the actions of a transaction

    [apply_context.cpp] of [libraries/chain] without the table interface:
    notifications, inline and deferred actions and their authorization, the
    receipts of actions, and the recursion of [exec] through
    [transaction_context::dispatch_action]; of [wasm_interface.cpp] the
    interfaces [transaction_api] and [permission_api].

    What a handler does (native or WebAssembly code) is an argument; console
    output, traces and [checktime] are left out. *)

From Stdlib Require Import ZArith Lia Bool String.
From stdpp Require Import base numbers gmap list.
From S2P Require Import Prelude ResourceLimits BlockTime Name Merkle BlockHeader Authority Permissions NativeActions ChainConfig Transaction.
From S2P Require Import TransactionContext.

Open Scope Z_scope.

(** ** State *)

Record apply_ctx := mk_ax {
  ax_act : action;
  ax_receiver : account_name;
  ax_used_authorizations : list bool;
  ax_recurse_depth : Z;
  ax_privileged : bool;
  ax_context_free : bool;
  ax_notified : list account_name;
  ax_inline_actions : list action;
  ax_cfa_inline_actions : list action
}.

Record apply_state := mk_as { as_ts : trx_state; as_ax : apply_ctx }.

(** The constructor, with what [dispatch_action] sets. *)
Definition make_apply_ctx (a : action) (receiver : account_name) (context_free : bool) (depth : Z) : apply_ctx :=
  mk_ax a receiver (replicate (length (act_authorization a)) false) depth false context_free [] [] [].

Definition put_ax (s : apply_state) (ax : apply_ctx) : apply_state := mk_as (as_ts s) ax.
Definition set_receiver (ax : apply_ctx) (receiver : account_name) (privileged : bool) : apply_ctx :=
  mk_ax (ax_act ax) receiver (ax_used_authorizations ax) (ax_recurse_depth ax) privileged (ax_context_free ax) (ax_notified ax)
    (ax_inline_actions ax) (ax_cfa_inline_actions ax).
Definition set_used (ax : apply_ctx) (used : list bool) : apply_ctx :=
  mk_ax (ax_act ax) (ax_receiver ax) used (ax_recurse_depth ax) (ax_privileged ax) (ax_context_free ax) (ax_notified ax)
    (ax_inline_actions ax) (ax_cfa_inline_actions ax).
Definition set_queues (ax : apply_ctx) (notified : list account_name) (inline cfa : list action) : apply_ctx :=
  mk_ax (ax_act ax) (ax_receiver ax) (ax_used_authorizations ax) (ax_recurse_depth ax) (ax_privileged ax) (ax_context_free ax)
    notified inline cfa.

Definition get_ax : M apply_state apply_ctx := s ← get_state; mret (as_ax s).
Definition get_db : M apply_state chain_db := s ← get_state; mret (ts_db (as_ts s)).
Definition modify_ax (f : apply_ctx -> apply_ctx) : M apply_state unit := s ← get_state; put_state (put_ax s (f (as_ax s))).
(** An operation of the transaction's context. *)
Definition on_ts {A} (m : M trx_state A) : M apply_state A := fun s =>
  let '(t, r) := m (as_ts s) in (mk_as t (as_ax s), r).

(** ** Authorization and notification *)

(** [require_authorization( account )] marks the first authorization of the actor. *)
Definition ax_require_authorization (account : account_name) : M apply_state unit :=
  ax ← get_ax;
  match list_find (fun auth => auth.1 = account) (act_authorization (ax_act ax)) with
  | Some (i, _) => modify_ax (fun ax => set_used ax (<[i := true]> (ax_used_authorizations ax)))
  | None => throw missing_auth_exception
  end.

(** [require_authorization( account, permission )]. *)
Definition ax_require_permission (account permission : Z) : M apply_state unit :=
  ax ← get_ax;
  match list_find (fun auth => auth = (account, permission)) (act_authorization (ax_act ax)) with
  | Some (i, _) => modify_ax (fun ax => set_used ax (<[i := true]> (ax_used_authorizations ax)))
  | None => throw missing_auth_exception
  end.

Definition has_authorization (ax : apply_ctx) (account : account_name) : bool :=
  existsb (fun auth => auth.1 =? account) (act_authorization (ax_act ax)).

Definition has_recipient (ax : apply_ctx) (code : account_name) : bool := bool_decide (code ∈ ax_notified ax).

Definition require_recipient (recipient : account_name) : M apply_state unit :=
  modify_ax (fun ax => if has_recipient ax recipient then ax
    else set_queues ax (ax_notified ax ++ [recipient]) (ax_inline_actions ax) (ax_cfa_inline_actions ax)).

Section Apply.
Context `{Crypto} `{MetaOrder} `{ActionData} `{TransactionData} (cv : controller_view).

Notation cfg := (cv_cfg cv).
Definition auth_cfg : auth_config := mk_auth_config (cc_max_transaction_delay cfg) (Z.to_nat (cc_max_authority_depth cfg)).
Definition auth_skipped : bool := skip_auth_check (cv_conf cv) (cv_status cv).
Definition producing_block : bool := is_producing_block (cv_status cv).

(** The code permission of the running contract. *)
Definition code_level (receiver : account_name) : Z * Z := (receiver, snax_code_name).

(** ** Inline actions *)

Definition check_inline_authorizer (db : chain_db) (auth : Z * Z) : result unit :=
  SNAX_ASSERT (bool_decide (is_Some (db_accounts db !! auth.1))) action_validate_exception;;
  p ← find_permission (db_auth db) auth;
  SNAX_ASSERT (bool_decide (is_Some p)) action_validate_exception.

(** The [try] block around [check_authorization], shared by inline and deferred
    actions: a failure of actions to oneself passes, but not on a producing
    node. *)
Definition tolerate_self (only_to_self : bool) (r : result unit) : result unit :=
  match r with
  | Ok _ => mret tt
  | Err e =>
      if negb (catchable e) then Err e
      else if negb only_to_self then Err e
      else if producing_block then Err subjective_block_production_exception
      else mret tt
  end.

Definition execute_inline (a : action) : M apply_state unit :=
  ax ← get_ax;
  db ← get_db;
  tc ← on_ts get_tc;
  M_ASSERT (bool_decide (is_Some (db_accounts db !! act_account a))) action_validate_exception;;
  let receiver := ax_receiver ax in
  let enforce := tc_enforce_whiteblacklist (tc_settings tc) && producing_block in
  let send_to_self := act_account a =? receiver in
  let inherit := send_to_self && (receiver =? act_account (ax_act ax)) && producing_block in
  lift (check_all (check_inline_authorizer db) (act_authorization a));;
  (if enforce then lift (check_actor_list (cv_conf cv) (foldl (fun l x => set_insert x l) [] (act_authorization a).*1)) else mret tt);;
  let inherited := if inherit then filter (fun auth => auth ∈ act_authorization (ax_act ax)) (act_authorization a) else [] in
  (if negb auth_skipped && negb (ax_privileged ax) then
     lift (tolerate_self send_to_self
             (check_authorization (db_auth db) (db_generated db) auth_cfg [a] [] [code_level receiver]
                (cv_pending_block_time cv - tc_published tc) false inherited))
   else mret tt);;
  modify_ax (fun ax => set_queues ax (ax_notified ax) (ax_inline_actions ax ++ [a]) (ax_cfa_inline_actions ax)).

Definition execute_context_free_inline (a : action) : M apply_state unit :=
  db ← get_db;
  M_ASSERT (bool_decide (is_Some (db_accounts db !! act_account a))) action_validate_exception;;
  M_ASSERT (bool_decide (act_authorization a = [])) action_validate_exception;;
  modify_ax (fun ax => set_queues ax (ax_notified ax) (ax_inline_actions ax) (ax_cfa_inline_actions ax ++ [a])).

(** [send_inline] and [send_context_free_inline], with the unpacking of the action
    as an argument. *)
Definition send_inline (unpack_action : list Z -> result action) (data : list Z) : M apply_state unit :=
  M_ASSERT (Z.of_nat (length data) <? cc_max_inline_action_size cfg) inline_action_too_big;;
  act ← lift (unpack_action data);
  execute_inline act.
Definition send_context_free_inline (unpack_action : list Z -> result action) (data : list Z) : M apply_state unit :=
  M_ASSERT (Z.of_nat (length data) <? cc_max_inline_action_size cfg) inline_action_too_big;;
  act ← lift (unpack_action data);
  execute_context_free_inline act.

(** ** Deferred transactions *)

(** The expiration is rounded up to a second; the reference block is the head. *)
Definition deferred_header (trx : transaction) : transaction :=
  set_reference_block
    (with_header trx ((cv_pending_block_time cv + 999999) / 1000000) (tr_ref_block_num trx) (tr_ref_block_prefix trx))
    (cv_head_block_id cv).

Definition is_sending_only_to_self (trx : transaction) (self : account_name) : bool :=
  forallb (fun act => act_account act =? self) (tr_actions trx).

(** The row that is written; a row with the same sender and sender id is replaced
    under its old transaction id. *)
Definition store_deferred (receiver : account_name) (sender_id : Z) (payer : account_name) (trx : transaction)
    (replace_existing : bool) : M apply_state Z :=
  let delay := tr_delay_sec trx * 1000000 in
  let gto := mk_generated receiver sender_id payer (cv_pending_block_time cv + delay)
               (cv_pending_block_time cv + delay + cc_deferred_trx_expiration_window cfg * 1000000) (cv_pending_block_time cv)
               (pack_transaction trx) in
  db ← get_db;
  match by_sender_id db receiver sender_id with
  | Some (i, old) =>
      M_ASSERT replace_existing deferred_tx_duplicate;;
      on_ts (tc_add_ram_usage (gt_payer old) (i64 (- generated_size old)));;
      on_ts (on_db (fun db => mret (set_generated db (<[i := gto]> (db_generated db)))))
  | None => on_ts (create_generated (hash_transaction trx) gto)
  end;;
  mret (generated_size gto).

Definition schedule_deferred_transaction (sender_id : Z) (payer : account_name) (trx : transaction) (replace_existing : bool) :
    M apply_state unit :=
  M_ASSERT (bool_decide (tr_context_free_actions trx = [])) cfa_inside_generated_tx;;
  let trx := deferred_header trx in
  ax ← get_ax;
  db ← get_db;
  tc ← on_ts get_tc;
  let receiver := ax_receiver ax in
  let enforce := tc_enforce_whiteblacklist (tc_settings tc) && producing_block &&
                 negb (sender_avoids_whitelist_blacklist_enforcement (cv_conf cv) receiver) in
  lift (validate_referenced_accounts cv db trx enforce);;
  on_ts (add_net_usage cv (cc_base_per_transaction_net_usage cfg + transaction_id_net_usage));;
  (if negb auth_skipped && negb (ax_privileged ax) then
     (if negb (payer =? receiver) then ax_require_authorization payer else mret tt);;
     lift (tolerate_self (is_sending_only_to_self trx receiver)
             (check_authorization (db_auth db) (db_generated db) auth_cfg (tr_actions trx) [] [code_level receiver]
                (tr_delay_sec trx * 1000000) false []))
   else mret tt);;
  size ← store_deferred receiver sender_id payer trx replace_existing;
  M_ASSERT (is_ram_billing_in_notify_allowed (cv_conf cv) (cv_status cv) || (receiver =? act_account (ax_act ax)) ||
            (receiver =? payer) || ax_privileged ax) subjective_block_production_exception;;
  on_ts (tc_add_ram_usage payer size).

(** [send_deferred] of [transaction_api]. *)
Definition send_deferred (sender_id : Z) (payer : account_name) (data : list Z) (replace_existing : bool) : M apply_state unit :=
  trx ← lift (raw_unpack_transaction data);
  schedule_deferred_transaction sender_id payer trx replace_existing.

(** [cancel_deferred] of the running contract. *)
Definition ax_cancel_deferred (sender_id : Z) : M apply_state bool :=
  ax ← get_ax;
  db ← get_db;
  match by_sender_id db (ax_receiver ax) sender_id with
  | None => mret false
  | Some (i, gto) =>
      on_ts (tc_add_ram_usage (gt_payer gto) (i64 (- generated_size gto)));;
      on_ts (on_db (fun db => mret (set_generated db (delete i (db_generated db)))));;
      mret true
  end.

(** ** What a contract may ask about authorizations *)

(** The exceptions derived from [authorization_exception]. *)
Definition is_authorization_exception (e : exn) : bool :=
  bool_decide (e ∈ [authorization_exception; tx_duplicate_sig; tx_irrelevant_sig; unsatisfied_authorization; missing_auth_exception;
                    irrelevant_auth_exception; invalid_permission; unlinkable_min_permission_action]).

Definition authorized_or_not (r : result unit) : result bool :=
  match r with
  | Ok _ => mret true
  | Err e => if is_authorization_exception e then mret false else Err e
  end.

(** [check_transaction_authorization]; [unpack_keys] and [unpack_levels] unpack
    sets, and are not called for empty data. *)
Definition check_transaction_authorization (unpack_keys : list Z -> result (list public_key_type))
    (unpack_levels : list Z -> result (list (Z * Z))) (db : chain_db) (trx_data pubkeys_data perms_data : list Z) : result bool :=
  trx ← raw_unpack_transaction trx_data;
  keys ← (match pubkeys_data with [] => mret [] | _ => unpack_keys pubkeys_data end);
  perms ← (match perms_data with [] => mret [] | _ => unpack_levels perms_data end);
  authorized_or_not
    (check_authorization (db_auth db) (db_generated db) auth_cfg (tr_actions trx) keys perms (tr_delay_sec trx * 1000000) false []).

(** [check_permission_authorization] of [permission_api]. *)
Definition api_check_permission_authorization (unpack_keys : list Z -> result (list public_key_type))
    (unpack_levels : list Z -> result (list (Z * Z))) (db : chain_db) (account permission : Z) (pubkeys_data perms_data : list Z)
    (delay_us : Z) : result bool :=
  SNAX_ASSERT (delay_us <=? INT64_MAX) action_validate_exception;;
  keys ← (match pubkeys_data with [] => mret [] | _ => unpack_keys pubkeys_data end);
  perms ← (match perms_data with [] => mret [] | _ => unpack_levels perms_data end);
  authorized_or_not (check_permission_authorization (db_auth db) auth_cfg account permission keys perms delay_us false).

(** [get_permission_last_used] and [get_account_creation_time] of [permission_api]. *)
Definition api_get_permission_last_used (db : chain_db) (account permission : Z) : result Z :=
  '(_, p) ← get_permission (db_auth db) (account, permission);
  get_permission_last_used (db_auth db) p.
Definition api_get_account_creation_time (db : chain_db) (account : account_name) : result Z :=
  acct ← of_option action_validate_exception (db_accounts db !! account);
  mret (ao_creation_date acct).

(** ** Receipts *)

Definition next_global_sequence : M trx_state Z :=
  s ← get_state;
  let n := u64 (ts_global_sequence s + 1) in
  put_state (mk_ts (ts_db s) (ts_recorded s) n (ts_tc s));;
  mret n.

Definition set_sequences (db : chain_db) (m : gmap Z account_sequence_object) : chain_db :=
  mk_chain_db (db_auth db) (db_accounts db) m (db_generated db) (db_limits db).

Definition next_recv_sequence (receiver : account_name) : M trx_state Z :=
  s ← get_state;
  rs ← lift (of_option std_out_of_range (db_sequences (ts_db s) !! receiver));
  let n := u64 (recv_sequence rs + 1) in
  put_state (put_db s (set_sequences (ts_db s)
    (<[receiver := mk_sequence n (auth_sequence rs) (code_sequence rs) (abi_sequence rs)]> (db_sequences (ts_db s)))));;
  mret n.

Definition next_auth_sequence (actor : account_name) : M trx_state Z :=
  s ← get_state;
  rs ← lift (of_option std_out_of_range (db_sequences (ts_db s) !! actor));
  let n := u64 (auth_sequence rs + 1) in
  put_state (put_db s (set_sequences (ts_db s)
    (<[actor := mk_sequence (recv_sequence rs) n (code_sequence rs) (abi_sequence rs)]> (db_sequences (ts_db s)))));;
  mret n.

Fixpoint auth_sequences (auths : list (Z * Z)) (m : gmap account_name Z) : M trx_state (gmap account_name Z) :=
  match auths with
  | [] => mret m
  | auth :: auths => n ← next_auth_sequence auth.1; auth_sequences auths (<[auth.1 := n]> m)
  end.

Definition push_receipt (act : action) (receiver : account_name) : M trx_state unit :=
  global ← next_global_sequence;
  recv ← next_recv_sequence receiver;
  s ← get_state;
  account_sequence ← lift (of_option std_out_of_range (db_sequences (ts_db s) !! act_account act));
  auths ← auth_sequences (act_authorization act) ∅;
  modify_tc (fun tc =>
    mk_tc (tc_settings tc) (tc_published tc) (tc_bill_to_accounts tc) (tc_validate_ram_usage tc) (tc_is_input tc)
      (tc_apply_context_free tc) (tc_is_initialized tc) (tc_net tc) (tc_cpu tc)
      (tc_executed tc ++ [mk_receipt receiver act global recv auths (code_sequence account_sequence) (abi_sequence account_sequence)])).

(** ** Execution *)

(** The handlers: [find_apply_handler], and the code of an account. *)
Class Handlers := {
  native_handler : account_name -> account_name -> Z -> option (M apply_state unit);
  wasm_apply : list Z -> M apply_state unit
}.

Context `{Handlers}.

(** [check_contract_list] and [check_action_list] on a producing node. *)
Definition check_lists (tc : transaction_context) (receiver : account_name) (act : action) : result unit :=
  if tc_enforce_whiteblacklist (tc_settings tc) && producing_block then
    check_contract_list (cv_conf cv) receiver;; check_action_list (cv_conf cv) (act_account act) (act_name act)
  else mret tt.

Definition setcode_name : Z := Eval vm_compute in N_ "setcode".

Definition exec_one : M apply_state unit :=
  ax ← get_ax;
  db ← get_db;
  tc ← on_ts get_tc;
  let act := ax_act ax in
  let receiver := ax_receiver ax in
  a ← lift (get_account db receiver);
  modify_ax (fun ax => set_receiver ax receiver (ao_privileged a));;
  (match native_handler receiver (act_account act) (act_name act) with
   | Some native => lift (check_lists tc receiver act);; native
   | None => mret tt
   end);;
  db ← get_db;
  a ← lift (get_account db receiver);
  (if negb (bool_decide (ao_code a = [])) &&
      negb ((act_account act =? system_account_name) && (act_name act =? setcode_name) && (receiver =? system_account_name))
   then lift (check_lists tc receiver act);; wasm_apply (ao_code a)
   else mret tt);;
  on_ts (push_receipt act receiver).

(** [for( i = 1; i < _notified.size(); ++i )]. *)
Fixpoint notify_loop (fuel : nat) (i : nat) : M apply_state unit :=
  match fuel with
  | O => throw out_of_fuel
  | S fuel =>
      ax ← get_ax;
      match ax_notified ax !! i with
      | None => mret tt
      | Some receiver => modify_ax (fun ax => set_receiver ax receiver (ax_privileged ax));; exec_one;; notify_loop fuel (S i)
      end
  end.

(** [exec] up to the inline actions: the queues it leaves. The turns are bounded by
    the number of accounts. *)
Definition exec_notified : M apply_state (list action * list action) :=
  modify_ax (fun ax => set_queues ax (ax_notified ax ++ [ax_receiver ax]) (ax_inline_actions ax) (ax_cfa_inline_actions ax));;
  exec_one;;
  db ← get_db;
  notify_loop (S (size (db_accounts db))) 1;;
  ax ← get_ax;
  M_ASSERT (bool_decide (ax_cfa_inline_actions ax = [] /\ ax_inline_actions ax = []) ||
            (ax_recurse_depth ax <? cc_max_inline_action_depth cfg)) transaction_exception;;
  mret (ax_cfa_inline_actions ax, ax_inline_actions ax).

(** A fresh context around the transaction. *)
Definition with_apply_ctx {A} (ax : apply_ctx) (m : M apply_state A) : M trx_state A := fun s =>
  let '(t, r) := m (mk_as s ax) in (as_ts t, r).

(** [dispatch_action]; [fuel] bounds the depth of inline actions. *)
Fixpoint dispatch_action (fuel : nat) (a : action) (receiver : account_name) (context_free : bool) (recurse_depth : Z) : M trx_state unit :=
  match fuel with
  | O => throw out_of_fuel
  | S fuel =>
      '(cfa, inline) ← with_apply_ctx (make_apply_ctx a receiver context_free recurse_depth) exec_notified;
      dispatch_all (fun b cf => dispatch_action fuel b (act_account b) cf (recurse_depth + 1)) true cfa;;
      dispatch_all (fun b cf => dispatch_action fuel b (act_account b) cf (recurse_depth + 1)) false inline
  end.

(** The actions of a transaction start at depth 0. *)
Definition inline_fuel : nat := S (Z.to_nat (cc_max_inline_action_depth cfg)).
Definition exec_transaction : M trx_state unit :=
  exec cv (fun a cf => dispatch_action inline_fuel a (act_account a) cf 0).

End Apply.
