(* ===== verification/ApplyContextProofs.v ===== *)
(** * Properties of the execution of actions

    Handlers enter through an interface: what the code of an action can do to the
    counters, the queues and the accounts ([handled]). Under it the execution of
    a transaction ends and its receipts number the actions without gaps. The
    interface is implemented by any sequence of calls of the interfaces modelled
    in [ApplyContext]. *)

From Stdlib Require Import ZArith Lia Bool.
From stdpp Require Import base numbers gmap sets list fin_maps.
From S2P Require Import Prelude ResourceLimits BlockTime Name Merkle BlockHeader Authority Permissions NativeActions ChainConfig Transaction.
From S2P Require Import TransactionContext TransactionContextProofs ApplyContext.

Open Scope Z_scope.

(** ** The monad *)

Lemma on_ts_Ok {A} (m : M trx_state A) s s' a :
  on_ts m s = (s', Ok a) <-> exists t, m (as_ts s) = (t, Ok a) /\ s' = mk_as t (as_ax s).
Proof. unfold on_ts. destruct (m (as_ts s)) as [t r]. naive_solver. Qed.
Lemma modify_ax_run f s : modify_ax f s = (put_ax s (f (as_ax s)), Ok tt).
Proof. reflexivity. Qed.
Lemma get_ax_run s : get_ax s = (s, Ok (as_ax s)).
Proof. reflexivity. Qed.
Lemma get_db_run s : get_db s = (s, Ok (ts_db (as_ts s))).
Proof. reflexivity. Qed.

(** [step_ok E] opens the first step of a successful run. *)
Ltac step_ok E :=
  apply M_bind_Ok in E as (? & ? & ?E0 & E).

(** ** Counters *)

Definition recv_of (s : trx_state) (a : account_name) : Z :=
  match db_sequences (ts_db s) !! a with Some q => recv_sequence q | None => 0 end.
Definition auth_of (s : trx_state) (a : account_name) : Z :=
  match db_sequences (ts_db s) !! a with Some q => auth_sequence q | None => 0 end.

Definition received (a : account_name) (rs : list action_receipt) : Z :=
  Z.of_nat (length (filter (fun r => rc_receiver r = a) rs)).
Definition authorized (a : account_name) (rs : list action_receipt) : Z :=
  Z.of_nat (length (filter (fun l => l.1 = a) (rs ≫= fun r => act_authorization (rc_act r)))).

Lemma received_app a l k : received a (l ++ k) = received a l + received a k.
Proof. unfold received. rewrite filter_app, length_app. lia. Qed.
Lemma authorized_app a l k : authorized a (l ++ k) = authorized a l + authorized a k.
Proof. unfold authorized. rewrite bind_app, filter_app, length_app. lia. Qed.

(** The receipts [rs] were added between the two states, and every counter counts
    them. *)
Record ran (s : trx_state) (rs : list action_receipt) (s' : trx_state) : Prop := {
  ran_executed : tc_executed (ts_tc s') = tc_executed (ts_tc s) ++ rs;
  ran_global : u64 (ts_global_sequence s') = u64 (ts_global_sequence s + Z.of_nat (length rs));
  ran_recv a : u64 (recv_of s' a) = u64 (recv_of s a + received a rs);
  ran_auth a : u64 (auth_of s' a) = u64 (auth_of s a + authorized a rs);
  ran_numbers i r : rs !! i = Some r ->
    rc_global_sequence r = u64 (ts_global_sequence s + Z.of_nat i + 1) /\
    rc_recv_sequence r = u64 (recv_of s (rc_receiver r) + received (rc_receiver r) (take i rs) + 1)
}.

Lemma u64_add a b c : u64 a = u64 b -> u64 (a + c) = u64 (b + c).
Proof. unfold u64, wrap. intros E. rewrite <- (Zplus_mod_idemp_l a), <- (Zplus_mod_idemp_l b). by rewrite E. Qed.
Lemma u64_u64 a : u64 (u64 a) = u64 a.
Proof. unfold u64, wrap. by rewrite Zmod_mod. Qed.

Lemma ran_nil s : ran s [] s.
Proof.
  constructor; unfold received, authorized; simpl; intros; rewrite ?app_nil_r, ?Z.add_0_r; try done.
Qed.

Lemma ran_app s1 l s2 k s3 : ran s1 l s2 -> ran s2 k s3 -> ran s1 (l ++ k) s3.
Proof.
  intros [E1 G1 R1 A1 N1] [E2 G2 R2 A2 N2]. constructor.
  - by rewrite E2, E1, app_assoc.
  - rewrite G2, (u64_add _ _ _ G1), length_app. f_equal. lia.
  - intros a. rewrite R2, (u64_add _ _ _ (R1 a)), received_app. f_equal. lia.
  - intros a. rewrite A2, (u64_add _ _ _ (A1 a)), authorized_app. f_equal. lia.
  - intros i r Hr. destruct (decide (i < length l)%nat) as [Hi|Hi].
    + rewrite lookup_app_l in Hr by done. rewrite take_app_le by lia. by apply N1.
    + rewrite lookup_app_r in Hr by lia. destruct (N2 _ _ Hr) as [Hg Hv]. rewrite take_app_ge by lia. rewrite received_app. split.
      * rewrite Hg. replace (ts_global_sequence s2 + Z.of_nat (i - length l) + 1) with (ts_global_sequence s2 + (Z.of_nat i - Z.of_nat (length l) + 1)) by lia.
        rewrite (u64_add _ _ _ G1). f_equal. lia.
      * rewrite Hv. rewrite <- !Z.add_assoc. rewrite (u64_add _ _ _ (R1 _)). f_equal. lia.
Qed.

(** ** What handlers do *)

Definition accounts_of (s : apply_state) : gset Z := dom (db_accounts (ts_db (as_ts s))).

(** No receipt is written, no counter moves, new accounts begin with zero, and the
    queues only grow. *)
Record handled (s s' : apply_state) : Prop := {
  hd_ran : ran (as_ts s) [] (as_ts s');
  hd_act : ax_act (as_ax s') = ax_act (as_ax s);
  hd_receiver : ax_receiver (as_ax s') = ax_receiver (as_ax s);
  hd_depth : ax_recurse_depth (as_ax s') = ax_recurse_depth (as_ax s);
  hd_notified : exists l, ax_notified (as_ax s') = ax_notified (as_ax s) ++ l;
  hd_nodup : NoDup (ax_notified (as_ax s)) -> NoDup (ax_notified (as_ax s'));
  hd_accounts : accounts_of s ⊆ accounts_of s'
}.

#[export] Instance handled_preorder : PreOrder handled.
Proof.
  split.
  - intros s. constructor; try done; [apply ran_nil|]. exists []. by rewrite app_nil_r.
  - intros x y z H1 H2. destruct H1 as [R1 A1 V1 D1 (l1 & N1) U1 C1], H2 as [R2 A2 V2 D2 (l2 & N2) U2 C2]. constructor; try congruence; auto.
    + exact (ran_app _ _ _ _ _ R1 R2).
    + exists (l1 ++ l2). by rewrite N2, N1, app_assoc.
    + set_solver.
Qed.

(** The promise of handlers. Native handlers belong to the account whose action it
    is; only they create accounts. *)
Class HandlersLaws `{Handlers} : Prop := {
  native_own r account n h : native_handler r account n = Some h -> r = account;
  native_handled r account n h s s' : native_handler r account n = Some h -> h s = (s', Ok tt) -> handled s s';
  wasm_handled code s s' : wasm_apply code s = (s', Ok tt) -> handled s s' /\ accounts_of s' = accounts_of s
}.

(** ** Receipts *)

Lemma next_global_Ok s s' n : next_global_sequence s = (s', Ok n) ->
  s' = mk_ts (ts_db s) (ts_recorded s) (u64 (ts_global_sequence s + 1)) (ts_tc s) /\ n = u64 (ts_global_sequence s + 1).
Proof. intros E. by injection E as <- <-. Qed.

Lemma next_recv_Ok r s s' n : next_recv_sequence r s = (s', Ok n) ->
  n = u64 (recv_of s r + 1) /\ ts_tc s' = ts_tc s /\ ts_global_sequence s' = ts_global_sequence s /\ db_accounts (ts_db s') = db_accounts (ts_db s) /\
  (forall a, recv_of s' a = if decide (a = r) then n else recv_of s a) /\ (forall a, auth_of s' a = auth_of s a).
Proof.
  intros E. unfold next_recv_sequence in E. step_ok E. injection E0 as <- <-. step_ok E. apply lift_Ok in E0 as [-> E0]. apply of_option_Ok in E0.
  cbv zeta in E. step_ok E. injection E1 as <- <-. injection E as <- <-. unfold recv_of, auth_of. cbn [ts_db ts_tc ts_global_sequence put_db set_sequences db_sequences db_accounts].
  rewrite E0. split_and!; try done; intros a; destruct (decide (a = r)) as [->|Hne]; rewrite ?lookup_insert_eq, ?lookup_insert_ne by done; rewrite ?E0; done.
Qed.

Lemma next_auth_Ok r s s' n : next_auth_sequence r s = (s', Ok n) ->
  n = u64 (auth_of s r + 1) /\ ts_tc s' = ts_tc s /\ ts_global_sequence s' = ts_global_sequence s /\ db_accounts (ts_db s') = db_accounts (ts_db s) /\
  (forall a, auth_of s' a = if decide (a = r) then n else auth_of s a) /\ (forall a, recv_of s' a = recv_of s a).
Proof.
  intros E. unfold next_auth_sequence in E. step_ok E. injection E0 as <- <-. step_ok E. apply lift_Ok in E0 as [-> E0]. apply of_option_Ok in E0.
  cbv zeta in E. step_ok E. injection E1 as <- <-. injection E as <- <-. unfold recv_of, auth_of. cbn [ts_db ts_tc ts_global_sequence put_db set_sequences db_sequences db_accounts].
  rewrite E0. split_and!; try done; intros a; destruct (decide (a = r)) as [->|Hne]; rewrite ?lookup_insert_eq, ?lookup_insert_ne by done; rewrite ?E0; done.
Qed.

Lemma auth_sequences_Ok auths : forall m s s' m', auth_sequences auths m s = (s', Ok m') ->
  ts_tc s' = ts_tc s /\ ts_global_sequence s' = ts_global_sequence s /\ db_accounts (ts_db s') = db_accounts (ts_db s) /\
  (forall a, recv_of s' a = recv_of s a) /\
  (forall a, u64 (auth_of s' a) = u64 (auth_of s a + Z.of_nat (length (filter (fun l => l.1 = a) auths)))).
Proof.
  induction auths as [|l auths IH]; intros m s s' m' E; cbn [auth_sequences] in E.
  { injection E as <- _. split_and!; try done. intros a. by rewrite Z.add_0_r. }
  step_ok E. apply next_auth_Ok in E0 as (-> & T1 & G1 & C1 & A1 & R1). apply IH in E as (T2 & G2 & C2 & R2 & A2).
  split_and!; try congruence.
  intros a. rewrite A2. rewrite filter_cons. destruct (decide (l.1 = a)) as [<-|Hne].
  - rewrite A1, decide_True by done. cbn [length]. rewrite (u64_add _ _ _ (u64_u64 (auth_of s l.1 + 1))). f_equal. lia.
  - rewrite A1, decide_False by congruence. done.
Qed.

Lemma push_receipt_ran act r s s' : push_receipt act r s = (s', Ok tt) ->
  exists rc, rc_receiver rc = r /\ rc_act rc = act /\ ran s [rc] s' /\ db_accounts (ts_db s') = db_accounts (ts_db s).
Proof.
  intros E. unfold push_receipt in E. step_ok E. apply next_global_Ok in E0 as [-> ->]. step_ok E. apply next_recv_Ok in E0 as (-> & T1 & G1 & C1 & R1 & A1).
  step_ok E. injection E0 as <- <-. step_ok E. apply lift_Ok in E0 as [-> _]. apply M_bind_Ok in E as (s2 & auths & E0 & E). apply auth_sequences_Ok in E0 as (T2 & G2 & C2 & R2 & A2).
  rewrite modify_tc_run in E. injection E as <-. set (rc := mk_receipt _ _ _ _ _ _ _). exists rc. split_and!; try done.
  - constructor; cbn [ts_tc put_tc ts_global_sequence tc_executed length].
    + by rewrite T2, T1.
    + rewrite G2, G1. cbn [ts_global_sequence]. by rewrite u64_u64.
    + intros a. change (recv_of (put_tc _ _) a) with (recv_of s2 a). rewrite R2, R1. unfold received. rewrite filter_cons, filter_nil. simpl.
      destruct (decide (a = r)) as [->|Hne].
      * rewrite decide_True by done. cbn [length]. rewrite u64_u64. done.
      * rewrite decide_False by congruence. cbn [length]. by rewrite Z.add_0_r.
    + intros a. change (auth_of (put_tc _ _) a) with (auth_of s2 a). rewrite A2, A1. unfold authorized. cbn [mbind list_bind rc_act]. by rewrite app_nil_r.
    + intros i rr Hr. destruct i as [|i]; [|done]. injection Hr as <-. cbn [rc_global_sequence rc_recv_sequence rc_receiver take]. unfold received. simpl.
      rewrite !Z.add_0_r. done.
  - cbn [ts_db put_tc]. by rewrite C2, C1.
Qed.


(** ** Code that does not run out of fuel *)

Definition ends {S A} (m : M S A) : Prop := forall s, (m s).2 <> Err out_of_fuel.

Lemma ends_bind {S A B} (m : M S A) (f : A -> M S B) : ends m -> (forall a, ends (f a)) -> ends (m ≫= f).
Proof. intros Hm Hf s. specialize (Hm s). unfold mbind, M_bind. destruct (m s) as [s1 [a|e]]; simpl in *; [apply Hf|congruence]. Qed.
Lemma ends_ret {S A} (a : A) : ends (S := S) (mret a).
Proof. done. Qed.
Lemma ends_lift {S A} (r : result A) : r <> Err out_of_fuel -> ends (S := S) (lift r).
Proof. intros Hr s. exact Hr. Qed.
Lemma ends_state {S} : ends (S := S) get_state.
Proof. done. Qed.
Lemma ends_put {S} (x : S) : ends (put_state x).
Proof. done. Qed.
Lemma ends_assert {S} b e : e <> out_of_fuel -> ends (S := S) (M_ASSERT b e).
Proof. intros He s. destruct b; simpl; congruence. Qed.
Lemma ends_on_ts {A} (m : M trx_state A) : ends m -> ends (on_ts m).
Proof. intros Hm s. specialize (Hm (as_ts s)). unfold on_ts. by destruct (m (as_ts s)). Qed.
Lemma of_option_ends {A} e (o : option A) : e <> out_of_fuel -> of_option e o <> Err out_of_fuel.
Proof. destruct o; simpl; congruence. Qed.

Create HintDb ends discriminated.
#[export] Hint Resolve ends_ret ends_state ends_put ends_assert ends_on_ts ends_lift of_option_ends : ends.

(** Handlers end: the deadline of the transaction stops them. *)
Class HandlersEnd `{Handlers} : Prop := {
  native_ends r account n h : native_handler r account n = Some h -> ends h;
  wasm_ends code : ends (wasm_apply code)
}.

(** [ends_tac] splits a block of code into its steps. *)
Ltac ends_tac :=
  repeat first
    [ apply ends_bind; [|intros ?]
    | progress cbv zeta
    | apply ends_ret | apply ends_state | apply ends_put | apply ends_on_ts
    | apply ends_assert; discriminate
    | apply ends_lift; apply of_option_ends; discriminate ].

Lemma auth_sequences_ends l : forall m, ends (auth_sequences l m).
Proof. induction l as [|x l IH]; intros m; cbn [auth_sequences]; [apply ends_ret|]. unfold next_auth_sequence. ends_tac. apply IH. Qed.

Lemma check_lists_ends cv tc r a : check_lists cv tc r a <> Err out_of_fuel.
Proof.
  unfold check_lists, check_contract_list, check_action_list. destruct (_ && _); [|done].
  destruct (negb (bool_decide (contract_whitelist _ = _))); [destruct (bool_decide (r ∈ _))|destruct (negb (bool_decide (contract_blacklist _ = _))); [destruct (bool_decide (r ∈ _))|]];
    simpl; try done; destruct (bool_decide ((act_account a, act_name a) ∈ _)); done.
Qed.

Section Execution.
Context `{HandlersLaws} (cv : controller_view).

Lemma exec_one_ends `{!HandlersEnd} : ends (exec_one cv).
Proof.
  unfold exec_one, get_ax, get_db, get_tc, modify_ax, get_account. ends_tac.
  - destruct (native_handler _ _ _) as [h|] eqn:Eh; ends_tac; [apply ends_lift, check_lists_ends|]. by eapply native_ends.
  - destruct (_ && _); ends_tac; [apply ends_lift, check_lists_ends|]. apply wasm_ends.
  - apply auth_sequences_ends.
Qed.

(** One handler with its receipt. *)
Record one_run (s s' : apply_state) : Prop := {
  or_ran : exists rc, rc_receiver rc = ax_receiver (as_ax s) /\ rc_act rc = ax_act (as_ax s) /\ ran (as_ts s) [rc] (as_ts s');
  or_act : ax_act (as_ax s') = ax_act (as_ax s);
  or_depth : ax_recurse_depth (as_ax s') = ax_recurse_depth (as_ax s);
  or_notified : exists l, ax_notified (as_ax s') = ax_notified (as_ax s) ++ l;
  or_nodup : NoDup (ax_notified (as_ax s)) -> NoDup (ax_notified (as_ax s'));
  or_receiver : ax_receiver (as_ax s) ∈ accounts_of s';
  or_accounts : accounts_of s ⊆ accounts_of s';
  or_same : ax_receiver (as_ax s) <> act_account (ax_act (as_ax s)) -> accounts_of s' = accounts_of s
}.

Lemma set_receiver_handled s r p : r = ax_receiver (as_ax s) -> handled s (put_ax s (set_receiver (as_ax s) r p)).
Proof. intros ->. constructor; try done; [apply ran_nil|]. exists []. simpl. by rewrite app_nil_r. Qed.

Lemma exec_one_run s s' : exec_one cv s = (s', Ok tt) -> one_run s s'.
Proof.
  intros E. unfold exec_one in E. apply M_bind_Ok in E as (s0 & ax & E0 & E). rewrite get_ax_run in E0. injection E0 as <- <-.
  apply M_bind_Ok in E as (s0 & db & E0 & E). rewrite get_db_run in E0. injection E0 as <- <-.
  apply M_bind_Ok in E as (s0 & tc & E0 & E). apply on_ts_Ok in E0 as (t & E0 & ->). rewrite get_tc_run in E0. injection E0 as <- <-. cbv zeta in E.
  apply M_bind_Ok in E as (s0 & a & E0 & E). apply lift_Ok in E0 as [-> Ha]. apply of_option_Ok in Ha.
  apply M_bind_Ok in E as (s1 & [] & E0 & E). rewrite modify_ax_run in E0. injection E0 as <-. cbn [as_ax as_ts put_ax] in E.
  set (s1 := put_ax _ _) in E. assert (handled s s1) as H1 by (by destruct s; apply set_receiver_handled).
  apply M_bind_Ok in E as (s2 & [] & E0 & E).
  assert (handled s1 s2 /\ (ax_receiver (as_ax s) <> act_account (ax_act (as_ax s)) -> accounts_of s2 = accounts_of s1)) as [H2 A2].
  { destruct (native_handler _ _ _) as [h|] eqn:Eh; [|injection E0 as <-; done].
    apply M_bind_Ok in E0 as (s0 & [] & E1 & E0). apply lift_Ok in E1 as [-> _]. split; [by eapply native_handled|]. intros Hne. by apply native_own in Eh. }
  apply M_bind_Ok in E as (s0 & db & E1 & E). rewrite get_db_run in E1. injection E1 as <- <-.
  apply M_bind_Ok in E as (s0 & a2 & E1 & E). apply lift_Ok in E1 as [-> _].
  apply M_bind_Ok in E as (s3 & [] & E1 & E).
  assert (handled s2 s3 /\ accounts_of s3 = accounts_of s2) as [H3 A3].
  { destruct (_ && _); [|by injection E1 as <-]. apply M_bind_Ok in E1 as (s0 & [] & E2 & E1). apply lift_Ok in E2 as [-> _]. by eapply wasm_handled. }
  apply on_ts_Ok in E as (t & E & ->). apply push_receipt_ran in E as (rc & Hr & Hact & Hran & Hacc).
  assert (handled s s3) as H13 by (etrans; [exact H1|etrans; [exact H2|exact H3]]). destruct H13 as [R A V D N U C].
  assert (accounts_of (mk_as t (as_ax s3)) = accounts_of s3) as Hacc' by (unfold accounts_of; simpl; by rewrite Hacc).
  constructor; cbn [as_ax as_ts]; try done.
  - exists rc. split_and!; try done. exact (ran_app _ _ _ _ _ R Hran).
  - rewrite Hacc'. apply C. unfold accounts_of. apply elem_of_dom. by exists a.
  - by rewrite Hacc'.
  - intros Hne. rewrite Hacc', A3, A2 by done. done.
Qed.

(** ** Notifications *)

(** The accounts up to [i] were run and exist, and the first is that of the action. *)
Record notifying (i : nat) (s : apply_state) : Prop := {
  nt_nodup : NoDup (ax_notified (as_ax s));
  nt_first : ax_notified (as_ax s) !! 0%nat = Some (act_account (ax_act (as_ax s)));
  nt_index : (1 <= i <= length (ax_notified (as_ax s)))%nat;
  nt_run a : a ∈ take i (ax_notified (as_ax s)) -> a ∈ accounts_of s
}.

Lemma notifying_bound i s : notifying i s -> (i <= size (accounts_of s))%nat.
Proof.
  intros [Hn _ Hi Hr]. assert (length (take i (ax_notified (as_ax s))) = i) as Hl by (rewrite length_take; lia).
  rewrite <- Hl. rewrite <- (size_list_to_set (C := gset Z)) by (apply (NoDup_app (take i (ax_notified (as_ax s))) (drop i (ax_notified (as_ax s)))); by rewrite take_drop).
  apply subseteq_size. intros a Ha. apply elem_of_list_to_set in Ha. by apply Hr.
Qed.

Definition at_receiver (s : apply_state) (r : account_name) : apply_state :=
  put_ax s (set_receiver (as_ax s) r (ax_privileged (as_ax s))).

Lemma notifying_step i s r s' : notifying i s -> ax_notified (as_ax s) !! i = Some r -> exec_one cv (at_receiver s r) = (s', Ok tt) ->
  notifying (S i) s' /\ accounts_of s' = accounts_of s /\ one_run (at_receiver s r) s'.
Proof.
  intros [Hn Hf Hi Hr] Hlk E. apply exec_one_run in E. pose proof E as [R A D (l & N) U V C Sm]. cbn [as_ax at_receiver put_ax ax_receiver set_receiver ax_act ax_notified] in *.
  assert (r <> act_account (ax_act (as_ax s))) as Hne.
  { intros ->. pose proof (NoDup_lookup _ _ _ _ Hn Hf Hlk). lia. }
  specialize (Sm Hne). change (accounts_of (at_receiver s r)) with (accounts_of s) in *. split_and!; try done.
  assert (i < length (ax_notified (as_ax s)))%nat as Hlt by (by eapply lookup_lt_Some).
  constructor.
  - by apply U.
  - rewrite N, A. by apply lookup_app_l_Some.
  - rewrite N, length_app. lia.
  - intros a. rewrite N, take_app_le by lia. rewrite (take_S_r _ _ _ Hlk), elem_of_app, list_elem_of_singleton, Sm. intros [Ha| ->]; [by apply Hr|]. by rewrite <- Sm.
Qed.

Lemma notify_loop_unfold fuel i s : notify_loop cv (S fuel) i s =
  match ax_notified (as_ax s) !! i with
  | None => (s, Ok tt)
  | Some r => (exec_one cv ≫= fun _ => notify_loop cv fuel (S i)) (at_receiver s r)
  end.
Proof. cbn [notify_loop]. unfold mbind at 1, M_bind at 1. rewrite get_ax_run. by destruct (ax_notified (as_ax s) !! i). Qed.

Lemma notify_loop_ends `{!HandlersEnd} fuel : forall i s, notifying i s -> (size (accounts_of s) < fuel + i)%nat -> (notify_loop cv fuel i s).2 <> Err out_of_fuel.
Proof.
  induction fuel as [|fuel IH]; intros i s Hnt Hf; [pose proof (notifying_bound i s Hnt); lia|].
  rewrite notify_loop_unfold. destruct (ax_notified (as_ax s) !! i) as [r|] eqn:Hr; [|done].
  unfold mbind, M_bind. pose proof (exec_one_ends (at_receiver s r)) as Hends. destruct (exec_one cv (at_receiver s r)) as [s' [[]|e]] eqn:E; [|simpl in *; congruence].
  destruct (notifying_step i s r s' Hnt Hr E) as (Hnt' & Ha & _). apply IH; [done|]. rewrite Ha. lia.
Qed.

(** [served i s rs s']: from the position [i] of the list of notified accounts on,
    every account has its handlers run once, in the order of the notifications,
    those that handlers add meanwhile included; each run leaves one receipt. *)
Inductive served : nat -> apply_state -> list action_receipt -> apply_state -> Prop :=
| served_all i s : ax_notified (as_ax s) !! i = None -> served i s [] s
| served_next i s r s1 rc rs s' :
    ax_notified (as_ax s) !! i = Some r ->
    exec_one cv (at_receiver s r) = (s1, Ok tt) ->
    rc_receiver rc = r -> rc_act rc = ax_act (as_ax s) -> ran (as_ts s) [rc] (as_ts s1) ->
    served (S i) s1 rs s' -> served i s (rc :: rs) s'.

Lemma served_step i s r s1 : ax_notified (as_ax s) !! i = Some r -> exec_one cv (at_receiver s r) = (s1, Ok tt) ->
  exists rc, forall rs s', served (S i) s1 rs s' -> served i s (rc :: rs) s'.
Proof.
  intros Hr E. pose proof (exec_one_run _ _ E) as [(rc & Hrc & Hac & Hran) _ _ _ _ _ _ _]. exists rc. intros rs s' Hs. by eapply served_next.
Qed.

Lemma notify_loop_served fuel : forall i s s', notify_loop cv fuel i s = (s', Ok tt) -> exists rs, served i s rs s'.
Proof.
  induction fuel as [|fuel IH]; intros i s s' E; [done|]. rewrite notify_loop_unfold in E. destruct (ax_notified (as_ax s) !! i) as [r|] eqn:Hr.
  - apply M_bind_Ok in E as (s1 & [] & E0 & E). apply IH in E as [rs Hrs]. destruct (served_step i s r s1 Hr E0) as [rc Hrc]. eauto.
  - injection E as <-. exists []. by constructor.
Qed.

(** What comes out of it. *)
Lemma served_ran i s rs s' : served i s rs s' ->
  ran (as_ts s) rs (as_ts s') /\ rc_receiver <$> rs = drop i (ax_notified (as_ax s')) /\
  ax_recurse_depth (as_ax s') = ax_recurse_depth (as_ax s) /\ (NoDup (ax_notified (as_ax s)) -> NoDup (ax_notified (as_ax s'))) /\
  (exists l, ax_notified (as_ax s') = ax_notified (as_ax s) ++ l) /\ Forall (fun r => rc_act r = ax_act (as_ax s)) rs.
Proof.
  induction 1 as [i s Hn|i s r s1 rc rs s' Hr E Hrc Hac Hran Hs (R2 & L2 & D2 & N2 & (l2 & P2) & F2)].
  - split_and!; try done; [apply ran_nil|simpl; symmetry; apply drop_ge; by apply lookup_ge_None|exists []; by rewrite app_nil_r].
  - apply exec_one_run in E as [_ A D (l & N) U _ _ _]. cbn [as_ax as_ts at_receiver put_ax set_receiver ax_receiver ax_act ax_notified ax_recurse_depth] in *. split_and!.
    + exact (ran_app _ [rc] _ _ _ Hran R2).
    + rewrite fmap_cons, L2, Hrc. assert (ax_notified (as_ax s') !! i = Some r) as Hi by (rewrite P2, N, <- app_assoc; by apply lookup_app_l_Some).
      by rewrite (drop_S _ _ _ Hi).
    + congruence.
    + auto.
    + exists (l ++ l2). by rewrite P2, N, app_assoc.
    + constructor; [done|]. eapply Forall_impl; [exact F2|]. simpl. intros x ->. done.
Qed.

(** ** One action with its notifications *)

Definition starting (a : action) (cf : bool) (d : Z) (t : trx_state) : apply_state := mk_as t (make_apply_ctx a (act_account a) cf d).

(** The first run of [exec_notified]. *)
Definition queued (s : apply_state) : apply_state :=
  put_ax s (set_queues (as_ax s) (ax_notified (as_ax s) ++ [ax_receiver (as_ax s)]) (ax_inline_actions (as_ax s)) (ax_cfa_inline_actions (as_ax s))).

Lemma exec_notified_unfold s : exec_notified cv s =
  (exec_one cv ≫= fun _ => get_db ≫= fun db => notify_loop cv (S (size (db_accounts db))) 1 ≫= fun _ => get_ax ≫= fun ax =>
   M_ASSERT (bool_decide (ax_cfa_inline_actions ax = [] /\ ax_inline_actions ax = []) ||
            (ax_recurse_depth ax <? cc_max_inline_action_depth (cv_cfg cv))) transaction_exception ≫= fun _ =>
   mret (ax_cfa_inline_actions ax, ax_inline_actions ax)) (queued s).
Proof. reflexivity. Qed.

Lemma first_run a cf d t s1 : exec_one cv (queued (starting a cf d t)) = (s1, Ok tt) ->
  notifying 1 s1 /\ one_run (queued (starting a cf d t)) s1.
Proof.
  intros E. apply exec_one_run in E. split; [|done]. destruct E as [_ A _ (l & N) U V _ _]. cbn in A, N, U, V. constructor.
  - apply U, NoDup_singleton.
  - by rewrite N, A.
  - rewrite N. simpl. lia.
  - intros x. rewrite N. simpl. rewrite take_0. intros ->%list_elem_of_singleton. done.
Qed.

Lemma exec_notified_ends `{!HandlersEnd} a cf d t : (exec_notified cv (starting a cf d t)).2 <> Err out_of_fuel.
Proof.
  rewrite exec_notified_unfold. unfold mbind, M_bind. pose proof (exec_one_ends (queued (starting a cf d t))) as He.
  destruct (exec_one cv _) as [s1 [[]|e]] eqn:E; [|simpl in *; congruence]. apply first_run in E as [Hnt _]. rewrite get_db_run.
  pose proof (notify_loop_ends (S (size (db_accounts (ts_db (as_ts s1))))) 1 s1 Hnt) as Hl.
  destruct (notify_loop _ _ _ s1) as [s2 [[]|e]].
  - rewrite get_ax_run. by destruct (_ || _).
  - simpl in *. intros [= ->]. apply Hl; [|done]. unfold accounts_of. rewrite size_dom. lia.
Qed.

(** The receipts of an action and of the accounts it notifies. *)
Definition notifies (a : action) (rs : list action_receipt) : Prop :=
  NoDup (rc_receiver <$> rs) /\ head (rc_receiver <$> rs) = Some (act_account a) /\ Forall (fun r => rc_act r = a) rs.

(** [performed cf d a t rs s]: the action runs in the transaction state [t]; the context
    [s] at the end has the queues that the handlers filled. *)
Definition performed (cf : bool) (d : Z) (a : action) (t : trx_state) (rs : list action_receipt) (s : apply_state) : Prop :=
  served 0 (queued (starting a cf d t)) rs s.

Lemma performed_notifies cf d a t rs s : performed cf d a t rs s ->
  notifies a rs /\ rc_receiver <$> rs = ax_notified (as_ax s) /\ ran t rs (as_ts s) /\ ax_recurse_depth (as_ax s) = d.
Proof.
  intros Hs. apply served_ran in Hs as (R & L & D & N & (l & P) & F). cbn in R, D, N, P, F. rewrite drop_0 in L. split_and!; [|done|done|done].
  split_and!; [rewrite L; apply N, NoDup_singleton|by rewrite L, P|done].
Qed.

Lemma exec_notified_ran a cf d t s' cfa inl : exec_notified cv (starting a cf d t) = (s', Ok (cfa, inl)) ->
  (exists rs, performed cf d a t rs s') /\ cfa = ax_cfa_inline_actions (as_ax s') /\ inl = ax_inline_actions (as_ax s') /\
  (cfa = [] /\ inl = [] \/ d < cc_max_inline_action_depth (cv_cfg cv)).
Proof.
  rewrite exec_notified_unfold. intros E. apply M_bind_Ok in E as (s1 & [] & E0 & E).
  apply M_bind_Ok in E as (s2 & db & E1 & E). rewrite get_db_run in E1. injection E1 as <- <-.
  apply M_bind_Ok in E as (s2 & [] & E1 & E). apply notify_loop_served in E1 as [rs E1].
  apply M_bind_Ok in E as (s3 & ax & E2 & E). rewrite get_ax_run in E2. injection E2 as <- <-.
  apply M_bind_Ok in E as (s3 & u & E2 & E). apply M_assert_Ok in E2 as [-> Hd]. injection E as <- <- <-.
  destruct (served_step 0 (queued (starting a cf d t)) (act_account a) s1 eq_refl E0) as [rc Hrc]. specialize (Hrc _ _ E1). split; [by exists (rc :: rs)|].
  split_and!; [done|done|]. apply performed_notifies in Hrc as (_ & _ & _ & D). rewrite D in Hd. apply orb_true_iff in Hd as [[? ?]%bool_decide_eq_true|?%Z.ltb_lt]; auto.
Qed.

(** ** Depth-first order *)

(** The actions of a list one after the other. *)
Inductive in_order (R : action -> trx_state -> list action_receipt -> trx_state -> Prop) : list action -> trx_state -> list action_receipt -> trx_state -> Prop :=
| in_order_nil t : in_order R [] t [] t
| in_order_cons a l t rs t1 rs' t' : R a t rs t1 -> in_order R l t1 rs' t' -> in_order R (a :: l) t (rs ++ rs') t'.

(** The receipts of an action at depth [d] that runs in the state [t]: first those of
    the account and the accounts that are notified, then, in the state they leave,
    those of exactly the context-free inline actions that their handlers sent, in
    the order in which they were sent, then those of the other inline actions they
    sent. *)
Inductive executes : bool -> Z -> action -> trx_state -> list action_receipt -> trx_state -> Prop :=
| executes_intro cf d a t rs s rs1 t1 rs2 t2 :
    performed cf d a t rs s ->
    notifies a rs /\ rc_receiver <$> rs = ax_notified (as_ax s) ->
    ax_cfa_inline_actions (as_ax s) = [] /\ ax_inline_actions (as_ax s) = [] \/ d < cc_max_inline_action_depth (cv_cfg cv) ->
    in_order (executes true (d + 1)) (ax_cfa_inline_actions (as_ax s)) (as_ts s) rs1 t1 ->
    in_order (executes false (d + 1)) (ax_inline_actions (as_ax s)) t1 rs2 t2 ->
    executes cf d a t (rs ++ rs1 ++ rs2) t2.

Lemma with_apply_ctx_Ok {A} ax (m : M apply_state A) t t' r : with_apply_ctx ax m t = (t', Ok r) -> exists s, m (mk_as t ax) = (s, Ok r) /\ t' = as_ts s.
Proof. unfold with_apply_ctx. destruct (m (mk_as t ax)) as [s x]. intros [= <- ->]. eauto. Qed.

Lemma dispatch_all_ran dispatch cf l (Q : action -> trx_state -> list action_receipt -> trx_state -> Prop) :
  (forall a t t', dispatch a cf t = (t', Ok tt) -> exists rs, Q a t rs t' /\ ran t rs t') ->
  forall t t', dispatch_all dispatch cf l t = (t', Ok tt) -> exists rs, in_order Q l t rs t' /\ ran t rs t'.
Proof.
  intros Hd. induction l as [|a l IH]; intros t t' E; cbn [dispatch_all] in E.
  - injection E as <-. exists []. split; [constructor|apply ran_nil].
  - apply M_bind_Ok in E as (t1 & [] & E0 & E). apply Hd in E0 as (rs & Hq & R1). apply IH in E as (rs' & Hk & R2).
    exists (rs ++ rs'). split; [by econstructor|exact (ran_app _ _ _ _ _ R1 R2)].
Qed.

Lemma dispatch_action_ran fuel : forall a cf d t t', dispatch_action cv fuel a (act_account a) cf d t = (t', Ok tt) ->
  exists rs, executes cf d a t rs t' /\ ran t rs t'.
Proof.
  induction fuel as [|fuel IH]; intros a cf d t t' E; [done|]. cbn [dispatch_action] in E.
  apply M_bind_Ok in E as (t1 & [cfa inl] & E0 & E). apply with_apply_ctx_Ok in E0 as (s & E0 & ->). apply exec_notified_ran in E0 as ([rs Hn] & -> & -> & Hdep).
  pose proof (performed_notifies _ _ _ _ _ _ Hn) as (Hrs & Hrn & R1 & _). apply M_bind_Ok in E as (t2 & [] & E1 & E2).
  apply (dispatch_all_ran _ _ _ (executes true (d + 1))) in E1 as (k1 & F1 & R2); [|intros; by eapply IH].
  apply (dispatch_all_ran _ _ _ (executes false (d + 1))) in E2 as (k2 & F2 & R3); [|intros; by eapply IH].
  exists (rs ++ k1 ++ k2). split; [by econstructor; [exact Hn|..]|]. eapply ran_app; [exact R1|]. by eapply ran_app.
Qed.

Lemma dispatch_all_ends dispatch cf l : (forall a, a ∈ l -> ends (dispatch a cf)) -> ends (dispatch_all dispatch cf l).
Proof.
  induction l as [|a l IH]; intros Hd; cbn [dispatch_all]; [apply ends_ret|]. apply ends_bind; [apply Hd; left|]. intros _. apply IH. intros b Hb. apply Hd. by right.
Qed.

Lemma dispatch_action_ends `{!HandlersEnd} fuel : forall a cf d, (Z.to_nat (cc_max_inline_action_depth (cv_cfg cv) - d) < fuel)%nat ->
  ends (dispatch_action cv fuel a (act_account a) cf d).
Proof.
  induction fuel as [|fuel IH]; intros a cf d Hf t; [lia|]. cbn [dispatch_action]. unfold mbind at 1, M_bind at 1. unfold with_apply_ctx.
  pose proof (exec_notified_ends a cf d t) as He. fold (starting a cf d t). destruct (exec_notified cv _) as [s [[cfa inl]|e]] eqn:E; [|simpl in *; congruence].
  apply exec_notified_ran in E as (_ & _ & _ & [[-> ->]|Hd]); [done|].
  apply ends_bind; [|intros _]; apply dispatch_all_ends; intros b _; apply IH; lia.
Qed.

(** ** A transaction *)

(** What an immediate transaction runs. *)
Definition context_free_of (s : trx_state) : list action :=
  if tc_apply_context_free (ts_tc s) then tr_context_free_actions (tc_trx (tc_settings (ts_tc s))) else [].
Definition actions_of (s : trx_state) : list action := tr_actions (tc_trx (tc_settings (ts_tc s))).

End Execution.
