(* ===== verification/ApplyRuns.v ===== *)
(** * Transactions and the actions they send

    What a contract can ask of the chain ([host_call]) satisfies the interface of
    handlers; the actions it sends were authorized; the execution of a transaction
    ends and numbers its receipts in depth-first order. *)

From Stdlib Require Import ZArith Lia Bool.
From stdpp Require Import base numbers gmap sets list fin_maps.
From S2P Require Import Prelude ResourceLimits BlockTime Name Merkle BlockHeader Authority AuthorityProofs Permissions PermissionsProofs.
From S2P Require Import NativeActions NativeActionsProofs NativeRam NativeRuns ChainConfig Transaction TransactionProofs TransactionContext.
From S2P Require Import TransactionContextProofs TransactionRuns ApplyContext ApplyContextProofs.

Open Scope Z_scope.

(** ** Quiet steps *)

(** A step that writes no receipt, moves no counter and creates no account. *)
Record quiet (s s' : trx_state) : Prop := {
  qt_executed : tc_executed (ts_tc s') = tc_executed (ts_tc s);
  qt_global : ts_global_sequence s' = ts_global_sequence s;
  qt_sequences : db_sequences (ts_db s') = db_sequences (ts_db s);
  qt_accounts : db_accounts (ts_db s') = db_accounts (ts_db s)
}.

#[export] Instance quiet_preorder : PreOrder quiet.
Proof. split; [done|]. intros x y z [] []. constructor; congruence. Qed.

Lemma quiet_ran s s' : quiet s s' -> ran s [] s'.
Proof.
  intros [E G Q _]. constructor; unfold recv_of, auth_of, received, authorized; simpl; intros; rewrite ?E, ?G, ?Q, ?app_nil_r, ?Z.add_0_r; done.
Qed.

(** A step of a contract. *)
Definition calm (s s' : apply_state) : Prop := handled s s' /\ accounts_of s' = accounts_of s.

#[export] Instance calm_preorder : PreOrder calm.
Proof. split; [by split|]. intros x y z [H1 A1] [H2 A2]. split; [by etrans|congruence]. Qed.

Lemma on_ts_calm {A} (m : M trx_state A) s s' a : (forall t, m (as_ts s) = (t, Ok a) -> quiet (as_ts s) t) -> on_ts m s = (s', Ok a) -> calm s s'.
Proof.
  intros Hm E. apply on_ts_Ok in E as (t & E & ->). apply Hm in E. split.
  - constructor; try done; [by apply quiet_ran|exists []; by rewrite app_nil_r|]. unfold accounts_of. simpl. by rewrite (qt_accounts _ _ E).
  - unfold accounts_of. simpl. by rewrite (qt_accounts _ _ E).
Qed.

Lemma queues_calm s notified inl cfa : (exists l, notified = ax_notified (as_ax s) ++ l) -> (NoDup (ax_notified (as_ax s)) -> NoDup notified) ->
  calm s (put_ax s (set_queues (as_ax s) notified inl cfa)).
Proof. intros Hl Hn. split; [|done]. by constructor; try done; [apply ran_nil]. Qed.

Lemma used_calm s used : calm s (put_ax s (set_used (as_ax s) used)).
Proof. split; [|done]. constructor; try done; [apply ran_nil|]. exists []. simpl. by rewrite app_nil_r. Qed.

Section Quiet.
Context (cv : controller_view).

Lemma on_db_quiet f s s' : (forall db, f (ts_db s) = Ok db -> db_sequences db = db_sequences (ts_db s) /\ db_accounts db = db_accounts (ts_db s)) ->
  on_db f s = (s', Ok tt) -> quiet s s'.
Proof. intros Hf E. apply on_db_Ok in E as (db & E & ->). apply Hf in E as [? ?]. by constructor. Qed.

Lemma tc_add_ram_usage_quiet a d s s' : tc_add_ram_usage a d s = (s', Ok tt) -> quiet s s'.
Proof.
  intros E. unfold tc_add_ram_usage in E. apply M_bind_Ok in E as (s1 & [] & E0 & E). transitivity s1.
  - eapply on_db_quiet; [|exact E0]. intros db E1. unfold NativeActions.add_ram_usage in E1. apply bind_Ok in E1 as (rl & _ & E1). by injection E1 as <-.
  - destruct (0 <? d); [rewrite modify_tc_run in E|]; injection E as <-; done.
Qed.

Lemma add_net_usage_quiet u s s' : add_net_usage cv u s = (s', Ok tt) -> quiet s s'.
Proof. intros E. apply add_net_usage_Ok in E as [-> _]. done. Qed.

Lemma create_generated_quiet i g s s' : create_generated i g s = (s', Ok tt) -> quiet s s'.
Proof.
  apply on_db_quiet. intros db E. apply bind_Ok in E as (? & _ & E). apply bind_Ok in E as (? & _ & E). by injection E as <-.
Qed.

End Quiet.

(** ** What a contract can ask *)

Inductive host_call :=
| hc_require_auth (account : account_name)
| hc_notify (recipient : account_name)
| hc_inline (a : action)
| hc_context_free (a : action)
| hc_deferred (sender_id : Z) (payer : account_name) (trx : transaction) (replace_existing : bool)
| hc_cancel (sender_id : Z).

Section Calls.
Context `{Crypto} `{MetaOrder} `{ActionData} `{TransactionData} (cv : controller_view).

Definition run_call (c : host_call) : M apply_state unit :=
  match c with
  | hc_require_auth account => ax_require_authorization account
  | hc_notify recipient => require_recipient recipient
  | hc_inline a => execute_inline cv a
  | hc_context_free a => execute_context_free_inline a
  | hc_deferred sender_id payer trx replace_existing => schedule_deferred_transaction cv sender_id payer trx replace_existing
  | hc_cancel sender_id => ax_cancel_deferred sender_id;; mret tt
  end.

Fixpoint run_calls (cs : list host_call) : M apply_state unit :=
  match cs with [] => mret tt | c :: cs => run_call c;; run_calls cs end.

Lemma require_authorization_calm a s s' : ax_require_authorization a s = (s', Ok tt) -> calm s s'.
Proof.
  intros E. unfold ax_require_authorization in E. apply M_bind_Ok in E as (s1 & ax & E0 & E). rewrite get_ax_run in E0. injection E0 as <- <-.
  destruct (list_find _ _) as [[i x]|]; [|done]. rewrite modify_ax_run in E. injection E as <-. apply used_calm.
Qed.

Lemma require_recipient_calm r s s' : require_recipient r s = (s', Ok tt) -> calm s s'.
Proof.
  intros E. unfold require_recipient in E. rewrite modify_ax_run in E. injection E as <-. unfold has_recipient. case_bool_decide as Hr.
  - by destruct s.
  - apply queues_calm; [by eexists|]. intros Hn. apply NoDup_app. split_and!; [done| |apply NoDup_singleton]. intros x Hx ->%list_elem_of_singleton. done.
Qed.

(** [execute_inline] queues the action after its checks. *)
Lemma execute_inline_Ok a s s' : execute_inline cv a s = (s', Ok tt) ->
  let ax := as_ax s in
  let db := ts_db (as_ts s) in
  let inherit := (act_account a =? ax_receiver ax) && (ax_receiver ax =? act_account (ax_act ax)) && producing_block cv in
  s' = put_ax s (set_queues ax (ax_notified ax) (ax_inline_actions ax ++ [a]) (ax_cfa_inline_actions ax)) /\
  is_Some (db_accounts db !! act_account a) /\
  check_all (check_inline_authorizer db) (act_authorization a) = Ok tt /\
  (negb (auth_skipped cv) && negb (ax_privileged ax) = true ->
   tolerate_self cv (act_account a =? ax_receiver ax)
     (check_authorization (db_auth db) (db_generated db) (auth_cfg cv) [a] [] [code_level (ax_receiver ax)]
        (cv_pending_block_time cv - tc_published (ts_tc (as_ts s))) false
        (if inherit then filter (fun auth => auth ∈ act_authorization (ax_act ax)) (act_authorization a) else [])) = Ok tt).
Proof.
  intros E. unfold execute_inline in E. cbv zeta. apply M_bind_Ok in E as (s1 & ax & E0 & E). rewrite get_ax_run in E0. injection E0 as <- <-.
  apply M_bind_Ok in E as (s1 & db & E0 & E). rewrite get_db_run in E0. injection E0 as <- <-.
  apply M_bind_Ok in E as (s1 & tc & E0 & E). apply on_ts_Ok in E0 as (t & E0 & ->). rewrite get_tc_run in E0. injection E0 as <- <-.
  apply M_bind_Ok in E as (s1 & u & E0 & E). apply M_assert_Ok in E0 as [-> Ha]. apply bool_decide_eq_true in Ha. cbv zeta in E.
  apply M_bind_Ok in E as (s1 & u1 & E0 & E). apply lift_Ok in E0 as [-> Hc]. destruct u1.
  apply M_bind_Ok in E as (s1 & [] & E0 & E). assert (s1 = mk_as (as_ts s) (as_ax s)) as ->.
  { destruct (_ && _) in E0; [by apply lift_Ok in E0 as [-> _]|by injection E0 as <-]. }
  clear E0. apply M_bind_Ok in E as (s1 & [] & E0 & E). rewrite modify_ax_run in E. injection E as <-.
  destruct (_ && negb (ax_privileged _)).
  - apply lift_Ok in E0 as [-> E0]. by destruct s.
  - injection E0 as <-. by destruct s.
Qed.

Lemma execute_inline_calm a s s' : execute_inline cv a s = (s', Ok tt) -> calm s s'.
Proof. intros E. apply execute_inline_Ok in E as [-> _]. apply queues_calm; [|done]. exists []. by rewrite app_nil_r. Qed.

Lemma execute_context_free_calm a s s' : execute_context_free_inline a s = (s', Ok tt) -> calm s s'.
Proof.
  intros E. unfold execute_context_free_inline in E. apply M_bind_Ok in E as (s1 & db & E0 & E). rewrite get_db_run in E0. injection E0 as <- <-.
  apply M_bind_Ok in E as (s1 & u & E0 & E). apply M_assert_Ok in E0 as [-> _]. apply M_bind_Ok in E as (s1 & u1 & E0 & E). apply M_assert_Ok in E0 as [-> _].
  rewrite modify_ax_run in E. injection E as <-. apply queues_calm; [|done]. exists []. by rewrite app_nil_r.
Qed.

Lemma set_generated_calm g s s' : on_ts (on_db (fun db => mret (set_generated db (g db)))) s = (s', Ok tt) -> calm s s'.
Proof. apply on_ts_calm. intros t. apply on_db_quiet. intros db E. by injection E as <-. Qed.

Lemma ram_calm a d s s' : on_ts (tc_add_ram_usage a d) s = (s', Ok tt) -> calm s s'.
Proof. apply on_ts_calm. intros t. apply tc_add_ram_usage_quiet. Qed.

Lemma cancel_deferred_calm i s s' b : ax_cancel_deferred i s = (s', Ok b) -> calm s s'.
Proof.
  intros E. unfold ax_cancel_deferred in E. apply M_bind_Ok in E as (s1 & ax & E0 & E). rewrite get_ax_run in E0. injection E0 as <- <-.
  apply M_bind_Ok in E as (s1 & db & E0 & E). rewrite get_db_run in E0. injection E0 as <- <-.
  destruct (by_sender_id _ _ _) as [[k g]|]; [|by injection E as <-].
  apply M_bind_Ok in E as (s1 & [] & E0 & E). apply M_bind_Ok in E as (s2 & [] & E1 & E). injection E as <- _.
  transitivity s1; [by eapply ram_calm|eapply set_generated_calm; exact E1].
Qed.

Lemma store_deferred_calm r i p t b s s' n : store_deferred cv r i p t b s = (s', Ok n) -> calm s s'.
Proof.
  intros E. unfold store_deferred in E. cbv zeta in E. apply M_bind_Ok in E as (s1 & db & E0 & E). rewrite get_db_run in E0. injection E0 as <- <-.
  apply M_bind_Ok in E as (s1 & [] & E0 & E). injection E as <- _. destruct (by_sender_id _ _ _) as [[k g]|].
  - apply M_bind_Ok in E0 as (s2 & u & E1 & E0). apply M_assert_Ok in E1 as [-> _]. apply M_bind_Ok in E0 as (s3 & [] & E1 & E0).
    transitivity s3; [by eapply ram_calm|eapply set_generated_calm; exact E0].
  - eapply on_ts_calm; [|exact E0]. intros t1. apply create_generated_quiet.
Qed.

Definition generated_of (s : apply_state) : gmap digest generated_transaction_object := db_generated (ts_db (as_ts s)).

Lemma ram_generated a d s s' : on_ts (tc_add_ram_usage a d) s = (s', Ok tt) -> generated_of s' = generated_of s.
Proof.
  intros E. apply on_ts_Ok in E as (t & E & ->). unfold tc_add_ram_usage in E. apply M_bind_Ok in E as (s1 & [] & E0 & E).
  apply on_db_Ok in E0 as (db & E0 & ->). unfold NativeActions.add_ram_usage in E0. apply bind_Ok in E0 as (rl & _ & E0). injection E0 as <-.
  destruct (0 <? d); [rewrite modify_tc_run in E|]; injection E as <-; done.
Qed.

(** The row of a deferred transaction. *)
Definition deferred_row (receiver : account_name) (sender_id : Z) (payer : account_name) (trx : transaction) : generated_transaction_object :=
  mk_generated receiver sender_id payer (cv_pending_block_time cv + tr_delay_sec trx * 1000000)
    (cv_pending_block_time cv + tr_delay_sec trx * 1000000 + cc_deferred_trx_expiration_window (cv_cfg cv) * 1000000)
    (cv_pending_block_time cv) (pack_transaction trx).

(** It is written under the id of the transaction, which no other row has, or in
    place of the row of the sender with the same sender id. *)
Definition row_written (receiver : account_name) (sender_id : Z) (payer : account_name) (trx : transaction) (replace : bool) (s s' : apply_state) : Prop :=
  match by_sender_id (ts_db (as_ts s)) receiver sender_id with
  | Some (old_id, _) => replace = true /\ generated_of s' = <[old_id := deferred_row receiver sender_id payer trx]> (generated_of s)
  | None => generated_of s !! hash_transaction trx = None /\ generated_of s' = <[hash_transaction trx := deferred_row receiver sender_id payer trx]> (generated_of s)
  end.

Lemma row_written_some r i p t b s s' : row_written r i p t b s s' -> exists k, generated_of s' = <[k := deferred_row r i p t]> (generated_of s).
Proof. unfold row_written. destruct (by_sender_id _ _ _) as [[k ?]|]; intros [_ ->]; eauto. Qed.

Lemma store_deferred_row r i p t b s s' n : store_deferred cv r i p t b s = (s', Ok n) -> row_written r i p t b s s'.
Proof.
  intros E. unfold store_deferred in E. cbv zeta in E. apply M_bind_Ok in E as (s1 & db & E0 & E). rewrite get_db_run in E0. injection E0 as <- <-.
  apply M_bind_Ok in E as (s1 & [] & E0 & E). injection E as <- _. unfold row_written. destruct (by_sender_id _ _ _) as [[k g]|].
  - apply M_bind_Ok in E0 as (s2 & u & E1 & E0). apply M_assert_Ok in E1 as [-> Hb]. apply M_bind_Ok in E0 as (s3 & [] & E1 & E0). apply ram_generated in E1.
    apply on_ts_Ok in E0 as (t1 & E0 & ->). apply on_db_Ok in E0 as (db & E0 & ->). injection E0 as <-. split; [done|].
    unfold generated_of in *. simpl. by rewrite E1.
  - apply on_ts_Ok in E0 as (t1 & E0 & ->). apply on_db_Ok in E0 as (db & E0 & ->). apply bind_Ok in E0 as ([] & Hn & E0). apply bind_Ok in E0 as (? & _ & E0).
    apply assert_Ok, bool_decide_eq_true in Hn. injection E0 as <-. split; [exact Hn|done].
Qed.

Lemma require_authorization_Ok a s s' : ax_require_authorization a s = (s', Ok tt) ->
  has_authorization (as_ax s) a = true /\ as_ts s' = as_ts s /\ ax_privileged (as_ax s') = ax_privileged (as_ax s).
Proof.
  intros E. unfold ax_require_authorization in E. apply M_bind_Ok in E as (s1 & ax & E0 & E). rewrite get_ax_run in E0. injection E0 as <- <-.
  destruct (list_find _ _) as [[i x]|] eqn:El; [|done]. rewrite modify_ax_run in E. injection E as <-. split; [|done].
  apply list_find_Some in El as (Hx & <- & _). unfold has_authorization. apply existsb_exists. exists x. split; [|by apply Z.eqb_eq].
  apply list_elem_of_In. by eapply list_elem_of_lookup_2.
Qed.

(** [schedule_deferred_transaction] writes the row after its checks. *)
Lemma schedule_deferred_Ok i payer trx b s s' : schedule_deferred_transaction cv i payer trx b s = (s', Ok tt) ->
  let ax := as_ax s in
  let db := ts_db (as_ts s) in
  let t := deferred_header cv trx in
  tr_context_free_actions trx = [] /\ calm s s' /\
  (negb (auth_skipped cv) && negb (ax_privileged ax) = true ->
   (payer = ax_receiver ax \/ has_authorization ax payer = true) /\
   tolerate_self cv (is_sending_only_to_self t (ax_receiver ax))
     (check_authorization (db_auth db) (db_generated db) (auth_cfg cv) (tr_actions t) [] [code_level (ax_receiver ax)]
        (tr_delay_sec t * 1000000) false []) = Ok tt) /\
  row_written (ax_receiver ax) i payer t b s s'.
Proof.
  intros E. unfold schedule_deferred_transaction in E. cbv zeta. apply M_bind_Ok in E as (s1 & u & E0 & E). apply M_assert_Ok in E0 as [-> Hcf].
  apply bool_decide_eq_true in Hcf. split; [done|]. cbv zeta in E. apply M_bind_Ok in E as (s1 & ax & E0 & E). rewrite get_ax_run in E0. injection E0 as <- <-.
  apply M_bind_Ok in E as (s1 & db & E0 & E). rewrite get_db_run in E0. injection E0 as <- <-.
  apply M_bind_Ok in E as (s1 & tc & E0 & E). apply on_ts_Ok in E0 as (t & E0 & ->). rewrite get_tc_run in E0. injection E0 as <- <-.
  apply M_bind_Ok in E as (s1 & u1 & E0 & E). apply lift_Ok in E0 as [-> _]. apply M_bind_Ok in E as (s2 & [] & E0 & E).
  assert (calm s s2 /\ generated_of s2 = generated_of s /\ as_ax s2 = as_ax s /\ db_generated (ts_db (as_ts s2)) = db_generated (ts_db (as_ts s)) /\
    ts_db (as_ts s2) = ts_db (as_ts s)) as (C2 & G2 & A2 & _ & B2).
  { split; [eapply on_ts_calm; [|destruct s; exact E0]; intros t1; apply add_net_usage_quiet|]. apply on_ts_Ok in E0 as (t1 & E0 & ->).
    apply add_net_usage_Ok in E0 as [-> _]. done. }
  clear E0. apply M_bind_Ok in E as (s3 & [] & E0 & E).
  assert (calm s2 s3 /\ as_ts s3 = as_ts s2 /\ (negb (auth_skipped cv) && negb (ax_privileged (as_ax s)) = true ->
   (payer = ax_receiver (as_ax s) \/ has_authorization (as_ax s) payer = true) /\
   tolerate_self cv (is_sending_only_to_self (deferred_header cv trx) (ax_receiver (as_ax s)))
     (check_authorization (db_auth (ts_db (as_ts s))) (db_generated (ts_db (as_ts s))) (auth_cfg cv) (tr_actions (deferred_header cv trx)) []
        [code_level (ax_receiver (as_ax s))] (tr_delay_sec (deferred_header cv trx) * 1000000) false []) = Ok tt)) as (C3 & T3 & Hauth).
  { destruct (_ && negb (ax_privileged _)); [|injection E0 as <-; by split_and!]. apply M_bind_Ok in E0 as (s4 & [] & E1 & E0).
    apply lift_Ok in E0 as [-> E0]. destruct (payer =? _) eqn:Ep; cbn [negb] in E1.
    - injection E1 as <-. split_and!; try done. intros _. split; [left; by apply Z.eqb_eq|done].
    - split; [by eapply require_authorization_calm|]. apply require_authorization_Ok in E1 as (Hh & HT & _). rewrite A2 in Hh. split; [done|]. auto. }
  clear E0. apply M_bind_Ok in E as (s4 & n & E0 & E). pose proof E0 as E1. apply store_deferred_calm in E0. apply store_deferred_row in E1.
  apply M_bind_Ok in E as (s5 & u2 & E2 & E). apply M_assert_Ok in E2 as [-> _]. pose proof E as E2. apply ram_calm in E. apply ram_generated in E2.
  split; [etrans; [exact C2|etrans; [exact C3|etrans; [exact E0|exact E]]]|]. split; [done|].
  unfold row_written, generated_of in *. rewrite T3, B2 in *. by rewrite E2.
Qed.

Lemma run_call_calm c s s' : run_call c s = (s', Ok tt) -> calm s s'.
Proof.
  destruct c; simpl; intros E.
  - by eapply require_authorization_calm.
  - by eapply require_recipient_calm.
  - by eapply execute_inline_calm.
  - by eapply execute_context_free_calm.
  - by apply schedule_deferred_Ok in E as (_ & C & _).
  - apply M_bind_Ok in E as (s1 & b & E0 & E). injection E as <-. by eapply cancel_deferred_calm.
Qed.

Lemma run_calls_calm cs s s' : run_calls cs s = (s', Ok tt) -> calm s s'.
Proof.
  revert s. induction cs as [|c cs IH]; intros s E; cbn [run_calls] in E; [by injection E as <-|].
  apply M_bind_Ok in E as (s1 & [] & E0 & E). transitivity s1; [by eapply run_call_calm|by apply IH].
Qed.

End Calls.

(** ** Authorization of what contracts send *)

Lemma tolerate_self_Ok cv self r : tolerate_self cv self r = Ok tt -> r = Ok tt \/ self = true /\ producing_block cv = false.
Proof.
  unfold tolerate_self. destruct r as [[]|e]; [by left|]. destruct (negb (catchable e)); [done|]. destruct self; simpl; [|done].
  destruct (producing_block cv); [done|]. by right.
Qed.

(** The action is allowed to its authorizers, and every authorization that was not
    satisfied before is granted by the code permission of the contract alone. *)
Definition granted_to_code `{MetaOrder} `{ActionData} (cv : controller_view) (db : chain_db) (receiver : account_name) (delay : Z)
    (satisfied : list (Z * Z)) (a : action) : Prop :=
  exists d, action_authorized (db_auth db) (db_generated db) a (effective_delay (auth_cfg cv) delay) d /\
  forall l, l ∈ act_authorization a -> l ∈ satisfied \/
    exists d', d' <= d /\
      granted (permission_authority (db_auth db)) (make_auth_checker (max_authority_depth (auth_cfg cv)) [] [code_level receiver] d') l.

Lemma tolerated_or_granted `{MetaOrderLaws} `{ActionData} cv self db receiver acts delay sat : perms_ok (db_auth db) ->
  tolerate_self cv self (check_authorization (db_auth db) (db_generated db) (auth_cfg cv) acts [] [code_level receiver] delay false sat) = Ok tt ->
  self = true /\ producing_block cv = false \/ forall a, a ∈ acts -> granted_to_code cv db receiver delay sat a.
Proof. intros Hok [E|E]%tolerate_self_Ok; [right|by left]. intros a Ha. by eapply check_authorization_Ok. Qed.

Lemma check_inline_authorizer_Ok db l : check_inline_authorizer db l = Ok tt ->
  is_Some (db_accounts db !! l.1) /\ is_Some (by_owner (db_auth db) l.1 l.2).
Proof.
  intros E. apply bind_Ok in E as ([] & Ha%assert_Ok & E). apply bind_Ok in E as (p & Hp & E). apply assert_Ok in E.
  apply bool_decide_eq_true in Ha, E. apply bind_Ok in Hp as (? & _ & Hp). injection Hp as <-. done.
Qed.

Lemma check_all_Ok {A} (f : A -> result unit) l : check_all f l = Ok tt -> forall x, x ∈ l -> f x = Ok tt.
Proof.
  induction l as [|y l IH]; intros E x Hx; [set_solver|]. cbn [check_all] in E. apply bind_Ok in E as ([] & E0 & E).
  apply elem_of_cons in Hx as [->|Hx]; [done|by apply IH].
Qed.

(** C22: an inline action that a contract queues belongs to an existing account, is
    declared by permissions that exist, and leaves everything but the queue as it
    was. Unless the node skips authorization checks, as in replays, an unprivileged
    contract had to be allowed to send it: every declared authorization is granted to the
    contract's own code permission, or was declared by the running action itself
    when the contract calls itself on a producing node; only a node that does not
    produce lets a contract's failing actions to itself pass. *)
Theorem inline_authorized `{MetaOrderLaws} `{ActionData} cv a s s'
  (Hok : perms_ok (db_auth (ts_db (as_ts s))))
  (E : execute_inline cv a s = (s', Ok tt)) :
  let ax := as_ax s in
  let db := ts_db (as_ts s) in
  as_ts s' = as_ts s /\ ax_inline_actions (as_ax s') = ax_inline_actions ax ++ [a] /\ ax_notified (as_ax s') = ax_notified ax /\
  is_Some (db_accounts db !! act_account a) /\
  (forall l, l ∈ act_authorization a -> is_Some (by_owner (db_auth db) l.1 l.2)) /\
  (auth_skipped cv = true \/ ax_privileged ax = true \/ act_account a = ax_receiver ax /\ producing_block cv = false \/
   exists sat, granted_to_code cv db (ax_receiver ax) (cv_pending_block_time cv - tc_published (ts_tc (as_ts s))) sat a /\
     forall l, l ∈ sat -> l ∈ act_authorization (ax_act ax) /\ act_account a = ax_receiver ax /\ ax_receiver ax = act_account (ax_act ax) /\
       producing_block cv = true).
Proof.
  apply execute_inline_Ok in E as (-> & Ha & Hc & Hauth). cbv zeta. split_and!; try done.
  { intros l Hl. by apply (check_all_Ok _ _ Hc), check_inline_authorizer_Ok in Hl as [_ ?]. }
  destruct (auth_skipped cv); [by left|right]. destruct (ax_privileged (as_ax s)); [by left|right].
  apply tolerated_or_granted in Hauth as [[Hs Hp]|Hg]; [left; split; [by apply Z.eqb_eq|done]|right|done|done].
  eexists. split; [apply Hg; by left|]. intros l Hl. destruct (_ && producing_block cv) eqn:Hi; [|set_solver].
  apply list_elem_of_filter in Hl as [Hl _]. apply andb_true_iff in Hi as [[Hr%Z.eqb_eq Hx%Z.eqb_eq]%andb_true_iff Hp]. done.
Qed.

(** C23: a deferred transaction that a contract schedules has no context-free
    actions, and exactly one row is written for it, with the contract as sender,
    due after its delay: in place of the contract's own row with the same sender
    id if there is one, which must be asked for, and otherwise under the id of the
    transaction, which no row had. When the contract is not privileged and the node
    does not skip authorization checks, the contract pays itself or is authorized
    by the payer, and every action is granted to the contract's own code
    permission, unless the node does not produce and the contract sends only to
    itself; privileged contracts, and nodes that replay irreversible blocks without
    these checks, are exempt. *)
Theorem deferred_authorized `{Crypto} `{MetaOrderLaws} `{ActionData} `{TransactionData} cv sender_id payer trx replace s s'
  (Hok : perms_ok (db_auth (ts_db (as_ts s))))
  (E : schedule_deferred_transaction cv sender_id payer trx replace s = (s', Ok tt)) :
  let ax := as_ax s in
  let db := ts_db (as_ts s) in
  let t := deferred_header cv trx in
  tr_context_free_actions trx = [] /\
  match by_sender_id db (ax_receiver ax) sender_id with
  | Some (old_id, _) => replace = true /\ generated_of s' = <[old_id := deferred_row cv (ax_receiver ax) sender_id payer t]> (generated_of s)
  | None => generated_of s !! hash_transaction t = None /\ generated_of s' = <[hash_transaction t := deferred_row cv (ax_receiver ax) sender_id payer t]> (generated_of s)
  end /\
  (auth_skipped cv = true \/ ax_privileged ax = true \/
   (payer = ax_receiver ax \/ has_authorization ax payer = true) /\
   (is_sending_only_to_self trx (ax_receiver ax) = true /\ producing_block cv = false \/
    forall a, a ∈ tr_actions trx -> granted_to_code cv db (ax_receiver ax) (tr_delay_sec trx * 1000000) [] a)).
Proof.
  apply schedule_deferred_Ok in E as (Hcf & _ & Hauth & Hrow). cbv zeta in *. split_and!; [done|done|].
  destruct (auth_skipped cv); [by left|right]. destruct (ax_privileged (as_ax s)); [by left|right].
  destruct Hauth as [Hp Ht]; [done|]. split; [done|]. by apply tolerated_or_granted in Ht.
Qed.

(** ** Contracts as handlers *)

Section Contracts.
Context `{Crypto} `{MetaOrder} `{ActionData} `{TransactionData} (cv : controller_view).
Context (program : list Z -> list host_call).

(** No native handlers; the code of an account is a sequence of calls. *)
Definition contract_handlers : Handlers := {|
  native_handler _ _ _ := None;
  wasm_apply code := run_calls cv (program code)
|}.

Lemma contract_handlers_laws : HandlersLaws (H := contract_handlers).
Proof. constructor; [done..|]. intros code s s' E. exact (run_calls_calm cv _ _ _ E). Qed.

(** Calls without a check of authorizations. *)
Definition simple_call (c : host_call) : bool :=
  match c with hc_require_auth _ | hc_notify _ | hc_context_free _ => true | _ => false end.

Lemma run_calls_ends cs : forallb simple_call cs = true -> ends (run_calls cv cs).
Proof.
  induction cs as [|c cs IH]; intros Hs; cbn [run_calls]; [apply ends_ret|]. apply andb_true_iff in Hs as [Hc Hs].
  apply ends_bind; [|intros _; by apply IH]. destruct c; try discriminate Hc; simpl.
  - unfold ax_require_authorization, get_ax, modify_ax. ends_tac. by destruct (list_find _ _) as [[? ?]|]; ends_tac.
  - unfold require_recipient, modify_ax. ends_tac.
  - unfold execute_context_free_inline, get_db, modify_ax. ends_tac.
Qed.

Lemma contract_handlers_end : (forall code, forallb simple_call (program code) = true) -> HandlersEnd (H := contract_handlers).
Proof. intros Hs. constructor; [done|]. intros code. by apply run_calls_ends. Qed.

End Contracts.

(** ** Transactions *)

(** C21: the execution of an immediate transaction ends, whatever its handlers do
    within their interface: the loop over notified accounts visits an account at
    most once and only existing ones, and inline actions nest no deeper than the
    configured depth. *)
Theorem execution_ends `{Crypto} `{TransactionData} `{HandlersLaws} `{!HandlersEnd} cv s
  (Hdelay : tc_delay (tc_settings (ts_tc s)) = 0) :
  (exec_transaction cv s).2 <> Err out_of_fuel.
Proof.
  unfold exec_transaction, exec. unfold mbind at 1, M_bind at 1. rewrite get_tc_run. rewrite Hdelay.
  enough (ends (M_ASSERT (S := trx_state) (tc_is_initialized (ts_tc s)) transaction_exception ;;
    (if tc_apply_context_free (ts_tc s) then dispatch_all (fun a cf => dispatch_action cv (inline_fuel cv) a (act_account a) cf 0) true
        (tr_context_free_actions (tc_trx (tc_settings (ts_tc s)))) else mret tt) ;;
    dispatch_all (fun a cf => dispatch_action cv (inline_fuel cv) a (act_account a) cf 0) false (tr_actions (tc_trx (tc_settings (ts_tc s)))))) as He
    by apply He.
  apply ends_bind; [by apply ends_assert|intros _]. apply ends_bind; [destruct (tc_apply_context_free _); [|apply ends_ret]|intros _];
    apply dispatch_all_ends; intros a _; (apply dispatch_action_ends; [assumption|unfold inline_fuel; lia]).
Qed.

(** C20: the receipts of an immediate transaction are its execution in depth-first
    order: of each action its account first and the notified accounts after it,
    each once and in the order of the notifications, then exactly the context-free
    inline actions that their handlers sent, in the order in which they were sent,
    and then exactly the other inline actions that they sent, nested no deeper than
    configured; each runs in the state that what is before it leaves. The receipts
    carry consecutive global numbers, the number a receiver sees counts its
    receipts, and the counter of an authorizer moves once for every
    authorization. *)
Theorem receipts_depth_first `{Crypto} `{TransactionData} `{HandlersLaws} cv s s'
  (Hdelay : tc_delay (tc_settings (ts_tc s)) = 0)
  (E : exec_transaction cv s = (s', Ok tt)) :
  exists rs1 t rs2,
    in_order (executes cv true 0) (context_free_of s) s rs1 t /\ in_order (executes cv false 0) (actions_of s) t rs2 s' /\ ran s (rs1 ++ rs2) s'.
Proof.
  unfold exec_transaction, exec in E. apply M_bind_Ok in E as (s1 & tc & E0 & E). rewrite get_tc_run in E0. injection E0 as <- <-.
  apply M_bind_Ok in E as (s1 & u & E0 & E). apply M_assert_Ok in E0 as [-> _]. cbv zeta in E. rewrite Hdelay, Z.eqb_refl in E.
  apply M_bind_Ok in E as (s1 & [] & E1 & E2).
  assert (exists rs1, in_order (executes cv true 0) (context_free_of s) s rs1 s1 /\ ran s rs1 s1) as (k1 & F1 & R1).
  { unfold context_free_of. destruct (tc_apply_context_free _).
    - eapply dispatch_all_ran; [|exact E1]. intros a t t'. apply dispatch_action_ran.
    - injection E1 as <-. exists []. split; [constructor|apply ran_nil]. }
  apply (dispatch_all_ran _ _ _ (executes cv false 0)) in E2 as (k2 & F2 & R2); [|intros a t t'; apply dispatch_action_ran].
  exists k1, s1, k2. split_and!; [done..|]. by eapply ran_app.
Qed.

(** ** A run: [bob]'s contract notifies [alice] and acts for her *)

Module ApplyDemo.
Import NativeRuns.Runs TransactionRuns.ContextDemo.
#[local] Existing Instances AuthorityProofs.Runs.order AuthorityProofs.Runs.order_laws NativeRuns.Runs.ops NativeRuns.Runs.laws NativeRuns.Runs.data
  TransactionRuns.ContextDemo.plain_crypto TransactionProofs.TransactionDemo.demo_data.

(** [alice] lets the code of [bob] use her active permission. *)
Definition shared : authority := mk_authority 1 [mk_key_weight 11 1] [mk_level_weight (bob, snax_code_name) 1] [].
Definition share : updateauth := mk_updateauth alice active_name owner_name shared.
Definition sharing : chain_db := Eval vm_compute in ok_db (apply_snax_updateauth (mk_apply [(alice, owner_name)] 1000 3888000 false false None) with_trading share).

Lemma shared_typed : authority_typed shared.
Proof. apply authority_typed_intro; [done|by repeat constructor..]. Qed.

Lemma sharing_ok : perms_ok (db_auth sharing).
Proof.
  apply nk_perms, reachable_ok. destruct trading_reachable as (t & k & c & g & Hg & Hr). exists t, k, c, g. split; [exact Hg|].
  eapply rtc_r; [exact Hr|]. apply native_action_step.
  eapply (act_updateauth (mk_apply [(alice, owner_name)] 1000 3888000 false false None) _ share); [apply shared_typed|vm_compute; reflexivity].
Qed.

(** [bob] has code. *)
Definition demo_chain : chain_db :=
  mk_chain_db (db_auth sharing) (<[bob := mk_account false 0 zero_digest 0 [1] []]> (db_accounts sharing)) (db_sequences sharing)
    (db_generated sharing) (db_limits sharing).

Definition greet : action := mk_action alice 5 [(alice, active_name)] [].
Definition ping : action := mk_action alice 6 [] [].
Definition call : action := mk_action bob 4 [(bob, active_name)] [].
Definition calling : transaction := mk_transaction (block_time / 1000000 + 30) 0 0 40 0 0 [] [call] [].

Definition running : trx_state := mk_ts demo_chain ∅ 0 (put_net (put_phase (fresh calling) block_time true true true) (mk_net 1000 true false 1000 0)).

Definition greeting (code : list Z) : list host_call :=
  match code with [1] => [hc_notify alice; hc_inline greet; hc_context_free ping] | _ => [] end.
Definition pinging (code : list Z) : list host_call :=
  match code with [1] => [hc_notify alice; hc_notify alice; hc_context_free ping] | _ => [] end.

Definition exec_with (h : Handlers) : M trx_state unit := exec_transaction producing.
Definition greeted : trx_state := (exec_with (contract_handlers producing greeting) running).1.
(** The contract notifies [alice], then its context-free action runs, then the
    other one. *)
Example greeted_receipts :
  (exec_with (contract_handlers producing greeting) running).2 = Ok tt /\
  ((fun r => (rc_receiver r, act_name (rc_act r), rc_global_sequence r, rc_recv_sequence r)) <$> tc_executed (ts_tc greeted)) =
  [(bob, 4, 1, 1); (alice, 4, 2, 1); (alice, 6, 3, 2); (alice, 5, 4, 3)].
Proof. vm_compute. split; reflexivity. Qed.

Lemma execution_ends_witness : (exec_with (contract_handlers producing pinging) running).2 <> Err out_of_fuel.
Proof.
  unfold exec_with. pose proof (contract_handlers_laws producing pinging) as L. assert (HandlersEnd (H := contract_handlers producing pinging)) as N.
  { apply contract_handlers_end. by intros [|[|[| |]|] [|]]. }
  refine (execution_ends producing running _). reflexivity.
Defined.

Definition executed_with (h : Handlers) : list action -> trx_state -> list action_receipt -> trx_state -> Prop := in_order (executes producing false 0).

Lemma receipts_depth_first_witness : exists rs, executed_with (contract_handlers producing greeting) [call] running rs greeted /\ ran running rs greeted.
Proof.
  pose proof (contract_handlers_laws producing greeting) as L.
  destruct (receipts_depth_first (H1 := contract_handlers producing greeting) producing running greeted) as (k1 & t & k2 & F1 & F2 & R).
  - reflexivity.
  - vm_compute. reflexivity.
  - exists k2. inversion F1; subst. split; [exact F2|exact R].
Defined.

Lemma inline_authorized_witness :
  granted_to_code producing demo_chain bob (cv_pending_block_time producing - block_time) [] greet.
Proof.
  destruct (inline_authorized producing greet (starting call false 0 running) (execute_inline producing greet (starting call false 0 running)).1)
    as (_ & _ & _ & _ & _ & [Hs|[Hp|[[_ Hb]|(sat & Hg & Hsat)]]]).
  - exact sharing_ok.
  - vm_compute. reflexivity.
  - vm_compute in Hs. congruence.
  - vm_compute in Hp. congruence.
  - vm_compute in Hb. congruence.
  - destruct sat as [|l sat]; [exact Hg|]. destruct (Hsat l) as (_ & Ha & _); [by left|]. vm_compute in Ha. congruence.
Defined.

Definition later : transaction := mk_transaction 0 0 0 0 0 60 [] [greet] [].

Lemma deferred_authorized_witness : granted_to_code producing demo_chain bob 60000000 [] greet.
Proof.
  destruct (deferred_authorized producing 9 bob later false (starting call false 0 running)
    (schedule_deferred_transaction producing 9 bob later false (starting call false 0 running)).1) as (_ & _ & [Hs|[Hp|[_ [[Hb _]|Hg]]]]).
  - exact sharing_ok.
  - vm_compute. reflexivity.
  - vm_compute in Hs. congruence.
  - vm_compute in Hp. congruence.
  - vm_compute in Hb. congruence.
  - apply Hg. by left.
Defined.

End ApplyDemo.
