(* ===== verification/Multisig.v ===== *)
(** * The multisig and sudo contracts

    [contracts/snax.msig]: a proposed transaction is kept as its bytes, approved by
    permission levels, and sent as a deferred transaction once what was approved
    authorizes it. The two tables are maps from the proposer, the scope, and the
    name of the proposal; the RAM of their rows is left out.

    The contract runs in the context of an action ([apply_state]); [unpack_keys]
    and [unpack_levels] are the chain's unpacking of sets. *)

From Stdlib Require Import ZArith Lia Bool.
From stdpp Require Import base numbers gmap list.
From S2P Require Import Prelude ResourceLimits BlockTime Name Merkle BlockHeader Authority Token Permissions NativeActions ChainConfig.
From S2P Require Import Transaction TransactionContext ApplyContext Datastream.

Open Scope Z_scope.

(** ** State *)

Record approvals_info := mk_approvals { requested_approvals : list (Z * Z); provided_approvals : list (Z * Z) }.

(** The proposer and the name of the proposal. *)
Notation proposal_key := (Z * Z)%type.

Record msig_tables := mk_tables { ms_proposals : gmap proposal_key buffer; ms_approvals : gmap proposal_key approvals_info }.
Record msig_state := mk_msig { ms_as : apply_state; ms_tables : msig_tables }.

Definition on_as {A} (m : M apply_state A) : M msig_state A := fun s =>
  let '(t, r) := m (ms_as s) in (mk_msig t (ms_tables s), r).
Definition get_tables : M msig_state msig_tables := s ← get_state; mret (ms_tables s).
Definition put_tables (t : msig_tables) : M msig_state unit := s ← get_state; put_state (mk_msig (ms_as s) t).

Definition set_proposals (t : msig_tables) (m : gmap proposal_key buffer) : msig_tables := mk_tables m (ms_approvals t).
Definition set_approvals (t : msig_tables) (m : gmap proposal_key approvals_info) : msig_tables := mk_tables (ms_proposals t) m.

(** [get( proposal_name, "proposal not found" )]. *)
Definition get_proposal (k : proposal_key) : M msig_state buffer :=
  t ← get_tables; lift (of_option snax_assert_message (ms_proposals t !! k)).
Definition get_approvals (k : proposal_key) : M msig_state approvals_info :=
  t ← get_tables; lift (of_option snax_assert_message (ms_approvals t !! k)).

(** [std::find] with [erase]. *)
Definition erase_found (l : list (Z * Z)) (level : Z * Z) : option (list (Z * Z)) :=
  '(i, _) ← list_find (fun x => x = level) l; Some (delete i l).

Section Multisig.
Context `{Crypto} `{MetaOrder} `{ActionData} `{TransactionData} (cv : controller_view).
Context (unpack_keys : list Z -> result (list public_key_type)) (unpack_levels : list Z -> result (list (Z * Z))).

(** [now()]: the time of the block in seconds. *)
Definition now : Z := u32 (cv_pending_block_time cv / 1000000).

(** The call of [check_transaction_authorization] without keys, and the assertion
    on its result. *)
Definition assert_authorized (packed_transaction : buffer) (levels : list (Z * Z)) : M msig_state unit :=
  s ← get_state;
  res ← lift (check_transaction_authorization cv unpack_keys unpack_levels (ts_db (as_ts (ms_as s))) packed_transaction []
                (pack (vector level_codec) levels));
  M_ASSERT res snax_assert_message.

(** The fields that [propose] reads from the action's data; the transaction is the
    rest of the buffer. *)
Definition read_proposal (data : buffer) : result (Z * Z * list (Z * Z) * buffer * transaction_header) :=
  '(proposer, ds) ← cd_get (primitive 8) data;
  '(proposal_name, ds) ← cd_get (primitive 8) ds;
  '(requested, trx) ← cd_get (vector level_codec) ds;
  '(trx_header, _) ← cd_get header_codec trx;
  mret (proposer, proposal_name, requested, trx, trx_header).

Definition propose (data : buffer) : M msig_state unit :=
  '(proposer, proposal_name, requested, trx, trx_header) ← lift (read_proposal data);
  on_as (ax_require_authorization proposer);;
  M_ASSERT (now <=? th_expiration trx_header) snax_assert_message;;
  t ← get_tables;
  M_ASSERT (bool_decide (ms_proposals t !! (proposer, proposal_name) = None)) snax_assert_message;;
  assert_authorized trx requested;;
  put_tables (set_proposals t (<[(proposer, proposal_name) := trx]> (ms_proposals t)));;
  t ← get_tables;
  M_ASSERT (bool_decide (ms_approvals t !! (proposer, proposal_name) = None)) uniqueness_violation;;
  put_tables (set_approvals t (<[(proposer, proposal_name) := mk_approvals requested []]> (ms_approvals t))).

Definition approve (proposer proposal_name : Z) (level : Z * Z) : M msig_state unit :=
  on_as (ax_require_permission level.1 level.2);;
  apps ← get_approvals (proposer, proposal_name);
  requested ← lift (of_option snax_assert_message (erase_found (requested_approvals apps) level));
  t ← get_tables;
  put_tables (set_approvals t (<[(proposer, proposal_name) := mk_approvals requested (provided_approvals apps ++ [level])]> (ms_approvals t))).

Definition unapprove (proposer proposal_name : Z) (level : Z * Z) : M msig_state unit :=
  on_as (ax_require_permission level.1 level.2);;
  apps ← get_approvals (proposer, proposal_name);
  provided ← lift (of_option snax_assert_message (erase_found (provided_approvals apps) level));
  t ← get_tables;
  put_tables (set_approvals t (<[(proposer, proposal_name) := mk_approvals (requested_approvals apps ++ [level]) provided]> (ms_approvals t))).

(** Both rows are erased. *)
Definition erase_proposal (k : proposal_key) : M msig_state unit :=
  t ← get_tables;
  put_tables (mk_tables (delete k (ms_proposals t)) (delete k (ms_approvals t))).

Definition cancel (proposer proposal_name canceler : Z) : M msig_state unit :=
  on_as (ax_require_authorization canceler);;
  prop ← get_proposal (proposer, proposal_name);
  (if negb (canceler =? proposer) then
     trx_header ← lift (unpack header_codec prop);
     M_ASSERT (th_expiration trx_header <? now) snax_assert_message
   else mret tt);;
  get_approvals (proposer, proposal_name);;
  erase_proposal (proposer, proposal_name).

(** The sender id of a proposal. *)
Definition proposal_id (proposer proposal_name : Z) : Z := Z.lor (Z.shiftl proposer 64) proposal_name.

Definition exec (proposer proposal_name executer : Z) : M msig_state unit :=
  on_as (ax_require_authorization executer);;
  prop ← get_proposal (proposer, proposal_name);
  apps ← get_approvals (proposer, proposal_name);
  trx_header ← lift (unpack header_codec prop);
  M_ASSERT (now <=? th_expiration trx_header) snax_assert_message;;
  assert_authorized prop (provided_approvals apps);;
  on_as (send_deferred cv (proposal_id proposer proposal_name) executer prop false);;
  erase_proposal (proposer, proposal_name).

(** ** The sudo contract

    [contracts/snax.sudo]: the transaction behind the executer's name is sent as a
    deferred transaction of the contract. *)

Definition sudo_exec (data : buffer) : M apply_state unit :=
  ax ← get_ax;
  ax_require_authorization (ax_receiver ax);;
  '(executer, trx) ← lift (cd_get (primitive 8) data);
  ax_require_authorization executer;;
  send_deferred cv (Z.lor (Z.shiftl executer 64) (u64 (cv_pending_block_time cv))) executer trx false.

End Multisig.
