(* ===== verification/MultisigProofs.v ===== *)
(** * The multisig contract keeps its promises

    A run of the contract is described by the history of its successful actions.
    The tables are what the history says ([tables_refine]), and a proposal that is
    executed sends the proposed bytes, authorized by approvals that still stand. *)

From Stdlib Require Import ZArith Lia Bool.
From stdpp Require Import base numbers gmap sets list fin_maps.
From S2P Require Import Prelude ResourceLimits BlockTime Name Merkle BlockHeader Authority AuthorityProofs Token Permissions PermissionsProofs.
From S2P Require Import NativeActions NativeActionsProofs NativeRam NativeRuns ChainConfig Transaction TransactionProofs TransactionContext.
From S2P Require Import TransactionContextProofs TransactionRuns ApplyContext ApplyContextProofs ApplyRuns Datastream Multisig.

Open Scope Z_scope.

(** ** Histories, the last event first *)

(** An approval or a withdrawal carries the authorizations of its action. *)
Inductive msig_event :=
| ev_propose (k : proposal_key) (trx : buffer) (requested : list (Z * Z))
| ev_approve (k : proposal_key) (level : Z * Z) (auths : list (Z * Z))
| ev_unapprove (k : proposal_key) (level : Z * Z) (auths : list (Z * Z))
| ev_close (k : proposal_key).

(** The proposal that is open under a key. *)
Fixpoint proposed (h : list msig_event) (k : proposal_key) : option (buffer * list (Z * Z)) :=
  match h with
  | [] => None
  | ev_propose k' trx requested :: h => if decide (k' = k) then Some (trx, requested) else proposed h k
  | ev_close k' :: h => if decide (k' = k) then None else proposed h k
  | _ :: h => proposed h k
  end.

(** The approvals a level gave, less those it withdrew, since the proposal; only
    actions it authorized count. *)
Fixpoint standing (h : list msig_event) (k : proposal_key) (l : Z * Z) : Z :=
  match h with
  | [] => 0
  | ev_propose k' _ _ :: h => if decide (k' = k) then 0 else standing h k l
  | ev_approve k' l' auths :: h => standing h k l + (if decide (k' = k /\ l' = l /\ l ∈ auths) then 1 else 0)
  | ev_unapprove k' l' auths :: h => standing h k l - (if decide (k' = k /\ l' = l /\ l ∈ auths) then 1 else 0)
  | ev_close _ :: h => standing h k l
  end.

Definition occurrences (l : Z * Z) (ls : list (Z * Z)) : Z := Z.of_nat (length (filter (fun x => x = l) ls)).

Lemma occurrences_app l a b : occurrences l (a ++ b) = occurrences l a + occurrences l b.
Proof. unfold occurrences. rewrite filter_app, length_app. lia. Qed.
Lemma occurrences_one l x : occurrences l [x] = if decide (x = l) then 1 else 0.
Proof. unfold occurrences. rewrite filter_cons, filter_nil. by destruct (decide (x = l)). Qed.
Lemma occurrences_perm l a b : a ≡ₚ b -> occurrences l a = occurrences l b.
Proof. intros Hp. unfold occurrences. by rewrite Hp. Qed.
Lemma occurrences_pos l ls : l ∈ ls <-> 1 <= occurrences l ls.
Proof.
  unfold occurrences. destruct (filter (fun x => x = l) ls) as [|y f] eqn:Ef; simpl; split; try lia; intros Hl.
  - assert (l ∈ filter (fun x => x = l) ls) as Hx by (by apply list_elem_of_filter). rewrite Ef in Hx. set_solver.
  - assert (y ∈ filter (fun x => x = l) ls) as Hy by (rewrite Ef; by left). by apply list_elem_of_filter in Hy as [-> ?].
Qed.

Lemma erase_found_perm ls l r : erase_found ls l = Some r -> ls ≡ₚ l :: r.
Proof.
  unfold erase_found. destruct (list_find _ ls) as [[i x]|] eqn:Ef; [|done]. intros [= <-]. apply list_find_Some in Ef as (Hi & -> & _).
  by apply delete_Permutation.
Qed.

(** ** The tables of a history *)

Record refines (h : list msig_event) (t : msig_tables) : Prop := {
  rf_proposals k : ms_proposals t !! k = fst <$> proposed h k;
  rf_approvals k : is_Some (ms_approvals t !! k) <-> is_Some (proposed h k);
  rf_levels k a b r : ms_approvals t !! k = Some a -> proposed h k = Some (b, r) ->
    requested_approvals a ++ provided_approvals a ≡ₚ r /\
    forall l, occurrences l (provided_approvals a) = standing h k l
}.

Definition no_tables : msig_tables := mk_tables ∅ ∅.

Lemma refines_empty : refines [] no_tables.
Proof. constructor; simpl; intros k; [by rewrite lookup_empty|rewrite lookup_empty; by split; intros [? ?]|done]. Qed.

(** *** Steps of the contract *)

Lemma on_as_Ok {A} (m : M apply_state A) s s' a : on_as m s = (s', Ok a) <-> exists t, m (ms_as s) = (t, Ok a) /\ s' = mk_msig t (ms_tables s).
Proof. unfold on_as. destruct (m (ms_as s)) as [t r]. naive_solver. Qed.
Lemma get_tables_run s : get_tables s = (s, Ok (ms_tables s)).
Proof. reflexivity. Qed.
Lemma put_tables_run t s : put_tables t s = (mk_msig (ms_as s) t, Ok tt).
Proof. reflexivity. Qed.
Lemma get_proposal_Ok k s s' b : get_proposal k s = (s', Ok b) <-> s' = s /\ ms_proposals (ms_tables s) !! k = Some b.
Proof.
  unfold get_proposal, mbind, M_bind. rewrite get_tables_run. rewrite lift_Ok. split; intros [-> E]; (split; [done|]); [by apply of_option_Ok in E|by rewrite E].
Qed.
Lemma get_approvals_Ok k s s' a : get_approvals k s = (s', Ok a) <-> s' = s /\ ms_approvals (ms_tables s) !! k = Some a.
Proof.
  unfold get_approvals, mbind, M_bind. rewrite get_tables_run. rewrite lift_Ok. split; intros [-> E]; (split; [done|]); [by apply of_option_Ok in E|by rewrite E].
Qed.

Lemma require_permission_Ok a p s s' : ax_require_permission a p s = (s', Ok tt) ->
  (a, p) ∈ act_authorization (ax_act (as_ax s)) /\ as_ts s' = as_ts s.
Proof.
  intros E. unfold ax_require_permission in E. apply M_bind_Ok in E as (s1 & ax & E0 & E). rewrite get_ax_run in E0. injection E0 as <- <-.
  destruct (list_find _ _) as [[i x]|] eqn:El; [|done]. rewrite modify_ax_run in E. injection E as <-. split; [|done].
  apply list_find_Some in El as (Hx & -> & _). by eapply list_elem_of_lookup_2.
Qed.

Section Steps.
Context `{Crypto} `{MetaOrder} `{ActionData} `{TransactionData} (cv : controller_view).
Context (unpack_keys : list Z -> result (list public_key_type)) (unpack_levels : list Z -> result (list (Z * Z))).

Definition auths_of (s : msig_state) : list (Z * Z) := act_authorization (ax_act (as_ax (ms_as s))).

Lemma assert_authorized_Ok trx ls s s' : assert_authorized cv unpack_keys unpack_levels trx ls s = (s', Ok tt) ->
  s' = s /\ check_transaction_authorization cv unpack_keys unpack_levels (ts_db (as_ts (ms_as s))) trx [] (pack (vector level_codec) ls) = Ok true.
Proof.
  intros E. unfold assert_authorized in E. apply M_bind_Ok in E as (s1 & s2 & E0 & E). injection E0 as <- <-.
  apply M_bind_Ok in E as (s1 & res & E0 & E). apply lift_Ok in E0 as [-> E0]. apply M_assert_Ok in E as [-> ->]. done.
Qed.

Lemma propose_Ok data s s' : propose cv unpack_keys unpack_levels data s = (s', Ok tt) ->
  exists proposer name requested trx header,
    read_proposal data = Ok (proposer, name, requested, trx, header) /\
    has_authorization (as_ax (ms_as s)) proposer = true /\ now cv <= th_expiration header /\
    check_transaction_authorization cv unpack_keys unpack_levels (ts_db (as_ts (ms_as s))) trx [] (pack (vector level_codec) requested) = Ok true /\
    ms_proposals (ms_tables s) !! (proposer, name) = None /\ ms_approvals (ms_tables s) !! (proposer, name) = None /\
    ms_tables s' = mk_tables (<[(proposer, name) := trx]> (ms_proposals (ms_tables s)))
                     (<[(proposer, name) := mk_approvals requested []]> (ms_approvals (ms_tables s))).
Proof.
  intros E. unfold propose in E. apply M_bind_Ok in E as (s1 & [[[[p n] r] trx] hd] & E0 & E). apply lift_Ok in E0 as [-> Hread]. exists p, n, r, trx, hd. split; [done|].
  apply M_bind_Ok in E as (s1 & [] & E0 & E). apply on_as_Ok in E0 as (t & E0 & ->). apply require_authorization_Ok in E0 as (Ha & HT & _). split; [done|].
  apply M_bind_Ok in E as (s1 & u & E0 & E). apply M_assert_Ok in E0 as [-> Hn]. split; [by apply Z.leb_le|].
  apply M_bind_Ok in E as (s1 & t0 & E0 & E). rewrite get_tables_run in E0. injection E0 as <- <-. cbn [ms_tables] in E.
  apply M_bind_Ok in E as (s1 & u1 & E0 & E). apply M_assert_Ok in E0 as [-> Hp]. apply bool_decide_eq_true in Hp.
  apply M_bind_Ok in E as (s1 & [] & E0 & E). apply assert_authorized_Ok in E0 as [-> Hc]. cbn [ms_as] in Hc. rewrite HT in Hc. split; [done|]. split; [done|].
  apply M_bind_Ok in E as (s1 & [] & E0 & E). rewrite put_tables_run in E0. injection E0 as <-.
  apply M_bind_Ok in E as (s1 & t1 & E0 & E). rewrite get_tables_run in E0. injection E0 as <- <-.
  apply M_bind_Ok in E as (s1 & u2 & E0 & E). apply M_assert_Ok in E0 as [-> Hq]. apply bool_decide_eq_true in Hq.
  rewrite put_tables_run in E. by injection E as <-.
Qed.

Lemma approve_Ok p n l s s' : approve p n l s = (s', Ok tt) ->
  l ∈ auths_of s /\ exists a r, ms_approvals (ms_tables s) !! (p, n) = Some a /\ erase_found (requested_approvals a) l = Some r /\
    ms_tables s' = set_approvals (ms_tables s) (<[(p, n) := mk_approvals r (provided_approvals a ++ [l])]> (ms_approvals (ms_tables s))).
Proof.
  intros E. unfold approve in E. apply M_bind_Ok in E as (s1 & [] & E0 & E). apply on_as_Ok in E0 as (t & E0 & ->). apply require_permission_Ok in E0 as [Ha _].
  split; [by destruct l|]. apply M_bind_Ok in E as (s1 & a & E0 & E). apply get_approvals_Ok in E0 as [-> Hg].
  apply M_bind_Ok in E as (s1 & r & E0 & E). apply lift_Ok in E0 as [-> Hr]. apply of_option_Ok in Hr.
  apply M_bind_Ok in E as (s1 & t0 & E0 & E). rewrite get_tables_run in E0. injection E0 as <- <-. rewrite put_tables_run in E. injection E as <-. by exists a, r.
Qed.

Lemma unapprove_Ok p n l s s' : unapprove p n l s = (s', Ok tt) ->
  l ∈ auths_of s /\ exists a r, ms_approvals (ms_tables s) !! (p, n) = Some a /\ erase_found (provided_approvals a) l = Some r /\
    ms_tables s' = set_approvals (ms_tables s) (<[(p, n) := mk_approvals (requested_approvals a ++ [l]) r]> (ms_approvals (ms_tables s))).
Proof.
  intros E. unfold unapprove in E. apply M_bind_Ok in E as (s1 & [] & E0 & E). apply on_as_Ok in E0 as (t & E0 & ->). apply require_permission_Ok in E0 as [Ha _].
  split; [by destruct l|]. apply M_bind_Ok in E as (s1 & a & E0 & E). apply get_approvals_Ok in E0 as [-> Hg].
  apply M_bind_Ok in E as (s1 & r & E0 & E). apply lift_Ok in E0 as [-> Hr]. apply of_option_Ok in Hr.
  apply M_bind_Ok in E as (s1 & t0 & E0 & E). rewrite get_tables_run in E0. injection E0 as <- <-. rewrite put_tables_run in E. injection E as <-. by exists a, r.
Qed.

Definition erased (k : proposal_key) (t : msig_tables) : msig_tables := mk_tables (delete k (ms_proposals t)) (delete k (ms_approvals t)).

Lemma cancel_Ok p n c s s' : cancel cv p n c s = (s', Ok tt) ->
  has_authorization (as_ax (ms_as s)) c = true /\ ms_tables s' = erased (p, n) (ms_tables s) /\
  exists b, ms_proposals (ms_tables s) !! (p, n) = Some b /\ (c = p \/ exists hd, unpack header_codec b = Ok hd /\ th_expiration hd < now cv).
Proof.
  intros E. unfold cancel in E. apply M_bind_Ok in E as (s1 & [] & E0 & E). apply on_as_Ok in E0 as (t & E0 & ->). apply require_authorization_Ok in E0 as (Ha & _ & _).
  split; [done|]. apply M_bind_Ok in E as (s1 & b & E0 & E). apply get_proposal_Ok in E0 as [-> Hb]. apply M_bind_Ok in E as (s1 & [] & E0 & E).
  assert (s1 = mk_msig t (ms_tables s) /\ (c = p \/ exists hd, unpack header_codec b = Ok hd /\ th_expiration hd < now cv)) as [-> Hc].
  { destruct (Z.eqb_spec c p) as [->|]; cbn [negb] in E0; [injection E0 as <-; auto|]. apply M_bind_Ok in E0 as (s2 & hd & E1 & E0). apply lift_Ok in E1 as [-> Hh].
    apply M_assert_Ok in E0 as [-> Hx]. split; [done|right]. exists hd. split; [done|by apply Z.ltb_lt]. }
  apply M_bind_Ok in E as (s2 & a & E1 & E). apply get_approvals_Ok in E1 as [-> _]. unfold erase_proposal in E.
  apply M_bind_Ok in E as (s2 & t0 & E1 & E). rewrite get_tables_run in E1. injection E1 as <- <-. rewrite put_tables_run in E. injection E as <-. eauto.
Qed.

Lemma exec_Ok p n e s s' : exec cv unpack_keys unpack_levels p n e s = (s', Ok tt) ->
  has_authorization (as_ax (ms_as s)) e = true /\ ms_tables s' = erased (p, n) (ms_tables s) /\
  exists b a hd s1, ms_proposals (ms_tables s) !! (p, n) = Some b /\ ms_approvals (ms_tables s) !! (p, n) = Some a /\
    unpack header_codec b = Ok hd /\ now cv <= th_expiration hd /\
    check_transaction_authorization cv unpack_keys unpack_levels (ts_db (as_ts (ms_as s))) b [] (pack (vector level_codec) (provided_approvals a)) = Ok true /\
    as_ts s1 = as_ts (ms_as s) /\ ax_receiver (as_ax s1) = ax_receiver (as_ax (ms_as s)) /\
    send_deferred cv (proposal_id p n) e b false s1 = (ms_as s', Ok tt).
Proof.
  intros E. unfold exec in E. apply M_bind_Ok in E as (s1 & [] & E0 & E). apply on_as_Ok in E0 as (t & E0 & ->). pose proof E0 as Hcalm.
  apply require_authorization_calm in Hcalm as [Hcalm _]. apply require_authorization_Ok in E0 as (Ha & HT & _).
  split; [done|]. apply M_bind_Ok in E as (s1 & b & E0 & E). apply get_proposal_Ok in E0 as [-> Hb].
  apply M_bind_Ok in E as (s1 & a & E0 & E). apply get_approvals_Ok in E0 as [-> Hap].
  apply M_bind_Ok in E as (s1 & hd & E0 & E). apply lift_Ok in E0 as [-> Hh]. apply M_bind_Ok in E as (s1 & u & E0 & E). apply M_assert_Ok in E0 as [-> Hx%Z.leb_le].
  apply M_bind_Ok in E as (s1 & [] & E0 & E). apply assert_authorized_Ok in E0 as [-> Hc]. cbn [ms_as] in Hc. rewrite HT in Hc.
  apply M_bind_Ok in E as (s1 & [] & E0 & E). apply on_as_Ok in E0 as (t2 & E0 & ->). unfold erase_proposal in E.
  apply M_bind_Ok in E as (s2 & t0 & E1 & E). rewrite get_tables_run in E1. injection E1 as <- <-. rewrite put_tables_run in E. injection E as <-.
  split; [done|]. exists b, a, hd, t. split_and!; try done. apply Hcalm.
Qed.

(** The sudo contract sends a transaction only with its own authorization and that
    of the executer, and sends exactly the bytes it was given. *)
Lemma sudo_exec_Ok data s s' : sudo_exec cv data s = (s', Ok tt) ->
  exists executer trx s1, cd_get (primitive 8) data = Ok (executer, trx) /\
    has_authorization (as_ax s) (ax_receiver (as_ax s)) = true /\ has_authorization (as_ax s) executer = true /\ as_ts s1 = as_ts s /\
    send_deferred cv (Z.lor (Z.shiftl executer 64) (u64 (cv_pending_block_time cv))) executer trx false s1 = (s', Ok tt).
Proof.
  intros E. unfold sudo_exec in E. apply M_bind_Ok in E as (s1 & ax & E0 & E). injection E0 as <- <-.
  apply M_bind_Ok in E as (s1 & [] & E0 & E). pose proof (require_authorization_calm _ _ _ E0) as [Hc _]. apply require_authorization_Ok in E0 as (Ha & HT & _).
  apply M_bind_Ok in E as (s2 & [e trx] & E1 & E). apply lift_Ok in E1 as [-> Hd]. apply M_bind_Ok in E as (s2 & [] & E0 & E). apply require_authorization_Ok in E0 as (Hb & HT' & _).
  exists e, trx, s2. split_and!; try done; [|congruence]. unfold has_authorization in *. by rewrite <- (hd_act _ _ Hc).
Qed.

End Steps.

(** *** The tables follow the history *)

Lemma refines_propose h t k trx r : refines h t -> ms_proposals t !! k = None -> ms_approvals t !! k = None ->
  refines (ev_propose k trx r :: h) (mk_tables (<[k := trx]> (ms_proposals t)) (<[k := mk_approvals r []]> (ms_approvals t))).
Proof.
  intros [R1 R2 R3] Hp Ha. constructor; simpl.
  - intros k'. destruct (decide (k = k')) as [<-|]; [by rewrite lookup_insert_eq|by rewrite lookup_insert_ne].
  - intros k'. destruct (decide (k = k')) as [<-|]; [rewrite lookup_insert_eq; by split; eauto|by rewrite lookup_insert_ne].
  - intros k' a b r'. destruct (decide (k = k')) as [<-|]; [|by rewrite lookup_insert_ne; [apply R3|]].
    rewrite lookup_insert_eq. intros [= <-] [= <- <-]. simpl. by rewrite app_nil_r.
Qed.

Lemma refines_modify h t k a a' e : refines h t -> ms_approvals t !! k = Some a ->
  (forall k', proposed (e :: h) k' = proposed h k') -> (forall k' l, k' <> k -> standing (e :: h) k' l = standing h k' l) ->
  requested_approvals a' ++ provided_approvals a' ≡ₚ requested_approvals a ++ provided_approvals a ->
  (forall l, occurrences l (provided_approvals a') - occurrences l (provided_approvals a) = standing (e :: h) k l - standing h k l) ->
  refines (e :: h) (set_approvals t (<[k := a']> (ms_approvals t))).
Proof.
  intros [R1 R2 R3] Ha Hp Hs Hperm Hocc. constructor; cbn [ms_proposals ms_approvals set_approvals].
  - intros k'. by rewrite Hp.
  - intros k'. rewrite Hp, <- R2. destruct (decide (k = k')) as [<-|]; [rewrite lookup_insert_eq, Ha; by split; eauto|by rewrite lookup_insert_ne].
  - intros k' a1 b r. rewrite Hp. destruct (decide (k = k')) as [<-|].
    + rewrite lookup_insert_eq. intros [= <-] E. destruct (R3 _ _ _ _ Ha E) as [HR HO]. split; [by rewrite Hperm|]. intros l. specialize (Hocc l). rewrite HO in Hocc. lia.
    + rewrite lookup_insert_ne by done. intros E1 E2. destruct (R3 _ _ _ _ E1 E2) as [HR HO]. split; [done|]. intros l. by rewrite Hs by congruence.
Qed.

Lemma refines_approve h t k a r l auths : refines h t -> ms_approvals t !! k = Some a -> erase_found (requested_approvals a) l = Some r -> l ∈ auths ->
  refines (ev_approve k l auths :: h) (set_approvals t (<[k := mk_approvals r (provided_approvals a ++ [l])]> (ms_approvals t))).
Proof.
  intros R Ha He Hl. apply erase_found_perm in He. eapply refines_modify; [done|done|done|..]; cbn [requested_approvals provided_approvals standing].
  - intros k' l' Hk. rewrite decide_False by naive_solver. lia.
  - rewrite He. solve_Permutation.
  - intros l'. rewrite occurrences_app, occurrences_one. destruct (decide (l = l')) as [<-|Hn]; [rewrite decide_True by done|rewrite decide_False by naive_solver]; lia.
Qed.

Lemma refines_unapprove h t k a r l auths : refines h t -> ms_approvals t !! k = Some a -> erase_found (provided_approvals a) l = Some r -> l ∈ auths ->
  refines (ev_unapprove k l auths :: h) (set_approvals t (<[k := mk_approvals (requested_approvals a ++ [l]) r]> (ms_approvals t))).
Proof.
  intros R Ha He Hl. apply erase_found_perm in He. eapply refines_modify; [done|done|done|..]; cbn [requested_approvals provided_approvals standing].
  - intros k' l' Hk. rewrite decide_False by naive_solver. lia.
  - rewrite He. solve_Permutation.
  - intros l'. rewrite (occurrences_perm l' _ _ He). change (l :: r) with ([l] ++ r). rewrite occurrences_app, occurrences_one.
    destruct (decide (l = l')) as [<-|Hn]; [rewrite decide_True by done|rewrite decide_False by naive_solver]; lia.
Qed.

Lemma refines_close h t k : refines h t -> refines (ev_close k :: h) (erased k t).
Proof.
  intros [R1 R2 R3]. constructor; simpl.
  - intros k'. destruct (decide (k = k')) as [<-|]; [by rewrite lookup_delete_eq|by rewrite lookup_delete_ne].
  - intros k'. destruct (decide (k = k')) as [<-|]; [rewrite lookup_delete_eq; by split; intros [? ?]|by rewrite lookup_delete_ne].
  - intros k' a b r. destruct (decide (k = k')) as [<-|]; [by rewrite lookup_delete_eq|by rewrite lookup_delete_ne; [apply R3|]].
Qed.

(** ** Bytes *)

Definition is_byte (b : Z) : Prop := 0 <= b < 256.
Definition level_ok (l : Z * Z) : Prop := (0 <= l.1 < 2 ^ 64) /\ 0 <= l.2 < 2 ^ 64.

Lemma le_value_bound l : Forall is_byte l -> 0 <= le_value l < 2 ^ (8 * Z.of_nat (length l)).
Proof.
  induction 1 as [|b l Hb Hl IH]; [simpl; lia|]. cbn [le_value length]. replace (8 * Z.of_nat (S (length l))) with (8 * Z.of_nat (length l) + 8) by lia.
  rewrite Z.pow_add_r by lia. change (2 ^ 8) with 256. unfold is_byte in Hb. lia.
Qed.

Lemma primitive_get_bound n ds v rest : Forall is_byte ds -> cd_get (primitive n) ds = Ok (v, rest) ->
  0 <= v < 2 ^ (8 * Z.of_nat n) /\ Forall is_byte rest.
Proof.
  intros Hds E. cbn [primitive cd_get] in E. apply bind_Ok in E as ([l ds'] & E0 & E). injection E as <- <-. unfold read in E0.
  apply bind_Ok in E0 as ([] & Hn%assert_Ok & E0). injection E0 as <- <-. apply Z.leb_le in Hn. rewrite Nat2Z.id. split; [|by apply Forall_drop].
  assert (length (take n ds) = n) as Hl by (rewrite length_take; lia). pose proof (le_value_bound (take n ds) (Forall_take _ _ _ Hds)) as Hb. by rewrite Hl in Hb.
Qed.

Lemma level_get_ok ds l rest : Forall is_byte ds -> cd_get level_codec ds = Ok (l, rest) -> level_ok l /\ Forall is_byte rest.
Proof.
  intros Hds E. cbn [level_codec pair_codec cd_get] in E. apply bind_Ok in E as ([a d1] & E1 & E). apply bind_Ok in E as ([b d2] & E2 & E). injection E as <- <-.
  apply primitive_get_bound in E1 as [Ha Hd1]; [|done]. by apply primitive_get_bound in E2 as [Hb Hd2].
Qed.

Lemma get_many_ok n : forall ds ls rest, Forall is_byte ds -> get_many level_codec n ds = Ok (ls, rest) -> Forall level_ok ls /\ length ls = n.
Proof.
  induction n as [|n IH]; intros ds ls rest Hds E; cbn [get_many] in E; [by injection E as <- _|].
  apply bind_Ok in E as ([l d1] & E1 & E). apply bind_Ok in E as ([ls1 d2] & E2 & E). injection E as <- <-.
  apply level_get_ok in E1 as [Hl Hd1]; [|done]. apply IH in E2 as [Hls Hn]; [|done]. split; [by constructor|simpl; by rewrite Hn].
Qed.

Lemma varint_get_u32 ds : forall b v n rest, varint_get b v ds = Ok (n, rest) -> 0 <= n < 2 ^ 32 /\ exists l, ds = l ++ rest.
Proof.
  induction ds as [|x ds IH]; intros b v n rest E; cbn [varint_get] in E; [done|]. apply bind_Ok in E as (? & _ & E). cbv zeta in E.
  destruct (_ =? 0).
  - injection E as <- <-. split; [apply Z.mod_pos_bound; lia|]. by exists [x].
  - apply IH in E as (Hn & l & ->). split; [done|]. by exists (x :: l).
Qed.

Definition levels_ok (ls : list (Z * Z)) : Prop := Z.of_nat (length ls) < 2 ^ 32 /\ Forall level_ok ls.

Lemma read_proposal_ok data p n r trx hd : Forall is_byte data -> read_proposal data = Ok (p, n, r, trx, hd) -> levels_ok r.
Proof.
  intros Hd E. unfold read_proposal in E. apply bind_Ok in E as ([p1 d1] & E1 & E). apply bind_Ok in E as ([n1 d2] & E2 & E).
  apply bind_Ok in E as ([r1 d3] & E3 & E). apply bind_Ok in E as ([h1 d4] & E4 & E). injection E as -> -> -> -> ->.
  apply primitive_get_bound in E1 as [_ H1]; [|done]. apply primitive_get_bound in E2 as [_ H2]; [|done].
  cbn [vector cd_get] in E3. apply bind_Ok in E3 as ([s d5] & E5 & E3). cbn [unsigned_int cd_get] in E5. apply varint_get_u32 in E5 as (Hs & l & ->).
  apply Forall_app in H2 as [_ H2]. apply get_many_ok in E3 as [Hr Hl]; [|done]. split; [rewrite Hl; lia|done].
Qed.

(** ** Runs *)

Section Runs.
Context `{Crypto} `{MetaOrder} `{ActionData} `{TransactionData}.
Context (unpack_keys : list Z -> result (list public_key_type)) (unpack_levels : list Z -> result (list (Z * Z))).

(** The successful actions of the contract, each in a block and an action of its
    own. *)
Inductive msig_run : list msig_event -> msig_tables -> Prop :=
| mr_start : msig_run [] no_tables
| mr_propose cv data p n r trx hd s s' h :
    msig_run h (ms_tables s) -> Forall is_byte data -> read_proposal data = Ok (p, n, r, trx, hd) ->
    propose cv unpack_keys unpack_levels data s = (s', Ok tt) -> msig_run (ev_propose (p, n) trx r :: h) (ms_tables s')
| mr_approve p n l s s' h :
    msig_run h (ms_tables s) -> approve p n l s = (s', Ok tt) -> msig_run (ev_approve (p, n) l (auths_of s) :: h) (ms_tables s')
| mr_unapprove p n l s s' h :
    msig_run h (ms_tables s) -> unapprove p n l s = (s', Ok tt) -> msig_run (ev_unapprove (p, n) l (auths_of s) :: h) (ms_tables s')
| mr_cancel cv p n c s s' h :
    msig_run h (ms_tables s) -> cancel cv p n c s = (s', Ok tt) -> msig_run (ev_close (p, n) :: h) (ms_tables s')
| mr_exec cv p n e s s' h :
    msig_run h (ms_tables s) -> exec cv unpack_keys unpack_levels p n e s = (s', Ok tt) -> msig_run (ev_close (p, n) :: h) (ms_tables s').

Lemma run_refines h t : msig_run h t -> refines h t.
Proof.
  induction 1 as [|cv data p n r trx hd s s' h _ IH _ Er E|p n l s s' h _ IH E|p n l s s' h _ IH E|cv p n c s s' h _ IH E|cv p n e s s' h _ IH E].
  - apply refines_empty.
  - apply propose_Ok in E as (p' & n' & r' & trx' & hd' & Er' & _ & _ & _ & Hp & Ha & ->). rewrite Er in Er'. injection Er' as <- <- <- <- <-.
    by apply refines_propose.
  - apply approve_Ok in E as (Hl & a & r & Ha & He & ->). by eapply refines_approve.
  - apply unapprove_Ok in E as (Hl & a & r & Ha & He & ->). by eapply refines_unapprove.
  - apply cancel_Ok in E as (_ & -> & _). by apply refines_close.
  - apply exec_Ok in E as (_ & -> & _). by apply refines_close.
Qed.

Lemma run_levels_ok h t k b r : msig_run h t -> proposed h k = Some (b, r) -> levels_ok r.
Proof.
  induction 1 as [|cv data p n r' trx hd s s' h _ IH Hd Er E| | |cv p n c s s' h _ IH E|cv p n e s s' h _ IH E]; simpl; try done.
  - destruct (decide (_ = k)); [|done]. intros [= <- <-]. by eapply read_proposal_ok.
  - by destruct (decide (_ = k)).
  - by destruct (decide (_ = k)).
Qed.

Lemma levels_ok_part ls r k : ls ++ r ≡ₚ k -> levels_ok k -> levels_ok r.
Proof.
  intros Hp [Hl Hf]. rewrite <- Hp in Hf. apply Forall_app in Hf as [_ Hf]. split; [|done].
  apply Permutation_length in Hp. rewrite length_app in Hp. lia.
Qed.

(** What the chain reads from a packed list of levels is the set of them. *)
Definition reads_levels : Prop := forall ls, levels_ok ls ->
  exists set, unpack_levels (pack (vector level_codec) ls) = Ok set /\ forall l, l ∈ set <-> l ∈ ls.

Lemma check_transaction_Ok cv db trx ls : reads_levels -> levels_ok ls ->
  check_transaction_authorization cv unpack_keys unpack_levels db trx [] (pack (vector level_codec) ls) = Ok true ->
  exists t set, raw_unpack_transaction trx = Ok t /\ (forall l, l ∈ set -> l ∈ ls) /\
    check_authorization (db_auth db) (db_generated db) (auth_cfg cv) (tr_actions t) [] set (tr_delay_sec t * 1000000) false [] = Ok tt.
Proof.
  intros Hlaw Hls E. unfold check_transaction_authorization in E. apply bind_Ok in E as (t & Et & E). apply bind_Ok in E as (keys & Ek & E). injection Ek as <-.
  apply bind_Ok in E as (set & Es & E). exists t, set. split; [done|]. destruct (Hlaw ls Hls) as (set' & Hu & Hin).
  assert (forall l, l ∈ set -> l ∈ ls) as Hset.
  { destruct (pack (vector level_codec) ls) eqn:Ep; [injection Es as <-; by intros l ?%not_elem_of_nil|]. rewrite Hu in Es. injection Es as <-. intros x. apply Hin. }
  split; [done|]. unfold authorized_or_not in E. destruct (check_authorization _ _ _ _ _ _ _ _ _) as [[]|e]; [done|]. by destruct (is_authorization_exception e).
Qed.

End Runs.

(** ** Theorems *)

(** C26: the tables of the multisig contract are what the history of its actions
    says: a proposal is open exactly under the keys that were proposed and neither
    cancelled nor executed since, with the bytes that were proposed; requested and
    provided approvals together are the levels first requested; and a level is
    among the provided ones as often as actions it authorized approved the
    proposal, less those that withdrew. *)
Theorem msig_tables_refine `{Crypto} `{MetaOrder} `{ActionData} `{TransactionData} unpack_keys unpack_levels h t
  (Hrun : msig_run unpack_keys unpack_levels h t) :
  (forall k, ms_proposals t !! k = fst <$> proposed h k) /\
  (forall k, is_Some (ms_approvals t !! k) <-> is_Some (proposed h k)) /\
  (forall k a b r, ms_approvals t !! k = Some a -> proposed h k = Some (b, r) ->
     requested_approvals a ++ provided_approvals a ≡ₚ r /\ forall l, occurrences l (provided_approvals a) = standing h k l).
Proof. by apply run_refines in Hrun as []. Qed.

(** C27: a proposal that is executed is sent exactly as it was proposed, before it
    expires: one deferred transaction is scheduled, for the transaction that the
    proposed bytes encode, and the proposal is closed. Every authorization its
    actions declare is granted by levels that were requested by the proposer, and
    whose approval, given in an action they authorized, has not been withdrawn. *)
Theorem msig_exec_authorized `{Crypto} `{MetaOrderLaws} `{ActionData} `{TransactionData} unpack_keys unpack_levels cv h p n e s s'
  (Hlaw : reads_levels unpack_levels)
  (Hok : perms_ok (db_auth (ts_db (as_ts (ms_as s)))))
  (Hrun : msig_run unpack_keys unpack_levels h (ms_tables s))
  (E : exec cv unpack_keys unpack_levels p n e s = (s', Ok tt)) :
  let db := ts_db (as_ts (ms_as s)) in
  exists b r trx hd levels,
    proposed h (p, n) = Some (b, r) /\ raw_unpack_transaction b = Ok trx /\ unpack header_codec b = Ok hd /\ now cv <= th_expiration hd /\
    (exists k, generated_of (ms_as s') =
       <[k := deferred_row cv (ax_receiver (as_ax (ms_as s))) (proposal_id p n) e (deferred_header cv trx)]> (generated_of (ms_as s))) /\
    ms_proposals (ms_tables s') !! (p, n) = None /\
    (forall l, l ∈ levels -> l ∈ r /\ 1 <= standing h (p, n) l) /\
    forall a, a ∈ tr_actions trx ->
      exists d, action_authorized (db_auth db) (db_generated db) a (effective_delay (auth_cfg cv) (tr_delay_sec trx * 1000000)) d /\
      forall l, l ∈ act_authorization a ->
        exists d', d' <= d /\ granted (permission_authority (db_auth db)) (make_auth_checker (max_authority_depth (auth_cfg cv)) [] levels d') l.
Proof.
  apply exec_Ok in E as (_ & Ht & b & a & hd & s1 & Hb & Ha & Hh & Hexp & Hc & HT & Hrec & Hsend). cbv zeta.
  pose proof (run_refines _ _ _ _ Hrun) as [R1 R2 R3]. rewrite R1 in Hb. apply fmap_Some in Hb as ([b' r] & Hprop & ->).
  destruct (R3 _ _ _ _ Ha Hprop) as [Hperm Hocc].
  apply check_transaction_Ok in Hc as (trx & set & Htrx & Hset & Hauth); [|done|by eapply levels_ok_part, run_levels_ok].
  exists b', r, trx, hd, set. split_and!; try done.
  - unfold send_deferred in Hsend. apply M_bind_Ok in Hsend as (s2 & t2 & E0 & Hsend). apply lift_Ok in E0 as [-> E0]. simpl in Htrx, E0. rewrite Htrx in E0. injection E0 as <-.
    apply schedule_deferred_Ok in Hsend as (_ & _ & _ & Hg). apply row_written_some in Hg as [k Hg]. exists k. rewrite Hrec in Hg. rewrite Hg. unfold generated_of. by rewrite HT.
  - rewrite Ht. simpl. apply lookup_delete_eq.
  - intros l Hl%Hset. split; [rewrite <- Hperm; apply elem_of_app; by right|]. rewrite <- Hocc. by apply occurrences_pos.
  - intros act Hact. destruct (check_authorization_Ok _ _ _ _ _ _ _ _ _ Hok Hauth act Hact) as (d & Hd & Hl). exists d. split; [done|].
    intros l Hin. by destruct (Hl l Hin) as [?%not_elem_of_nil|?].
Qed.

(** ** A run: [alice] proposes and approves, [bob] executes *)

Module MultisigDemo.
Import NativeRuns.Runs TransactionRuns.ContextDemo ApplyRuns.ApplyDemo.
#[local] Existing Instances AuthorityProofs.Runs.order AuthorityProofs.Runs.order_laws NativeRuns.Runs.data TransactionRuns.ContextDemo.plain_crypto.

(** A transaction is its header and the number of its greetings. *)
#[local] Instance header_data : TransactionData := {|
  pack_transaction := fun t => cd_put header_codec (mk_trx_header (tr_expiration t) (tr_ref_block_num t) (tr_ref_block_prefix t)
    (tr_max_net_usage_words t) (tr_max_cpu_usage_ms t) (tr_delay_sec t)) ++ [Z.of_nat (length (tr_actions t))];
  raw_unpack_transaction := fun data => '(hd, rest) ← cd_get header_codec data; '(n, _) ← get rest;
    mret (mk_transaction (th_expiration hd) (th_ref_block_num hd) (th_ref_block_prefix hd) (th_net_usage_words hd) (th_max_cpu_usage_ms hd)
            (th_delay_sec hd) [] (replicate (Z.to_nat n) greet) []);
  hash_transaction := fun t => mk_digest (tr_expiration t) 0 0 0;
  hash_signing := fun _ t d => mk_digest (tr_delay_sec t + hash0 d) 0 0 0;
  hash_context_free_data := fun d => zero_digest;
  pack_context_free := fun _ => [0]; raw_unpack_context_free := fun _ => Ok [];
  zlib_deflate := fun b => b; zlib_inflate := fun b => Ok b
|}.

Definition no_keys (_ : list Z) : result (list public_key_type) := Ok [].
Definition read_levels (data : list Z) : result (list (Z * Z)) := unpack (vector level_codec) data.

Lemma read_levels_law : reads_levels read_levels.
Proof.
  intros ls [Hl Hf]. exists ls. split; [|done]. unfold read_levels, unpack, pack. rewrite <- (app_nil_r (cd_put _ ls)).
  rewrite (get_put (c := vector level_codec)); [done|]. split; [done|]. exact Hf.
Qed.

(** The contract runs on the account of [bob]. *)
Definition in_action (who : Z) (t : msig_tables) : msig_state :=
  mk_msig (mk_as running (make_apply_ctx (mk_action bob 1 [(who, active_name)] []) bob false 0)) t.

Definition greeting_trx : buffer := cd_put header_codec (mk_trx_header (block_time / 1000000 + 30) 0 0 0 0 0) ++ [1].
Definition proposal_data : buffer :=
  cd_put (primitive 8) alice ++ cd_put (primitive 8) 33 ++ cd_put (vector level_codec) [(alice, active_name)] ++ greeting_trx.

Definition after_propose : msig_state := (propose producing no_keys read_levels proposal_data (in_action alice no_tables)).1.
Definition after_approve : msig_state := (approve alice 33 (alice, active_name) (in_action alice (ms_tables after_propose))).1.
Definition before_exec : msig_state := in_action bob (ms_tables after_approve).
Definition after_exec : msig_state := (exec producing no_keys read_levels alice 33 bob before_exec).1.

(** The proposal is not executed before it is approved. *)
Example not_without_approval :
  (exec producing no_keys read_levels alice 33 bob (in_action bob (ms_tables after_propose))).2 = Err snax_assert_message.
Proof. vm_compute. reflexivity. Qed.

Lemma msig_demo_run : msig_run no_keys read_levels
  [ev_approve (alice, 33) (alice, active_name) [(alice, active_name)]; ev_propose (alice, 33) greeting_trx [(alice, active_name)]] (ms_tables before_exec).
Proof.
  change (ms_tables before_exec) with (ms_tables after_approve).
  refine (mr_approve _ _ alice 33 (alice, active_name) (in_action alice (ms_tables after_propose)) after_approve _ _ _); [|vm_compute; reflexivity].
  refine (mr_propose _ _ producing proposal_data alice 33 [(alice, active_name)] greeting_trx (mk_trx_header (block_time / 1000000 + 30) 0 0 0 0 0)
    (in_action alice no_tables) after_propose [] (mr_start _ _) _ _ _).
  - vm_compute. repeat constructor; congruence.
  - vm_compute. reflexivity.
  - vm_compute. reflexivity.
Qed.

Lemma msig_tables_refine_witness : ms_proposals (ms_tables before_exec) !! (alice, 33) = Some greeting_trx.
Proof. destruct (msig_tables_refine no_keys read_levels _ _ msig_demo_run) as [H _]. rewrite H. reflexivity. Defined.

Lemma msig_exec_authorized_witness : ms_proposals (ms_tables after_exec) !! (alice, 33) = None.
Proof.
  destruct (msig_exec_authorized no_keys read_levels producing _ alice 33 bob before_exec after_exec read_levels_law sharing_ok msig_demo_run)
    as (b & r & trx & hd & ls & _ & _ & _ & _ & _ & Hn & _).
  - vm_compute. reflexivity.
  - exact Hn.
Defined.

End MultisigDemo.
