(* ===== verification/Controller.v ===== *)
(** * Transactions in the pending block

    [controller.cpp] of [libraries/chain] from the pending block down: input,
    implicit and scheduled transactions with their receipts and their undo
    sessions, error handlers, the beginning and the end of a block, the
    proposal of a producer schedule, and the validation of a block that was
    received.

    The database that chainbase keeps under undo sessions is the record
    [chain_state]; an undo puts an earlier value back. Signals to plugins and
    traces are left out, a reading of the clock is an argument. *)

From Stdlib Require Import ZArith Lia Bool String.
From stdpp Require Import base numbers gmap list.
From S2P Require Import Prelude ResourceLimits BlockTime Name Merkle BlockHeader Authority Permissions NativeActions ChainConfig Transaction.
From S2P Require Import Block TransactionContext ApplyContext.

Open Scope Z_scope.

(** ** State *)

Record global_property_object := mk_gpo {
  gp_configuration : chain_config;
  gp_proposed_schedule_block_num : option Z;
  gp_proposed_schedule : producer_schedule_type
}.

Record chain_state := mk_chain {
  ch_db : chain_db;
  ch_recorded : gmap digest Z;
  ch_global_sequence : Z;
  ch_gpo : global_property_object;
  ch_summaries : gmap Z digest
}.

(** The pending block: the state of its header, its status, its receipts, the
    transactions behind them and the receipts of the actions. *)
Record pending_state := mk_pending {
  pb_block_state : block_header_state;
  pb_status : block_status;
  pb_producer_block_id : option digest;
  pb_transactions : list transaction_receipt;
  pb_trxs : list transaction_metadata;
  pb_actions : list action_receipt
}.

Record build_state := mk_build {
  bs_chain : chain_state;
  bs_pending : pending_state;
  bs_unapplied : gmap digest transaction_metadata;
  bs_in_trx_requiring_checks : bool;
  bs_cache : recovery_cache
}.

Inductive db_read_mode := SPECULATIVE | HEAD | READ_ONLY | IRREVERSIBLE.
#[export] Instance db_read_mode_eq_dec : EqDecision db_read_mode.
Proof. solve_decision. Defined.

(** The members of the controller that do not change while a block is built. *)
Record node := mk_controller {
  nd_conf : controller_config;
  nd_chain_id : digest;
  nd_read_mode : db_read_mode;
  nd_replay_head_time : option Z;
  nd_subjective_cpu_leeway : option Z;
  nd_trusted_light_validation : bool;
  nd_head : block_header_state
}.

Definition set_chain (s : build_state) (c : chain_state) : build_state :=
  mk_build c (bs_pending s) (bs_unapplied s) (bs_in_trx_requiring_checks s) (bs_cache s).
Definition set_pending_state (s : build_state) (p : pending_state) : build_state :=
  mk_build (bs_chain s) p (bs_unapplied s) (bs_in_trx_requiring_checks s) (bs_cache s).
Definition set_unapplied (s : build_state) (u : gmap digest transaction_metadata) : build_state :=
  mk_build (bs_chain s) (bs_pending s) u (bs_in_trx_requiring_checks s) (bs_cache s).
Definition set_requiring_checks (s : build_state) (b : bool) : build_state :=
  mk_build (bs_chain s) (bs_pending s) (bs_unapplied s) b (bs_cache s).
Definition set_recovery_cache (s : build_state) (c : recovery_cache) : build_state :=
  mk_build (bs_chain s) (bs_pending s) (bs_unapplied s) (bs_in_trx_requiring_checks s) c.
Definition set_chain_db (c : chain_state) (db : chain_db) : chain_state :=
  mk_chain db (ch_recorded c) (ch_global_sequence c) (ch_gpo c) (ch_summaries c).
Definition set_gpo (c : chain_state) (g : global_property_object) : chain_state :=
  mk_chain (ch_db c) (ch_recorded c) (ch_global_sequence c) g (ch_summaries c).
Definition set_receipts (p : pending_state) (t : list transaction_receipt) (m : list transaction_metadata) (a : list action_receipt) :
    pending_state :=
  mk_pending (pb_block_state p) (pb_status p) (pb_producer_block_id p) t m a.
Definition set_block_state (p : pending_state) (b : block_header_state) : pending_state :=
  mk_pending b (pb_status p) (pb_producer_block_id p) (pb_transactions p) (pb_trxs p) (pb_actions p).

Definition modify_build (f : build_state -> build_state) : M build_state unit := s ← get_state; put_state (f s).

(** ** Failures *)

Definition failure_is_subjective (e : exn) : bool :=
  bool_decide (e ∈ [subjective_block_production_exception; block_net_usage_exceeded; greylist_net_usage_exceeded; block_cpu_usage_exceeded;
                    greylist_cpu_usage_exceeded; deadline_exception; leeway_deadline_exception; actor_whitelist_exception;
                    actor_blacklist_exception; contract_whitelist_exception; contract_blacklist_exception; action_blacklist_exception;
                    key_blacklist_exception]).
Definition scheduled_failure_is_subjective (e : exn) : bool :=
  bool_decide (e = tx_cpu_usage_exceeded) || failure_is_subjective e.

(** ** Receipts *)

Definition push_receipt (trx : digest + packed_transaction) (status : receipt_status) (cpu_usage_us net_usage : Z) : M build_state unit :=
  let net_usage_words := net_usage / 8 in
  M_ASSERT (u64 (net_usage_words * 8) =? net_usage) transaction_exception;;
  modify_build (fun s => let p := bs_pending s in
    set_pending_state s
      (set_receipts p (pb_transactions p ++ [mk_trx_receipt status (u32 cpu_usage_us) (u32 net_usage_words) trx]) (pb_trxs p) (pb_actions p))).

(** ** Running a transaction in the pending block *)

Record running := mk_running { rn_build : build_state; rn_tc : transaction_context }.

Definition on_build {A} (m : M build_state A) : M running A := fun r =>
  let '(s, x) := m (rn_build r) in (mk_running s (rn_tc r), x).

Definition trx_of (c : chain_state) (tc : transaction_context) : trx_state := mk_ts (ch_db c) (ch_recorded c) (ch_global_sequence c) tc.
Definition chain_of (c : chain_state) (t : trx_state) : chain_state :=
  mk_chain (ts_db t) (ts_recorded t) (ts_global_sequence t) (ch_gpo c) (ch_summaries c).

Definition on_trx {A} (m : M trx_state A) : M running A := fun r =>
  let c := bs_chain (rn_build r) in
  let '(t, x) := m (trx_of c (rn_tc r)) in
  (mk_running (set_chain (rn_build r) (chain_of c t)) (ts_tc t), x).

Definition set_settings (tc : transaction_context) (enforce : bool) (delay : Z) : transaction_context :=
  let set := tc_settings tc in
  mk_tc (mk_settings (tc_trx set) (tc_id set) (tc_start set) (tc_deadline set) (tc_leeway set) (tc_explicit_billed_cpu_time set) enforce delay)
    (tc_published tc) (tc_bill_to_accounts tc) (tc_validate_ram_usage tc) (tc_is_input tc) (tc_apply_context_free tc) (tc_is_initialized tc)
    (tc_net tc) (tc_cpu tc) (tc_executed tc).

(** The actions of the transaction are moved to the block. *)
Definition append_actions : M running unit := fun r =>
  let p := bs_pending (rn_build r) in
  (mk_running (set_pending_state (rn_build r) (set_receipts p (pb_transactions p) (pb_trxs p) (pb_actions p ++ tc_executed (rn_tc r))))
     (rn_tc r), Ok tt).

(** The readings of the clock: the construction of the context, the timer at the
    end of its initialisation, the end of the transaction and its failure. *)
Record clock := mk_clock { ck_start : Z; ck_expired : bool; ck_init : Z; ck_final : Z; ck_failed : Z }.

Definition default_leeway : Z := 3000.

Section Controller.
Context `{Cbrt} `{Crypto} `{MetaOrder} `{ActionData} `{TransactionData} `{Handlers} (nd : node).
(** [fc::raw::pack_size( signatures )], the digest of a packed transaction with
    its signatures, the packing of the two actions the controller sends, and the
    digests of receipts. *)
Context (pack_signatures : list signature_type -> Z) (signed_id : packed_transaction -> digest)
  (pack_onerror : Z -> list Z -> list Z) (pack_block_header : block_header -> list Z)
  (hash_receipt : transaction_receipt -> digest) (hash_action_receipt : action_receipt -> digest).

Notation conf := (nd_conf nd).

Definition pending_block_time (p : pending_state) : Z := to_time_point (timestamp (sbh_header (header (pb_block_state p)))).

(** What a transaction sees of the controller. *)
Definition view (s : build_state) : controller_view :=
  mk_view (gp_configuration (ch_gpo (bs_chain s))) conf
    (mk_status (Some (pb_status (bs_pending s))) (bs_in_trx_requiring_checks s) (nd_trusted_light_validation nd))
    (pending_block_time (bs_pending s)) (id (nd_head nd)) (ch_summaries (bs_chain s)).

Definition skip_db_sessions (bs : block_status) (requiring_checks : bool) : bool :=
  bool_decide (bs = irreversible) && negb (disable_replay_opts conf) && negb requiring_checks.

(** The destructor of a session that was not squashed, and of the restore point. *)
Definition undo (session : bool) (s0 s : build_state) : build_state :=
  set_pending_state (if session then set_chain s (bs_chain s0) else s) (bs_pending s0).

(** The [try] block of a context with the state [s0] under its session; on an
    exception that is not caught the destructors put it back. *)
Definition run_context (session : bool) (s0 : build_state) (tc : transaction_context) (body : M running unit) :
    M build_state (transaction_context * (unit + exn)) := fun s =>
  match try_catch body (mk_running s tc) with
  | (r, Ok x) => (rn_build r, Ok (rn_tc r, x))
  | (r, Err e) => (undo session s0 (rn_build r), Err e)
  end.

(** The code in the [try] block of [push_transaction]. *)
Definition push_transaction_body (cv : controller_view) (trx : transaction_metadata) (clk : clock) : M running unit :=
  let t := st_trx (md_trx trx) in
  (if md_implicit trx then
     on_trx (init_for_implicit_trx cv 0 (ck_expired clk) (ck_init clk));;
     on_trx (modify_tc (fun tc => set_settings tc false (tc_delay (tc_settings tc))))
   else
     let skip_recording := match nd_replay_head_time nd with Some time => tr_expiration t * 1000000 <=? time | None => false end in
     unprunable ← lift (get_unprunable_size (md_packed_trx trx));
     prunable ← lift (get_prunable_size pack_signatures (md_packed_trx trx));
     on_trx (init_for_input_trx cv unprunable prunable skip_recording (ck_expired clk) (ck_init clk)));;
  on_trx (modify_tc (fun tc => set_settings tc (tc_enforce_whiteblacklist (tc_settings tc)) (tr_delay_sec t * 1000000)));;
  trx ← (if negb (auth_skipped cv) && negb (md_implicit trx) then
     keys ← (fun r => let '(c, x) := recover_keys trx (nd_chain_id nd) (bs_cache (rn_build r)) in
                      (mk_running (set_recovery_cache (rn_build r) c) (rn_tc r), x));
     r ← get_state;
     let db := ch_db (bs_chain (rn_build r)) in
     lift (check_authorization (db_auth db) (db_generated db) (auth_cfg cv) (tr_actions t) keys.2 [] (tr_delay_sec t * 1000000) false []);;
     mret keys.1
   else mret trx);
  on_trx (exec_transaction cv);;
  on_trx (finalize cv (ck_final clk));;
  r ← get_state;
  (if md_implicit trx then mret tt
   else
     on_build (push_receipt (inr (md_packed_trx trx)) (if tr_delay_sec t =? 0 then executed else delayed)
                 (cm_billed_cpu_time_us (tc_cpu (rn_tc r))) (nm_net_usage (tc_net (rn_tc r))));;
     on_build (modify_build (fun s => let p := bs_pending s in
       set_pending_state s (set_receipts p (pb_transactions p) (pb_trxs p ++ [trx]) (pb_actions p)))));;
  append_actions.

(** The result is the exception of the trace. *)
Definition push_transaction (trx : transaction_metadata) (deadline billed_cpu_time_us : Z) (explicit_billed_cpu_time : bool) (clk : clock) :
    M build_state (option exn) :=
  M_ASSERT (negb (deadline =? 0)) transaction_exception;;
  s0 ← get_state;
  let session := negb (skip_db_sessions (pb_status (bs_pending s0)) (bs_in_trx_requiring_checks s0)) in
  let producing := bool_decide (pb_status (bs_pending s0) = incomplete) in
  let leeway := match nd_subjective_cpu_leeway nd with Some l => if producing then l else default_leeway | None => default_leeway end in
  let settings := mk_settings (st_trx (md_trx trx)) (md_id trx) (ck_start clk) deadline leeway explicit_billed_cpu_time true 0 in
  tc ← lift (make_context settings billed_cpu_time_us);
  '(_, r) ← run_context session s0 tc (push_transaction_body (view s0) trx clk);
  match r with
  | inl _ =>
      (if negb (bool_decide (nd_read_mode nd = SPECULATIVE)) && producing then modify_build (undo session s0) else mret tt);;
      (if md_implicit trx then mret tt
       else modify_build (fun s => set_unapplied s (delete (signed_id (md_packed_trx trx)) (bs_unapplied s))));;
      mret None
  | inr e =>
      modify_build (undo session s0);;
      (if failure_is_subjective e then mret tt
       else modify_build (fun s => set_unapplied s (delete (signed_id (md_packed_trx trx)) (bs_unapplied s))));;
      mret (Some e)
  end.

(** ** Scheduled transactions *)

Definition on_chain_limits (f : resource_limits -> result resource_limits) : M build_state unit := fun s =>
  let db := ch_db (bs_chain s) in
  match f (db_limits db) with
  | Ok rl => (set_chain s (set_chain_db (bs_chain s) (NativeActions.set_limits db rl)), Ok tt)
  | Err e => (s, Err e)
  end.

Definition remove_scheduled_transaction (trx_id : digest) (gto : generated_transaction_object) : M build_state unit :=
  on_chain_limits (fun rl => add_pending_ram_usage rl (gt_payer gto) (i64 (- generated_size gto)));;
  modify_build (fun s => let db := ch_db (bs_chain s) in
    set_chain s (set_chain_db (bs_chain s) (set_generated db (delete trx_id (db_generated db))))).

Definition onerror_name : Z := Eval vm_compute in N_ "onerror".

(** The transaction that brings a failed one back to its sender. *)
Definition onerror_transaction (cv : controller_view) (gtrx : generated_transaction_object) : transaction :=
  set_reference_block
    (mk_transaction ((cv_pending_block_time cv + 999999) / 1000000) 0 0 0 0 0 []
       [mk_action system_account_name onerror_name [(gt_sender gtrx, active_name)] (pack_onerror (gt_sender_id gtrx) (gt_packed_trx gtrx))] [])
    (cv_head_block_id cv).

(** The CPU time of a failed transaction. *)
Definition failed_cpu_time (cv : controller_view) (tc : transaction_context) (now : Z) : Z :=
  u32 (cm_billed_cpu_time_us (tc_cpu (update_billed_cpu_time cv tc now))).

Definition apply_onerror_body (cv : controller_view) (trx_id : digest) (gtrx : generated_transaction_object) (clk : clock) : M running unit :=
  on_trx (init_for_implicit_trx cv 0 (ck_expired clk) (ck_init clk));;
  on_trx (modify_tc (fun tc => put_phase tc (gt_published gtrx) (tc_is_input tc) (tc_apply_context_free tc) (tc_is_initialized tc)));;
  r ← get_state;
  act ← lift (of_option undefined_behavior (last (tr_actions (tc_trx (tc_settings (rn_tc r))))));
  on_trx (dispatch_action cv (inline_fuel cv) act (gt_sender gtrx) false 0);;
  on_trx (finalize cv (ck_final clk));;
  r ← get_state;
  on_build (push_receipt (inl trx_id) soft_fail (cm_billed_cpu_time_us (tc_cpu (rn_tc r))) (nm_net_usage (tc_net (rn_tc r))));;
  append_actions.

(** The exception of the trace, and the CPU time to bill for it. [start] is the
    pseudo start of the failed transaction. *)
Definition apply_onerror (trx_id : digest) (gtrx : generated_transaction_object) (deadline start billed_cpu_time_us : Z)
    (explicit_billed_cpu_time enforce_whiteblacklist : bool) (clk : clock) : M build_state (option (exn * Z)) :=
  s0 ← get_state;
  let cv := view s0 in
  let etrx := onerror_transaction cv gtrx in
  let session := negb (skip_db_sessions (pb_status (bs_pending s0)) (bs_in_trx_requiring_checks s0)) in
  tc ← lift (make_context (mk_settings etrx (hash_transaction etrx) start deadline default_leeway explicit_billed_cpu_time enforce_whiteblacklist 0)
               billed_cpu_time_us);
  '(tc, r) ← run_context session s0 tc (apply_onerror_body cv trx_id gtrx clk);
  match r with
  | inl _ => mret None
  | inr e => modify_build (undo session s0);; mret (Some (e, failed_cpu_time cv tc (ck_failed clk)))
  end.

(** The code in the [try] block of [push_scheduled_transaction]. *)
Definition push_scheduled_body (cv : controller_view) (trx_id : digest) (gtrx : generated_transaction_object) (clk : clock) : M running unit :=
  on_trx (init_for_deferred_trx cv (gt_published gtrx) (ck_expired clk) (ck_init clk));;
  r ← get_state;
  (if tc_enforce_whiteblacklist (tc_settings (rn_tc r)) && is_producing_block (cv_status cv)
   then lift (check_actor_list conf (tc_bill_to_accounts (rn_tc r))) else mret tt);;
  on_trx (exec_transaction cv);;
  on_trx (finalize cv (ck_final clk));;
  r ← get_state;
  on_build (push_receipt (inl trx_id) executed (cm_billed_cpu_time_us (tc_cpu (rn_tc r))) (nm_net_usage (tc_net (rn_tc r))));;
  append_actions.

(** The bill of a hard failure. *)
Definition bill_hard_failure (cv : controller_view) (tc : transaction_context) (explicit_billed_cpu_time : bool) (cpu_time_to_bill_us : Z) :
    M build_state Z :=
  cpu ← (if explicit_billed_cpu_time then mret cpu_time_to_bill_us
         else
           on_chain_limits (fun rl => update_account_usage rl (tc_bill_to_accounts tc) (pending_slot cv));;
           s ← get_state;
           '(_, account_cpu_limit, _, _) ←
             lift (max_bandwidth_billed_accounts_can_pay cv (db_limits (ch_db (bs_chain s))) (tc_bill_to_accounts tc) true);
           mret (u32 (Z.min (Z.min cpu_time_to_bill_us account_cpu_limit) (cm_initial_objective_duration_limit (tc_cpu tc)))));
  on_chain_limits (fun rl => add_transaction_usage rl (tc_bill_to_accounts tc) cpu 0 (pending_slot cv));;
  mret cpu.

(** After a failure: the sender's handler, then the hard failure unless the reason
    is the node's own. [tc] is the context that failed with [e]; the flag says
    whether the transaction was retired. *)
Definition retire_failed (cv : controller_view) (trx_id : digest) (gtrx : generated_transaction_object) (tc : transaction_context) (e : exn)
    (deadline billed_cpu_time_us : Z) (explicit_billed_cpu_time : bool) (clk clk' : clock) : M build_state (option exn * bool) :=
  let cpu := failed_cpu_time cv tc (ck_failed clk) in
  handled ← (if negb (gt_sender gtrx =? 0) && negb (failure_is_subjective e)
             then apply_onerror trx_id gtrx deadline (cm_pseudo_start (tc_cpu tc)) billed_cpu_time_us
                    explicit_billed_cpu_time (tc_enforce_whiteblacklist (tc_settings tc)) clk'
             else mret (Some (e, cpu)));
  match handled with
  | None => mret (None, true)
  | Some (e, cpu) =>
      let subjective := if explicit_billed_cpu_time then failure_is_subjective e else scheduled_failure_is_subjective e in
      if subjective then mret (Some e, false)
      else
        cpu ← bill_hard_failure cv tc explicit_billed_cpu_time cpu;
        push_receipt (inl trx_id) hard_fail cpu 0;;
        mret (Some e, true)
  end.

(** The transaction with its outer session: an exception, or a result that was not
    retired, undoes everything, the removal of the row included. *)
Definition run_scheduled (trx_id : digest) (gto : generated_transaction_object) (deadline billed_cpu_time_us : Z)
    (explicit_billed_cpu_time : bool) (clk clk' : clock) : M build_state (option exn * bool) :=
  remove_scheduled_transaction trx_id gto;;
  s ← get_state;
  let now := pending_block_time (bs_pending s) in
  M_ASSERT (gt_delay_until gto <=? now) transaction_exception;;
  dtrx ← lift (raw_unpack_transaction (gt_packed_trx gto));
  if gt_expiration gto <? now then
    push_receipt (inl trx_id) expired billed_cpu_time_us 0;; mret (None, true)
  else
    modify_build (fun s => set_requiring_checks s true);;
    s0 ← get_state;
    let cv := view s0 in
    let enforce := if gt_sender gto =? 0 then true else negb (sender_avoids_whitelist_blacklist_enforcement conf (gt_sender gto)) in
    tc ← lift (make_context (mk_settings dtrx trx_id (ck_start clk) deadline 0 explicit_billed_cpu_time enforce 0) billed_cpu_time_us);
    '(tc, r) ← run_context true s0 tc (push_scheduled_body cv trx_id gto clk);
    match r with
    | inl _ => mret (None, true)
    | inr e =>
        modify_build (undo true s0);;
        retire_failed cv trx_id gto tc e deadline billed_cpu_time_us explicit_billed_cpu_time clk clk'
    end.

Definition push_scheduled_transaction (trx_id : digest) (deadline billed_cpu_time_us : Z) (explicit_billed_cpu_time : bool) (clk clk' : clock) :
    M build_state (option exn) := fun s0 =>
  match db_generated (ch_db (bs_chain s0)) !! trx_id with
  | None => (s0, Err unknown_transaction_exception)
  | Some gto =>
      let session := negb (skip_db_sessions (pb_status (bs_pending s0)) (bs_in_trx_requiring_checks s0)) in
      let '(s, r) := run_scheduled trx_id gto deadline billed_cpu_time_us explicit_billed_cpu_time clk clk' s0 in
      let s := set_requiring_checks s (bs_in_trx_requiring_checks s0) in
      let undone := if session then set_chain s (bs_chain s0) else s in
      match r with
      | Ok (x, true) => (s, Ok x)
      | Ok (x, false) => (undone, Ok x)
      | Err e => (undone, Err e)
      end
  end.

(** ** Schedules *)

(** [set_proposed_producers]: the version of the schedule, or -1. *)
Definition set_proposed_producers (ps : list producer_key) : M build_state Z := fun s =>
  let gpo := ch_gpo (bs_chain s) in
  let cur_block_num := u32 (block_num (nd_head nd) + 1) in
  let bst := pb_block_state (bs_pending s) in
  let refused := match gp_proposed_schedule_block_num gpo with
                 | Some n => negb (n =? cur_block_num) || bool_decide (ps = producers (gp_proposed_schedule gpo))
                 | None => false
                 end in
  if refused then (s, Ok (-1))
  else
    let last := if bool_decide (producers (pending_schedule bst) = []) then active_schedule bst else pending_schedule bst in
    if bool_decide (ps = producers last) then (s, Ok (-1))
    else
      let v := u32 (version last + 1) in
      (set_chain s (set_gpo (bs_chain s) (mk_gpo (gp_configuration gpo) (Some cur_block_num) (mk_schedule v ps))), Ok v).

(** [set_proposed_producers] of [privileged_api], after the unpacking. *)
Definition api_set_proposed_producers (ps : list producer_key) : M build_state Z :=
  M_ASSERT (Z.of_nat (length ps) <=? max_producers) wasm_execution_error;;
  s ← get_state;
  lift (check_all (fun p =>
    SNAX_ASSERT (bool_decide (is_Some (db_accounts (ch_db (bs_chain s)) !! producer_name p))) wasm_execution_error;;
    SNAX_ASSERT (negb (block_signing_key_of p =? default_key)) wasm_execution_error) ps);;
  M_ASSERT (bool_decide (NoDup (producer_name <$> ps))) wasm_execution_error;;
  set_proposed_producers ps.

(** A schedule that was proposed in a block which is irreversible now becomes
    pending, if there is room and none was promoted in this block. *)
Definition promote_proposed (was_pending_promoted : bool) : M build_state unit :=
  s ← get_state;
  let gpo := ch_gpo (bs_chain s) in
  let bst := pb_block_state (bs_pending s) in
  match gp_proposed_schedule_block_num gpo with
  | Some n =>
      if (n <=? dpos_irreversible_blocknum bst) && bool_decide (producers (pending_schedule bst) = []) && negb was_pending_promoted then
        bst ← lift (set_new_producers bst (gp_proposed_schedule gpo));
        put_state (set_chain (set_pending_state s (set_block_state (bs_pending s) bst))
                     (set_gpo (bs_chain s) (mk_gpo (gp_configuration gpo) None (mk_schedule 0 []))))
      else mret tt
  | None => mret tt
  end.

(** ** The beginning of a block *)

Definition onblock_name : Z := Eval vm_compute in N_ "onblock".

Definition get_on_block_transaction (cv : controller_view) : transaction :=
  let t := set_reference_block
             (mk_transaction 0 0 0 0 0 0 []
                [mk_action system_account_name onblock_name [(system_account_name, active_name)] (pack_block_header (sbh_header (header (nd_head nd))))] [])
             (cv_head_block_id cv) in
  Transaction.with_header t ((cv_pending_block_time cv + 999999) / 1000000) (tr_ref_block_num t) (tr_ref_block_prefix t).

(** [transaction_metadata( signed_transaction )]. *)
Definition metadata_of_signed (t : signed_transaction) (implicit : bool) : transaction_metadata :=
  mk_metadata (hash_transaction (st_trx t)) t (packed_of_signed t none) None implicit.

(** The implicit transaction; its failures are logged only. *)
Definition push_onblock (clk : clock) : M build_state unit :=
  s0 ← get_state;
  let trx := metadata_of_signed (mk_signed (get_on_block_transaction (view s0)) [] []) true in
  modify_build (fun s => set_requiring_checks s true);;
  catch_all (push_transaction trx INT64_MAX (cc_min_transaction_cpu_usage (gp_configuration (ch_gpo (bs_chain s0)))) true clk;; mret tt);;
  modify_build (fun s => set_requiring_checks s (bs_in_trx_requiring_checks s0)).

Definition block_housekeeping : M build_state unit :=
  s ← get_state;
  let c := bs_chain s in
  let recorded := clear_expired_input_transactions (ch_recorded c) (pending_block_time (bs_pending s)) in
  ad ← lift (update_producers_authority (db_auth (ch_db c)) (producer_name <$> producers (active_schedule (pb_block_state (bs_pending s)))));
  put_state (set_chain s (mk_chain (set_auth (ch_db c) ad) recorded (ch_global_sequence c) (ch_gpo c) (ch_summaries c))).

(** What lives on when the pending block does not: the transactions that wait and
    the cache of keys. *)
Definition left_over : Type := gmap digest transaction_metadata * recovery_cache.
Definition rest (s : build_state) : left_over := (bs_unapplied s, bs_cache s).

(** [start_block] on the database [c]; an exception leaves no pending block. The
    guards on a block that is pending already and on the revision of the database
    are those of the caller. *)
Definition start_block (c : chain_state) (unapplied : gmap digest transaction_metadata) (cache : recovery_cache) (when confirm_block_count : Z)
    (status : block_status) (producer_block_id : option digest) (clk : clock) : left_over * result build_state :=
  match generate_next (nd_head nd) when with
  | Err e => ((unapplied, cache), Err e)
  | Ok bst =>
      let bst := set_confirmed bst confirm_block_count in
      let '(bst, was_pending_promoted) := maybe_promote_pending bst in
      let s := mk_build c (mk_pending bst status producer_block_id [] [] []) unapplied false cache in
      if bool_decide (nd_read_mode nd = SPECULATIVE) || negb (bool_decide (status = incomplete)) then
        match (promote_proposed was_pending_promoted;; push_onblock clk;; block_housekeeping) s with
        | (s, Ok _) => (rest s, Ok s)
        | (s, Err e) => (rest s, Err e)
        end
      else (rest s, Ok s)
  end.

(** ** The end of a block *)

Definition set_roots (bst : block_header_state) (action_root trx_root : digest) : block_header_state :=
  let h := sbh_header (header bst) in
  let h := mk_header (timestamp h) (producer h) (confirmed h) (previous h) trx_root action_root (schedule_version h) (new_producers h)
             (header_extensions h) in
  BlockHeader.with_header bst (mk_signed_header h (producer_signature (header bst))) (header_id h).

Definition finalize_block : M build_state unit :=
  s ← get_state;
  let '(cpu, net) := block_parameters (gp_configuration (ch_gpo (bs_chain s))) in
  on_chain_limits process_account_limit_updates;;
  on_chain_limits (fun rl => set_block_parameters rl cpu net);;
  on_chain_limits (fun rl => process_block_usage rl (block_num (pb_block_state (bs_pending s))));;
  modify_build (fun s =>
    let p := bs_pending s in
    let bst := set_roots (pb_block_state p) (merkle hash_pair (hash_action_receipt <$> pb_actions p))
                 (merkle hash_pair (hash_receipt <$> pb_transactions p)) in
    let c := bs_chain s in
    set_chain (set_pending_state s (set_block_state p bst))
      (mk_chain (ch_db c) (ch_recorded c) (ch_global_sequence c) (ch_gpo c) (create_block_summary (ch_summaries c) (id bst)))).

(** [abort_block]: the transactions wait for another block. *)
Definition abort_block (s : build_state) : gmap digest transaction_metadata :=
  if bool_decide (nd_read_mode nd = SPECULATIVE)
  then foldl (fun u t => <[signed_id (md_packed_trx t) := t]> u) (bs_unapplied s) (pb_trxs (bs_pending s))
  else bs_unapplied s.

(** ** Blocks of others *)

(** One receipt of the block is carried out and compared. *)
Definition apply_receipt (receipt : transaction_receipt) (clk clk' : clock) : M build_state unit :=
  s0 ← get_state;
  let num_pending_receipts := length (pb_transactions (bs_pending s0)) in
  except ← match tp_trx receipt with
           | inr pt => mtrx ← lift (metadata_of_packed pt); push_transaction mtrx INT64_MAX (tp_cpu_usage_us receipt) true clk
           | inl i => push_scheduled_transaction i INT64_MAX (tp_cpu_usage_us receipt) true clk clk'
           end;
  let can_fail := bool_decide (tp_status receipt = hard_fail) && match tp_trx receipt with inl _ => true | inr _ => false end in
  (match except with Some e => if can_fail then mret tt else throw e | None => mret tt end);;
  s ← get_state;
  let rs := pb_transactions (bs_pending s) in
  M_ASSERT (bool_decide (length rs = S num_pending_receipts)) block_validate_exception;;
  r ← lift (of_option undefined_behavior (last rs));
  M_ASSERT (same_receipt r receipt) block_validate_exception.

Fixpoint apply_receipts (receipts : list transaction_receipt) (clks : nat -> clock * clock) : M build_state unit :=
  match receipts with
  | [] => mret tt
  | r :: receipts => apply_receipt r (clks 0%nat).1 (clks 0%nat).2;; apply_receipts receipts (fun n => clks (S n))
  end.

(** The metadata of all packed transactions is made before the first one runs. *)
Definition check_packed (receipts : list transaction_receipt) : result unit :=
  check_all (fun r => match tp_trx r with inr pt => _ ← metadata_of_packed pt; mret tt | inl _ => mret tt end) receipts.

(** The block as it was carried out, with the signature of its producer. *)
Definition take_signature (b : signed_block) (s : build_state) : result build_state :=
  let p := bs_pending s in
  let bst := pb_block_state p in
  SNAX_ASSERT (bool_decide (header_id (sbh_header (sb_header b)) = header_id (sbh_header (header bst)))) block_validate_exception;;
  mret (set_pending_state s (set_block_state p
    (BlockHeader.with_header bst (mk_signed_header (sbh_header (header bst)) (producer_signature (sb_header b))) (id bst)))).

(** [apply_block] up to [commit_block]; an exception aborts the block. *)
Definition apply_block (c : chain_state) (unapplied : gmap digest transaction_metadata) (cache : recovery_cache) (b : signed_block)
    (status : block_status) (clk : clock) (clks : nat -> clock * clock) : left_over * result build_state :=
  if negb (bool_decide (sb_extensions b = [])) then ((unapplied, cache), Err block_validate_exception)
  else
    let h := sbh_header (sb_header b) in
    match start_block c unapplied cache (timestamp h) (confirmed h) status (Some (header_id h)) clk with
    | (l, Err e) => (l, Err e)
    | (_, Ok s) =>
        match (lift (check_packed (sb_transactions b));; apply_receipts (sb_transactions b) clks;; finalize_block;;
               s ← get_state; lift (take_signature b s)) s with
        | (s, Ok s') => (rest s', Ok s')
        | (s, Err e) => ((abort_block s, bs_cache s), Err e)
        end
    end.

End Controller.
