(* ===== verification/ControllerProofs.v ===== *)
(** * What the pending block charges

    A transaction leaves the counters of the block alone until it is billed; its
    bill fits into what the block has left. So the receipts of a block never
    promise more than the block allows. A scheduled transaction is retired by
    exactly one receipt or left as it was. *)

From Stdlib Require Import ZArith Lia Bool.
From stdpp Require Import base numbers gmap sets list fin_maps.
From S2P Require Import Prelude ResourceLimits ResourceLimitsProofs BlockTime Name Merkle BlockHeader Authority Permissions NativeActions.
From S2P Require Import ChainConfig Transaction TransactionProofs Block Bandwidth TransactionContext TransactionContextProofs ApplyContext.
From S2P Require Import ApplyContextProofs ApplyRuns Controller.

Open Scope Z_scope.

Notation rl_of s := (db_limits (ts_db s)).

(** ** Steps that keep the counters and limits *)

Record kept (t t' : trx_state) : Prop := {
  kp_config : config (rl_of t') = config (rl_of t);
  kp_state : state (rl_of t') = state (rl_of t);
  kp_net : nm_net_limit (tc_net (ts_tc t')) = nm_net_limit (tc_net (ts_tc t));
  kp_cpu : cm_objective_duration_limit (tc_cpu (ts_tc t')) = cm_objective_duration_limit (tc_cpu (ts_tc t))
}.

#[export] Instance kept_preorder : PreOrder kept.
Proof. split; [done|]. intros x y z [] []. constructor; congruence. Qed.

Definition keeps {A} (m : M trx_state A) : Prop := forall s s' a, m s = (s', Ok a) -> kept s s'.
Definition keeps_ax {A} (m : M apply_state A) : Prop := forall s s' a, m s = (s', Ok a) -> kept (as_ts s) (as_ts s').

Lemma keeps_bind {A B} (m : M trx_state A) (f : A -> M trx_state B) : keeps m -> (forall a, keeps (f a)) -> keeps (m ≫= f).
Proof. intros Hm Hf s s' b E. apply M_bind_Ok in E as (s1 & a & E0 & E). etrans; [by eapply Hm|by eapply Hf]. Qed.
Lemma keeps_ret {A} (a : A) : keeps (mret a).
Proof. intros s s' b E. injection E as <- _. done. Qed.
Lemma keeps_lift {A} (r : result A) : keeps (lift r).
Proof. intros s s' b E. by apply lift_Ok in E as [-> _]. Qed.
Lemma keeps_assert b e : keeps (M_ASSERT b e).
Proof. intros s s' u E. by apply M_assert_Ok in E as [-> _]. Qed.
Lemma keeps_get : keeps get_state.
Proof. intros s s' b E. by injection E as <- _. Qed.
Lemma keeps_modify_tc f : (forall tc, nm_net_limit (tc_net (f tc)) = nm_net_limit (tc_net tc) /\
  cm_objective_duration_limit (tc_cpu (f tc)) = cm_objective_duration_limit (tc_cpu tc)) -> keeps (modify_tc f).
Proof. intros Hf s s' u E. rewrite modify_tc_run in E. injection E as <- _. destruct (Hf (ts_tc s)). by constructor. Qed.
Lemma keeps_get_tc : keeps get_tc.
Proof. intros s s' tc E. rewrite get_tc_run in E. by injection E as <- _. Qed.

Lemma keeps_ax_bind {A B} (m : M apply_state A) (f : A -> M apply_state B) : keeps_ax m -> (forall a, keeps_ax (f a)) -> keeps_ax (m ≫= f).
Proof. intros Hm Hf s s' b E. apply M_bind_Ok in E as (s1 & a & E0 & E). etrans; [by eapply Hm|by eapply Hf]. Qed.
Lemma keeps_ax_ret {A} (a : A) : keeps_ax (mret a).
Proof. intros s s' b E. injection E as <- _. done. Qed.
Lemma keeps_ax_lift {A} (r : result A) : keeps_ax (lift r).
Proof. intros s s' b E. by apply lift_Ok in E as [-> _]. Qed.
Lemma keeps_ax_assert b e : keeps_ax (M_ASSERT b e).
Proof. intros s s' u E. by apply M_assert_Ok in E as [-> _]. Qed.
Lemma keeps_ax_get : keeps_ax get_ax.
Proof. intros s s' b E. rewrite get_ax_run in E. by injection E as <- _. Qed.
Lemma keeps_ax_db : keeps_ax get_db.
Proof. intros s s' b E. rewrite get_db_run in E. by injection E as <- _. Qed.
Lemma keeps_ax_modify f : keeps_ax (modify_ax f).
Proof. intros s s' u E. rewrite modify_ax_run in E. by injection E as <- _. Qed.
Lemma keeps_ax_on_ts {A} (m : M trx_state A) : keeps m -> keeps_ax (on_ts m).
Proof. intros Hm s s' a E. apply on_ts_Ok in E as (t & E & ->). by eapply Hm. Qed.
Lemma keeps_ax_throw {A} e : keeps_ax (throw (A := A) e).
Proof. intros s s' a E. done. Qed.

Create HintDb keeps discriminated.
#[export] Hint Resolve keeps_ret keeps_lift keeps_assert keeps_get keeps_get_tc keeps_ax_ret keeps_ax_lift keeps_ax_assert keeps_ax_get keeps_ax_db
  keeps_ax_modify keeps_ax_on_ts keeps_ax_throw : keeps.

(** [keeps_tac] splits a block of code into its steps. *)
Ltac keeps_tac :=
  repeat first
    [ progress cbv zeta
    | solve [auto with keeps]
    | lazymatch goal with
      | |- keeps (mbind _ _) => apply keeps_bind; [|intros ?]
      | |- keeps_ax (mbind _ _) => apply keeps_ax_bind; [|intros ?]
      | |- keeps_ax (on_ts _) => apply keeps_ax_on_ts
      end
    | match goal with |- context [if ?b then _ else _] => destruct b end ].

Lemma keeps_on_db f : (forall db db', f db = Ok db' -> config (db_limits db') = config (db_limits db) /\ state (db_limits db') = state (db_limits db)) ->
  keeps (on_db f).
Proof. intros Hf s s' [] E. apply on_db_Ok in E as (db & E & ->). apply Hf in E as [? ?]. by constructor. Qed.

Lemma tc_add_ram_usage_keeps a d : keeps (tc_add_ram_usage a d).
Proof.
  unfold tc_add_ram_usage. keeps_tac; [|by apply keeps_modify_tc]. apply keeps_on_db. intros db db' E. unfold NativeActions.add_ram_usage in E.
  apply bind_Ok in E as (rl & Er & E). injection E as <-. unfold add_pending_ram_usage in Er. destruct (d =? 0); [by injection Er as <-|].
  apply bind_Ok in Er as (u & _ & Er). do 2 (apply bind_Ok in Er as (? & _ & Er)). by injection Er as <-.
Qed.

Lemma create_generated_keeps i g : keeps (create_generated i g).
Proof. apply keeps_on_db. intros db db' E. do 2 (apply bind_Ok in E as (? & _ & E)). by injection E as <-. Qed.

Lemma set_generated_keeps (f : chain_db -> gmap digest generated_transaction_object) : keeps (on_db (fun db => mret (set_generated db (f db)))).
Proof. apply keeps_on_db. intros db db' E. by injection E as <-. Qed.

#[export] Hint Resolve tc_add_ram_usage_keeps create_generated_keeps set_generated_keeps : keeps.

Section Keeps.
Context `{Crypto} `{TransactionData} (cv : controller_view).

Lemma add_net_usage_keeps u : keeps (add_net_usage cv u).
Proof. unfold add_net_usage. keeps_tac. by apply keeps_modify_tc. Qed.
#[local] Hint Resolve add_net_usage_keeps : keeps.

Lemma schedule_transaction_keeps : keeps (schedule_transaction cv).
Proof. unfold schedule_transaction. keeps_tac. Qed.

(** Counters of receipts. *)
Lemma put_sequences_kept s m : kept s (put_db s (set_sequences (ts_db s) m)).
Proof. done. Qed.

Lemma next_recv_keeps r : keeps (next_recv_sequence r).
Proof.
  intros s s' n E. unfold next_recv_sequence in E. step_ok E. injection E0 as <- <-. step_ok E. apply lift_Ok in E0 as [-> _]. cbv zeta in E.
  step_ok E. injection E0 as <- <-. injection E as <- <-. apply put_sequences_kept.
Qed.
Lemma next_auth_keeps r : keeps (next_auth_sequence r).
Proof.
  intros s s' n E. unfold next_auth_sequence in E. step_ok E. injection E0 as <- <-. step_ok E. apply lift_Ok in E0 as [-> _]. cbv zeta in E.
  step_ok E. injection E0 as <- <-. injection E as <- <-. apply put_sequences_kept.
Qed.
Lemma next_global_keeps : keeps next_global_sequence.
Proof. intros s s' n E. by apply next_global_Ok in E as [-> _]. Qed.

Lemma auth_sequences_keeps l : forall m, keeps (auth_sequences l m).
Proof.
  induction l as [|x l IH]; intros m; cbn [auth_sequences]; [auto with keeps|]. apply keeps_bind; [apply next_auth_keeps|]. intros n. apply IH.
Qed.

Lemma push_receipt_keeps a r : keeps (ApplyContext.push_receipt a r).
Proof.
  unfold ApplyContext.push_receipt. apply keeps_bind; [apply next_global_keeps|intros g]. apply keeps_bind; [apply next_recv_keeps|intros v].
  keeps_tac; [apply auth_sequences_keeps|by apply keeps_modify_tc].
Qed.

End Keeps.
#[export] Hint Resolve add_net_usage_keeps schedule_transaction_keeps push_receipt_keeps : keeps.

(** Handlers keep them too. *)
Class HandlersKeep `{Handlers} : Prop := {
  native_keeps r account n h : native_handler r account n = Some h -> keeps_ax h;
  wasm_keeps code : keeps_ax (wasm_apply code)
}.

Section Execution.
Context `{Crypto} `{TransactionData} `{HandlersKeep} (cv : controller_view).

Lemma exec_one_keeps : keeps_ax (exec_one cv).
Proof.
  unfold exec_one. keeps_tac.
  - destruct (native_handler _ _ _) as [h|] eqn:Eh; keeps_tac. by eapply native_keeps.
  - apply wasm_keeps.
Qed.

Lemma notify_loop_keeps fuel : forall i, keeps_ax (notify_loop cv fuel i).
Proof.
  induction fuel as [|fuel IH]; intros i; cbn [notify_loop]; [auto with keeps|]. apply keeps_ax_bind; [auto with keeps|]. intros ax.
  destruct (ax_notified ax !! i); [|auto with keeps]. apply keeps_ax_bind; [auto with keeps|]. intros _. apply keeps_ax_bind; [apply exec_one_keeps|]. auto.
Qed.

Lemma exec_notified_keeps : keeps_ax (exec_notified cv).
Proof. unfold exec_notified. keeps_tac; [apply exec_one_keeps|apply notify_loop_keeps]. Qed.

Lemma dispatch_all_keeps dispatch cf l : (forall a, keeps (dispatch a cf)) -> keeps (dispatch_all dispatch cf l).
Proof. intros Hd. induction l as [|a l IH]; cbn [dispatch_all]; [auto with keeps|]. apply keeps_bind; auto. Qed.

Lemma dispatch_action_keeps fuel : forall a r cf d, keeps (dispatch_action cv fuel a r cf d).
Proof.
  induction fuel as [|fuel IH]; intros a r cf d; cbn [dispatch_action]; [by intros s s' x E|]. apply keeps_bind.
  - intros s s' x E. apply with_apply_ctx_Ok in E as (s1 & E & ->). by apply exec_notified_keeps in E.
  - intros [cfa inl]. apply keeps_bind; [|intros _]; apply dispatch_all_keeps; auto.
Qed.

Lemma exec_transaction_keeps : keeps (exec_transaction cv).
Proof.
  unfold exec_transaction, exec. keeps_tac; apply dispatch_all_keeps; intros ?; apply dispatch_action_keeps.
Qed.

End Execution.

(** Contracts made of calls of the chain are such handlers. *)
Section Calls.
Context `{Crypto} `{MetaOrder} `{ActionData} `{TransactionData} (cv : controller_view).

Lemma require_authorization_keeps a : keeps_ax (ax_require_authorization a).
Proof. unfold ax_require_authorization. apply keeps_ax_bind; [auto with keeps|]. intros ax. destruct (list_find _ _) as [[? ?]|]; auto with keeps. Qed.

Lemma store_deferred_keeps r i p t b : keeps_ax (store_deferred cv r i p t b).
Proof.
  unfold store_deferred. keeps_tac. destruct (by_sender_id _ _ _) as [[k g]|]; keeps_tac.
Qed.

Lemma run_call_keeps c : keeps_ax (run_call cv c).
Proof.
  destruct c; cbn [run_call].
  - apply require_authorization_keeps.
  - unfold require_recipient. auto with keeps.
  - unfold execute_inline. keeps_tac.
  - unfold execute_context_free_inline. keeps_tac.
  - unfold schedule_deferred_transaction. keeps_tac; first [apply require_authorization_keeps|apply store_deferred_keeps].
  - unfold ax_cancel_deferred. keeps_tac. destruct (by_sender_id _ _ _) as [[k g]|]; keeps_tac.
Qed.

Lemma contract_handlers_keep program : HandlersKeep (H := contract_handlers cv program).
Proof.
  constructor; [done|]. intros code. simpl. induction (program code) as [|c cs IH]; cbn [run_calls]; [auto with keeps|].
  apply keeps_ax_bind; [apply run_call_keeps|auto].
Qed.

End Calls.

(** ** Bills fit into the block *)

(** What the block has used and may use. *)
Record block_ok (rl : resource_limits) : Prop := {
  bo_cpu : 0 <= pending_cpu_usage (state rl) <= max (cpu_limit_parameters (config rl));
  bo_net : 0 <= pending_net_usage (state rl) <= max (net_limit_parameters (config rl));
  bo_max_cpu : max (cpu_limit_parameters (config rl)) < 2 ^ 63;
  bo_max_net : max (net_limit_parameters (config rl)) < 2 ^ 63
}.

Definition same_block (rl rl' : resource_limits) : Prop := config rl' = config rl /\ state rl' = state rl.

Lemma same_block_ok rl rl' : same_block rl rl' -> block_ok rl -> block_ok rl'.
Proof. intros [Hc Hs] []. constructor; rewrite ?Hc, ?Hs; done. Qed.

(** The limits of a transaction are within what the block [b] has left. *)
Record metered (b : resource_limits) (t : trx_state) : Prop := {
  mt_block : same_block b (rl_of t);
  mt_net : nm_net_limit (tc_net (ts_tc t)) <= max (net_limit_parameters (config b)) - pending_net_usage (state b);
  mt_cpu : cm_objective_duration_limit (tc_cpu (ts_tc t)) <= max (cpu_limit_parameters (config b)) - pending_cpu_usage (state b)
}.

Lemma kept_metered b t t' : kept t t' -> metered b t -> metered b t'.
Proof. intros [Kc Ks Kn Kp] [[Hc Hs] Hn Hp]. constructor; [split; congruence|by rewrite Kn|by rewrite Kp]. Qed.

Lemma update_account_usage_same slot accounts : forall rl rl', update_account_usage rl accounts slot = Ok rl' -> same_block rl rl'.
Proof.
  induction accounts as [|a accounts IH]; intros rl rl' E; cbn [update_account_usage] in E; [by injection E as <-|].
  apply bind_Ok in E as (u & _ & E). apply bind_Ok in E as (u' & _ & E). apply IH in E as [Hc Hs]. done.
Qed.

Section Metering.
Context `{CbrtLaws} `{Crypto} (cv : controller_view).

Lemma init_limits_metered rl tc : block_ok rl ->
  nm_net_limit (tc_net (init_limits cv rl tc)) <= max (net_limit_parameters (config rl)) - pending_net_usage (state rl) /\
  cm_objective_duration_limit (tc_cpu (init_limits cv rl tc)) <= max (cpu_limit_parameters (config rl)) - pending_cpu_usage (state rl).
Proof.
  intros [Bc Bn Mc Mn]. set (trx := tc_trx (tc_settings tc)).
  assert (get_block_net_limit rl = max (net_limit_parameters (config rl)) - pending_net_usage (state rl)) as HN by (apply u64_small; unfold is_u64; lia).
  assert (i64 (get_block_cpu_limit rl) = max (cpu_limit_parameters (config rl)) - pending_cpu_usage (state rl)) as HC.
  { unfold get_block_cpu_limit. rewrite u64_small by (unfold is_u64; lia). apply i64_small. unfold is_i64. lia. }
  destruct (objective_cpu_limit_le cv rl trx) as (Hc & _ & _). rewrite HC in Hc.
  assert ((objective_net_limit cv rl trx).1 <= get_block_net_limit rl) as Hn.
  { unfold objective_net_limit. destruct (Z.leb_spec (cc_max_transaction_net_usage (cv_cfg cv)) (get_block_net_limit rl));
      destruct (_ && _) eqn:Eb; simpl; try lia; apply andb_true_iff in Eb as [_ Eb%Z.leb_le]; lia. }
  rewrite HN in Hn. unfold init_limits. fold trx. destruct (objective_net_limit cv rl trx) as [nl nb], (objective_cpu_limit cv rl trx) as [cl cb]. done.
Qed.

Lemma init_metered initial expired now t t' : block_ok (rl_of t) -> init cv initial expired now t = (t', Ok tt) -> metered (rl_of t) t'.
Proof.
  intros Hb E. unfold init in E. apply M_bind_Ok in E as (s0 & tc & E0 & E). rewrite get_tc_run in E0. injection E0 as <- <-.
  apply M_bind_Ok in E as (s0 & u & E0 & E). apply M_assert_Ok in E0 as [-> _]. apply M_bind_Ok in E as (s0 & sx & E0 & E). injection E0 as <- <-.
  apply M_bind_Ok in E as (t1 & [] & E0 & E). rewrite modify_tc_run in E0. injection E0 as <-.
  destruct (init_limits_metered (rl_of t) (ts_tc t) Hb) as [Ln Lc]. set (t1 := put_tc t _) in E.
  assert (metered (rl_of t) t1) as Hm1 by (by constructor).
  apply M_bind_Ok in E as (s0 & tc & E0 & E). rewrite get_tc_run in E0. injection E0 as <- <-. apply M_bind_Ok in E as (s0 & [] & E0 & E).
  assert (s0 = t1) as -> by (destruct (0 <? _) in E0; [by apply lift_Ok in E0 as [-> _]|by injection E0 as <-]). clear E0. cbv zeta in E.
  apply M_bind_Ok in E as (t2 & [] & E0 & E). rewrite modify_tc_run in E0. injection E0 as <-. set (t2 := put_tc t1 _) in E.
  assert (metered (rl_of t) t2) as Hm2 by (eapply kept_metered; [|exact Hm1]; done).
  apply M_bind_Ok in E as (t3 & [] & E0 & E). apply on_limits_Ok in E0 as (rl & Hup & ->). apply update_account_usage_same in Hup as [Uc Us].
  set (t3 := put_db t2 _) in E. assert (metered (rl_of t) t3) as Hm3 by (eapply kept_metered; [|exact Hm2]; done).
  match type of E with ?m _ = _ => assert (keeps m) as Hk end.
  { keeps_tac; try (by apply add_net_usage_keeps); destruct a0 as [[[? ?] ?] ?]; keeps_tac; try (by apply keeps_modify_tc); apply add_net_usage_keeps. }
  eapply kept_metered; [|exact Hm3]. by eapply Hk.
Qed.

Lemma phase_metered b t p i f n : metered b t -> metered b (put_tc t (put_phase (ts_tc t) p i f n)).
Proof. apply kept_metered. done. Qed.

Lemma init_for_implicit_metered initial expired now t t' : block_ok (rl_of t) -> init_for_implicit_trx cv initial expired now t = (t', Ok tt) -> metered (rl_of t) t'.
Proof. intros Hb E. unfold init_for_implicit_trx in E. apply M_bind_Ok in E as (t1 & [] & E0 & E). rewrite modify_tc_run in E0. injection E0 as <-. by apply init_metered in E. Qed.

Lemma init_for_deferred_metered published expired now t t' : block_ok (rl_of t) -> init_for_deferred_trx cv published expired now t = (t', Ok tt) -> metered (rl_of t) t'.
Proof. intros Hb E. unfold init_for_deferred_trx in E. apply M_bind_Ok in E as (t1 & [] & E0 & E). rewrite modify_tc_run in E0. injection E0 as <-. by apply init_metered in E. Qed.

Lemma init_for_input_metered u p skip expired now t t' : block_ok (rl_of t) -> init_for_input_trx cv u p skip expired now t = (t', Ok tt) -> metered (rl_of t) t'.
Proof.
  intros Hb E. unfold init_for_input_trx in E. apply M_bind_Ok in E as (s0 & tc & E0 & E). rewrite get_tc_run in E0. injection E0 as <- <-. cbv zeta in E.
  apply M_bind_Ok in E as (t1 & [] & E0 & E). rewrite modify_tc_run in E0. injection E0 as <-. apply M_bind_Ok in E as (s0 & sx & E0 & E). injection E0 as <- <-.
  apply M_bind_Ok in E as (t2 & [] & E0 & E).
  assert (rl_of t2 = rl_of t) as Hr.
  { match type of E0 with ?m _ = _ => assert (forall s s', m s = (s', Ok tt) -> s' = s) as Hs end; [|by rewrite (Hs _ _ E0)].
    intros s s' Es. destruct (checks_skipped cv); [by injection Es as <-|]. do 2 (apply M_bind_Ok in Es as (? & ? & ?Ex & Es); apply lift_Ok in Ex as [-> _]).
    by apply lift_Ok in Es as [-> _]. }
  clear E0. apply M_bind_Ok in E as (t3 & [] & E0 & E). apply init_metered in E0; [|by rewrite Hr]. rewrite Hr in E0. eapply kept_metered; [|exact E0].
  destruct skip; [by injection E as <-|]. unfold record_transaction in E. apply M_bind_Ok in E as (s0 & sx & E1 & E). injection E1 as <- <-.
  apply M_bind_Ok in E as (s0 & x & E1 & E). apply M_assert_Ok in E1 as [-> _]. by injection E as <-.
Qed.

(** A transaction that ends is charged to the block. *)
Lemma finalize_charges now b t t' : checks_skipped cv = false -> 0 <= cc_min_transaction_cpu_usage (cv_cfg cv) -> block_ok b -> metered b t ->
  finalize cv now t = (t', Ok tt) ->
  let cpu := cm_billed_cpu_time_us (tc_cpu (ts_tc t')) in
  let net := nm_net_usage (tc_net (ts_tc t')) in
  0 <= cpu /\ 0 <= net /\ config (rl_of t') = config b /\ block_ok (rl_of t') /\
  pending_cpu_usage (state (rl_of t')) = pending_cpu_usage (state b) + cpu /\ pending_net_usage (state (rl_of t')) = pending_net_usage (state b) + net.
Proof.
  intros Hsk Hmin [Bc Bn Mc Mn] [[Hc Hs] Ln Lc] E. unfold finalize in E. apply M_bind_Ok in E as (t1 & [] & E0 & E).
  apply finalize_checks_spec in E0 as [K1 _ _ K4 K5 K6 K7 _]; [|done]. apply M_bind_Ok in E as (s0 & tc & E0 & E). rewrite get_tc_run in E0. injection E0 as <- <-.
  apply on_limits_Ok in E as (rl & E & ->). cbn [ts_tc put_db ts_db db_limits NativeActions.set_limits]. rewrite K1 in E.
  assert (0 <= nm_net_usage (tc_net (ts_tc t1))) as Hn0 by (rewrite K4; apply Z.mul_nonneg_nonneg; [apply Z.div_pos; [apply u64_is_u64|lia]|lia]).
  unfold add_transaction_usage in E. apply bind_Ok in E as (rl1 & Eb & E). apply bill_accounts_frame in Eb as (Fc & Fs & _). cbv zeta in E.
  apply bind_Ok in E as ([] & A1%assert_Ok & E). apply bind_Ok in E as ([] & A2%assert_Ok & E). injection E as <-.
  rewrite Hs in Fs. rewrite Hc in Fc. cbv zeta. cbn [set_pending pending_net_usage pending_cpu_usage set_state_row config state] in A1, A2 |- *.
  rewrite Fs, Fc in A1, A2 |- *. rewrite (u64_small (cm_billed_cpu_time_us _)) in A1 |- * by (unfold is_u64; lia).
  rewrite u64_small in A1, A2 by (unfold is_u64; lia). rewrite !u64_small by (unfold is_u64; lia). apply Z.leb_le in A1, A2.
  split_and!; try done; try lia.
  constructor; cbn [state config set_state_row set_pending pending_cpu_usage pending_net_usage]; rewrite ?Fc; lia.
Qed.

End Metering.

(** ** What receipts promise *)

Definition sum_of (f : transaction_receipt -> Z) (rs : list transaction_receipt) : Z := foldr (fun r n => f r + n) 0 rs.
Lemma sum_of_app f l k : sum_of f (l ++ k) = sum_of f l + sum_of f k.
Proof. unfold sum_of. induction l as [|r l IH]; simpl; [done|]. rewrite IH. lia. Qed.

(** The receipts of transactions that were run. *)
Definition ran (rs : list transaction_receipt) : list transaction_receipt := filter (fun r => tp_status r <> expired) rs.

Notation block_limits_of s := (db_limits (ch_db (bs_chain s))).
Notation receipts_of s := (pb_transactions (bs_pending s)).

(** The receipts of transactions that were run stay below what the block used, and
    those of expired ones have a time that was [given] with the push. *)
Record within (given : Z -> Prop) (s : build_state) : Prop := {
  wi_block : block_ok (block_limits_of s);
  wi_cpu : sum_of tp_cpu_usage_us (ran (receipts_of s)) <= pending_cpu_usage (state (block_limits_of s));
  wi_net : 8 * sum_of tp_net_usage_words (receipts_of s) <= pending_net_usage (state (block_limits_of s));
  wi_expired r : r ∈ receipts_of s -> tp_status r = expired -> exists t, given t /\ tp_cpu_usage_us r = u32 t
}.

Lemma within_same given s s' : same_block (block_limits_of s) (block_limits_of s') -> receipts_of s' = receipts_of s -> within given s -> within given s'.
Proof. intros [Hc Hs] Hr [Wb Wc Wn We]. constructor; rewrite ?Hr, ?Hs; [by eapply same_block_ok|done..]. Qed.

Lemma u32_at_most x : 0 <= x -> u32 x <= x.
Proof. intros Hx. unfold u32, wrap. by apply Z.mod_le. Qed.

Lemma push_receipt_Ok trx st cpu net s s' : Controller.push_receipt trx st cpu net s = (s', Ok tt) ->
  s' = set_pending_state s (set_receipts (bs_pending s) (receipts_of s ++ [mk_trx_receipt st (u32 cpu) (u32 (net / 8)) trx])
         (pb_trxs (bs_pending s)) (pb_actions (bs_pending s))).
Proof.
  intros E. unfold Controller.push_receipt in E. cbv zeta in E. apply M_bind_Ok in E as (s0 & u & E0 & E). apply M_assert_Ok in E0 as [-> _]. by injection E as <-.
Qed.

(** The receipt of a transaction that expired. *)
Lemma expired_receipt (given : Z -> Prop) s s1 trx t : within given s -> given t -> same_block (block_limits_of s) (block_limits_of s1) ->
  receipts_of s1 = receipts_of s ++ [mk_trx_receipt expired (u32 t) (u32 (0 / 8)) trx] -> within given s1.
Proof.
  intros [Wb Wc Wn We] Ht Hb Hr. pose proof Hb as [Hc Hs]. constructor; rewrite ?Hr, ?Hs; unfold ran; rewrite ?filter_app, ?sum_of_app; [by eapply same_block_ok|..].
  - rewrite filter_cons_False by (simpl; tauto). rewrite filter_nil. change (sum_of tp_cpu_usage_us []) with 0. fold (ran (receipts_of s)). lia.
  - change (sum_of tp_net_usage_words [mk_trx_receipt expired (u32 t) (u32 (0 / 8)) trx]) with 0. lia.
  - intros r [Hin| ->%list_elem_of_singleton]%elem_of_app He; [by apply We|by exists t].
Qed.

(** A receipt for what was charged. *)
Lemma charged_receipt given s s1 trx st cpu net : within given s -> st <> expired -> 0 <= cpu -> 0 <= net -> block_ok (block_limits_of s1) -> receipts_of s1 = receipts_of s ++ [mk_trx_receipt st (u32 cpu) (u32 (net / 8)) trx] ->
  pending_cpu_usage (state (block_limits_of s1)) = pending_cpu_usage (state (block_limits_of s)) + cpu ->
  pending_net_usage (state (block_limits_of s1)) = pending_net_usage (state (block_limits_of s)) + net -> within given s1.
Proof.
  intros [Wb Wc Wn We] Hst Hc Hn Hb Hr Pc Pn. pose proof (u32_at_most cpu Hc). assert (0 <= net / 8) as H8 by (apply Z.div_pos; lia). pose proof (u32_at_most _ H8).
  pose proof (Z.mul_div_le net 8). constructor; [done|..]; rewrite Hr; unfold ran; rewrite ?filter_app, ?sum_of_app, ?Pc, ?Pn.
  - rewrite filter_cons_True by done. fold (ran (receipts_of s)). rewrite filter_nil. unfold sum_of at 2. simpl. lia.
  - unfold sum_of at 2. simpl. lia.
  - intros r [Hin| ->%list_elem_of_singleton]%elem_of_app He; [by apply We|done].
Qed.

(** ** Steps of a running transaction *)

Lemma on_trx_Ok {A} (m : M trx_state A) r r' a : on_trx m r = (r', Ok a) ->
  exists t, m (trx_of (bs_chain (rn_build r)) (rn_tc r)) = (t, Ok a) /\
    r' = mk_running (set_chain (rn_build r) (chain_of (bs_chain (rn_build r)) t)) (ts_tc t).
Proof. unfold on_trx. destruct (m (trx_of _ _)) as [t x]. intros [= <- ->]. eauto. Qed.
Lemma on_build_Ok {A} (m : M build_state A) r r' a : on_build m r = (r', Ok a) -> exists s, m (rn_build r) = (s, Ok a) /\ r' = mk_running s (rn_tc r).
Proof. unfold on_build. destruct (m (rn_build r)) as [s x]. intros [= <- ->]. eauto. Qed.

(** The transaction runs within the block [b] and has not touched the receipts. *)
Record pending_run (b : resource_limits) (p : pending_state) (r : running) : Prop := {
  pr_metered : metered b (trx_of (bs_chain (rn_build r)) (rn_tc r));
  pr_pending : bs_pending (rn_build r) = p
}.

Lemma trx_of_chain c t : trx_of (chain_of c t) (ts_tc t) = t.
Proof. by destruct t. Qed.

Lemma on_trx_keeps {A} (m : M trx_state A) b p r r' a : keeps m -> on_trx m r = (r', Ok a) -> pending_run b p r -> pending_run b p r'.
Proof.
  intros Hm E [Hr Hp]. apply on_trx_Ok in E as (t & E & ->). apply Hm in E. constructor; [|done]. cbn [rn_build rn_tc bs_chain set_chain].
  rewrite trx_of_chain. by eapply kept_metered.
Qed.

(** What a transaction sees of the controller stays, however a step ends. *)
Definition frame (s s' : build_state) : Prop :=
  ch_gpo (bs_chain s') = ch_gpo (bs_chain s) /\ ch_summaries (bs_chain s') = ch_summaries (bs_chain s) /\
  pb_status (bs_pending s') = pb_status (bs_pending s) /\ pb_block_state (bs_pending s') = pb_block_state (bs_pending s) /\
  bs_in_trx_requiring_checks s' = bs_in_trx_requiring_checks s.

#[export] Instance frame_preorder : PreOrder frame.
Proof. split; [done|]. intros x y z (?&?&?&?&?) (?&?&?&?&?). split_and!; congruence. Qed.

(** [p] is the pending block of the state of [m]. *)
Definition framed {S A} (p : S -> build_state) (m : M S A) : Prop := forall s, frame (p s) (p (m s).1).

Lemma framed_bind {S A B} (p : S -> build_state) (m : M S A) (f : A -> M S B) : framed p m -> (forall a, framed p (f a)) -> framed p (m ≫= f).
Proof. intros Hm Hf s. etrans; [apply Hm|]. unfold mbind, M_bind. destruct (m s) as [s1 [a|e]]; [apply Hf|done]. Qed.
Lemma framed_lift {S A} (p : S -> build_state) (x : result A) : framed p (lift x).
Proof. intros s. unfold lift. by destruct x. Qed.
Lemma framed_assert {S} (p : S -> build_state) b e : framed p (M_ASSERT b e).
Proof. intros s. unfold M_ASSERT. by destruct b. Qed.
Lemma framed_on_trx {A} (m : M trx_state A) : framed rn_build (on_trx m).
Proof. intros r. unfold on_trx. by destruct (m _). Qed.
Lemma framed_on_build {A} (m : M build_state A) : framed (fun s => s) m -> framed rn_build (on_build m).
Proof. intros Hm r. specialize (Hm (rn_build r)). unfold on_build. by destruct (m _). Qed.
Lemma framed_limits f : framed (fun s => s) (on_chain_limits f).
Proof. intros s. unfold on_chain_limits. by destruct (f _). Qed.
Lemma framed_modify f : (forall s, frame s (f s)) -> framed (fun s => s) (modify_build f).
Proof. intros Hf s. apply Hf. Qed.
Lemma framed_receipt trx st cpu net : framed (fun s => s) (Controller.push_receipt trx st cpu net).
Proof. apply framed_bind; [apply framed_assert|intros _]. by apply framed_modify. Qed.

Section Charges.
Context `{CbrtLaws} `{Crypto} `{MetaOrder} `{ActionData} `{TransactionData} `{HandlersKeep} (nd : node).
Context (pack_signatures : list signature_type -> Z) (signed_id : packed_transaction -> digest) (pack_onerror : Z -> list Z -> list Z).
(** The times that may be given with a push. *)
Context (given : Z -> Prop).

Notation within := (within given).

(** A node that checks transactions, with a sensible least CPU time. *)
Definition checking (cv : controller_view) : Prop := checks_skipped cv = false /\ 0 <= cc_min_transaction_cpu_usage (cv_cfg cv).

Lemma on_trx_finalize cv now b p r r' : checking cv -> block_ok b -> pending_run b p r -> on_trx (finalize cv now) r = (r', Ok tt) ->
  let cpu := cm_billed_cpu_time_us (tc_cpu (rn_tc r')) in
  let net := nm_net_usage (tc_net (rn_tc r')) in
  0 <= cpu /\ 0 <= net /\ block_ok (block_limits_of (rn_build r')) /\ bs_pending (rn_build r') = p /\
  pending_cpu_usage (state (block_limits_of (rn_build r'))) = pending_cpu_usage (state b) + cpu /\
  pending_net_usage (state (block_limits_of (rn_build r'))) = pending_net_usage (state b) + net.
Proof.
  intros [Hsk Hmin] Hb [Hm Hp] E. apply on_trx_Ok in E as (t & E & ->). apply (finalize_charges cv now b) in E as (Hcpu & Hnet & _ & Hbo & Pc & Pn); done.
Qed.

(** The end of a transaction with a receipt. *)
Lemma finish_within cv now trx st s r r1 r2 r3 : st <> expired -> checking cv -> within s -> pending_run (block_limits_of s) (bs_pending s) r ->
  on_trx (finalize cv now) r = (r1, Ok tt) ->
  on_build (Controller.push_receipt trx st (cm_billed_cpu_time_us (tc_cpu (rn_tc r1))) (nm_net_usage (tc_net (rn_tc r1)))) r1 = (r2, Ok tt) ->
  bs_chain (rn_build r3) = bs_chain (rn_build r2) -> receipts_of (rn_build r3) = receipts_of (rn_build r2) -> within (rn_build r3).
Proof.
  intros Hst Hcv Hw Hr E1 E2 Hc Ht. apply (on_trx_finalize cv now (block_limits_of s) (bs_pending s)) in E1 as (Hcpu & Hnet & Hb & Hp & Pc & Pn); [|done|apply Hw|done].
  apply on_build_Ok in E2 as (s2 & E2 & ->). apply push_receipt_Ok in E2 as ->. cbn [rn_build bs_chain set_pending_state bs_pending set_receipts pb_transactions] in Hc, Ht.
  eapply (charged_receipt given s (rn_build r3)); [done|done|exact Hcpu|exact Hnet|rewrite Hc; done|rewrite Ht, Hp; reflexivity|by rewrite Hc|by rewrite Hc].
Qed.

Lemma append_actions_Ok r r' : append_actions r = (r', Ok tt) -> bs_chain (rn_build r') = bs_chain (rn_build r) /\ receipts_of (rn_build r') = receipts_of (rn_build r).
Proof. intros E. by injection E as <-. Qed.

(** *** Input transactions *)

Lemma checks_need_sessions s : checks_skipped (view nd s) = false ->
  skip_db_sessions nd (pb_status (bs_pending s)) (bs_in_trx_requiring_checks s) = false.
Proof.
  unfold checks_skipped, skip_trx_checks, light_validation_allowed, skip_db_sessions, view. cbn [cv_status cv_conf pending_status in_trx_requiring_checks].
  destruct (bs_in_trx_requiring_checks s); [by rewrite andb_false_r|]. intros Hs. apply orb_false_iff in Hs as [Hs _].
  destruct (disable_replay_opts (nd_conf nd)); [by rewrite andb_false_r|]. rewrite andb_true_r in Hs. rewrite !andb_true_r.
  apply bool_decide_eq_false in Hs. apply bool_decide_eq_false. naive_solver.
Qed.

Lemma body_within cv trx clk s tc r' : checking cv -> within s ->
  push_transaction_body nd pack_signatures cv trx clk (mk_running s tc) = (r', Ok tt) -> within (rn_build r').
Proof.
  intros Hcv Hw E. unfold push_transaction_body in E. cbv zeta in E. apply M_bind_Ok in E as (r1 & [] & E0 & E).
  assert (pending_run (block_limits_of s) (bs_pending s) r1) as R1.
  { destruct (md_implicit trx).
    - apply M_bind_Ok in E0 as (r0 & [] & E1 & E0). eapply on_trx_keeps; [|exact E0|]; [by apply keeps_modify_tc|].
      apply on_trx_Ok in E1 as (t & E1 & ->). apply init_for_implicit_metered in E1; [|apply Hw]. constructor; [|done]. simpl. by rewrite trx_of_chain.
    - apply M_bind_Ok in E0 as (r0 & u & E1 & E0). apply lift_Ok in E1 as [-> _]. apply M_bind_Ok in E0 as (r0 & v & E1 & E0). apply lift_Ok in E1 as [-> _].
      apply on_trx_Ok in E0 as (t & E0 & ->). apply init_for_input_metered in E0; [|apply Hw]. constructor; [|done]. simpl. by rewrite trx_of_chain. }
  clear E0. apply M_bind_Ok in E as (r2 & [] & E0 & E). assert (pending_run (block_limits_of s) (bs_pending s) r2) as R2.
  { eapply on_trx_keeps; [|exact E0|done]. by apply keeps_modify_tc. }
  clear E0 R1. apply M_bind_Ok in E as (r3 & trx' & E0 & E). assert (pending_run (block_limits_of s) (bs_pending s) r3) as R3.
  { destruct (_ && _) in E0; [|by injection E0 as <- _]. apply M_bind_Ok in E0 as (r4 & ks & E1 & E0). destruct (recover_keys _ _ _) as [c x]. injection E1 as <- ->.
    apply M_bind_Ok in E0 as (r4 & ry & E1 & E0). injection E1 as <- <-. apply M_bind_Ok in E0 as (r4 & u & E1 & E0). apply lift_Ok in E1 as [-> _].
    injection E0 as <- _. destruct R2. by constructor. }
  clear E0 R2. apply M_bind_Ok in E as (r4 & [] & E0 & E). assert (pending_run (block_limits_of s) (bs_pending s) r4) as R4.
  { eapply on_trx_keeps; [|exact E0|done]. apply exec_transaction_keeps. }
  clear E0 R3. apply M_bind_Ok in E as (r5 & [] & E5 & E). apply M_bind_Ok in E as (r6 & ry & E0 & E). injection E0 as <- <-.
  apply M_bind_Ok in E as (r6 & [] & E0 & E). apply append_actions_Ok in E as [Hc Ht]. destruct (md_implicit trx').
  - injection E0 as <-. pose proof (on_trx_finalize cv (ck_final clk) _ _ _ _ Hcv (wi_block _ s Hw) R4 E5) as (Hcpu & Hnet & Hb & Hp & Pc & Pn).
    destruct Hw as [Wb Wc Wn We]. constructor; rewrite ?Hc, ?Ht, ?Hp; [done|lia|lia|done].
  - apply M_bind_Ok in E0 as (r7 & [] & E7 & E0). apply on_build_Ok in E0 as (s8 & E0 & ->). injection E0 as <-.
    eapply (finish_within cv (ck_final clk)); [|done|done|exact R4|exact E5|exact E7|exact Hc|exact Ht]. by destruct (_ =? _).
Qed.

Lemma push_transaction_within trx deadline billed explicit clk s s' x : checking (view nd s) -> within s ->
  push_transaction nd pack_signatures signed_id trx deadline billed explicit clk s = (s', Ok x) -> within s'.
Proof.
  intros Hcv Hw E. pose proof (checks_need_sessions s (proj1 Hcv)) as Hses. unfold push_transaction in E. apply M_bind_Ok in E as (s0 & u & E0 & E).
  apply M_assert_Ok in E0 as [-> _]. apply M_bind_Ok in E as (s0 & sx & E0 & E). injection E0 as <- <-. cbv zeta in E. rewrite Hses in E.
  apply M_bind_Ok in E as (s0 & tc & E0 & E). apply lift_Ok in E0 as [-> _]. apply M_bind_Ok in E as (s1 & [tc1 r] & E0 & E).
  assert (forall s2, within (undo true s s2)) as Hundo by (intros s2; by eapply within_same; [| |exact Hw]).
  unfold run_context, try_catch in E0. destruct (push_transaction_body _ _ _ _ _ _) as [r1 [[]|e]] eqn:Eb.
  - injection E0 as <- _ <-. apply body_within in Eb; [|done|done]. apply M_bind_Ok in E as (s2 & [] & E0 & E).
    assert (within s2) as Hw2 by (destruct (_ && _) in E0; injection E0 as <-; [apply Hundo|done]).
    apply M_bind_Ok in E as (s3 & [] & E1 & E). injection E as <- _. destruct (md_implicit trx); injection E1 as <-; [done|]. by eapply within_same; [| |exact Hw2].
  - destruct (catchable e); [|done]. injection E0 as <- _ <-. apply M_bind_Ok in E as (s2 & [] & E0 & E). injection E0 as <-.
    apply M_bind_Ok in E as (s3 & [] & E1 & E). injection E as <- _. destruct (failure_is_subjective e); injection E1 as <-; [apply Hundo|].
    by eapply within_same; [| |apply (Hundo (rn_build r1))].
Qed.

(** *** Scheduled transactions *)

Lemma requiring_checks s : bs_in_trx_requiring_checks s = true -> checks_skipped (view nd s) = false.
Proof. intros Hr. unfold checks_skipped, skip_trx_checks, light_validation_allowed, view. simpl. by rewrite Hr. Qed.

Lemma frame_view s s' : frame s s' -> view nd s' = view nd s.
Proof. intros (Hg & Hs & Hb & Hp & Hf). unfold view, pending_block_time. by rewrite Hg, Hs, Hb, Hp, Hf. Qed.

Lemma scheduled_body_framed cv trx_id g clk : framed rn_build (push_scheduled_body nd cv trx_id g clk).
Proof.
  unfold push_scheduled_body. apply framed_bind; [apply framed_on_trx|intros _]. apply framed_bind; [done|intros r].
  apply framed_bind; [destruct (_ && _); [apply framed_lift|done]|intros _]. do 2 (apply framed_bind; [apply framed_on_trx|intros _]).
  apply framed_bind; [done|intros r1]. apply framed_bind; [apply framed_on_build, framed_receipt|done].
Qed.

(** The end of the two bodies. *)
Definition finish (cv : controller_view) (trx_id : digest) (st : receipt_status) (clk : clock) : M running unit :=
  on_trx (finalize cv (ck_final clk)) ≫= fun _ => get_state ≫= fun r =>
  on_build (Controller.push_receipt (inl trx_id) st (cm_billed_cpu_time_us (tc_cpu (rn_tc r))) (nm_net_usage (tc_net (rn_tc r)))) ≫= fun _ => append_actions.

Lemma finish_ok cv trx_id st clk s r r' : finish cv trx_id st clk r = (r', Ok tt) -> bs_pending (rn_build r) = bs_pending s ->
  (exists cpu net, receipts_of (rn_build r') = receipts_of s ++ [mk_trx_receipt st cpu net (inl trx_id)]) /\
  (st <> expired -> checking cv -> within s -> pending_run (block_limits_of s) (bs_pending s) r -> within (rn_build r')).
Proof.
  intros E Hp. unfold finish in E. apply M_bind_Ok in E as (r1 & [] & E1 & E). apply M_bind_Ok in E as (r2 & ry & E0 & E). injection E0 as <- <-.
  apply M_bind_Ok in E as (r2 & [] & E2 & E). apply append_actions_Ok in E as [Hc Ht]. split.
  - apply on_trx_Ok in E1 as (t & _ & ->). apply on_build_Ok in E2 as (s2 & E2 & ->). apply push_receipt_Ok in E2 as ->. rewrite Ht. simpl. rewrite Hp. by eexists _, _.
  - intros Hst Hcv Hw Hr. by eapply finish_within.
Qed.

Lemma onerror_body_ok cv trx_id g clk s tc r' : apply_onerror_body cv trx_id g clk (mk_running s tc) = (r', Ok tt) ->
  (exists cpu net, receipts_of (rn_build r') = receipts_of s ++ [mk_trx_receipt soft_fail cpu net (inl trx_id)]) /\
  (checking cv -> within s -> within (rn_build r')).
Proof.
  intros E. unfold apply_onerror_body in E. apply M_bind_Ok in E as (r1 & [] & E1 & E). apply M_bind_Ok in E as (r2 & [] & E2 & E).
  apply M_bind_Ok in E as (r3 & ry & E0 & E). injection E0 as <- <-. apply M_bind_Ok in E as (r3 & act & E0 & E). apply lift_Ok in E0 as [-> _].
  apply M_bind_Ok in E as (r4 & [] & E4 & E).
  assert (bs_pending (rn_build r4) = bs_pending s) as Hp.
  { apply on_trx_Ok in E4 as (t4 & _ & ->). apply on_trx_Ok in E2 as (t2 & _ & ->). by apply on_trx_Ok in E1 as (t1 & _ & ->). }
  destruct (finish_ok cv trx_id soft_fail clk s r4 r' E Hp) as [Hr Hfin]. split; [done|]. intros Hcv Hw. apply Hfin; [done|done|done|].
  eapply on_trx_keeps; [|exact E4|]; [apply dispatch_action_keeps|]. eapply on_trx_keeps; [|exact E2|]; [by apply keeps_modify_tc|].
  apply on_trx_Ok in E1 as (t & E1 & ->). apply init_for_implicit_metered in E1; [|apply Hw]. constructor; [|done]. simpl. by rewrite trx_of_chain.
Qed.

Lemma scheduled_body_ok cv trx_id g clk s tc r' : push_scheduled_body nd cv trx_id g clk (mk_running s tc) = (r', Ok tt) ->
  (exists cpu net, receipts_of (rn_build r') = receipts_of s ++ [mk_trx_receipt executed cpu net (inl trx_id)]) /\
  (checking cv -> within s -> within (rn_build r')).
Proof.
  intros E. unfold push_scheduled_body in E. apply M_bind_Ok in E as (r1 & [] & E1 & E). apply M_bind_Ok in E as (r2 & ry & E0 & E). injection E0 as <- <-.
  apply M_bind_Ok in E as (r2 & [] & E0 & E). assert (r2 = r1) as -> by (destruct (_ && _) in E0; [by apply lift_Ok in E0 as [-> _]|by injection E0 as <-]).
  clear E0. apply M_bind_Ok in E as (r4 & [] & E4 & E).
  assert (bs_pending (rn_build r4) = bs_pending s) as Hp.
  { apply on_trx_Ok in E4 as (t4 & _ & ->). by apply on_trx_Ok in E1 as (t1 & _ & ->). }
  destruct (finish_ok cv trx_id executed clk s r4 r' E Hp) as [Hr Hfin]. split; [done|]. intros Hcv Hw. apply Hfin; [done|done|done|].
  eapply on_trx_keeps; [|exact E4|]; [apply exec_transaction_keeps|].
  apply on_trx_Ok in E1 as (t & E1 & ->). apply init_for_deferred_metered in E1; [|apply Hw]. constructor; [|done]. simpl. by rewrite trx_of_chain.
Qed.

Lemma failed_cpu_time_u32 cv tc now : 0 <= failed_cpu_time cv tc now < 2 ^ 32.
Proof. unfold failed_cpu_time, u32, wrap. apply Z.mod_pos_bound. lia. Qed.

Lemma apply_onerror_ok trx_id g deadline start billed explicit enforce clk s s' x : bs_in_trx_requiring_checks s = true ->
  apply_onerror nd pack_onerror trx_id g deadline start billed explicit enforce clk s = (s', Ok x) ->
  match x with
  | None => (exists cpu net, receipts_of s' = receipts_of s ++ [mk_trx_receipt soft_fail cpu net (inl trx_id)]) /\
            (0 <= cc_min_transaction_cpu_usage (cv_cfg (view nd s)) -> within s -> within s')
  | Some (_, cpu) => bs_chain s' = bs_chain s /\ bs_pending s' = bs_pending s /\ 0 <= cpu < 2 ^ 32
  end.
Proof.
  intros Hreq E. pose proof (requiring_checks s Hreq) as Hsk. pose proof (checks_need_sessions s Hsk) as Hses.
  unfold apply_onerror in E. apply M_bind_Ok in E as (s0 & sx & E0 & E). injection E0 as <- <-. cbv zeta in E. rewrite Hses in E.
  apply M_bind_Ok in E as (s0 & tc & E0 & E). apply lift_Ok in E0 as [-> _]. apply M_bind_Ok in E as (s1 & [tc1 r] & E0 & E).
  unfold run_context, try_catch in E0. destruct (apply_onerror_body _ _ _ _ _) as [r1 [[]|e]] eqn:Eb.
  - injection E0 as <- <- <-. injection E as <- <-. apply onerror_body_ok in Eb as [Hr Hw]. split; [done|]. intros Hmin. by apply Hw.
  - destruct (catchable e); [|done]. injection E0 as <- <- <-. apply M_bind_Ok in E as (s2 & [] & E1 & E). injection E1 as <-. injection E as <- <-.
    split_and!; [done|done|apply failed_cpu_time_u32..].
Qed.

(** Nothing but the resource limits is different. *)
Definition only_limits (c c' : chain_state) : Prop := exists rl, c' = set_chain_db c (NativeActions.set_limits (ch_db c) rl).

Lemma on_chain_limits_Ok f s s' : on_chain_limits f s = (s', Ok tt) ->
  exists rl, f (block_limits_of s) = Ok rl /\ s' = set_chain s (set_chain_db (bs_chain s) (NativeActions.set_limits (ch_db (bs_chain s)) rl)).
Proof. unfold on_chain_limits. destruct (f _) as [rl|e]; intros [= <-]. eauto. Qed.

Lemma only_limits_set s rl : only_limits (bs_chain s) (set_chain_db (bs_chain s) (NativeActions.set_limits (ch_db (bs_chain s)) rl)).
Proof. by exists rl. Qed.

Lemma only_limits_trans c1 c2 c3 : only_limits c1 c2 -> only_limits c2 c3 -> only_limits c1 c3.
Proof. intros [rl1 ->] [rl2 ->]. by exists rl2. Qed.

Lemma bill_hard_failure_ok cv tc explicit cpu s s' c : 0 <= cpu < 2 ^ 32 -> bill_hard_failure cv tc explicit cpu s = (s', Ok c) ->
  bs_pending s' = bs_pending s /\ only_limits (bs_chain s) (bs_chain s') /\ 0 <= c < 2 ^ 32 /\
  (block_ok (block_limits_of s) -> block_ok (block_limits_of s') /\
   pending_cpu_usage (state (block_limits_of s')) = pending_cpu_usage (state (block_limits_of s)) + c /\
   pending_net_usage (state (block_limits_of s')) = pending_net_usage (state (block_limits_of s))).
Proof.
  intros Hcpu E. unfold bill_hard_failure in E. apply M_bind_Ok in E as (s1 & c1 & E1 & E).
  assert (bs_pending s1 = bs_pending s /\ only_limits (bs_chain s) (bs_chain s1) /\ same_block (block_limits_of s) (block_limits_of s1) /\ 0 <= c1 < 2 ^ 32)
    as (P1 & O1 & S1 & C1).
  { destruct explicit.
    - injection E1 as <- <-. split_and!; try done; try lia. exists (block_limits_of s). by destruct s as [[[]] ? ? ? ?].
    - apply M_bind_Ok in E1 as (s2 & [] & E0 & E1). apply on_chain_limits_Ok in E0 as (rl & Hu & ->). apply update_account_usage_same in Hu.
      apply M_bind_Ok in E1 as (s2 & sy & E0 & E1). injection E0 as <- <-. apply M_bind_Ok in E1 as (s2 & [[[? ?] ?] ?] & E0 & E1). apply lift_Ok in E0 as [-> _].
      injection E1 as <- <-. split; [done|]. split; [apply only_limits_set|]. split; [exact Hu|]. unfold u32, wrap. apply Z.mod_pos_bound. lia. }
  clear E1. apply M_bind_Ok in E as (s2 & [] & E0 & E). injection E as <- <-. apply on_chain_limits_Ok in E0 as (rl & Hu & ->).
  split_and!; [done|by eapply only_limits_trans; [exact O1|apply only_limits_set]|lia|lia|]. intros Hb. pose proof (same_block_ok _ _ S1 Hb) as [Bc Bn Mc Mn].
  destruct S1 as [Sc Ss]. rewrite Sc, Ss in *. unfold add_transaction_usage in Hu. apply bind_Ok in Hu as (rl1 & Eb & Hu).
  apply bill_accounts_frame in Eb as (Fc & Fs & _). cbv zeta in Hu. apply bind_Ok in Hu as ([] & A1%assert_Ok & Hu). apply bind_Ok in Hu as ([] & A2%assert_Ok & Hu).
  injection Hu as <-. rewrite Ss in Fs. rewrite Sc in Fc. cbn [bs_chain set_chain ch_db set_chain_db db_limits NativeActions.set_limits].
  cbn [set_pending pending_net_usage pending_cpu_usage set_state_row config state] in A1, A2 |- *. rewrite Fs, Fc in A1, A2. rewrite Fs. rewrite Z.add_0_r in *.
  rewrite u64_small in A1, A2 by (unfold is_u64; lia). rewrite !u64_small by (unfold is_u64; lia). apply Z.leb_le in A1, A2.
  split; [|lia]. constructor; cbn [state config set_state_row set_pending pending_cpu_usage pending_net_usage]; rewrite ?Fc; lia.
Qed.

(** What became of a failed transaction. *)
Definition retired (trx_id : digest) (g : generated_transaction_object) (s s' : build_state) (x : option exn) (b : bool) : Prop :=
  if b then
    (x = None /\ gt_sender g <> 0 /\ exists cpu net, receipts_of s' = receipts_of s ++ [mk_trx_receipt soft_fail cpu net (inl trx_id)]) \/
    (exists e cpu, x = Some e /\ failure_is_subjective e = false /\ only_limits (bs_chain s) (bs_chain s') /\
       receipts_of s' = receipts_of s ++ [mk_trx_receipt hard_fail cpu 0 (inl trx_id)])
  else bs_chain s' = bs_chain s /\ bs_pending s' = bs_pending s /\ exists e, x = Some e /\ scheduled_failure_is_subjective e = true.

Lemma retire_failed_ok cv trx_id g tc e deadline billed explicit clk clk' s s' x b : bs_in_trx_requiring_checks s = true ->
  retire_failed nd pack_onerror cv trx_id g tc e deadline billed explicit clk clk' s = (s', Ok (x, b)) ->
  retired trx_id g s s' x b /\ (0 <= cc_min_transaction_cpu_usage (cv_cfg (view nd s)) -> within s -> within s').
Proof.
  intros Hreq E. unfold retire_failed in E. cbv zeta in E. apply M_bind_Ok in E as (s1 & h & E1 & E).
  assert (match h with
    | None => gt_sender g <> 0 /\ (exists cpu net, receipts_of s1 = receipts_of s ++ [mk_trx_receipt soft_fail cpu net (inl trx_id)]) /\
              (0 <= cc_min_transaction_cpu_usage (cv_cfg (view nd s)) -> within s -> within s1)
    | Some (_, cpu) => bs_chain s1 = bs_chain s /\ bs_pending s1 = bs_pending s /\ 0 <= cpu < 2 ^ 32
    end) as Hh.
  { destruct (negb (gt_sender g =? 0) && _) eqn:Hs.
    - apply apply_onerror_ok in E1; [|done]. destruct h as [[? ?]|]; [done|]. split; [|done]. apply andb_true_iff in Hs as [Hs _]. by apply negb_true_iff, Z.eqb_neq in Hs.
    - injection E1 as <- <-. split_and!; try done; apply failed_cpu_time_u32. }
  clear E1. destruct h as [[e1 cpu]|].
  - destruct Hh as (Hc & Hp & Hcpu). destruct (if explicit then _ else _) eqn:Hsub.
    + injection E as <- <- <-. split; [split_and!; [done|done|]; exists e1; split; [done|]|].
      * destruct explicit; [unfold scheduled_failure_is_subjective; rewrite Hsub; by rewrite orb_true_r|done].
      * intros _ Hw. eapply within_same; [..|exact Hw]; [split; by rewrite Hc|by rewrite Hp].
    + assert (failure_is_subjective e1 = false) as Hns by (destruct explicit; [done|by apply orb_false_iff in Hsub as [_ ?]]).
      apply M_bind_Ok in E as (s2 & c & E0 & E). apply bill_hard_failure_ok in E0 as (P2 & O2 & C2 & B2); [|done].
      apply M_bind_Ok in E as (s3 & [] & E0 & E). apply push_receipt_Ok in E0 as ->. injection E as <- <- <-. rewrite Hc in O2. split.
      * right. eexists e1, _. split_and!; [done|done|done|]. simpl. rewrite P2, Hp. reflexivity.
      * intros _ Hw. assert (within s1) as Hw1 by (eapply within_same; [..|exact Hw]; [split; by rewrite Hc|by rewrite Hp]).
        destruct (B2 (wi_block _ s1 Hw1)) as (B3 & Pc & Pn). eapply (charged_receipt given s1 _ _ hard_fail c 0); [done|done|lia|lia|done|simpl; by rewrite P2|done|rewrite Z.add_0_r; done].
  - destruct Hh as (Hsn & Hr & Hw). injection E as <- <- <-. split; [left; split_and!; done|done].
Qed.

(** The removal of the row. *)
Lemma remove_scheduled_ok trx_id g s s' : remove_scheduled_transaction trx_id g s = (s', Ok tt) ->
  bs_pending s' = bs_pending s /\ same_block (block_limits_of s) (block_limits_of s') /\ ch_gpo (bs_chain s') = ch_gpo (bs_chain s) /\
  exists rl, bs_chain s' = set_chain_db (bs_chain s) (set_generated (NativeActions.set_limits (ch_db (bs_chain s)) rl) (delete trx_id (db_generated (ch_db (bs_chain s))))).
Proof.
  intros E. unfold remove_scheduled_transaction in E. apply M_bind_Ok in E as (s1 & [] & E0 & E). apply on_chain_limits_Ok in E0 as (rl & Hr & ->).
  injection E as <-. split; [done|]. split; [|split; [done|by exists rl]]. unfold add_pending_ram_usage in Hr. destruct (_ =? 0); [by injection Hr as <-|].
  apply bind_Ok in Hr as (u & _ & Hr). do 2 (apply bind_Ok in Hr as (? & _ & Hr)). by injection Hr as <-.
Qed.

(** The row is gone and otherwise only resource limits are different. *)
Definition only_removed (trx_id : digest) (c c' : chain_state) : Prop :=
  exists rl, c' = set_chain_db c (set_generated (NativeActions.set_limits (ch_db c) rl) (delete trx_id (db_generated (ch_db c)))).

(** What became of a scheduled transaction. *)
Definition scheduled_outcome (trx_id : digest) (g : generated_transaction_object) (s s' : build_state) (x : option exn) (b : bool) : Prop :=
  let time := pending_block_time (bs_pending s) in
  if b then
    exists r, receipts_of s' = receipts_of s ++ [r] /\ tp_trx r = inl trx_id /\
      match tp_status r with
      | executed => x = None /\ time <= gt_expiration g
      | soft_fail => x = None /\ time <= gt_expiration g /\ gt_sender g <> 0
      | hard_fail => time <= gt_expiration g /\ only_removed trx_id (bs_chain s) (bs_chain s') /\ exists e, x = Some e /\ failure_is_subjective e = false
      | expired => x = None /\ gt_expiration g < time /\ only_removed trx_id (bs_chain s) (bs_chain s')
      | delayed => False
      end
  else bs_pending s' = bs_pending s /\ exists e, x = Some e /\ scheduled_failure_is_subjective e = true.

Lemma run_scheduled_ok trx_id g deadline billed explicit clk clk' s s' x b :
  run_scheduled nd pack_onerror trx_id g deadline billed explicit clk clk' s = (s', Ok (x, b)) ->
  gt_delay_until g <= pending_block_time (bs_pending s) /\ scheduled_outcome trx_id g s s' x b /\
  (given billed -> 0 <= cc_min_transaction_cpu_usage (gp_configuration (ch_gpo (bs_chain s))) -> within s -> within s').
Proof.
  intros E. unfold run_scheduled in E. apply M_bind_Ok in E as (s1 & [] & E0 & E). apply remove_scheduled_ok in E0 as (P1 & S1 & G1 & rl & C1).
  apply M_bind_Ok in E as (s2 & sx & E0 & E). injection E0 as <- <-. cbv zeta in E. rewrite P1 in E.
  apply M_bind_Ok in E as (s2 & u & E0 & E). apply M_assert_Ok in E0 as [-> Hd]. split; [by apply Z.leb_le|].
  apply M_bind_Ok in E as (s2 & dtrx & E0 & E). apply lift_Ok in E0 as [-> _].
  assert (within s -> within s1) as W1 by (intros Hw; eapply within_same; [exact S1|by rewrite P1|exact Hw]).
  destruct (Z.ltb_spec (gt_expiration g) (pending_block_time (bs_pending s))) as [Hexp|Hexp].
  { apply M_bind_Ok in E as (s2 & [] & E0 & E). apply push_receipt_Ok in E0 as ->. injection E as <- <- <-. split.
    - eexists. split; [simpl; rewrite P1; reflexivity|]. simpl. split_and!; [done|done|done|]. exists rl. by rewrite C1.
    - intros Hgiven _ Hw. by eapply (expired_receipt given s1); [by apply W1|exact Hgiven|done|]. }
  apply M_bind_Ok in E as (s2 & [] & E0 & E). injection E0 as <-. set (s2 := set_requiring_checks s1 true) in E.
  assert (within s -> within s2) as W2 by (intros Hw; by eapply within_same; [| |exact (W1 Hw)]).
  apply M_bind_Ok in E as (s3 & sx & E0 & E). injection E0 as <- <-. apply M_bind_Ok in E as (s3 & tc & E0 & E). apply lift_Ok in E0 as [-> _].
  apply M_bind_Ok in E as (s3 & [tc1 r] & E0 & E). unfold run_context, try_catch in E0.
  assert (cv_cfg (view nd s2) = gp_configuration (ch_gpo (bs_chain s))) as Hcfg by (simpl; by rewrite G1).
  destruct (push_scheduled_body _ _ _ _ _ _) as [r1 [[]|e]] eqn:Eb.
  - injection E0 as <- <- <-. injection E as <- <- <-. apply scheduled_body_ok in Eb as [(cpu & net & Hr) Hw]. split.
    + eexists. split; [simpl in Hr; rewrite Hr, P1; reflexivity|]. simpl. done.
    + intros _ Hmin Hws. apply Hw; [|by apply W2]. split; [by apply requiring_checks|by rewrite Hcfg].
  - destruct (catchable e); [|done]. injection E0 as <- <- <-. apply M_bind_Ok in E as (s4 & [] & E1 & E). injection E1 as <-.
    assert (bs_in_trx_requiring_checks (rn_build r1) = true) as Hfl by (pose proof (scheduled_body_framed (view nd s2) trx_id g clk (mk_running s2 tc)) as Hf; rewrite Eb in Hf; apply Hf).
    apply retire_failed_ok in E as [Hr Hw]; [|done]. split; [|intros _ Hmin Hws; rewrite <- Hcfg in Hmin; apply Hw; [exact Hmin|by eapply within_same; [| |exact (W2 Hws)]]].
    destruct b; [destruct Hr as [(-> & Hsn & cpu & net & Hr)|(e1 & cpu & -> & Hsub & [rl2 Hl] & Hr)]|].
    + eexists. split; [rewrite Hr; simpl; rewrite P1; reflexivity|]. done.
    + eexists. split; [rewrite Hr; simpl; rewrite P1; reflexivity|]. simpl. split_and!; [done|done|..]; [|by eexists]. exists rl2. rewrite Hl. simpl. by rewrite C1.
    + destruct Hr as (_ & Hp & He). split; [|done]. rewrite Hp. done.
Qed.

End Charges.
