(* ===== verification/ControllerRuns.v ===== *)
(** * Blocks as they are built

    A block is built by pushing transactions in any order, whatever becomes of
    them; and a block that was received is carried out receipt by receipt. The
    theorems here are about such runs. *)

From Stdlib Require Import ZArith Lia Bool.
From stdpp Require Import base numbers gmap sets list fin_maps.
From S2P Require Import Prelude ResourceLimits ResourceLimitsProofs BlockTime Name Merkle BlockHeader BlockHeaderProofs Authority AuthorityProofs.
From S2P Require Import Permissions NativeActions NativeRuns ChainConfig Transaction TransactionProofs Block Bandwidth TransactionContext.
From S2P Require Import TransactionContextProofs TransactionRuns ApplyContext ApplyContextProofs ApplyRuns Controller ControllerProofs.

Open Scope Z_scope.

(** ** Every way a push can end *)

Lemma frame_undo session s0 s : frame s0 s -> frame s0 (undo session s0 s).
Proof. intros (Hg & Hs & Hb & Hp & Hf). unfold undo. destruct session; by split_and!. Qed.

Lemma run_context_frame session s tc body : framed rn_build body -> frame s (run_context session s tc body s).1.
Proof.
  intros Hb. specialize (Hb (mk_running s tc)). unfold run_context, try_catch. destruct (body _) as [r [[]|e]]; [done|].
  destruct (catchable e); [done|by apply frame_undo].
Qed.

(** An undo with a session leaves nothing of the block. *)
Lemma undo_within given s0 s : within given s0 -> within given (undo true s0 s).
Proof. intros Hw. by eapply within_same; [| |exact Hw]. Qed.

(** Code that touches the database only. *)
Definition quiet {A} (m : M build_state A) : Prop := forall s, frame s (m s).1 /\ bs_pending (m s).1 = bs_pending s.

Lemma quiet_bind {A B} (m : M build_state A) (f : A -> M build_state B) : quiet m -> (forall a, quiet (f a)) -> quiet (m ≫= f).
Proof.
  intros Hm Hf s. destruct (Hm s) as [F1 P1]. unfold mbind, M_bind. destruct (m s) as [s1 [a|e]]; [|done]. destruct (Hf a s1) as [F2 P2].
  split; [by etrans|]. rewrite P2. exact P1.
Qed.
Lemma quiet_lift {A} (x : result A) : quiet (lift x).
Proof. done. Qed.
Lemma quiet_assert b e : quiet (M_ASSERT b e).
Proof. by destruct b. Qed.
Lemma quiet_limits f : quiet (on_chain_limits f).
Proof. intros s. unfold on_chain_limits. by destruct (f _). Qed.

Lemma bill_hard_failure_quiet `{Cbrt} `{Crypto} cv tc explicit cpu : quiet (bill_hard_failure cv tc explicit cpu).
Proof.
  unfold bill_hard_failure. apply quiet_bind; [|intros c; by apply quiet_bind; [apply quiet_limits|]]. destruct explicit; [done|].
  apply quiet_bind; [apply quiet_limits|intros _]. apply quiet_bind; [done|intros s]. by apply quiet_bind; [apply quiet_lift|intros [[[? ?] ?] ?]].
Qed.
Lemma remove_scheduled_quiet trx_id g : quiet (remove_scheduled_transaction trx_id g).
Proof. apply quiet_bind; [apply quiet_limits|done]. Qed.

(** The frame is kept, and an exception leaves the pending block as it was. *)
Definition settles {A} (s : build_state) (m : M build_state A) : Prop :=
  frame s (m s).1 /\ match (m s).2 with Ok _ => True | Err _ => bs_pending (m s).1 = bs_pending s end.

Lemma quiet_settles {A} (m : M build_state A) s : quiet m -> settles s m.
Proof. intros Hm. destruct (Hm s) as [Hf Hp]. split; [done|]. by destruct (m s).2. Qed.

Lemma settles_quiet_bind {A B} (m : M build_state A) (f : A -> M build_state B) s : quiet m ->
  (forall a s1, m s = (s1, Ok a) -> settles s1 (f a)) -> settles s (m ≫= f).
Proof.
  intros Hm Hf. destruct (Hm s) as [F1 P1]. unfold settles, mbind, M_bind. destruct (m s) as [s1 [a|e]] eqn:E; [|done].
  destruct (Hf a s1 eq_refl) as [F2 P2]. split; [by etrans|]. destruct (f a s1).2; [done|]. rewrite P2. exact P1.
Qed.

Lemma receipt_settles trx st cpu net s : settles s (Controller.push_receipt trx st cpu net).
Proof.
  split; [apply framed_receipt|]. unfold Controller.push_receipt. cbv zeta. unfold mbind, M_bind, M_ASSERT. by destruct (_ =? _).
Qed.

Section Runs.
Context `{CbrtLaws} `{Crypto} `{MetaOrder} `{ActionData} `{TransactionData} `{HandlersKeep} (nd : node).
Context (pack_signatures : list signature_type -> Z) (signed_id : packed_transaction -> digest) (pack_onerror : Z -> list Z -> list Z).

Notation push_transaction := (push_transaction nd pack_signatures signed_id).
Notation push_scheduled_transaction := (push_scheduled_transaction nd pack_onerror).

Lemma input_body_framed cv trx clk : framed rn_build (push_transaction_body nd pack_signatures cv trx clk).
Proof.
  unfold push_transaction_body. cbv zeta. apply framed_bind; [|intros _].
  { destruct (md_implicit trx); [by apply framed_bind; [|intros _]; apply framed_on_trx|]. do 2 (apply framed_bind; [apply framed_lift|intros ?]). apply framed_on_trx. }
  apply framed_bind; [apply framed_on_trx|intros _]. apply framed_bind; [|intros trx'].
  { destruct (_ && _); [|done]. apply framed_bind; [intros r; by destruct (recover_keys _ _ _)|intros ks]. apply framed_bind; [done|intros r].
    apply framed_bind; [apply framed_lift|done]. }
  do 2 (apply framed_bind; [apply framed_on_trx|intros _]). apply framed_bind; [done|intros r]. apply framed_bind; [|done].
  destruct (md_implicit trx'); [done|]. apply framed_bind; [apply framed_on_build, framed_receipt|intros _]. by apply framed_on_build, framed_modify.
Qed.

Lemma onerror_body_framed cv trx_id g clk : framed rn_build (apply_onerror_body cv trx_id g clk).
Proof.
  unfold apply_onerror_body. do 2 (apply framed_bind; [apply framed_on_trx|intros _]). apply framed_bind; [done|intros r].
  apply framed_bind; [apply framed_lift|intros a]. do 2 (apply framed_bind; [apply framed_on_trx|intros _]). apply framed_bind; [done|intros r1].
  apply framed_bind; [apply framed_on_build, framed_receipt|done].
Qed.

(** A push that throws leaves the block as it was. *)
Lemma push_transaction_Err trx deadline billed explicit clk s s' e : checks_skipped (view nd s) = false ->
  push_transaction trx deadline billed explicit clk s = (s', Err e) -> bs_chain s' = bs_chain s /\ bs_pending s' = bs_pending s.
Proof.
  intros Hsk E. pose proof (checks_need_sessions nd s Hsk) as Hses. unfold Controller.push_transaction in E. cbv zeta in E.
  unfold mbind, M_bind, get_state, lift in E. unfold M_ASSERT in E. destruct (negb (deadline =? 0)); [|by injection E as <-]. simpl in E. rewrite Hses in E.
  destruct (make_context _ _) as [tc|]; [|by injection E as <-]. unfold run_context in E. destruct (try_catch _ _) as [r [x|e1]]; [|by injection E as <- _].
  destruct x as [[]|e1].
  - by destruct (negb _ && _), (md_implicit trx).
  - by destruct (failure_is_subjective e1).
Qed.

Lemma push_transaction_frame trx deadline billed explicit clk s : frame s (push_transaction trx deadline billed explicit clk s).1.
Proof.
  unfold Controller.push_transaction. cbv zeta. unfold mbind, M_bind, get_state, lift. unfold M_ASSERT. destruct (negb (deadline =? 0)); [|done]. simpl.
  destruct (make_context _ _) as [tc|]; [|done]. set (b := negb (skip_db_sessions _ _ _)).
  pose proof (run_context_frame b s tc _ (input_body_framed (view nd s) trx clk)) as Hf. destruct (run_context _ _ _ _ _) as [s1 [[tc1 [[]|e]]|e]]; simpl in Hf |- *; [..|done].
  - destruct (negb _ && _); simpl; (destruct (md_implicit trx); simpl; [|unfold set_unapplied]); try done; by apply frame_undo.
  - pose proof (frame_undo b s s1 Hf). by destruct (failure_is_subjective e).
Qed.

Lemma apply_onerror_settles trx_id g deadline start billed explicit enforce clk s :
  settles s (apply_onerror nd pack_onerror trx_id g deadline start billed explicit enforce clk).
Proof.
  unfold settles, apply_onerror. cbv zeta. unfold mbind, M_bind, get_state, lift. destruct (make_context _ _) as [tc|]; [|done].
  set (b := negb (skip_db_sessions _ _ _)). pose proof (run_context_frame b s tc _ (onerror_body_framed (view nd s) trx_id g clk)) as Hf.
  unfold run_context in *. destruct (try_catch _ _) as [r [[[]|e]|e]]; simpl in Hf |- *; [done|split; [by apply frame_undo|done]|done].
Qed.

Lemma retire_failed_settles cv trx_id g tc e deadline billed explicit clk clk' s : bs_in_trx_requiring_checks s = true ->
  settles s (retire_failed nd pack_onerror cv trx_id g tc e deadline billed explicit clk clk').
Proof.
  intros Hreq. unfold retire_failed. cbv zeta. match goal with |- settles s (?m ≫= ?f) => set (handler := m); set (rest := f) end.
  assert (settles s handler) as [Hf He] by (unfold handler; destruct (_ && _); [apply apply_onerror_settles|done]).
  assert (forall s1 x, handler s = (s1, Ok (Some x)) -> bs_pending s1 = bs_pending s) as Hp.
  { intros s1 [e1 c1] E. unfold handler in E. destruct (_ && _); [|by injection E as <-]. by apply (apply_onerror_ok nd pack_onerror (fun _ => True)) in E as (_ & ? & _). }
  unfold settles, mbind, M_bind. destruct (handler s) as [s1 [[[e1 cpu]|]|e1]]; [|done|done]. specialize (Hp s1 _ eq_refl). simpl in Hf.
  assert (settles s1 (rest (Some (e1, cpu)))) as [Hf2 He2].
  { unfold rest. destruct (if explicit then _ else _); [done|]. apply settles_quiet_bind; [apply bill_hard_failure_quiet|]. intros c s2 _.
    destruct (receipt_settles (inl trx_id) hard_fail c 0 s2) as [Hr Hre]. unfold settles, mbind, M_bind. by destruct (Controller.push_receipt _ _ _ _ _) as [s3 [[]|]]. }
  split; [by etrans|]. destruct (rest _ s1).2; [done|]. by rewrite He2.
Qed.

(** The transaction once its row is gone and the flag is raised. *)
Lemma run_attempt_settles trx_id g dtrx deadline billed explicit enforce clk clk' s : bs_in_trx_requiring_checks s = true ->
  settles s
    (tc ← lift (make_context (mk_settings dtrx trx_id (ck_start clk) deadline 0 explicit enforce 0) billed);
     '(tc, r) ← run_context true s tc (push_scheduled_body nd (view nd s) trx_id g clk);
     match r with
     | inl _ => mret (None, true)
     | inr e => modify_build (undo true s);; retire_failed nd pack_onerror (view nd s) trx_id g tc e deadline billed explicit clk clk'
     end).
Proof.
  intros Hreq. apply settles_quiet_bind; [apply quiet_lift|]. intros tc s1 E. apply lift_Ok in E as [-> _].
  pose proof (run_context_frame true s tc _ (scheduled_body_framed nd (view nd s) trx_id g clk)) as Hf.
  unfold settles, mbind, M_bind. unfold run_context in *. destruct (try_catch _ _) as [r [[[]|e]|e]]; simpl in Hf; [done| |done].
  pose proof (frame_undo true s _ Hf) as Hu. set (s2 := undo true s (rn_build r)) in *.
  change (modify_build (undo true s) (rn_build r)) with (s2, Ok tt). cbv match.
  assert (bs_in_trx_requiring_checks s2 = true) as Hfl by (destruct Hu as (_&_&_&_&->); done).
  destruct (retire_failed_settles (view nd s) trx_id g (rn_tc r) e deadline billed explicit clk clk' s2 Hfl) as [F2 E2].
  split; [by etrans|exact E2].
Qed.

(** [run_scheduled] raises the flag; apart from that it settles too. *)
Lemma run_scheduled_settles trx_id g deadline billed explicit clk clk' s s' r :
  run_scheduled nd pack_onerror trx_id g deadline billed explicit clk clk' s = (s', r) ->
  frame s (set_requiring_checks s' (bs_in_trx_requiring_checks s)) /\ (if r is Err _ then bs_pending s' = bs_pending s else True).
Proof.
  intros E. unfold run_scheduled in E. unfold mbind at 1, M_bind at 1 in E.
  destruct (remove_scheduled_quiet trx_id g s) as [F1 P1]. destruct (remove_scheduled_transaction _ _ _) as [s1 [[]|e]]; simpl in F1, P1;
    [|injection E as <- <-; split; [|done]; destruct F1 as (?&?&?&?&?); by split_and!].
  match type of E with ?m s1 = _ => assert (settles s1 m \/ exists m', settles (set_requiring_checks s1 true) m' /\ m s1 = m' (set_requiring_checks s1 true)) as Hm end.
  { unfold settles at 1. unfold mbind, M_bind, M_ASSERT, get_state, lift. cbv beta zeta. destruct (_ <=? _); [|by left]. cbn [mret M_ret]. destruct (raw_unpack_transaction _) as [dtrx|]; [|by left].
    destruct (_ <? _).
    - left. destruct (receipt_settles (inl trx_id) expired billed 0 s1) as [Hr Hre]. by destruct (Controller.push_receipt _ _ _ _ _) as [s3 [[]|]].
    - right. eexists. split; [eapply (run_attempt_settles trx_id g dtrx deadline billed explicit _ clk clk')|reflexivity]. done. }
  destruct F1 as (G1&G2&G3&G4&G5).
  destruct Hm as [[F2 E2]|(m' & [F2 E2] & Hm)]; [|rewrite Hm in E]; rewrite E in F2, E2; destruct F2 as (?&?&?&?&?); simpl in *; (split; [split_and!; simpl; congruence|destruct r; congruence]).
Qed.

(** ** Blocks keep to their limits *)

(** A transaction is pushed, a scheduled one with one of the times [given]; the
    result does not matter. *)
Inductive push_step (given : Z -> Prop) : build_state -> build_state -> Prop :=
| input_step trx deadline billed explicit clk s s' r : push_transaction trx deadline billed explicit clk s = (s', r) -> push_step given s s'
| scheduled_step trx_id deadline billed explicit clk clk' s s' r :
    given billed -> push_scheduled_transaction trx_id deadline billed explicit clk clk' s = (s', r) -> push_step given s s'.

(** What the end of a scheduled transaction means. *)
Lemma push_scheduled_cases trx_id deadline billed explicit clk clk' s s' r g : db_generated (ch_db (bs_chain s)) !! trx_id = Some g ->
  push_scheduled_transaction trx_id deadline billed explicit clk clk' s = (s', r) ->
  frame s s' /\
  match r with
  | Ok x =>
      (gt_delay_until g <= pending_block_time (bs_pending s) /\ scheduled_outcome trx_id g s s' x true) \/
      (bs_pending s' = bs_pending s /\ exists e, x = Some e /\ scheduled_failure_is_subjective e = true)
  | Err _ => bs_pending s' = bs_pending s
  end /\
  (checks_skipped (view nd s) = false -> (if r is Ok x then ~ scheduled_outcome trx_id g s s' x true else True) -> bs_chain s' = bs_chain s) /\
  (forall given : Z -> Prop, given billed -> checking (view nd s) -> within given s -> within given s').
Proof.
  intros Hg E. unfold Controller.push_scheduled_transaction in E. rewrite Hg in E. cbv zeta in E.
  destruct (run_scheduled _ _ _ _ _ _ _ _ _ s) as [s1 r1] eqn:Er. pose proof (run_scheduled_settles _ _ _ _ _ _ _ _ _ _ Er) as [Hf He].
  set (b := negb (skip_db_sessions _ _ _)) in E. assert (checks_skipped (view nd s) = false -> b = true) as Hb by (intros Hs; unfold b; by rewrite checks_need_sessions).
  assert (frame s (if b then set_chain (set_requiring_checks s1 (bs_in_trx_requiring_checks s)) (bs_chain s) else set_requiring_checks s1 (bs_in_trx_requiring_checks s))) as Hfu
    by (destruct b; [destruct Hf as (?&?&?&?&?); by split_and!|done]).
  destruct r1 as [[x [|]]|e]; injection E as <- <-.
  - pose proof (fun given => run_scheduled_ok nd pack_onerror given _ _ _ _ _ _ _ _ _ _ _ Er) as Hok. destruct (Hok (fun _ => True)) as (Hd & Ho & _). split; [done|]. split; [by left|]. split; [intros _ Hn; by destruct Hn|].
    intros given Hg' [_ Hmin] Hws. destruct (Hok given) as (_ & _ & Hw). by eapply within_same; [| |exact (Hw Hg' Hmin Hws)].
  - apply (run_scheduled_ok nd pack_onerror (fun _ => True)) in Er as (Hd & [Ho He1] & _). split; [done|]. split; [right; by destruct b|]. split; [by intros ->%Hb|].
    intros given _ [Hs _] Hws. rewrite (Hb Hs). by eapply within_same; [| |exact Hws]; [|simpl; rewrite Ho].
  - split; [done|]. split; [by destruct b|]. split; [by intros ->%Hb|]. intros given _ [Hs _] Hws. rewrite (Hb Hs). by eapply within_same; [| |exact Hws]; [|simpl; rewrite He].
Qed.

Lemma push_step_within given s s' : push_step given s s' -> checking (view nd s) -> within given s -> checking (view nd s') /\ within given s'.
Proof.
  intros Hst Hcv Hw. destruct Hst as [trx deadline billed explicit clk s s' r E|trx_id deadline billed explicit clk clk' s s' r Hgiven E].
  - pose proof (push_transaction_frame trx deadline billed explicit clk s) as Hf. rewrite E in Hf. apply (frame_view nd) in Hf. simpl in Hf. rewrite Hf. split; [done|].
    destruct r as [x|e]; [by eapply push_transaction_within|]. apply push_transaction_Err in E as [Hc Hp]; [|apply Hcv].
    by eapply within_same; [| |exact Hw]; [rewrite Hc|rewrite Hp].
  - destruct (db_generated (ch_db (bs_chain s)) !! trx_id) as [g|] eqn:Hg; [|unfold Controller.push_scheduled_transaction in E; rewrite Hg in E; by injection E as <- _].
    apply (push_scheduled_cases _ _ _ _ _ _ _ _ _ g) in E as (Hf & _ & _ & Hw'); [|done]. apply (frame_view nd) in Hf. rewrite Hf. auto.
Qed.

(** Without given times the receipts of expired transactions add nothing. *)
Lemma expired_free rs : (forall r, r ∈ rs -> tp_status r = expired -> tp_cpu_usage_us r = 0) -> sum_of tp_cpu_usage_us rs = sum_of tp_cpu_usage_us (ran rs).
Proof.
  unfold ran. induction rs as [|r rs IH]; intros Hz; [done|]. assert (sum_of tp_cpu_usage_us (r :: rs) = tp_cpu_usage_us r + sum_of tp_cpu_usage_us rs) as -> by done.
  rewrite IH by (intros r' Hr'; apply Hz; by right). destruct (decide (tp_status r = expired)) as [He|He].
  - rewrite filter_cons_False by tauto. rewrite (Hz r) by (done || by left). lia.
  - by rewrite filter_cons_True.
Qed.

(** C9: On a node that checks transactions, whatever transactions are pushed into an empty block and however they end: the CPU time in the receipts of those that
    were run adds up to at most what a block may use, and so does the network bandwidth in all receipts. The receipt of a scheduled transaction that expired has the
    time that was given with the push, which is charged to nobody; so when no time is given, as in the production of a block, the CPU time in all receipts of the
    block adds up to at most what a block may use. *)
Theorem block_within_limits given s s' : checking (view nd s) -> block_ok (block_limits_of s) -> receipts_of s = [] -> rtc (push_step given) s s' ->
  sum_of tp_cpu_usage_us (ran (receipts_of s')) <= max (cpu_limit_parameters (config (block_limits_of s'))) /\
  8 * sum_of tp_net_usage_words (receipts_of s') <= max (net_limit_parameters (config (block_limits_of s'))) /\
  ((forall t, given t -> t = 0) -> sum_of tp_cpu_usage_us (receipts_of s') <= max (cpu_limit_parameters (config (block_limits_of s')))).
Proof.
  intros Hcv Hb Hr Hrun. assert (within given s) as Hw by (constructor; rewrite ?Hr; [done|apply Hb..|by intros r Hin%elem_of_nil]).
  assert (within given s') as [[Bc Bn _ _] Wc Wn We].
  { clear Hb Hr. induction Hrun as [|s s1 s' Hst _ IH]; [done|]. apply push_step_within in Hst as [? ?]; auto. }
  split_and!; [lia|lia|]. intros Hz. rewrite expired_free; [lia|]. intros r Hin He. destruct (We r Hin He) as (t & ->%Hz & ->). done.
Qed.

(** C10: On a node that checks transactions a scheduled transaction is retired by exactly one receipt or left for a later block: executed and soft-failed ones ran
    before they expired (a soft failure has a sender to handle it), a hard failure is objective and changes nothing but the row and resource limits, expiry
    comes after the expiration only; in every other case, which is a failure that is the node's own or an exception, nothing of the chain or the block changes. *)
Theorem scheduled_retired trx_id deadline billed explicit clk clk' s s' r g : db_generated (ch_db (bs_chain s)) !! trx_id = Some g ->
  checks_skipped (view nd s) = false -> push_scheduled_transaction trx_id deadline billed explicit clk clk' s = (s', r) ->
  match r with
  | Ok x =>
      (gt_delay_until g <= pending_block_time (bs_pending s) /\ scheduled_outcome trx_id g s s' x true) \/
      (bs_chain s' = bs_chain s /\ bs_pending s' = bs_pending s /\ exists e, x = Some e /\ scheduled_failure_is_subjective e = true)
  | Err _ => bs_chain s' = bs_chain s /\ bs_pending s' = bs_pending s
  end.
Proof.
  intros Hg Hs E. apply (push_scheduled_cases _ _ _ _ _ _ _ _ _ g) in E as (_ & Hr & Hc & _); [|done]. destruct r as [x|e]; [|by auto].
  destruct Hr as [?|[Hp He]]; [by left|]. right. split_and!; [|done|done]. apply Hc; [done|]. intros (r & Ha & _). rewrite Hp in Ha.
  apply (f_equal length) in Ha. rewrite length_app in Ha. simpl in Ha. lia.
Qed.

(** ** Blocks of others are carried out exactly *)

(** A transaction as it travels: without the copy unpacked by the node. *)
Definition wire (p : packed_transaction) : packed_transaction :=
  mk_packed (pk_signatures p) (pk_compression p) (pk_packed_context_free_data p) (pk_packed_trx p) None.
Definition wire_receipt (r : transaction_receipt) : transaction_receipt :=
  mk_trx_receipt (tp_status r) (tp_cpu_usage_us r) (tp_net_usage_words r) (match tp_trx r with inl i => inl i | inr p => inr (wire p) end).

Lemma metadata_wire p m : metadata_of_packed p = Ok m -> wire (md_packed_trx m) = wire p /\ md_implicit m = false.
Proof.
  unfold metadata_of_packed, get_signed_transaction. intros E. apply bind_Ok in E as ([p' t] & E0 & E). injection E as <-. split; [|done]. simpl.
  destruct (pk_compression p) eqn:Hc; [|done]. apply bind_Ok in E0 as ([p1 t1] & E1 & E0). apply bind_Ok in E0 as (cfd & _ & E0). injection E0 as <- _.
  unfold get_transaction in E1. apply bind_Ok in E1 as (p2 & E2 & E1). apply bind_Ok in E1 as (t2 & _ & E1). injection E1 as <- _.
  unfold local_unpack in E2. destruct (pk_unpacked_trx p); [by injection E2 as <-|]. apply bind_Ok in E2 as (t3 & _ & E2). by injection E2 as <-.
Qed.

Lemma recover_keys_packed m chain_id c c' m' ks : recover_keys m chain_id c = (c', Ok (m', ks)) -> md_packed_trx m' = md_packed_trx m /\ md_implicit m' = md_implicit m.
Proof.
  unfold recover_keys. intros E. destruct (md_signing_keys m) as [[c0 keys]|]; [case_bool_decide; [by injection E as _ <- _|]|];
    apply M_bind_Ok in E as (c1 & k & _ & E); by injection E as _ <- _.
Qed.

(** An input transaction adds its own receipt or none; an implicit one adds none. *)
Lemma input_body_receipt cv trx clk s tc r' : push_transaction_body nd pack_signatures cv trx clk (mk_running s tc) = (r', Ok tt) ->
  if md_implicit trx then receipts_of (rn_build r') = receipts_of s
  else exists r, receipts_of (rn_build r') = receipts_of s ++ [r] /\ tp_trx r = inr (md_packed_trx trx).
Proof.
  intros E. unfold push_transaction_body in E. cbv zeta in E. apply M_bind_Ok in E as (r1 & [] & E0 & E).
  assert (receipts_of (rn_build r1) = receipts_of s) as R1.
  { destruct (md_implicit trx).
    - apply M_bind_Ok in E0 as (r0 & [] & E1 & E0). apply on_trx_Ok in E1 as (? & _ & ->). by apply on_trx_Ok in E0 as (? & _ & ->).
    - apply M_bind_Ok in E0 as (r0 & u & E1 & E0). apply lift_Ok in E1 as [-> _]. apply M_bind_Ok in E0 as (r0 & v & E1 & E0). apply lift_Ok in E1 as [-> _].
      by apply on_trx_Ok in E0 as (? & _ & ->). }
  clear E0. apply M_bind_Ok in E as (r2 & [] & E0 & E). apply on_trx_Ok in E0 as (? & _ & ->). apply M_bind_Ok in E as (r3 & trx' & E0 & E).
  assert (receipts_of (rn_build r3) = receipts_of s /\ md_packed_trx trx' = md_packed_trx trx /\ md_implicit trx' = md_implicit trx) as (R3 & Hp & Hi).
  { destruct (_ && _) in E0; [|by injection E0 as <- <-]. apply M_bind_Ok in E0 as (r4 & [m ks] & E1 & E0).
    destruct (recover_keys _ _ _) as [c y] eqn:Ek. injection E1 as <- ->. apply recover_keys_packed in Ek as [? ?].
    apply M_bind_Ok in E0 as (r4 & ry & E1 & E0). injection E1 as <- <-. apply M_bind_Ok in E0 as (r4 & u & E1 & E0). apply lift_Ok in E1 as [-> _].
    by injection E0 as <- <-. }
  clear E0. apply M_bind_Ok in E as (r4 & [] & E0 & E). apply on_trx_Ok in E0 as (? & _ & ->). apply M_bind_Ok in E as (r5 & [] & E0 & E).
  apply on_trx_Ok in E0 as (? & _ & ->). apply M_bind_Ok in E as (r6 & ry & E0 & E). injection E0 as <- <-. apply M_bind_Ok in E as (r6 & [] & E0 & E).
  apply append_actions_Ok in E as [_ Ht]. rewrite Ht. rewrite <- Hi. destruct (md_implicit trx'); [by injection E0 as <-|].
  apply M_bind_Ok in E0 as (r7 & [] & E7 & E0). apply on_build_Ok in E7 as (s7 & E7 & ->). apply push_receipt_Ok in E7 as ->.
  apply on_build_Ok in E0 as (s8 & E0 & ->). injection E0 as <-. simpl. simpl in R3. rewrite R3. eexists. split; [reflexivity|]. simpl. by rewrite Hp.
Qed.

Lemma push_transaction_receipts trx deadline billed explicit clk s s' x : push_transaction trx deadline billed explicit clk s = (s', x) ->
  receipts_of s' = receipts_of s \/
  md_implicit trx = false /\ exists r, receipts_of s' = receipts_of s ++ [r] /\ tp_trx r = inr (md_packed_trx trx).
Proof.
  intros E. unfold Controller.push_transaction in E. cbv zeta in E. unfold mbind, M_bind, get_state, lift, M_ASSERT in E.
  destruct (negb (deadline =? 0)); [|injection E as <- _; by left]. simpl in E. destruct (make_context _ _) as [tc|]; [|injection E as <- _; by left].
  unfold run_context, try_catch in E. destruct (push_transaction_body _ _ _ _ _ _) as [r1 [[]|e]] eqn:Eb.
  - apply input_body_receipt in Eb. destruct (negb _ && _), (md_implicit trx); simpl in E; injection E as <- _; auto.
  - destruct (catchable e); [|injection E as <- _; by left]. destruct (failure_is_subjective e); injection E as <- _; by left.
Qed.

Lemma apply_receipt_exact receipt clk clk' s s' : apply_receipt nd pack_signatures signed_id pack_onerror receipt clk clk' s = (s', Ok tt) ->
  exists r, receipts_of s' = receipts_of s ++ [r] /\ wire_receipt r = wire_receipt receipt.
Proof.
  intros E. unfold apply_receipt in E. apply M_bind_Ok in E as (s0 & sx & E0 & E). injection E0 as <- <-. cbv zeta in E.
  apply M_bind_Ok in E as (s1 & x & E1 & E). apply M_bind_Ok in E as (s2 & [] & E0 & E).
  assert (s2 = s1) as -> by (destruct x; [destruct (_ && _); [by injection E0 as <-|done]|by injection E0 as <-]). clear E0.
  apply M_bind_Ok in E as (s2 & sx & E0 & E). injection E0 as <- <-. apply M_bind_Ok in E as (s2 & u & E0 & E). apply M_assert_Ok in E0 as [-> Hlen%bool_decide_eq_true].
  apply M_bind_Ok in E as (s2 & r & E0 & E). apply lift_Ok in E0 as [-> Hlast]. apply M_assert_Ok in E as [-> Hsame].
  assert (exists r', receipts_of s1 = receipts_of s ++ [r'] /\ (match tp_trx r' with inl i => inl i | inr p => inr (wire p) end) = (match tp_trx receipt with inl i => inl i | inr p => inr (wire p) end))
    as (r' & Hr & Htrx).
  { destruct (tp_trx receipt) as [i|pt].
    - destruct (db_generated (ch_db (bs_chain s)) !! i) as [g|] eqn:Hg; [|unfold Controller.push_scheduled_transaction in E1; by rewrite Hg in E1].
      apply (push_scheduled_cases _ _ _ _ _ _ _ _ _ g) in E1 as (_ & [[_ (r' & ? & Ht & _)]|[Hp _]] & _); [|rewrite Hp in Hlen; lia|done]. exists r'. by rewrite Ht.
    - apply M_bind_Ok in E1 as (s3 & m & E0 & E1). apply lift_Ok in E0 as [-> Hm]. apply metadata_wire in Hm as [Hw _].
      apply push_transaction_receipts in E1 as [Hr|[_ (r' & ? & Ht)]]; [rewrite Hr in Hlen; lia|]. exists r'. rewrite Ht. by rewrite Hw. }
  exists r'. split; [done|]. rewrite Hr, last_snoc in Hlast. injection Hlast as ->. unfold same_receipt in Hsame.
  apply andb_true_iff in Hsame as [[Hst%bool_decide_eq_true Hc%Z.eqb_eq]%andb_true_iff Hn%Z.eqb_eq]. unfold wire_receipt. by rewrite Hst, Hc, Hn, Htrx.
Qed.

Lemma apply_receipts_exact receipts : forall clks s s', apply_receipts nd pack_signatures signed_id pack_onerror receipts clks s = (s', Ok tt) ->
  wire_receipt <$> receipts_of s' = (wire_receipt <$> receipts_of s) ++ (wire_receipt <$> receipts).
Proof.
  induction receipts as [|r receipts IH]; intros clks s s' E; cbn [apply_receipts] in E; [injection E as <-; by rewrite app_nil_r|].
  apply M_bind_Ok in E as (s1 & [] & E0 & E). apply apply_receipt_exact in E0 as (r' & Hr & Hw). rewrite (IH _ _ _ E), Hr, fmap_app, <- app_assoc. simpl. by rewrite Hw.
Qed.

Context (pack_block_header : block_header -> list Z) (hash_receipt : transaction_receipt -> digest) (hash_action_receipt : action_receipt -> digest).

Lemma push_onblock_receipts clk s s' : push_onblock nd pack_signatures signed_id pack_block_header clk s = (s', Ok tt) -> receipts_of s' = receipts_of s.
Proof.
  intros E. unfold push_onblock in E. apply M_bind_Ok in E as (s0 & sx & E0 & E). injection E0 as <- <-. cbv zeta in E. apply M_bind_Ok in E as (s1 & [] & E0 & E).
  injection E0 as <-. apply M_bind_Ok in E as (s2 & [] & E0 & E). injection E as <-. simpl. unfold catch_all, mbind, M_bind in E0.
  destruct (push_transaction _ _ _ _ _ _) as [s3 x] eqn:Ep. apply push_transaction_receipts in Ep as [Hr|[Hi _]]; [|done]. simpl in Hr.
  destruct x as [[e|]|e]; [by injection E0 as <-..|]. destruct e; by injection E0 as <-.
Qed.

Lemma start_block_receipts c u cache when confirm st i clk l s :
  start_block nd pack_signatures signed_id pack_block_header c u cache when confirm st i clk = (l, Ok s) -> receipts_of s = [].
Proof.
  intros E. unfold start_block in E. destruct (generate_next _ _) as [bst|]; [|done]. cbv zeta in E. destruct (maybe_promote_pending _) as [b2 promoted].
  destruct (_ || _); [|by injection E as _ <-].
  match type of E with context [(?m ≫= ?f) ?s0] => destruct ((m ≫= f) s0) as [s1 [[]|e]] eqn:Em end; [|done]. injection E as _ <-.
  apply M_bind_Ok in Em as (s2 & [] & E0 & Em). assert (receipts_of s2 = []) as R2.
  { unfold promote_proposed in E0. apply M_bind_Ok in E0 as (s3 & sx & E1 & E0). injection E1 as <- <-. cbv zeta in E0.
    destruct (gp_proposed_schedule_block_num _); [|by injection E0 as <-]. destruct (_ && _); [|by injection E0 as <-].
    apply M_bind_Ok in E0 as (s3 & b3 & E1 & E0). apply lift_Ok in E1 as [-> _]. by injection E0 as <-. }
  clear E0. apply M_bind_Ok in Em as (s3 & [] & E0 & Em). apply push_onblock_receipts in E0. rewrite <- R2, <- E0.
  unfold block_housekeeping in Em. apply M_bind_Ok in Em as (s4 & sx & E1 & Em). injection E1 as <- <-. cbv zeta in Em.
  apply M_bind_Ok in Em as (s4 & ad & E1 & Em). apply lift_Ok in E1 as [-> _]. by injection Em as <-.
Qed.

Lemma finalize_block_roots s s' : finalize_block hash_receipt hash_action_receipt s = (s', Ok tt) ->
  receipts_of s' = receipts_of s /\
  let h := sbh_header (header (pb_block_state (bs_pending s'))) in
  transaction_mroot h = merkle hash_pair (hash_receipt <$> receipts_of s') /\ action_mroot h = merkle hash_pair (hash_action_receipt <$> pb_actions (bs_pending s')).
Proof.
  intros E. unfold finalize_block in E. apply M_bind_Ok in E as (s0 & sx & E0 & E). injection E0 as <- <-. destruct (block_parameters _) as [cpu net].
  do 3 (apply M_bind_Ok in E as (? & [] & E0 & E); apply on_chain_limits_Ok in E0 as (? & _ & ->)). by injection E as <-.
Qed.

(** C8: A block that a node accepts from another is carried out exactly: the receipts the node computed are those of the block, as they travel, the header it
    computed has the id of the block's header, its roots are the Merkle roots of what the node executed, and the producer's signature is kept. *)
Theorem apply_block_exact c u cache b st clk clks l s' :
  apply_block nd pack_signatures signed_id pack_onerror pack_block_header hash_receipt hash_action_receipt c u cache b st clk clks = (l, Ok s') ->
  let h := header (pb_block_state (bs_pending s')) in
  wire_receipt <$> receipts_of s' = wire_receipt <$> sb_transactions b /\
  header_id (sbh_header h) = header_id (sbh_header (sb_header b)) /\ producer_signature h = producer_signature (sb_header b) /\
  transaction_mroot (sbh_header h) = merkle hash_pair (hash_receipt <$> receipts_of s') /\
  action_mroot (sbh_header h) = merkle hash_pair (hash_action_receipt <$> pb_actions (bs_pending s')).
Proof.
  intros E. unfold apply_block in E. destruct (negb _); [done|]. cbv zeta in E. destruct (start_block _ _ _ _ _ _ _ _ _ _ _ _) as [l0 [s0|]] eqn:Es; [|done].
  match type of E with context [(?m ≫= ?f) s0] => destruct ((m ≫= f) s0) as [s1 [s2|e]] eqn:Er end; [|done]. injection E as _ <-.
  apply M_bind_Ok in Er as (s3 & [] & E0 & Er). apply lift_Ok in E0 as [-> _]. apply M_bind_Ok in Er as (s3 & [] & E0 & Er).
  apply M_bind_Ok in Er as (s4 & [] & E1 & Er). apply M_bind_Ok in Er as (s5 & sx & E2 & Er). injection E2 as <- <-. apply lift_Ok in Er as [_ Er].
  unfold take_signature in Er. cbv zeta in Er. apply bind_Ok in Er as ([] & Hid%assert_Ok%bool_decide_eq_true & Er). injection Er as <-.
  apply apply_receipts_exact in E0. apply start_block_receipts in Es. rewrite Es in E0.
  apply finalize_block_roots in E1 as (Hr & Ht & Ha). cbv zeta. simpl. rewrite Hr, E0 in *. by split_and!.
Qed.

End Runs.

(** ** A block *)

Module ControllerDemo.
Import NativeRuns.Runs ApplyRuns.ApplyDemo TransactionProofs.TransactionDemo.
#[local] Existing Instances ResourceLimitsProofs.Runs.cbrt ResourceLimitsProofs.Runs.cbrt_laws AuthorityProofs.Runs.order NativeRuns.Runs.data
  BlockHeaderProofs.Concrete.crypto TransactionProofs.TransactionDemo.demo_data.

(** The chain is at block 9. *)
Definition here : node := mk_controller TransactionRuns.ContextDemo.open_node zero_digest SPECULATIVE None None false BlockHeaderProofs.Concrete.state9.
Definition now : Z := to_time_point 96.

(** The code of [bob] notifies [alice]; his other version also asks for her
    permission and so fails. *)
Definition program (code : list Z) : list host_call :=
  match code with [1] => [hc_notify alice] | [2] => [hc_require_auth alice] | _ => [] end.
#[local] Instance handlers : Handlers := contract_handlers TransactionRuns.ContextDemo.producing program.
#[local] Instance handlers_keep : HandlersKeep := contract_handlers_keep TransactionRuns.ContextDemo.producing program.

(** Two transactions wait: one that can run and one whose time has passed. *)
Definition waiting (expiration : Z) : generated_transaction_object := mk_generated bob 1 bob now expiration 0 (pack_transaction calling).
Definition id1 : digest := mk_digest 1 0 0 0.
Definition id2 : digest := mk_digest 2 0 0 0.
Definition waiting_db : chain_db := set_generated demo_chain {[ id1 := waiting (now + 1000000); id2 := waiting (now - 1) ]}.
Definition chain9 : chain_state :=
  mk_chain waiting_db ∅ 0 (mk_gpo genesis_configuration None (mk_schedule 0 [])) {[ 0 := zero_digest ]}.

Definition clk : clock := mk_clock now false now (now + 350) (now + 400).
Definition hash_tr (r : transaction_receipt) : digest := mk_digest (tp_cpu_usage_us r) (tp_net_usage_words r) 0 0.
Definition hash_ar (r : action_receipt) : digest := mk_digest (rc_receiver r) (rc_global_sequence r) 0 0.

Definition started : left_over * result build_state :=
  start_block here (fun _ => 66) (fun p => zero_digest) (fun _ => []) chain9 ∅ [] 96 0 incomplete None clk.
Definition s0 : build_state := match started.2 with Ok s => s | Err _ => mk_build chain9 (mk_pending BlockHeaderProofs.Concrete.state9 incomplete None [] [] []) ∅ false [] end.
Definition push (i : digest) : M build_state (option exn) := push_scheduled_transaction here (fun _ _ => []) i INT64_MAX 0 false clk clk.
Definition s1 : build_state := (push id1 s0).1.
Definition s2 : build_state := (push id2 s1).1.

(** One transaction ran, the other one had expired. *)
Example two_receipts : ((fun r => (tp_status r, tp_cpu_usage_us r, tp_trx r)) <$> receipts_of s2) = [(executed, 350, inl id1); (expired, 0, inl id2)].
Proof. vm_compute. reflexivity. Qed.

(** A contract that fails, and fails to handle the error, is a hard failure. *)
Definition failing : build_state :=
  set_chain s0 (set_chain_db (bs_chain s0) (mk_chain_db (db_auth waiting_db) (<[bob := mk_account false 0 zero_digest 0 [2] []]> (db_accounts waiting_db))
    (db_sequences waiting_db) (db_generated waiting_db) (db_limits waiting_db))).
Example hard_failure : let p := push id1 failing in
  p.2 = Ok (Some missing_auth_exception) /\ ((fun r => (tp_status r, tp_cpu_usage_us r, tp_trx r)) <$> receipts_of p.1) = [(hard_fail, 400, inl id1)] /\ db_generated (ch_db (bs_chain p.1)) !! id1 = None.
Proof. vm_compute. repeat split. Qed.

Lemma s0_checking : checking (view here s0).
Proof. split; vm_compute; congruence. Qed.
Lemma s0_ok : block_ok (block_limits_of s0).
Proof. constructor; vm_compute; intuition congruence. Qed.

Lemma block_within_limits_witness : sum_of tp_cpu_usage_us (receipts_of s2) <= max (cpu_limit_parameters (config (block_limits_of s2))).
Proof.
  apply (block_within_limits here (fun _ => 66) (fun _ => zero_digest) (fun _ _ => []) (fun t => t = 0) s0 s2); [apply s0_checking|apply s0_ok|vm_compute; reflexivity| |done].
  eapply rtc_l; [eapply (scheduled_step _ _ _ _ _ id1 INT64_MAX 0 false clk clk s0 s1); [reflexivity|apply surjective_pairing]|].
  eapply rtc_l; [eapply (scheduled_step _ _ _ _ _ id2 INT64_MAX 0 false clk clk s1 s2); [reflexivity|apply surjective_pairing]|apply rtc_refl].
Defined.

Lemma scheduled_retired_witness : exists r, receipts_of s1 = receipts_of s0 ++ [r] /\ tp_trx r = inl id1.
Proof.
  pose proof (scheduled_retired here (fun _ _ => []) id1 INT64_MAX 0 false clk clk s0 s1 (Ok None) (waiting (now + 1000000))) as Hr.
  destruct Hr as [[_ (r & Hr & Ht & _)]|(_ & _ & e & He & _)].
  - vm_compute. reflexivity.
  - vm_compute. reflexivity.
  - vm_compute. reflexivity.
  - exists r. split; [exact Hr|exact Ht].
  - discriminate He.
Defined.

(** The block is signed and sent to another node. *)
Definition sealed : build_state := (finalize_block hash_tr hash_ar s2).1.
Definition block10 : signed_block :=
  mk_block (mk_signed_header (sbh_header (header (pb_block_state (bs_pending sealed)))) 50) (receipts_of sealed) [].
Definition applied : left_over * result build_state :=
  apply_block here (fun _ => 66) (fun _ => zero_digest) (fun _ _ => []) (fun _ => []) hash_tr hash_ar chain9 ∅ [] block10 validated clk (fun _ => (clk, clk)).
Definition s3 : build_state := match applied.2 with Ok s => s | Err _ => s0 end.

Lemma apply_block_exact_witness : wire_receipt <$> receipts_of s3 = wire_receipt <$> sb_transactions block10.
Proof.
  apply (apply_block_exact here (fun _ => 66) (fun _ => zero_digest) (fun _ _ => []) (fun _ => []) hash_tr hash_ar chain9 ∅ [] block10 validated clk
    (fun _ => (clk, clk)) applied.1). vm_compute. reflexivity.
Defined.

End ControllerDemo.
