(* ===== verification/ForkSwitch.v ===== *)
(** * The head of the chain

    [controller.cpp] of [libraries/chain] above the pending block: blocks that
    are received, added to the fork database and carried out, switches to a
    better branch with their reversal, and what follows from irreversibility.

    How one block is carried out ([Controller.apply_block]) is an interface
    here, [BlockApplier]; so is the database of chainbase with its undo
    sessions, [Database]. Signals to plugins are left out. *)

From Stdlib Require Import ZArith Lia Bool.
From stdpp Require Import base numbers gmap list.
From S2P Require Import Prelude Merkle BlockTime BlockHeader ChainConfig Transaction Block ForkDatabase.

Open Scope Z_scope.

(** ** What it is built on *)

(** Values of the database are in [V]; what is not undone with it, the
    transactions that wait, in [U]; [W] stands for the readings of the clock. A
    block that was carried out comes with its transactions. *)
Class BlockApplier (V U W : Type) := {
  try_apply : block_header_state -> bool -> V -> U -> signed_block -> block_status -> W ->
    U * result (V * list transaction_metadata);
  requeue : list transaction_metadata -> U -> U
}.

(** The database: [push] is a session with a new value that was pushed, [write] a
    change without a session, [undo] takes the last session back and [commit]
    forgets how to do so up to a revision. *)
Class Database (V DB : Type) := {
  value : DB -> V;
  revision : DB -> Z;
  push : V -> DB -> DB;
  write : V -> DB -> DB;
  undo : DB -> DB;
  commit : Z -> DB -> DB
}.

Class DatabaseLaws (V DB : Type) `{Database V DB} : Prop := {
  value_push v db : value (push v db) = v;
  revision_push v db : revision (push v db) = revision db + 1;
  undo_push v db : undo (push v db) = db;
  value_commit n db : value (commit n db) = value db;
  revision_commit n db : revision (commit n db) = revision db;
  commit_push n v db : n <= revision db -> commit n (push v db) = push v (commit n db)
}.

(** ** State *)

Record control (DB U : Type) := mk_control {
  co_fork : fork_database;
  co_head : block_state_ptr;
  co_db : DB;
  co_reversible : gmap Z signed_block;
  co_rest : U;
  co_light_validation : bool;
  co_ticks : nat
}.
Arguments mk_control {_ _}.
Arguments co_fork {_ _}.
Arguments co_head {_ _}.
Arguments co_db {_ _}.
Arguments co_reversible {_ _}.
Arguments co_rest {_ _}.
Arguments co_light_validation {_ _}.
Arguments co_ticks {_ _}.

Section Control.
Context {V DB U W : Type} `{Database V DB} `{BlockApplier V U W} `{Crypto} `{IndexOrder}.
(** The readings of the clock for the application with the given number, and the
    members of the controller that do not change. *)
Context (readings : nat -> W) (conf : controller_config) (trusted_producers : list account_name) (speculative replaying : bool).

Notation control := (control DB U).

Definition head_state (c : control) : block_state := at_ (store (co_fork c)) (co_head c).

Definition set_fork (c : control) (d : fork_database) : control :=
  mk_control d (co_head c) (co_db c) (co_reversible c) (co_rest c) (co_light_validation c) (co_ticks c).
Definition set_head_ptr (c : control) (p : block_state_ptr) : control :=
  mk_control (co_fork c) p (co_db c) (co_reversible c) (co_rest c) (co_light_validation c) (co_ticks c).
Definition set_db (c : control) (db : DB) (r : gmap Z signed_block) (u : U) : control :=
  mk_control (co_fork c) (co_head c) db r u (co_light_validation c) (co_ticks c).
Definition set_light (c : control) (b : bool) : control :=
  mk_control (co_fork c) (co_head c) (co_db c) (co_reversible c) (co_rest c) b (co_ticks c).
Definition tick (c : control) : control :=
  mk_control (co_fork c) (co_head c) (co_db c) (co_reversible c) (co_rest c) (co_light_validation c) (S (co_ticks c)).

Definition modify_control (f : control -> control) : M control unit := c ← get_state; put_state (f c).

(** Operations of the fork database. *)
Definition on_fork {A} (m : M fork_database A) : M control A := fun c =>
  let '(d, r) := m (co_fork c) in (set_fork c d, r).

(** ** Irreversible blocks *)

(** [on_irreversible], without the block log: the database cannot go back behind
    the block, and it is no longer among the reversible ones. *)
Definition on_irreversible (c : control) (p : block_state_ptr) : control :=
  let n := bs_num (at_ (store (co_fork c)) p) in
  set_db c (commit n (co_db c)) (filter (fun kv => n < kv.1) (co_reversible c)) (co_rest c).

(** Operations that send the signal [irreversible]; the block log accepts. *)
Definition on_fork_signals {A} (m : (block_state -> result unit) -> M fork_database A) : M control A := fun c =>
  let '(d, r) := m (fun _ => Ok tt) (co_fork c) in
  (foldl on_irreversible (set_fork c d) (drop (length (emitted (co_fork c))) (emitted d)), r).

(** ** Blocks forth and back *)

Definition pop_block : M control unit :=
  c ← get_state;
  let b := head_state c in
  prev ← lift (of_option block_validate_exception (get_block (co_fork c) (bs_prev b)));
  put_state (set_head_ptr (set_db c (undo (co_db c)) (delete (bs_num b) (co_reversible c))
                             (if speculative then requeue (trxs b) (co_rest c) else co_rest c)) prev).

(** [skip_db_sessions] outside of a transaction. *)
Definition skip_sessions (st : block_status) : bool := bool_decide (st = irreversible) && negb (disable_replay_opts conf).

(** [commit_block( false )]: the block becomes one of the reversible ones and its
    session is pushed; a number that is there already aborts the block. *)
Definition commit_applied (num : Z) (b : signed_block) (st : block_status) (v : V) (ts : list transaction_metadata) : M control unit :=
  c ← get_state;
  if negb replaying && bool_decide (is_Some (co_reversible c !! num)) then
    put_state (set_db c (co_db c) (co_reversible c) (if speculative then requeue ts (co_rest c) else co_rest c));; throw uniqueness_violation
  else put_state (set_db c (if skip_sessions st then write v (co_db c) else push v (co_db c))
                    (if replaying then co_reversible c else <[num := b]> (co_reversible c)) (co_rest c)).

(** [apply_block] on top of the head. *)
Definition apply_block (p : block_state_ptr) (st : block_status) : M control unit :=
  c ← get_state;
  let b := block (at_ (store (co_fork c)) p) in
  let hd := bs_header_state (head_state c) in
  M_ASSERT (bool_decide (sb_extensions b = [])) block_validate_exception;;
  M_ASSERT (skip_sessions st || (revision (co_db c) =? block_num hd)) database_exception;;
  let '(u, r) := try_apply hd (co_light_validation c) (value (co_db c)) (co_rest c) b st (readings (co_ticks c)) in
  put_state (tick (set_db c (co_db c) (co_reversible c) u));;
  '(v, ts) ← lift r;
  commit_applied (u32 (block_num hd + 1)) b st v ts.

(** ** Fork switching *)

Fixpoint pop_all (ps : list block_state_ptr) : M control unit :=
  match ps with
  | [] => mret tt
  | p :: ps => on_fork (mark_in_current_chain p false);; pop_block;; pop_all ps
  end.

(** The head is where the two branches part. *)
Definition check_parted (second : list block_state_ptr) : M control unit :=
  c ← get_state;
  b ← lift (of_option undefined_behavior (last second));
  M_ASSERT (bool_decide (bs_id (head_state c) = bs_prev (at_ (store (co_fork c)) b))) fork_database_exception.

(** Good blocks are applied again. *)
Fixpoint reapply (ps : list block_state_ptr) : M control unit :=
  match ps with
  | [] => mret tt
  | p :: ps =>
      apply_block p ChainConfig.validated;;
      modify_control (fun c => set_head_ptr c p);;
      on_fork (mark_in_current_chain p true);;
      reapply ps
  end.

(** The [try] block for one block of the new branch. *)
Definition apply_one (p : block_state_ptr) : M control unit :=
  c ← get_state;
  apply_block p (if validated (at_ (store (co_fork c)) p) then ChainConfig.validated else complete);;
  modify_control (fun c => set_head_ptr c p);;
  on_fork (mark_in_current_chain p true);;
  on_fork (update_at p (fun b => set_validated b true)).

(** The blocks of the new branch from the oldest on; [applied] lists those that
    are applied already, the last one first. *)
Fixpoint apply_branch (todo applied second : list block_state_ptr) : M control unit :=
  match todo with
  | [] => mret tt
  | p :: todo =>
      r ← try_catch (apply_one p);
      match r with
      | inl _ => apply_branch todo (p :: applied) second
      | inr e =>
          on_fork (set_validity p false);;
          pop_all applied;;
          check_parted second;;
          reapply (rev second);;
          throw e
      end
  end.

Definition maybe_switch_forks (st : block_status) : M control unit :=
  c ← get_state;
  new_head ← lift (of_option undefined_behavior (head (co_fork c)));
  let b := at_ (store (co_fork c)) new_head in
  let hd := head_state c in
  if bool_decide (bs_prev b = bs_id hd) then
    r ← try_catch (apply_block new_head st;;
                   on_fork (mark_in_current_chain new_head true);;
                   on_fork (set_validity new_head true);;
                   modify_control (fun c => set_head_ptr c new_head));
    match r with
    | inl _ => mret tt
    | inr e => on_fork (set_validity new_head false);; throw e
    end
  else if negb (bool_decide (bs_id b = bs_id hd)) then
    '(first, second) ← lift (fetch_branch_from (co_fork c) (bs_id b) (bs_id hd));
    pop_all second;;
    check_parted second;;
    apply_branch (rev first) [] second
  else mret tt.

(** ** Blocks that arrive *)

(** [create_block_state_future], waited for. *)
Definition create_block_state (b : signed_block) : M control block_state_ptr :=
  c ← get_state;
  M_ASSERT (match get_block (co_fork c) (header_id (sbh_header (sb_header b))) with Some _ => false | None => true end) fork_database_exception;;
  prev ← lift (of_option unlinkable_block_exception (get_block (co_fork c) (previous (sbh_header (sb_header b)))));
  s ← lift (block_state_of (bs_header_state (at_ (store (co_fork c)) prev)) b false);
  on_fork (make_shared s).

(** [reset_prod_light_validation]: the flag is put back whatever happens. *)
Definition reset_light {A} (m : M control A) : M control A := fun c =>
  let '(c', r) := m c in (set_light c' (co_light_validation c), r).

(** [push_block], for a read mode other than [IRREVERSIBLE]. *)
Definition push_block (b : signed_block) : M control unit :=
  p ← create_block_state b;
  reset_light (
    on_fork_signals (fun f => add_state f (Some p) false);;
    (if bool_decide (producer (sbh_header (sb_header b)) ∈ trusted_producers) then modify_control (fun c => set_light c true) else mret tt);;
    maybe_switch_forks complete).

(** [replay_push_block]: a block of the log or a reversible one. *)
Definition replay_push_block (b : signed_block) (st : block_status) : M control unit :=
  M_ASSERT (bool_decide (st = irreversible \/ st = ChainConfig.validated)) block_validate_exception;;
  on_fork_signals (fun f => add_block f (Some b) (negb (force_all_checks conf)));;
  maybe_switch_forks st.

End Control.
