(* ===== verification/ForkSwitchProofs.v ===== *)
(** * The database follows the head

    Whatever blocks arrive and however switches between branches end, the
    database holds what one gets by carrying out the blocks from the start of
    the chain to the head, and so does every state that an undo can reach. *)

From Stdlib Require Import ZArith Lia Bool.
From stdpp Require Import base numbers gmap sets list.
From S2P Require Import Prelude Merkle BlockTime BlockHeader BlockHeaderProofs ChainConfig Transaction Block ForkDatabase ForkDatabaseProofs.
From S2P Require Import ForkSwitch.

Open Scope Z_scope.

(** ** Blocks and their states *)

(** The header state behind a pointer. *)
Definition state_at (d : fork_database) (p : block_state_ptr) : block_header_state := bs_header_state (at_ (store d) p).

(** What [d'] has is in [d], apart from flags of the block states. *)
Record shrinks (d d' : fork_database) : Prop := {
  sh_id p : id_at d' p = id_at d p;
  sh_prev p : prev_at d' p = prev_at d p;
  sh_num p : num_at d' p = num_at d p;
  sh_dpos p : bs_dpos (at_ (store d') p) = bs_dpos (at_ (store d) p);
  sh_state p : state_at d' p = state_at d p;
  sh_block p : block (at_ (store d') p) = block (at_ (store d) p);
  sh_index p : p ∈ index d' -> p ∈ index d;
  sh_nodup : NoDup (index d) -> NoDup (index d');
  sh_next : next_ptr d' = next_ptr d
}.

#[export] Instance shrinks_preorder : PreOrder shrinks.
Proof.
  split; [done|]. intros x y z [] []. constructor; intros; try congruence; auto.
Qed.

Section Blocks.
Context `{Crypto}.

(** A block's number is in its id, and one more than that of its predecessor. *)
Record own_block (b : block_state) : Prop := {
  ob_num : num_from_id (bs_id b) = bs_num b;
  ob_num_prev : bs_num b = num_from_id (bs_prev b) + 1
}.

(** If [p] names [q] as its predecessor, its state is what its block makes of that
    of [q]. *)
Definition follows (d : fork_database) (q p : block_state_ptr) : Prop :=
  prev_at d p = id_at d q -> next (state_at d q) (sb_header (block (at_ (store d) p))) false = Ok (state_at d p).

Lemma follows_shrinks d d' q p : shrinks d d' -> follows d q p -> follows d' q p.
Proof. intros Hs. unfold follows. by rewrite (sh_prev d d' Hs), (sh_id d d' Hs), !(sh_state d d' Hs), (sh_block d d' Hs). Qed.

Lemma sub_shrinks d d' : sub_db d d' -> shrinks d d'.
Proof.
  intros Hs. pose proof Hs as [[Hst Hnx] [P HP]]. constructor; intros; unfold id_at, prev_at, num_at, state_at; rewrite ?Hst; try done.
  - by eapply sub_db_elem.
  - rewrite HP. by apply NoDup_filter.
Qed.

(** Writes that leave the identity of a block alone. *)
Lemma update_shrinks d p f d' : (forall b, bs_id (f b) = bs_id b /\ bs_prev (f b) = bs_prev b /\ bs_num (f b) = bs_num b /\ bs_dpos (f b) = bs_dpos b /\ bs_header_state (f b) = bs_header_state b /\ block (f b) = block b) ->
  update_at p f d = (d', Ok tt) -> shrinks d d' /\ head d' = head d /\ index d' = index d.
Proof.
  intros Hf E. injection E as <-. split; [|done]. destruct (Hf (at_ (store d) p)) as (F1 & F2 & F3 & F4 & F5 & F6).
  constructor; intros; unfold id_at, prev_at, num_at, state_at; cbn [store set_store]; rewrite ?at_insert; try (destruct (decide (p = p0)) as [<-|]); done.
Qed.

(** A block the controller holds: in order, and if it is not in the index none
    with its id is. *)
Record known (d : fork_database) (p : block_state_ptr) : Prop := {
  kn_own : own_block (at_ (store d) p);
  kn_index : p ∈ index d \/ find_id d (id_at d p) = None;
  kn_ptr : (p < next_ptr d)%nat
}.

(** Every block is on another one, apart from the oldest; those that became
    irreversible have left, so there are two numbers for the oldest. *)
Definition rooted (d : fork_database) : Prop := exists m, forall p, p ∈ index d ->
  m - 1 <= num_at d p /\ (num_at d p <= m \/ exists q, q ∈ index d /\ prev_at d p = id_at d q).

Lemma rooted_same d d' : shrinks d d' -> index d' = index d -> rooted d -> rooted d'.
Proof.
  intros Hs Hi [m Hm]. exists m. intros p Hp. rewrite Hi in Hp. rewrite (sh_num d d' Hs), (sh_prev d d' Hs). destruct (Hm p Hp) as [H1 [H2|(q & Hq & Hpq)]]; split; auto.
  right. exists q. by rewrite Hi, (sh_id d d' Hs).
Qed.

(** The fork database: all its blocks are known, ids are different, and the
    head it proposes is one of them. *)
Record forks_ok (d : fork_database) : Prop := {
  fo_wf : fdb_wf d;
  fo_known p : p ∈ index d -> known d p;
  fo_dpos p : p ∈ index d -> bs_dpos (at_ (store d) p) <= num_at d p;
  fo_rooted : rooted d;
  fo_head p : head d = Some p -> p ∈ index d
}.

Lemma find_shrinks d d' i q : fdb_wf d -> shrinks d d' -> find_id d' i = Some q -> find_id d i = Some q.
Proof. intros Hw Hs Hf. apply find_id_Some_1 in Hf as [Hq Hi]. apply find_id_Some; [done|]. split; [by apply Hs|]. by rewrite <- (sh_id d d' Hs). Qed.

Lemma find_none_shrinks d d' i : fdb_wf d -> shrinks d d' -> find_id d i = None -> find_id d' i = None.
Proof. intros Hw Hs Hf. destruct (find_id d' i) as [q|] eqn:E; [|done]. apply (find_shrinks d) in E; [congruence|done|done]. Qed.

Lemma own_shrinks d d' p : shrinks d d' -> own_block (at_ (store d) p) -> own_block (at_ (store d') p).
Proof.
  intros [Hi Hp Hn _ _ _ _ _ _] [O1 O2]. specialize (Hi p). specialize (Hp p). specialize (Hn p). unfold id_at, prev_at, num_at in *.
  constructor; rewrite ?Hi, ?Hp, ?Hn; done.
Qed.

Lemma known_shrinks d d' p : fdb_wf d -> shrinks d d' -> known d p -> known d' p.
Proof.
  intros Hw Hs [Ho Hi Hp]. constructor; [by eapply own_shrinks| |by rewrite (sh_next d d' Hs)]. rewrite (sh_id d d' Hs).
  destruct Hi as [Hi|Hf]; [|right; by eapply find_none_shrinks]. destruct (find_id d' (id_at d p)) as [q|] eqn:E; [|by right]. left.
  apply find_id_Some_1 in E as [Hq Hid]. rewrite (sh_id d d' Hs) in Hid. apply (wf_unique d Hw) in Hid as ->; [done|by apply Hs|done].
Qed.

Lemma wf_shrinks d d' : shrinks d d' -> fdb_wf d -> fdb_wf d'.
Proof.
  intros Hs [Hn Hu Hl]. constructor; [by apply Hs|..]; intros p q Hp%(sh_index d d' Hs) Hq%(sh_index d d' Hs); rewrite ?(sh_id d d' Hs), ?(sh_prev d d' Hs), ?(sh_num d d' Hs); auto.
Qed.

Lemma forks_shrinks d d' : shrinks d d' -> rooted d' -> (forall p, head d' = Some p -> p ∈ index d') -> forks_ok d -> forks_ok d'.
Proof.
  intros Hs Hro Hh [Hw Hk Hd _ _]. constructor; [by eapply wf_shrinks| | |done|done]; intros p Hp%(sh_index d d' Hs); [by eapply known_shrinks; auto|].
  rewrite (sh_dpos d d' Hs), (sh_num d d' Hs). auto.
Qed.

End Blocks.

(** ** What the operations on the fork database do *)

Definition settled {A} (r : result A) : Prop := match r with Ok _ => True | Err e => catchable e = true end.

Section Forks.
Context `{Crypto} `{IndexOrderLaws}.

Definition fork_step {A} (m : M fork_database A) : Prop :=
  forall d d' r, forks_ok d -> m d = (d', r) -> settled r -> shrinks d d' /\ forks_ok d'.

Lemma mark_step p v : fork_step (mark_in_current_chain p v).
Proof.
  intros d d' r Hok E _. unfold mark_in_current_chain, mbind, M_bind, get_state in E. destruct (Bool.eqb _ _); [by injection E as <- _|].
  destruct (find_id _ _) as [q|]; [|by injection E as <- _]. destruct (update_at q _ d) as [d1 [[]|]] eqn:Eu; [|done]. injection E as <- _.
  apply update_shrinks in Eu as (Hs & Hh & Hi); [|done]. split; [done|]. apply (forks_shrinks d); [done|by eapply rooted_same; [| |apply Hok]| |done]. rewrite Hh, Hi. apply Hok.
Qed.

Lemma validate_step p : fork_step (update_at p (fun b => set_validated b true)).
Proof.
  intros d d' r Hok E _. destruct r as [[]|]; [|done]. apply update_shrinks in E as (Hs & Hh & Hi); [|done]. split; [done|].
  apply (forks_shrinks d); [done|by eapply rooted_same; [| |apply Hok]| |done]. rewrite Hh, Hi. apply Hok.
Qed.

(** With a block all those that descend from it leave. *)
Lemma remove_rooted i d d' r : fdb_wf d -> rooted d -> remove i d = (d', r) -> rooted d'.
Proof.
  intros Hw [m Hm] E. pose proof (sub_shrinks _ _ (remove_sub _ _ _ _ Hw E)) as Hs. apply remove_spec in E as (Hx & _); [|done].
  exists m. intros p Hp. pose proof Hp as [Hpd Hnd]%Hx. rewrite (sh_num d d' Hs), (sh_prev d d' Hs). destruct (Hm p Hpd) as [H1' [H2|(q & Hq & Hpq)]]; split; auto.
  right. exists q. rewrite (sh_id d d' Hs). split; [|done]. apply Hx. split; [done|]. intros Hdq. apply Hnd. constructor; [done|]. by rewrite Hpq.
Qed.

Lemma remove_step i : fork_step (remove i).
Proof.
  intros d d' r Hok E Hr. pose proof (remove_sub _ _ _ _ (fo_wf d Hok) E) as Hs%sub_shrinks. split; [done|]. apply (forks_shrinks d); [done|eapply remove_rooted; [apply Hok|apply Hok|done]| |done].
  apply remove_spec in E as (_ & _ & _ & _ & Hb); [|apply Hok]. destruct r as [[]|e]; [|by destruct Hb as (-> & _)].
  destruct Hb as (best & Hh & Hb & _). intros p Hp. congruence.
Qed.

Lemma validity_step p v : fork_step (set_validity p v).
Proof.
  intros d d' r Hok E Hr. unfold set_validity, mbind, M_bind, get_state in E. destruct v; cbn [negb] in E; [eapply validate_step|eapply remove_step]; eauto.
Qed.

End Forks.

Lemma M_bind_assoc {S A B C} (m : M S A) (f : A -> M S B) (g : B -> M S C) s : (m ≫= fun a => f a ≫= g) s = ((m ≫= f) ≫= g) s.
Proof. unfold mbind, M_bind. by destruct (m s) as [s1 [a|e]]. Qed.

(** ** What the database holds *)

Section Follows.
Context {V DB U W : Type} `{DatabaseLaws V DB} `{BlockApplier V U W} `{CryptoLaws} `{IndexOrderLaws}.
Context (readings : nat -> W) (conf : controller_config) (trusted_producers : list account_name) (speculative replaying : bool).
(** The start of the chain: the database and the state of its block. *)
Context (v0 : V) (h0 : block_header_state).

Notation apply_block := (apply_block readings conf speculative replaying).
Notation pop_block := (pop_block (V := V) (DB := DB) (U := U) (W := W) speculative).
Notation pop_all := (pop_all (V := V) (DB := DB) (U := U) (W := W) speculative).
Notation reapply := (reapply readings conf speculative replaying).
Notation apply_one := (apply_one readings conf speculative replaying).
Notation apply_branch := (apply_branch readings conf speculative replaying).
Notation maybe_switch_forks := (maybe_switch_forks readings conf speculative replaying).
Notation push_block := (push_block readings conf trusted_producers speculative replaying).

(** The block was carried out on the database of the block with state [h]. *)
Definition applied (h : block_header_state) (v : V) (b : signed_block) (v' : V) : Prop :=
  exists light u st w u' ts, try_apply h light v u b st w = (u', Ok (v', ts)).

(** [built v h]: there is a chain of blocks from the start, each signed header of
    which leads from the state of the one before it to its own, the last one to
    [h], and [v] is what one gets by carrying out these blocks in this order. *)
Inductive built : V -> block_header_state -> Prop :=
| built_start : built v0 h0
| built_block v h b v' h' : built v h -> next h (sb_header b) false = Ok h' -> applied h v b v' -> built v' h'.

(** [levels d j0 db h j]: [db] holds the block with state [h] on top of [j], and as
    long as the predecessor is in the index it can be undone to it; [j0] is the
    one below the last such state. *)
Inductive levels (d : fork_database) (j0 : digest) : DB -> block_header_state -> digest -> Prop :=
| level_floor db h : built (value db) h -> levels d j0 db h j0
| level_block db h j q v b h' : levels d j0 db h j -> find_id d (id h) = Some q -> state_at d q = h -> prev_at d q = j -> num_at d q = revision db ->
    next h (sb_header b) false = Ok h' -> applied h (value db) b v -> levels d j0 (push v db) h' (id h).

Lemma levels_built d j0 db h j : levels d j0 db h j -> built (value db) h.
Proof. induction 1 as [|db h j q v b h' Hl IH Hf Hq Hp Hn Hx Ha]; [done|]. rewrite value_push. by eapply built_block. Qed.

(** Blocks that leave the index, and revisions up to theirs that are committed. *)
Lemma levels_commit d d' n j0 db h j : fdb_wf d -> shrinks d d' -> (forall q, q ∈ index d' -> n <= num_at d' q) -> find_id d j0 = None -> levels d j0 db h j ->
  exists j1, find_id d' j1 = None /\ levels d' j1 (commit n db) h j.
Proof.
  intros Hw Hs Hmin Hz Hl. induction Hl as [db h Hb|db h j q v b h' Hl IH Hf Hq Hp Hn Hx Ha].
  - exists j0. split; [by eapply find_none_shrinks|]. constructor. by rewrite value_commit.
  - destruct IH as (j1 & Hj1 & Hl1). destruct (find_id d' (id h)) as [q'|] eqn:Eq.
    + exists j1. split; [done|]. pose proof Eq as Eq'. apply (find_shrinks d) in Eq; [|done|done]. assert (q' = q) as -> by congruence.
      pose proof (find_id_Some_1 _ _ _ Eq') as [Hqi _]. specialize (Hmin q Hqi). rewrite (sh_num d d' Hs), Hn in Hmin. rewrite commit_push by done.
      eapply level_block; [done|done|by rewrite (sh_state d d' Hs)|by rewrite (sh_prev d d' Hs)|by rewrite (sh_num d d' Hs), revision_commit|done|by rewrite value_commit].
    + exists (id h). split; [done|]. constructor. rewrite value_commit, value_push. eapply built_block; [|done|done]. by eapply levels_built.
Qed.

Lemma levels_shrinks d d' j0 db h j : fdb_wf d -> shrinks d d' -> find_id d j0 = None -> levels d j0 db h j ->
  exists j1, find_id d' j1 = None /\ levels d' j1 db h j.
Proof.
  intros Hw Hs Hz Hl. induction Hl as [db h Hb|db h j q v b h' Hl IH Hf Hq Hp Hn Hx Ha].
  - exists j0. split; [by eapply find_none_shrinks|]. by constructor.
  - destruct IH as (j1 & Hj1 & Hl1). destruct (find_id d' (id h)) as [q'|] eqn:Eq.
    + exists j1. split; [done|]. pose proof Eq as Eq'. apply (find_shrinks d) in Eq; [|done|done]. assert (q' = q) as -> by congruence.
      eapply level_block; [done|done|by rewrite (sh_state d d' Hs)|by rewrite (sh_prev d d' Hs)|by rewrite (sh_num d d' Hs)|done|done].
    + exists (id h). split; [done|]. constructor. rewrite value_push. eapply built_block; [|done|done]. by eapply levels_built.
Qed.

(** ** The controller *)

Notation control := (control DB U).

(** The database [db] is that of block [p]. *)
Record holds (d : fork_database) (db : DB) (p : block_state_ptr) : Prop := {
  ho_levels : exists j0, find_id d j0 = None /\ levels d j0 db (state_at d p) (prev_at d p);
  ho_revision : revision db = num_at d p;
  ho_known : known d p
}.

(** The controller deals with blocks among [Q], and their states follow from one
    another. *)
Record within (Q : list block_state_ptr) (d : fork_database) (hd : block_state_ptr) : Prop := {
  wi_head : hd ∈ Q;
  wi_index p : p ∈ index d -> p ∈ Q;
  wi_follows p q : p ∈ Q -> q ∈ Q -> follows d q p
}.

Record synced (Q : list block_state_ptr) (c : control) : Prop := {
  sy_forks : forks_ok (co_fork c);
  sy_holds : holds (co_fork c) (co_db c) (co_head c);
  sy_within : within Q (co_fork c) (co_head c)
}.

Lemma within_shrinks Q d d' hd : shrinks d d' -> within Q d hd -> within Q d' hd.
Proof. intros Hs [Hh Hi Hf]. constructor; [done|intros p Hp%(sh_index d d' Hs); auto|]. intros p q Hp Hq. eapply follows_shrinks; eauto. Qed.

Lemma within_move Q d hd p : p ∈ Q -> within Q d hd -> within Q d p.
Proof. intros Hp [_ Hi Hf]. by constructor. Qed.

Lemma holds_shrinks d d' db p : fdb_wf d -> shrinks d d' -> holds d db p -> holds d' db p.
Proof.
  intros Hw Hs [(j0 & Hz & Hl) Hr Hk]. constructor; [|by rewrite (sh_num d d' Hs)|by eapply known_shrinks].
  rewrite (sh_state d d' Hs), (sh_prev d d' Hs). by eapply levels_shrinks.
Qed.

Section Moves.
Context (Q : list block_state_ptr).

Notation synced := (synced Q).
Notation within := (within Q).

(** Code that keeps the controller in step, unless its behaviour is undefined. *)
Definition keeps_synced {A} (m : M control A) : Prop := forall c c' r, synced c -> m c = (c', r) -> settled r ->
  synced c' /\ shrinks (co_fork c) (co_fork c').

Lemma ks_fork {A} (m : M fork_database A) : fork_step m -> keeps_synced (on_fork m).
Proof.
  intros Hm c c' r [Hf Hh Hw] E Hr. unfold on_fork in E. destruct (m (co_fork c)) as [d x] eqn:Em. injection E as <- ->. destruct (Hm _ _ _ Hf Em Hr) as [Hs Hd].
  split; [|done]. constructor; [done|eapply holds_shrinks; [apply Hf|done|done]|by eapply within_shrinks].
Qed.

Lemma ks_bind {A B} (m : M control A) (f : A -> M control B) : keeps_synced m -> (forall a, keeps_synced (f a)) -> keeps_synced (m ≫= f).
Proof.
  intros Hm Hf c c' r Hc E Hr. unfold mbind, M_bind in E. destruct (m c) as [c1 [a|e]] eqn:Em; [|injection E as <- <-; exact (Hm _ _ _ Hc Em Hr)].
  destruct (Hm _ _ _ Hc Em I) as [Hc1 Hs1]. destruct (Hf a _ _ _ Hc1 E Hr). split; [done|by etrans].
Qed.

Lemma ks_pop : keeps_synced pop_block.
Proof.
  intros c c' r Hc E _. pose proof Hc as [Hf [(j0 & Hz & Hl) Hrev Hk] Hw]. unfold ForkSwitch.pop_block, mbind, M_bind, get_state, lift in E. cbv zeta in E.
  destruct (get_block _ _) as [prev|] eqn:Eg; cbn [of_option] in E; [|by injection E as <- _]. injection E as <- _. split; [|done].
  unfold get_block in Eg. change (bs_prev (head_state c)) with (prev_at (co_fork c) (co_head c)) in Eg.
  inversion Hl as [? ? Hb Hdb Hi Hj|db h j q v b h' Hl1 Hf1 Hq1 Hp1 Hn1 Hx1 Ha1 Hdb Hi Hj]; [congruence|].
  rewrite <- Hj in Eg. assert (q = prev) as -> by congruence. pose proof (find_id_Some_1 _ _ _ Hf1) as [Hq Hid].
  constructor; cbn [co_fork co_db co_head set_head_ptr set_db]; [done| |eapply within_move; [by apply Hw|done]].
  rewrite undo_push.
  constructor; [exists j0; split; [done|]; by rewrite Hq1, Hp1|done|by apply Hf].
Qed.

Lemma ks_pop_all ps : keeps_synced (pop_all ps).
Proof.
  induction ps as [|p ps IH]; cbn [ForkSwitch.pop_all]; [intros c c' r Hc E _; by injection E as <- _|].
  apply ks_bind; [apply ks_fork, mark_step|intros _]. apply ks_bind; [apply ks_pop|done].
Qed.

Lemma ks_parted qs : keeps_synced (check_parted qs).
Proof.
  intros c c' r Hc E _. unfold check_parted, mbind, M_bind, get_state, lift, M_ASSERT in E. destruct (of_option _ _); [|by injection E as <- _].
  destruct (bool_decide _); by injection E as <- _.
Qed.

(** *** Applying a block *)

Lemma apply_block_holds p st c c' r : synced c -> known (co_fork c) p -> p ∈ Q -> prev_at (co_fork c) p = id_at (co_fork c) (co_head c) -> st <> irreversible ->
  apply_block p st c = (c', r) ->
  co_fork c' = co_fork c /\ co_head c' = co_head c /\ match r with Ok _ => holds (co_fork c) (co_db c') p | Err _ => co_db c' = co_db c end.
Proof.
  intros [Hf [(j0 & Hz & Hl) Hrev Hk] Hw] Hp HQ Hprev Hst E. pose proof (wi_follows _ _ _ Hw p (co_head c) HQ (wi_head _ _ _ Hw) Hprev) as Hnext. unfold ForkSwitch.apply_block in E. unfold mbind at 1, M_bind at 1, get_state at 1 in E. cbv zeta in E.
  assert (skip_sessions conf st = false) as Hskip by (unfold skip_sessions; by rewrite bool_decide_eq_false_2).
  unfold M_ASSERT in E. rewrite Hskip in E. unfold mbind, M_bind in E. destruct (bool_decide _); [|by injection E as <- <-]. cbn [orb mret M_ret] in E.
  destruct (_ =? _); [|by injection E as <- <-]. cbn [mret M_ret] in E.
  destruct (try_apply _ _ _ _ _ _ _) as [u x] eqn:Ea. unfold put_state, lift in E. destruct x as [[v ts]|e]; [|by injection E as <- <-].
  unfold commit_applied, mbind, M_bind, get_state, put_state in E. rewrite Hskip in E. cbn [co_reversible tick set_db] in E.
  destruct (negb replaying && _); injection E as <- <-; [done|]. split_and!; [done|done|]. cbn [co_db set_db tick].
  destruct Hp as [Hop Hip Hpp]. destruct Hk as [Hok Hik Hpk]. set (b := at_ (store (co_fork c)) p) in *.
  change (prev_at (co_fork c) p) with (bs_prev b) in Hprev.
  assert (applied (state_at (co_fork c) (co_head c)) (value (co_db c)) (block b) v) as Happ by (eexists _, _, _, _, _, _; exact Ea).
  constructor; [| |done].
  - destruct Hik as [Hin|Hnone].
    + exists j0. split; [done|]. change (prev_at (co_fork c) p) with (bs_prev b). rewrite Hprev. eapply level_block; [exact Hl|by apply find_id_unique; [apply Hf|]|done|done|done|exact Hnext|done].
    + exists (bs_prev b). split; [by rewrite Hprev|]. change (prev_at (co_fork c) p) with (bs_prev b). constructor. rewrite value_push. eapply built_block; [|exact Hnext|done]. by eapply levels_built.
  - rewrite revision_push, Hrev. pose proof (ob_num_prev _ Hop) as O3. pose proof (ob_num _ Hok) as O4. fold b in O3. change (num_at (co_fork c) p) with (bs_num b).
    unfold num_at, id_at in *. rewrite O3, Hprev, O4. done.
Qed.

(** *** Whole branches *)

(** The blocks of [ps], each on the one before it, the first one on [x]. *)
Fixpoint climbs (d : fork_database) (x : digest) (ps : list block_state_ptr) : Prop :=
  match ps with
  | [] => True
  | p :: ps => known d p /\ p ∈ Q /\ prev_at d p = x /\ climbs d (id_at d p) ps
  end.

Lemma climbs_snoc d x ps p q : climbs d x ps -> last ps = Some q -> known d p -> p ∈ Q -> prev_at d p = id_at d q -> climbs d x (ps ++ [p]).
Proof.
  revert x. induction ps as [|a ps IH]; intros x Hc Hl Hk HQ Hp; [done|]. destruct Hc as (Ha & Ha' & Hx & Hc). cbn [climbs app]. split_and!; [done|done|done|].
  destruct ps as [|b ps]; [simpl in Hl; injection Hl as ->; simpl; done|]. by apply IH.
Qed.

Lemma branch_climbs d l x : forks_ok d -> (forall p, p ∈ index d -> p ∈ Q) -> branch d l x -> climbs d x (rev l).
Proof.
  intros Hf HQ. induction 1 as [p Hp|p q l x Hp Hpq Hb IH]; [simpl; split_and!; try done; [by apply Hf|by apply HQ]|].
  cbn [rev]. eapply climbs_snoc; [exact IH| |by apply Hf|by apply HQ|done]. cbn [rev]. by rewrite last_snoc.
Qed.

Lemma climbs_shrinks d d' ps : fdb_wf d -> shrinks d d' -> forall x, climbs d x ps -> climbs d' x ps.
Proof.
  intros Hw Hs. induction ps as [|p ps IH]; intros x Hc; [done|]. destruct Hc as (Hk & HQ & Hp & Hc). cbn [climbs].
  rewrite (sh_prev d d' Hs), (sh_id d d' Hs). split_and!; [by eapply known_shrinks|done|done|by apply IH].
Qed.

(** After a block was applied the head is moved and marked. *)
Lemma move_head_synced {A} p st c c' r (m : M control A) : synced c -> known (co_fork c) p -> p ∈ Q -> prev_at (co_fork c) p = id_at (co_fork c) (co_head c) -> st <> irreversible ->
  (forall c1, synced c1 -> shrinks (co_fork c) (co_fork c1) -> co_head c1 = p -> forall c' r, m c1 = (c', r) -> settled r -> synced c' /\ shrinks (co_fork c1) (co_fork c')) ->
  (apply_block p st ≫= fun _ => modify_control (fun c => set_head_ptr c p) ≫= fun _ => m) c = (c', r) -> settled r -> synced c' /\ shrinks (co_fork c) (co_fork c').
Proof.
  intros Hc Hk HQ Hp Hst Hm E Hr. unfold mbind at 1, M_bind at 1 in E. destruct (apply_block p st c) as [c1 [[]|e]] eqn:Ea.
  - apply apply_block_holds in Ea as (Hf & Hh & Hho); [|done..]. change ((modify_control (fun c => set_head_ptr c p) ≫= fun _ => m) c1) with (m (set_head_ptr c1 p)) in E.
    assert (co_fork (set_head_ptr c1 p) = co_fork c) as Hf1 by done. apply Hm in E as [Hs Hsh]; [by rewrite Hf1 in Hsh| |by rewrite Hf1|done|done].
    constructor; cbn [co_fork co_db co_head set_head_ptr]; rewrite Hf; [apply Hc|done|eapply within_move; [done|apply Hc]].
  - injection E as <- <-. apply apply_block_holds in Ea as (Hf & Hh & Hdb); [|done..]. rewrite Hf. split; [|done]. destruct Hc as [Hc1 Hc2 Hc3].
    constructor; rewrite ?Hf, ?Hh, ?Hdb; done.
Qed.

Lemma on_fork_head {A} (m : M fork_database A) (c c' : control) r : on_fork m c = (c', r) -> co_head c' = co_head c.
Proof. unfold on_fork. destruct (m _). by intros [= <- _]. Qed.

Lemma reapply_synced ps : forall c c' r, synced c -> climbs (co_fork c) (id_at (co_fork c) (co_head c)) ps -> reapply ps c = (c', r) -> settled r ->
  synced c' /\ shrinks (co_fork c) (co_fork c').
Proof.
  induction ps as [|p ps IH]; intros c c' r Hc Hcl E Hr; cbn [ForkSwitch.reapply] in E; [by injection E as <- _|]. destruct Hcl as (Hk & HQ & Hp & Hcl).
  eapply move_head_synced; [exact Hc|exact Hk|exact HQ|exact Hp| | |exact E|exact Hr]; [done|]. clear E. intros c1 Hc1 Hs1 Hh1 c2 r2 E Hr2.
  unfold mbind, M_bind in E. destruct (on_fork _ c1) as [c3 [[]|e]] eqn:Em.
  - pose proof (on_fork_head _ _ _ _ Em) as Hh3. destruct (ks_fork _ (mark_step p true) _ _ _ Hc1 Em I) as [Hc3 Hs3].
    assert (climbs (co_fork c3) (id_at (co_fork c3) (co_head c3)) ps) as Hcl3.
    { rewrite Hh3, Hh1. pose proof (transitivity Hs1 Hs3) as Hs. rewrite (sh_id _ _ Hs). eapply climbs_shrinks; [apply Hc|exact Hs|done]. }
    destruct (IH _ _ _ Hc3 Hcl3 E Hr2) as [? Hs2]. split; [done|by etrans].
  - injection E as <- <-. exact (ks_fork _ (mark_step p true) _ _ _ Hc1 Em Hr2).
Qed.

Lemma apply_one_synced p c c' r : synced c -> known (co_fork c) p -> p ∈ Q -> prev_at (co_fork c) p = id_at (co_fork c) (co_head c) -> apply_one p c = (c', r) -> settled r ->
  synced c' /\ shrinks (co_fork c) (co_fork c') /\ (r = Ok tt -> co_head c' = p).
Proof.
  intros Hc Hk HQ Hp E Hr. unfold ForkSwitch.apply_one in E. unfold mbind at 1, M_bind at 1, get_state at 1 in E.
  assert (synced c' /\ shrinks (co_fork c) (co_fork c')) as [Hs Hsh].
  { eapply move_head_synced; [exact Hc|exact Hk|exact HQ|exact Hp| | |exact E|exact Hr]; [by destruct (validated _)|]. clear E. intros c1 Hc1 _ _ c2 r2.
    apply (ks_bind _ _ (ks_fork _ (mark_step p true)) (fun _ => ks_fork _ (validate_step p)) c1 c2 r2 Hc1). }
  split_and!; [done|done|]. intros ->. apply M_bind_Ok in E as (c1 & [] & _ & E). apply M_bind_Ok in E as (c2 & [] & E1 & E). injection E1 as <-.
  apply M_bind_Ok in E as (c3 & [] & E1 & E). apply on_fork_head in E1, E. by rewrite E, E1.
Qed.

(** The way back to the old branch [second] after the code [m] that leaves the new one. *)
Lemma retreat_synced (m : M control unit) second b (rest : M control unit) c c' r : synced c -> keeps_synced m ->
  last second = Some b -> climbs (co_fork c) (prev_at (co_fork c) b) (rev second) -> settled r ->
  (m ≫= fun _ => check_parted second ≫= fun _ => rest) c = (c', r) ->
  (exists e, r = Err e /\ synced c' /\ shrinks (co_fork c) (co_fork c')) \/
  exists c1, synced c1 /\ shrinks (co_fork c) (co_fork c1) /\ climbs (co_fork c1) (prev_at (co_fork c1) b) (rev second) /\
    id_at (co_fork c1) (co_head c1) = prev_at (co_fork c1) b /\ rest c1 = (c', r).
Proof.
  intros Hc Hm Hb Hcl Hr E. unfold mbind at 1, M_bind at 1 in E. destruct (m c) as [c1 [[]|e]] eqn:E1.
  - destruct (Hm _ _ _ Hc E1 I) as [Hc1 Hs1]. unfold mbind, M_bind in E. destruct (check_parted second c1) as [c2 [[]|e]] eqn:E2.
    + right. exists c1. unfold check_parted in E2. apply M_bind_Ok in E2 as (c3 & cx & E3 & E2). injection E3 as <- <-. rewrite Hb in E2.
      apply M_bind_Ok in E2 as (c3 & bx & E3 & E2). injection E3 as <- <-. unfold M_ASSERT in E2. destruct (bool_decide _) eqn:Hid; [|done]. injection E2 as <-. apply bool_decide_eq_true in Hid.
      change (id_at (co_fork c1) (co_head c1) = prev_at (co_fork c1) b) in Hid. split_and!; [done|done| |done|done]. rewrite (sh_prev _ _ Hs1).
      eapply climbs_shrinks; [apply Hc|exact Hs1|done].
    + left. exists e. injection E as <- <-. destruct (ks_parted second _ _ _ Hc1 E2 Hr). split_and!; [done|done|by etrans].
  - left. exists e. injection E as <- <-. destruct (Hm _ _ _ Hc E1 Hr). done.
Qed.

(** The rest of a branch; if a block fails, the old branch [second] comes back. *)
Lemma apply_branch_synced todo : forall old second c c' r b, synced c -> climbs (co_fork c) (id_at (co_fork c) (co_head c)) todo ->
  last second = Some b -> climbs (co_fork c) (prev_at (co_fork c) b) (rev second) -> apply_branch todo old second c = (c', r) -> settled r ->
  synced c' /\ shrinks (co_fork c) (co_fork c') /\ (r = Ok tt -> last (co_head c :: todo) = Some (co_head c')).
Proof.
  induction todo as [|p todo IH]; intros old second c c' r b Hc Hcl Hb Hsec E Hr; cbn [ForkSwitch.apply_branch] in E; [by injection E as <- <-|].
  destruct Hcl as (Hk & HQ & Hp & Hcl). unfold mbind at 1, M_bind at 1 in E. unfold try_catch in E. destruct (apply_one p c) as [c1 [[]|e]] eqn:E1.
  - apply apply_one_synced in E1 as (Hc1 & Hs1 & Hh1); [|done..]. specialize (Hh1 eq_refl).
    eapply IH in E as (? & Hs & Hl); [| exact Hc1| |exact Hb| |exact Hr].
    + split_and!; [done|by etrans|]. intros HE. specialize (Hl HE). rewrite Hh1 in Hl. done.
    + rewrite Hh1, (sh_id _ _ Hs1). eapply climbs_shrinks; [apply Hc|exact Hs1|done].
    + rewrite (sh_prev _ _ Hs1). eapply climbs_shrinks; [apply Hc|exact Hs1|done].
  - destruct (catchable e) eqn:Hcat; [|injection E as <- <-; unfold settled in Hr; congruence]. apply apply_one_synced in E1 as (Hc1 & Hs1 & _); [|done..].
    enough (synced c' /\ shrinks (co_fork c1) (co_fork c') /\ r <> Ok tt) as (? & ? & ?) by (split_and!; [done|by etrans|done]).
    assert (climbs (co_fork c1) (prev_at (co_fork c1) b) (rev second)) as Hsec1
      by (rewrite (sh_prev _ _ Hs1); eapply climbs_shrinks; [apply Hc|exact Hs1|done]).
    assert (keeps_synced (on_fork (set_validity p false) ≫= fun _ => pop_all old)) as Hm
      by (apply ks_bind; [apply ks_fork, validity_step|intros _; apply ks_pop_all]).
    rewrite M_bind_assoc in E. destruct (retreat_synced _ second b _ _ _ _ Hc1 Hm Hb Hsec1 Hr E) as [(e1 & -> & ? & ?)|(c2 & Hc2 & Hs2 & Hcl2 & Hid2 & E2)]; [done|]. rewrite <- Hid2 in Hcl2.
    unfold mbind, M_bind in E2. destruct (reapply (rev second) c2) as [c3 [[]|e3]] eqn:E3; injection E2 as <- <-; apply reapply_synced in E3 as [? ?]; try done;
      (split_and!; [done|by etrans|done]).
Qed.

Lemma mark_known d p v : forks_ok d -> p ∈ index d -> exists d', mark_in_current_chain p v d = (d', Ok tt).
Proof.
  intros Hf Hp. unfold mark_in_current_chain, mbind, M_bind, get_state. destruct (Bool.eqb _ _); [by eexists|].
  change (bs_id (at_ (store d) p)) with (id_at d p). rewrite find_id_unique by (done || apply Hf). by eexists.
Qed.

(** The new head extends the current one. *)
Lemma extend_synced st nh c c' r : synced c -> nh ∈ index (co_fork c) -> prev_at (co_fork c) nh = id_at (co_fork c) (co_head c) -> st <> irreversible ->
  (apply_block nh st ≫= fun _ => on_fork (mark_in_current_chain nh true) ≫= fun _ => on_fork (set_validity nh true) ≫= fun _ =>
     modify_control (fun c => set_head_ptr c nh)) c = (c', r) -> settled r ->
  synced c' /\ shrinks (co_fork c) (co_fork c') /\ match r with Ok _ => co_head c' = nh | Err _ => co_head c' = co_head c /\ co_db c' = co_db c end.
Proof.
  intros Hc Hnh Hp Hst E Hr. pose proof (fo_known _ (sy_forks _ _ Hc) nh Hnh) as Hk. pose proof (wi_index _ _ _ (sy_within _ _ Hc) nh Hnh) as HQ. unfold mbind at 1, M_bind at 1 in E. destruct (apply_block nh st c) as [c1 [[]|e]] eqn:Ea.
  - apply apply_block_holds in Ea as (Hf & Hh & Hho); [|done..]. destruct (mark_known (co_fork c) nh true (sy_forks _ _ Hc) Hnh) as [d1 Em].
    destruct (mark_step nh true _ _ _ (sy_forks _ _ Hc) Em I) as [Hs1 Hf1].
    destruct (set_validity nh true d1) as [d2 [[]|e]] eqn:Ev; [|done]. destruct (validity_step nh true _ _ _ Hf1 Ev I) as [Hs2 Hf2]. pose proof (transitivity Hs1 Hs2) as Hs.
    unfold mbind, M_bind, on_fork in E. rewrite Hf, Em in E. cbn [co_fork set_fork] in E. rewrite Ev in E. injection E as <- <-.
    split_and!; [|done|done]. constructor; cbn [co_fork co_db co_head set_head_ptr set_fork]; [done|eapply holds_shrinks; [apply Hc|exact Hs|done]|].
    eapply within_shrinks; [exact Hs|]. eapply within_move; [done|apply Hc].
  - injection E as <- <-. apply apply_block_holds in Ea as (Hf & Hh & Hdb); [|done..]. rewrite Hf. split_and!; try done. destruct Hc. constructor; rewrite ?Hf, ?Hh, ?Hdb; done.
Qed.

(** [maybe_switch_forks] keeps the controller in step; when it succeeds the head
    is the block that the fork database prefers. *)
Lemma switch_synced st c c' r : synced c -> st <> irreversible -> maybe_switch_forks st c = (c', r) -> settled r ->
  synced c' /\ shrinks (co_fork c) (co_fork c') /\ (r = Ok tt -> exists p, head (co_fork c) = Some p /\ id_at (co_fork c) (co_head c') = id_at (co_fork c) p).
Proof.
  intros Hc Hst E Hr. unfold ForkSwitch.maybe_switch_forks in E. unfold mbind at 1, M_bind at 1, get_state at 1 in E. cbv zeta in E.
  unfold mbind at 1, M_bind at 1, lift at 1 in E. destruct (head (co_fork c)) as [nh|] eqn:Hnh; cbn [of_option] in E; [|injection E as <- <-; by vm_compute in Hr].
  pose proof (fo_head _ (sy_forks _ _ Hc) nh Hnh) as Hin. destruct (bool_decide _) eqn:Hb1 in E.
  { apply bool_decide_eq_true in Hb1. unfold mbind at 1, M_bind at 1, try_catch in E.
    match type of E with context [match ?m c with _ => _ end] => destruct (m c) as [c1 [[]|e]] eqn:E1 end.
    - injection E as <- <-. apply extend_synced in E1 as (? & Hs & Hh); [|done..]. split_and!; [done|done|]. intros _. exists nh. by rewrite Hh.
    - destruct (catchable e) eqn:Hcat; [|injection E as <- <-; unfold settled in Hr; congruence].
      apply extend_synced in E1 as (Hc1 & Hs1 & _); [|done..]. unfold mbind, M_bind in E. destruct (on_fork _ c1) as [c2 [[]|e2]] eqn:E2; injection E as <- <-.
      + destruct (ks_fork _ (validity_step nh false) _ _ _ Hc1 E2 I). split_and!; [done|by etrans|done].
      + destruct (ks_fork _ (validity_step nh false) _ _ _ Hc1 E2 Hr). split_and!; [done|by etrans|done]. }
  destruct (bool_decide _) eqn:Hb2 in E; cbn [negb] in E.
  { injection E as <- <-. split_and!; [done|done|]. intros _. exists nh. apply bool_decide_eq_true in Hb2. by split. }
  unfold mbind at 1, M_bind at 1, lift at 1 in E. destruct (fetch_branch_from _ _ _) as [[first second]|e] eqn:Ef; [|injection E as <- <-; by split_and!].
  apply fetch_branch_sound in Ef as (p & q & x & Fp & Fq & B1 & B2 & H1p & H1q); [|apply Hc].
  assert (p = nh) as -> by (change (bs_id (at_ (store (co_fork c)) nh)) with (id_at (co_fork c) nh) in Fp; rewrite find_id_unique in Fp by (done || apply Hc); congruence).
  destruct (last second) as [b|] eqn:Hl; [|apply last_None in Hl; subst second; done].
  assert (prev_at (co_fork c) b = x) as Hx by (clear -B2 Hl; induction B2 as [p Hp|p q l x Hp Hpq Hb IH]; [simpl in Hl; by injection Hl as ->|auto]).
  pose proof (branch_climbs _ _ _ (sy_forks _ _ Hc) (wi_index _ _ _ (sy_within _ _ Hc)) B2) as C2. rewrite <- Hx in C2. pose proof (branch_climbs _ _ _ (sy_forks _ _ Hc) (wi_index _ _ _ (sy_within _ _ Hc)) B1) as C1.
  destruct (retreat_synced _ second b _ _ _ _ Hc (ks_pop_all second) Hl C2 Hr E) as [(e1 & -> & ? & ?)|(c2 & Hc2 & Hs2 & Hcl2 & Hid2 & E2)]; [by split_and!|].
  assert (climbs (co_fork c2) (id_at (co_fork c2) (co_head c2)) (rev first)) as C3
    by (rewrite Hid2, (sh_prev _ _ Hs2), Hx; eapply climbs_shrinks; [apply Hc|exact Hs2|done]).
  eapply apply_branch_synced in E2 as (Hc3 & Hs3 & Hh3); [|exact Hc2|exact C3|exact Hl|exact Hcl2|exact Hr]. split_and!; [done|by etrans|]. intros HE.
  specialize (Hh3 HE). exists nh. split; [done|]. destruct first as [|a first]; [done|]. injection H1p as ->. cbn [rev] in Hh3. rewrite app_comm_cons, last_snoc in Hh3.
  by injection Hh3 as <-.
Qed.

(** *** Additions to the fork database *)

Definition head_inside (d : fork_database) : Prop := forall p, head d = Some p -> p ∈ index d.

Lemma prune_forks_head fuel num : forall nitr d d' r, fdb_wf d -> head_inside d -> prune_forks fuel num nitr d = (d', r) ->
  emitted d' = emitted d /\ match r with Ok _ => head_inside d' | Err e => catchable e = false end.
Proof.
  induction fuel as [|fuel IH]; intros nitr d d' r Hw Hh E; [by injection E as <- <-|]. destruct nitr as [p|]; [|by injection E as <- <-].
  cbn [prune_forks] in E. unfold mbind, M_bind, get_state in E. destruct (negb _); [by injection E as <- <-|]. destruct (_ =? _); [|by injection E as <- <-].
  destruct (remove _ d) as [d1 [[]|e]] eqn:Er.
  - apply remove_spec in Er as (_ & Hw1 & _ & He & best & Hb & Hbi & _); [|done]. apply IH in E as [-> ?]; [done|done|]. intros q. by rewrite Hb; intros [= <-].
  - injection E as <- <-. apply remove_spec in Er as (_ & _ & _ & He & -> & _); done.
Qed.

Lemma prune_forks_rooted fuel num : forall nitr d d' r, fdb_wf d -> rooted d -> prune_forks fuel num nitr d = (d', r) -> rooted d'.
Proof.
  induction fuel as [|fuel IH]; intros nitr d d' r Hw Hro E; [by injection E as <- _|]. destruct nitr as [p|]; [|by injection E as <- _].
  cbn [prune_forks] in E. unfold mbind, M_bind, get_state in E. destruct (negb _); [by injection E as <- _|]. destruct (_ =? _); [|by injection E as <- _].
  destruct (remove _ d) as [d1 x] eqn:Er. pose proof (remove_rooted _ _ _ _ Hw Hro Er) as Hro1. pose proof (sub_db_wf _ _ (remove_sub _ _ _ _ Hw Er) Hw) as Hw1.
  destruct x as [[]|e]; [by eapply IH|by injection E as <- _].
Qed.

(** The blocks on the oldest one lose it. *)
Lemma erase_rooted d h : fdb_wf d -> h ∈ index d -> (forall p, p ∈ index d -> num_at d h <= num_at d p) -> rooted d -> rooted (erase_index d h).
Proof.
  intros Hw Hh Hmin [m Hm]. exists (num_at d h + 1). intros p [Hne Hp]%list_elem_of_filter. pose proof (Hmin p Hp) as Hlo. destruct (Hm p Hp) as [H1' H2'].
  destruct (Hm h Hh) as [H3' _]. change (num_at (erase_index d h) p) with (num_at d p). split; [lia|]. destruct H2' as [H2'|(q & Hq & Hpq)]; [left; lia|].
  destruct (decide (q = h)) as [->|Hqh]; [left; pose proof (wf_linked d Hw p h Hp Hh Hpq); lia|]. right. exists q. split; [|done]. by apply list_elem_of_filter.
Qed.

Notation silent := (fun _ : block_state => Ok tt).

Lemma prune_head fuel d h d' r : fdb_wf d -> h ∈ index d -> (forall p, p ∈ index d -> num_at d h <= num_at d p) -> rooted d -> head_inside d -> head d <> Some h ->
  prune silent (S (S fuel)) h d = (d', r) -> settled r -> emitted d' = emitted d ++ [h] /\ rooted d' /\ head_inside d'.
Proof.
  intros Hw Hh Hmin Hro Hin Hne E Hr. rewrite prune_oldest_body in E by done. unfold catch_all in E.
  assert (fdb_wf (erase_index (add_emitted d h) h)) as Hw0 by (apply (sub_db_wf (add_emitted d h)); [apply erase_sub|]; by destruct Hw; constructor).
  destruct (prune_forks _ _ _ _) as [d1 r1] eqn:Ep.
  assert (rooted d1) as Hro1 by (eapply prune_forks_rooted; [| |exact Ep]; [done|by apply (erase_rooted d)]). apply prune_forks_head in Ep as [He Hr1].
  - destruct r1 as [[]|e].
    + by injection E as <- <-.
    + destruct e; try done; injection E as <- <-; by vm_compute in Hr.
  - done.
  - intros p Hp. apply list_elem_of_filter. split; [|by apply Hin]. cbn [head erase_index set_index add_emitted] in Hp. congruence.
Qed.

(** [add] with handlers that accept: the block is refused, or it is inserted, some
    blocks leave, and those that were signalled are not above those that stay. *)
Lemma add_state_effect d n skip d' r : (find_id d (id_at d n) = None -> fdb_wf (set_index d (index d ++ [n])) /\ rooted (set_index d (index d ++ [n]))) ->
  (forall p, p ∈ index d ++ [n] -> bs_dpos (at_ (store d) p) <= num_at d p) -> add_state silent (Some n) skip d = (d', r) -> settled r ->
  (d' = d /\ r <> Ok n) \/
  (find_id d (id_at d n) = None /\ shrinks (set_index d (index d ++ [n])) d' /\ rooted d' /\ head_inside d' /\ exists es, emitted d' = emitted d ++ es /\
     forall p q, p ∈ es -> q ∈ index d' -> num_at d' p <= num_at d' q).
Proof.
  intros Hw Hdpos E Hr. destruct (add_state_refused silent d n skip) as (Hnone & Hunl & Hdup).
  destruct (head d) as [hd|] eqn:Hh; [|left; rewrite Hnone in E by done; by injection E as <- <-].
  destruct (skip || is_linked d n) eqn:Hs; [|left; rewrite (Hunl hd) in E by done; by injection E as <- <-].
  destruct (find_id d (id_at d n)) as [q|] eqn:Hf; [left; rewrite (Hdup hd q) in E by done; by injection E as <- <-|]. right. split; [done|].
  destruct (add_state_inserted silent d n skip hd Hh Hs Hf) as (best & [Hbest _] & old & Hold & Hmin & E'). rewrite E' in E. clear E'.
  set (d1 := with_block d n best) in *. destruct (Hw eq_refl) as [Hw0 Hro0]. assert (fdb_wf d1) as Hw1 by (destruct Hw0; by constructor). assert (rooted d1) as Hro1 by exact Hro0.
  assert (shrinks (set_index d (index d ++ [n])) d1) as Hs1 by done.
  destruct (Z.ltb_spec (num_at d old) (bs_dpos (at_ (store d) best))) as [Hlt|Hge].
  - destruct (prune _ _ _ _) as [d2 r2] eqn:Ep. injection E as <- <-. assert (settled r2) as Hr2 by (destruct r2; done).
    pose proof (sub_shrinks _ _ (prune_sub silent _ _ _ _ _ Hw1 Ep)) as Hs2. pose proof (Hdpos best Hbest) as Hbd.
    apply prune_head in Ep as (He & Hro & Hin); [|done|done|done|done|by intros p [= <-]|intros [= ->]; lia|done].
    split_and!; [by etrans|done|done|]. exists [old]. split; [done|]. intros p q ->%list_elem_of_singleton Hq. rewrite !(sh_num d1 d2 Hs2). apply Hmin.
    by apply (sh_index d1 d2 Hs2).
  - injection E as <- <-. split_and!; [done|done|by intros p [= <-]|]. exists []. rewrite app_nil_r. split; [done|]. intros p q []%elem_of_nil.
Qed.

(** Code that does not change which block the fork database prefers. *)
Definition prefers_same {A} (m : M control A) : Prop := forall c c' a, m c = (c', Ok a) -> head (co_fork c') = head (co_fork c).

Lemma ps_bind {A B} (m : M control A) (f : A -> M control B) : prefers_same m -> (forall a, prefers_same (f a)) -> prefers_same (m ≫= f).
Proof. intros Hm Hf c c' b E. apply M_bind_Ok in E as (c1 & a & E1 & E). rewrite (Hf _ _ _ _ E). by eapply Hm. Qed.
Lemma ps_lift {A} (x : result A) : prefers_same (lift x).
Proof. intros c c' a E. by injection E as <- _. Qed.
Lemma ps_mark p v : prefers_same (on_fork (mark_in_current_chain p v)).
Proof.
  intros c c' a E. unfold on_fork, mark_in_current_chain, mbind, M_bind, get_state in E. destruct (Bool.eqb _ _); [by injection E as <- _|].
  by destruct (find_id _ _); injection E as <- _.
Qed.
Lemma ps_assert b e : prefers_same (M_ASSERT b e).
Proof. intros c c' a E. unfold M_ASSERT in E. destruct b; [|done]. by injection E as <- _. Qed.

Lemma apply_block_fork p st c : co_fork (apply_block p st c).1 = co_fork c.
Proof.
  unfold ForkSwitch.apply_block, mbind, M_bind, get_state, M_ASSERT. cbv zeta. destruct (bool_decide _); [|done]. cbn [mret M_ret]. destruct (_ || _); [|done]. cbn [mret M_ret].
  destruct (try_apply _ _ _ _ _ _ _) as [u [[v ts]|e]]; [|done]. unfold put_state, lift, commit_applied, mbind, M_bind, get_state. by destruct (_ && _).
Qed.
Lemma ps_apply p st : prefers_same (apply_block p st).
Proof. intros c c' a E. pose proof (apply_block_fork p st c) as Hf. rewrite E in Hf. simpl in Hf. by rewrite Hf. Qed.

Lemma ps_pop_all ps : prefers_same (pop_all ps).
Proof.
  induction ps as [|p ps IH]; cbn [ForkSwitch.pop_all]; [apply (ps_lift (Ok tt))|]. apply ps_bind; [apply ps_mark|intros _]. apply ps_bind; [|done].
  intros c c' [] E. unfold ForkSwitch.pop_block, mbind, M_bind, get_state, lift in E. cbv zeta in E. by destruct (of_option _ _); injection E as <-.
Qed.

Lemma ps_branch todo : forall old second, prefers_same (apply_branch todo old second).
Proof.
  induction todo as [|p todo IH]; intros old second c c' a E; cbn [ForkSwitch.apply_branch] in E; [by injection E as <- _|].
  apply M_bind_Ok in E as (c1 & x & E1 & E). unfold try_catch in E1. destruct (apply_one p c) as [c2 [[]|e]] eqn:E2.
  - injection E1 as <- <-. rewrite (IH _ _ _ _ _ E). unfold ForkSwitch.apply_one in E2. apply M_bind_Ok in E2 as (c3 & cx & E3 & E2). injection E3 as <- <-.
    apply M_bind_Ok in E2 as (c3 & [] & E3 & E2). apply ps_apply in E3. apply M_bind_Ok in E2 as (c4 & [] & E4 & E2). injection E4 as <-.
    apply M_bind_Ok in E2 as (c5 & [] & E5 & E2). apply ps_mark in E5. injection E2 as <-. simpl. simpl in E5. congruence.
  - destruct (catchable e); [|done]. injection E1 as <- <-. do 4 (apply M_bind_Ok in E as (? & ? & _ & E)). done.
Qed.

Lemma switch_preference st c c' : maybe_switch_forks st c = (c', Ok tt) -> head (co_fork c') = head (co_fork c).
Proof.
  intros E. unfold ForkSwitch.maybe_switch_forks in E. apply M_bind_Ok in E as (c1 & cx & E1 & E). injection E1 as <- <-. cbv zeta in E.
  apply M_bind_Ok in E as (c1 & nh & E1 & E). injection E1 as <- _. destruct (bool_decide _).
  - apply M_bind_Ok in E as (c1 & x & E1 & E). destruct x; [|by apply M_bind_Ok in E as (? & ? & _ & E)]. injection E as <-. unfold try_catch in E1.
    match type of E1 with context [match ?m c with _ => _ end] => destruct (m c) as [c2 [[]|e]] eqn:E2 end; [|by destruct (catchable e)]. injection E1 as <- _.
    apply M_bind_Ok in E2 as (c3 & [] & E3 & E2). apply ps_apply in E3. apply M_bind_Ok in E2 as (c4 & [] & E4 & E2). apply ps_mark in E4.
    apply M_bind_Ok in E2 as (c5 & [] & E5 & E2). injection E5 as <-. injection E2 as <-. simpl. congruence.
  - destruct (negb _); [|by injection E as <-]. apply M_bind_Ok in E as (c1 & [first second] & E1 & E). injection E1 as <- _.
    apply M_bind_Ok in E as (c1 & [] & E1 & E). apply ps_pop_all in E1. apply M_bind_Ok in E as (c2 & [] & E2 & E). apply ps_branch in E. rewrite E, <- E1.
    unfold check_parted in E2. apply M_bind_Ok in E2 as (c3 & cx & E3 & E2). injection E3 as <- <-. apply M_bind_Ok in E2 as (c3 & bx & E3 & E2). injection E3 as <- _.
    by apply ps_assert in E2.
Qed.

(** ** Blocks that arrive *)

Lemma levels_ext d d' j0 db h j : (forall k q, find_id d k = Some q -> find_id d' k = Some q /\ at_ (store d') q = at_ (store d) q) ->
  levels d j0 db h j -> levels d' j0 db h j.
Proof.
  intros Hd. induction 1 as [|db h j q v b h' Hl IH Hf Hq Hp Hn Hx Ha]; [by constructor|]. destruct (Hd _ _ Hf) as (Hf' & Hat).
  unfold state_at, prev_at, num_at in *. eapply level_block; unfold state_at, prev_at, num_at; rewrite ?Hat; done.
Qed.

Lemma irreversible_synced es : forall c, synced c -> (forall p q, p ∈ es -> q ∈ index (co_fork c) -> num_at (co_fork c) p <= num_at (co_fork c) q) ->
  synced (foldl on_irreversible c es) /\ co_fork (foldl on_irreversible c es) = co_fork c.
Proof.
  induction es as [|p es IH]; intros c Hc Hmin; [done|]. cbn [foldl]. destruct (IH (on_irreversible c p)) as [Hs Hf]; [| |done].
  - destruct Hc as [Hc [(j0 & Hz & Hl) Hr Hk] Hw]. constructor; cbn [co_fork co_db co_head on_irreversible set_db]; [done| |done].
    constructor; [|by rewrite revision_commit|done]. eapply levels_commit; [apply Hc|done| |done|done]. intros q Hq. by apply Hmin; [left|].
  - intros q q' Hq Hq'. by apply Hmin; [right|].
Qed.

End Moves.

(** The predecessor of the oldest state that an undo can reach. *)
Definition bottom (c : control) (j : digest) : Prop :=
  find_id (co_fork c) j = None /\ levels (co_fork c) j (co_db c) (state_at (co_fork c) (co_head c)) (prev_at (co_fork c) (co_head c)).

(** A block that may arrive: numbers fit into 32 bits, its state does not call a
    block irreversible that is above it, and it is neither the head itself nor
    a block below everything that can be undone. *)
Record acceptable (c : control) (b : signed_block) : Prop := {
  ac_fit p : p ∈ index (co_fork c) -> 0 <= num_at (co_fork c) p /\ num_at (co_fork c) p + 1 < 2 ^ 32;
  ac_dpos p s : p ∈ index (co_fork c) -> block_state_of (bs_header_state (at_ (store (co_fork c)) p)) b false = Ok s -> bs_dpos s <= bs_num s;
  ac_new p s : p ∈ index (co_fork c) -> block_state_of (bs_header_state (at_ (store (co_fork c)) p)) b false = Ok s ->
    bs_id s <> id_at (co_fork c) (co_head c) /\ ~ bottom c (bs_id s)
}.

(** A state that was made but is not in the index yet. *)
Lemma allocate_keeps d s p : (p < next_ptr d)%nat -> at_ (store (allocate d s)) p = at_ (store d) p.
Proof. intros Hp. simpl. rewrite at_insert, decide_False by lia. done. Qed.

Lemma allocate_find d s i : forks_ok d -> find_id (allocate d s) i = find_id d i.
Proof.
  intros Hf. assert (forall p, p ∈ index d -> at_ (store (allocate d s)) p = at_ (store d) p) as Hati by (intros p Hp; by apply allocate_keeps, (kn_ptr d p), Hf).
  destruct (find_id d i) as [q|] eqn:E.
  - pose proof (find_id_Some_1 _ _ _ E) as [Hq Hi]. destruct (find_id (allocate d s) i) as [q'|] eqn:E'.
    + apply find_id_Some_1 in E' as [Hq' Hi']. unfold id_at in Hi'. rewrite Hati in Hi' by done. f_equal. apply (wf_unique d (fo_wf d Hf)); [done|done|]. unfold id_at in *. congruence.
    + rewrite find_id_None in E'. exfalso. apply (E' q Hq). unfold id_at. rewrite Hati by done. done.
  - rewrite find_id_None in E. apply find_id_None. intros p Hp. unfold id_at. rewrite Hati by done. by apply E.
Qed.

Lemma allocate_bottom Q c s j : synced Q c -> bottom (set_fork c (allocate (co_fork c) s)) j -> bottom c j.
Proof.
  intros [Hf Hh _] [Hz Hl]. cbn [co_fork co_db co_head set_fork] in Hz, Hl. rewrite allocate_find in Hz by done. split; [done|].
  pose proof (kn_ptr _ _ (ho_known _ _ _ Hh)) as Hp. unfold state_at, prev_at in *. rewrite !allocate_keeps in Hl by done. eapply levels_ext; [|exact Hl].
  intros k q Hq. rewrite allocate_find in Hq by done. split; [done|]. pose proof (find_id_Some_1 _ _ _ Hq) as [Hqi _].
  rewrite allocate_keeps by (by apply (kn_ptr _ _ (fo_known _ Hf q Hqi))). done.
Qed.

(** The pointers that matter: the head and those of the index. *)
Definition own_pointers (c : control) : list block_state_ptr := co_head c :: index (co_fork c).

Lemma synced_own Q c : synced Q c -> synced (own_pointers c) c.
Proof.
  intros [Hf Hh [W1 W2 W3]]. constructor; [done|done|]. constructor; [by left|intros p Hp; by right|].
  assert (forall p, p ∈ own_pointers c -> p ∈ Q) as HQ by (intros p [->|Hp]%elem_of_cons; auto). auto.
Qed.

Lemma own_below Q c p : synced Q c -> p ∈ own_pointers c -> (p < next_ptr (co_fork c))%nat.
Proof. intros [Hf Hh _] [->|Hp]%elem_of_cons; [apply Hh|]. by apply (kn_ptr _ _ (fo_known _ Hf p Hp)). Qed.

Lemma allocate_synced Q c s : synced Q c -> synced (own_pointers c) (set_fork c (allocate (co_fork c) s)).
Proof.
  intros Hc%synced_own. assert (forall p, p ∈ own_pointers c -> at_ (store (allocate (co_fork c) s)) p = at_ (store (co_fork c)) p) as Hown
    by (intros p Hp; by eapply allocate_keeps, own_below).
  destruct Hc as [Hf Hh [_ _ Hfo]]. set (d := co_fork c) in *. set (d1 := allocate d s) in *.
  assert (forall p, p ∈ index d -> at_ (store d1) p = at_ (store d) p) as Hati by (intros p Hp; apply Hown; by right).
  assert (forall i, find_id d1 i = find_id d i) as Hfind by (intros i; by apply allocate_find).
  assert (forall p, known d p -> known d1 p) as Hkn.
  { intros p [K1 K2 K3]. pose proof (allocate_keeps d s p K3) as Hat. fold d1 in Hat. constructor; [by rewrite Hat|unfold id_at; rewrite Hat, Hfind; done|simpl; lia]. }
  constructor; cbn [co_fork co_db co_head set_fork].
  - destruct Hf as [[W1 W2 W3] F1 F2 [m Fm] F3]. constructor; [constructor|..]; unfold id_at, prev_at, num_at in *.
    + done.
    + intros p q Hp Hq. rewrite !Hati by done. by apply W2.
    + intros p q Hp Hq. rewrite !Hati by done. by apply W3.
    + intros p Hp. by apply Hkn, F1.
    + intros p Hp. rewrite !Hati by done. by apply F2.
    + exists m. intros p Hp. unfold num_at, prev_at, id_at. rewrite Hati by done. destruct (Fm p Hp) as [? [?|(q & Hq & Hpq)]]; split; auto. right. exists q. by rewrite Hati.
    + exact F3.
  - destruct Hh as [(j0 & Hz & Hl) Hr Hk]. pose proof (Hown (co_head c) ltac:(by left)) as Hat. constructor; [|unfold num_at; by rewrite Hat|by apply Hkn].
    exists j0. split; [by rewrite Hfind|]. unfold state_at, prev_at. rewrite !Hat. eapply levels_ext; [|exact Hl]. intros k q Hq.
    pose proof (find_id_Some_1 _ _ _ Hq) as [Hqi _]. by rewrite Hfind, Hati.
  - constructor; [by left|intros p Hp; by right|]. intros p q Hp Hq. specialize (Hfo p q Hp Hq). unfold follows, prev_at, id_at, state_at in *. by rewrite !Hown.
Qed.

(** *** The new block [n] on the block [q] enters the index *)

Record enters (c : control) (n q : block_state_ptr) : Prop := {
  en_own : own_block (at_ (store (co_fork c)) n);
  en_ptr : (n < next_ptr (co_fork c))%nat /\ n ∉ own_pointers c;
  en_dpos : bs_dpos (at_ (store (co_fork c)) n) <= num_at (co_fork c) n;
  en_head : id_at (co_fork c) n <> id_at (co_fork c) (co_head c);
  en_bottom : ~ bottom c (id_at (co_fork c) n);
  en_prev : q ∈ index (co_fork c) /\ prev_at (co_fork c) n = id_at (co_fork c) q;
  en_follows : follows (co_fork c) q n
}.

Definition with_new (d : fork_database) (n : block_state_ptr) : fork_database := set_index d (index d ++ [n]).

Lemma own_different d n : own_block (at_ (store d) n) -> prev_at d n <> id_at d n.
Proof. intros [O1 O2] E. unfold id_at, prev_at in E. rewrite E in O2. lia. Qed.

Lemma number_above d n q : own_block (at_ (store d) n) -> own_block (at_ (store d) q) -> prev_at d n = id_at d q -> num_at d n = num_at d q + 1.
Proof. intros [_ O1] [O2 _] E. unfold num_at, id_at, prev_at in *. by rewrite O1, E, O2. Qed.

Section Enters.
Context (Q : list block_state_ptr) (c : control) (n q : block_state_ptr).
Context (Hc : synced Q c) (He : enters c n q) (Hnone : find_id (co_fork c) (id_at (co_fork c) n) = None).

(** No block is on it already. *)
Lemma nothing_above p : p ∈ own_pointers c -> prev_at (co_fork c) p <> id_at (co_fork c) n.
Proof.
  destruct Hc as [Hf [(j0 & Hz & Hl) Hr Hk] _]. destruct (en_prev _ _ _ He) as [Hq Hnq]. pose proof Hnone as Hnone'. intros [->|Hp]%elem_of_cons Hpn.
  - apply (en_bottom _ _ _ He). split; [done|]. rewrite <- Hpn. rewrite <- Hpn in Hnone'. remember (prev_at (co_fork c) (co_head c)) as j eqn:Ej.
    destruct Hl as [db h Hb|db h j q' v b h' ? Hf']; [by constructor|congruence].
  - destruct (fo_rooted _ Hf) as [m Hm]. destruct (Hm q Hq) as [Hlo _]. destruct (Hm p Hp) as [_ [Hlow|(q' & Hq' & Hpq')]].
    + apply number_above in Hpn; [|by apply (kn_own _ _ (fo_known _ Hf p Hp))|apply He]. apply number_above in Hnq; [lia|apply He|by apply (kn_own _ _ (fo_known _ Hf q Hq))].
    + rewrite find_id_None in Hnone'. apply (Hnone' q' Hq'). by rewrite <- Hpq'.
Qed.

Lemma enters_wf : fdb_wf (with_new (co_fork c) n).
Proof.
  destruct Hc as [Hf _ _]. apply wf_snoc; try done; [apply Hf|intros Hin; apply (proj2 (en_ptr _ _ _ He)); by right|..].
  - intros q' Hq'. apply number_above; [apply He|by apply (kn_own _ _ (fo_known _ Hf q' Hq'))].
  - intros q' Hq' Hpq. exfalso. by apply (nothing_above q'); [right|].
  - apply own_different, He.
Qed.

Lemma enters_forks : forks_ok (with_new (co_fork c) n).
Proof.
  pose proof enters_wf as Hw. destruct Hc as [Hf _ _]. destruct (en_prev _ _ _ He) as [Hq Hnq]. constructor; [done|..].
  - intros p [Hp| ->%list_elem_of_singleton]%elem_of_app; [|constructor; [apply He|left; apply elem_of_app; right; by left|apply He]].
    destruct (fo_known _ Hf p Hp). constructor; [done|left; by apply elem_of_app; left|done].
  - intros p [Hp| ->%list_elem_of_singleton]%elem_of_app; [by apply Hf|apply He].
  - destruct (fo_rooted _ Hf) as [m Hm]. exists m. change (num_at (with_new (co_fork c) n)) with (num_at (co_fork c)). change (prev_at (with_new (co_fork c) n)) with (prev_at (co_fork c)).
    change (id_at (with_new (co_fork c) n)) with (id_at (co_fork c)). intros p [Hp| ->%list_elem_of_singleton]%elem_of_app.
    + destruct (Hm p Hp) as [H1' [H2'|(q' & Hq' & Hpq)]]; split; auto. right. exists q'. split; [by apply elem_of_app; left|done].
    + destruct (Hm q Hq) as [Hlo _]. rewrite (number_above _ n q (en_own _ _ _ He) (kn_own _ _ (fo_known _ Hf q Hq)) Hnq). split; [lia|]. right.
      exists q. split; [by apply elem_of_app; left|done].
  - intros p Hp. apply elem_of_app. left. by apply Hf.
Qed.

Lemma enters_holds : holds (with_new (co_fork c) n) (co_db c) (co_head c).
Proof.
  pose proof enters_wf as Hw. destruct Hc as [Hf [(j0 & Hz & Hl) Hr [K1 K2 K3]] _].
  assert (forall i, i <> id_at (co_fork c) n -> find_id (co_fork c) i = None -> find_id (with_new (co_fork c) n) i = None) as Hno.
  { intros i Hne Hi. rewrite find_id_None in Hi |- *. intros p [Hp| ->%list_elem_of_singleton]%elem_of_app; [by apply Hi|by intros E; apply Hne]. }
  constructor; [|done|].
  - exists j0. split; [apply Hno; [intros ->; by apply (en_bottom _ _ _ He)|done]|]. eapply levels_ext; [|exact Hl]. intros k p [Hp Hi]%find_id_Some_1. split; [|done].
    apply find_id_Some; [done|]. split; [by apply elem_of_app; left|done].
  - constructor; [done| |done]. destruct K2 as [K2|K2]; [left; by apply elem_of_app; left|right; apply Hno; [apply not_eq_sym, He|done]].
Qed.

Lemma enters_within : within (n :: own_pointers c) (with_new (co_fork c) n) (co_head c).
Proof.
  destruct (synced_own Q c Hc) as [Hf Hh [_ _ Hfo]]. destruct (en_prev _ _ _ He) as [Hq Hnq].
  constructor; [right; by left|intros p [Hp| ->%list_elem_of_singleton]%elem_of_app; [right; by right|by left]|].
  intros p q' [->|Hp]%elem_of_cons [->|Hq']%elem_of_cons E.
  all: change (prev_at (with_new (co_fork c) n)) with (prev_at (co_fork c)) in E; change (id_at (with_new (co_fork c) n)) with (id_at (co_fork c)) in E.
  - by apply own_different in E; [|apply He].
  - assert (find_id (co_fork c) (id_at (co_fork c) q') = Some q) as Hfq by (rewrite <- E, Hnq; by apply find_id_unique; [apply Hf|]).
    assert (q' = q) as ->; [|by apply (en_follows _ _ _ He)].
    apply elem_of_cons in Hq' as [->|Hq']; [|rewrite find_id_unique in Hfq by (done || apply Hf); congruence].
    destruct (kn_index _ _ (ho_known _ _ _ Hh)) as [Hin|Hn']; [rewrite find_id_unique in Hfq by (done || apply Hf)|]; congruence.
  - by destruct (nothing_above p Hp).
  - by apply Hfo.
Qed.

End Enters.

Lemma block_state_own d p b s : forks_ok d -> p ∈ index d -> 0 <= num_at d p /\ num_at d p + 1 < 2 ^ 32 ->
  block_state_of (state_at d p) b false = Ok s -> own_block s.
Proof. unfold state_at.
  intros Hf Hp [Hlo Hhi] E. pose proof (ob_num _ (kn_own d p (fo_known d Hf p Hp))) as O1. apply block_state_of_child in E as (Hn & Hpr & Hid).
  change (block_num (bs_header_state (at_ (store d) p))) with (num_at d p) in Hn. change (BlockHeader.id (bs_header_state (at_ (store d) p))) with (id_at d p) in Hpr, Hid.
  unfold id_at, num_at in *. rewrite O1 in Hid. rewrite u32_small in Hn, Hid by (unfold is_u32; lia). constructor; [congruence|]. rewrite Hn, Hpr, O1. done.
Qed.

(** The head of the chain is the one the fork database prefers. *)
Definition at_best (c : control) : Prop := exists p, head (co_fork c) = Some p /\ id_at (co_fork c) (co_head c) = id_at (co_fork c) p.

(** The state of a block that may arrive is made, or the block is refused. *)
Lemma create_enters Q b c c' r : synced Q c -> acceptable c b -> create_block_state b c = (c', r) ->
  (c' = c /\ exists e, r = Err e) \/ exists n q, r = Ok n /\ synced (own_pointers c') c' /\ enters c' n q.
Proof.
  intros Hc Hb E. unfold create_block_state, mbind, M_bind, get_state, lift, M_ASSERT in E.
  destruct (get_block (co_fork c) (header_id _)); [injection E as <- <-; left; by eauto|]. cbn [mret M_ret] in E.
  destruct (get_block (co_fork c) (previous _)) as [q|] eqn:Ep; cbn [of_option] in E; [|injection E as <- <-; left; by eauto].
  destruct (block_state_of _ b false) as [s|] eqn:Es; [|injection E as <- <-; left; by eauto]. unfold on_fork, make_shared in E. injection E as <- <-.
  right. exists (next_ptr (co_fork c)), q. split; [done|]. apply get_block_Some in Ep as [Hq _].
  change (mk_fork_database _ _ _ _ _) with (allocate (co_fork c) s). set (n := next_ptr (co_fork c)).
  pose proof (allocate_synced Q c s Hc) as Hc1. split; [exact Hc1|].
  pose proof (block_state_own _ _ _ _ (sy_forks _ _ Hc) Hq (ac_fit _ _ Hb _ Hq) Es) as Ho. destruct (ac_new _ _ Hb _ _ Hq Es) as [Hnh Hnb].
  assert (at_ (store (allocate (co_fork c) s)) n = s) as Hat by (simpl; by rewrite at_insert, decide_True).
  pose proof (fun p Hp => allocate_keeps (co_fork c) s p (own_below Q c p Hc Hp)) as Hown. pose proof (Hown q ltac:(by right)) as Hatq. pose proof (Hown (co_head c) ltac:(by left)) as Hath.
  pose proof (block_state_of_child _ _ _ _ Es) as (_ & Hpr & _).
  constructor; cbn [co_fork co_head set_fork]; unfold id_at, prev_at, num_at; rewrite ?Hat, ?Hath, ?Hatq; try done.
  - split; [simpl; lia|]. intros Hin. pose proof (own_below Q c n Hc Hin). unfold n in *. lia.
  - by apply (ac_dpos _ _ Hb q s).
  - intros Hbo. by apply Hnb, (allocate_bottom Q c s).
  - intros _. unfold state_at. rewrite Hat, Hatq. unfold block_state_of in Es. by inv_ok.
Qed.

(** It is added to the index, and irreversible blocks leave. *)
Lemma add_synced c n q d' r : synced (own_pointers c) c -> enters c n q -> add_state (fun _ => Ok tt) (Some n) false (co_fork c) = (d', r) -> settled r ->
  exists Q', synced Q' (foldl on_irreversible (set_fork c d') (drop (length (emitted (co_fork c))) (emitted d'))).
Proof.
  intros Hc He Ea Hr. pose proof (enters_wf _ c n q Hc He) as Hw. pose proof (enters_forks _ c n q Hc He) as Hf.
  apply add_state_effect in Ea as [[-> _]|(Hnone & Hs & Hro & Hin & es & Hes & Hmin)]; [| |..|exact Hr].
  - rewrite drop_all. exists (own_pointers c). destruct Hc. by constructor.
  - rewrite Hes, drop_app_length. exists (n :: own_pointers c). apply irreversible_synced; [|done]. constructor; cbn [co_fork co_head co_db set_fork].
    + eapply forks_shrinks; [exact Hs|exact Hro|exact Hin|exact (Hf Hnone)].
    + eapply holds_shrinks; [exact (Hw Hnone)|exact Hs|]. by eapply enters_holds.
    + eapply within_shrinks; [exact Hs|]. by eapply enters_within.
  - intros Hnone. split; [by apply Hw|]. by apply Hf.
  - intros p [Hp| ->%list_elem_of_singleton]%elem_of_app; [by apply (fo_dpos _ (sy_forks _ _ Hc))|apply He].
Qed.

Lemma push_synced Q b c c' r : synced Q c -> acceptable c b -> push_block b c = (c', r) -> settled r -> (exists Q', synced Q' c') /\ (r = Ok tt -> at_best c').
Proof.
  intros Hc Hb E Hr. unfold ForkSwitch.push_block in E. unfold mbind at 1, M_bind at 1 in E. destruct (create_block_state b c) as [c1 r1] eqn:E1.
  apply (create_enters Q) in E1 as [(-> & e & ->)|(n & q & -> & Hc1 & Hen)]; [injection E as <- <-; split; [by eexists|done]| |done|done].
  unfold reset_light in E. match type of E with context [(?m ≫= ?f) c1] => destruct ((m ≫= f) c1) as [c2 r2] eqn:E2 end. injection E as <- ->.
  enough ((exists Q', synced Q' c2) /\ (r = Ok tt -> at_best c2)) as [[Q' [? ? ?]] Hbest] by (split; [exists Q'; by constructor|exact Hbest]).
  unfold mbind at 1, M_bind at 1, on_fork_signals in E2. destruct (add_state _ _ _ _) as [d' r3] eqn:Ea. set (c3 := foldl _ _ _) in E2.
  assert (settled r3 -> exists Q', synced Q' c3) as Hc3 by (intros Hr3; eapply add_synced; [exact Hc1|exact Hen|exact Ea|exact Hr3]).
  destruct r3 as [p|e]; [|injection E2 as <- <-; split; [by apply Hc3|done]]. destruct (Hc3 I) as [Q3 Hs3]. clear Hc3. clearbody c3. unfold mbind, M_bind in E2.
  assert (exists c4, synced Q3 c4 /\ maybe_switch_forks complete c4 = (c2, r)) as (c4 & Hc4 & E4).
  { destruct (bool_decide _); cbn [modify_control mret M_ret] in E2; eexists; (split; [|exact E2]); [destruct Hs3; by constructor|done]. }
  pose proof E4 as Esw. eapply switch_synced in Esw as (? & Hs & Hbest); [|done|done|done]. split; [by eexists|]. intros ->. destruct (Hbest eq_refl) as (p' & Hp' & Hid).
  apply switch_preference in E4. exists p'. rewrite !(sh_id _ _ Hs). split; [congruence|done].
Qed.

(** ** Runs *)

(** A controller that starts with the database [v0] of its head, which has the
    state [h0] and whose predecessor the fork database does not have; there may
    be blocks on it already. *)
Record starts (c : control) : Prop := {
  st_forks : forks_ok (co_fork c);
  st_follows p q : p ∈ index (co_fork c) -> q ∈ index (co_fork c) -> follows (co_fork c) q p;
  st_head : co_head c ∈ index (co_fork c);
  st_state : state_at (co_fork c) (co_head c) = h0;
  st_value : value (co_db c) = v0;
  st_revision : revision (co_db c) = num_at (co_fork c) (co_head c);
  st_oldest : find_id (co_fork c) (prev_at (co_fork c) (co_head c)) = None
}.

(** Blocks arrive one after the other, whatever the results. *)
Inductive chain_run : control -> Prop :=
| run_start c : starts c -> chain_run c
| run_push b c c' r : chain_run c -> acceptable c b -> push_block b c = (c', r) -> settled r -> chain_run c'.

Lemma starts_synced c : starts c -> synced (own_pointers c) c.
Proof.
  intros [Hf Hfo Hh Hs Hv Hr Ho]. assert (forall p, p ∈ own_pointers c -> p ∈ index (co_fork c)) as Hown by (by intros p [->|Hpi]%elem_of_cons). constructor; [done|..].
  - constructor; [|done|by apply Hf]. eexists. split; [exact Ho|]. constructor. rewrite Hv, Hs. constructor.
  - constructor; [by left|intros p Hpi; by right|auto].
Qed.

(** A fork database with one block. *)
Lemma single_starts c : index (co_fork c) = [co_head c] -> head (co_fork c) = Some (co_head c) -> (co_head c < next_ptr (co_fork c))%nat ->
  state_at (co_fork c) (co_head c) = h0 -> own_block (at_ (store (co_fork c)) (co_head c)) -> dpos_irreversible_blocknum h0 <= block_num h0 ->
  value (co_db c) = v0 -> revision (co_db c) = block_num h0 -> starts c.
Proof.
  intros Hi Hb Hp Hs Ho Hd Hv Hr. assert (forall p, p ∈ index (co_fork c) -> p = co_head c) as Hall by (intros p; rewrite Hi; apply list_elem_of_singleton).
  pose proof (own_different _ _ Ho) as Hne. assert (num_at (co_fork c) (co_head c) = block_num h0) as Hn by (by rewrite <- Hs).
  assert (co_head c ∈ index (co_fork c)) as Hin by (rewrite Hi; by left). constructor; [|by intros p q ->%Hall ->%Hall E|done|done|done|by rewrite Hn|].
  - constructor; [constructor|..].
    + rewrite Hi. apply NoDup_singleton.
    + by intros p q ->%Hall ->%Hall.
    + by intros p q ->%Hall ->%Hall.
    + intros p ->%Hall. by constructor; [|left|].
    + intros p ->%Hall. rewrite Hn. change (dpos_irreversible_blocknum (state_at (co_fork c) (co_head c)) <= block_num h0). by rewrite Hs.
    + exists (block_num h0). intros p ->%Hall. rewrite Hn. split; [lia|left; lia].
    + intros p Hh. rewrite Hb in Hh. by injection Hh as <-.
  - apply find_id_None. intros p ->%Hall E. by apply Hne.
Qed.

Lemma run_synced c : chain_run c -> exists Q, synced Q c.
Proof. induction 1 as [c Hs%starts_synced|b c c' r _ [Q IH] Hb E Hr]; [by eexists|by apply (push_synced Q b c c' r)]. Qed.

(** C6: Whatever blocks arrive, and however the switches between branches that they cause end, also when a block of the new branch fails and the old branch is
    carried out again: there is a chain of blocks from the start to the head, each signed header of which leads from the header state of the block before it to its
    own, and the database holds what carrying out these blocks in this order gives, each on the header state and the database of its predecessor; its revision is the
    number of the head, and while the predecessor of the head is in the fork database an undo gives the database of such a chain to the predecessor. *)
Theorem head_is_built c : chain_run c ->
  built (value (co_db c)) (state_at (co_fork c) (co_head c)) /\ revision (co_db c) = num_at (co_fork c) (co_head c) /\
  forall p, get_block (co_fork c) (prev_at (co_fork c) (co_head c)) = Some p ->
    built (value (undo (co_db c))) (state_at (co_fork c) p) /\ revision (undo (co_db c)) = num_at (co_fork c) p.
Proof.
  intros [Q Hrun]%run_synced. pose proof Hrun as [Hf [(j0 & Hz & Hl) Hr Hk] _]. split; [by eapply levels_built|]. split; [done|]. intros p Hp.
  assert (synced Q (pop_block c).1) as [_ [(j1 & _ & Hl1) Hr1 _] _].
  { destruct (pop_block c) as [c1 r] eqn:E. eapply (ks_pop Q c c1 r); [done|done|]. unfold ForkSwitch.pop_block, mbind, M_bind, get_state, lift in E. cbv zeta in E.
    change (bs_prev (head_state c)) with (prev_at (co_fork c) (co_head c)) in E. rewrite Hp in E. by injection E as _ <-. }
  unfold ForkSwitch.pop_block, mbind, M_bind, get_state, lift in Hl1, Hr1. cbv zeta in Hl1, Hr1.
  change (bs_prev (head_state c)) with (prev_at (co_fork c) (co_head c)) in Hl1, Hr1. rewrite Hp in Hl1, Hr1. split; [exact (levels_built _ _ _ _ _ Hl1)|exact Hr1].
Qed.

(** C7: When a block was pushed successfully the head of the chain is the very block that the fork database prefers, on whatever branch it is, and the database
    holds what carrying out a chain of blocks up to it gives, each on the header state and the database of its predecessor. *)
Theorem push_reaches_best b c c' : chain_run c -> acceptable c b -> push_block b c = (c', Ok tt) ->
  head (co_fork c') = Some (co_head c') /\ built (value (co_db c')) (state_at (co_fork c') (co_head c')).
Proof.
  intros [Q Hrun]%run_synced Hb E. destruct (push_synced Q b c c' (Ok tt)) as [[Q' [Hf [(j0 & _ & Hl%levels_built) _ Hk] _]] Hbest]; [done|done|done|done|].
  split; [|done]. destruct (Hbest eq_refl) as (p & Hp & Hid). rewrite Hp. f_equal. pose proof (fo_head _ Hf p Hp) as Hpi. destruct (kn_index _ _ Hk) as [Hin|Hno].
  - by apply (wf_unique _ (fo_wf _ Hf)).
  - rewrite find_id_None in Hno. by destruct (Hno p Hpi).
Qed.

End Follows.
