(* ===== verification/ForkSwitchRuns.v ===== *)
(** * The controller behind the interfaces, and a switch of branches

    [Controller.apply_block] as the way to carry out a block, a stack of values
    as the database, and a small chain that switches to a longer branch and,
    in another run, comes back from one whose block fails. *)

From Stdlib Require Import ZArith Lia Bool.
From stdpp Require Import base numbers gmap sets list.
From S2P Require Import Prelude Merkle BlockTime BlockHeader BlockHeaderProofs Authority Permissions NativeActions ResourceLimits ChainConfig.
From S2P Require Import Transaction Block ForkDatabase ForkDatabaseProofs ForkDatabaseRuns TransactionContext ApplyContext Controller ForkSwitch.
From S2P Require Import ForkSwitchProofs.

Open Scope Z_scope.

(** ** Blocks are carried out by the controller *)

Section Applier.
Context `{Cbrt} `{Crypto} `{MetaOrder} `{ActionData} `{TransactionData} `{Handlers}.
Context (conf : controller_config) (chain_id : digest) (mode : db_read_mode) (replay_head_time leeway : option Z).
Context (pack_signatures : list signature_type -> Z) (signed_id : packed_transaction -> digest)
  (pack_onerror : Z -> list Z -> list Z) (pack_block_header : block_header -> list Z)
  (hash_receipt : transaction_receipt -> digest) (hash_action_receipt : action_receipt -> digest).

Definition controller_applier : BlockApplier chain_state left_over (clock * (nat -> clock * clock)) := {|
  try_apply h light v u b st w :=
    let nd := mk_controller conf chain_id mode replay_head_time leeway light h in
    match Controller.apply_block nd pack_signatures signed_id pack_onerror pack_block_header hash_receipt hash_action_receipt v u.1 u.2 b st w.1 w.2 with
    | (l, Ok s) => (l, Ok (bs_chain s, pb_trxs (bs_pending s)))
    | (l, Err e) => (l, Err e)
    end;
  requeue ts u := (foldl (fun m t => <[signed_id (md_packed_trx t) := t]> m) u.1 ts, u.2)
|}.

End Applier.

(** ** A database that is a stack *)

Record stack (V : Type) := mk_stack { sk_value : V; sk_revision : Z; sk_undo : list (Z * V) }.
Arguments mk_stack {_}.
Arguments sk_value {_}.
Arguments sk_revision {_}.
Arguments sk_undo {_}.

#[export] Instance stack_database V : Database V (stack V) := {|
  value := sk_value;
  revision := sk_revision;
  push v s := mk_stack v (sk_revision s + 1) ((sk_revision s, sk_value s) :: sk_undo s);
  write v s := mk_stack v (sk_revision s) (sk_undo s);
  undo s := match sk_undo s with [] => s | (n, v) :: l => mk_stack v n l end;
  commit n s := mk_stack (sk_value s) (sk_revision s) (filter (fun x => n <= x.1) (sk_undo s))
|}.

#[export] Instance stack_laws V : DatabaseLaws V (stack V).
Proof.
  constructor; try done; simpl.
  - intros v db. by destruct db.
  - intros n v db Hn. rewrite filter_cons_True by done. done.
Qed.

(** ** Which blocks may arrive *)

Section Guards.
Context {V DB U W : Type} `{DatabaseLaws V DB} `{BlockApplier V U W} `{CryptoLaws} `{IndexOrderLaws}.
Context (v0 : V) (h0 : block_header_state).

(** The oldest state is below the head. *)
Lemma bottom_low Q (c : control DB U) j : synced v0 h0 Q c -> bottom v0 h0 c j -> num_from_id j < num_at (co_fork c) (co_head c).
Proof.
  intros [Hf Hh _] [_ Hl]. assert (num_from_id j <= num_from_id (prev_at (co_fork c) (co_head c))) as Hle.
  { clear Hh. induction Hl as [|db h k q v b h' Hl IH Hq Hst Hp Hn Hx Ha]; [done|]. subst k. pose proof (find_id_Some_1 _ _ _ Hq) as [Hqi Hqid]. pose proof (kn_own _ _ (fo_known _ Hf q Hqi)) as [O1 O2].
    unfold id_at, prev_at in *. rewrite <- Hqid, O1. lia. }
  pose proof (ob_num_prev _ (kn_own _ _ (ho_known _ _ _ _ _ Hh))) as O. unfold num_at, prev_at in *. lia.
Qed.

(** A test that is enough. *)
Definition may_arrive (c : control DB U) (b : signed_block) : bool :=
  let d := co_fork c in
  forallb (fun p =>
    (0 <=? bs_num (at_ (store d) p)) && (bs_num (at_ (store d) p) + 1 <? 2 ^ 32) &&
    match block_state_of (bs_header_state (at_ (store d) p)) b false with
    | Ok s => (bs_dpos s <=? bs_num s) && negb (bool_decide (bs_id s = bs_id (head_state c))) && (bs_num (head_state c) <=? num_from_id (bs_id s))
    | Err _ => true
    end) (index d).

Lemma may_arrive_acceptable Q (c : control DB U) b : synced v0 h0 Q c -> may_arrive c b = true -> acceptable v0 h0 c b.
Proof.
  intros Hc Hm. unfold may_arrive in Hm. rewrite forallb_forall in Hm. constructor.
  - intros p Hp. apply list_elem_of_In, Hm in Hp. apply andb_true_iff in Hp as [[H1' H2']%andb_true_iff _]. apply Z.leb_le in H1'. apply Z.ltb_lt in H2'. done.
  - intros p s Hp Hs. apply list_elem_of_In, Hm in Hp. apply andb_true_iff in Hp as [_ Hp]. rewrite Hs in Hp. apply andb_true_iff in Hp as [[Hd _]%andb_true_iff _]. by apply Z.leb_le in Hd.
  - intros p s Hp Hs. apply list_elem_of_In, Hm in Hp. apply andb_true_iff in Hp as [_ Hp]. rewrite Hs in Hp. apply andb_true_iff in Hp as [[_ Hi]%andb_true_iff Hn].
    apply negb_true_iff, bool_decide_eq_false in Hi. apply Z.leb_le in Hn. split; [exact Hi|]. intros Hb. apply (bottom_low Q) in Hb; [|done]. unfold num_at, head_state in *. lia.
Qed.

End Guards.

(** ** A switch of branches *)

Module SwitchDemo.
Import BlockHeaderProofs.Concrete ForkDatabaseRuns.Stable.

(** Carrying out a block notes its slot; a block of slot 144 fails. *)
#[local] Instance noting : BlockApplier (list Z) unit unit := {|
  try_apply h light v u b st w :=
    let t := timestamp (sbh_header (sb_header b)) in if t =? 144 then (u, Err block_validate_exception) else (u, Ok (t :: v, []));
  requeue ts u := u
|}.

Definition node_config : controller_config := mk_node [] [] [] [] [] [] [] [] false false false false.
Notation push := (push_block (DB := stack (list Z)) (fun _ : nat => tt) node_config [] true false).

(** The chain starts at block 9. *)
Definition block9 : block_state := mk_block_state state9 (mk_block (header state9) [] []) true true [].
Definition start : control (stack (list Z)) unit :=
  mk_control (mk_fork_database {[ 0%nat := block9 ]} 1%nat [0%nat] (Some 0%nat) []) 0%nat (mk_stack [] 9 []) ∅ tt false 0%nat.

(** The block of slot [t] on top of [s]. *)
Definition child (s : block_header_state) (t : Z) : signed_block :=
  match generate_next s t with
  | Ok g => mk_block (mk_signed_header (sbh_header (header g)) (block_signing_key g)) [] []
  | Err _ => mk_block (header s) [] []
  end.
Definition state_on (s : block_header_state) (b : signed_block) : block_header_state :=
  match next s (sb_header b) false with Ok s => s | Err _ => s end.

Definition left10 : signed_block := child state9 96.
Definition right10 : signed_block := child state9 120.
Definition right11 : signed_block := child (state_on state9 right10) 132.
Definition bad11 : signed_block := child (state_on state9 right10) 144.

Definition c1 : control (stack (list Z)) unit := (push left10 start).1.
Definition c2 : control (stack (list Z)) unit := (push right10 c1).1.
Definition c3 : control (stack (list Z)) unit := (push right11 c2).1.
Definition c4 : control (stack (list Z)) unit := (push bad11 c2).1.

(** The right branch is longer once its second block is there; the block that
    fails brings the left branch back. *)
Example switched : co_db c3 = mk_stack [132; 120] 11 [(10, [120]); (9, [])] /\ (push bad11 c2).2 = Err block_validate_exception /\ co_db c4 = co_db c2.
Proof. vm_compute. repeat split. Qed.

Notation run := (chain_run (fun _ : nat => tt) node_config [] true false [] state9).

Lemma start_run : run start.
Proof. apply run_start, single_starts; try reflexivity; [simpl; lia|constructor; vm_compute; reflexivity|by vm_compute]. Qed.

Lemma push_run b c : run c -> may_arrive c b = true -> settled (push b c).2 -> run (push b c).1.
Proof.
  intros Hc Hb Hr. eapply run_push; [exact Hc| |apply surjective_pairing|exact Hr]. apply run_synced in Hc as [Q Hc]. by eapply may_arrive_acceptable.
Qed.

Lemma c2_run : run c2.
Proof. do 2 (apply push_run; [|vm_compute; reflexivity|vm_compute; exact I]). apply start_run. Qed.

(** The database of a chain tells the slots of its blocks; that of the other branch
    is not one of a chain to the left block. *)
Lemma next_timestamp s h b s' : next s h b = Ok s' -> timestamp (sbh_header (header s')) = timestamp (sbh_header h).
Proof.
  intros E. assert (negb (timestamp (sbh_header h) =? 0) = true) as Hz by (unfold next in E; apply bind_Ok in E as ([] & Hz & _); by apply assert_Ok in Hz).
  apply next_parts in E as (g & p & prom & r & _ & Hg & Hp & Hr & -> & _). cbn [header with_header sbh_header timestamp].
  assert (timestamp (sbh_header (header g)) = timestamp (sbh_header h)) as <-.
  { unfold generate_next in Hg. rewrite Hz in Hg. apply bind_Ok in Hg as (t & Ht & Hg). inv_ok. destruct x0 as [x0 y0]. by inv_ok. }
  assert (timestamp (sbh_header (header p)) = timestamp (sbh_header (header g))) as <-.
  { transitivity (timestamp (sbh_header (header (set_confirmed g (confirmed (sbh_header h)))))).
    - unfold maybe_promote_pending in Hp. by destruct (_ && _); injection Hp as <- _.
    - unfold set_confirmed. destruct (set_confirmed_loop _ _ _) as [cc [i|]]; done. }
  destruct Hr as [[_ ->]|(ps & _ & _ & Hr)]; [done|]. unfold set_new_producers in Hr. by inv_ok.
Qed.

Lemma built_slots v h : built [] state9 v h -> h = state9 /\ v = [] \/ exists v', v = timestamp (sbh_header (header h)) :: v'.
Proof.
  destruct 1 as [|v h b v' h' _ Hx%next_timestamp (light & u & st & w & u' & ts & E)]; [by left|]. right. rewrite Hx. cbn [try_apply noting] in E. cbv zeta in E.
  destruct (_ =? _); [done|]. injection E as _ <- _. by eexists.
Qed.

Example other_branch_not_built : ~ built [] state9 [120] (state_on state9 left10).
Proof. intros [[_ ?]|(v & Hv)]%built_slots; [done|]. by vm_compute in Hv. Qed.

(** The left branch again, after the right one failed: its database is that of
    the block of slot 96, and an undo leads to the start. *)
Lemma head_is_built_witness : built [] state9 [96] (state_on state9 left10) /\ built [] state9 [] state9.
Proof.
  destruct (head_is_built (fun _ : nat => tt) node_config [] true false [] state9 c4) as (Hb & _ & Hu).
  - apply push_run; [exact c2_run|vm_compute; reflexivity|vm_compute; reflexivity].
  - split; [replace [96] with (value (co_db c4)) by (vm_compute; reflexivity); replace (state_on state9 left10) with (state_at (co_fork c4) (co_head c4)) by (vm_compute; reflexivity); exact Hb|].
    destruct (Hu 0%nat) as [H1 _]; [vm_compute; reflexivity|].
    replace [] with (value (undo (co_db c4))) at 2 by (vm_compute; reflexivity). replace state9 with (state_at (co_fork c4) 0%nat) at 2 by (vm_compute; reflexivity). exact H1.
Defined.

(** After the switch the head is the block of slot 132 on that of slot 120. *)
Lemma push_reaches_best_witness : head (co_fork c3) = Some (co_head c3) /\ built [] state9 [132; 120] (state_on (state_on state9 right10) right11).
Proof.
  destruct (push_reaches_best (fun _ : nat => tt) node_config [] true false [] state9 right11 c2 c3) as [Hp Hb].
  - exact c2_run.
  - destruct (run_synced _ _ _ _ _ _ _ _ c2_run) as [Q HQ]. apply (may_arrive_acceptable _ _ Q); [exact HQ|vm_compute; reflexivity].
  - vm_compute. reflexivity.
  - split; [exact Hp|]. replace [132; 120] with (value (co_db c3)) by (vm_compute; reflexivity).
    replace (state_on (state_on state9 right10) right11) with (state_at (co_fork c3) (co_head c3)) by (vm_compute; reflexivity). exact Hb.
Defined.

End SwitchDemo.
