(* ===== verification/BlockLog.v ===== *)
(** * The block log

    [block_log.cpp] and the part of [on_irreversible] of [controller.cpp] that
    writes to it. The log is two files: the blocks, each followed by the position it
    starts at, behind a header of version, first block number, genesis state and a
    separator; and an index of the positions. The files are byte lists in the state;
    streams are opened either for reading or for appending, as the flags
    [block_write] and [index_write] say, and throw when they are used the other way
    or behind the end. Positions to read from are set before every read and are
    arguments here. (A stream that has thrown keeps its error flag in C++; a log
    whose files are as the operations left them never makes one throw.)

    [LogCodecs] is the packing of blocks and of the genesis state by [fc];
    [quiet_block] and [quiet_genesis] are unpacking from a stream that does not
    throw, which [repair_log] uses: such a stream becomes useless ([None]) after a
    failed read. Directories, the copying of the old files to a backup, and log
    messages are left out. *)

From Stdlib Require Import ZArith Lia Bool.
From stdpp Require Import base numbers list.
From S2P Require Import Prelude Merkle BlockHeader Transaction Block Datastream.

Open Scope Z_scope.

(** ** State *)

Record block_log_impl := mk_log {
  bl_head : option signed_block;
  bl_head_id : digest;
  block_file : buffer;
  index_file : buffer;
  block_write : bool;
  index_write : bool;
  genesis_written_to_block_log : bool;
  bl_version : Z;
  first_block_num : Z
}.

(** A new object, with the files that are on disk. *)
Definition new_log (blocks index : buffer) : block_log_impl := mk_log None zero_digest blocks index true true false 0 0.

Definition npos : Z := UINT64_MAX.
Definition min_supported_version : Z := 1.
Definition max_supported_version : Z := 2.

Definition set_head (s : block_log_impl) h i := mk_log h i (block_file s) (index_file s) (block_write s) (index_write s) (genesis_written_to_block_log s) (bl_version s) (first_block_num s).
Definition set_block_file (s : block_log_impl) f w := mk_log (bl_head s) (bl_head_id s) f (index_file s) w (index_write s) (genesis_written_to_block_log s) (bl_version s) (first_block_num s).
Definition set_index_file (s : block_log_impl) f w := mk_log (bl_head s) (bl_head_id s) (block_file s) f (block_write s) w (genesis_written_to_block_log s) (bl_version s) (first_block_num s).
Definition set_header (s : block_log_impl) g v n := mk_log (bl_head s) (bl_head_id s) (block_file s) (index_file s) (block_write s) (index_write s) g v n.

Definition size (f : buffer) : Z := Z.of_nat (length f).

(** ** Streams *)

Notation L := (M block_log_impl).

Definition modify (f : block_log_impl -> block_log_impl) : L unit := s ← get_state; put_state (f s).

(** The file is opened again when it was open for the other use. *)
Definition check_block_read : L unit := modify (fun s => set_block_file s (block_file s) false).
Definition check_block_write : L unit := modify (fun s => set_block_file s (block_file s) true).
Definition check_index_read : L unit := modify (fun s => set_index_file s (index_file s) false).
Definition check_index_write : L unit := modify (fun s => set_index_file s (index_file s) true).

(** Reading a number of [n] bytes; [seekg] to a negative position fails. *)
Definition read_le (n : nat) (pos : Z) (file : buffer) : result Z :=
  SNAX_ASSERT ((0 <=? pos) && (pos + Z.of_nat n <=? size file)) std_ios_failure;;
  mret (le_value (take n (drop (Z.to_nat pos) file))).

(** The value and the position behind it. *)
Definition unpack_at {A} (c : codec A) (pos : Z) (file : buffer) : result (A * Z) :=
  SNAX_ASSERT ((0 <=? pos) && (pos <? 2 ^ 63)) std_ios_failure;;
  '(x, rest) ← cd_get c (drop (Z.to_nat pos) file);
  mret (x, size file - size rest).

Definition from_block {A} (f : buffer -> result A) : L A :=
  s ← get_state; M_ASSERT (negb (block_write s)) std_ios_failure;; lift (f (block_file s)).
Definition from_index {A} (f : buffer -> result A) : L A :=
  s ← get_state; M_ASSERT (negb (index_write s)) std_ios_failure;; lift (f (index_file s)).

(** Streams for writing append. *)
Definition to_block (data : buffer) : L unit :=
  s ← get_state; M_ASSERT (block_write s) std_ios_failure;; put_state (set_block_file s (block_file s ++ data) true).
Definition to_index (data : buffer) : L unit :=
  s ← get_state; M_ASSERT (index_write s) std_ios_failure;; put_state (set_index_file s (index_file s ++ data) true).

(** What unpacking from a stream that does not throw can do. *)
Inductive unpacked (A : Type) :=
| read_value (x : A) (rest : option buffer)
| unpack_threw (e : exn) (rest : option buffer).
Arguments read_value {A} _ _.
Arguments unpack_threw {A} _ _.

Class LogCodecs (G : Type) := {
  block_codec : codec signed_block;
  genesis_codec : codec G;
  quiet_block : option buffer -> unpacked signed_block;
  quiet_genesis : option buffer -> unpacked G
}.

(** [read] on such a stream: what there is replaces the first bytes of the variable. *)
Definition quiet_read (n : nat) (old : Z) (st : option buffer) : Z * option buffer :=
  match st with
  | None => (old, None)
  | Some ds =>
      if (n <=? length ds)%nat then (le_value (take n ds), Some (drop n ds))
      else (le_value (ds ++ drop (length ds) (le_put n old)), None)
  end.

Section Log.
Context `{Crypto} {G : Type} `{!LogCodecs G}.

Definition sb_block_num (b : signed_block) : Z := header_block_num (sbh_header (sb_header b)).
Definition sb_id (b : signed_block) : digest := header_id (sbh_header (sb_header b)).
Definition sb_previous (b : signed_block) : digest := previous (sbh_header (sb_header b)).

(** ** Reading *)

Definition read_block (pos : Z) : L (signed_block * Z) :=
  check_block_read;;
  '(b, at_) ← from_block (unpack_at block_codec pos);
  mret (b, u64 (at_ + 8)).

Definition get_block_pos (block_num : Z) : L Z :=
  check_index_read;;
  s ← get_state;
  if negb (bool_decide (is_Some (bl_head s)) && (block_num <=? num_from_id (bl_head_id s)) && (first_block_num s <=? block_num))
  then mret npos
  else from_index (read_le 8 (8 * u32 (block_num - first_block_num s))).

Definition read_block_by_num (block_num : Z) : L (option signed_block) :=
  pos ← get_block_pos block_num;
  if negb (pos =? npos) then
    '(b, _) ← read_block pos;
    M_ASSERT (sb_block_num b =? block_num) reversible_blocks_exception;;
    mret (Some b)
  else mret None.

Definition read_block_by_id (i : digest) : L (option signed_block) := read_block_by_num (num_from_id i).

Definition read_head : L (option signed_block) :=
  check_block_read;;
  s ← get_state;
  if size (block_file s) <=? 8 then mret None
  else
    pos ← from_block (read_le 8 (size (block_file s) - 8));
    if negb (pos =? npos) then '(b, _) ← read_block pos; mret (Some b) else mret None.

(** ** Writing *)

Definition append (b : signed_block) : L Z :=
  s ← get_state;
  M_ASSERT (genesis_written_to_block_log s) block_log_append_fail;;
  check_block_write;;
  check_index_write;;
  s ← get_state;
  let pos := size (block_file s) in
  M_ASSERT (size (index_file s) =? 8 * u32 (sb_block_num b - first_block_num s)) block_log_append_fail;;
  to_block (cd_put block_codec b);;
  to_block (le_put 8 pos);;
  to_index (le_put 8 pos);;
  modify (fun s => set_head s (Some b) (sb_id b));;
  mret pos.

(** The version is written last, over the zero at the start of the file. *)
Definition reset (gs : G) (first_block : option signed_block) (first : Z) : L unit :=
  modify (fun s => set_index_file (set_block_file s [] true) [] true);;
  modify (fun s => set_header s (genesis_written_to_block_log s) 0 first);;
  to_block (le_put 4 0);;
  to_block (le_put 4 first);;
  to_block (cd_put genesis_codec gs);;
  modify (fun s => set_header s true (bl_version s) (first_block_num s));;
  to_block (le_put 8 npos);;
  match first_block with Some b => append b;; mret tt | None => mret tt end;;
  modify (fun s => set_header s (genesis_written_to_block_log s) max_supported_version (first_block_num s));;
  modify (fun s => set_block_file s (le_put 4 max_supported_version ++ drop 4 (block_file s)) false);;
  check_block_write.

(** ** Opening *)

(** Each turn reads a block and its position, so that it ends at the latest with
    the file. *)
Fixpoint construct_loop (fuel : nat) (at_ pos end_pos : Z) : L unit :=
  if pos <? end_pos then
    match fuel with
    | O => throw out_of_fuel
    | S fuel =>
        '(_, at_) ← from_block (unpack_at block_codec at_);
        pos ← from_block (read_le 8 at_);
        to_index (le_put 8 pos);;
        construct_loop fuel (at_ + 8) pos end_pos
    end
  else mret tt.

Definition construct_index : L unit :=
  modify (fun s => set_index_file s [] true);;
  check_block_read;;
  s ← get_state;
  end_pos ← from_block (read_le 8 (size (block_file s) - 8));
  let pos := if bl_version s =? 1 then 4 else 8 in
  '(_, at_) ← from_block (unpack_at genesis_codec pos);
  at_ ← (if 1 <? bl_version s then from_block (read_le 8 at_);; mret (at_ + 8) else mret at_);
  construct_loop (S (length (block_file s))) at_ pos end_pos.

(** The version and the first block number of a log. *)
Definition read_version : L (Z * Z) :=
  version ← from_block (read_le 4 0);
  M_ASSERT (0 <? version) block_log_exception;;
  M_ASSERT ((min_supported_version <=? version) && (version <=? max_supported_version)) block_log_unsupported_version;;
  first ← (if 1 <? version then
             first ← from_block (read_le 4 4);
             M_ASSERT (0 <? first) block_log_exception;; mret first
           else mret 1);
  mret (version, first).

(** Only the last entry of the index is looked at. *)
Definition check_heads (log_size index_size : Z) : L unit :=
  if negb (index_size =? 0) then
    check_block_read;;
    check_index_read;;
    block_pos ← from_block (read_le 8 (log_size - 8));
    index_pos ← from_index (read_le 8 (index_size - 8));
    if block_pos <? index_pos then construct_index
    else if index_pos <? block_pos then construct_index
    else mret tt
  else construct_index.

(** [my->head->id()] of a log without blocks dereferences a null pointer. *)
Definition open : L unit :=
  modify (fun s => set_index_file (set_block_file s (block_file s) true) (index_file s) true);;
  s ← get_state;
  let log_size := size (block_file s) in
  let index_size := size (index_file s) in
  if negb (log_size =? 0) then
    check_block_read;;
    '(version, first) ← read_version;
    modify (fun s => set_header s true version first);;
    h ← read_head;
    b ← lift (of_option undefined_behavior h);
    modify (fun s => set_head s (Some b) (sb_id b));;
    check_heads log_size index_size
  else if negb (index_size =? 0) then modify (fun s => set_index_file s [] true)
  else mret tt.

(** The constructor. *)
Definition block_log (blocks index : buffer) : block_log_impl * result unit := open (new_log blocks index).

(** ** What the controller does with a block that becomes irreversible *)

Definition must_append (s_block_num : Z) (s_block : option signed_block) : L bool :=
  s ← get_state;
  (if negb (bool_decide (is_Some (bl_head s))) then read_head;; mret tt else mret tt);;
  s ← get_state;
  match bl_head s with
  | None =>
      match s_block with
      | Some _ => M_ASSERT (s_block_num =? first_block_num s) block_log_exception;; mret true
      | None => M_ASSERT (s_block_num =? u32 (first_block_num s - 1)) block_log_exception;; mret false
      end
  | Some log_head =>
      let lh_block_num := sb_block_num log_head in
      if lh_block_num <? s_block_num then
        M_ASSERT (u32 (s_block_num - 1) =? lh_block_num) unlinkable_block_exception;;
        b ← lift (of_option undefined_behavior s_block);
        M_ASSERT (bool_decide (sb_previous b = sb_id log_head)) unlinkable_block_exception;;
        mret true
      else mret false
  end.

(** [db.commit] comes between the test and the write and is not part of the log. *)
Definition log_irreversible (s_block_num : Z) (s_block : option signed_block) : L unit :=
  append_to_blog ← must_append s_block_num s_block;
  if (append_to_blog : bool) then
    b ← lift (of_option undefined_behavior s_block);
    append b;; mret tt
  else mret tt.

(** ** Repair *)

Definition quiet_tellg (old : buffer) (st : option buffer) : Z :=
  match st with Some ds => size old - size ds | None => UINT64_MAX end.

(** The version and the first block number with what is left of the stream. *)
Definition quiet_version (old : buffer) : result (Z * Z * option buffer) :=
  let '(version, st) := quiet_read 4 0 (Some old) in
  SNAX_ASSERT (0 <? version) block_log_exception;;
  SNAX_ASSERT ((min_supported_version <=? version) && (version <=? max_supported_version)) block_log_unsupported_version;;
  let '(first, st) := if version =? 1 then (1, st) else quiet_read 4 1 st in
  mret (version, first, st).

Definition quiet_genesis_state (st : option buffer) : result (G * option buffer) :=
  match quiet_genesis st with read_value gs rest => mret (gs, rest) | unpack_threw e _ => Err e end.

(** The header of the new file, and the stream behind the header of the old one.
    The separator is compared even when it could not be read. *)
Definition repair_header (old : buffer) : result (buffer * option buffer) :=
  '(version, first, st) ← quiet_version old;
  let new := le_put 4 version ++ (if version =? 1 then [] else le_put 4 first) in
  '(gs, st) ← quiet_genesis_state st;
  let new := new ++ cd_put genesis_codec gs in
  if version =? 1 then mret (new, st)
  else
    ds ← of_option undefined_behavior st;
    SNAX_ASSERT (8 <=? length ds)%nat undefined_behavior;;
    let '(actual_totem, st) := quiet_read 8 0 (Some ds) in
    SNAX_ASSERT (actual_totem =? npos) block_log_exception;;
    mret (new ++ le_put 8 actual_totem, st).

Inductive repair_outcome :=
| all_recovered
| bad_block (b : signed_block)
| undeserialized (incomplete_block_data : buffer)
| truncated.

(** [resize] fills with zeros what cannot be read. *)
Definition quiet_fill (n : Z) (st : option buffer) : buffer :=
  let ds := take (Z.to_nat n) (default [] st) in ds ++ replicate (Z.to_nat n - length ds) 0.

(** A turn that does not end the loop makes the new file longer. *)
Fixpoint repair_loop (fuel : nat) (old : buffer) (st : option buffer) (new : buffer) (pos : Z) (truncate_at_block : Z)
    : result (buffer * repair_outcome) :=
  if pos <? size old then
    match fuel with
    | O => Err out_of_fuel
    | S fuel =>
        match quiet_block st with
        | unpack_threw _ st => mret (new, undeserialized (quiet_fill (size old - pos) st))
        | read_value tmp st =>
            let '(tmp_pos, st) := if u64 (quiet_tellg old st + 8) <=? size old then quiet_read 8 UINT64_MAX st else (UINT64_MAX, st) in
            if negb (pos =? tmp_pos) then mret (new, bad_block tmp)
            else
              let new := new ++ cd_put block_codec tmp ++ le_put 8 pos in
              if sb_block_num tmp =? truncate_at_block then mret (new, truncated)
              else repair_loop fuel old st new (size new) truncate_at_block
        end
    end
  else mret (new, all_recovered).

Definition repair_log (old : buffer) (truncate_at_block : Z) : result (buffer * repair_outcome) :=
  '(new, st) ← repair_header old;
  repair_loop (S (length old)) old st new (quiet_tellg old st) truncate_at_block.

Definition extract_genesis_state (old : buffer) : result G :=
  '(_, _, st) ← quiet_version old;
  '(gs, _) ← quiet_genesis_state st;
  mret gs.

End Log.
