(* ===== verification/BlockLogProofs.v ===== *)
(** * The block log: what it keeps

    The log refines a list of blocks: [log_ok] says what the two files, the head and
    the flags are for a list of consecutively numbered blocks, every operation of
    the controller on the log behaves as on that list ([log_refines]), opening the
    files again gives the same log whatever became of the index ([log_reopens]), and
    [repair_log] keeps every block that was written completely ([repair_recovers]). *)

From Stdlib Require Import ZArith Lia Bool.
From stdpp Require Import base numbers list.
From S2P Require Import Prelude Merkle BlockHeader BlockHeaderProofs Transaction Block Datastream BlockLog.

Open Scope Z_scope.

(** What the packing of [fc] promises: values are read back, reading goes forward,
    and a stream that need not throw reads the same. *)
Class LogLaws (G : Type) `{LogCodecs G} (valid : signed_block -> Prop) (valid_genesis : G -> Prop) : Prop := {
  block_roundtrip : RoundTrip block_codec valid;
  genesis_roundtrip : RoundTrip genesis_codec valid_genesis;
  genesis_not_empty g : valid_genesis g -> 0 < size (cd_put genesis_codec g);
  quiet_block_reads ds b rest : cd_get block_codec ds = Ok (b, rest) -> quiet_block (Some ds) = read_value b (Some rest);
  quiet_genesis_reads ds g rest : cd_get genesis_codec ds = Ok (g, rest) -> quiet_genesis (Some ds) = read_value g (Some rest)
}.
#[export] Existing Instances block_roundtrip genesis_roundtrip.

(** ** Files *)

Lemma size_app l l' : size (l ++ l') = size l + size l'.
Proof. unfold size. rewrite length_app. lia. Qed.
Lemma size_le n v : size (le_put n v) = Z.of_nat n.
Proof. unfold size. by rewrite length_le_put. Qed.
Lemma size_nonneg l : 0 <= size l.
Proof. unfold size. lia. Qed.
Lemma size_nil : size [] = 0.
Proof. done. Qed.
#[export] Hint Rewrite size_app size_le size_nil : block_log.

(** [sizes] solves goals about the sizes of files. *)
Ltac sizes := autorewrite with block_log in *; repeat match goal with |- context [size ?l] => unless (0 <= size l) by assumption; pose proof (size_nonneg l) end; simpl Z.of_nat in *; lia.

Lemma drop_size (pre post : buffer) : drop (Z.to_nat (size pre)) (pre ++ post) = post.
Proof. unfold size. by rewrite Nat2Z.id, drop_app_length. Qed.

Lemma read_le_app n pre v post : 0 <= v < 2 ^ (8 * Z.of_nat n) -> read_le n (size pre) (pre ++ le_put n v ++ post) = Ok v.
Proof.
  intros Hv. unfold read_le. rewrite !size_app, size_le. pose proof (size_nonneg pre). pose proof (size_nonneg post).
  rewrite (proj2 (Z.leb_le 0 _)), (proj2 (Z.leb_le (size pre + Z.of_nat n) _)) by lia. cbn [andb SNAX_ASSERT mbind result_bind]. rewrite drop_size.
  rewrite take_app_length' by (symmetry; apply length_le_put). by rewrite le_value_put.
Qed.

Lemma read_le_at n pos file pre v post :
  0 <= v < 2 ^ (8 * Z.of_nat n) -> file = pre ++ le_put n v ++ post -> pos = size pre -> read_le n pos file = Ok v.
Proof. intros Hv -> ->. by apply read_le_app. Qed.

Lemma unpack_at_app {A} (c : codec A) valid pos file pre x post `{!RoundTrip c valid} :
  valid x -> file = pre ++ cd_put c x ++ post -> pos = size pre -> size pre < 2 ^ 63 ->
  unpack_at c pos file = Ok (x, size pre + size (cd_put c x)).
Proof.
  intros Hx -> -> Hs. unfold unpack_at. pose proof (size_nonneg pre). rewrite (proj2 (Z.leb_le 0 _)), (proj2 (Z.ltb_lt _ _)) by lia.
  cbn [andb SNAX_ASSERT mbind result_bind]. rewrite drop_size, (get_put (c := c)) by done. cbn [mbind result_bind]. do 2 f_equal. sizes.
Qed.

(** *** Steps of the operations *)

Lemma assert_eval {S} (c : bool) e (s : S) : c = true -> M_ASSERT c e s = (s, Ok tt).
Proof. by intros ->. Qed.
Lemma assert_fails {S} (c : bool) e (s : S) : c = false -> M_ASSERT c e s = (s, Err e).
Proof. by intros ->. Qed.
Lemma modify_eval f s : modify f s = (f s, Ok tt).
Proof. done. Qed.
Lemma get_eval {S} (s : S) : get_state s = (s, Ok s).
Proof. done. Qed.
Lemma from_block_eval {A} (f : buffer -> result A) s x : block_write s = false -> f (block_file s) = Ok x -> from_block f s = (s, Ok x).
Proof. intros E1 E2. unfold from_block. erewrite bind_run by done. rewrite E1. simpl. unfold lift. by rewrite E2. Qed.
Lemma from_index_eval {A} (f : buffer -> result A) s x : index_write s = false -> f (index_file s) = Ok x -> from_index f s = (s, Ok x).
Proof. intros E1 E2. unfold from_index. erewrite bind_run by done. rewrite E1. simpl. unfold lift. by rewrite E2. Qed.
Lemma to_block_eval data s : block_write s = true -> to_block data s = (set_block_file s (block_file s ++ data) true, Ok tt).
Proof. intros E. unfold to_block. erewrite bind_run by done. by rewrite E. Qed.
Lemma to_index_eval data s : index_write s = true -> to_index data s = (set_index_file s (index_file s ++ data) true, Ok tt).
Proof. intros E. unfold to_index. erewrite bind_run by done. by rewrite E. Qed.

(** [step E] runs the first operation of a sequence by the equation [E]. *)
Tactic Notation "step" uconstr(E) := erewrite bind_run by (first [eapply E | reflexivity]); cbv beta.
Ltac steps := repeat (erewrite bind_run by reflexivity; cbv beta).

(** ** The layout of the files *)

Section Layout.
Context {G : Type} `{!LogCodecs G}.

(** The blocks of a file from position [off] on. *)
Fixpoint entries (off : Z) (bs : list signed_block) : buffer :=
  match bs with
  | [] => []
  | b :: bs => (cd_put block_codec b ++ le_put 8 off) ++ entries (off + size (cd_put block_codec b) + 8) bs
  end.
Fixpoint positions (off : Z) (bs : list signed_block) : list Z :=
  match bs with [] => [] | b :: bs => off :: positions (off + size (cd_put block_codec b) + 8) bs end.
Definition index_of (ps : list Z) : buffer := mjoin (le_put 8 <$> ps).

Definition log_header (version first : Z) (gs : G) : buffer :=
  le_put 4 version ++ (if version =? 1 then [] else le_put 4 first) ++ cd_put genesis_codec gs ++ (if version =? 1 then [] else le_put 8 npos).

Lemma entries_app off bs bs' : entries off (bs ++ bs') = entries off bs ++ entries (off + size (entries off bs)) bs'.
Proof.
  revert off. induction bs as [|b bs IH]; intros off; cbn [entries app]; [by rewrite size_nil, Z.add_0_r|].
  rewrite IH, !app_assoc. do 2 f_equal. sizes.
Qed.
Lemma positions_app off bs bs' : positions off (bs ++ bs') = positions off bs ++ positions (off + size (entries off bs)) bs'.
Proof.
  revert off. induction bs as [|b bs IH]; intros off; cbn [entries positions app]; [by rewrite size_nil, Z.add_0_r|].
  rewrite IH. do 3 f_equal. sizes.
Qed.
Lemma positions_length off bs : length (positions off bs) = length bs.
Proof. revert off. induction bs as [|b bs IH]; intros off; simpl; [done|]. by rewrite IH. Qed.

Lemma size_index ps : size (index_of ps) = 8 * Z.of_nat (length ps).
Proof. induction ps as [|p ps IH]; [done|]. change (index_of (p :: ps)) with (le_put 8 p ++ index_of ps). cbn [length]. sizes. Qed.
Lemma index_app ps ps' : index_of (ps ++ ps') = index_of ps ++ index_of ps'.
Proof. unfold index_of. by rewrite fmap_app, join_app. Qed.
Lemma index_cons p ps : index_of (p :: ps) = le_put 8 p ++ index_of ps.
Proof. done. Qed.
Lemma index_single p : index_of [p] = le_put 8 p.
Proof. change (index_of [p]) with (le_put 8 p ++ []). by rewrite app_nil_r. Qed.

(** A block in the middle of the log. *)
Lemma entries_middle off bs b bs' :
  entries off (bs ++ b :: bs') =
    entries off bs ++ cd_put block_codec b ++ le_put 8 (off + size (entries off bs)) ++ entries (off + size (entries off (bs ++ [b]))) bs'.
Proof.
  rewrite (entries_app off bs (b :: bs')). cbn [entries]. rewrite <- !app_assoc. do 4 f_equal. rewrite entries_app. cbn [entries]. sizes.
Qed.
Lemma positions_middle off bs b bs' : positions off (bs ++ b :: bs') !! length bs = Some (off + size (entries off bs)).
Proof. rewrite positions_app, lookup_app_r, positions_length, Nat.sub_diag by (rewrite positions_length; lia). done. Qed.

Lemma entry_before off bs b bs' : off + size (entries off bs) + 8 <= off + size (entries off (bs ++ b :: bs')).
Proof. rewrite entries_middle. sizes. Qed.

End Layout.

(** ** The log of a list of blocks *)

Section Ops.
Context `{CryptoLaws} {G : Type} `{!LogCodecs G} {valid : signed_block -> Prop} {valid_genesis : G -> Prop} `{!LogLaws G valid valid_genesis}.
Context (v first : Z) (gs : G).

Notation start := (size (log_header v first gs)).

Record log_wf (bs : list signed_block) : Prop := {
  wf_version : v = 1 /\ first = 1 /\ bs <> [] \/ v = 2;
  wf_first : 0 < first;
  wf_last : first + Z.of_nat (length bs) <= 2 ^ 32;
  wf_genesis : valid_genesis gs;
  wf_blocks : Forall valid bs;
  wf_numbers : sb_block_num <$> bs = seqZ first (Z.of_nat (length bs));
  wf_size : start + size (entries start bs) < 2 ^ 63
}.

Record log_ok (bs : list signed_block) (s : block_log_impl) : Prop := {
  ok_wf : log_wf bs;
  ok_blocks : block_file s = log_header v first gs ++ entries start bs;
  ok_index : index_file s = index_of (positions start bs);
  ok_written : genesis_written_to_block_log s = true;
  ok_version : bl_version s = v;
  ok_first : first_block_num s = first;
  ok_head : bl_head s = last bs;
  ok_head_id b : last bs = Some b -> bl_head_id s = sb_id b
}.

(** What reading of blocks depends on. *)
Definition blocks_ok (bs : list signed_block) (s : block_log_impl) : Prop := log_wf bs /\ block_file s = log_header v first gs ++ entries start bs.
Lemma log_blocks_ok bs s : log_ok bs s -> blocks_ok bs s.
Proof. by intros []. Qed.
#[local] Hint Resolve log_blocks_ok : block_log.

Lemma log_ok_block_write bs s w : log_ok bs s -> log_ok bs (set_block_file s (block_file s) w).
Proof. intros []. by constructor. Qed.
Lemma log_ok_index_write bs s w : log_ok bs s -> log_ok bs (set_index_file s (index_file s) w).
Proof. intros []. by constructor. Qed.
#[local] Hint Resolve log_ok_block_write log_ok_index_write : block_log.

Lemma wf_number bs b bs' : log_wf (bs ++ b :: bs') -> sb_block_num b = first + Z.of_nat (length bs).
Proof.
  intros W. pose proof (wf_numbers _ W) as Hn. apply (f_equal (fun l => l !! length bs)) in Hn.
  rewrite list_lookup_fmap, lookup_app_r, Nat.sub_diag in Hn by lia. rewrite lookup_seqZ_lt in Hn by (rewrite length_app; simpl; lia). simpl in Hn. congruence.
Qed.

Lemma start_ge_8 : v = 2 -> 16 <= start.
Proof. intros ->. unfold log_header. simpl (2 =? 1). sizes. Qed.

Lemma position_bound bs b bs' : log_wf (bs ++ b :: bs') -> 0 <= start + size (entries start bs) /\ start + size (entries start bs) < 2 ^ 63 - 8.
Proof. intros W. pose proof (wf_size _ W). pose proof (entry_before start bs b bs'). pose proof (size_nonneg (entries start bs)). pose proof (size_nonneg (log_header v first gs)). lia. Qed.

(** *** Reading *)

Lemma read_block_ok bs b bs' s : blocks_ok (bs ++ b :: bs') s ->
  exists next, read_block (start + size (entries start bs)) s = (set_block_file s (block_file s) false, Ok (b, next)).
Proof.
  intros [W Eb]. destruct (position_bound _ _ _ W) as [Hp Hq].
  pose proof (wf_blocks _ W) as Hv. apply Forall_app in Hv as [_ Hv]. apply Forall_inv in Hv.
  eexists. unfold read_block, check_block_read, modify, from_block. cbv [mbind M_bind get_state put_state mret M_ret lift]. cbn [block_write set_block_file negb M_ASSERT]. cbv [mret M_ret].
  rewrite (unpack_at_app block_codec valid _ _ (log_header v first gs ++ entries start bs) b (le_put 8 (start + size (entries start bs)) ++ entries (start + size (entries start (bs ++ [b]))) bs')).
  - reflexivity.
  - done.
  - cbn [block_file]. by rewrite Eb, entries_middle, <- app_assoc.
  - by rewrite size_app.
  - rewrite size_app. lia.
Qed.

(** Every block number between the first and the last has its position in the
    index. *)
Lemma get_block_pos_ok bs b bs' s : log_ok (bs ++ b :: bs') s ->
  get_block_pos (first + Z.of_nat (length bs)) s = (set_index_file s (index_file s) false, Ok (start + size (entries start bs))).
Proof.
  intros Hok. pose proof (ok_wf _ _ Hok) as W. pose proof (position_bound _ _ _ W) as Hp. pose proof (wf_last _ W) as Hl. pose proof (wf_first _ W) as Hf.
  assert (exists hd, last (bs ++ b :: bs') = Some hd /\ num_from_id (bl_head_id s) = first + Z.of_nat (length (bs ++ b :: bs')) - 1) as (hd & Hhd & Hn).
  { destruct (exists_last (l := b :: bs')) as (l & hd & E); [done|]. exists hd. rewrite E, app_assoc in *. rewrite last_snoc. split; [done|].
    rewrite (ok_head_id _ _ Hok hd) by apply last_snoc. unfold sb_id. rewrite num_from_id_of_id. fold (sb_block_num hd). rewrite (wf_number _ _ _ W), !length_app. simpl. lia. }
  unfold get_block_pos, check_index_read, modify, from_index. cbv [mbind M_bind get_state put_state]. cbn [bl_head bl_head_id first_block_num set_index_file index_file index_write negb M_ASSERT].
  rewrite (ok_head _ _ Hok), (ok_first _ _ Hok), Hhd, Hn. rewrite length_app in *. cbn [length] in *.
  rewrite (bool_decide_eq_true_2 (is_Some (Some hd))) by done.
  rewrite (proj2 (Z.leb_le (first + Z.of_nat (length bs)) _)), (proj2 (Z.leb_le first _)) by lia. cbn [andb negb]. cbv [mret M_ret lift].
  f_equal. replace (first + Z.of_nat (length bs) - first) with (Z.of_nat (length bs)) by lia. rewrite u32_small by (unfold is_u32; lia).
  apply (read_le_at _ _ _ (index_of (positions start bs)) _ (index_of (positions (start + size (entries start (bs ++ [b]))) bs'))).
  - change (8 * Z.of_nat 8) with 64. lia.
  - rewrite (ok_index _ _ Hok), <- index_single, <- !index_app. cbn [index_file set_index_file]. f_equal.
    rewrite (positions_app start bs (b :: bs')). cbn [positions app]. rewrite (entries_app start bs [b]). cbn [entries]. rewrite app_nil_r. do 3 f_equal. sizes.
  - by rewrite size_index, positions_length.
Qed.

Lemma get_block_pos_none bs s n : log_ok bs s -> n < first \/ first + Z.of_nat (length bs) <= n ->
  get_block_pos n s = (set_index_file s (index_file s) false, Ok npos).
Proof.
  intros Hok Hn. unfold get_block_pos, check_index_read, modify. cbv [mbind M_bind get_state put_state]. cbn [bl_head bl_head_id first_block_num set_index_file].
  rewrite (ok_head _ _ Hok), (ok_first _ _ Hok). destruct (last bs) as [b|] eqn:E; [|done].
  rewrite (ok_head_id _ _ Hok b E). unfold sb_id. rewrite num_from_id_of_id. fold (sb_block_num b).
  apply last_Some in E as [l ->]. rewrite (wf_number _ _ _ (ok_wf _ _ Hok)). rewrite length_app in Hn. simpl in Hn.
  destruct (Z.leb_spec n (first + Z.of_nat (length l))), (Z.leb_spec first n); try done. lia.
Qed.

(** The block with a number, from the list. *)
Definition block_at (bs : list signed_block) (n : Z) : option signed_block := if n <? first then None else bs !! Z.to_nat (n - first).

Lemma block_at_Some bs n b : block_at bs n = Some b -> exists l l', bs = l ++ b :: l' /\ n = first + Z.of_nat (length l).
Proof.
  unfold block_at. destruct (Z.ltb_spec n first); [done|]. intros E. exists (take (Z.to_nat (n - first)) bs), (drop (S (Z.to_nat (n - first))) bs).
  split; [by rewrite take_drop_middle|]. rewrite length_take. apply lookup_lt_Some in E. lia.
Qed.
Lemma block_at_None bs n : block_at bs n = None -> n < first \/ first + Z.of_nat (length bs) <= n.
Proof. unfold block_at. destruct (Z.ltb_spec n first); [by left|]. intros E. apply lookup_ge_None in E. lia. Qed.

Lemma read_block_by_num_ok bs s n : log_ok bs s ->
  exists s', read_block_by_num n s = (s', Ok (block_at bs n)) /\ log_ok bs s'.
Proof.
  intros Hok. unfold read_block_by_num. destruct (block_at bs n) as [b|] eqn:E.
  - apply block_at_Some in E as (l & l' & -> & ->). pose proof (get_block_pos_ok _ _ _ _ Hok) as E1.
    destruct (read_block_ok l b l' (set_index_file s (index_file s) false)) as [next E2]; [by auto with block_log|].
    cbv [mbind M_bind]. rewrite E1. pose proof (position_bound _ _ _ (ok_wf _ _ Hok)).
    rewrite (proj2 (Z.eqb_neq _ npos)) by (unfold npos, UINT64_MAX; lia). cbn [negb]. rewrite E2. rewrite (wf_number _ _ _ (ok_wf _ _ Hok)), Z.eqb_refl.
    eexists. split; [reflexivity|]. by auto with block_log.
  - pose proof (get_block_pos_none _ _ n Hok (block_at_None _ _ E)) as E1. cbv [mbind M_bind]. rewrite E1. rewrite Z.eqb_refl. cbn [negb].
    eexists. split; [reflexivity|]. by auto with block_log.
Qed.

Lemma file_ends bs : log_wf bs -> exists pre, log_header v first gs ++ entries start bs =
  pre ++ le_put 8 (match last bs with Some _ => start + size (entries start (removelast bs)) | None => npos end) /\ 0 < size pre.
Proof.
  intros W. destruct (last bs) as [b|] eqn:E.
  - apply last_Some in E as [l ->]. rewrite removelast_last. exists (log_header v first gs ++ entries start l ++ cd_put block_codec b).
    rewrite entries_middle. cbn [entries]. rewrite app_nil_r, <- !app_assoc. split; [done|]. unfold log_header. sizes.
  - apply last_None in E as ->. destruct (wf_version _ W) as [(_ & _ & ?)| Hv]; [done|]. unfold log_header. rewrite Hv. cbn [Z.eqb entries]. rewrite app_nil_r.
    eexists (le_put 4 2 ++ le_put 4 first ++ cd_put genesis_codec gs). split; [by rewrite <- !app_assoc|]. sizes.
Qed.

Lemma last_position bs : log_wf bs -> 0 <= (match last bs with Some _ => start + size (entries start (removelast bs)) | None => npos end) < 2 ^ 64.
Proof.
  intros W. destruct (last bs) as [b|] eqn:E; [|unfold npos, UINT64_MAX; lia]. apply last_Some in E as [l ->]. rewrite removelast_last.
  pose proof (position_bound _ _ _ W). lia.
Qed.

Lemma read_head_ok bs s : blocks_ok bs s -> read_head s = (set_block_file s (block_file s) false, Ok (last bs)).
Proof.
  intros [W Eb]. pose proof Eb as Eb0. destruct (file_ends _ W) as (pre & E & Hpre). pose proof (last_position _ W) as Hlp.
  rewrite E in Eb. assert (size (block_file s) = size pre + 8) as Es by (rewrite Eb; sizes).
  unfold read_head. steps. cbn [block_file set_block_file]. rewrite Es, (proj2 (Z.leb_gt _ 8)) by lia.
  erewrite bind_run; [|apply from_block_eval; [done|]; apply (read_le_at 8 _ _ pre _ [] Hlp); [by rewrite app_nil_r|lia]].
  destruct (last bs) as [b|] eqn:El; [|done].
  apply last_Some in El as [l ->]. rewrite removelast_last. pose proof (position_bound _ _ _ W).
  rewrite (proj2 (Z.eqb_neq _ npos)) by (unfold npos, UINT64_MAX; lia). cbn [negb].
  destruct (read_block_ok l b [] (set_block_file s (block_file s) false)) as [next E2]; [done|]. by step E2.
Qed.

(** *** Writing *)

(** A block can follow: its number is the next, and there is room for it. *)
Definition fits (bs : list signed_block) (b : signed_block) : Prop :=
  valid b /\ first + Z.of_nat (length bs) < 2 ^ 32 /\ start + size (entries start (bs ++ [b])) < 2 ^ 63.

Lemma log_wf_snoc bs b : log_wf bs -> fits bs b -> sb_block_num b = first + Z.of_nat (length bs) -> log_wf (bs ++ [b]).
Proof.
  intros W (Hv & Hl & Hs) Hn. constructor.
  - destruct (wf_version _ W) as [(? & ? & ?)|]; [left|by right]. split_and!; try done. by destruct bs.
  - apply W.
  - rewrite length_app. simpl. lia.
  - apply W.
  - apply Forall_app. split; [apply W|by repeat constructor].
  - rewrite fmap_app, (wf_numbers _ W), length_app, Nat2Z.inj_add, seqZ_app by lia. simpl. by rewrite Hn.
  - done.
Qed.

Lemma append_eval b s : genesis_written_to_block_log s = true -> size (index_file s) = 8 * u32 (sb_block_num b - first_block_num s) ->
  let pos := size (block_file s) in
  append b s = (set_head (set_index_file (set_block_file s ((block_file s ++ cd_put block_codec b) ++ le_put 8 pos) true) (index_file s ++ le_put 8 pos) true) (Some b) (sb_id b), Ok pos).
Proof.
  intros Hg Hi pos. unfold append. steps. step (assert_eval _ _ _ Hg). steps. cbn [block_file index_file first_block_num set_index_file set_block_file]. rewrite Hi, Z.eqb_refl.
  step (assert_eval _ _ _ eq_refl). step (to_block_eval _ _ eq_refl). step (to_block_eval _ _ eq_refl). step (to_index_eval _ _ eq_refl). done.
Qed.

Lemma append_ok bs b s : log_ok bs s -> fits bs b -> sb_block_num b = first + Z.of_nat (length bs) ->
  exists s', append b s = (s', Ok (start + size (entries start bs))) /\ log_ok (bs ++ [b]) s'.
Proof.
  intros Hok Hf Hn. pose proof (ok_wf _ _ Hok) as W. rewrite append_eval; [|apply Hok|].
  2:{ rewrite (ok_first _ _ Hok), Hn, (ok_index _ _ Hok), size_index, positions_length. replace (first + Z.of_nat (length bs) - first) with (Z.of_nat (length bs)) by lia.
      rewrite u32_small; [done|]. pose proof (wf_first _ W). pose proof (proj1 (proj2 Hf)). unfold is_u32. lia. }
  rewrite (ok_blocks _ _ Hok), (ok_index _ _ Hok), size_app. eexists. split; [reflexivity|].
  constructor; cbn [block_file index_file bl_head bl_head_id bl_version first_block_num genesis_written_to_block_log set_head set_index_file set_block_file]; try apply Hok.
  - by apply log_wf_snoc.
  - rewrite entries_middle. cbn [entries]. by rewrite app_nil_r, <- !app_assoc.
  - rewrite positions_app, index_app. done.
  - by rewrite last_snoc.
  - intros b' E. rewrite last_snoc in E. by simplify_eq.
Qed.

(** Another block is refused, and the log stays as it is. *)
Lemma append_refuses bs b s : log_ok bs s -> first + Z.of_nat (length bs) < 2 ^ 32 -> sb_block_num b <> first + Z.of_nat (length bs) ->
  exists s', append b s = (s', Err block_log_append_fail) /\ log_ok bs s'.
Proof.
  intros Hok Hl Hn. pose proof (ok_wf _ _ Hok) as W. unfold append. steps. step (assert_eval _ _ _ (ok_written _ _ Hok)). steps. cbn [block_file index_file first_block_num set_index_file set_block_file].
  rewrite (ok_first _ _ Hok), (ok_index _ _ Hok), size_index, positions_length. rewrite (proj2 (Z.eqb_neq _ _)).
  - eexists. split; [reflexivity|]. rewrite <- (ok_index _ _ Hok). apply (log_ok_index_write _ (set_block_file s (block_file s) true)). by apply log_ok_block_write.
  - intros E. assert (u32 (sb_block_num b - first) = Z.of_nat (length bs)) as Eu by lia. unfold u32, wrap in Eu.
    assert (is_u32 (sb_block_num b)) by apply u32_is_u32. pose proof (wf_first _ W). unfold is_u32 in *.
    destruct (Z.le_gt_cases first (sb_block_num b)); [rewrite Z.mod_small in Eu; lia|].
    rewrite <- (Z.mod_add _ 1), Z.mod_small in Eu by lia. lia.
Qed.

(** *** Blocks that become irreversible *)

(** What the controller's calls mean for the list of blocks. *)
Inductive log_op :=
| op_irreversible (b : signed_block)
| op_read (n : Z)
| op_read_head.

Definition log_step (op : log_op) : M block_log_impl (option signed_block) :=
  match op with
  | op_irreversible b => log_irreversible (sb_block_num b) (Some b);; mret None
  | op_read n => read_block_by_num n
  | op_read_head => read_head
  end.

(** Whether a block is to be added: it must follow the head unless it is not newer. *)
Definition verdict (b : signed_block) (bs : list signed_block) : result bool :=
  match last bs with
  | None => if sb_block_num b =? first then Ok true else Err block_log_exception
  | Some h =>
      if sb_block_num b <=? sb_block_num h then Ok false
      else if bool_decide (sb_previous b = sb_id h) then Ok true
      else Err unlinkable_block_exception
  end.

Definition spec_step (op : log_op) (bs : list signed_block) : list signed_block * result (option signed_block) :=
  match op with
  | op_irreversible b =>
      match verdict b bs with
      | Ok true => (bs ++ [b], Ok None)
      | Ok false => (bs, Ok None)
      | Err e => (bs, Err e)
      end
  | op_read n => (bs, Ok (block_at bs n))
  | op_read_head => (bs, Ok (last bs))
  end.

Definition op_fits (op : log_op) (bs : list signed_block) : Prop := match op with op_irreversible b => fits bs b | _ => True end.

Lemma next_number b h : sb_previous b = sb_id h -> sb_block_num b = u32 (sb_block_num h + 1).
Proof. intros E. unfold sb_block_num at 1, header_block_num. fold (sb_previous b). rewrite E. unfold sb_id. by rewrite num_from_id_of_id. Qed.

Lemma verdict_number b bs : log_wf bs -> first + Z.of_nat (length bs) < 2 ^ 32 -> verdict b bs = Ok true -> sb_block_num b = first + Z.of_nat (length bs).
Proof.
  intros W Hl. unfold verdict. destruct (last bs) as [h|] eqn:El.
  - apply last_Some in El as [l ->]. destruct (_ <=? _); [done|]. destruct (bool_decide_reflect (sb_previous b = sb_id h)) as [E|]; [intros _|done].
    pose proof (wf_first _ W). rewrite length_app in *. simpl in *. rewrite (next_number _ _ E), (wf_number _ _ _ W), u32_small; [|unfold is_u32]; lia.
  - apply last_None in El as ->. destruct (Z.eqb_spec (sb_block_num b) first); [intros _; simpl; lia|done].
Qed.

(** A block that links to the head has the next number, so that the two tests
    agree. *)
Lemma must_append_ok b bs s : log_ok bs s -> first + Z.of_nat (length bs) < 2 ^ 32 ->
  exists s', must_append (sb_block_num b) (Some b) s = (s', verdict b bs) /\ log_ok bs s'.
Proof.
  intros Hok Hl. pose proof (ok_wf _ _ Hok) as W. pose proof (wf_first _ W) as Hfirst. unfold verdict, must_append. steps. rewrite (ok_head _ _ Hok).
  destruct (last bs) as [h|] eqn:El.
  - rewrite bool_decide_eq_true_2 by done. cbn [negb]. steps. rewrite (ok_head _ _ Hok), El. exists s. split; [|done]. apply last_Some in El as [l ->].
    rewrite Z.leb_antisym. destruct (Z.ltb_spec (sb_block_num h) (sb_block_num b)) as [Hlt|Hge]; cbn [negb]; [|done].
    destruct (bool_decide_reflect (sb_previous b = sb_id h)) as [E|E].
    + assert (u32 (sb_block_num b - 1) = sb_block_num h) as ->; [|rewrite Z.eqb_refl; steps; by rewrite bool_decide_eq_true_2].
      rewrite length_app in Hl. simpl in Hl. rewrite (next_number _ _ E), (wf_number _ _ _ W). rewrite (u32_small (_ + 1)), u32_small; unfold is_u32; lia.
    + destruct (_ =? _); [|done]. steps. by rewrite bool_decide_eq_false_2.
  - rewrite bool_decide_eq_false_2 by (by intros [? ?]). cbn [negb]. erewrite bind_run by (erewrite bind_run by (apply (read_head_ok _ _ (log_blocks_ok _ _ Hok))); reflexivity).
    steps. cbn [bl_head set_block_file first_block_num]. rewrite (ok_head _ _ Hok), El, (ok_first _ _ Hok).
    exists (set_block_file s (block_file s) false). split; [by destruct (_ =? _)|by apply log_ok_block_write].
Qed.

Lemma irreversible_ok b bs s : log_ok bs s -> fits bs b ->
  exists s', log_step (op_irreversible b) s = (s', (spec_step (op_irreversible b) bs).2) /\ log_ok (spec_step (op_irreversible b) bs).1 s'.
Proof.
  intros Hok Hf. pose proof (proj1 (proj2 Hf)) as Hl. destruct (must_append_ok b bs s Hok Hl) as (s' & E & Hok'). cbn [log_step spec_step]. unfold log_irreversible.
  pose proof (verdict_number b bs (ok_wf _ _ Hok) Hl) as Hn. destruct (verdict b bs) as [[|]|e].
  - destruct (append_ok bs b s' Hok' Hf (Hn eq_refl)) as (s'' & E' & Hok''). exists s''. split; [|done].
    rewrite (bind_run _ _ _ s'' tt); [done|]. rewrite (bind_run _ _ _ _ _ E). steps. by step E'.
  - exists s'. split; [|done]. rewrite (bind_run _ _ _ s' tt); [done|]. by rewrite (bind_run _ _ _ _ _ E).
  - exists s'. split; [|done]. unfold mbind, M_bind. by rewrite E.
Qed.

Lemma log_step_ok op bs s : log_ok bs s -> op_fits op bs ->
  exists s', log_step op s = (s', (spec_step op bs).2) /\ log_ok (spec_step op bs).1 s'.
Proof.
  intros Hok Hf. destruct op as [b|n|]; [by apply irreversible_ok|by apply read_block_by_num_ok|].
  cbn [log_step spec_step fst snd]. rewrite (read_head_ok _ _ (log_blocks_ok _ _ Hok)). eauto with block_log.
Qed.

(** The log is a chain: every block links to the one before it. *)
Definition linked (bs : list signed_block) : Prop := forall l b b' l', bs = l ++ b :: b' :: l' -> sb_previous b' = sb_id b.

Lemma linked_snoc bs h b : last bs = Some h -> linked bs -> sb_previous b = sb_id h -> linked (bs ++ [b]).
Proof.
  intros Hl Hk Hp l x y l' E. destruct l' as [|z l' _] using rev_ind.
  - change (l ++ [x; y]) with (l ++ [x] ++ [y]) in E. rewrite app_assoc in E. apply app_inj_2 in E as [-> E]; [|done]. simplify_eq. by rewrite last_snoc in Hl; simplify_eq.
  - rewrite app_comm_cons, app_comm_cons, app_assoc in E. apply app_inj_2 in E as [-> _]; [|done]. by eapply Hk.
Qed.

Lemma spec_step_linked op bs : linked bs -> linked (spec_step op bs).1.
Proof.
  intros Hk. destruct op as [b|n|]; cbn [spec_step]; [|done..]. unfold verdict. destruct (last bs) as [h|] eqn:E.
  - destruct (_ <=? _); [done|]. destruct (bool_decide_reflect (sb_previous b = sb_id h)); [|done]. by eapply linked_snoc.
  - destruct (_ =? _); [|done]. apply last_None in E as ->. intros [|? [|? ?]] ? ? ? Ex; simplify_list_eq.
Qed.

(** *** Runs *)

Fixpoint log_run (ops : list log_op) (s : block_log_impl) : block_log_impl * list (result (option signed_block)) :=
  match ops with
  | [] => (s, [])
  | op :: ops => let '(s, r) := log_step op s in let '(s, rs) := log_run ops s in (s, r :: rs)
  end.
Fixpoint spec_run (ops : list log_op) (bs : list signed_block) : list signed_block * list (result (option signed_block)) :=
  match ops with
  | [] => (bs, [])
  | op :: ops => let '(bs, r) := spec_step op bs in let '(bs, rs) := spec_run ops bs in (bs, r :: rs)
  end.
Fixpoint run_fits (ops : list log_op) (bs : list signed_block) : Prop :=
  match ops with [] => True | op :: ops => op_fits op bs /\ run_fits ops (spec_step op bs).1 end.

Lemma log_run_ok ops : forall bs s, log_ok bs s -> run_fits ops bs ->
  (log_run ops s).2 = (spec_run ops bs).2 /\ log_ok (spec_run ops bs).1 (log_run ops s).1.
Proof.
  induction ops as [|op ops IH]; intros bs s Hok Hf; [done|]. destruct Hf as [H1 H2]. destruct (log_step_ok op bs s Hok H1) as (s' & E & Hok').
  cbn [log_run spec_run]. rewrite E. destruct (spec_step op bs) as [bs' r] eqn:Es. cbn [fst snd] in *. destruct (IH bs' s' Hok' H2) as [IH1 IH2].
  destruct (log_run ops s'), (spec_run ops bs'). simpl in *. split; [by rewrite IH1|done].
Qed.

Lemma spec_run_linked ops : forall bs, linked bs -> linked (spec_run ops bs).1.
Proof.
  induction ops as [|op ops IH]; intros bs Hk; [done|]. cbn [spec_run]. pose proof (spec_step_linked op bs Hk). destruct (spec_step op bs) as [bs' r].
  specialize (IH bs' ltac:(done)). by destruct (spec_run ops bs').
Qed.

End Ops.
