(* ===== verification/BlockLogRecovery.v ===== *)
(** * The block log: starting, opening and repairing

    What [reset], [open] and [repair_log] of [block_log.cpp] do to the files, for the
    layout of [BlockLogProofs], and the theorems about whole runs. *)

From Stdlib Require Import ZArith Lia Bool.
From stdpp Require Import base numbers list.
From S2P Require Import Prelude Merkle BlockHeader BlockHeaderProofs Transaction Block Datastream BlockLog BlockLogProofs.

Open Scope Z_scope.

(** One goal for each part of [log_ok], with the fields of the state computed. *)
Ltac log_fields := constructor;
  cbn [block_file index_file bl_head bl_head_id bl_version first_block_num genesis_written_to_block_log set_head set_index_file set_block_file set_header].

Section Recovery.
Context `{CryptoLaws} {G : Type} `{!LogCodecs G} {valid : signed_block -> Prop} {valid_genesis : G -> Prop} `{!LogLaws G valid valid_genesis}.

#[local] Notation log_wf := (log_wf (valid := valid) (valid_genesis := valid_genesis)).
#[local] Notation log_ok := (log_ok (valid := valid) (valid_genesis := valid_genesis)).
#[local] Notation blocks_ok := (blocks_ok (valid := valid) (valid_genesis := valid_genesis)).
#[local] Notation fits := (fits (valid := valid)).
#[local] Notation run_fits := (run_fits (valid := valid)).

(** ** Starting a log *)

Lemma wf_empty first gs : 0 < first < 2 ^ 32 -> valid_genesis gs -> size (log_header 2 first gs) < 2 ^ 63 -> log_wf 2 first gs [].
Proof. intros Hf Hg Hs. constructor; simpl; rewrite ?size_nil; auto with lia. Qed.

(** The file while its version is still zero. *)
Lemma header_version version first gs : version <> 1 -> log_header version first gs = le_put 4 version ++ le_put 4 first ++ cd_put genesis_codec gs ++ le_put 8 npos.
Proof. intros Hv. unfold log_header. by rewrite (proj2 (Z.eqb_neq _ _) Hv). Qed.

(** The files without their first four bytes are those of a log with its first
    block, if there is one. *)
Lemma reset_ok first gs first_block s :
  0 < first < 2 ^ 32 -> valid_genesis gs -> size (log_header 2 first gs) < 2 ^ 63 ->
  match first_block with Some b => fits 2 first gs [] b /\ sb_block_num b = first | None => bl_head s = None end ->
  exists s', reset gs first_block first s = (s', Ok tt) /\ log_ok 2 first gs (option_list first_block) s'.
Proof.
  intros Hf Hg Hs Hb. pose proof (wf_empty first gs Hf Hg Hs) as W0. unfold reset. steps.
  cbn [block_file set_block_file set_index_file set_header app bl_version first_block_num].
  set (s1 := set_block_file _ _ true). set (body := le_put 4 first ++ cd_put genesis_codec gs ++ le_put 8 npos).
  assert (block_file s1 = le_put 4 0 ++ body) as E1 by (unfold s1, body; cbn [block_file set_block_file]; by rewrite <- !app_assoc).
  assert (index_file s1 = [] /\ genesis_written_to_block_log s1 = true /\ first_block_num s1 = first /\ bl_head s1 = bl_head s) as (E2 & E3 & E4 & E5) by done.
  assert (log_header 2 first gs = le_put 4 2 ++ body) as Eh by (by apply header_version).
  clearbody s1 body. destruct first_block as [b|]; cbn [option_list].
  - destruct Hb as [Hb Hn]. erewrite bind_run; [|erewrite bind_run; [|apply append_eval]; [reflexivity|done|]].
    2:{ by rewrite E2, E4, Hn, Z.sub_diag. }
    assert (size (block_file s1) = size (log_header 2 first gs)) as Es by (rewrite E1, Eh, !size_app, !size_le; done).
    steps. eexists. split; [reflexivity|]. rewrite Es, E1, E2. log_fields; try done.
    + apply (log_wf_snoc 2 first gs [] b); [done|done|simpl; lia].
    + rewrite <- !app_assoc, (drop_app_length' (le_put 4 0)) by (by rewrite length_le_put). rewrite Eh. change (option_list (Some b)) with [b]. cbn [entries]. by rewrite <- !app_assoc, app_nil_r.
    + intros b' ?. by simplify_eq/=.
  - steps. eexists. split; [reflexivity|]. log_fields; try done.
    + rewrite E1, drop_app_length' by (by rewrite length_le_put). rewrite Eh. by rewrite app_nil_r.
    + by rewrite E5.
Qed.

(** ** Opening *)

Section Open.
Context (v first : Z) (gs : G).
#[local] Notation start := (size (log_header v first gs)).

(** The position that [construct_index] read last, when it has seen [bs]. *)
Definition seen (bs : list signed_block) : Z :=
  match last bs with Some _ => start + size (entries start (removelast bs)) | None => if v =? 1 then 4 else 8 end.

Lemma seen_snoc bs b : seen (bs ++ [b]) = start + size (entries start bs).
Proof. unfold seen. by rewrite last_snoc, removelast_last. Qed.

Lemma header_size : v = 1 \/ v = 2 -> valid_genesis gs -> (if v =? 1 then 4 else 8) < start.
Proof.
  intros [-> | ->] Hg; unfold log_header; simpl (_ =? _).
  - pose proof (genesis_not_empty _ Hg). autorewrite with block_log. simpl Z.of_nat. lia.
  - sizes.
Qed.

Lemma wf_versions bs : log_wf v first gs bs -> v = 1 \/ v = 2.
Proof. intros W. destruct (wf_version _ _ _ _ W) as [(? & _)|]; auto. Qed.

Lemma seen_before bs b : log_wf v first gs (bs ++ [b]) -> seen bs < start + size (entries start bs).
Proof.
  intros W. pose proof (header_size (wf_versions _ W) (wf_genesis _ _ _ _ W)). destruct bs as [|h bs _] using rev_ind.
  - unfold seen. simpl. rewrite size_nil. lia.
  - rewrite seen_snoc. pose proof (entry_before start bs h []). lia.
Qed.

Lemma entries_mono bs bs' : size (entries start bs) <= size (entries start (bs ++ bs')).
Proof. rewrite entries_app, size_app. pose proof (size_nonneg (entries (start + size (entries start bs)) bs')). lia. Qed.

Lemma construct_loop_ok bs' : forall bs s fuel, blocks_ok v first gs (bs ++ bs') s -> block_write s = false -> index_write s = true -> (length bs' <= fuel)%nat ->
  construct_loop fuel (start + size (entries start bs)) (seen bs) (seen (bs ++ bs')) s =
    (set_index_file s (index_file s ++ index_of (positions (start + size (entries start bs)) bs')) true, Ok tt).
Proof.
  induction bs' as [|b bs' IH]; intros bs s fuel [W Eb] Hr Hw Hf.
  - rewrite app_nil_r. destruct fuel; cbn [construct_loop]; rewrite Z.ltb_irrefl; cbn [positions]; change (index_of []) with (@nil Z); rewrite app_nil_r; by destruct s; cbn in *; subst.
  - destruct fuel as [|fuel]; [simpl in Hf; lia|]. cbn [construct_loop]. cbn [length] in Hf.
    assert (start + size (entries start bs) <= seen (bs ++ b :: bs')) as Hle.
    { destruct (exists_last (l := b :: bs')) as (l & x & ->); [done|]. rewrite app_assoc, seen_snoc. pose proof (entries_mono bs l). lia. }
    assert (seen bs < start + size (entries start bs)) as Hlt.
    { destruct bs as [|h bs _] using rev_ind; [|rewrite seen_snoc; pose proof (entry_before start bs h []); lia].
      unfold seen. simpl. rewrite size_nil. pose proof (header_size (wf_versions _ W) (wf_genesis _ _ _ _ W)). lia. }
    rewrite (proj2 (Z.ltb_lt _ _)) by lia. destruct (position_bound _ _ _ _ _ _ W) as [Hp Hq].
    pose proof (wf_blocks _ _ _ _ W) as Hv. apply Forall_app in Hv as [_ Hv]. apply Forall_inv in Hv.
    rewrite entries_middle in Eb.
    erewrite bind_run; [|apply from_block_eval; [done|]; eapply (unpack_at_app block_codec valid _ _ (log_header v first gs ++ entries start bs) b _ Hv); [rewrite Eb, <- app_assoc; reflexivity|by rewrite size_app|rewrite size_app; lia]]. cbv beta iota.
    erewrite bind_run; [|apply from_block_eval; [done|]; eapply (read_le_at 8 _ _ (log_header v first gs ++ entries start bs ++ cd_put block_codec b) (start + size (entries start bs)));
      [change (8 * Z.of_nat 8) with 64; lia|rewrite Eb, <- !app_assoc; reflexivity|rewrite !size_app; lia]].
    erewrite bind_run by (by apply to_index_eval).
    specialize (IH (bs ++ [b]) (set_index_file s (index_file s ++ le_put 8 (start + size (entries start bs))) true) fuel).
    rewrite <- app_assoc in IH. rewrite <- entries_middle in Eb. rewrite seen_snoc in IH.
    replace (start + size (entries start (bs ++ [b]))) with (size (log_header v first gs ++ entries start bs) + size (cd_put block_codec b) + 8) in IH.
    2:{ rewrite entries_app. cbn [entries]. sizes. }
    cbn [app] in IH. rewrite IH; [|done|done|done|lia]. cbn [set_index_file index_file positions]. rewrite index_cons, <- (app_assoc (index_file s)).
    f_equal. unfold set_index_file. cbn [bl_head bl_head_id block_file index_file block_write index_write genesis_written_to_block_log bl_version first_block_num]. do 5 f_equal. sizes.
Qed.

Lemma length_entries off bs : (length bs <= length (entries off bs))%nat.
Proof. revert off. induction bs as [|b bs IH]; intros off; cbn [entries length]; [done|]. rewrite !length_app, length_le_put. specialize (IH (off + size (cd_put block_codec b) + 8)). lia. Qed.

(** The end of the file holds the position of the last block. *)
Lemma read_end bs s : blocks_ok v first gs bs s -> bs <> [] -> read_le 8 (size (block_file s) - 8) (block_file s) = Ok (seen bs).
Proof.
  intros [W Eb] Hne. destruct (file_ends _ _ _ _ W) as (pre & E & _). pose proof (last_position _ _ _ _ W) as Hl. unfold seen. destruct (last bs) eqn:El; [|by apply last_None in El].
  rewrite E in Eb. apply (read_le_at 8 _ _ pre _ [] Hl); [by rewrite app_nil_r|]. rewrite Eb. sizes.
Qed.

Lemma construct_index_ok bs s : blocks_ok v first gs bs s -> bs <> [] -> bl_version s = v ->
  construct_index s = (set_index_file (set_block_file s (block_file s) false) (index_of (positions start bs)) true, Ok tt).
Proof.
  intros [W Eb] Hne Hv. unfold construct_index. steps. set (s1 := set_block_file _ _ false). change (block_file s1) with (block_file s). change (bl_version s1) with (bl_version s).
  erewrite bind_run by (apply from_block_eval; [done|]; exact (read_end bs s (conj W Eb) Hne)). rewrite Hv.
  pose proof (wf_genesis _ _ _ _ W) as Hg. pose proof (wf_size _ _ _ _ W) as Hs. pose proof (size_nonneg (entries start bs)) as Hn.
  set (pre := le_put 4 v ++ if v =? 1 then [] else le_put 4 first).
  assert (size pre = if v =? 1 then 4 else 8) as Ep by (unfold pre; destruct (v =? 1); sizes).
  assert (size pre < start) as Hp by (rewrite Ep; by apply header_size; [eapply wf_versions|]).
  erewrite bind_run; [|apply from_block_eval; [done|]; eapply (unpack_at_app genesis_codec valid_genesis _ _ pre gs _ Hg); [|done|lia]].
  2:{ change (block_file s1) with (block_file s). rewrite Eb. unfold log_header at 1, pre. rewrite <- !app_assoc. reflexivity. }
  cbv beta iota.
  assert (size pre + size (cd_put genesis_codec gs) + (if v =? 1 then 0 else 8) = start) as Est by (unfold pre, log_header; destruct (v =? 1); sizes).
  rewrite (bind_run _ _ _ s1 start).
  - pose proof (construct_loop_ok bs [] s1 (S (length (block_file s)))) as Hc. cbn [app entries] in Hc. rewrite size_nil, Z.add_0_r in Hc.
    change (if v =? 1 then 4 else 8) with (seen []). rewrite Hc; [|done|done|done|]; [done|].
    rewrite Eb, length_app. pose proof (length_entries start bs). lia.
  - destruct (wf_versions _ W) as [-> | ->]; cbn [Z.ltb Z.compare Pos.compare Pos.compare_cont Z.eqb] in *; [by rewrite <- Est, Z.add_0_r|].
    erewrite bind_run; [|apply from_block_eval; [done|]; eapply (read_le_at 8 _ _ (pre ++ cd_put genesis_codec gs) npos); [done| |by rewrite size_app]].
    2:{ change (block_file s1) with (block_file s). rewrite Eb. unfold log_header at 1, pre. cbn [Z.eqb]. rewrite <- !app_assoc. reflexivity. }
    by rewrite <- Est.
Qed.

(** An index that [open] can tell from the right one: missing, or with another
    position at its end. *)
Definition stale_index (bs : list signed_block) (index : buffer) : Prop :=
  index = [] \/ exists pre p, index = pre ++ le_put 8 p /\ 0 <= p < 2 ^ 64 /\ p <> seen bs.

Lemma index_ends bs : bs <> [] -> exists pre, index_of (positions start bs) = pre ++ le_put 8 (seen bs).
Proof.
  intros Hne. destruct (exists_last Hne) as (l & b & ->). rewrite positions_app, index_app, seen_snoc. cbn [positions]. rewrite index_single. by eexists.
Qed.

Lemma read_version_ok bs s : blocks_ok v first gs bs s -> bs <> [] -> block_write s = false -> read_version s = (s, Ok (v, first)).
Proof.
  intros [W Eb] Hne Hr. pose proof (wf_last _ _ _ _ W) as Hl. pose proof (wf_first _ _ _ _ W) as Hf. destruct (wf_version _ _ _ _ W) as [(Hv & H1 & _)|Hv]; unfold read_version.
  - rewrite Hv, H1 in *. erewrite bind_run; [|apply from_block_eval; [done|]; eapply (read_le_at 4 _ _ [] 1); [done|rewrite Eb; unfold log_header; rewrite <- !app_assoc; reflexivity|done]]. by steps.
  - assert (0 <= first < 2 ^ (8 * Z.of_nat 4)) as Hr4 by (destruct bs; [done|]; simpl length in Hl; change (8 * Z.of_nat 4) with 32; lia).
    rewrite Hv in *. erewrite bind_run; [|apply from_block_eval; [done|]; eapply (read_le_at 4 _ _ [] 2); [done|rewrite Eb; unfold log_header; rewrite <- !app_assoc; reflexivity|done]].
    steps. cbn [Z.ltb Z.compare Pos.compare Pos.compare_cont]. rewrite (bind_run _ _ s s first); [done|].
    erewrite bind_run; [|apply from_block_eval; [done|]; eapply (read_le_at 4 _ _ (le_put 4 2) first _ Hr4); [|done]].
    2:{ rewrite Eb. unfold log_header at 1. cbn [Z.eqb]. rewrite <- !app_assoc. reflexivity. }
    by rewrite (proj2 (Z.ltb_lt _ _) Hf).
Qed.

(** Whatever index was found, the right one is there after the check. *)
Lemma check_heads_ok bs s : blocks_ok v first gs bs s -> bs <> [] -> bl_version s = v ->
  index_file s = index_of (positions start bs) \/ stale_index bs (index_file s) ->
  exists bw iw, check_heads (size (block_file s)) (size (index_file s)) s = (set_index_file (set_block_file s (block_file s) bw) (index_of (positions start bs)) iw, Ok tt).
Proof.
  intros B Hne Hv Hi. unfold check_heads. destruct (Z.eqb_spec (size (index_file s)) 0) as [E0|E0]; cbn [negb].
  { rewrite (construct_index_ok bs s B Hne Hv). by eexists _, _. }
  assert (exists pre p, index_file s = pre ++ le_put 8 p /\ 0 <= p < 2 ^ 64 /\ (p = seen bs -> index_file s = index_of (positions start bs))) as (pre & p & E & Hp & Hx).
  { destruct Hi as [Hi|[Hi|(pre & p & E & Hp & Hne')]]; [|by rewrite Hi in E0|by exists pre, p].
    destruct (index_ends bs Hne) as [pre E]. exists pre, (seen bs). rewrite Hi. split; [done|]. split; [|done].
    pose proof (last_position _ _ _ _ (proj1 B)) as Hl. unfold seen. destruct (last bs) eqn:El; [done|by apply last_None in El]. }
  steps. set (s1 := set_index_file _ _ false). change (block_file s) with (block_file s1). assert (blocks_ok v first gs bs s1) as B1 by done.
  erewrite bind_run by (apply from_block_eval; [done|]; by apply (read_end bs)).
  erewrite bind_run; [|apply from_index_eval; [done|]; eapply (read_le_at 8 _ _ pre p [] Hp); [change (index_file s1) with (index_file s); by rewrite app_nil_r|rewrite E; sizes]].
  pose proof (construct_index_ok bs s1 B1 Hne Hv) as Ec. destruct (Z.ltb_spec (seen bs) p); [rewrite Ec; by eexists _, _|].
  destruct (Z.ltb_spec p (seen bs)); [rewrite Ec; by eexists _, _|]. rewrite <- Hx by lia. by eexists _, _.
Qed.

Lemma open_ok bs s index : log_ok v first gs bs s -> bs <> [] -> index = index_file s \/ stale_index bs index ->
  exists s', block_log (block_file s) index = (s', Ok tt) /\ log_ok v first gs bs s'.
Proof.
  intros Hok Hne Hi. pose proof (log_blocks_ok _ _ _ _ _ Hok) as [W Eb]. destruct (exists_last Hne) as (l & b & El).
  unfold block_log, open. steps. cbn [new_log set_block_file set_index_file block_file index_file].
  assert (0 < size (block_file s)) as Hpos.
  { rewrite Eb, size_app. pose proof (header_size (wf_versions _ W) (wf_genesis _ _ _ _ W)). pose proof (size_nonneg (entries start bs)). destruct (v =? 1); lia. }
  rewrite (proj2 (Z.eqb_neq _ 0)) by lia. cbn [negb]. steps. set (s1 := set_block_file _ _ false).
  assert (blocks_ok v first gs bs s1) as B1 by done.
  erewrite bind_run by (by apply (read_version_ok bs)). cbv beta iota. steps. erewrite bind_run by (by eapply (read_head_ok v first gs)). rewrite El, last_snoc. steps. rewrite <- El.
  set (s2 := set_head _ _ _). destruct (check_heads_ok bs s2) as (bw & iw & E); [done|done|done|by rewrite <- (ok_index _ _ _ _ _ Hok)|].
  change (block_file s) with (block_file s2). change index with (index_file s2). rewrite E. eexists. split; [reflexivity|]. log_fields; try done.
  - by rewrite El, last_snoc.
  - intros b'. rewrite El, last_snoc. by intros [= <-].
Qed.

(** ** Repairing *)

Lemma quiet_read_app n old x post : 0 <= x < 2 ^ (8 * Z.of_nat n) -> quiet_read n old (Some (le_put n x ++ post)) = (x, Some post).
Proof.
  intros Hx. unfold quiet_read. rewrite length_app, length_le_put, (proj2 (Nat.leb_le _ _)) by lia.
  by rewrite take_app_length', drop_app_length', le_value_put by (by rewrite ?length_le_put).
Qed.

Lemma repair_header_ok bs body : log_wf v first gs bs -> first < 2 ^ 32 -> repair_header (log_header v first gs ++ body) = Ok (log_header v first gs, Some body).
Proof.
  intros W Hf. pose proof (wf_first _ _ _ _ W). pose proof (wf_genesis _ _ _ _ W) as Hg.
  assert (forall rest, quiet_genesis (Some (cd_put genesis_codec gs ++ rest)) = read_value gs (Some rest)) as Hq by (intros; apply quiet_genesis_reads; by apply (get_put (c := genesis_codec))).
  unfold repair_header, quiet_version, quiet_genesis_state. destruct (wf_versions _ W) as [-> | ->]; unfold log_header; simpl (_ =? 1); rewrite <- !app_assoc, quiet_read_app by done; cbv beta iota;
    cbn [SNAX_ASSERT Z.ltb Z.leb Z.compare Pos.compare Pos.compare_cont andb min_supported_version max_supported_version mbind result_bind Z.eqb Pos.eqb mret result_ret].
  - rewrite app_nil_l, Hq. cbn [mbind result_bind]. rewrite !app_nil_r. done.
  - rewrite quiet_read_app by (change (8 * Z.of_nat 4) with 32; lia). cbn [mret result_ret Z.eqb Pos.eqb mbind result_bind]. rewrite Hq. cbn [mret result_ret mbind result_bind of_option].
    cbn [mret result_ret mbind result_bind of_option]. rewrite length_app, length_le_put, (proj2 (Nat.leb_le 8 _)) by lia. cbn [SNAX_ASSERT mbind result_bind]. rewrite quiet_read_app by done. cbn [mret result_ret Z.eqb Pos.eqb mbind result_bind]. by rewrite <- !app_assoc.
Qed.

(** A turn on a block that was written completely. *)
Lemma repair_turn fuel old new b rest t : old = new ++ cd_put block_codec b ++ le_put 8 (size new) ++ rest -> size old < 2 ^ 63 -> valid b ->
  repair_loop (S fuel) old (Some (cd_put block_codec b ++ le_put 8 (size new) ++ rest)) new (size new) t =
    (let new := new ++ cd_put block_codec b ++ le_put 8 (size new) in
     if sb_block_num b =? t then Ok (new, truncated) else repair_loop fuel old (Some rest) new (size new) t).
Proof.
  intros E Hs Hb. pose proof (size_nonneg new). pose proof (size_nonneg rest). pose proof (size_nonneg (cd_put block_codec b)).
  assert (size old = size new + size (cd_put block_codec b) + 8 + size rest) as Es by (rewrite E; sizes).
  cbn [repair_loop]. rewrite (proj2 (Z.ltb_lt _ _)) by lia. rewrite (quiet_block_reads _ b (le_put 8 (size new) ++ rest)) by (by apply (get_put (c := block_codec))).
  unfold quiet_tellg. rewrite size_app, size_le, u64_small by (unfold is_u64; lia). rewrite (proj2 (Z.leb_le _ _)) by lia.
  rewrite quiet_read_app by (change (8 * Z.of_nat 8) with 64; lia). by rewrite Z.eqb_refl.
Qed.

Lemma repair_walk t bs : forall old new tail fuel, old = new ++ entries (size new) bs ++ tail -> size old < 2 ^ 63 -> Forall valid bs ->
  Forall (fun b => sb_block_num b <> t) bs ->
  repair_loop (length bs + fuel) old (Some (entries (size new) bs ++ tail)) new (size new) t =
  repair_loop fuel old (Some tail) (new ++ entries (size new) bs) (size (new ++ entries (size new) bs)) t.
Proof.
  induction bs as [|b bs IH]; intros old new tail fuel E Hs Hv Ht; cbn [entries length Nat.add]; [by rewrite app_nil_r|].
  apply Forall_cons in Hv as [Hb Hv]. apply Forall_cons in Ht as [Hn Ht]. cbn [entries] in E. rewrite <- !app_assoc in *.
  rewrite repair_turn by done. cbv zeta. rewrite (proj2 (Z.eqb_neq _ _) Hn).
  assert (size new + size (cd_put block_codec b) + 8 = size (new ++ cd_put block_codec b ++ le_put 8 (size new))) as Es by sizes.
  rewrite Es in *. rewrite IH; [by rewrite <- !app_assoc|by rewrite <- !app_assoc|done..].
Qed.

(** Whatever is behind them, the loop ends and the new file is a list of blocks. *)
Lemma repair_any t fuel : forall old st new, (Z.to_nat (size old - size new) < fuel)%nat ->
  exists bs out, repair_loop fuel old st new (size new) t = Ok (new ++ entries (size new) bs, out).
Proof.
  induction fuel as [|fuel IH]; intros old st new Hf; [lia|]. cbn [repair_loop]. destruct (Z.ltb_spec (size new) (size old)).
  2:{ exists [], all_recovered. cbn [entries]. by rewrite app_nil_r. }
  destruct (quiet_block st) as [b st'|e st']; [|exists []; eexists; cbn [entries]; by rewrite app_nil_r].
  destruct (if _ <=? _ then _ else _) as [tmp_pos st'']. destruct (size new =? tmp_pos); cbn [negb]; [|exists []; eexists; cbn [entries]; by rewrite app_nil_r].
  set (new' := new ++ cd_put block_codec b ++ le_put 8 (size new)). destruct (sb_block_num b =? t).
  { exists [b]. eexists. cbn [entries]. by rewrite app_nil_r. }
  destruct (IH old st'' new') as (bs & out & E); [unfold new'; pose proof (size_nonneg (cd_put block_codec b)); rewrite !size_app, size_le; lia|].
  exists (b :: bs), out. rewrite E. unfold new'. cbn [entries]. rewrite <- !app_assoc. do 6 f_equal. sizes.
Qed.

Lemma wf_distinct bs b bs' : log_wf v first gs (bs ++ b :: bs') -> Forall (fun x => sb_block_num x <> sb_block_num b) bs.
Proof.
  intros W. apply Forall_lookup. intros i x Hx E. apply list_elem_of_split_length in Hx as (l & l' & -> & ->).
  rewrite (wf_number _ _ _ _ _ _ W) in E. rewrite <- app_assoc in W. cbn [app] in W. rewrite (wf_number _ _ _ _ _ _ W) in E. rewrite length_app in E. simpl in E. lia.
Qed.

End Open.

(** ** Whole runs *)

(** C11: A log that was just started refines a list of blocks: for every sequence of
    irreversible blocks, reads by number and reads of the head, every answer and
    every refusal is that of the list, no stream throws, the blocks are linked and
    consecutively numbered, and the two files stay the packed list and its index. *)
Theorem log_refines first gs s ops :
  bl_head s = None -> 0 < first < 2 ^ 32 -> valid_genesis gs -> size (log_header 2 first gs) < 2 ^ 63 -> run_fits 2 first gs ops [] ->
  exists s', reset gs None first s = (s', Ok tt) /\
    (log_run ops s').2 = (spec_run first ops []).2 /\
    linked (spec_run first ops []).1 /\
    log_ok 2 first gs (spec_run first ops []).1 (log_run ops s').1.
Proof.
  intros Hh Hf Hg Hs Hr. destruct (reset_ok first gs None s Hf Hg Hs Hh) as (s' & E & Hok). exists s'. split; [done|].
  destruct (log_run_ok _ _ _ ops _ _ Hok Hr) as [H1 H2]. split_and!; [done| |done]. apply spec_run_linked. intros [|? ?] ? ? ? Ex; simplify_list_eq.
Qed.

(** C12: Opening the files of a log again, of either version, with the index as it was,
    without an index or with one that ends in another position, gives the same log:
    what follows is answered as before, and the index is right again. *)
Theorem log_reopens v first gs bs s index ops :
  log_ok v first gs bs s -> bs <> [] -> index = index_file s \/ stale_index v first gs bs index -> run_fits v first gs ops bs ->
  exists s', block_log (block_file s) index = (s', Ok tt) /\ index_file s' = index_file s /\
    (log_run ops s').2 = (spec_run first ops bs).2 /\ log_ok v first gs (spec_run first ops bs).1 (log_run ops s').1.
Proof.
  intros Hok Hne Hi Hr. destruct (open_ok _ _ _ _ _ _ Hok Hne Hi) as (s' & E & Hok'). exists s'. split; [done|].
  split; [by rewrite (ok_index _ _ _ _ _ Hok), (ok_index _ _ _ _ _ Hok')|]. by apply log_run_ok.
Qed.

(** C13: on a file with a good header and at least one complete block
    [repair_log] ends. It keeps every block that was written completely,
    whatever follows in the file, and the new file is again a header and blocks with
    their positions; a file that was undamaged comes out unchanged, and with a block
    number to stop at the file ends with that block. *)
Theorem repair_recovers v first gs bs tail t :
  log_wf v first gs bs -> bs <> [] -> let old := log_header v first gs ++ entries (size (log_header v first gs)) bs ++ tail in size old < 2 ^ 63 ->
  (Forall (fun b => sb_block_num b <> t) bs -> exists bs' out,
     repair_log old t = Ok (log_header v first gs ++ entries (size (log_header v first gs)) (bs ++ bs'), out) /\
     (tail = [] -> bs' = [] /\ out = all_recovered)) /\
  (forall l b l', bs = l ++ b :: l' -> t = sb_block_num b ->
     repair_log old t = Ok (log_header v first gs ++ entries (size (log_header v first gs)) (l ++ [b]), truncated)).
Proof.
  intros W Hne old Hs. set (hd := log_header v first gs) in *. pose proof (wf_last _ _ _ _ W) as Hl. pose proof (wf_blocks _ _ _ _ W) as Hv.
  assert (first < 2 ^ 32) as Hf by (destruct bs; [done|simpl in Hl; lia]).
  assert (forall b, repair_log old b = repair_loop (S (length old)) old (Some (entries (size hd) bs ++ tail)) hd (size hd) b) as Er.
  { intros b. unfold repair_log, old, hd. rewrite (repair_header_ok _ _ _ bs) by done. cbn [mbind result_bind]. f_equal. unfold quiet_tellg. sizes. }
  assert (forall l, (length l <= length (entries (size hd) l))%nat) as Hlen by (intros; apply length_entries).
  assert (length old = length hd + length (entries (size hd) bs) + length tail)%nat as Ho by (unfold old; rewrite !length_app; lia).
  split.
  - intros Ht. rewrite Er. replace (S (length old)) with (length bs + (S (length old) - length bs))%nat by (specialize (Hlen bs); lia).
    rewrite repair_walk by done. set (new := hd ++ entries (size hd) bs). destruct tail as [|x tail].
    + exists [], all_recovered. rewrite app_nil_r. split; [|done]. destruct (S (length old) - length bs)%nat; cbn [repair_loop]; (rewrite (proj2 (Z.ltb_ge _ _)); [done|]); unfold old, new; rewrite !size_app, size_nil; lia.
    + destruct (repair_any t (S (length old) - length bs) old (Some (x :: tail)) new) as (bs' & out & E).
      { unfold new. rewrite size_app. unfold size at 1 2 3. specialize (Hlen bs). lia. }
      exists bs', out. split; [|done]. rewrite E. unfold new. by rewrite entries_app, <- app_assoc, size_app.
  - intros l b l' -> ->. rewrite Er. rewrite length_app in *. cbn [length] in *. apply Forall_app in Hv as [Hv1 Hv2]. apply Forall_inv in Hv2.
    set (new := hd ++ entries (size hd) l). set (rest := entries (size hd + size (entries (size hd) (l ++ [b]))) l' ++ tail).
    assert (entries (size hd) (l ++ b :: l') ++ tail = entries (size hd) l ++ cd_put block_codec b ++ le_put 8 (size new) ++ rest) as Ee.
    { unfold new, rest. rewrite entries_middle, size_app, <- !app_assoc. reflexivity. }
    assert (old = hd ++ entries (size hd) l ++ cd_put block_codec b ++ le_put 8 (size new) ++ rest) as Eo by (unfold old; by rewrite Ee).
    replace (S (length old)) with (length l + (S (length old - length l)))%nat by (rewrite Eo, !length_app; specialize (Hlen l); lia).
    rewrite Ee, repair_walk; [|done|done|done|by eapply wf_distinct]. fold new.
    rewrite repair_turn; [|by unfold new; rewrite <- app_assoc|done|done]. cbv zeta. rewrite Z.eqb_refl. unfold new. rewrite entries_middle, size_app. cbn [entries]. by rewrite <- !app_assoc, app_nil_r.
Qed.

End Recovery.
