(* ===== verification/BlockLogRuns.v ===== *)
(** * The block log: a concrete log

    A packing of blocks with the laws of [LogLaws], and the theorems about the block
    log on a log of three blocks. *)

From Stdlib Require Import ZArith Lia Bool.
From stdpp Require Import base numbers list.
From S2P Require Import Prelude Merkle BlockHeader BlockHeaderProofs Transaction Block Datastream BlockLog BlockLogProofs BlockLogRecovery.
Import BlockHeaderProofs.Concrete.

Open Scope Z_scope.

(** A log that was started without a block cannot be opened: the head is looked at
    although there is none. *)
Lemma open_without_blocks `{CryptoLaws} {G : Type} `{!LogCodecs G} {valid valid_genesis} `{!LogLaws G valid valid_genesis} first gs s index :
  bl_head s = None -> 0 < first < 2 ^ 32 -> valid_genesis gs -> size (log_header 2 first gs) < 2 ^ 63 ->
  exists s' s'', reset gs None first s = (s', Ok tt) /\ block_log (block_file s') index = (s'', Err undefined_behavior).
Proof.
  intros Hh Hf Hg Hs. destruct (reset_ok (valid := valid) first gs None s Hf Hg Hs Hh) as (s' & E & Hok).
  pose proof (log_blocks_ok _ _ _ _ _ Hok) as B. change (option_list None) with (@nil signed_block) in B. destruct B as [W Eb].
  exists s'. unfold block_log, open. steps. cbn [new_log set_block_file set_index_file block_file index_file].
  pose proof (header_size 2 first gs (or_intror eq_refl) Hg) as Hsz. rewrite (proj2 (Z.eqb_neq _ 0)) by (rewrite Eb; cbn [entries]; rewrite app_nil_r; change (if 2 =? 1 then 4 else 8) with 8 in Hsz; lia).
  cbn [negb]. steps. set (s1 := set_block_file _ _ false). rewrite (bind_run _ _ s1 s1 (2, first)).
  - cbv beta iota. steps. erewrite bind_run by (by apply (read_head_ok (valid := valid) (valid_genesis := valid_genesis) 2 first gs [])). by eexists.
  - unfold read_version. change (block_file s1) with (block_file s').
    erewrite bind_run; [|apply from_block_eval; [done|]; change (block_file s1) with (block_file s'); eapply (read_le_at 4 _ _ [] 2); [done|rewrite Eb; unfold log_header; rewrite <- !app_assoc; reflexivity|done]].
    steps. rewrite (bind_run _ _ s1 s1 first); [done|]. change (1 <? 2) with true. cbv iota.
    erewrite bind_run; [|apply from_block_eval; [done|]; change (block_file s1) with (block_file s'); eapply (read_le_at 4 _ _ (le_put 4 2) first); [change (8 * Z.of_nat 4) with 32; lia| |done]].
    2:{ rewrite Eb. unfold log_header at 1. cbn [Z.eqb Pos.eqb]. rewrite <- !app_assoc. reflexivity. }
    by rewrite (proj2 (Z.ltb_lt _ _) (proj1 Hf)).
Qed.

Module LogDemo.

(** Blocks that differ in their time and in the block before. *)
Definition demo_block (time : Z) (prev : digest) : signed_block :=
  mk_block (mk_signed_header (mk_header time 0 1 prev zero_digest zero_digest 0 None []) 0) [] [].

Definition digest_codec : codec digest :=
  map_codec (fun '(a, (b, (c, d))) => mk_digest a b c d) (fun x => (hash0 x, (hash1 x, (hash2 x, hash3 x))))
    (pair_codec (primitive 8) (pair_codec (primitive 8) (pair_codec (primitive 8) (primitive 8)))).

Definition demo_codec : codec signed_block :=
  map_codec (fun '(time, prev) => demo_block time prev) (fun b => (timestamp (sbh_header (sb_header b)), previous (sbh_header (sb_header b))))
    (pair_codec (primitive 4) digest_codec).

(** A stream that fails leaves the block as it was made. *)
Definition quiet {A} (c : codec A) (x : A) (st : option buffer) : unpacked A :=
  match st with
  | Some ds => match cd_get c ds with Ok (y, rest) => read_value y (Some rest) | Err _ => read_value x None end
  | None => read_value x None
  end.

#[export] Instance demo_codecs : LogCodecs Z := {
  block_codec := demo_codec;
  genesis_codec := primitive 8;
  quiet_block := quiet demo_codec (demo_block 0 zero_digest);
  quiet_genesis := quiet (primitive 8) 0
}.

Definition digest_valid (d : digest) : Prop := is_u64 (hash0 d) /\ is_u64 (hash1 d) /\ is_u64 (hash2 d) /\ is_u64 (hash3 d).
Definition demo_valid (b : signed_block) : Prop :=
  b = demo_block (timestamp (sbh_header (sb_header b))) (sb_previous b) /\ is_u32 (timestamp (sbh_header (sb_header b))) /\ digest_valid (sb_previous b).

#[export] Instance digest_roundtrip : RoundTrip digest_codec digest_valid.
Proof. intros [a b c d] rest Hv. unfold digest_codec. by rewrite (map_roundtrip _ _ _ _ _ (fun y => match y with mk_digest _ _ _ _ => eq_refl end)). Qed.

#[export] Instance demo_roundtrip : RoundTrip demo_codec demo_valid.
Proof.
  intros b rest (E & Ht & Hp). unfold demo_codec, map_codec. cbn [cd_get cd_put]. rewrite (get_put (c := pair_codec (primitive 4) digest_codec)) by done.
  cbn [mbind result_bind]. by rewrite E at 3.
Qed.

#[export] Instance demo_laws : LogLaws Z demo_valid is_u64.
Proof.
  split; [apply _|intros x rest Hx; by apply (get_put (c := primitive 8))|done| |].
  - intros ds b rest E. change (cd_get demo_codec ds = Ok (b, rest)) in E. cbn [quiet_block demo_codecs]. unfold quiet. by rewrite E.
  - intros ds g rest E. change (cd_get (primitive 8) ds = Ok (g, rest)) in E. cbn [quiet_genesis demo_codecs]. unfold quiet. by rewrite E.
Qed.

Definition gs : Z := 77.
Definition first_log : block_log_impl := new_log [] [].

(** Three blocks from number 5 on. *)
Definition block5 : signed_block := demo_block 100 (mk_digest (swap32 4) 1 2 3).
Definition block6 : signed_block := demo_block 101 (sb_id block5).
Definition block7 : signed_block := demo_block 102 (sb_id block6).
Definition ops : list log_op :=
  [op_read_head; op_irreversible block6; op_irreversible block5; op_irreversible block7; op_irreversible block6; op_read 6; op_read 7; op_irreversible block7; op_irreversible block5; op_read_head].

Lemma ops_fit : run_fits (valid := demo_valid) 2 5 gs ops [].
Proof. vm_compute. repeat split; intros; discriminate. Qed.

Lemma log_refines_witness :
  exists s', reset gs None 5 first_log = (s', Ok tt) /\
    (log_run ops s').2 = [Ok None; Err block_log_exception; Ok None; Err unlinkable_block_exception; Ok None; Ok (Some block6); Ok None; Ok None; Ok None; Ok (Some block7)] /\
    log_ok (valid := demo_valid) (valid_genesis := is_u64) 2 5 gs [block5; block6; block7] (log_run ops s').1.
Proof.
  destruct (log_refines (valid := demo_valid) (valid_genesis := is_u64) 5 gs first_log ops) as (s' & E & R & _ & Hok);
    [done|lia|by vm_compute|by vm_compute|apply ops_fit|].
  exists s'. split; [done|]. split; [rewrite R; vm_compute; reflexivity|]. replace [block5; block6; block7] with (spec_run 5 ops []).1 by (vm_compute; reflexivity). done.
Defined.

(** The log of the three blocks, as the operations leave it. *)
Definition log_state : block_log_impl := (log_run ops (reset gs None 5 first_log).1).1.
Definition log3 : list signed_block := [block5; block6; block7].

Lemma log_state_ok : log_ok (valid := demo_valid) (valid_genesis := is_u64) 2 5 gs log3 log_state.
Proof.
  destruct (reset_ok (valid := demo_valid) (valid_genesis := is_u64) 5 gs None first_log) as (s' & E & Hok); [lia|by vm_compute|by vm_compute|done|].
  unfold log_state. rewrite E. cbn [fst]. replace log3 with (spec_run 5 ops []).1 by (vm_compute; reflexivity). exact (proj2 (log_run_ok _ _ _ ops _ _ Hok ops_fit)).
Qed.

(** The index has lost its last entry. *)
Definition short_index : buffer := take 16 (index_file log_state).

Lemma log_reopens_witness :
  exists s', block_log (block_file log_state) short_index = (s', Ok tt) /\ index_file s' = index_file log_state /\
    (log_run [op_read 6; op_irreversible block7; op_read_head] s').2 = [Ok (Some block6); Ok None; Ok (Some block7)].
Proof.
  destruct (log_reopens (valid := demo_valid) (valid_genesis := is_u64) 2 5 gs log3 log_state short_index [op_read 6; op_irreversible block7; op_read_head])
    as (s' & E & Ei & R & _).
  - apply log_state_ok.
  - done.
  - right. right. exists (take 8 short_index), (le_value (drop 8 short_index)). split_and!; vm_compute; congruence.
  - vm_compute. repeat split; intros; discriminate.
  - exists s'. split; [done|]. split; [done|]. rewrite R. vm_compute. reflexivity.
Defined.

(** A write of another block was cut off after nine bytes. *)
Definition damaged : buffer := block_file log_state ++ take 9 (cd_put demo_codec block5).

Lemma repair_recovers_witness :
  (exists bs' out, repair_log damaged 0 = Ok (log_header 2 5 gs ++ entries (size (log_header 2 5 gs)) (log3 ++ bs'), out)) /\
  repair_log damaged 6 = Ok (log_header 2 5 gs ++ entries (size (log_header 2 5 gs)) [block5; block6], truncated).
Proof.
  pose proof (ok_wf _ _ _ _ _ log_state_ok) as W.
  assert (damaged = log_header 2 5 gs ++ entries (size (log_header 2 5 gs)) log3 ++ take 9 (cd_put demo_codec block5)) as -> by (vm_compute; reflexivity).
  split.
  - destruct (repair_recovers (valid := demo_valid) (valid_genesis := is_u64) 2 5 gs log3 (take 9 (cd_put demo_codec block5)) 0) as [R _]; [done|done|by vm_compute|].
    destruct R as (bs' & out & R & _); [repeat (apply Forall_cons; split; [vm_compute; discriminate|]); apply Forall_nil; done|]. by exists bs', out.
  - destruct (repair_recovers (valid := demo_valid) (valid_genesis := is_u64) 2 5 gs log3 (take 9 (cd_put demo_codec block5)) 6) as [_ R]; [done|done|by vm_compute|].
    apply (R [block5] block6 [block7]); vm_compute; reflexivity.
Defined.

End LogDemo.
