(* ===== verification/AbiSerializer.v ===== *)
(** * The ABI serializer

    [abi_serializer.cpp], [abi_serializer.hpp] and [abi_def.hpp]: the description of a
    contract's data, its validation, and the conversion between packed data and
    [fc::variant]. Recursion is bounded by the code itself: [enter_scope] refuses the
    32nd nested scope, and [scopes] is the number of scopes that can still be entered.
    Every check of the deadline reads the clock; the readings are a function of
    their number. The path that is kept for messages is left out.

    [FcVariants] is what [fc] does with values of C++ types: unpacking them into
    variants and packing them, and the format of array sizes. *)

From Stdlib Require Import ZArith Lia Bool String Ascii.
From stdpp Require Import base numbers gmap sorting list strings.
From S2P Require Import Prelude Name Datastream.

Open Scope Z_scope.

Notation type_name := string (only parsing).

(** ** Definitions of an ABI *)

Record type_def := mk_type_def { td_new_type_name : type_name; td_type : type_name }.
Record field_def := mk_field { fd_name : string; fd_type : type_name }.
Record struct_def := mk_struct { sd_name : type_name; sd_base : type_name; sd_fields : list field_def }.
Record action_def := mk_action_def { ad_name : Z; ad_type : type_name; ad_ricardian_contract : string }.
Record table_def := mk_table_def { tb_name : Z; tb_index_type : type_name; tb_key_names : list string; tb_key_types : list type_name; tb_type : type_name }.
Record clause_pair := mk_clause { cl_id : string; cl_body : string }.
Record error_message := mk_error_message { em_error_code : Z; em_error_msg : string }.
Record variant_def := mk_variant_def { vd_name : type_name; vd_types : list type_name }.

Record abi_def := mk_abi {
  ab_version : string;
  ab_types : list type_def;
  ab_structs : list struct_def;
  ab_actions : list action_def;
  ab_tables : list table_def;
  ab_ricardian_clauses : list clause_pair;
  ab_error_messages : list error_message;
  ab_extensions : list (Z * buffer);
  ab_variants : list variant_def
}.

(** ** Variants of fc *)

Inductive variant :=
| v_null
| v_int64 (z : Z)
| v_uint64 (z : Z)
| v_double (bits : Z)
| v_bool (b : bool)
| v_string (s : string)
| v_array (l : list variant)
| v_object (fields : list (string * variant))
| v_blob (data : buffer).

Definition is_null (v : variant) : bool := match v with v_null => true | _ => false end.
Definition get_array (v : variant) : result (list variant) := match v with v_array l => mret l | _ => Err bad_cast_exception end.

(** A field of an object, and its replacement or addition. *)
Fixpoint obj_find (k : string) (o : list (string * variant)) : option variant :=
  match o with [] => None | (k', v) :: o => if String.eqb k k' then Some v else obj_find k o end.
Fixpoint obj_set (o : list (string * variant)) (k : string) (v : variant) : list (string * variant) :=
  match o with [] => [(k, v)] | (k', v') :: o => if String.eqb k k' then (k', v) :: o else (k', v') :: obj_set o k v end.

Definition unpack_function : Type := buffer -> bool -> bool -> result (variant * buffer).
Definition pack_function : Type := variant -> bool -> bool -> result buffer.

(** A C++ type of a value. *)
Inductive cpp_type := cpp (t : string) | cpp_vector (t : string) | cpp_optional (t : string).

Class FcVariants := {
  variant_from_stream : cpp_type -> buffer -> result (variant * buffer);
  raw_pack_as : cpp_type -> variant -> result buffer;
  as_bytes : variant -> result buffer;
  fc_unsigned_int : codec Z
}.

Definition shape (t : string) (is_array is_optional : bool) : cpp_type :=
  if is_array then cpp_vector t else if is_optional then cpp_optional t else cpp t.

(** ** The serializer *)

Record abi_serializer := mk_abis {
  typedefs : gmap string type_name;
  structs : gmap string struct_def;
  actions : gmap Z type_name;
  tables : gmap Z type_name;
  error_messages : gmap Z string;
  variants : gmap string variant_def;
  built_in_types : gmap string (unpack_function * pack_function)
}.

Definition max_recursion_depth : nat := 32.

Section Builtin.
Context `{FcVariants}.

Definition pack_unpack (t : string) : unpack_function * pack_function :=
  (fun stream is_array is_optional => variant_from_stream (shape t is_array is_optional) stream,
   fun var is_array is_optional => raw_pack_as (shape t is_array is_optional) var).

(** The names of the ABI and the C++ types that are packed. *)
Definition built_in_list : list (string * string) := [
  ("bool", "uint8_t"); ("int8", "int8_t"); ("uint8", "uint8_t"); ("int16", "int16_t"); ("uint16", "uint16_t"); ("int32", "int32_t"); ("uint32", "uint32_t");
  ("int64", "int64_t"); ("uint64", "uint64_t"); ("int128", "int128_t"); ("uint128", "uint128_t"); ("varint32", "fc::signed_int"); ("varuint32", "fc::unsigned_int");
  ("float32", "float"); ("float64", "double"); ("float128", "uint128_t"); ("time_point", "fc::time_point"); ("time_point_sec", "fc::time_point_sec");
  ("block_timestamp_type", "block_timestamp_type"); ("name", "name"); ("bytes", "bytes"); ("string", "string"); ("checksum160", "checksum160_type");
  ("checksum256", "checksum256_type"); ("checksum512", "checksum512_type"); ("public_key", "public_key_type"); ("signature", "signature_type");
  ("symbol", "symbol"); ("symbol_code", "symbol_code"); ("asset", "asset"); ("extended_asset", "extended_asset")]%string.

Definition configure_built_in_types : gmap string (unpack_function * pack_function) :=
  list_to_map ((fun '(n, t) => (n, pack_unpack t)) <$> built_in_list).

Definition new_abi_serializer : abi_serializer := mk_abis ∅ ∅ ∅ ∅ ∅ ∅ configure_built_in_types.

End Builtin.

Definition add_specialized_unpack_pack (s : abi_serializer) (name : string) (f : unpack_function * pack_function) : abi_serializer :=
  mk_abis (typedefs s) (structs s) (actions s) (tables s) (error_messages s) (variants s) (<[name := f]> (built_in_types s)).

(** ** Names of types *)

Definition ends_with (s suffix : string) : bool :=
  (String.length suffix <=? String.length s)%nat &&
  String.eqb (substring (String.length s - String.length suffix) (String.length suffix) s) suffix.

Definition is_array (t : type_name) : bool := ends_with t "[]".
Definition is_optional (t : type_name) : bool := ends_with t "?".
Definition is_extension (t : type_name) : bool := ends_with t "$".

Definition fundamental_type (t : type_name) : type_name :=
  if is_array t then substring 0 (String.length t - 2) t
  else if is_optional t then substring 0 (String.length t - 1) t
  else t.
Definition remove_bin_extension (t : type_name) : type_name :=
  if is_extension t then substring 0 (String.length t - 1) t else t.
Definition is_integer (t : type_name) : bool := String.prefix "uint" t || String.prefix "int" t.

(** ** The context of a conversion

    The number of clock readings so far, and the data that is left to read or was
    written. *)
Record abi_state := mk_abi_state { as_ticks : nat; as_data : buffer }.
Notation AM := (M abi_state).

Definition as_fc_exception (e : exn) : bool :=
  bool_decide (e = std_out_of_range \/ e = parse_error \/ e = overflow_exception \/ e = bad_cast_exception \/ e = std_ios_failure).

(** [SNAX_RETHROW_EXCEPTIONS]: exceptions that are not of the chain become [e]. *)
Definition rethrow {B} (e : exn) (r : result B) : result B :=
  match r with Ok x => Ok x | Err e' => Err (if as_fc_exception e' then e else e') end.

(** Reading with a reader of what is left. *)
Definition from_stream {B} (f : buffer -> result (B * buffer)) : AM B :=
  s ← get_state;
  '(x, rest) ← lift (f (as_data s));
  put_state (mk_abi_state (as_ticks s) rest);;
  mret x.

Fixpoint for_each {X} (f : X -> AM unit) (l : list X) : AM unit :=
  match l with [] => mret tt | x :: l => f x;; for_each f l end.

(** [std::map] is iterated in the order of its keys. *)
Definition by_name {X} (x y : string * X) : Prop := String.leb x.1 y.1 = true.
#[export] Instance by_name_dec {X} : RelDecision (@by_name X).
Proof. intros x y. unfold by_name. apply _. Defined.
Definition by_number {X} (x y : Z * X) : Prop := x.1 <= y.1.
#[export] Instance by_number_dec {X} : RelDecision (@by_number X).
Proof. intros x y. unfold by_number. apply _. Defined.
Definition items {X} (m : gmap string X) : list (string * X) := merge_sort by_name (map_to_list m).
Definition number_items {X} (m : gmap Z X) : list (Z * X) := merge_sort by_number (map_to_list m).

Section Context_.
Context `{FcVariants} (clock : nat -> Z) (deadline : Z).

Definition check_deadline : AM unit :=
  s ← get_state;
  put_state (mk_abi_state (S (as_ticks s)) (as_data s));;
  M_ASSERT (clock (as_ticks s) <? deadline) abi_serialization_deadline_exception.

(** ** Types of a serializer *)

Section Types.
Context (abis : abi_serializer).

Definition is_builtin_type (t : type_name) : bool := bool_decide (is_Some (built_in_types abis !! t)).

(** The loop of [resolve_type], with the value that the iterator points to. *)
Fixpoint resolve_loop (i : nat) (t : type_name) (type : type_name) : type_name :=
  match i with
  | O => type
  | S i => match typedefs abis !! t with None => t | Some t' => resolve_loop i t' type end
  end.
Definition resolve_type (type : type_name) : type_name :=
  match typedefs abis !! type with None => type | Some t => resolve_loop (size (typedefs abis)) t type end.

Definition is_struct (t : type_name) : bool := bool_decide (is_Some (structs abis !! resolve_type t)).
Definition get_struct (t : type_name) : result struct_def := of_option invalid_type_inside_abi (structs abis !! resolve_type t).

(** [_is_type]. *)
Fixpoint is_type_ (scopes : nat) (rtype : type_name) : AM bool :=
  match scopes with
  | O => throw abi_recursion_depth_exception
  | S scopes =>
      check_deadline;;
      let type := fundamental_type rtype in
      if is_builtin_type type then mret true
      else match typedefs abis !! type with
           | Some t => is_type_ scopes t
           | None => mret (bool_decide (is_Some (structs abis !! type)) || bool_decide (is_Some (variants abis !! type)))
           end
  end.

Definition is_type : type_name -> AM bool := is_type_ (max_recursion_depth - 1).

Definition get_action_type (action : Z) : type_name := default ""%string (actions abis !! action).
Definition get_table_type (table : Z) : type_name := default ""%string (tables abis !! table).
Definition get_error_message (error_code : Z) : option string := error_messages abis !! error_code.

(** ** Validation *)

Definition assert_type (t : type_name) : AM unit := b ← is_type t; M_ASSERT b invalid_type_inside_abi.

(** The loop over the types a typedef stands for: every turn finds a type that was
    not seen. *)
Fixpoint typedef_loop (fuel : nat) (types_seen : list type_name) (t : type_name) : AM unit :=
  match typedefs abis !! t with
  | None => mret tt
  | Some t' =>
      match fuel with
      | O => throw out_of_fuel
      | S fuel =>
          check_deadline;;
          M_ASSERT (bool_decide (t' ∉ types_seen)) abi_circular_def_exception;;
          typedef_loop fuel (types_seen ++ [t']) t'
      end
  end.

(** The loop over the bases of a struct. *)
Fixpoint base_loop (fuel : nat) (types_seen : list type_name) (current : struct_def) : AM unit :=
  if String.eqb (sd_base current) "" then mret tt
  else
    match fuel with
    | O => throw out_of_fuel
    | S fuel =>
        check_deadline;;
        base ← lift (get_struct (sd_base current));
        M_ASSERT (bool_decide (sd_name base ∉ types_seen)) abi_circular_def_exception;;
        base_loop fuel (types_seen ++ [sd_name base]) base
    end.

Definition validate_struct (s : struct_def) : AM unit :=
  base_loop (S (size (structs abis))) [sd_name s] s;;
  for_each (fun field => check_deadline;; assert_type (remove_bin_extension (fd_type field))) (sd_fields s).

Definition validate : AM unit :=
  for_each (fun '(t, t') => typedef_loop (S (size (typedefs abis))) [t; t'] t') (items (typedefs abis));;
  for_each (fun '(_, t) => assert_type t) (items (typedefs abis));;
  for_each (fun '(_, s) => validate_struct s) (items (structs abis));;
  for_each (fun '(_, v) => for_each (fun t => check_deadline;; assert_type t) (vd_types v)) (items (variants abis));;
  for_each (fun '(_, t) => check_deadline;; assert_type t) (number_items (actions abis));;
  for_each (fun '(_, t) => check_deadline;; assert_type t) (number_items (tables abis)).

End Types.
End Context_.

Definition clear_types (s : abi_serializer) : abi_serializer := mk_abis ∅ ∅ ∅ ∅ ∅ ∅ (built_in_types s).
Definition set_structs (s : abi_serializer) (m : gmap string struct_def) : abi_serializer :=
  mk_abis (typedefs s) m (actions s) (tables s) (error_messages s) (variants s) (built_in_types s).
Definition set_typedefs (s : abi_serializer) (m : gmap string type_name) : abi_serializer :=
  mk_abis m (structs s) (actions s) (tables s) (error_messages s) (variants s) (built_in_types s).

(** [m[k] = v] one after the other: a later one replaces an earlier one. *)
Definition assign_all {K X Y} `{Countable K} (key : X -> K) (val : X -> Y) (l : list X) : gmap K Y :=
  foldl (fun m x => <[key x := val x]> m) ∅ l.

Section SetAbi.
Context `{FcVariants} (clock : nat -> Z) (deadline : Z).

(** The typedefs are checked while they are added, before the variants are there. *)
Fixpoint add_typedefs (s : abi_serializer) (types : list type_def) : AM abi_serializer :=
  match types with
  | [] => mret s
  | td :: types =>
      known ← is_type clock deadline s (td_type td);
      M_ASSERT known invalid_type_inside_abi;;
      exists_ ← is_type clock deadline s (td_new_type_name td);
      M_ASSERT (negb exists_) duplicate_abi_type_def_exception;;
      add_typedefs (set_typedefs s (<[td_new_type_name td := td_type td]> (typedefs s))) types
  end.

(** The serializer as it is after a call that does not throw. *)
Definition set_abi (s : abi_serializer) (abi : abi_def) : AM abi_serializer :=
  M_ASSERT (String.prefix "snax::abi/1." (ab_version abi)) unsupported_abi_version_exception;;
  let s := set_structs (clear_types s) (assign_all sd_name id (ab_structs abi)) in
  s ← add_typedefs s (ab_types abi);
  let s := mk_abis (typedefs s) (structs s) (assign_all ad_name ad_type (ab_actions abi)) (assign_all tb_name tb_type (ab_tables abi))
             (assign_all em_error_code em_error_msg (ab_error_messages abi)) (assign_all vd_name id (ab_variants abi)) (built_in_types s) in
  M_ASSERT (size (typedefs s) =? length (ab_types abi))%nat duplicate_abi_type_def_exception;;
  M_ASSERT (size (structs s) =? length (ab_structs abi))%nat duplicate_abi_struct_def_exception;;
  M_ASSERT (size (actions s) =? length (ab_actions abi))%nat duplicate_abi_action_def_exception;;
  M_ASSERT (size (tables s) =? length (ab_tables abi))%nat duplicate_abi_table_def_exception;;
  M_ASSERT (size (error_messages s) =? length (ab_error_messages abi))%nat duplicate_abi_err_msg_def_exception;;
  M_ASSERT (size (variants s) =? length (ab_variants abi))%nat duplicate_abi_variant_def_exception;;
  validate clock deadline s;;
  mret s.

End SetAbi.

(** ** From packed data to variants *)

Section Read.
Context `{FcVariants} (clock : nat -> Z) (deadline : Z) (abis : abi_serializer).

(** The elements of an array. *)
Fixpoint read_many (read : AM variant) (n : nat) : AM (list variant) :=
  match n with
  | O => mret []
  | S n =>
      v ← read;
      M_ASSERT (negb (is_null v)) unpack_exception;;
      l ← read_many read n;
      mret (v :: l)
  end.

(** The fields of a struct, in the object that is built. *)
Fixpoint read_fields (read : type_name -> AM variant) (fields : list field_def) (encountered_extension : bool) (obj : list (string * variant))
    : AM (list (string * variant)) :=
  match fields with
  | [] => mret obj
  | field :: fields =>
      let extension := is_extension (fd_type field) in
      let encountered_extension := encountered_extension || extension in
      s ← get_state;
      if bool_decide (as_data s = []) then
        if extension then read_fields read fields encountered_extension obj
        else if encountered_extension then throw abi_exception
        else throw unpack_exception
      else
        v ← read (resolve_type abis (if extension then remove_bin_extension (fd_type field) else fd_type field));
        read_fields read fields encountered_extension (obj_set obj (fd_name field) v)
  end.

(** The two functions [_binary_to_variant] call each other: [read_object] is the one
    that fills an object, for a bound on its own scopes. *)
Fixpoint binary_to_variant_ (scopes : nat) (type : type_name) : AM variant :=
  match scopes with
  | O => throw abi_recursion_depth_exception
  | S scopes =>
      check_deadline clock deadline;;
      let rtype := resolve_type abis type in
      let ftype := fundamental_type rtype in
      match built_in_types abis !! ftype with
      | Some (unpack, _) => from_stream (fun ds => rethrow unpack_exception (unpack ds (is_array rtype) (is_optional rtype)))
      | None =>
          if is_array rtype then
            size ← from_stream (fun ds => rethrow unpack_exception (cd_get fc_unsigned_int ds));
            vars ← read_many (binary_to_variant_ scopes ftype) (Z.to_nat size);
            mret (v_array vars)
          else if is_optional rtype then
            flag ← from_stream (fun ds => rethrow unpack_exception (match ds with [] => Err std_out_of_range | b :: ds => Ok (b, ds) end));
            if flag =? 0 then mret v_null else binary_to_variant_ scopes ftype
          else
            match variants abis !! rtype with
            | Some v =>
                select ← from_stream (fun ds => rethrow unpack_exception (cd_get fc_unsigned_int ds));
                M_ASSERT (select <? Z.of_nat (length (vd_types v))) unpack_exception;;
                let t := default ""%string (vd_types v !! Z.to_nat select) in
                x ← binary_to_variant_ scopes t;
                mret (v_array [v_string t; x])
            | None =>
                obj ← read_object scopes rtype [];
                M_ASSERT (0 <? length obj)%nat unpack_exception;;
                mret (v_object obj)
            end
      end
  end
with read_object (scopes : nat) (type : type_name) (obj : list (string * variant)) : AM (list (string * variant)) :=
  match scopes with
  | O => throw abi_recursion_depth_exception
  | S scopes =>
      check_deadline clock deadline;;
      st ← lift (of_option invalid_type_inside_abi (structs abis !! type));
      obj ← (if String.eqb (sd_base st) "" then mret obj else read_object scopes (resolve_type abis (sd_base st)) obj);
      read_fields (binary_to_variant_ scopes) (sd_fields st) false obj
  end.

(** The overload for a stream. *)
Definition binary_to_variant (type : type_name) : AM variant := binary_to_variant_ (max_recursion_depth - 1) type.

(** The overload for bytes enters a scope of its own. *)
Definition binary_to_variant_bytes (type : type_name) (binary : buffer) (ticks : nat) : result variant :=
  ((check_deadline clock deadline;; binary_to_variant_ (max_recursion_depth - 2) type) (mk_abi_state ticks binary)).2.

End Read.

(** ** From variants to packed data *)

Section Pack.
Context `{FcVariants} (clock : nat -> Z) (deadline : Z) (abis : abi_serializer) (limit : Z).

(** A datastream over a buffer of [limit] bytes. *)
Definition emit (data : buffer) : AM unit :=
  s ← get_state;
  M_ASSERT (Z.of_nat (length (as_data s)) + Z.of_nat (length data) <=? limit) std_out_of_range;;
  put_state (mk_abi_state (as_ticks s) (as_data s ++ data)).

(** The first item of the array that stands for a variant names one of its types. *)
Definition variant_choice (v : variant_def) (var : variant) : result (nat * type_name * variant) :=
  match var with
  | v_array [tag; x] =>
      match tag with
      | v_string variant_type_str =>
          '(i, t) ← of_option pack_exception (list_find (fun t => t = variant_type_str) (vd_types v));
          mret (i, t, x)
      | _ => Err pack_exception
      end
  | _ => Err pack_exception
  end.

(** The fields of a struct that is given as an object. Extensions may be left out
    at the end. *)
Fixpoint pack_fields (pack : bool -> type_name -> variant -> AM unit) (allow_extensions : bool) (vo : list (string * variant))
    (fields : list field_def) (disallow_additional_fields : bool) : AM unit :=
  match fields with
  | [] => mret tt
  | field :: fields =>
      match obj_find (fd_name field) vo with
      | Some v =>
          M_ASSERT (negb disallow_additional_fields) pack_exception;;
          pack (allow_extensions && bool_decide (fields = [])) (remove_bin_extension (fd_type field)) v;;
          pack_fields pack allow_extensions vo fields disallow_additional_fields
      | None =>
          if is_extension (fd_type field) && allow_extensions then pack_fields pack allow_extensions vo fields true
          else if disallow_additional_fields then throw abi_exception
          else throw pack_exception
      end
  end.

(** The fields of a struct that is given as an array. *)
Fixpoint pack_items (pack : bool -> type_name -> variant -> AM unit) (allow_extensions : bool) (va : list variant) (fields : list field_def) {struct fields} : AM unit :=
  match fields with
  | [] => mret tt
  | field :: fields =>
      match va with
      | v :: va =>
          pack (allow_extensions && bool_decide (fields = [])) (remove_bin_extension (fd_type field)) v;;
          pack_items pack allow_extensions va fields
      | [] => if is_extension (fd_type field) && allow_extensions then mret tt else throw pack_exception
      end
  end.

Fixpoint variant_to_binary_ (scopes : nat) (allow_extensions : bool) (type : type_name) (var : variant) : AM unit :=
  match scopes with
  | O => throw abi_recursion_depth_exception
  | S scopes =>
      check_deadline clock deadline;;
      let rtype := resolve_type abis type in
      match built_in_types abis !! fundamental_type rtype with
      | Some (_, pack) =>
          data ← lift (pack var (is_array rtype) (is_optional rtype));
          emit data
      | None =>
          if is_array rtype then
            vars ← lift (get_array var);
            emit (cd_put fc_unsigned_int (u32 (Z.of_nat (length vars))));;
            for_each (variant_to_binary_ scopes false (fundamental_type rtype)) vars
          else
            match variants abis !! rtype with
            | Some v =>
                '(i, t, x) ← lift (variant_choice v var);
                emit (cd_put fc_unsigned_int (u32 (Z.of_nat i)));;
                variant_to_binary_ scopes allow_extensions t x
            | None =>
                match structs abis !! rtype with
                | Some st =>
                    match var with
                    | v_object vo =>
                        (if String.eqb (sd_base st) "" then mret tt else variant_to_binary_ scopes false (resolve_type abis (sd_base st)) var);;
                        pack_fields (variant_to_binary_ scopes) allow_extensions vo (sd_fields st) false
                    | v_array va =>
                        M_ASSERT (String.eqb (sd_base st) "") invalid_type_inside_abi;;
                        pack_items (variant_to_binary_ scopes) allow_extensions va (sd_fields st)
                    | _ => throw pack_exception
                    end
                | None => throw invalid_type_inside_abi
                end
            end
      end
  end.

(** The overload for a stream. *)
Definition variant_to_binary (type : type_name) (var : variant) : AM unit := variant_to_binary_ (max_recursion_depth - 1) true type var.

End Pack.

(** The overload that returns bytes has a buffer of 1 MiB; a variant of an unknown
    type is taken for bytes. *)
Definition variant_to_binary_bytes `{FcVariants} (clock : nat -> Z) (deadline : Z) (abis : abi_serializer) (type : type_name) (var : variant) (ticks : nat) : result buffer :=
  let '(s, r) := (check_deadline clock deadline;;
                  known ← is_type_ clock deadline abis (max_recursion_depth - 2) type;
                  if (known : bool) then
                    variant_to_binary_ clock deadline abis (1024 * 1024) (max_recursion_depth - 2) true type var;;
                    s ← get_state; mret (as_data s)
                  else lift (as_bytes var)) (mk_abi_state ticks []) in
  r.

(** ABIs that are not set are empty. *)
Definition is_empty_abi (abi_vec : buffer) : bool := (length abi_vec <=? 4)%nat.

(** ** The ABI of the system account

    [snax_contract_abi.cpp]: what the node adds to the ABI of the system contract. *)

Section SystemAbi.
Open Scope string_scope.

Definition common_type_defs : list type_def := [
  mk_type_def "account_name" "name";
  mk_type_def "permission_name" "name";
  mk_type_def "action_name" "name";
  mk_type_def "table_name" "name";
  mk_type_def "transaction_id_type" "checksum256";
  mk_type_def "block_id_type" "checksum256";
  mk_type_def "weight_type" "uint16"].

Definition native_structs : list struct_def := [
  mk_struct "permission_level" "" [mk_field "actor" "account_name"; mk_field "permission" "permission_name"];
  mk_struct "action" "" [mk_field "account" "account_name"; mk_field "name" "action_name"; mk_field "authorization" "permission_level[]"; mk_field "data" "bytes"];
  mk_struct "extension" "" [mk_field "type" "uint16"; mk_field "data" "bytes"];
  mk_struct "transaction_header" "" [mk_field "expiration" "time_point_sec"; mk_field "ref_block_num" "uint16"; mk_field "ref_block_prefix" "uint32"; mk_field "max_net_usage_words" "varuint32"; mk_field "max_cpu_usage_ms" "uint8"; mk_field "delay_sec" "varuint32"];
  mk_struct "transaction" "transaction_header" [mk_field "context_free_actions" "action[]"; mk_field "actions" "action[]"; mk_field "transaction_extensions" "extension[]"];
  mk_struct "producer_key" "" [mk_field "producer_name" "account_name"; mk_field "block_signing_key" "public_key"];
  mk_struct "producer_schedule" "" [mk_field "version" "uint32"; mk_field "producers" "producer_key[]"];
  mk_struct "block_header" "" [mk_field "timestamp" "uint32"; mk_field "producer" "account_name"; mk_field "confirmed" "uint16"; mk_field "previous" "block_id_type"; mk_field "transaction_mroot" "checksum256"; mk_field "action_mroot" "checksum256"; mk_field "schedule_version" "uint32"; mk_field "new_producers" "producer_schedule?"; mk_field "header_extensions" "extension[]"];
  mk_struct "key_weight" "" [mk_field "key" "public_key"; mk_field "weight" "weight_type"];
  mk_struct "permission_level_weight" "" [mk_field "permission" "permission_level"; mk_field "weight" "weight_type"];
  mk_struct "wait_weight" "" [mk_field "wait_sec" "uint32"; mk_field "weight" "weight_type"];
  mk_struct "authority" "" [mk_field "threshold" "uint32"; mk_field "keys" "key_weight[]"; mk_field "accounts" "permission_level_weight[]"; mk_field "waits" "wait_weight[]"];
  mk_struct "newaccount" "" [mk_field "creator" "account_name"; mk_field "name" "account_name"; mk_field "owner" "authority"; mk_field "active" "authority"];
  mk_struct "setcode" "" [mk_field "account" "account_name"; mk_field "vmtype" "uint8"; mk_field "vmversion" "uint8"; mk_field "code" "bytes"];
  mk_struct "setabi" "" [mk_field "account" "account_name"; mk_field "abi" "bytes"];
  mk_struct "updateauth" "" [mk_field "account" "account_name"; mk_field "permission" "permission_name"; mk_field "parent" "permission_name"; mk_field "auth" "authority"];
  mk_struct "deleteauth" "" [mk_field "account" "account_name"; mk_field "permission" "permission_name"];
  mk_struct "linkauth" "" [mk_field "account" "account_name"; mk_field "code" "account_name"; mk_field "type" "action_name"; mk_field "requirement" "permission_name"];
  mk_struct "unlinkauth" "" [mk_field "account" "account_name"; mk_field "code" "account_name"; mk_field "type" "action_name"];
  mk_struct "canceldelay" "" [mk_field "canceling_auth" "permission_level"; mk_field "trx_id" "transaction_id_type"];
  mk_struct "onerror" "" [mk_field "sender_id" "uint128"; mk_field "sent_trx" "bytes"];
  mk_struct "onblock" "" [mk_field "header" "block_header"]].

Definition native_actions : list action_def :=
  (fun n => mk_action_def (string_to_name (list_ascii_of_string n)) n "") <$> [
  "newaccount"; "setcode"; "setabi"; "updateauth"; "deleteauth"; "linkauth"; "unlinkauth"; "canceldelay"; "onerror"; "onblock"].

Definition snax_contract_abi (snax_system_abi : abi_def) : abi_def :=
  mk_abi (if (String.length (ab_version snax_system_abi) =? 0)%nat then "snax::abi/1.0" else ab_version snax_system_abi)
    (ab_types snax_system_abi ++ common_type_defs) (ab_structs snax_system_abi ++ native_structs) (ab_actions snax_system_abi ++ native_actions)
    (ab_tables snax_system_abi) (ab_ricardian_clauses snax_system_abi) (ab_error_messages snax_system_abi) (ab_extensions snax_system_abi) (ab_variants snax_system_abi).

End SystemAbi.
