(* ===== verification/AbiSerializerProofs.v ===== *)
(** * The ABI serializer: what validation guarantees

    [set_abi] always ends and accepts only ABIs whose types are all known, whose
    typedefs resolve and whose structs have no circular bases ([set_abi_validates]);
    for such an ABI with plain names, unpacking never meets an unknown type
    ([unpack_known]). *)

From Stdlib Require Import ZArith Lia Bool String Ascii.
From stdpp Require Import base numbers gmap sorting list strings.
From S2P Require Import Prelude Datastream AbiSerializer.

Open Scope Z_scope.

(** ** Loops *)

Lemma for_each_Ok {X} (f : X -> M abi_state unit) l : forall s s', for_each f l s = (s', Ok tt) -> Forall (fun x => exists s1 s2, f x s1 = (s2, Ok tt)) l.
Proof.
  induction l as [|x l IH]; intros s s' E; [done|]. cbn [for_each] in E. apply M_bind_Ok in E as (s1 & [] & E1 & E2). constructor; [by eauto|by eapply IH].
Qed.

Lemma for_each_Err {X} (f : X -> M abi_state unit) l e : (forall x s, x ∈ l -> (f x s).2 <> Err e) -> forall s, (for_each f l s).2 <> Err e.
Proof.
  induction l as [|x l IH]; intros Hf s; [done|]. cbn [for_each]. unfold mbind, M_bind. specialize (Hf x s ltac:(set_solver)) as Hx.
  destruct (f x s) as [s' [[]|e']]; [|done]. apply IH. intros. apply Hf. set_solver.
Qed.

Lemma items_elem {X} (m : gmap string X) k x : (k, x) ∈ items m <-> m !! k = Some x.
Proof. unfold items. rewrite merge_sort_Permutation. apply elem_of_map_to_list. Qed.
Lemma number_items_elem {X} (m : gmap Z X) k x : (k, x) ∈ number_items m <-> m !! k = Some x.
Proof. unfold number_items. rewrite merge_sort_Permutation. apply elem_of_map_to_list. Qed.

Lemma bind_not_Err {S X Y} (m : M S X) (f : X -> M S Y) e s : (m s).2 <> Err e -> (forall x s', m s = (s', Ok x) -> (f x s').2 <> Err e) -> ((m ≫= f) s).2 <> Err e.
Proof. unfold mbind, M_bind. intros Hm Hf. destruct (m s) as [s' [x|e']]; [by apply Hf|]. intros [= ->]. by apply Hm. Qed.

(** [no_err] splits the goal that code does not end in an exception. *)
Ltac no_err := repeat first [apply bind_not_Err; [|intros ? ? _] | done].

Lemma assert_not {S} (c : bool) e e' (s : S) : e' <> e -> (M_ASSERT c e' s).2 <> Err e.
Proof. intros Hn. destruct c; simpl; congruence. Qed.
Lemma check_deadline_not clock deadline e s : e <> abi_serialization_deadline_exception -> (check_deadline clock deadline s).2 <> Err e.
Proof. intros Hn. unfold check_deadline. no_err. by apply assert_not. Qed.

(** A list of distinct items of a list is not longer. *)
Lemma distinct_length {X} (l k : list X) : NoDup l -> (forall x, x ∈ l -> x ∈ k) -> (length l <= length k)%nat.
Proof. intros Hn Hs. apply submseteq_length, NoDup_submseteq; [done|]. intros x. apply Hs. Qed.

(** ** Known types *)

Section Known.
Context (abis : abi_serializer).

Inductive known : string -> Prop :=
| known_builtin t : is_Some (built_in_types abis !! fundamental_type t) -> known t
| known_typedef t u : typedefs abis !! fundamental_type t = Some u -> known u -> known t
| known_struct t : is_Some (structs abis !! fundamental_type t) -> known t
| known_variant t : is_Some (variants abis !! fundamental_type t) -> known t.

Lemma is_type_known clock deadline n : forall t s s', is_type_ clock deadline abis n t s = (s', Ok true) -> known t.
Proof.
  induction n as [|n IH]; intros t s s' E; [done|]. cbn [is_type_] in E. apply M_bind_Ok in E as (s1 & [] & _ & E). unfold is_builtin_type in E.
  destruct (bool_decide_reflect (is_Some (built_in_types abis !! fundamental_type t))); [by apply known_builtin|].
  destruct (typedefs abis !! fundamental_type t) as [u|] eqn:Eu; [eapply known_typedef; [done|by eapply IH]|].
  injection E as _ E. apply orb_true_iff in E as [E|E]; apply bool_decide_eq_true_1 in E; [by apply known_struct|by apply known_variant].
Qed.

Lemma assert_type_known clock deadline t s s' : assert_type clock deadline abis t s = (s', Ok tt) -> known t.
Proof.
  intros E. unfold assert_type in E. apply M_bind_Ok in E as (s1 & b & E1 & E2). destruct b; [|done]. by eapply is_type_known.
Qed.

(** ** Typedefs resolve *)

(** The typedefs that are followed from a type, and the type at the end. *)
Inductive chain : string -> list string -> string -> Prop :=
| chain_end t : typedefs abis !! t = None -> chain t [] t
| chain_step t t' l u : typedefs abis !! t = Some t' -> chain t' l u -> chain t (t :: l) u.

Lemma chain_unique t l u : chain t l u -> forall l' u', chain t l' u' -> l = l' /\ u = u'.
Proof.
  induction 1 as [t E|t t' l u E _ IH]; intros l' u' Hc; inversion Hc as [? E'|? t'' l'' ? E' Hc']; subst; simplify_eq; [done|].
  destruct (IH _ _ Hc') as [-> ->]. done.
Qed.
Lemma chain_suffix t l1 x l2 u : chain t (l1 ++ x :: l2) u -> chain x (x :: l2) u.
Proof.
  revert t. induction l1 as [|y l1 IH]; intros t Hc; inversion Hc; subst; cbn [app] in *; simplify_eq; [done|]. by eapply IH.
Qed.
Lemma chain_keys t l u : chain t l u -> Forall (fun x => is_Some (typedefs abis !! x)) l.
Proof. induction 1; constructor; by eauto. Qed.
Lemma chain_end_None t l u : chain t l u -> typedefs abis !! u = None.
Proof. by induction 1. Qed.

Lemma chain_NoDup t l u : chain t l u -> NoDup l.
Proof.
  induction 1 as [|t t' l u E Hc IH]; constructor; [|done]. intros Hin. apply list_elem_of_split in Hin as (l1 & l2 & ->).
  pose proof (chain_suffix _ _ _ _ _ Hc) as H1. destruct (chain_unique _ _ _ H1 _ _ (chain_step _ _ _ _ E Hc)) as [Heq _].
  apply (f_equal length) in Heq. rewrite !length_cons, length_app, length_cons in Heq. lia.
Qed.

Lemma chain_length t l u : chain t l u -> (length l <= size (typedefs abis))%nat.
Proof.
  intros Hc. rewrite <- length_map_to_list, <- (length_fmap fst). apply distinct_length; [by eapply chain_NoDup|].
  intros x Hx. pose proof (chain_keys _ _ _ Hc) as Hk. rewrite Forall_forall in Hk. destruct (Hk x Hx) as [y Hy].
  apply list_elem_of_fmap. exists (x, y). split; [done|]. by apply elem_of_map_to_list.
Qed.

Lemma resolve_loop_chain i t l u type : chain t l u -> (length l < i)%nat -> resolve_loop abis i t type = u.
Proof.
  intros Hc. revert i. induction Hc as [t E|t t' l u E _ IH]; intros [|i] Hi; simpl in *; try lia; rewrite E; [done|]. apply IH. lia.
Qed.
Lemma resolve_chain t l u : chain t l u -> resolve_type abis t = u.
Proof.
  intros Hc. pose proof (chain_length _ _ _ Hc) as Hl. unfold resolve_type. inversion Hc as [? E|? t' l' ? E Hc']; subst; rewrite E; [done|].
  eapply resolve_loop_chain; [done|]. simpl in Hl. lia.
Qed.

Lemma typedef_loop_chain clock deadline fuel : forall seen t s s', typedef_loop clock deadline abis fuel seen t s = (s', Ok tt) -> exists l u, chain t l u.
Proof.
  induction fuel as [|fuel IH]; intros seen t s s' E; cbn [typedef_loop] in E; (destruct (typedefs abis !! t) as [t'|] eqn:Et; [|by exists [], t; constructor]); [done|].
  apply M_bind_Ok in E as (s1 & [] & _ & E). apply M_bind_Ok in E as (s2 & [] & _ & E). destruct (IH _ _ _ _ E) as (l & u & Hc). exists (t :: l), u. by econstructor.
Qed.

(** The loop sees new types only, so that it ends. *)
Lemma typedef_loop_ends clock deadline fuel : forall seen acc t s, NoDup acc -> (forall x, x ∈ acc -> x ∈ (map_to_list (typedefs abis)).*2) ->
  (size (typedefs abis) < fuel + length acc)%nat -> (forall x, x ∈ acc -> x ∈ seen) -> (typedef_loop clock deadline abis fuel seen t s).2 <> Err out_of_fuel.
Proof.
  induction fuel as [|fuel IH]; intros seen acc t s Hn Hs Hl Ha; cbn [typedef_loop]; (destruct (typedefs abis !! t) as [t'|] eqn:Et; [|done]).
  - pose proof (distinct_length _ _ Hn Hs) as Hd. rewrite length_fmap, length_map_to_list in Hd. lia.
  - apply bind_not_Err; [by apply check_deadline_not|]. intros [] s1 _. apply bind_not_Err; [by apply assert_not|]. intros [] s2 E.
    destruct (bool_decide_reflect (t' ∉ seen)) as [Hni|]; [|done]. apply (IH _ (t' :: acc)).
    + constructor; [|done]. intros Hx. by apply Hni, Ha.
    + intros x Hx. apply elem_of_cons in Hx as [-> |Hx]; [|by apply Hs]. apply list_elem_of_fmap. exists (t, t'). split; [done|]. by apply elem_of_map_to_list.
    + simpl. lia.
    + intros x Hx. apply elem_of_cons in Hx as [-> |Hx]; apply elem_of_app; [right; set_solver|left; by apply Ha].
Qed.

(** ** Bases *)

Inductive base_chain : struct_def -> Prop :=
| base_none st : sd_base st = ""%string -> base_chain st
| base_some st b : sd_base st <> ""%string -> structs abis !! resolve_type abis (sd_base st) = Some b -> base_chain b -> base_chain st.

Lemma base_loop_chain clock deadline fuel : forall seen st s s', base_loop clock deadline abis fuel seen st s = (s', Ok tt) -> base_chain st.
Proof.
  induction fuel as [|fuel IH]; intros seen st s s' E; cbn [base_loop] in E; (destruct (String.eqb_spec (sd_base st) "") as [Eb|Eb]; [by apply base_none|]); [done|].
  apply M_bind_Ok in E as (s1 & [] & _ & E). apply M_bind_Ok in E as (s2 & b & Eg & E). apply M_bind_Ok in E as (s3 & [] & _ & E).
  unfold lift, get_struct in Eg. injection Eg as -> Eg. apply of_option_Ok in Eg. apply (base_some _ b); [done|done|by eapply IH].
Qed.

Lemma base_loop_ends clock deadline fuel : forall seen acc st s, NoDup acc -> (forall n st, structs abis !! n = Some st -> sd_name st = n) ->
  (forall x, x ∈ acc -> x ∈ (map_to_list (structs abis)).*1) -> (size (structs abis) < fuel + length acc)%nat -> (forall x, x ∈ acc -> x ∈ seen) ->
  (base_loop clock deadline abis fuel seen st s).2 <> Err out_of_fuel.
Proof.
  induction fuel as [|fuel IH]; intros seen acc st s Hn Hnames Hs Hl Ha; cbn [base_loop]; (destruct (String.eqb_spec (sd_base st) "") as [Eb|Eb]; [done|]).
  - pose proof (distinct_length _ _ Hn Hs) as Hd. rewrite length_fmap, length_map_to_list in Hd. lia.
  - apply bind_not_Err; [by apply check_deadline_not|]. intros [] s1 _.
    apply bind_not_Err; [unfold lift, get_struct; simpl; by destruct (structs abis !! resolve_type abis (sd_base st))|]. intros b s2 Eg. unfold lift, get_struct in Eg. injection Eg as -> Eg. apply of_option_Ok in Eg.
    apply bind_not_Err; [by apply assert_not|]. intros [] s3 E. destruct (bool_decide_reflect (sd_name b ∉ seen)) as [Hni|]; [|done]. apply (IH _ (sd_name b :: acc)).
    + constructor; [|done]. intros Hx. by apply Hni, Ha.
    + done.
    + intros x Hx. apply elem_of_cons in Hx as [-> |Hx]; [|by apply Hs]. rewrite (Hnames _ _ Eg). apply list_elem_of_fmap. eexists (_, b). split; [done|]. by apply elem_of_map_to_list.
    + simpl. lia.
    + intros x Hx. apply elem_of_cons in Hx as [-> |Hx]; apply elem_of_app; [right; set_solver|left; by apply Ha].
Qed.

End Known.

(** ** Validated ABIs *)

Record abi_ok (abis : abi_serializer) : Prop := {
  ok_resolves t : exists l u, chain abis t l u;
  ok_typedefs a t : typedefs abis !! a = Some t -> known abis t;
  ok_names n st : structs abis !! n = Some st -> sd_name st = n;
  ok_bases n st : structs abis !! n = Some st -> base_chain abis st;
  ok_fields n st fd : structs abis !! n = Some st -> fd ∈ sd_fields st -> known abis (remove_bin_extension (fd_type fd));
  ok_variants n v t : variants abis !! n = Some v -> t ∈ vd_types v -> known abis t;
  ok_actions a t : actions abis !! a = Some t -> known abis t;
  ok_tables a t : tables abis !! a = Some t -> known abis t
}.

Section Validate.
Context `{FcVariants} (clock : nat -> Z) (deadline : Z).

Lemma is_type_not abis n e : e <> abi_recursion_depth_exception -> e <> abi_serialization_deadline_exception -> forall t s, (is_type_ clock deadline abis n t s).2 <> Err e.
Proof.
  intros H1 H2. induction n as [|n IH]; intros t s; [simpl; congruence|]. cbn [is_type_]. apply bind_not_Err; [by apply check_deadline_not|]. intros [] s' _.
  destruct (is_builtin_type _ _); [done|]. by destruct (typedefs abis !! fundamental_type t).
Qed.

Lemma assert_type_not abis t s : (assert_type clock deadline abis t s).2 <> Err out_of_fuel.
Proof. unfold assert_type, is_type. apply bind_not_Err; [by apply is_type_not|]. intros b s' _. by apply assert_not. Qed.

Lemma validate_ok abis s s' : (forall n st, structs abis !! n = Some st -> sd_name st = n) -> validate clock deadline abis s = (s', Ok tt) -> abi_ok abis.
Proof.
  intros Hnames E. unfold validate in E. inv_ok.
  repeat match goal with H : for_each _ _ _ = (_, Ok ?u) |- _ => destruct u; apply for_each_Ok in H; rewrite Forall_forall in H end.
  constructor.
  - intros t. destruct (typedefs abis !! t) as [t'|] eqn:Et; [|by exists [], t; constructor].
    match goal with H : forall x, x ∈ items (typedefs abis) -> exists s1 s2, (let '(t, t') := x in typedef_loop _ _ _ _ _ _) _ = _ |- _ => destruct (H (t, t')) as (s1 & s2 & Hx) end; [by apply items_elem|].
    destruct (typedef_loop_chain _ _ _ _ _ _ _ _ Hx) as (l & u & Hc). exists (t :: l), u. by econstructor.
  - intros a t Ht. match goal with H : forall x, x ∈ items (typedefs abis) -> exists s1 s2, (let '(_, t) := x in assert_type _ _ _ t) _ = _ |- _ => destruct (H (a, t)) as (s1 & s2 & Hx) end; [by apply items_elem|].
    by eapply assert_type_known.
  - done.
  - intros n st Hst. match goal with H : forall x, x ∈ items (structs abis) -> _ |- _ => destruct (H (n, st)) as (s1 & s2 & Hx) end; [by apply items_elem|].
    unfold validate_struct in Hx. apply M_bind_Ok in Hx as (s3 & [] & Hx & _). by eapply base_loop_chain.
  - intros n st fd Hst Hfd. match goal with H : forall x, x ∈ items (structs abis) -> _ |- _ => destruct (H (n, st)) as (s1 & s2 & Hx) end; [by apply items_elem|].
    unfold validate_struct in Hx. apply M_bind_Ok in Hx as (s3 & [] & _ & Hx). apply for_each_Ok in Hx. rewrite Forall_forall in Hx. destruct (Hx fd Hfd) as (s4 & s5 & Hy).
    apply M_bind_Ok in Hy as (s6 & [] & _ & Hy). by eapply assert_type_known.
  - intros n v t Hv Ht. match goal with H : forall x, x ∈ items (variants abis) -> _ |- _ => destruct (H (n, v)) as (s1 & s2 & Hx) end; [by apply items_elem|].
    apply for_each_Ok in Hx. rewrite Forall_forall in Hx. destruct (Hx t Ht) as (s4 & s5 & Hy). apply M_bind_Ok in Hy as (s6 & [] & _ & Hy). by eapply assert_type_known.
  - intros a t Ht. match goal with H : forall x, x ∈ number_items (actions abis) -> _ |- _ => destruct (H (a, t)) as (s1 & s2 & Hx) end; [by apply number_items_elem|].
    apply M_bind_Ok in Hx as (s6 & [] & _ & Hy). by eapply assert_type_known.
  - intros a t Ht. match goal with H : forall x, x ∈ number_items (tables abis) -> _ |- _ => destruct (H (a, t)) as (s1 & s2 & Hx) end; [by apply number_items_elem|].
    apply M_bind_Ok in Hx as (s6 & [] & _ & Hy). by eapply assert_type_known.
Qed.

Lemma validate_ends abis s : (forall n st, structs abis !! n = Some st -> sd_name st = n) -> (validate clock deadline abis s).2 <> Err out_of_fuel.
Proof.
  intros Hnames. unfold validate.
  assert (forall t s, ((check_deadline clock deadline;; assert_type clock deadline abis t) s).2 <> Err out_of_fuel) as Hct.
  { intros t s0. apply bind_not_Err; [by apply check_deadline_not|]. intros [] s1 _. apply assert_type_not. }
  apply bind_not_Err; [apply for_each_Err; intros [t t'] s1 _; by apply (typedef_loop_ends _ _ _ _ _ []); [constructor|set_solver|simpl; lia|set_solver]|]. intros [] s1 _.
  apply bind_not_Err; [apply for_each_Err; intros [t t'] s2 _; apply assert_type_not|]. intros [] s2 _.
  apply bind_not_Err; [apply for_each_Err; intros [n st] s3 _|].
  { unfold validate_struct. apply bind_not_Err; [by apply (base_loop_ends _ _ _ _ _ []); [constructor| |set_solver|simpl; lia|set_solver]|].
    intros [] s4 _. apply for_each_Err. intros fd s5 _. apply Hct. }
  intros [] s3 _. apply bind_not_Err; [apply for_each_Err; intros [n v] s4 _; apply for_each_Err; intros t s5 _; apply Hct|]. intros [] s4 _.
  apply bind_not_Err; [apply for_each_Err; intros [n t] s5 _; apply Hct|]. intros [] s5 _. apply for_each_Err; intros [n t] s6 _; apply Hct.
Qed.

Lemma add_typedefs_types types : forall s st st' s', add_typedefs clock deadline s types st = (st', Ok s') ->
  structs s' = structs s /\ built_in_types s' = built_in_types s /\ typedefs s' = foldl (fun m td => <[td_new_type_name td := td_type td]> m) (typedefs s) types.
Proof.
  induction types as [|td types IH]; intros s st st' s' E; cbn [add_typedefs] in E; [by injection E as <- <-|].
  apply M_bind_Ok in E as (s1 & k & _ & E). apply M_bind_Ok in E as (s2 & [] & _ & E). apply M_bind_Ok in E as (s3 & x & _ & E). apply M_bind_Ok in E as (s4 & [] & _ & E).
  by apply IH in E.
Qed.

Lemma add_typedefs_ends types : forall s st, (add_typedefs clock deadline s types st).2 <> Err out_of_fuel.
Proof.
  induction types as [|td types IH]; intros s st; cbn [add_typedefs]; [done|]. unfold is_type.
  apply bind_not_Err; [by apply is_type_not|]. intros k s1 _. apply bind_not_Err; [by apply assert_not|]. intros [] s2 _.
  apply bind_not_Err; [by apply is_type_not|]. intros x s3 _. apply bind_not_Err; [by apply assert_not|]. intros [] s4 _. apply IH.
Qed.

End Validate.

(** *** Assignments *)

Section Assign.
Context {K X Y : Type} `{Countable K} (key : X -> K) (val : X -> Y).

Lemma assign_all_snoc l x : assign_all key val (l ++ [x]) = <[key x := val x]> (assign_all key val l).
Proof. unfold assign_all. by rewrite foldl_app. Qed.

Lemma assign_all_size l : (size (assign_all key val l) <= length l)%nat.
Proof.
  induction l as [|x l IH] using rev_ind; [done|]. rewrite assign_all_snoc, length_app. simpl.
  destruct (assign_all key val l !! key x) eqn:E; [rewrite map_size_insert_Some by done; lia|rewrite map_size_insert_None by done; lia].
Qed.

(** When no assignment replaced another, all are there. *)
Lemma assign_all_lookup l x : size (assign_all key val l) = length l -> x ∈ l -> assign_all key val l !! key x = Some (val x).
Proof.
  induction l as [|y l IH] using rev_ind; intros Hs Hx; [by apply elem_of_nil in Hx|]. rewrite assign_all_snoc, length_app in *. simpl in Hs. pose proof (assign_all_size l) as Hl.
  destruct (assign_all key val l !! key y) eqn:E; [rewrite map_size_insert_Some in Hs by done; lia|rewrite map_size_insert_None in Hs by done].
  apply elem_of_app in Hx as [Hx|Hx%list_elem_of_singleton]; [|by subst; rewrite lookup_insert_eq].
  rewrite lookup_insert_ne; [apply IH; [lia|done]|]. intros Ek. rewrite Ek, IH in E by (done || lia). done.
Qed.

Lemma assign_all_inv l k v : assign_all key val l !! k = Some v -> exists x, x ∈ l /\ key x = k /\ val x = v.
Proof.
  induction l as [|y l IH] using rev_ind; [done|]. rewrite assign_all_snoc. intros E. apply lookup_insert_Some in E as [[<- <-]|[_ E]]; [exists y|destruct (IH E) as (x & ? & ?); exists x]; set_solver.
Qed.

End Assign.

(** *** The whole of [set_abi] *)

(** The serializer has the definitions of the ABI. *)
Record abi_loaded (abi : abi_def) (abis : abi_serializer) : Prop := {
  loaded_types td : td ∈ ab_types abi -> typedefs abis !! td_new_type_name td = Some (td_type td);
  loaded_structs st : st ∈ ab_structs abi -> structs abis !! sd_name st = Some st;
  loaded_actions a : a ∈ ab_actions abi -> actions abis !! ad_name a = Some (ad_type a);
  loaded_tables t : t ∈ ab_tables abi -> tables abis !! tb_name t = Some (tb_type t);
  loaded_errors m : m ∈ ab_error_messages abi -> error_messages abis !! em_error_code m = Some (em_error_msg m);
  loaded_variants v : v ∈ ab_variants abi -> variants abis !! vd_name v = Some v
}.

Section SetAbiProofs.
Context `{FcVariants} (clock : nat -> Z) (deadline : Z).

Lemma set_abi_correct s abi st :
  (set_abi clock deadline s abi st).2 <> Err out_of_fuel /\
  forall st' s', set_abi clock deadline s abi st = (st', Ok s') -> abi_loaded abi s' /\ abi_ok s'.
Proof.
  unfold set_abi. cbv zeta. cbn [typedefs structs actions tables error_messages variants built_in_types]. split.
  - do 8 (apply bind_not_Err; [first [by apply assert_not|apply add_typedefs_ends]|intros ? ? ?]). apply bind_not_Err; [|done]. apply validate_ends. intros n sd Hs. cbn [structs] in Hs.
    repeat match goal with E : _ = (_, Ok _) |- _ => first [apply add_typedefs_types in E as (E1 & _ & _)|clear E] end. rewrite E1 in Hs. cbn [structs set_structs] in Hs.
    by apply assign_all_inv in Hs as (z & _ & <- & <-).
  - intros st' s' E. repeat (apply M_bind_Ok in E as (? & ? & ? & E)). injection E as <- <-.
    repeat match goal with E : M_ASSERT ?c _ _ = (_, Ok _) |- _ => destruct c eqn:?; [clear E|done] end.
    repeat match goal with E : (_ =? _)%nat = true |- _ => apply Nat.eqb_eq in E end.
    match goal with E : add_typedefs _ _ _ _ _ = _ |- _ => apply add_typedefs_types in E as (E1 & _ & E3) end. cbn [structs typedefs set_structs clear_types] in E1, E3.
    split.
    + constructor; cbn [typedefs structs actions tables error_messages variants]; intros y Hy.
      * rewrite E3 in *. by apply (assign_all_lookup td_new_type_name td_type).
      * rewrite E1 in *. by apply (assign_all_lookup sd_name id).
      * by apply (assign_all_lookup ad_name ad_type).
      * by apply (assign_all_lookup tb_name tb_type).
      * by apply (assign_all_lookup em_error_code em_error_msg).
      * by apply (assign_all_lookup vd_name id).
    + match goal with E : validate _ _ _ _ = (_, Ok ?u) |- _ => destruct u; eapply validate_ok, E end. cbn [structs]. intros n sd Hs. rewrite E1 in Hs.
      by apply assign_all_inv in Hs as (z & _ & <- & <-).
Qed.

(** C15: [set_abi] always ends, and when it accepts an ABI then the serializer has
    exactly its definitions, every typedef resolves, no struct is its own base, and
    every type that a typedef, a field, a variant, an action or a table names is
    known. *)
Theorem set_abi_validates s abi st :
  (set_abi clock deadline s abi st).2 <> Err out_of_fuel /\
  forall st' s', set_abi clock deadline s abi st = (st', Ok s') -> abi_loaded abi s' /\ abi_ok s'.
Proof. apply set_abi_correct. Qed.

End SetAbiProofs.

(** ** Unpacking *)

(** The names that the ABI defines do not look like arrays or optional types. *)
Definition plain_names (abis : abi_serializer) : Prop :=
  forall n, is_Some (typedefs abis !! n) \/ is_Some (structs abis !! n) \/ is_Some (variants abis !! n) -> is_array n = false /\ is_optional n = false.

Section Unpack.
Context `{FcVariants} (clock : nat -> Z) (deadline : Z) (abis : abi_serializer).

(** The readers of [fc] do not throw the exception for unknown types, and sizes are
    not negative. *)
Definition readers_ok : Prop :=
  (forall n up pk ds a o, built_in_types abis !! n = Some (up, pk) -> up ds a o <> Err invalid_type_inside_abi) /\
  (forall ds, cd_get fc_unsigned_int ds <> Err invalid_type_inside_abi) /\
  (forall ds k rest, cd_get fc_unsigned_int ds = Ok (k, rest) -> 0 <= k).

Context (Hok : abi_ok abis) (Hplain : plain_names abis) (Hread : readers_ok).

Lemma resolve_not_typedef t : typedefs abis !! resolve_type abis t = None.
Proof. destruct (ok_resolves _ Hok t) as (l & u & Hc). rewrite (resolve_chain _ _ _ _ Hc). by eapply chain_end_None. Qed.

Lemma resolve_idem t : resolve_type abis (resolve_type abis t) = resolve_type abis t.
Proof. unfold resolve_type at 1. by rewrite resolve_not_typedef. Qed.

Lemma known_resolve t : known abis t -> known abis (resolve_type abis t).
Proof.
  intros Hk. destruct (ok_resolves _ Hok t) as (l & u & Hc). rewrite (resolve_chain _ _ _ _ Hc). induction Hc as [|t t' l u E Hc IH]; [done|]. apply IH. by eapply ok_typedefs.
Qed.

Lemma fundamental_plain n : is_Some (typedefs abis !! n) \/ is_Some (structs abis !! n) \/ is_Some (variants abis !! n) -> fundamental_type n = n.
Proof. intros Hn. destruct (Hplain n Hn) as [E1 E2]. unfold fundamental_type. by rewrite E1, E2. Qed.

(** The element type of a known type that is not built in is known. *)
Lemma known_fundamental t : known abis t -> built_in_types abis !! fundamental_type t = None -> known abis (fundamental_type t).
Proof.
  intros Hk Hb. inversion Hk as [? Hx|? u Hx Hu|? Hx|? Hx]; subst; [by rewrite Hb in Hx; destruct Hx| | |].
  - apply (known_typedef _ _ u); [|done]. rewrite fundamental_plain; eauto.
  - apply known_struct. rewrite fundamental_plain; eauto.
  - apply known_variant. rewrite fundamental_plain; eauto.
Qed.

Lemma rethrow_not {B} e e' (r : result B) : e' <> e -> r <> Err e -> rethrow e' r <> Err e.
Proof. intros Hn Hr. destruct r as [x|e'']; [done|]. simpl. destruct (as_fc_exception e''); congruence. Qed.

Lemma from_stream_not {B} (f : buffer -> result (B * buffer)) e s : (forall ds, f ds <> Err e) -> (from_stream f s).2 <> Err e.
Proof.
  intros Hf. unfold from_stream. apply bind_not_Err; [done|]. intros s1 s2 _. apply bind_not_Err; [apply Hf|]. intros [x rest] s3 _. by apply bind_not_Err.
Qed.

Lemma from_stream_Ok {B} (f : buffer -> result (B * buffer)) s s' x : from_stream f s = (s', Ok x) -> exists rest, f (as_data s) = Ok (x, rest) /\ s' = mk_abi_state (as_ticks s) rest.
Proof.
  intros E. unfold from_stream in E. apply M_bind_Ok in E as (s1 & s2 & [= <- <-] & E). apply M_bind_Ok in E as (s3 & [y rest] & E1 & E2). injection E1 as <- E1. injection E2 as <- <-. by eauto.
Qed.

Lemma read_many_not read n e : e <> unpack_exception -> (forall s, (read s).2 <> Err e) -> forall s, (read_many read n s).2 <> Err e.
Proof.
  intros He Hr. induction n as [|n IH]; intros s; [done|]. cbn [read_many]. apply bind_not_Err; [apply Hr|]. intros v s1 _.
  apply bind_not_Err; [by apply assert_not|]. intros [] s2 _. apply bind_not_Err; [apply IH|]. done.
Qed.

Lemma read_fields_not read fields e : e <> unpack_exception -> e <> abi_exception ->
  (forall fd s, fd ∈ fields -> (read (resolve_type abis (remove_bin_extension (fd_type fd))) s).2 <> Err e) ->
  forall enc obj s, (read_fields abis read fields enc obj s).2 <> Err e.
Proof.
  intros H1 H2. induction fields as [|fd fields IH]; intros Hr enc obj s; [done|]. cbn [read_fields]. cbv zeta. apply bind_not_Err; [done|]. intros s0 s1 _.
  assert (forall enc obj s, (read_fields abis read fields enc obj s).2 <> Err e) as IH' by (apply IH; intros; apply Hr; set_solver).
  destruct (bool_decide _). { destruct (is_extension (fd_type fd)); [apply IH'|]. destruct (enc || false)%bool; simpl; congruence. }
  apply bind_not_Err; [|intros v s2 _; apply IH'].
  assert ((if is_extension (fd_type fd) then remove_bin_extension (fd_type fd) else fd_type fd) = remove_bin_extension (fd_type fd)) as -> by (unfold remove_bin_extension; by destruct (is_extension _)).
  apply Hr. set_solver.
Qed.

Lemma unpack_not n :
  (forall t s, known abis t -> (binary_to_variant_ clock deadline abis n t s).2 <> Err invalid_type_inside_abi) /\
  (forall st t obj s, structs abis !! t = Some st -> (read_object clock deadline abis n t obj s).2 <> Err invalid_type_inside_abi).
Proof.
  induction n as [|n [IH1 IH2]]; [done|]. split.
  - intros t s Hk. cbn [binary_to_variant_]. apply bind_not_Err; [by apply check_deadline_not|]. intros [] s1 _. cbv zeta. apply known_resolve in Hk.
    pose proof (resolve_not_typedef t) as Hnt. set (r := resolve_type abis t) in *. clearbody r. destruct (built_in_types abis !! fundamental_type r) as [[up pk]|] eqn:Eb.
    { apply from_stream_not. intros ds. apply rethrow_not; [done|]. by eapply Hread. }
    pose proof (known_fundamental _ Hk Eb) as Hkf.
    assert (forall s, (from_stream (fun ds => rethrow unpack_exception (cd_get fc_unsigned_int ds)) s).2 <> Err invalid_type_inside_abi) as Hui.
    { intros s0. apply from_stream_not. intros ds. apply rethrow_not; [done|]. apply (proj2 Hread). }
    destruct (is_array r) eqn:Ea; [|destruct (is_optional r) eqn:Eo].
    + apply bind_not_Err; [apply Hui|]. intros k s2 _. apply bind_not_Err; [|done]. apply read_many_not; [done|]. intros s3. by apply IH1.
    + apply bind_not_Err; [apply from_stream_not; by intros [|b ds]|]. intros f s2 _. destruct (f =? 0); [done|]. by apply IH1.
    + assert (fundamental_type r = r) as Ef by (unfold fundamental_type; by rewrite Ea, Eo).
      destruct (variants abis !! r) as [v|] eqn:Ev.
      * apply bind_not_Err; [apply Hui|]. intros k s2 Ek. assert (0 <= k) as Hk0.
        { apply from_stream_Ok in Ek as (rest & Ek & _). destruct (cd_get fc_unsigned_int (as_data s1)) as [[k' rest']|] eqn:Ec; [|done]. injection Ek as -> _. by eapply Hread. }
        apply bind_not_Err; [by apply assert_not|]. intros [] s3 Hlt.
        destruct (Z.ltb_spec k (Z.of_nat (length (vd_types v)))); [|done]. destruct (lookup_lt_is_Some_2 (vd_types v) (Z.to_nat k)) as [x Hx]; [lia|].
        rewrite Hx. cbn [default from_option]. apply bind_not_Err; [|done]. apply IH1. eapply ok_variants; [done..|]. by eapply list_elem_of_lookup_2.
      * rewrite Ef in Eb. assert (is_Some (structs abis !! r)) as Hx.
        { inversion Hk as [? Hx|? u Hx Hu|? Hx|? Hx]; subst; rewrite Ef in Hx; [by apply eq_None_not_Some in Eb; destruct Eb|by rewrite Hnt in Hx|done|by rewrite Ev in Hx; destruct Hx]. }
        destruct Hx as [st Hst]. apply bind_not_Err; [by eapply IH2|]. intros obj s2 _. apply bind_not_Err; [by apply assert_not|done].
  - intros st t obj s Hst. cbn [read_object]. apply bind_not_Err; [by apply check_deadline_not|]. intros [] s1 _. rewrite Hst. cbn [of_option].
    apply bind_not_Err; [done|]. intros ? ? [= <- <-]. apply bind_not_Err.
    + destruct (String.eqb_spec (sd_base st) "") as [|Hb]; [done|]. pose proof (ok_bases _ Hok _ _ Hst) as Hbc. inversion Hbc as [|? b ? Hg]; subst; [done|]. by eapply IH2.
    + intros obj' s2 _. apply read_fields_not; [done|done|]. intros fd s3 Hfd. apply IH1, known_resolve. by eapply ok_fields.
Qed.

End Unpack.
