(* ===== verification/AbiRoundTrip.v ===== *)
(** * The ABI serializer: packing and unpacking

    Unpacking never meets an unknown type ([unpack_known]), and what was packed from
    a variant in the form that unpacking gives is unpacked to the same variant
    ([abi_roundtrip]). *)

From Stdlib Require Import ZArith Lia Bool String Ascii.
From stdpp Require Import base numbers gmap sorting list strings.
From S2P Require Import Prelude Datastream AbiSerializer AbiSerializerProofs.

Open Scope Z_scope.

(** ** Objects *)

Lemma obj_find_elem o k v : NoDup o.*1 -> (k, v) ∈ o -> obj_find k o = Some v.
Proof.
  induction o as [|[k' v'] o IH]; intros Hn Hin; [by apply elem_of_nil in Hin|]. cbn [fmap list_fmap] in Hn. apply NoDup_cons in Hn as [Hk Hn]. cbn [obj_find].
  destruct (String.eqb_spec k k') as [<-|Hne].
  - apply elem_of_cons in Hin as [Heq|Hin]; [by simplify_eq|]. destruct Hk. apply list_elem_of_fmap. by exists (k, v).
  - apply elem_of_cons in Hin as [Heq|Hin]; [by simplify_eq|]. by apply IH.
Qed.

Lemma obj_set_new o k v : k ∉ o.*1 -> obj_set o k v = o ++ [(k, v)].
Proof.
  induction o as [|[k' v'] o IH]; intros Hk; [done|]. cbn [obj_set fmap list_fmap] in *. apply not_elem_of_cons in Hk as [Hne Hk].
  destruct (String.eqb_spec k k') as [->|_]; [done|]. by rewrite IH.
Qed.

Section RoundTrip.
Context `{FcVariants} (clock : nat -> Z) (deadline : Z) (abis : abi_serializer) (limit : Z).

(** The values of the built-in types that packing keeps as they are. *)
Context (builtin_value : string -> bool -> bool -> variant -> Prop).

(** What [fc] promises: such a value is packed into at least one byte and read back,
    and so are sizes. *)
Class FcLaws : Prop := {
  builtin_roundtrip n up pk v a o data rest :
    built_in_types abis !! n = Some (up, pk) -> builtin_value n a o v -> pk v a o = Ok data -> data <> [] /\ up (data ++ rest) a o = Ok (v, rest);
  size_roundtrip :: RoundTrip fc_unsigned_int is_u32;
  size_nonempty k : is_u32 k -> cd_put fc_unsigned_int k <> []
}.
Context `{!FcLaws} (Hok : abi_ok abis) (Hclock : forall n, clock n < deadline).

(** ** The form that unpacking gives

    Arrays have no null items, the items of a variant are its tag and its value,
    and the fields of a struct are in order, those of its base first. *)

Definition no_builtin (t : string) : Prop := built_in_types abis !! fundamental_type t = None.

(** A type that only the structs give a meaning to. *)
Definition plain_struct (t : string) : Prop := no_builtin t /\ is_array t = false /\ is_optional t = false /\ variants abis !! t = None.

Inductive canon : string -> variant -> Prop :=
| canon_builtin t v : is_Some (built_in_types abis !! fundamental_type (resolve_type abis t)) ->
    builtin_value (fundamental_type (resolve_type abis t)) (is_array (resolve_type abis t)) (is_optional (resolve_type abis t)) v -> canon t v
| canon_array t l : no_builtin (resolve_type abis t) -> is_array (resolve_type abis t) = true -> Z.of_nat (length l) < 2 ^ 32 ->
    Forall (fun v => is_null v = false /\ canon (fundamental_type (resolve_type abis t)) v) l -> canon t (v_array l)
| canon_variant t vd i u v : no_builtin (resolve_type abis t) -> is_array (resolve_type abis t) = false -> is_optional (resolve_type abis t) = false ->
    variants abis !! resolve_type abis t = Some vd -> Z.of_nat (length (vd_types vd)) < 2 ^ 32 ->
    list_find (fun x => x = u) (vd_types vd) = Some (i, u) -> canon u v -> canon t (v_array [v_string u; v])
| canon_object t fields : plain_struct (resolve_type abis t) -> NoDup fields.*1 -> fields <> [] ->
    canon_fields (resolve_type abis t) fields -> canon t (v_object fields)
with canon_fields : string -> list (string * variant) -> Prop :=
| canon_struct t st base own : structs abis !! t = Some st ->
    (sd_base st = ""%string /\ base = [] \/ sd_base st <> ""%string /\ plain_struct (resolve_type abis (sd_base st)) /\ canon_fields (resolve_type abis (sd_base st)) base) ->
    Forall2 (fun fd kv => kv.1 = fd_name fd /\ canon (remove_bin_extension (fd_type fd)) kv.2) (sd_fields st) own ->
    canon_fields t (base ++ own).

(** ** Steps *)

Lemma deadline_passes s : check_deadline clock deadline s = (mk_abi_state (S (as_ticks s)) (as_data s), Ok tt).
Proof. unfold check_deadline. cbv [mbind M_bind get_state put_state]. by rewrite (proj2 (Z.ltb_lt _ _) (Hclock _)). Qed.

Lemma deadline_data s s' : check_deadline clock deadline s = (s', Ok tt) -> as_data s' = as_data s.
Proof. rewrite deadline_passes. by intros [= <-]. Qed.

Lemma emit_data data s s' : emit limit data s = (s', Ok tt) -> as_data s' = as_data s ++ data.
Proof. unfold emit. cbv [mbind M_bind get_state put_state]. destruct (_ <=? _); [|done]. by intros [= <-]. Qed.

Lemma from_stream_run {B} (f : buffer -> result (B * buffer)) k data x rest : f data = Ok (x, rest) -> from_stream f (mk_abi_state k data) = (mk_abi_state k rest, Ok x).
Proof. intros E. unfold from_stream. cbv [mbind M_bind get_state put_state lift]. cbn [as_data]. by rewrite E. Qed.

Lemma read_size k n rest : is_u32 n ->
  from_stream (fun ds => rethrow unpack_exception (cd_get fc_unsigned_int ds)) (mk_abi_state k (cd_put fc_unsigned_int n ++ rest)) = (mk_abi_state k rest, Ok n).
Proof. intros Hn. apply from_stream_run. by rewrite (get_put (c := fc_unsigned_int)). Qed.

Lemma read_resolved m t : binary_to_variant_ clock deadline abis m (resolve_type abis t) = binary_to_variant_ clock deadline abis m t.
Proof. destruct m; [done|]. cbn [binary_to_variant_]. by rewrite (resolve_idem abis Hok). Qed.

(** What was packed for [v] is read back as [v] within [m] scopes, whatever
    follows. *)
Definition reads_back (m : nat) (t : string) (v : variant) (data : buffer) : Prop :=
  forall k rest, exists k', binary_to_variant_ clock deadline abis m t (mk_abi_state k (data ++ rest)) = (mk_abi_state k' rest, Ok v).

(** Packing [v] adds data that is read back. *)
Definition packs (n : nat) (t : string) (v : variant) : Prop :=
  forall al s s', variant_to_binary_ clock deadline abis limit n al t v s = (s', Ok tt) ->
  exists data, data <> [] /\ as_data s' = as_data s ++ data /\ forall m, (2 * n <= m)%nat -> reads_back m t v data.

(** Packing a struct that is part of the object [all]. *)
Definition packs_object (n : nat) (t : string) : Prop :=
  forall al fields all s s', plain_struct (resolve_type abis t) -> canon_fields (resolve_type abis t) fields -> NoDup all.*1 -> (forall kv, kv ∈ fields -> kv ∈ all) ->
  variant_to_binary_ clock deadline abis limit n al t (v_object all) s = (s', Ok tt) ->
  exists data, (fields <> [] -> data <> []) /\ as_data s' = as_data s ++ data /\
    forall m k rest obj, (2 * n <= S m)%nat -> NoDup (obj ++ fields).*1 ->
    exists k', read_object clock deadline abis m (resolve_type abis t) obj (mk_abi_state k (data ++ rest)) = (mk_abi_state k' rest, Ok (obj ++ fields)).

(** *** Arrays *)

Lemma packs_array n t l : Forall (fun v => is_null v = false /\ packs n t v) l -> forall s s',
  for_each (variant_to_binary_ clock deadline abis limit n false t) l s = (s', Ok tt) ->
  exists data, as_data s' = as_data s ++ data /\ forall m k rest, (2 * n <= m)%nat ->
    exists k', read_many (binary_to_variant_ clock deadline abis m t) (length l) (mk_abi_state k (data ++ rest)) = (mk_abi_state k' rest, Ok l).
Proof.
  induction 1 as [|v l [Hv Hp] _ IH]; intros s s' E; cbn [for_each] in E.
  - injection E as <-. exists []. rewrite app_nil_r. split; [done|]. intros m k rest _. by exists k.
  - apply M_bind_Ok in E as (s1 & [] & E1 & E2). destruct (Hp _ _ _ E1) as (d1 & _ & Ed1 & Hr1). destruct (IH _ _ E2) as (d2 & Ed2 & Hr2).
    exists (d1 ++ d2). rewrite Ed2, Ed1, app_assoc. split; [done|]. intros m k rest Hm. rewrite <- app_assoc.
    destruct (Hr1 m Hm k (d2 ++ rest)) as [k1 R1]. destruct (Hr2 m k1 rest Hm) as [k2 R2]. exists k2. cbn [length read_many].
    rewrite (bind_run _ _ _ _ _ R1), Hv. cbn [negb]. rewrite (bind_run _ _ _ (mk_abi_state k1 (d2 ++ rest)) tt) by done. by rewrite (bind_run _ _ _ _ _ R2).
Qed.

(** *** Fields *)

Lemma remove_extension t : (if is_extension t then remove_bin_extension t else t) = remove_bin_extension t.
Proof. unfold remove_bin_extension. by destruct (is_extension t). Qed.

Lemma packs_fields n al all fds own : NoDup all.*1 -> (forall kv, kv ∈ own -> kv ∈ all) ->
  Forall2 (fun fd kv => kv.1 = fd_name fd /\ packs n (remove_bin_extension (fd_type fd)) kv.2) fds own -> forall s s',
  pack_fields (variant_to_binary_ clock deadline abis limit n) al all fds false s = (s', Ok tt) ->
  exists data, (own <> [] -> data <> []) /\ as_data s' = as_data s ++ data /\ forall m k rest obj enc, (2 * n <= m)%nat -> NoDup (obj ++ own).*1 ->
    exists k', read_fields abis (binary_to_variant_ clock deadline abis m) fds enc obj (mk_abi_state k (data ++ rest)) = (mk_abi_state k' rest, Ok (obj ++ own)).
Proof.
  intros Hn Hin HF. induction HF as [|fd [k0 v] fds own [Hk Hp] _ IH]; intros s s' E; cbn [pack_fields] in E.
  - injection E as <-. exists []. rewrite !app_nil_r. split; [done|]. split; [done|]. intros m k rest obj enc _ _. exists k. rewrite app_nil_r. done.
  - simpl in Hk, Hp. rewrite (obj_find_elem all (fd_name fd) v) in E; [|done|rewrite <- Hk; apply Hin; set_solver]. cbn [negb] in E.
    apply M_bind_Ok in E as (s0 & [] & [= <-] & E). apply M_bind_Ok in E as (s1 & [] & E1 & E2). destruct (Hp _ _ _ E1) as (d1 & Hne & Ed1 & Hr1).
    destruct (IH ltac:(set_solver) _ _ E2) as (d2 & _ & Ed2 & Hr2). exists (d1 ++ d2). split; [by destruct d1|]. rewrite Ed2, Ed1, app_assoc. split; [done|].
    intros m k rest obj enc Hm Hnd. rewrite <- app_assoc. destruct (Hr1 m Hm k (d2 ++ rest)) as [k1 R1].
    assert (NoDup ((obj ++ [(k0, v)]) ++ own).*1) as Hnd' by (by rewrite <- app_assoc).
    destruct (Hr2 m k1 rest (obj ++ [(k0, v)]) (enc || is_extension (fd_type fd))%bool Hm Hnd') as [k2 R2]. exists k2. cbn [read_fields]. cbv zeta.
    rewrite (bind_run _ _ _ (mk_abi_state k (d1 ++ d2 ++ rest)) (mk_abi_state k (d1 ++ d2 ++ rest))) by done. cbn [as_data]. rewrite bool_decide_eq_false_2 by (by destruct d1).
    rewrite remove_extension, read_resolved, (bind_run _ _ _ _ _ R1). rewrite <- Hk, obj_set_new; [by rewrite R2, <- app_assoc|].
    rewrite fmap_app in Hnd. cbn [fmap list_fmap] in Hnd. apply NoDup_app in Hnd as (_ & Hd & _). intros Hx. apply (Hd _ Hx). set_solver.
Qed.

(** *** All forms *)

(** The steps of the two conversions, with the type of the built-in functions
    unfolded as evaluation leaves it. *)
Ltac open_pack E := cbn [variant_to_binary_] in E; unfold no_builtin, unpack_function, pack_function in *.
Ltac open_read := cbn [binary_to_variant_]; unfold no_builtin, unpack_function, pack_function in *.

Lemma packs_object_step n : (forall t v, canon t v -> packs n t v) -> (forall t, packs_object n t) -> forall t, packs_object (S n) t.
Proof.
  intros IHv IHo t al fields all s s' (Hb & Ha & Ho & Hv) Hcf Hn Hin E. inversion Hcf as [t0 st base own Hst Hbase HF]; subst t0 fields.
  open_pack E. rewrite Hb, Ha, Hv, Hst in E. apply M_bind_Ok in E as (s1 & [] & E0 & E). apply deadline_data in E0.
  apply M_bind_Ok in E as (s2 & [] & Eb & Ef).
  assert (exists d1, (base <> [] -> d1 <> []) /\ as_data s2 = as_data s1 ++ d1 /\ forall m k rest obj, (2 * n <= S m)%nat -> NoDup (obj ++ base).*1 ->
    exists k', (if String.eqb (sd_base st) "" then mret obj else read_object clock deadline abis m (resolve_type abis (sd_base st)) obj) (mk_abi_state k (d1 ++ rest)) = (mk_abi_state k' rest, Ok (obj ++ base)))
    as (d1 & Hne1 & Ed1 & Hr1).
  { destruct Hbase as [[Hx ->]|(Hx & Hp & Hc)]; rewrite (proj2 (String.eqb_eq _ _) Hx) in * || rewrite (proj2 (String.eqb_neq _ _) Hx) in *.
    - injection Eb as <-. exists []. rewrite app_nil_r. split; [done|]. split; [done|]. intros m k rest obj _ _. exists k. rewrite app_nil_r. done.
    - pose proof (IHo (resolve_type abis (sd_base st))) as IHb. unfold packs_object in IHb. rewrite (resolve_idem abis Hok) in IHb.
      apply (IHb false base all s1 s2 Hp Hc Hn); [intros kv Hkv; apply Hin; set_solver|done]. }
  destruct (packs_fields n al all (sd_fields st) own Hn ltac:(set_solver)
    (Forall2_impl _ _ _ _ HF (fun fd kv '(conj H1 H2) => conj H1 (IHv _ _ H2))) _ _ Ef) as (d2 & Hne2 & Ed2 & Hr2).
  exists (d1 ++ d2). split; [destruct base, d1; simpl in *; naive_solver|]. rewrite Ed2, Ed1, E0, app_assoc. split; [done|].
  intros m k rest obj Hm Hnd. destruct m as [|m]; [lia|]. rewrite app_assoc in Hnd.
  destruct (Hr1 m (S k) (d2 ++ rest) obj) as [k1 R1]; [lia|by rewrite fmap_app in Hnd; apply NoDup_app in Hnd as (? & _)|].
  destruct (Hr2 m k1 rest (obj ++ base) false) as [k2 R2]; [lia|done|]. exists k2. cbn [read_object]. rewrite <- (app_assoc d1).
  rewrite (bind_run _ _ _ _ _ (deadline_passes _)), Hst. cbn [of_option as_ticks as_data]. rewrite (bind_run _ _ _ (mk_abi_state (S k) (d1 ++ d2 ++ rest)) st) by done.
  rewrite (bind_run _ _ _ _ _ R1), (app_assoc obj). exact R2.
Qed.

Lemma packs_step n : (forall t v, canon t v -> packs n t v) -> (forall t, packs_object (S n) t) -> forall t v, canon t v -> packs (S n) t v.
Proof.
  intros IHv Ho t v Hc al s s' E. inversion Hc as [? ? Hb Hbv|? l Hb Ha Hl HF|? vd i u x Hb Ha Hop Hvd Hlen Hfind Hcx|? fields Hp Hn Hne Hcf]; subst.
  - destruct Hb as [[up pk] Hb]. open_pack E. rewrite Hb in E. apply M_bind_Ok in E as (s1 & [] & E0 & E). apply deadline_data in E0.
    apply M_bind_Ok in E as (s2 & data & Ep & E). unfold lift in Ep. injection Ep as <- Ep. apply emit_data in E. exists data.
    split; [by eapply (builtin_roundtrip _ _ _ _ _ _ _ []); [done|done|]|]. rewrite E, E0. split; [done|]. intros m Hm k rest. destruct m as [|m]; [lia|]. exists (S k). open_read.
    rewrite (bind_run _ _ _ _ _ (deadline_passes _)), Hb. apply from_stream_run. cbn [as_data]. rewrite (proj2 (builtin_roundtrip _ _ _ _ _ _ _ rest Hb Hbv Ep)). done.
  - open_pack E. rewrite Hb, Ha in E. apply M_bind_Ok in E as (s1 & [] & E0 & E). apply deadline_data in E0.
    apply M_bind_Ok in E as (s2 & l' & El & E). unfold lift in El. cbn in El. simplify_eq El. intros <- <-. apply M_bind_Ok in E as (s3 & [] & Ee & E). apply emit_data in Ee.
    assert (is_u32 (Z.of_nat (length l))) as Hu by (unfold is_u32; lia). rewrite (u32_small _ Hu) in Ee.
    assert (Forall (fun v => is_null v = false /\ packs n (fundamental_type (resolve_type abis t)) v) l) as HF' by (eapply Forall_impl; [done|]; intros y [H1 H2]; auto).
    destruct (packs_array n _ _ HF' _ _ E) as (data & Ed & Hr). exists (cd_put fc_unsigned_int (Z.of_nat (length l)) ++ data).
    split; [pose proof (size_nonempty _ Hu); by destruct (cd_put fc_unsigned_int (Z.of_nat (length l)))|]. rewrite Ed, Ee, E0, app_assoc. split; [done|]. intros m Hm k rest. destruct m as [|m]; [lia|].
    destruct (Hr m (S k) rest) as [k' R]; [lia|]. exists k'. open_read. rewrite (bind_run _ _ _ _ _ (deadline_passes _)), Hb, Ha. cbn [as_ticks as_data].
    rewrite <- app_assoc, (bind_run _ _ _ _ _ (read_size (S k) _ (data ++ rest) Hu)), Nat2Z.id. by rewrite (bind_run _ _ _ _ _ R).
  - open_pack E. rewrite Hb, Ha, Hvd in E. apply M_bind_Ok in E as (s1 & [] & E0 & E). apply deadline_data in E0.
    apply M_bind_Ok in E as (s2 & c & El & E). unfold lift, variant_choice in El. rewrite Hfind in El. injection El as <- <-. apply M_bind_Ok in E as (s3 & [] & Ee & E). apply emit_data in Ee.
    apply list_find_Some in Hfind as (Hi & _ & _). pose proof (lookup_lt_Some _ _ _ Hi) as Hil.
    assert (is_u32 (Z.of_nat i)) as Hu by (unfold is_u32; lia). rewrite (u32_small _ Hu) in Ee.
    destruct (IHv _ _ Hcx _ _ _ E) as (data & Hne & Ed & Hr). exists (cd_put fc_unsigned_int (Z.of_nat i) ++ data).
    split; [by destruct (cd_put fc_unsigned_int (Z.of_nat i)), data|]. rewrite Ed, Ee, E0, app_assoc. split; [done|]. intros m Hm k rest. destruct m as [|m]; [lia|].
    destruct (Hr m ltac:(lia) (S k) rest) as [k' R]. exists k'. open_read. rewrite (bind_run _ _ _ _ _ (deadline_passes _)), Hb, Ha, Hop, Hvd. cbn [as_ticks as_data].
    rewrite <- app_assoc, (bind_run _ _ _ _ _ (read_size (S k) _ (data ++ rest) Hu)), (proj2 (Z.ltb_lt _ _)) by lia.
    rewrite (bind_run _ _ _ (mk_abi_state (S k) (data ++ rest)) tt) by done. cbv zeta. rewrite Nat2Z.id, Hi. cbn [default from_option]. by rewrite (bind_run _ _ _ _ _ R).
  - destruct (Ho t al fields fields s s' Hp Hcf Hn ltac:(done) E) as (data & Hd & Ed & Hr). exists data. split; [by apply Hd|]. split; [done|].
    intros m Hm k rest. destruct m as [|m]; [lia|]. destruct (Hr m (S k) rest []) as [k' R]; [lia|done|]. exists k'. destruct Hp as (Hb & Ha & Hop & Hv). open_read.
    rewrite (bind_run _ _ _ _ _ (deadline_passes _)), Hb, Ha, Hop, Hv. cbn [as_ticks as_data]. rewrite (bind_run _ _ _ _ _ R). by destruct fields.
Qed.

Lemma all_pack n : (forall t v, canon t v -> packs n t v) /\ (forall t, packs_object n t).
Proof.
  induction n as [|n [IH1 IH2]]; [split; [by intros t v _ al s s' E|by intros t al fields all s s' _ _ _ _ E]|].
  assert (forall t, packs_object (S n) t) as Ho by (by apply packs_object_step). split; [by apply packs_step|done].
Qed.

(** ** More scopes *)

(** Code that gives the same result whenever [f] does not throw. *)
Definition extends (f g : bool -> string -> variant -> M abi_state unit) : Prop :=
  forall al t v s s', f al t v s = (s', Ok tt) -> g al t v s = (s', Ok tt).

Lemma for_each_extends {X} (f g : X -> M abi_state unit) l : (forall x s s', f x s = (s', Ok tt) -> g x s = (s', Ok tt)) ->
  forall s s', for_each f l s = (s', Ok tt) -> for_each g l s = (s', Ok tt).
Proof.
  intros Hfg. induction l as [|x l IH]; intros s s' E; [done|]. cbn [for_each] in *. apply M_bind_Ok in E as (s1 & [] & E1 & E2).
  rewrite (bind_run _ _ _ _ _ (Hfg _ _ _ E1)). by apply IH.
Qed.

Lemma pack_fields_extends f g al vo fields : extends f g -> forall dis s s', pack_fields f al vo fields dis s = (s', Ok tt) -> pack_fields g al vo fields dis s = (s', Ok tt).
Proof.
  intros Hfg. induction fields as [|fd fields IH]; intros dis s s' E; [done|]. cbn [pack_fields] in *. destruct (obj_find (fd_name fd) vo) as [v|].
  - apply M_bind_Ok in E as (s1 & [] & E1 & E). apply M_bind_Ok in E as (s2 & [] & E2 & E). rewrite (bind_run _ _ _ _ _ E1), (bind_run _ _ _ _ _ (Hfg _ _ _ _ _ E2)). by apply IH.
  - destruct (_ && _); [by apply IH|]. by destruct dis.
Qed.

Lemma pack_items_extends f g al fields : extends f g -> forall va s s', pack_items f al va fields s = (s', Ok tt) -> pack_items g al va fields s = (s', Ok tt).
Proof.
  intros Hfg. induction fields as [|fd fields IH]; intros va s s' E; [done|]. cbn [pack_items] in *. destruct va as [|v va]; [done|].
  apply M_bind_Ok in E as (s2 & [] & E2 & E). rewrite (bind_run _ _ _ _ _ (Hfg _ _ _ _ _ E2)). by apply IH.
Qed.

Lemma more_scopes n : forall m, (n <= m)%nat -> extends (variant_to_binary_ clock deadline abis limit n) (variant_to_binary_ clock deadline abis limit m).
Proof.
  induction n as [|n IH]; intros m Hm al t v s s' E; [done|]. destruct m as [|m]; [lia|]. specialize (IH m ltac:(lia)).
  cbn [variant_to_binary_] in *. apply M_bind_Ok in E as (s1 & [] & E0 & E). rewrite (bind_run _ _ _ _ _ E0).
  destruct (built_in_types abis !! _) as [[up pk]|]; [done|]. destruct (is_array _).
  { apply M_bind_Ok in E as (s2 & l & E1 & E). rewrite (bind_run _ _ _ _ _ E1). apply M_bind_Ok in E as (s3 & [] & E2 & E). rewrite (bind_run _ _ _ _ _ E2).
    eapply for_each_extends; [|done]. intros x s4 s5. apply IH. }
  destruct (variants abis !! _) as [vd|].
  { apply M_bind_Ok in E as (s2 & [[i u] x] & E1 & E). rewrite (bind_run _ _ _ _ _ E1). apply M_bind_Ok in E as (s3 & [] & E2 & E). rewrite (bind_run _ _ _ _ _ E2). by apply IH. }
  destruct (structs abis !! _) as [st|]; [|done]. destruct v; try done.
  - apply M_bind_Ok in E as (s2 & [] & E1 & E). rewrite (bind_run _ _ _ _ _ E1). by eapply pack_items_extends.
  - apply M_bind_Ok in E as (s2 & [] & E1 & E). rewrite (bind_run _ _ _ s2 tt); [by eapply pack_fields_extends|]. destruct (String.eqb _ _); [done|]. by apply IH.
Qed.

End RoundTrip.

(** ** The serializer of an accepted ABI *)

Section Claims.
Context `{FcVariants} (clock : nat -> Z) (deadline : Z).

(** C16: Once [set_abi] has accepted an ABI whose names do not look like arrays or
    optional types, the data of its actions and tables is never refused because of a
    type that is not known: unpacking can only fail because of the data, the depth or
    the time. *)
Theorem unpack_known abi s st st' abis :
  set_abi clock deadline s abi st = (st', Ok abis) -> plain_names abis -> readers_ok abis ->
  (forall a data ticks, a ∈ ab_actions abi ->
     binary_to_variant_bytes clock deadline abis (get_action_type abis (ad_name a)) data ticks <> Err invalid_type_inside_abi) /\
  (forall t data ticks, t ∈ ab_tables abi ->
     binary_to_variant_bytes clock deadline abis (get_table_type abis (tb_name t)) data ticks <> Err invalid_type_inside_abi).
Proof.
  intros E Hp Hr. destruct (set_abi_correct clock deadline s abi st) as [_ Hv]. destruct (Hv _ _ E) as [HL Hok].
  assert (forall t data ticks, known abis t -> binary_to_variant_bytes clock deadline abis t data ticks <> Err invalid_type_inside_abi) as Hk.
  { intros t data ticks Ht. unfold binary_to_variant_bytes. apply bind_not_Err; [by apply check_deadline_not|]. intros [] s1 _. by apply unpack_not. }
  split; intros x data ticks Hx; apply Hk.
  - unfold get_action_type. rewrite (loaded_actions _ _ HL x Hx). by eapply (ok_actions _ Hok), (loaded_actions _ _ HL).
  - unfold get_table_type. rewrite (loaded_tables _ _ HL x Hx). by eapply (ok_tables _ Hok), (loaded_tables _ _ HL).
Qed.

(** C14: As long as the deadline is not reached: a variant in the form that unpacking
    gives with all extension fields, of a type of an accepted ABI, that can be
    packed within 15 nested scopes is packed by [variant_to_binary], and
    [binary_to_variant] reads exactly the same variant back from the bytes and
    leaves nothing over. *)
Theorem abi_roundtrip abi s st st1 abis limit builtin_value t v k st2 :
  set_abi clock deadline s abi st = (st1, Ok abis) -> FcLaws abis builtin_value -> (forall n, clock n < deadline) ->
  canon abis builtin_value t v -> variant_to_binary_ clock deadline abis limit 15 true t v (mk_abi_state k []) = (st2, Ok tt) ->
  variant_to_binary clock deadline abis limit t v (mk_abi_state k []) = (st2, Ok tt) /\
  forall k', exists k'', binary_to_variant clock deadline abis t (mk_abi_state k' (as_data st2)) = (mk_abi_state k'' [], Ok v).
Proof.
  intros E Hlaws Hclock Hc Hp. destruct (set_abi_correct clock deadline s abi st) as [_ Hv]. destruct (Hv _ _ E) as [_ Hok]. split.
  - eapply more_scopes; [|done]. simpl. lia.
  - intros k'. destruct (all_pack clock deadline abis limit builtin_value Hok Hclock 15) as [Hall _]. destruct (Hall t v Hc _ _ _ Hp) as (data & _ & Ed & Hr).
    rewrite Ed. cbn [as_data app]. destruct (Hr 31%nat ltac:(lia) k' []) as [k'' R]. rewrite app_nil_r in R. by exists k''.
Qed.

End Claims.
