(* ===== verification/AbiRuns.v ===== *)
(** * The ABI serializer: a concrete ABI

    An ABI with typedefs, a derived struct, arrays, a variant and an extension; the
    theorems about the serializer on it; and a type that validation accepts but that
    cannot be packed. *)

From Stdlib Require Import ZArith Lia Bool String Ascii.
From stdpp Require Import base numbers gmap sorting list strings.
From S2P Require Import Prelude Datastream AbiSerializer AbiSerializerProofs AbiRoundTrip.

Open Scope Z_scope.

Module AbiDemo.

(** Values of one byte; vectors and optional values of built-in types are refused. *)
Definition read_byte (ds : buffer) : result (variant * buffer) :=
  match ds with [] => Err std_out_of_range | b :: ds => Ok (v_uint64 b, ds) end.

#[export] Instance demo_fc : FcVariants := {
  variant_from_stream c := match c with cpp _ => read_byte | _ => fun _ => Err parse_error end;
  raw_pack_as c v := match c, v with cpp _, v_uint64 z => Ok [z] | _, _ => Err bad_cast_exception end;
  as_bytes v := match v with v_blob b => Ok b | _ => Err bad_cast_exception end;
  fc_unsigned_int := unsigned_int
}.

Definition clock (n : nat) : Z := Z.of_nat (Nat.min n 1000).
Definition deadline : Z := 5000.
Lemma clock_in_time n : clock n < deadline.
Proof. unfold clock, deadline. lia. Qed.

Open Scope string_scope.

Definition figure_struct : struct_def := mk_struct "figure" "named" [mk_field "outline" "corners"; mk_field "kind" "kind"; mk_field "extra" "uint8$"].

Definition demo_abi : abi_def := mk_abi "snax::abi/1.0"
  [mk_type_def "count" "uint8"; mk_type_def "total" "count"; mk_type_def "corners" "point[]"]
  [mk_struct "point" "" [mk_field "x" "count"; mk_field "y" "total"];
   mk_struct "named" "" [mk_field "id" "uint64"];
   figure_struct]
  [mk_action_def 5 "figure" ""] [mk_table_def 6 "i64" [] [] "point"] [] [mk_error_message 1 "no"] [] [mk_variant_def "kind" ["uint8"; "point"]].

Definition start : abi_state := mk_abi_state 0 [].
Definition abis : abi_serializer := match (set_abi clock deadline new_abi_serializer demo_abi start).2 with Ok s => s | Err _ => new_abi_serializer end.

Lemma demo_set_abi : set_abi clock deadline new_abi_serializer demo_abi start = ((set_abi clock deadline new_abi_serializer demo_abi start).1, Ok abis).
Proof. vm_compute. reflexivity. Qed.

Lemma set_abi_validates_witness : structs abis !! "figure" = Some figure_struct /\ known abis "corners".
Proof.
  destruct (set_abi_validates clock deadline new_abi_serializer demo_abi start) as [_ Hv]. destruct (Hv _ _ demo_set_abi) as [HL Hok]. split.
  - apply (loaded_structs _ _ HL figure_struct). right. right. left.
  - apply (ok_fields _ Hok "figure" figure_struct (mk_field "outline" "corners")); [|left]. apply (loaded_structs _ _ HL figure_struct). right. right. left.
Defined.

Definition keys_plain {X} (m : gmap string X) : bool := forallb (fun x => negb (is_array x.1) && negb (is_optional x.1)) (map_to_list m).
Lemma keys_plain_ok {X} (m : gmap string X) n : keys_plain m = true -> is_Some (m !! n) -> is_array n = false /\ is_optional n = false.
Proof.
  intros Hk [x Hx]. apply elem_of_map_to_list, list_elem_of_In in Hx. unfold keys_plain in Hk. rewrite forallb_forall in Hk. specialize (Hk _ Hx). simpl in Hk.
  apply andb_true_iff in Hk as [H1 H2]. by apply negb_true_iff in H1, H2.
Qed.

Lemma demo_plain : plain_names abis.
Proof. intros n [Hn|[Hn|Hn]]; (eapply keys_plain_ok; [|exact Hn]); vm_compute; reflexivity. Qed.

Lemma varint_errors ds : forall k v, varint_get k v ds <> Err invalid_type_inside_abi /\ forall x rest, varint_get k v ds = Ok (x, rest) -> 0 <= x.
Proof.
  induction ds as [|b ds IH]; intros k v; [done|]. cbn [varint_get]. destruct (k <? 32)%Z; [|done]. cbn [SNAX_ASSERT mbind result_bind]. cbv zeta.
  destruct (Z.land b 128 =? 0)%Z; [|apply IH]. split; [done|]. intros x rest [= <- _]. apply u32_is_u32.
Qed.

Lemma demo_builtin n up pk : built_in_types abis !! n = Some (up, pk) -> exists c, up = (fun ds a o => variant_from_stream (shape c a o) ds) /\ pk = (fun v a o => raw_pack_as (shape c a o) v).
Proof.
  change (built_in_types abis) with configure_built_in_types. unfold configure_built_in_types. intros E. apply elem_of_list_to_map_2 in E. apply list_elem_of_fmap in E as ([n' c] & E & _).
  exists c. unfold pack_unpack in E. by simplify_eq.
Qed.

Lemma demo_readers : readers_ok abis.
Proof.
  split; [|split; intros ds; apply (varint_errors ds 0 0)].
  intros n up pk ds a o E. apply demo_builtin in E as (c & -> & _). unfold shape. destruct a; [done|]. destruct o; [done|]. simpl. unfold read_byte. by destruct ds.
Qed.

Lemma unpack_known_witness : binary_to_variant_bytes clock deadline abis "figure" [1; 2; 3]%Z 0 <> Err invalid_type_inside_abi.
Proof.
  destruct (unpack_known clock deadline demo_abi new_abi_serializer start _ abis demo_set_abi demo_plain demo_readers) as [Ha _].
  apply (Ha (mk_action_def 5 "figure" "") [1; 2; 3]%Z 0%nat). left.
Defined.

(** *** A figure *)

Definition byte_value (n : string) (a o : bool) (v : variant) : Prop := a = false /\ o = false /\ exists z, v = v_uint64 z.

Lemma demo_laws : FcLaws abis byte_value.
Proof.
  split.
  - intros n up pk v a o data rest E (-> & -> & z & ->) Hp. apply demo_builtin in E as (c & -> & ->). simpl in Hp. by injection Hp as <-.
  - intros k rest Hk. by apply (get_put (c := unsigned_int)).
  - intros k _. done.
Qed.

Definition point (x y : Z) : variant := v_object [("x", v_uint64 x); ("y", v_uint64 y)].
Definition figure : variant :=
  v_object [("id", v_uint64 7); ("outline", v_array [point 1 2; point 3 4]); ("kind", v_array [v_string "point"; point 5 6]); ("extra", v_uint64 9)].

(** [premise] evaluates a premise about a name. *)
Ltac premise := vm_compute; first [reflexivity | by eexists | repeat split; by eexists | repeat constructor; set_solver | discriminate].

Lemma canon_byte t z : is_Some (built_in_types abis !! fundamental_type (resolve_type abis t)) -> is_array (resolve_type abis t) = false -> is_optional (resolve_type abis t) = false ->
  canon abis byte_value t (v_uint64 z).
Proof. intros Hb Ha Ho. apply canon_builtin; [done|]. rewrite Ha, Ho. by split_and!; [..|exists z]. Qed.

Lemma canon_point x y : canon abis byte_value "point" (point x y).
Proof.
  apply canon_object; [split_and!; premise|premise|done|].
  eapply (canon_struct _ _ _ _ [] [("x", v_uint64 x); ("y", v_uint64 y)]); [premise|by left|]. constructor; [split; [done|]|constructor; [split; [done|]|constructor]]; apply canon_byte; premise.
Qed.

Lemma canon_figure : canon abis byte_value "figure" figure.
Proof.
  apply canon_object; [split_and!; premise|premise|done|].
  eapply (canon_struct _ _ _ _ [("id", v_uint64 7)]); [premise| |].
  - right. split; [done|]. split; [split_and!; premise|]. eapply (canon_struct _ _ _ _ [] [("id", v_uint64 7)]); [premise|by left|].
    constructor; [split; [done|]; apply canon_byte; premise|constructor].
  - constructor; [split; [done|]|constructor; [split; [done|]|constructor; [split; [done|]; apply canon_byte; premise|constructor]]].
    + apply canon_array; [premise|premise|premise|]. change (fundamental_type _) with "point". do 2 (apply Forall_cons; split; [split; [done|apply canon_point]|]). by apply Forall_nil.
    + eapply (canon_variant _ _ _ _ 1); [premise..|]. apply canon_point.
Qed.

Lemma abi_roundtrip_witness :
  variant_to_binary clock deadline abis 1024 "figure" figure start = (mk_abi_state 15 [7; 2; 1; 2; 3; 4; 1; 5; 6; 9]%Z, Ok tt) /\
  exists k, binary_to_variant clock deadline abis "figure" (mk_abi_state 0 [7; 2; 1; 2; 3; 4; 1; 5; 6; 9]%Z) = (mk_abi_state k [], Ok figure).
Proof.
  destruct (abi_roundtrip clock deadline demo_abi new_abi_serializer start _ abis 1024 byte_value "figure" figure 0 (mk_abi_state 15 [7; 2; 1; 2; 3; 4; 1; 5; 6; 9]%Z)
    demo_set_abi demo_laws clock_in_time canon_figure) as [H1 H2].
  - vm_compute. reflexivity.
  - split; [exact H1|]. exact (H2 0%nat).
Defined.

(** An optional struct is accepted by validation and can be unpacked, but not
    packed. *)
Definition optional_abi : abi_def := mk_abi "snax::abi/1.0" [] [mk_struct "point" "" [mk_field "x" "uint8"]; mk_struct "maybe" "" [mk_field "p" "point?"]]
  [mk_action_def 5 "maybe" ""] [] [] [] [] [].
Definition optional_abis : abi_serializer := match (set_abi clock deadline new_abi_serializer optional_abi start).2 with Ok s => s | Err _ => new_abi_serializer end.

Lemma optional_not_packed :
  is_Ok (set_abi clock deadline new_abi_serializer optional_abi start).2 = true /\
  binary_to_variant_bytes clock deadline optional_abis "maybe" [1; 8]%Z 0 = Ok (v_object [("p", v_object [("x", v_uint64 8)])]) /\
  (variant_to_binary clock deadline optional_abis 1024 "maybe" (v_object [("p", v_object [("x", v_uint64 8)])]) start).2 = Err invalid_type_inside_abi.
Proof. vm_compute. done. Qed.

(** The ABI of the system account is accepted, but has such a type itself: the header
    of [onblock] cannot be packed, with or without new producers. *)
Definition native_abis : abi_serializer :=
  match (set_abi clock deadline new_abi_serializer (snax_contract_abi (mk_abi "" [] [] [] [] [] [] [] [])) start).2 with Ok s => s | Err _ => new_abi_serializer end.

Definition header (new_producers : variant) : variant :=
  v_object [("timestamp", v_uint64 1); ("producer", v_uint64 1); ("confirmed", v_uint64 1); ("previous", v_uint64 1); ("transaction_mroot", v_uint64 1);
    ("action_mroot", v_uint64 1); ("schedule_version", v_uint64 1); ("new_producers", new_producers); ("header_extensions", v_array [])].

Lemma native_abi_accepted : set_abi clock deadline new_abi_serializer (snax_contract_abi (mk_abi "" [] [] [] [] [] [] [] [])) start =
  ((set_abi clock deadline new_abi_serializer (snax_contract_abi (mk_abi "" [] [] [] [] [] [] [] [])) start).1, Ok native_abis).
Proof. vm_compute. reflexivity. Qed.

Lemma onblock_not_packed new_producers :
  (variant_to_binary clock deadline native_abis 1024 "onblock" (v_object [("header", header new_producers)]) start).2 = Err invalid_type_inside_abi.
Proof. vm_compute. reflexivity. Qed.

(** A typedef of a variant is refused, because the variants are not there yet. *)
Definition alias_abi : abi_def := mk_abi "snax::abi/1.0" [mk_type_def "alias" "kind"] [] [] [] [] [] [] [mk_variant_def "kind" ["uint8"]].

Lemma variant_alias_refused : (set_abi clock deadline new_abi_serializer alias_abi start).2 = Err invalid_type_inside_abi.
Proof. vm_compute. done. Qed.

End AbiDemo.
