(* ===== verification/Airdrop.v ===== *)
(** * The airdrop contract

    [contracts/snax.airdrop]: every platform that the system contract knows can be
    given an amount, which is paid to each account that the platform asks for. The
    tables of the system contract and of the token contract that the code reads are
    arguments; the transfer is an inline action that [step_request] has the token
    contract carry out. In every run an account of a platform is paid at most
    once. *)

From Stdlib Require Import ZArith Lia Bool String Ascii.
From stdpp Require Import base numbers gmap list.
From S2P Require Import Prelude Name BlockHeader Token TokenProofs SystemContract.

Open Scope Z_scope.

(** The definitions by platform; the accounts that were paid by platform and
    account. *)
Record airdrop_tables := mk_airdrop {
  ad_definitions : gmap account_name asset;
  ad_requested : gset (account_name * account_name)
}.

(** The rows of the system contract are searched from the first on. *)
Definition check_platform_registered (platforms : gmap account_name platform_config) (platform : account_name) : result unit :=
  snax_assert (existsb (fun c => pc_account c =? platform) (map_to_list platforms).*2).

Section Airdrop.
Context (cx : context) (platforms : gmap account_name platform_config).

Definition addplatform (s : airdrop_tables) (platform : account_name) (amount_per_account : asset) : result airdrop_tables :=
  require_auth cx (self cx);;
  check_platform_registered platforms platform;;
  snax_assert (bool_decide (ad_definitions s !! platform = None));;
  mret (mk_airdrop (<[platform := amount_per_account]> (ad_definitions s)) (ad_requested s)).

Definition upplatform (s : airdrop_tables) (platform : account_name) (amount_per_account : asset) : result airdrop_tables :=
  require_auth cx (self cx);;
  check_platform_registered platforms platform;;
  snax_assert (bool_decide (is_Some (ad_definitions s !! platform)));;
  mret (mk_airdrop (<[platform := amount_per_account]> (ad_definitions s)) (ad_requested s)).

(** A missing row gives an asset whose symbol is the name without its precision. *)
Definition airdrop_balance (t : token_tables) (symbol_name : Z) : result asset :=
  match accounts t !! (self cx, symbol_name) with
  | Some balance => mret balance
  | None => make_asset 0 symbol_name
  end.

Definition airdrop_memo (platform : account_name) : list Z :=
  (fun c => Z.of_nat (nat_of_ascii c)) <$> (list_ascii_of_string "airdrop payment for platform " ++ name_to_string platform).

(** The comparisons are made from left to right until one is false. *)
Definition must_pay (s : airdrop_tables) (platform account : account_name) (balance amount_per_account : asset) : result bool :=
  enough ← asset_ge balance amount_per_account;
  if negb enough then mret false
  else if negb (bool_decide ((platform, account) ∉ ad_requested s)) then mret false
  else
    none ← make_asset 0 CORE_SYMBOL;
    asset_gt amount_per_account none.

Definition request (s : airdrop_tables) (t : token_tables) (platform account : account_name) : result (airdrop_tables * list effect) :=
  require_auth cx platform;;
  check_platform_registered platforms platform;;
  amount_per_account ← of_option snax_assert_message (ad_definitions s !! platform);
  balance ← airdrop_balance t (symbol_value_name (symbol amount_per_account));
  pay ← must_pay s platform account balance amount_per_account;
  if (pay : bool) then
    mret (mk_airdrop (ad_definitions s) ({[(platform, account)]} ∪ ad_requested s),
          [send_inline_transfer (self cx) account amount_per_account (airdrop_memo platform)])
  else mret (s, []).

(** The action with its transfer. *)
Definition step_request (s : airdrop_tables) (t : token_tables) (platform account : account_name) : result (airdrop_tables * token_tables) :=
  '(s, es) ← request s t platform account;
  t ← run_effects cx t es;
  mret (s, t).

End Airdrop.

(** ** An account is paid once *)

(** A request that succeeds pays an account that was not paid and notes it, or
    changes nothing. *)
Lemma request_Ok cx platforms s t p a s' es : request cx platforms s t p a = Ok (s', es) ->
  has_auth cx p = true /\
  (s' = s /\ es = [] \/
   exists q, ad_definitions s !! p = Some q /\ 0 < amount q /\ (p, a) ∉ ad_requested s /\
     (exists b, airdrop_balance cx t (symbol_value_name (symbol q)) = Ok b /\ symbol b = symbol q /\ amount q <= amount b) /\
     s' = mk_airdrop (ad_definitions s) ({[(p, a)]} ∪ ad_requested s) /\ es = [send_inline_transfer (self cx) a q (airdrop_memo p)]).
Proof.
  intros E. unfold request, require_auth in E. apply bind_Ok in E as ([] & Ea & E). apply assert_Ok in Ea. apply bind_Ok in E as ([] & _ & E).
  apply bind_Ok in E as (q & Eq & E). apply of_option_Ok in Eq. apply bind_Ok in E as (b & Eb & E). apply bind_Ok in E as (pay & Ep & E). split; [done|].
  destruct pay; [|injection E as <- <-; by left]. right. injection E as <- <-. exists q. unfold must_pay, asset_ge, asset_gt, asset_compare, snax_assert in Ep.
  inv_ok. match goal with H : (if negb ?c then _ else _) = Ok true |- _ => destruct c eqn:Hc; simpl in H; [|done] end.
  match goal with H : (if negb ?c then _ else _) = Ok true |- _ => destruct c eqn:Hn; simpl in H; [|done] end. inv_ok. split_bool.
  split; [done|]. split; [|split; [done|]; split; [|done]; exists b; split; [done|]; lia].
  done.
Qed.

(** The system of both contracts, with the payments that were made. *)
Record world := mk_world { w_airdrop : airdrop_tables; w_token : token_tables; w_paid : list (account_name * account_name) }.

(** Actions on the airdrop, and anything the token contract does. *)
Inductive world_step (me : account_name) : world -> world -> Prop :=
| step_add cx platforms w p q s' : self cx = me -> addplatform cx platforms (w_airdrop w) p q = Ok s' -> world_step me w (mk_world s' (w_token w) (w_paid w))
| step_up cx platforms w p q s' : self cx = me -> upplatform cx platforms (w_airdrop w) p q = Ok s' -> world_step me w (mk_world s' (w_token w) (w_paid w))
| step_pay cx platforms w p a s' es t' : self cx = me -> request cx platforms (w_airdrop w) (w_token w) p a = Ok (s', es) -> run_effects cx (w_token w) es = Ok t' ->
    world_step me w (mk_world s' t' (w_paid w ++ if bool_decide (es = []) then [] else [(p, a)]))
| step_token cx w t' : token_step cx (w_token w) t' -> world_step me w (mk_world (w_airdrop w) t' (w_paid w)).

Inductive world_run (me : account_name) : world -> world -> Prop :=
| run_none w : world_run me w w
| run_more w1 w2 w3 : world_run me w1 w2 -> world_step me w2 w3 -> world_run me w1 w3.

(** Every payment is noted, and none was made twice. *)
Definition paid_once (w : world) : Prop := NoDup (w_paid w) /\ forall x, x ∈ w_paid w -> x ∈ ad_requested (w_airdrop w).

Lemma world_step_once me w w' : paid_once w -> world_step me w w' -> paid_once w'.
Proof.
  intros [Hn Hs]. destruct 1 as [cx pl w p q s' _ E|cx pl w p q s' _ E|cx pl w p a s' es t' _ E _|cx w t' _]; [| | |done].
  1, 2: unfold addplatform, upplatform in E; repeat (apply bind_Ok in E as ([] & _ & E)); injection E as <-; done.
  apply request_Ok in E as [_ [[-> ->]|(q & _ & _ & Hni & _ & -> & ->)]]; unfold paid_once; cbn [w_paid w_airdrop ad_requested].
  - rewrite app_nil_r. done.
  - split; [|set_solver]. rewrite bool_decide_eq_false_2 by done. apply NoDup_app. split; [done|]. split; [|apply NoDup_singleton]. set_solver.
Qed.

(** In every run from the empty tables an account is paid at most once for a
    platform. *)
Lemma airdrop_pays_once me t w : world_run me (mk_world (mk_airdrop ∅ ∅) t []) w -> NoDup (w_paid w).
Proof.
  intros Hr. assert (paid_once w) as [Hn _]; [|done]. remember (mk_world _ t []) as w0 eqn:E0. induction Hr as [|w1 w2 w3 _ IH Hst]; subst; [split; [constructor|set_solver]|].
  eapply world_step_once; [by apply IH|done].
Qed.

(** An airdrop without a balance is not skipped: the balance that is made up for it
    has another symbol, so that the comparison throws. *)
Lemma no_balance_throws cx platforms s t p a q : accounts t !! (self cx, symbol_value_name (symbol q)) = None -> ad_definitions s !! p = Some q ->
  symbol q <> symbol_value_name (symbol q) -> exists e, request cx platforms s t p a = Err e.
Proof.
  intros Ht Hq Hne. destruct (request cx platforms s t p a) as [[s' es]|e] eqn:E; [|by eauto]. exfalso.
  unfold request in E. inv_ok. unfold airdrop_balance, make_asset, snax_assert in *. rewrite Ht in *. inv_ok.
  unfold must_pay, asset_ge, asset_compare, snax_assert in *. inv_ok. split_bool. simpl in *. congruence.
Qed.
