(* ===== verification/ProducerPlugin.v ===== *)
(** * The producer plugin

    [producer_plugin.cpp] of [plugins/producer_plugin]: when this node's
    producers have their slots, which block is being built and for what purpose,
    the blocks that are produced with the number of earlier blocks they confirm,
    the watermarks that keep a producer from confirming twice, and the queue of
    transactions that arrive.

    The controller is an interface here, [ProducerChain]. The members that are
    read once from the configuration, the readings of the clock and the order of
    [fc] are arguments; a [fc::time_point] is a number of microseconds. The timer
    is the list of the waits that were started: a wait that has expired cannot be
    cancelled, so each of them may still call its handler. What the plugin tells
    others (answers, signals and the line it logs for a produced block) and what
    it does to a watermark is a list of events. Exhausted memory ends the process
    and is left out, so are log lines, snapshots and the access lists. *)

From Stdlib Require Import ZArith Lia Bool.
From stdpp Require Import base numbers gmap list.
From S2P Require Import Prelude Merkle BlockTime BlockHeader Float64 Transaction Block Controller.

Open Scope Z_scope.

(** ** The controller, as the plugin uses it *)

(** A row of the index [by_delay] of the scheduled transactions. *)
Record scheduled := mk_scheduled {
  sc_delay_until : Z;
  sc_id : Z;
  sc_published : Z;
  sc_trx_id : digest
}.

(** The signals the plugin is connected to. *)
Inductive signal :=
| accepted_block (b : block_header_state)
| irreversible_block (timestamp : Z).

(** A transaction that was pushed has a trace, of which the plugin reads the
    exception. [create_block_state_future] fails before the block is tried. *)
Class ProducerChain (C : Type) := {
  get_read_mode : C -> db_read_mode;
  head_block_state : C -> block_header_state;
  pending_block_state : C -> option block_header_state;
  is_known_unexpired_transaction : C -> digest -> bool;
  fetch_block_by_id : C -> digest -> bool;
  deferred_trx_expiration_window : C -> Z;
  unapplied_transactions : C -> list (digest * transaction_metadata);
  clear_unapplied : C -> C;
  erase_unapplied : digest -> C -> C;
  scheduled_by_delay : C -> list scheduled;
  chain_abort_block : C -> C;
  chain_start_block : Z -> Z -> M C unit;
  chain_push_transaction : transaction_metadata -> Z -> M C (option exn);
  chain_push_scheduled : digest -> Z -> M C (option exn);
  chain_finalize_block : M C unit;
  chain_sign_block : (digest -> signature_type) -> M C unit;
  chain_commit_block : C -> C * list signal * result unit;
  create_block_state_future : C -> signed_block -> result unit;
  chain_push_block : signed_block -> C -> C * list signal * result unit
}.

(** ** State *)

Inductive pending_block_mode := producing | speculating.
#[export] Instance pending_block_mode_eq_dec : EqDecision pending_block_mode.
Proof. solve_decision. Defined.

(** [next] is known by a number. *)
Record incoming := mk_incoming { in_trx : packed_transaction; in_persist : bool; in_next : nat }.

Record runtime_options := mk_runtime {
  max_transaction_time_ms : Z;
  max_irreversible_block_age_us : Z;
  produce_time_offset_us : Z;
  last_block_time_offset_us : Z;
  max_scheduled_transaction_time_per_block_ms : Z;
  incoming_defer_ratio : double
}.

Record policy := mk_policy {
  production_enabled : bool;
  pause_production : bool;
  po_options : runtime_options;
  irreversible_block_time : Z
}.

Record signing := mk_signing {
  producer_watermarks : gmap Z Z;
  last_signed_block_time : Z;
  last_signed_block_num : Z
}.

(** The indices of transactions with an expiry are in the order of [by_expiry]. *)
Record queues := mk_queues {
  persistent_transactions : list (digest * Z);
  blacklisted_transactions : list (digest * Z);
  pending_incoming_transactions : list incoming;
  incoming_trx_weight : double
}.

Inductive wait_handler := retry_loop | produce_now.

Record wait := mk_wait { wa_corelation_id : Z; wa_expires : Z; wa_handler : wait_handler }.

Inductive event :=
| received (next : nat)
| answered (next : nat) (except : option exn)
| confirmed_block (id : digest) (p : account_name) (sig : signature_type)
| watermark_set (p : account_name) (num : Z)
| produced_block (p : account_name) (num confirmed : Z)
| rejected_block (id : digest).

Record plugin (C : Type) := mk_plugin {
  pp_chain : C;
  pp_policy : policy;
  pp_signing : signing;
  pp_queues : queues;
  pp_mode : pending_block_mode;
  pp_waits : list wait;
  pp_corelation_id : Z;
  pp_quit : bool;
  pp_ticks : nat;
  pp_events : list event
}.
Arguments mk_plugin {_}.
Arguments pp_chain {_}.
Arguments pp_policy {_}.
Arguments pp_signing {_}.
Arguments pp_queues {_}.
Arguments pp_mode {_}.
Arguments pp_waits {_}.
Arguments pp_corelation_id {_}.
Arguments pp_quit {_}.
Arguments pp_ticks {_}.
Arguments pp_events {_}.

(** [multi_index_container::insert] with a unique id, behind equal expiries. *)
Fixpoint insert_by_expiry (x : digest * Z) (l : list (digest * Z)) : list (digest * Z) :=
  match l with
  | [] => [x]
  | y :: l' => if y.2 <=? x.2 then y :: insert_by_expiry x l' else x :: l
  end.

Definition index_has (l : list (digest * Z)) (i : digest) : bool := bool_decide (i ∈ l.*1).

Definition index_insert (x : digest * Z) (l : list (digest * Z)) : list (digest * Z) :=
  if index_has l x.1 then l else insert_by_expiry x l.

Definition plugin_failure_is_subjective (e : exn) (deadline_is_subjective : bool) : bool :=
  bool_decide (e = block_cpu_usage_exceeded) || bool_decide (e = block_net_usage_exceeded) ||
  (bool_decide (e = deadline_exception) && deadline_is_subjective).

(** [guard_exception] is caught before the others. *)
Definition is_guard (e : exn) : bool := bool_decide (e = guard_exception).

Definition block_interval_us : Z := block_interval_ms * 1000.

Section Plugin.
Context {C : Type} `{ProducerChain C} `{Crypto} `{TransactionData}.
(** [_producers], a set in its order, and [_signature_providers]; a provider that
    throws signs with a key that is not the one asked for. *)
Context (producers_ : list account_name) (signature_providers : gmap Z (digest -> signature_type)) (start_time : Z).
(** [fc::time_point::now()], by the number of the reading, and the key of a
    transaction among the unapplied ones. *)
Context (now : nat -> Z) (signed_id : packed_transaction -> digest).

Notation plugin := (plugin C).

Definition set_pp_chain (s : plugin) (c : C) : plugin :=
  mk_plugin c (pp_policy s) (pp_signing s) (pp_queues s) (pp_mode s) (pp_waits s) (pp_corelation_id s) (pp_quit s) (pp_ticks s) (pp_events s).
Definition set_policy (s : plugin) (p : policy) : plugin :=
  mk_plugin (pp_chain s) p (pp_signing s) (pp_queues s) (pp_mode s) (pp_waits s) (pp_corelation_id s) (pp_quit s) (pp_ticks s) (pp_events s).
Definition set_signing (s : plugin) (g : signing) : plugin :=
  mk_plugin (pp_chain s) (pp_policy s) g (pp_queues s) (pp_mode s) (pp_waits s) (pp_corelation_id s) (pp_quit s) (pp_ticks s) (pp_events s).
Definition set_queues (s : plugin) (q : queues) : plugin :=
  mk_plugin (pp_chain s) (pp_policy s) (pp_signing s) q (pp_mode s) (pp_waits s) (pp_corelation_id s) (pp_quit s) (pp_ticks s) (pp_events s).
Definition set_mode (s : plugin) (m : pending_block_mode) : plugin :=
  mk_plugin (pp_chain s) (pp_policy s) (pp_signing s) (pp_queues s) m (pp_waits s) (pp_corelation_id s) (pp_quit s) (pp_ticks s) (pp_events s).
Definition set_quit (s : plugin) : plugin :=
  mk_plugin (pp_chain s) (pp_policy s) (pp_signing s) (pp_queues s) (pp_mode s) (pp_waits s) (pp_corelation_id s) true (pp_ticks s) (pp_events s).
Definition tell (s : plugin) (e : event) : plugin :=
  mk_plugin (pp_chain s) (pp_policy s) (pp_signing s) (pp_queues s) (pp_mode s) (pp_waits s) (pp_corelation_id s) (pp_quit s) (pp_ticks s)
    (pp_events s ++ [e]).

Definition modify_plugin (f : plugin -> plugin) : M plugin unit := s ← get_state; put_state (f s).

Definition read_clock : M plugin Z := fun s =>
  (mk_plugin (pp_chain s) (pp_policy s) (pp_signing s) (pp_queues s) (pp_mode s) (pp_waits s) (pp_corelation_id s) (pp_quit s) (S (pp_ticks s))
     (pp_events s), Ok (now (pp_ticks s))).

Definition on_chain {A} (m : M C A) : M plugin A := fun s =>
  let '(c, r) := m (pp_chain s) in (set_pp_chain s c, r).

(** [_timer.async_wait] with the next correlation id. *)
Definition start_wait (expires : Z) (h : wait_handler) : M plugin unit :=
  modify_plugin (fun s => let cid := u32 (pp_corelation_id s + 1) in
    mk_plugin (pp_chain s) (pp_policy s) (pp_signing s) (pp_queues s) (pp_mode s) (pp_waits s ++ [mk_wait cid expires h]) cid (pp_quit s)
      (pp_ticks s) (pp_events s)).

(** ** Slots *)

Notation head_of s := (head_block_state (pp_chain s)).
Notation schedule_of s := (producers (active_schedule (head_of s))).
Definition head_block_time (c : C) : Z := to_time_point (timestamp (sbh_header (header (head_block_state c)))).

(** The position of a producer in the schedule. *)
Fixpoint index_of (p : account_name) (ps : list producer_key) : option Z :=
  match ps with
  | [] => None
  | k :: ps => if producer_name k =? p then Some 0 else i ← index_of p ps; Some (i + 1)
  end.

(** From the watermark on, or the next block. *)
Definition minimum_offset (s : plugin) (p : account_name) : Z :=
  match producer_watermarks (pp_signing s) !! p with
  | Some watermark =>
      let block_num := u32 (block_num (head_of s)) in
      let block_num := match pending_block_state (pp_chain s) with Some _ => u32 (block_num + 1) | None => block_num end in
      if block_num <? watermark then u32 (watermark - block_num + 1) else 1
  | None => 1
  end.

Definition calculate_next_block_time (s : plugin) (p : account_name) (current_block_time : Z) : option Z :=
  producer_index ← index_of p (schedule_of s);
  let size := Z.of_nat (length (schedule_of s)) in
  let minimum_slot := u32 (current_block_time + minimum_offset s p) in
  let minimum_slot_producer_index := (minimum_slot mod (size * producer_repetitions)) / producer_repetitions in
  if producer_index =? minimum_slot_producer_index then Some (to_time_point minimum_slot)
  else
    let producer_distance := u64 (producer_index - minimum_slot_producer_index) in
    let producer_distance := if producer_index <? producer_distance then u64 (producer_distance + size) else producer_distance in
    let first_minimum_producer_slot := u32 (minimum_slot - minimum_slot mod producer_repetitions) in
    let next_block_slot := u32 (first_minimum_producer_slot + producer_distance * producer_repetitions) in
    Some (to_time_point next_block_slot).

(** The time of the block after [head_time] for a reading of the clock. *)
Definition pending_time_at (now head_time : Z) : Z :=
  let base := Z.max now head_time in
  let min_time_to_next_block := block_interval_us - base `rem` block_interval_us in
  let block_time := base + min_time_to_next_block in
  if block_time - now <? block_interval_us / 10 then block_time + block_interval_us else block_time.

Definition calculate_pending_block_time : M plugin Z :=
  now ← read_clock;
  s ← get_state;
  mret (pending_time_at now (head_block_time (pp_chain s))).

Definition calculate_block_deadline (s : plugin) (block_time : Z) : Z :=
  let o := po_options (pp_policy s) in
  let last_block := set_time_point block_time mod producer_repetitions =? producer_repetitions - 1 in
  block_time + (if last_block then last_block_time_offset_us o else produce_time_offset_us o).

(** ** Irreversible blocks *)

Definition on_irreversible_block (lib_timestamp : Z) : M plugin unit :=
  modify_plugin (fun s => let p := pp_policy s in
    set_policy s (mk_policy (production_enabled p) (pause_production p) (po_options p) (to_time_point lib_timestamp))).

Definition get_irreversible_block_age : M plugin Z :=
  now ← read_clock;
  s ← get_state;
  let t := irreversible_block_time (pp_policy s) in
  mret (if now <? t then 0 else now - t).

Definition production_disabled_by_policy : M plugin bool :=
  s ← get_state;
  let p := pp_policy s in
  let max_age := max_irreversible_block_age_us (po_options p) in
  if negb (production_enabled p) || pause_production p then mret true
  else if 0 <=? max_age then age ← get_irreversible_block_age; mret (max_age <=? age)
  else mret false.

(** ** Accepted blocks *)

Definition names (ps : list producer_key) : list account_name := producer_name <$> ps.

(** A producer of this node that did not make the block confirms it. *)
Definition confirm_accepted (b : block_header_state) (p : account_name) : M plugin unit :=
  if p =? producer (sbh_header (header b)) then mret tt
  else
    match find (fun k => producer_name k =? p) (producers (active_schedule b)) with
    | Some k =>
        match signature_providers !! block_signing_key_of k with
        | Some provider =>
            modify_plugin (fun s =>
              tell (set_signing s (mk_signing (producer_watermarks (pp_signing s)) (to_time_point (timestamp (sbh_header (header b)))) (u32 (block_num b))))
                (confirmed_block (id b) p (provider (BlockHeader.sig_digest b))))
        | None => mret tt
        end
    | None => mret tt
    end.

Fixpoint each {S A} (f : A -> M S unit) (l : list A) : M S unit :=
  match l with [] => mret tt | a :: l => f a;; each f l end.

Definition set_watermark (p : account_name) (num : Z) : M plugin unit :=
  modify_plugin (fun s => let g := pp_signing s in
    set_signing s (mk_signing (<[p := num]> (producer_watermarks g)) (last_signed_block_time g) (last_signed_block_num g))).

(** The producers of this node that are in the next schedule and not in this one. *)
Definition newly_active (b new_bs : block_header_state) : list account_name :=
  filter (fun p => p ∈ names (producers (active_schedule new_bs)) /\ p ∉ names (producers (active_schedule b))) producers_.

Definition on_block (b : block_header_state) : M plugin unit :=
  s ← get_state;
  let t := to_time_point (timestamp (sbh_header (header b))) in
  let hbn := u32 (block_num b) in
  if (t <=? last_signed_block_time (pp_signing s)) || (t <=? start_time) || (hbn <=? last_signed_block_num (pp_signing s)) then mret tt
  else
    each (confirm_accepted b) (filter (fun p => p ∈ names (producers (active_schedule b))) producers_);;
    next_time ← lift (timestamp_next (timestamp (sbh_header (header b))));
    new_bs ← lift (generate_next b next_time);
    let '(new_bs, promoted) := maybe_promote_pending new_bs in
    if promoted && negb (version (active_schedule b) =? version (active_schedule new_bs)) then
      each (fun p => set_watermark p hbn;; modify_plugin (fun s => tell s (watermark_set p hbn))) (newly_active b new_bs)
    else mret tt.

(** [emit]: what a handler throws is logged. *)
Definition on_signal (g : signal) : M plugin unit :=
  match g with
  | accepted_block b => catch_all (on_block b)
  | irreversible_block t => on_irreversible_block t
  end.

(** An operation of the controller that sends signals. *)
Definition on_chain_signals (f : C -> C * list signal * result unit) : M plugin unit :=
  s ← get_state;
  let '(c, signals, r) := f (pp_chain s) in
  put_state (set_pp_chain s c);;
  each on_signal signals;;
  lift r.


(** ** Transactions that arrive *)

(** [handle_guard_exception] quits the application. *)
Definition handle_guard_exception : M plugin unit := modify_plugin set_quit.

Definition queue_incoming (i : incoming) : M plugin unit :=
  modify_plugin (fun s => let q := pp_queues s in
    set_queues s (mk_queues (persistent_transactions q) (blacklisted_transactions q) (pending_incoming_transactions q ++ [i]) (incoming_trx_weight q))).

Definition send_response (next : nat) (except : option exn) : M plugin unit := modify_plugin (fun s => tell s (answered next except)).

Definition persist (i : digest) (expiry : Z) : M plugin unit :=
  modify_plugin (fun s => let q := pp_queues s in
    set_queues s (mk_queues (index_insert (i, expiry) (persistent_transactions q)) (blacklisted_transactions q) (pending_incoming_transactions q)
                    (incoming_trx_weight q))).

(** The deadline of a transaction and whether the block has set it. *)
Definition transaction_deadline (block_deadline : Z) : M plugin (Z * bool) :=
  now ← read_clock;
  s ← get_state;
  let max_ms := max_transaction_time_ms (po_options (pp_policy s)) in
  let deadline := now + max_ms * 1000 in
  mret (if (max_ms <? 0) || (bool_decide (pp_mode s = producing) && (block_deadline <? deadline)) then (block_deadline, true) else (deadline, false)).

(** The [try] block: the exception of the trace, or one that was thrown. *)
Definition try_incoming (trx : packed_transaction) (deadline : Z) : M plugin (option exn + exn) :=
  try_catch (m ← lift (metadata_of_packed trx); on_chain (chain_push_transaction m deadline)).

Definition on_incoming_transaction_async (i : incoming) : M plugin unit :=
  s ← get_state;
  match pending_block_state (pp_chain s) with
  | None => queue_incoming i
  | Some pbs =>
      let block_time := to_time_point (timestamp (sbh_header (header pbs))) in
      '(trx, trx_id) ← lift (packed_id (in_trx i));
      '(trx, t) ← lift (get_transaction trx);
      let i := mk_incoming trx (in_persist i) (in_next i) in
      let expiration := tr_expiration t * 1000000 in
      if expiration <? block_time then send_response (in_next i) (Some expired_tx_exception)
      else if is_known_unexpired_transaction (pp_chain s) trx_id then send_response (in_next i) (Some tx_duplicate)
      else
        '(deadline, deadline_is_subjective) ← transaction_deadline (calculate_block_deadline s block_time);
        r ← try_incoming trx deadline;
        match r with
        | inl (Some e) =>
            if plugin_failure_is_subjective e deadline_is_subjective then queue_incoming i else send_response (in_next i) (Some e)
        | inl None => (if in_persist i then persist trx_id expiration else mret tt);; send_response (in_next i) None
        | inr e => if is_guard e then handle_guard_exception else send_response (in_next i) (Some e)
        end
  end.

(** The call from outside. *)
Definition receive_transaction (i : incoming) : M plugin unit :=
  modify_plugin (fun s => tell s (received (in_next i)));; on_incoming_transaction_async i.

(** ** The pending block *)

Inductive start_block_result := succeeded | failed | waiting | exhausted.
#[export] Instance start_block_result_eq_dec : EqDecision start_block_result.
Proof. solve_decision. Defined.

Inductive tx_category := PERSISTED | UNEXPIRED_UNPERSISTED | EXPIRED.

(** How a loop over transactions ends: it is through, the block is exhausted, or
    the whole function fails. *)
Inductive loop_end := through | no_time | give_way.

Definition out_of_time (deadline : Z) : M plugin bool := now ← read_clock; mret (deadline <=? now).

(** Persisted transactions that expired are removed, the result tells whether the
    time was up before. *)
Fixpoint expire_persisted (l : list (digest * Z)) (block_time deadline : Z) : M plugin bool :=
  match l with
  | [] => mret false
  | (_, expiry) :: l =>
      if expiry <=? block_time then
        late ← out_of_time deadline;
        if late : bool then mret true
        else
          modify_plugin (fun s => let q := pp_queues s in
            set_queues s (mk_queues l (blacklisted_transactions q) (pending_incoming_transactions q) (incoming_trx_weight q)));;
          expire_persisted l block_time deadline
      else mret false
  end.

Definition calculate_transaction_category (s : plugin) (block_time : Z) (trx : transaction_metadata) : tx_category :=
  if tr_expiration (st_trx (md_trx trx)) * 1000000 <? block_time then EXPIRED
  else if index_has (persistent_transactions (pp_queues s)) (md_id trx) then PERSISTED
  else UNEXPIRED_UNPERSISTED.

(** A transaction that was applied before is applied again. *)
Definition reapply_transaction (trx : transaction_metadata) (preprocess_deadline : Z) : M plugin loop_end :=
  r ← try_catch (
    '(deadline, deadline_is_subjective) ← transaction_deadline preprocess_deadline;
    except ← on_chain (chain_push_transaction trx deadline);
    match except with
    | Some e =>
        if plugin_failure_is_subjective e deadline_is_subjective then mret no_time
        else modify_plugin (fun s => set_pp_chain s (erase_unapplied (signed_id (md_packed_trx trx)) (pp_chain s)));; mret through
    | None => mret through
    end);
  match r with
  | inl e => mret e
  | inr e => if is_guard e then handle_guard_exception;; mret give_way else mret through
  end.

(** The transactions as they were at the beginning, in the order of their map. *)
Fixpoint process_unapplied (l : list (digest * transaction_metadata)) (block_time preprocess_deadline : Z) (is_exhausted : bool) :
    M plugin loop_end :=
  match l with
  | [] => mret (if is_exhausted then no_time else through)
  | (key, trx) :: l =>
      late ← out_of_time preprocess_deadline;
      if (late || is_exhausted)%bool then mret no_time
      else
        s ← get_state;
        let category := calculate_transaction_category s block_time trx in
        let drop := match category with EXPIRED => true | UNEXPIRED_UNPERSISTED => bool_decide (producers_ = []) | PERSISTED => false end in
        let apply := match category with PERSISTED => true | UNEXPIRED_UNPERSISTED => bool_decide (pp_mode s = producing) | EXPIRED => false end in
        if drop then
          modify_plugin (fun s => set_pp_chain s (erase_unapplied key (pp_chain s)));;
          process_unapplied l block_time preprocess_deadline false
        else if apply then
          e ← reapply_transaction trx preprocess_deadline;
          match e with
          | through => process_unapplied l block_time preprocess_deadline false
          | _ => mret e
          end
        else process_unapplied l block_time preprocess_deadline false
  end.

Fixpoint expire_blacklisted (l : list (digest * Z)) (now preprocess_deadline : Z) : M plugin unit :=
  match l with
  | [] => mret tt
  | (_, expiry) :: l =>
      if expiry <=? now then
        late ← out_of_time preprocess_deadline;
        if late : bool then mret tt
        else
          modify_plugin (fun s => let q := pp_queues s in
            set_queues s (mk_queues (persistent_transactions q) l (pending_incoming_transactions q) (incoming_trx_weight q)));;
          expire_blacklisted l now preprocess_deadline
      else mret tt
  end.

(** The first of the transactions that wait is taken from the queue. *)
Definition pop_incoming (weight : double -> double) : M plugin unit :=
  s ← get_state;
  let q := pp_queues s in
  match pending_incoming_transactions q with
  | [] => throw undefined_behavior
  | i :: rest =>
      put_state (set_queues s (mk_queues (persistent_transactions q) (blacklisted_transactions q) rest (weight (incoming_trx_weight q))));;
      on_incoming_transaction_async i
  end.

(** Between scheduled transactions as many as the ratio allows; [orig] is what is
    left of the number that waited at the beginning. *)
Fixpoint incoming_by_weight (orig : nat) (deadline : Z) : M plugin nat :=
  match orig with
  | O => mret O
  | S n =>
      s ← get_state;
      if dle (of_int 1) (incoming_trx_weight (pp_queues s)) && negb (length (pending_incoming_transactions (pp_queues s)) =? 0)%nat then
        late ← out_of_time deadline;
        if late : bool then mret orig
        else pop_incoming (fun w => dsub w (of_int 1));; incoming_by_weight n deadline
      else mret orig
  end.

Definition blacklist (i : digest) (expiry : Z) : M plugin unit :=
  modify_plugin (fun s => let q := pp_queues s in
    set_queues s (mk_queues (persistent_transactions q) (index_insert (i, expiry) (blacklisted_transactions q)) (pending_incoming_transactions q)
                    (incoming_trx_weight q))).

Definition set_weight (f : double -> double) : M plugin unit :=
  modify_plugin (fun s => let q := pp_queues s in
    set_queues s (mk_queues (persistent_transactions q) (blacklisted_transactions q) (pending_incoming_transactions q) (f (incoming_trx_weight q)))).

(** One scheduled transaction; one that fails for good is not tried again. *)
Definition run_one_scheduled (trx_id : digest) (scheduled_trx_deadline : Z) : M plugin loop_end :=
  r ← try_catch (
    '(deadline, deadline_is_subjective) ← transaction_deadline scheduled_trx_deadline;
    except ← on_chain (chain_push_scheduled trx_id deadline);
    match except with
    | Some e =>
        if plugin_failure_is_subjective e deadline_is_subjective then mret no_time
        else
          now ← read_clock;
          s ← get_state;
          blacklist trx_id (now + deferred_trx_expiration_window (pp_chain s) * 1000000);; mret through
    | None => mret through
    end);
  match r with
  | inl e => mret e
  | inr e => if is_guard e then handle_guard_exception;; mret give_way else mret through
  end.

(** The index [by_delay] has the key [( delay_until, id )]. *)
Definition key_leb (a b : Z * Z) : bool := (a.1 <? b.1) || ((a.1 =? b.1) && (a.2 <=? b.2)).
Definition sc_key (x : scheduled) : Z * Z := (sc_delay_until x, sc_id x).

(** [lower_bound], and the iterator with its successor. *)
Definition lower_bound (c : C) (k : Z * Z) : list scheduled := filter (fun x => key_leb k (sc_key x) = true) (scheduled_by_delay c).

(** The rows from an iterator on. A row that is skipped is followed by the next
    one; after a transaction was run its successor, as it was before, is looked
    up again. The result has what is left of the number of transactions that
    waited. *)
Fixpoint process_scheduled (fuel : nat) (rows : list scheduled) (orig : nat) (pending_block_time scheduled_trx_deadline : Z) :
    M plugin (loop_end * nat) :=
  match fuel with
  | O => throw out_of_fuel
  | S fuel =>
      match rows with
      | [] => mret (through, orig)
      | x :: rest =>
          if pending_block_time <? sc_delay_until x then mret (through, orig)
          else if pending_block_time <=? sc_published x then process_scheduled fuel rest orig pending_block_time scheduled_trx_deadline
          else
            late ← out_of_time scheduled_trx_deadline;
            if late : bool then mret (no_time, orig)
            else
              s ← get_state;
              if index_has (blacklisted_transactions (pp_queues s)) (sc_trx_id x) then
                process_scheduled fuel rest orig pending_block_time scheduled_trx_deadline
              else
                orig ← incoming_by_weight orig scheduled_trx_deadline;
                late ← out_of_time scheduled_trx_deadline;
                if late : bool then mret (no_time, orig)
                else
                  e ← run_one_scheduled (sc_trx_id x) scheduled_trx_deadline;
                  match e with
                  | through =>
                      s ← get_state;
                      set_weight (fun w => dadd w (incoming_defer_ratio (po_options (pp_policy s))));;
                      (if (orig =? 0)%nat then set_weight (fun _ => of_int 0) else mret tt);;
                      match rest with
                      | [] => mret (through, orig)
                      | next :: _ =>
                          s ← get_state;
                          process_scheduled fuel (lower_bound (pp_chain s) (sc_key next)) orig pending_block_time scheduled_trx_deadline
                      end
                  | _ => mret (e, orig)
                  end
      end
  end.

(** What is left of those that waited, at the end. *)
Fixpoint process_incoming (orig : nat) (preprocess_deadline : Z) : M plugin start_block_result :=
  match orig with
  | O => mret succeeded
  | S n =>
      s ← get_state;
      if (length (pending_incoming_transactions (pp_queues s)) =? 0)%nat then mret succeeded
      else
        late ← out_of_time preprocess_deadline;
        if late : bool then mret exhausted
        else pop_incoming (fun w => w);; process_incoming n preprocess_deadline
  end.

(** Not our turn, production is off, or the watermark excludes us. *)
Definition decide_mode (s : plugin) (scheduled_producer : producer_key) (irreversible_block_age : Z) : pending_block_mode :=
  let p := pp_policy s in
  let max_age := max_irreversible_block_age_us (po_options p) in
  if negb (production_enabled p) then speculating
  else if negb (bool_decide (producer_name scheduled_producer ∈ producers_)) then speculating
  else if negb (bool_decide (is_Some (signature_providers !! block_signing_key_of scheduled_producer))) then speculating
  else if pause_production p then speculating
  else if (0 <=? max_age) && (max_age <=? irreversible_block_age) then speculating
  else
    match producer_watermarks (pp_signing s) !! producer_name scheduled_producer with
    | Some watermark => if u32 (u32 (block_num (head_of s)) + 1) <=? watermark then speculating else producing
    | None => producing
    end.

(** How many blocks the producer can confirm: the cast to 16 bits is inside of
    [std::min]. *)
Definition blocks_to_confirm (s : plugin) (p : account_name) : Z :=
  match pp_mode s, producer_watermarks (pp_signing s) !! p with
  | producing, Some watermark =>
      let head := u32 (block_num (head_of s)) in
      if watermark <? head then Z.min UINT16_MAX (u16 (head - watermark)) else 0
  | _, _ => 0
  end.

Definition header_time (b : block_header_state) : Z := to_time_point (timestamp (sbh_header (header b))).

(** The scheduled transactions, for a block of ours only. *)
Definition schedule_phase (fuel orig : nat) (pending_block_time preprocess_deadline : Z) : M plugin (loop_end * nat) :=
  s ← get_state;
  if bool_decide (pp_mode s = producing) then
    now ← read_clock;
    expire_blacklisted (blacklisted_transactions (pp_queues s)) now preprocess_deadline;;
    let max_ms := max_scheduled_transaction_time_per_block_ms (po_options (pp_policy s)) in
    deadline ← (if 0 <=? max_ms then now ← read_clock; mret (Z.min preprocess_deadline (now + max_ms * 1000)) else mret preprocess_deadline);
    s ← get_state;
    process_scheduled fuel (scheduled_by_delay (pp_chain s)) orig pending_block_time deadline
  else mret (through, orig).

Definition unapplied_phase (block_time preprocess_deadline : Z) (is_exhausted : bool) : M plugin loop_end :=
  s ← get_state;
  if bool_decide (producers_ = []) && bool_decide (persistent_transactions (pp_queues s) = []) then
    modify_plugin (fun s => set_pp_chain s (clear_unapplied (pp_chain s)));; mret (if is_exhausted then no_time else through)
  else process_unapplied (unapplied_transactions (pp_chain s)) block_time preprocess_deadline is_exhausted.

(** The transactions of the block that was started. *)
Definition fill_block (fuel : nat) (block_time preprocess_deadline : Z) : M plugin start_block_result :=
  s ← get_state;
  late ← expire_persisted (persistent_transactions (pp_queues s)) block_time preprocess_deadline;
  s ← get_state;
  let orig := length (pending_incoming_transactions (pp_queues s)) in
  e ← unapplied_phase block_time preprocess_deadline late;
  match e with
  | give_way => mret failed
  | _ =>
      '(e', orig) ← schedule_phase fuel orig block_time preprocess_deadline;
      match e, e' with
      | _, give_way => mret failed
      | through, through =>
          late ← out_of_time preprocess_deadline;
          if late : bool then mret exhausted else set_weight (fun _ => of_int 0);; process_incoming orig preprocess_deadline
      | _, _ => mret exhausted
      end
  end.

Definition start_block (fuel : nat) : M plugin start_block_result :=
  s ← get_state;
  if bool_decide (get_read_mode (pp_chain s) = READ_ONLY) then mret waiting
  else
    now ← read_clock;
    block_time ← calculate_pending_block_time;
    modify_plugin (fun s => set_mode s producing);;
    scheduled_producer ← lift (get_scheduled_producer (head_of s) (set_time_point block_time));
    age ← get_irreversible_block_age;
    modify_plugin (fun s => set_mode s (decide_mode s scheduled_producer age));;
    s ← get_state;
    if bool_decide (pp_mode s = speculating) && (5000000 <? now - head_block_time (pp_chain s)) then mret waiting
    else
      catch_all (
        modify_plugin (fun s => set_pp_chain s (chain_abort_block (pp_chain s)));;
        on_chain (chain_start_block (set_time_point block_time) (blocks_to_confirm s (producer_name scheduled_producer))));;
      s ← get_state;
      match pending_block_state (pp_chain s) with
      | None => mret failed
      | Some pbs =>
          let preprocess_deadline := calculate_block_deadline s block_time in
          (if bool_decide (pp_mode s = producing) && negb (block_signing_key pbs =? block_signing_key_of scheduled_producer)
           then modify_plugin (fun s => set_mode s speculating) else mret tt);;
          fill_block fuel (header_time pbs) preprocess_deadline
      end.

(** ** The production loop *)

(** A full interval before the first slot of one of our producers. *)
Definition wake_up_time (s : plugin) (current_block_time : Z) : option Z :=
  foldl (fun acc p =>
    match calculate_next_block_time s p current_block_time with
    | Some t => Some (match acc with Some a => Z.min a (t - block_interval_us) | None => t - block_interval_us end)
    | None => acc
    end) None producers_.

Definition schedule_delayed_production_loop (current_block_time : Z) : M plugin unit :=
  s ← get_state;
  match wake_up_time s current_block_time with
  | Some t => start_wait t retry_loop
  | None => mret tt
  end.

Definition schedule_production_loop (fuel : nat) : M plugin unit :=
  r ← start_block fuel;
  s ← get_state;
  match r with
  | failed => now ← read_clock; start_wait (now + block_interval_us / 10) retry_loop
  | waiting =>
      disabled ← (if bool_decide (producers_ = []) then mret true else production_disabled_by_policy);
      if disabled : bool then mret tt else t ← calculate_pending_block_time; schedule_delayed_production_loop (set_time_point t)
  | _ =>
      match pp_mode s with
      | producing =>
          pbs ← lift (of_option block_validate_exception (pending_block_state (pp_chain s)));
          let deadline := calculate_block_deadline s (header_time pbs) in
          now ← read_clock;
          if now <? deadline then start_wait deadline produce_now
          else
            let expect_time := header_time pbs - block_interval_us in
            now ← read_clock;
            if expect_time <=? now then now ← read_clock; start_wait now produce_now else start_wait expect_time produce_now
      | speculating =>
          disabled ← (if bool_decide (producers_ = []) then mret true else production_disabled_by_policy);
          if disabled : bool then mret tt
          else
            pbs ← lift (of_option missing_pending_block_state (pending_block_state (pp_chain s)));
            schedule_delayed_production_loop (timestamp (sbh_header (header pbs)))
      end
  end.

(** [fc::make_scoped_exit] of the loop: it runs whatever happened, and what it
    throws is dropped. *)
Definition and_reschedule {A} (fuel : nat) (m : M plugin A) : M plugin A := fun s =>
  let '(s, r) := m s in
  match catch_all (schedule_production_loop fuel) s with
  | (s, Err e) => (s, Err e)
  | (s, Ok _) => (s, r)
  end.

Definition produce_block : M plugin unit :=
  s ← get_state;
  M_ASSERT (bool_decide (pp_mode s = producing)) producer_exception;;
  pbs ← lift (of_option missing_pending_block_state (pending_block_state (pp_chain s)));
  provider ← lift (of_option producer_priv_key_not_found (signature_providers !! block_signing_key pbs));
  on_chain chain_finalize_block;;
  on_chain (chain_sign_block provider);;
  on_chain_signals chain_commit_block;;
  s ← get_state;
  let h := sbh_header (header (head_of s)) in
  let num := u32 (block_num (head_of s)) in
  set_watermark (producer h) num;;
  modify_plugin (fun s => tell s (produced_block (producer h) num (confirmed h))).

Definition maybe_produce_block (fuel : nat) : M plugin bool :=
  and_reschedule fuel (
    r ← try_catch produce_block;
    match r with
    | inl _ => mret true
    | inr e =>
        (if is_guard e then handle_guard_exception else modify_plugin (fun s => set_pp_chain s (chain_abort_block (pp_chain s))));; mret false
    end).

(** The handler of a wait. *)
Definition on_wait (fuel : nat) (w : wait) : M plugin unit :=
  s ← get_state;
  if wa_corelation_id w =? pp_corelation_id s then
    match wa_handler w with
    | retry_loop => schedule_production_loop fuel
    | produce_now => maybe_produce_block fuel;; mret tt
    end
  else mret tt.

(** ** Blocks that arrive *)

Definition enable_production : M plugin unit :=
  s ← get_state;
  next ← lift (timestamp_next (timestamp (sbh_header (header (head_of s)))));
  now ← read_clock;
  if now <=? to_time_point next then
    modify_plugin (fun s => let p := pp_policy s in
      set_policy s (mk_policy true (pause_production p) (po_options p) (irreversible_block_time p)))
  else mret tt.

Definition on_incoming_block (fuel : nat) (b : signed_block) : M plugin unit :=
  let i := header_id (sbh_header (sb_header b)) in
  now ← read_clock;
  M_ASSERT (to_time_point (timestamp (sbh_header (sb_header b))) <? now + 7000000) block_from_the_future;;
  s ← get_state;
  if fetch_block_by_id (pp_chain s) i then mret tt
  else
    lift (create_block_state_future (pp_chain s) b);;
    modify_plugin (fun s => set_pp_chain s (chain_abort_block (pp_chain s)));;
    and_reschedule fuel (
      r ← try_catch (on_chain_signals (chain_push_block b));
      match r with
      | inr e => if is_guard e then handle_guard_exception else modify_plugin (fun s => tell s (rejected_block i))
      | inl _ => enable_production
      end).

(** ** Control *)

Definition pause : M plugin unit :=
  modify_plugin (fun s => let p := pp_policy s in
    set_policy s (mk_policy (production_enabled p) true (po_options p) (irreversible_block_time p))).

(** A block we only speculate on is started anew. *)
Definition restart_speculation (fuel : nat) : M plugin unit :=
  s ← get_state;
  if bool_decide (pp_mode s = speculating) then
    modify_plugin (fun s => set_pp_chain s (chain_abort_block (pp_chain s)));; schedule_production_loop fuel
  else mret tt.

Definition resume (fuel : nat) : M plugin unit :=
  modify_plugin (fun s => let p := pp_policy s in
    set_policy s (mk_policy (production_enabled p) false (po_options p) (irreversible_block_time p)));;
  restart_speculation fuel.

(** The options that are given; an age is in seconds. The CPU leeway, which is
    handed on to the controller, is left out. *)
Definition update_runtime_options (fuel : nat) (max_trx_time max_irr_age produce_offset last_offset max_scheduled : option Z) (ratio : option double) :
    M plugin unit :=
  modify_plugin (fun s => let p := pp_policy s in let o := po_options p in
    set_policy s (mk_policy (production_enabled p) (pause_production p)
      (mk_runtime (default (max_transaction_time_ms o) max_trx_time)
         (match max_irr_age with Some a => a * 1000000 | None => max_irreversible_block_age_us o end)
         (default (produce_time_offset_us o) produce_offset) (default (last_block_time_offset_us o) last_offset)
         (default (max_scheduled_transaction_time_per_block_ms o) max_scheduled) (default (incoming_defer_ratio o) ratio))
      (irreversible_block_time p)));;
  match max_irr_age with Some _ => restart_speculation fuel | None => mret tt end.

(** [plugin_startup], with the time of the last irreversible block if its block
    can be fetched. *)
Definition plugin_startup (fuel : nat) (full_validation : bool) (lib : option Z) : M plugin unit :=
  s ← get_state;
  M_ASSERT (bool_decide (producers_ = []) || bool_decide (get_read_mode (pp_chain s) = SPECULATIVE)) plugin_config_exception;;
  M_ASSERT (bool_decide (producers_ = []) || full_validation) plugin_config_exception;;
  match lib with
  | Some t => on_irreversible_block t
  | None => modify_plugin (fun s => let p := pp_policy s in
      set_policy s (mk_policy (production_enabled p) (pause_production p) (po_options p) INT64_MAX))
  end;;
  schedule_production_loop fuel.

End Plugin.
