(* ===== verification/ProducerPluginProofs.v ===== *)
(** * Slots of the producer plugin, and what its loops leave alone

    The slot the plugin waits for is the first one of the producer that its
    watermark allows; the block it starts is one of the next slots. The loops over
    transactions keep every relation that the single operations keep. *)

From Stdlib Require Import ZArith Lia Bool.
From stdpp Require Import base numbers gmap list relations.
From S2P Require Import Prelude Merkle BlockTime BlockHeader Float64 Transaction Block Controller ProducerPlugin.

Open Scope Z_scope.

(** ** Positions in a schedule *)

Lemma index_of_Some p ps : forall i, index_of p ps = Some i ->
  0 <= i < Z.of_nat (length ps) /\ exists k, ps !! Z.to_nat i = Some k /\ producer_name k = p.
Proof.
  induction ps as [|k ps IH]; intros i E; [done|]. simpl in E. destruct (Z.eqb_spec (producer_name k) p) as [Hk|Hk].
  - injection E as <-. simpl. split; [lia|]. by exists k.
  - destruct (index_of p ps) as [j|]; [|done]. injection E as <-. destruct (IH j eq_refl) as (Hj & k' & Hl & Hp). simpl length. split; [lia|].
    exists k'. split; [|done]. by replace (Z.to_nat (j + 1)) with (S (Z.to_nat j)) by lia.
Qed.

Lemma index_of_None p ps : index_of p ps = None -> p ∉ names ps.
Proof.
  induction ps as [|k ps IH]; intros E; [apply not_elem_of_nil|]. simpl in E. destruct (Z.eqb_spec (producer_name k) p) as [Hk|Hk]; [done|].
  destruct (index_of p ps); [done|]. unfold names in *. rewrite fmap_cons, not_elem_of_cons. split; [congruence|by apply IH].
Qed.

Lemma index_of_elem p ps i : index_of p ps = Some i -> p ∈ names ps.
Proof. intros (_ & k & Hl & <-)%index_of_Some. unfold names. apply list_elem_of_fmap_2. by eapply list_elem_of_lookup_2. Qed.

Lemma index_unique p ps i j k : NoDup (names ps) -> index_of p ps = Some i -> ps !! j = Some k -> producer_name k = p -> j = Z.to_nat i.
Proof.
  intros Hd Hi Hj Hk. apply index_of_Some in Hi as (_ & k' & Hl & Hp). eapply (NoDup_lookup _ j (Z.to_nat i) p); [exact Hd|..];
    unfold names; rewrite list_lookup_fmap; [by rewrite Hj; simpl; rewrite Hk|by rewrite Hl; simpl; rewrite Hp].
Qed.

(** ** The next slot of a producer *)

(** It is the producer's turn in a slot. *)
Definition turn (b : block_header_state) (p : account_name) (slot : Z) : Prop :=
  exists k, get_scheduled_producer b slot = Ok k /\ producer_name k = p.

Lemma turn_index b p i slot : NoDup (names (producers (active_schedule b))) -> index_of p (producers (active_schedule b)) = Some i ->
  turn b p slot <-> slot mod (Z.of_nat (length (producers (active_schedule b))) * 12) / 12 = i.
Proof.
  intros Hd Hi. pose proof (index_of_Some _ _ _ Hi) as (Hr & k & Hl & Hp). unfold turn, get_scheduled_producer, producer_repetitions.
  set (n := Z.of_nat (length _)) in *. set (q := slot mod (n * 12)).
  assert (0 <= q < n * 12) as Hq by (apply Z.mod_pos_bound; lia). assert (0 <= q / 12) as Hq' by (apply Z.div_pos; lia).
  replace (n * 12 =? 0) with false by (symmetry; apply Z.eqb_neq; lia). split.
  - intros (k' & E & Hk'). apply of_option_Ok in E. pose proof (index_unique _ _ _ _ _ Hd Hi E Hk'). lia.
  - intros <-. exists k. by rewrite Hl.
Qed.

Lemma period_index n a r : 0 <= r < n * 12 -> (n * 12 * a + r) mod (n * 12) / 12 = r / 12.
Proof. intros Hr. by rewrite Z.add_comm, Z.mul_comm, Z.mod_add, Z.mod_small by lia. Qed.

(** The first slot from [m] on whose index is [i]. *)
Definition aligned_slot (n m i : Z) : Z :=
  let mi := m mod (n * 12) / 12 in
  if i =? mi then m else m - m mod 12 + (if i <? mi then i - mi + n else i - mi) * 12.

Lemma aligned_slot_first n m i : 0 <= i < n -> 0 <= m ->
  m <= aligned_slot n m i <= m + n * 12 /\ aligned_slot n m i mod (n * 12) / 12 = i /\
  forall slot, m <= slot < aligned_slot n m i -> slot mod (n * 12) / 12 <> i.
Proof.
  intros Hi Hm. set (a := m / (n * 12)). set (r := m mod (n * 12)).
  assert (m = n * 12 * a + r) as Em by (apply Z.div_mod; lia). assert (0 <= r < n * 12) as Hr by (apply Z.mod_pos_bound; lia).
  pose proof (Z.div_mod r 12 ltac:(lia)) as Er. pose proof (Z.mod_pos_bound r 12 ltac:(lia)) as He.
  assert (m mod 12 = r mod 12) as Hm12 by (rewrite Em; replace (n * 12 * a + r) with (r + n * a * 12) by lia; by rewrite Z.mod_add by lia).
  unfold aligned_slot. fold r. rewrite Hm12. destruct (Z.eqb_spec i (r / 12)) as [Hir|Hir]; [split_and!; [lia|lia|by fold r|lia]|].
  assert (forall slot b t, slot = n * 12 * b + t -> 0 <= t < n * 12 -> slot mod (n * 12) / 12 = t / 12) as Hs by (intros ? ? ? ->; apply period_index).
  assert (forall t, (t < 12 * i \/ 12 * i + 12 <= t) -> t / 12 <> i) as Hn by (intros t Ht; Z.div_mod_to_equations; lia).
  destruct (Z.ltb_spec i (r / 12)) as [Hlt|Hge]; (split_and!; [lia|lia|..]).
  - rewrite (Hs _ (a + 1) (i * 12)) by lia. by apply Z.div_mul.
  - intros slot Hb. destruct (decide (slot < n * 12 * (a + 1))).
    + rewrite (Hs slot a (slot - n * 12 * a)) by lia. apply Hn. lia.
    + rewrite (Hs slot (a + 1) (slot - n * 12 * (a + 1))) by lia. apply Hn. lia.
  - rewrite (Hs _ a (i * 12)) by lia. by apply Z.div_mul.
  - intros slot Hb. rewrite (Hs slot a (slot - n * 12 * a)) by lia. apply Hn. lia.
Qed.

Section Slots.
Context {C : Type} `{ProducerChain C}.

(** The number of the block that is being built, or of the head if there is none. *)
Definition current_num (s : plugin C) : Z :=
  block_num (head_block_state (pp_chain s)) + match pending_block_state (pp_chain s) with Some _ => 1 | None => 0 end.

(** A producer may make a block in a later slot if its number, with a block in
    every slot from now on, is above the producer's watermark. *)
Definition allowed (s : plugin C) (p : account_name) (current_block_time slot : Z) : Prop :=
  current_block_time < slot /\
  forall watermark, producer_watermarks (pp_signing s) !! p = Some watermark -> watermark < current_num s + (slot - current_block_time).

(** Numbers and slots are far from their bounds. *)
Record far_from_bounds (s : plugin C) (p : account_name) (current_block_time : Z) : Prop := {
  fb_num : 0 <= block_num (head_block_state (pp_chain s)) /\ block_num (head_block_state (pp_chain s)) + 1 < 2 ^ 32;
  fb_slot : 0 <= current_block_time /\ current_block_time + 1 + 12 * Z.of_nat (length (producers (active_schedule (head_block_state (pp_chain s))))) < 2 ^ 32;
  fb_watermark watermark : producer_watermarks (pp_signing s) !! p = Some watermark -> 0 <= watermark /\
    current_block_time + watermark + 1 + 12 * Z.of_nat (length (producers (active_schedule (head_block_state (pp_chain s))))) < 2 ^ 32
}.

Lemma minimum_offset_value s p t : far_from_bounds s p t ->
  minimum_offset s p = match producer_watermarks (pp_signing s) !! p with Some watermark => Z.max 1 (watermark - current_num s + 1) | None => 1 end.
Proof.
  intros [[Hn Hn'] [H0 Hs] Hw]. unfold minimum_offset, current_num. destruct (producer_watermarks (pp_signing s) !! p) as [w|]; [|done].
  destruct (Hw w eq_refl) as [Hw0 Hw1]. rewrite (u32_small (block_num _)) by (unfold is_u32; lia). set (n := block_num _) in *.
  assert (match pending_block_state (pp_chain s) with Some _ => u32 (n + 1) | None => n end = n + match pending_block_state (pp_chain s) with Some _ => 1 | None => 0 end) as ->.
  { destruct (pending_block_state _); [apply u32_small; unfold is_u32; lia|lia]. }
  set (m := n + _). assert (0 <= m) by (unfold m; destruct (pending_block_state _); lia). destruct (Z.ltb_spec m w); [rewrite u32_small by (unfold is_u32; lia)|]; lia.
Qed.

(** The offset of the code is that of the first slot that is allowed. *)
Lemma minimum_offset_allowed s p t slot : far_from_bounds s p t -> allowed s p t slot <-> t + minimum_offset s p <= slot.
Proof.
  intros Hb. rewrite (minimum_offset_value s p t Hb). unfold allowed. destruct (producer_watermarks (pp_signing s) !! p) as [w|]; (split; [|intros ?; split; [lia|]]).
  - intros [? Hx]. specialize (Hx w eq_refl). lia.
  - intros w' [= <-]. lia.
  - lia.
  - done.
Qed.

Lemma minimum_offset_bound s p t : far_from_bounds s p t -> 0 <= t + minimum_offset s p /\
  t + minimum_offset s p + 12 * Z.of_nat (length (producers (active_schedule (head_block_state (pp_chain s))))) < 2 ^ 32.
Proof.
  intros Hb. rewrite (minimum_offset_value s p t Hb). destruct Hb as [[Hn Hn'] [H0 Hs] Hw]. destruct (producer_watermarks (pp_signing s) !! p) as [w|]; [|lia].
  destruct (Hw w eq_refl). assert (0 <= current_num s) by (unfold current_num; destruct (pending_block_state _); lia). lia.
Qed.

(** C19: The time a producer of this node waits for is exact: there is none if and
    only if the producer is not in the schedule of the head; otherwise it is the
    time of a slot that is the producer's turn and in which, with a block in every
    slot from now on, the block's number is above the producer's watermark, and
    no earlier slot is both. Numbers and slots do not wrap. *)
Theorem next_block_time_earliest (s : plugin C) (p : account_name) (current_block_time : Z)
  (Hd : NoDup (names (producers (active_schedule (head_block_state (pp_chain s))))))
  (Hb : far_from_bounds s p current_block_time) :
  match calculate_next_block_time s p current_block_time with
  | Some t => p ∈ names (producers (active_schedule (head_block_state (pp_chain s)))) /\
      exists slot, t = to_time_point slot /\ allowed s p current_block_time slot /\ turn (head_block_state (pp_chain s)) p slot /\
      forall slot', allowed s p current_block_time slot' -> turn (head_block_state (pp_chain s)) p slot' -> slot <= slot'
  | None => p ∉ names (producers (active_schedule (head_block_state (pp_chain s))))
  end.
Proof.
  pose proof (minimum_offset_bound s p current_block_time Hb) as [H0 Hw]. pose proof (fun slot => minimum_offset_allowed s p current_block_time slot Hb) as Hal.
  unfold calculate_next_block_time. set (b := head_block_state (pp_chain s)) in *. set (ps := producers (active_schedule b)) in *.
  destruct (index_of p ps) as [i|] eqn:Hi; [|by apply index_of_None]. simpl. set (m := current_block_time + minimum_offset s p) in *.
  set (n := Z.of_nat (length ps)) in *. pose proof (index_of_Some _ _ _ Hi) as [Hr _]. fold n in Hr.
  rewrite (u32_small m) by (unfold is_u32; lia). change producer_repetitions with 12.
  pose proof (aligned_slot_first n m i ltac:(lia) H0) as (Hsl & Ht & Hf).
  match goal with |- match ?x with _ => _ end => replace x with (Some (to_time_point (aligned_slot n m i))) end.
  { split; [by eapply index_of_elem|]. exists (aligned_slot n m i). split_and!; [done|apply Hal; lia|by apply (turn_index b p i _ Hd Hi)|].
    intros slot' Hs'%Hal Htu. apply (turn_index b p i _ Hd Hi) in Htu. destruct (Z.le_gt_cases (aligned_slot n m i) slot'); [done|]. by destruct (Hf slot'). }
  unfold aligned_slot in *. set (mi := m mod (n * 12) / 12) in *. assert (0 <= mi < n) as Hmi.
  { unfold mi. pose proof (Z.mod_pos_bound m (n * 12) ltac:(lia)). split; [apply Z.div_pos; lia|apply Z.div_lt_upper_bound; lia]. }
  destruct (Z.eqb_spec i mi) as [|Hne]; [done|]. pose proof (Z.mod_pos_bound m 12 ltac:(lia)). rewrite (u32_small (m - m mod 12)).
  2: { unfold is_u32. pose proof (Z.mod_le m 12 H0 ltac:(lia)). lia. }
  destruct (Z.ltb_spec i mi) as [Hlt|Hge].
  - do 2 f_equal. symmetry. replace (u64 (i - mi)) with (i - mi + 2 ^ 64) by (unfold u64, wrap; rewrite <- (Z.mod_add (i - mi) 1) by lia; rewrite Z.mod_small; lia).
    destruct (Z.ltb_spec i (i - mi + 2 ^ 64)); [|lia]. replace (u64 (i - mi + 2 ^ 64 + n)) with (i - mi + n); [apply u32_small; unfold is_u32; lia|].
    unfold u64, wrap. replace (i - mi + 2 ^ 64 + n) with (i - mi + n + 1 * 2 ^ 64) by lia. rewrite Z.mod_add, Z.mod_small by lia. done.
  - do 2 f_equal. symmetry. rewrite (u64_small (i - mi)) by (unfold is_u64; lia). destruct (Z.ltb_spec i (i - mi)); [lia|]. apply u32_small. unfold is_u32. lia.
Qed.

(** ** The slot of the block that is started *)

(** The years in which slots are far from their bound. *)
Definition last_slot : Z := 2 ^ 32 - 4.

Lemma pending_slot t h : 0 <= h < last_slot -> t < to_time_point last_slot ->
  h < set_time_point (pending_time_at t (to_time_point h)) < 2 ^ 32.
Proof.
  unfold last_slot. intros Hh Ht. rewrite to_time_point_value in * by (unfold is_u32; lia). unfold pending_time_at. change block_interval_us with 500000.
  unfold block_timestamp_epoch in *. set (base := Z.max _ _).
  assert (exists k, base + (500000 - base `rem` 500000) = k * 500000 /\ base < k * 500000 <= base + 500000) as (k & Ek & Hk).
  { exists (base / 500000 + 1). rewrite Z.rem_mod_nonneg by lia. pose proof (Z.div_mod base 500000 ltac:(lia)). pose proof (Z.mod_pos_bound base 500000 ltac:(lia)). lia. }
  rewrite Ek. assert (forall j, k <= j <= k + 1 -> h < set_time_point (j * 500000) < 2 ^ 32) as Hj.
  2: { destruct (_ <? _); [replace (k * 500000 + 500000) with ((k + 1) * 500000) by lia|]; apply Hj; lia. }
  intros j Hj. unfold set_time_point, block_timestamp_epoch, block_interval_ms. replace (j * 500000) with (j * 500 * 1000) by lia.
  rewrite Z.quot_mul by lia. rewrite u64_small by (unfold is_u64; lia). replace (j * 500 - 946684800000) with ((j - 1893369600) * 500) by lia.
  rewrite Z.div_mul by lia. rewrite u32_small by (unfold is_u32; lia). lia.
Qed.

End Slots.

(** ** Relations that code keeps *)

(** A run that was not left by undefined behaviour. *)
Definition defined {A} (r : result A) : Prop := match r with Ok _ => True | Err e => catchable e = true end.

Section Runs.
Context {S : Type} (R : relation S) `{!PreOrder R}.

(** Whatever [m] returns or throws, the state before and after are related. *)
Definition runs {A} (m : M S A) : Prop := forall s s' r, m s = (s', r) -> defined r -> R s s'.

Lemma runs_bind {A B} (m : M S A) (f : A -> M S B) : runs m -> (forall a, runs (f a)) -> runs (m ≫= f).
Proof.
  intros Hm Hf s s' r E Hd. unfold mbind, M_bind in E. destruct (m s) as [s1 [a|e]] eqn:Em.
  - etrans; [by apply (Hm _ _ _ Em)|by eapply Hf].
  - injection E as <- <-. by eapply Hm.
Qed.
Lemma runs_silent {A} (m : M S A) : (forall s, (m s).1 = s) -> runs m.
Proof. intros Hm s s' r E _. specialize (Hm s). rewrite E in Hm. simpl in Hm. by subst. Qed.
Lemma runs_ret {A} (a : A) : runs (mret a).
Proof. by apply runs_silent. Qed.
Lemma runs_lift {A} (r : result A) : runs (lift r).
Proof. by apply runs_silent. Qed.
Lemma runs_lift_bind {A B} (r : result A) (f : A -> M S B) : (forall a, r = Ok a -> runs (f a)) -> runs (lift r ≫= f).
Proof. intros Hf s s' x E Hd. unfold lift, mbind, M_bind in E. destruct r as [a|e]; [by eapply Hf|by injection E as <- _]. Qed.
Lemma runs_throw {A} e : runs (throw (A := A) e).
Proof. by apply runs_silent. Qed.
Lemma runs_get : runs get_state.
Proof. by apply runs_silent. Qed.
Lemma runs_assert b e : runs (M_ASSERT b e).
Proof. apply runs_silent. by destruct b. Qed.
Lemma runs_try {A} (m : M S A) : runs m -> runs (try_catch m).
Proof.
  intros Hm s s' r E Hd. unfold try_catch in E. destruct (m s) as [s1 [a|e]] eqn:Em; [injection E as <- _; by eapply Hm|].
  destruct (catchable e) eqn:Ec; injection E as <- <-; by eapply Hm.
Qed.
Lemma runs_catch_all (m : M S unit) : runs m -> runs (catch_all m).
Proof.
  intros Hm s s' r E Hd. unfold catch_all in E. destruct (m s) as [s1 [a|e]] eqn:Em; [injection E as <- _; by eapply Hm|].
  destruct e; injection E as <- <-; by eapply Hm.
Qed.
Lemma runs_each_in {A} (f : A -> M S unit) l : (forall a, a ∈ l -> runs (f a)) -> runs (each f l).
Proof.
  induction l as [|a l IH]; intros Hf; [apply runs_ret|]. apply runs_bind; [apply Hf; by left|]. intros _. apply IH. intros b Hb. apply Hf. by right.
Qed.
Lemma runs_if {A} (b : bool) (m1 m2 : M S A) : runs m1 -> runs m2 -> runs (if b then m1 else m2).
Proof. by destruct b. Qed.

End Runs.

Create HintDb runs.
#[export] Hint Extern 1 (PreOrder _) => typeclasses eauto : runs.
#[export] Hint Resolve runs_ret runs_lift runs_throw runs_get runs_assert runs_try runs_catch_all runs_if : runs.

(** Opens a sequence; what is left are the operations. *)
Ltac runs_step :=
  repeat match goal with
  | |- runs _ (_ ≫= _) => apply runs_bind
  | |- forall _, runs _ _ => intros ?
  | |- runs _ (let _ := _ in _) => cbv zeta
  | |- runs _ (match ?x with _ => _ end) => destruct x
  end; eauto with runs.

(** ** What the loops over transactions may change *)

Section Loops.
Context {C : Type} `{ProducerChain C} `{Crypto} `{TransactionData}.
Context (producers_ : list account_name) (now : nat -> Z) (signed_id : packed_transaction -> digest).

(** The block under construction is the same for the plugin. *)
Definition same_block (c c' : C) : Prop :=
  head_block_state c' = head_block_state c /\ pending_block_state c' = pending_block_state c.

(** What the operations for one transaction do to the block. *)
Class TransactionLaws : Prop := {
  clear_same c : same_block c (clear_unapplied c);
  erase_same i c : same_block c (erase_unapplied i c);
  push_same trx d c : same_block c (chain_push_transaction trx d c).1;
  push_scheduled_same i d c : same_block c (chain_push_scheduled i d c).1
}.

(** The steps of the loops, one by one. *)
Class Tolerant (R : relation (plugin C)) : Prop := {
  tol_preorder :: PreOrder R;
  tol_clock : runs R (read_clock now);
  tol_queues s q : pending_incoming_transactions q = pending_incoming_transactions (pp_queues s) -> R s (set_queues s q);
  tol_chain s c : same_block (pp_chain s) c -> R s (set_pp_chain s c);
  tol_quit s : R s (set_quit s);
  tol_pop w : runs R (pop_incoming now w)
}.

Context (R : relation (plugin C)) `{!Tolerant R} `{!TransactionLaws}.

Lemma runs_modify f : (forall s, R s (f s)) -> runs R (modify_plugin f).
Proof. intros Hf s s' r E _. injection E as <- _. apply Hf. Qed.

Lemma runs_on_chain {A} (m : M C A) : (forall c, same_block c (m c).1) -> runs R (on_chain m).
Proof. intros Hm s s' r E _. unfold on_chain in E. specialize (Hm (pp_chain s)). destruct (m (pp_chain s)) as [c x]. injection E as <- _. by apply tol_chain. Qed.

Lemma runs_chain f : (forall c, same_block c (f c)) -> runs R (modify_plugin (fun s => set_pp_chain s (f (pp_chain s)))).
Proof. intros Hf. apply runs_modify. intros s. apply tol_chain, Hf. Qed.

Lemma runs_clock : runs R (read_clock now).
Proof. apply tol_clock. Qed.
Lemma runs_pop w : runs R (pop_incoming now w).
Proof. apply tol_pop. Qed.
Lemma runs_guard : runs R handle_guard_exception.
Proof. apply runs_modify. intros s. apply tol_quit. Qed.

Hint Resolve runs_clock runs_pop runs_guard runs_on_chain runs_chain clear_same erase_same push_same push_scheduled_same : runs.

Lemma runs_out_of_time d : runs R (out_of_time now d).
Proof. unfold out_of_time. runs_step. Qed.
Lemma runs_deadline d : runs R (transaction_deadline now d).
Proof. unfold transaction_deadline. runs_step. Qed.
Lemma runs_weight f : runs R (set_weight f).
Proof. unfold set_weight. apply runs_modify; intros ?; by apply tol_queues. Qed.
Lemma runs_blacklist i e : runs R (blacklist i e).
Proof. unfold blacklist. apply runs_modify; intros ?; by apply tol_queues. Qed.
Hint Resolve runs_out_of_time runs_deadline runs_weight runs_blacklist : runs.

Lemma runs_expire_persisted l t d : runs R (expire_persisted now l t d).
Proof.
  induction l as [|[i e] l IH]; simpl; runs_step. apply runs_modify; intros ?; by apply tol_queues.
Qed.

Lemma runs_expire_blacklisted l t d : runs R (expire_blacklisted now l t d).
Proof.
  induction l as [|[i e] l IH]; simpl; runs_step. apply runs_modify; intros ?; by apply tol_queues.
Qed.

Lemma runs_reapply trx d : runs R (reapply_transaction now signed_id trx d).
Proof. unfold reapply_transaction. runs_step; apply runs_try; runs_step. Qed.

Lemma runs_one_scheduled i d : runs R (run_one_scheduled now i d).
Proof. unfold run_one_scheduled. runs_step; apply runs_try; runs_step. Qed.
Hint Resolve runs_expire_persisted runs_expire_blacklisted runs_reapply runs_one_scheduled : runs.

Lemma runs_unapplied l t d : forall ex, runs R (process_unapplied producers_ now signed_id l t d ex).
Proof. induction l as [|[k trx] l IH]; intros ex; simpl; runs_step. Qed.

Lemma runs_by_weight orig d : runs R (incoming_by_weight now orig d).
Proof. induction orig as [|n IH]; simpl; runs_step. Qed.
Hint Resolve runs_unapplied runs_by_weight : runs.

Lemma runs_scheduled fuel : forall rows orig t d, runs R (process_scheduled now fuel rows orig t d).
Proof. induction fuel as [|fuel IH]; intros rows orig t d; simpl; runs_step. Qed.

Lemma runs_incoming orig d : runs R (process_incoming now orig d).
Proof. induction orig as [|n IH]; simpl; runs_step. Qed.
Hint Resolve runs_scheduled runs_incoming : runs.

Lemma runs_schedule_phase fuel orig t d : runs R (schedule_phase now fuel orig t d).
Proof. unfold schedule_phase. runs_step. Qed.

Lemma runs_unapplied_phase t d ex : runs R (unapplied_phase producers_ now signed_id t d ex).
Proof. unfold unapplied_phase. runs_step. Qed.
Hint Resolve runs_schedule_phase runs_unapplied_phase : runs.

Lemma runs_fill_block fuel t d : runs R (fill_block producers_ now signed_id fuel t d).
Proof. unfold fill_block. runs_step. Qed.

End Loops.
