(* ===== verification/ProducerSafety.v ===== *)
(** * A producer confirms every block number once

    What the plugin needs of the controller ([BlockLaws]), the watermarks as they
    follow from the events, and the invariant of the production loop: a block that
    is built to be produced is clear of the watermark of its producer. *)

From Stdlib Require Import ZArith Lia Bool.
From stdpp Require Import base numbers gmap list relations.
From S2P Require Import Prelude Merkle BlockTime BlockHeader Float64 Transaction Block Controller ProducerPlugin ProducerPluginProofs.

Open Scope Z_scope.

(** ** Events *)

(** The watermark of a producer, from the events. *)
Definition mark_step (p : account_name) (acc : option Z) (e : event) : option Z :=
  match e with
  | watermark_set q n | produced_block q n _ => if q =? p then Some n else acc
  | _ => acc
  end.
Definition mark (p : account_name) (es : list event) : option Z := foldl (mark_step p) None es.

(** A block with [confirmed] earlier ones starts after the watermark; without a
    watermark no other block is confirmed. *)
Definition clear_of (w : option Z) (num confirmed : Z) : Prop :=
  0 <= confirmed /\ match w with Some w => w < num - confirmed | None => confirmed = 0 end.

(** Every produced block was clear of the watermark at its time. *)
Definition history (es : list event) : Prop :=
  forall l1 p n c l2, es = l1 ++ produced_block p n c :: l2 -> clear_of (mark p l1) n c.

Lemma mark_app p l1 l2 : mark p (l1 ++ l2) = foldl (mark_step p) (mark p l1) l2.
Proof. apply foldl_app. Qed.

Definition quiet (e : event) : Prop := match e with watermark_set _ _ | produced_block _ _ _ => False | _ => True end.

Lemma mark_quiet p l1 l2 : Forall quiet l2 -> mark p (l1 ++ l2) = mark p l1.
Proof.
  intros Hq. rewrite mark_app. generalize (mark p l1). induction Hq as [|e l He _ IH]; intros o; [done|]. simpl. rewrite IH. by destruct e.
Qed.

Lemma split_snoc {A} (l : list A) e l1 x l2 : l ++ [e] = l1 ++ x :: l2 ->
  (l2 = [] /\ l = l1 /\ e = x) \/ exists l2', l2 = l2' ++ [e] /\ l = l1 ++ x :: l2'.
Proof.
  induction l2 as [|y l2 _] using rev_ind; intros E; [left|right].
  - apply app_inj_tail in E as [-> ->]. done.
  - exists l2. rewrite app_comm_cons, app_assoc in E. apply app_inj_tail in E as [-> ->]. done.
Qed.

Lemma history_snoc es e : history es -> (forall p n c, e = produced_block p n c -> clear_of (mark p es) n c) -> history (es ++ [e]).
Proof.
  intros Hh He l1 p n c l2 E. apply split_snoc in E as [(-> & -> & ->)|(l2' & -> & ->)]; [by apply He|by eapply Hh].
Qed.

Lemma history_quiet es l : Forall quiet l -> history es -> history (es ++ l).
Proof.
  intros Hq. induction l as [|e l IH] using rev_ind; intros Hh; [by rewrite app_nil_r|]. apply Forall_app in Hq as [Hq He].
  rewrite app_assoc. apply history_snoc; [by apply IH|]. intros p n c ->. by inversion He.
Qed.

(** Between two blocks of a producer the watermark does not fall behind the first
    one, unless it is set below it. *)
Lemma mark_since p n c l1 l2 : history (l1 ++ produced_block p n c :: l2) -> (forall m, watermark_set p m ∈ l2 -> n <= m) ->
  exists w, mark p (l1 ++ produced_block p n c :: l2) = Some w /\ n <= w.
Proof.
  induction l2 as [|e l2 IH] using rev_ind; intros Hh Hm.
  - exists n. rewrite mark_app. simpl. by rewrite Z.eqb_refl.
  - rewrite app_comm_cons, app_assoc in Hh |- *. destruct IH as (w & Hw & Hn).
    { intros a q m d b E. eapply Hh. rewrite E, <- app_assoc. done. }
    { intros m Hin. apply Hm, elem_of_app. by left. }
    rewrite mark_app, Hw. simpl. destruct e as [| | |q m|q m d|]; simpl; try by exists w.
    + destruct (Z.eqb_spec q p) as [->|]; [|by exists w]. exists m. split; [done|]. apply Hm, elem_of_app. right. by apply list_elem_of_singleton.
    + destruct (Z.eqb_spec q p) as [->|]; [|by exists w]. exists m. split; [done|].
      destruct (Hh (l1 ++ produced_block p n c :: l2) p m d [] eq_refl) as [Hd Hc]. rewrite Hw in Hc. lia.
Qed.

Lemma confirmed_once p n1 c1 n2 c2 l1 l2 l3 : history (l1 ++ produced_block p n1 c1 :: l2 ++ produced_block p n2 c2 :: l3) ->
  (forall m, watermark_set p m ∈ l2 -> n1 <= m) -> n1 < n2 - c2.
Proof.
  intros Hh Hm. destruct (Hh (l1 ++ produced_block p n1 c1 :: l2) p n2 c2 l3) as [Hc Hw]; [by rewrite <- app_assoc|].
  destruct (mark_since p n1 c1 l1 l2) as (w & Ew & Hn); [|done|rewrite Ew in Hw; lia].
  intros a q m d b E. eapply (Hh a q m d (b ++ produced_block p n2 c2 :: l3)).
  transitivity ((l1 ++ produced_block p n1 c1 :: l2) ++ produced_block p n2 c2 :: l3); [by rewrite <- app_assoc|]. rewrite E. by rewrite <- app_assoc.
Qed.

(** ** The controller's part *)

(** What of a block the watermarks depend on. *)
Definition summary (b : block_header_state) : Z * account_name * Z * producer_schedule_type * producer_schedule_type :=
  (block_num b, producer (sbh_header (header b)), confirmed (sbh_header (header b)), active_schedule b, pending_schedule b).

(** The producer of a block is in its schedule, unless the block has just brought
    another one; then none is pending. *)
Definition settled (b : block_header_state) : Prop :=
  producer (sbh_header (header b)) ∈ names (producers (active_schedule b)) \/ producers (pending_schedule b) = [].

Class BlockLaws (C : Type) `{ProducerChain C} : Prop := {
  abort_head c : head_block_state (chain_abort_block c) = head_block_state c;
  abort_pending c : pending_block_state (chain_abort_block c) = None;
  start_head w n c : head_block_state (chain_start_block w n c).1 = head_block_state c;
  start_Ok w n c c' : pending_block_state c = None -> w <> 0 -> chain_start_block w n c = (c', Ok tt) ->
    exists b k, pending_block_state c' = Some b /\ get_scheduled_producer (head_block_state c) w = Ok k /\ settled b /\
      block_num b = u32 (block_num (head_block_state c) + 1) /\ producer (sbh_header (header b)) = producer_name k /\
      confirmed (sbh_header (header b)) = n;
  start_Err w n c c' e : pending_block_state c = None -> chain_start_block w n c = (c', Err e) -> pending_block_state c' = None;
  finalize_head c : head_block_state (chain_finalize_block c).1 = head_block_state c;
  finalize_summary c b' : pending_block_state (chain_finalize_block c).1 = Some b' ->
    exists b, pending_block_state c = Some b /\ summary b' = summary b;
  sign_head f c : head_block_state (chain_sign_block f c).1 = head_block_state c;
  sign_summary f c b' : pending_block_state (chain_sign_block f c).1 = Some b' ->
    exists b, pending_block_state c = Some b /\ summary b' = summary b;
  commit_Ok c c' l : chain_commit_block c = (c', l, Ok tt) ->
    exists b, pending_block_state c = Some b /\ pending_block_state c' = None /\ summary (head_block_state c') = summary b /\
      forall b', accepted_block b' ∈ l -> summary b' = summary b;
  commit_Err c c' l e : chain_commit_block c = (c', l, Err e) -> (forall b, accepted_block b ∉ l) /\
    forall b', pending_block_state c' = Some b' -> exists b, pending_block_state c = Some b /\ summary b' = summary b;
  push_block_pending b c : pending_block_state c = None -> pending_block_state (chain_push_block b c).1.1 = None
}.

Section Safety.
Context {C : Type} `{ProducerChain C} `{Crypto} `{TransactionData} `{!TransactionLaws} `{!BlockLaws C}.
Context (producers_ : list account_name) (signature_providers : gmap Z (digest -> signature_type)) (start_time : Z).
Context (now : nat -> Z) (signed_id : packed_transaction -> digest).
(** The clock is in the years of the slots. *)
Context (Hnow : forall n, now n < to_time_point last_slot).

Notation plugin := (plugin C).
Notation marks s := (producer_watermarks (pp_signing s)).
Notation pending_of s := (pending_block_state (pp_chain s)).

(** ** What leaves the block and the watermarks alone *)

Record steady (s s' : plugin) : Prop := {
  st_marks : marks s' = marks s;
  st_mode : pp_mode s' = pp_mode s;
  st_block : same_block (pp_chain s) (pp_chain s');
  st_events : exists l, pp_events s' = pp_events s ++ l /\ Forall quiet l
}.

#[local] Instance steady_preorder : PreOrder steady.
Proof.
  split.
  - intros s. constructor; [done..|]. exists []. by rewrite app_nil_r.
  - intros x y z [M1 O1 [B1 P1] (l1 & E1 & Q1)] [M2 O2 [B2 P2] (l2 & E2 & Q2)]. constructor; [congruence..|split; congruence|].
    exists (l1 ++ l2). rewrite E2, E1, app_assoc. split; [done|by apply Forall_app].
Qed.

(** Members that are not part of the relation. *)
Lemma steady_same s s' : marks s' = marks s -> pp_mode s' = pp_mode s -> pp_chain s' = pp_chain s -> pp_events s' = pp_events s -> steady s s'.
Proof. intros M1 O1 C1 E1. constructor; [done|done|by rewrite C1|]. exists []. by rewrite app_nil_r. Qed.

Lemma steady_chain s c : same_block (pp_chain s) c -> steady s (set_pp_chain s c).
Proof. intros Hc. constructor; [done..|]. exists []. by rewrite app_nil_r. Qed.

Lemma steady_tell s e : quiet e -> steady s (tell s e).
Proof. intros He. constructor; [done..|]. exists [e]. split; [done|by repeat constructor]. Qed.

Ltac by_steady := apply runs_modify; intros ?; first [by apply steady_same | by apply steady_tell].

Lemma steady_clock : runs steady (read_clock now).
Proof. intros s s' r E _. injection E as <- _. by apply steady_same. Qed.
Lemma steady_push m d : runs steady (on_chain (chain_push_transaction m d)).
Proof. intros s s' r E _. unfold on_chain in E. pose proof (push_same m d (pp_chain s)) as Hc. destruct (chain_push_transaction m d (pp_chain s)) as [c x]. injection E as <- _. by apply steady_chain. Qed.
Lemma steady_queue i : runs steady (queue_incoming i).
Proof. by_steady. Qed.
Lemma steady_response n e : runs steady (send_response n e).
Proof. by_steady. Qed.
Lemma steady_persist i e : runs steady (persist i e).
Proof. by_steady. Qed.
Lemma steady_guard : runs steady handle_guard_exception.
Proof. by_steady. Qed.
Hint Resolve steady_clock steady_push steady_queue steady_response steady_persist steady_guard : runs.

Lemma steady_incoming i : runs steady (on_incoming_transaction_async now i).
Proof.
  unfold on_incoming_transaction_async, transaction_deadline, try_incoming. runs_step; apply runs_try; runs_step.
Qed.
Hint Resolve steady_incoming : runs.

#[local] Instance steady_tolerant : Tolerant now steady.
Proof.
  constructor; [apply _|exact steady_clock|by intros; apply steady_same|exact steady_chain|by intros; apply steady_same|].
  intros w s s' r E Hd. unfold pop_incoming in E. rewrite (bind_run _ _ s s s) in E by done. cbv zeta in E.
  destruct (pending_incoming_transactions _) as [|i q]; [by injection E as <- _|]. erewrite bind_run in E by reflexivity.
  etrans; [|by eapply steady_incoming]. by apply steady_same.
Qed.

Lemma steady_fill fuel t d : runs steady (fill_block producers_ now signed_id fuel t d).
Proof. apply runs_fill_block; apply _. Qed.

(** ** The invariant *)

(** The events tell the watermarks, and they are numbers of blocks. *)
Record recorded (s : plugin) : Prop := {
  re_marks p : marks s !! p = mark p (pp_events s);
  re_history : history (pp_events s);
  re_range p w : marks s !! p = Some w -> 0 <= w
}.

(** A block that may be produced by its producer. *)
Definition producible (m : gmap Z Z) (b : block_header_state) : Prop :=
  is_u32 (block_num b) /\ settled b /\
  clear_of (m !! producer (sbh_header (header b))) (block_num b) (confirmed (sbh_header (header b))).

Definition ready (s : plugin) : Prop := pp_mode s = producing -> forall b, pending_of s = Some b -> producible (marks s) b.

Lemma recorded_steady s s' : steady s s' -> recorded s -> recorded s'.
Proof.
  intros [Hm _ _ (l & El & Hq)] [Rm Rh Rr]. constructor.
  - intros p. by rewrite Hm, El, mark_quiet, Rm.
  - rewrite El. by apply history_quiet.
  - by rewrite Hm.
Qed.

Lemma ready_steady s s' : steady s s' -> ready s -> ready s'.
Proof. intros [Hm Ho [_ Hp] _] Hr Hmode b Hb. rewrite Hm. apply Hr; congruence. Qed.

Lemma ready_none s : pending_of s = None -> ready s.
Proof. intros Hn _ b Hb. congruence. Qed.

(** The years in which slots do not wrap. *)
Definition era (c : C) : Prop := 0 <= timestamp (sbh_header (header (head_block_state c))) < last_slot.

Lemma scheduled_undefined b t e : get_scheduled_producer b t = Err e -> e = undefined_behavior.
Proof. unfold get_scheduled_producer. case_match; intros E; [by injection E|]. by apply of_option_Err in E as [_ ->]. Qed.

(** A block of ours is clear of the watermark. *)
Lemma producing_clear s k age (b : block_header_state) :
  decide_mode producers_ signature_providers s k age = producing -> (forall p w, marks s !! p = Some w -> 0 <= w) ->
  pp_mode s = producing -> block_num b = u32 (u32 (block_num (head_block_state (pp_chain s))) + 1) ->
  clear_of (marks s !! producer_name k) (block_num b) (blocks_to_confirm s (producer_name k)).
Proof.
  intros Hd Hr Hm Hb. unfold decide_mode in Hd. do 5 (case_match; [done|]). unfold blocks_to_confirm. rewrite Hm, Hb.
  set (h := u32 (block_num _)) in *. assert (0 <= h < 2 ^ 32) as Hh by (unfold h, u32, wrap; apply Z.mod_pos_bound; lia).
  destruct (marks s !! producer_name k) as [w|] eqn:Hw; [|done]. specialize (Hr _ _ Hw).
  destruct (Z.leb_spec (u32 (h + 1)) w) as [|Hlt]; [done|].
  assert (u32 (h + 1) = h + 1) as E1.
  { destruct (decide (h + 1 < 2 ^ 32)); [apply u32_small; unfold is_u32; lia|]. assert (h + 1 = 2 ^ 32) as E by lia. rewrite E in Hlt. change (u32 (2 ^ 32)) with 0 in Hlt. lia. }
  rewrite E1 in *. destruct (Z.ltb_spec w h) as [Hwh|Hwh]; [|split; lia].
  assert (0 <= u16 (h - w) <= h - w) as Hu by (unfold u16, wrap; split; [apply Z.mod_pos_bound|apply Z.mod_le]; lia).
  unfold UINT16_MAX. split; lia.
Qed.

Lemma u32_succ x : u32 (u32 x + 1) = u32 (x + 1).
Proof. unfold u32, wrap. by rewrite Zplus_mod_idemp_l. Qed.

Notation head_of s := (head_block_state (pp_chain s)).

(** The outcome of a part of the loop. *)
Definition kept (s s' : plugin) : Prop := recorded s' /\ ready s' /\ head_of s' = head_of s.

Lemma kept_steady s s1 s' : kept s s1 -> steady s1 s' -> kept s s'.
Proof.
  intros (K1 & K2 & K3) Hs. split_and!; [by eapply recorded_steady|by eapply ready_steady|]. rewrite <- K3. apply (st_block _ _ Hs).
Qed.

(** Aborting and starting a block in a mode that was decided. *)
Definition begin_block (w n : Z) : M plugin unit :=
  catch_all (modify_plugin (fun s => set_pp_chain s (chain_abort_block (pp_chain s)));; on_chain (chain_start_block w n)).

Lemma begin_block_kept w n s s1 (r : result unit) k : begin_block w n s = (s1, r) -> recorded s -> w <> 0 ->
  get_scheduled_producer (head_of s) w = Ok k ->
  (pp_mode s = producing -> forall b, block_num b = u32 (u32 (block_num (head_of s)) + 1) -> clear_of (marks s !! producer_name k) (block_num b) n) ->
  kept s s1.
Proof.
  intros E Hrec Hw Hk Hc. unfold begin_block, catch_all in E.
  rewrite (bind_run _ _ s (set_pp_chain s (chain_abort_block (pp_chain s))) tt) in E by done. unfold on_chain in E. simpl in E.
  set (c := chain_abort_block (pp_chain s)) in *. pose proof (start_head w n c) as Hh. pose proof (abort_pending (pp_chain s)) as Hp. fold c in Hp.
  assert (head_block_state c = head_of s) as Hc0 by apply abort_head. destruct (chain_start_block w n c) as [c' rs] eqn:Es. simpl in Hh.
  assert (s1 = set_pp_chain (set_pp_chain s c) c') as -> by (destruct rs as [|[]]; by injection E as <- _).
  split_and!; [destruct Hrec; by constructor| |simpl; by rewrite Hh]. destruct rs as [[]|e]; [|apply ready_none; by apply (start_Err w n c c' e)].
  destruct (start_Ok w n c c' Hp Hw Es) as (b & k' & Hb & Hk' & Hse & Hn & Hpr & Hcf). rewrite Hc0 in *.
  intros Hm b' Hb'. simpl in Hb', Hm. assert (b' = b) as -> by congruence. assert (k' = k) as -> by congruence.
  split_and!; [rewrite Hn; apply u32_is_u32|done|]. simpl. rewrite Hpr, Hcf. apply Hc; [done|]. by rewrite Hn, u32_succ.
Qed.

Lemma age_run (s : plugin) : exists age, get_irreversible_block_age now s = ((read_clock now s).1, Ok age).
Proof. eexists. unfold get_irreversible_block_age, mbind, M_bind, read_clock, get_state, mret, M_ret. cbv zeta beta iota. reflexivity. Qed.

Lemma start_block_kept fuel s s' r : start_block producers_ signature_providers now signed_id fuel s = (s', r) -> defined r ->
  recorded s -> ready s -> era (pp_chain s) -> kept s s'.
Proof.
  intros E Hd Hrec Hrdy Hera. unfold start_block in E. rewrite (bind_run _ _ s s s) in E by done.
  destruct (bool_decide _); [injection E as <- _; done|]. erewrite bind_run in E by reflexivity. erewrite bind_run in E by reflexivity. simpl in E.
  erewrite bind_run in E by reflexivity. simpl in E.
  pose proof (pending_slot (now (S (pp_ticks s))) _ Hera (Hnow _)) as Hslot. fold (head_block_time (pp_chain s)) in Hslot.
  set (w := set_time_point _) in *.
  destruct (get_scheduled_producer (head_of s) w) as [k|e] eqn:Hk.
  2: { injection E as <- <-. apply scheduled_undefined in Hk as ->. done. }
  match type of E with (_ ≫= _) ?x = _ => set (s1 := x) in E end.
  rewrite (bind_run _ _ s1 s1 k) in E by done. destruct (age_run s1) as (age & Ea). rewrite (bind_run _ _ _ _ _ Ea) in E.
  set (s2 := (read_clock now s1).1) in *. set (s3 := set_mode s2 (decide_mode producers_ signature_providers s2 k age)).
  rewrite (bind_run _ _ s2 s3 tt) in E by done. rewrite (bind_run _ _ s3 s3 s3) in E by done.
  assert (recorded s3) as Hrec3 by (destruct Hrec; by constructor).
  destruct (bool_decide (pp_mode s3 = speculating) && _) eqn:Hwait.
  { injection E as <- _. apply andb_true_iff in Hwait as [Hm _]. apply bool_decide_eq_true in Hm. split_and!; [done| |done]. intros Hp. congruence. }
  clear Hwait. fold (begin_block w (blocks_to_confirm s3 (producer_name k))) in E.
  destruct (begin_block w (blocks_to_confirm s3 (producer_name k)) s3) as [s4 r4] eqn:Eb.
  assert (kept s3 s4) as Hkept.
  { eapply begin_block_kept; [exact Eb|done|unfold era in Hera; lia|exact Hk|]. intros Hm b Hb. eapply producing_clear; [|apply Hrec3|done|exact Hb]. exact Hm. }
  destruct r4 as [[]|e4]; [rewrite (bind_run _ _ _ _ _ Eb) in E|unfold mbind, M_bind in E; rewrite Eb in E; by injection E as <- _].
  rewrite (bind_run _ _ s4 s4 s4) in E by done. destruct (pending_of s4) as [pbs|] eqn:Hp4; [|by injection E as <- _].
  destruct (_ && _) in E.
  - rewrite (bind_run _ _ s4 (set_mode s4 speculating) tt) in E by done.
    pose proof (steady_fill _ _ _ _ _ _ E Hd) as Hf. eapply kept_steady; [|exact Hf]. destruct Hkept as (K1 & K2 & K3). split_and!; [destruct K1; by constructor|intros Hp; done|done].
  - rewrite (bind_run _ _ s4 s4 tt) in E by done.
    pose proof (steady_fill _ _ _ _ _ _ E Hd) as Hf. by eapply kept_steady.
Qed.

Lemma steady_wait t h : runs steady (start_wait t h).
Proof. by_steady. Qed.
Hint Resolve steady_wait : runs.

(** A first part that keeps the invariant and a second one that is steady. *)
Lemma kept_bind {A B} (m : M plugin A) (f : A -> M plugin B) s s' r : (m ≫= f) s = (s', r) -> defined r ->
  (forall s1 r1, m s = (s1, r1) -> defined r1 -> kept s s1) -> (forall a, runs steady (f a)) -> kept s s'.
Proof.
  intros E Hd Hm Hf. unfold mbind, M_bind in E. destruct (m s) as [s1 [a|e]] eqn:Em.
  - eapply kept_steady; [by apply (Hm s1 (Ok a))|by eapply Hf].
  - injection E as <- <-. by eapply Hm.
Qed.

Lemma steady_disabled : runs steady (production_disabled_by_policy now).
Proof. unfold production_disabled_by_policy, get_irreversible_block_age. runs_step. Qed.
Lemma steady_pending_time : runs steady (calculate_pending_block_time now).
Proof. unfold calculate_pending_block_time. runs_step. Qed.
Lemma steady_delayed t : runs steady (schedule_delayed_production_loop producers_ t).
Proof. unfold schedule_delayed_production_loop. runs_step. Qed.
Hint Resolve steady_disabled steady_pending_time steady_delayed : runs.

Notation loop := (schedule_production_loop producers_ signature_providers now signed_id).

Lemma loop_kept fuel s s' r : loop fuel s = (s', r) -> defined r -> recorded s -> ready s -> era (pp_chain s) -> kept s s'.
Proof.
  intros E Hd Hrec Hrdy Hera. unfold schedule_production_loop in E. eapply kept_bind; [exact E|done|by intros; eapply start_block_kept|].
  intros a. cbv beta. runs_step.
Qed.

(** The loop does not move the head. *)
Definition same_head (s s' : plugin) : Prop := head_of s' = head_of s.

#[local] Instance same_head_preorder : PreOrder same_head.
Proof. split; [done|]. intros x y z Hxy Hyz. unfold same_head in *. congruence. Qed.

Lemma same_head_steady {A} (m : M plugin A) : runs steady m -> runs same_head m.
Proof. intros Hm s s' r E Hd. apply (st_block _ _ (Hm s s' r E Hd)). Qed.

Lemma same_head_modify f : (forall s, head_of (f s) = head_of s) -> runs same_head (modify_plugin f).
Proof. intros Hf s s' r E _. injection E as <- _. apply Hf. Qed.

Lemma same_head_on_chain {A} (m : M C A) : (forall c, head_block_state (m c).1 = head_block_state c) -> runs same_head (on_chain m).
Proof. intros Hm s s' r E _. unfold on_chain in E. specialize (Hm (pp_chain s)). destruct (m (pp_chain s)). by injection E as <- _. Qed.

Lemma same_head_abort : runs same_head (modify_plugin (fun s => set_pp_chain s (chain_abort_block (pp_chain s)))).
Proof. apply same_head_modify. intros s. apply abort_head. Qed.

Hint Extern 4 (runs same_head _) => apply same_head_steady; solve [eauto with runs] : runs.
Hint Resolve same_head_modify same_head_on_chain same_head_abort steady_fill start_head abort_head finalize_head sign_head : runs.

Lemma same_head_loop fuel : runs same_head (loop fuel).
Proof.
  unfold schedule_production_loop, start_block, get_irreversible_block_age. runs_step; try apply runs_catch_all; runs_step.
Qed.

(** Whatever happens before, the loop goes on from there; the head is the one at
    the end. *)
Lemma reschedule_kept {A} fuel (m : M plugin A) s s' r : and_reschedule producers_ signature_providers now signed_id fuel m s = (s', r) -> defined r ->
  era (pp_chain s') -> (forall s1 r1, m s = (s1, r1) -> defined r1 -> recorded s1 /\ ready s1) -> recorded s' /\ ready s'.
Proof.
  intros E Hd Hera Hm. unfold and_reschedule in E. destruct (m s) as [s1 r1] eqn:Em. unfold catch_all in E.
  destruct (loop fuel s1) as [s2 r2] eqn:El.
  assert (s' = s2 /\ defined r1 /\ defined r2) as (-> & Hd1 & Hd2).
  { destruct r2 as [a|e]; [by injection E as <- <-|]. destruct e; injection E as <- <-; done. }
  pose proof (same_head_loop fuel s1 s2 r2 El Hd2) as Hh. unfold same_head in Hh.
  destruct (Hm s1 r1 eq_refl Hd1) as [Hrec Hrdy]. edestruct (loop_kept fuel s1 s2 r2) as (K1 & K2 & _); [done..| |done]. unfold era in *. by rewrite <- Hh.
Qed.

(** ** Signals *)

(** What the handlers may change, but for the watermarks of the producers in [Q]. *)
Record heard (Q : account_name -> Prop) (s s' : plugin) : Prop := {
  he_recorded : recorded s -> recorded s';
  he_chain : pp_chain s' = pp_chain s;
  he_mode : pp_mode s' = pp_mode s;
  he_marks p : Q p -> marks s' !! p = marks s !! p
}.

#[local] Instance heard_preorder Q : PreOrder (heard Q).
Proof.
  split; [by intros s; constructor|]. intros x y z [R1 C1 M1 K1] [R2 C2 M2 K2]. constructor; [auto|congruence|congruence|].
  intros p Hp. by rewrite K2, K1.
Qed.

Lemma heard_modify Q f : (forall s, marks (f s) = marks s /\ pp_mode (f s) = pp_mode s /\ pp_chain (f s) = pp_chain s /\
    exists l, pp_events (f s) = pp_events s ++ l /\ Forall quiet l) -> runs (heard Q) (modify_plugin f).
Proof.
  intros Hf s s' r E _. injection E as <- _. destruct (Hf s) as (Hm & Ho & Hc & l & El & Hq). constructor; [|done|done|by intros p _; simpl; rewrite Hm].
  apply recorded_steady. constructor; [done|done|simpl; by rewrite Hc|by exists l].
Qed.

Lemma heard_confirm Q b p : runs (heard Q) (confirm_accepted signature_providers b p).
Proof.
  unfold confirm_accepted. runs_step. apply heard_modify. intros s. split_and!; [done..|]. eexists. split; [done|by repeat constructor].
Qed.

(** A watermark and its event. *)
Lemma heard_watermark (Q : account_name -> Prop) p n : ~ Q p -> 0 <= n ->
  runs (heard Q) (set_watermark p n;; modify_plugin (fun s => tell s (watermark_set p n))).
Proof.
  intros Hp Hn s s' r E _. injection E as <- _. constructor; [|done|done|].
  - intros [Rm Rh Rr]. constructor; simpl.
    + intros q. rewrite mark_app. simpl. destruct (Z.eqb_spec p q) as [->|Hne]; [by rewrite lookup_insert_eq|by rewrite lookup_insert_ne].
    + by apply history_snoc.
    + intros q w. destruct (decide (p = q)) as [->|Hne]; [rewrite lookup_insert_eq; by intros [= <-]|rewrite lookup_insert_ne by done; apply Rr].
  - intros q Hq. simpl. apply lookup_insert_ne. congruence.
Qed.

Lemma generate_next_pending b t b' : generate_next b t = Ok b' -> pending_schedule b' = pending_schedule b.
Proof. intros E. unfold generate_next in E. inv_ok. destruct_and?; repeat case_match; inv_ok; done. Qed.

Lemma heard_on_block Q b : (forall p, Q p -> p ∈ names (producers (active_schedule b)) \/ producers (pending_schedule b) = []) ->
  runs (heard Q) (on_block producers_ signature_providers start_time b).
Proof.
  intros HQ. unfold on_block. apply runs_bind; [apply _|eauto with runs|]. intros s. cbv zeta. apply runs_if; [eauto with runs|].
  apply runs_bind; [apply _|apply runs_each_in; [apply _|intros p _; apply heard_confirm]|]. intros _. apply runs_lift_bind; [apply _|]. intros t _.
  apply runs_lift_bind; [apply _|]. intros b1 Eb1. apply generate_next_pending in Eb1.
  destruct (maybe_promote_pending b1) as [b2 promoted] eqn:Ep. destruct (promoted && _) eqn:Hpr; [|eauto with runs]. apply andb_true_iff in Hpr as [-> _].
  assert (producers (pending_schedule b) <> []) as Hne.
  { rewrite <- Eb1. unfold maybe_promote_pending in Ep. intros E0. rewrite E0 in Ep. by injection Ep. }
  apply runs_each_in; [apply _|]. intros p Hp. apply heard_watermark; [|apply u32_is_u32]. intros HQp. apply list_elem_of_filter in Hp as [[_ Hn] _].
  destruct (HQ p HQp); done.
Qed.

Lemma heard_signals Q l : (forall b, accepted_block b ∈ l -> forall p, Q p -> p ∈ names (producers (active_schedule b)) \/ producers (pending_schedule b) = []) ->
  runs (heard Q) (each (on_signal producers_ signature_providers start_time) l).
Proof.
  intros HQ. apply runs_each_in; [apply _|]. intros [b|t] Hg; simpl; [apply runs_catch_all; by apply heard_on_block, HQ|].
  apply heard_modify. intros s. split_and!; [done..|]. exists []. by rewrite app_nil_r.
Qed.

Notation signalled f := (on_chain_signals producers_ signature_providers start_time f).

Lemma signalled_heard f s s1 r1 c l r Q : signalled f s = (s1, r1) -> defined r1 -> f (pp_chain s) = (c, l, r) ->
  (forall b, accepted_block b ∈ l -> forall p, Q p -> p ∈ names (producers (active_schedule b)) \/ producers (pending_schedule b) = []) ->
  heard Q (set_pp_chain s c) s1 /\ (r1 = Ok tt -> r = Ok tt).
Proof.
  intros E Hd Ef HQ. unfold on_chain_signals in E. rewrite (bind_run _ _ s s s), Ef in E by done. rewrite (bind_run _ _ s (set_pp_chain s c) tt) in E by done.
  unfold mbind, M_bind in E. destruct (each _ l (set_pp_chain s c)) as [s2 [[]|e]] eqn:Es; injection E as <- <-; (split; [by eapply heard_signals|done]).
Qed.

Lemma recorded_chain s c : recorded s -> recorded (set_pp_chain s c).
Proof. intros []. by constructor. Qed.

Lemma producible_summary m b b' : summary b' = summary b -> producible m b -> producible m b'.
Proof. unfold summary, producible, settled. intros [= E1 E2 E3 E4 E5]. by rewrite E1, E2, E3, E4, E5. Qed.

Lemma ready_chain s c : ready s -> (forall b', pending_block_state c = Some b' -> exists b, pending_of s = Some b /\ summary b' = summary b) ->
  ready (set_pp_chain s c).
Proof. intros Hr Hc Hm b' Hb'. destruct (Hc b' Hb') as (b & Hb & Hs). by eapply producible_summary, Hr. Qed.

(** ** Blocks that are produced *)

(** The block is committed and its producer's watermark is set. *)
Lemma commit_kept s s1 r1 : (signalled chain_commit_block;;
    s ← get_state;
    let h := sbh_header (header (head_of s)) in
    let num := u32 (block_num (head_of s)) in
    set_watermark (producer h) num;; modify_plugin (fun s => tell s (produced_block (producer h) num (confirmed h)))) s = (s1, r1) ->
  defined r1 -> recorded s -> ready s -> pp_mode s = producing -> recorded s1 /\ ready s1.
Proof.
  intros E Hd Hrec Hrdy Hm. destruct (chain_commit_block (pp_chain s)) as [[c l] rc] eqn:Ec.
  destruct (signalled chain_commit_block s) as [s2 r2] eqn:Es.
  assert (defined r2) as Hd2 by (unfold mbind, M_bind in E; rewrite Es in E; destruct r2; [done|by injection E as <- <-]).
  unfold mbind at 1, M_bind at 1 in E. rewrite Es in E. destruct rc as [[]|ec].
  2: { destruct (commit_Err _ _ _ _ Ec) as [Hacc Hpen].
       destruct (signalled_heard _ _ _ _ _ _ _ (fun _ => True) Es Hd2 Ec) as [[Hr Hc Hmo Hq] Hok]; [intros b Hb; by destruct (Hacc b)|].
       destruct r2 as [[]|e2]; [by discriminate Hok|]. injection E as <- _. split; [by apply Hr, recorded_chain|].
       intros _ b' Hb'. rewrite Hc in Hb'. destruct (Hpen b' Hb') as (b & Hb & Hsum). assert (marks s2 = marks s) as -> by (apply map_eq; intros p; by apply Hq).
       by eapply producible_summary, Hrdy. }
  destruct (commit_Ok _ _ _ Ec) as (b & Hb & Hnone & Hsum & Hacc). destruct (Hrdy Hm b Hb) as (Hu & Hset & Hcl).
  set (p := producer (sbh_header (header b))) in *.
  destruct (signalled_heard _ _ _ _ _ _ _ (fun q => q = p) Es Hd2 Ec) as [[Hr Hc Hmo Hq] Hok].
  { intros b' Hb' q ->. specialize (Hacc b' Hb'). unfold summary in Hacc. injection Hacc as _ _ _ E4 E5. by rewrite E4, E5. }
  simpl in Hc. specialize (Hr (recorded_chain _ _ Hrec)). assert (pending_of s2 = None) as Hp2 by by rewrite Hc.
  destruct r2 as [[]|e]; [|injection E as <- _; by split; [|apply ready_none]].
  rewrite (bind_run _ _ s2 s2 s2) in E by done. cbv zeta in E. rewrite Hc in E.
  unfold summary in Hsum. injection Hsum as E1 E2 E3 _ _. rewrite E1, E2, E3, (u32_small _ Hu) in E. clear E1 E2 E3. fold p in E.
  pose proof (Hq p eq_refl) as Hmp. injection E as <- _. split; [|by apply ready_none]. destruct Hr as [Rm Rh Rr]. constructor; simpl.
  - intros q. rewrite mark_app. simpl. destruct (Z.eqb_spec p q) as [->|Hne]; [by rewrite lookup_insert_eq|by rewrite lookup_insert_ne].
  - apply history_snoc; [done|]. intros q n d [= <- <- <-]. by rewrite <- Rm, Hmp.
  - intros q w. destruct (decide (p = q)) as [->|Hne]; [rewrite lookup_insert_eq; intros [= <-]; apply Hu|rewrite lookup_insert_ne by done; apply Rr].
Qed.

Lemma on_chain_kept {A B} (m : M C A) (f : A -> M plugin B) s s1 r1 : (on_chain m ≫= f) s = (s1, r1) -> recorded s -> ready s ->
  (forall b', pending_block_state (m (pp_chain s)).1 = Some b' -> exists b, pending_of s = Some b /\ summary b' = summary b) ->
  (forall c a, recorded (set_pp_chain s c) -> ready (set_pp_chain s c) -> f a (set_pp_chain s c) = (s1, r1) -> recorded s1 /\ ready s1) ->
  recorded s1 /\ ready s1.
Proof.
  intros E Hrec Hrdy Hm Hf. unfold on_chain, mbind, M_bind in E. destruct (m (pp_chain s)) as [c [a|e]] eqn:Em; simpl in Hm;
    [|injection E as <- _; split; [by apply recorded_chain|by apply ready_chain]].
  eapply Hf; [by apply recorded_chain|by apply ready_chain|exact E].
Qed.

Lemma produce_kept s s1 r1 : produce_block producers_ signature_providers start_time s = (s1, r1) -> defined r1 -> recorded s -> ready s -> recorded s1 /\ ready s1.
Proof.
  intros E Hd Hrec Hrdy. unfold produce_block in E. rewrite (bind_run _ _ s s s) in E by done. destruct (decide (pp_mode s = producing)) as [Hm|Hm].
  2: { rewrite bool_decide_eq_false_2 in E by done. by injection E as <- _. }
  rewrite bool_decide_eq_true_2, (bind_run _ _ s s tt) in E by done. destruct (pending_of s) as [pbs|] eqn:Hp; [|by injection E as <- _].
  rewrite (bind_run _ _ s s pbs) in E by done. destruct (signature_providers !! _) as [provider|]; [|by injection E as <- _].
  rewrite (bind_run _ _ s s provider) in E by done.
  eapply on_chain_kept; [exact E|done|done|apply finalize_summary|]. clear E. intros c [] Hrec1 Hrdy1 E.
  eapply on_chain_kept; [exact E|done|done|apply sign_summary|]. clear E. intros c' [] Hrec2 Hrdy2 E.
  by eapply commit_kept.
Qed.

(** ** Runs *)

(** What can happen to the plugin; transactions are among the [admissible] ones. *)
Context (admissible : incoming -> Prop).
Inductive activity (s : plugin) : M plugin unit -> Prop :=
| act_startup fuel full lib : activity s (plugin_startup producers_ signature_providers now signed_id fuel full lib)
| act_transaction i : admissible i -> activity s (receive_transaction now i)
| act_block fuel b : activity s (on_incoming_block producers_ signature_providers start_time now signed_id fuel b)
| act_wait fuel w : w ∈ pp_waits s -> activity s (on_wait producers_ signature_providers start_time now signed_id fuel w)
| act_pause : activity s pause
| act_resume fuel : activity s (resume producers_ signature_providers now signed_id fuel)
| act_options fuel a b c d e f : activity s (update_runtime_options producers_ signature_providers now signed_id fuel a b c d e f).

(** One of them happens, in the years of the slots. *)
Definition step (s s' : plugin) : Prop :=
  exists m r, activity s m /\ m s = (s', r) /\ defined r /\ era (pp_chain s').

Definition holds (s : plugin) : Prop := recorded s /\ ready s.

Lemma holds_steady s s' : steady s s' -> holds s -> holds s'.
Proof. intros Hs [H1' H2']. split; [by eapply recorded_steady|by eapply ready_steady]. Qed.

Lemma holds_runs {A} (m : M plugin A) s s' r : runs steady m -> m s = (s', r) -> defined r -> holds s -> holds s'.
Proof. intros Hm E Hd. by apply holds_steady, (Hm s s' r). Qed.

Lemma holds_abort s : recorded s -> holds (set_pp_chain s (chain_abort_block (pp_chain s))).
Proof. intros Hr. split; [by apply recorded_chain|]. apply ready_none, abort_pending. Qed.

(** The loop, when the head at its end is in the years of the slots. *)
Lemma loop_holds fuel s s' r : loop fuel s = (s', r) -> defined r -> era (pp_chain s') -> holds s -> holds s'.
Proof.
  intros E Hd Hera [Hrec Hrdy]. pose proof (same_head_loop fuel s s' r E Hd) as Hh. unfold same_head in Hh.
  edestruct (loop_kept fuel s s' r) as (K1 & K2 & _); [done..| |done]. unfold era in *. by rewrite <- Hh.
Qed.

(** A handler behind [try]. *)
Lemma try_holds {A B} (m : M plugin A) (f : A + exn -> M plugin B) s s' r : (try_catch m ≫= f) s = (s', r) -> defined r ->
  (forall s1 r1, m s = (s1, r1) -> defined r1 -> forall x s2 r2, f x s1 = (s2, r2) -> defined r2 -> holds s2) -> holds s'.
Proof.
  intros E Hd Hm. unfold mbind, M_bind, try_catch in E. destruct (m s) as [s1 r1].
  destruct r1 as [a|e]; [by eapply Hm|]. destruct (catchable e) eqn:Hc; [by eapply Hm|]. injection E as <- <-. unfold defined in Hd. congruence.
Qed.

Lemma maybe_produce_holds fuel s s' r : maybe_produce_block producers_ signature_providers start_time now signed_id fuel s = (s', r) -> defined r ->
  era (pp_chain s') -> holds s -> holds s'.
Proof.
  intros E Hd Hera [Hrec Hrdy]. unfold maybe_produce_block in E. eapply reschedule_kept; [exact E|done|done|]. intros s1 r1 E1 Hd1.
  eapply try_holds; [exact E1|done|]. intros s2 r2 E2 Hd2 x s3 r3 E3 _. pose proof (produce_kept _ _ _ E2 Hd2 Hrec Hrdy) as Hk.
  assert (holds (set_pp_chain s2 (chain_abort_block (pp_chain s2)))) as Ha by (apply holds_abort, Hk).
  destruct x as [a|e]; [by injection E3 as <- _|]. destruct (is_guard e); injection E3 as <- _; [|exact Ha]. eapply holds_steady; [|exact Hk]. by apply steady_same.
Qed.

Lemma steady_enable : runs steady (enable_production now).
Proof. unfold enable_production. runs_step. by_steady. Qed.

Lemma push_block_holds b s s1 r1 : signalled (chain_push_block b) s = (s1, r1) -> defined r1 -> holds s -> pending_of s = None -> holds s1.
Proof.
  intros E Hd [Hrec _] Hn. pose proof (push_block_pending b _ Hn) as Hp. destruct (chain_push_block b (pp_chain s)) as [[c l] r] eqn:Ec.
  destruct (signalled_heard _ _ _ _ _ _ _ (fun _ => False) E Hd Ec ltac:(done)) as [[Hr Hc _ _] _]. split; [by apply Hr, recorded_chain|].
  apply ready_none. by rewrite Hc.
Qed.

Lemma incoming_block_holds fuel b s s' r : on_incoming_block producers_ signature_providers start_time now signed_id fuel b s = (s', r) -> defined r ->
  era (pp_chain s') -> holds s -> holds s'.
Proof.
  intros E Hd Hera Hh. unfold on_incoming_block in E. cbv zeta in E. set (s0 := (read_clock now s).1). rewrite (bind_run _ _ s s0 (now (pp_ticks s))) in E by done.
  assert (holds s0) as Hh0 by (eapply holds_steady; [by eapply (steady_clock s)|done]). destruct (_ <? _) in E; [|by injection E as <- _].
  rewrite (bind_run _ _ s0 s0 tt) in E by done. rewrite (bind_run _ _ s0 s0 s0) in E by done. destruct (fetch_block_by_id _ _); [by injection E as <- _|].
  destruct (create_block_state_future _ _) as [[]|e]; [|by injection E as <- _]. rewrite (bind_run _ _ s0 s0 tt) in E by done.
  set (s1 := set_pp_chain s0 (chain_abort_block (pp_chain s0))). rewrite (bind_run _ _ s0 s1 tt) in E by done.
  assert (holds s1) as Hh1 by (apply holds_abort, Hh0). eapply reschedule_kept; [exact E|done|done|]. intros s2 r2 E2 Hd2.
  eapply try_holds; [exact E2|done|]. intros s3 r3 E3 Hd3 x s4 r4 E4 Hd4.
  assert (holds s3) as Hh3 by (eapply push_block_holds; [exact E3|done|done|apply abort_pending]). destruct x as [a|e]; [by eapply holds_runs; [apply steady_enable|..]|].
  destruct (is_guard e); injection E4 as <- _; (eapply holds_steady; [|exact Hh3]); first [by apply steady_tell|by apply steady_same].
Qed.

(** A part that is steady, then the loop. *)
Lemma then_loop_holds {A} fuel (m : M plugin A) s s' r : (m;; loop fuel) s = (s', r) -> defined r -> era (pp_chain s') -> (forall s1 r1, m s = (s1, r1) -> defined r1 -> holds s1) ->
  holds s'.
Proof.
  intros E Hd Hera Hm. unfold mbind, M_bind in E. destruct (m s) as [s1 [a|e]] eqn:Em; [by eapply loop_holds; [..|by eapply Hm]|].
  injection E as <- <-. by eapply Hm.
Qed.

Lemma restart_holds fuel s s' r : restart_speculation producers_ signature_providers now signed_id fuel s = (s', r) -> defined r -> era (pp_chain s') -> holds s -> holds s'.
Proof.
  intros E Hd Hera Hh. unfold restart_speculation in E. rewrite (bind_run _ _ s s s) in E by done. destruct (bool_decide _); [|by injection E as <- _].
  eapply then_loop_holds; [exact E|done|done|]. intros s1 r1 E1 _. injection E1 as <- _. by apply holds_abort, Hh.
Qed.

Lemma policy_holds s p : holds s -> holds (set_policy s p).
Proof. apply holds_steady. by apply steady_same. Qed.

Lemma step_holds s s' : step s s' -> holds s -> holds s'.
Proof.
  intros (m & r & Ha & E & Hd & Hera) Hh. destruct Ha.
  - unfold plugin_startup in E. rewrite (bind_run _ _ s s s) in E by done.
    destruct (_ || bool_decide (get_read_mode _ = _)); [|by injection E as <- _].
    rewrite (bind_run _ _ s s tt) in E by done. destruct (_ || full); [|by injection E as <- _]. rewrite (bind_run _ _ s s tt) in E by done.
    eapply then_loop_holds; [exact E|done|done|]. intros s1 r1 E1 Hd1. eapply holds_runs; [|exact E1|done|done]. destruct lib; by_steady.
  - unfold receive_transaction in E. eapply holds_runs; [|exact E|done|done]. runs_step. by_steady.
  - by eapply incoming_block_holds.
  - unfold on_wait in E. rewrite (bind_run _ _ s s s) in E by done. destruct (_ =? _); [|by injection E as <- _]. destruct (wa_handler w); [by eapply loop_holds|].
    unfold mbind, M_bind in E. destruct (maybe_produce_block _ _ _ _ _ fuel s) as [s1 [a|e]] eqn:Em; injection E as <- <-; by eapply maybe_produce_holds.
  - eapply holds_runs; [|exact E|done|done]. by_steady.
  - unfold resume in E. erewrite bind_run in E by reflexivity. eapply restart_holds; [exact E|done|done|by apply policy_holds].
  - unfold update_runtime_options in E. erewrite bind_run in E by reflexivity. destruct b; [eapply restart_holds; [exact E|done|done|]|injection E as <- _];
      by apply policy_holds.
Qed.

(** A plugin that has not seen or done anything. *)
Definition fresh (s : plugin) : Prop := marks s = ∅ /\ pp_events s = [] /\ pending_of s = None.

Lemma fresh_holds s : fresh s -> holds s.
Proof.
  intros (Hm & He & Hp). split; [|by apply ready_none]. constructor.
  - intros p. by rewrite Hm, He, lookup_empty.
  - rewrite He. intros l1 p n c l2 E. by destruct l1.
  - intros p w. by rewrite Hm, lookup_empty.
Qed.

(** C17: Whatever blocks, transactions, expired waits and requests reach the
    plugin, in whatever order, two blocks that it produces for the same producer
    never confirm the same block number: the second one, with all the earlier
    blocks it confirms, starts after the first one. The exception is a watermark
    that an accepted block sets below the first block in between, because the
    producer is new in its schedule. *)
Theorem never_confirms_twice (s s' : plugin) (p : account_name) (n1 c1 n2 c2 : Z) (l1 l2 l3 : list event)
  (Hfresh : fresh s) (Hrun : rtc step s s')
  (Hevents : pp_events s' = l1 ++ produced_block p n1 c1 :: l2 ++ produced_block p n2 c2 :: l3)
  (Hmarks : forall n, watermark_set p n ∈ l2 -> n1 <= n) :
  n1 < n2 - c2.
Proof.
  assert (holds s') as [Hrec _].
  { clear Hevents. apply fresh_holds in Hfresh. induction Hrun as [|x y z Hxy _ IH]; [done|]. by apply IH, (step_holds x). }
  eapply confirmed_once; [|exact Hmarks]. rewrite <- Hevents. apply Hrec.
Qed.

End Safety.
