(* ===== verification/ProducerQueue.v ===== *)
(** * Every transaction that arrives is answered once

    Transactions that reach the plugin are answered, or wait for a block, until
    the node quits; and the loop over scheduled transactions comes to its end. *)

From Stdlib Require Import ZArith Lia Bool.
From stdpp Require Import base numbers gmap list relations sorting.
From S2P Require Import Prelude Merkle BlockTime BlockHeader Float64 Transaction Block ApplyContextProofs Controller ProducerPlugin ProducerPluginProofs ProducerSafety.

Open Scope Z_scope.

Definition received_of (es : list event) : list nat := omap (fun e => match e with received n => Some n | _ => None end) es.
Definition answered_of (es : list event) : list nat := omap (fun e => match e with answered n _ => Some n | _ => None end) es.

(** Neither a transaction nor an answer. *)
Definition neutral (e : event) : Prop := match e with received _ | answered _ _ => False | _ => True end.

Lemma neutral_received es e : neutral e -> received_of (es ++ [e]) = received_of es.
Proof. intros He. unfold received_of. rewrite omap_app. destruct e; try done; simpl; apply app_nil_r. Qed.
Lemma neutral_answered es e : neutral e -> answered_of (es ++ [e]) = answered_of es.
Proof. intros He. unfold answered_of. rewrite omap_app. destruct e; try done; simpl; apply app_nil_r. Qed.

Section Unpack.
Context `{TransactionData}.

Definition unpackable (i : incoming) : Prop := exists x, packed_id (in_trx i) = Ok x.

(** What was unpacked stays so. *)
Lemma packed_id_again p p' i : packed_id p = Ok (p', i) -> (exists t, get_transaction p' = Ok (p', t)) /\ exists x, packed_id p' = Ok x.
Proof.
  unfold packed_id. intros E. apply bind_Ok in E as ([q t] & E & Ei). injection Ei as <- _. assert (get_transaction q = Ok (q, t)) as Hq.
  { unfold get_transaction in E. apply bind_Ok in E as (q' & _ & E). apply bind_Ok in E as (t' & Et & E). injection E as <- <-. apply of_option_Ok in Et.
    unfold get_transaction, local_unpack. rewrite Et. simpl. by rewrite Et. }
  split; [by exists t|]. rewrite Hq. by eexists.
Qed.

End Unpack.

Section Queue.
Context {C : Type} `{ProducerChain C} `{Crypto} `{TransactionData} `{!TransactionLaws}.
Context (producers_ : list account_name) (signature_providers : gmap Z (digest -> signature_type)) (start_time : Z).
Context (now : nat -> Z) (signed_id : packed_transaction -> digest).

Notation plugin := (plugin C).
Notation queue s := (pending_incoming_transactions (pp_queues s)).

(** The transactions that arrived are those that were answered, those in hand and
    those that wait. *)
Definition balanced (in_hand : list nat) (s : plugin) : Prop :=
  Forall unpackable (queue s) /\
  (pp_quit s = true \/ received_of (pp_events s) ≡ₚ in_hand ++ answered_of (pp_events s) ++ (in_next <$> queue s)).

Definition accounts (s s' : plugin) : Prop := balanced [] s -> balanced [] s'.

#[local] Instance accounts_preorder : PreOrder accounts.
Proof. split; unfold accounts; [auto|]. intros x y z. auto. Qed.

Lemma balanced_same l s s' : pp_quit s' = pp_quit s -> queue s' = queue s -> pp_events s' = pp_events s -> balanced l s -> balanced l s'.
Proof. unfold balanced. by intros -> -> ->. Qed.

Lemma accounts_same s s' : pp_quit s' = pp_quit s -> queue s' = queue s -> pp_events s' = pp_events s -> accounts s s'.
Proof. intros Hq Hi He. unfold accounts. by apply balanced_same. Qed.

Lemma accounts_tell s e : neutral e -> accounts s (tell s e).
Proof. intros He [Hu [Hq|Hp]]; (split; [done|]); [by left|]. right. simpl. by rewrite neutral_received, neutral_answered. Qed.

Lemma balanced_quit l l' s : balanced l s -> balanced l' (set_quit s).
Proof. intros [Hu _]. split; [done|by left]. Qed.

Lemma balanced_queue i s : unpackable i -> balanced [in_next i] s -> balanced [] (queue_incoming (C := C) i s).1.
Proof.
  intros Hi [Hu Hp]. split; [apply Forall_app; by repeat constructor|]. destruct Hp as [Hq|Hp]; [by left|]. right. simpl.
  rewrite Hp, fmap_app. simpl. rewrite app_assoc. apply Permutation_cons_append.
Qed.

Lemma balanced_answer n e s : balanced [n] s -> balanced [] (tell s (answered n e)).
Proof.
  intros [Hu [Hq|Hp]]; (split; [done|]); [by left|]. right. simpl. unfold received_of, answered_of in *. rewrite !omap_app. simpl. rewrite app_nil_r, Hp.
  simpl. by rewrite <- app_assoc, Permutation_middle.
Qed.

Lemma deadline_run d (s : plugin) : exists x, transaction_deadline now d s = ((read_clock now s).1, Ok x).
Proof. eexists. unfold transaction_deadline, mbind, M_bind, read_clock, get_state, mret, M_ret. cbv zeta beta iota. reflexivity. Qed.

(** Pushing a transaction changes the chain only. *)
Lemma try_silent r (m : transaction_metadata -> M C (option exn)) (s s' : plugin) x : try_catch (a ← lift r; on_chain (m a)) s = (s', x) -> exists c, s' = set_pp_chain s c.
Proof.
  unfold try_catch, on_chain, mbind, M_bind, lift. destruct r as [a|e].
  - destruct (m a (pp_chain s)) as [c [y|e]]; [|destruct (catchable e)]; intros [= <- _]; by exists c.
  - destruct (catchable e); intros [= <- _]; exists (pp_chain s); by destruct s.
Qed.

(** The transaction in hand is answered, or it waits. *)
Lemma incoming_balanced i s s' r : on_incoming_transaction_async now i s = (s', r) -> defined r -> unpackable i -> balanced [in_next i] s -> balanced [] s'.
Proof.
  intros E Hd Hi Hb. unfold on_incoming_transaction_async in E. rewrite (bind_run _ _ s s s) in E by done.
  destruct (pending_block_state (pp_chain s)) as [pbs|]; [|injection E as <- _; by apply balanced_queue]. cbv zeta in E.
  destruct Hi as [[p' id] Hi]. rewrite Hi in E. rewrite (bind_run _ _ s s (p', id)) in E by done. apply packed_id_again in Hi as ((t & Ht) & Hu).
  rewrite Ht in E. rewrite (bind_run _ _ s s (p', t)) in E by done. destruct (_ <? _) in E; [injection E as <- _; by apply balanced_answer|].
  destruct (is_known_unexpired_transaction _ _); [injection E as <- _; by apply balanced_answer|]. destruct (deadline_run (calculate_block_deadline s (to_time_point (timestamp (sbh_header (header pbs))))) s) as ([dl subj] & Edl).
  rewrite (bind_run _ _ _ _ _ Edl) in E. set (s1 := (read_clock now s).1) in *. assert (balanced [in_next i] s1) as Hb1 by done. clearbody s1.
  unfold mbind at 1, M_bind at 1 in E. destruct (try_incoming p' dl s1) as [s2 x] eqn:Et. assert (balanced [in_next i] s2) as Hb2.
  { eapply balanced_same; [..|exact Hb1]; unfold try_incoming in Et; apply try_silent in Et; by destruct Et as [c ->]. }
  destruct x as [[[e|]|e]|e].
  - destruct (plugin_failure_is_subjective e subj); injection E as <- _; [by apply balanced_queue|by apply balanced_answer].
  - destruct (in_persist _); injection E as <- _; by apply balanced_answer.
  - destruct (is_guard e); injection E as <- _; [by eapply balanced_quit|by apply balanced_answer].
  - injection E as <- <-. unfold try_incoming, try_catch in Et. repeat case_match; simplify_eq. unfold defined in Hd. congruence.
Qed.

#[local] Instance accounts_tolerant : Tolerant now accounts.
Proof.
  constructor; [apply _| |by intros; apply accounts_same|by intros; apply accounts_same|by intros s Hs; eapply balanced_quit|].
  - intros s s' r E _. injection E as <- _. by apply accounts_same.
  - intros w s s' r E Hd. unfold pop_incoming in E. rewrite (bind_run _ _ s s s) in E by done. cbv zeta in E.
    destruct (pending_incoming_transactions _) as [|i q] eqn:Eq; [by injection E as <- _|]. erewrite bind_run in E by reflexivity.
    intros [Hu Hp]. rewrite Eq in Hp, Hu. apply Forall_cons in Hu as [Hi Hu]. eapply incoming_balanced; [exact E|done|done|]. split; [done|].
    destruct Hp as [Hq|Hp]; [by left|right]. simpl. rewrite Hp. simpl. by rewrite Permutation_middle.
Qed.

Ltac by_accounts := apply runs_modify; intros ?; first [by apply accounts_same | by apply accounts_tell].

Lemma accounts_clock : runs accounts (read_clock now).
Proof. apply tol_clock; apply _. Qed.
Lemma accounts_guard : runs accounts handle_guard_exception.
Proof. apply runs_modify. intros s. apply (tol_quit now). Qed.
Lemma accounts_on_chain {A} (m : M C A) : runs accounts (on_chain m).
Proof. intros s s' r E _. unfold on_chain in E. destruct (m (pp_chain s)) as [c x]. injection E as <- _. by apply accounts_same. Qed.
Lemma accounts_modify f : (forall s, pp_quit (f s) = pp_quit s /\ queue (f s) = queue s /\ pp_events (f s) = pp_events s) -> runs accounts (modify_plugin f).
Proof. intros Hf. apply runs_modify. intros s. destruct (Hf s) as (Hq & Hi & He). by apply accounts_same. Qed.
Lemma accounts_fill fuel t d : runs accounts (fill_block producers_ now signed_id fuel t d).
Proof. apply runs_fill_block; apply _. Qed.
Hint Resolve accounts_clock accounts_guard accounts_on_chain accounts_modify accounts_fill : runs.

Lemma accounts_loop fuel : runs accounts (schedule_production_loop producers_ signature_providers now signed_id fuel).
Proof.
  unfold schedule_production_loop, start_block, get_irreversible_block_age, calculate_pending_block_time, production_disabled_by_policy,
    schedule_delayed_production_loop, start_wait, get_irreversible_block_age.
  runs_step; try apply runs_catch_all; runs_step.
Qed.
Hint Resolve accounts_loop : runs.

Lemma accounts_reschedule {A} fuel (m : M plugin A) : runs accounts m -> runs accounts (and_reschedule producers_ signature_providers now signed_id fuel m).
Proof.
  intros Hm s s' r E Hd. unfold and_reschedule in E. destruct (m s) as [s1 r1] eqn:Em.
  assert (runs accounts (catch_all (schedule_production_loop producers_ signature_providers now signed_id fuel))) as Hl by eauto with runs.
  destruct (catch_all _ s1) as [s2 [u|e]] eqn:El; injection E as <- <-.
  - etrans; [by eapply Hm|by eapply Hl].
  - exfalso. unfold catch_all in El. repeat case_match; by simplify_eq.
Qed.

Lemma accounts_signal g : runs accounts (on_signal producers_ signature_providers start_time g).
Proof.
  destruct g as [b|t]; simpl; [apply runs_catch_all|by_accounts]. unfold on_block. runs_step; apply runs_each_in; try apply _; intros p _.
  - unfold confirm_accepted. runs_step. apply runs_modify. intros s. etrans; [|by apply accounts_tell]. by apply accounts_same.
  - unfold set_watermark. runs_step. by_accounts.
Qed.

Lemma accounts_signals f : runs accounts (on_chain_signals producers_ signature_providers start_time f).
Proof.
  intros s s' r E Hd. unfold on_chain_signals in E. rewrite (bind_run _ _ s s s) in E by done. destruct (f (pp_chain s)) as [[c l] x].
  rewrite (bind_run _ _ s (set_pp_chain s c) tt) in E by done. etrans; [by apply (accounts_same s (set_pp_chain s c))|].
  revert E Hd. apply (runs_bind accounts); [|eauto with runs]. apply runs_each_in; [apply _|]. intros g _. apply accounts_signal.
Qed.
Hint Resolve accounts_signals accounts_reschedule : runs.

Lemma accounts_produce fuel : runs accounts (maybe_produce_block producers_ signature_providers start_time now signed_id fuel).
Proof.
  unfold maybe_produce_block. apply accounts_reschedule. unfold produce_block, set_watermark. runs_step. apply runs_try. runs_step. by_accounts.
Qed.

Lemma accounts_block fuel b : runs accounts (on_incoming_block producers_ signature_providers start_time now signed_id fuel b).
Proof. unfold on_incoming_block, enable_production. runs_step. apply accounts_reschedule. runs_step. by_accounts. Qed.

Lemma accounts_receive i : unpackable i -> runs accounts (receive_transaction now i).
Proof.
  intros Hi s s' r E Hd [Hu Hp]. unfold receive_transaction in E. rewrite (bind_run _ _ s (tell s (received (in_next i))) tt) in E by done.
  eapply incoming_balanced; [exact E|done|done|]. split; [done|]. destruct Hp as [Hq|Hp]; [by left|right]. simpl.
  unfold received_of, answered_of in *. rewrite !omap_app. simpl. rewrite app_nil_r, Hp. symmetry. apply Permutation_cons_append.
Qed.

Lemma step_accounts s s' : step producers_ signature_providers start_time now signed_id unpackable s s' -> accounts s s'.
Proof.
  intros (m & r & Ha & E & Hd & _). revert E Hd. generalize s s' r. fold (runs accounts m). destruct Ha.
  - unfold plugin_startup, on_irreversible_block. runs_step.
  - by apply accounts_receive.
  - apply accounts_block.
  - unfold on_wait. runs_step. apply accounts_produce.
  - unfold pause. runs_step.
  - unfold resume, restart_speculation. runs_step.
  - unfold update_runtime_options, restart_speculation. runs_step.
Qed.

(** C18: Transactions that can be unpacked are answered exactly once: whatever
    happens, as long as the node was not told to quit, the transactions that were
    received are those that were answered together with those that wait for a
    block, as multisets. *)
Theorem incoming_answered_once (s s' : plugin)
  (Hs : pp_events s = [] /\ queue s = [])
  (Hrun : rtc (step producers_ signature_providers start_time now signed_id unpackable) s s')
  (Hq : pp_quit s' = false) :
  received_of (pp_events s') ≡ₚ answered_of (pp_events s') ++ (in_next <$> queue s').
Proof.
  assert (balanced [] s') as [_ Hb]; [|destruct Hb; [congruence|done]]. assert (balanced [] s) as Hb by (unfold balanced; destruct Hs as [-> ->]; by split; [|right]).
  clear Hs Hq. induction Hrun as [|x y z Hxy _ IH]; [done|]. by apply IH, (step_accounts x).
Qed.

End Queue.

(** ** The loop over scheduled transactions ends *)

Definition key_lt (x y : scheduled) : Prop := key_leb (sc_key y) (sc_key x) = false.

Lemma key_leb_trans a b c : key_leb a b = true -> key_leb b c = true -> key_leb a c = true.
Proof.
  unfold key_leb. rewrite !orb_true_iff, !andb_true_iff, !Z.ltb_lt, !Z.eqb_eq, !Z.leb_le. lia.
Qed.
Lemma key_lt_leb x y : key_lt x y -> key_leb (sc_key x) (sc_key y) = true.
Proof.
  unfold key_lt, key_leb. rewrite orb_true_iff, orb_false_iff, andb_true_iff, andb_false_iff, !Z.ltb_lt, !Z.ltb_ge, !Z.eqb_eq, !Z.eqb_neq, !Z.leb_le, !Z.leb_gt. lia.
Qed.

Notation from_key k := (filter (fun x => key_leb k (sc_key x) = true)).

(** A bound cuts a list in order. *)
Lemma from_key_suffix k l : StronglySorted key_lt l -> exists pre, l = pre ++ from_key k l.
Proof.
  induction 1 as [|x l Hs (pre & IH) Hx]; [by exists []|]. destruct (decide (key_leb k (sc_key x) = true)) as [Hk|Hk].
  - exists []. rewrite filter_cons_True by done. simpl. f_equal. symmetry. apply filter_all. rewrite Forall_forall in Hx. intros y Hy.
    eapply key_leb_trans; [exact Hk|]. by apply key_lt_leb, Hx.
  - exists (x :: pre). rewrite filter_cons_False by done. simpl. by f_equal.
Qed.

Lemma from_key_successor pre x y rest : StronglySorted key_lt (pre ++ x :: y :: rest) -> from_key (sc_key y) (pre ++ x :: y :: rest) = y :: rest.
Proof.
  intros Hs. rewrite filter_app. assert (from_key (sc_key y) pre = []) as ->.
  { apply filter_none. intros z Hz. assert (key_lt z y) as Hzy by (eapply StronglySorted_app_1_elem_of; [exact Hs|done|do 2 constructor]).
    unfold key_lt in Hzy. congruence. }
  apply StronglySorted_app_1_r in Hs. inversion Hs as [|? ? Hs' Hx]; subst. apply Forall_cons in Hx as [Hxy _]. unfold key_lt in Hxy.
  rewrite filter_cons_False by congruence. simpl. apply filter_all. intros z Hz. inversion Hs' as [|? ? _ Hy]; subst.
  apply elem_of_cons in Hz as [->|Hz]; [unfold key_leb; by rewrite Z.eqb_refl, Z.leb_refl, orb_true_r|]. rewrite Forall_forall in Hy. by apply key_lt_leb, Hy.
Qed.

Section Ending.
Context {C : Type} `{ProducerChain C} `{Crypto} `{TransactionData} `{!TransactionLaws}.
Context (now : nat -> Z) (t : Z).

(** The rows that may be run in a block of the time [t], from a key on. *)
Definition open_rows (l : list scheduled) : list scheduled := filter (fun x => sc_published x < t) l.
Definition open_from (k : Z * Z) (c : C) : nat := length (open_rows (from_key k (scheduled_by_delay c))).

(** The index is in order; a transaction that is scheduled while a block is built
    is published with the time of the block; and a transaction comes to an end. *)
Class ScheduledLaws : Prop := {
  by_delay_sorted c : StronglySorted key_lt (scheduled_by_delay c);
  push_open trx d c k : (open_from k (chain_push_transaction trx d c).1 <= open_from k c)%nat;
  push_scheduled_open i d c k : (open_from k (chain_push_scheduled i d c).1 <= open_from k c)%nat;
  push_ends trx d : ends (chain_push_transaction trx d);
  push_scheduled_ends i d : ends (chain_push_scheduled i d);
  unpack_ends p : packed_id p <> Err out_of_fuel /\ get_transaction p <> Err out_of_fuel /\ metadata_of_packed p <> Err out_of_fuel
}.
Context `{!ScheduledLaws}.

Notation plugin := (plugin C).

(** No row becomes open. *)
Definition closing (s s' : plugin) : Prop := forall k, (open_from k (pp_chain s') <= open_from k (pp_chain s))%nat.

#[local] Instance closing_preorder : PreOrder closing.
Proof. split; [intros s k; lia|]. intros x y z Hxy Hyz k. specialize (Hxy k). specialize (Hyz k). lia. Qed.

Lemma closing_modify f : (forall s, pp_chain (f s) = pp_chain s) -> runs closing (modify_plugin f).
Proof. intros Hf s s' r E _. injection E as <- _. intros k. by rewrite Hf. Qed.
Lemma closing_clock : runs closing (read_clock now).
Proof. intros s s' r E _. injection E as <- _. by intros k. Qed.
Lemma closing_on_chain {A} (m : M C A) : (forall c k, (open_from k (m c).1 <= open_from k c)%nat) -> runs closing (on_chain m).
Proof. intros Hm s s' r E _ k. unfold on_chain in E. specialize (Hm (pp_chain s) k). destruct (m (pp_chain s)). by injection E as <- _. Qed.
Hint Resolve closing_modify closing_clock closing_on_chain push_open push_scheduled_open : runs.

Lemma closing_incoming i : runs closing (on_incoming_transaction_async now i).
Proof.
  unfold on_incoming_transaction_async, transaction_deadline, try_incoming, queue_incoming, send_response, persist, handle_guard_exception.
  runs_step; apply runs_try; runs_step.
Qed.

Lemma closing_pop w : runs closing (pop_incoming now w).
Proof.
  intros s s' r E Hd. unfold pop_incoming in E. rewrite (bind_run _ _ s s s) in E by done. cbv zeta in E.
  destruct (pending_incoming_transactions _) as [|i q]; [by injection E as <- _|]. erewrite bind_run in E by reflexivity.
  apply (closing_incoming i _ _ _ E Hd).
Qed.
Hint Resolve closing_pop : runs.

Lemma closing_by_weight orig d : runs closing (incoming_by_weight now orig d).
Proof. induction orig as [|n IH]; simpl; unfold out_of_time; runs_step. Qed.

Lemma closing_one i d : runs closing (run_one_scheduled now i d).
Proof.
  unfold run_one_scheduled, transaction_deadline, blacklist, handle_guard_exception. runs_step; apply runs_try; runs_step.
Qed.

(** ** Its parts *)

Lemma ends_try {S A} (m : M S A) : ends m -> ends (try_catch m).
Proof. intros Hm s. specialize (Hm s). unfold try_catch. destruct (m s) as [s1 [a|e]]; simpl in *; [done|]. destruct (catchable e); [done|]. simpl. congruence. Qed.
Lemma ends_on_chain {A} (m : M C A) : ends m -> ends (on_chain m).
Proof. intros Hm s. specialize (Hm (pp_chain s)). unfold on_chain. by destruct (m (pp_chain s)). Qed.
Lemma ends_modify f : ends (modify_plugin (C := C) f).
Proof. done. Qed.
Lemma ends_clock : ends (read_clock (C := C) now).
Proof. done. Qed.
Lemma ends_deadline d : ends (transaction_deadline (C := C) now d).
Proof. done. Qed.

Lemma ends_incoming i : ends (on_incoming_transaction_async (C := C) now i).
Proof.
  unfold on_incoming_transaction_async. apply ends_bind; [done|]. intros s. destruct (pending_block_state _) as [b|]; [|done]. cbv zeta.
  apply ends_bind; [apply ends_lift, unpack_ends|]. intros [p x]. apply ends_bind; [apply ends_lift, unpack_ends|]. intros [p' y].
  destruct (_ <? _); [done|]. destruct (is_known_unexpired_transaction _ _); [done|]. apply ends_bind; [apply ends_deadline|]. intros [d j].
  apply ends_bind; [apply ends_try, ends_bind; [apply ends_lift, unpack_ends|intros m; apply ends_on_chain, push_ends]|].
  intros [[e|]|e]; [by destruct (plugin_failure_is_subjective e j)|by destruct (in_persist _)|by destruct (is_guard e)].
Qed.

Lemma ends_pop w : ends (pop_incoming (C := C) now w).
Proof.
  unfold pop_incoming. apply ends_bind; [done|]. intros s. cbv zeta. destruct (pending_incoming_transactions _) as [|i q]; [done|].
  apply ends_bind; [done|]. intros _. apply ends_incoming.
Qed.

Lemma ends_by_weight orig d : ends (incoming_by_weight (C := C) now orig d).
Proof.
  induction orig as [|n IH]; simpl; [done|]. apply ends_bind; [done|]. intros s. destruct (_ && _); [|done]. apply ends_bind; [done|].
  intros []; [done|]. apply ends_bind; [apply ends_pop|]. done.
Qed.

Lemma ends_one i d : ends (run_one_scheduled (C := C) now i d).
Proof.
  unfold run_one_scheduled. apply ends_bind; [|intros [e|e]; [done|by destruct (is_guard e)]]. apply ends_try. apply ends_bind; [apply ends_deadline|].
  intros [d' j]. apply ends_bind; [apply ends_on_chain, push_scheduled_ends|]. intros [e|]; [|done]. by destruct (plugin_failure_is_subjective e j).
Qed.

(** A row that is run is open, and none takes its place. *)
Lemma open_from_successor c c' pre x y rest : scheduled_by_delay c = pre ++ x :: y :: rest -> sc_published x < t ->
  (open_from (sc_key y) c' <= open_from (sc_key y) c)%nat ->
  (length (open_rows (lower_bound c' (sc_key y))) < length (open_rows (x :: y :: rest)))%nat.
Proof.
  intros El Hx Hc. pose proof (by_delay_sorted c) as Hs. rewrite El in Hs. 
  assert (open_from (sc_key y) c = length (open_rows (y :: rest))) as E by (unfold open_from; by rewrite El, from_key_successor).
  assert (length (open_rows (x :: y :: rest)) = S (length (open_rows (y :: rest)))) as -> by (unfold open_rows; by rewrite filter_cons_True by done).
  rewrite E in Hc. unfold open_from in Hc. unfold lower_bound. lia.
Qed.

(** The weights after a transaction. *)
Definition dadd_ratio (s : plugin) : double -> double := fun w => dadd w (incoming_defer_ratio (po_options (pp_policy s))).

Lemma weights_run f (orig : nat) (s : plugin) : exists s', pp_chain s' = pp_chain s /\
  forall B (k : M plugin B), (set_weight f;; (if (orig =? 0)%nat then set_weight (fun _ => of_int 0) else mret tt);; k) s = k s'.
Proof. destruct orig as [|n]; eexists; (split; [|intros B k; reflexivity]); done. Qed.

(** Up to the transactions that wait. *)
Ltac run_to s1 Hdelay Hpub Eot Hbl := simpl; rewrite Hdelay, Hpub, (bind_run _ _ _ _ _ Eot), (bind_run _ _ s1 s1 s1) by done; rewrite Hbl.

(** With enough fuel the loop ends by itself. *)
Lemma scheduled_loop_ends d n : forall rows s orig, (exists pre, scheduled_by_delay (pp_chain s) = pre ++ rows) -> (length (open_rows rows) <= n)%nat ->
  exists fuel, (process_scheduled now fuel rows orig t d s).2 <> Err out_of_fuel.
Proof.
  induction n as [n IHn] using lt_wf_ind. induction rows as [|x rest IHr]; intros s orig (pre & Hpre) Hn; [by exists 1%nat|].
  assert (length (open_rows rest) <= n)%nat as Hrest by (revert Hn; unfold open_rows; rewrite filter_cons; case_decide; simpl; lia).
  assert (forall s', pp_chain s' = pp_chain s -> exists pre, scheduled_by_delay (pp_chain s') = pre ++ rest) as Hsuf.
  { intros s' ->. exists (pre ++ [x]). by rewrite Hpre, <- app_assoc. }
  destruct (t <? sc_delay_until x) eqn:Hdelay; [exists 1%nat; simpl; by rewrite Hdelay|].
  destruct (t <=? sc_published x) eqn:Hpub.
  { destruct (IHr s orig (Hsuf s eq_refl) Hrest) as [f Hf]. exists (S f). simpl. by rewrite Hdelay, Hpub. }
  apply Z.leb_gt in Hpub as Hopen. set (s1 := (read_clock now s).1).
  destruct (d <=? now (pp_ticks s)) eqn:Hlate.
  { exists 1%nat. simpl. rewrite Hdelay, Hpub. rewrite (bind_run _ _ s s1 true); [done|]. unfold out_of_time. by rewrite (bind_run _ _ s s1 (now (pp_ticks s))), Hlate. }
  assert (out_of_time now d s = (s1, Ok false)) as Eot by (unfold out_of_time; by rewrite (bind_run _ _ s s1 (now (pp_ticks s))), Hlate).
  destruct (index_has (blacklisted_transactions (pp_queues s1)) (sc_trx_id x)) eqn:Hbl.
  { destruct (IHr s1 orig (Hsuf s1 eq_refl) Hrest) as [f Hf]. exists (S f). simpl. rewrite Hdelay, Hpub, (bind_run _ _ _ _ _ Eot), (bind_run _ _ s1 s1 s1) by done.
    by rewrite Hbl. }
  destruct (incoming_by_weight now orig d s1) as [s2 r2] eqn:Ew. pose proof (ends_by_weight orig d s1) as Hw. rewrite Ew in Hw.
  destruct r2 as [orig2|e2].
  2: { exists 1%nat. run_to s1 Hdelay Hpub Eot Hbl. unfold mbind at 1, M_bind at 1. rewrite Ew. simpl in *. congruence. }
  set (s3 := (read_clock now s2).1). assert (out_of_time now d s2 = (s3, Ok (d <=? now (pp_ticks s2)))) as Eot2 by done.
  destruct (d <=? now (pp_ticks s2)).
  { exists 1%nat. run_to s1 Hdelay Hpub Eot Hbl. by rewrite (bind_run _ _ _ _ _ Ew), (bind_run _ _ _ _ _ Eot2). }
  destruct (run_one_scheduled now (sc_trx_id x) d s3) as [s4 r4] eqn:Eo. pose proof (ends_one (sc_trx_id x) d s3) as Ho. rewrite Eo in Ho.
  destruct r4 as [e4|e4].
  2: { exists 1%nat. run_to s1 Hdelay Hpub Eot Hbl. rewrite (bind_run _ _ _ _ _ Ew), (bind_run _ _ _ _ _ Eot2).
       unfold mbind at 1, M_bind at 1. rewrite Eo. simpl in *. congruence. }
  assert (closing s s4) as Hcl.
  { etrans; [by apply (closing_clock s s1 _ eq_refl)|]. etrans; [by apply (closing_by_weight _ _ _ _ _ Ew)|].
    etrans; [by apply (closing_clock s2 s3 _ eq_refl)|]. by apply (closing_one _ _ _ _ _ Eo). }
  destruct e4.
  2-3: exists 1%nat; run_to s1 Hdelay Hpub Eot Hbl; by rewrite (bind_run _ _ _ _ _ Ew), (bind_run _ _ _ _ _ Eot2), (bind_run _ _ _ _ _ Eo).
  destruct (weights_run (dadd_ratio s4) orig2 s4) as (s6 & Ec6 & E6). destruct rest as [|y rest].
  { exists 1%nat. run_to s1 Hdelay Hpub Eot Hbl. rewrite (bind_run _ _ _ _ _ Ew), (bind_run _ _ _ _ _ Eot2), (bind_run _ _ _ _ _ Eo), (bind_run _ _ s4 s4 s4) by done.
    fold (dadd_ratio s4). by rewrite E6. }
  assert (length (open_rows (lower_bound (pp_chain s6) (sc_key y))) < n)%nat as Hlt.
  { eapply Nat.lt_le_trans; [|exact Hn]. eapply open_from_successor; [exact Hpre|done|]. rewrite Ec6. apply Hcl. }
  destruct (IHn _ Hlt (lower_bound (pp_chain s6) (sc_key y)) s6 orig2) as [f Hf]; [apply from_key_suffix, by_delay_sorted|done|].
  exists (S f). run_to s1 Hdelay Hpub Eot Hbl. rewrite (bind_run _ _ _ _ _ Ew), (bind_run _ _ _ _ _ Eot2), (bind_run _ _ _ _ _ Eo), (bind_run _ _ s4 s4 s4) by done.
  fold (dadd_ratio s4). rewrite E6. by rewrite (bind_run _ _ s6 s6 s6).
Qed.

End Ending.
