(* ===== verification/ProducerNode.v ===== *)
(** * The controller behind the producer plugin

    The public operations of [controller.cpp] that the plugin calls, on the state
    of [ForkSwitch] with a pending block of [Controller] on top: [start_block],
    [finalize_block], [sign_block], [commit_block], [abort_block], the pushes of
    transactions and blocks. They meet the laws of the plugin's interface.

    The free space of the two databases, the order of the indices, the blocks of
    the log and the blocks a switch of branches accepts on its way are arguments. *)

From Stdlib Require Import ZArith Lia Bool.
From stdpp Require Import base numbers gmap list relations.
From S2P Require Import Prelude Merkle BlockTime BlockHeader ResourceLimits Authority Permissions NativeActions ChainConfig Transaction Block ForkDatabase.
From S2P Require Import TransactionContext TransactionContextProofs ApplyContext Controller ControllerProofs ControllerRuns ForkSwitch ForkSwitchRuns ProducerPlugin ProducerPluginProofs.
From S2P Require Import ProducerSafety.

Open Scope Z_scope.

(** ** State *)

Record node_state (DB : Type) := mk_node_state {
  ns_control : control DB left_over;
  ns_pending : option build_state;
  ns_pushes : nat
}.
Arguments mk_node_state {_}.
Arguments ns_control {_}.
Arguments ns_pending {_}.
Arguments ns_pushes {_}.

Section Node.
Context {DB : Type} `{Database chain_state DB} `{Cbrt} `{Crypto} `{MetaOrder} `{ActionData} `{TransactionData} `{Handlers} `{IndexOrder}.
Context (conf : controller_config) (chain_id : digest) (mode : db_read_mode) (replay_head_time leeway : option Z) (trusted_producers : list account_name).
Context (pack_signatures : list signature_type -> Z) (signed_id : packed_transaction -> digest)
  (pack_onerror : Z -> list Z -> list Z) (pack_block_header : block_header -> list Z)
  (hash_receipt : transaction_receipt -> digest) (hash_action_receipt : action_receipt -> digest).
(** The readings of the clock for blocks that are applied and for pushes. *)
Context (readings : nat -> clock * (nat -> clock * clock)) (clocks : nat -> clock * clock).
(** Less free memory than the guard sizes, the order of two indices, the blocks of
    the log, and the signals while a block is pushed. *)
Context (low_space low_reversible : node_state DB -> bool) (ordered : gmap digest transaction_metadata -> list (digest * transaction_metadata))
  (by_delay : gmap digest generated_transaction_object -> list scheduled) (logged : digest -> bool)
  (switch_signals : node_state DB -> signed_block -> list signal).

Notation node_state := (node_state DB).

#[local] Instance applier : BlockApplier chain_state left_over (clock * (nat -> clock * clock)) :=
  controller_applier conf chain_id mode replay_head_time leeway pack_signatures signed_id pack_onerror pack_block_header hash_receipt hash_action_receipt.

Definition speculative : bool := bool_decide (mode = SPECULATIVE).

Definition head_of_node (c : node_state) : block_header_state := bs_header_state (head_state (ns_control c)).

(** The controller as the code of the pending block sees it. *)
Definition node_view (c : node_state) : node :=
  mk_controller conf chain_id mode replay_head_time leeway (co_light_validation (ns_control c)) (head_of_node c).

Definition set_rest (k : control DB left_over) (u : left_over) : control DB left_over :=
  set_db k (co_db k) (co_reversible k) u.

Definition set_node_pending (c : node_state) (p : option build_state) : node_state := mk_node_state (ns_control c) p (S (ns_pushes c)).

(** The database as it is now, with the session of the pending block. *)
Definition chain_now (c : node_state) : chain_state :=
  match ns_pending c with Some s => bs_chain s | None => value (co_db (ns_control c)) end.

Definition unapplied_now (c : node_state) : gmap digest transaction_metadata :=
  match ns_pending c with Some s => bs_unapplied s | None => (co_rest (ns_control c)).1 end.

Definition set_unapplied_now (c : node_state) (u : gmap digest transaction_metadata) : node_state :=
  match ns_pending c with
  | Some s => mk_node_state (ns_control c) (Some (set_unapplied s u)) (ns_pushes c)
  | None => mk_node_state (set_rest (ns_control c) (u, (co_rest (ns_control c)).2)) None (ns_pushes c)
  end.

(** ** Operations *)

Definition validate_db_available_size : M node_state unit := c ← get_state; M_ASSERT (negb (low_space c)) guard_exception.
Definition validate_reversible_available_size : M node_state unit := c ← get_state; M_ASSERT (negb (low_reversible c)) guard_exception.

Definition node_abort_block (c : node_state) : node_state :=
  match ns_pending c with
  | Some s => mk_node_state (set_rest (ns_control c) (Controller.abort_block (node_view c) signed_id s, bs_cache s)) None (ns_pushes c)
  | None => c
  end.

(** [start_block( when, confirm_block_count )] for a block of our own. *)
Definition node_start_block (when confirm_block_count : Z) : M node_state unit :=
  validate_db_available_size;;
  c ← get_state;
  M_ASSERT (match ns_pending c with None => true | Some _ => false end) block_validate_exception;;
  M_ASSERT (revision (co_db (ns_control c)) =? block_num (head_of_node c)) database_exception;;
  let u := co_rest (ns_control c) in
  match Controller.start_block (node_view c) pack_signatures signed_id pack_block_header (value (co_db (ns_control c))) u.1 u.2 when confirm_block_count
          incomplete None (clocks (ns_pushes c)).1 with
  | (l, Ok s) => put_state (mk_node_state (ns_control c) (Some s) (S (ns_pushes c)))
  | (l, Err e) => put_state (mk_node_state (set_rest (ns_control c) l) None (S (ns_pushes c)));; throw e
  end.

(** Code of the pending block; there must be one. *)
Definition on_pending {A} (e : exn) (m : clock * clock -> node -> M build_state A) : M node_state A := fun c =>
  match ns_pending c with
  | Some s => let '(s', r) := m (clocks (ns_pushes c)) (node_view c) s in (set_node_pending c (Some s'), r)
  | None => (c, Err e)
  end.

Definition node_push_transaction (trx : transaction_metadata) (deadline : Z) : M node_state (option exn) :=
  validate_db_available_size;;
  M_ASSERT (negb (bool_decide (mode = READ_ONLY))) transaction_type_exception;;
  M_ASSERT (negb (md_implicit trx)) transaction_type_exception;;
  on_pending undefined_behavior (fun clk nd => Controller.push_transaction nd pack_signatures signed_id trx deadline 0 false clk.1).

Definition node_push_scheduled (trx_id : digest) (deadline : Z) : M node_state (option exn) :=
  validate_db_available_size;;
  on_pending undefined_behavior (fun clk nd => Controller.push_scheduled_transaction nd pack_onerror trx_id deadline 0 false clk.1 clk.2).

Definition node_finalize_block : M node_state unit :=
  validate_db_available_size;;
  on_pending block_validate_exception (fun _ _ => Controller.finalize_block hash_receipt hash_action_receipt).

Definition node_sign_block (signer : digest -> signature_type) : M node_state unit :=
  on_pending undefined_behavior (fun _ _ s =>
    match BlockHeader.sign (pb_block_state (bs_pending s)) signer with
    | Ok b => (set_pending_state s (set_block_state (bs_pending s) b), Ok tt)
    | Err e => (s, Err e)
    end).

(** The pending block as an object of the fork database. *)
Definition pending_block_object (s : build_state) : block_state :=
  let p := bs_pending s in
  mk_block_state (pb_block_state p) (mk_block (header (pb_block_state p)) (pb_transactions p) []) true true (pb_trxs p).

(** [commit_block( true )] in its [try] block; the signals of irreversible blocks
    are those of the fork database. *)
Definition commit_own (s : build_state) : M (control DB left_over) unit :=
  p ← on_fork (make_shared (pending_block_object s));
  new_bsp ← on_fork_signals (fun f => add_state f (Some p) true);
  k ← get_state;
  hd ← lift (of_option undefined_behavior (head (co_fork k)));
  modify_control (fun k => set_head_ptr k hd);;
  M_ASSERT (bool_decide (new_bsp = hd)) fork_database_exception;;
  k ← get_state;
  let num := block_num (pb_block_state (bs_pending s)) in
  match co_reversible k !! num with
  | Some _ => throw uniqueness_violation
  | None => put_state (set_db k (co_db k) (<[num := block (pending_block_object s)]> (co_reversible k)) (co_rest k))
  end.

Definition newly_irreversible (k k' : control DB left_over) : list signal :=
  (fun p => irreversible_block (timestamp (sbh_header (header (bs_header_state (at_ (store (co_fork k')) p)))))) <$>
    drop (length (emitted (co_fork k))) (emitted (co_fork k')).

Definition node_commit_block (c : node_state) : node_state * list signal * result unit :=
  if low_space c || low_reversible c then (c, [], Err guard_exception)
  else
    match ns_pending c with
    | None => (c, [], Err undefined_behavior)
    | Some s =>
        let k := ns_control c in
        match commit_own s k with
        | (k', Ok _) =>
            (mk_node_state (set_db k' (push (bs_chain s) (co_db k')) (co_reversible k') (rest s)) None (ns_pushes c),
             newly_irreversible k k' ++ [accepted_block (pb_block_state (bs_pending s))], Ok tt)
        | (k', Err e) => (node_abort_block (mk_node_state k' (Some s) (ns_pushes c)), newly_irreversible k k', Err e)
        end
    end.

Definition node_create_block_state_future (c : node_state) (b : signed_block) : result unit :=
  let d := co_fork (ns_control c) in
  SNAX_ASSERT (match get_block d (header_id (sbh_header (sb_header b))) with Some _ => false | None => true end) fork_database_exception;;
  SNAX_ASSERT (match get_block d (previous (sbh_header (sb_header b))) with Some _ => true | None => false end) unlinkable_block_exception.

Definition node_push_block (b : signed_block) (c : node_state) : node_state * list signal * result unit :=
  if low_space c || low_reversible c then (c, [], Err guard_exception)
  else
    match ns_pending c with
    | Some _ => (c, [], Err block_validate_exception)
    | None =>
        let '(k, r) := ForkSwitch.push_block readings conf trusted_producers speculative false b (ns_control c) in
        (mk_node_state k None (ns_pushes c), switch_signals c b, r)
    end.

Definition node_fetch_block_by_id (c : node_state) (i : digest) : bool :=
  match get_block (co_fork (ns_control c)) i with Some _ => true | None => logged i end.

Definition node_chain : ProducerChain node_state := {|
  get_read_mode _ := mode;
  head_block_state := head_of_node;
  pending_block_state c := (fun s => pb_block_state (bs_pending s)) <$> ns_pending c;
  is_known_unexpired_transaction c i := bool_decide (is_Some (ch_recorded (chain_now c) !! i));
  fetch_block_by_id := node_fetch_block_by_id;
  deferred_trx_expiration_window c := cc_deferred_trx_expiration_window (gp_configuration (ch_gpo (chain_now c)));
  unapplied_transactions c := ordered (unapplied_now c);
  clear_unapplied c := set_unapplied_now c ∅;
  erase_unapplied i c := set_unapplied_now c (delete i (unapplied_now c));
  scheduled_by_delay c := by_delay (db_generated (ch_db (chain_now c)));
  chain_abort_block := node_abort_block;
  chain_start_block := node_start_block;
  chain_push_transaction := node_push_transaction;
  chain_push_scheduled := node_push_scheduled;
  chain_finalize_block := node_finalize_block;
  chain_sign_block := node_sign_block;
  chain_commit_block := node_commit_block;
  create_block_state_future := node_create_block_state_future;
  chain_push_block := node_push_block
|}.

End Node.

(** ** Its laws

    Transactions do not touch the header of the pending block, the block that is
    started is the one of the scheduled producer with the confirmations asked for,
    and the block that is committed is the new head. *)

(** ** Headers *)

Lemma set_confirmed_header b n : block_num (set_confirmed b n) = block_num b /\ active_schedule (set_confirmed b n) = active_schedule b /\
  pending_schedule (set_confirmed b n) = pending_schedule b /\
  producer (sbh_header (header (set_confirmed b n))) = producer (sbh_header (header b)) /\ confirmed (sbh_header (header (set_confirmed b n))) = n.
Proof. unfold set_confirmed. cbv zeta. destruct (set_confirmed_loop _ _ _) as [cc [i|]]; done. Qed.

Lemma promote_header b b' v : maybe_promote_pending b = (b', v) -> block_num b' = block_num b /\ header b' = header b /\
  (if v then producers (pending_schedule b') = [] else b' = b).
Proof. unfold maybe_promote_pending. destruct (_ && _); intros [= <- <-]; done. Qed.

Section Headers.
Context `{Crypto}.

Lemma set_new_producers_header b ps b' : set_new_producers b ps = Ok b' -> block_num b' = block_num b /\ active_schedule b' = active_schedule b /\
  producer (sbh_header (header b')) = producer (sbh_header (header b)) /\ confirmed (sbh_header (header b')) = confirmed (sbh_header (header b)).
Proof. unfold set_new_producers. intros E. inv_ok. done. Qed.

Lemma generate_next_header b w b' : w <> 0 -> generate_next b w = Ok b' ->
  exists k, get_scheduled_producer b w = Ok k /\ block_num b' = u32 (block_num b + 1) /\ producer (sbh_header (header b')) = producer_name k /\
    active_schedule b' = active_schedule b /\ producer_name k ∈ names (producers (active_schedule b)).
Proof.
  intros Hw E. unfold generate_next in E. cbv zeta in E. apply bind_Ok in E as (w' & E0 & E). assert (w' = w) as ->.
  { rewrite (proj2 (Z.eqb_neq w 0) Hw) in E0. simpl in E0. by inv_ok. }
  apply bind_Ok in E as (k & Ek & E). apply bind_Ok in E as ([m r] & _ & E). injection E as <-. exists k. split_and!; [done..|].
  unfold get_scheduled_producer in Ek. destruct (_ =? 0); [done|]. apply of_option_Ok in Ek. unfold names. apply list_elem_of_fmap. exists k. split; [done|by eapply list_elem_of_lookup_2].
Qed.

(** A block that was started, as far as the plugin cares. *)
Record starts (h : block_header_state) (k : producer_key) (n : Z) (b : block_header_state) : Prop := {
  sb_settled : settled b;
  sb_num : block_num b = u32 (block_num h + 1);
  sb_producer : producer (sbh_header (header b)) = producer_name k;
  sb_confirmed : confirmed (sbh_header (header b)) = n
}.

End Headers.

Section Blocks.
Context `{CbrtLaws} `{Crypto} `{MetaOrder} `{ActionData} `{TransactionData} `{HandlersKeep} (nd : node).
Context (pack_signatures : list signature_type -> Z) (signed_id : packed_transaction -> digest) (pack_onerror : Z -> list Z -> list Z)
  (pack_block_header : block_header -> list Z) (hash_receipt : transaction_receipt -> digest) (hash_action_receipt : action_receipt -> digest).

Notation block_of s := (pb_block_state (bs_pending s)).

Lemma push_onblock_block clk s s' r : push_onblock nd pack_signatures signed_id pack_block_header clk s = (s', r) -> block_of s' = block_of s.
Proof.
  intros E. unfold push_onblock in E. rewrite (bind_run _ _ s s s) in E by done. cbv zeta in E. erewrite bind_run in E by reflexivity.
  match type of E with (catch_all (?m ≫= _) ≫= _) ?x = _ => set (s1 := x) in E end.
  unfold mbind at 1, M_bind at 1 in E. unfold catch_all in E. unfold mbind at 1, M_bind at 1 in E.
  match type of E with context [Controller.push_transaction ?a ?b ?c ?d ?e ?f ?g ?h s1] => pose proof (push_transaction_frame nd pack_signatures signed_id d e f g h s1) as (_ & _ & _ & Hf & _); destruct (Controller.push_transaction a b c d e f g h s1) as [s2 [x|x]] end;
    simpl in Hf; [injection E as <- _; done|]. destruct x; injection E as <- _; done.
Qed.

Lemma housekeeping_block s s' r : block_housekeeping s = (s', r) -> block_of s' = block_of s.
Proof.
  unfold block_housekeeping. rewrite (bind_run _ _ s s s) by done. cbv zeta. unfold mbind, M_bind, lift.
  destruct (update_producers_authority _ _); by intros [= <- _].
Qed.

Lemma start_block_starts c u cache w n st i clk l s : w <> 0 ->
  Controller.start_block nd pack_signatures signed_id pack_block_header c u cache w n st i clk = (l, Ok s) ->
  exists k, get_scheduled_producer (nd_head nd) w = Ok k /\ starts (nd_head nd) k n (block_of s).
Proof.
  intros Hw E. unfold Controller.start_block in E. destruct (generate_next (nd_head nd) w) as [b0|] eqn:E0; [|done]. cbv zeta in E.
  apply generate_next_header in E0 as (k & Hk & Hn & Hp & Ha & Hin); [|done]. exists k. split; [done|].
  destruct (set_confirmed_header b0 n) as (S1 & S2 & S3 & S4 & S5). destruct (maybe_promote_pending (set_confirmed b0 n)) as [b1 v] eqn:E1.
  apply promote_header in E1 as (P1 & P2 & P3).
  assert (starts (nd_head nd) k n b1) as Hb1.
  { constructor; [|congruence|congruence|congruence]. destruct v; [by right|]. subst b1. left. rewrite S4, Hp, S2, Ha. done. }
  destruct (_ || _); [|by injection E as _ <-].
  match type of E with context [(?m ≫= ?f) ?s0] => destruct ((m ≫= f) s0) as [s1 [[]|e]] eqn:Em; set (s00 := s0) in Em end; [|done]. injection E as _ <-.
  apply M_bind_Ok in Em as (s2 & [] & Ep & Em). apply M_bind_Ok in Em as (s3 & [] & Eo & Em).
  rewrite (housekeeping_block _ _ _ Em), (push_onblock_block _ _ _ _ Eo). unfold promote_proposed in Ep. rewrite (bind_run _ _ s00 s00 s00) in Ep by done. cbv zeta in Ep.
  destruct (gp_proposed_schedule_block_num _); [|by injection Ep as <-]. destruct (_ && _) eqn:Hv; [|by injection Ep as <-].
  apply andb_true_iff in Hv as [_ Hv]. apply negb_true_iff in Hv as ->. subst b1. apply M_bind_Ok in Ep as (s4 & b4 & E4 & Ep). apply lift_Ok in E4 as [-> E4].
  injection Ep as <-. simpl in E4 |- *. apply set_new_producers_header in E4 as (N1 & N2 & N3 & N4). destruct Hb1 as [B1 B2 B3 B4].
  constructor; [left; rewrite N3, N2, S4, Hp, S2, Ha; exact Hin|congruence|congruence|congruence].
Qed.

Lemma push_scheduled_block i d b e clk clk' s : block_of (Controller.push_scheduled_transaction nd pack_onerror i d b e clk clk' s).1 = block_of s.
Proof.
  destruct (Controller.push_scheduled_transaction nd pack_onerror i d b e clk clk' s) as [s' r] eqn:E. simpl.
  destruct (db_generated (ch_db (bs_chain s)) !! i) as [g|] eqn:Hg; [destruct (push_scheduled_cases nd pack_onerror i d b e clk clk' s s' r g Hg E) as [Hf _]; apply Hf|].
  unfold Controller.push_scheduled_transaction in E. rewrite Hg in E. by injection E as <- _.
Qed.

Lemma limits_block f s : block_of (on_chain_limits f s).1 = block_of s.
Proof. unfold on_chain_limits. by destruct (f _). Qed.

Lemma finalize_block_summary s : summary (block_of (finalize_block hash_receipt hash_action_receipt s).1) = summary (block_of s).
Proof.
  unfold finalize_block. rewrite (bind_run _ _ s s s) by done. destruct (block_parameters _) as [cpu net].
  assert (forall f (m : M build_state unit) s, (forall s', summary (block_of (m s').1) = summary (block_of s')) ->
    summary (block_of ((on_chain_limits f;; m) s).1) = summary (block_of s)) as Hl.
  { intros f m s1 Hm. unfold mbind, M_bind. pose proof (limits_block f s1) as Hb. destruct (on_chain_limits f s1) as [s2 [[]|e]]; simpl in Hb; [by rewrite Hm, Hb|simpl; by rewrite Hb]. }
  apply Hl. intros s1. apply Hl. intros s2. apply Hl. intros s3. done.
Qed.

Lemma sign_summary_of b f b' : BlockHeader.sign b f = Ok b' -> summary b' = summary b.
Proof. unfold BlockHeader.sign. cbv zeta. intros E. inv_ok. done. Qed.

End Blocks.

(** ** The fork database keeps its objects *)

Section Store.
Context `{Crypto} `{IndexOrder}.

Definition same_store (d d' : fork_database) : Prop := store d' = store d.

#[local] Instance same_store_preorder : PreOrder same_store.
Proof. split; [done|]. intros x y z Hxy Hyz. unfold same_store in *. congruence. Qed.

(** A write of something else than the store. *)
Lemma same_store_put d0 (f : fork_database -> fork_database) : (forall d, store (f d) = store d) -> same_store d0 (f d0).
Proof. intros Hf. apply Hf. Qed.

Lemma same_store_remove_loop fuel : forall i q, runs same_store (remove_loop fuel i q).
Proof.
  induction fuel as [|fuel IH]; intros i q; simpl; [eauto with runs|]. destruct (q !! i) as [x|]; [|eauto with runs].
  intros d d' r E Hd. rewrite (bind_run _ _ d d d) in E by done. cbv zeta in E. erewrite bind_run in E by reflexivity.
  etrans; [|by eapply IH]. unfold same_store. by destruct (find_id d x).
Qed.

Lemma same_store_remove i : runs same_store (remove i).
Proof.
  intros d d' r E Hd. unfold remove in E. rewrite (bind_run _ _ d d d) in E by done. revert E Hd. apply (runs_bind same_store); [apply same_store_remove_loop|].
  intros _ d1 d2 r2 E Hd. rewrite (bind_run _ _ d1 d1 d1) in E by done. unfold mbind, M_bind, lift in E. by destruct (begin_of _); injection E as <- _.
Qed.

Lemma same_store_forks fuel : forall num p, runs same_store (prune_forks fuel num p).
Proof.
  induction fuel as [|fuel IH]; intros num p; simpl; [eauto with runs|]. destruct p as [p|]; [|eauto with runs].
  apply runs_bind; [apply _|eauto with runs|]. intros d. destruct (negb _); [eauto with runs|]. destruct (_ =? _); [|eauto with runs].
  cbv zeta. apply runs_bind; [apply _|apply same_store_remove|]. intros _. apply IH.
Qed.

Lemma same_store_older fuel pr num : (forall h, runs same_store (pr h)) -> runs same_store (prune_older fuel pr num).
Proof.
  intros Hp. induction fuel as [|fuel IH]; simpl; [eauto with runs|]. apply runs_bind; [apply _|eauto with runs|]. intros d.
  destruct (List.hd_error _) as [b|]; [|eauto with runs]. destruct (_ <? _); [|eauto with runs]. apply runs_bind; eauto with runs.
Qed.

Lemma same_store_prune f fuel : forall h, runs same_store (prune f fuel h).
Proof.
  induction fuel as [|fuel IH]; intros h; simpl; [eauto with runs|]. apply runs_catch_all. apply runs_bind; [apply _|eauto with runs|]. intros d. cbv zeta.
  apply runs_bind; [apply _|by apply same_store_older|]. intros _ d1 d2 r E Hd. rewrite (bind_run _ _ d1 d1 d1) in E by done.
  assert (forall m : M fork_database unit, same_store d1 (m d1).1 -> (m;; d3 ← get_state; prune_forks fuel (bs_num (at_ (store d) h)) (lower_bound_num d3 (bs_num (at_ (store d) h)))) d1 = (d2, r) -> same_store d1 d2) as Hm.
  { intros m Hm E1. unfold mbind at 1, M_bind at 1 in E1. destruct (m d1) as [d3 [[]|e]]; simpl in Hm; [|by injection E1 as <- _].
    rewrite (bind_run _ _ d3 d3 d3) in E1 by done. etrans; [exact Hm|]. by eapply same_store_forks. }
  eapply Hm; [|exact E]. destruct (find_id _ _) as [itr|]; [|done]. unfold mbind, M_bind, put_state, lift, get_state. by destruct (f _).
Qed.

Lemma add_state_Ok f p skip d d' q : add_state f (Some p) skip d = (d', Ok q) -> q = p /\ store d' = store d.
Proof.
  intros E. unfold add_state in E. apply M_bind_Ok in E as (d1 & p1 & E1 & E). injection E1 as <- <-. apply M_bind_Ok in E as (d1 & dx & E1 & E). injection E1 as <- <-.
  apply M_bind_Ok in E as (d1 & [] & E1 & E). assert (d1 = d) as -> by (unfold M_ASSERT in E1; destruct (head d); [by injection E1 as <-|done]). clear E1.
  apply M_bind_Ok in E as (d1 & [] & E1 & E). assert (d1 = d) as ->.
  { destruct (negb skip); [|by injection E1 as <-]. cbv zeta in E1. unfold M_ASSERT in E1. destruct (find_id _ _) in E1; [by injection E1 as <-|done]. }
  clear E1. apply M_bind_Ok in E as (d1 & ins & E1 & E). assert (store d1 = store d) as Hs by (unfold insert_index in E1; destruct (find_id _ _); by injection E1 as <- _). clear E1.
  apply M_bind_Ok in E as (d2 & [] & E1 & E). assert (d2 = d1) as -> by (unfold M_ASSERT in E1; destruct ins; [by injection E1 as <-|done]). clear E1.
  apply M_bind_Ok in E as (d2 & dx & E1 & E). injection E1 as <- <-. apply M_bind_Ok in E as (d2 & best & E1 & E). apply lift_Ok in E1 as [-> _].
  apply M_bind_Ok in E as (d2 & [] & E1 & E). injection E1 as <-. cbv zeta in E. apply M_bind_Ok in E as (d3 & old & E1 & E). apply lift_Ok in E1 as [-> _].
  apply M_bind_Ok in E as (d3 & [] & E1 & E). injection E as <- <-. split; [done|]. destruct (_ <? _); [|by injection E1 as <-].
  pose proof (same_store_prune _ _ _ _ _ _ E1 I) as Hp. unfold same_store in Hp. by rewrite Hp.
Qed.

End Store.

(** ** The laws *)

Section Laws.
Context {DB : Type} `{Database chain_state DB} `{CbrtLaws} `{Crypto} `{MetaOrder} `{ActionData} `{TransactionData} `{HandlersKeep} `{IndexOrder}.
Context (conf : controller_config) (chain_id : digest) (mode : db_read_mode) (replay_head_time leeway : option Z) (trusted_producers : list account_name).
Context (pack_signatures : list signature_type -> Z) (signed_id : packed_transaction -> digest)
  (pack_onerror : Z -> list Z -> list Z) (pack_block_header : block_header -> list Z)
  (hash_receipt : transaction_receipt -> digest) (hash_action_receipt : action_receipt -> digest).
Context (readings : nat -> clock * (nat -> clock * clock)) (clocks : nat -> clock * clock).
Context (low_space low_reversible : node_state DB -> bool) (ordered : gmap digest transaction_metadata -> list (digest * transaction_metadata))
  (by_delay : gmap digest generated_transaction_object -> list scheduled) (logged : digest -> bool)
  (switch_signals : node_state DB -> signed_block -> list signal).

#[local] Instance chain : ProducerChain (node_state DB) :=
  node_chain conf chain_id mode replay_head_time leeway trusted_producers pack_signatures signed_id pack_onerror pack_block_header hash_receipt
    hash_action_receipt readings clocks low_space low_reversible ordered by_delay logged switch_signals.

(** Code behind a guard, in the pending block. *)
Lemma on_pending_head {A} e (m : clock * clock -> node -> M build_state A) (c : node_state DB) :
  head_of_node (on_pending conf chain_id mode replay_head_time leeway clocks e m c).1 = head_of_node c.
Proof. unfold on_pending. destruct (ns_pending c) as [s|]; [|done]. by destruct (m _ _ _). Qed.

Lemma on_pending_block {A} e (m : clock * clock -> node -> M build_state A) (c : node_state DB) b' :
  pending_block_state (on_pending conf chain_id mode replay_head_time leeway clocks e m c).1 = Some b' ->
  exists s clk nd, ns_pending c = Some s /\ b' = pb_block_state (bs_pending (m clk nd s).1).
Proof.
  unfold on_pending. simpl. destruct (ns_pending c) as [s|] eqn:Hs; simpl.
  - destruct (m _ _ s) as [s' r] eqn:Em. simpl. intros [= <-]. eexists s, _, _. split; [done|]. by rewrite Em.
  - by rewrite Hs.
Qed.

Lemma on_pending_same {A} e (m : clock * clock -> node -> M build_state A) (c : node_state DB) :
  (forall clk nd s, pb_block_state (bs_pending (m clk nd s).1) = pb_block_state (bs_pending s)) ->
  same_block c (on_pending conf chain_id mode replay_head_time leeway clocks e m c).1.
Proof.
  intros Hm. split; [apply on_pending_head|]. unfold on_pending. simpl. destruct (ns_pending c) as [s|] eqn:Hs; simpl; [|by rewrite Hs].
  specialize (Hm (clocks (ns_pushes c)) (node_view conf chain_id mode replay_head_time leeway c) s). destruct (m _ _ s). simpl in *. by rewrite Hm.
Qed.

(** A check in front. *)
Lemma checked {A} (P : node_state DB -> Prop) (m : M (node_state DB) unit) (f : M (node_state DB) A) c : (forall c, (m c).1 = c) -> P c -> P (f c).1 ->
  P ((m;; f) c).1.
Proof. intros Hm H0' Hf. unfold mbind, M_bind. specialize (Hm c). destruct (m c) as [c1 [[]|e]]; simpl in Hm; by subst. Qed.

Lemma db_check_silent (c : node_state DB) : (validate_db_available_size low_space c).1 = c.
Proof. unfold validate_db_available_size. rewrite (bind_run _ _ c c c) by done. by destruct (negb _). Qed.
Lemma assert_silent b e (c : node_state DB) : (M_ASSERT b e c).1 = c.
Proof. by destruct b. Qed.

#[local] Instance node_transaction_laws : TransactionLaws (C := node_state DB).
Proof.
  constructor.
  - intros c. split; simpl; unfold set_unapplied_now, head_of_node; by destruct (ns_pending c) as [s|] eqn:Hs; simpl; rewrite ?Hs.
  - intros i c. split; simpl; unfold set_unapplied_now, head_of_node; by destruct (ns_pending c) as [s|] eqn:Hs; simpl; rewrite ?Hs.
  - intros trx d c. apply (checked (same_block c)); [apply db_check_silent|done|]. apply (checked (same_block c)); [apply assert_silent|done|].
    apply (checked (same_block c)); [apply assert_silent|done|]. apply on_pending_same. intros clk nd s. apply push_transaction_frame.
  - intros i d c. apply (checked (same_block c)); [apply db_check_silent|done|]. apply on_pending_same. intros clk nd s. apply push_scheduled_block.
Qed.

(** The outcomes of [start_block]: nothing, or a block on the head. *)
Lemma start_outcome w n (c c' : node_state DB) r : chain_start_block w n c = (c', r) ->
  head_of_node c' = head_of_node c /\
  match r with
  | Ok _ => w <> 0 -> exists b k, pending_block_state c' = Some b /\ get_scheduled_producer (head_of_node c) w = Ok k /\ starts (head_of_node c) k n b
  | Err _ => ns_pending c = None -> pending_block_state c' = None
  end.
Proof.
  intros E. simpl in E. unfold node_start_block in E. unfold mbind at 1, M_bind at 1 in E. pose proof (db_check_silent c) as Hc.
  destruct (validate_db_available_size low_space c) as [c1 [[]|e]]; simpl in Hc; subst c1; [|injection E as <- <-; split; [done|intros Hn; simpl; by rewrite Hn]].
  rewrite (bind_run _ _ c c c) in E by done. destruct (ns_pending c) as [s0|] eqn:Hp; [by injection E as <- <-|]. rewrite (bind_run _ _ c c tt) in E by done.
  destruct (_ =? _); [|injection E as <- <-; split; [done|intros _; simpl; by rewrite Hp]]. rewrite (bind_run _ _ c c tt) in E by done. cbv zeta in E.
  match type of E with context [Controller.start_block ?a ?b ?c1 ?d ?e ?f ?g ?h ?i ?j ?k ?l] => destruct (Controller.start_block a b c1 d e f g h i j k l) as [lo [s|e0]] eqn:Es end;
    injection E as <- <-; (split; [done|]); [|done].
  intros Hw. apply start_block_starts in Es as (k & Hk & Hst); [|done]. by exists (pb_block_state (bs_pending s)), k.
Qed.

(** Signals of irreversible blocks only. *)
Lemma no_accepted (k k' : control DB left_over) b : accepted_block b ∉ newly_irreversible k k'.
Proof. unfold newly_irreversible. intros (p & Hp & _)%list_elem_of_fmap. done. Qed.

Lemma foldl_irreversible_fork l : forall k : control DB left_over, co_fork (foldl on_irreversible k l) = co_fork k.
Proof. induction l as [|p l IH]; intros k; [done|]. simpl. by rewrite IH. Qed.

(** The block that was committed is the head. *)
Lemma commit_own_head s (k k' : control DB left_over) : commit_own s k = (k', Ok tt) -> head_state k' = pending_block_object s.
Proof.
  intros E. unfold commit_own in E. apply M_bind_Ok in E as (k1 & p & E1 & E). unfold on_fork in E1. injection E1 as <- <-.
  apply M_bind_Ok in E as (k2 & q & E2 & E). unfold on_fork_signals in E2. destruct (add_state _ _ _ _) as [d [q'|]] eqn:Ea; [|done].
  apply add_state_Ok in Ea as [-> Hs]. injection E2 as Hk2 <-. assert (co_fork k2 = d) as Hd by (rewrite <- Hk2; by rewrite foldl_irreversible_fork). clear Hk2.
  apply M_bind_Ok in E as (k3 & kx & E3 & E). injection E3 as <- <-. apply M_bind_Ok in E as (k3 & hd & E3 & E). apply lift_Ok in E3 as [-> E3].
  apply M_bind_Ok in E as (k3 & [] & E4 & E). injection E4 as <-. apply M_bind_Ok in E as (k3 & [] & E4 & E).
  unfold M_ASSERT in E4. destruct (bool_decide _) eqn:Hq; [|done]. injection E4 as <-. apply bool_decide_eq_true in Hq.
  apply M_bind_Ok in E as (k3 & kx & E4 & E). injection E4 as <- <-. cbv zeta in E. destruct (_ !! _); [done|]. injection E as <-.
  unfold head_state. simpl. rewrite Hd, Hs, <- Hq. simpl. unfold at_. apply lookup_total_insert_eq.
Qed.

#[local] Instance node_block_laws : BlockLaws (node_state DB).
Proof.
  constructor.
  - intros c. simpl. unfold node_abort_block. by destruct (ns_pending c).
  - intros c. simpl. unfold node_abort_block. by destruct (ns_pending c) as [s|] eqn:Hs; simpl; rewrite ?Hs.
  - intros w n c. destruct (chain_start_block w n c) as [c' r] eqn:E. by apply start_outcome in E as [Hh _].
  - intros w n c c' _ Hw E. apply start_outcome in E as [_ E]. destruct (E Hw) as (b & k & Hb & Hk & [S1 S2 S3 S4]). by exists b, k.
  - intros w n c c' e Hp E. apply start_outcome in E as [_ E]. apply E. simpl in Hp. by destruct (ns_pending c).
  - intros c. apply (checked (fun c' => head_block_state c' = head_block_state c)); [apply db_check_silent|done|apply on_pending_head].
  - intros c b'. apply (checked (fun c' => pending_block_state c' = Some b' -> exists b, pending_block_state c = Some b /\ summary b' = summary b));
      [apply db_check_silent|by eauto|]. intros (s & clk & nd & Hs & ->)%on_pending_block. exists (pb_block_state (bs_pending s)). simpl. rewrite Hs.
    split; [done|apply finalize_block_summary].
  - intros f c. apply on_pending_head.
  - intros f c b' (s & clk & nd & Hs & ->)%on_pending_block. exists (pb_block_state (bs_pending s)). simpl. rewrite Hs. split; [done|].
    destruct (BlockHeader.sign _ f) as [b|e] eqn:Ef; [by apply sign_summary_of in Ef|done].
  - intros c c' l E. simpl in E. unfold node_commit_block in E. destruct (_ || _); [done|]. destruct (ns_pending c) as [s|] eqn:Hs; [|done]. cbv zeta in E.
    destruct (commit_own s _) as [k' [[]|e]] eqn:Ec; [|done]. injection E as <- <-. exists (pb_block_state (bs_pending s)). split_and!; [simpl; by rewrite Hs|done| |].
    + simpl. unfold head_of_node. simpl. change (head_state (set_db k' _ _ _)) with (head_state k'). by rewrite (commit_own_head _ _ _ Ec).
    + intros b' [Hb|Hb]%elem_of_app; [by apply no_accepted in Hb|]. apply list_elem_of_singleton in Hb. by injection Hb as ->.
  - intros c c' l e E. simpl in E. unfold node_commit_block in E. destruct (_ || _).
    { injection E as <- <- _. split; [intros b; apply not_elem_of_nil|by eauto]. }
    destruct (ns_pending c) as [s|] eqn:Hs; [|injection E as <- <- _; split; [intros b; apply not_elem_of_nil|simpl; by rewrite Hs]]. cbv zeta in E.
    destruct (commit_own s _) as [k' [[]|e0]] eqn:Ec; [done|]. injection E as <- <- _. split; [intros b; apply no_accepted|done].
  - intros b c Hp. simpl in *. unfold node_push_block. destruct (_ || _); [done|]. destruct (ns_pending c); [done|]. by destruct (ForkSwitch.push_block _ _ _ _ _ _ _).
Qed.

End Laws.
