(* ===== verification/ProducerRuns.v ===== *)
(** * A node that produces

    The plugin on top of the controller: a node with one producer starts up,
    produces two blocks one after the other, runs the scheduled transactions of
    the first one and answers a transaction that waited for a block. Another run
    shows how a watermark falls behind. *)

From Stdlib Require Import ZArith Lia Bool.
From stdpp Require Import base numbers gmap list relations.
From S2P Require Import Prelude Merkle BlockTime BlockHeader BlockHeaderProofs Float64 ResourceLimits Authority Permissions NativeActions ChainConfig Transaction.
From S2P Require Import Block ForkDatabase ForkDatabaseRuns TransactionContext TransactionProofs TransactionRuns ApplyContext ApplyRuns NativeRuns Controller.
From S2P Require Import ControllerProofs ControllerRuns ForkSwitch ForkSwitchRuns ProducerPlugin ProducerPluginProofs ProducerSafety ProducerQueue ProducerNode.

Open Scope Z_scope.

Module ProducerDemo.
Import BlockHeaderProofs.Concrete ForkDatabaseRuns.Stable ControllerRuns.ControllerDemo.
#[local] Existing Instances ResourceLimitsProofs.Runs.cbrt ResourceLimitsProofs.Runs.cbrt_laws AuthorityProofs.Runs.order NativeRuns.Runs.data
  TransactionProofs.TransactionDemo.demo_data ControllerRuns.ControllerDemo.handlers ControllerRuns.ControllerDemo.handlers_keep.

(** ** The node *)

Notation chain9_node := (node_state (stack chain_state)).

Definition rows (g : gmap digest generated_transaction_object) : list scheduled :=
  (fun kv => mk_scheduled (gt_delay_until kv.2) 0 (gt_published kv.2) kv.1) <$> map_to_list g.

#[local] Instance demo_chain_node : ProducerChain chain9_node :=
  node_chain TransactionRuns.ContextDemo.open_node zero_digest SPECULATIVE None None [] (fun _ => 66) (fun _ => zero_digest) (fun _ _ => [])
    (fun _ => []) hash_tr hash_ar (fun _ => (clk, fun _ => (clk, clk))) (fun _ => (clk, clk)) (fun _ => false) (fun _ => false) map_to_list rows
    (fun _ => false) (fun _ _ => []).
#[local] Instance demo_transaction_laws : TransactionLaws (C := chain9_node).
Proof. apply node_transaction_laws. Defined.
#[local] Instance demo_block_laws : BlockLaws chain9_node.
Proof. apply node_block_laws. Defined.

Definition block9 : block_state := mk_block_state state9 (mk_block (header state9) [] []) true true [].
Definition fork9 : fork_database := mk_fork_database {[ 0%nat := block9 ]} 1%nat [0%nat] (Some 0%nat) [].
Definition node9 : chain9_node := mk_node_state (mk_control fork9 0%nat (mk_stack chain9 9 []) ∅ (∅, []) false 0%nat) None 0%nat.

(** The producer 5 with its key; the clock stands still at the time of the head. *)
Definition keys : gmap Z (digest -> signature_type) := {[ 50 := fun _ => 50 ]}.
Definition clock95 (n : nat) : Z := to_time_point 95.
Definition options : runtime_options := mk_runtime 30 (-1) 0 0 100 (of_int 1).
Definition plugin0 : plugin chain9_node :=
  mk_plugin node9 (mk_policy true false options 0) (mk_signing ∅ 0 0) (mk_queues [] [] [] (of_int 0)) speculating [] 0 false 0%nat [].

Definition startup : M (plugin chain9_node) unit := plugin_startup [5] keys clock95 (fun _ => zero_digest) 10%nat true None.
Definition plugin1 : plugin chain9_node := (startup plugin0).1.

(** ** Two blocks *)

Definition handle (s : plugin chain9_node) : M (plugin chain9_node) unit :=
  match last (pp_waits s) with Some w => on_wait [5] keys 0 clock95 (fun _ => zero_digest) 10%nat w | None => mret tt end.
Definition plugin2 : plugin chain9_node := (handle plugin1 plugin1).1.
Definition plugin3 : plugin chain9_node := (handle plugin2 plugin2).1.

(** A transaction that waits until the first block is started. *)
Definition early : incoming := mk_incoming (packed_of_signed (mk_signed ApplyRuns.ApplyDemo.calling [] []) none) true 7%nat.
Definition plugin0' : plugin chain9_node := (receive_transaction clock95 early plugin0).1.
Definition plugin1' : plugin chain9_node := (startup plugin0').1.

Example two_blocks : pp_events plugin3 = [produced_block 5 10 0; produced_block 5 11 0].
Proof. vm_compute. reflexivity. Qed.

Lemma clock95_early n : clock95 n < to_time_point last_slot.
Proof. vm_compute. reflexivity. Qed.

Notation demo_step := (step [5] keys 0 clock95 (fun _ => zero_digest) unpackable).

Lemma startup_step s s' : (startup s).1 = s' -> defined (startup s).2 -> era (pp_chain s') -> demo_step s s'.
Proof. intros <- Hd He. exists startup, (startup s).2. split_and!; [constructor|apply surjective_pairing|done|done]. Qed.

Lemma handle_step s s' w : last (pp_waits s) = Some w -> (handle s s).1 = s' -> defined (handle s s).2 -> era (pp_chain s') -> demo_step s s'.
Proof.
  intros Hw <- Hd He. unfold handle in *. rewrite Hw in *. eexists _, _. split_and!; [|apply surjective_pairing|exact Hd|exact He].
  constructor. by apply last_Some_elem_of.
Qed.

Lemma two_blocks_run : rtc demo_step plugin0 plugin3.
Proof.
  eapply rtc_l; [apply (startup_step _ plugin1); [reflexivity|vm_compute; done|split; vm_compute; done]|].
  eapply rtc_l; [eapply (handle_step _ plugin2); [vm_compute; reflexivity|reflexivity|vm_compute; done|split; vm_compute; done]|].
  eapply rtc_l; [eapply (handle_step _ plugin3); [vm_compute; reflexivity|reflexivity|vm_compute; done|split; vm_compute; done]|].
  apply rtc_refl.
Qed.

Lemma never_confirms_twice_witness : 10 < 11 - 0.
Proof.
  apply (never_confirms_twice [5] keys 0 clock95 (fun _ => zero_digest) clock95_early unpackable plugin0 plugin3 5 10 0 11 0 [] [] []).
  - split_and!; reflexivity.
  - apply two_blocks_run.
  - apply two_blocks.
  - intros n Hn. inversion Hn.
Defined.

Lemma early_unpackable : unpackable early.
Proof. eexists. vm_compute. reflexivity. Qed.

Lemma early_run : rtc demo_step plugin0 plugin1'.
Proof.
  apply (rtc_l _ _ plugin0').
  - eexists _, _. split_and!; [apply act_transaction, early_unpackable|apply surjective_pairing|vm_compute; done|split; vm_compute; done].
  - apply (rtc_l _ _ plugin1'); [|apply rtc_refl]. apply startup_step; [reflexivity|vm_compute; done|split; vm_compute; done].
Qed.

Lemma incoming_answered_once_witness :
  received_of (pp_events plugin1') ≡ₚ answered_of (pp_events plugin1') ++ (in_next <$> pending_incoming_transactions (pp_queues plugin1')).
Proof.
  apply (incoming_answered_once [5] keys 0 clock95 (fun _ => zero_digest) plugin0 plugin1').
  - split; reflexivity.
  - apply early_run.
  - vm_compute. reflexivity.
Defined.

(** The transaction was answered, not forgotten. *)
Example early_answered : answered_of (pp_events plugin1') = [7%nat].
Proof. vm_compute. reflexivity. Qed.

(** The third producer of the schedule waits for slot 120; with a watermark of 50 at
    block 9 its turn there is too early, and it waits for the next one. *)
Definition waiting50 : plugin chain9_node := set_signing plugin0 (mk_signing {[ 7 := 50 ]} 0 0).
Example waits_longer : calculate_next_block_time plugin0 7 96 = Some (to_time_point 120) /\ calculate_next_block_time waiting50 7 96 = Some (to_time_point 168).
Proof. vm_compute. split; reflexivity. Qed.

Lemma next_block_time_earliest_witness : exists slot, to_time_point 168 = to_time_point slot /\ allowed waiting50 7 96 slot /\ turn state9 7 slot.
Proof.
  assert (NoDup (names (producers schedule1))) as Hd by (apply (bool_decide_unpack (NoDup (names (producers schedule1)))); vm_compute; exact I).
  assert (far_from_bounds waiting50 7 96) as Hb.
  { constructor; [split; vm_compute; congruence|split; vm_compute; congruence|]. intros w Hw. vm_compute in Hw. injection Hw as <-. split; vm_compute; congruence. }
  pose proof (next_block_time_earliest waiting50 7 96 Hd Hb) as Hn. rewrite (proj2 waits_longer) in Hn.
  destruct Hn as (_ & slot & Hs & Ha & Ht & _). exists slot. split; [exact Hs|]. split; [exact Ha|exact Ht].
Defined.

(** ** A watermark that falls *)

(** A block of another branch that brings producer 5 back. *)
Definition returning : block_header_state :=
  mk_bhs (id state9) 9 (header state9) 6 5 0 1 zero_digest schedule1 (mk_schedule 0 [mk_producer_key 6 60]) (mk_imerkle 0 []) ∅ {[ 6 := 6 ]} 60 [1; 1; 3] [].
Definition ahead : plugin chain9_node := set_signing plugin0 (mk_signing {[ 5 := 20 ]} 0 0).

(** Producer 5 has produced block 20; now its watermark is 9. *)
Example watermark_lowered : producer_watermarks (pp_signing (on_block [5] keys 0 returning ahead).1) !! 5 = Some 9.
Proof. vm_compute. reflexivity. Qed.

(** With 65536 blocks to confirm, none is confirmed. *)
Definition far_behind : plugin chain9_node :=
  set_mode (set_signing (set_pp_chain plugin0 (mk_node_state
    (mk_control (mk_fork_database {[ 0%nat := set_header_state block9 (mk_bhs (id state9) 65546 (header state9) 6 5 0 1 zero_digest schedule1 schedule1
       (mk_imerkle 0 []) ∅ ∅ 60 [] []) ]} 1%nat [0%nat] (Some 0%nat) []) 0%nat (mk_stack chain9 9 []) ∅ (∅, []) false 0%nat) None 0%nat))
    (mk_signing {[ 5 := 10 ]} 0 0)) producing.
Example confirmations_truncated : blocks_to_confirm far_behind 5 = 0.
Proof. vm_compute. reflexivity. Qed.

(** A transaction that cannot be unpacked waits like others; when its turn comes
    the exception leaves the loop, which does not wait for anything then. *)
Definition garbage : incoming := mk_incoming (mk_packed [] None [] [] None) true 8%nat.
Definition spoiled : plugin chain9_node := (receive_transaction clock95 garbage plugin0).1.
Example loop_left : (startup spoiled).2 = Err unknown_transaction_compression /\ pp_waits (startup spoiled).1 = [] /\
  answered_of (pp_events (startup spoiled).1) = [] /\ pending_incoming_transactions (pp_queues (startup spoiled).1) = [].
Proof. vm_compute. repeat split. Qed.

End ProducerDemo.
